(* ===== verification/_CoqProject ===== *)
-Q . S2P
Prelude.v
Coding.v
Crc32c.v
Comparator.v
DbFormat.v
Status.v
Env.v
FileSystem.v
Filename.v
VersionEdit.v
FilterPolicy.v
FilterBlock.v
Random.v
SkipList.v
MemTable.v
Arena.v
WriteBatch.v
Log.v
Crash.v
Format.v
Iterator.v
TwoLevelIterator.v
Version.v
Block.v
Merger.v
DbIter.v
TableBuilder.v
Table.v
TableCache.v
VersionSet.v
Score.v
Compaction.v
Manifest.v
Flush.v
InternalIterator.v
DbImpl.v
Snapshot.v
CompactionVersion.v
CompactionWork.v
CompactionLoop.v
CompactionResults.v
Background.v
Schedule.v
DbWrite.v
DbRead.v
ReadStats.v
Store.v
Recovery.v
Reopen.v
StoreSpec.v
StoreCrash.v
