(* ===== verification/Prelude.v ===== *)
(** * A model of LevelDB and its correctness

    The repository is a collection of C++ projects.  This development models LevelDB (src/leveldb), an embedded store of
    keys and values: writes go to a log and a memtable, memtables are written to sorted tables, tables are arranged in
    levels and listed in a descriptor, and reads look for the newest entry of a key at a snapshot.

    ** Conventions

    Integers of [w] bits are [Z] with the conversions [wrap] (unsigned) and [swrap] (signed) written where the code converts;
    bytes are [Byte.byte]; [Slice] and [std::string] are lists of bytes ([slice]).  A function that changes objects takes
    them and returns them.  Errors of the code are values of [Status].  [None] stands for what the code must not do: a
    read outside of memory it owns, the use of a null pointer, or a loop that does not end.  Loops that are not structural
    have fuel; the theorems show that the fuel is enough.

    Code that is not in the repository is a parameter: the accelerated CRC ([Checksum] says that it is the CRC), the
    compression libraries ([SnappyLaws], [ZstdLaws]), user comparators ([ComparatorLaws], [SeparatorSame]), filter policies
    ([FilterPolicyLaws]).  The file system is a map from names to contents with a list of faults, one per call, that may
    cut a write after any byte ([EnvState]).  A file that is written has its bytes as soon as they are appended, which is what
    the end of a process leaves; a machine that loses what was not synced is not modelled.

    ** Files

    - [Prelude]: integers, bytes, lists, tactics and the hint database [ldb].
    - [Coding] (util/coding.cc, include/leveldb/slice.h), [Crc32c] (util/crc32c.cc), [Comparator] (util/comparator.cc),
      [Status] (util/status.cc), [Random] (util/random.h), [DbFormat] (db/dbformat.cc).
    - [Env] and [FileSystem] (include/leveldb/env.h, util/env.cc), [Filename] (util/logging.cc, db/filename.cc).
    - [FilterPolicy] (util/hash.cc, util/bloom.cc), [FilterBlock] (table/filter_block.cc).
    - [SkipList] (db/skiplist.h), [MemTable] (db/memtable.cc), [Arena] (util/arena.cc, and the memory that a memtable
      takes), [WriteBatch] (db/write_batch.cc), [Log] (db/log_writer.cc,
      db/log_reader.cc).
    - [Format] (table/format.cc), [Block] (table/block_builder.cc, table/block.cc), [TableBuilder]
      (table/table_builder.cc), [Table] (table/table.cc), [TableCache] (db/table_cache.cc, db/builder.cc).
    - [Iterator] (include/leveldb/iterator.h, table/iterator_wrapper.h) has the contract [IterLaws] against which
      [TwoLevelIterator] (table/two_level_iterator.cc), [Merger] (table/merger.cc) and [DbIter] (db/db_iter.cc) are proved,
      and which blocks, memtables and tables satisfy.
    - [VersionEdit] (db/version_edit.cc), [Version] and [VersionSet] (db/version_set.cc), [Manifest] (the states that the
      calls of the version set lead to, with crashes).
    - [Compaction] (the class of db/version_set.cc and the choice of its inputs) with [Score] (the double-precision scores of
      the levels), [Snapshot] (db/snapshot.h), [InternalIterator] (the iterators over the files of a version and over the
      inputs of a compaction).
    - db/db_impl.cc: [DbWrite] (group commit and the replay of a log), [Flush] and [DbImpl] ([Get], the compaction of a
      memtable, obsolete files), [CompactionWork] (the compaction of tables), [Schedule] (the scheduling of the background
      work and the threads that wait for it), [DbRead] (the iterators), [Store] (the writers with [MakeRoomForWrite], reads,
      snapshots and manual compactions on one state) and [Recovery] ([DBImpl::Recover], [DB::Open], [DestroyDB]).
    - Proofs about them: [CompactionVersion] (what a compaction may leave out), [CompactionLoop] (the loop over the inputs),
      [CompactionResults] (the new version), [Background] (no compaction changes a read), [ReadStats] (the seeks that reads
      charge), [Crash] (the records of a log that the end of the process cuts), [Reopen] (the store that is opened, also on a torn
      log), [StoreSpec] (the whole store against a map) and [StoreCrash] (a process that ends in a write).

    ** What is proved

    - Formats: encodings are decoded to what was encoded (varints, footers, write batches, version edits, file names), and
      decoders return on any bytes, within their bounds.
    - Data structures refine lists: the skip list, also under a reader that runs between the stores of an insertion; blocks,
      tables and merged iterators under any sequence of iterator calls; filters have no false negatives.
    - Recovery: a log cut at any byte gives a prefix of its records.  The end of the process is a list of faults ([crashing]): some calls
      succeed, one may write a part of its bytes, and the rest have no effect.  When it comes at any call of [LogAndApply],
      [Recover] finds the version of before or of after; when it comes at any call that writes the log in [Write], [DB::Open]
      gives a store with all writes of before and all or none of the group ([crash_in_write_recovers] of [StoreCrash], without
      [reuse_logs]: a finding shows what goes wrong with it).
    - Files: [RemoveObsoleteFiles] and [DestroyDB] remove what they should and nothing else, whatever calls fail, and the inputs
      of a compaction have the files of its range and are closed under common user keys.
    - Reads: memtables and versions return the newest visible entry; the compaction of a memtable changes no read, and the
      compaction of tables, by sizes, seeks or a manual range, changes no read of a live snapshot; the iterator of the
      database visits the user keys whose newest visible entry is a value.
    - The whole store: [store_refines_map] of [StoreSpec].  From [DB::Open] on a new directory on, the operations of the store
      and of a map that is copied for each snapshot give the same results, in any order, with the background thread running
      between them, and with the process ending and the store opened again between any two.  It is proved by an invariant
      ([store_inv] of [Store]) that ties the memtables, tables, versions, descriptor and logs to the history of the writes,
      one lemma for each operation.  Each operation returns: the waits for the background work end, and the fuel is 14 rounds
      for each entry and 5 more for the loops that wait, and one step for each entry for a compaction.
    - Progress: the background work comes to rest, and a manual compaction returns.
    - Errors: [ReadBlock_overflow] and [DecodeEntry_overflow] say on which inputs sums of lengths wrap around and reads leave their
      bounds.  The runs [trailer_error_lost] and [failed_append_loses_next] of [Log], [reused_torn_log_loses_writes] of
      [StoreSpec] and [flush_in_manual_compaction_hides_write] of [Background] show on a fixed input what the findings say.

    ** Not modelled

    Threads are modelled where the code lets them interleave without a lock: the reader of the skip list, the queue of writers,
    and the steps of others between the iterations of a compaction (the parameter [others]).  The theorems on the reads and on
    the whole store run each call of the background thread, and each operation, without others; a finding shows what a memtable
    compacted in the middle of a manual compaction can do.  An operation that waits lets the background thread run.  Memory
    orders, the clock, statistics, info logs, directories, the destructor of the database and the reference counts of objects
    other than versions and memtables are not modelled, nor are repair, the C interface, the properties and approximate sizes of
    a database, the block cache, the operating system environments and the tools.  The other
    projects of the repository (brpc, coost, cpp-tbox, disruptor--, muduo, netLink, CppFreeMock) are mostly wrappers of
    system calls, threads, assembly and generated code.

    This file holds machine integers, bytes and slices, automation, and the lemmas on lists, bits and little-endian numbers
    that the components share. *)

From Stdlib Require Export ZArith Lia.
From Stdlib Require Import Strings.Byte.
From stdpp Require Export base tactics numbers option sorting countable list.

#[global] Open Scope Z_scope.

(** * Machine integers *)

(** Conversion of an integer to an unsigned type of [w] bits. *)
Definition wrap (w z : Z) : Z := z mod 2 ^ w.

Abbreviation u8 := (wrap 8).
Abbreviation u32 := (wrap 32).
Abbreviation u64 := (wrap 64).

(** Conversion of an integer to a signed type of [w] bits. *)
Definition swrap (w z : Z) : Z := let r := wrap w z in if r <? 2 ^ (w - 1) then r else r - 2 ^ w.

Abbreviation i32 := (swrap 32).
Abbreviation i64 := (swrap 64).

(** The values of an unsigned type of [w] bits. *)
Definition in_u (w z : Z) : Prop := 0 <= z < 2 ^ w.

Abbreviation is_u8 := (in_u 8).
Abbreviation is_u32 := (in_u 32).
Abbreviation is_u64 := (in_u 64).

#[export] Instance in_u_dec w z : Decision (in_u w z).
Proof. unfold in_u. apply _. Defined.

(** [lia] with the divisions and remainders of the context made linear first. *)
Ltac dlia := Z.div_mod_to_equations; lia.

(** * Bytes *)

Abbreviation byte := Byte.byte.

(** [uval b] is the byte as an [uint8_t], [of_uval z] the conversion of an integer to [uint8_t]. *)
Definition uval (b : byte) : Z := Z.of_N (Byte.to_N b).

Definition of_uval (z : Z) : byte :=
  match Byte.of_N (Z.to_N (u8 z)) with
  | Some b => b
  | None => Byte.x00
  end.

(** The byte as a (signed) [char]. *)
Definition sval (b : byte) : Z := if uval b <? 128 then uval b else uval b - 256.

#[export] Instance byte_eq_dec : EqDecision byte := Byte.byte_eq_dec.

#[export] Instance byte_countable : Countable byte.
Proof. apply (inj_countable Byte.to_N Byte.of_N). intros b. apply Byte.of_to_N. Defined.

#[export] Instance byte_inhabited : Inhabited byte := populate Byte.x00.

Abbreviation slice := (list byte).

(** [Slice::size()]. *)
Abbreviation slen s := (Z.of_nat (length s)).

(** The byte at offset [i] of a buffer, as an [uint8_t]. *)
Definition byte_at (s : slice) (i : nat) : Z := uval (nth i s Byte.x00).

Lemma uval_range b : 0 <= uval b < 256.
Proof.
  unfold uval. pose proof (Byte.to_N_bounded b). lia.
Qed.

Lemma uval_of_uval z : uval (of_uval z) = u8 z.
Proof.
  unfold of_uval, uval, wrap.
  pose proof (Z.mod_pos_bound z (2 ^ 8)) as Hb.
  destruct (Byte.of_N (Z.to_N (z mod 2 ^ 8))) as [b|] eqn:E.
  - apply Byte.to_of_N in E. rewrite E. lia.
  - apply Byte.of_N_None_iff in E. lia.
Qed.

#[export] Instance uval_inj : Inj (=) (=) uval.
Proof.
  intros a b H. unfold uval in H. apply N2Z.inj in H.
  pose proof (Byte.of_to_N a) as Ha. pose proof (Byte.of_to_N b) as Hb. congruence.
Qed.

Lemma of_uval_uval b : of_uval (uval b) = b.
Proof.
  apply (inj uval). rewrite uval_of_uval. apply Z.mod_small. apply uval_range.
Qed.

Lemma uval_of_uval_small z : 0 <= z < 256 -> uval (of_uval z) = z.
Proof. intros. rewrite uval_of_uval. apply Z.mod_small. lia. Qed.

Lemma wrap_range w z : 0 <= w -> 0 <= wrap w z < 2 ^ w.
Proof. intros. apply Z.mod_pos_bound. lia. Qed.

Lemma wrap_in_u w z : 0 <= w -> in_u w (wrap w z).
Proof. apply wrap_range. Qed.

Lemma wrap_small w z : in_u w z -> wrap w z = z.
Proof. apply Z.mod_small. Qed.

Lemma swrap_small w z : 1 <= w -> 0 <= z < 2 ^ (w - 1) -> swrap w z = z.
Proof.
  intros Hw Hz. assert (2 ^ w = 2 * 2 ^ (w - 1)) as E by (rewrite <-Z.pow_succ_r by lia; f_equal; lia). unfold swrap. rewrite wrap_small by (unfold in_u; lia). by destruct (Z.ltb_spec z (2 ^ (w - 1))); [|lia].
Qed.

Lemma wrap_wrap w z : 0 <= w -> wrap w (wrap w z) = wrap w z.
Proof. intros. by apply wrap_small, wrap_in_u. Qed.

Lemma of_uval_wrap w z : 8 <= w -> of_uval (wrap w z) = of_uval z.
Proof.
  intros. apply (inj uval). rewrite !uval_of_uval. unfold wrap.
  apply Z.mod_mod_divide.
  exists (2 ^ (w - 8)). rewrite <-Z.pow_add_r by lia. f_equal. lia.
Qed.

(** * Bits *)

Lemma testbit_high w z i : 0 <= z < 2 ^ w -> w <= i -> Z.testbit z i = false.
Proof.
  intros Hz Hi. destruct (decide (0 <= w)).
  - rewrite <-(Z.mod_small z (2 ^ w)) by done. by apply Z.mod_pow2_bits_high.
  - rewrite Z.pow_neg_r in Hz by lia. lia.
Qed.

Lemma land_shiftl_low a b n : 0 <= n -> 0 <= a < 2 ^ n -> Z.land a (Z.shiftl b n) = 0.
Proof.
  intros Hn Ha. apply Z.bits_inj'. intros i Hi.
  rewrite Z.land_spec, Z.bits_0, Z.shiftl_spec by lia.
  destruct (decide (i < n)).
  - rewrite (Z.testbit_neg_r b) by lia. apply andb_false_r.
  - rewrite (testbit_high n a) by lia. done.
Qed.

(** A bitwise or of disjoint parts is a sum. *)
Lemma lor_shiftl_add a b n : 0 <= n -> 0 <= a < 2 ^ n -> Z.lor a (Z.shiftl b n) = a + b * 2 ^ n.
Proof.
  intros Hn Ha. pose proof (land_shiftl_low a b n Hn Ha) as Hl.
  rewrite <-Z.lxor_lor, <-Z.add_nocarry_lxor, Z.shiftl_mul_pow2 by done. done.
Qed.

Lemma lor_mul_add a b n : 0 <= n -> 0 <= a < 2 ^ n -> Z.lor a (b * 2 ^ n) = a + b * 2 ^ n.
Proof. intros. rewrite <-lor_shiftl_add, Z.shiftl_mul_pow2 by done. done. Qed.

Lemma land_low_mod z n : 0 <= n -> Z.land z (2 ^ n - 1) = z mod 2 ^ n.
Proof. intros. rewrite <-Z.land_ones, Z.ones_equiv by done. done. Qed.

Lemma in_u_land_ones w z : 0 <= w -> in_u w z <-> Z.land z (Z.ones w) = z.
Proof.
  intros. rewrite Z.land_ones by done. split; [apply Z.mod_small|].
  intros <-. by apply (wrap_in_u w).
Qed.

Lemma lor_in_u w a b : 0 <= w -> in_u w a -> in_u w b -> in_u w (Z.lor a b).
Proof.
  intros Hw. rewrite !in_u_land_ones, Z.land_lor_distr_l by done. by intros -> ->.
Qed.

Lemma lxor_in_u w a b : 0 <= w -> in_u w a -> in_u w b -> in_u w (Z.lxor a b).
Proof.
  intros Hw Ha Hb. rewrite in_u_land_ones in * by done.
  rewrite <-Ha, <-Hb at 2. apply Z.bits_inj'. intros i Hi. rewrite <-Ha, <-Hb.
  rewrite !Z.land_spec, !Z.lxor_spec, !Z.land_spec. by destruct (Z.testbit a i), (Z.testbit b i), (Z.testbit (Z.ones w) i).
Qed.

Lemma shiftr_in_u w z n : 0 <= n -> in_u w z -> in_u w (Z.shiftr z n).
Proof.
  unfold in_u. intros Hn Hz. rewrite Z.shiftr_div_pow2 by done. split; [apply Z.div_pos; lia|].
  apply Z.le_lt_trans with z; [|lia]. apply Z.div_le_upper_bound; [lia|]. nia.
Qed.

(** [eauto with ints] shows that an expression stays in its width. *)
Create HintDb ints.
#[export] Hint Resolve wrap_in_u lor_in_u lxor_in_u shiftr_in_u : ints.
#[export] Hint Extern 2 (_ <= _) => lia : ints.

(** * Little-endian numbers *)

Fixpoint le_enc (n : nat) (v : Z) : slice :=
  match n with
  | O => []
  | S n => of_uval v :: le_enc n (v / 256)
  end.

Fixpoint le_dec (s : slice) : Z :=
  match s with
  | [] => 0
  | b :: s => uval b + 256 * le_dec s
  end.

Lemma length_le_enc n v : length (le_enc n v) = n.
Proof. revert v. induction n; intros; simpl; auto. Qed.

Lemma le_dec_range s : 0 <= le_dec s < 2 ^ (8 * slen s).
Proof.
  induction s as [|b s IH]; simpl length; [simpl; lia|].
  replace (8 * Z.of_nat (S (length s))) with (8 + 8 * slen s) by lia.
  rewrite Z.pow_add_r by lia. pose proof (uval_range b).
  cbn [le_dec]. lia.
Qed.

Lemma le_dec_enc n v : le_dec (le_enc n v) = v mod 2 ^ (8 * Z.of_nat n).
Proof.
  revert v. induction n as [|n IH]; intros v; cbn [le_enc le_dec].
  - by rewrite Z.mod_1_r.
  - rewrite IH, uval_of_uval. unfold wrap.
    replace (8 * Z.of_nat (S n)) with (8 + 8 * Z.of_nat n) by lia.
    rewrite Z.pow_add_r by lia. rewrite Z.rem_mul_r by lia. done.
Qed.

Lemma le_enc_dec s : le_enc (length s) (le_dec s) = s.
Proof.
  induction s as [|b s IH]; [done|]. cbn [length le_enc le_dec].
  pose proof (uval_range b). f_equal.
  - apply (inj uval). rewrite uval_of_uval. unfold wrap.
    rewrite (Z.mul_comm 256), Z.mod_add by lia. apply Z.mod_small. lia.
  - rewrite (Z.mul_comm 256), Z.div_add by lia. rewrite (Z.div_small (uval b)) by lia.
    by rewrite Z.add_0_l.
Qed.

(** * Lists *)

Lemma app_eq_split {A} (a b c d : list A) :
  a ++ b = c ++ d -> (length c <= length a)%nat -> exists k, a = c ++ k /\ d = k ++ b.
Proof.
  intros E Hl. exists (drop (length c) a). split.
  - rewrite <-(take_drop (length c) a) at 1. f_equal.
    apply (f_equal (take (length c))) in E. rewrite take_app_length, take_app_le in E by done. done.
  - apply (f_equal (drop (length c))) in E. rewrite drop_app_length, drop_app_le in E by done. done.
Qed.

(** A prefix of a concatenation ends in its first or its second part. *)
Lemma prefix_app_cases {A} (s a b : list A) :
  s `prefix_of` a ++ b ->
  (exists s', s = a ++ s' /\ s' `prefix_of` b) \/ (s `prefix_of` a /\ (length s < length a)%nat).
Proof.
  intros [k E]. destruct (decide (length a <= length s)%nat) as [Hl|Hl].
  - symmetry in E. apply app_eq_split in E as (m & -> & ->); [|done]. left. exists m. split; [done|]. by exists k.
  - right. split; [|lia]. apply app_eq_split in E as (m & -> & _); [|lia]. by exists m.
Qed.

Lemma lookup_map {A B} (f : A -> B) (l : list A) i : map f l !! i = f <$> l !! i.
Proof. apply list_lookup_fmap. Qed.
