(* ===== verification/Coding.v ===== *)
(** Coding: the endian-neutral integer and string encodings of util/coding.h and util/coding.cc, and the
    operations of include/leveldb/slice.h that the rest of the library uses.

    A [const char*] range [p, limit) is the slice of its bytes; a routine that returns the advanced pointer
    returns the remaining slice. A routine that writes through [char* dst] and returns the end pointer returns the
    bytes it wrote; a [Put...] routine returns the extended string. *)

From Stdlib Require Import Strings.Byte.
From S2P Require Import Prelude.

(** * Slice *)

(** [memcmp] on the first [n] bytes, as the sign of the first difference of unsigned bytes. *)
Fixpoint memcmp (a b : slice) (n : nat) : Z :=
  match n, a, b with
  | S n, x :: a, y :: b =>
      if uval x <? uval y then -1 else if uval y <? uval x then 1 else memcmp a b n
  | _, _, _ => 0
  end.

Definition Slice_compare (a b : slice) : Z :=
  let min_len := if slen a <? slen b then length a else length b in
  let r := memcmp a b min_len in
  if r =? 0 then
    if slen a <? slen b then -1
    else if slen b <? slen a then 1
    else r
  else r.

Definition Slice_starts_with (s x : slice) : bool :=
  (slen x <=? slen s) && (memcmp s x (length x) =? 0).

Definition Slice_eqb (x y : slice) : bool :=
  (slen x =? slen y) && (memcmp x y (length x) =? 0).

(** * Fixed-width integers *)

Definition EncodeFixed32 (value : Z) : slice :=
  [of_uval value; of_uval (Z.shiftr value 8); of_uval (Z.shiftr value 16); of_uval (Z.shiftr value 24)].

Definition EncodeFixed64 (value : Z) : slice :=
  [of_uval value; of_uval (Z.shiftr value 8); of_uval (Z.shiftr value 16); of_uval (Z.shiftr value 24);
   of_uval (Z.shiftr value 32); of_uval (Z.shiftr value 40); of_uval (Z.shiftr value 48);
   of_uval (Z.shiftr value 56)].

Definition DecodeFixed32 (ptr : slice) : Z :=
  Z.lor (Z.lor (Z.lor (byte_at ptr 0)
    (Z.shiftl (byte_at ptr 1) 8))
    (Z.shiftl (byte_at ptr 2) 16))
    (Z.shiftl (byte_at ptr 3) 24).

Definition DecodeFixed64 (ptr : slice) : Z :=
  Z.lor (Z.lor (Z.lor (Z.lor (Z.lor (Z.lor (Z.lor (byte_at ptr 0)
    (Z.shiftl (byte_at ptr 1) 8))
    (Z.shiftl (byte_at ptr 2) 16))
    (Z.shiftl (byte_at ptr 3) 24))
    (Z.shiftl (byte_at ptr 4) 32))
    (Z.shiftl (byte_at ptr 5) 40))
    (Z.shiftl (byte_at ptr 6) 48))
    (Z.shiftl (byte_at ptr 7) 56).

Definition PutFixed32 (dst : slice) (value : Z) : slice := dst ++ EncodeFixed32 value.
Definition PutFixed64 (dst : slice) (value : Z) : slice := dst ++ EncodeFixed64 value.

(** * Variable-length integers *)

Definition EncodeVarint32 (v : Z) : slice :=
  let B := 128 in
  if v <? Z.shiftl 1 7 then
    [of_uval v]
  else if v <? Z.shiftl 1 14 then
    [of_uval (Z.lor v B); of_uval (Z.shiftr v 7)]
  else if v <? Z.shiftl 1 21 then
    [of_uval (Z.lor v B); of_uval (Z.lor (Z.shiftr v 7) B); of_uval (Z.shiftr v 14)]
  else if v <? Z.shiftl 1 28 then
    [of_uval (Z.lor v B); of_uval (Z.lor (Z.shiftr v 7) B); of_uval (Z.lor (Z.shiftr v 14) B);
     of_uval (Z.shiftr v 21)]
  else
    [of_uval (Z.lor v B); of_uval (Z.lor (Z.shiftr v 7) B); of_uval (Z.lor (Z.shiftr v 14) B);
     of_uval (Z.lor (Z.shiftr v 21) B); of_uval (Z.shiftr v 28)].

Definition PutVarint32 (dst : slice) (v : Z) : slice := dst ++ EncodeVarint32 v.

(** The loop of [EncodeVarint64]; [fuel] bounds the iterations: a [uint64_t] takes at most 9. *)
Fixpoint EncodeVarint64_loop (fuel : nat) (v : Z) : slice :=
  if 128 <=? v then
    match fuel with
    | O => []
    | S fuel => of_uval (Z.lor v 128) :: EncodeVarint64_loop fuel (Z.shiftr v 7)
    end
  else [of_uval v].

Definition EncodeVarint64 (v : Z) : slice := EncodeVarint64_loop 9 v.

Definition PutVarint64 (dst : slice) (v : Z) : slice := dst ++ EncodeVarint64 v.

Definition PutLengthPrefixedSlice (dst value : slice) : slice :=
  PutVarint32 dst (u32 (slen value)) ++ value.

Fixpoint VarintLength_loop (fuel : nat) (v len : Z) : Z :=
  if 128 <=? v then
    match fuel with
    | O => len
    | S fuel => VarintLength_loop fuel (Z.shiftr v 7) (len + 1)
    end
  else len.

Definition VarintLength (v : Z) : Z := VarintLength_loop 9 v 1.

(** The decoding loop shared by [GetVarint32PtrFallback] ([w] = 32, shifts up to 28) and [GetVarint64Ptr]
    ([w] = 64, shifts up to 63): the value and the remaining bytes, or [None] for [nullptr]. *)
Fixpoint GetVarint_loop (w last shift result : Z) (p : slice) : option (Z * slice) :=
  match p with
  | [] => None
  | b :: p =>
      if shift <=? last then
        let byte := uval b in
        if negb (Z.land byte 128 =? 0) then
          GetVarint_loop w last (shift + 7) (Z.lor result (wrap w (Z.shiftl (Z.land byte 127) shift))) p
        else
          Some (Z.lor result (wrap w (Z.shiftl byte shift)), p)
      else None
  end.

Definition GetVarint32PtrFallback (p : slice) : option (Z * slice) := GetVarint_loop 32 28 0 0 p.

Definition GetVarint32Ptr (p : slice) : option (Z * slice) :=
  match p with
  | b :: p' =>
      let result := uval b in
      if Z.land result 128 =? 0 then Some (result, p') else GetVarint32PtrFallback p
  | [] => GetVarint32PtrFallback p
  end.

Definition GetVarint32 (input : slice) : option (Z * slice) := GetVarint32Ptr input.

Definition GetVarint64Ptr (p : slice) : option (Z * slice) := GetVarint_loop 64 63 0 0 p.

Definition GetVarint64 (input : slice) : option (Z * slice) := GetVarint64Ptr input.

(** The parsed slice and the advanced input. *)
Definition GetLengthPrefixedSlice (input : slice) : option (slice * slice) :=
  match GetVarint32 input with
  | Some (len, input) =>
      if len <=? slen input then Some (take (Z.to_nat len) input, drop (Z.to_nat len) input)
      else None
  | None => None
  end.

(** * Lemmas: fixed-width integers *)

Lemma EncodeFixed32_le v : EncodeFixed32 v = le_enc 4 v.
Proof.
  unfold EncodeFixed32. cbn [le_enc]. rewrite !Z.shiftr_div_pow2, !Z.div_div by lia. done.
Qed.

Lemma EncodeFixed64_le v : EncodeFixed64 v = le_enc 8 v.
Proof.
  unfold EncodeFixed64. cbn [le_enc]. rewrite !Z.shiftr_div_pow2, !Z.div_div by lia. done.
Qed.

Lemma length_EncodeFixed32 v : length (EncodeFixed32 v) = 4%nat.
Proof. done. Qed.

Lemma length_EncodeFixed64 v : length (EncodeFixed64 v) = 8%nat.
Proof. done. Qed.

Lemma DecodeFixed32_le s : (4 <= length s)%nat -> DecodeFixed32 s = le_dec (take 4 s).
Proof.
  intros H. destruct s as [|b0 [|b1 [|b2 [|b3 s]]]]; simpl in H; try lia.
  unfold DecodeFixed32, byte_at. cbn [nth take le_dec]. rewrite take_0. cbn [le_dec].
  pose proof (uval_range b0). pose proof (uval_range b1). pose proof (uval_range b2). pose proof (uval_range b3).
  rewrite (lor_shiftl_add _ (uval b1)), (lor_shiftl_add _ (uval b2)), (lor_shiftl_add _ (uval b3)) by lia. lia.
Qed.

Lemma DecodeFixed64_le s : (8 <= length s)%nat -> DecodeFixed64 s = le_dec (take 8 s).
Proof.
  intros H. destruct s as [|b0 [|b1 [|b2 [|b3 [|b4 [|b5 [|b6 [|b7 s]]]]]]]]; simpl in H; try lia.
  unfold DecodeFixed64, byte_at. cbn [nth take le_dec]. rewrite take_0. cbn [le_dec].
  pose proof (uval_range b0). pose proof (uval_range b1). pose proof (uval_range b2). pose proof (uval_range b3).
  pose proof (uval_range b4). pose proof (uval_range b5). pose proof (uval_range b6). pose proof (uval_range b7).
  rewrite (lor_shiftl_add _ (uval b1)), (lor_shiftl_add _ (uval b2)), (lor_shiftl_add _ (uval b3)),
    (lor_shiftl_add _ (uval b4)), (lor_shiftl_add _ (uval b5)), (lor_shiftl_add _ (uval b6)),
    (lor_shiftl_add _ (uval b7)) by lia. lia.
Qed.

Lemma DecodeFixed32_range s : is_u32 (DecodeFixed32 s).
Proof.
  assert (DecodeFixed32 s = DecodeFixed32 (map (fun i => nth i s Byte.x00) (seq 0 4))) as -> by done.
  rewrite DecodeFixed32_le by done. apply (le_dec_range (map _ (seq 0 4))).
Qed.

Lemma DecodeFixed64_range s : is_u64 (DecodeFixed64 s).
Proof.
  assert (DecodeFixed64 s = DecodeFixed64 (map (fun i => nth i s Byte.x00) (seq 0 8))) as -> by done.
  rewrite DecodeFixed64_le by done. apply (le_dec_range (map _ (seq 0 8))).
Qed.

Lemma DecodeFixed32_Encode v rest : DecodeFixed32 (EncodeFixed32 v ++ rest) = u32 v.
Proof.
  rewrite EncodeFixed32_le, DecodeFixed32_le by (rewrite length_app, length_le_enc; lia).
  rewrite take_app_length' by (by rewrite length_le_enc). apply le_dec_enc.
Qed.

(** The words of an array of fixed-width integers. *)
Lemma length_words ws : slen (concat (map EncodeFixed32 ws)) = 4 * Z.of_nat (length ws).
Proof. induction ws as [|w ws IH]; [done|]. cbn [map concat]. rewrite length_app, length_EncodeFixed32. simpl length. lia. Qed.

Lemma DecodeFixed32_words ws i w n rest :
  ws !! i = Some w -> n = (4 * i)%nat -> DecodeFixed32 (drop n (concat (map EncodeFixed32 ws) ++ rest)) = u32 w.
Proof.
  intros H ->. revert i H. induction ws as [|w' ws IH]; intros i H; [done|]. destruct i as [|i].
  - injection H as ->. cbn [map concat Nat.mul drop]. rewrite <-app_assoc. apply DecodeFixed32_Encode.
  - cbn [map concat]. rewrite <-app_assoc. replace (4 * S i)%nat with (length (EncodeFixed32 w') + 4 * i)%nat
      by (rewrite length_EncodeFixed32; lia). rewrite drop_app_add. by apply IH.
Qed.

Lemma PutFixed32_words ws dst : foldl PutFixed32 dst ws = dst ++ concat (map EncodeFixed32 ws).
Proof.
  revert dst. induction ws as [|w ws IH]; intros dst; cbn [foldl map concat]; [by rewrite app_nil_r|].
  rewrite IH. unfold PutFixed32. by rewrite app_assoc.
Qed.

Lemma DecodeFixed64_Encode v rest : DecodeFixed64 (EncodeFixed64 v ++ rest) = u64 v.
Proof.
  rewrite EncodeFixed64_le, DecodeFixed64_le by (rewrite length_app, length_le_enc; lia).
  rewrite take_app_length' by (by rewrite length_le_enc). apply le_dec_enc.
Qed.

Lemma EncodeFixed32_Decode s : length s = 4%nat -> EncodeFixed32 (DecodeFixed32 s) = s.
Proof.
  intros H. rewrite EncodeFixed32_le, DecodeFixed32_le by lia.
  rewrite take_ge by lia. rewrite <-H. apply le_enc_dec.
Qed.

Lemma EncodeFixed64_Decode s : length s = 8%nat -> EncodeFixed64 (DecodeFixed64 s) = s.
Proof.
  intros H. rewrite EncodeFixed64_le, DecodeFixed64_le by lia.
  rewrite take_ge by lia. rewrite <-H. apply le_enc_dec.
Qed.

(** * Lemmas: varints *)

(** Bit 7 set on the low bits of [v], truncated to a byte. *)
Lemma uval_or_128 v : uval (of_uval (Z.lor v 128)) = v mod 128 + 128.
Proof.
  rewrite uval_of_uval. unfold wrap.
  assert (v mod 128 + 128 = Z.lor (v mod 2 ^ 7) (1 * 2 ^ 7)) as ->.
  { rewrite lor_mul_add; [done|lia|apply Z.mod_pos_bound; lia]. }
  apply Z.bits_inj'. intros i Hi.
  change 128 with (1 * 2 ^ 7). rewrite <-Z.shiftl_mul_pow2 by lia.
  destruct (decide (i < 8)).
  - rewrite Z.mod_pow2_bits_low, !Z.lor_spec by lia.
    destruct (decide (i < 7)).
    + rewrite Z.mod_pow2_bits_low by lia. done.
    + assert (i = 7) as -> by lia. by rewrite !orb_true_r.
  - rewrite Z.mod_pow2_bits_high, Z.lor_spec, Z.mod_pow2_bits_high by lia.
    rewrite Z.shiftl_spec by lia. symmetry. apply (testbit_high 1); lia.
Qed.

Lemma land_128_small z : 0 <= z < 128 -> Z.land z 128 = 0.
Proof. intros. apply (land_shiftl_low z 1 7); lia. Qed.

Lemma land_128_large z : 128 <= z < 256 -> Z.land z 128 = 128 /\ Z.land z 127 = z - 128.
Proof.
  intros. replace z with (z - 128 + 1 * 2 ^ 7) by lia. rewrite <-lor_shiftl_add by lia. split.
  - rewrite Z.land_lor_distr_l. change 128 with (Z.shiftl 1 7) at 2.
    rewrite land_shiftl_low by lia. done.
  - rewrite Z.land_lor_distr_l. change 127 with (2 ^ 7 - 1) at 1.
    rewrite land_low_mod, Z.mod_small by lia. change (Z.land (1 ≪ 7) 127) with 0.
    rewrite Z.lor_0_r, lor_shiftl_add by lia. lia.
Qed.


Lemma uval_of_uval_low v : 0 <= v < 128 -> uval (of_uval v) = v.
Proof. intros. apply uval_of_uval_small. lia. Qed.

Lemma shiftl_small_wrap w z n : 0 <= n -> 0 <= z -> z * 2 ^ n < 2 ^ w -> wrap w (Z.shiftl z n) = z * 2 ^ n.
Proof. intros. rewrite Z.shiftl_mul_pow2 by done. apply wrap_small. unfold in_u. lia. Qed.

(** The decoding loop undoes the encoding loop, for any accumulated prefix. *)
Lemma GetVarint_loop_Encode w last (fuel : nat) v shift result rest :
  (forall k, 7 * k < w -> 7 * k <= last) ->
  0 <= v < 2 ^ (7 * (Z.of_nat fuel + 1)) ->
  (exists k, 0 <= k /\ shift = 7 * k) -> shift <= last -> 0 <= result < 2 ^ shift -> v * 2 ^ shift < 2 ^ w ->
  GetVarint_loop w last shift result (EncodeVarint64_loop fuel v ++ rest) = Some (result + v * 2 ^ shift, rest).
Proof.
  intros Hlast. revert v shift result.
  induction fuel as [|fuel IH]; intros v shift result Hv [k [Hk ->]] Hs Hr Hw.
  - assert (v < 128) by (simpl in Hv; lia). cbn [EncodeVarint64_loop].
    destruct (Z.leb_spec 128 v); [lia|]. cbn [app GetVarint_loop].
    rewrite uval_of_uval_low, land_128_small by lia.
    destruct (Z.leb_spec (7 * k) last); [|lia]. simpl.
    rewrite shiftl_small_wrap, lor_mul_add by lia. done.
  - cbn [EncodeVarint64_loop]. destruct (Z.leb_spec 128 v) as [Hge|Hlt].
    + cbn [app GetVarint_loop]. rewrite uval_or_128.
      pose proof (Z.mod_pos_bound v 128 ltac:(lia)).
      destruct (land_128_large (v mod 128 + 128)) as [E1 E2]; [lia|]. rewrite E1, E2.
      destruct (Z.leb_spec (7 * k) last); [|lia]. simpl negb.
      replace (v mod 128 + 128 - 128) with (v mod 128) by lia.
      assert (Hvd : v = 128 * (v / 128) + v mod 128) by (apply Z.div_mod; lia).
      assert (Hp : 2 ^ (7 * k + 7) = 2 ^ (7 * k) * 128) by (rewrite Z.pow_add_r by lia; done).
      assert (0 < 2 ^ (7 * k)) by lia.
      rewrite shiftl_small_wrap, lor_mul_add by nia.
      rewrite Z.shiftr_div_pow2 by lia. change (2 ^ 7) with 128.
      assert (1 <= v / 128) by (apply Z.div_le_lower_bound; lia).
      assert (7 * (k + 1) < w).
      { assert (0 <= w) by (apply Z.nlt_ge; intros ?; rewrite (Z.pow_neg_r 2 w) in Hw by done; nia).
        rewrite (Z.pow_lt_mono_r_iff 2) by lia.
        replace (7 * (k + 1)) with (7 * k + 7) by lia. nia. }
      rewrite IH.
      * f_equal. f_equal. rewrite Hp. nia.
      * split; [lia|]. apply Z.div_lt_upper_bound; [lia|]. change 128 with (2 ^ 7). rewrite <-Z.pow_add_r by lia.
        replace (7 + 7 * (Z.of_nat fuel + 1)) with (7 * (Z.of_nat (S fuel) + 1)) by lia. lia.
      * exists (k + 1). lia.
      * replace (7 * k + 7) with (7 * (k + 1)) by lia. auto.
      * rewrite Hp. nia.
      * rewrite Hp. nia.
    + cbn [app GetVarint_loop].
      rewrite uval_of_uval_low, land_128_small by lia.
      destruct (Z.leb_spec (7 * k) last); [|lia]. simpl.
      rewrite shiftl_small_wrap, lor_mul_add by lia. done.
Qed.

Lemma GetVarint64_Encode v rest : is_u64 v -> GetVarint64 (EncodeVarint64 v ++ rest) = Some (v, rest).
Proof.
  unfold in_u. intros Hv. unfold GetVarint64, GetVarint64Ptr, EncodeVarint64.
  rewrite GetVarint_loop_Encode; [by rewrite Z.mul_1_r|lia|simpl in *; lia|by exists 0|lia|lia|lia].
Qed.

(** The unrolled 32-bit encoder writes the same bytes as the loop of the 64-bit one. *)
Lemma EncodeVarint32_64 v : is_u32 v -> EncodeVarint32 v = EncodeVarint64 v.
Proof.
  unfold in_u, EncodeVarint32, EncodeVarint64. intros Hv. cbn [EncodeVarint64_loop].
  rewrite !Z.shiftr_shiftr by lia.
  change (7 + 7) with 14. change (14 + 7) with 21. change (21 + 7) with 28. change (28 + 7) with 35.
  rewrite !(Z.shiftr_div_pow2 v) by lia.
  change (1 ≪ 7) with 128. change (1 ≪ 14) with 16384. change (1 ≪ 21) with 2097152. change (1 ≪ 28) with 268435456.
  change (2 ^ 7) with 128. change (2 ^ 14) with 16384. change (2 ^ 21) with 2097152. change (2 ^ 28) with 268435456.
  change (2 ^ 35) with 34359738368. change (2 ^ 32) with 4294967296 in Hv.
  repeat case_match; try done; exfalso; rewrite ?Z.ltb_lt, ?Z.ltb_ge, ?Z.leb_le, ?Z.leb_gt in *; dlia.
Qed.

Lemma GetVarint32Ptr_fallback p : GetVarint32Ptr p = GetVarint32PtrFallback p.
Proof.
  destruct p as [|b p]; [done|]. unfold GetVarint32Ptr.
  destruct (Z.eqb_spec (Z.land (uval b) 128) 0) as [E|E]; [|done].
  unfold GetVarint32PtrFallback. cbn [GetVarint_loop]. rewrite E. cbn.
  rewrite Z.shiftl_0_r, wrap_small; [done|]. pose proof (uval_range b). unfold in_u. lia.
Qed.

Lemma GetVarint32_Encode v rest : is_u32 v -> GetVarint32 (EncodeVarint32 v ++ rest) = Some (v, rest).
Proof.
  intros Hv. unfold GetVarint32. rewrite GetVarint32Ptr_fallback, EncodeVarint32_64 by done.
  unfold in_u in Hv. unfold GetVarint32PtrFallback, EncodeVarint64.
  rewrite GetVarint_loop_Encode; [by rewrite Z.mul_1_r|lia|simpl in *; lia|by exists 0|lia|lia|lia].
Qed.

Lemma GetLengthPrefixedSlice_Put value rest :
  is_u32 (slen value) -> GetLengthPrefixedSlice (PutLengthPrefixedSlice [] value ++ rest) = Some (value, rest).
Proof.
  intros Hv. unfold GetLengthPrefixedSlice, PutLengthPrefixedSlice, PutVarint32.
  rewrite wrap_small by done. rewrite app_nil_l, <-app_assoc, GetVarint32_Encode by done.
  rewrite length_app, Nat2Z.id. destruct (Z.leb_spec (slen value) (Z.of_nat (length value + length rest))); [|lia].
  by rewrite take_app_length, drop_app_length.
Qed.

(** The number written in base 128, least significant digit first, with bit 7 of each byte ignored. *)
Fixpoint base128 (ds : slice) : Z :=
  match ds with
  | [] => 0
  | d :: ds => uval d mod 128 + 128 * base128 ds
  end.

Lemma base128_nonneg ds : 0 <= base128 ds.
Proof. induction ds as [|d ds IH]; cbn [base128]; [lia|]. pose proof (Z.mod_pos_bound (uval d) 128 ltac:(lia)). lia. Qed.

Lemma wrap_mul_pow2 w d n : 0 <= n <= w -> wrap w (d * 2 ^ n) = (d mod 2 ^ (w - n)) * 2 ^ n.
Proof.
  intros. unfold wrap. replace w with (w - n + n) at 1 by lia. rewrite Z.pow_add_r by lia.
  rewrite Z.mul_mod_distr_r by lia. done.
Qed.

(** One digit accumulated by the loop. *)
Lemma lor_wrap_digit w result d n :
  0 <= n <= w -> 0 <= result < 2 ^ n -> 0 <= d ->
  wrap w (Z.lor result (wrap w (Z.shiftl d n))) = wrap w (result + d * 2 ^ n) /\
  0 <= Z.lor result (wrap w (Z.shiftl d n)) <= result + d * 2 ^ n.
Proof.
  intros Hn Hr Hd. rewrite Z.shiftl_mul_pow2, wrap_mul_pow2, lor_mul_add by lia.
  assert (0 <= d mod 2 ^ (w - n) <= d) by (split; [apply Z.mod_pos_bound; lia|apply Z.mod_le; lia]).
  split; [|nia]. unfold wrap. rewrite <-(Z.add_mod_idemp_r _ (d * 2 ^ n)) by lia.
  pose proof (wrap_mul_pow2 w d n Hn) as E. unfold wrap in E. by rewrite E.
Qed.

Lemma GetVarint_loop_spec w last shift result p v rest :
  0 <= shift -> last < w -> in_u w result -> 0 <= result < 2 ^ shift ->
  GetVarint_loop w last shift result p = Some (v, rest) <->
  exists ds b, p = ds ++ b :: rest /\ Forall (fun x => 128 <= uval x) ds /\ uval b < 128 /\
    shift + 7 * slen ds <= last /\ v = wrap w (result + base128 (ds ++ [b]) * 2 ^ shift).
Proof.
  intros Hs Hl. revert shift result Hs.
  induction p as [|x p IH]; intros shift result Hs Hu Hr.
  { split; [done|]. intros (ds & b & E & _). by destruct ds. }
  cbn [GetVarint_loop]. pose proof (uval_range x) as Hx.
  destruct (Z.leb_spec shift last) as [Hle|Hgt]; cycle 1.
  { split; [done|]. intros (ds & b & _ & _ & _ & ? & _). lia. }
  destruct (decide (uval x < 128)) as [Hlo|Hhi].
  - rewrite land_128_small by lia. simpl negb. cbv iota.
    destruct (lor_wrap_digit w result (uval x) shift) as [E1 E2]; [lia|lia|lia|].
    assert (Hin : in_u w (Z.lor result (wrap w (uval x ≪ shift)))) by (apply lor_in_u; [lia|done|apply wrap_in_u; lia]).
    assert (Hv : Z.lor result (wrap w (uval x ≪ shift)) = wrap w (result + base128 [x] * 2 ^ shift)).
    { rewrite <-(wrap_small w (Z.lor _ _)), E1 by done. cbn [base128]. rewrite Z.mod_small by lia. do 2 f_equal. lia. }
    split.
    + intros [= <- <-]. exists [], x. simpl. split_and!; [done|constructor|lia|lia|done].
    + intros (ds & b & E & Hds & Hb & Hlen & ->). destruct ds as [|d ds].
      * simpl in E. injection E as <- <-. by rewrite Hv.
      * simpl in E. injection E as <- ->. inversion Hds. lia.
  - destruct (land_128_large (uval x)) as [-> ->]; [lia|]. change (negb (128 =? 0)) with true. cbv iota.
    destruct (lor_wrap_digit w result (uval x - 128) shift) as [E1 E2]; [lia|lia|lia|].
    assert (Hin : in_u w (Z.lor result (wrap w ((uval x - 128) ≪ shift)))) by (apply lor_in_u; [lia|done|apply wrap_in_u; lia]).
    assert (Hp : 2 ^ (shift + 7) = 2 ^ shift * 128) by (rewrite Z.pow_add_r by lia; done).
    assert (Hm : uval x mod 128 = uval x - 128).
    { symmetry. apply Z.mod_unique with 1; lia. }
    rewrite IH by (rewrite ?Hp; try done; nia).
    assert (Hval : forall ds b, wrap w (Z.lor result (wrap w ((uval x - 128) ≪ shift)) + base128 (ds ++ [b]) * 2 ^ (shift + 7))
       = wrap w (result + base128 ((x :: ds) ++ [b]) * 2 ^ shift)).
    { intros ds b. cbn [app base128]. rewrite Hm, Hp. unfold wrap in *. rewrite Zplus_mod, E1, <-Zplus_mod. f_equal. lia. }
    split.
    + intros (ds & b & -> & Hds & Hb & Hlen & ->). exists (x :: ds), b. rewrite Hval. simpl length.
      split_and!; [done|constructor; [lia|done]|done|lia|done].
    + intros (ds & b & E & Hds & Hb & Hlen & ->). destruct ds as [|d ds].
      * simpl in E. injection E as <- ->. lia.
      * simpl in E. injection E as <- ->. inversion Hds; subst. exists ds, b. rewrite Hval. simpl length in Hlen.
        split_and!; [done|done|done|lia|done].
Qed.

Lemma GetVarint32_spec p v rest :
  GetVarint32 p = Some (v, rest) <->
  exists ds b, p = ds ++ b :: rest /\ Forall (fun x => 128 <= uval x) ds /\ uval b < 128 /\
    (length ds <= 4)%nat /\ v = u32 (base128 (ds ++ [b])).
Proof.
  unfold GetVarint32. rewrite GetVarint32Ptr_fallback. unfold GetVarint32PtrFallback.
  rewrite GetVarint_loop_spec by (unfold in_u; lia).
  split; intros (ds & b & -> & Hds & Hb & Hlen & ->); exists ds, b; rewrite Z.add_0_l, Z.mul_1_r in *;
    split_and!; try done; lia.
Qed.

Lemma GetVarint64_spec p v rest :
  GetVarint64 p = Some (v, rest) <->
  exists ds b, p = ds ++ b :: rest /\ Forall (fun x => 128 <= uval x) ds /\ uval b < 128 /\
    (length ds <= 9)%nat /\ v = u64 (base128 (ds ++ [b])).
Proof.
  unfold GetVarint64, GetVarint64Ptr. rewrite GetVarint_loop_spec by (unfold in_u; lia).
  split; intros (ds & b & -> & Hds & Hb & Hlen & ->); exists ds, b; rewrite Z.add_0_l, Z.mul_1_r in *;
    split_and!; try done; lia.
Qed.

Lemma GetVarint32_range p v rest : GetVarint32 p = Some (v, rest) -> is_u32 v /\ (length rest < length p)%nat.
Proof.
  intros (ds & b & -> & _ & _ & _ & ->)%GetVarint32_spec. split; [apply wrap_in_u; lia|].
  rewrite length_app. simpl. lia.
Qed.

Lemma GetVarint64_range p v rest : GetVarint64 p = Some (v, rest) -> is_u64 v /\ (length rest < length p)%nat.
Proof.
  intros (ds & b & -> & _ & _ & _ & ->)%GetVarint64_spec. split; [apply wrap_in_u; lia|].
  rewrite length_app. simpl. lia.
Qed.

Lemma GetLengthPrefixedSlice_shrinks input s rest :
  GetLengthPrefixedSlice input = Some (s, rest) -> (length s + length rest < length input)%nat.
Proof.
  unfold GetLengthPrefixedSlice. destruct (GetVarint32 input) as [[len p]|] eqn:E; [|done].
  apply GetVarint32_range in E as [? ?]. destruct (Z.leb_spec len (slen p)); [|done].
  intros [= <- <-]. unfold in_u in *. rewrite length_take, length_drop. lia.
Qed.

Lemma VarintLength_loop_Encode fuel v len :
  0 <= v < 2 ^ (7 * (Z.of_nat fuel + 1)) ->
  VarintLength_loop fuel v len = len - 1 + slen (EncodeVarint64_loop fuel v).
Proof.
  revert v len. induction fuel as [|fuel IH]; intros v len Hv; cbn [VarintLength_loop EncodeVarint64_loop].
  - simpl in Hv. destruct (Z.leb_spec 128 v); [lia|]. simpl. lia.
  - destruct (Z.leb_spec 128 v); [|simpl; lia].
    rewrite IH; [simpl length; lia|]. rewrite Z.shiftr_div_pow2 by lia. split; [apply Z.div_pos; lia|].
    apply Z.div_lt_upper_bound; [lia|]. rewrite <-Z.pow_add_r by lia.
    replace (7 + 7 * (Z.of_nat fuel + 1)) with (7 * (Z.of_nat (S fuel) + 1)) by lia. lia.
Qed.

Lemma VarintLength_Encode v : is_u64 v -> VarintLength v = slen (EncodeVarint64 v).
Proof.
  unfold in_u. intros. unfold VarintLength. rewrite VarintLength_loop_Encode; [unfold EncodeVarint64; lia|].
  simpl. lia.
Qed.

(** * Lemmas: the order on slices *)

(** [Slice_compare] follows the lexicographic recursion. *)
Lemma Slice_compare_cons x a y b :
  Slice_compare (x :: a) (y :: b) =
  if uval x <? uval y then -1 else if uval y <? uval x then 1 else Slice_compare a b.
Proof.
  unfold Slice_compare. simpl length. rewrite !Nat2Z.inj_succ.
  assert (Hlt : forall m n : Z, (Z.succ m <? Z.succ n) = (m <? n)).
  { intros m n. destruct (Z.ltb_spec m n), (Z.ltb_spec (Z.succ m) (Z.succ n)); done || lia. }
  rewrite !Hlt.
  destruct (slen a <? slen b); cbn [memcmp]; repeat case_match; done.
Qed.

Lemma Slice_compare_nil_l b : Slice_compare [] b = if decide (b = []) then 0 else -1.
Proof. destruct b; done. Qed.

Lemma Slice_compare_nil_r a : Slice_compare a [] = if decide (a = []) then 0 else 1.
Proof. destruct a; done. Qed.

Lemma Slice_compare_range a b : Slice_compare a b = -1 \/ Slice_compare a b = 0 \/ Slice_compare a b = 1.
Proof.
  revert b. induction a as [|x a IH]; intros b.
  - rewrite Slice_compare_nil_l. case_decide; auto.
  - destruct b as [|y b]; [rewrite Slice_compare_nil_r; auto|].
    rewrite Slice_compare_cons. repeat case_match; auto.
Qed.

Lemma Slice_compare_eq a b : Slice_compare a b = 0 <-> a = b.
Proof.
  revert b. induction a as [|x a IH]; intros [|y b]; try done.
  rewrite Slice_compare_cons. destruct (Z.ltb_spec (uval x) (uval y)).
  { split; [done|]. intros [= -> ->]. lia. }
  destruct (Z.ltb_spec (uval y) (uval x)).
  { split; [done|]. intros [= -> ->]. lia. }
  assert (x = y) as -> by (apply (inj uval); lia). rewrite IH. split; [by intros ->|by intros [= ->]].
Qed.

Lemma Slice_compare_sym a b : Slice_compare b a = - Slice_compare a b.
Proof.
  revert b. induction a as [|x a IH]; intros [|y b]; try done.
  rewrite !Slice_compare_cons, IH.
  destruct (Z.ltb_spec (uval x) (uval y)), (Z.ltb_spec (uval y) (uval x)); lia.
Qed.

Lemma Slice_compare_trans a b c : Slice_compare a b < 0 -> Slice_compare b c < 0 -> Slice_compare a c < 0.
Proof.
  revert b c. induction a as [|x a IH]; intros [|y b] [|z c]; try done.
  rewrite !Slice_compare_cons. intros H1 H2.
  destruct (Z.ltb_spec (uval x) (uval y)), (Z.ltb_spec (uval y) (uval x)); try lia;
  destruct (Z.ltb_spec (uval y) (uval z)), (Z.ltb_spec (uval z) (uval y)); try lia;
  destruct (Z.ltb_spec (uval x) (uval z)), (Z.ltb_spec (uval z) (uval x)); try lia; eauto.
Qed.

Lemma memcmp_prefix a b : memcmp a b (length b) = 0 -> (length b <= length a)%nat -> take (length b) a = b.
Proof.
  revert a. induction b as [|y b IH]; intros [|x a]; simpl; try done; [lia|].
  destruct (Z.ltb_spec (uval x) (uval y)), (Z.ltb_spec (uval y) (uval x)); try done. intros H1 H2.
  f_equal; [apply (inj uval); lia|apply IH; [done|lia]].
Qed.

Lemma memcmp_refl_app a b n : n = length a -> memcmp (a ++ b) a n = 0.
Proof.
  intros ->. induction a as [|x a IH]; simpl; [by destruct b|]. rewrite Z.ltb_irrefl. done.
Qed.

Lemma Slice_starts_with_spec s x : Slice_starts_with s x = true <-> x `prefix_of` s.
Proof.
  unfold Slice_starts_with. rewrite andb_true_iff, Z.leb_le, Z.eqb_eq. split.
  - intros [Hl Hm]. exists (drop (length x) s). rewrite <-(take_drop (length x) s) at 1.
    f_equal. apply memcmp_prefix; [done|lia].
  - intros [t ->]. rewrite length_app. split; [lia|]. by apply memcmp_refl_app.
Qed.

Lemma Slice_eqb_spec x y : Slice_eqb x y = true <-> x = y.
Proof.
  unfold Slice_eqb. rewrite andb_true_iff, !Z.eqb_eq. split.
  - intros [Hl Hm]. assert (length x = length y) as Hl' by lia. rewrite Hl' in Hm.
    apply memcmp_prefix in Hm; [|lia]. rewrite take_ge in Hm by lia. done.
  - intros ->. split; [done|]. rewrite <-(app_nil_r y) at 1. by apply memcmp_refl_app.
Qed.

Lemma length_EncodeVarint64_loop fuel v :
  (1 <= length (EncodeVarint64_loop (S fuel) v) <= S (S fuel))%nat.
Proof.
  revert v. induction fuel as [|fuel IH]; intros v.
  - cbn [EncodeVarint64_loop]. destruct (128 <=? v), (128 <=? v ≫ 7); simpl; lia.
  - specialize (IH (v ≫ 7)). revert IH. generalize (S fuel) as f. intros f IH.
    cbn [EncodeVarint64_loop]. destruct (128 <=? v); simpl; lia.
Qed.

Lemma length_EncodeVarint64 v : 1 <= slen (EncodeVarint64 v) <= 10.
Proof. pose proof (length_EncodeVarint64_loop 8 v). unfold EncodeVarint64. lia. Qed.

Lemma length_EncodeVarint32 v : 1 <= slen (EncodeVarint32 v) <= 5.
Proof. unfold EncodeVarint32. repeat case_match; simpl; lia. Qed.

Lemma PutLengthPrefixedSlice_app dst v : PutLengthPrefixedSlice dst v = dst ++ PutLengthPrefixedSlice [] v.
Proof. unfold PutLengthPrefixedSlice, PutVarint32. by rewrite <-app_assoc. Qed.

(** * Properties *)

(** C34. Every 32-bit (64-bit) value written by the varint encoder is read back by the decoder, which leaves exactly
    the bytes that follow it; the encoding has [VarintLength] bytes and fits the 5-byte (10-byte) buffer the
    [Put...] routines allocate; and the unrolled 32-bit encoder agrees with the 64-bit loop.  A slice shorter than 2^32
    bytes that [PutLengthPrefixedSlice] writes is read back by [GetLengthPrefixedSlice], which too leaves exactly the
    bytes that follow it. *)
Theorem varint_roundtrip v value rest :
  (is_u32 v ->
     GetVarint32 (PutVarint32 [] v ++ rest) = Some (v, rest) /\
     EncodeVarint32 v = EncodeVarint64 v /\ slen (EncodeVarint32 v) = VarintLength v /\ VarintLength v <= 5) /\
  (is_u64 v ->
     GetVarint64 (PutVarint64 [] v ++ rest) = Some (v, rest) /\
     slen (EncodeVarint64 v) = VarintLength v /\ VarintLength v <= 10) /\
  (is_u32 (slen value) -> GetLengthPrefixedSlice (PutLengthPrefixedSlice [] value ++ rest) = Some (value, rest)).
Proof.
  split_and!; [intros Hv..|apply GetLengthPrefixedSlice_Put].
  - assert (is_u64 v) by (unfold in_u in *; lia). unfold PutVarint32. rewrite app_nil_l, GetVarint32_Encode by done.
    pose proof (length_EncodeVarint32 v). rewrite VarintLength_Encode, <-EncodeVarint32_64 by done.
    split_and!; try done; lia.
  - unfold PutVarint64. rewrite app_nil_l, GetVarint64_Encode, VarintLength_Encode by done.
    pose proof (length_EncodeVarint64 v). split_and!; try done; lia.
Qed.

(** C38. On arbitrary input the varint decoders succeed exactly when a byte below 128 ends the number within the first
    5 (10) bytes, and then return its base-128 value truncated to the word and the bytes after it. *)
Theorem varint_decode_spec p v rest :
  (GetVarint32 p = Some (v, rest) <->
   exists ds b, p = ds ++ b :: rest /\ Forall (fun x => 128 <= uval x) ds /\ uval b < 128 /\
     (length ds <= 4)%nat /\ v = u32 (base128 (ds ++ [b]))) /\
  (GetVarint64 p = Some (v, rest) <->
   exists ds b, p = ds ++ b :: rest /\ Forall (fun x => 128 <= uval x) ds /\ uval b < 128 /\
     (length ds <= 9)%nat /\ v = u64 (base128 (ds ++ [b]))).
Proof. split; [apply GetVarint32_spec|apply GetVarint64_spec]. Qed.

Lemma varint_roundtrip_witness :
  is_u32 300 /\ GetVarint32 (PutVarint32 [] 300 ++ [Byte.x07]) = Some (300, [Byte.x07]) /\
  is_u64 (2 ^ 63 + 5) /\ GetVarint64 (PutVarint64 [] (2 ^ 63 + 5) ++ [Byte.x07]) = Some (2 ^ 63 + 5, [Byte.x07]) /\
  is_u32 (slen [Byte.x6b; Byte.x65]) /\ GetLengthPrefixedSlice (PutLengthPrefixedSlice [] [Byte.x6b; Byte.x65] ++ [Byte.x07]) = Some ([Byte.x6b; Byte.x65], [Byte.x07]).
Proof.
  split; [unfold in_u; lia|]. split; [apply (varint_roundtrip 300 [] [Byte.x07]); unfold in_u; lia|].
  split; [unfold in_u; lia|]. split; [apply (varint_roundtrip (2 ^ 63 + 5) [] [Byte.x07]); unfold in_u; lia|].
  assert (is_u32 (slen [Byte.x6b; Byte.x65])) as H by (vm_compute; split; congruence). split; [exact H|].
  by apply (varint_roundtrip 0 [Byte.x6b; Byte.x65] [Byte.x07]).
Defined.
