(* ===== verification/Comparator.v ===== *)
(** Comparator: the interface of include/leveldb/comparator.h, its documented laws as a class, and the bytewise
    comparator of util/comparator.cc. *)

From Stdlib Require Import Strings.Byte.
From S2P Require Import Prelude Coding.

(** * The interface *)

(** The virtual functions; the two that modify their argument in place return its new value. *)
Record Comparator := {
  Compare : slice -> slice -> Z;
  FindShortestSeparator : slice -> slice -> slice;
  FindShortSuccessor : slice -> slice;
}.

(** What comparator.h documents, for the slices that are keys of the comparator. *)
Class ComparatorLaws (key : slice -> Prop) (c : Comparator) : Prop := {
  compare_eq a b : key a -> key b -> Compare c a b = 0 <-> a = b;
  compare_antisym a b : key a -> key b -> Compare c a b < 0 <-> 0 < Compare c b a;
  compare_trans a b d : key a -> key b -> key d -> Compare c a b < 0 -> Compare c b d < 0 -> Compare c a d < 0;
  separator_key a b : key a -> key b -> key (FindShortestSeparator c a b);
  separator_spec a b : key a -> key b -> Compare c a b < 0 ->
    Compare c a (FindShortestSeparator c a b) <= 0 /\ Compare c (FindShortestSeparator c a b) b < 0;
  successor_key a : key a -> key (FindShortSuccessor c a);
  successor_spec a : key a -> Compare c a (FindShortSuccessor c a) <= 0;
}.

(** comparator.h does not say what [FindShortestSeparator] does when [*start == limit], which internal keys of the same
    user key cause; the comparators of the library leave the key alone. *)
Class SeparatorSame (key : slice -> Prop) (c : Comparator) : Prop :=
  separator_same a : key a -> FindShortestSeparator c a a = a.

(** Every slice is a key of a user comparator. *)
Definition any_key (s : slice) : Prop := True.

Section laws.
Context {key : slice -> Prop} {c : Comparator} `{!ComparatorLaws key c}.

Lemma compare_refl a : key a -> Compare c a a = 0.
Proof. intros. by apply compare_eq. Qed.

Lemma compare_gt a b : key a -> key b -> 0 < Compare c a b <-> Compare c b a < 0.
Proof. intros. by rewrite compare_antisym. Qed.

Lemma compare_le_lt a b d : key a -> key b -> key d -> Compare c a b <= 0 -> Compare c b d < 0 -> Compare c a d < 0.
Proof.
  intros Ha Hb Hd H1 H2. destruct (decide (Compare c a b = 0)) as [E|].
  - apply compare_eq in E; [by subst|done|done].
  - eapply compare_trans; [done|exact Hb|done|lia|done].
Qed.

Lemma compare_lt_le a b d : key a -> key b -> key d -> Compare c a b < 0 -> Compare c b d <= 0 -> Compare c a d < 0.
Proof.
  intros Ha Hb Hd H1 H2. destruct (decide (Compare c b d = 0)) as [E|].
  - apply compare_eq in E; [by subst|done|done].
  - eapply compare_trans; [done|exact Hb|done|done|lia].
Qed.

Lemma compare_le_trans a b d : key a -> key b -> key d -> Compare c a b <= 0 -> Compare c b d <= 0 -> Compare c a d <= 0.
Proof.
  intros Ha Hb Hd H1 H2. destruct (decide (Compare c a b = 0)) as [E|].
  - apply compare_eq in E; [by subst|done|done].
  - assert (Compare c a d < 0); [|lia]. eapply compare_lt_le; [done|exact Hb|done|lia|done].
Qed.

Lemma compare_nlt a b : key a -> key b -> ~ Compare c a b < 0 <-> Compare c b a <= 0.
Proof. intros. rewrite compare_antisym by done. lia. Qed.
End laws.

(** * The bytewise comparator *)

(** The length of the common prefix: the loop on [diff_index] of [FindShortestSeparator], and on [shared] of
    [BlockBuilder::Add]. *)
Fixpoint common_prefix (a b : slice) : nat :=
  match a, b with
  | x :: a, y :: b => if decide (x = y) then S (common_prefix a b) else O
  | _, _ => O
  end.

Definition Bytewise_FindShortestSeparator (start limit : slice) : slice :=
  let min_length := Nat.min (length start) (length limit) in
  let diff_index := common_prefix start limit in
  if (min_length <=? diff_index)%nat then start
  else
    let diff_byte := byte_at start diff_index in
    if (diff_byte <? 0xff) && (diff_byte + 1 <? byte_at limit diff_index) then
      take diff_index start ++ [of_uval (diff_byte + 1)]
    else start.

(** The loop over the bytes of the key; [pre] holds the bytes already passed. *)
Fixpoint Bytewise_FindShortSuccessor_loop (pre key : slice) : option slice :=
  match key with
  | [] => None
  | b :: key =>
      if negb (uval b =? 0xff) then Some (pre ++ [of_uval (uval b + 1)])
      else Bytewise_FindShortSuccessor_loop (pre ++ [b]) key
  end.

Definition Bytewise_FindShortSuccessor (key : slice) : slice :=
  match Bytewise_FindShortSuccessor_loop [] key with
  | Some key => key
  | None => key
  end.

Definition BytewiseComparator : Comparator := {|
  Compare := Slice_compare;
  FindShortestSeparator := Bytewise_FindShortestSeparator;
  FindShortSuccessor := Bytewise_FindShortSuccessor;
|}.

(** * Lemmas *)

Lemma Slice_compare_app p a b : Slice_compare (p ++ a) (p ++ b) = Slice_compare a b.
Proof. induction p as [|x p IH]; [done|]. simpl app. rewrite Slice_compare_cons, Z.ltb_irrefl. done. Qed.

Lemma Slice_compare_head p x a y b : uval x < uval y -> Slice_compare (p ++ x :: a) (p ++ y :: b) = -1.
Proof. intros. rewrite Slice_compare_app, Slice_compare_cons. by destruct (Z.ltb_spec (uval x) (uval y)); [|lia]. Qed.

Lemma common_prefix_split a b :
  (common_prefix a b < Nat.min (length a) (length b))%nat ->
  exists p x a' y b', a = p ++ x :: a' /\ b = p ++ y :: b' /\ length p = common_prefix a b /\ x <> y.
Proof.
  revert b. induction a as [|x a IH]; intros [|y b]; simpl; try lia. intros H. case_decide as E.
  - subst. destruct (IH b) as (p & u & a' & v & b' & -> & -> & Hp & Hn); [lia|].
    exists (y :: p), u, a', v, b'. simpl. rewrite Hp. done.
  - by exists [], x, a, y, b.
Qed.

Lemma common_prefix_le a b : (common_prefix a b <= Nat.min (length a) (length b))%nat.
Proof. revert b. induction a as [|x a IH]; intros [|y b]; simpl; try lia. case_decide; [|lia]. specialize (IH b). lia. Qed.

Lemma common_prefix_take a b : take (common_prefix a b) a = take (common_prefix a b) b.
Proof.
  revert b. induction a as [|x a IH]; intros [|y b]; simpl; try done. case_decide; [|done]. simpl. subst. f_equal. apply IH.
Qed.

Lemma byte_at_app p x a : byte_at (p ++ x :: a) (length p) = uval x.
Proof. unfold byte_at. rewrite app_nth2, Nat.sub_diag by lia. done. Qed.

Lemma Bytewise_separator_spec a b :
  Slice_compare a b < 0 ->
  Slice_compare a (Bytewise_FindShortestSeparator a b) <= 0 /\
  Slice_compare (Bytewise_FindShortestSeparator a b) b < 0 /\
  (length (Bytewise_FindShortestSeparator a b) <= length a)%nat.
Proof.
  intros Hlt. unfold Bytewise_FindShortestSeparator.
  assert (Hsame : Slice_compare a a <= 0 /\ Slice_compare a b < 0 /\ (length a <= length a)%nat).
  { split; [|done]. assert (Slice_compare a a = 0) by by apply Slice_compare_eq. lia. }
  case_match eqn:E; [done|]. apply Nat.leb_gt in E.
  destruct (common_prefix_split a b E) as (p & x & a' & y & b' & -> & -> & Hp & Hn). rewrite <-Hp.
  rewrite !byte_at_app, take_app_length. case_match eqn:E2; [|done].
  apply andb_prop in E2 as [E2 E3]. apply Z.ltb_lt in E2, E3. pose proof (uval_range x).
  assert (Hx : uval (of_uval (uval x + 1)) = uval x + 1) by (apply uval_of_uval_small; lia).
  split_and!.
  - rewrite (Slice_compare_head p x a'); lia.
  - rewrite (Slice_compare_head p _ []); lia.
  - rewrite !length_app. simpl. lia.
Qed.

Lemma Bytewise_successor_loop_spec pre key r :
  Bytewise_FindShortSuccessor_loop pre key = Some r ->
  Slice_compare (pre ++ key) r < 0 /\ (length r <= length (pre ++ key))%nat.
Proof.
  revert pre. induction key as [|b key IH]; intros pre; simpl; [done|].
  destruct (Z.eqb_spec (uval b) 255) as [|Hn]; simpl.
  - intros H%IH. rewrite <-app_assoc in H. done.
  - intros [= <-]. pose proof (uval_range b). split.
    + rewrite Slice_compare_head; [lia|]. rewrite uval_of_uval_small by lia. lia.
    + rewrite !length_app. simpl. lia.
Qed.

Lemma Bytewise_successor_spec a :
  Slice_compare a (Bytewise_FindShortSuccessor a) <= 0 /\ (length (Bytewise_FindShortSuccessor a) <= length a)%nat.
Proof.
  unfold Bytewise_FindShortSuccessor. case_match eqn:E.
  - apply Bytewise_successor_loop_spec in E. simpl in E. lia.
  - assert (Slice_compare a a = 0) by by apply Slice_compare_eq. lia.
Qed.

#[export] Instance BytewiseComparator_laws : ComparatorLaws any_key BytewiseComparator.
Proof.
  split; simpl; intros.
  - apply Slice_compare_eq.
  - rewrite (Slice_compare_sym a b). lia.
  - by eapply Slice_compare_trans.
  - done.
  - split; by apply Bytewise_separator_spec.
  - done.
  - apply Bytewise_successor_spec.
Qed.

Lemma common_prefix_same a : common_prefix a a = length a.
Proof. induction a as [|x a IH]; simpl; [done|]. case_decide; [by rewrite IH|done]. Qed.

#[export] Instance BytewiseComparator_separator_same : SeparatorSame any_key BytewiseComparator.
Proof.
  intros a _. simpl. unfold Bytewise_FindShortestSeparator. rewrite common_prefix_same, Nat.min_id.
  by rewrite Nat.leb_refl.
Qed.

(** * Properties *)

(** The bytewise comparator is a strict total order whose equivalence is equality; its separator of [a < b] lies in
    [a, b) and its successor is not smaller than the key, and neither is longer than the key it shortens. *)
Theorem bytewise_comparator_correct a b c :
  let cmp := Compare BytewiseComparator in
  let sep := FindShortestSeparator BytewiseComparator a b in
  let suc := FindShortSuccessor BytewiseComparator a in
  (cmp a b = 0 <-> a = b) /\ (cmp a b < 0 <-> 0 < cmp b a) /\
  (cmp a b < 0 -> cmp b c < 0 -> cmp a c < 0) /\
  (cmp a b < 0 -> cmp a sep <= 0 /\ cmp sep b < 0 /\ slen sep <= slen a) /\
  cmp a suc <= 0 /\ slen suc <= slen a.
Proof.
  cbv zeta. split_and!.
  - by apply (compare_eq (key := any_key)).
  - by apply (compare_antisym (key := any_key)).
  - by apply (compare_trans (key := any_key)).
  - intros H. pose proof (Bytewise_separator_spec a b H). simpl in *. lia.
  - apply Bytewise_successor_spec.
  - pose proof (Bytewise_successor_spec a). simpl. lia.
Qed.

Lemma bytewise_comparator_correct_witness :
  Compare BytewiseComparator [Byte.x61; Byte.x62] [Byte.x61; Byte.x65] < 0 /\
  Compare BytewiseComparator (FindShortestSeparator BytewiseComparator [Byte.x61; Byte.x62] [Byte.x61; Byte.x65])
    [Byte.x61; Byte.x65] < 0.
Proof.
  split; [done|]. apply (bytewise_comparator_correct [Byte.x61; Byte.x62] [Byte.x61; Byte.x65] []). done.
Defined.
