(* ===== verification/DbFormat.v ===== *)
(** DbFormat: internal keys (db/dbformat.h and db/dbformat.cc): a user key followed by eight bytes that pack a
    sequence number and a value type, the order on them, and the keys used for lookups. *)

From Stdlib Require Import Strings.Byte.
From S2P Require Import Prelude Coding Comparator.

(** * Data *)

Inductive ValueType := kTypeDeletion | kTypeValue.

#[export] Instance ValueType_eq_dec : EqDecision ValueType.
Proof. solve_decision. Defined.

(** The values of the enum. *)
Definition ValueType_val (t : ValueType) : Z :=
  match t with
  | kTypeDeletion => 0
  | kTypeValue => 1
  end.

(** [static_cast<ValueType>(c)], for the values of the enum. *)
Definition ValueType_of (c : Z) : option ValueType :=
  if c =? 0 then Some kTypeDeletion else if c =? 1 then Some kTypeValue else None.

Definition kValueTypeForSeek : ValueType := kTypeValue.

Definition kMaxSequenceNumber : Z := Z.shiftl 1 56 - 1.

Record ParsedInternalKey := ParsedKey {
  user_key : slice;
  sequence : Z;
  type : ValueType;
}.

#[export] Instance ParsedInternalKey_eq_dec : EqDecision ParsedInternalKey.
Proof. solve_decision. Defined.

(** The sequence numbers that fit beside the type. *)
Definition seq_ok (s : Z) : Prop := 0 <= s <= kMaxSequenceNumber.

(** * Operations *)

Definition PackSequenceAndType (seq : Z) (t : ValueType) : Z :=
  Z.lor (u64 (Z.shiftl seq 8)) (ValueType_val t).

Definition AppendInternalKey (result : slice) (key : ParsedInternalKey) : slice :=
  PutFixed64 (result ++ user_key key) (PackSequenceAndType (sequence key) (type key)).

Definition InternalKeyEncodingLength (key : ParsedInternalKey) : Z := slen (user_key key) + 8.

(** [internal_key.data() + n - 8]. *)
Definition last8 (s : slice) : slice := drop (length s - 8) s.

Definition ExtractUserKey (internal_key : slice) : slice := take (length internal_key - 8) internal_key.

(** [None] is a [false] result. *)
Definition ParseInternalKey (internal_key : slice) : option ParsedInternalKey :=
  let n := slen internal_key in
  if n <? 8 then None
  else
    let num := DecodeFixed64 (last8 internal_key) in
    let c := Z.land num 0xff in
    match ValueType_of c with
    | Some t => Some (ParsedKey (take (length internal_key - 8) internal_key) (Z.shiftr num 8) t)
    | None => None
    end.

(** * The order on internal keys *)

Section InternalKeyComparator.
Context (user_comparator : Comparator).

Definition InternalKeyComparator_Compare (akey bkey : slice) : Z :=
  let r := Compare user_comparator (ExtractUserKey akey) (ExtractUserKey bkey) in
  if r =? 0 then
    let anum := DecodeFixed64 (last8 akey) in
    let bnum := DecodeFixed64 (last8 bkey) in
    if bnum <? anum then -1
    else if anum <? bnum then 1
    else r
  else r.

Definition InternalKeyComparator_FindShortestSeparator (start limit : slice) : slice :=
  let user_start := ExtractUserKey start in
  let user_limit := ExtractUserKey limit in
  let tmp := FindShortestSeparator user_comparator user_start user_limit in
  if (slen tmp <? slen user_start) && (Compare user_comparator user_start tmp <? 0) then
    PutFixed64 tmp (PackSequenceAndType kMaxSequenceNumber kValueTypeForSeek)
  else start.

Definition InternalKeyComparator_FindShortSuccessor (key : slice) : slice :=
  let user_key := ExtractUserKey key in
  let tmp := FindShortSuccessor user_comparator user_key in
  if (slen tmp <? slen user_key) && (Compare user_comparator user_key tmp <? 0) then
    PutFixed64 tmp (PackSequenceAndType kMaxSequenceNumber kValueTypeForSeek)
  else key.

Definition InternalKeyComparator : Comparator := {|
  Compare := InternalKeyComparator_Compare;
  FindShortestSeparator := InternalKeyComparator_FindShortestSeparator;
  FindShortSuccessor := InternalKeyComparator_FindShortSuccessor;
|}.
End InternalKeyComparator.

(** The keys that have room for the tag; [ExtractUserKey] asserts it. *)
Definition is_internal_key (s : slice) : Prop := (8 <= length s)%nat.

(** * InternalKey *)

(** The class holds its encoding. *)
Record InternalKey := MkInternalKey { rep_ : slice }.

#[export] Instance InternalKey_eq_dec : EqDecision InternalKey.
Proof. solve_decision. Defined.

Definition NewInternalKey (user_key : slice) (s : Z) (t : ValueType) : InternalKey :=
  MkInternalKey (AppendInternalKey [] (ParsedKey user_key s t)).

(** The key and the result of [DecodeFrom]. *)
Definition InternalKey_DecodeFrom (s : slice) : InternalKey * bool :=
  (MkInternalKey s, negb (bool_decide (s = []))).

Definition InternalKey_Encode (k : InternalKey) : slice := rep_ k.
Definition InternalKey_user_key (k : InternalKey) : slice := ExtractUserKey (rep_ k).

Definition InternalKey_SetFrom (p : ParsedInternalKey) : InternalKey :=
  MkInternalKey (AppendInternalKey [] p).

(** * LookupKey *)

(** The characters from [start_] to [end_], and the offset of [kstart_]. *)
Record LookupKey := MkLookupKey { lk_buf : slice; lk_kstart : nat }.

Definition NewLookupKey (user_key : slice) (s : Z) : LookupKey :=
  let usize := slen user_key in
  let klength := EncodeVarint32 (u32 (usize + 8)) in
  MkLookupKey (klength ++ user_key ++ EncodeFixed64 (PackSequenceAndType s kValueTypeForSeek)) (length klength).

Definition memtable_key (k : LookupKey) : slice := lk_buf k.
Definition internal_key (k : LookupKey) : slice := drop (lk_kstart k) (lk_buf k).
Definition lookup_user_key (k : LookupKey) : slice :=
  take (length (lk_buf k) - lk_kstart k - 8) (drop (lk_kstart k) (lk_buf k)).

(** * Lemmas *)

Lemma length_last8 s : is_internal_key s -> length (last8 s) = 8%nat.
Proof. unfold is_internal_key, last8. intros. rewrite length_drop. lia. Qed.

Lemma ExtractUserKey_last8 s : ExtractUserKey s ++ last8 s = s.
Proof. apply take_drop. Qed.

Lemma ExtractUserKey_app u t : length t = 8%nat -> ExtractUserKey (u ++ t) = u.
Proof. intros. unfold ExtractUserKey. apply take_app_length'. rewrite length_app. lia. Qed.

Lemma last8_app u t : length t = 8%nat -> last8 (u ++ t) = t.
Proof. intros. unfold last8. apply drop_app_length'. rewrite length_app. lia. Qed.

Lemma kMaxSequenceNumber_val : kMaxSequenceNumber = 2 ^ 56 - 1.
Proof. done. Qed.

Lemma Pack_val seq t : seq_ok seq -> PackSequenceAndType seq t = seq * 256 + ValueType_val t.
Proof.
  unfold seq_ok. rewrite kMaxSequenceNumber_val. intros. unfold PackSequenceAndType.
  rewrite Z.shiftl_mul_pow2, wrap_small by (unfold in_u; lia).
  rewrite Z.lor_comm. change 256 with (2 ^ 8). rewrite lor_mul_add; destruct t; simpl; lia.
Qed.

Lemma Pack_u64 seq t : seq_ok seq -> is_u64 (PackSequenceAndType seq t).
Proof.
  intros H. rewrite Pack_val by done. unfold seq_ok, in_u in *. rewrite kMaxSequenceNumber_val in H.
  destruct t; simpl; lia.
Qed.

Lemma DecodeFixed64_Pack seq t :
  seq_ok seq -> DecodeFixed64 (EncodeFixed64 (PackSequenceAndType seq t)) = seq * 256 + ValueType_val t.
Proof.
  intros H. rewrite <-(app_nil_r (EncodeFixed64 _)), DecodeFixed64_Encode, wrap_small by by apply Pack_u64.
  by apply Pack_val.
Qed.

Lemma AppendInternalKey_app r k : AppendInternalKey r k = r ++ AppendInternalKey [] k.
Proof. unfold AppendInternalKey, PutFixed64. by rewrite <-app_assoc. Qed.

Lemma AppendInternalKey_user k : ExtractUserKey (AppendInternalKey [] k) = user_key k.
Proof. apply ExtractUserKey_app. done. Qed.

Lemma AppendInternalKey_last8 k :
  last8 (AppendInternalKey [] k) = EncodeFixed64 (PackSequenceAndType (sequence k) (type k)).
Proof. by apply last8_app. Qed.

Lemma AppendInternalKey_internal k : is_internal_key (AppendInternalKey [] k).
Proof. unfold is_internal_key, AppendInternalKey, PutFixed64. rewrite length_app, length_EncodeFixed64. lia. Qed.

Lemma ParseInternalKey_Append k : seq_ok (sequence k) -> ParseInternalKey (AppendInternalKey [] k) = Some k.
Proof.
  intros Hs. pose proof (AppendInternalKey_internal k) as Hk. unfold is_internal_key in Hk.
  unfold ParseInternalKey. destruct (Z.ltb_spec (slen (AppendInternalKey [] k)) 8); [lia|].
  rewrite AppendInternalKey_last8, DecodeFixed64_Pack by done.
  rewrite (land_low_mod _ 8 ltac:(lia)), Z.add_comm, Z.mod_add, Z.mod_small by (destruct (type k); simpl; lia).
  rewrite Z.shiftr_div_pow2, Z.div_add, Z.div_small by (destruct (type k); simpl; lia).
  fold (ExtractUserKey (AppendInternalKey [] k)). rewrite AppendInternalKey_user, Z.add_0_l.
  destruct k as [u s []]; done.
Qed.

Lemma ParseInternalKey_sound s k :
  ParseInternalKey s = Some k -> is_internal_key s /\ seq_ok (sequence k) /\ AppendInternalKey [] k = s.
Proof.
  unfold ParseInternalKey, is_internal_key. destruct (Z.ltb_spec (slen s) 8); [done|].
  pose proof (length_last8 s ltac:(unfold is_internal_key; lia)) as Hl.
  pose proof (DecodeFixed64_range (last8 s)) as Hr. set (num := DecodeFixed64 (last8 s)) in *.
  destruct (ValueType_of (Z.land num 255)) as [t|] eqn:Et; [|done]. intros [= <-]. cbn [sequence].
  assert (Hc : Z.land num 255 = ValueType_val t).
  { unfold ValueType_of in Et. destruct (Z.eqb_spec (Z.land num 255) 0); [by simplify_eq|].
    destruct (Z.eqb_spec (Z.land num 255) 1); [by simplify_eq|done]. }
  rewrite (land_low_mod _ 8 ltac:(lia)) in Hc. change (2 ^ 8) with 256 in Hc.
  assert (Hseq : seq_ok (num ≫ 8)).
  { unfold seq_ok, in_u in *. rewrite kMaxSequenceNumber_val, Z.shiftr_div_pow2 by lia.
    change (2 ^ 8) with 256. dlia. }
  split_and!; [lia|done|]. unfold AppendInternalKey, PutFixed64. cbn [user_key sequence type app].
  rewrite Pack_val by done. rewrite Z.shiftr_div_pow2, <-Hc by lia. change (2 ^ 8) with 256.
  rewrite <-(ExtractUserKey_last8 s) at 3. unfold ExtractUserKey. f_equal.
  replace (num / 256 * 256 + num mod 256) with num by dlia. by apply EncodeFixed64_Decode.
Qed.

(** Two internal keys with the same user key and the same tag are the same bytes. *)
Lemma internal_key_ext a b :
  is_internal_key a -> is_internal_key b -> ExtractUserKey a = ExtractUserKey b ->
  DecodeFixed64 (last8 a) = DecodeFixed64 (last8 b) -> a = b.
Proof.
  intros Ha Hb Hu Ht. rewrite <-(ExtractUserKey_last8 a), <-(ExtractUserKey_last8 b), Hu. f_equal.
  rewrite <-(EncodeFixed64_Decode (last8 a)), <-(EncodeFixed64_Decode (last8 b)), Ht by by apply length_last8. done.
Qed.

Section order.
Context {ucmp : Comparator} `{!ComparatorLaws any_key ucmp}.

Abbreviation icmp := (InternalKeyComparator_Compare ucmp).

(** The three cases of the comparison. *)
Lemma icmp_lt a b :
  icmp a b < 0 <->
  Compare ucmp (ExtractUserKey a) (ExtractUserKey b) < 0 \/
  (ExtractUserKey a = ExtractUserKey b /\ DecodeFixed64 (last8 b) < DecodeFixed64 (last8 a)).
Proof.
  unfold InternalKeyComparator_Compare. set (r := Compare ucmp _ _).
  assert (Hr : r = 0 <-> ExtractUserKey a = ExtractUserKey b) by by apply compare_eq.
  destruct (Z.eqb_spec r 0) as [E|E].
  - pose proof E as E'. apply Hr in E'.
    destruct (Z.ltb_spec (DecodeFixed64 (last8 b)) (DecodeFixed64 (last8 a))); [split; auto with lia|].
    destruct (Z.ltb_spec (DecodeFixed64 (last8 a)) (DecodeFixed64 (last8 b))); lia.
  - split; [auto|]. intros [?|[? _]]; [done|]. tauto.
Qed.

Lemma icmp_gt a b :
  0 < icmp a b <->
  0 < Compare ucmp (ExtractUserKey a) (ExtractUserKey b) \/
  (ExtractUserKey a = ExtractUserKey b /\ DecodeFixed64 (last8 a) < DecodeFixed64 (last8 b)).
Proof.
  unfold InternalKeyComparator_Compare. set (r := Compare ucmp _ _).
  assert (Hr : r = 0 <-> ExtractUserKey a = ExtractUserKey b) by by apply compare_eq.
  destruct (Z.eqb_spec r 0) as [E|E].
  - pose proof E as E'. apply Hr in E'.
    destruct (Z.ltb_spec (DecodeFixed64 (last8 b)) (DecodeFixed64 (last8 a))); [lia|].
    destruct (Z.ltb_spec (DecodeFixed64 (last8 a)) (DecodeFixed64 (last8 b))); [split; auto with lia|lia].
  - split; [auto|]. intros [?|[? _]]; [done|]. tauto.
Qed.

Lemma icmp_eq a b : is_internal_key a -> is_internal_key b -> icmp a b = 0 <-> a = b.
Proof.
  intros Ha Hb. split.
  - intros H0. assert (~ icmp a b < 0 /\ ~ 0 < icmp a b) as [H1 H2] by lia.
    rewrite icmp_lt in H1. rewrite icmp_gt in H2.
    assert (Hu : ExtractUserKey a = ExtractUserKey b).
    { apply (compare_eq (c := ucmp) (key := any_key)); [done|done|]. lia. }
    apply internal_key_ext; [done|done|done|]. destruct (Z.lt_trichotomy (DecodeFixed64 (last8 a)) (DecodeFixed64 (last8 b))) as [?|[?|?]]; tauto.
  - intros ->. assert (~ icmp b b < 0 /\ ~ 0 < icmp b b); [|lia].
    rewrite icmp_lt, icmp_gt, (compare_refl (key := any_key)) by done. lia.
Qed.

Lemma icmp_antisym a b : icmp a b < 0 <-> 0 < icmp b a.
Proof.
  rewrite icmp_lt, icmp_gt, (compare_antisym (key := any_key)) by done. intuition congruence.
Qed.

Lemma icmp_trans a b d : icmp a b < 0 -> icmp b d < 0 -> icmp a d < 0.
Proof.
  rewrite !icmp_lt. intros [H1|[H1 H1']] [H2|[H2 H2']].
  - left. by eapply (compare_trans (key := any_key)).
  - rewrite <-H2. auto.
  - rewrite H1. auto.
  - right. split; [congruence|lia].
Qed.

(** The order on parsed keys: user keys up, then sequence numbers down, then types down. *)
Lemma icmp_parsed a b :
  seq_ok (sequence a) -> seq_ok (sequence b) ->
  icmp (AppendInternalKey [] a) (AppendInternalKey [] b) < 0 <->
  Compare ucmp (user_key a) (user_key b) < 0 \/
  (user_key a = user_key b /\
   (sequence b < sequence a \/ (sequence a = sequence b /\ ValueType_val (type b) < ValueType_val (type a)))).
Proof.
  intros Ha Hb. rewrite icmp_lt, !AppendInternalKey_user, !AppendInternalKey_last8, !DecodeFixed64_Pack by done.
  assert (0 <= ValueType_val (type a) <= 1 /\ 0 <= ValueType_val (type b) <= 1) by (destruct (type a), (type b); simpl; lia).
  split; (intros [?|[? ?]]; [by left|right; split; [done|lia]]).
Qed.

(** The tag of a seek key is the largest tag, so that the key precedes every entry of its user key. *)
Lemma max_tag : seq_ok kMaxSequenceNumber.
Proof. unfold seq_ok. rewrite kMaxSequenceNumber_val. lia. Qed.

Lemma icmp_shortened_upper a tmp :
  is_internal_key a -> Compare ucmp (ExtractUserKey a) tmp < 0 ->
  icmp a (PutFixed64 tmp (PackSequenceAndType kMaxSequenceNumber kValueTypeForSeek)) < 0.
Proof. intros Ha H. apply icmp_lt. left. unfold PutFixed64. by rewrite ExtractUserKey_app. Qed.

#[global] Instance InternalKeyComparator_laws `{!SeparatorSame any_key ucmp} :
  ComparatorLaws is_internal_key (InternalKeyComparator ucmp).
Proof.
  split; simpl.
  - intros. by apply icmp_eq.
  - intros. apply icmp_antisym.
  - intros. by eapply icmp_trans.
  - intros a b Ha Hb. unfold InternalKeyComparator_FindShortestSeparator. case_match; [|done].
    unfold is_internal_key, PutFixed64. rewrite length_app, length_EncodeFixed64. lia.
  - intros a b Ha Hb Hlt. unfold InternalKeyComparator_FindShortestSeparator. case_match eqn:E.
    + apply andb_prop in E as [E1%Z.ltb_lt E2%Z.ltb_lt]. split.
      { apply Z.lt_le_incl. by apply icmp_shortened_upper. }
      apply icmp_lt. left. unfold PutFixed64. rewrite ExtractUserKey_app by done.
      apply icmp_lt in Hlt as [Hlt|[Heq _]].
      * by apply (separator_spec (key := any_key)).
      * exfalso. rewrite <-Heq, (separator_same (key := any_key)) in E1 by done. lia.
    + split; [|done]. assert (icmp a a = 0) by by apply icmp_eq. lia.
  - intros a Ha. unfold InternalKeyComparator_FindShortSuccessor. case_match; [|done].
    unfold is_internal_key, PutFixed64. rewrite length_app, length_EncodeFixed64. lia.
  - intros a Ha. unfold InternalKeyComparator_FindShortSuccessor. case_match eqn:E.
    + apply andb_prop in E as [E1%Z.ltb_lt E2%Z.ltb_lt]. apply Z.lt_le_incl. by apply icmp_shortened_upper.
    + assert (icmp a a = 0) by by apply icmp_eq. lia.
Qed.
#[global] Instance InternalKeyComparator_separator_same `{!SeparatorSame any_key ucmp} :
  SeparatorSame is_internal_key (InternalKeyComparator ucmp).
Proof.
  intros a Ha. simpl. unfold InternalKeyComparator_FindShortestSeparator.
  rewrite (separator_same (key := any_key)), Z.ltb_irrefl by done. done.
Qed.
End order.

(** ** Lookup keys *)

Lemma internal_key_New u s : internal_key (NewLookupKey u s) = AppendInternalKey [] (ParsedKey u s kValueTypeForSeek).
Proof. unfold internal_key, NewLookupKey. cbn [lk_buf lk_kstart]. by rewrite drop_app_length. Qed.

Lemma lookup_user_key_New u s : lookup_user_key (NewLookupKey u s) = u.
Proof.
  unfold lookup_user_key, NewLookupKey. cbn [lk_buf lk_kstart]. rewrite drop_app_length.
  apply take_app_length'. rewrite !length_app, length_EncodeFixed64. lia.
Qed.


(** * Properties *)

(** [ParseInternalKey] accepts exactly the encodings that [AppendInternalKey] produces for sequence numbers of 56
    bits, and returns the key that was encoded. *)
Theorem internal_key_roundtrip s k :
  ParseInternalKey s = Some k <-> seq_ok (sequence k) /\ s = AppendInternalKey [] k.
Proof.
  split.
  - intros (? & ? & <-)%ParseInternalKey_sound. done.
  - intros [? ->]. by apply ParseInternalKey_Append.
Qed.

(** C32. On encoded keys [InternalKeyComparator] sorts by increasing user key, then decreasing sequence number, then
    decreasing type; a lookup key for sequence number [s] sorts before exactly the entries of its user key with
    sequence number at most [s], the deletion at [s] included, and before the larger user keys. *)
Theorem internal_key_order ucmp a b :
  ComparatorLaws any_key ucmp -> seq_ok (sequence a) -> seq_ok (sequence b) ->
  let icmp := Compare (InternalKeyComparator ucmp) in
  (icmp (AppendInternalKey [] a) (AppendInternalKey [] b) < 0 <->
   Compare ucmp (user_key a) (user_key b) < 0 \/
   (user_key a = user_key b /\
    (sequence b < sequence a \/ (sequence a = sequence b /\ ValueType_val (type b) < ValueType_val (type a))))) /\
  (icmp (internal_key (NewLookupKey (user_key a) (sequence a))) (AppendInternalKey [] b) <= 0 <->
   Compare ucmp (user_key a) (user_key b) < 0 \/ (user_key a = user_key b /\ sequence b <= sequence a)).
Proof.
  intros HL Ha Hb icmp. split; [by apply icmp_parsed|]. rewrite internal_key_New.
  set (l := ParsedKey (user_key a) (sequence a) kValueTypeForSeek).
  assert (E : icmp (AppendInternalKey [] l) (AppendInternalKey [] b) <= 0 <->
              ~ icmp (AppendInternalKey [] b) (AppendInternalKey [] l) < 0).
  { unfold icmp. simpl. rewrite (icmp_antisym (AppendInternalKey [] b)). lia. }
  rewrite E. unfold icmp. simpl. rewrite icmp_parsed by done. unfold l. cbn [user_key sequence type].
  pose proof (compare_eq (c := ucmp) (key := any_key) (user_key a) (user_key b) I I) as Heq.
  pose proof (compare_antisym (c := ucmp) (key := any_key) (user_key b) (user_key a) I I) as Has.
  rewrite Has. assert (0 <= ValueType_val (type b) <= 1) by (destruct (type b); simpl; lia).
  change (ValueType_val kValueTypeForSeek) with 1.
  assert (user_key b = user_key a <-> user_key a = user_key b) as -> by (split; congruence).
  rewrite <-Heq. lia.
Qed.

Lemma internal_key_order_witness :
  ComparatorLaws any_key BytewiseComparator /\ seq_ok 7 /\ seq_ok 5 /\
  Compare (InternalKeyComparator BytewiseComparator)
    (AppendInternalKey [] (ParsedKey [Byte.x61] 7 kTypeDeletion))
    (AppendInternalKey [] (ParsedKey [Byte.x61] 5 kTypeValue)) < 0.
Proof.
  assert (seq_ok 7 /\ seq_ok 5) as [H7 H5] by (unfold seq_ok; rewrite kMaxSequenceNumber_val; lia).
  split; [apply _|]. split; [done|]. split; [done|].
  apply (internal_key_order BytewiseComparator (ParsedKey [Byte.x61] 7 kTypeDeletion)
    (ParsedKey [Byte.x61] 5 kTypeValue) BytewiseComparator_laws H7 H5).
  right. split; [done|]. left. simpl. lia.
Defined.

(** Over a user comparator that meets comparator.h and leaves equal keys alone, [InternalKeyComparator] is a strict
    total order on internal keys and its separator of [a < b] is an internal key in [a, b): the separators that the
    table index is built from divide the keys of adjacent blocks. *)
Theorem internal_separator_correct ucmp a b :
  ComparatorLaws any_key ucmp -> SeparatorSame any_key ucmp -> is_internal_key a -> is_internal_key b ->
  let c := InternalKeyComparator ucmp in
  Compare c a b < 0 ->
  is_internal_key (FindShortestSeparator c a b) /\
  Compare c a (FindShortestSeparator c a b) <= 0 /\ Compare c (FindShortestSeparator c a b) b < 0 /\
  Compare c a (FindShortSuccessor c a) <= 0.
Proof.
  intros HL HS Ha Hb c Hlt.
  destruct (separator_spec (c := c) (key := is_internal_key) a b Ha Hb Hlt).
  split_and!; [by apply (separator_key (c := c) (key := is_internal_key))|done|done|].
  by apply (successor_spec (c := c) (key := is_internal_key)).
Qed.

Lemma internal_separator_correct_witness :
  let a := AppendInternalKey [] (ParsedKey [Byte.x61; Byte.x62] 7 kTypeValue) in
  let b := AppendInternalKey [] (ParsedKey [Byte.x65] 5 kTypeValue) in
  Compare (InternalKeyComparator BytewiseComparator) a b < 0 /\
  Compare (InternalKeyComparator BytewiseComparator)
    (FindShortestSeparator (InternalKeyComparator BytewiseComparator) a b) b < 0.
Proof.
  cbv zeta. split; [done|].
  apply (internal_separator_correct BytewiseComparator _ _ BytewiseComparator_laws
    BytewiseComparator_separator_same); [unfold is_internal_key; simpl; lia|unfold is_internal_key; simpl; lia|done].
Defined.

(** The condition on equal keys is needed: a comparator can meet everything comparator.h documents and still, for
    two internal keys of one user key, make [InternalKeyComparator::FindShortestSeparator] return a key that is not
    below the limit, against its own assertion. *)
Theorem internal_separator_needs_same :
  exists ucmp a b,
    ComparatorLaws any_key ucmp /\ is_internal_key a /\ is_internal_key b /\
    Compare (InternalKeyComparator ucmp) a b < 0 /\
    0 < Compare (InternalKeyComparator ucmp) (FindShortestSeparator (InternalKeyComparator ucmp) a b) b.
Proof.
  set (c := {| Compare := Slice_compare;
               FindShortestSeparator := fun a b => if Slice_compare a b <? 0 then a else [Byte.xff];
               FindShortSuccessor := fun a => a |}).
  exists c, (AppendInternalKey [] (ParsedKey [Byte.x61; Byte.x61] 7 kTypeValue)),
    (AppendInternalKey [] (ParsedKey [Byte.x61; Byte.x61] 5 kTypeValue)).
  split; [|split; [unfold is_internal_key; simpl; lia|split; [unfold is_internal_key; simpl; lia|done]]].
  assert (Hr : forall a, Slice_compare a a = 0) by (intros; by apply Slice_compare_eq).
  split; simpl; intros.
  - apply Slice_compare_eq.
  - rewrite (Slice_compare_sym a b). lia.
  - by eapply Slice_compare_trans.
  - done.
  - destruct (Z.ltb_spec (Slice_compare a b) 0); [|lia]. rewrite Hr. lia.
  - done.
  - rewrite Hr. lia.
Qed.
