(* ===== verification/Status.v ===== *)
(** Status: the result type of include/leveldb/status.h and util/status.cc, with the packed representation of its
    errors. *)

From Stdlib Require Import Strings.Byte Strings.String.
From stdpp Require Import pretty.
From S2P Require Import Prelude Coding.

(** A string literal of the source, as its characters. *)
Definition lit (s : string) : slice := String.list_byte_of_string s.

(** * Data *)

Inductive Code := kOk | kNotFound | kCorruption | kNotSupported | kInvalidArgument | kIOError.

#[export] Instance Code_eq_dec : EqDecision Code.
Proof. solve_decision. Defined.

Definition Code_val (c : Code) : Z :=
  match c with
  | kOk => 0
  | kNotFound => 1
  | kCorruption => 2
  | kNotSupported => 3
  | kInvalidArgument => 4
  | kIOError => 5
  end.

(** [static_cast<Code>(c)], for the values of the enum. *)
Definition Code_of (c : Z) : option Code :=
  if c =? 0 then Some kOk else if c =? 1 then Some kNotFound else if c =? 2 then Some kCorruption
  else if c =? 3 then Some kNotSupported else if c =? 4 then Some kInvalidArgument
  else if c =? 5 then Some kIOError else None.

(** [state_]: [None] is the null pointer of a success; otherwise the array of length, code and message. *)
Record Status := MkStatus { state_ : option slice }.

#[export] Instance Status_eq_dec : EqDecision Status.
Proof. solve_decision. Defined.

(** * Operations *)

Definition OK : Status := MkStatus None.

Definition ok (s : Status) : bool := bool_decide (state_ s = None).

Definition NewStatus (code : Code) (msg msg2 : slice) : Status :=
  let len1 := u32 (slen msg) in
  let len2 := u32 (slen msg2) in
  let size := u32 (len1 + (if negb (len2 =? 0) then 2 + len2 else 0)) in
  let result := EncodeFixed32 size ++ [of_uval (Code_val code)] ++ take (Z.to_nat len1) msg in
  let result := if negb (len2 =? 0) then result ++ lit ": " ++ take (Z.to_nat len2) msg2 else result in
  MkStatus (Some result).

Definition NotFound (msg msg2 : slice) : Status := NewStatus kNotFound msg msg2.
Definition Corruption (msg msg2 : slice) : Status := NewStatus kCorruption msg msg2.
Definition NotSupported (msg msg2 : slice) : Status := NewStatus kNotSupported msg msg2.
Definition InvalidArgument (msg msg2 : slice) : Status := NewStatus kInvalidArgument msg msg2.
Definition IOError (msg msg2 : slice) : Status := NewStatus kIOError msg msg2.

(** The value of [code()]: [state_[4]] is a [char]. *)
Definition code (s : Status) : Z :=
  match state_ s with
  | None => Code_val kOk
  | Some st => sval (nth 4 st Byte.x00)
  end.

Definition IsNotFound (s : Status) : bool := code s =? Code_val kNotFound.
Definition IsCorruption (s : Status) : bool := code s =? Code_val kCorruption.
Definition IsIOError (s : Status) : bool := code s =? Code_val kIOError.
Definition IsNotSupportedError (s : Status) : bool := code s =? Code_val kNotSupported.
Definition IsInvalidArgument (s : Status) : bool := code s =? Code_val kInvalidArgument.

(** The copy takes as many bytes as the length field says. *)
Definition CopyState (state : slice) : slice :=
  let size := DecodeFixed32 state in
  take (Z.to_nat (u32 (size + 5))) state.

Definition Status_copy (rhs : Status) : Status :=
  MkStatus (match state_ rhs with None => None | Some st => Some (CopyState st) end).

(** The switch of [ToString]. *)
Definition type_name (c : Z) : slice :=
  match Code_of c with
  | Some kOk => lit "OK"
  | Some kNotFound => lit "NotFound: "
  | Some kCorruption => lit "Corruption: "
  | Some kNotSupported => lit "Not implemented: "
  | Some kInvalidArgument => lit "Invalid argument: "
  | Some kIOError => lit "IO error: "
  | None => lit "Unknown code(" ++ lit (pretty c) ++ lit "): "
  end.

Definition ToString (s : Status) : slice :=
  match state_ s with
  | None => lit "OK"
  | Some st =>
      let length := DecodeFixed32 st in
      type_name (code s) ++ take (Z.to_nat length) (drop 5 st)
  end.

(** * Lemmas *)

Lemma ok_OK : ok OK = true.
Proof. done. Qed.

Lemma ok_New c m m2 : ok (NewStatus c m m2) = false.
Proof. done. Qed.

Lemma ok_true s : ok s = true <-> s = OK.
Proof. unfold ok. rewrite bool_decide_eq_true. destruct s; simpl. split; [by intros ->|by intros [= ->]]. Qed.

(** The message of a status, as [ToString] shows it. *)
Definition message (m m2 : slice) : slice := if bool_decide (m2 = []) then m else m ++ lit ": " ++ m2.

Lemma NewStatus_state c m m2 :
  slen m + slen m2 + 2 < 2 ^ 32 ->
  state_ (NewStatus c m m2) =
    Some (EncodeFixed32 (slen (message m m2)) ++ [of_uval (Code_val c)] ++ message m m2).
Proof.
  intros H. unfold NewStatus, message. cbn [state_]. f_equal.
  rewrite (wrap_small 32 (slen m)), (wrap_small 32 (slen m2)) by (unfold in_u; lia).
  rewrite !Nat2Z.id, !take_ge by done.
  destruct m2 as [|b m2].
  - simpl Z.of_nat. rewrite Z.add_0_r, wrap_small by (unfold in_u; lia). by rewrite bool_decide_eq_true_2.
  - rewrite bool_decide_eq_false_2 by done. rewrite (proj2 (Z.eqb_neq _ 0)) by (simpl; lia). cbn [negb].
    rewrite wrap_small by (unfold in_u; simpl in *; lia). rewrite <-!app_assoc.
    assert (slen (m ++ lit ": " ++ b :: m2) = slen m + (2 + slen (b :: m2))) as ->; [|done].
    rewrite !length_app. simpl. lia.
Qed.

(** A constructed status has its code, copies to an equal status, is recognised by the predicate of its code only,
    and prints as the name of the code and the message, the second part after a colon. *)
Theorem status_representation c m m2 :
  c <> kOk -> slen m + slen m2 + 7 < 2 ^ 32 ->
  let s := NewStatus c m m2 in
  ok s = false /\ Code_of (code s) = Some c /\ Status_copy s = s /\
  IsNotFound s = bool_decide (c = kNotFound) /\ IsCorruption s = bool_decide (c = kCorruption) /\
  ToString s = type_name (Code_val c) ++ message m m2.
Proof.
  intros Hc Hlen s.
  assert (Hs : state_ s = Some (EncodeFixed32 (slen (message m m2)) ++ [of_uval (Code_val c)] ++ message m m2)).
  { apply NewStatus_state. lia. }
  assert (Hcode : code s = Code_val c).
  { unfold code. rewrite Hs. simpl. by destruct c. }
  assert (Hl : slen (message m m2) <= slen m + slen m2 + 2).
  { unfold message. case_match; rewrite ?length_app; simpl; lia. }
  split_and!.
  - done.
  - rewrite Hcode. by destruct c.
  - unfold Status_copy. rewrite Hs. unfold CopyState. rewrite DecodeFixed32_Encode.
    rewrite !wrap_small by (unfold in_u; rewrite ?wrap_small; unfold in_u; lia).
    rewrite take_ge by (rewrite !length_app, length_EncodeFixed32; simpl; lia). rewrite <-Hs. by destruct s.
  - unfold IsNotFound. rewrite Hcode. by destruct c.
  - unfold IsCorruption. rewrite Hcode. by destruct c.
  - unfold ToString. rewrite Hs, Hcode. f_equal. rewrite DecodeFixed32_Encode, wrap_small by (unfold in_u; lia).
    rewrite app_assoc, drop_app_length' by done. rewrite Nat2Z.id. by apply take_ge.
Qed.

Lemma status_representation_witness :
  kCorruption <> kOk /\ ToString (Corruption (lit "bad block") (lit "4")) = lit "Corruption: bad block: 4" /\
  Status_copy (Corruption (lit "bad block") (lit "4")) = Corruption (lit "bad block") (lit "4").
Proof.
  split; [done|]. split; [reflexivity|].
  apply (status_representation kCorruption (lit "bad block") (lit "4")); [done|simpl; lia].
Defined.
