(* ===== verification/Env.v ===== *)
(** Env: the file interfaces of include/leveldb/env.h that the log and the tables write to and read from.

    The interfaces are abstract classes; what an implementation may do is modelled by an oracle, a list that decides
    the next calls: [None] is a call that succeeds, an error carries its message and, for a write, the number of bytes
    that reached the file before it. An exhausted oracle succeeds. The theorems quantify over the oracle, or take the
    empty one for a device without faults. *)

From S2P Require Import Prelude Coding Status.

(** * Sequential writing *)

Record WritableFile := MkWritableFile {
  wf_contents : slice;
  wf_faults : list (option (nat * slice));
}.

Definition WritableFile_Append (data : slice) (f : WritableFile) : Status * WritableFile :=
  match wf_faults f with
  | Some (n, msg) :: fs => (IOError msg [], MkWritableFile (wf_contents f ++ take n data) fs)
  | None :: fs => (OK, MkWritableFile (wf_contents f ++ data) fs)
  | [] => (OK, MkWritableFile (wf_contents f ++ data) [])
  end.

Definition WritableFile_Flush (f : WritableFile) : Status * WritableFile :=
  match wf_faults f with
  | Some (_, msg) :: fs => (IOError msg [], MkWritableFile (wf_contents f) fs)
  | None :: fs => (OK, MkWritableFile (wf_contents f) fs)
  | [] => (OK, f)
  end.

(** [Sync] changes no bytes that a later reader of the same contents sees; it takes its turn in the sequence of faults. *)
Definition WritableFile_Sync (f : WritableFile) : Status * WritableFile := WritableFile_Flush f.

(** * Sequential reading *)

(** The bytes not yet read. *)
Record SequentialFile := MkSequentialFile {
  sf_rest : slice;
  sf_faults : list (option slice);
}.

(** The bytes read, the status and the advanced file. *)
Definition SequentialFile_Read (n : Z) (f : SequentialFile) : slice * Status * SequentialFile :=
  match sf_faults f with
  | Some msg :: fs => ([], IOError msg [], MkSequentialFile (sf_rest f) fs)
  | None :: fs => (take (Z.to_nat n) (sf_rest f), OK, MkSequentialFile (drop (Z.to_nat n) (sf_rest f)) fs)
  | [] => (take (Z.to_nat n) (sf_rest f), OK, MkSequentialFile (drop (Z.to_nat n) (sf_rest f)) [])
  end.

Definition SequentialFile_Skip (n : Z) (f : SequentialFile) : Status * SequentialFile :=
  match sf_faults f with
  | Some msg :: fs => (IOError msg [], MkSequentialFile (sf_rest f) fs)
  | None :: fs => (OK, MkSequentialFile (drop (Z.to_nat n) (sf_rest f)) fs)
  | [] => (OK, MkSequentialFile (drop (Z.to_nat n) (sf_rest f)) [])
  end.

(** * Reading at an offset *)

(** The status, the data read, and whether it is in the caller's scratch space or elsewhere in memory. *)
Record RandomAccessFile := MkRandomAccessFile { raf_Read : Z -> Z -> Status * slice * bool }.

(** A file without faults. *)
Definition raf_of (contents : slice) (in_scratch : bool) : RandomAccessFile :=
  MkRandomAccessFile (fun offset n =>
    (OK, take (Z.to_nat (Z.min n (slen contents))) (drop (Z.to_nat (Z.min offset (slen contents))) contents), in_scratch)).
