(* ===== verification/FileSystem.v ===== *)
(** FileSystem: the named files of [Env] (include/leveldb/env.h) and the helpers of util/env.cc.

    A file that is being written is a [WritableFile] of its own, with the faults of the environment; its contents are those
    of the named file again when it is deleted.  A call that fails leaves the named files as they are, apart from the writes
    that reached a file before the error, and from a failed [NewWritableFile], which may have emptied the file. *)

From stdpp Require Import gmap.
From Stdlib Require Import Strings.Byte Strings.String.
From S2P Require Import Prelude Coding Status Env.

Record EnvState := MkEnv {
  env_files : gmap slice slice;
  env_faults : list (option (nat * slice));
}.

(** The fault of the next call, if any. *)
Definition next_fault (e : EnvState) : option (nat * slice) * EnvState :=
  match env_faults e with
  | [] => (None, e)
  | f :: fs => (f, MkEnv (env_files e) fs)
  end.

Definition with_files (f : gmap slice slice -> gmap slice slice) (e : EnvState) : EnvState :=
  MkEnv (f (env_files e)) (env_faults e).

Definition NewWritableFile (fname : slice) (e : EnvState) : Status * option WritableFile * EnvState :=
  let '(f, e) := next_fault e in
  match f with
  | Some (n, msg) => (IOError msg [], None, if decide (n = 0)%nat then e else with_files <[fname := []]> e)
  | None => let e := with_files <[fname := []]> e in (OK, Some (MkWritableFile [] (env_faults e)), e)
  end.

(** The end of a [WritableFile]. *)
Definition delete_file (fname : slice) (f : WritableFile) (e : EnvState) : EnvState :=
  MkEnv (<[fname := wf_contents f]> (env_files e)) (wf_faults f).

Definition WritableFile_Close (f : WritableFile) : Status * WritableFile := WritableFile_Flush f.

Definition NewSequentialFile (fname : slice) (e : EnvState) : Status * option slice * EnvState :=
  let '(f, e) := next_fault e in
  match f, env_files e !! fname with
  | Some (_, msg), _ => (IOError msg [], None, e)
  | None, Some contents => (OK, Some contents, e)
  | None, None => (NotFound fname [], None, e)
  end.

(** The environment decides where the data of a read is. *)
Definition NewRandomAccessFile (in_scratch : bool) (fname : slice) (e : EnvState) : Status * option RandomAccessFile * EnvState :=
  let '(s, contents, e) := NewSequentialFile fname e in (s, (fun c => raf_of c in_scratch) <$> contents, e).

(** The file opened behind what it has; a file that is not there is made. *)
Definition NewAppendableFile (fname : slice) (e : EnvState) : Status * option WritableFile * EnvState :=
  let '(f, e) := next_fault e in
  match f with
  | Some (n, msg) => (IOError msg [], None, e)
  | None =>
      let contents := default [] (env_files e !! fname) in
      let e := with_files <[fname := contents]> e in (OK, Some (MkWritableFile contents (env_faults e)), e)
  end.

Definition GetFileSize (fname : slice) (e : EnvState) : Status * Z * EnvState :=
  let '(f, e) := next_fault e in
  match f, env_files e !! fname with
  | Some (_, msg), _ => (IOError msg [], 0, e)
  | None, Some contents => (OK, slen contents, e)
  | None, None => (NotFound fname [], 0, e)
  end.

(** The name of a file in a directory, relative to it. *)
Definition child_name (dir fname : slice) : option slice :=
  let rest := drop (length dir + 1) fname in
  if bool_decide (take (length dir + 1) fname = dir ++ [x2f]) && negb (bool_decide (x2f ∈ rest)) then Some rest else None.

Definition GetChildren (dir : slice) (e : EnvState) : Status * list slice * EnvState :=
  let '(f, e) := next_fault e in
  match f with
  | Some (_, msg) => (IOError msg [], [], e)
  | None => (OK, omap (child_name dir) (map fst (map_to_list (env_files e))), e)
  end.

(** A call that changes no file: directories are not part of the state, and neither are the locks that are held. *)
Definition env_call (e : EnvState) : Status * EnvState :=
  let '(f, e) := next_fault e in
  match f with
  | Some (_, msg) => (IOError msg [], e)
  | None => (OK, e)
  end.

Definition CreateDir (dirname : slice) (e : EnvState) : Status * EnvState := env_call e.

Definition RemoveDir (dirname : slice) (e : EnvState) : Status * EnvState := env_call e.

Definition UnlockFile (fname : slice) (e : EnvState) : Status * EnvState := env_call e.

Definition FileExists (fname : slice) (e : EnvState) : bool := bool_decide (is_Some (env_files e !! fname)).

(** The file that is locked is there behind the call. *)
Definition LockFile (fname : slice) (e : EnvState) : Status * EnvState :=
  let '(f, e) := next_fault e in
  match f with
  | Some (_, msg) => (IOError msg [], e)
  | None => (OK, with_files (fun files => <[fname := default [] (files !! fname)]> files) e)
  end.

Definition RemoveFile (fname : slice) (e : EnvState) : Status * EnvState :=
  let '(f, e) := next_fault e in
  match f, env_files e !! fname with
  | Some (_, msg), _ => (IOError msg [], e)
  | None, Some _ => (OK, with_files (delete fname) e)
  | None, None => (NotFound fname [], e)
  end.

Definition RenameFile (src target : slice) (e : EnvState) : Status * EnvState :=
  let '(f, e) := next_fault e in
  match f, env_files e !! src with
  | Some (_, msg), _ => (IOError msg [], e)
  | None, Some contents => (OK, with_files (fun m => <[target := contents]> (delete src m)) e)
  | None, None => (NotFound src [], e)
  end.

(** * util/env.cc *)

Definition DoWriteStringToFile (data fname : slice) (should_sync : bool) (e : EnvState) : Status * EnvState :=
  let '(s, file, e) := NewWritableFile fname e in
  match file with
  | None => (s, e)
  | Some file =>
      let '(s, file) := WritableFile_Append data file in
      let '(s, file) := if ok s && should_sync then WritableFile_Sync file else (s, file) in
      let '(s, file) := if ok s then WritableFile_Close file else (s, file) in
      let e := delete_file fname file e in
      (s, if negb (ok s) then snd (RemoveFile fname e) else e)
  end.

Definition WriteStringToFile (data fname : slice) (e : EnvState) : Status * EnvState := DoWriteStringToFile data fname false e.

Definition WriteStringToFileSync (data fname : slice) (e : EnvState) : Status * EnvState := DoWriteStringToFile data fname true e.

(** The faults of the reads are those of the environment. *)
Fixpoint ReadFileToString_loop (fuel : nat) (data : slice) (file : SequentialFile) : option (Status * slice * SequentialFile) :=
  match fuel with
  | O => None
  | S fuel =>
      let '(fragment, s, file) := SequentialFile_Read 8192 file in
      if negb (ok s) then Some (s, data, file)
      else
        let data := data ++ fragment in
        if bool_decide (fragment = []) then Some (s, data, file) else ReadFileToString_loop fuel data file
  end.

(** Every turn but the last reads at least a byte. *)
Definition ReadFileToString (fname : slice) (e : EnvState) : option (Status * slice * EnvState) :=
  let '(s, contents, e) := NewSequentialFile fname e in
  match contents with
  | None => Some (s, [], e)
  | Some contents =>
      '(s, data, file) ← ReadFileToString_loop (S (length contents)) [] (MkSequentialFile contents (map (fmap snd) (env_faults e)));
      Some (s, data, MkEnv (env_files e) (drop (length (env_faults e) - length (sf_faults file)) (env_faults e)))
  end.

(** * Lemmas *)

Lemma next_fault_files e : env_files (next_fault e).2 = env_files e.
Proof. unfold next_fault. by destruct (env_faults e). Qed.

Lemma RemoveFile_files fname e g : g <> fname -> env_files (RemoveFile fname e).2 !! g = env_files e !! g.
Proof.
  intros Hg. unfold RemoveFile. rewrite <-(next_fault_files e). destruct (next_fault e) as [[[n msg]|] e1]; [done|]. cbn [snd].
  destruct (env_files e1 !! fname); [|done]. cbn [snd with_files env_files]. by rewrite lookup_delete_ne.
Qed.

Lemma NewWritableFile_files fname e s file e' :
  NewWritableFile fname e = (s, file, e') ->
  (forall g, g <> fname -> env_files e' !! g = env_files e !! g) /\
  match file with
  | Some f => s = OK /\ wf_contents f = [] /\ env_files e' = <[fname := []]> (env_files e)
  | None => ok s = false
  end.
Proof.
  unfold NewWritableFile. rewrite <-(next_fault_files e). destruct (next_fault e) as [[[n msg]|] e1]; cbn [snd]; intros [= <- <- <-].
  - split; [|done]. intros g Hg. case_decide; [done|]. cbn [with_files env_files]. by rewrite lookup_insert_ne.
  - split; [|done]. intros g Hg. cbn [with_files env_files]. by rewrite lookup_insert_ne.
Qed.

Lemma Append_contents data f s f' : WritableFile_Append data f = (s, f') -> ok s = true -> wf_contents f' = wf_contents f ++ data.
Proof. unfold WritableFile_Append. destruct (wf_faults f) as [|[[n msg]|] fs]; by intros [= <- <-] ?. Qed.

Lemma Flush_contents f s f' : WritableFile_Flush f = (s, f') -> wf_contents f' = wf_contents f.
Proof. unfold WritableFile_Flush. destruct (wf_faults f) as [|[[n msg]|] fs]; by intros [= <- <-]. Qed.

(** Writing a string leaves the other files alone, and the file has the whole string when it succeeds. *)
Lemma DoWriteStringToFile_spec data fname sync e s e' :
  DoWriteStringToFile data fname sync e = (s, e') ->
  (ok s = true -> env_files e' = <[fname := data]> (env_files e)) /\
  (forall g, g <> fname -> env_files e' !! g = env_files e !! g).
Proof.
  unfold DoWriteStringToFile. destruct (NewWritableFile fname e) as [[s0 file] e0] eqn:En. destruct (NewWritableFile_files _ _ _ _ _ En) as [Ho Hf].
  destruct file as [f|]; [|intros [= <- <-]; split; [by rewrite Hf|done]]. destruct Hf as (_ & Hc & He).
  destruct (WritableFile_Append data f) as [s1 f1] eqn:E1. pose proof (Append_contents _ _ _ _ E1) as H1. rewrite Hc in H1.
  destruct (if ok s1 && sync then WritableFile_Sync f1 else (s1, f1)) as [s2 f2] eqn:E2.
  assert (wf_contents f2 = wf_contents f1 /\ (ok s2 = true -> ok s1 = true)) as [H2 Hs2].
  { destruct (ok s1) eqn:Es; cbn [andb] in E2; [|injection E2 as <- <-; split; congruence]. split; [|done]. destruct sync; [exact (Flush_contents _ _ _ E2)|by injection E2 as <- <-]. }
  destruct (if ok s2 then WritableFile_Close f2 else (s2, f2)) as [s3 f3] eqn:E3.
  assert (wf_contents f3 = wf_contents f2 /\ (ok s3 = true -> ok s2 = true)) as [H3 Hs3].
  { destruct (ok s2) eqn:Es; [|injection E3 as <- <-; split; congruence]. split; [exact (Flush_contents _ _ _ E3)|done]. }
  intros [= <- <-]. split.
  - intros Hs. rewrite Hs. cbn [negb delete_file env_files]. rewrite He, H3, H2, H1 by auto. apply insert_insert_eq.
  - intros g Hg. destruct (negb (ok s3)); [rewrite RemoveFile_files by done|]; cbn [delete_file env_files]; rewrite lookup_insert_ne by done; by apply Ho.
Qed.

Lemma DoWriteStringToFile_no_faults data fname sync e :
  env_faults e = [] -> DoWriteStringToFile data fname sync e = (OK, MkEnv (<[fname := data]> (env_files e)) []).
Proof.
  intros Hf. destruct e as [files faults]. cbn in Hf. subst. cbn [env_files].
  transitivity (OK, MkEnv (<[fname := data]> (<[fname := []]> files)) []); [by destruct sync|by rewrite insert_insert_eq].
Qed.

Lemma RenameFile_files src target e s e' :
  RenameFile src target e = (s, e') -> src <> target ->
  if ok s then exists c, env_files e !! src = Some c /\ env_files e' = <[target := c]> (delete src (env_files e)) else env_files e' = env_files e.
Proof.
  unfold RenameFile. rewrite <-(next_fault_files e). destruct (next_fault e) as [[[n msg]|] e1]; cbn [snd]; [by intros [= <- <-]|].
  destruct (env_files e1 !! src) as [c|] eqn:E; intros [= <- <-] Hne; [|done]. by exists c.
Qed.

(** Without faults [ReadFileToString] returns the whole file. *)
Lemma ReadFileToString_loop_spec fuel data contents :
  (length contents < fuel)%nat -> ReadFileToString_loop fuel data (MkSequentialFile contents []) = Some (OK, data ++ contents, MkSequentialFile [] []).
Proof.
  revert data contents. induction fuel as [|fuel IH]; intros data contents Hf; [lia|]. cbn [ReadFileToString_loop SequentialFile_Read sf_faults sf_rest].
  rewrite ok_OK. cbn [negb]. destruct (Z.to_nat 8192) as [|m] eqn:Em; [lia|]. clear Em. case_bool_decide as E.
  - assert (contents = []) as -> by (destruct contents; [done|discriminate E]). done.
  - rewrite IH; [by rewrite <-app_assoc, take_drop|]. destruct contents; [done|]. rewrite length_drop. cbn [length] in *. lia.
Qed.

Lemma ReadFileToString_spec fname e contents :
  env_faults e = [] -> env_files e !! fname = Some contents -> ReadFileToString fname e = Some (OK, contents, e).
Proof.
  intros Hf Hc. destruct e as [files faults]. cbn in Hf, Hc. subst faults. unfold ReadFileToString, NewSequentialFile. cbn [next_fault env_faults env_files].
  rewrite Hc. cbn [map fmap]. rewrite ReadFileToString_loop_spec by lia. done.
Qed.
