(* ===== verification/Filename.v ===== *)
(** Filename: the decimal numbers of util/logging.cc, and db/filename.cc, the names of the files of a database and the switch
    of the CURRENT file. *)

From stdpp Require Import gmap.
From Stdlib Require Import Strings.Byte Strings.String.
From S2P Require Import Prelude Coding Status Env FileSystem.

(** * util/logging.cc *)

Definition digit_char (d : Z) : byte := of_uval (48 + d).

(** The conversion [%llu] of [snprintf]; an [unsigned long long] has at most 20 digits. *)
Fixpoint decimal_loop (fuel : nat) (num : Z) : slice :=
  match fuel with
  | O => []
  | S fuel => (if num <? 10 then [] else decimal_loop fuel (num / 10)) ++ [digit_char (num mod 10)]
  end.

Definition decimal (num : Z) : slice := decimal_loop 20 num.

(** [snprintf] into a buffer of [size] bytes. *)
Definition snprintf (size : nat) (s : slice) : slice := take (size - 1) s.

Definition AppendNumberTo (str : slice) (num : Z) : slice := str ++ snprintf 30 (decimal num).

Definition NumberToString (num : Z) : slice := AppendNumberTo [] num.

Definition hex_digit (d : Z) : byte := if d <? 10 then of_uval (48 + d) else of_uval (87 + d).

(** [c >= ' ' && c <= '~'] for a [char]. *)
Definition AppendEscapedStringTo (str value : slice) : slice :=
  foldl (fun str c =>
    if (32 <=? sval c) && (sval c <=? 126) then str ++ [c]
    else str ++ snprintf 10 (lit "\x" ++ [hex_digit (uval c / 16); hex_digit (uval c mod 16)])) str value.

Definition EscapeString (value : slice) : slice := AppendEscapedStringTo [] value.

Definition kMaxUint64 : Z := 2 ^ 64 - 1.
Definition kLastDigitOfMaxUint64 : Z := 48 + kMaxUint64 mod 10.

(** The loop over the digits: the value and the input behind them, or nothing on an overflow. *)
Fixpoint ConsumeDecimalNumber_loop (value : Z) (current : slice) : option (Z * slice) :=
  match current with
  | [] => Some (value, [])
  | c :: rest =>
      let ch := uval c in
      if (ch <? 48) || (57 <? ch) then Some (value, current)
      else if (kMaxUint64 / 10 <? value) || ((value =? kMaxUint64 / 10) && (kLastDigitOfMaxUint64 <? ch)) then None
      else ConsumeDecimalNumber_loop (u64 (u64 (value * 10) + (ch - 48))) rest
  end.

(** The result, what is stored in [*val] if anything, and the advanced input. *)
Definition ConsumeDecimalNumber (input : slice) : bool * option Z * slice :=
  match ConsumeDecimalNumber_loop 0 input with
  | None => (false, None, input)
  | Some (value, rest) => (negb (bool_decide (length rest = length input)), Some value, rest)
  end.

(** * db/filename.cc *)

Inductive FileType := kLogFile | kDBLockFile | kTableFile | kDescriptorFile | kCurrentFile | kTempFile | kInfoLogFile.

#[export] Instance FileType_eq_dec : EqDecision FileType.
Proof. solve_decision. Defined.

(** The conversion [%06llu]. *)
Definition decimal06 (num : Z) : slice := let d := decimal num in repeat x30 (6 - length d) ++ d.

Definition MakeFileName (dbname : slice) (number : Z) (suffix : slice) : slice :=
  dbname ++ snprintf 100 (lit "/" ++ decimal06 number ++ lit "." ++ suffix).

Definition LogFileName (dbname : slice) (number : Z) : slice := MakeFileName dbname number (lit "log").

Definition TableFileName (dbname : slice) (number : Z) : slice := MakeFileName dbname number (lit "ldb").

Definition SSTTableFileName (dbname : slice) (number : Z) : slice := MakeFileName dbname number (lit "sst").

Definition DescriptorFileName (dbname : slice) (number : Z) : slice :=
  dbname ++ snprintf 100 (lit "/MANIFEST-" ++ decimal06 number).

Definition CurrentFileName (dbname : slice) : slice := dbname ++ lit "/CURRENT".

Definition LockFileName (dbname : slice) : slice := dbname ++ lit "/LOCK".

Definition TempFileName (dbname : slice) (number : Z) : slice := MakeFileName dbname number (lit "dbtmp").

Definition InfoLogFileName (dbname : slice) : slice := dbname ++ lit "/LOG".

Definition OldInfoLogFileName (dbname : slice) : slice := dbname ++ lit "/LOG.old".

Definition ParseFileName (filename : slice) : option (Z * FileType) :=
  let rest := filename in
  if Slice_eqb rest (lit "CURRENT") then Some (0, kCurrentFile)
  else if Slice_eqb rest (lit "LOCK") then Some (0, kDBLockFile)
  else if Slice_eqb rest (lit "LOG") || Slice_eqb rest (lit "LOG.old") then Some (0, kInfoLogFile)
  else if Slice_starts_with rest (lit "MANIFEST-") then
    match ConsumeDecimalNumber (drop (length (lit "MANIFEST-")) rest) with
    | (true, Some num, []) => Some (num, kDescriptorFile)
    | _ => None
    end
  else
    match ConsumeDecimalNumber rest with
    | (true, Some num, suffix) =>
        if Slice_eqb suffix (lit ".log") then Some (num, kLogFile)
        else if Slice_eqb suffix (lit ".sst") || Slice_eqb suffix (lit ".ldb") then Some (num, kTableFile)
        else if Slice_eqb suffix (lit ".dbtmp") then Some (num, kTempFile)
        else None
    | _ => None
    end.

Definition SetCurrentFile (dbname : slice) (descriptor_number : Z) (env : EnvState) : Status * EnvState :=
  let manifest := DescriptorFileName dbname descriptor_number in
  let contents := drop (length dbname + 1) manifest in
  let tmp := TempFileName dbname descriptor_number in
  let '(s, env) := WriteStringToFileSync (contents ++ [x0a]) tmp env in
  let '(s, env) := if ok s then RenameFile tmp (CurrentFileName dbname) env else (s, env) in
  (s, if negb (ok s) then snd (RemoveFile tmp env) else env).

(** * Lemmas: numbers *)

(** The number that digits stand for. *)
Definition digits_value (value : Z) (ds : slice) : Z := foldl (fun v c => v * 10 + (uval c - 48)) value ds.

Definition is_digit (c : byte) : Prop := 48 <= uval c <= 57.

(** Input that does not go on with a digit. *)
Definition no_digit (rest : slice) : Prop := match rest with c :: _ => ~ is_digit c | [] => True end.

Lemma digits_value_ge value ds : 0 <= value -> Forall is_digit ds -> value <= digits_value value ds.
Proof.
  intros Hv Hd. revert value Hv. induction Hd as [|c ds Hc _ IH]; intros value Hv; [done|]. unfold is_digit in Hc. cbn.
  unfold digits_value in IH. specialize (IH (value * 10 + (uval c - 48))). lia.
Qed.

(** The loop reads the digits if their number has 64 bits, and fails otherwise. *)
Lemma ConsumeDecimalNumber_loop_spec value ds rest :
  is_u64 value -> Forall is_digit ds -> no_digit rest ->
  ConsumeDecimalNumber_loop value (ds ++ rest) = if digits_value value ds <? 2 ^ 64 then Some (digits_value value ds, rest) else None.
Proof.
  intros Hv Hd Hr. revert value Hv. induction Hd as [|c ds Hc Hds IH]; intros value Hv.
  - cbn [app digits_value foldl]. unfold in_u in Hv. rewrite (proj2 (Z.ltb_lt _ _)) by lia. destruct rest as [|c rest]; [done|]. cbn [ConsumeDecimalNumber_loop].
    unfold no_digit, is_digit in Hr. destruct (Z.ltb_spec (uval c) 48); [done|]. destruct (Z.ltb_spec 57 (uval c)); [done|lia].
  - cbn [app ConsumeDecimalNumber_loop]. unfold is_digit in Hc. unfold in_u in *.
    destruct (Z.ltb_spec (uval c) 48); [lia|]. destruct (Z.ltb_spec 57 (uval c)); [lia|]. cbn [orb].
    change (digits_value value (c :: ds)) with (digits_value (value * 10 + (uval c - 48)) ds).
    pose proof (digits_value_ge (value * 10 + (uval c - 48)) ds ltac:(lia) Hds) as Hge.
    change (kMaxUint64 / 10) with 1844674407370955161. change kLastDigitOfMaxUint64 with 53.
    destruct ((1844674407370955161 <? value) || ((value =? 1844674407370955161) && (53 <? uval c))) eqn:E.
    + rewrite (proj2 (Z.ltb_ge _ _)); [done|]. lia.
    + rewrite (wrap_small 64 (value * 10)) by (unfold in_u; lia). rewrite (wrap_small 64) by (unfold in_u; lia). apply IH. lia.
Qed.

Lemma digit_char_ok d : 0 <= d <= 9 -> is_digit (digit_char d) /\ uval (digit_char d) - 48 = d.
Proof. intros H. unfold is_digit, digit_char. rewrite uval_of_uval_small by lia. lia. Qed.

Lemma digits_value_snoc v ds c : digits_value v (ds ++ [c]) = digits_value v ds * 10 + (uval c - 48).
Proof. unfold digits_value. by rewrite foldl_app. Qed.

(** What [%llu] prints are digits of the number. *)
Lemma decimal_loop_spec fuel num :
  (0 < fuel)%nat -> 0 <= num < 10 ^ Z.of_nat fuel ->
  Forall is_digit (decimal_loop fuel num) /\ digits_value 0 (decimal_loop fuel num) = num /\ (1 <= length (decimal_loop fuel num) <= fuel)%nat.
Proof.
  revert num. induction fuel as [|fuel IH]; intros num Hf Hn; [lia|]. cbn [decimal_loop].
  destruct (digit_char_ok (num mod 10)) as [Hd Hu]; [dlia|]. destruct (Z.ltb_spec num 10) as [H|H].
  - cbn [app]. split_and!; [by constructor| |cbn; lia..]. cbn. rewrite Hu. dlia.
  - rewrite Nat2Z.inj_succ, Z.pow_succ_r in Hn by lia.
    destruct (decide (fuel = 0%nat)) as [->|Hf']; [cbn in Hn; lia|].
    destruct (IH (num / 10)) as (Ha & Hb & Hc); [lia|dlia|]. split_and!.
    + apply Forall_app. by split; [|constructor].
    + rewrite digits_value_snoc, Hb, Hu. dlia.
    + rewrite length_app. cbn. lia.
    + rewrite length_app. cbn. lia.
Qed.

Lemma decimal_spec num : is_u64 num -> Forall is_digit (decimal num) /\ digits_value 0 (decimal num) = num /\ (1 <= length (decimal num) <= 20)%nat.
Proof. intros H. unfold in_u in H. apply (decimal_loop_spec 20 num); lia. Qed.

Lemma decimal06_spec num : is_u64 num -> Forall is_digit (decimal06 num) /\ digits_value 0 (decimal06 num) = num /\ (6 <= length (decimal06 num) <= 20)%nat.
Proof.
  intros H. destruct (decimal_spec num H) as (Ha & Hb & Hc). unfold decimal06. set (k := (6 - length (decimal num))%nat). split_and!.
  - apply Forall_app. split; [|done]. apply Forall_forall. intros c Hin%list_elem_of_In%repeat_spec. subst c. unfold is_digit. change (uval x30) with 48. lia.
  - unfold digits_value in *. rewrite foldl_app. replace (foldl _ 0 (repeat x30 k)) with 0; [done|]. clear. induction k; [done|exact IHk].
  - rewrite length_app, repeat_length. lia.
  - rewrite length_app, repeat_length. lia.
Qed.

(** [ConsumeDecimalNumber] on digits and what follows. *)
Lemma ConsumeDecimalNumber_digits ds rest :
  Forall is_digit ds -> no_digit rest ->
  ConsumeDecimalNumber (ds ++ rest) =
    if digits_value 0 ds <? 2 ^ 64 then (negb (bool_decide (ds = [])), Some (digits_value 0 ds), rest) else (false, None, ds ++ rest).
Proof.
  intros Hd Hr. unfold ConsumeDecimalNumber. rewrite ConsumeDecimalNumber_loop_spec by done. destruct (digits_value 0 ds <? 2 ^ 64); [|done].
  do 2 f_equal. rewrite length_app. do 2 case_bool_decide; destruct ds; cbn in *; try done; lia.
Qed.

Lemma Consume_decimal06 num rest : is_u64 num -> no_digit rest -> ConsumeDecimalNumber (decimal06 num ++ rest) = (true, Some num, rest).
Proof.
  intros H Hr. destruct (decimal06_spec num H) as (Ha & Hb & Hc). rewrite ConsumeDecimalNumber_digits by done. unfold in_u in H.
  rewrite Hb, (proj2 (Z.ltb_lt _ _)) by lia. rewrite bool_decide_false; [done|]. intros E. rewrite E in Hc. cbn in Hc. lia.
Qed.

(** Every input is digits and what follows. *)
Lemma digits_split input : exists ds rest, input = ds ++ rest /\ Forall is_digit ds /\ no_digit rest.
Proof.
  induction input as [|c input (ds & rest & -> & Hd & Hr)]; [by exists [], []|]. destruct (decide (48 <= uval c <= 57)) as [H|H].
  - exists (c :: ds), rest. split; [done|]. split; [by constructor|done].
  - exists [], (c :: ds ++ rest). split; [done|]. by split.
Qed.

(** * Lemmas: names *)

Lemma snprintf_fits size s : (length s < size)%nat -> snprintf size s = s.
Proof. intros H. unfold snprintf. apply take_ge. lia. Qed.

Lemma MakeFileName_eq dbname number suffix :
  is_u64 number -> (length suffix < 70)%nat -> MakeFileName dbname number suffix = dbname ++ x2f :: decimal06 number ++ x2e :: suffix.
Proof.
  intros H Hs. unfold MakeFileName. rewrite snprintf_fits; [done|]. destruct (decimal06_spec number H) as (_ & _ & Hl).
  rewrite !length_app. cbn [length lit String.list_byte_of_string]. change (length (lit "/")) with 1%nat. change (length (lit ".")) with 1%nat. lia.
Qed.

Lemma DescriptorFileName_eq dbname number : is_u64 number -> DescriptorFileName dbname number = dbname ++ x2f :: lit "MANIFEST-" ++ decimal06 number.
Proof.
  intros H. unfold DescriptorFileName. rewrite snprintf_fits; [done|]. destruct (decimal06_spec number H) as (_ & _ & Hl).
  rewrite length_app. change (length (lit "/MANIFEST-")) with 10%nat. lia.
Qed.

(** The base name of a path in the directory. *)
Lemma base_name {A} (dbname : list A) c name : drop (length dbname + 1) (dbname ++ c :: name) = name.
Proof. rewrite <-drop_drop, drop_app_length. done. Qed.

Lemma Slice_eqb_ne x y : x <> y -> Slice_eqb x y = false.
Proof. intros H. destruct (Slice_eqb x y) eqn:E; [|done]. by apply Slice_eqb_spec in E. Qed.

(** A name that starts with a digit is a number and a suffix. *)
Lemma ParseFileName_number number suffix :
  is_u64 number -> no_digit suffix ->
  ParseFileName (decimal06 number ++ suffix) =
    if Slice_eqb suffix (lit ".log") then Some (number, kLogFile)
    else if Slice_eqb suffix (lit ".sst") || Slice_eqb suffix (lit ".ldb") then Some (number, kTableFile)
    else if Slice_eqb suffix (lit ".dbtmp") then Some (number, kTempFile) else None.
Proof.
  intros Hn Hs. destruct (decimal06_spec number Hn) as (Hd & _ & Hl). unfold ParseFileName. rewrite Consume_decimal06 by done.
  destruct (decimal06 number) as [|c ds]; [cbn in Hl; lia|]. apply Forall_cons in Hd as [Hc _]. unfold is_digit in Hc.
  assert (forall x, match x with y :: _ => ~ is_digit y | [] => True end -> Slice_eqb ((c :: ds) ++ suffix) x = false) as Hne.
  { intros x Hx. apply Slice_eqb_ne. cbn. destruct x as [|y x]; [done|]. intros [= E _]. subst y. by apply Hx. }
  rewrite !Hne by (unfold is_digit; by vm_compute; intros []). cbn [orb].
  destruct (Slice_starts_with _ _) eqn:E; [|done]. apply Slice_starts_with_spec in E as [t E]. injection E as -> _. vm_compute in Hc. by destruct Hc.
Qed.

Lemma ParseFileName_manifest number : is_u64 number -> ParseFileName (lit "MANIFEST-" ++ decimal06 number) = Some (number, kDescriptorFile).
Proof.
  intros Hn. unfold ParseFileName. rewrite !Slice_eqb_ne by done. cbn [orb]. rewrite (proj2 (Slice_starts_with_spec _ _)) by (by eexists). rewrite drop_app_length. pose proof (Consume_decimal06 number [] Hn I) as E. rewrite app_nil_r in E. by rewrite E.
Qed.

(** * Properties *)

(** [ConsumeDecimalNumber] is exact at the limit of 64 bits.  An input is digits and a rest that does not start with one:
    if there is a digit and the number is less than 2^64, it returns true with the number and leaves the rest; without
    digits it returns false, and a number of 2^64 or more is an error that leaves the input as it was.  So a number that
    [AppendNumberTo] prints is read back. *)
Theorem consume_decimal_exact (ds rest : slice) :
  Forall is_digit ds -> no_digit rest ->
  (digits_value 0 ds < 2 ^ 64 -> ConsumeDecimalNumber (ds ++ rest) = (negb (bool_decide (ds = [])), Some (digits_value 0 ds), rest)) /\
  (2 ^ 64 <= digits_value 0 ds -> ConsumeDecimalNumber (ds ++ rest) = (false, None, ds ++ rest)) /\
  (forall num str, is_u64 num -> exists ds', AppendNumberTo str num = str ++ ds' /\ ConsumeDecimalNumber (ds' ++ rest) = (true, Some num, rest)).
Proof.
  intros Hd Hr. rewrite ConsumeDecimalNumber_digits by done. split_and!.
  - intros H. by rewrite (proj2 (Z.ltb_lt _ _)).
  - intros H. by rewrite (proj2 (Z.ltb_ge _ _)).
  - intros num str Hn. destruct (decimal_spec num Hn) as (Ha & Hb & Hc). exists (decimal num). unfold AppendNumberTo. rewrite snprintf_fits by lia.
    split; [done|]. rewrite ConsumeDecimalNumber_digits by done. unfold in_u in Hn. rewrite Hb, (proj2 (Z.ltb_lt _ _)) by lia.
    rewrite bool_decide_false; [done|]. intros E. rewrite E in Hc. cbn in Hc. lia.
Qed.

Lemma consume_decimal_exact_witness :
  ConsumeDecimalNumber (lit "18446744073709551615" ++ lit ".log") = (true, Some (2 ^ 64 - 1), lit ".log") /\
  ConsumeDecimalNumber (lit "18446744073709551616" ++ []) = (false, None, lit "18446744073709551616").
Proof.
  split.
  - apply (consume_decimal_exact (lit "18446744073709551615") (lit ".log")); [|by vm_compute; intros []|by vm_compute].
    repeat constructor; vm_compute; congruence.
  - rewrite <-(app_nil_r (lit "18446744073709551616")) at 2. apply (consume_decimal_exact (lit "18446744073709551616") []); [|done|by vm_compute].
    repeat constructor; vm_compute; congruence.
Defined.

(** C37. The names of the files of a database say what the files are: [ParseFileName] of the name behind the directory gives
    the number and the type that the name was made with, for every name function and every number of 64 bits.  Nothing of a
    name is cut by the buffers. *)
Theorem filename_roundtrip (dbname : slice) (number : Z) :
  is_u64 number ->
  let parse f := ParseFileName (drop (length dbname + 1) f) in
  parse (LogFileName dbname number) = Some (number, kLogFile) /\
  parse (TableFileName dbname number) = Some (number, kTableFile) /\
  parse (SSTTableFileName dbname number) = Some (number, kTableFile) /\
  parse (TempFileName dbname number) = Some (number, kTempFile) /\
  parse (DescriptorFileName dbname number) = Some (number, kDescriptorFile) /\
  parse (CurrentFileName dbname) = Some (0, kCurrentFile) /\
  parse (LockFileName dbname) = Some (0, kDBLockFile) /\
  parse (InfoLogFileName dbname) = Some (0, kInfoLogFile) /\
  parse (OldInfoLogFileName dbname) = Some (0, kInfoLogFile).
Proof.
  intros Hn parse. unfold parse, LogFileName, TableFileName, SSTTableFileName, TempFileName. rewrite !MakeFileName_eq, DescriptorFileName_eq by (done || (cbn; lia)).
  change (CurrentFileName dbname) with (dbname ++ x2f :: lit "CURRENT"). change (LockFileName dbname) with (dbname ++ x2f :: lit "LOCK").
  change (InfoLogFileName dbname) with (dbname ++ x2f :: lit "LOG"). change (OldInfoLogFileName dbname) with (dbname ++ x2f :: lit "LOG.old").
  rewrite !base_name, !ParseFileName_number, ParseFileName_manifest by (done || (by vm_compute; intros [])). done.
Qed.

Lemma filename_roundtrip_witness :
  ParseFileName (drop 4 (TableFileName (lit "/db") 12)) = Some (12, kTableFile) /\ TableFileName (lit "/db") 12 = lit "/db/000012.ldb".
Proof.
  split; [|by vm_compute]. apply (filename_roundtrip (lit "/db") 12). by vm_compute.
Defined.

Lemma SetCurrentFile_spec (dbname : slice) (number : Z) (env : EnvState) (s : Status) (env' : EnvState) :
  is_u64 number -> SetCurrentFile dbname number env = (s, env') ->
  (if ok s then
     exists name, env_files env' !! CurrentFileName dbname = Some (name ++ [x0a]) /\ DescriptorFileName dbname number = dbname ++ lit "/" ++ name /\
       ParseFileName name = Some (number, kDescriptorFile) /\ env_files env' !! TempFileName dbname number = None
   else env_files env' !! CurrentFileName dbname = env_files env !! CurrentFileName dbname) /\
  (forall f, f <> CurrentFileName dbname -> f <> TempFileName dbname number -> env_files env' !! f = env_files env !! f).
Proof.
  intros Hn. unfold SetCurrentFile. rewrite DescriptorFileName_eq, base_name by done. set (tmp := TempFileName dbname number).
  assert (tmp <> CurrentFileName dbname) as Hne.
  { unfold tmp, TempFileName, CurrentFileName. rewrite MakeFileName_eq by (done || (cbn; lia)). intros E. apply app_inv_head in E.
    destruct (decimal06_spec number Hn) as (Hd & _ & Hl). destruct (decimal06 number) as [|c ds]; [cbn in Hl; lia|].
    apply Forall_cons in Hd as [Hc _]. injection E as -> _. vm_compute in Hc. by destruct Hc. }
  destruct (WriteStringToFileSync _ tmp env) as [s1 e1] eqn:E1. apply DoWriteStringToFile_spec in E1 as [Hw Ho].
  destruct (if ok s1 then RenameFile tmp (CurrentFileName dbname) e1 else (s1, e1)) as [s2 e2] eqn:E2. intros [= <- <-].
  destruct (ok s1) eqn:Es1.
  - apply RenameFile_files in E2; [|done]. destruct (ok s2) eqn:Es2; cbn [negb].
    + destruct E2 as (c & Ec & Ef). rewrite (Hw eq_refl), lookup_insert_eq in Ec. injection Ec as <-. rewrite Ef. split.
      * exists (lit "MANIFEST-" ++ decimal06 number). split_and!; [by rewrite lookup_insert_eq|done|by apply ParseFileName_manifest|].
        rewrite lookup_insert_ne by done. by rewrite lookup_delete_eq.
      * intros f Hf Hf'. rewrite lookup_insert_ne, lookup_delete_ne by done. by apply Ho.
    + split; [|intros f Hf Hf']; rewrite RemoveFile_files by done; rewrite E2; by apply Ho.
  - injection E2 as <- <-. rewrite Es1. cbn [negb]. split; [|intros f Hf Hf']; rewrite RemoveFile_files by done; by apply Ho.
Qed.

Lemma SetCurrentFile_no_faults dbname number env :
  env_faults env = [] -> exists env', SetCurrentFile dbname number env = (OK, env') /\ env_faults env' = [].
Proof.
  intros Hf. unfold SetCurrentFile, WriteStringToFileSync. rewrite DoWriteStringToFile_no_faults by done. rewrite ok_OK. unfold RenameFile.
  cbn [next_fault env_faults env_files]. rewrite lookup_insert_eq. rewrite ok_OK. by eexists.
Qed.

Lemma DescriptorFileName_current dbname n : is_u64 n -> DescriptorFileName dbname n <> CurrentFileName dbname.
Proof. intros Hn. rewrite DescriptorFileName_eq by done. unfold CurrentFileName. intros E%app_inv_head. done. Qed.

Lemma DescriptorFileName_temp dbname n m : is_u64 n -> is_u64 m -> DescriptorFileName dbname n <> TempFileName dbname m.
Proof.
  intros Hn Hm. rewrite DescriptorFileName_eq by done. unfold TempFileName. rewrite MakeFileName_eq by (done || (cbn; lia)). intros E%app_inv_head.
  destruct (decimal06_spec m Hm) as (Hd & _ & Hl). destruct (decimal06 m) as [|c ds]; [cbn in Hl; lia|].
  apply Forall_cons in Hd as [Hc _]. injection E as <- _. vm_compute in Hc. by destruct Hc.
Qed.

Lemma DescriptorFileName_inj dbname n m : is_u64 n -> is_u64 m -> DescriptorFileName dbname n = DescriptorFileName dbname m -> n = m.
Proof.
  intros Hn Hm. rewrite !DescriptorFileName_eq by done. intros E%app_inv_head. apply (f_equal (drop 1)) in E. rewrite !skipn_cons, !drop_0 in E.
  pose proof (ParseFileName_manifest n Hn) as H. rewrite E, ParseFileName_manifest in H by done. by injection H.
Qed.

(** C23. [SetCurrentFile] switches to a descriptor all at once.  Whatever calls of the environment fail, and after how many
    bytes of a write: when it returns OK, the CURRENT file is the name of the descriptor file and a newline, and the name
    parses to the number; when it fails, the CURRENT file is what it was.  No file but CURRENT and the temporary file
    changes, and the temporary file is gone after a success. *)
Theorem set_current_file_atomic (dbname : slice) (number : Z) (env : EnvState) (s : Status) (env' : EnvState) :
  is_u64 number -> SetCurrentFile dbname number env = (s, env') ->
  (if ok s then
     exists name, env_files env' !! CurrentFileName dbname = Some (name ++ [x0a]) /\ DescriptorFileName dbname number = dbname ++ lit "/" ++ name /\
       ParseFileName name = Some (number, kDescriptorFile) /\ env_files env' !! TempFileName dbname number = None
   else env_files env' !! CurrentFileName dbname = env_files env !! CurrentFileName dbname) /\
  (forall f, f <> CurrentFileName dbname -> f <> TempFileName dbname number -> env_files env' !! f = env_files env !! f).
Proof. apply SetCurrentFile_spec. Qed.

Lemma set_current_file_atomic_witness :
  let env := MkEnv {[CurrentFileName (lit "/db") := lit "old"]} [None; None; None; None; Some (0%nat, lit "rename")] in
  let '(s, env') := SetCurrentFile (lit "/db") 7 env in
  ok s = false /\ env_files env' !! CurrentFileName (lit "/db") = Some (lit "old").
Proof.
  intros env. destruct (SetCurrentFile (lit "/db") 7 env) as [s env'] eqn:E.
  assert (ok s = false) as Es by (replace s with (SetCurrentFile (lit "/db") 7 env).1 by (by rewrite E); by vm_compute).
  split; [exact Es|]. pose proof (set_current_file_atomic (lit "/db") 7 env s env' ltac:(by vm_compute) E) as [H _]. rewrite Es in H.
  rewrite H. by vm_compute.
Defined.
