(* ===== verification/VersionEdit.v ===== *)
(** VersionEdit: db/version_edit.h and db/version_edit.cc, the records of the descriptor (MANIFEST) file. *)

From Stdlib Require Import Strings.Byte Strings.String.
From S2P Require Import Prelude Coding Status Comparator DbFormat Env FileSystem Filename.

(** * Data *)

Definition kNumLevels : Z := 7.

Record FileMetaData := MkFile {
  refs : Z;
  allowed_seeks : Z;
  number : Z;
  file_size : Z;
  smallest : InternalKey;
  largest : InternalKey;
}.

#[export] Instance FileMetaData_eq_dec : EqDecision FileMetaData.
Proof. solve_decision. Defined.

(** The constructor, and the fields that are assigned after it. *)
Definition NewFile (number file_size : Z) (smallest largest : InternalKey) : FileMetaData :=
  MkFile 0 (Z.shiftl 1 30) number file_size smallest largest.

(** A field with a [has_] flag. *)
Record VersionEdit := MkEdit {
  comparator_ : slice;
  log_number_ : Z;
  prev_log_number_ : Z;
  next_file_number_ : Z;
  last_sequence_ : Z;
  has_comparator_ : bool;
  has_log_number_ : bool;
  has_prev_log_number_ : bool;
  has_next_file_number_ : bool;
  has_last_sequence_ : bool;
  compact_pointers_ : list (Z * InternalKey);
  deleted_files_ : list (Z * Z);
  new_files_ : list (Z * FileMetaData);
}.

(** * Operations *)

(** [Clear]; what the edit was before does not matter. *)
Definition NewVersionEdit : VersionEdit := MkEdit [] 0 0 0 0 false false false false false [] [] [].

Definition SetComparatorName (name : slice) (e : VersionEdit) : VersionEdit :=
  let 'MkEdit _ l p n s _ bl bp bn bs cp df nf := e in MkEdit name l p n s true bl bp bn bs cp df nf.

Definition SetLogNumber (num : Z) (e : VersionEdit) : VersionEdit :=
  let 'MkEdit c _ p n s bc _ bp bn bs cp df nf := e in MkEdit c num p n s bc true bp bn bs cp df nf.

Definition SetPrevLogNumber (num : Z) (e : VersionEdit) : VersionEdit :=
  let 'MkEdit c l _ n s bc bl _ bn bs cp df nf := e in MkEdit c l num n s bc bl true bn bs cp df nf.

Definition SetNextFile (num : Z) (e : VersionEdit) : VersionEdit :=
  let 'MkEdit c l p _ s bc bl bp _ bs cp df nf := e in MkEdit c l p num s bc bl bp true bs cp df nf.

Definition SetLastSequence (seq : Z) (e : VersionEdit) : VersionEdit :=
  let 'MkEdit c l p n _ bc bl bp bn _ cp df nf := e in MkEdit c l p n seq bc bl bp bn true cp df nf.

Definition SetCompactPointer (level : Z) (key : InternalKey) (e : VersionEdit) : VersionEdit :=
  let 'MkEdit c l p n s bc bl bp bn bs cp df nf := e in MkEdit c l p n s bc bl bp bn bs (cp ++ [(level, key)]) df nf.

Definition push_new_file (level : Z) (f : FileMetaData) (e : VersionEdit) : VersionEdit :=
  let 'MkEdit c l p n s bc bl bp bn bs cp df nf := e in MkEdit c l p n s bc bl bp bn bs cp df (nf ++ [(level, f)]).

Definition AddFile (level file file_size : Z) (smallest largest : InternalKey) (e : VersionEdit) : VersionEdit :=
  push_new_file level (NewFile file file_size smallest largest) e.

(** The order of [std::pair<int, uint64_t>]. *)
Definition deleted_lt (a b : Z * Z) : Prop := a.1 < b.1 \/ (a.1 = b.1 /\ a.2 < b.2).

#[export] Instance deleted_lt_dec a b : Decision (deleted_lt a b).
Proof. unfold deleted_lt. apply _. Defined.

(** [insert] of a [std::set]. *)
Fixpoint set_insert (x : Z * Z) (l : list (Z * Z)) : list (Z * Z) :=
  match l with
  | [] => [x]
  | y :: l' => if decide (deleted_lt x y) then x :: l else if decide (deleted_lt y x) then y :: set_insert x l' else l
  end.

Definition RemoveFile (level file : Z) (e : VersionEdit) : VersionEdit :=
  let 'MkEdit c l p n s bc bl bp bn bs cp df nf := e in MkEdit c l p n s bc bl bp bn bs cp (set_insert (level, file) df) nf.

(** ** Encoding *)

Definition kComparator : Z := 1.
Definition kLogNumber : Z := 2.
Definition kNextFileNumber : Z := 3.
Definition kLastSequence : Z := 4.
Definition kCompactPointer : Z := 5.
Definition kDeletedFile : Z := 6.
Definition kNewFile : Z := 7.
Definition kPrevLogNumber : Z := 9.

Definition put_number (has : bool) (tag v : Z) (dst : slice) : slice :=
  if has then PutVarint64 (PutVarint32 dst tag) v else dst.

Definition put_compact_pointer (dst : slice) (cp : Z * InternalKey) : slice :=
  PutLengthPrefixedSlice (PutVarint32 (PutVarint32 dst kCompactPointer) (u32 cp.1)) (InternalKey_Encode cp.2).

Definition put_deleted_file (dst : slice) (df : Z * Z) : slice :=
  PutVarint64 (PutVarint32 (PutVarint32 dst kDeletedFile) (u32 df.1)) df.2.

Definition put_new_file (dst : slice) (nf : Z * FileMetaData) : slice :=
  let f := nf.2 in
  let dst := PutVarint32 (PutVarint32 dst kNewFile) (u32 nf.1) in
  let dst := PutVarint64 (PutVarint64 dst (number f)) (file_size f) in
  PutLengthPrefixedSlice (PutLengthPrefixedSlice dst (InternalKey_Encode (smallest f))) (InternalKey_Encode (largest f)).

Definition VersionEdit_EncodeTo (e : VersionEdit) (dst : slice) : slice :=
  let dst := if has_comparator_ e then PutLengthPrefixedSlice (PutVarint32 dst kComparator) (comparator_ e) else dst in
  let dst := put_number (has_log_number_ e) kLogNumber (log_number_ e) dst in
  let dst := put_number (has_prev_log_number_ e) kPrevLogNumber (prev_log_number_ e) dst in
  let dst := put_number (has_next_file_number_ e) kNextFileNumber (next_file_number_ e) dst in
  let dst := put_number (has_last_sequence_ e) kLastSequence (last_sequence_ e) dst in
  let dst := foldl put_compact_pointer dst (compact_pointers_ e) in
  let dst := foldl put_deleted_file dst (deleted_files_ e) in
  foldl put_new_file dst (new_files_ e).

(** ** Decoding *)

Definition GetInternalKey (input : slice) : option (InternalKey * slice) :=
  '(str, input) ← GetLengthPrefixedSlice input;
  let '(key, b) := InternalKey_DecodeFrom str in
  if b : bool then Some (key, input) else None.

Definition GetLevel (input : slice) : option (Z * slice) :=
  '(v, input) ← GetVarint32 input;
  if v <? kNumLevels then Some (v, input) else None.

(** One turn of the loop behind the tag: the advanced input and the changed edit, or the message.  What a failed turn
    leaves of the input and of the edit is not used. *)
Definition decode_field (tag : Z) (input : slice) (e : VersionEdit) : slice + (slice * VersionEdit) :=
  let or_msg (msg : string) (r : option (slice * VersionEdit)) := match r with Some r => inr r | None => inl (lit msg) end in
  if tag =? kComparator then
    or_msg "comparator name"%string ('(str, input) ← GetLengthPrefixedSlice input; Some (input, SetComparatorName str e))
  else if tag =? kLogNumber then
    or_msg "log number"%string ('(v, input) ← GetVarint64 input; Some (input, SetLogNumber v e))
  else if tag =? kPrevLogNumber then
    or_msg "previous log number"%string ('(v, input) ← GetVarint64 input; Some (input, SetPrevLogNumber v e))
  else if tag =? kNextFileNumber then
    or_msg "next file number"%string ('(v, input) ← GetVarint64 input; Some (input, SetNextFile v e))
  else if tag =? kLastSequence then
    or_msg "last sequence number"%string ('(v, input) ← GetVarint64 input; Some (input, SetLastSequence v e))
  else if tag =? kCompactPointer then
    or_msg "compaction pointer"%string ('(level, input) ← GetLevel input; '(key, input) ← GetInternalKey input; Some (input, SetCompactPointer level key e))
  else if tag =? kDeletedFile then
    or_msg "deleted file"%string ('(level, input) ← GetLevel input; '(number, input) ← GetVarint64 input; Some (input, RemoveFile level number e))
  else if tag =? kNewFile then
    or_msg "new-file entry"%string
      ('(level, input) ← GetLevel input; '(number, input) ← GetVarint64 input; '(file_size, input) ← GetVarint64 input;
       '(smallest, input) ← GetInternalKey input; '(largest, input) ← GetInternalKey input;
       Some (input, push_new_file level (NewFile number file_size smallest largest) e))
  else inl (lit "unknown tag").

(** The message that ends the loop, or the input that has no tag, with the edit. *)
Fixpoint decode_loop (fuel : nat) (input : slice) (e : VersionEdit) : option (slice + (slice * VersionEdit)) :=
  match fuel with
  | O => None
  | S fuel =>
      match GetVarint32 input with
      | None => Some (inr (input, e))
      | Some (tag, input) =>
          match decode_field tag input e with
          | inl msg => Some (inl msg)
          | inr (input, e) => decode_loop fuel input e
          end
      end
  end.

(** The status, and the edit when it is OK.  Every turn reads a tag, so there are at most as many as bytes. *)
Definition VersionEdit_DecodeFrom (src : slice) : option (Status * option VersionEdit) :=
  r ← decode_loop (S (length src)) src NewVersionEdit;
  Some (match r with
        | inl msg => (Corruption (lit "VersionEdit") msg, None)
        | inr (input, e) =>
            if bool_decide (input = []) then (OK, Some e) else (Corruption (lit "VersionEdit") (lit "invalid tag"), None)
        end).

(** ** Printing *)

Definition ParsedInternalKey_DebugString (k : ParsedInternalKey) : slice :=
  lit "'" ++ EscapeString (user_key k) ++ lit "' @ " ++ decimal (sequence k) ++ lit " : " ++ decimal (ValueType_val (type k)).

Definition InternalKey_DebugString (k : InternalKey) : slice :=
  match ParseInternalKey (rep_ k) with
  | Some parsed => ParsedInternalKey_DebugString parsed
  | None => lit "(bad)" ++ EscapeString (rep_ k)
  end.

Definition newline : slice := [x0a].

Definition debug_number (has : bool) (title : string) (v : Z) (r : slice) : slice :=
  if has then AppendNumberTo (r ++ newline ++ lit title) v else r.

Definition VersionEdit_DebugString (e : VersionEdit) : slice :=
  let r := lit "VersionEdit {" in
  let r := if has_comparator_ e then r ++ newline ++ lit "  Comparator: " ++ comparator_ e else r in
  let r := debug_number (has_log_number_ e) "  LogNumber: " (log_number_ e) r in
  let r := debug_number (has_prev_log_number_ e) "  PrevLogNumber: " (prev_log_number_ e) r in
  let r := debug_number (has_next_file_number_ e) "  NextFile: " (next_file_number_ e) r in
  let r := debug_number (has_last_sequence_ e) "  LastSeq: " (last_sequence_ e) r in
  let r := foldl (fun r cp => AppendNumberTo (r ++ newline ++ lit "  CompactPointer: ") (u64 cp.1) ++ lit " " ++ InternalKey_DebugString cp.2) r (compact_pointers_ e) in
  let r := foldl (fun r df => AppendNumberTo (AppendNumberTo (r ++ newline ++ lit "  RemoveFile: ") (u64 df.1) ++ lit " ") df.2) r (deleted_files_ e) in
  let r := foldl (fun r nf =>
    let f := nf.2 in
    AppendNumberTo (AppendNumberTo (AppendNumberTo (r ++ newline ++ lit "  AddFile: ") (u64 nf.1) ++ lit " ") (number f) ++ lit " ") (file_size f) ++
      lit " " ++ InternalKey_DebugString (smallest f) ++ lit " .. " ++ InternalKey_DebugString (largest f)) r (new_files_ e) in
  r ++ newline ++ lit "}" ++ newline.

(** * Lemmas *)

(** The calls that build an edit. *)
Inductive EditOp :=
  | OpComparatorName (name : slice)
  | OpLogNumber (num : Z)
  | OpPrevLogNumber (num : Z)
  | OpNextFile (num : Z)
  | OpLastSequence (seq : Z)
  | OpCompactPointer (level : Z) (key : InternalKey)
  | OpRemoveFile (level file : Z)
  | OpAddFile (level file file_size : Z) (smallest largest : InternalKey).

Definition apply_op (e : VersionEdit) (op : EditOp) : VersionEdit :=
  match op with
  | OpComparatorName name => SetComparatorName name e
  | OpLogNumber num => SetLogNumber num e
  | OpPrevLogNumber num => SetPrevLogNumber num e
  | OpNextFile num => SetNextFile num e
  | OpLastSequence seq => SetLastSequence seq e
  | OpCompactPointer level key => SetCompactPointer level key e
  | OpRemoveFile level file => RemoveFile level file e
  | OpAddFile level file size smallest largest => AddFile level file size smallest largest e
  end.

(** The levels, keys and numbers that the types and [DecodeFrom] allow. *)
Definition level_ok (level : Z) : Prop := 0 <= level < kNumLevels.
Definition key_ok (k : InternalKey) : Prop := rep_ k <> [] /\ is_u32 (slen (rep_ k)).

Definition op_ok (op : EditOp) : Prop :=
  match op with
  | OpComparatorName name => is_u32 (slen name)
  | OpLogNumber num | OpPrevLogNumber num | OpNextFile num | OpLastSequence num => is_u64 num
  | OpCompactPointer level key => level_ok level /\ key_ok key
  | OpRemoveFile level file => level_ok level /\ is_u64 file
  | OpAddFile level file size smallest largest => level_ok level /\ is_u64 file /\ is_u64 size /\ key_ok smallest /\ key_ok largest
  end.

Definition encode_op (op : EditOp) : slice :=
  match op with
  | OpComparatorName name => PutLengthPrefixedSlice (PutVarint32 [] kComparator) name
  | OpLogNumber num => put_number true kLogNumber num []
  | OpPrevLogNumber num => put_number true kPrevLogNumber num []
  | OpNextFile num => put_number true kNextFileNumber num []
  | OpLastSequence num => put_number true kLastSequence num []
  | OpCompactPointer level key => put_compact_pointer [] (level, key)
  | OpRemoveFile level file => put_deleted_file [] (level, file)
  | OpAddFile level file size smallest largest => put_new_file [] (level, NewFile file size smallest largest)
  end.

(** The calls that make an edit from the empty one, in the order of its encoding. *)
Definition opt_op (has : bool) (op : EditOp) : list EditOp := if has then [op] else [].

Definition ops_of (e : VersionEdit) : list EditOp :=
  opt_op (has_comparator_ e) (OpComparatorName (comparator_ e)) ++ opt_op (has_log_number_ e) (OpLogNumber (log_number_ e)) ++
  opt_op (has_prev_log_number_ e) (OpPrevLogNumber (prev_log_number_ e)) ++ opt_op (has_next_file_number_ e) (OpNextFile (next_file_number_ e)) ++
  opt_op (has_last_sequence_ e) (OpLastSequence (last_sequence_ e)) ++
  map (fun cp => OpCompactPointer cp.1 cp.2) (compact_pointers_ e) ++ map (fun df => OpRemoveFile df.1 df.2) (deleted_files_ e) ++
  map (fun nf => OpAddFile nf.1 (number nf.2) (file_size nf.2) (smallest nf.2) (largest nf.2)) (new_files_ e).

(** The edits that the calls make. *)
Record edit_ok (e : VersionEdit) : Prop := {
  eo_ops : Forall op_ok (ops_of e);
  eo_comparator : has_comparator_ e = false -> comparator_ e = [];
  eo_log : has_log_number_ e = false -> log_number_ e = 0;
  eo_prev : has_prev_log_number_ e = false -> prev_log_number_ e = 0;
  eo_next : has_next_file_number_ e = false -> next_file_number_ e = 0;
  eo_seq : has_last_sequence_ e = false -> last_sequence_ e = 0;
  eo_deleted : StronglySorted deleted_lt (deleted_files_ e);
  eo_files : Forall (fun nf => nf.2 = NewFile (number nf.2) (file_size nf.2) (smallest nf.2) (largest nf.2)) (new_files_ e);
}.

(** ** The set of deleted files *)

Lemma deleted_lt_trans a b c : deleted_lt a b -> deleted_lt b c -> deleted_lt a c.
Proof. unfold deleted_lt. lia. Qed.

Lemma set_insert_elem x l y : y ∈ set_insert x l -> y = x \/ y ∈ l.
Proof.
  induction l as [|z l IH]; cbn [set_insert]; [rewrite list_elem_of_singleton; auto|]. repeat case_decide; rewrite !elem_of_cons; [by intros [|[]]; auto| |auto].
  intros [->|H1]; [auto|]. destruct (IH H1); auto.
Qed.

Lemma set_insert_sorted x l : StronglySorted deleted_lt l -> StronglySorted deleted_lt (set_insert x l).
Proof.
  induction l as [|y l IH]; intros Hs; cbn [set_insert]; [by repeat constructor|]. pose proof Hs as [Hl Hy]%StronglySorted_inv. repeat case_decide.
  - constructor; [done|]. constructor; [done|]. eapply Forall_impl; [exact Hy|]. intros z. by apply deleted_lt_trans.
  - constructor; [by apply IH|]. apply Forall_forall. intros z [->|Hz]%set_insert_elem; [done|]. by apply (proj1 (Forall_forall _ _) Hy).
  - done.
Qed.

(** At the end of the order an insertion appends. *)
Lemma set_insert_last x l : Forall (fun y => deleted_lt y x) l -> set_insert x l = l ++ [x].
Proof.
  induction 1 as [|y l Hy _ IH]; [done|]. cbn [set_insert app]. rewrite decide_False by (unfold deleted_lt in *; lia).
  by rewrite decide_True, IH.
Qed.

(** ** Encoding *)

Lemma put_number_app has tag v dst : put_number has tag v dst = dst ++ put_number has tag v [].
Proof. unfold put_number, PutVarint64, PutVarint32. destruct has; [by rewrite <-app_assoc|by rewrite app_nil_r]. Qed.

Lemma put_compact_pointer_app dst cp : put_compact_pointer dst cp = dst ++ put_compact_pointer [] cp.
Proof. unfold put_compact_pointer. rewrite !(PutLengthPrefixedSlice_app (PutVarint32 _ _)). unfold PutVarint32. by rewrite <-!app_assoc. Qed.

Lemma put_deleted_file_app dst df : put_deleted_file dst df = dst ++ put_deleted_file [] df.
Proof. unfold put_deleted_file, PutVarint64, PutVarint32. by rewrite <-!app_assoc. Qed.

Lemma put_new_file_app dst nf : put_new_file dst nf = dst ++ put_new_file [] nf.
Proof.
  unfold put_new_file. rewrite !(PutLengthPrefixedSlice_app (PutLengthPrefixedSlice _ _)), !(PutLengthPrefixedSlice_app (PutVarint64 _ _)).
  unfold PutVarint64, PutVarint32. by rewrite <-!app_assoc.
Qed.

Lemma foldl_put {A} (put : slice -> A -> slice) (op : A -> EditOp) dst l :
  (forall dst x, put dst x = dst ++ put [] x) -> Forall (fun x => put [] x = encode_op (op x)) l ->
  foldl put dst l = dst ++ concat (map encode_op (map op l)).
Proof.
  intros Hp Hl. revert dst. induction Hl as [|x l Hx _ IH]; intros dst; cbn [foldl map concat]; [by rewrite app_nil_r|].
  by rewrite IH, Hp, Hx, <-app_assoc.
Qed.

Lemma EncodeTo_ops e dst : edit_ok e -> VersionEdit_EncodeTo e dst = dst ++ concat (map encode_op (ops_of e)).
Proof.
  intros He. unfold VersionEdit_EncodeTo, ops_of. rewrite !map_app, !concat_app.
  rewrite (foldl_put put_new_file (fun nf => OpAddFile nf.1 (number nf.2) (file_size nf.2) (smallest nf.2) (largest nf.2))).
  2: exact put_new_file_app.
  2: { eapply Forall_impl; [exact (eo_files _ He)|]. intros [l f] E. cbn [snd fst] in E. cbn [encode_op fst snd]. by rewrite <-E. }
  rewrite (foldl_put put_deleted_file (fun df => OpRemoveFile df.1 df.2)) by (exact put_deleted_file_app || (apply Forall_true; by intros [])).
  rewrite (foldl_put put_compact_pointer (fun cp => OpCompactPointer cp.1 cp.2)) by (exact put_compact_pointer_app || (apply Forall_true; by intros [])).
  rewrite !app_assoc. do 3 f_equal. rewrite (put_number_app _ kLastSequence), (put_number_app _ kNextFileNumber), (put_number_app _ kPrevLogNumber), (put_number_app _ kLogNumber).
  destruct (has_comparator_ e), (has_log_number_ e), (has_prev_log_number_ e), (has_next_file_number_ e), (has_last_sequence_ e);
    cbn [opt_op map concat encode_op put_number]; rewrite ?(PutLengthPrefixedSlice_app (PutVarint32 _ _)); unfold PutVarint32, PutVarint64;
    rewrite ?app_nil_r, ?app_nil_l, <-?app_assoc; reflexivity.
Qed.

(** ** Decoding *)

Lemma GetLevel_Put level rest : level_ok level -> GetLevel (EncodeVarint32 (u32 level) ++ rest) = Some (level, rest).
Proof.
  intros [H1 H2]. unfold GetLevel, kNumLevels in *. rewrite wrap_small by (unfold in_u; lia). rewrite GetVarint32_Encode by (unfold in_u; lia). cbn [mbind option_bind].
  by rewrite (proj2 (Z.ltb_lt _ _)) by lia.
Qed.

Lemma GetInternalKey_Put k rest : key_ok k -> GetInternalKey (PutLengthPrefixedSlice [] (InternalKey_Encode k) ++ rest) = Some (k, rest).
Proof.
  intros [H1 H2]. unfold GetInternalKey. rewrite GetLengthPrefixedSlice_Put by done. cbn [mbind option_bind InternalKey_DecodeFrom]. destruct k as [r]. cbn in *.
  by rewrite bool_decide_false.
Qed.

(** A turn of the loop reads what a call has written. *)
Lemma decode_loop_op fuel op rest e : op_ok op -> decode_loop (S fuel) (encode_op op ++ rest) e = decode_loop fuel rest (apply_op e op).
Proof.
  intros Hok. cbn [decode_loop].
  destruct op as [name|num|num|num|num|level key|level file|level file size sm la]; cbn [encode_op op_ok] in *;
    rewrite ?(PutLengthPrefixedSlice_app (PutVarint32 _ _)); unfold put_number, put_compact_pointer, put_deleted_file, put_new_file;
    cbn [fst snd number file_size smallest largest NewFile];
    rewrite ?(PutLengthPrefixedSlice_app (PutLengthPrefixedSlice _ _)), ?(PutLengthPrefixedSlice_app (PutVarint64 _ _)), ?(PutLengthPrefixedSlice_app (PutVarint32 _ _));
    unfold PutVarint64, PutVarint32; rewrite <-?app_assoc; cbn [app]; rewrite GetVarint32_Encode by done;
    unfold decode_field; cbn [Z.eqb kComparator kLogNumber kPrevLogNumber kNextFileNumber kLastSequence kCompactPointer kDeletedFile kNewFile Pos.eqb]; destruct_and?;
    rewrite ?GetLengthPrefixedSlice_Put, ?GetLevel_Put by done; cbn [mbind option_bind];
    rewrite ?GetVarint64_Encode by done; cbn [mbind option_bind]; rewrite ?GetVarint64_Encode, ?GetInternalKey_Put by done; cbn [mbind option_bind];
    rewrite ?GetInternalKey_Put by done; cbn [mbind option_bind]; rewrite ?GetInternalKey_Put by done; reflexivity.
Qed.

Lemma encode_op_nonempty op : (0 < length (encode_op op))%nat.
Proof.
  assert (forall v, (0 < length (EncodeVarint32 v))%nat) as Hv by (intros v; unfold EncodeVarint32; repeat case_match; cbn; lia).
  destruct op; cbn [encode_op put_number]; unfold put_compact_pointer, put_deleted_file, put_new_file, PutLengthPrefixedSlice, PutVarint64, PutVarint32;
    cbn [app]; rewrite ?length_app; match goal with |- context [EncodeVarint32 ?k] => pose proof (Hv k) end; lia.
Qed.

Lemma decode_loop_ops fuel ops e :
  Forall op_ok ops -> (length (concat (map encode_op ops)) < fuel)%nat -> decode_loop fuel (concat (map encode_op ops)) e = Some (inr ([], foldl apply_op e ops)).
Proof.
  intros Hok. revert fuel e. induction Hok as [|op ops Ho _ IH]; intros fuel e Hf; (destruct fuel as [|fuel]; [lia|]); [done|].
  cbn [map concat foldl] in *. rewrite decode_loop_op by done. apply IH. rewrite length_app in Hf. pose proof (encode_op_nonempty op). lia.
Qed.

(** ** The edits *)

Lemma foldl_compact cps e :
  foldl apply_op e (map (fun cp => OpCompactPointer cp.1 cp.2) cps) =
    let 'MkEdit c l p n s bc bl bp bn bs cp df nf := e in MkEdit c l p n s bc bl bp bn bs (cp ++ cps) df nf.
Proof.
  revert e. induction cps as [|[lv k] cps IH]; intros [c l p n s bc bl bp bn bs cp df nf]; cbn [map foldl]; [by rewrite app_nil_r|].
  rewrite IH. cbn. by rewrite <-app_assoc.
Qed.

Lemma foldl_deleted dfs c l p n s bc bl bp bn bs cp df nf :
  StronglySorted deleted_lt (df ++ dfs) ->
  foldl apply_op (MkEdit c l p n s bc bl bp bn bs cp df nf) (map (fun df => OpRemoveFile df.1 df.2) dfs) = MkEdit c l p n s bc bl bp bn bs cp (df ++ dfs) nf.
Proof.
  revert df. induction dfs as [|x dfs IH]; intros df Hs; cbn [map foldl]; [by rewrite app_nil_r|]. cbn [apply_op RemoveFile]. destruct x as [lv f]. cbn [fst snd].
  rewrite set_insert_last; [by rewrite IH; rewrite <-app_assoc|]. apply Forall_forall. intros y Hy. apply list_elem_of_In in Hy. apply in_split in Hy as (a & b & ->).
  clear IH. induction a as [|z a IHa]; cbn in Hs; apply StronglySorted_inv in Hs as [Hs Hall]; [|by apply IHa].
  apply (proj1 (Forall_forall _ _) Hall). apply elem_of_app. right. apply elem_of_cons. by left.
Qed.

Lemma foldl_files nfs e :
  Forall (fun nf => nf.2 = NewFile (number nf.2) (file_size nf.2) (smallest nf.2) (largest nf.2)) nfs ->
  foldl apply_op e (map (fun nf => OpAddFile nf.1 (number nf.2) (file_size nf.2) (smallest nf.2) (largest nf.2)) nfs) =
    let 'MkEdit c l p n s bc bl bp bn bs cp df nf := e in MkEdit c l p n s bc bl bp bn bs cp df (nf ++ nfs).
Proof.
  intros H. revert e. induction H as [|[lv f] nfs Hf _ IH]; intros [c l p n s bc bl bp bn bs cp df nf]; cbn [map foldl]; [by rewrite app_nil_r|].
  rewrite IH. cbn [fst snd] in *. cbn [apply_op AddFile push_new_file]. rewrite <-Hf. by rewrite <-app_assoc.
Qed.

Lemma ops_of_apply e : edit_ok e -> foldl apply_op NewVersionEdit (ops_of e) = e.
Proof.
  intros He. unfold ops_of. rewrite !foldl_app, foldl_compact. destruct He as [_ H1 H2 H3 H4 H5 Hd Hf].
  destruct e as [c l p n s bc bl bp bn bs cp df nf]. cbn in H1, H2, H3, H4, H5, Hd, Hf |- *.
  destruct bc; [|rewrite H1 by done]; (destruct bl; [|rewrite H2 by done]); (destruct bp; [|rewrite H3 by done]); (destruct bn; [|rewrite H4 by done]);
    (destruct bs; [|rewrite H5 by done]); cbn; rewrite foldl_deleted, foldl_files by done; reflexivity.
Qed.

Lemma NewVersionEdit_ok : edit_ok NewVersionEdit.
Proof. split; try done; constructor. Qed.

Lemma opt_op_ok has op : Forall op_ok (opt_op has op) <-> (has = true -> op_ok op).
Proof. destruct has; cbn; [rewrite Forall_singleton; by split; auto|]. split; [done|constructor]. Qed.

Lemma edit_ok_apply e op : edit_ok e -> op_ok op -> edit_ok (apply_op e op).
Proof.
  intros [Ho H1 H2 H3 H4 H5 Hd Hf] Hop. unfold ops_of in Ho. rewrite !Forall_app in Ho. destruct Ho as (O1 & O2 & O3 & O4 & O5 & O6 & O7 & O8).
  rewrite opt_op_ok in O1, O2, O3, O4, O5. destruct e as [c l p n s bc bl bp bn bs cp df nf].
  destruct op as [name|num|num|num|num|level key|level file|level file size sm la]; cbn in * |-;
    (split; [unfold ops_of; rewrite !Forall_app, !opt_op_ok; cbn; rewrite ?map_app, ?Forall_app; split_and!; try done; auto; try (by constructor)|cbn; try done..]).
  - rewrite Forall_map in *. apply Forall_forall. intros x [->|Hx]%set_insert_elem; [done|]. by apply (proj1 (Forall_forall _ _) O7).
  - by apply set_insert_sorted.
  - rewrite Forall_app. split; [done|]. by constructor.
Qed.

Lemma edit_ok_foldl ops e : edit_ok e -> Forall op_ok ops -> edit_ok (foldl apply_op e ops).
Proof. intros He H. revert e He. induction H as [|op ops Ho _ IH]; intros e He; [done|]. cbn [foldl]. by apply IH, edit_ok_apply. Qed.

(** What an edit is after the encoding is decoded. *)
Lemma DecodeFrom_Encode e : edit_ok e -> VersionEdit_DecodeFrom (VersionEdit_EncodeTo e []) = Some (OK, Some e).
Proof.
  intros He. unfold VersionEdit_DecodeFrom. rewrite EncodeTo_ops by done. cbn [app]. rewrite decode_loop_ops; [|apply He|lia]. cbn [mbind option_bind].
  rewrite bool_decide_true by done. by rewrite ops_of_apply.
Qed.

Lemma GetLengthPrefixedSlice_u32 input s rest : GetLengthPrefixedSlice input = Some (s, rest) -> is_u32 (slen s).
Proof.
  unfold GetLengthPrefixedSlice. destruct (GetVarint32 input) as [[len q]|] eqn:Ev; [|done]. apply GetVarint32_range in Ev as [Hv _].
  destruct (Z.leb_spec len (slen q)); [|done]. intros [= <- <-]. unfold in_u in *. rewrite length_take. lia.
Qed.

Lemma GetInternalKey_spec input k rest : GetInternalKey input = Some (k, rest) -> key_ok k /\ (length rest < length input)%nat.
Proof.
  unfold GetInternalKey. destruct (GetLengthPrefixedSlice input) as [[str r]|] eqn:E; [|done]. cbn [mbind option_bind InternalKey_DecodeFrom].
  case_bool_decide as Hs; [done|]. intros [= <- <-]. pose proof (GetLengthPrefixedSlice_shrinks _ _ _ E) as Hl. split; [|lia]. split; [done|]. by apply GetLengthPrefixedSlice_u32 in E.
Qed.

Lemma GetLevel_spec input level rest : GetLevel input = Some (level, rest) -> level_ok level /\ (length rest < length input)%nat.
Proof.
  unfold GetLevel. destruct (GetVarint32 input) as [[v r]|] eqn:E; [|done]. cbn [mbind option_bind]. destruct (Z.ltb_spec v kNumLevels); [|done].
  intros [= <- <-]. apply GetVarint32_range in E as [Hv Hr]. unfold in_u, level_ok in *. split; [lia|done].
Qed.

(** What a turn decodes is a call that could have been made. *)
Lemma decode_field_op tag input e input' e' :
  decode_field tag input e = inr (input', e') -> exists op, op_ok op /\ e' = apply_op e op /\ (length input' < length input)%nat.
Proof.
  unfold decode_field.
  repeat match goal with |- context [if ?c then _ else _] => destruct c end.
  - destruct (GetLengthPrefixedSlice input) as [[str r]|] eqn:E; [|done]. cbn [mbind option_bind]. intros [= <- <-]. exists (OpComparatorName str). split_and!; [by apply GetLengthPrefixedSlice_u32 in E|done|].
    apply GetLengthPrefixedSlice_shrinks in E. lia.
  - destruct (GetVarint64 input) as [[v r]|] eqn:E; [|done]. intros [= <- <-]. apply GetVarint64_range in E as []. by exists (OpLogNumber v).
  - destruct (GetVarint64 input) as [[v r]|] eqn:E; [|done]. intros [= <- <-]. apply GetVarint64_range in E as []. by exists (OpPrevLogNumber v).
  - destruct (GetVarint64 input) as [[v r]|] eqn:E; [|done]. intros [= <- <-]. apply GetVarint64_range in E as []. by exists (OpNextFile v).
  - destruct (GetVarint64 input) as [[v r]|] eqn:E; [|done]. intros [= <- <-]. apply GetVarint64_range in E as []. by exists (OpLastSequence v).
  - destruct (GetLevel input) as [[lv r]|] eqn:E; [|done]. cbn [mbind option_bind]. destruct (GetInternalKey r) as [[k r']|] eqn:E'; [|done]. intros [= <- <-].
    apply GetLevel_spec in E as []. apply GetInternalKey_spec in E' as []. exists (OpCompactPointer lv k). split_and!; [done..|lia].
  - destruct (GetLevel input) as [[lv r]|] eqn:E; [|done]. cbn [mbind option_bind]. destruct (GetVarint64 r) as [[v r']|] eqn:E'; [|done]. intros [= <- <-].
    apply GetLevel_spec in E as []. apply GetVarint64_range in E' as []. exists (OpRemoveFile lv v). split_and!; [done..|lia].
  - destruct (GetLevel input) as [[lv r]|] eqn:E; [|done]. cbn [mbind option_bind]. destruct (GetVarint64 r) as [[v r1]|] eqn:E1; [|done]. cbn [mbind option_bind].
    destruct (GetVarint64 r1) as [[sz r2]|] eqn:E2; [|done]. cbn [mbind option_bind]. destruct (GetInternalKey r2) as [[k r3]|] eqn:E3; [|done]. cbn [mbind option_bind].
    destruct (GetInternalKey r3) as [[k' r4]|] eqn:E4; [|done]. intros [= <- <-].
    apply GetLevel_spec in E as []. apply GetVarint64_range in E1 as [], E2 as []. apply GetInternalKey_spec in E3 as [], E4 as [].
    exists (OpAddFile lv v sz k k'). split_and!; [done..|lia].
  - done.
Qed.

Lemma decode_loop_any fuel input e :
  edit_ok e -> (length input < fuel)%nat ->
  exists r, decode_loop fuel input e = Some r /\ match r with inl _ => True | inr (_, e') => edit_ok e' end.
Proof.
  revert input e. induction fuel as [|fuel IH]; intros input e He Hf; [lia|]. cbn [decode_loop].
  destruct (GetVarint32 input) as [[tag r]|] eqn:E; [|by eexists]. apply GetVarint32_range in E as [_ Hr].
  destruct (decode_field tag r e) as [msg|[input' e']] eqn:Ef; [by eexists|].
  apply decode_field_op in Ef as (op & Ho & -> & Hl). apply IH; [by apply edit_ok_apply|lia].
Qed.

(** * Properties *)

(** C27. A descriptor record says what the edit said.  For an edit made by any calls with levels below [kNumLevels], numbers
    of 64 bits and keys that are not empty, [DecodeFrom] of the bytes of [EncodeTo] returns OK and an equal edit: every
    field, whether it was set, the pointers and files in their order, and the set of deleted files. *)
Theorem version_edit_roundtrip (ops : list EditOp) :
  Forall op_ok ops ->
  let e := foldl apply_op NewVersionEdit ops in
  VersionEdit_DecodeFrom (VersionEdit_EncodeTo e []) = Some (OK, Some e).
Proof. intros Hops e. apply DecodeFrom_Encode, edit_ok_foldl; [apply NewVersionEdit_ok|done]. Qed.

Lemma version_edit_roundtrip_witness :
  let key := NewInternalKey (lit "k") 5 kTypeValue in
  let e := foldl apply_op NewVersionEdit [OpRemoveFile 1 7; OpComparatorName (lit "c"); OpRemoveFile 0 9; OpAddFile 6 10 4096 key key; OpLastSequence 300] in
  VersionEdit_DecodeFrom (VersionEdit_EncodeTo e []) = Some (OK, Some e) /\ deleted_files_ e = [(0, 9); (1, 7)].
Proof.
  intros key e. split; [|reflexivity]. apply version_edit_roundtrip. repeat constructor; vm_compute; congruence.
Defined.

(** C28. [DecodeFrom] returns on any bytes, and what it accepts is an edit that the calls could have made: all levels are
    below [kNumLevels], no key is empty, the deleted files are a sorted set, and writing the edit again gives a record
    with the same meaning. *)
Theorem version_edit_decode_any (src : slice) :
  exists s o, VersionEdit_DecodeFrom src = Some (s, o) /\
    match o with
    | None => ok s = false
    | Some e => s = OK /\ Forall op_ok (ops_of e) /\ StronglySorted deleted_lt (deleted_files_ e) /\ VersionEdit_DecodeFrom (VersionEdit_EncodeTo e []) = Some (OK, Some e)
    end.
Proof.
  unfold VersionEdit_DecodeFrom at 1. destruct (decode_loop_any (S (length src)) src NewVersionEdit NewVersionEdit_ok ltac:(lia)) as (r & -> & Hr).
  cbn [mbind option_bind]. destruct r as [msg|[input e]]; [by eexists _, None|]. case_bool_decide; [|by eexists _, None].
  exists OK, (Some e). split_and!; [done..|apply Hr|apply Hr|by apply DecodeFrom_Encode].
Qed.
