(* ===== verification/FilterPolicy.v ===== *)
(** FilterPolicy: the hash of util/hash.cc, the filter policy interface of include/leveldb/filter_policy.h, its Bloom
    filter implementation in util/bloom.cc and the internal-key policy of db/dbformat.cc.

    [FilterPolicyLaws] is what the interface promises its users: a filter is appended, and it matches the keys it was
    made from.  Both implementations are instances. *)

From Stdlib Require Import Strings.Byte Strings.String.
From S2P Require Import Prelude Coding Comparator DbFormat.

(** * Hash *)

Definition hash_m : Z := 0xc6a4a793.

(** The loop on words: the hash and the bytes that remain. *)
Fixpoint Hash_loop (data : slice) (h : Z) : Z * slice :=
  match data with
  | b0 :: b1 :: b2 :: b3 :: rest =>
      let w := DecodeFixed32 data in
      let h := u32 (h + w) in
      let h := u32 (h * hash_m) in
      let h := Z.lxor h (Z.shiftr h 16) in
      Hash_loop rest h
  | _ => (h, data)
  end.

(** The switch on the number of bytes that remain, with its cases falling through. *)
Definition Hash_tail (data : slice) (h : Z) : Z :=
  let n := slen data in
  let h := if n =? 3 then u32 (h + Z.shiftl (byte_at data 2) 16) else h in
  let h := if (n =? 3) || (n =? 2) then u32 (h + Z.shiftl (byte_at data 1) 8) else h in
  if (n =? 3) || (n =? 2) || (n =? 1) then
    let h := u32 (h + byte_at data 0) in
    let h := u32 (h * hash_m) in
    Z.lxor h (Z.shiftr h 24)
  else h.

Definition Hash (data : slice) (seed : Z) : Z :=
  let h := u32 (Z.lxor seed (u64 (slen data * hash_m))) in
  let '(h, data) := Hash_loop data h in
  Hash_tail data h.

(** * The interface *)

(** [CreateFilter keys dst] is the string [dst] after the call. *)
Record FilterPolicy := MkFilterPolicy {
  FilterPolicy_Name : slice;
  CreateFilter : list slice -> slice -> slice;
  KeyMayMatch : slice -> slice -> bool;
}.

(** The number of keys is an [int]. *)
Definition keys_fit (keys : list slice) : Prop := Z.of_nat (length keys) < 2 ^ 31.

Class FilterPolicyLaws (p : FilterPolicy) : Prop := {
  filter_append keys dst : keys_fit keys -> CreateFilter p keys dst = dst ++ CreateFilter p keys [];
  filter_matches keys key : keys_fit keys -> key ∈ keys -> KeyMayMatch p key (CreateFilter p keys []) = true;
}.

(** * Bloom filters *)

Definition BloomHash (key : slice) : Z := Hash key 0xbc9f1d34.

Record BloomFilterPolicy := MkBloom { bits_per_key_ : Z; k_ : Z }.

(** [bits_per_key * 0.69] in double precision truncates to [bits_per_key * 69 / 100] for the values from 0 to 43, where
    the result is below the limit of 30; above them both are at least 30. *)
Definition NewBloom (bits_per_key : Z) : BloomFilterPolicy :=
  let k := bits_per_key * 69 / 100 in
  let k := if k <? 1 then 1 else k in
  let k := if 30 <? k then 30 else k in
  MkBloom bits_per_key k.

Definition bloom_delta (h : Z) : Z := Z.lor (Z.shiftr h 17) (u32 (Z.shiftl h 15)).

(** [array\[bitpos / 8\] |= (1 << (bitpos % 8))] where [array] points at index [base] of [dst]. *)
Definition set_bit (base : nat) (bitpos : Z) (dst : slice) : slice :=
  alter (fun b => of_uval (u8 (Z.lor (uval b) (Z.shiftl 1 (bitpos mod 8))))) (base + Z.to_nat (bitpos / 8))%nat dst.

(** The loop on [j] of [CreateFilter], for the [k] probes that are left. *)
Fixpoint bloom_add (base : nat) (bits : Z) (k : nat) (h delta : Z) (dst : slice) : slice :=
  match k with
  | O => dst
  | S k => bloom_add base bits k (u32 (h + delta)) delta (set_bit base (h mod bits) dst)
  end.

Definition Bloom_CreateFilter (p : BloomFilterPolicy) (keys : list slice) (dst : slice) : slice :=
  let bits := u64 (Z.of_nat (length keys) * bits_per_key_ p) in
  let bits := if bits <? 64 then 64 else bits in
  let bytes := u64 (bits + 7) / 8 in
  let bits := u64 (bytes * 8) in
  let init_size := length dst in
  let dst := dst ++ repeat Byte.x00 (Z.to_nat bytes) in
  let dst := dst ++ [of_uval (u8 (k_ p))] in
  foldl (fun dst key =>
    let h := BloomHash key in
    bloom_add init_size bits (Z.to_nat (k_ p)) h (bloom_delta h) dst) dst keys.

(** The loop on [j] of [KeyMayMatch]. *)
Fixpoint bloom_probe (array : slice) (bits : Z) (k : nat) (h delta : Z) : bool :=
  match k with
  | O => true
  | S k =>
      let bitpos := h mod bits in
      if Z.land (byte_at array (Z.to_nat (bitpos / 8))) (Z.shiftl 1 (bitpos mod 8)) =? 0 then false
      else bloom_probe array bits k (u32 (h + delta)) delta
  end.

(** [k] is a [char] widened to [size_t]. *)
Definition Bloom_KeyMayMatch (key bloom_filter : slice) : bool :=
  let len := slen bloom_filter in
  if len <? 2 then false
  else
    let array := bloom_filter in
    let bits := (len - 1) * 8 in
    let k := u64 (sval (nth (Z.to_nat (len - 1)) array Byte.x00)) in
    if 30 <? k then true
    else
      let h := BloomHash key in
      bloom_probe array bits (Z.to_nat k) h (bloom_delta h).

Definition NewBloomFilterPolicy (bits_per_key : Z) : FilterPolicy :=
  MkFilterPolicy (String.list_byte_of_string "leveldb.BuiltinBloomFilter2") (Bloom_CreateFilter (NewBloom bits_per_key)) Bloom_KeyMayMatch.

(** * Filters of internal keys *)

Definition InternalFilterPolicy (user_policy : FilterPolicy) : FilterPolicy :=
  MkFilterPolicy (FilterPolicy_Name user_policy)
    (fun keys dst => CreateFilter user_policy (map ExtractUserKey keys) dst)
    (fun key f => KeyMayMatch user_policy (ExtractUserKey key) f).

(** * Proofs *)

Lemma Hash_loop_u32 data h : is_u32 h -> is_u32 (fst (Hash_loop data h)).
Proof.
  revert h. remember (length data) as n eqn:E. revert data E. induction (lt_wf n) as [n _ IH]. intros data -> h Hh.
  destruct data as [|b0 [|b1 [|b2 [|b3 rest]]]]; try done. cbn [Hash_loop].
  eapply (IH (length rest)); [simpl; lia|done|]. eauto with ints.
Qed.

Lemma Hash_u32 data seed : is_u32 (Hash data seed).
Proof.
  unfold Hash. pose proof (Hash_loop_u32 data (u32 (Z.lxor seed (u64 (slen data * hash_m)))) ltac:(auto with ints)) as H.
  destruct (Hash_loop _ _) as [h rest]. cbn [fst] in H. unfold Hash_tail. repeat case_match; eauto with ints.
Qed.

Lemma land_bit x m : 0 <= m -> (Z.land x (Z.shiftl 1 m) =? 0) = negb (Z.testbit x m).
Proof.
  intros Hm. destruct (Z.testbit x m) eqn:E; cbn [negb]; [apply Z.eqb_neq|apply Z.eqb_eq].
  - intros H%(f_equal (fun z => Z.testbit z m)). rewrite Z.land_spec, E, Z.shiftl_spec, Z.sub_diag, Z.bits_0 in H by done.
    done.
  - apply Z.bits_inj'. intros i Hi. rewrite Z.land_spec, Z.shiftl_spec, Z.bits_0 by done.
    destruct (decide (i = m)) as [->|]; [by rewrite E|].
    destruct (decide (i < m)); [rewrite (Z.testbit_neg_r 1) by lia; apply andb_false_r|].
    rewrite (testbit_high 1 1 (i - m)) by lia. apply andb_false_r.
Qed.

(** The bit positions that a key probes. *)
Fixpoint probes (bits : Z) (k : nat) (h delta : Z) : list Z :=
  match k with
  | O => []
  | S k => h mod bits :: probes bits k (u32 (h + delta)) delta
  end.

Definition bit_set (a : slice) (pos : Z) : bool := Z.testbit (byte_at a (Z.to_nat (pos / 8))) (pos mod 8).

Lemma bloom_add_probes base bits k h delta dst :
  bloom_add base bits k h delta dst = foldl (fun dst pos => set_bit base pos dst) dst (probes bits k h delta).
Proof. revert h dst. induction k as [|k IH]; intros; [done|]. apply IH. Qed.

Lemma bloom_probe_probes a bits k h delta : bloom_probe a bits k h delta = forallb (bit_set a) (probes bits k h delta).
Proof.
  revert h. induction k as [|k IH]; intros h; [done|]. cbn [bloom_probe probes forallb]. rewrite <-IH.
  rewrite land_bit by dlia. unfold bit_set. by destruct (Z.testbit _ _).
Qed.

Lemma probes_range bits k h delta : 0 < bits -> Forall (fun pos => 0 <= pos < bits) (probes bits k h delta).
Proof. intros. revert h. induction k; intros; constructor; [by apply Z.mod_pos_bound|done]. Qed.

Lemma length_set_bit base pos a : length (set_bit base pos a) = length a.
Proof. apply length_alter. Qed.

Lemma set_bit_app d pos a x :
  0 <= pos < 8 * slen a -> set_bit (length d) pos (d ++ a ++ x) = d ++ set_bit 0 pos a ++ x.
Proof. intros H. unfold set_bit. rewrite alter_app_r, alter_app_l by dlia. done. Qed.

Lemma byte_at_alter f i j a :
  byte_at (alter f i a) j = if decide (i = j /\ (i < length a)%nat) then uval (f (nth j a Byte.x00)) else byte_at a j.
Proof.
  unfold byte_at. rewrite !nth_lookup. destruct (decide _) as [[-> H]|Hn].
  - rewrite list_lookup_alter_eq. destruct (lookup_lt_is_Some_2 a j H) as [b ->]. done.
  - destruct (decide (i = j)) as [->|]; [|by rewrite list_lookup_alter_ne].
    rewrite list_lookup_alter_eq, lookup_ge_None_2 by lia. done.
Qed.

Lemma u8_lor_bit b m : 0 <= m < 8 -> u8 (Z.lor (uval b) (Z.shiftl 1 m)) = Z.lor (uval b) (Z.shiftl 1 m).
Proof.
  intros Hm. apply wrap_small. apply lor_in_u; [done| |].
  - pose proof (uval_range b). unfold in_u. lia.
  - rewrite Z.shiftl_1_l. split; [lia|]. apply Z.pow_lt_mono_r; lia.
Qed.

(** Setting a bit sets it and keeps the others. *)
Lemma bit_set_bit p q a :
  0 <= p -> 0 <= q < 8 * slen a -> bit_set (set_bit 0 q a) p = bool_decide (p = q) || bit_set a p.
Proof.
  intros Hp Hq. unfold bit_set, set_bit. rewrite byte_at_alter. cbn [Nat.add]. destruct (decide _) as [[E H]|Hn].
  - rewrite uval_of_uval, wrap_wrap, u8_lor_bit, Z.lor_spec, Z.shiftl_spec by dlia. rewrite orb_comm. unfold byte_at.
    f_equal. case_bool_decide as Hd; [subst; by rewrite Z.sub_diag|].
    destruct (decide (p mod 8 < q mod 8)); [by rewrite Z.testbit_neg_r by lia|].
    apply (testbit_high 1); dlia.
  - rewrite bool_decide_false; [done|]. intros ->. apply Hn. split; [done|dlia].
Qed.

Lemma bits_set ps a q :
  Forall (fun pos => 0 <= pos < 8 * slen a) ps -> 0 <= q -> (q ∈ ps \/ bit_set a q = true) ->
  bit_set (foldl (fun a pos => set_bit 0 pos a) a ps) q = true.
Proof.
  intros Hps Hq. revert a Hps. induction ps as [|p ps IH]; intros a Hps Hin; cbn [foldl].
  { destruct Hin as [Hin|]; [by apply elem_of_nil in Hin|done]. }
  inversion Hps as [|? ? Hp Hps']; subst. apply IH; [by rewrite length_set_bit|].
  rewrite bit_set_bit by done. destruct Hin as [[->|]%elem_of_cons| ->]; [|by left|]; right.
  - by rewrite bool_decide_true.
  - apply orb_true_r.
Qed.

Lemma length_set_bits ps a : length (foldl (fun a pos => set_bit 0 pos a) a ps) = length a.
Proof. revert a. induction ps as [|p ps IH]; intros a; cbn [foldl]; [done|]. by rewrite IH, length_set_bit. Qed.

Lemma set_bits_app ps d a x :
  Forall (fun pos => 0 <= pos < 8 * slen a) ps ->
  foldl (fun dst pos => set_bit (length d) pos dst) (d ++ a ++ x) ps =
    d ++ foldl (fun a pos => set_bit 0 pos a) a ps ++ x.
Proof.
  intros Hps. revert a Hps. induction ps as [|p ps IH]; intros a Hps; cbn [foldl]; [done|].
  inversion Hps; subst. rewrite set_bit_app by done. apply IH. by rewrite length_set_bit.
Qed.

(** A Bloom filter: the bits of the probes of all keys, then the number of probes. *)
Definition bloom_bytes (p : BloomFilterPolicy) (keys : list slice) : Z :=
  (Z.max 64 (Z.of_nat (length keys) * bits_per_key_ p) + 7) / 8.

Definition bloom_positions (k : nat) (bits : Z) (key : slice) : list Z :=
  probes bits k (BloomHash key) (bloom_delta (BloomHash key)).

Definition bloom_array (p : BloomFilterPolicy) (keys : list slice) : slice :=
  foldl (fun a pos => set_bit 0 pos a) (repeat Byte.x00 (Z.to_nat (bloom_bytes p keys)))
    (concat (map (bloom_positions (Z.to_nat (k_ p)) (bloom_bytes p keys * 8)) keys)).

Definition bloom_ok (p : BloomFilterPolicy) : Prop := 0 <= bits_per_key_ p < 2 ^ 31 /\ 1 <= k_ p <= 30.

Lemma NewBloom_ok bits_per_key : 0 <= bits_per_key < 2 ^ 31 -> bloom_ok (NewBloom bits_per_key).
Proof.
  intros H. split; [done|]. unfold NewBloom. cbn [k_]. destruct (Z.ltb_spec (bits_per_key * 69 / 100) 1); [done|].
  destruct (Z.ltb_spec 30 (bits_per_key * 69 / 100)); lia.
Qed.

Lemma bloom_positions_range k bits keys :
  0 < bits -> Forall (fun pos => 0 <= pos < bits) (concat (map (bloom_positions k bits) keys)).
Proof. intros. induction keys; cbn; [constructor|]. apply Forall_app. split; [by apply probes_range|done]. Qed.

Lemma Bloom_CreateFilter_array p keys dst :
  bloom_ok p -> keys_fit keys ->
  Bloom_CreateFilter p keys dst = dst ++ bloom_array p keys ++ [of_uval (k_ p)].
Proof.
  intros [Hb Hk] Hfit. unfold keys_fit in Hfit. unfold Bloom_CreateFilter.
  assert (Hprod : 0 <= Z.of_nat (length keys) * bits_per_key_ p < 2 ^ 62).
  { split; [lia|]. change (2 ^ 62) with (2 ^ 31 * 2 ^ 31). apply Z.mul_lt_mono_nonneg; lia. }
  rewrite (wrap_small 64 (Z.of_nat (length keys) * bits_per_key_ p)) by (unfold in_u; lia).
  assert ((if Z.of_nat (length keys) * bits_per_key_ p <? 64 then 64 else Z.of_nat (length keys) * bits_per_key_ p) =
          Z.max 64 (Z.of_nat (length keys) * bits_per_key_ p)) as -> by (destruct (Z.ltb_spec (Z.of_nat (length keys) * bits_per_key_ p) 64); lia).
  rewrite (wrap_small 64 (Z.max _ _ + 7)) by (unfold in_u; lia). fold (bloom_bytes p keys).
  assert (Hbytes : 8 <= bloom_bytes p keys < 2 ^ 60) by (unfold bloom_bytes; dlia).
  rewrite (wrap_small 64 (_ * 8)), (of_uval_wrap 8) by (unfold in_u; lia). rewrite <-app_assoc.
  unfold bloom_array. set (bits := bloom_bytes p keys * 8). set (k := Z.to_nat (k_ p)).
  rewrite <-(set_bits_app _ dst _ [of_uval (k_ p)]).
  - generalize (dst ++ repeat Byte.x00 (Z.to_nat (bloom_bytes p keys)) ++ [of_uval (k_ p)]) as d.
    generalize (length dst) as base. clearbody bits k. clear. intros base. induction keys as [|key keys IH]; intros d; [done|].
    cbn [foldl map concat]. by rewrite foldl_app, IH, bloom_add_probes.
  - eapply Forall_impl; [apply (bloom_positions_range k bits keys); unfold bits; lia|].
    intros pos. cbn beta. rewrite repeat_length. unfold bits. lia.
Qed.

Lemma length_bloom_array p keys : slen (bloom_array p keys) = bloom_bytes p keys.
Proof. unfold bloom_array. rewrite length_set_bits, repeat_length. unfold bloom_bytes. dlia. Qed.

(** A larger array has the bits of its first part. *)
Lemma bit_set_app a x pos : 0 <= pos < 8 * slen a -> bit_set (a ++ x) pos = bit_set a pos.
Proof. intros. unfold bit_set, byte_at. rewrite app_nth1 by dlia. done. Qed.

Lemma Bloom_KeyMayMatch_array p keys a key :
  bloom_ok p -> slen a = bloom_bytes p keys -> 
  Bloom_KeyMayMatch key (a ++ [of_uval (k_ p)]) =
    forallb (bit_set (a ++ [of_uval (k_ p)])) (bloom_positions (Z.to_nat (k_ p)) (bloom_bytes p keys * 8) key).
Proof.
  intros [Hb Hk] Hlen. unfold Bloom_KeyMayMatch. rewrite length_app, Nat2Z.inj_add, Hlen. cbn [length].
  assert (8 <= bloom_bytes p keys) by (unfold bloom_bytes; dlia).
  destruct (Z.ltb_spec (bloom_bytes p keys + Z.of_nat 1) 2); [lia|].
  replace (bloom_bytes p keys + Z.of_nat 1 - 1) with (slen a) by lia. rewrite Nat2Z.id, nth_middle.
  assert (sval (of_uval (k_ p)) = k_ p) as ->.
  { unfold sval. rewrite uval_of_uval_small by lia. destruct (Z.ltb_spec (k_ p) 128); lia. }
  rewrite wrap_small by (unfold in_u; lia). destruct (Z.ltb_spec 30 (k_ p)); [lia|].
  rewrite bloom_probe_probes, Hlen. done.
Qed.

Lemma Bloom_laws bits_per_key : 0 <= bits_per_key < 2 ^ 31 -> FilterPolicyLaws (NewBloomFilterPolicy bits_per_key).
Proof.
  intros Hb%NewBloom_ok. set (p := NewBloom bits_per_key) in *. split; intros keys.
  - intros dst Hfit. cbn [CreateFilter NewBloomFilterPolicy]. by rewrite !(Bloom_CreateFilter_array p).
  - intros key Hfit Hin. cbn [CreateFilter KeyMayMatch NewBloomFilterPolicy].
    rewrite (Bloom_CreateFilter_array p) by done. cbn [app].
    rewrite (Bloom_KeyMayMatch_array p keys) by (done || apply length_bloom_array).
    assert (Hbytes : 8 <= bloom_bytes p keys) by (unfold bloom_bytes; dlia).
    apply forallb_forall. intros pos Hpos.
    pose proof (bloom_positions_range (Z.to_nat (k_ p)) (bloom_bytes p keys * 8) keys ltac:(lia)) as Hall.
    assert (Hpos' : pos ∈ concat (map (bloom_positions (Z.to_nat (k_ p)) (bloom_bytes p keys * 8)) keys)).
    { apply list_elem_of_In, in_concat. eexists. split; [apply in_map; by apply list_elem_of_In|done]. }
    rewrite Forall_forall in Hall. pose proof (Hall pos Hpos') as Hr.
    rewrite bit_set_app by (rewrite length_bloom_array; lia).
    apply bits_set; [|lia|by left].
    apply Forall_forall. intros q Hq. rewrite repeat_length. specialize (Hall q Hq). lia.
Qed.

#[export] Instance InternalFilterPolicy_laws p : FilterPolicyLaws p -> FilterPolicyLaws (InternalFilterPolicy p).
Proof.
  intros H. split; intros keys.
  - intros dst Hf. cbn. apply filter_append. unfold keys_fit. by rewrite length_map.
  - intros key Hf Hin. cbn. apply filter_matches; [unfold keys_fit; by rewrite length_map|].
    apply list_elem_of_fmap. eauto.
Qed.

(** C30. A Bloom filter has no false negatives, also through the policy for internal keys: the filter that
    [CreateFilter] appends to a string matches every key it was made from, whatever the number of bits per key and
    the contents of the string, and, on internal keys, also matches the same user key at any sequence number. *)
Theorem bloom_no_false_negatives bits_per_key keys dst key :
  0 <= bits_per_key < 2 ^ 31 -> keys_fit keys ->
  exists f, CreateFilter (NewBloomFilterPolicy bits_per_key) keys dst = dst ++ f /\
    (key ∈ keys -> KeyMayMatch (NewBloomFilterPolicy bits_per_key) key f = true) /\
    exists g, CreateFilter (InternalFilterPolicy (NewBloomFilterPolicy bits_per_key)) keys dst = dst ++ g /\
      forall key', key ∈ keys -> ExtractUserKey key' = ExtractUserKey key ->
        KeyMayMatch (InternalFilterPolicy (NewBloomFilterPolicy bits_per_key)) key' g = true.
Proof.
  intros Hb Hfit. pose proof (Bloom_laws _ Hb) as Hlaws.
  eexists. split; [by apply filter_append|]. split; [by apply filter_matches|].
  eexists. split; [by apply (filter_append (p := InternalFilterPolicy _))|]. intros key' Hin E.
  cbn [KeyMayMatch InternalFilterPolicy]. rewrite E. by apply (filter_matches (p := InternalFilterPolicy _) keys key).
Qed.

Lemma bloom_no_false_negatives_witness :
  exists f, CreateFilter (NewBloomFilterPolicy 10) [[Byte.x61]; [Byte.x62; Byte.x63]] [Byte.x00] = [Byte.x00] ++ f /\
    KeyMayMatch (NewBloomFilterPolicy 10) [Byte.x61] f = true.
Proof.
  destruct (bloom_no_false_negatives 10 [[Byte.x61]; [Byte.x62; Byte.x63]] [Byte.x00] [Byte.x61]) as (f & E & H & _).
  - done.
  - done.
  - exists f. split; [exact E|]. apply H. apply elem_of_cons. by left.
Defined.
