(* ===== verification/FilterBlock.v ===== *)
(** FilterBlock: the filter block of a table, table/filter_block.cc, over any filter policy.

    One filter covers the keys of the data blocks that start in one 2 KiB range of file offsets. *)

From Stdlib Require Import Strings.Byte.
From S2P Require Import Prelude Coding FilterPolicy.

Definition kFilterBaseLg : Z := 11.
Definition kFilterBase : Z := Z.shiftl 1 kFilterBaseLg.

Record FilterBlockBuilder := MkFilterBlockBuilder {
  keys_ : slice;
  start_ : list Z;
  result_ : slice;
  tmp_keys_ : list slice;
  filter_offsets_ : list Z;
}.

(** [offset_] is an index into [data_]; [None] is the null pointer of a block that is too short. *)
Record FilterBlockReader := MkFilterBlockReader {
  data_ : option slice;
  offset_ : Z;
  num_ : Z;
  base_lg_ : Z;
}.

Section FilterBlock.
Context (policy : FilterPolicy).

Definition NewFilterBlockBuilder : FilterBlockBuilder := MkFilterBlockBuilder [] [] [] [] [].

Definition GenerateFilter (b : FilterBlockBuilder) : FilterBlockBuilder :=
  let num_keys := length (start_ b) in
  if Nat.eqb num_keys 0 then
    MkFilterBlockBuilder (keys_ b) (start_ b) (result_ b) (tmp_keys_ b) (filter_offsets_ b ++ [u32 (slen (result_ b))])
  else
    let start := start_ b ++ [slen (keys_ b)] in
    let tmp_keys :=
      map (fun i =>
        let base := drop (Z.to_nat (nth i start 0)) (keys_ b) in
        let length := nth (i + 1) start 0 - nth i start 0 in
        take (Z.to_nat length) base) (seq 0 num_keys) in
    let filter_offsets := filter_offsets_ b ++ [u32 (slen (result_ b))] in
    let result := CreateFilter policy tmp_keys (result_ b) in
    MkFilterBlockBuilder [] [] result [] filter_offsets.

(** The loop of [StartBlock]: every iteration adds an offset, so [fuel] = the index of the filter is enough. *)
Fixpoint StartBlock_loop (fuel : nat) (filter_index : Z) (b : FilterBlockBuilder) : FilterBlockBuilder :=
  match fuel with
  | O => b
  | S fuel =>
      if Z.of_nat (length (filter_offsets_ b)) <? filter_index
      then StartBlock_loop fuel filter_index (GenerateFilter b) else b
  end.

Definition StartBlock (block_offset : Z) (b : FilterBlockBuilder) : FilterBlockBuilder :=
  let filter_index := block_offset / kFilterBase in
  StartBlock_loop (Z.to_nat filter_index) filter_index b.

Definition AddKey (key : slice) (b : FilterBlockBuilder) : FilterBlockBuilder :=
  MkFilterBlockBuilder (keys_ b ++ key) (start_ b ++ [slen (keys_ b)]) (result_ b) (tmp_keys_ b) (filter_offsets_ b).

Definition Finish (b : FilterBlockBuilder) : slice * FilterBlockBuilder :=
  let b := if negb (Nat.eqb (length (start_ b)) 0) then GenerateFilter b else b in
  let array_offset := u32 (slen (result_ b)) in
  let result := foldl (fun r o => PutFixed32 r o) (result_ b) (filter_offsets_ b) in
  let result := PutFixed32 result array_offset in
  let result := result ++ [of_uval kFilterBaseLg] in
  (result, MkFilterBlockBuilder (keys_ b) (start_ b) result (tmp_keys_ b) (filter_offsets_ b)).

(** [base_lg_] is a [char] widened to [size_t]. *)
Definition NewFilterBlockReader (contents : slice) : FilterBlockReader :=
  let n := slen contents in
  if n <? 5 then MkFilterBlockReader None 0 0 0
  else
    let base_lg := u64 (sval (nth (Z.to_nat (n - 1)) contents Byte.x00)) in
    let last_word := DecodeFixed32 (drop (Z.to_nat (n - 5)) contents) in
    if n - 5 <? last_word then MkFilterBlockReader None 0 0 base_lg
    else MkFilterBlockReader (Some contents) last_word ((n - 5 - last_word) / 4) base_lg.

(** The data is there whenever [num_] is not zero. *)
Definition FilterBlock_KeyMayMatch (block_offset : Z) (key : slice) (r : FilterBlockReader) : bool :=
  let index := Z.shiftr block_offset (base_lg_ r) in
  let data := default [] (data_ r) in
  if index <? num_ r then
    let start := DecodeFixed32 (drop (Z.to_nat (offset_ r + index * 4)) data) in
    let limit := DecodeFixed32 (drop (Z.to_nat (offset_ r + index * 4 + 4)) data) in
    if (start <=? limit) && (limit <=? offset_ r) then
      let filter := take (Z.to_nat (limit - start)) (drop (Z.to_nat start) data) in
      KeyMayMatch policy key filter
    else if start =? limit then false
    else true
  else true.

(** The sequence of calls that the class documents: for every data block, given by its offset and keys, a
    [StartBlock] and the [AddKey]s, then [Finish]. *)
Definition build_blocks (blocks : list (Z * list slice)) : FilterBlockBuilder :=
  foldl (fun b '(off, keys) => foldl (fun b key => AddKey key b) (StartBlock off b) keys) NewFilterBlockBuilder blocks.

Definition filter_block (blocks : list (Z * list slice)) : slice := fst (Finish (build_blocks blocks)).
End FilterBlock.

(** * Proofs *)

Section FilterBlockProofs.
Context (policy : FilterPolicy) `{!FilterPolicyLaws policy}.

(** The filter of a group of keys. *)
Definition filt (ks : list slice) : slice :=
  match ks with [] => [] | _ => CreateFilter policy ks [] end.

(** Where each of the strings starts in their concatenation. *)
Definition starts (l : list slice) : list Z := map (fun i => slen (concat (take i l))) (seq 0 (length l)).

(** The builder has finished the filters of the groups [fs] and holds the keys [cur]. *)
Definition builder_inv (b : FilterBlockBuilder) (fs : list (list slice)) (cur : list slice) : Prop :=
  keys_ b = concat cur /\ start_ b = starts cur /\ result_ b = concat (map filt fs) /\
  filter_offsets_ b = map (wrap 32) (starts (map filt fs)) /\ Forall keys_fit fs.

Lemma starts_snoc l x : starts (l ++ [x]) = starts l ++ [slen (concat l)].
Proof.
  unfold starts. rewrite length_app, Nat.add_1_r, seq_S, map_app. cbn [map Nat.add length].
  rewrite take_app_length. f_equal. apply map_ext_in. intros i [_ Hi]%in_seq. rewrite take_app_le by lia. done.
Qed.

Lemma length_starts l : length (starts l) = length l.
Proof. unfold starts. by rewrite length_map, length_seq. Qed.

Lemma nth_starts l i d : (i < length l)%nat -> nth i (starts l) d = slen (concat (take i l)).
Proof.
  intros H. unfold starts. rewrite nth_indep with (d' := slen (concat (take 0 l))) by (rewrite length_map, length_seq; done).
  rewrite (map_nth (fun i => slen (concat (take i l)))), seq_nth by done. done.
Qed.

Lemma concat_take_S (l : list slice) i x : l !! i = Some x -> concat (take (S i) l) = concat (take i l) ++ x.
Proof. intros H. rewrite (take_S_r _ _ _ H), concat_app. simpl. by rewrite app_nil_r. Qed.

(** A string of a concatenation, cut out by its start and the next. *)
Lemma cut_concat (l : list slice) i x :
  l !! i = Some x ->
  take (Z.to_nat (slen (concat (take (S i) l)) - slen (concat (take i l)))) (drop (length (concat (take i l))) (concat l)) = x.
Proof.
  intros H. rewrite <-(take_drop_middle l i x H) at 4. rewrite concat_app, drop_app_length. cbn [concat].
  rewrite (concat_take_S _ _ _ H), length_app. replace (Z.to_nat _) with (length x) by lia. by rewrite take_app_length.
Qed.

Lemma nth_starts_all l i : (i <= length l)%nat -> nth i (starts l ++ [slen (concat l)]) 0 = slen (concat (take i l)).
Proof.
  intros H. destruct (decide (i = length l)) as [->|].
  - rewrite <-(length_starts l), nth_middle, length_starts, firstn_all. done.
  - rewrite app_nth1, nth_starts by (rewrite ?length_starts; lia). done.
Qed.

Lemma tmp_keys_eq cur :
  map (fun i => take (Z.to_nat (nth (i + 1) (starts cur ++ [slen (concat cur)]) 0 - nth i (starts cur ++ [slen (concat cur)]) 0))
                  (drop (Z.to_nat (nth i (starts cur ++ [slen (concat cur)]) 0)) (concat cur))) (seq 0 (length cur)) = cur.
Proof.
  apply list_eq. intros i. destruct (decide (i < length cur)%nat) as [Hi|Hi].
  - rewrite lookup_map, lookup_seq_lt by done. cbn [fmap option_fmap option_map Nat.add].
    destruct (lookup_lt_is_Some_2 cur i Hi) as [x Hx]. rewrite Hx. f_equal.
    rewrite Nat.add_1_r, !nth_starts_all, Nat2Z.id by lia. by apply cut_concat.
  - rewrite !lookup_ge_None_2; [done|lia|rewrite length_map, length_seq; lia].
Qed.

Lemma GenerateFilter_inv b fs cur :
  keys_fit cur -> builder_inv b fs cur -> builder_inv (GenerateFilter policy b) (fs ++ [cur]) [].
Proof.
  intros Hfit (Hk & Hs & Hr & Ho & Hf). unfold GenerateFilter. rewrite Hs, length_starts, Hk, Hr, Ho, tmp_keys_eq.
  destruct cur as [|c cur]; cbn [length Nat.eqb]; unfold builder_inv;
    cbn [keys_ start_ result_ tmp_keys_ filter_offsets_]; rewrite map_app; cbn [map];
    rewrite concat_app, starts_snoc, map_app; cbn [map concat filt]; rewrite !app_nil_r; split_and!; try done;
    try (apply Forall_app; by repeat constructor).
  by apply filter_append.
Qed.

Lemma AddKey_inv b fs cur key : builder_inv b fs cur -> builder_inv (AddKey key b) fs (cur ++ [key]).
Proof.
  intros (Hk & Hs & Hr & Ho & Hf). unfold AddKey, builder_inv. cbn [keys_ start_ result_ tmp_keys_ filter_offsets_].
  rewrite Hk, Hs, starts_snoc, concat_app. cbn. by rewrite app_nil_r.
Qed.

Lemma AddKeys_inv keys b fs cur :
  builder_inv b fs cur -> builder_inv (foldl (fun b key => AddKey key b) b keys) fs (cur ++ keys).
Proof.
  revert b cur. induction keys as [|k keys IH]; intros b cur H; cbn [foldl]; [by rewrite app_nil_r|].
  rewrite cons_middle, app_assoc. apply IH. by apply AddKey_inv.
Qed.

(** After [StartBlock] there is a filter for every range before the one of the block; the groups that were there keep
    their index, and a new group is empty. *)
Lemma StartBlock_loop_inv fuel index b fs cur :
  keys_fit cur -> builder_inv b fs cur -> index - Z.of_nat (length fs) <= Z.of_nat fuel -> Z.of_nat (length fs) <= index ->
  exists fs' cur', builder_inv (StartBlock_loop policy fuel index b) fs' cur' /\ Z.of_nat (length fs') = index /\
    keys_fit cur' /\ (length cur' <= length cur)%nat /\ forall i g, (fs ++ [cur]) !! i = Some g -> (fs' ++ [cur']) !! i = Some g.
Proof.
  revert b fs cur. induction fuel as [|fuel IH]; intros b fs cur Hfit Hinv Hf Hle.
  { exists fs, cur. split_and!; try done. lia. }
  cbn [StartBlock_loop]. assert (length (filter_offsets_ b) = length fs) as Hl.
  { destruct Hinv as (_ & _ & _ & -> & _). by rewrite length_map, length_starts, length_map. }
  rewrite Hl. destruct (Z.ltb_spec (Z.of_nat (length fs)) index) as [Hlt|Hge].
  - destruct (IH (GenerateFilter policy b) (fs ++ [cur]) []) as (fs' & cur' & H1 & H2 & H3 & H4 & H5).
    + done.
    + by apply GenerateFilter_inv.
    + rewrite length_app. simpl. lia.
    + rewrite length_app. simpl. lia.
    + exists fs', cur'. split_and!; try done; [simpl in H4; lia|]. intros i g Hg. apply H5. by apply lookup_app_l_Some.
  - exists fs, cur. split_and!; try done. lia.
Qed.

(** The sequence of the blocks' offsets that the assertion of [StartBlock] requires. *)
Fixpoint offsets_ok (last : Z) (blocks : list (Z * list slice)) : Prop :=
  match blocks with
  | [] => True
  | (off, _) :: blocks => last <= off /\ offsets_ok off blocks
  end.

Definition total_keys (blocks : list (Z * list slice)) : Z := Z.of_nat (length (concat (map snd blocks))).

(** The keys of the blocks are in the group of their offset. *)
Definition groups_ok (blocks : list (Z * list slice)) (fs : list (list slice)) (cur : list slice) : Prop :=
  forall off keys key, (off, keys) ∈ blocks -> key ∈ keys ->
  exists g, (fs ++ [cur]) !! Z.to_nat (off / kFilterBase) = Some g /\ key ∈ g.

Lemma build_blocks_inv blocks b fs cur last done_ :
  builder_inv b fs cur -> groups_ok done_ fs cur -> Z.of_nat (length fs) <= last / kFilterBase -> 0 <= last ->
  offsets_ok last blocks -> Z.of_nat (length cur) + total_keys blocks < 2 ^ 31 ->
  exists fs' cur', builder_inv (foldl (fun b '(off, keys) => foldl (fun b key => AddKey key b) (StartBlock policy off b) keys) b blocks) fs' cur' /\
    groups_ok (done_ ++ blocks) fs' cur' /\ keys_fit cur'.
Proof.
  revert b fs cur last done_. induction blocks as [|[off keys] blocks IH]; intros b fs cur last done_ Hinv Hg Hlen H0 Hoff Htot.
  { exists fs, cur. rewrite app_nil_r. split_and!; try done. unfold keys_fit, total_keys in *. cbn in Htot. lia. }
  destruct Hoff as [Hle Hoff]. cbn [foldl].
  assert (Htot' : Z.of_nat (length cur) + Z.of_nat (length keys) + total_keys blocks < 2 ^ 31).
  { unfold total_keys in *. cbn [map snd concat] in Htot. rewrite length_app in Htot. lia. }
  assert (last / kFilterBase <= off / kFilterBase) by (apply Z.div_le_mono; [reflexivity|done]).
  destruct (StartBlock_loop_inv (Z.to_nat (off / kFilterBase)) (off / kFilterBase) b fs cur) as (fs1 & cur1 & H1 & H2 & H3 & H4 & H5);
    [unfold keys_fit, total_keys in *; lia|done|lia|lia|].
  destruct (IH (foldl (fun b key => AddKey key b) (StartBlock policy off b) keys) fs1 (cur1 ++ keys) off (done_ ++ [(off, keys)]))
    as (fs' & cur' & H6 & H7 & H8).
  - by apply AddKeys_inv.
  - intros off' keys' key [Hin|Hin]%elem_of_app Hkey.
    + destruct (Hg off' keys' key Hin Hkey) as (g & Hl & Hk). apply H5 in Hl.
      destruct (decide (Z.to_nat (off' / kFilterBase) = length fs1)) as [E|].
      * rewrite E, list_lookup_middle in Hl by done. injection Hl as <-.
        exists (cur1 ++ keys). rewrite E, list_lookup_middle by done. split; [done|]. apply elem_of_app. by left.
      * exists g. split; [|done]. apply lookup_app_Some in Hl as [Hl|[Hl1 Hl2]]; [by apply lookup_app_l_Some|].
        apply list_lookup_singleton_Some in Hl2 as [Hl2 _]. lia.
    + apply list_elem_of_singleton in Hin. injection Hin as -> ->. exists (cur1 ++ keys).
      rewrite list_lookup_middle by lia. split; [done|]. apply elem_of_app. by right.
  - lia.
  - lia.
  - done.
  - rewrite length_app. unfold total_keys in *. lia.
  - exists fs', cur'. by rewrite <-app_assoc in H7.
Qed.

(** The bytes of a block with the filters [fl]: the filters, the array of their starts with the start of the array as
    its last entry, and the logarithm of the range. *)
Definition block_bytes (fl : list slice) : slice :=
  concat fl ++ concat (map EncodeFixed32 (map (wrap 32) (starts fl ++ [slen (concat fl)]))) ++ [of_uval kFilterBaseLg].

Lemma Finish_bytes b fs cur :
  keys_fit cur -> builder_inv b fs cur ->
  exists fs', fst (Finish policy b) = block_bytes (map filt fs') /\ Forall keys_fit fs' /\
    forall i g key, (fs ++ [cur]) !! i = Some g -> key ∈ g -> fs' !! i = Some g.
Proof.
  intros Hfit Hinv.
  assert (Hfin : forall b' fs', builder_inv b' fs' [] ->
    PutFixed32 (foldl (fun r o => PutFixed32 r o) (result_ b') (filter_offsets_ b')) (u32 (slen (result_ b'))) ++
      [of_uval kFilterBaseLg] = block_bytes (map filt fs')).
  { intros b' fs' (_ & _ & -> & -> & _). rewrite PutFixed32_words. unfold PutFixed32, block_bytes.
    rewrite !map_app, concat_app. cbn [map concat]. by rewrite app_nil_r, <-!app_assoc. }
  unfold Finish. assert (length (start_ b) = length cur) as -> by (destruct Hinv as (_ & -> & _); apply length_starts).
  destruct cur as [|c cur]; cbn [length Nat.eqb negb fst].
  - exists fs. split; [by apply Hfin|]. split; [by apply Hinv|]. intros i g key [H|[H1 H2]]%lookup_app_Some Hkey; [done|].
    apply list_lookup_singleton_Some in H2 as [_ <-]. by apply elem_of_nil in Hkey.
  - pose proof (GenerateFilter_inv _ _ _ Hfit Hinv) as Hinv'. exists (fs ++ [c :: cur]). split; [by apply Hfin|]. split; [by apply Hinv'|done].
Qed.

Lemma word_at fl i :
  (i <= length fl)%nat -> slen (concat fl) < 2 ^ 32 ->
  DecodeFixed32 (drop (length (concat fl) + 4 * i) (block_bytes fl)) = slen (concat (take i fl)).
Proof.
  intros Hi Hlen. unfold block_bytes. rewrite drop_app_add.
  assert ((starts fl ++ [slen (concat fl)]) !! i = Some (slen (concat (take i fl)))) as Hw.
  { rewrite <-nth_starts_all by done. rewrite nth_lookup.
    destruct (lookup_lt_is_Some_2 (starts fl ++ [slen (concat fl)]) i) as [x ->]; [|done].
    rewrite length_app, length_starts. simpl. lia. }
  rewrite (DecodeFixed32_words _ i (u32 (slen (concat (take i fl))))) by (rewrite ?lookup_map, ?Hw; done).
  rewrite wrap_wrap by done. apply wrap_small. split; [lia|].
  rewrite <-(take_drop i fl), concat_app, length_app in Hlen. lia.
Qed.

Lemma length_block_bytes fl : slen (block_bytes fl) = slen (concat fl) + 4 * Z.of_nat (length fl) + 5.
Proof. unfold block_bytes. rewrite !length_app, !Nat2Z.inj_add, length_words, length_map, length_app, length_starts. simpl length. lia. Qed.

Lemma NewFilterBlockReader_bytes fl :
  slen (concat fl) < 2 ^ 32 ->
  NewFilterBlockReader (block_bytes fl) =
    MkFilterBlockReader (Some (block_bytes fl)) (slen (concat fl)) (Z.of_nat (length fl)) kFilterBaseLg.
Proof.
  intros Hlen. unfold NewFilterBlockReader. rewrite length_block_bytes.
  destruct (Z.ltb_spec (slen (concat fl) + 4 * Z.of_nat (length fl) + 5) 5); [lia|].
  replace (Z.to_nat (slen (concat fl) + 4 * Z.of_nat (length fl) + 5 - 5)) with (length (concat fl) + 4 * length fl)%nat by lia.
  rewrite word_at, firstn_all by done.
  destruct (Z.ltb_spec (slen (concat fl) + 4 * Z.of_nat (length fl) + 5 - 5) (slen (concat fl))); [lia|].
  f_equal; [dlia|].
  pose proof (length_block_bytes fl) as Hl. unfold block_bytes in *. rewrite app_assoc in *.
  rewrite length_app in Hl. simpl length in Hl.
  rewrite app_nth2; [|lia]. replace (Z.to_nat _ - _)%nat with 0%nat by lia. done.
Qed.

Lemma FilterBlock_KeyMayMatch_bytes fl off key f :
  slen (concat fl) < 2 ^ 32 -> 0 <= off -> fl !! Z.to_nat (off / kFilterBase) = Some f ->
  FilterBlock_KeyMayMatch policy off key (NewFilterBlockReader (block_bytes fl)) = KeyMayMatch policy key f.
Proof.
  intros Hlen Hoff Hf. rewrite NewFilterBlockReader_bytes by done. unfold FilterBlock_KeyMayMatch.
  cbn [base_lg_ data_ num_ offset_ from_option id]. rewrite Z.shiftr_div_pow2 by done.
  change (2 ^ kFilterBaseLg) with kFilterBase. set (i := Z.to_nat (off / kFilterBase)) in *.
  assert (Hi : off / kFilterBase = Z.of_nat i) by (unfold i; rewrite Z2Nat.id; [done|]; apply Z.div_pos; done).
  pose proof (lookup_lt_Some _ _ _ Hf) as Hlt. rewrite Hi.
  destruct (Z.ltb_spec (Z.of_nat i) (Z.of_nat (length fl))); [|lia].
  replace (Z.to_nat (slen (concat fl) + Z.of_nat i * 4)) with (length (concat fl) + 4 * i)%nat by lia.
  replace (Z.to_nat (slen (concat fl) + Z.of_nat i * 4 + 4)) with (length (concat fl) + 4 * S i)%nat by lia.
  rewrite !word_at by (done || lia).
  assert (slen (concat (take (S i) fl)) <= slen (concat fl)).
  { rewrite <-(take_drop (S i) fl) at 2. rewrite concat_app, length_app. lia. }
  pose proof (concat_take_S _ _ _ Hf) as Hs.
  destruct (Z.leb_spec (slen (concat (take i fl))) (slen (concat (take (S i) fl)))); [|rewrite Hs, length_app in *; lia].
  destruct (Z.leb_spec (slen (concat (take (S i) fl))) (slen (concat fl))); [|lia]. cbn [andb]. f_equal.
  rewrite Nat2Z.id. unfold block_bytes. rewrite drop_app_le by (rewrite Hs, length_app in *; lia).
  rewrite take_app_le; [by apply cut_concat|]. rewrite length_drop. rewrite Hs, length_app in *. lia.
Qed.

Lemma filter_block_matches blocks off keys key :
  offsets_ok 0 blocks -> total_keys blocks < 2 ^ 31 -> slen (filter_block policy blocks) < 2 ^ 32 ->
  (off, keys) ∈ blocks -> key ∈ keys ->
  FilterBlock_KeyMayMatch policy off key (NewFilterBlockReader (filter_block policy blocks)) = true.
Proof.
  intros Hoff Htot Hlen Hin Hkey. unfold filter_block, build_blocks in *.
  destruct (build_blocks_inv blocks NewFilterBlockBuilder [] [] 0 []) as (fs & cur & Hinv & Hg & Hfit); try done.
  { intros ? ? ? H. by apply elem_of_nil in H. }
  destruct (Finish_bytes _ _ _ Hfit Hinv) as (fs' & E & Hfits & Hfs). rewrite E in *.
  destruct (Hg off keys key Hin Hkey) as (g & Hl & Hkg). apply Hfs with (key := key) in Hl; [|done].
  assert (0 <= off).
  { clear -Hoff Hin. revert Hoff Hin. generalize 0 as last. induction blocks as [|[o k] blocks IH]; intros last Hoff Hin; [by apply elem_of_nil in Hin|].
    destruct Hoff as [? Hoff]. apply elem_of_cons in Hin as [Hin|Hin]; [by injection Hin as -> ->|]. specialize (IH _ Hoff Hin). lia. }
  rewrite (FilterBlock_KeyMayMatch_bytes _ _ _ (filt g)); [|rewrite length_block_bytes in Hlen; lia|done|by rewrite lookup_map, Hl].
  assert (keys_fit g) as Hgfit by (by apply (Forall_lookup_1 _ _ _ _ Hfits Hl)).
  destruct g as [|k g]; [by apply elem_of_nil in Hkg|]. by apply filter_matches.
Qed.

(** C29. A filter block has no false negatives: for data blocks added at offsets that do not decrease, the reader of
    the finished block answers that a key may be in the block of its offset, for every key added after the
    [StartBlock] of that offset.  The policy is any one that satisfies its interface; the block is below 4 GiB and the
    keys can be counted by an [int]. *)
Theorem filter_block_no_false_negatives blocks off keys key :
  offsets_ok 0 blocks -> total_keys blocks < 2 ^ 31 -> slen (filter_block policy blocks) < 2 ^ 32 ->
  (off, keys) ∈ blocks -> key ∈ keys ->
  FilterBlock_KeyMayMatch policy off key (NewFilterBlockReader (filter_block policy blocks)) = true.
Proof. apply filter_block_matches. Qed.
End FilterBlockProofs.

Lemma filter_block_no_false_negatives_witness :
  FilterBlock_KeyMayMatch (NewBloomFilterPolicy 10) 5000 [Byte.x62]
    (NewFilterBlockReader (filter_block (NewBloomFilterPolicy 10)
      [(0, [[Byte.x61]]); (1000, []); (5000, [[Byte.x62]; [Byte.x63]])])) = true.
Proof.
  pose proof (Bloom_laws 10 ltac:(done)) as Hlaws.
  apply (filter_block_no_false_negatives (NewBloomFilterPolicy 10)) with (keys := [[Byte.x62]; [Byte.x63]]).
  - vm_compute. intuition congruence.
  - vm_compute. intuition congruence.
  - vm_compute. reflexivity.
  - apply elem_of_cons. right. apply elem_of_cons. right. apply elem_of_cons. by left.
  - apply elem_of_cons. by left.
Defined.

