(* ===== verification/Random.v ===== *)
(** Random: the Park-Miller generator of util/random.h. *)

From S2P Require Import Prelude.

(** The state is [seed_]. *)
Definition NewRandom (s : Z) : Z :=
  let seed := Z.land s 0x7fffffff in
  if (seed =? 0) || (seed =? 2147483647) then 1 else seed.

(** The value returned is also the new seed. *)
Definition Random_Next (seed : Z) : Z :=
  let M := 2147483647 in
  let A := 16807 in
  let product := u64 (seed * A) in
  let seed := u32 (Z.shiftr product 31 + Z.land product M) in
  if M <? seed then seed - M else seed.

Definition Random_Uniform (n seed : Z) : Z * Z := let seed := Random_Next seed in (seed mod n, seed).

Definition Random_OneIn (n seed : Z) : bool * Z := let seed := Random_Next seed in (seed mod n =? 0, seed).

Definition Random_Skewed (max_log seed : Z) : Z * Z :=
  let '(u, seed) := Random_Uniform (max_log + 1) seed in
  Random_Uniform (Z.shiftl 1 u) seed.

(** The seeds that the generator can have. *)
Definition seed_ok (seed : Z) : Prop := 1 <= seed <= 2147483646.

Lemma NewRandom_ok s : seed_ok (NewRandom s).
Proof.
  unfold NewRandom, seed_ok. rewrite (land_low_mod s 31 ltac:(lia) : Z.land s 0x7fffffff = _).
  pose proof (Z.mod_pos_bound s (2 ^ 31) eq_refl) as H. revert H. generalize (s mod 2 ^ 31). intros m Hm.
  destruct (Z.eqb_spec m 0); [done|]. destruct (Z.eqb_spec m 2147483647); cbn [orb]; lia.
Qed.

(** The two shifts reduce a product modulo [2 ^ 31 - 1] up to one subtraction. *)
Lemma mersenne_fold p : p / 2 ^ 31 + p mod 2 ^ 31 = p - 2147483647 * (p / 2 ^ 31).
Proof. change (2 ^ 31) with 2147483648. dlia. Qed.

Lemma Random_Next_spec seed : seed_ok seed -> Random_Next seed = (seed * 16807) mod 2147483647 /\ seed_ok (Random_Next seed).
Proof.
  unfold seed_ok. intros H. unfold Random_Next. set (p := seed * 16807).
  assert (Hp : 0 < p < 2 ^ 46) by (unfold p; lia).
  rewrite (wrap_small 64) by (unfold in_u; lia). rewrite Z.shiftr_div_pow2 by lia.
  rewrite (land_low_mod p 31 ltac:(lia) : Z.land p 2147483647 = _).
  assert (Hq : 0 <= p / 2 ^ 31 < 2 ^ 15) by (split; [apply Z.div_pos|apply Z.div_lt_upper_bound]; lia).
  assert (Hm : 0 <= p mod 2 ^ 31 < 2 ^ 31) by (apply Z.mod_pos_bound; lia).
  pose proof (mersenne_fold p) as Hfold.
  assert (Hne : p mod 2147483647 <> 0).
  { intros Hd%Z.mod_divide; [|done]. unfold p in Hd. rewrite Z.mul_comm in Hd.
    apply Z.gauss in Hd; [|reflexivity]. apply Z.divide_pos_le in Hd; lia. }
  revert Hq Hm Hfold. generalize (p / 2 ^ 31) (p mod 2 ^ 31). intros q m Hq Hm Hfold.
  rewrite (wrap_small 32) by (unfold in_u; lia).
  assert (Hr : p mod 2147483647 = (q + m) mod 2147483647).
  { rewrite Hfold. replace (p - 2147483647 * q) with (p + (- q) * 2147483647) by lia. by rewrite Z_mod_plus_full. }
  rewrite Hr in Hne |- *. destruct (Z.ltb_spec 2147483647 (q + m)).
  - assert ((q + m) mod 2147483647 = q + m - 2147483647) as -> by (symmetry; apply (Z.mod_unique_pos _ _ 1); lia). lia.
  - destruct (decide (q + m = 2147483647)) as [E|]; [by rewrite E in Hne|]. rewrite Z.mod_small in Hne |- * by lia. lia.
Qed.

(** [Next] computes [seed * 16807 mod (2 ^ 31 - 1)] with shifts, and from any seed of the constructor it stays
    within [1 .. 2 ^ 31 - 2], so that it is never stuck at a fixed point 0 or [M]. *)
Theorem random_sequence s n :
  let seed := Nat.iter n Random_Next (NewRandom s) in
  seed = (NewRandom s * 16807 ^ Z.of_nat n) mod 2147483647 /\ seed_ok seed.
Proof.
  cbn zeta. induction n as [|n [IH Hok]].
  - cbn [Nat.iter nat_rect]. rewrite Z.pow_0_r, Z.mul_1_r. pose proof (NewRandom_ok s) as H. split; [|done].
    unfold seed_ok in H. rewrite Z.mod_small by lia. done.
  - rewrite Nat.iter_succ. destruct (Random_Next_spec _ Hok) as [E Hok']. split; [|done]. rewrite E, IH.
    rewrite Z.mul_mod_idemp_l by done. f_equal. rewrite Nat2Z.inj_succ, Z.pow_succ_r by lia. ring.
Qed.
