(* ===== verification/SkipList.v ===== *)
(** SkipList: the skip list of db/skiplist.h, at the level of its nodes and pointers.

    A pointer is the index of a node in the order of allocation, [None] is the null pointer, and the head is node 0.
    An access outside the array of a node, or through a pointer that is not a node, has no result: the operations
    return [None] then, as they do when the fuel of a loop is spent, and the theorems show that neither happens.
    The keys are any type with a comparison. *)

From stdpp Require Import relations.
From S2P Require Import Prelude Random.

Abbreviation ptr := (option nat).

Definition kMaxHeight : nat := 12.

Section SkipList.
Context {Key : Type} (zero : Key) (compare_ : Key -> Key -> Z).

(** The array [next_] has as many entries as the node's height. *)
Record Node := MkNode { node_key : Key; next_ : list ptr }.

Record SkipList := MkSkipList {
  nodes : list Node;
  max_height_ : nat;
  rnd_ : Z;
}.

Definition head_ : nat := 0.

Definition Node_Next (ns : list Node) (x n : nat) : option ptr := nd ← ns !! x; next_ nd !! n.

Definition Node_SetNext (ns : list Node) (x n : nat) (p : ptr) : option (list Node) :=
  nd ← ns !! x;
  if (n <? length (next_ nd))%nat then Some (<[x := MkNode (node_key nd) (<[n := p]> (next_ nd))]> ns) else None.

(** The new node is the last one; its pointers are set before they are read. *)
Definition NewNode (key : Key) (height : nat) (ns : list Node) : nat * list Node :=
  (length ns, ns ++ [MkNode key (repeat None height)]).

Definition NewSkipList : SkipList :=
  let '(_, ns) := NewNode zero kMaxHeight [] in
  MkSkipList ns 1 (NewRandom 0xdeadbeef).

(** The loop of [RandomHeight]; it ends at [kMaxHeight]. *)
Fixpoint RandomHeight_loop (fuel height : nat) (rnd : Z) : nat * Z :=
  match fuel with
  | O => (height, rnd)
  | S fuel =>
      if (height <? kMaxHeight)%nat then
        let '(b, rnd) := Random_OneIn 4 rnd in
        if b then RandomHeight_loop fuel (S height) rnd else (height, rnd)
      else (height, rnd)
  end.

Definition RandomHeight (rnd : Z) : nat * Z := RandomHeight_loop kMaxHeight 1 rnd.

Definition KeyIsAfterNode (ns : list Node) (key : Key) (n : ptr) : option bool :=
  match n with
  | None => Some false
  | Some n => nd ← ns !! n; Some (compare_ (node_key nd) key <? 0)
  end.

Definition Equal (a b : Key) : bool := compare_ a b =? 0.

(** The loop of [FindGreaterOrEqual]; [prev] is [None] for a null [prev], and its array entries are [None] while they
    are not initialised. *)
Fixpoint FindGreaterOrEqual_loop (fuel : nat) (ns : list Node) (key : Key) (x level : nat) (prev : option (list ptr)) :
    option (ptr * option (list ptr)) :=
  match fuel with
  | O => None
  | S fuel =>
      next ← Node_Next ns x level;
      after ← KeyIsAfterNode ns key next;
      if (after : bool) then
        n ← next;
        FindGreaterOrEqual_loop fuel ns key n level prev
      else
        let prev := (fun p => <[level := Some x]> p) <$> prev in
        match level with
        | O => Some (next, prev)
        | S level => FindGreaterOrEqual_loop fuel ns key x level prev
        end
  end.

(** A search visits every node at most once on each level. *)
Definition search_fuel (ns : list Node) : nat := kMaxHeight * length ns.

Definition FindGreaterOrEqual (l : SkipList) (key : Key) (prev : option (list ptr)) : option (ptr * option (list ptr)) :=
  FindGreaterOrEqual_loop (search_fuel (nodes l)) (nodes l) key head_ (max_height_ l - 1) prev.

Fixpoint FindLessThan_loop (fuel : nat) (ns : list Node) (key : Key) (x level : nat) : option nat :=
  match fuel with
  | O => None
  | S fuel =>
      next ← Node_Next ns x level;
      stop ← match next with None => Some true | Some n => nd ← ns !! n; Some (0 <=? compare_ (node_key nd) key) end;
      if (stop : bool) then
        match level with
        | O => Some x
        | S level => FindLessThan_loop fuel ns key x level
        end
      else
        n ← next;
        FindLessThan_loop fuel ns key n level
  end.

Definition FindLessThan (l : SkipList) (key : Key) : option nat :=
  FindLessThan_loop (search_fuel (nodes l)) (nodes l) key head_ (max_height_ l - 1).

Fixpoint FindLast_loop (fuel : nat) (ns : list Node) (x level : nat) : option nat :=
  match fuel with
  | O => None
  | S fuel =>
      next ← Node_Next ns x level;
      match next with
      | None =>
          match level with
          | O => Some x
          | S level => FindLast_loop fuel ns x level
          end
      | Some n => FindLast_loop fuel ns n level
      end
  end.

Definition FindLast (l : SkipList) : option nat :=
  FindLast_loop (search_fuel (nodes l)) (nodes l) head_ (max_height_ l - 1).

(** [for (i = from; i < from + n; i++) prev\[i\] = head_]. *)
Fixpoint prev_head (n from : nat) (prev : list ptr) : list ptr :=
  match n with
  | O => prev
  | S n => prev_head n (S from) (<[from := Some head_]> prev)
  end.

(** One iteration of the loop that links the new node [x] on level [i]. *)
Definition link_level (ns : list Node) (prev : list ptr) (x i : nat) : option (list Node) :=
  p ← prev !! i;
  p ← p;
  next ← Node_Next ns p i;
  ns ← Node_SetNext ns x i next;
  Node_SetNext ns p i (Some x).

(** The loop, from level [i] for [n] levels. *)
Fixpoint link_levels (n i : nat) (ns : list Node) (prev : list ptr) (x : nat) : option (list Node) :=
  match n with
  | O => Some ns
  | S n => ns ← link_level ns prev x i; link_levels n (S i) ns prev x
  end.

(** [Insert] before its loop: the predecessors, the height of the new node and of the list, the state of the generator,
    the new node and the nodes with it. *)
Definition Insert_prepare (l : SkipList) (key : Key) : option (list ptr * nat * nat * Z * nat * list Node) :=
  '(_, prev) ← FindGreaterOrEqual l key (Some (repeat None kMaxHeight));
  prev ← prev;
  let '(height, rnd) := RandomHeight (rnd_ l) in
  let '(prev, max_height) :=
    if (max_height_ l <? height)%nat
    then (prev_head (height - max_height_ l) (max_height_ l) prev, height)
    else (prev, max_height_ l) in
  let '(x, ns) := NewNode key height (nodes l) in
  Some (prev, height, max_height, rnd, x, ns).

Definition Insert (l : SkipList) (key : Key) : option SkipList :=
  '(prev, height, max_height, rnd, x, ns) ← Insert_prepare l key;
  ns ← link_levels height 0 ns prev x;
  Some (MkSkipList ns max_height rnd).

Definition Contains (l : SkipList) (key : Key) : option bool :=
  '(x, _) ← FindGreaterOrEqual l key None;
  match x with
  | None => Some false
  | Some x => nd ← nodes l !! x; Some (Equal key (node_key nd))
  end.

(** The iterator is its [node_]. *)
Definition Iterator_Valid (node : ptr) : bool := bool_decide (is_Some node).
Definition Iterator_key (l : SkipList) (node : ptr) : option Key := n ← node; nd ← nodes l !! n; Some (node_key nd).
Definition Iterator_Next (l : SkipList) (node : ptr) : option ptr := n ← node; Node_Next (nodes l) n 0.
Definition not_head (node : nat) : ptr := if decide (node = head_) then None else Some node.
Definition Iterator_Prev (l : SkipList) (node : ptr) : option ptr :=
  k ← Iterator_key l node;
  n ← FindLessThan l k;
  Some (not_head n).
Definition Iterator_Seek (l : SkipList) (target : Key) : option ptr := fst <$> FindGreaterOrEqual l target None.
Definition Iterator_SeekToFirst (l : SkipList) : option ptr := Node_Next (nodes l) head_ 0.
Definition Iterator_SeekToLast (l : SkipList) : option ptr := n ← FindLast l; Some (not_head n).
End SkipList.
Arguments Node : clear implicits.
Arguments SkipList : clear implicits.

(** What the list relies on in its comparator. *)
Class KeyOrder {Key} (compare_ : Key -> Key -> Z) : Prop := {
  key_antisym a b : compare_ a b < 0 <-> 0 < compare_ b a;
  key_trans a b c : compare_ a b < 0 -> compare_ b c < 0 -> compare_ a c < 0;
  key_eq_lt a b c : compare_ a b = 0 -> compare_ b c < 0 -> compare_ a c < 0;
}.

(** * Lists of nodes *)

Section lists.
Context {A : Type}.

Lemma sublist_StronglySorted (R : A -> A -> Prop) l k : l `sublist_of` k -> StronglySorted R k -> StronglySorted R l.
Proof.
  induction 1 as [|x l k Hs IH|x l k Hs IH]; intros H; [done| |]; inversion H as [|? ? Hk Hf]; subst; [|by apply IH].
  constructor; [by apply IH|]. apply Forall_forall. intros y Hy. rewrite Forall_forall in Hf.
  apply Hf. by eapply elem_of_sublist.
Qed.

Lemma sublist_filterb (f : A -> bool) l k : l `sublist_of` k -> List.filter f l `sublist_of` List.filter f k.
Proof.
  induction 1 as [|x l k Hs IH|x l k Hs IH]; cbn; [constructor| |]; destruct (f x); try done; by constructor.
Qed.

(** A list sorted by [R] is split by a predicate that [R] pulls back. *)
Lemma filter_split (R : A -> A -> Prop) (f : A -> bool) l :
  (forall x y, R x y -> f y = true -> f x = true) -> StronglySorted R l ->
  l = List.filter f l ++ List.filter (fun x => negb (f x)) l.
Proof.
  intros Hf. induction 1 as [|x l Hl IH Hx]; [done|]. cbn. destruct (f x) eqn:E; cbn; [by rewrite <-IH|].
  assert (List.filter f l = []) as Hnil.
  { rewrite Forall_forall in Hx. destruct (List.filter f l) as [|y l'] eqn:El; [done|].
    assert (In y (List.filter f l)) as Hy by (rewrite El; by left). apply filter_In in Hy as [Hy%list_elem_of_In Hfy].
    rewrite (Hf x y (Hx y Hy) Hfy) in E. done. }
  rewrite Hnil in IH |- *. cbn in IH |- *. by rewrite <-IH.
Qed.

Lemma filter_all (f : A -> bool) l : (forall x, x ∈ l -> f x = true) -> List.filter f l = l.
Proof.
  induction l as [|x l IH]; intros H; [done|]. cbn. rewrite H by apply list_elem_of_here.
  f_equal. apply IH. intros y Hy. apply H. by apply list_elem_of_further.
Qed.

Lemma filter_none (f : A -> bool) l : (forall x, x ∈ l -> f x = false) -> List.filter f l = [].
Proof.
  induction l as [|x l IH]; intros H; [done|]. cbn. rewrite H by apply list_elem_of_here.
  apply IH. intros y Hy. apply H. by apply list_elem_of_further.
Qed.
End lists.

(** * The list invariant *)

Section SkipListProofs.
Context {Key : Type} (zero : Key) (compare_ : Key -> Key -> Z) `{!KeyOrder compare_}.
Implicit Types (ns : list (Node Key)) (ks : list Key) (ids a b : list nat) (lv : list (list nat)).

Lemma key_irrefl k : ~ compare_ k k < 0.
Proof. intros H. pose proof (proj1 (key_antisym _ _) H). lia. Qed.

(** The keys of the nodes, in the order of allocation; they never change. *)
Definition node_keys ns : list Key := map node_key ns.

Definition id_lt ks (x y : nat) : Prop := exists kx ky, ks !! x = Some kx /\ ks !! y = Some ky /\ compare_ kx ky < 0.

Definition before ks (k : Key) (x : nat) : bool :=
  match ks !! x with Some kx => compare_ kx k <? 0 | None => false end.

Definition lts ks k ids : list nat := List.filter (before ks k) ids.
Definition ges ks k ids : list nat := List.filter (fun x => negb (before ks k x)) ids.

Definition last_or_head ids : nat := default head_ (last ids).

(** Following level [h] from [x] gives the nodes [ids]. *)
Fixpoint chain ns (h x : nat) ids : Prop :=
  match ids with
  | [] => Node_Next ns x h = Some None
  | y :: ids => Node_Next ns x h = Some (Some y) /\ chain ns h y ids
  end.

(** The levels [lv]: each is a chain from the head and a part of the one below; the lowest is sorted. *)
Record wf ns lv : Prop := {
  wf_levels : length lv = kMaxHeight;
  wf_chain h ids : lv !! h = Some ids -> chain ns h head_ ids;
  wf_sub h up down : lv !! S h = Some up -> lv !! h = Some down -> up `sublist_of` down;
  wf_sorted ids : lv !! 0%nat = Some ids -> StronglySorted (id_lt (node_keys ns)) ids;
  wf_nodes ids x : lv !! 0%nat = Some ids -> x ∈ ids -> x <> head_ /\ (x < length ns)%nat;
}.

Lemma id_lt_before ks k x y : id_lt ks x y -> before ks k y = true -> before ks k x = true.
Proof.
  intros (kx & ky & Hx & Hy & Hlt). unfold before. rewrite Hx, Hy. intros H%Z.ltb_lt. apply Z.ltb_lt.
  by apply (key_trans _ ky).
Qed.

Lemma id_lt_irrefl ks x : ~ id_lt ks x x.
Proof. intros (k1 & k2 & H1 & H2 & H). rewrite H1 in H2. injection H2 as <-. by apply key_irrefl in H. Qed.

Lemma split_level ks k ids : StronglySorted (id_lt ks) ids -> ids = lts ks k ids ++ ges ks k ids.
Proof. apply filter_split. intros x y. apply id_lt_before. Qed.

Lemma sorted_NoDup ks ids : StronglySorted (id_lt ks) ids -> NoDup ids.
Proof.
  induction 1 as [|x l Hl IH Hx]; constructor; [|done]. intros Hin. rewrite Forall_forall in Hx.
  by apply Hx, id_lt_irrefl in Hin.
Qed.

Section wf.
Context {ns lv} (Hwf : wf ns lv).

Lemma level_some h : (h < kMaxHeight)%nat -> exists ids, lv !! h = Some ids.
Proof. intros H. rewrite <-(wf_levels _ _ Hwf) in H. by apply lookup_lt_is_Some_2 in H. Qed.

Lemma level_sub h ids ids0 : lv !! h = Some ids -> lv !! 0%nat = Some ids0 -> ids `sublist_of` ids0.
Proof.
  revert ids. induction h as [|h IH]; intros ids H H0; [rewrite H in H0; by injection H0 as ->|].
  destruct (level_some h) as [down Hd].
  { apply lookup_lt_Some in H. rewrite (wf_levels _ _ Hwf) in H. lia. }
  etrans; [by apply (wf_sub _ _ Hwf h)|by apply IH].
Qed.

Lemma level_sorted h ids : lv !! h = Some ids -> StronglySorted (id_lt (node_keys ns)) ids.
Proof.
  intros H. destruct (level_some 0) as [ids0 H0]; [unfold kMaxHeight; lia|].
  eapply sublist_StronglySorted; [by eapply level_sub|by apply (wf_sorted _ _ Hwf)].
Qed.

Lemma level_nodes h ids x : lv !! h = Some ids -> x ∈ ids -> x <> head_ /\ (x < length ns)%nat.
Proof.
  intros H Hx. destruct (level_some 0) as [ids0 H0]; [unfold kMaxHeight; lia|].
  apply (wf_nodes _ _ Hwf ids0 x H0). eapply elem_of_sublist; [done|by eapply level_sub].
Qed.

Lemma level_length h ids : lv !! h = Some ids -> (length ids < length ns)%nat.
Proof.
  intros H. pose proof (sorted_NoDup _ _ (level_sorted h ids H)) as Hnd.
  assert (NoDup (head_ :: ids)) as Hnd'.
  { constructor; [|done]. intros Hin. by apply (level_nodes h ids _ H) in Hin as []. }
  assert (0 < length ns)%nat.
  { pose proof (wf_chain _ _ Hwf h ids H) as Hc. destruct ns; [|simpl; lia]. destruct ids; cbn in Hc; [done|by destruct Hc]. }
  assert (incl (head_ :: ids) (seq 0 (length ns))) as Hincl.
  { intros x [<-|Hx]; apply in_seq; [unfold head_; lia|]. apply list_elem_of_In, (level_nodes h ids _ H) in Hx. lia. }
  apply NoDup_incl_length in Hincl; [|by apply NoDup_ListNoDup]. rewrite length_seq in Hincl. simpl in Hincl. lia.
Qed.
End wf.

Lemma chain_app ns h x a b : chain ns h x (a ++ b) -> chain ns h (default x (last a)) b.
Proof.
  revert x. induction a as [|y a IH]; intros x H; [done|]. destruct H as [_ H]. apply IH in H.
  rewrite last_cons. by destruct (last a).
Qed.

Lemma chain_next ns h x b : chain ns h x b -> Node_Next ns x h = Some (head b).
Proof. destruct b; [done|]. by intros []. Qed.

(** * Searching *)

(** The search that the three loops share: move right while [f] holds of the next node, else go down.  It returns the
    node where each level was left, from level 0 up, and the node after the last one. *)
Fixpoint search (f : nat -> option bool) (fuel : nat) ns (x level : nat) : option (list nat * ptr) :=
  match fuel with
  | O => None
  | S fuel =>
      next ← Node_Next ns x level;
      go ← match next with None => Some false | Some n => f n end;
      if (go : bool) then
        n ← next;
        search f fuel ns n level
      else
        match level with
        | O => Some ([x], next)
        | S level => '(xs, nx) ← search f fuel ns x level; Some (xs ++ [x], nx)
        end
  end.

Lemma search_length f fuel ns x level xs nx : search f fuel ns x level = Some (xs, nx) -> length xs = S level.
Proof.
  revert x level xs nx. induction fuel as [|fuel IH]; intros x level xs nx; [done|]. cbn [search].
  destruct (Node_Next ns x level) as [next|]; [|done]. cbn [mbind option_bind].
  destruct (match next with None => Some false | Some n => f n end) as [[]|]; [| |done]; cbn [mbind option_bind].
  - destruct next as [n|]; [|done]. apply IH.
  - destruct level as [|level]; [by intros [= <- <-]|].
    destruct (search f fuel ns x level) as [[xs' nx']|] eqn:E; [|done]. intros [= <- <-].
    rewrite length_app, (IH _ _ _ _ E). simpl. lia.
Qed.

Lemma FindGreaterOrEqual_search fuel ns key x level prev :
  (forall p, prev = Some p -> (level < length p)%nat) ->
  FindGreaterOrEqual_loop compare_ fuel ns key x level prev =
    '(xs, nx) ← search (fun n => KeyIsAfterNode compare_ ns key (Some n)) fuel ns x level;
    Some (nx, (fun p => map Some xs ++ drop (S level) p) <$> prev).
Proof.
  revert x level prev. induction fuel as [|fuel IH]; intros x level prev Hp; [done|].
  cbn [FindGreaterOrEqual_loop search]. destruct (Node_Next ns x level) as [next|]; [|done]. cbn [mbind option_bind].
  assert (KeyIsAfterNode compare_ ns key next =
          match next with None => Some false | Some n => KeyIsAfterNode compare_ ns key (Some n) end) as -> by (by destruct next).
  destruct (match next with None => _ | Some n => _ end) as [[]|]; [| |done]; cbn [mbind option_bind].
  - destruct next as [n|]; [by apply IH|done].
  - destruct level as [|level].
    + cbn. destruct prev as [[|p0 p]|]; try done. exfalso. specialize (Hp _ eq_refl). simpl in Hp. lia.
    + rewrite IH.
      2: { intros p. destruct prev as [p'|]; [|done]. intros [= <-]. rewrite length_insert. specialize (Hp _ eq_refl). lia. }
      destruct (search _ fuel ns x level) as [[xs nx]|] eqn:E; [|done]. cbn. do 2 f_equal.
      destruct prev as [p|]; [|done]. cbn. f_equal. specialize (Hp _ eq_refl).
      rewrite map_app, <-app_assoc. f_equal. cbn [map app].
      destruct (lookup_lt_is_Some_2 p (S level) Hp) as [y Hy].
      rewrite (drop_S _ (Some x) (S level)) by (by rewrite list_lookup_insert_eq by done). f_equal.
      rewrite drop_insert_lt by lia. done.
Qed.

Lemma FindLessThan_search fuel ns key x level :
  FindLessThan_loop compare_ fuel ns key x level =
    '(xs, nx) ← search (fun n => KeyIsAfterNode compare_ ns key (Some n)) fuel ns x level; head xs.
Proof.
  revert x level. induction fuel as [|fuel IH]; intros x level; [done|].
  cbn [FindLessThan_loop search]. destruct (Node_Next ns x level) as [next|]; [|done]. cbn [mbind option_bind].
  destruct next as [n|]; cbn [KeyIsAfterNode mbind option_bind].
  - destruct (ns !! n) as [nd|]; [|done]. cbn [mbind option_bind].
    rewrite Z.leb_antisym. destruct (compare_ (node_key nd) key <? 0); cbn [negb]; [by apply IH|].
    destruct level as [|level]; [done|]. rewrite IH.
    destruct (search _ fuel ns x level) as [[xs nx]|] eqn:E; [|done]. cbn. apply search_length in E. by destruct xs.
  - destruct level as [|level]; [done|]. rewrite IH.
    destruct (search _ fuel ns x level) as [[xs nx]|] eqn:E; [|done]. cbn. apply search_length in E. by destruct xs.
Qed.

Lemma FindLast_search fuel ns x level :
  FindLast_loop fuel ns x level = '(xs, nx) ← search (fun n => Some true) fuel ns x level; head xs.
Proof.
  revert x level. induction fuel as [|fuel IH]; intros x level; [done|].
  cbn [FindLast_loop search]. destruct (Node_Next ns x level) as [next|]; [|done]. cbn [mbind option_bind].
  destruct next as [n|]; cbn [mbind option_bind]; [by apply IH|].
  destruct level as [|level]; [done|]. rewrite IH.
  destruct (search _ fuel ns x level) as [[xs nx]|] eqn:E; [|done]. cbn. apply search_length in E. by destruct xs.
Qed.

(** The nodes of a level that [g] selects are its first ones, when [g] pulls back along the order. *)
Definition pulls_back ns (g : nat -> bool) : Prop := forall x y, id_lt (node_keys ns) x y -> g y = true -> g x = true.

Lemma last_or_head_snoc a x : last_or_head (a ++ [x]) = x.
Proof. unfold last_or_head. by rewrite last_snoc. Qed.

(** The node where a level was left is also on the level below, behind nodes that [g] selects. *)
Lemma descend ns lv g h a b :
  wf ns lv -> pulls_back ns g -> lv !! S h = Some (a ++ b) -> Forall (fun x => g x = true) a ->
  exists a' b', lv !! h = Some (a' ++ b') /\ Forall (fun x => g x = true) a' /\ last_or_head a' = last_or_head a.
Proof.
  intros Hwf Hg H Ha. destruct (level_some Hwf h) as [down Hd].
  { apply lookup_lt_Some in H. rewrite (wf_levels _ _ Hwf) in H. lia. }
  destruct a as [|x a _] using rev_ind; [by exists [], down|].
  assert (x ∈ down) as Hx.
  { eapply elem_of_sublist; [|by apply (wf_sub _ _ Hwf h)]. apply elem_of_app. left. apply elem_of_app. right. by apply list_elem_of_singleton. }
  apply list_elem_of_split in Hx as (a' & b' & ->). exists (a' ++ [x]), b'. split_and!.
  - by rewrite Hd, <-app_assoc.
  - apply Forall_app in Ha as [_ Hax]. rewrite Forall_singleton in Hax. apply Forall_app. split; [|by repeat constructor].
    apply Forall_forall. intros y Hy. apply (Hg y x); [|done].
    apply (level_sorted Hwf h) in Hd. eapply StronglySorted_app_1_elem_of; [done|done|apply list_elem_of_here].
  - by rewrite !last_or_head_snoc.
Qed.

Definition left_at g ids : nat := last_or_head (List.filter g ids).

Lemma filter_split_at ns g a b :
  pulls_back ns g -> StronglySorted (id_lt (node_keys ns)) (a ++ b) -> Forall (fun x => g x = true) a ->
  match b with y :: _ => g y = false | [] => True end ->
  List.filter g (a ++ b) = a /\ List.filter (fun x => negb (g x)) (a ++ b) = b.
Proof.
  intros Hg Hs Ha Hb. rewrite Forall_forall in Ha.
  assert (Hb' : forall x, x ∈ b -> g x = false).
  { destruct b as [|y b]; intros x Hx; [by apply elem_of_nil in Hx|]. apply elem_of_cons in Hx as [->|Hx]; [done|].
    destruct (g x) eqn:E; [|done]. rewrite <-Hb. symmetry. apply (Hg y x); [|done].
    apply StronglySorted_app_1_r in Hs. apply StronglySorted_inv in Hs as [_ Hs]. rewrite Forall_forall in Hs. by apply Hs. }
  rewrite !List.filter_app, (filter_all g a), (filter_none g b), (filter_none _ a), (filter_all _ b).
  - by rewrite app_nil_r.
  - intros x Hx. by rewrite Hb'.
  - intros x Hx. by rewrite Ha.
  - done.
  - done.
Qed.

Lemma search_spec ns lv f g fuel level a b :
  wf ns lv -> pulls_back ns g -> (forall x, x <> head_ -> (x < length ns)%nat -> f x = Some (g x)) ->
  lv !! level = Some (a ++ b) -> Forall (fun x => g x = true) a ->
  (length b + 1 + level * length ns <= fuel)%nat ->
  exists ids0, lv !! 0%nat = Some ids0 /\
    search f fuel ns (last_or_head a) level =
      Some (map (left_at g) (take (S level) lv), head (List.filter (fun x => negb (g x)) ids0)).
Proof.
  intros Hwf Hg Hf. revert level a b. induction fuel as [|fuel IH]; intros level a b Hl Ha Hfuel; [lia|].
  cbn [search]. pose proof (wf_chain _ _ Hwf _ _ Hl) as Hc. apply chain_app in Hc. fold (last_or_head a) in Hc.
  rewrite (chain_next _ _ _ _ Hc). cbn [mbind option_bind].
  assert (Hstop : match b with y :: _ => g y = false | [] => True end ->
    exists ids0, lv !! 0%nat = Some ids0 /\
      match level with
      | 0%nat => Some ([last_or_head a], head b)
      | S level => '(xs, nx) ← search f fuel ns (last_or_head a) level; Some (xs ++ [last_or_head a], nx)
      end = Some (map (left_at g) (take (S level) lv), head (List.filter (fun x => negb (g x)) ids0))).
  { intros Hb. destruct (filter_split_at ns g a b Hg (level_sorted Hwf _ _ Hl) Ha Hb) as [Ea Eb].
    rewrite (take_S_r _ _ _ Hl), map_app. cbn [map]. unfold left_at at 2. rewrite Ea. destruct level as [|level].
    - exists (a ++ b). rewrite Eb. done.
    - destruct (descend ns lv g level a b Hwf Hg Hl Ha) as (a' & b' & Hl' & Ha' & <-).
      destruct (IH level a' b' Hl' Ha') as (ids0 & H0 & ->); [|by exists ids0].
      pose proof (level_length Hwf _ _ Hl'). rewrite length_app in *. lia. }
  destruct b as [|y b]; cbn [head]; [by apply Hstop|].
  destruct (level_nodes Hwf level (a ++ y :: b) y Hl) as [Hy1 Hy2]; [apply elem_of_app; right; apply list_elem_of_here|].
  rewrite (Hf y Hy1 Hy2). cbn [mbind option_bind]. destruct (g y) eqn:Egy; [|by apply Hstop].
  rewrite <-(last_or_head_snoc a y). apply (IH level (a ++ [y]) b).
  - by rewrite <-app_assoc.
  - apply Forall_app. split; [done|]. by repeat constructor.
  - simpl in Hfuel. lia.
Qed.

(** * Searches of a list *)

(** The levels above the height of the list are empty. *)
Record sl_inv (l : SkipList Key) lv : Prop := {
  sl_wf : wf (nodes l) lv;
  sl_height : (1 <= max_height_ l <= kMaxHeight)%nat;
  sl_above h ids : (max_height_ l <= h)%nat -> lv !! h = Some ids -> ids = [];
}.

Lemma node_keys_lookup ns x : node_keys ns !! x = node_key <$> ns !! x.
Proof. apply lookup_map. Qed.

Lemma KeyIsAfterNode_before ns key x :
  (x < length ns)%nat -> KeyIsAfterNode compare_ ns key (Some x) = Some (before (node_keys ns) key x).
Proof.
  intros H. unfold KeyIsAfterNode, before. rewrite node_keys_lookup. by destruct (lookup_lt_is_Some_2 ns x H) as [nd ->].
Qed.

Lemma before_pulls ns key : pulls_back ns (before (node_keys ns) key).
Proof. intros x y. apply id_lt_before. Qed.

Lemma search_list l lv f g :
  sl_inv l lv -> pulls_back (nodes l) g -> (forall x, x <> head_ -> (x < length (nodes l))%nat -> f x = Some (g x)) ->
  exists ids0, lv !! 0%nat = Some ids0 /\
    search f (search_fuel (nodes l)) (nodes l) head_ (max_height_ l - 1) =
      Some (map (left_at g) (take (max_height_ l) lv), head (List.filter (fun x => negb (g x)) ids0)).
Proof.
  intros [Hwf Hh _] Hg Hf. destruct (level_some Hwf (max_height_ l - 1)) as [ids Hl]; [lia|].
  destruct (search_spec (nodes l) lv f g (search_fuel (nodes l)) (max_height_ l - 1) [] ids) as (ids0 & H0 & E); try done.
  - pose proof (level_length Hwf _ _ Hl). unfold search_fuel.
    assert (length (nodes l) + (max_height_ l - 1) * length (nodes l) <= kMaxHeight * length (nodes l))%nat; [|lia].
    replace (length (nodes l) + (max_height_ l - 1) * length (nodes l))%nat with (max_height_ l * length (nodes l))%nat.
    + apply Nat.mul_le_mono_r. lia.
    + destruct (max_height_ l); [lia|]. simpl. lia.
  - exists ids0. split; [done|]. change (last_or_head []) with head_ in E. rewrite E. by replace (S (max_height_ l - 1)) with (max_height_ l) by lia.
Qed.

Lemma FindGreaterOrEqual_spec l lv key prev :
  sl_inv l lv -> (forall p, prev = Some p -> length p = kMaxHeight) ->
  exists ids0, lv !! 0%nat = Some ids0 /\
    FindGreaterOrEqual compare_ l key prev =
      Some (head (ges (node_keys (nodes l)) key ids0),
            (fun p => map Some (map (left_at (before (node_keys (nodes l)) key)) (take (max_height_ l) lv)) ++ drop (max_height_ l) p) <$> prev).
Proof.
  intros Hinv Hp. pose proof (sl_height _ _ Hinv) as Hh. unfold FindGreaterOrEqual.
  rewrite FindGreaterOrEqual_search by (intros p Hpp; rewrite (Hp p Hpp); lia).
  edestruct (search_list l lv (fun n => KeyIsAfterNode compare_ (nodes l) key (Some n))) as (ids0 & H0 & ->);
    [done|apply (before_pulls (nodes l) key)|intros; by apply KeyIsAfterNode_before|].
  exists ids0. split; [done|]. cbn [mbind option_bind]. by replace (S (max_height_ l - 1)) with (max_height_ l) by lia.
Qed.

Lemma head_map_left l lv g ids0 :
  sl_inv l lv -> lv !! 0%nat = Some ids0 -> head (map (left_at g) (take (max_height_ l) lv)) = Some (left_at g ids0).
Proof.
  intros Hinv H0. pose proof (sl_height _ _ Hinv). destruct lv as [|i0 lv]; [done|]. injection H0 as ->.
  destruct (max_height_ l); [lia|done].
Qed.

Lemma FindLessThan_spec l lv key :
  sl_inv l lv -> exists ids0, lv !! 0%nat = Some ids0 /\
    FindLessThan compare_ l key = Some (left_at (before (node_keys (nodes l)) key) ids0).
Proof.
  intros Hinv. unfold FindLessThan. rewrite FindLessThan_search.
  edestruct (search_list l lv (fun n => KeyIsAfterNode compare_ (nodes l) key (Some n))) as (ids0 & H0 & ->);
    [done|apply (before_pulls (nodes l) key)|intros; by apply KeyIsAfterNode_before|].
  exists ids0. split; [done|]. by apply (head_map_left l lv).
Qed.

Lemma FindLast_spec l lv :
  sl_inv l lv -> exists ids0, lv !! 0%nat = Some ids0 /\ FindLast l = Some (last_or_head ids0).
Proof.
  intros Hinv. unfold FindLast. rewrite FindLast_search.
  destruct (search_list l lv (fun n => Some true) (fun _ => true)) as (ids0 & H0 & ->); try done.
  exists ids0. split; [done|]. cbn [mbind option_bind]. rewrite (head_map_left l lv _ ids0) by done.
  unfold left_at. rewrite filter_all by done. done.
Qed.

(** * Insertion *)

Lemma Node_SetNext_spec ns x n p :
  is_Some (Node_Next ns x n) ->
  exists ns', Node_SetNext ns x n p = Some ns' /\ node_keys ns' = node_keys ns /\ length ns' = length ns /\
    forall y m, Node_Next ns' y m = if decide (y = x /\ m = n) then Some p else Node_Next ns y m.
Proof.
  intros [q Hq]. unfold Node_Next, Node_SetNext in *. destruct (ns !! x) as [nd|] eqn:Hx; [|done]. cbn [mbind option_bind] in *.
  pose proof (lookup_lt_Some _ _ _ Hq) as Hlt. pose proof (lookup_lt_Some _ _ _ Hx) as Hltx.
  destruct (Nat.ltb_spec n (length (next_ nd))); [|lia]. eexists. split_and!; [done| |apply length_insert|].
  - unfold node_keys. change (map node_key) with (fmap (M := list) (node_key (Key := Key))).
    rewrite list_fmap_insert. cbn [node_key]. apply list_insert_id. by rewrite list_lookup_fmap, Hx.
  - intros y m. destruct (decide (y = x)) as [->|Hne].
    + rewrite list_lookup_insert_eq by done. cbn [mbind option_bind next_]. rewrite Hx. cbn [mbind option_bind].
      destruct (decide (m = n)) as [->|]; [rewrite decide_True by done; by apply list_lookup_insert_eq|].
      rewrite decide_False by (by intros []). by apply list_lookup_insert_ne.
    + rewrite decide_False by (by intros []). by rewrite list_lookup_insert_ne.
Qed.

Lemma chain_frame ns ns' h x ids :
  (forall y, y ∈ x :: ids -> Node_Next ns' y h = Node_Next ns y h) -> chain ns h x ids -> chain ns' h x ids.
Proof.
  revert x. induction ids as [|y ids IH]; intros x Hf Hc; cbn in *.
  - by rewrite Hf by apply list_elem_of_here.
  - destruct Hc as [Hn Hc]. rewrite Hf by apply list_elem_of_here. split; [done|]. apply IH; [|done].
    intros z Hz. apply Hf. by apply list_elem_of_further.
Qed.

(** Setting the pointers of a new node [x] and of the last node of [a] puts [x] after [a]. *)
Lemma chain_insert ns ns' h x z a b :
  chain ns h z (a ++ b) -> NoDup (z :: a ++ b) -> x ∉ z :: a ++ b ->
  (forall y, y <> x -> y <> default z (last a) -> Node_Next ns' y h = Node_Next ns y h) ->
  Node_Next ns' (default z (last a)) h = Some (Some x) ->
  Node_Next ns' x h = Node_Next ns (default z (last a)) h ->
  chain ns' h z (a ++ x :: b).
Proof.
  revert z. induction a as [|y a IH]; intros z Hc Hnd Hx Hf Hp Hn.
  - cbn in *. split; [done|].
    assert (Hb : forall y, y ∈ b -> Node_Next ns' y h = Node_Next ns y h).
    { intros y Hy. apply Hf; intros ->; [apply Hx; by apply list_elem_of_further|]. apply NoDup_cons in Hnd as [Hnd _]. done. }
    destruct b as [|y b]; cbn in *; [by rewrite Hn|]. destruct Hc as [Hc1 Hc2]. rewrite Hn. split; [done|].
    eapply chain_frame; [|done]. done.
  - cbn [app] in *. destruct Hc as [Hc1 Hc2]. rewrite last_cons in Hf, Hp, Hn.
    assert (default z (match last a with Some y0 => Some y0 | None => Some y end) = default y (last a)) as E
      by (by destruct (last a)).
    rewrite E in Hf, Hp, Hn. apply NoDup_cons in Hnd as [Hz Hnd]. split.
    + rewrite Hf; [done|intros ->; apply Hx, list_elem_of_here|].
      intros ->. apply Hz. destruct (last a) as [w|] eqn:El; [|apply list_elem_of_here].
      apply list_elem_of_further, elem_of_app. left. apply last_Some in El as [l' ->]. apply elem_of_app. right. apply list_elem_of_here.
    + apply (IH y); try done. intros Hin. apply Hx. by apply list_elem_of_further.
Qed.

(** The nodes of a level with [x] put in its place. *)
Definition ins (g : nat -> bool) (x : nat) ids : list nat := List.filter g ids ++ x :: List.filter (fun y => negb (g y)) ids.

(** The levels when [x] is linked on the first [i]. *)
Definition linked (g : nat -> bool) (x i : nat) lv : list (list nat) := map (ins g x) (take i lv) ++ drop i lv.

Lemma linked_lookup g x i lv h :
  (i <= length lv)%nat -> linked g x i lv !! h = if decide (h < i)%nat then ins g x <$> lv !! h else lv !! h.
Proof.
  intros Hi. unfold linked. destruct (decide (h < i)%nat).
  - rewrite lookup_app_l by (rewrite length_map, length_take; lia). by rewrite lookup_map, lookup_take_lt.
  - rewrite lookup_app_r by (rewrite length_map, length_take; lia). rewrite length_map, length_take, lookup_drop. f_equal. lia.
Qed.

Lemma linked_0 g x lv : linked g x 0 lv = lv.
Proof. done. Qed.

Lemma linked_S g x i lv ids :
  lv !! i = Some ids -> linked g x (S i) lv = <[i := ins g x ids]> (linked g x i lv).
Proof.
  intros H. pose proof (lookup_lt_Some _ _ _ H) as Hi. unfold linked. rewrite (take_S_r _ _ _ H), map_app, <-app_assoc. cbn [map app].
  rewrite (drop_S _ _ _ H), insert_app_r_alt by (rewrite length_map, length_take; lia).
  rewrite length_map, length_take. by replace (i - i `min` length lv)%nat with 0%nat by lia.
Qed.

Lemma sub_ins g x up down : up `sublist_of` down -> ins g x up `sublist_of` ins g x down.
Proof. intros H. unfold ins. apply sublist_app; [by apply sublist_filterb|]. constructor. by apply sublist_filterb. Qed.

(** Insertion of a node with a key different from those of the list. *)
Section insert.
Context {ns lv} (Hwf : wf ns lv) (key : Key) (x : nat).
Let g := before (node_keys ns) key.
Hypothesis (Hx : node_keys ns !! x = Some key) (Hxh : x <> head_) (Hfresh : forall ids, lv !! 0%nat = Some ids -> x ∉ ids).
Hypothesis (Hne : forall ids y ky, lv !! 0%nat = Some ids -> y ∈ ids -> node_keys ns !! y = Some ky -> compare_ ky key <> 0).

Lemma ids_ins ids h : lv !! h = Some ids -> List.filter g ids ++ List.filter (fun y => negb (g y)) ids = ids.
Proof. intros H. symmetry. by apply split_level, (level_sorted Hwf h). Qed.

Lemma sorted_ins ids : lv !! 0%nat = Some ids -> StronglySorted (id_lt (node_keys ns)) (ins g x ids).
Proof.
  intros H. pose proof (level_sorted Hwf _ _ H) as Hs. rewrite <-(ids_ins ids _ H) in Hs.
  apply StronglySorted_app in Hs as (Hab & Ha & Hb). unfold ins.
  assert (Hin : forall y, y ∈ ids -> exists ky, node_keys ns !! y = Some ky).
  { intros y Hy. apply lookup_lt_is_Some_2. unfold node_keys. rewrite length_map. by apply (level_nodes Hwf _ _ _ H). }
  assert (Hbx : forall y, y ∈ List.filter (fun y => negb (g y)) ids -> id_lt (node_keys ns) x y).
  { intros y Hy%list_elem_of_In. apply filter_In in Hy as [Hy%list_elem_of_In Hg]. destruct (Hin y Hy) as [ky Hky].
    exists key, ky. split_and!; [done|done|]. apply key_antisym. unfold g, before in Hg. rewrite Hky in Hg.
    specialize (Hne ids y ky H Hy Hky). destruct (Z.ltb_spec (compare_ ky key) 0); [done|lia]. }
  apply StronglySorted_app. split_and!; [|done|].
  - intros y z Hy Hz. apply elem_of_cons in Hz as [->|Hz]; [|by apply Hab].
    apply list_elem_of_In, filter_In in Hy as [Hy%list_elem_of_In Hg]. destruct (Hin y Hy) as [ky Hky].
    exists ky, key. split_and!; [done|done|]. unfold g, before in Hg. rewrite Hky in Hg. by apply Z.ltb_lt.
  - constructor; [done|]. by apply Forall_forall.
Qed.

Lemma linked_wf i ns' :
  (i <= kMaxHeight)%nat -> node_keys ns' = node_keys ns -> length ns' = length ns ->
  (forall h ids, linked g x i lv !! h = Some ids -> chain ns' h head_ ids) -> wf ns' (linked g x i lv).
Proof.
  intros Hi Hk Hlen Hc. pose proof (wf_levels _ _ Hwf) as Hll. rewrite <-Hll in Hi. split.
  - unfold linked. rewrite length_app, length_map, length_take, length_drop. lia.
  - done.
  - intros h up down. rewrite !linked_lookup by done. intros Hu Hd.
    destruct (decide (S h < i)%nat), (decide (h < i)%nat); try lia.
    + apply fmap_Some in Hu as (u & Hu & ->). apply fmap_Some in Hd as (d & Hd & ->).
      by apply sub_ins, (wf_sub _ _ Hwf h).
    + apply fmap_Some in Hd as (d & Hd & ->). etrans; [by apply (wf_sub _ _ Hwf h)|].
      rewrite <-(ids_ins d h Hd) at 1. unfold ins. apply sublist_app; [done|]. by constructor.
    + by apply (wf_sub _ _ Hwf h).
  - intros ids. rewrite linked_lookup, Hk by done. destruct (decide _); [|by apply (wf_sorted _ _ Hwf)].
    intros (d & Hd & ->)%fmap_Some. by apply sorted_ins.
  - intros ids y. rewrite linked_lookup, Hlen by done. destruct (decide _); [|by apply (wf_nodes _ _ Hwf)].
    intros (d & Hd & ->)%fmap_Some Hy.
    assert (y = x \/ y ∈ d) as [->|Hyd].
    { unfold ins in Hy. apply elem_of_app in Hy as [Hy|Hy]; [right|apply elem_of_cons in Hy as [->|Hy]; [by left|right]];
        apply list_elem_of_In, filter_In in Hy as [Hy _]; by apply list_elem_of_In. }
    + split; [done|]. apply lookup_lt_Some in Hx. unfold node_keys in Hx. by rewrite length_map in Hx.
    + by apply (wf_nodes _ _ Hwf d).
Qed.

(** The two stores of an iteration: the pointer of [x], which no reader of the level sees yet, ... *)
Lemma store_new i ns1 ids :
  wf ns1 (linked g x i lv) -> node_keys ns1 = node_keys ns -> length ns1 = length ns ->
  lv !! i = Some ids -> is_Some (Node_Next ns1 x i) ->
  Node_Next ns1 (left_at g ids) i = Some (head (List.filter (fun y => negb (g y)) ids)) /\
  exists ns2, Node_SetNext ns1 x i (head (List.filter (fun y => negb (g y)) ids)) = Some ns2 /\
    node_keys ns2 = node_keys ns /\ length ns2 = length ns /\ wf ns2 (linked g x i lv) /\
    Node_Next ns2 x i = Some (head (List.filter (fun y => negb (g y)) ids)) /\
    (forall h, is_Some (Node_Next ns1 x h) -> is_Some (Node_Next ns2 x h)).
Proof.
  intros Hwf1 Hk1 Hl1 Hi Hxi. pose proof (lookup_lt_Some _ _ _ Hi) as Hlt. pose proof (wf_levels _ _ Hwf) as Hll.
  assert (Hi1 : linked g x i lv !! i = Some ids) by (rewrite linked_lookup by lia; rewrite decide_False by lia; done).
  pose proof (wf_chain _ _ Hwf1 _ _ Hi1) as Hc. rewrite <-(ids_ins ids i Hi) in Hc. split.
  { apply (chain_next _ _ _ _ (chain_app _ _ _ _ _ Hc)). }
  destruct (Node_SetNext_spec ns1 x i (head (List.filter (fun y => negb (g y)) ids)) Hxi) as (ns2 & E & Hk2 & Hl2 & Hn2).
  exists ns2. split_and!; [done|congruence|congruence| |rewrite Hn2, decide_True by done; done|].
  - apply linked_wf; [lia|congruence|congruence|]. intros h ids' H. eapply chain_frame; [|by apply (wf_chain _ _ Hwf1)].
    intros y Hy. rewrite Hn2, decide_False; [done|]. intros [-> ->]. rewrite Hi1 in H. injection H as <-.
    apply elem_of_cons in Hy as [?|Hy]; [done|]. destruct (level_some Hwf 0) as [ids0 H0]; [unfold kMaxHeight; lia|].
    apply (Hfresh ids0 H0). eapply elem_of_sublist; [done|by apply (level_sub Hwf i)].
  - intros h [p Hph]. rewrite Hn2. case_decide; [done|]. by rewrite Hph.
Qed.

(** ... and the pointer of its predecessor, which publishes it. *)
Lemma store_prev i ns2 ids :
  wf ns2 (linked g x i lv) -> node_keys ns2 = node_keys ns -> length ns2 = length ns ->
  lv !! i = Some ids -> Node_Next ns2 x i = Some (head (List.filter (fun y => negb (g y)) ids)) ->
  exists ns3, Node_SetNext ns2 (left_at g ids) i (Some x) = Some ns3 /\
    node_keys ns3 = node_keys ns /\ length ns3 = length ns /\ wf ns3 (linked g x (S i) lv) /\
    (forall h, is_Some (Node_Next ns2 x h) -> is_Some (Node_Next ns3 x h)).
Proof.
  intros Hwf2 Hk2 Hl2 Hi Hx2. pose proof (lookup_lt_Some _ _ _ Hi) as Hlt. pose proof (wf_levels _ _ Hwf) as Hll.
  assert (Hi2 : linked g x i lv !! i = Some ids) by (rewrite linked_lookup by lia; rewrite decide_False by lia; done).
  pose proof (wf_chain _ _ Hwf2 _ _ Hi2) as Hc. rewrite <-(ids_ins ids i Hi) in Hc.
  pose proof (chain_next _ _ _ _ (chain_app _ _ _ _ _ Hc)) as Hn.
  change (default head_ (last (List.filter g ids))) with (left_at g ids) in Hn.
  destruct (level_some Hwf 0) as [ids0 H0]; [unfold kMaxHeight; lia|].
  assert (Hxids : x ∉ head_ :: ids).
  { intros [?|Hin]%elem_of_cons; [done|]. apply (Hfresh ids0 H0). eapply elem_of_sublist; [done|by apply (level_sub Hwf i)]. }
  assert (Hpx : left_at g ids <> x).
  { unfold left_at, last_or_head. destruct (last (List.filter g ids)) as [w|] eqn:El; cbn; [|done]. intros ->. apply Hxids.
    apply list_elem_of_further. rewrite <-(ids_ins ids i Hi). apply elem_of_app. left. apply last_Some in El as [l' ->].
    apply elem_of_app. right. apply list_elem_of_here. }
  destruct (Node_SetNext_spec ns2 (left_at g ids) i (Some x)) as (ns3 & E & Hk3 & Hl3 & Hn3); [by rewrite Hn|].
  exists ns3. split_and!; [done|congruence|congruence| |].
  - apply linked_wf; [lia|congruence|congruence|]. intros h ids'. rewrite (linked_S _ _ _ _ _ Hi).
    destruct (decide (h = i)) as [->|Hhi].
    + rewrite list_lookup_insert_eq by (unfold linked; rewrite length_app, length_map, length_take, length_drop; lia).
      intros [= <-]. apply (chain_insert ns2); [exact Hc| | | | |].
      * rewrite (ids_ins ids i Hi). constructor; [|by eapply sorted_NoDup, (level_sorted Hwf)].
        intros Hin. by apply (level_nodes Hwf i ids _ Hi) in Hin as [].
      * by rewrite (ids_ins ids i Hi).
      * intros y Hyx Hya. rewrite Hn3, decide_False by (by intros []). done.
      * rewrite Hn3, decide_True by done. done.
      * rewrite Hn3, decide_False by (intros []; congruence). by rewrite Hx2, <-Hn.
    + rewrite list_lookup_insert_ne by done. intros H. eapply chain_frame; [|by apply (wf_chain _ _ Hwf2)].
      intros y _. rewrite Hn3, decide_False by (by intros []). done.
  - intros h [p Hph]. rewrite Hn3. case_decide; [done|]. by rewrite Hph.
Qed.

Lemma link_level_spec i ns1 prev ids :
  wf ns1 (linked g x i lv) -> node_keys ns1 = node_keys ns -> length ns1 = length ns ->
  lv !! i = Some ids -> prev !! i = Some (Some (left_at g ids)) -> is_Some (Node_Next ns1 x i) ->
  exists ns2, link_level ns1 prev x i = Some ns2 /\ node_keys ns2 = node_keys ns /\ length ns2 = length ns /\
    wf ns2 (linked g x (S i) lv) /\ (forall h, is_Some (Node_Next ns1 x h) -> is_Some (Node_Next ns2 x h)).
Proof.
  intros Hwf1 Hk1 Hl1 Hi Hp Hxi. unfold link_level. rewrite Hp. cbn [mbind option_bind].
  destruct (store_new i ns1 ids Hwf1 Hk1 Hl1 Hi Hxi) as (-> & ns2 & E2 & Hk2 & Hl2 & Hwf2 & Hx2 & Hs2).
  cbn [mbind option_bind]. rewrite E2. cbn [mbind option_bind].
  destruct (store_prev i ns2 ids Hwf2 Hk2 Hl2 Hi Hx2) as (ns3 & E3 & Hk3 & Hl3 & Hwf3 & Hs3).
  exists ns3. split_and!; try done. intros h Hh. by apply Hs3, Hs2.
Qed.

Lemma link_levels_spec n i ns1 prev :
  wf ns1 (linked g x i lv) -> node_keys ns1 = node_keys ns -> length ns1 = length ns -> (i + n <= kMaxHeight)%nat ->
  (forall h ids, (i <= h < i + n)%nat -> lv !! h = Some ids -> prev !! h = Some (Some (left_at g ids)) /\ is_Some (Node_Next ns1 x h)) ->
  exists ns2, link_levels n i ns1 prev x = Some ns2 /\ node_keys ns2 = node_keys ns /\ length ns2 = length ns /\
    wf ns2 (linked g x (i + n) lv).
Proof.
  revert i ns1. induction n as [|n IH]; intros i ns1 Hwf1 Hk1 Hl1 Hin Hp.
  { exists ns1. by rewrite Nat.add_0_r. }
  destruct (level_some Hwf i) as [ids Hi]; [lia|]. destruct (Hp i ids) as [Hpi Hxi]; [lia|done|].
  destruct (link_level_spec i ns1 prev ids Hwf1 Hk1 Hl1 Hi Hpi Hxi) as (ns2 & E & Hk2 & Hl2 & Hwf2 & Hn2).
  cbn [link_levels]. rewrite E. cbn [mbind option_bind].
  destruct (IH (S i) ns2 Hwf2 Hk2 Hl2) as (ns3 & E3 & Hk3 & Hl3 & Hwf3); [lia| |].
  { intros h ids' Hh Hl. destruct (Hp h ids') as [? ?]; [lia|done|]. split; [done|by apply Hn2]. }
  exists ns3. by replace (i + S n)%nat with (S i + n)%nat by lia.
Qed.
End insert.

Lemma StronglySorted_weaken {A} (R S : A -> A -> Prop) (l : list A) :
  (forall x y, R x y -> S x y) -> StronglySorted R l -> StronglySorted S l.
Proof. intros H. induction 1 as [|x l Hl IH Hx]; constructor; [done|]. eapply Forall_impl; [done|]. apply H. Qed.

Lemma before_app ks ks' k y : (y < length ks)%nat -> before (ks ++ ks') k y = before ks k y.
Proof. intros H. unfold before. by rewrite lookup_app_l. Qed.

Lemma wf_NewNode ns lv nd : wf ns lv -> wf (ns ++ [nd]) lv.
Proof.
  intros Hwf. assert (Hk : node_keys (ns ++ [nd]) = node_keys ns ++ [node_key nd]) by (unfold node_keys; by rewrite map_app).
  split; [apply Hwf| |apply Hwf| |].
  - intros h ids H. eapply chain_frame; [|by apply (wf_chain _ _ Hwf)]. intros y Hy. unfold Node_Next. rewrite lookup_app_l; [done|].
    apply elem_of_cons in Hy as [->|Hy]; [|by apply (level_nodes Hwf h ids)].
    pose proof (level_length Hwf _ _ H). unfold head_. lia.
  - intros ids H. eapply StronglySorted_weaken; [|by apply (wf_sorted _ _ Hwf)].
    intros y z (ky & kz & Hy & Hz & Hlt). exists ky, kz. rewrite Hk. split_and!; [by apply lookup_app_l_Some|by apply lookup_app_l_Some|done].
  - intros ids y H Hy. rewrite length_app. destruct (wf_nodes _ _ Hwf ids y H Hy). split; [done|lia].
Qed.

Lemma RandomHeight_loop_range fuel height rnd :
  (1 <= height <= kMaxHeight)%nat -> (1 <= fst (RandomHeight_loop fuel height rnd) <= kMaxHeight)%nat.
Proof.
  revert height rnd. induction fuel as [|fuel IH]; intros height rnd H; cbn [RandomHeight_loop]; [done|].
  destruct (Nat.ltb_spec height kMaxHeight); [|done]. destruct (Random_OneIn 4 rnd) as [[] rnd']; [|done]. apply IH. lia.
Qed.

Lemma RandomHeight_range rnd : (1 <= fst (RandomHeight rnd) <= kMaxHeight)%nat.
Proof. apply RandomHeight_loop_range. unfold kMaxHeight. lia. Qed.

Lemma prev_head_lookup n from p h :
  (from + n <= length p)%nat ->
  prev_head n from p !! h = if decide (from <= h < from + n)%nat then Some (Some head_) else p !! h.
Proof.
  revert from p. induction n as [|n IH]; intros from p Hlen; cbn [prev_head].
  { rewrite decide_False by lia. done. }
  rewrite IH by (rewrite length_insert; lia). destruct (decide (h = from)) as [->|].
  - rewrite decide_False, decide_True by lia. apply list_lookup_insert_eq. lia.
  - rewrite list_lookup_insert_ne by done. repeat case_decide; done || lia.
Qed.

(** [l] holds the nodes [ids], with the keys [kk] in increasing order. *)
Definition rep (l : SkipList Key) ids (kk : list Key) : Prop :=
  exists lv, sl_inv l lv /\ lv !! 0%nat = Some ids /\ map (fun x => node_keys (nodes l) !! x) ids = map Some kk.

(** What insertion does on sorted lists. *)
Definition insert_sorted (key : Key) (kk : list Key) : list Key :=
  List.filter (fun k => compare_ k key <? 0) kk ++ key :: List.filter (fun k => negb (compare_ k key <? 0)) kk.

Lemma keys_filter ks key (f : bool -> bool) ids kk :
  map (fun x => ks !! x) ids = map Some kk ->
  map (fun x => ks !! x) (List.filter (fun x => f (before ks key x)) ids) = map Some (List.filter (fun k => f (compare_ k key <? 0)) kk).
Proof.
  revert kk. induction ids as [|x ids IH]; intros [|k kk]; try done. cbn [map]. intros [= Hx H].
  cbn [List.filter]. unfold before at 1. rewrite Hx. destruct (f _); cbn [map]; rewrite (IH kk H); [by rewrite Hx|done].
Qed.

Lemma rep_key l ids kk y ky :
  map (fun x => node_keys (nodes l) !! x) ids = map Some kk -> y ∈ ids -> node_keys (nodes l) !! y = Some ky -> ky ∈ kk.
Proof.
  intros Hk Hy Hky. apply list_elem_of_In in Hy. apply (in_map (fun x => node_keys (nodes l) !! x)) in Hy. rewrite Hk, Hky in Hy.
  apply in_map_iff in Hy as (k & [= ->] & Hin). by apply list_elem_of_In.
Qed.

Lemma NewSkipList_rep : rep (NewSkipList zero) [] [].
Proof.
  exists (repeat [] kMaxHeight). split_and!; [|done|done].
  assert (Hnil : forall h ids, repeat (A := list nat) [] kMaxHeight !! h = Some ids -> ids = [] /\ (h < kMaxHeight)%nat).
  { intros h ids H. split; [|apply lookup_lt_Some in H; by rewrite repeat_length in H].
    apply (list_elem_of_lookup_2 _ h), list_elem_of_In, repeat_spec in H. done. }
  split; [split|split; [simpl; lia|unfold kMaxHeight; simpl; lia]|].
  - done.
  - intros h ids [-> Hh]%Hnil. cbn. unfold Node_Next. cbn [NewSkipList NewNode nodes lookup list_lookup head_ mbind option_bind next_ app].
    unfold kMaxHeight in Hh. do 12 (destruct h as [|h]; [done|]). lia.
  - intros h up down [-> _]%Hnil [-> _]%Hnil. done.
  - intros ids [-> _]%Hnil. constructor.
  - intros ids x [-> _]%Hnil H. by apply elem_of_nil in H.
  - intros h ids _ [-> _]%Hnil. done.
Qed.

(** The array of predecessors that [Insert] links with. *)
Lemma Insert_prev l lv key height h ids :
  sl_inv l lv -> (height <= kMaxHeight)%nat -> (h < height)%nat -> lv !! h = Some ids ->
  let g := before (node_keys (nodes l)) key in
  let prev := map Some (map (left_at g) (take (max_height_ l) lv)) ++ drop (max_height_ l) (repeat None kMaxHeight) in
  (if (max_height_ l <? height)%nat then prev_head (height - max_height_ l) (max_height_ l) prev else prev) !! h = Some (Some (left_at g ids)).
Proof.
  intros Hinv Hle Hh Hl g prev. pose proof (sl_height _ _ Hinv) as Hmh. pose proof (wf_levels _ _ (sl_wf _ _ Hinv)) as Hll.
  assert (Hlen : length prev = kMaxHeight).
  { unfold prev. rewrite length_app, !length_map, length_take, length_drop, repeat_length. lia. }
  assert (Hlow : (h < max_height_ l)%nat -> prev !! h = Some (Some (left_at g ids))).
  { intros Hlt. unfold prev. rewrite lookup_app_l by (rewrite !length_map, length_take; lia).
    rewrite !lookup_map, lookup_take_lt, Hl by done. done. }
  destruct (Nat.ltb_spec (max_height_ l) height); [|apply Hlow; lia].
  rewrite prev_head_lookup by lia. case_decide; [|apply Hlow; lia].
  rewrite (sl_above _ _ Hinv h ids) by (done || lia). done.
Qed.

(** The new node does not change which nodes come before the key. *)
Lemma filter_NewNode ns lv nd key (f : bool -> bool) h ids :
  wf ns lv -> lv !! h = Some ids ->
  List.filter (fun y => f (before (node_keys (ns ++ [nd])) key y)) ids = List.filter (fun y => f (before (node_keys ns) key y)) ids.
Proof.
  intros Hwf H. apply filter_ext_in. intros y Hy%list_elem_of_In. f_equal. unfold node_keys. rewrite map_app.
  apply before_app. rewrite length_map. by apply (level_nodes Hwf h ids).
Qed.

Lemma ins_NewNode ns lv nd key x h ids :
  wf ns lv -> lv !! h = Some ids -> ins (before (node_keys (ns ++ [nd])) key) x ids = ins (before (node_keys ns) key) x ids.
Proof.
  intros Hwf H. unfold ins. f_equal; [by apply (filter_NewNode ns lv nd key id h)|]. f_equal. by apply (filter_NewNode ns lv nd key negb h).
Qed.

Lemma Insert_links l lv key height prev :
  sl_inv l lv -> (height <= kMaxHeight)%nat ->
  (forall ids y ky, lv !! 0%nat = Some ids -> y ∈ ids -> node_keys (nodes l) !! y = Some ky -> compare_ ky key <> 0) ->
  (forall h ids, (h < height)%nat -> lv !! h = Some ids ->
    prev !! h = Some (Some (left_at (before (node_keys (nodes l)) key) ids))) ->
  let ns := nodes l ++ [MkNode key (repeat None height)] in
  exists ns', link_levels height 0 ns prev (length (nodes l)) = Some ns' /\ node_keys ns' = node_keys (nodes l) ++ [key] /\
    wf ns' (linked (before (node_keys ns) key) (length (nodes l)) height lv).
Proof.
  intros Hinv Hle Hne Hp ns. pose proof (sl_wf _ _ Hinv) as Hwf. set (x := length (nodes l)).
  assert (Hks : node_keys ns = node_keys (nodes l) ++ [key]) by (unfold node_keys, ns; by rewrite map_app).
  assert (Hlks : length (node_keys (nodes l)) = x) by (unfold node_keys; by rewrite length_map).
  pose proof (wf_NewNode _ _ (MkNode key (repeat None height)) Hwf) as Hwf1. fold ns in Hwf1.
  destruct (level_some Hwf 0) as [ids0 H0]; [unfold kMaxHeight; lia|].
  destruct (link_levels_spec Hwf1 key x) with (n := height) (i := 0%nat) (ns1 := ns) (prev := prev) as (ns2 & E & Hk2 & Hl2 & Hwf2).
  - rewrite Hks. by rewrite list_lookup_middle.
  - pose proof (level_length Hwf _ _ H0). unfold x, head_. lia.
  - intros i Hi Hin. apply (level_nodes Hwf _ _ _ Hi) in Hin as [_ Hin]. unfold x in Hin. lia.
  - intros i y ky Hi Hy Hky. rewrite Hks in Hky.
    rewrite lookup_app_l in Hky by (rewrite Hlks; by apply (level_nodes Hwf _ _ _ Hi)). by apply (Hne i y ky).
  - done.
  - done.
  - done.
  - lia.
  - intros h i Hh Hi. split.
    + rewrite (Hp h i) by (done || lia). unfold left_at. do 3 f_equal. symmetry. by apply (filter_NewNode (nodes l) lv _ key id h).
    + unfold Node_Next, ns, x. rewrite list_lookup_middle by done. cbn. apply lookup_lt_is_Some_2. rewrite repeat_length. lia.
  - exists ns2. split_and!; [done|by rewrite Hk2|done].
Qed.

Lemma rep_ins l lv ids kk key :
  wf (nodes l) lv -> lv !! 0%nat = Some ids -> map (fun x => node_keys (nodes l) !! x) ids = map Some kk ->
  map (fun x => (node_keys (nodes l) ++ [key]) !! x) (ins (before (node_keys (nodes l)) key) (length (nodes l)) ids) =
    map Some (insert_sorted key kk).
Proof.
  intros Hwf H0 Hk. assert (Hlks : length (node_keys (nodes l)) = length (nodes l)) by (unfold node_keys; by rewrite length_map).
  unfold ins, insert_sorted. rewrite !map_app. cbn [map]. rewrite list_lookup_middle by done.
  assert (Hmap : forall f, map (fun y => (node_keys (nodes l) ++ [key]) !! y) (List.filter f ids) = map (fun y => node_keys (nodes l) !! y) (List.filter f ids)).
  { intros f. apply map_ext_in. intros y [Hy%list_elem_of_In _]%filter_In. apply lookup_app_l. rewrite Hlks. by apply (level_nodes Hwf _ _ _ H0). }
  rewrite !Hmap. f_equal; [by apply (keys_filter _ key id)|]. f_equal. by apply (keys_filter _ key negb).
Qed.

Lemma Insert_prepare_spec l lv key :
  sl_inv l lv ->
  exists prev height mh rnd,
    Insert_prepare compare_ l key = Some (prev, height, mh, rnd, length (nodes l), nodes l ++ [MkNode key (repeat None height)]) /\
    (1 <= height <= kMaxHeight)%nat /\ mh = Nat.max (max_height_ l) height /\
    forall h ids, (h < height)%nat -> lv !! h = Some ids -> prev !! h = Some (Some (left_at (before (node_keys (nodes l)) key) ids)).
Proof.
  intros Hinv. unfold Insert_prepare.
  destruct (FindGreaterOrEqual_spec l lv key (Some (repeat None kMaxHeight)) Hinv) as (ids0 & _ & ->).
  { by intros p [= <-]. }
  cbn [fmap option_fmap option_map mbind option_bind]. pose proof (RandomHeight_range (rnd_ l)) as Hrh.
  destruct (RandomHeight (rnd_ l)) as [height rnd]. cbn [fst] in Hrh.
  pose proof (fun h ids => Insert_prev l lv key height h ids Hinv) as Hprev. cbn zeta in Hprev.
  destruct (Nat.ltb_spec (max_height_ l) height); cbn [NewNode]; eexists _, _, _, _; (split; [done|]); (split; [done|]);
    (split; [lia|]); intros h ids Hh Hl; apply Hprev; done || lia.
Qed.

Lemma Insert_spec l ids kk key :
  rep l ids kk -> (forall k, k ∈ kk -> compare_ k key <> 0) ->
  exists l', Insert compare_ l key = Some l' /\ rep l' (ins (before (node_keys (nodes l)) key) (length (nodes l)) ids) (insert_sorted key kk).
Proof.
  intros (lv & Hinv & H0 & Hk) Hne. pose proof (sl_wf _ _ Hinv) as Hwf. pose proof (sl_height _ _ Hinv) as Hmh.
  unfold Insert. destruct (Insert_prepare_spec l lv key Hinv) as (prev & height & mh & rnd & -> & Hh & -> & Hp).
  destruct (Insert_links l lv key height prev Hinv) as (ns' & E & Hk' & Hwf'); [lia| |done|].
  { intros i y ky Hi Hy Hky. rewrite H0 in Hi. injection Hi as <-. apply Hne. by eapply rep_key. }
  cbn [mbind option_bind]. rewrite E. cbn [mbind option_bind]. eexists. split; [done|].
  pose proof (wf_levels _ _ Hwf) as Hll. eexists. split_and!; [split; [exact Hwf'|..]| |].
  - cbn [max_height_]. lia.
  - cbn [max_height_ nodes]. intros h i Hhi. rewrite linked_lookup, decide_False by lia. apply (sl_above _ _ Hinv). lia.
  - rewrite linked_lookup, decide_True by lia. rewrite H0. cbn. f_equal. by apply (ins_NewNode (nodes l) lv _ key _ 0%nat).
  - cbn [nodes]. rewrite Hk'. by apply (rep_ins l lv).
Qed.

(** * The list as a sorted sequence *)

Section rep.
Context {l : SkipList Key} {ids : list nat} {kk : list Key} (Hrep : rep l ids kk).

Lemma rep_lookup i : (x ← ids !! i; node_keys (nodes l) !! x) = kk !! i.
Proof.
  destruct Hrep as (lv & _ & _ & Hk). apply (f_equal (fun m => m !! i)) in Hk. rewrite !lookup_map in Hk.
  destruct (ids !! i) as [x|], (kk !! i) as [k|]; cbn in *; congruence.
Qed.

Lemma rep_length : length ids = length kk.
Proof. destruct Hrep as (lv & _ & _ & Hk). apply (f_equal length) in Hk. by rewrite !length_map in Hk. Qed.

Lemma rep_key_at i : Iterator_key l (ids !! i) = kk !! i.
Proof.
  rewrite <-rep_lookup. unfold Iterator_key. destruct (ids !! i) as [x|]; cbn; [|done].
  rewrite node_keys_lookup. by destruct (nodes l !! x).
Qed.

Lemma rep_SeekToFirst : Iterator_SeekToFirst l = Some (ids !! 0%nat).
Proof.
  destruct Hrep as (lv & Hinv & H0 & _). pose proof (wf_chain _ _ (sl_wf _ _ Hinv) _ _ H0) as Hc.
  unfold Iterator_SeekToFirst. rewrite (chain_next _ _ _ _ Hc). by destruct ids.
Qed.

Lemma rep_Next i x : ids !! i = Some x -> Iterator_Next l (Some x) = Some (ids !! S i).
Proof.
  destruct Hrep as (lv & Hinv & H0 & _). pose proof (wf_chain _ _ (sl_wf _ _ Hinv) _ _ H0) as Hc. intros Hx.
  cbn. rewrite <-(take_drop_middle ids i x Hx), cons_middle, app_assoc in Hc. apply chain_app, chain_next in Hc.
  rewrite last_snoc in Hc. cbn in Hc. rewrite Hc. f_equal. 
  replace (ids !! S i) with (drop (S i) ids !! 0%nat) by (rewrite lookup_drop; f_equal; lia). by destruct (drop (S i) ids).
Qed.

Lemma before_keys key (f : bool -> bool) :
  length (List.filter (fun x => f (before (node_keys (nodes l)) key x)) ids) = length (List.filter (fun k => f (compare_ k key <? 0)) kk).
Proof.
  destruct Hrep as (lv & _ & _ & Hk). apply (keys_filter _ key f), (f_equal length) in Hk. by rewrite !length_map in Hk.
Qed.

Lemma rep_sorted : StronglySorted (fun k1 k2 => compare_ k1 k2 < 0) kk.
Proof.
  destruct Hrep as (lv & Hinv & H0 & Hk). pose proof (wf_sorted _ _ (sl_wf _ _ Hinv) _ H0) as Hs. clear -Hs Hk.
  revert kk Hk. induction Hs as [|x ids Hs IH Hx]; intros [|k kk]; try done; [constructor|]. cbn. intros [= Hxk Hk].
  constructor; [by apply IH|]. clear -Hx Hk Hxk. revert kk Hk. induction Hx as [|y ids Hxy Hx IH]; intros [|k' kk]; try done; constructor.
  - destruct Hxy as (k1 & k2 & H1 & H2 & Hlt). cbn in Hk. injection Hk as Hy _. rewrite H1 in Hxk. rewrite H2 in Hy. by simplify_eq.
  - apply IH. cbn in Hk. by injection Hk.
Qed.

Lemma rep_split key : ids = lts (node_keys (nodes l)) key ids ++ ges (node_keys (nodes l)) key ids.
Proof. destruct Hrep as (lv & Hinv & H0 & _). by apply split_level, (wf_sorted _ _ (sl_wf _ _ Hinv)). Qed.

Lemma rep_Seek key : Iterator_Seek compare_ l key = Some (ids !! length (List.filter (fun k => compare_ k key <? 0) kk)).
Proof.
  pose proof Hrep as (lv & Hinv & H0 & _). unfold Iterator_Seek.
  destruct (FindGreaterOrEqual_spec l lv key None Hinv) as (ids0 & H0' & ->); [done|]. rewrite H0 in H0'. injection H0' as <-.
  cbn. f_equal. pose proof (before_keys key id : length (lts (node_keys (nodes l)) key ids) = length (List.filter (fun k => compare_ k key <? 0) kk)) as <-.
  rewrite (rep_split key) at 3.
  rewrite lookup_app_r, Nat.sub_diag by lia. by destruct (ges (node_keys (nodes l)) key ids).
Qed.

Lemma rep_not_head a b : ids = a ++ b -> not_head (last_or_head a) = last a.
Proof.
  intros E. unfold not_head, last_or_head. destruct (last a) as [x|] eqn:El; cbn; [|done]. rewrite decide_False; [done|].
  destruct Hrep as (lv & Hinv & H0 & _). apply (level_nodes (sl_wf _ _ Hinv) _ _ _ H0). rewrite E. apply elem_of_app. left.
  apply last_Some in El as [l' ->]. apply elem_of_app. right. apply list_elem_of_here.
Qed.

Lemma rep_SeekToLast : Iterator_SeekToLast l = Some (last ids).
Proof.
  pose proof Hrep as (lv & Hinv & H0 & _). unfold Iterator_SeekToLast.
  destruct (FindLast_spec l lv Hinv) as (ids0 & H0' & ->). rewrite H0 in H0'. injection H0' as <-. cbn. f_equal.
  apply (rep_not_head ids []). by rewrite app_nil_r.
Qed.

Lemma rep_Prev i x : ids !! i = Some x -> Iterator_Prev compare_ l (Some x) = Some (last (take i ids)).
Proof.
  intros Hx. pose proof Hrep as (lv & Hinv & H0 & _). unfold Iterator_Prev. rewrite <-Hx, rep_key_at.
  destruct (lookup_lt_is_Some_2 kk i) as [k Hk]; [rewrite <-rep_length; by eapply lookup_lt_Some|]. rewrite Hk. cbn [mbind option_bind].
  destruct (FindLessThan_spec l lv k Hinv) as (ids0 & H0' & ->). rewrite H0 in H0'. injection H0' as <-. cbn [mbind option_bind]. f_equal.
  pose proof (rep_lookup i) as Hxk. rewrite Hx, Hk in Hxk. cbn in Hxk.
  pose proof (wf_sorted _ _ (sl_wf _ _ Hinv) _ H0) as Hs. pose proof (take_drop_middle ids i x Hx) as E. rewrite <-E in Hs.
  assert (List.filter (before (node_keys (nodes l)) k) ids = take i ids) as Ef.
  { rewrite <-E at 1. apply (filter_split_at (nodes l)); [apply before_pulls|done| |].
    - apply Forall_forall. intros y Hy. destruct (StronglySorted_app_1_elem_of _ _ _ y x Hs Hy (list_elem_of_here _ _)) as (ky & kx & Hky & Hkx & Hlt).
      unfold before. rewrite Hky. rewrite Hxk in Hkx. injection Hkx as <-. by apply Z.ltb_lt.
    - unfold before. rewrite Hxk. apply Z.ltb_nlt, key_irrefl. }
  unfold left_at. rewrite Ef. apply (rep_not_head _ (drop i ids)). by rewrite take_drop.
Qed.

Lemma existsb_none (f : Key -> bool) (m : list Key) : (forall k, k ∈ m -> f k = false) -> existsb f m = false.
Proof.
  induction m as [|k m IH]; intros H; [done|]. cbn. rewrite H by apply list_elem_of_here. apply IH. intros k' Hk'. apply H. by apply list_elem_of_further.
Qed.

(** The first key that is not less than [key] is the only one that can equal it. *)
Lemma Contains_first key : existsb (Equal compare_ key) kk =
  match kk !! length (List.filter (fun k => compare_ k key <? 0) kk) with Some k => Equal compare_ key k | None => false end.
Proof.
  pose proof rep_sorted as Hs. clear Hrep. induction Hs as [|k kk' Hs IH Hk]; [done|]. cbn [existsb List.filter].
  destruct (Z.ltb_spec (compare_ k key) 0) as [Hlt|Hge]; cbn [length].
  - change ((k :: kk') !! S (length (List.filter (fun k0 => compare_ k0 key <? 0) kk'))) with (kk' !! length (List.filter (fun k0 => compare_ k0 key <? 0) kk')).
    rewrite <-IH. unfold Equal at 1. apply key_antisym in Hlt. destruct (Z.eqb_spec (compare_ key k) 0); [lia|done].
  - assert (Hlater : forall k', k' ∈ kk' -> compare_ key k' < 0).
    { intros k' Hin. rewrite Forall_forall in Hk. destruct (decide (compare_ k key = 0)) as [E|Hne].
      - apply (key_eq_lt key k k'); [|by apply Hk]. pose proof (key_antisym key k). pose proof (key_antisym k key). lia.
      - apply (key_trans _ k); [apply key_antisym; lia|by apply Hk]. }
    rewrite (existsb_none _ kk'), filter_none; cbn; [by rewrite orb_false_r| |].
    + intros k' Hin%Hlater%key_antisym. apply Z.ltb_nlt. lia.
    + intros k' Hin%Hlater. unfold Equal. apply Z.eqb_neq. lia.
Qed.

Lemma rep_Contains key : Contains compare_ l key = Some (existsb (Equal compare_ key) kk).
Proof.
  rewrite Contains_first. pose proof (rep_Seek key) as Hs. unfold Iterator_Seek in Hs. unfold Contains.
  destruct (FindGreaterOrEqual compare_ l key None) as [[x p]|]; [|done]. cbn in Hs |- *. injection Hs as Hx.
  rewrite <-rep_key_at, <-Hx. unfold Iterator_key. destruct x as [x|]; cbn; [|done].
  pose proof (rep_lookup (length (List.filter (fun k => compare_ k key <? 0) kk))) as Hl. rewrite <-Hx in Hl. cbn in Hl.
  rewrite node_keys_lookup in Hl. destruct (nodes l !! x) as [nd|]; [done|]. cbn in Hl. symmetry in Hl.
  apply lookup_ge_None_1 in Hl. symmetry in Hx. apply lookup_lt_Some in Hx. rewrite rep_length in Hx. lia.
Qed.
End rep.

(** * Sequences of insertions *)

Fixpoint insert_all (keys : list Key) (l : SkipList Key) : option (SkipList Key) :=
  match keys with
  | [] => Some l
  | key :: keys => l ← Insert compare_ l key; insert_all keys l
  end.

(** No two of the keys compare equal, as [Insert] requires. *)
Fixpoint distinct (keys : list Key) : Prop :=
  match keys with
  | [] => True
  | key :: keys => (forall k, k ∈ keys -> compare_ key k <> 0) /\ distinct keys
  end.

Lemma insert_sorted_perm key kk : insert_sorted key kk ≡ₚ key :: kk.
Proof.
  unfold insert_sorted. rewrite Permutation_app_comm. cbn. constructor. induction kk as [|k kk IH]; [done|]. cbn.
  destruct (compare_ k key <? 0); cbn; [rewrite Permutation_app_comm; cbn; rewrite Permutation_app_comm|]; by rewrite IH.
Qed.

Lemma insert_all_spec keys l ids kk :
  rep l ids kk -> distinct keys -> (forall k k', k ∈ kk -> k' ∈ keys -> compare_ k k' <> 0) ->
  exists l' ids' kk', insert_all keys l = Some l' /\ rep l' ids' kk' /\ kk' ≡ₚ keys ++ kk.
Proof.
  revert l ids kk. induction keys as [|key keys IH]; intros l ids kk Hrep Hd Hne; [by exists l, ids, kk|].
  destruct Hd as [Hd1 Hd2]. destruct (Insert_spec l ids kk key Hrep) as (l1 & E & Hrep1).
  { intros k Hk. apply Hne; [done|apply list_elem_of_here]. }
  cbn [insert_all]. rewrite E. cbn [mbind option_bind].
  destruct (IH l1 _ _ Hrep1 Hd2) as (l' & ids' & kk' & E' & Hrep' & Hp).
  { intros k k' Hk Hk'. rewrite insert_sorted_perm in Hk. apply elem_of_cons in Hk as [->|Hk]; [by apply Hd1|].
    apply Hne; [done|by apply list_elem_of_further]. }
  exists l', ids', kk'. split_and!; [done|done|]. rewrite Hp, insert_sorted_perm. cbn. by rewrite Permutation_middle.
Qed.

(** C16. A skip list is a sorted set with iterators.  After any sequence of [Insert]s of keys that are pairwise
    different, on the nodes and pointers, the list holds exactly the keys, in increasing order, and an iterator is a
    position in it: every search ends within its fuel and reads only pointers that exist; [SeekToFirst],
    [SeekToLast], [Next] and [Prev] move by one position, [Seek] goes to the first key that is not less than the
    target, and [Contains] is membership. *)
Theorem skiplist_refines_sorted_list keys :
  distinct keys ->
  exists l ids kk, insert_all keys (NewSkipList zero) = Some l /\ kk ≡ₚ keys /\ length ids = length kk /\
    StronglySorted (fun k1 k2 => compare_ k1 k2 < 0) kk /\
    (forall i, Iterator_key l (ids !! i) = kk !! i) /\
    Iterator_SeekToFirst l = Some (ids !! 0%nat) /\
    Iterator_SeekToLast l = Some (last ids) /\
    (forall i x, ids !! i = Some x -> Iterator_Next l (Some x) = Some (ids !! S i)) /\
    (forall i x, ids !! i = Some x -> Iterator_Prev compare_ l (Some x) = Some (last (take i ids))) /\
    (forall key, Iterator_Seek compare_ l key = Some (ids !! length (List.filter (fun k => compare_ k key <? 0) kk))) /\
    (forall key, Contains compare_ l key = Some (existsb (Equal compare_ key) kk)).
Proof.
  intros Hd. destruct (insert_all_spec keys _ _ _ NewSkipList_rep Hd) as (l & ids & kk & E & Hrep & Hp).
  { intros k k' H. by apply elem_of_nil in H. }
  rewrite app_nil_r in Hp. exists l, ids, kk.
  split_and!; eauto using rep_length, rep_sorted, rep_key_at, rep_SeekToFirst, rep_SeekToLast, rep_Next, rep_Prev, rep_Seek,
    rep_Contains.
Qed.

(** * A reader during an insertion *)

(** A reader in the loop of [FindGreaterOrEqual], or with its result. *)
Inductive reader := Searching (x level : nat) | Found (next : ptr).

(** One iteration of the loop. *)
Definition reader_step ns (key : Key) (x level : nat) : option reader :=
  next ← Node_Next ns x level;
  after ← KeyIsAfterNode compare_ ns key next;
  if (after : bool) then n ← next; Some (Searching n level)
  else match level with O => Some (Found next) | S level => Some (Searching x level) end.

Lemma FindGreaterOrEqual_steps fuel ns key x level :
  FindGreaterOrEqual_loop compare_ (S fuel) ns key x level None =
    r ← reader_step ns key x level;
    match r with
    | Searching x level => FindGreaterOrEqual_loop compare_ fuel ns key x level None
    | Found next => Some (next, None)
    end.
Proof.
  unfold reader_step. cbn [FindGreaterOrEqual_loop]. destruct (Node_Next ns x level) as [[n|]|]; [| |done]; cbn [mbind option_bind].
  - destruct (KeyIsAfterNode compare_ ns key (Some n)) as [[]|]; [done| |done]. by destruct level.
  - by destruct level.
Qed.

(** The nodes, how many levels the writer has linked, whether it has stored the pointer of the new node on the next
    one, and the reader. *)
Record world := World { w_nodes : list (Node Key); w_level : nat; w_half : bool; w_reader : reader }.

(** The stores of [Insert] on the [height] levels of the new node [x], interleaved with the steps of a reader that
    looks for [key]. *)
Inductive world_step (prev : list ptr) (x height : nat) (key : Key) : world -> world -> Prop :=
| step_reader ns i half y level r :
    reader_step ns key y level = Some r ->
    world_step prev x height key (World ns i half (Searching y level)) (World ns i half r)
| step_store_new ns ns' i p next r :
    (i < height)%nat -> prev !! i = Some (Some p) -> Node_Next ns p i = Some next -> Node_SetNext ns x i next = Some ns' ->
    world_step prev x height key (World ns i false r) (World ns' i true r)
| step_store_prev ns ns' i p r :
    (i < height)%nat -> prev !! i = Some (Some p) -> Node_SetNext ns p i (Some x) = Some ns' ->
    world_step prev x height key (World ns i true r) (World ns' (S i) false r).

(** The reader is at the head, or at a node of its level that is before its key. *)
Definition reader_ok ns lv (key : Key) (r : reader) : Prop :=
  match r with
  | Searching y level => exists ids, lv !! level = Some ids /\ (y = head_ \/ (y ∈ ids /\ before (node_keys ns) key y = true))
  | Found _ => True
  end.

Lemma reader_split ns lv key y level ids :
  wf ns lv -> lv !! level = Some ids -> (y = head_ \/ (y ∈ ids /\ before (node_keys ns) key y = true)) ->
  exists a b, ids = a ++ b /\ last_or_head a = y /\ Forall (fun z => before (node_keys ns) key z = true) a.
Proof.
  intros Hwf Hl [->|[Hy Hb]]; [by exists [], ids|]. apply list_elem_of_split in Hy as (a & b & ->).
  exists (a ++ [y]), b. rewrite <-app_assoc, last_or_head_snoc. split_and!; [done|done|]. apply Forall_app. split; [|by repeat constructor].
  apply Forall_forall. intros z Hz. apply (id_lt_before _ _ z y); [|done]. apply (level_sorted Hwf) in Hl.
  eapply StronglySorted_app_1_elem_of; [done|done|apply list_elem_of_here].
Qed.

Lemma reader_step_spec ns lv key y level :
  wf ns lv -> reader_ok ns lv key (Searching y level) ->
  exists r, reader_step ns key y level = Some r /\ reader_ok ns lv key r /\
    forall next ids0, r = Found next -> lv !! 0%nat = Some ids0 -> next = head (ges (node_keys ns) key ids0).
Proof.
  intros Hwf (ids & Hl & Hy). destruct (reader_split ns lv key y level ids Hwf Hl Hy) as (a & b & -> & <- & Ha).
  pose proof (chain_next _ _ _ _ (chain_app _ _ _ _ _ (wf_chain _ _ Hwf _ _ Hl))) as Hn. fold (last_or_head a) in Hn.
  unfold reader_step. rewrite Hn. cbn [mbind option_bind].
  assert (Hstop : match b with z :: _ => before (node_keys ns) key z = false | [] => True end ->
    exists r, match level with O => Some (Found (head b)) | S level => Some (Searching (last_or_head a) level) end = Some r /\
      reader_ok ns lv key r /\ forall next ids0, r = Found next -> lv !! 0%nat = Some ids0 -> next = head (ges (node_keys ns) key ids0)).
  { intros Hb. destruct level as [|level]; eexists; (split; [done|]).
    - split; [done|]. intros next ids0 [= <-] H0. rewrite Hl in H0. injection H0 as <-. f_equal. symmetry.
      apply (filter_split_at ns); [apply before_pulls|by apply (level_sorted Hwf 0)|done|done].
    - split; [|done]. destruct (descend ns lv (before (node_keys ns) key) level a b Hwf (before_pulls ns key) Hl Ha) as (a' & b' & Hl' & Ha' & <-).
      exists (a' ++ b'). split; [done|]. destruct a' as [|w a' _] using rev_ind; [by left|right]. rewrite last_or_head_snoc. split.
      + apply elem_of_app. left. apply elem_of_app. right. apply list_elem_of_here.
      + apply Forall_app in Ha' as [_ Hw]. by rewrite Forall_singleton in Hw. }
  destruct b as [|z b]; cbn [head]; [by apply Hstop|].
  assert (Hz : z ∈ a ++ z :: b) by (apply elem_of_app; right; apply list_elem_of_here).
  rewrite KeyIsAfterNode_before by (by apply (level_nodes Hwf level (a ++ z :: b))). cbn [mbind option_bind].
  destruct (before (node_keys ns) key z) eqn:Eb; [|by apply Hstop].
  eexists. split; [done|]. split; [|done]. eexists. split; [done|]. by right.
Qed.

Lemma elem_of_ins g x y ids : y ∈ ids -> y ∈ ins g x ids.
Proof.
  intros Hy. unfold ins. rewrite elem_of_app, elem_of_cons, !list_elem_of_In, !filter_In, <-list_elem_of_In.
  destruct (g y) eqn:E; [by left|by right; right].
Qed.

(** The nodes that the reader stands on stay on their levels while the writer links. *)
Lemma reader_ok_linked ns ns' g x i lv key r :
  (S i <= length lv)%nat -> node_keys ns' = node_keys ns ->
  reader_ok ns (linked g x i lv) key r -> reader_ok ns' (linked g x (S i) lv) key r.
Proof.
  intros Hi Hk. destruct r as [y level|]; [|done]. intros (ids & Hl & Hy). unfold reader_ok. rewrite Hk.
  rewrite linked_lookup in Hl by lia. setoid_rewrite linked_lookup; [|done]. case_decide.
  - rewrite decide_True by lia. by exists ids.
  - rewrite Hl. case_decide; [|by exists ids]. exists (ins g x ids). split; [done|]. destruct Hy as [|[Hy Hb]]; [by left|right].
    split; [by apply elem_of_ins|done].
Qed.

(** The invariant of an insertion of [x] with a reader: [lv] are the levels before it. *)
Record world_inv ns0 lv (g : nat -> bool) (x height : nat) (rkey : Key) (w : world) : Prop := {
  wi_level : (w_level w <= height)%nat;
  wi_wf : wf (w_nodes w) (linked g x (w_level w) lv);
  wi_keys : node_keys (w_nodes w) = node_keys ns0;
  wi_length : length (w_nodes w) = length ns0;
  wi_array h : (h < height)%nat -> is_Some (Node_Next (w_nodes w) x h);
  wi_half ids : w_half w = true -> lv !! w_level w = Some ids ->
    (w_level w < height)%nat /\ Node_Next (w_nodes w) x (w_level w) = Some (head (List.filter (fun y => negb (g y)) ids));
  wi_reader : reader_ok (w_nodes w) (linked g x (w_level w) lv) rkey (w_reader w);
}.

Section world.
Context {ns0 lv} (Hwf : wf ns0 lv) (key rkey : Key) (x height : nat) (prev : list ptr).
Let g := before (node_keys ns0) key.
Hypothesis (Hx : node_keys ns0 !! x = Some key) (Hxh : x <> head_) (Hfresh : forall ids, lv !! 0%nat = Some ids -> x ∉ ids).
Hypothesis (Hne : forall ids y ky, lv !! 0%nat = Some ids -> y ∈ ids -> node_keys ns0 !! y = Some ky -> compare_ ky key <> 0).
Hypothesis (Hheight : (height <= kMaxHeight)%nat).
Hypothesis (Hprev : forall h ids, (h < height)%nat -> lv !! h = Some ids -> prev !! h = Some (Some (left_at g ids))).

Lemma world_step_inv w w' : world_inv ns0 lv g x height rkey w -> world_step prev x height rkey w w' -> world_inv ns0 lv g x height rkey w'.
Proof.
  intros [H1 H2 H3 H4 H5 H6 H7] Hstep. pose proof (wf_levels _ _ Hwf) as Hll.
  destruct Hstep as [ns i half y level r E|ns ns' i p next r Hi Hp Hn E|ns ns' i p r Hi Hp E]; cbn [w_nodes w_level w_half w_reader] in *.
  - destruct (reader_step_spec ns _ rkey y level H2 H7) as (r' & E' & Hr & _). rewrite E in E'. injection E' as <-. by split.
  - destruct (level_some Hwf i) as [ids Hids]; [lia|]. rewrite (Hprev i ids Hi Hids) in Hp. injection Hp as <-.
    destruct (store_new Hwf key x Hx Hxh Hfresh Hne i ns ids H2 H3 H4 Hids (H5 i Hi)) as (Hn' & ns2 & E2 & Hk2 & Hl2 & Hwf2 & Hx2 & Hs2).
    fold g in Hn', E2, Hx2. rewrite Hn in Hn'. injection Hn' as ->. rewrite E in E2. injection E2 as <-.
    split; cbn [w_nodes w_level w_half w_reader]; try done.
    + intros h Hh. by apply Hs2, H5.
    + intros ids' _ Hids'. rewrite Hids in Hids'. by injection Hids' as <-.
    + destruct r; [|done]. unfold reader_ok in *. by rewrite Hk2, <-H3.
  - destruct (level_some Hwf i) as [ids Hids]; [lia|]. rewrite (Hprev i ids Hi Hids) in Hp. injection Hp as <-.
    destruct (H6 ids eq_refl Hids) as [_ Hx2].
    destruct (store_prev Hwf key x Hx Hxh Hfresh Hne i ns ids H2 H3 H4 Hids Hx2) as (ns3 & E3 & Hk3 & Hl3 & Hwf3 & Hs3).
    fold g in E3. rewrite E in E3. injection E3 as <-. split; cbn [w_nodes w_level w_half w_reader]; try done.
    + intros h Hh. by apply Hs3, H5.
    + eapply reader_ok_linked; [lia| |exact H7]. congruence.
Qed.

(** The writer can always go on. *)
Lemma world_writer w :
  world_inv ns0 lv g x height rkey w -> (w_level w < height)%nat ->
  exists ns' half, world_step prev x height rkey w (World ns' (if w_half w then S (w_level w) else w_level w) half (w_reader w)).
Proof.
  intros [H1 H2 H3 H4 H5 H6 H7] Hlt. destruct w as [ns i half r]; cbn [w_nodes w_level w_half w_reader] in *.
  destruct (level_some Hwf i) as [ids Hids]; [lia|]. destruct half.
  - destruct (store_prev Hwf key x Hx Hxh Hfresh Hne i ns ids H2 H3 H4 Hids) as (ns3 & E3 & _); [by apply H6|].
    exists ns3, false. eapply step_store_prev; [done|by apply Hprev|done].
  - destruct (store_new Hwf key x Hx Hxh Hfresh Hne i ns ids H2 H3 H4 Hids (H5 i Hlt)) as (Hn & ns2 & E2 & _).
    exists ns2, true. eapply step_store_new; [done|by apply Hprev|done|done].
Qed.
End world.

Lemma distinct_snoc keys key : distinct (keys ++ [key]) -> distinct keys /\ forall k, k ∈ keys -> compare_ k key <> 0.
Proof.
  induction keys as [|k keys IH]; intros H; [split; [done|]; intros k Hk; by apply elem_of_nil in Hk|].
  destruct H as [H1 [H2 H3]%IH]. split; [split; [|done]|].
  - intros k' Hk'. apply H1. apply elem_of_app. by left.
  - intros k' [->|Hk']%elem_of_cons; [|by apply H3]. apply H1, elem_of_app. right. apply list_elem_of_here.
Qed.

(** The lowest level of the nodes [ns] holds the keys [kk]. *)
Definition contents ns (kk : list Key) : Prop :=
  exists ids, chain ns 0 head_ ids /\ map (fun x => node_keys ns !! x) ids = map Some kk.

(** What a reader of the levels [lv] finds. *)
Lemma reader_result ns lv ids kk rkey y level :
  wf ns lv -> lv !! 0%nat = Some ids -> map (fun x => node_keys ns !! x) ids = map Some kk -> reader_ok ns lv rkey (Searching y level) ->
  exists r, reader_step ns rkey y level = Some r /\
    forall next, r = Found next -> (n ← next; node_keys ns !! n) = head (List.filter (fun k => negb (compare_ k rkey <? 0)) kk).
Proof.
  intros Hwf H0 Hk Hr. destruct (reader_step_spec ns lv rkey y level Hwf Hr) as (r & E & _ & Hf). exists r. split; [done|].
  intros next ->. rewrite (Hf next ids eq_refl H0). apply (keys_filter _ rkey negb) in Hk. fold (ges (node_keys ns) rkey ids) in Hk.
  destruct (ges (node_keys ns) rkey ids) as [|n b], (List.filter (fun k => negb (compare_ k rkey <? 0)) kk) as [|k kk']; try done.
  cbn in Hk |- *. by injection Hk.
Qed.

Lemma world_contents l lv ids kk key height w rkey :
  sl_inv l lv -> lv !! 0%nat = Some ids -> map (fun x => node_keys (nodes l) !! x) ids = map Some kk -> (height <= kMaxHeight)%nat ->
  let ns0 := nodes l ++ [MkNode key (repeat None height)] in
  world_inv ns0 lv (before (node_keys ns0) key) (length (nodes l)) height rkey w ->
  exists idsc, linked (before (node_keys ns0) key) (length (nodes l)) (w_level w) lv !! 0%nat = Some idsc /\
    map (fun x => node_keys (w_nodes w) !! x) idsc = map Some (if decide (w_level w = 0%nat) then kk else insert_sorted key kk).
Proof.
  intros Hinv H0 Hk Hh ns0 [H1 _ H3 _ _ _ _]. pose proof (sl_wf _ _ Hinv) as Hwf. pose proof (wf_levels _ _ Hwf) as Hll.
  rewrite linked_lookup by lia. rewrite H3. unfold ns0, node_keys at 2. rewrite map_app. fold (node_keys (nodes l)). cbn [map node_key].
  destruct (decide (w_level w = 0%nat)) as [->|Hne].
  - exists ids. split; [done|]. rewrite <-Hk. apply map_ext_in. intros y Hy%list_elem_of_In. apply lookup_app_l.
    unfold node_keys. rewrite length_map. by apply (level_nodes Hwf _ _ _ H0).
  - rewrite decide_True by lia. rewrite H0. cbn. eexists. split; [done|].
    rewrite (ins_NewNode (nodes l) lv _ key _ 0%nat) by done. by apply (rep_ins l lv).
Qed.

(** Every state of an insertion with a reader satisfies the invariant, and the writer can go on in it. *)
Lemma world_reach l lv key rkey prev height mh rnd x ns level w :
  sl_inv l lv ->
  (forall i y ky, lv !! 0%nat = Some i -> y ∈ i -> node_keys (nodes l) !! y = Some ky -> compare_ ky key <> 0) ->
  Insert_prepare compare_ l key = Some (prev, height, mh, rnd, x, ns) -> (level < kMaxHeight)%nat ->
  rtc (world_step prev x height rkey) (World ns 0 false (Searching head_ level)) w ->
  ns = nodes l ++ [MkNode key (repeat None height)] /\ (height <= kMaxHeight)%nat /\
  world_inv ns lv (before (node_keys ns) key) (length (nodes l)) height rkey w /\
  ((w_level w < height)%nat -> exists w', world_step prev x height rkey w w' /\ w_reader w' = w_reader w).
Proof.
  intros Hinv Hne Hprep Hlev Hrtc. pose proof (sl_wf _ _ Hinv) as Hwf.
  destruct (Insert_prepare_spec l lv key Hinv) as (prev' & height' & mh' & rnd' & E & Hh & _ & Hprev).
  rewrite Hprep in E. injection E as -> -> _ _ -> ->. set (ns0 := nodes l ++ [MkNode key (repeat None height')]) in *.
  pose proof (wf_NewNode _ _ (MkNode key (repeat None height')) Hwf : wf ns0 lv) as Hwf0.
  assert (Hks : node_keys ns0 = node_keys (nodes l) ++ [key]) by (unfold node_keys, ns0; by rewrite map_app).
  assert (Hlks : length (node_keys (nodes l)) = length (nodes l)) by (unfold node_keys; by rewrite length_map).
  assert (Hx : node_keys ns0 !! length (nodes l) = Some key) by (rewrite Hks; by apply list_lookup_middle).
  destruct (level_some Hwf level Hlev) as [ids Hids].
  assert (Hxh : length (nodes l) <> head_) by (pose proof (level_length Hwf _ _ Hids); unfold head_; lia).
  assert (Hfresh : forall i, lv !! 0%nat = Some i -> length (nodes l) ∉ i).
  { intros i Hi Hin. apply (level_nodes Hwf _ _ _ Hi) in Hin as [_ Hin]. lia. }
  assert (Hne0 : forall i y ky, lv !! 0%nat = Some i -> y ∈ i -> node_keys ns0 !! y = Some ky -> compare_ ky key <> 0).
  { intros i y ky Hi Hy Hky. rewrite Hks, lookup_app_l in Hky by (rewrite Hlks; by apply (level_nodes Hwf _ _ _ Hi)). by apply (Hne i y). }
  assert (Hprev0 : forall h i, (h < height')%nat -> lv !! h = Some i -> prev' !! h = Some (Some (left_at (before (node_keys ns0) key) i))).
  { intros h i Hhh Hi. rewrite (Hprev h i Hhh Hi). unfold left_at. do 3 f_equal. symmetry. by apply (filter_NewNode (nodes l) lv _ key id h). }
  assert (Hle : (height' <= kMaxHeight)%nat) by lia.
  assert (Hw : world_inv ns0 lv (before (node_keys ns0) key) (length (nodes l)) height' rkey w).
  { remember (World ns0 0 false (Searching head_ level)) as w0 eqn:Ew0.
    assert (world_inv ns0 lv (before (node_keys ns0) key) (length (nodes l)) height' rkey w0) as Hw0.
    { subst w0. split; cbn; try done; [lia| |exists ids; split; [done|by left]].
      intros h Hhh. unfold Node_Next, ns0. rewrite list_lookup_middle by done. cbn. apply lookup_lt_is_Some_2. rewrite repeat_length. lia. }
    clear Ew0. induction Hrtc as [|w0 w1 w2 Hstep _ IH]; [done|]. apply IH.
    by apply (world_step_inv Hwf0 key rkey _ height' prev' Hx Hxh Hfresh Hne0 Hle Hprev0 w0 w1). }
  split_and!; [done|done|done|]. intros Hlt.
  destruct (world_writer Hwf0 key rkey _ height' prev' Hx Hxh Hfresh Hne0 Hle Hprev0 w Hw Hlt) as (ns' & half & Hs). by eexists.
Qed.

(** C17. A reader that runs while a key is inserted sees the list before or after the insertion.  For any interleaving
    of the pointer stores of [Insert] with the iterations of [FindGreaterOrEqual] of a reader that started at the head
    on any level (so with the height of the list before or after the insertion), the lowest level always holds the
    keys without the new one until its first store is published and with it afterwards; the reader never meets a
    pointer it cannot follow; when it ends, its result is the first key not less than its target in the contents at
    that moment; and the writer is never blocked. *)
Theorem concurrent_reader_correct keys key rkey l prev height mh rnd x ns level w :
  distinct (keys ++ [key]) -> insert_all keys (NewSkipList zero) = Some l ->
  Insert_prepare compare_ l key = Some (prev, height, mh, rnd, x, ns) -> (level < kMaxHeight)%nat ->
  rtc (world_step prev x height rkey) (World ns 0 false (Searching head_ level)) w ->
  exists kk, kk ≡ₚ keys /\ StronglySorted (fun k1 k2 => compare_ k1 k2 < 0) kk /\
    let kc := if decide (w_level w = 0%nat) then kk else insert_sorted key kk in
    contents (w_nodes w) kc /\
    match w_reader w with
    | Searching y lev =>
        exists r, reader_step (w_nodes w) rkey y lev = Some r /\
          forall next, r = Found next ->
            (n ← next; node_keys (w_nodes w) !! n) = head (List.filter (fun k => negb (compare_ k rkey <? 0)) kc)
    | Found _ => True
    end /\
    ((w_level w < height)%nat -> exists w', world_step prev x height rkey w w' /\ w_reader w' = w_reader w).
Proof.
  intros [Hd Hnew]%distinct_snoc Hl Hprep Hlev Hrtc.
  destruct (insert_all_spec keys _ _ _ NewSkipList_rep Hd) as (l' & ids & kk & E & Hrep & Hp).
  { intros k k' H. by apply elem_of_nil in H. }
  rewrite app_nil_r in Hp. rewrite Hl in E. injection E as <-. exists kk. split; [done|]. split; [by eapply rep_sorted|].
  pose proof Hrep as (lv & Hinv & H0 & Hk).
  destruct (world_reach l lv key rkey prev height mh rnd x ns level w Hinv) as (-> & Hh & Hw & Hwr); try done.
  { intros i y ky Hi Hy Hky. rewrite H0 in Hi. injection Hi as <-. apply Hnew. rewrite <-Hp. by eapply rep_key. }
  destruct (world_contents l lv ids kk key height w rkey Hinv H0 Hk Hh Hw) as (idsc & Hc & Hkc).
  cbn zeta. split_and!; [|destruct (w_reader w) as [y lev|] eqn:Er; [|done]|done].
  - exists idsc. split; [|done]. by apply (wf_chain _ _ (wi_wf _ _ _ _ _ _ _ Hw)).
  - apply (reader_result _ _ idsc _ _ _ _ (wi_wf _ _ _ _ _ _ _ Hw) Hc Hkc). rewrite <-Er. apply Hw.
Qed.
End SkipListProofs.

(** Integers with their difference as the comparison. *)
#[export] Instance Z_key_order : KeyOrder Z.sub.
Proof. split; lia. Qed.

Ltac small_distinct :=
  cbn; split_and!; try exact I; intros k Hk; repeat (apply elem_of_cons in Hk as [->|Hk]; [lia|]); by apply elem_of_nil in Hk.

Lemma skiplist_refines_sorted_list_witness :
  exists l (ids : list nat) kk, insert_all Z.sub [5; 1; 9; 3] (NewSkipList 0) = Some l /\ kk ≡ₚ [5; 1; 9; 3] /\ length ids = length kk /\
    Contains Z.sub l 9 = Some (existsb (Equal Z.sub 9) kk).
Proof.
  destruct (skiplist_refines_sorted_list 0 Z.sub [5; 1; 9; 3]) as (l & ids & kk & H1 & H2 & H3 & _ & _ & _ & _ & _ & _ & _ & H4).
  - small_distinct.
  - exists l, ids, kk. split_and!; [exact H1|exact H2|exact H3|]. apply H4.
Defined.

Lemma concurrent_reader_correct_witness :
  exists kk l prev height mh rnd x ns, insert_all Z.sub [5; 1] (NewSkipList 0) = Some l /\
    Insert_prepare Z.sub l 3 = Some (prev, height, mh, rnd, x, ns) /\ kk ≡ₚ [5; 1] /\ contents ns kk.
Proof.
  assert (Hd : distinct Z.sub ([5; 1] ++ [3])) by small_distinct.
  destruct (insert_all Z.sub [5; 1] (NewSkipList 0)) as [l|] eqn:El; [|vm_compute in El; discriminate].
  destruct (Insert_prepare Z.sub l 3) as [[[[[[prev height] mh] rnd] x] ns]|] eqn:Ep.
  2: { vm_compute in El. injection El as <-. vm_compute in Ep. discriminate. }
  destruct (concurrent_reader_correct 0 Z.sub [5; 1] 3 2 l prev height mh rnd x ns 0 (World ns 0 false (Searching head_ 0)))
    as (kk & Hp & _ & Hc & _).
  - exact Hd.
  - exact El.
  - exact Ep.
  - unfold kMaxHeight. lia.
  - apply rtc_refl.
  - exists kk, l, prev, height, mh, rnd, x, ns. split_and!; [reflexivity|exact Ep|exact Hp|exact Hc].
Defined.
