(* ===== verification/MemTable.v ===== *)
(** MemTable: the in-memory table of db/memtable.h and db/memtable.cc, a skip list of encoded entries ordered by their
    internal keys.

    An entry is the string of bytes that starts at the pointer the list holds; the decoders that assume a well-formed
    entry return nothing where the code would follow a null pointer. *)

From Stdlib Require Import Strings.Byte.
From S2P Require Import Prelude Coding Comparator DbFormat Status Random SkipList.

(** The slice at [data] and the bytes after it; a varint has at most five bytes, so that the limit [p + 5] of the code
    never cuts one. *)
Definition prefixed_slice (data : slice) : slice * slice :=
  match GetVarint32Ptr data with
  | Some (len, p) => (take (Z.to_nat len) p, drop (Z.to_nat len) p)
  | None => ([], [])
  end.

(** The static function of memtable.cc, on a pointer. *)
Definition GetLengthPrefixedSliceAt (data : slice) : slice := fst (prefixed_slice data).

Definition EncodeKey (target : slice) : slice := PutVarint32 [] (u32 (slen target)) ++ target.

Section MemTable.
Context (ucmp : Comparator).

Definition KeyComparator (aptr bptr : slice) : Z :=
  Compare (InternalKeyComparator ucmp) (GetLengthPrefixedSliceAt aptr) (GetLengthPrefixedSliceAt bptr).

Record MemTable := MkMemTable { refs_ : Z; table_ : SkipList slice }.

Definition NewMemTable : MemTable := MkMemTable 0 (NewSkipList []).

Definition MemTable_Ref (m : MemTable) : MemTable := MkMemTable (refs_ m + 1) (table_ m).

(** [None] is a table that has been deleted. *)
Definition MemTable_Unref (m : MemTable) : option MemTable :=
  let refs := refs_ m - 1 in
  if refs <=? 0 then None else Some (MkMemTable refs (table_ m)).

Definition encoded_len (key value : slice) : Z :=
  let internal_key_size := slen key + 8 in
  VarintLength internal_key_size + internal_key_size + VarintLength (slen value) + slen value.

(** The bytes that [Add] writes to [buf]. *)
Definition encode_entry (s : Z) (type : ValueType) (key value : slice) : slice :=
  let internal_key_size := slen key + 8 in
  EncodeVarint32 (u32 internal_key_size) ++ key ++
  EncodeFixed64 (Z.lor (u64 (Z.shiftl s 8)) (ValueType_val type)) ++
  EncodeVarint32 (u32 (slen value)) ++ value.

Definition MemTable_Add (s : Z) (type : ValueType) (key value : slice) (m : MemTable) : option MemTable :=
  let buf := encode_entry s type key value in
  t ← Insert KeyComparator (table_ m) buf;
  Some (MkMemTable (refs_ m) t).

(** The result, what is assigned to [*value] and what to [*s]. *)
Definition MemTable_Get (m : MemTable) (key : LookupKey) : option (bool * option slice * option Status) :=
  let memkey := memtable_key key in
  node ← Iterator_Seek KeyComparator (table_ m) memkey;
  if Iterator_Valid node then
    entry ← Iterator_key (table_ m) node;
    '(key_length, key_ptr) ← GetVarint32Ptr entry;
    if Compare ucmp (take (Z.to_nat (u32 (key_length - 8))) key_ptr) (lookup_user_key key) =? 0 then
      let tag := DecodeFixed64 (drop (Z.to_nat (key_length - 8)) key_ptr) in
      match ValueType_of (Z.land tag 0xff) with
      | Some kTypeValue =>
          let v := GetLengthPrefixedSliceAt (drop (Z.to_nat key_length) key_ptr) in
          Some (true, Some v, None)
      | Some kTypeDeletion => Some (true, None, Some (NotFound [] []))
      | None => Some (false, None, None)
      end
    else Some (false, None, None)
  else Some (false, None, None).

(** ** Iterator *)

(** The iterator is the node of [iter_]. *)
Definition MemTableIterator_Valid (node : ptr) : bool := Iterator_Valid node.
Definition MemTableIterator_Seek (m : MemTable) (k : slice) : option ptr :=
  Iterator_Seek KeyComparator (table_ m) (EncodeKey k).
Definition MemTableIterator_SeekToFirst (m : MemTable) : option ptr := Iterator_SeekToFirst (table_ m).
Definition MemTableIterator_SeekToLast (m : MemTable) : option ptr := Iterator_SeekToLast (table_ m).
Definition MemTableIterator_Next (m : MemTable) (node : ptr) : option ptr := Iterator_Next (table_ m) node.
Definition MemTableIterator_Prev (m : MemTable) (node : ptr) : option ptr := Iterator_Prev KeyComparator (table_ m) node.
Definition MemTableIterator_key (m : MemTable) (node : ptr) : option slice :=
  e ← Iterator_key (table_ m) node; Some (GetLengthPrefixedSliceAt e).
Definition MemTableIterator_value (m : MemTable) (node : ptr) : option slice :=
  e ← Iterator_key (table_ m) node; Some (GetLengthPrefixedSliceAt (snd (prefixed_slice e))).
End MemTable.

(** * Entries *)

(** The arguments of a call of [Add]. *)
Record entry := MkEntry { e_seq : Z; e_type : ValueType; e_key : slice; e_value : slice }.

#[export] Instance entry_eq_dec : EqDecision entry.
Proof. solve_decision. Defined.

Definition entry_ok (e : entry) : Prop := seq_ok (e_seq e) /\ slen (e_key e) + 8 < 2 ^ 32 /\ slen (e_value e) < 2 ^ 32.

Definition entry_bytes (e : entry) : slice := encode_entry (e_seq e) (e_type e) (e_key e) (e_value e).
Definition entry_parsed (e : entry) : ParsedInternalKey := ParsedKey (e_key e) (e_seq e) (e_type e).
Definition entry_internal_key (e : entry) : slice := AppendInternalKey [] (entry_parsed e).

Lemma entry_bytes_eq e :
  entry_ok e -> entry_bytes e = EncodeVarint32 (slen (entry_internal_key e)) ++ entry_internal_key e ++ EncodeVarint32 (slen (e_value e)) ++ e_value e.
Proof.
  intros (Hs & Hk & Hv). unfold entry_bytes, encode_entry, entry_internal_key, AppendInternalKey, PutFixed64.
  cbn [user_key sequence type entry_parsed app]. rewrite length_app, length_EncodeFixed64, Nat2Z.inj_add, <-!app_assoc.
  rewrite (wrap_small 32 (slen (e_key e) + 8)), (wrap_small 32 (slen (e_value e))) by (unfold in_u; lia). done.
Qed.

Lemma length_internal_key e : slen (entry_internal_key e) = slen (e_key e) + 8.
Proof.
  unfold entry_internal_key, AppendInternalKey, PutFixed64. cbn. rewrite length_app, length_EncodeFixed64. lia.
Qed.

Lemma prefixed_slice_Encode s rest : is_u32 (slen s) -> prefixed_slice (EncodeVarint32 (slen s) ++ s ++ rest) = (s, rest).
Proof.
  intros H. unfold prefixed_slice. change (GetVarint32Ptr ?p) with (GetVarint32 p). rewrite GetVarint32_Encode by done.
  by rewrite Nat2Z.id, take_app_length, drop_app_length.
Qed.

Lemma entry_prefixed e :
  entry_ok e -> prefixed_slice (entry_bytes e) = (entry_internal_key e, EncodeVarint32 (slen (e_value e)) ++ e_value e).
Proof.
  intros He. rewrite entry_bytes_eq by done. apply prefixed_slice_Encode. rewrite length_internal_key.
  destruct He as (_ & ? & _). unfold in_u. lia.
Qed.

Lemma entry_value_prefixed e :
  entry_ok e -> GetLengthPrefixedSliceAt (EncodeVarint32 (slen (e_value e)) ++ e_value e) = e_value e.
Proof.
  intros (_ & _ & Hv). unfold GetLengthPrefixedSliceAt. rewrite <-(app_nil_r (e_value e)) at 2.
  rewrite prefixed_slice_Encode; [done|]. unfold in_u. lia.
Qed.

(** [Add] allocates exactly the bytes it writes. *)
Lemma length_entry_bytes e : entry_ok e -> slen (entry_bytes e) = encoded_len (e_key e) (e_value e).
Proof.
  intros He. rewrite entry_bytes_eq by done. destruct He as (_ & Hk & Hv). unfold encoded_len.
  rewrite !length_app, !Nat2Z.inj_add, length_internal_key. rewrite !VarintLength_Encode by (unfold in_u; lia).
  rewrite <-!EncodeVarint32_64 by (unfold in_u; lia). lia.
Qed.

Section order.
Context {ucmp : Comparator} `{!ComparatorLaws any_key ucmp}.

#[export] Instance KeyComparator_order : KeyOrder (KeyComparator ucmp).
Proof.
  split; unfold KeyComparator; cbn [InternalKeyComparator Compare]; intros a b.
  - apply icmp_antisym.
  - intros d. apply icmp_trans.
  - intros d H0. assert (~ InternalKeyComparator_Compare ucmp (GetLengthPrefixedSliceAt a) (GetLengthPrefixedSliceAt b) < 0 /\
      ~ 0 < InternalKeyComparator_Compare ucmp (GetLengthPrefixedSliceAt a) (GetLengthPrefixedSliceAt b)) as [H1 H2] by lia.
    rewrite icmp_lt in H1. rewrite icmp_gt in H2. rewrite !icmp_lt.
    assert (Hu : ExtractUserKey (GetLengthPrefixedSliceAt a) = ExtractUserKey (GetLengthPrefixedSliceAt b)).
    { apply (compare_eq (c := ucmp) (key := any_key)); [done|done|]. lia. }
    rewrite <-Hu. assert (DecodeFixed64 (last8 (GetLengthPrefixedSliceAt a)) = DecodeFixed64 (last8 (GetLengthPrefixedSliceAt b))) as ->; [|done].
    destruct (Z.lt_trichotomy (DecodeFixed64 (last8 (GetLengthPrefixedSliceAt a))) (DecodeFixed64 (last8 (GetLengthPrefixedSliceAt b)))) as [?|[?|?]]; tauto.
Qed.

(** The order of the table on entries. *)
Lemma KeyComparator_entries a b :
  entry_ok a -> entry_ok b ->
  KeyComparator ucmp (entry_bytes a) (entry_bytes b) < 0 <->
  Compare ucmp (e_key a) (e_key b) < 0 \/
  (e_key a = e_key b /\ (e_seq b < e_seq a \/ (e_seq a = e_seq b /\ ValueType_val (e_type b) < ValueType_val (e_type a)))).
Proof.
  intros Ha Hb. unfold KeyComparator, GetLengthPrefixedSliceAt. rewrite !entry_prefixed by done. cbn [fst].
  apply (icmp_parsed (entry_parsed a) (entry_parsed b)); [apply Ha|apply Hb].
Qed.

(** A lookup key is the entry of its user key and sequence number without a value. *)
Definition lookup_entry (u : slice) (s : Z) : entry := MkEntry s kValueTypeForSeek u [].

Lemma KeyComparator_lookup a u s :
  entry_ok a -> seq_ok s -> slen u + 8 < 2 ^ 32 ->
  KeyComparator ucmp (entry_bytes a) (memtable_key (NewLookupKey u s)) < 0 <->
  Compare ucmp (e_key a) u < 0 \/ (e_key a = u /\ s < e_seq a).
Proof.
  intros Ha Hs Hu.
  assert (GetLengthPrefixedSliceAt (memtable_key (NewLookupKey u s)) = entry_internal_key (lookup_entry u s)) as E.
  { unfold GetLengthPrefixedSliceAt, memtable_key, NewLookupKey. cbn [lk_buf].
    rewrite wrap_small by (unfold in_u; lia).
    change (u ++ EncodeFixed64 (PackSequenceAndType s kValueTypeForSeek)) with (entry_internal_key (lookup_entry u s)).
    change (slen u + 8) with (slen (e_key (lookup_entry u s)) + 8). rewrite <-length_internal_key.
    rewrite <-(app_nil_r (entry_internal_key _)) at 2. rewrite prefixed_slice_Encode; [done|].
    rewrite length_internal_key. unfold in_u. cbn. lia. }
  unfold KeyComparator. rewrite E. unfold GetLengthPrefixedSliceAt. rewrite entry_prefixed by done. cbn [fst].
  cbn [InternalKeyComparator Compare].
  etrans; [apply (icmp_parsed (entry_parsed a) (entry_parsed (lookup_entry u s))); [apply Ha|done]|].
  cbn [entry_parsed lookup_entry e_key e_seq e_type user_key sequence type].
  assert (0 <= ValueType_val (e_type a) <= 1) by (destruct (e_type a); simpl; lia).
  change (ValueType_val kValueTypeForSeek) with 1. intuition lia.
Qed.
End order.

(** * The table after a sequence of additions *)

Section proofs.
Context (ucmp : Comparator) `{!ComparatorLaws any_key ucmp}.

Fixpoint add_all (es : list entry) (m : MemTable) : option MemTable :=
  match es with
  | [] => Some m
  | e :: es => m ← MemTable_Add ucmp (e_seq e) (e_type e) (e_key e) (e_value e) m; add_all es m
  end.

(** No user key has two entries with the same sequence number. *)
Fixpoint seqs_differ (es : list entry) : Prop :=
  match es with
  | [] => True
  | e :: es => (forall e', e' ∈ es -> e_key e = e_key e' -> e_seq e <> e_seq e') /\ seqs_differ es
  end.

(** The entries of a user key at most as new as a snapshot, and the newest of them. *)
Definition visible (u : slice) (s : Z) (e : entry) : bool := bool_decide (e_key e = u) && (e_seq e <=? s).

Fixpoint newest (u : slice) (s : Z) (es : list entry) : option entry :=
  match es with
  | [] => None
  | e :: es =>
      match newest u s es with
      | None => if visible u s e then Some e else None
      | Some e' => if visible u s e && (e_seq e' <? e_seq e) then Some e else Some e'
      end
  end.

Lemma visible_true u s e : visible u s e = true <-> e_key e = u /\ e_seq e <= s.
Proof. unfold visible. rewrite andb_true_iff, bool_decide_eq_true, Z.leb_le. done. Qed.

Lemma newest_spec u s es :
  match newest u s es with
  | None => forall e, e ∈ es -> visible u s e = false
  | Some e => e ∈ es /\ visible u s e = true /\ forall e', e' ∈ es -> visible u s e' = true -> e_seq e' <= e_seq e
  end.
Proof.
  induction es as [|e es IH]; cbn [newest].
  { intros e H. by apply elem_of_nil in H. }
  destruct (newest u s es) as [e1|] eqn:E1.
  - destruct IH as (H1 & H2 & H3). destruct (visible u s e) eqn:Ev; cbn [andb].
    + destruct (Z.ltb_spec (e_seq e1) (e_seq e)).
      * split_and!; [apply list_elem_of_here|done|]. intros e' [->|Hin]%elem_of_cons Hv; [lia|]. specialize (H3 e' Hin Hv). lia.
      * split_and!; [by apply list_elem_of_further|done|]. intros e' [->|Hin]%elem_of_cons Hv; [lia|]. by apply H3.
    + split_and!; [by apply list_elem_of_further|done|]. intros e' [->|Hin]%elem_of_cons Hv; [congruence|]. by apply H3.
  - destruct (visible u s e) eqn:Ev.
    + split_and!; [apply list_elem_of_here|done|]. intros e' [->|Hin]%elem_of_cons Hv; [lia|]. rewrite IH in Hv; done.
    + intros e' [->|Hin]%elem_of_cons; [done|by apply IH].
Qed.

Lemma seqs_differ_elem es a b : seqs_differ es -> a ∈ es -> b ∈ es -> e_key a = e_key b -> e_seq a = e_seq b -> a = b.
Proof.
  induction es as [|e es IH]; intros Hd Ha Hb Hk Hs; [by apply elem_of_nil in Ha|]. destruct Hd as [Hd1 Hd2].
  apply elem_of_cons in Ha, Hb. destruct Ha as [->|Ha], Hb as [->|Hb]; [done| | |by apply IH].
  - by exfalso; apply (Hd1 b).
  - exfalso. by apply (Hd1 a).
Qed.

Lemma newest_unique u s es e :
  seqs_differ es -> e ∈ es -> visible u s e = true -> (forall e', e' ∈ es -> visible u s e' = true -> e_seq e' <= e_seq e) ->
  newest u s es = Some e.
Proof.
  intros Hd He Hv Hmax. pose proof (newest_spec u s es) as Hn. destruct (newest u s es) as [e1|].
  - destruct Hn as (H1 & H2 & H3). f_equal. apply (seqs_differ_elem es); try done.
    + apply visible_true in H2, Hv. by destruct H2 as [-> _], Hv as [-> _].
    + specialize (Hmax e1 H1 H2). specialize (H3 e He Hv). lia.
  - by rewrite (Hn e He) in Hv.
Qed.

Lemma entries_distinct es : Forall entry_ok es -> seqs_differ es -> distinct (KeyComparator ucmp) (map entry_bytes es).
Proof.
  induction 1 as [|e es He Hes IH]; intros Hd; [done|]. destruct Hd as [Hd1 Hd2]. cbn [map distinct]. split; [|by apply IH].
  intros k Hk. apply list_elem_of_In, in_map_iff in Hk as (e' & <- & Hin%list_elem_of_In). rewrite Forall_forall in Hes.
  specialize (Hes e' Hin). intros E0. assert (~ KeyComparator ucmp (entry_bytes e) (entry_bytes e') < 0) as H1 by lia.
  assert (~ KeyComparator ucmp (entry_bytes e') (entry_bytes e) < 0) as H2.
  { intros H%key_antisym. lia. }
  rewrite KeyComparator_entries in H1, H2 by done.
  assert (e_key e = e_key e') as Hk.
  { apply (compare_eq (c := ucmp) (key := any_key)); [done|done|].
    rewrite (compare_antisym (key := any_key)) in H2 by done. lia. }
  specialize (Hd1 e' Hin Hk). assert (e_key e' = e_key e) as Hk' by done. intuition lia.
Qed.

Lemma add_all_insert es m : add_all es m = t ← insert_all (KeyComparator ucmp) (map entry_bytes es) (table_ m); Some (MkMemTable (refs_ m) t).
Proof.
  revert m. induction es as [|e es IH]; intros m; [by destruct m|]. cbn [add_all map insert_all]. unfold MemTable_Add.
  change (encode_entry (e_seq e) (e_type e) (e_key e) (e_value e)) with (entry_bytes e).
  destruct (Insert (KeyComparator ucmp) (table_ m) (entry_bytes e)) as [t|]; [|done]. cbn [mbind option_bind]. by rewrite IH.
Qed.

(** The table holds the entries in the order of their internal keys. *)
Lemma add_all_rep es :
  Forall entry_ok es -> seqs_differ es ->
  exists t ids sorted, add_all es NewMemTable = Some (MkMemTable 0 t) /\ sorted ≡ₚ es /\ rep (KeyComparator ucmp) t ids (map entry_bytes sorted).
Proof.
  intros Hok Hd. destruct (insert_all_spec (KeyComparator ucmp) (map entry_bytes es) _ _ _ (NewSkipList_rep [] (KeyComparator ucmp)))
    as (t & ids & kk & E & Hrep & Hp); [by apply entries_distinct|intros k k' H; by apply elem_of_nil in H|].
  rewrite app_nil_r in Hp. apply Permutation_map_inv in Hp as (sorted & -> & Hp).
  exists t, ids, sorted. split_and!; [|by symmetry|done]. rewrite add_all_insert. cbn [table_ NewMemTable]. by rewrite E.
Qed.

(** What [Get] makes of an entry of its user key. *)
Definition get_result (e : entry) : bool * option slice * option Status :=
  match e_type e with
  | kTypeValue => (true, Some (e_value e), None)
  | kTypeDeletion => (true, None, Some (NotFound [] []))
  end.

Lemma Get_at m u s node e :
  entry_ok e -> Iterator_Seek (KeyComparator ucmp) (table_ m) (memtable_key (NewLookupKey u s)) = Some node ->
  Iterator_key (table_ m) node = Some (entry_bytes e) ->
  MemTable_Get ucmp m (NewLookupKey u s) = Some (if bool_decide (e_key e = u) then get_result e else (false, None, None)).
Proof.
  intros He Hs Hk. unfold MemTable_Get. rewrite Hs. cbn [mbind option_bind].
  assert (Iterator_Valid node = true) as -> by (by destruct node). rewrite Hk. cbn [mbind option_bind].
  pose proof (length_internal_key e) as Hl. rewrite entry_bytes_eq by done. destruct He as (Hseq & Hek & Hev).
  change (GetVarint32Ptr ?p) with (GetVarint32 p). rewrite GetVarint32_Encode by (unfold in_u; lia). cbn [mbind option_bind].
  rewrite lookup_user_key_New, Hl. replace (slen (e_key e) + 8 - 8) with (slen (e_key e)) by lia.
  rewrite wrap_small by (unfold in_u; lia). rewrite Nat2Z.id.
  set (rest := EncodeVarint32 (slen (e_value e)) ++ e_value e).
  assert (entry_internal_key e = e_key e ++ EncodeFixed64 (PackSequenceAndType (e_seq e) (e_type e))) as Eik by done.
  replace (drop (Z.to_nat (slen (e_key e) + 8)) (entry_internal_key e ++ rest)) with rest
    by (symmetry; apply drop_app_length'; lia).
  rewrite Eik, <-app_assoc, take_app_length, drop_app_length.
  assert (Compare ucmp (e_key e) u = 0 <-> e_key e = u) as Hcmp by (by apply compare_eq).
  destruct (Z.eqb_spec (Compare ucmp (e_key e) u) 0) as [E|E]; [|rewrite bool_decide_false; [done|tauto]].
  rewrite bool_decide_true by tauto.
  rewrite DecodeFixed64_Encode, wrap_small by (apply Pack_u64; done). rewrite Pack_val by done.
  rewrite (land_low_mod _ 8 ltac:(lia) : Z.land _ 255 = _). rewrite Z.add_comm, Z_mod_plus_full.
  assert (GetLengthPrefixedSliceAt rest = e_value e) as -> by (by apply entry_value_prefixed).
  unfold get_result. by destruct (e_type e).
Qed.

Lemma sorted_filter_head (sorted : list entry) u s e :
  seq_ok s -> slen u + 8 < 2 ^ 32 -> Forall entry_ok sorted ->
  StronglySorted (fun k1 k2 => KeyComparator ucmp k1 k2 < 0) (map entry_bytes sorted) ->
  sorted !! length (List.filter (fun k => KeyComparator ucmp k (memtable_key (NewLookupKey u s)) <? 0) (map entry_bytes sorted)) = Some e ->
  e ∈ sorted /\ ~ KeyComparator ucmp (entry_bytes e) (memtable_key (NewLookupKey u s)) < 0 /\
  forall e', e' ∈ sorted -> ~ KeyComparator ucmp (entry_bytes e') (memtable_key (NewLookupKey u s)) < 0 ->
    e' = e \/ KeyComparator ucmp (entry_bytes e) (entry_bytes e') < 0.
Proof.
  intros Hs Hu Hok Hsort. revert Hsort. induction sorted as [|a sorted IH]; [done|]. cbn [map List.filter].
  intros Hsort. apply StronglySorted_inv in Hsort as [Hsort Ha]. inversion Hok as [|? ? Hoka Hok']; subst.
  destruct (Z.ltb_spec (KeyComparator ucmp (entry_bytes a) (memtable_key (NewLookupKey u s))) 0) as [Hlt|Hge]; cbn [length]; intros He.
  - destruct (IH Hok' Hsort He) as (H1 & H2 & H3). split_and!; [by apply list_elem_of_further|done|].
    intros e' [->|Hin]%elem_of_cons Hn; [done|by apply H3].
  - rewrite Forall_forall in Ha.
    assert (List.filter (fun k => KeyComparator ucmp k (memtable_key (NewLookupKey u s)) <? 0) (map entry_bytes sorted) = []) as Hnil.
    { apply filter_none. intros k Hk. apply Z.ltb_nlt. intros Hlt. pose proof (key_trans _ _ _ (Ha k Hk) Hlt). lia. }
    rewrite Hnil in He. injection He as <-. split_and!; [apply list_elem_of_here|lia|].
    intros e' [->|Hin]%elem_of_cons _; [by left|right]. apply Ha. apply list_elem_of_In, in_map. by apply list_elem_of_In.
Qed.

Lemma filter_full {A} (f : A -> bool) l x : (length l <= length (List.filter f l))%nat -> x ∈ l -> f x = true.
Proof.
  induction l as [|y l IH]; intros Hl Hx; [by apply elem_of_nil in Hx|]. cbn in Hl. pose proof (filter_length_le f l).
  destruct (f y) eqn:E; cbn in Hl; [|lia]. apply elem_of_cons in Hx as [->|Hx]; [done|]. apply IH; [lia|done].
Qed.

Lemma MemTable_Get_newest es u s :
  Forall entry_ok es -> seqs_differ es -> seq_ok s -> slen u + 8 < 2 ^ 32 ->
  exists m, add_all es NewMemTable = Some m /\
    MemTable_Get ucmp m (NewLookupKey u s) =
      Some (match newest u s es with Some e => get_result e | None => (false, None, None) end).
Proof.
  intros Hok Hd Hs Hu. destruct (add_all_rep es Hok Hd) as (t & ids & sorted & E & Hp & Hrep).
  exists (MkMemTable 0 t). split; [done|]. pose proof (rep_sorted _ Hrep) as Hsort.
  assert (Forall entry_ok sorted) as Hok' by (by rewrite Hp).
  pose proof (rep_Seek _ Hrep (memtable_key (NewLookupKey u s))) as Hseek. set (n := length _) in Hseek.
  pose proof (rep_key_at _ Hrep n) as Hkey. rewrite lookup_map in Hkey.
  pose proof (newest_spec u s es) as Hn.
  assert (Hcmp : forall e, e ∈ es -> visible u s e = true -> ~ KeyComparator ucmp (entry_bytes e) (memtable_key (NewLookupKey u s)) < 0).
  { intros e Hin Hv. apply visible_true in Hv as [<- Hle]. rewrite Forall_forall in Hok.
    rewrite KeyComparator_lookup by (try done; by apply Hok). rewrite (compare_refl (key := any_key)) by done. lia. }
  destruct (sorted !! n) as [e|] eqn:En; cbn in Hkey.
  - rewrite (Get_at _ u s (ids !! n) e); [|by rewrite Forall_lookup in Hok'; eapply Hok'|done|done]. f_equal.
    destruct (sorted_filter_head sorted u s e Hs Hu Hok' Hsort En) as (H1 & H2 & H3). rewrite Hp in H1.
    assert (entry_ok e) as Hoke by (rewrite Forall_forall in Hok; by apply Hok).
    rewrite KeyComparator_lookup in H2 by done. case_bool_decide as Hku.
    + rewrite (newest_unique u s es e); [done|done|done|apply visible_true; split; [done|]|].
      * destruct (decide (e_seq e <= s)); [done|]. exfalso. apply H2. right. split; [done|lia].
      * intros e' Hin Hv. destruct (H3 e') as [->|Hlt]; [by rewrite Hp|by apply Hcmp|lia|].
        rewrite KeyComparator_entries in Hlt by (try done; rewrite Forall_forall in Hok; by apply Hok).
        apply visible_true in Hv as [Hv _]. rewrite Hku, <-Hv, (compare_refl (key := any_key)) in Hlt by done. lia.
    + destruct (newest u s es) as [e1|]; [|done]. exfalso. destruct Hn as (Hin & Hv & _).
      destruct (H3 e1) as [->|Hlt]; [by rewrite Hp|by apply Hcmp|by apply visible_true in Hv as []|].
      rewrite KeyComparator_entries in Hlt by (try done; rewrite Forall_forall in Hok; by apply Hok).
      apply visible_true in Hv as [Hv _]. rewrite Hv in Hlt. destruct Hlt as [Hlt|[? _]]; [|done]. apply H2. by left.
  - apply lookup_ge_None_1 in En. assert (ids !! n = None) as Hnone.
    { apply lookup_ge_None_2. rewrite (rep_length _ Hrep), length_map. done. }
    rewrite Hnone in Hseek. unfold MemTable_Get. cbn [table_]. rewrite Hseek. cbn. f_equal.
    destruct (newest u s es) as [e1|]; [|done]. exfalso. destruct Hn as (Hin & Hv & _). apply (Hcmp e1 Hin Hv).
    apply Z.ltb_lt.
    apply (filter_full (fun k => KeyComparator ucmp k (memtable_key (NewLookupKey u s)) <? 0) (map entry_bytes sorted));
      [fold n; by rewrite length_map|].
    apply list_elem_of_In, in_map, list_elem_of_In. by rewrite Hp.
Qed.

(** C11. [Get] returns the newest visible entry.  For a table made by any sequence of [Add]s in which no user key has
    two entries with the same sequence number, and a lookup of a user key at a snapshot: if the entry with the largest
    sequence number at most the snapshot is a value, [Get] returns true with the value; if it is a deletion, true with
    [NotFound]; without such an entry, false.  No step of the search fails. *)
Theorem memtable_get_newest es u s :
  Forall entry_ok es -> seqs_differ es -> seq_ok s -> slen u + 8 < 2 ^ 32 ->
  exists m, add_all es NewMemTable = Some m /\
    MemTable_Get ucmp m (NewLookupKey u s) =
      Some (match newest u s es with Some e => get_result e | None => (false, None, None) end).
Proof. apply MemTable_Get_newest. Qed.

Lemma KeyComparator_EncodeKey e k :
  entry_ok e -> slen k < 2 ^ 32 -> KeyComparator ucmp (entry_bytes e) (EncodeKey k) = Compare (InternalKeyComparator ucmp) (entry_internal_key e) k.
Proof.
  intros He Hk. unfold KeyComparator, GetLengthPrefixedSliceAt, EncodeKey, PutVarint32. rewrite entry_prefixed by done.
  rewrite app_nil_l, wrap_small by (unfold in_u; lia). rewrite <-(app_nil_r k) at 2.
  rewrite prefixed_slice_Encode; [done|]. unfold in_u. lia.
Qed.

Lemma filter_EncodeKey sorted k :
  Forall entry_ok sorted -> slen k < 2 ^ 32 ->
  length (List.filter (fun b => KeyComparator ucmp b (EncodeKey k) <? 0) (map entry_bytes sorted)) =
  length (List.filter (fun e => Compare (InternalKeyComparator ucmp) (entry_internal_key e) k <? 0) sorted).
Proof.
  intros Hok Hk. induction Hok as [|e sorted He _ IH]; [done|]. cbn [map List.filter].
  rewrite KeyComparator_EncodeKey by done. destruct (_ <? 0); cbn [length]; by rewrite IH.
Qed.

Lemma MemTableIterator_spec es :
  Forall entry_ok es -> seqs_differ es ->
  exists m ids sorted, add_all es NewMemTable = Some m /\ sorted ≡ₚ es /\ length ids = length es /\
    StronglySorted (fun a b => Compare (InternalKeyComparator ucmp) (entry_internal_key a) (entry_internal_key b) < 0) sorted /\
    MemTableIterator_SeekToFirst m = Some (ids !! 0%nat) /\ MemTableIterator_SeekToLast m = Some (last ids) /\
    (forall k, slen k < 2 ^ 32 ->
      MemTableIterator_Seek ucmp m k =
        Some (ids !! length (List.filter (fun e => Compare (InternalKeyComparator ucmp) (entry_internal_key e) k <? 0) sorted))) /\
    (forall i e, sorted !! i = Some e -> exists x, ids !! i = Some x /\
      MemTableIterator_key m (Some x) = Some (entry_internal_key e) /\ MemTableIterator_value m (Some x) = Some (e_value e) /\
      MemTableIterator_Next m (Some x) = Some (ids !! S i) /\ MemTableIterator_Prev ucmp m (Some x) = Some (last (take i ids))).
Proof.
  intros Hok Hd. destruct (add_all_rep es Hok Hd) as (t & ids & sorted & E & Hp & Hrep).
  exists (MkMemTable 0 t), ids, sorted. assert (Forall entry_ok sorted) as Hok' by (by rewrite Hp).
  split_and!; [done|done| | |by apply (rep_SeekToFirst _ Hrep)|by apply (rep_SeekToLast _ Hrep)| |].
  - rewrite (rep_length _ Hrep), length_map. by rewrite Hp.
  - pose proof (rep_sorted _ Hrep) as Hs. clear -Hs Hok'. induction sorted as [|a sorted IH]; [constructor|].
    cbn [map] in Hs. apply StronglySorted_inv in Hs as [Hs Ha]. inversion Hok' as [|? ? Hoka Hok'']; subst.
    constructor; [by apply IH|]. rewrite Forall_forall in Ha. rewrite Forall_forall in Hok''. apply Forall_forall. intros b Hb.
    specialize (Ha (entry_bytes b) ltac:(apply list_elem_of_In, in_map; by apply list_elem_of_In)).
    unfold KeyComparator, GetLengthPrefixedSliceAt in Ha. by rewrite !entry_prefixed in Ha by (try done; by apply Hok'').
  - intros k Hk. unfold MemTableIterator_Seek. cbn [table_]. by rewrite (rep_Seek _ Hrep), filter_EncodeKey.
  - intros i e He. pose proof (rep_key_at _ Hrep i) as Hk. rewrite lookup_map, He in Hk. cbn in Hk.
    assert (entry_ok e) as Hoke by (rewrite Forall_lookup in Hok'; by eapply Hok').
    destruct (ids !! i) as [x|] eqn:Hx; [|done]. exists x. split; [done|].
    unfold MemTableIterator_key, MemTableIterator_value. cbn [table_]. rewrite Hk. cbn [mbind option_bind].
    unfold GetLengthPrefixedSliceAt at 1. rewrite entry_prefixed by done. cbn [snd fst].
    rewrite entry_value_prefixed by done. split_and!; [done|done|by apply (rep_Next _ Hrep)|by apply (rep_Prev _ Hrep)].
Qed.

(** C36. The iterator of a table goes through its entries in the order of their internal keys: for a table made by any
    sequence of [Add]s as above there is a sorted arrangement of the entries such that [key] and [value] at a position
    are the internal key and the value of the entry there, [Next], [Prev], [SeekToFirst] and [SeekToLast] move between
    positions, and [Seek] goes to the first entry whose internal key is not less than the target. *)
Theorem memtable_iterator_sorted es :
  Forall entry_ok es -> seqs_differ es ->
  exists m ids sorted, add_all es NewMemTable = Some m /\ sorted ≡ₚ es /\ length ids = length es /\
    StronglySorted (fun a b => Compare (InternalKeyComparator ucmp) (entry_internal_key a) (entry_internal_key b) < 0) sorted /\
    MemTableIterator_SeekToFirst m = Some (ids !! 0%nat) /\ MemTableIterator_SeekToLast m = Some (last ids) /\
    (forall k, slen k < 2 ^ 32 ->
      MemTableIterator_Seek ucmp m k =
        Some (ids !! length (List.filter (fun e => Compare (InternalKeyComparator ucmp) (entry_internal_key e) k <? 0) sorted))) /\
    (forall i e, sorted !! i = Some e -> exists x, ids !! i = Some x /\
      MemTableIterator_key m (Some x) = Some (entry_internal_key e) /\ MemTableIterator_value m (Some x) = Some (e_value e) /\
      MemTableIterator_Next m (Some x) = Some (ids !! S i) /\ MemTableIterator_Prev ucmp m (Some x) = Some (last (take i ids))).
Proof. apply MemTableIterator_spec. Qed.
End proofs.

(** Three entries of one user key and one of another. *)
Definition sample_entries : list entry :=
  [MkEntry 1 kTypeValue [Byte.x6b] [Byte.x31]; MkEntry 2 kTypeValue [Byte.x6a] [Byte.x32];
   MkEntry 3 kTypeDeletion [Byte.x6b] []; MkEntry 4 kTypeValue [Byte.x6b] [Byte.x33]].

Lemma sample_entries_ok : Forall entry_ok sample_entries /\ seqs_differ sample_entries.
Proof.
  split.
  - repeat constructor; vm_compute; congruence.
  - cbn. split_and!; try exact I; intros e He; repeat (apply elem_of_cons in He as [->|He]; [done|]); by apply elem_of_nil in He.
Qed.

Lemma memtable_get_newest_witness :
  exists m, add_all BytewiseComparator sample_entries NewMemTable = Some m /\
    MemTable_Get BytewiseComparator m (NewLookupKey [Byte.x6b] 3) = Some (true, None, Some (NotFound [] [])).
Proof.
  destruct sample_entries_ok as [H1 H2].
  apply (memtable_get_newest BytewiseComparator sample_entries [Byte.x6b] 3 H1 H2); vm_compute; [split; congruence|reflexivity].
Defined.

Lemma memtable_iterator_sorted_witness :
  exists m ids, add_all BytewiseComparator sample_entries NewMemTable = Some m /\ length ids = 4%nat /\
    MemTableIterator_SeekToFirst m = Some (ids !! 0%nat).
Proof.
  destruct sample_entries_ok as [H1 H2].
  destruct (memtable_iterator_sorted BytewiseComparator sample_entries H1 H2) as (m & ids & sorted & E & _ & Hl & _ & Hf & _).
  exists m, ids. split; [exact E|]. split; [exact Hl|exact Hf].
Defined.
