(* ===== verification/Arena.v ===== *)
(** Arena: the allocator of util/arena.h and util/arena.cc, and the memory that a memtable takes from it
    ([MemTable::ApproximateMemoryUsage]).

    An address is a block, by its position in [blocks_], and an offset in it.  [new char[n]] returns memory that is aligned
    for every object, so that the low bits of an address are those of the offset. *)

From Stdlib Require Import Strings.Byte.
From S2P Require Import Prelude Coding Comparator DbFormat Status Random SkipList MemTable.

Record Address := MkAddress { a_block : nat; a_offset : Z }.

(** [blocks_] by the sizes of the blocks. *)
Record Arena := MkArena {
  alloc_ptr_ : option Address;
  alloc_bytes_remaining_ : Z;
  blocks_ : list Z;
  memory_usage_ : Z;
}.

Definition kArenaBlockSize : Z := 4096.
Definition sizeof_pointer : Z := 8.

Definition NewArena : Arena := MkArena None 0 [] 0.

Definition AllocateNewBlock (block_bytes : Z) (a : Arena) : Address * Arena :=
  let result := MkAddress (length (blocks_ a)) 0 in
  (result, MkArena (alloc_ptr_ a) (alloc_bytes_remaining_ a) (blocks_ a ++ [block_bytes]) (u64 (memory_usage_ a + u64 (block_bytes + sizeof_pointer)))).

Definition advance (p : Address) (n : Z) : Address := MkAddress (a_block p) (a_offset p + n).

Definition AllocateFallback (bytes : Z) (a : Arena) : Address * Arena :=
  if kArenaBlockSize / 4 <? bytes then AllocateNewBlock bytes a
  else
    let '(result, a) := AllocateNewBlock kArenaBlockSize a in
    (result, MkArena (Some (advance result bytes)) (u64 (kArenaBlockSize - bytes)) (blocks_ a) (memory_usage_ a)).

(** [alloc_ptr_] is null as long as no bytes remain. *)
Definition Allocate (bytes : Z) (a : Arena) : option (Address * Arena) :=
  if bytes <=? alloc_bytes_remaining_ a then
    p ← alloc_ptr_ a;
    Some (p, MkArena (Some (advance p bytes)) (alloc_bytes_remaining_ a - bytes) (blocks_ a) (memory_usage_ a))
  else Some (AllocateFallback bytes a).

Definition align : Z := if 8 <? sizeof_pointer then sizeof_pointer else 8.

Definition AllocateAligned (bytes : Z) (a : Arena) : option (Address * Arena) :=
  let current_mod := match alloc_ptr_ a with Some p => Z.land (a_offset p) (align - 1) | None => 0 end in
  let slop := if current_mod =? 0 then 0 else align - current_mod in
  let needed := u64 (bytes + slop) in
  if needed <=? alloc_bytes_remaining_ a then
    p ← alloc_ptr_ a;
    Some (advance p slop, MkArena (Some (advance p needed)) (alloc_bytes_remaining_ a - needed) (blocks_ a) (memory_usage_ a))
  else Some (AllocateFallback bytes a).

Definition MemoryUsage (a : Arena) : Z := memory_usage_ a.

(** * The memory of a memtable *)

(** A node has its key and one pointer; it is followed by the pointers of its other levels. *)
Definition sizeof_Node : Z := 16.
Definition node_bytes (height : nat) : Z := sizeof_Node + sizeof_pointer * (Z.of_nat height - 1).

(** The nodes in the order of their allocation: [Add] allocates the entry and [NewNode] the node. *)
Definition node_arena (a : option Arena) (nd : Node slice) : option Arena :=
  a ← a;
  '(_, a) ← Allocate (slen (node_key nd)) a;
  '(_, a) ← AllocateAligned (node_bytes (length (next_ nd))) a;
  Some a.

(** The arena of the table: the head, and then the entries. *)
Definition table_arena (t : SkipList slice) : option Arena :=
  '(_, a) ← AllocateAligned (node_bytes kMaxHeight) NewArena;
  foldl node_arena (Some a) (tail (nodes t)).

Definition ApproximateMemoryUsage (m : MemTable) : option Z := MemoryUsage <$> table_arena (table_ m).

(** * Correctness *)

(** A call of [AllocateAligned] or [Allocate], and its bytes. *)
Record request := MkRequest { rq_aligned : bool; rq_bytes : Z }.

Definition allocate (r : request) (a : Arena) : option (Address * Arena) := if rq_aligned r then AllocateAligned (rq_bytes r) a else Allocate (rq_bytes r) a.

Fixpoint allocate_all (rs : list request) (a : Arena) : option (list Address * Arena) :=
  match rs with
  | [] => Some ([], a)
  | r :: rs => '(p, a) ← allocate r a; '(ps, a) ← allocate_all rs a; Some (p :: ps, a)
  end.

Definition sum (zs : list Z) : Z := foldr Z.add 0 zs.

(** The bytes of an allocation are in a block, and two allocations have no byte in common. *)
Definition in_block (blocks : list Z) (x : Address * Z) : Prop := exists size, blocks !! a_block x.1 = Some size /\ 0 <= a_offset x.1 /\ a_offset x.1 + x.2 <= size.
Definition apart (x y : Address * Z) : Prop := a_block x.1 <> a_block y.1 \/ a_offset x.1 + x.2 <= a_offset y.1 \/ a_offset y.1 + y.2 <= a_offset x.1.

Lemma sum_app xs ys : sum (xs ++ ys) = sum xs + sum ys.
Proof. unfold sum. induction xs as [|x xs IH]; cbn [app foldr]; lia. Qed.

Lemma sum_nonneg xs : Forall (fun x => 0 <= x) xs -> 0 <= sum xs.
Proof. induction 1 as [|x xs Hx _ IH]; unfold sum in *; cbn [foldr]; lia. Qed.

(** The arena behind the allocations [xs], in the order from the last. *)
Record arena_inv (a : Arena) (xs : list (Address * Z)) : Prop := {
  ar_sizes : Forall (fun b => 0 <= b) (blocks_ a);
  ar_usage : memory_usage_ a = sum (map (fun b => b + sizeof_pointer) (blocks_ a));
  ar_blocks : Forall (in_block (blocks_ a)) xs;
  ar_apart : ForallOrdPairs apart xs;
  ar_bytes : sum (map snd xs) + alloc_bytes_remaining_ a <= sum (blocks_ a);
  ar_current : match alloc_ptr_ a with
               | None => alloc_bytes_remaining_ a = 0
               | Some p => blocks_ a !! a_block p = Some kArenaBlockSize /\ 0 <= a_offset p /\ a_offset p + alloc_bytes_remaining_ a = kArenaBlockSize /\ 0 <= alloc_bytes_remaining_ a /\
                   Forall (fun x => a_block x.1 = a_block p -> a_offset x.1 + x.2 <= a_offset p) xs
               end;
}.

(** An allocation from the current block, behind [slop] bytes. *)
Lemma take_current a xs p slop n :
  arena_inv a xs -> alloc_ptr_ a = Some p -> 0 <= slop -> 0 < n -> n + slop <= alloc_bytes_remaining_ a ->
  arena_inv (MkArena (Some (advance p (n + slop))) (alloc_bytes_remaining_ a - (n + slop)) (blocks_ a) (memory_usage_ a)) ((advance p slop, n) :: xs).
Proof.
  intros [H0 H1 H2 H3 H4 H5] Ep Hs Hn Hle. rewrite Ep in H5. destruct H5 as (C1 & C2 & C3 & C4 & C5). split; cbn [alloc_ptr_ alloc_bytes_remaining_ blocks_ memory_usage_]; try done.
  - constructor; [|done]. exists kArenaBlockSize. cbn. split; [done|lia].
  - constructor; [|done]. eapply Forall_impl; [exact C5|]. intros x Hx. unfold apart. cbn. destruct (decide (a_block x.1 = a_block p)) as [E|E]; [specialize (Hx E); lia|left; congruence].
  - cbn. unfold sum in *. lia.
  - cbn. split; [done|]. split; [lia|]. split; [lia|]. split; [lia|]. constructor; [cbn; lia|]. eapply Forall_impl; [exact C5|]. cbn. intros x Hx E. specialize (Hx E). lia.
Qed.

Lemma usage_nonneg a xs : arena_inv a xs -> 0 <= memory_usage_ a.
Proof.
  intros [H0 H1 _ _ _ _]. rewrite H1. apply sum_nonneg. rewrite Forall_map. eapply Forall_impl; [exact H0|]. unfold sizeof_pointer. cbn. intros. lia.
Qed.

(** A new block. *)
Lemma new_block a xs size n :
  arena_inv a xs -> 0 < n <= size -> memory_usage_ a + size + sizeof_pointer < 2 ^ 64 ->
  exists a', AllocateNewBlock size a = (MkAddress (length (blocks_ a)) 0, a') /\ blocks_ a' = blocks_ a ++ [size] /\ alloc_ptr_ a' = alloc_ptr_ a /\ alloc_bytes_remaining_ a' = alloc_bytes_remaining_ a /\
    memory_usage_ a' = memory_usage_ a + size + sizeof_pointer /\ Forall (fun b => 0 <= b) (blocks_ a') /\ memory_usage_ a' = sum (map (fun b => b + sizeof_pointer) (blocks_ a')) /\
    let x := (MkAddress (length (blocks_ a)) 0, n) in Forall (in_block (blocks_ a')) (x :: xs) /\ ForallOrdPairs apart (x :: xs) /\ Forall (fun y => a_block y.1 <> length (blocks_ a)) xs.
Proof.
  intros Ha Hn Hm. pose proof (usage_nonneg a xs Ha) as Hu. destruct Ha as [H0 H1 H2 H3 H4 H5]. eexists. split; [reflexivity|]. cbn [blocks_ alloc_ptr_ alloc_bytes_remaining_ memory_usage_]. unfold sizeof_pointer in *.
  rewrite (wrap_small 64 (size + 8)), wrap_small by (unfold in_u; lia). assert (Forall (fun y => a_block y.1 <> length (blocks_ a)) xs) as Hold.
  { eapply Forall_impl; [exact H2|]. intros y (s & Hs & _). apply lookup_lt_Some in Hs. lia. }
  split_and!; try done; try lia.
  - apply Forall_app. split; [done|]. constructor; [lia|done].
  - rewrite map_app, sum_app, <-H1. unfold sum. cbn [map foldr]. lia.
  - constructor; [exists size; cbn; rewrite lookup_app_r, Nat.sub_diag by lia; split; [done|lia]|]. eapply Forall_impl; [exact H2|]. intros y (s & Hs & Hy). exists s. split; [by apply lookup_app_l_Some|done].
  - constructor; [|done]. eapply Forall_impl; [exact Hold|]. intros y Hy. left. cbn. congruence.
Qed.

Lemma AllocateFallback_spec a xs n :
  arena_inv a xs -> 0 < n -> memory_usage_ a + Z.max n kArenaBlockSize + sizeof_pointer < 2 ^ 64 ->
  exists p a', AllocateFallback n a = (p, a') /\ arena_inv a' ((p, n) :: xs) /\ a_offset p = 0 /\ memory_usage_ a' <= memory_usage_ a + Z.max n kArenaBlockSize + sizeof_pointer.
Proof.
  intros Ha Hn Hm. unfold AllocateFallback. destruct (Z.ltb_spec (kArenaBlockSize / 4) n) as [Hb|Hb].
  - destruct (new_block a xs n n Ha ltac:(lia) ltac:(lia)) as (a' & -> & B1 & B2 & B3 & B4 & B5 & B6 & B7 & B8 & B9). eexists _, a'. split; [done|]. split; [|split; [done|lia]]. destruct Ha as [H0 H1 H2 H3 H4 H5].
    split; try done; rewrite ?B2, ?B3.
    + rewrite B1, sum_app. unfold sum in *. cbn [map foldr snd]. lia.
    + destruct (alloc_ptr_ a) as [p|]; [|done]. destruct H5 as (C1 & C2 & C3 & C4 & C5). rewrite B1. split; [by apply lookup_app_l_Some|]. split_and!; try done. constructor; [|done]. cbn. intros E. apply lookup_lt_Some in C1. lia.
  - assert (kArenaBlockSize / 4 = 1024) as E4 by done. rewrite E4 in Hb. assert (kArenaBlockSize = 4096) as E by done. destruct (new_block a xs kArenaBlockSize n Ha ltac:(lia) ltac:(lia)) as (a' & -> & B1 & B2 & B3 & B4 & B5 & B6 & B7 & B8 & B9).
    eexists _, _. split; [reflexivity|]. rewrite wrap_small by (unfold in_u; lia). split; [|split; [done|cbn; lia]]. destruct Ha as [H0 H1 H2 H3 H4 H5]. split; cbn [alloc_ptr_ alloc_bytes_remaining_ blocks_ memory_usage_]; try done.
    + rewrite B1, sum_app. assert (0 <= alloc_bytes_remaining_ a) by (destruct (alloc_ptr_ a); lia). unfold sum in *. cbn [map foldr snd]. lia.
    + cbn. rewrite B1, lookup_app_r, Nat.sub_diag by lia. split; [done|]. split; [lia|]. split; [lia|]. split; [lia|]. constructor; [cbn; lia|]. eapply Forall_impl; [exact B9|]. cbn. intros y Hy Ey. congruence.
Qed.

Lemma slop_spec off : let m := Z.land off (align - 1) in let slop := if m =? 0 then 0 else align - m in 0 <= slop < 8 /\ (off + slop) mod 8 = 0.
Proof.
  change (align - 1) with (Z.ones 3). change align with 8. cbv zeta. rewrite Z.land_ones by lia. change (2 ^ 3) with 8. pose proof (Z.mod_pos_bound off 8 ltac:(lia)). destruct (Z.eqb_spec (off mod 8) 0) as [E|E].
  - split; [lia|]. by rewrite Z.add_0_r.
  - split; [lia|]. replace (off + (8 - off mod 8)) with (0 + (off / 8 + 1) * 8) by (pose proof (Z.div_mod off 8 ltac:(lia)); lia). by rewrite Z.mod_add.
Qed.

(** What one allocation can add to the usage. *)
Definition cost (r : request) : Z := Z.max (rq_bytes r) kArenaBlockSize + sizeof_pointer.

Lemma allocate_spec r a xs :
  arena_inv a xs -> 0 < rq_bytes r -> memory_usage_ a + cost r < 2 ^ 64 ->
  exists p a', allocate r a = Some (p, a') /\ arena_inv a' ((p, rq_bytes r) :: xs) /\ (rq_aligned r = true -> a_offset p mod 8 = 0) /\ memory_usage_ a' <= memory_usage_ a + cost r.
Proof.
  intros Ha Hn Hm. pose proof (usage_nonneg a xs Ha) as Hu. unfold cost in *. set (n := rq_bytes r) in *. assert (kArenaBlockSize = 4096 /\ sizeof_pointer = 8) as [Ek Ep] by done.
  destruct (AllocateFallback_spec a xs n Ha Hn ltac:(lia)) as (p0 & a0 & E0 & I0 & Z0 & U0). pose proof (ar_current _ _ Ha) as Hc. unfold allocate. fold n. destruct (rq_aligned r).
  - unfold AllocateAligned. destruct (alloc_ptr_ a) as [p|] eqn:Eq.
    + pose proof (slop_spec (a_offset p)) as [Hs Hmod]. cbv zeta in Hs, Hmod. set (slop := if _ =? 0 then _ else _) in *. rewrite wrap_small by (unfold in_u; lia). destruct (Z.leb_spec (n + slop) (alloc_bytes_remaining_ a)) as [Hle|Hle].
      * eexists _, _. split; [reflexivity|]. split; [by apply take_current; [| |lia..]|]. split; [done|cbn; lia].
      * exists p0, a0. rewrite E0, Z0. split_and!; try done. lia.
    + rewrite Hc. cbn [Z.eqb]. rewrite Z.add_0_r, wrap_small by (unfold in_u; lia). destruct (Z.leb_spec n 0); [lia|]. exists p0, a0. rewrite E0, Z0. split_and!; try done. lia.
  - unfold Allocate. destruct (Z.leb_spec n (alloc_bytes_remaining_ a)) as [Hle|Hle]; [|exists p0, a0; rewrite E0; split_and!; try done; lia]. destruct (alloc_ptr_ a) as [p|] eqn:Eq; [|lia].
    cbn [mbind option_bind]. eexists _, _. split; [reflexivity|]. pose proof (take_current a xs p 0 n Ha Eq ltac:(lia) Hn ltac:(lia)) as I. rewrite Z.add_0_r in I. replace (advance p 0) with p in I by (destruct p; unfold advance; cbn; by rewrite Z.add_0_r).
    split; [done|]. split; [done|cbn; lia].
Qed.

Lemma ordered_snoc {A} (R : A -> A -> Prop) l x : ForallOrdPairs R l -> Forall (fun y => R y x) l -> ForallOrdPairs R (l ++ [x]).
Proof. induction 1 as [|y l H1 H2 IH]; intros Hx; [repeat constructor|]. apply Forall_cons in Hx as [H3 H4]. cbn [app]. constructor; [|by apply IH]. apply Forall_app. split; [done|]. by constructor. Qed.

Lemma ordered_reverse l : ForallOrdPairs apart l -> ForallOrdPairs apart (reverse l).
Proof.
  induction 1 as [|x l H1 H2 IH]; [constructor|]. rewrite reverse_cons. apply ordered_snoc; [done|]. apply Forall_reverse. eapply Forall_impl; [exact H1|]. unfold apart. intros y [?|[?|?]]; [left; congruence|lia|lia].
Qed.

Lemma allocate_all_spec rs a xs :
  arena_inv a xs -> Forall (fun r => 0 < rq_bytes r) rs -> memory_usage_ a + sum (map cost rs) < 2 ^ 64 ->
  exists ps a', allocate_all rs a = Some (ps, a') /\ arena_inv a' (reverse (zip ps (map rq_bytes rs)) ++ xs) /\ Forall2 (fun p r => rq_aligned r = true -> a_offset p mod 8 = 0) ps rs.
Proof.
  intros Ha Hrs. revert a xs Ha. induction Hrs as [|r rs Hr Hrs IH]; intros a xs Ha Hm; [exists [], a; split_and!; [done|done|constructor]|].
  change (sum (map cost (r :: rs))) with (cost r + sum (map cost rs)) in Hm. assert (0 <= sum (map cost rs)) as H0.
  { apply sum_nonneg. rewrite Forall_map. eapply Forall_impl; [exact Hrs|]. unfold cost, sizeof_pointer. cbn. intros. lia. }
  destruct (allocate_spec r a xs Ha Hr ltac:(lia)) as (p & a1 & E1 & I1 & A1 & U1). destruct (IH a1 _ I1 ltac:(lia)) as (ps & a2 & E2 & I2 & A2).
  exists (p :: ps), a2. split; [cbn [allocate_all]; rewrite E1; cbn [mbind option_bind]; by rewrite E2|]. split; [|by constructor]. cbn [map zip zip_with]. rewrite reverse_cons, <-app_assoc. exact I2.
Qed.

(** C26. The allocations of an arena are memory of their own.  For every sequence of calls of [Allocate] and [AllocateAligned], with
    at least one byte each, that the counter of the usage has room for: each returns the address of that many bytes in a block
    of the arena; no two have a byte in common, whatever was allocated between them; [AllocateAligned] returns a multiple of
    eight; and [MemoryUsage] is the size of the blocks with a pointer for each, and no less than the bytes that were asked for. *)
Theorem arena_allocations_apart (rs : list request) :
  Forall (fun r => 0 < rq_bytes r) rs -> sum (map cost rs) < 2 ^ 64 ->
  exists ps a, allocate_all rs NewArena = Some (ps, a) /\ length ps = length rs /\
    Forall (in_block (blocks_ a)) (zip ps (map rq_bytes rs)) /\ ForallOrdPairs apart (zip ps (map rq_bytes rs)) /\
    Forall2 (fun p r => rq_aligned r = true -> a_offset p mod 8 = 0) ps rs /\
    MemoryUsage a = sum (map (fun b => b + sizeof_pointer) (blocks_ a)) /\ sum (map rq_bytes rs) <= MemoryUsage a.
Proof.
  intros Hrs Hm. destruct (allocate_all_spec rs NewArena [] ltac:(split; [constructor|done|constructor|constructor|done|done]) Hrs Hm) as (ps & a & E & [H0 H1 H2 H3 H4 H5] & HA). exists ps, a. pose proof (Forall2_length _ _ _ HA) as Hl.
  rewrite app_nil_r in *. split; [done|]. split; [done|]. split; [by apply Forall_reverse in H2; rewrite reverse_involutive in H2|]. split; [apply ordered_reverse in H3; by rewrite reverse_involutive in H3|]. split; [done|]. split; [done|].
  unfold MemoryUsage. rewrite H1. assert (sum (map rq_bytes rs) <= sum (blocks_ a)) as Hb.
  - assert (forall ys, sum (map snd (reverse ys)) = sum (map snd (ys : list (Address * Z)))) as Hrev by (induction ys as [|y ys IH]; [done|]; rewrite reverse_cons, map_app, sum_app, IH; unfold sum; cbn [map foldr]; lia).
    rewrite Hrev in H4. assert (map snd (zip ps (map rq_bytes rs)) = map rq_bytes rs) as Ez by (apply snd_zip; rewrite length_map; lia). rewrite Ez in H4. assert (0 <= alloc_bytes_remaining_ a) by (destruct (alloc_ptr_ a); lia). lia.
  - apply (Z.le_trans _ _ _ Hb). clear. induction (blocks_ a) as [|b bs IH]; [done|]. unfold sum, sizeof_pointer in *. cbn [map foldr]. lia.
Qed.

Lemma arena_allocations_apart_witness :
  exists ps a, allocate_all [MkRequest false 5; MkRequest true 16; MkRequest false 5000; MkRequest true 3] NewArena = Some (ps, a) /\ ForallOrdPairs apart (zip ps [5; 16; 5000; 3]) /\
    Forall2 (fun p r => rq_aligned r = true -> a_offset p mod 8 = 0) ps [MkRequest false 5; MkRequest true 16; MkRequest false 5000; MkRequest true 3] /\ MemoryUsage a = 9112.
Proof.
  destruct (arena_allocations_apart [MkRequest false 5; MkRequest true 16; MkRequest false 5000; MkRequest true 3]) as (ps & a & E & _ & _ & H1 & H2 & _).
  - repeat constructor.
  - reflexivity.
  - exists ps, a. split; [exact E|]. split; [exact H1|]. split; [exact H2|]. vm_compute in E. injection E as _ <-. reflexivity.
Defined.

(** * The usage of a memtable *)

(** Once there is a current block, there is always one. *)
Lemma fallback_current n a : alloc_ptr_ a <> None -> alloc_ptr_ (AllocateFallback n a).2 <> None.
Proof. intros Ha. unfold AllocateFallback. by destruct (_ <? _). Qed.

Lemma node_arena_total a nd : alloc_ptr_ a <> None -> exists a', node_arena (Some a) nd = Some a' /\ alloc_ptr_ a' <> None.
Proof.
  intros Ha. assert (exists p a1, Allocate (slen (node_key nd)) a = Some (p, a1) /\ alloc_ptr_ a1 <> None) as (p & a1 & E1 & H1).
  { unfold Allocate. destruct (_ <=? _); [destruct (alloc_ptr_ a); [by eexists _, _|done]|]. pose proof (fallback_current (slen (node_key nd)) a Ha). destruct (AllocateFallback _ a) as [p a1]. by exists p, a1. }
  cbn [node_arena mbind option_bind]. rewrite E1. cbn [mbind option_bind]. unfold AllocateAligned. destruct (_ <=? _); [destruct (alloc_ptr_ a1); [cbn [mbind option_bind]; by eexists|done]|].
  pose proof (fallback_current (node_bytes (length (next_ nd))) a1 H1). destruct (AllocateFallback _ a1) as [q a2]. by exists a2.
Qed.

Lemma ApproximateMemoryUsage_total m : exists usage, ApproximateMemoryUsage m = Some usage.
Proof.
  unfold ApproximateMemoryUsage, table_arena. cbn [AllocateAligned NewArena]. set (r := AllocateAligned _ _). vm_compute in r. subst r. cbn [mbind option_bind].
  assert (forall ns a, alloc_ptr_ a <> None -> exists a', foldl node_arena (Some a) ns = Some a') as H.
  { induction ns as [|nd ns IH]; intros a Ha; [by eexists|]. cbn [foldl]. destruct (node_arena_total a nd Ha) as (a1 & -> & H1). by apply IH. }
  edestruct (H (tail (nodes (table_ m)))) as (a' & ->); [|by eexists]. done.
Qed.
