(* ===== verification/WriteBatch.v ===== *)
(** WriteBatch: the batches of db/write_batch.cc (a header of sequence number and count, then tagged operations), their
    iteration by a handler, and the handler that inserts them into a memtable. *)

From Stdlib Require Import Strings.Byte Strings.String.
From S2P Require Import Prelude Coding Comparator DbFormat Status SkipList MemTable.

Definition kHeader : nat := 12.

(** A batch is its [rep_]. *)
Record WriteBatch := MkWriteBatch { batch_rep : slice }.

Definition Clear (b : WriteBatch) : WriteBatch := MkWriteBatch (repeat Byte.x00 kHeader).

Definition NewWriteBatch : WriteBatch := Clear (MkWriteBatch []).

Definition ApproximateSize (b : WriteBatch) : Z := slen (batch_rep b).

(** [n] bytes written at index [i] of a string. *)
Definition overwrite (i : nat) (bytes s : slice) : slice := take i s ++ bytes ++ drop (i + length bytes) s.

(** The conversion of a [uint32_t] to [int]. *)
Definition to_int (z : Z) : Z := if z <? 2 ^ 31 then z else z - 2 ^ 32.

Definition Count (b : WriteBatch) : Z := to_int (DecodeFixed32 (drop 8 (batch_rep b))).
Definition SetCount (b : WriteBatch) (n : Z) : WriteBatch := MkWriteBatch (overwrite 8 (EncodeFixed32 (u32 n)) (batch_rep b)).
Definition Sequence (b : WriteBatch) : Z := DecodeFixed64 (batch_rep b).
Definition SetSequence (b : WriteBatch) (seq : Z) : WriteBatch := MkWriteBatch (overwrite 0 (EncodeFixed64 seq) (batch_rep b)).

Definition Put (b : WriteBatch) (key value : slice) : WriteBatch :=
  let b := SetCount b (Count b + 1) in
  let rep := batch_rep b ++ [of_uval (ValueType_val kTypeValue)] in
  MkWriteBatch (PutLengthPrefixedSlice (PutLengthPrefixedSlice rep key) value).

Definition Delete (b : WriteBatch) (key : slice) : WriteBatch :=
  let b := SetCount b (Count b + 1) in
  let rep := batch_rep b ++ [of_uval (ValueType_val kTypeDeletion)] in
  MkWriteBatch (PutLengthPrefixedSlice rep key).

Definition SetContents (contents : slice) : WriteBatch := MkWriteBatch contents.

Definition Append (dst src : WriteBatch) : WriteBatch :=
  let dst := SetCount dst (Count dst + Count src) in
  MkWriteBatch (batch_rep dst ++ drop kHeader (batch_rep src)).

(** A handler with its state; [None] is a handler that fails. *)
Record Handler (S : Type) := MkHandler {
  handler_Put : slice -> slice -> S -> option S;
  handler_Delete : slice -> S -> option S;
}.
Arguments handler_Put {S}.
Arguments handler_Delete {S}.
Arguments MkHandler {S}.

Section Iterate.
Context {S : Type} (h : Handler S).

(** The loop of [Iterate]: every iteration takes at least the tag, so that [fuel] = the bytes plus one is enough; the
    state is returned with the status. *)
Fixpoint Iterate_loop (fuel : nat) (count found : Z) (input : slice) (s : S) : option (Status * S) :=
  match fuel with
  | O => None
  | Datatypes.S fuel =>
      match input with
      | [] => Some (if negb (found =? count) then Corruption (lit "WriteBatch has wrong count") [] else OK, s)
      | tag :: input =>
          let found := found + 1 in
          if sval tag =? ValueType_val kTypeValue then
            match GetLengthPrefixedSlice input with
            | Some (key, input) =>
                match GetLengthPrefixedSlice input with
                | Some (value, input) => s ← handler_Put h key value s; Iterate_loop fuel count found input s
                | None => Some (Corruption (lit "bad WriteBatch Put") [], s)
                end
            | None => Some (Corruption (lit "bad WriteBatch Put") [], s)
            end
          else if sval tag =? ValueType_val kTypeDeletion then
            match GetLengthPrefixedSlice input with
            | Some (key, input) => s ← handler_Delete h key s; Iterate_loop fuel count found input s
            | None => Some (Corruption (lit "bad WriteBatch Delete") [], s)
            end
          else Some (Corruption (lit "unknown WriteBatch tag") [], s)
      end
  end.

Definition Iterate (b : WriteBatch) (s : S) : option (Status * S) :=
  let input := batch_rep b in
  if slen input <? Z.of_nat kHeader then Some (Corruption (lit "malformed WriteBatch (too small)") [], s)
  else
    let input := drop kHeader input in
    Iterate_loop (Datatypes.S (length input)) (Count b) 0 input s.
End Iterate.

(** [MemTableInserter]: its state is [sequence_] and [*mem_]. *)
Definition MemTableInserter (ucmp : Comparator) : Handler (Z * MemTable) :=
  MkHandler
    (fun key value '(sequence, mem) =>
      mem ← MemTable_Add ucmp sequence kTypeValue key value mem; Some (u64 (sequence + 1), mem))
    (fun key '(sequence, mem) =>
      mem ← MemTable_Add ucmp sequence kTypeDeletion key [] mem; Some (u64 (sequence + 1), mem)).

Definition InsertInto (ucmp : Comparator) (b : WriteBatch) (memtable : MemTable) : option (Status * MemTable) :=
  '(s, (_, mem)) ← Iterate (MemTableInserter ucmp) b (Sequence b, memtable);
  Some (s, mem).

(** * Batches as sequences of operations *)

Inductive op := OpPut (key value : slice) | OpDelete (key : slice).

(** The operations that a length-prefixed string can hold. *)
Definition op_ok (o : op) : Prop :=
  match o with
  | OpPut key value => slen key < 2 ^ 32 /\ slen value < 2 ^ 32
  | OpDelete key => slen key < 2 ^ 32
  end.

Definition op_bytes (o : op) : slice :=
  match o with
  | OpPut key value => of_uval 1 :: PutLengthPrefixedSlice (PutLengthPrefixedSlice [] key) value
  | OpDelete key => of_uval 0 :: PutLengthPrefixedSlice [] key
  end.

Definition run_op {S} (h : Handler S) (o : op) (s : S) : option S :=
  match o with
  | OpPut key value => handler_Put h key value s
  | OpDelete key => handler_Delete h key s
  end.

Fixpoint run_ops {S} (h : Handler S) (os : list op) (s : S) : option S :=
  match os with
  | [] => Some s
  | o :: os => s ← run_op h o s; run_ops h os s
  end.

(** [b] is a batch of the operations [os] with sequence number [seq]. *)
Definition is_batch (b : WriteBatch) (seq : Z) (os : list op) : Prop :=
  batch_rep b = EncodeFixed64 seq ++ EncodeFixed32 (Z.of_nat (length os)) ++ concat (map op_bytes os) /\
  Forall op_ok os /\ Z.of_nat (length os) < 2 ^ 31 /\ is_u64 seq.

Lemma to_int_small z : 0 <= z < 2 ^ 31 -> to_int z = z.
Proof. intros H. unfold to_int. destruct (Z.ltb_spec z (2 ^ 31)); lia. Qed.

Lemma is_batch_Count b seq os : is_batch b seq os -> Count b = Z.of_nat (length os).
Proof.
  intros (E & _ & Hn & _). unfold Count. rewrite E. rewrite drop_app_length' by (by rewrite length_EncodeFixed64).
  rewrite DecodeFixed32_Encode, wrap_small by (unfold in_u; lia). apply to_int_small. lia.
Qed.

Lemma is_batch_Sequence b seq os : is_batch b seq os -> Sequence b = seq.
Proof. intros (E & _ & _ & Hs). unfold Sequence. rewrite E, DecodeFixed64_Encode. by apply wrap_small. Qed.

Lemma overwrite_middle a x y b : length x = length y -> overwrite (length a) y (a ++ x ++ b) = a ++ y ++ b.
Proof.
  intros H. unfold overwrite. rewrite take_app_length, <-H, <-length_app, (app_assoc a x b), drop_app_length. done.
Qed.

Lemma SetCount_rep b seq os n :
  is_batch b seq os -> 0 <= n < 2 ^ 32 ->
  batch_rep (SetCount b n) = EncodeFixed64 seq ++ EncodeFixed32 n ++ concat (map op_bytes os).
Proof.
  intros (E & _ & _ & _) Hn. unfold SetCount. cbn [batch_rep]. rewrite E, (wrap_small 32) by (unfold in_u; lia).
  apply (overwrite_middle (EncodeFixed64 seq)). by rewrite !length_EncodeFixed32.
Qed.

Lemma NewWriteBatch_is : is_batch NewWriteBatch 0 [].
Proof. split_and!; [done|constructor|done|done]. Qed.

Lemma SetSequence_is b seq os seq' : is_batch b seq os -> is_u64 seq' -> is_batch (SetSequence b seq') seq' os.
Proof.
  intros (E & H1 & H2 & H3) Hs. split_and!; [|done|done|done]. unfold SetSequence. cbn [batch_rep]. rewrite E.
  apply (overwrite_middle []). by rewrite !length_EncodeFixed64.
Qed.

Lemma add_op_is b seq os o :
  is_batch b seq os -> op_ok o -> Z.of_nat (length os) + 1 < 2 ^ 31 ->
  is_batch (MkWriteBatch (batch_rep (SetCount b (Count b + 1)) ++ op_bytes o)) seq (os ++ [o]).
Proof.
  intros Hb Ho Hn. rewrite (is_batch_Count _ _ _ Hb), (SetCount_rep b seq os) by (done || lia). destruct Hb as (E & H1 & H2 & H3).
  split_and!; [|apply Forall_app; by repeat constructor|rewrite length_app; simpl; lia|done]. cbn [batch_rep].
  rewrite map_app, concat_app, length_app, Nat2Z.inj_add. cbn [map concat]. by rewrite app_nil_r, <-!app_assoc.
Qed.

Definition apply_op (b : WriteBatch) (o : op) : WriteBatch :=
  match o with OpPut key value => Put b key value | OpDelete key => Delete b key end.

Lemma apply_op_is b seq os o :
  is_batch b seq os -> op_ok o -> Z.of_nat (length os) + 1 < 2 ^ 31 -> is_batch (apply_op b o) seq (os ++ [o]).
Proof.
  intros Hb Ho Hn. pose proof (add_op_is b seq os o Hb Ho Hn) as H. destruct o as [key value|key]; cbn [apply_op].
  - unfold Put. rewrite (PutLengthPrefixedSlice_app (PutLengthPrefixedSlice _ _)), (PutLengthPrefixedSlice_app (_ ++ _)).
    cbn [op_bytes] in H. rewrite (PutLengthPrefixedSlice_app (PutLengthPrefixedSlice _ _)) in H. rewrite <-!app_assoc. exact H.
  - unfold Delete. rewrite PutLengthPrefixedSlice_app, <-app_assoc. exact H.
Qed.

Lemma apply_ops_is b seq os os' :
  is_batch b seq os -> Forall op_ok os' -> Z.of_nat (length os + length os') < 2 ^ 31 ->
  is_batch (foldl apply_op b os') seq (os ++ os').
Proof.
  intros Hb Hok. revert b os Hb. induction Hok as [|o os' Ho _ IH]; intros b os Hb Hn; cbn [foldl]; [by rewrite app_nil_r|].
  simpl in Hn. rewrite cons_middle, app_assoc. apply IH; [apply apply_op_is; [done|done|lia]|].
  rewrite length_app. simpl. lia.
Qed.

Lemma Append_is dst src s1 s2 o1 o2 :
  is_batch dst s1 o1 -> is_batch src s2 o2 -> Z.of_nat (length o1 + length o2) < 2 ^ 31 -> is_batch (Append dst src) s1 (o1 ++ o2).
Proof.
  intros H1 H2 Hn. unfold Append. rewrite (is_batch_Count _ _ _ H1), (is_batch_Count _ _ _ H2).
  rewrite (SetCount_rep dst s1 o1) by (done || lia). destruct H1 as (_ & Ho1 & _ & Hs1), H2 as (E2 & Ho2 & _ & _).
  split_and!; [|by apply Forall_app|rewrite length_app; lia|done]. cbn [batch_rep]. rewrite E2, (app_assoc (EncodeFixed64 s2)), drop_app_length'.
  - rewrite map_app, concat_app, length_app, Nat2Z.inj_add. by rewrite <-!app_assoc.
  - rewrite length_app, length_EncodeFixed64, length_EncodeFixed32. done.
Qed.

(** One operation of [Iterate]. *)
Lemma Iterate_loop_op {S} (h : Handler S) fuel count found o rest s :
  op_ok o ->
  Iterate_loop h (Datatypes.S fuel) count found (op_bytes o ++ rest) s =
    s' ← run_op h o s; Iterate_loop h fuel count (found + 1) rest s'.
Proof.
  intros Ho. destruct o as [key value|key]; cbn [Iterate_loop op_bytes app run_op].
  - destruct Ho as [Hk Hv]. change (sval (of_uval 1) =? ValueType_val kTypeValue) with true. cbn iota.
    rewrite PutLengthPrefixedSlice_app, <-app_assoc.
    rewrite GetLengthPrefixedSlice_Put by (unfold in_u; lia). rewrite GetLengthPrefixedSlice_Put by (unfold in_u; lia). done.
  - change (sval (of_uval 0) =? ValueType_val kTypeValue) with false.
    change (sval (of_uval 0) =? ValueType_val kTypeDeletion) with true. cbn iota.
    rewrite GetLengthPrefixedSlice_Put by (unfold in_u; simpl in Ho; lia). done.
Qed.

Lemma Iterate_loop_ops {S} (h : Handler S) os fuel count found s :
  Forall op_ok os -> (length os < fuel)%nat ->
  Iterate_loop h fuel count found (concat (map op_bytes os)) s =
    s' ← run_ops h os s;
    Some (if negb (found + Z.of_nat (length os) =? count) then Corruption (lit "WriteBatch has wrong count") [] else OK, s').
Proof.
  intros Hok. revert fuel found s. induction Hok as [|o os Ho _ IH]; intros fuel found s Hf; (destruct fuel as [|fuel]; [simpl in Hf; lia|]).
  - cbn. by rewrite Z.add_0_r.
  - cbn [map concat]. rewrite Iterate_loop_op by done. cbn [run_ops]. destruct (run_op h o s) as [s'|]; [|done]. cbn [mbind option_bind].
    rewrite IH by (simpl in Hf; lia). destruct (run_ops h os s'); [|done]. cbn [mbind option_bind]. simpl length.
    by replace (found + 1 + Z.of_nat (length os)) with (found + Z.of_nat (Datatypes.S (length os))) by lia.
Qed.

Lemma length_op_bytes o : (1 <= length (op_bytes o))%nat.
Proof. destruct o; simpl; lia. Qed.

Lemma Iterate_is {S} (h : Handler S) b seq os s : is_batch b seq os -> Iterate h b s = s' ← run_ops h os s; Some (OK, s').
Proof.
  intros Hb. unfold Iterate. rewrite (is_batch_Count _ _ _ Hb). destruct Hb as (E & Hok & Hn & _). rewrite E, app_assoc.
  assert (length (EncodeFixed64 seq ++ EncodeFixed32 (Z.of_nat (length os))) = kHeader) as Hh
    by (by rewrite length_app, length_EncodeFixed64, length_EncodeFixed32).
  rewrite drop_app_length' by done. rewrite length_app, Hh.
  destruct (Z.ltb_spec (Z.of_nat (kHeader + length (concat (map op_bytes os)))) (Z.of_nat kHeader)); [lia|].
  rewrite Iterate_loop_ops; [by rewrite Z.add_0_l, Z.eqb_refl|done|].
  clear. induction os as [|o os IH]; [simpl; lia|]. cbn [map concat]. rewrite length_app. pose proof (length_op_bytes o). simpl length. lia.
Qed.

(** C31. A batch is the sequence of its operations.  For a batch built by any [Put]s and [Delete]s, then extended with
    another batch by [Append] and given a sequence number, [Count] and [Sequence] return the numbers, and [Iterate]
    calls the handler with exactly the operations in order and returns [OK] (or stops where the handler fails). *)
Theorem write_batch_roundtrip {S} (h : Handler S) os1 os2 seq s :
  Forall op_ok os1 -> Forall op_ok os2 -> Z.of_nat (length os1 + length os2) < 2 ^ 31 -> is_u64 seq ->
  let b := SetSequence (Append (foldl apply_op NewWriteBatch os1) (foldl apply_op NewWriteBatch os2)) seq in
  Count b = Z.of_nat (length (os1 ++ os2)) /\ Sequence b = seq /\
  Iterate h b s = s' ← run_ops h (os1 ++ os2) s; Some (OK, s').
Proof.
  intros H1 H2 Hn Hs b.
  assert (is_batch b seq (os1 ++ os2)) as Hb.
  { eapply SetSequence_is; [|done]. apply (Append_is _ _ 0 0); [| |done].
    - apply (apply_ops_is _ 0 []); [apply NewWriteBatch_is|done|simpl; lia].
    - apply (apply_ops_is _ 0 []); [apply NewWriteBatch_is|done|simpl; lia]. }
  split_and!; [by eapply is_batch_Count|by eapply is_batch_Sequence|by eapply Iterate_is].
Qed.

Lemma write_batch_roundtrip_witness :
  let b := SetSequence (Append (foldl apply_op NewWriteBatch [OpPut [Byte.x61] [Byte.x62]; OpDelete [Byte.x63]])
                               (foldl apply_op NewWriteBatch [OpPut [] []])) 100 in
  Count b = 3 /\ Sequence b = 100 /\
  Iterate (MkHandler (fun k v n => Some (n + 1)) (fun k n => Some (n + 10))) b 0 = Some (OK, 12).
Proof.
  apply (write_batch_roundtrip (MkHandler (fun k v n => Some (n + 1)) (fun k n => Some (n + 10)))
           [OpPut [Byte.x61] [Byte.x62]; OpDelete [Byte.x63]] [OpPut [] []] 100 0).
  - repeat constructor.
  - repeat constructor.
  - reflexivity.
  - vm_compute. split; congruence.
Defined.

(** [Iterate] ends on any bytes, and a batch it accepts has as many operations as its header says: with a handler
    that only counts, on any contents there is a result, and if the status is [OK] the count of the header, read as an
    [int], is the number of calls. *)
Theorem iterate_any_bytes b :
  exists st n, Iterate (MkHandler (fun _ _ n => Some (n + 1)) (fun _ n => Some (n + 1))) b 0 = Some (st, n) /\ 0 <= n <= slen (batch_rep b) /\
    (ok st = true -> n = Count b).
Proof.
  unfold Iterate. destruct (Z.ltb_spec (slen (batch_rep b)) (Z.of_nat kHeader)); [eexists _, 0; split; [done|split; [lia|done]]|].
  set (input := drop kHeader (batch_rep b)). set (count := Count b).
  assert (Hloop : forall fuel found input, (length input < fuel)%nat -> 0 <= found ->
    exists st n, Iterate_loop (MkHandler (fun _ _ n => Some (n + 1)) (fun _ n => Some (n + 1))) fuel count found input found = Some (st, n) /\
      found <= n <= found + slen input /\ (ok st = true -> n = count)).
  { clear input. induction fuel as [|fuel IH]; intros found input Hf H0; [lia|]. destruct input as [|tag input]; cbn [Iterate_loop].
    { eexists _, _. split; [done|]. split; [simpl; lia|]. destruct (Z.eqb_spec found count); done. }
    simpl in Hf. destruct (sval tag =? ValueType_val kTypeValue).
    - destruct (GetLengthPrefixedSlice input) as [[k i1]|] eqn:E1; [|eexists _, _; split; [done|split; [simpl; lia|done]]].
      destruct (GetLengthPrefixedSlice i1) as [[v i2]|] eqn:E2; [|eexists _, _; split; [done|split; [simpl; lia|done]]].
      apply GetLengthPrefixedSlice_shrinks in E1, E2.
      destruct (IH (found + 1) i2) as (st & n & E & ? & ?); [lia|lia|]. exists st, n. split; [exact E|]. split; [simpl length; lia|done].
    - destruct (sval tag =? ValueType_val kTypeDeletion); [|eexists _, _; split; [done|split; [simpl; lia|done]]].
      destruct (GetLengthPrefixedSlice input) as [[k i1]|] eqn:E1; [|eexists _, _; split; [done|split; [simpl; lia|done]]].
      apply GetLengthPrefixedSlice_shrinks in E1.
      destruct (IH (found + 1) i1) as (st & n & E & ? & ?); [lia|lia|]. exists st, n. split; [exact E|]. split; [simpl length; lia|done]. }
  destruct (Hloop (Datatypes.S (length input)) 0 input) as (st & n & E & ? & ?); [lia|lia|].
  exists st, n. split; [exact E|]. split; [|done]. unfold input in *. rewrite length_drop in *. lia.
Qed.

(** * Insertion into a memtable *)

(** The entries of operations from sequence number [seq]. *)
Fixpoint entries_of (seq : Z) (os : list op) : list entry :=
  match os with
  | [] => []
  | OpPut key value :: os => MkEntry seq kTypeValue key value :: entries_of (seq + 1) os
  | OpDelete key :: os => MkEntry seq kTypeDeletion key [] :: entries_of (seq + 1) os
  end.

Lemma length_entries_of seq os : length (entries_of seq os) = length os.
Proof. revert seq. induction os as [|[] os IH]; intros seq; simpl; by rewrite ?IH. Qed.

Lemma entries_of_app seq os1 os2 : entries_of seq (os1 ++ os2) = entries_of seq os1 ++ entries_of (seq + Z.of_nat (length os1)) os2.
Proof.
  revert seq. induction os1 as [|o os1 IH]; intros seq; [cbn; by rewrite Z.add_0_r|].
  cbn [app entries_of]. rewrite IH. replace (seq + 1 + Z.of_nat (length os1)) with (seq + Z.of_nat (length (o :: os1))) by (simpl; lia).
  by destruct o.
Qed.

Lemma run_inserter ucmp os seq m :
  0 <= seq -> seq + Z.of_nat (length os) < 2 ^ 64 ->
  run_ops (MemTableInserter ucmp) os (seq, m) = m' ← add_all ucmp (entries_of seq os) m; Some (seq + Z.of_nat (length os), m').
Proof.
  revert seq m. induction os as [|o os IH]; intros seq m H0 Hs; [cbn; by rewrite Z.add_0_r|].
  simpl length in Hs |- *. destruct o as [key value|key]; cbn [run_ops run_op MemTableInserter handler_Put handler_Delete entries_of add_all e_seq e_type e_key e_value].
  all: destruct (MemTable_Add ucmp seq _ key _ m) as [m'|]; [|done]; cbn [mbind option_bind];
    rewrite wrap_small by (unfold in_u; lia); rewrite IH by lia;
    destruct (add_all ucmp (entries_of (seq + 1) os) m'); [|done]; cbn [mbind option_bind]; do 2 f_equal; lia.
Qed.

Lemma InsertInto_is ucmp b seq os m :
  is_batch b seq os -> seq + Z.of_nat (length os) < 2 ^ 64 ->
  InsertInto ucmp b m = m' ← add_all ucmp (entries_of seq os) m; Some (OK, m').
Proof.
  intros Hb Hs. unfold InsertInto. rewrite (is_batch_Sequence _ _ _ Hb), (Iterate_is _ _ _ _ _ Hb).
  destruct Hb as (_ & _ & _ & Hu). unfold in_u in Hu. rewrite run_inserter by lia.
  by destruct (add_all ucmp (entries_of seq os) m).
Qed.

Lemma add_all_app ucmp es1 es2 m : add_all ucmp (es1 ++ es2) m = m' ← add_all ucmp es1 m; add_all ucmp es2 m'.
Proof.
  revert m. induction es1 as [|e es1 IH]; intros m; [done|]. cbn [app add_all].
  destruct (MemTable_Add ucmp (e_seq e) (e_type e) (e_key e) (e_value e) m); [|done]. cbn [mbind option_bind]. apply IH.
Qed.

Lemma entries_of_seq seq os e : e ∈ entries_of seq os -> seq <= e_seq e < seq + Z.of_nat (length os).
Proof.
  revert seq. induction os as [|o os IH]; intros seq H; [by apply elem_of_nil in H|].
  destruct o as [key value|key]; cbn [entries_of] in H; (apply elem_of_cons in H as [->|H]; [simpl; lia|]);
    specialize (IH _ H); simpl length; lia.
Qed.

(** The entries of a run of operations have different sequence numbers. *)
Lemma entries_of_differ seq os : seqs_differ (entries_of seq os).
Proof.
  revert seq. induction os as [|o os IH]; intros seq; [done|].
  destruct o as [key value|key]; cbn [entries_of]; (split; [|apply IH]); intros e' H _;
    apply entries_of_seq in H; cbn [e_seq]; lia.
Qed.

(** Operations whose keys fit an entry of a memtable. *)
Definition op_fits (o : op) : Prop :=
  match o with
  | OpPut key value => slen key + 8 < 2 ^ 32 /\ slen value < 2 ^ 32
  | OpDelete key => slen key + 8 < 2 ^ 32
  end.

Lemma op_fits_ok o : op_fits o -> op_ok o.
Proof. destruct o; cbn; lia. Qed.

Lemma entries_of_ok seq os :
  Forall op_fits os -> 0 <= seq -> seq + Z.of_nat (length os) <= kMaxSequenceNumber + 1 -> Forall entry_ok (entries_of seq os).
Proof.
  intros Hf. revert seq. induction Hf as [|o os Ho _ IH]; intros seq H0 Hs; [constructor|]. simpl length in Hs.
  destruct o as [key value|key]; cbn [entries_of]; (constructor; [|apply IH; lia]); unfold entry_ok, seq_ok; cbn [e_seq e_key e_value op_fits length] in *; lia.
Qed.
