(* ===== verification/Log.v ===== *)
(** Log: the write-ahead log of db/log_format.h, db/log_writer.cc and db/log_reader.cc.

    Records are cut into fragments that never cross a 32 KiB block, each with a masked checksum, a length and a type. *)

From Stdlib Require Import Strings.Byte Strings.String.
From stdpp Require Import pretty.
From S2P Require Import Prelude Coding Crc32c Status Env.

(** * Format *)

Inductive RecordType := kZeroType | kFullType | kFirstType | kMiddleType | kLastType.

Definition RecordType_val (t : RecordType) : Z :=
  match t with
  | kZeroType => 0
  | kFullType => 1
  | kFirstType => 2
  | kMiddleType => 3
  | kLastType => 4
  end.

Definition kMaxRecordType : Z := RecordType_val kLastType.

Definition kBlockSize : Z := 32768.
Definition kHeaderSize : Z := 4 + 2 + 1.

(** The results that [ReadPhysicalRecord] returns beside the types. *)
Definition kEof : Z := kMaxRecordType + 1.
Definition kBadRecord : Z := kMaxRecordType + 2.

Section Log.
Context (extend : Z -> slice -> Z).

(** * Writer *)

(** The entry of [type_crc_] that [InitTypeCrc] computes. *)
Definition type_crc (t : Z) : Z := extend 0 [of_uval t].

Record Writer := MkWriter {
  dest_ : WritableFile;
  block_offset_ : Z;
}.

Definition NewWriter (dest : WritableFile) : Writer := MkWriter dest 0.

Definition NewWriter_at (dest : WritableFile) (dest_length : Z) : Writer :=
  MkWriter dest (dest_length mod kBlockSize).

(** The header and payload bytes of a physical record. *)
Definition record_header (t : RecordType) (payload : slice) : slice :=
  let length := slen payload in
  let crc := Mask (extend (type_crc (RecordType_val t)) payload) in
  EncodeFixed32 crc ++ [of_uval (Z.land length 0xff); of_uval (Z.shiftr length 8); of_uval (RecordType_val t)].

Definition EmitPhysicalRecord (t : RecordType) (payload : slice) (w : Writer) : Status * Writer :=
  let '(s, dest) := WritableFile_Append (record_header t payload) (dest_ w) in
  let '(s, dest) :=
    if ok s then
      let '(s, dest) := WritableFile_Append payload dest in
      if ok s then WritableFile_Flush dest else (s, dest)
    else (s, dest) in
  (s, MkWriter dest (block_offset_ w + kHeaderSize + slen payload)).

(** One iteration of the loop of [AddRecord] on the bytes [left_]: the status, the bytes left after it and the
    writer. *)
Definition AddRecord_step (begin : bool) (left_ : slice) (w : Writer) : Status * slice * Writer :=
  let leftover := kBlockSize - block_offset_ w in
  let w :=
    if leftover <? kHeaderSize then
      let dest :=
        if 0 <? leftover then snd (WritableFile_Append (repeat Byte.x00 (Z.to_nat leftover)) (dest_ w))
        else dest_ w in
      MkWriter dest 0
    else w in
  let avail := kBlockSize - block_offset_ w - kHeaderSize in
  let fragment_length := if slen left_ <? avail then slen left_ else avail in
  let end_ := slen left_ =? fragment_length in
  let type :=
    if begin && end_ then kFullType
    else if begin then kFirstType
    else if end_ then kLastType
    else kMiddleType in
  let '(s, w) := EmitPhysicalRecord type (take (Z.to_nat fragment_length) left_) w in
  (s, drop (Z.to_nat fragment_length) left_, w).

(** The loop; every iteration after the first consumes bytes, so [fuel] = the bytes left plus one is enough. *)
Fixpoint AddRecord_loop (fuel : nat) (begin : bool) (left_ : slice) (w : Writer) : Status * Writer :=
  match fuel with
  | O => (OK, w)
  | S fuel =>
      let '(s, left_, w) := AddRecord_step begin left_ w in
      if ok s && (0 <? slen left_) then AddRecord_loop fuel false left_ w else (s, w)
  end.

Definition AddRecord (slice_ : slice) (w : Writer) : Status * Writer :=
  AddRecord_loop (S (length slice_)) true slice_ w.

(** * Reader *)

(** A call of [Reporter::Corruption]. *)
Record drop_report := DropReport { dr_bytes : Z; dr_status : Status }.

Record Reader := MkReader {
  file_ : SequentialFile;
  has_reporter_ : bool;
  checksum_ : bool;
  buffer_ : slice;
  eof_ : bool;
  last_record_offset_ : Z;
  end_of_buffer_offset_ : Z;
  initial_offset_ : Z;
  resyncing_ : bool;
  reports_ : list drop_report;
}.

Definition NewReader (file : SequentialFile) (reporter checksum : bool) (initial_offset : Z) : Reader :=
  MkReader file reporter checksum [] false 0 0 initial_offset (0 <? initial_offset) [].

Definition set_file (f : SequentialFile) (r : Reader) : Reader :=
  MkReader f (has_reporter_ r) (checksum_ r) (buffer_ r) (eof_ r) (last_record_offset_ r)
    (end_of_buffer_offset_ r) (initial_offset_ r) (resyncing_ r) (reports_ r).
Definition set_buffer (b : slice) (r : Reader) : Reader :=
  MkReader (file_ r) (has_reporter_ r) (checksum_ r) b (eof_ r) (last_record_offset_ r)
    (end_of_buffer_offset_ r) (initial_offset_ r) (resyncing_ r) (reports_ r).
Definition set_eof (e : bool) (r : Reader) : Reader :=
  MkReader (file_ r) (has_reporter_ r) (checksum_ r) (buffer_ r) e (last_record_offset_ r)
    (end_of_buffer_offset_ r) (initial_offset_ r) (resyncing_ r) (reports_ r).
Definition set_last_record_offset (o : Z) (r : Reader) : Reader :=
  MkReader (file_ r) (has_reporter_ r) (checksum_ r) (buffer_ r) (eof_ r) o
    (end_of_buffer_offset_ r) (initial_offset_ r) (resyncing_ r) (reports_ r).
Definition set_end_of_buffer_offset (o : Z) (r : Reader) : Reader :=
  MkReader (file_ r) (has_reporter_ r) (checksum_ r) (buffer_ r) (eof_ r) (last_record_offset_ r)
    o (initial_offset_ r) (resyncing_ r) (reports_ r).
Definition set_resyncing (b : bool) (r : Reader) : Reader :=
  MkReader (file_ r) (has_reporter_ r) (checksum_ r) (buffer_ r) (eof_ r) (last_record_offset_ r)
    (end_of_buffer_offset_ r) (initial_offset_ r) b (reports_ r).
Definition add_report (d : drop_report) (r : Reader) : Reader :=
  MkReader (file_ r) (has_reporter_ r) (checksum_ r) (buffer_ r) (eof_ r) (last_record_offset_ r)
    (end_of_buffer_offset_ r) (initial_offset_ r) (resyncing_ r) (reports_ r ++ [d]).

(** The comparison is on [uint64_t]. *)
Definition ReportDrop (bytes : Z) (reason : Status) (r : Reader) : Reader :=
  if has_reporter_ r && (initial_offset_ r <=? u64 (end_of_buffer_offset_ r - slen (buffer_ r) - bytes))
  then add_report (DropReport bytes reason) r
  else r.

Definition ReportCorruption (bytes : Z) (reason : slice) (r : Reader) : Reader :=
  ReportDrop bytes (Corruption reason []) r.

Definition SkipToInitialBlock (r : Reader) : bool * Reader :=
  let offset_in_block := initial_offset_ r mod kBlockSize in
  let block_start_location := initial_offset_ r - offset_in_block in
  let block_start_location :=
    if kBlockSize - 6 <? offset_in_block then u64 (block_start_location + kBlockSize) else block_start_location in
  let r := set_end_of_buffer_offset block_start_location r in
  if 0 <? block_start_location then
    let '(skip_status, file) := SequentialFile_Skip block_start_location (file_ r) in
    let r := set_file file r in
    if negb (ok skip_status) then (false, ReportDrop block_start_location skip_status r)
    else (true, r)
  else (true, r).

(** The part of [ReadPhysicalRecord] that parses a buffer of at least a header: the record type, the fragment ([None]
    when [*result] is left alone) and the reader. *)
Definition ParsePhysicalRecord (r : Reader) : Z * option slice * Reader :=
  let header := buffer_ r in
  let a := byte_at header 4 in
  let b := byte_at header 5 in
  let type := u32 (sval (nth 6 header Byte.x00)) in
  let length_ := Z.lor a (Z.shiftl b 8) in
  if slen (buffer_ r) <? kHeaderSize + length_ then
    let drop_size := slen (buffer_ r) in
    let r := set_buffer [] r in
    if negb (eof_ r) then (kBadRecord, None, ReportCorruption drop_size (lit "bad record length") r)
    else (kEof, None, r)
  else if (type =? RecordType_val kZeroType) && (length_ =? 0) then
    (kBadRecord, None, set_buffer [] r)
  else if checksum_ r &&
          negb (extend 0 (take (Z.to_nat (1 + length_)) (drop 6 header)) =? Unmask (DecodeFixed32 header)) then
    let drop_size := slen (buffer_ r) in
    let r := set_buffer [] r in
    (kBadRecord, None, ReportCorruption drop_size (lit "checksum mismatch") r)
  else
    let r := set_buffer (drop (Z.to_nat (kHeaderSize + length_)) (buffer_ r)) r in
    if u64 (end_of_buffer_offset_ r - slen (buffer_ r) - kHeaderSize - length_) <? initial_offset_ r then
      (kBadRecord, Some [], r)
    else
      (type, Some (take (Z.to_nat length_) (drop (Z.to_nat kHeaderSize) header)), r).

(** The loop of [ReadPhysicalRecord]: it refills the buffer at most twice. [None] is a lack of fuel. *)
Fixpoint ReadPhysicalRecord_loop (fuel : nat) (r : Reader) : option (Z * option slice * Reader) :=
  match fuel with
  | O => None
  | S fuel =>
      if slen (buffer_ r) <? kHeaderSize then
        if negb (eof_ r) then
          let '(data, status, file) := SequentialFile_Read kBlockSize (file_ r) in
          let r := set_file file (set_buffer data r) in
          let r := set_end_of_buffer_offset (u64 (end_of_buffer_offset_ r + slen (buffer_ r))) r in
          if negb (ok status) then
            let r := set_buffer [] r in
            let r := ReportDrop kBlockSize status r in
            Some (kEof, None, set_eof true r)
          else
            let r := if slen (buffer_ r) <? kBlockSize then set_eof true r else r in
            ReadPhysicalRecord_loop fuel r
        else Some (kEof, None, set_buffer [] r)
      else Some (ParsePhysicalRecord r)
  end.

Definition ReadPhysicalRecord (r : Reader) : option (Z * option slice * Reader) := ReadPhysicalRecord_loop 2 r.

(** The local variables of [ReadRecord]. *)
Record rr_locals := RRLocals {
  rr_fragment : slice;
  rr_scratch : slice;
  rr_in_fragmented_record : bool;
  rr_prospective_record_offset : Z;
}.

(** The record read, or [None] for a [false] result; the outer [None] is a lack of fuel. *)
Fixpoint ReadRecord_loop (fuel : nat) (l : rr_locals) (r : Reader) : option (option slice * Reader) :=
  match fuel with
  | O => None
  | S fuel =>
      match ReadPhysicalRecord r with
      | None => None
      | Some (record_type, result, r) =>
          let fragment := default (rr_fragment l) result in
          let scratch := rr_scratch l in
          let in_fragmented_record := rr_in_fragmented_record l in
          let physical_record_offset :=
            u64 (end_of_buffer_offset_ r - slen (buffer_ r) - kHeaderSize - slen fragment) in
          let prospective := rr_prospective_record_offset l in
          let again := fun scratch infr prospective r =>
            ReadRecord_loop fuel (RRLocals fragment scratch infr prospective) r in
          if resyncing_ r && (record_type =? RecordType_val kMiddleType) then
            again scratch in_fragmented_record prospective r
          else if resyncing_ r && (record_type =? RecordType_val kLastType) then
            again scratch in_fragmented_record prospective (set_resyncing false r)
          else
            let r := if resyncing_ r then set_resyncing false r else r in
            if record_type =? RecordType_val kFullType then
              let r :=
                if in_fragmented_record && negb (bool_decide (scratch = []))
                then ReportCorruption (slen scratch) (lit "partial record without end(1)") r else r in
              Some (Some fragment, set_last_record_offset physical_record_offset r)
            else if record_type =? RecordType_val kFirstType then
              let r :=
                if in_fragmented_record && negb (bool_decide (scratch = []))
                then ReportCorruption (slen scratch) (lit "partial record without end(2)") r else r in
              again fragment true physical_record_offset r
            else if record_type =? RecordType_val kMiddleType then
              if negb in_fragmented_record then
                again scratch in_fragmented_record prospective
                  (ReportCorruption (slen fragment) (lit "missing start of fragmented record(1)") r)
              else again (scratch ++ fragment) in_fragmented_record prospective r
            else if record_type =? RecordType_val kLastType then
              if negb in_fragmented_record then
                again scratch in_fragmented_record prospective
                  (ReportCorruption (slen fragment) (lit "missing start of fragmented record(2)") r)
              else Some (Some (scratch ++ fragment), set_last_record_offset prospective r)
            else if record_type =? kEof then
              Some (None, r)
            else if record_type =? kBadRecord then
              if in_fragmented_record then
                again [] false prospective (ReportCorruption (slen scratch) (lit "error in middle of record") r)
              else again scratch in_fragmented_record prospective r
            else
              again [] false prospective
                (ReportCorruption (slen fragment + (if in_fragmented_record then slen scratch else 0))
                   (lit "unknown record type " ++ lit (pretty record_type)) r)
      end
  end.

(** The physical records that remain: every one takes at least one byte of what is not yet parsed. *)
Definition reader_fuel (r : Reader) : nat := S (S (length (buffer_ r) + length (sf_rest (file_ r)))).

Definition ReadRecord (r : Reader) : option (option slice * Reader) :=
  let '(go, r) := if last_record_offset_ r <? initial_offset_ r then SkipToInitialBlock r else (true, r) in
  if go then ReadRecord_loop (reader_fuel r) (RRLocals [] [] false 0) r
  else Some (None, r).

(** The loop of the reader's clients: [ReadRecord] until it returns [false]. *)
Fixpoint ReadAll (fuel : nat) (r : Reader) : option (list slice * Reader) :=
  match fuel with
  | O => None
  | S fuel =>
      match ReadRecord r with
      | None => None
      | Some (None, r) => Some ([], r)
      | Some (Some rec, r) =>
          match ReadAll fuel r with
          | None => None
          | Some (recs, r) => Some (rec :: recs, r)
          end
      end
  end.
End Log.

(** * The layout of a log *)

Section LogProofs.
Context (extend : Z -> slice -> Z) `{!Checksum extend}.

(** A physical record. *)
Definition phys (t : RecordType) (d : slice) : slice := record_header extend t d ++ d.

(** What the writer puts before a record at block offset [off], and the offset of the record. *)
Definition pad (off : Z) : slice :=
  if kBlockSize - off <? kHeaderSize then repeat Byte.x00 (Z.to_nat (kBlockSize - off)) else [].
Definition start (off : Z) : Z := if kBlockSize - off <? kHeaderSize then 0 else off.
Definition next_off (off : Z) (d : slice) : Z := start off + kHeaderSize + slen d.

(** The bytes of a sequence of fragments written from block offset [off]. *)
Fixpoint layout (off : Z) (frags : list (RecordType * slice)) : slice :=
  match frags with
  | [] => []
  | (t, d) :: frags => pad off ++ phys t d ++ layout (next_off off d) frags
  end.

Fixpoint end_off (off : Z) (frags : list (RecordType * slice)) : Z :=
  match frags with
  | [] => off
  | (t, d) :: frags => end_off (next_off off d) frags
  end.

(** Every fragment fits its block. *)
Fixpoint frags_fit (off : Z) (frags : list (RecordType * slice)) : Prop :=
  match frags with
  | [] => True
  | (t, d) :: frags => t <> kZeroType /\ next_off off d <= kBlockSize /\ frags_fit (next_off off d) frags
  end.

(** The fragments of a record after the first, and of a whole record. *)
Inductive is_tail : list (RecordType * slice) -> slice -> Prop :=
| tail_last d : is_tail [(kLastType, d)] d
| tail_middle d frags s : is_tail frags s -> is_tail ((kMiddleType, d) :: frags) (d ++ s).

Inductive is_record : list (RecordType * slice) -> slice -> Prop :=
| record_full d : is_record [(kFullType, d)] d
| record_first d frags s : is_tail frags s -> is_record ((kFirstType, d) :: frags) (d ++ s).

Lemma length_record_header t d : length (record_header extend t d) = 7%nat.
Proof. done. Qed.

Lemma length_phys t d : slen (phys t d) = kHeaderSize + slen d.
Proof. unfold phys. rewrite length_app, length_record_header. unfold kHeaderSize. lia. Qed.

Lemma start_range off : 0 <= off <= kBlockSize -> 0 <= start off <= kBlockSize - kHeaderSize.
Proof. unfold start, kHeaderSize, kBlockSize. case_match eqn:E; lia. Qed.

Lemma layout_app off f1 f2 : layout off (f1 ++ f2) = layout off f1 ++ layout (end_off off f1) f2.
Proof.
  revert off. induction f1 as [|[t d] f1 IH]; intros off; [done|]. cbn [layout end_off app]. rewrite IH, <-!app_assoc. done.
Qed.

Lemma frags_fit_app off f1 f2 : frags_fit off (f1 ++ f2) <-> frags_fit off f1 /\ frags_fit (end_off off f1) f2.
Proof. revert off. induction f1 as [|[t d] f1 IH]; intros off; simpl; [tauto|]. rewrite IH. tauto. Qed.

Lemma end_off_app off f1 f2 : end_off off (f1 ++ f2) = end_off (end_off off f1) f2.
Proof. revert off. induction f1 as [|[t d] f1 IH]; intros off; simpl; [done|]. apply IH. Qed.

Lemma end_off_range off frags : 0 <= off <= kBlockSize -> frags_fit off frags -> 0 <= end_off off frags <= kBlockSize.
Proof.
  revert off. induction frags as [|[t d] frags IH]; intros off Hoff; simpl; [lia|]. intros (_ & Hd & Hf).
  apply IH; [|done]. pose proof (start_range off Hoff). unfold next_off, kHeaderSize in *. lia.
Qed.

(** * The writer *)

(** A writer over a device without faults. *)
Definition clean (c : slice) (off : Z) : Writer := MkWriter (MkWritableFile c []) off.

Lemma EmitPhysicalRecord_clean t d c off :
  EmitPhysicalRecord extend t d (clean c off) = (OK, clean (c ++ phys t d) (off + kHeaderSize + slen d)).
Proof. unfold EmitPhysicalRecord, clean, phys. simpl. by rewrite <-app_assoc. Qed.

(** The length of the next fragment. *)
Definition frag_len (off : Z) (left_ : slice) : Z := Z.min (slen left_) (kBlockSize - start off - kHeaderSize).

Definition frag_type (begin : bool) (off : Z) (left_ : slice) : RecordType :=
  let end_ := slen left_ =? frag_len off left_ in
  if begin && end_ then kFullType else if begin then kFirstType else if end_ then kLastType else kMiddleType.

Lemma AddRecord_step_clean begin left_ c off :
  0 <= off <= kBlockSize ->
  let n := Z.to_nat (frag_len off left_) in
  AddRecord_step extend begin left_ (clean c off) =
    (OK, drop n left_, clean (c ++ pad off ++ phys (frag_type begin off left_) (take n left_)) (next_off off (take n left_))).
Proof.
  intros Hoff n.
  assert (Hw : (if kBlockSize - off <? kHeaderSize then
      MkWriter (if 0 <? kBlockSize - off
                then snd (WritableFile_Append (repeat Byte.x00 (Z.to_nat (kBlockSize - off))) (MkWritableFile c []))
                else MkWritableFile c []) 0
      else clean c off) = clean (c ++ pad off) (start off)).
  { unfold pad, start, clean. case_match; [|by rewrite app_nil_r].
    destruct (Z.ltb_spec 0 (kBlockSize - off)); [done|].
    replace (kBlockSize - off) with 0 by lia. simpl. by rewrite app_nil_r. }
  unfold AddRecord_step. cbn [block_offset_ dest_ clean]. fold (clean c off). rewrite Hw.
  cbn [block_offset_ clean]. fold (clean (c ++ pad off) (start off)).
  assert (Hn : (if slen left_ <? kBlockSize - start off - kHeaderSize then slen left_ else kBlockSize - start off - kHeaderSize)
     = frag_len off left_) by (unfold frag_len; destruct (Z.ltb_spec (slen left_) (kBlockSize - start off - kHeaderSize)); lia).
  rewrite Hn. fold n. fold (frag_type begin off left_). rewrite EmitPhysicalRecord_clean. unfold next_off.
  by rewrite <-app_assoc.
Qed.

Lemma slen_take n (s : slice) : slen (take n s) = Z.min (Z.of_nat n) (slen s).
Proof. rewrite length_take. lia. Qed.

Lemma slen_drop n (s : slice) : slen (drop n s) = Z.max 0 (slen s - Z.of_nat n).
Proof. rewrite length_drop. lia. Qed.

(** The fragment of one step, and where it leaves the writer. *)
Lemma frag_fits off left_ :
  0 <= off <= kBlockSize ->
  let n := Z.to_nat (frag_len off left_) in
  next_off off (take n left_) <= kBlockSize /\
  (slen left_ = frag_len off left_ -> drop n left_ = [] /\ take n left_ = left_) /\
  (slen left_ <> frag_len off left_ -> next_off off (take n left_) = kBlockSize /\ drop n left_ <> []).
Proof.
  intros Hoff n. pose proof (start_range off Hoff) as Hs. unfold next_off. rewrite slen_take.
  unfold n, frag_len in *. split_and!; [unfold kHeaderSize in *; lia| |].
  - intros E. rewrite <-E, Nat2Z.id. split; [by apply drop_ge|by apply take_ge].
  - intros E. split; [unfold kHeaderSize in *; lia|].
    intros H%(f_equal (length (A := byte))). rewrite length_drop in H. simpl in H. lia.
Qed.

Lemma AddRecord_loop_tail fuel left_ c :
  (length left_ <= fuel)%nat -> left_ <> [] ->
  exists frags, AddRecord_loop extend fuel false left_ (clean c kBlockSize) =
      (OK, clean (c ++ layout kBlockSize frags) (end_off kBlockSize frags)) /\
    is_tail frags left_ /\ frags_fit kBlockSize frags.
Proof.
  revert left_ c. induction fuel as [|fuel IH]; intros left_ c Hf Hn; [by destruct left_; simpl in *; [|lia]|].
  cbn [AddRecord_loop]. assert (Hoff : 0 <= kBlockSize <= kBlockSize) by (unfold kBlockSize; lia).
  rewrite AddRecord_step_clean by done. cbn [ok state_ OK bool_decide]. rewrite ok_OK. cbn [andb].
  set (n := Z.to_nat (frag_len kBlockSize left_)).
  destruct (frag_fits kBlockSize left_ Hoff) as (H1 & H2 & H3). fold n in H1, H2, H3.
  unfold frag_type. cbn [andb]. destruct (Z.eqb_spec (slen left_) (frag_len kBlockSize left_)) as [E|E].
  - destruct (H2 E) as [H4 H5]. rewrite H4. simpl. exists [(kLastType, take n left_)]. simpl. rewrite app_nil_r.
    split_and!; [done|rewrite H5; constructor|done|done|done].
  - destruct (H3 E) as [H4 H5]. destruct (Z.ltb_spec 0 (slen (drop n left_))); [|by destruct (drop n left_)].
    assert (Hlen : (length (drop n left_) <= fuel)%nat).
    { rewrite length_drop. unfold n, frag_len. change (start kBlockSize) with 0. unfold kBlockSize, kHeaderSize.
      destruct left_; simpl in *; [done|]. lia. }
    rewrite H4. destruct (IH (drop n left_) (c ++ pad kBlockSize ++ phys kMiddleType (take n left_)) Hlen H5)
      as (frags & -> & Ht & Hfit).
    exists ((kMiddleType, take n left_) :: frags). simpl. rewrite H4, <-!app_assoc. split_and!; try done.
    rewrite <-(take_drop n left_) at 2. by constructor.
Qed.

Lemma AddRecord_clean rec c off :
  0 <= off <= kBlockSize ->
  exists frags, AddRecord extend rec (clean c off) = (OK, clean (c ++ layout off frags) (end_off off frags)) /\
    is_record frags rec /\ frags_fit off frags.
Proof.
  intros Hoff. unfold AddRecord. cbn [AddRecord_loop]. rewrite AddRecord_step_clean by done. rewrite ok_OK. cbn [andb].
  set (n := Z.to_nat (frag_len off rec)).
  destruct (frag_fits off rec Hoff) as (H1 & H2 & H3). fold n in H1, H2, H3.
  unfold frag_type. cbn [andb]. destruct (Z.eqb_spec (slen rec) (frag_len off rec)) as [E|E].
  - destruct (H2 E) as [H4 H5]. rewrite H4. simpl. exists [(kFullType, take n rec)]. simpl. rewrite app_nil_r.
    split_and!; [done|rewrite H5; constructor|done|done|done].
  - destruct (H3 E) as [H4 H5]. destruct (Z.ltb_spec 0 (slen (drop n rec))); [|by destruct (drop n rec)].
    rewrite H4. destruct (AddRecord_loop_tail (length rec) (drop n rec) (c ++ pad off ++ phys kFirstType (take n rec)))
      as (frags & -> & Ht & Hfit); [rewrite length_drop; lia|done|].
    exists ((kFirstType, take n rec) :: frags). simpl. rewrite H4, <-!app_assoc. split_and!; try done.
    rewrite <-(take_drop n rec) at 2. by constructor.
Qed.

(** * The reader on a log *)

(** The configuration that reading leaves alone. *)
Definition same_config (r r' : Reader) : Prop :=
  reports_ r' = reports_ r /\ checksum_ r' = checksum_ r /\ has_reporter_ r' = has_reporter_ r.

(** The reader is at block offset [off] of a file of which [s] is not yet parsed, without resynchronising. *)
Definition rd_at (r : Reader) (off : Z) (s : slice) : Prop :=
  sf_faults (file_ r) = [] /\ initial_offset_ r = 0 /\ resyncing_ r = false /\ 0 <= last_record_offset_ r /\
  0 <= off <= kBlockSize /\ s = buffer_ r ++ sf_rest (file_ r) /\
  ((eof_ r = false /\ off + slen (buffer_ r) = kBlockSize) \/
   (eof_ r = true /\ sf_rest (file_ r) = [] /\ off + slen (buffer_ r) <= kBlockSize)).

Lemma record_header_bytes t d :
  slen d < 65536 ->
  byte_at (record_header extend t d) 4 = slen d mod 256 /\ byte_at (record_header extend t d) 5 = slen d / 256 /\
  u32 (sval (nth 6 (record_header extend t d) Byte.x00)) = RecordType_val t.
Proof.
  intros Hd. unfold record_header, byte_at. cbn [EncodeFixed32 app nth]. rewrite !uval_of_uval. split_and!.
  - rewrite land_255. unfold wrap. change (2 ^ 8) with 256. by rewrite Z.mod_mod.
  - rewrite Z.shiftr_div_pow2 by lia. apply wrap_small. unfold in_u. change (2 ^ 8) with 256. dlia.
  - unfold sval. rewrite uval_of_uval_small by (destruct t; simpl; lia). by destruct t.
Qed.

Lemma byte_at_app_l a b i : (i < length a)%nat -> byte_at (a ++ b) i = byte_at a i.
Proof. intros. unfold byte_at. by rewrite app_nth1. Qed.

Lemma phys_length_field t d rest :
  slen d < 65536 -> Z.lor (byte_at (phys t d ++ rest) 4) (Z.shiftl (byte_at (phys t d ++ rest) 5) 8) = slen d.
Proof.
  intros Hd. destruct (record_header_bytes t d Hd) as (H4 & H5 & _). unfold phys. rewrite <-app_assoc.
  rewrite !byte_at_app_l, H4, H5 by (rewrite length_record_header; lia).
  rewrite lor_shiftl_add by (try apply Z.mod_pos_bound; lia). change (2 ^ 8) with 256. dlia.
Qed.

Lemma phys_type_field t d rest :
  slen d < 65536 -> u32 (sval (nth 6 (phys t d ++ rest) Byte.x00)) = RecordType_val t.
Proof.
  intros Hd. destruct (record_header_bytes t d Hd) as (_ & _ & H6). unfold phys. rewrite <-app_assoc.
  rewrite app_nth1 by (rewrite length_record_header; lia). done.
Qed.

(** The stored checksum is the one the reader computes from the type byte and the payload. *)
Lemma phys_checksum t d rest :
  extend 0 (take (Z.to_nat (1 + slen d)) (drop 6 (phys t d ++ rest))) = Unmask (DecodeFixed32 (phys t d ++ rest)).
Proof.
  unfold phys, record_header. rewrite <-!app_assoc, DecodeFixed32_Encode.
  assert (H0 : is_u32 0) by (unfold in_u; lia).
  rewrite wrap_small by apply Mask_u32. unfold type_crc.
  rewrite Unmask_Mask by (apply checksum_u32, checksum_u32; done). rewrite checksum_app by done. f_equal.
  replace (Z.to_nat (1 + slen d)) with (S (length d)) by lia.
  cbn [EncodeFixed32 app drop take]. by rewrite take_app_length.
Qed.

Lemma u64_ltb_0 z : (u64 z <? 0) = false.
Proof. pose proof (wrap_range 64 z ltac:(lia)). destruct (Z.ltb_spec (u64 z) 0); [lia|done]. Qed.

Lemma ParsePhysicalRecord_phys r t d rest :
  buffer_ r = phys t d ++ rest -> slen d < 65536 -> t <> kZeroType -> initial_offset_ r = 0 ->
  ParsePhysicalRecord extend r = (RecordType_val t, Some d, set_buffer rest r).
Proof.
  intros Hb Hd Ht Hi. unfold ParsePhysicalRecord. rewrite Hb, phys_length_field, phys_type_field by done.
  rewrite length_app, Nat2Z.inj_add, length_phys.
  destruct (Z.ltb_spec (kHeaderSize + slen d + slen rest) (kHeaderSize + slen d)); [lia|].
  assert ((RecordType_val t =? RecordType_val kZeroType) = false) as -> by by destruct t.
  cbn [andb]. rewrite phys_checksum, Z.eqb_refl, andb_false_r.
  cbn [set_buffer end_of_buffer_offset_ buffer_ initial_offset_]. rewrite Hi.
  rewrite u64_ltb_0.
  assert (E : Z.to_nat (kHeaderSize + slen d) = length (phys t d)) by (pose proof (length_phys t d); lia).
  rewrite E, drop_app_length. unfold phys. rewrite <-app_assoc.
  change (Z.to_nat kHeaderSize) with (length (record_header extend t d)) at 1. rewrite drop_app_length, Nat2Z.id, take_app_length.
  done.
Qed.

(** A header whose payload is cut short by the end of the file. *)
Lemma ParsePhysicalRecord_short r t d :
  buffer_ r `prefix_of` phys t d -> kHeaderSize <= slen (buffer_ r) < kHeaderSize + slen d -> slen d < 65536 ->
  eof_ r = true -> ParsePhysicalRecord extend r = (kEof, None, set_buffer [] r).
Proof.
  intros [k Hk] Hlen Hd He. unfold ParsePhysicalRecord.
  assert (Hl : Z.lor (byte_at (buffer_ r) 4) (Z.shiftl (byte_at (buffer_ r) 5) 8) = slen d).
  { rewrite <-(phys_length_field t d [] Hd), app_nil_r, Hk, !byte_at_app_l by (unfold kHeaderSize in *; lia). done. }
  rewrite Hl. destruct (Z.ltb_spec (slen (buffer_ r)) (kHeaderSize + slen d)); [|lia].
  cbn [set_buffer eof_]. by rewrite He.
Qed.

Lemma rd_at_set_buffer r off s b n :
  rd_at r off s -> 0 <= n -> off + n <= kBlockSize ->
  (exists k, buffer_ r = k ++ b /\ slen k = n) ->
  rd_at (set_buffer b r) (off + n) (b ++ sf_rest (file_ r)).
Proof.
  intros (Hf & Hi & Hy & Hl & Ho & Hs & He) Hn Hr (k & Hk & Hkn). unfold rd_at. cbn [set_buffer file_ initial_offset_ resyncing_ last_record_offset_ buffer_ eof_].
  rewrite Hk, length_app in He. split_and!; try done; try lia.
  destruct He as [(? & ?)|(? & ? & ?)]; [left|right]; split_and!; try done; lia.
Qed.

(** At the offset of a physical record the reader returns it, or the end of a file that stops inside it. *)
Lemma ReadPhysicalRecord_at fuel r off s t d L :
  rd_at r off s -> s `prefix_of` phys t d ++ L -> off + kHeaderSize + slen d <= kBlockSize -> t <> kZeroType ->
  (exists s' r', s = phys t d ++ s' /\ s' `prefix_of` L /\
     ReadPhysicalRecord_loop extend (S fuel) r = Some (RecordType_val t, Some d, r') /\
     rd_at r' (off + kHeaderSize + slen d) s' /\ same_config r r') \/
  (slen s < slen (phys t d) /\ exists r', ReadPhysicalRecord_loop extend (S fuel) r = Some (kEof, None, r') /\ same_config r r').
Proof.
  intros Hr Hp Hroom Ht. pose proof Hr as (Hf & Hi & Hy & Hl & Ho & Hs & He).
  assert (Hd : slen d < 65536) by (unfold kBlockSize, kHeaderSize in *; lia).
  apply prefix_app_cases in Hp as [(s' & Hs' & Hp')|[Hp Hlt]].
  - left. assert (Hb : exists b, buffer_ r = phys t d ++ b /\ s' = b ++ sf_rest (file_ r)).
    { apply app_eq_split; [congruence|]. pose proof (length_phys t d). destruct He as [(? & ?)|(? & Hrest & ?)].
      - unfold kHeaderSize in *. lia.
      - rewrite Hrest, app_nil_r in Hs. rewrite <-Hs, Hs', length_app. lia. }
    destruct Hb as (b & Hb & ->). exists (b ++ sf_rest (file_ r)), (set_buffer b r).
    cbn [ReadPhysicalRecord_loop].
    destruct (Z.ltb_spec (slen (buffer_ r)) kHeaderSize) as [Hlt|_].
    { rewrite Hb, length_app in Hlt. pose proof (length_phys t d). lia. }
    rewrite (ParsePhysicalRecord_phys r t d b) by done. split_and!; try done.
    rewrite <-Z.add_assoc. apply rd_at_set_buffer with s; [done|unfold kHeaderSize; lia|lia|].
    exists (phys t d). split; [done|apply length_phys].
  - right. split; [lia|]. pose proof (length_phys t d) as Hlp.
    destruct He as [(He & Hbl)|(He & Hrest & Hbl)].
    { rewrite Hs, length_app in Hlt. unfold kHeaderSize in *. lia. }
    rewrite Hrest, app_nil_r in Hs. subst s. cbn [ReadPhysicalRecord_loop]. rewrite He. cbn [negb].
    destruct (Z.ltb_spec (slen (buffer_ r)) kHeaderSize) as [Hh|Hh].
    + eexists. split; [done|]. done.
    + rewrite (ParsePhysicalRecord_short r t d) by (done || lia). eexists. split; [done|]. done.
Qed.

Lemma length_pad off : 0 <= off <= kBlockSize -> slen (pad off) = if kBlockSize - off <? kHeaderSize then kBlockSize - off else 0.
Proof. intros. unfold pad. case_match; [|done]. rewrite repeat_length. lia. Qed.

(** The refill at the start of a block. *)
Lemma refill r off s :
  rd_at r off s -> slen (buffer_ r) < kHeaderSize -> eof_ r = false ->
  exists r1, ReadPhysicalRecord extend r = ReadPhysicalRecord_loop extend 1 r1 /\
    rd_at r1 0 (sf_rest (file_ r)) /\ same_config r r1.
Proof.
  intros (Hf & Hi & Hy & Hl & Ho & Hs & He) Hb Heof. unfold ReadPhysicalRecord. cbn [ReadPhysicalRecord_loop].
  destruct (Z.ltb_spec (slen (buffer_ r)) kHeaderSize); [|lia]. rewrite Heof. cbn [negb].
  unfold SequentialFile_Read. rewrite Hf, ok_OK. cbn [negb]. set (b := take (Z.to_nat kBlockSize) (sf_rest (file_ r))).
  set (r0 := set_end_of_buffer_offset _ _). exists (if slen b <? kBlockSize then set_eof true r0 else r0).
  split; [done|]. assert (Hlb : slen b = Z.min kBlockSize (slen (sf_rest (file_ r)))).
  { unfold b. rewrite slen_take. unfold kBlockSize. lia. }
  split; [|destruct (slen b <? kBlockSize); done].
  assert (Hjoin : sf_rest (file_ r) = b ++ drop (Z.to_nat kBlockSize) (sf_rest (file_ r))) by (unfold b; by rewrite take_drop).
  destruct (Z.ltb_spec (slen b) kBlockSize) as [Hshort|Hfull]; unfold rd_at, r0;
    cbn [set_eof set_end_of_buffer_offset set_file set_buffer file_ initial_offset_ resyncing_ last_record_offset_ buffer_ eof_ sf_rest sf_faults];
    (split_and!; [done|done|done|done|lia|unfold kBlockSize; lia|done|]).
  - right. split_and!; [done| |lia]. apply drop_ge. unfold kBlockSize in *. lia.
  - left. split; [done|]. lia.
Qed.

Lemma same_config_trans r1 r2 r3 : same_config r1 r2 -> same_config r2 r3 -> same_config r1 r3.
Proof. unfold same_config. intuition congruence. Qed.

(** The next fragment of a log, or the end of a file that stops before the fragment is complete. *)
Lemma ReadPhysicalRecord_layout r off s t d frags :
  rd_at r off s -> s `prefix_of` layout off ((t, d) :: frags) -> frags_fit off ((t, d) :: frags) ->
  (exists s' r', s = pad off ++ phys t d ++ s' /\ s' `prefix_of` layout (next_off off d) frags /\
     ReadPhysicalRecord extend r = Some (RecordType_val t, Some d, r') /\
     rd_at r' (next_off off d) s' /\ same_config r r') \/
  (slen s < slen (pad off ++ phys t d) /\
   exists r', ReadPhysicalRecord extend r = Some (kEof, None, r') /\ same_config r r').
Proof.
  intros Hr Hp (Ht & Hfit & _). pose proof Hr as (Hf & Hi & Hy & Hl & Ho & Hs & He).
  cbn [layout] in Hp. pose proof (length_pad off Ho) as Hpad.
  unfold next_off, start in *. unfold pad in Hp |- *.
  destruct (Z.ltb_spec (kBlockSize - off) kHeaderSize) as [Hlo|Hhi]; cycle 1.
  { cbn [app] in *. apply ReadPhysicalRecord_at with (fuel := 1%nat) (r := r) (off := off) in Hp; done. }
  fold (pad off) in *. assert (Hpd : repeat Byte.x00 (Z.to_nat (kBlockSize - off)) = pad off).
  { unfold pad. destruct (Z.ltb_spec (kBlockSize - off) kHeaderSize); [done|lia]. }
  rewrite Hpd in Hp |- *. destruct He as [(Heof & Hbl)|(Heof & Hrest & Hbl)].
  - destruct (refill r off s Hr ltac:(lia) Heof) as (r1 & -> & Hr1 & Hc1).
    assert (Hbuf : buffer_ r = pad off /\ sf_rest (file_ r) `prefix_of` phys t d ++ layout (0 + kHeaderSize + slen d) frags).
    { destruct Hp as [k Hk]. rewrite Hs, <-app_assoc in Hk. symmetry in Hk.
      apply app_eq_split in Hk as (m & Hm & Hk); [|lia].
      assert (m = []) as -> by (apply nil_length_inv; apply (f_equal (length (A := byte))) in Hm; rewrite length_app in Hm; lia).
      rewrite app_nil_r in Hm. split; [done|]. by exists k. }
    destruct Hbuf as [Hbuf Hpre].
    destruct (ReadPhysicalRecord_at 0 r1 0 _ t d _ Hr1 Hpre ltac:(lia) Ht) as [(s' & r' & E & Hp' & E2 & Hr' & Hc)|(Hlt & r' & E2 & Hc)].
    + left. exists s', r'. rewrite Hs, Hbuf, E. split_and!; try done. by eapply same_config_trans.
    + right. split; [rewrite Hs, Hbuf, !length_app; lia|]. exists r'. split; [done|]. by eapply same_config_trans.
  - right. rewrite Hrest, app_nil_r in Hs. subst s.
    split; [rewrite length_app; pose proof (length_phys t d); unfold kHeaderSize in *; lia|].
    unfold ReadPhysicalRecord. cbn [ReadPhysicalRecord_loop].
    destruct (Z.ltb_spec (slen (buffer_ r)) kHeaderSize); [|lia]. rewrite Heof. cbn [negb].
    eexists. split; [done|]. done.
Qed.

(** At the end of the fragments the reader is at the end of the file. *)
Lemma ReadPhysicalRecord_end r off :
  rd_at r off [] -> exists r', ReadPhysicalRecord extend r = Some (kEof, None, r') /\ same_config r r'.
Proof.
  intros Hr. pose proof Hr as (Hf & Hi & Hy & Hl & Ho & Hs & He). symmetry in Hs. apply app_nil in Hs as [Hb Hrest].
  destruct He as [(Heof & Hbl)|(Heof & _ & Hbl)].
  - destruct (refill r off [] Hr) as (r1 & -> & Hr1 & Hc); [rewrite Hb; done|done|].
    pose proof Hr1 as (_ & _ & _ & _ & _ & Hs1 & He1). rewrite Hrest in Hs1. symmetry in Hs1. apply app_nil in Hs1 as [Hb1 Hrest1].
    destruct He1 as [(_ & He1)|(He1 & _)]; [rewrite Hb1 in He1; unfold kBlockSize in He1; simpl in He1; lia|].
    cbn [ReadPhysicalRecord_loop]. rewrite Hb1, He1. cbn. eexists. split; [done|]. destruct Hc as (? & ? & ?). done.
  - unfold ReadPhysicalRecord. cbn [ReadPhysicalRecord_loop]. rewrite Hb, Heof. cbn. eexists. split; [done|]. done.
Qed.

Lemma rd_at_set_last r off s o : rd_at r off s -> 0 <= o -> rd_at (set_last_record_offset o r) off s.
Proof. unfold rd_at. cbn. intuition. Qed.

Lemma rd_at_resyncing r off s : rd_at r off s -> resyncing_ r = false.
Proof. by intros (_ & _ & ? & _). Qed.

(** The outcome of reading the fragments [frags] of a record [rec] at [off], when [frags'] follow. *)
Definition read_outcome (o : option (option slice * Reader)) (r : Reader) (off : Z) (s : slice)
    (frags frags' : list (RecordType * slice)) (rec : slice) : Prop :=
  (exists s' r', o = Some (Some rec, r') /\ s = layout off frags ++ s' /\
     s' `prefix_of` layout (end_off off frags) frags' /\ rd_at r' (end_off off frags) s' /\ same_config r r') \/
  (exists r', o = Some (None, r') /\ slen s < slen (layout off frags) /\ same_config r r').

(** The branches of [ReadRecord_loop] once a physical record was read. *)
Lemma ReadRecord_loop_eof fuel l r r' :
  ReadPhysicalRecord extend r = Some (kEof, None, r') -> resyncing_ r' = false ->
  ReadRecord_loop extend (S fuel) l r = Some (None, r').
Proof. intros E Hy. cbn [ReadRecord_loop]. rewrite E, Hy. done. Qed.

Lemma ReadPhysicalRecord_resyncing r r' t d :
  ReadPhysicalRecord extend r = Some (t, d, r') -> resyncing_ r' = resyncing_ r.
Proof.
  assert (Hrep : forall n st r, resyncing_ (ReportDrop n st r) = resyncing_ r).
  { intros n st r0. unfold ReportDrop. by case_match. }
  assert (Hparse : forall r t d r', ParsePhysicalRecord extend r = (t, d, r') -> resyncing_ r' = resyncing_ r).
  { intros r0 t0 d0 r0'. unfold ParsePhysicalRecord, ReportCorruption.
    repeat case_match; intros [= <- <- <-]; rewrite ?Hrep; done. }
  unfold ReadPhysicalRecord. generalize 2%nat as fuel. intros fuel. revert r.
  induction fuel as [|fuel IH]; intros r; cbn [ReadPhysicalRecord_loop]; [done|].
  destruct (slen (buffer_ r) <? kHeaderSize); cycle 1.
  { intros [= E]. eapply Hparse. exact E. }
  destruct (negb (eof_ r)); [|by intros [= <- <- <-]].
  destruct (SequentialFile_Read kBlockSize (file_ r)) as [[data st] file].
  destruct (negb (ok st)); [intros [= <- <- <-]; cbn; by rewrite Hrep|].
  intros H%IH. rewrite H. by case_match.
Qed.

Lemma layout_cons_length off t d frags :
  slen (layout off ((t, d) :: frags)) = slen (pad off ++ phys t d) + slen (layout (next_off off d) frags).
Proof. cbn [layout]. rewrite !length_app. lia. Qed.

Lemma ReadRecord_loop_tail fuel frags frags' x r off s fr acc o :
  is_tail frags x -> rd_at r off s -> s `prefix_of` layout off (frags ++ frags') ->
  frags_fit off (frags ++ frags') -> (length s < fuel)%nat -> 0 <= o ->
  read_outcome (ReadRecord_loop extend fuel (RRLocals fr acc true o) r) r off s frags frags' (acc ++ x).
Proof.
  intros Hx. revert fuel r off s fr acc. induction Hx as [d|d frags x Hx IH]; intros fuel r off s fr acc Hr Hp Hfit Hfuel Ho;
    (destruct fuel as [|fuel]; [lia|]); pose proof Hp as Hp0; cbn [app] in Hp, Hfit;
    destruct (ReadPhysicalRecord_layout r off s _ _ _ Hr Hp Hfit) as [(s' & r' & E & Hp' & E2 & Hr' & Hc)|(Hlt & r' & E2 & Hc)].
  - left. cbn [ReadRecord_loop]. rewrite E2, (rd_at_resyncing _ _ _ Hr'). cbn.
    exists s', (set_last_record_offset o r'). cbn [layout end_off]. rewrite app_nil_r, <-app_assoc.
    split_and!; try done. by apply rd_at_set_last.
  - right. exists r'. pose proof (ReadPhysicalRecord_resyncing _ _ _ _ E2) as Hy. rewrite (rd_at_resyncing _ _ _ Hr) in Hy.
    rewrite (ReadRecord_loop_eof fuel _ r r' E2 Hy). split_and!; [done|rewrite layout_cons_length; simpl length; lia|done].
  - cbn [ReadRecord_loop]. rewrite E2, (rd_at_resyncing _ _ _ Hr'). cbn [andb].
    change (RecordType_val kMiddleType =? RecordType_val kFullType) with false.
    change (RecordType_val kMiddleType =? RecordType_val kFirstType) with false.
    change (RecordType_val kMiddleType =? RecordType_val kMiddleType) with true. cbn [negb from_option id rr_fragment rr_scratch rr_in_fragmented_record rr_prospective_record_offset].
    rewrite app_assoc. destruct Hfit as (_ & _ & Hfit').
    destruct (IH fuel r' (next_off off d) s' d (acc ++ d) Hr' Hp' Hfit')
      as [(s2 & r2 & E3 & Es & Hp2 & Hr2 & Hc2)|(r2 & E3 & Hlt & Hc2)]; [|done| |].
    { rewrite E, !length_app in Hfuel. pose proof (length_phys kMiddleType d). unfold kHeaderSize in *. lia. }
    + left. exists s2, r2. rewrite E3. cbn [layout end_off]. rewrite E, Es, <-!app_assoc. split_and!; try done.
      by eapply same_config_trans.
    + right. exists r2. rewrite E3. split_and!; [done| |by eapply same_config_trans].
      rewrite layout_cons_length, E, !length_app. lia.
  - right. exists r'. pose proof (ReadPhysicalRecord_resyncing _ _ _ _ E2) as Hy. rewrite (rd_at_resyncing _ _ _ Hr) in Hy.
    rewrite (ReadRecord_loop_eof fuel _ r r' E2 Hy). split_and!; [done|rewrite layout_cons_length; lia|done].
Qed.

Lemma ReadRecord_layout frags frags' rec r off s :
  is_record frags rec -> rd_at r off s -> s `prefix_of` layout off (frags ++ frags') ->
  frags_fit off (frags ++ frags') -> read_outcome (ReadRecord extend r) r off s frags frags' rec.
Proof.
  intros Hrec Hr Hp Hfit. unfold ReadRecord.
  assert ((last_record_offset_ r <? initial_offset_ r) = false) as ->.
  { destruct Hr as (_ & -> & _ & ? & _). destruct (Z.ltb_spec (last_record_offset_ r) 0); [lia|done]. }
  assert (exists f, reader_fuel r = S f /\ (length s < f)%nat) as (f & -> & Hf).
  { destruct Hr as (_ & _ & _ & _ & _ & -> & _). eexists. split; [done|]. rewrite length_app. lia. }
  destruct Hrec as [d|d frags x Hx]; cbn [app] in Hp, Hfit; cbn [ReadRecord_loop];
    destruct (ReadPhysicalRecord_layout r off s _ _ _ Hr Hp Hfit) as [(s' & r' & E & Hp' & E2 & Hr' & Hc)|(Hlt & r' & E2 & Hc)].
  - left. rewrite E2, (rd_at_resyncing _ _ _ Hr'). cbn [andb default]. rewrite Z.eqb_refl.
    eexists s', _. split_and!; [done| | | |].
    + cbn [layout]. by rewrite app_nil_r, <-app_assoc.
    + done.
    + apply rd_at_set_last; [done|]. apply wrap_range. lia.
    + by destruct Hc as (? & ? & ?).
  - right. exists r'. pose proof (ReadPhysicalRecord_resyncing _ _ _ _ E2) as Hy. rewrite (rd_at_resyncing _ _ _ Hr) in Hy.
    rewrite E2, Hy. split_and!; [done|rewrite layout_cons_length; simpl length; lia|done].
  - rewrite E2, (rd_at_resyncing _ _ _ Hr'). cbn [andb].
    change (RecordType_val kFirstType =? RecordType_val kFullType) with false.
    change (RecordType_val kFirstType =? RecordType_val kFirstType) with true. cbn [negb from_option id rr_fragment rr_scratch rr_in_fragmented_record rr_prospective_record_offset].
    destruct Hfit as (_ & _ & Hfit').
    match goal with |- context [RRLocals d d true ?p] => set (o := p) end.
    destruct (ReadRecord_loop_tail f frags frags' x r' (next_off off d) s' d d o Hx Hr' Hp' Hfit')
      as [(s2 & r2 & E3 & Es & Hp2 & Hr2 & Hc2)|(r2 & E3 & Hlt & Hc2)].
    { rewrite E, !length_app in Hf. lia. }
    { apply wrap_range. lia. }
    + left. exists s2, r2. split_and!; try done; [cbn [layout]; by rewrite E, Es, <-!app_assoc|by eapply same_config_trans].
    + right. exists r2. split_and!; [done| |by eapply same_config_trans].
      rewrite layout_cons_length, E, !length_app. lia.
  - right. exists r'. pose proof (ReadPhysicalRecord_resyncing _ _ _ _ E2) as Hy. rewrite (rd_at_resyncing _ _ _ Hr) in Hy.
    rewrite E2, Hy. split_and!; [done|rewrite layout_cons_length; lia|done].
Qed.

Lemma ReadRecord_end r off :
  rd_at r off [] -> exists r', ReadRecord extend r = Some (None, r') /\ same_config r r'.
Proof.
  intros Hr. unfold ReadRecord.
  assert ((last_record_offset_ r <? initial_offset_ r) = false) as ->.
  { destruct Hr as (_ & -> & _ & ? & _). destruct (Z.ltb_spec (last_record_offset_ r) 0); [lia|done]. }
  destruct (ReadPhysicalRecord_end r off Hr) as (r' & E & Hc). exists r'. split; [|done].
  unfold reader_fuel. apply ReadRecord_loop_eof; [done|].
  pose proof (ReadPhysicalRecord_resyncing _ _ _ _ E) as Hy. by rewrite (rd_at_resyncing _ _ _ Hr) in Hy.
Qed.

Lemma is_record_layout_pos off frags rec : is_record frags rec -> (0 < length (layout off frags))%nat.
Proof.
  intros H. destruct H; cbn [layout]; rewrite !length_app; pose proof (length_phys kFullType d);
    pose proof (length_phys kFirstType d); unfold kHeaderSize in *; lia.
Qed.

(** The records of a log, each with its fragments. *)
Lemma ReadAll_layout fuel fragss recs r off s :
  Forall2 is_record fragss recs -> rd_at r off s -> s `prefix_of` layout off (concat fragss) ->
  frags_fit off (concat fragss) -> (length recs < fuel)%nat ->
  exists k r', ReadAll extend fuel r = Some (take k recs, r') /\ same_config r r' /\
    (s = layout off (concat fragss) -> k = length recs).
Proof.
  intros H. revert fuel r off s. induction H as [|frags rec fragss recs Hrec _ IH]; intros fuel r off s Hr Hp Hfit Hfuel;
    (destruct fuel as [|fuel]; [simpl in Hfuel; lia|]); cbn [ReadAll].
  - apply prefix_nil_inv in Hp. subst s. destruct (ReadRecord_end r off Hr) as (r' & -> & Hc).
    exists 0%nat, r'. done.
  - cbn [concat] in Hp, Hfit.
    destruct (ReadRecord_layout frags (concat fragss) rec r off s Hrec Hr Hp Hfit)
      as [(s' & r' & -> & Es & Hp' & Hr' & Hc)|(r' & -> & Hlt & Hc)].
    + apply frags_fit_app in Hfit as [_ Hfit'].
      destruct (IH fuel r' _ s' Hr' Hp' Hfit' ltac:(simpl in Hfuel; lia)) as (k & r2 & -> & Hc2 & Hk).
      exists (S k), r2. split_and!; [done|by eapply same_config_trans|].
      cbn [concat]. rewrite layout_app, Es. intros E%app_inv_head. simpl. by rewrite Hk.
    + exists 0%nat, r'. split_and!; [done|done|]. cbn [concat]. rewrite layout_app. intros ->. rewrite length_app in Hlt. lia.
Qed.

(** * Reading always ends *)

(** The bytes not yet parsed. *)
Definition unread (r : Reader) : nat := (length (buffer_ r) + length (sf_rest (file_ r)))%nat.

Lemma ReportDrop_unread n st r :
  buffer_ (ReportDrop n st r) = buffer_ r /\ file_ (ReportDrop n st r) = file_ r.
Proof. unfold ReportDrop. by case_match. Qed.

Lemma ParsePhysicalRecord_unread r t d r' :
  kHeaderSize <= slen (buffer_ r) -> ParsePhysicalRecord extend r = (t, d, r') -> (unread r' < unread r)%nat.
Proof.
  intros Hb. unfold ParsePhysicalRecord, ReportCorruption, kHeaderSize in *.
  assert (Hlen : 0 <= Z.lor (byte_at (buffer_ r) 4) (byte_at (buffer_ r) 5 ≪ 8)).
  { apply Z.lor_nonneg. unfold byte_at. split; [apply uval_range|]. apply Z.shiftl_nonneg, uval_range. }
  repeat case_match; intros [= <- <- <-]; unfold unread;
    rewrite ?(proj1 (ReportDrop_unread _ _ _)), ?(proj2 (ReportDrop_unread _ _ _)); cbn; rewrite ?length_drop; lia.
Qed.

Lemma ReadPhysicalRecord_total r :
  exists t d r', ReadPhysicalRecord extend r = Some (t, d, r') /\ (t = kEof \/ (unread r' < unread r)%nat).
Proof.
  unfold ReadPhysicalRecord.
  assert (Hparse : forall r, kHeaderSize <= slen (buffer_ r) -> forall m, (unread r <= m)%nat ->
    exists t d r', Some (ParsePhysicalRecord extend r) = Some (t, d, r') /\ (t = kEof \/ (unread r' < m)%nat)).
  { intros r0 H0 m Hm. destruct (ParsePhysicalRecord extend r0) as [[t d] r'] eqn:E.
    apply ParsePhysicalRecord_unread in E; [|done]. exists t, d, r'. split; [done|right; lia]. }
  cbn [ReadPhysicalRecord_loop].
  destruct (Z.ltb_spec (slen (buffer_ r)) kHeaderSize) as [Hlt|Hge]; [|by apply (Hparse r Hge)].
  destruct (eof_ r) eqn:Heof; cbn [negb]; [eexists _, _, _; split; [done|by left]|].
  destruct (SequentialFile_Read kBlockSize (file_ r)) as [[data st] file] eqn:E.
  destruct (ok st) eqn:Hok; cbn [negb]; [|eexists _, _, _; split; [done|by left]].
  set (r0 := set_end_of_buffer_offset _ _). set (r1 := if slen (buffer_ r0) <? kBlockSize then _ else _).
  assert (Hb : buffer_ r1 = data) by (unfold r1; by case_match).
  assert (Hu : (unread r1 <= unread r)%nat).
  { assert (sf_rest (file_ r1) = sf_rest file) as Hf by (unfold r1; by case_match). unfold unread. rewrite Hb, Hf.
    unfold SequentialFile_Read in E. repeat case_match; simplify_eq; simpl; rewrite ?length_take, ?length_drop; lia. }
  assert (Heof1 : slen data < kBlockSize -> eof_ r1 = true).
  { unfold r1. intros. change (buffer_ r0) with data. destruct (Z.ltb_spec (slen data) kBlockSize); [done|lia]. }
  rewrite Hb. destruct (Z.ltb_spec (slen data) kHeaderSize) as [Hlt1|Hge1].
  - rewrite Heof1 by (unfold kHeaderSize, kBlockSize in *; lia). cbn [negb]. eexists _, _, _. split; [done|by left].
  - apply (Hparse r1); [by rewrite Hb|lia].
Qed.

Lemma ReportCorruption_unread n m r : unread (ReportCorruption n m r) = unread r.
Proof. unfold unread, ReportCorruption. by rewrite (proj1 (ReportDrop_unread _ _ _)), (proj2 (ReportDrop_unread _ _ _)). Qed.

Lemma ReadRecord_loop_total fuel l r : (unread r < fuel)%nat -> exists o r', ReadRecord_loop extend fuel l r = Some (o, r').
Proof.
  revert l r. induction fuel as [|fuel IH]; intros l r Hf; [lia|]. cbn [ReadRecord_loop].
  destruct (ReadPhysicalRecord_total r) as (t & d & r' & -> & Ht).
  destruct (decide (t = kEof)) as [->|Hne].
  { change (kEof =? RecordType_val kMiddleType) with false. change (kEof =? RecordType_val kLastType) with false.
    rewrite !andb_false_r. cbn. eauto. }
  assert (Hu : (unread r' < fuel)%nat) by (destruct Ht; [done|lia]).
  set (r1 := if resyncing_ r' then set_resyncing false r' else r').
  assert (Hu1 : (unread r1 < fuel)%nat) by (unfold r1; by case_match).
  repeat match goal with
  | |- context [if ?b then ?x else ?y] =>
      lazymatch type of b with bool => destruct b end
  end; eauto; try (apply IH; rewrite ?ReportCorruption_unread; done).
Qed.

(** * Whole logs *)

(** The writer after a sequence of records; [sts] are the statuses returned. *)
Definition AddRecords (recs : list slice) (w : Writer) : list Status * Writer :=
  foldl (fun '(sts, w) rec => let '(st, w) := AddRecord extend rec w in (sts ++ [st], w)) ([], w) recs.

(** The contents of a log after sessions that each reopen the file at its end, as a process that reuses its log does. *)
Definition log_of_sessions (sessions : list (list slice)) : slice :=
  foldl (fun c recs => wf_contents (dest_ (snd (AddRecords recs (NewWriter_at (MkWritableFile c []) (slen c)))))) [] sessions.

Lemma AddRecords_fold recs sts w :
  foldl (fun '(sts, w) rec => let '(st, w) := AddRecord extend rec w in (sts ++ [st], w)) (sts, w) recs =
    (sts ++ fst (AddRecords recs w), snd (AddRecords recs w)).
Proof.
  unfold AddRecords. revert sts w. induction recs as [|rec recs IH]; intros sts w; cbn [foldl]; [by rewrite app_nil_r|].
  destruct (AddRecord extend rec w) as [st w']. rewrite IH, (IH [st]). by rewrite <-app_assoc.
Qed.

Lemma AddRecords_clean recs c off :
  0 <= off <= kBlockSize ->
  exists fragss, AddRecords recs (clean c off) =
      (repeat OK (length recs), clean (c ++ layout off (concat fragss)) (end_off off (concat fragss))) /\
    Forall2 is_record fragss recs /\ frags_fit off (concat fragss).
Proof.
  revert c off. induction recs as [|rec recs IH]; intros c off Hoff.
  { exists []. cbn. by rewrite app_nil_r. }
  destruct (AddRecord_clean rec c off Hoff) as (frags & E & Hrec & Hfit).
  destruct (IH (c ++ layout off frags) (end_off off frags)) as (fragss & E2 & Hrecs & Hfit2); [by apply end_off_range|].
  exists (frags :: fragss). cbn [concat]. split_and!; [|by constructor|by apply frags_fit_app].
  unfold AddRecords. cbn [foldl]. rewrite E. cbn [app]. rewrite AddRecords_fold, E2. cbn [fst snd].
  by rewrite layout_app, end_off_app, <-app_assoc.
Qed.

(** A block offset is the length of the file modulo the block, up to the end of a full block. *)
Lemma layout_end off frags :
  0 <= off <= kBlockSize -> frags_fit off frags ->
  (off + slen (layout off frags)) mod kBlockSize = end_off off frags mod kBlockSize.
Proof.
  revert off. induction frags as [|[t d] frags IH]; intros off Hoff Hfit; cbn [layout end_off].
  { f_equal. simpl. lia. }
  destruct Hfit as (_ & Hn & Hfit). rewrite <-IH; [|unfold next_off, kHeaderSize in *; pose proof (start_range off Hoff); lia|done].
  rewrite !length_app, !Nat2Z.inj_add, length_phys, length_pad by done. unfold next_off, start.
  destruct (Z.ltb_spec (kBlockSize - off) kHeaderSize) as [Hlt|Hge]; [|f_equal; lia].
  rewrite <-(Z_mod_plus_full (0 + kHeaderSize + slen d + slen (layout (0 + kHeaderSize + slen d) frags)) 1).
  f_equal. lia.
Qed.

Lemma layout_block frags : layout kBlockSize frags = layout 0 frags.
Proof. by destruct frags as [|[t d] frags]. Qed.

Lemma frags_fit_block frags : frags_fit kBlockSize frags <-> frags_fit 0 frags.
Proof. by destruct frags as [|[t d] frags]. Qed.

Lemma layout_mod off frags :
  0 <= off <= kBlockSize -> layout (off mod kBlockSize) frags = layout off frags /\
    (frags_fit (off mod kBlockSize) frags <-> frags_fit off frags).
Proof.
  intros Hoff. destruct (decide (off = kBlockSize)) as [->|].
  - rewrite Z_mod_same_full, layout_block, frags_fit_block. done.
  - rewrite Z.mod_small by lia. done.
Qed.

Lemma sessions_layout sessions :
  exists fragss, log_of_sessions sessions = layout 0 (concat fragss) /\
    Forall2 is_record fragss (concat sessions) /\ frags_fit 0 (concat fragss).
Proof.
  induction sessions as [|recs sessions IH] using rev_ind; [by exists []|].
  destruct IH as (fragss & E & Hrec & Hfit). unfold log_of_sessions in *. rewrite foldl_app, E. cbn [foldl].
  assert (0 <= 0 <= kBlockSize) as H0 by done.
  pose proof (end_off_range 0 _ H0 Hfit) as Hend. pose proof (layout_end 0 _ H0 Hfit) as Hmod. rewrite Z.add_0_l in Hmod.
  assert (0 <= end_off 0 (concat fragss) mod kBlockSize <= kBlockSize) as Hoff.
  { pose proof (Z.mod_pos_bound (end_off 0 (concat fragss)) kBlockSize). unfold kBlockSize in *. lia. }
  unfold NewWriter_at. rewrite Hmod.
  destruct (AddRecords_clean recs (layout 0 (concat fragss)) _ Hoff) as (fragss2 & E2 & Hrec2 & Hfit2).
  unfold clean in E2. rewrite E2. cbn [snd dest_ wf_contents].
  destruct (layout_mod (end_off 0 (concat fragss)) (concat fragss2) Hend) as [El Hfits].
  exists (fragss ++ fragss2). rewrite El, concat_app, concat_app, layout_app. cbn [concat]. rewrite app_nil_r.
  split_and!; [done|by apply Forall2_app|]. apply frags_fit_app. split; [done|]. by apply Hfits.
Qed.

Lemma rd_at_NewReader s reporter checksum : rd_at (NewReader (MkSequentialFile s []) reporter checksum 0) kBlockSize s.
Proof. unfold rd_at. cbn. split_and!; try done. by left. Qed.

(** C10. The records of a log survive any crash that keeps a prefix of the file.  A log is written in any number of
    sessions, each of which reopens the file at its end, and a reader of any prefix of the bytes returns, in order, a
    prefix of the records, never a part of a record or a record that was not written, and reports no corruption; on
    the whole file it returns all the records. *)
Theorem log_recovery sessions s reporter checksum :
  s `prefix_of` log_of_sessions sessions ->
  exists k r', ReadAll extend (S (length (concat sessions))) (NewReader (MkSequentialFile s []) reporter checksum 0) =
      Some (take k (concat sessions), r') /\
    reports_ r' = [] /\ (s = log_of_sessions sessions -> k = length (concat sessions)).
Proof.
  destruct (sessions_layout sessions) as (fragss & -> & Hrec & Hfit). rewrite <-layout_block. intros Hp.
  apply frags_fit_block in Hfit.
  destruct (ReadAll_layout (S (length (concat sessions))) _ _ _ _ s Hrec (rd_at_NewReader s reporter checksum) Hp Hfit)
    as (k & r' & E & (Hc & _) & Hk); [lia|]. eauto.
Qed.

(** [ReadRecord] ends on every input: any bytes in the buffer and the file, any sequence of faults, any initial
    offset. *)
Theorem ReadRecord_terminates r : exists o r', ReadRecord extend r = Some (o, r').
Proof.
  unfold ReadRecord. destruct (if _ <? _ then _ else _) as [[] r1]; [|eauto].
  apply ReadRecord_loop_total. unfold reader_fuel, unread. lia.
Qed.
End LogProofs.

Lemma log_recovery_witness :
  exists k r', ReadAll crc32c_ref 4 (NewReader (MkSequentialFile (take 20 (log_of_sessions crc32c_ref [[lit "one"; lit "two"]; [lit "three"]])) []) true true 0) =
      Some (take k [lit "one"; lit "two"; lit "three"], r') /\ reports_ r' = [] /\
    (take 20 (log_of_sessions crc32c_ref [[lit "one"; lit "two"]; [lit "three"]]) =
       log_of_sessions crc32c_ref [[lit "one"; lit "two"]; [lit "three"]] -> k = 3%nat).
Proof.
  apply (log_recovery crc32c_ref [[lit "one"; lit "two"]; [lit "three"]]). apply prefix_take.
Defined.

(** The two records and the fault of [trailer_error_lost]: the second record needs a trailer of three bytes, and the
    [Append] of the trailer, the fourth operation on the file, fails. *)
Definition lost_a : slice := repeat Byte.x61 (Z.to_nat 32758).
Definition lost_b : slice := lit "b".
Definition lost_run : list Status * Writer :=
  AddRecords crc32c_ref [lost_a; lost_b] (NewWriter (MkWritableFile [] [None; None; None; Some (0%nat, lit "trailer")])).

(** The writer ignores the status of the [Append] of a block trailer: there is a run in which that [Append] fails
    and writes nothing, both calls of [AddRecord] return [OK], and a reader of the file returns the first record
    only. *)
Theorem trailer_error_lost :
  fst lost_run = [OK; OK] /\
  exists r', ReadAll crc32c_ref 3 (NewReader (MkSequentialFile (wf_contents (dest_ (snd lost_run))) []) true true 0) = Some ([lost_a], r').
Proof.
  assert (fst lost_run = [OK; OK]) as H by (vm_compute; reflexivity). split; [exact H|].
  assert (match ReadAll crc32c_ref 3 (NewReader (MkSequentialFile (wf_contents (dest_ (snd lost_run))) []) true true 0) with
          | Some (l, _) => bool_decide (l = [lost_a]) | None => false end = true) as H2 by (vm_compute; reflexivity).
  destruct (ReadAll _ _ _) as [[l r']|]; [|discriminate]. apply bool_decide_eq_true in H2. subst. by exists r'.
Qed.

(** A run in which the payload of the first record is not written, and its file. *)
Definition failed_run : list Status * Writer :=
  AddRecords crc32c_ref [lit "first"; lit "second"] (NewWriter (MkWritableFile [] [None; Some (0%nat, lit "no space")])).

(** A failed [AddRecord] makes later records unreadable: there is a run in which the [Append] of the payload of a
    record fails, so that [AddRecord] returns an error, the next [AddRecord] on the same writer returns [OK], and a
    reader of the file returns no record at all. *)
Theorem failed_append_loses_next :
  map ok (fst failed_run) = [false; true] /\
  exists r', ReadAll crc32c_ref 3 (NewReader (MkSequentialFile (wf_contents (dest_ (snd failed_run))) []) true true 0) = Some ([], r').
Proof.
  split; [vm_compute; reflexivity|].
  eexists. vm_compute. reflexivity.
Qed.

(** A log of which a crash kept nine bytes, reopened at its end for another record. *)
Definition torn_log : slice := take 9 (log_of_sessions crc32c_ref [[lit "first"]]).
Definition torn_reuse : list Status * Writer :=
  AddRecords crc32c_ref [lit "second"] (NewWriter_at (MkWritableFile torn_log []) (slen torn_log)).

(** A log that ends in a torn record must not be reused: the reader of the torn log returns its records without a
    report, but a record that is added after reopening the file at its length, for which [AddRecord] returns [OK], is
    not read back. *)
Theorem torn_log_reuse_loses_next :
  (exists r', ReadAll crc32c_ref 2 (NewReader (MkSequentialFile torn_log []) true true 0) = Some ([], r') /\ reports_ r' = []) /\
  fst torn_reuse = [OK] /\
  exists r', ReadAll crc32c_ref 3 (NewReader (MkSequentialFile (wf_contents (dest_ (snd torn_reuse))) []) true true 0) = Some ([], r').
Proof.
  split_and!; [|vm_compute; reflexivity|].
  - eexists. split; vm_compute; reflexivity.
  - eexists. vm_compute. reflexivity.
Qed.
