(* ===== verification/Crash.v ===== *)
(** Crash: what a process leaves that ends in the middle of its calls of the environment.

    The calls up to some point succeed; the call at this point fails and, if it is a write, some of its bytes reach the file;
    and the calls behind it fail without any effect.  A run of the code with such an oracle leaves the files that are there
    when the process ends at this point.  The lemmas are those of the calls and of [AddRecord] (db/log_writer.cc). *)

From stdpp Require Import list.
From S2P Require Import Prelude Coding Status Env FileSystem Log.

(** Calls that fail without effect. *)
Definition dead (fs : list (option (nat * slice))) : Prop := fs <> [] /\ Forall (fun f => exists msg, f = Some (0%nat, msg)) fs.

(** The calls of a process that ends at one of them. *)
Definition crashing (fs : list (option (nat * slice))) : Prop :=
  exists calls n msg rest, fs = repeat None calls ++ Some (n, msg) :: rest /\ dead rest.

Lemma crashing_cases fs : crashing fs -> (exists fs', fs = None :: fs' /\ crashing fs') \/ exists n msg rest, fs = Some (n, msg) :: rest /\ dead rest.
Proof. intros ([|calls] & n & msg & rest & -> & Hd); [right; by exists n, msg, rest|]. left. eexists. split; [done|]. by exists calls, n, msg, rest. Qed.

Lemma Append_crash data c fs s f :
  crashing fs -> WritableFile_Append data (MkWritableFile c fs) = (s, f) ->
  (ok s = true /\ exists fs', f = MkWritableFile (c ++ data) fs' /\ crashing fs') \/
  (ok s = false /\ exists d fs', f = MkWritableFile (c ++ d) fs' /\ d `prefix_of` data /\ dead fs').
Proof.
  intros [(fs' & -> & Hc)|(n & msg & rest & -> & Hd)]%crashing_cases; cbn [WritableFile_Append wf_faults wf_contents]; intros [= <- <-]; [left; eauto|right].
  split; [done|]. exists (take n data), rest. split; [done|]. split; [|done]. exists (drop n data). by rewrite take_drop.
Qed.

Lemma Append_dead data c fs s f : dead fs -> WritableFile_Append data (MkWritableFile c fs) = (s, f) -> ok s = false /\ wf_contents f = c.
Proof.
  intros [Hne Hd]. destruct Hd as [|? fs [msg ->] _]; [done|]. cbn [WritableFile_Append wf_faults wf_contents]. intros [= <- <-]. split; [done|]. apply app_nil_r.
Qed.

Lemma Flush_crash c fs s f :
  crashing fs -> WritableFile_Flush (MkWritableFile c fs) = (s, f) ->
  (ok s = true /\ exists fs', f = MkWritableFile c fs' /\ crashing fs') \/ (ok s = false /\ wf_contents f = c).
Proof.
  intros [(fs' & -> & Hc)|(n & msg & rest & -> & Hd)]%crashing_cases; cbn [WritableFile_Flush wf_faults wf_contents]; intros [= <- <-]; [left; eauto|by right].
Qed.

(** A record of a log that is written in full, or cut short with an error. *)
Definition cut_short (c c' : slice) (off : Z) (s : Status) (w : Writer) : Prop :=
  (ok s = true /\ exists fs, w = MkWriter (MkWritableFile c' fs) off /\ crashing fs) \/
  (ok s = false /\ c `prefix_of` wf_contents (dest_ w) /\ wf_contents (dest_ w) `prefix_of` c').

Lemma EmitPhysicalRecord_crash extend t d c fs off s w :
  crashing fs -> EmitPhysicalRecord extend t d (MkWriter (MkWritableFile c fs) off) = (s, w) ->
  cut_short c (c ++ phys extend t d) (off + kHeaderSize + slen d) s w.
Proof.
  intros Hc. unfold EmitPhysicalRecord, phys. cbn [dest_ block_offset_]. destruct (WritableFile_Append _ _) as [s1 f1] eqn:E1.
  destruct (Append_crash _ _ _ _ _ Hc E1) as [(Hs1 & fs1 & -> & Hc1)|(Hs1 & d1 & fs1 & -> & Hp1 & _)]; rewrite Hs1.
  2: { intros [= <- <-]. right. cbn [dest_ wf_contents]. split_and!; [done|by apply prefix_app_r|]. apply prefix_app. by apply prefix_app_r. }
  destruct (WritableFile_Append d _) as [s2 f2] eqn:E2. destruct (Append_crash _ _ _ _ _ Hc1 E2) as [(Hs2 & fs2 & -> & Hc2)|(Hs2 & d2 & fs2 & -> & Hp2 & _)]; rewrite Hs2.
  2: { intros [= <- <-]. right. cbn [dest_ wf_contents]. rewrite <-app_assoc. split_and!; [done|by apply prefix_app_r|]. by apply prefix_app, prefix_app. }
  destruct (WritableFile_Flush _) as [s3 f3] eqn:E3. intros [= <- <-]. rewrite app_assoc.
  destruct (Flush_crash _ _ _ _ Hc2 E3) as [(Hs3 & fs3 & -> & Hc3)|(Hs3 & Hf3)]; [left; eauto|right]. cbn [dest_]. rewrite Hf3, <-app_assoc. split_and!; [done|by apply prefix_app_r|done].
Qed.

Lemma EmitPhysicalRecord_dead extend t d c fs off s w : dead fs -> EmitPhysicalRecord extend t d (MkWriter (MkWritableFile c fs) off) = (s, w) -> ok s = false /\ wf_contents (dest_ w) = c.
Proof.
  intros Hd. unfold EmitPhysicalRecord. cbn [dest_ block_offset_]. destruct (WritableFile_Append _ _) as [s1 f1] eqn:E1.
  destruct (Append_dead _ _ _ _ _ Hd E1) as [Hs1 Hf1]. rewrite Hs1. intros [= <- <-]. done.
Qed.

(** The rest of the block is filled with zeros; a failure of this is found with the header that follows. *)
Lemma AddRecord_step_crash extend begin left_ c fs off s left' w :
  crashing fs -> AddRecord_step extend begin left_ (MkWriter (MkWritableFile c fs) off) = (s, left', w) ->
  exists c1 off1, AddRecord_step extend begin left_ (clean c off) = (OK, left', clean c1 off1) /\ c `prefix_of` c1 /\ cut_short c c1 off1 s w.
Proof.
  intros Hc. unfold AddRecord_step, clean. cbn [dest_ block_offset_].
  set (avail o := kBlockSize - o - kHeaderSize). set (len o := if slen left_ <? avail o then slen left_ else avail o).
  set (type o := if begin && (slen left_ =? len o) then kFullType else if begin then kFirstType else if slen left_ =? len o then kLastType else kMiddleType).
  assert (forall c0 o, EmitPhysicalRecord extend (type o) (take (Z.to_nat (len o)) left_) (MkWriter (MkWritableFile c0 []) o) =
    (OK, clean (c0 ++ phys extend (type o) (take (Z.to_nat (len o)) left_)) (o + kHeaderSize + slen (take (Z.to_nat (len o)) left_)))) as Hclean by (intros; apply EmitPhysicalRecord_clean).
  assert (forall c0 fs0 o s0 w0, crashing fs0 -> EmitPhysicalRecord extend (type o) (take (Z.to_nat (len o)) left_) (MkWriter (MkWritableFile c0 fs0) o) = (s0, w0) ->
    cut_short c0 (c0 ++ phys extend (type o) (take (Z.to_nat (len o)) left_)) (o + kHeaderSize + slen (take (Z.to_nat (len o)) left_)) s0 w0) as Hcrash by (intros; by eapply EmitPhysicalRecord_crash).
  destruct (Z.ltb_spec (kBlockSize - off) kHeaderSize) as [Hl|Hl]; [destruct (Z.ltb_spec 0 (kBlockSize - off)) as [Hp|Hp]|]; cbn [block_offset_].
  - set (zeros := repeat _ _). cbn [WritableFile_Append wf_faults wf_contents snd]. destruct (WritableFile_Append zeros (MkWritableFile c fs)) as [s1 f1] eqn:E1. cbn [snd].
    fold (avail 0) (len 0) (type 0). rewrite Hclean. destruct (EmitPhysicalRecord extend (type 0) _ (MkWriter f1 0)) as [s2 w2] eqn:E2. intros [= <- <- <-].
    eexists _, _. split; [reflexivity|]. rewrite <-app_assoc. split; [by apply prefix_app_r|].
    destruct (Append_crash _ _ _ _ _ Hc E1) as [(Hs1 & fs1 & -> & Hc1)|(Hs1 & d1 & fs1 & -> & Hp1 & Hd1)].
    + destruct (Hcrash _ _ _ _ _ Hc1 E2) as [H|(Hs2 & H1 & H2)]; [left; by rewrite app_assoc|right]. rewrite <-app_assoc in H2. split_and!; [done| |done]. etrans; [|exact H1]. by apply prefix_app_r.
    + right. destruct (EmitPhysicalRecord_dead _ _ _ _ _ _ _ _ Hd1 E2) as [Hs2 ->]. split_and!; [done|by apply prefix_app_r|]. apply prefix_app. by apply prefix_app_r.
  - fold (avail 0) (len 0) (type 0). rewrite Hclean. destruct (EmitPhysicalRecord extend (type 0) _ (MkWriter (MkWritableFile c fs) 0)) as [s2 w2] eqn:E2. intros [= <- <- <-].
    eexists _, _. split; [reflexivity|]. split; [by apply prefix_app_r|]. by eapply Hcrash.
  - fold (avail off) (len off) (type off). rewrite Hclean. destruct (EmitPhysicalRecord extend (type off) _ (MkWriter (MkWritableFile c fs) off)) as [s2 w2] eqn:E2. intros [= <- <- <-].
    eexists _, _. split; [reflexivity|]. split; [by apply prefix_app_r|]. by eapply Hcrash.
Qed.

Lemma AddRecord_loop_crash extend fuel begin left_ c fs off s w :
  crashing fs -> AddRecord_loop extend fuel begin left_ (MkWriter (MkWritableFile c fs) off) = (s, w) ->
  exists c1 off1, AddRecord_loop extend fuel begin left_ (clean c off) = (OK, clean c1 off1) /\ c `prefix_of` c1 /\ cut_short c c1 off1 s w.
Proof.
  revert begin left_ c fs off s w. induction fuel as [|fuel IH]; intros begin left_ c fs off s w Hc; cbn [AddRecord_loop].
  { intros [= <- <-]. exists c, off. split; [done|]. split; [done|]. left. split; [done|]. by exists fs. }
  destruct (AddRecord_step _ _ _ (MkWriter _ _)) as [[s1 left1] w1] eqn:E1. destruct (AddRecord_step_crash _ _ _ _ _ _ _ _ _ Hc E1) as (c1 & off1 & -> & Hp & Hcut).
  rewrite ok_OK. cbn [andb]. destruct Hcut as [(Hs1 & fs1 & -> & Hc1)|(Hs1 & H1 & H2)]; rewrite Hs1; cbn [andb]; destruct (0 <? slen left1).
  - intros E. destruct (IH _ _ _ _ _ _ _ Hc1 E) as (c2 & off2 & -> & Hp2 & Hcut). exists c2, off2. split; [done|]. split; [by etrans|]. destruct Hcut as [|(Hs & G1 & G2)]; [by left|right]. split_and!; [done|by etrans|done].
  - intros [= <- <-]. exists c1, off1. split; [done|]. split; [done|]. left. eauto.
  - intros [= <- <-]. destruct (AddRecord_loop extend fuel false left1 (clean c1 off1)) as [s2 w2] eqn:E2.
    assert (crashing ([Some (0%nat, []); Some (0%nat, [])])) as Hd by (exists 0%nat, 0%nat, [], [Some (0%nat, [])]; split; [done|]; split; [done|]; constructor; [by eexists|constructor]).
    destruct (AddRecord_loop extend fuel false left1 (MkWriter (MkWritableFile c1 [Some (0%nat, []); Some (0%nat, [])]) off1)) as [s3 w3] eqn:E3.
    destruct (IH _ _ _ _ _ _ _ Hd E3) as (c2 & off2 & E4 & Hp2 & _). rewrite E2 in E4. injection E4 as -> ->. exists c2, off2. split; [done|]. split; [etrans; [exact Hp|exact Hp2]|]. right. split_and!; [done|done|etrans; [exact H2|exact Hp2]].
  - intros [= <- <-]. exists c1, off1. split; [done|]. split; [done|]. right. done.
Qed.

(** A record that is added by a process that ends in the middle of it: it is all there if the status is OK, and otherwise
    the log ends within it. *)
Lemma AddRecord_crash extend rec c fs off s w :
  crashing fs -> AddRecord extend rec (MkWriter (MkWritableFile c fs) off) = (s, w) ->
  exists c1 off1, AddRecord extend rec (clean c off) = (OK, clean c1 off1) /\ c `prefix_of` c1 /\ cut_short c c1 off1 s w.
Proof. apply AddRecord_loop_crash. Qed.
