(* ===== verification/Format.v ===== *)
(** Format: block handles, the footer of a table and the reading of a stored block (table/format.h, table/format.cc), with
    the compression wrappers of port/port_stdcxx.h. *)

From Stdlib Require Import Strings.Byte Strings.String.
From S2P Require Import Prelude Coding Crc32c Status Env.

(** * Compression *)

Inductive CompressionType := kNoCompression | kSnappyCompression | kZstdCompression.

#[export] Instance CompressionType_eq_dec : EqDecision CompressionType.
Proof. solve_decision. Defined.

Definition CompressionType_val (t : CompressionType) : Z :=
  match t with kNoCompression => 0 | kSnappyCompression => 1 | kZstdCompression => 2 end.

(** The functions of the two libraries that port_stdcxx.h calls; [None] is an error they report. *)
Record SnappyLib := MkSnappyLib {
  snappy_RawCompress : slice -> slice;
  snappy_GetUncompressedLength : slice -> option Z;
  snappy_RawUncompress : slice -> option slice;
}.

Record ZstdLib := MkZstdLib {
  ZSTD_compress2 : Z -> slice -> option slice;
  ZSTD_getFrameContentSize : slice -> Z;
  ZSTD_decompressDCtx : slice -> option slice;
}.

Section compression.
(** The libraries the program is built with, if any. *)
Context (snappy : option SnappyLib) (zstd : option ZstdLib).

Definition Snappy_Compress (input : slice) : option slice := lib ← snappy; Some (snappy_RawCompress lib input).

Definition Snappy_GetUncompressedLength (input : slice) : option Z := lib ← snappy; snappy_GetUncompressedLength lib input.

Definition Snappy_Uncompress (input : slice) : option slice := lib ← snappy; snappy_RawUncompress lib input.

Definition Zstd_Compress (level : Z) (input : slice) : option slice := lib ← zstd; ZSTD_compress2 lib level input.

Definition Zstd_GetUncompressedLength (input : slice) : option Z :=
  lib ← zstd; let size := ZSTD_getFrameContentSize lib input in if size =? 0 then None else Some size.

Definition Zstd_Uncompress (input : slice) : option slice :=
  lib ← zstd; _ ← Zstd_GetUncompressedLength input; ZSTD_decompressDCtx lib input.
End compression.

(** What the libraries document: what was compressed, and is not empty, is uncompressed to the same bytes. *)
Class SnappyLaws (lib : SnappyLib) : Prop :=
  snappy_roundtrip s : s <> [] ->
    snappy_GetUncompressedLength lib (snappy_RawCompress lib s) = Some (slen s) /\
    snappy_RawUncompress lib (snappy_RawCompress lib s) = Some s.

Class ZstdLaws (lib : ZstdLib) : Prop :=
  zstd_roundtrip level s c : s <> [] -> ZSTD_compress2 lib level s = Some c ->
    ZSTD_getFrameContentSize lib c = slen s /\ ZSTD_decompressDCtx lib c = Some s.

(** * Block handles *)

Record BlockHandle := MkBlockHandle { bh_offset : Z; bh_size : Z }.

#[export] Instance BlockHandle_eq_dec : EqDecision BlockHandle.
Proof. solve_decision. Defined.

Definition kMaxEncodedLength : Z := 10 + 10.

Definition NewBlockHandle : BlockHandle := MkBlockHandle (2 ^ 64 - 1) (2 ^ 64 - 1).

Definition BlockHandle_EncodeTo (h : BlockHandle) (dst : slice) : slice := PutVarint64 (PutVarint64 dst (bh_offset h)) (bh_size h).

(** The status, the handle with the fields that were read, and the rest of the input. *)
Definition BlockHandle_DecodeFrom (h : BlockHandle) (input : slice) : Status * BlockHandle * slice :=
  match GetVarint64 input with
  | Some (offset, input) =>
      match GetVarint64 input with
      | Some (size, input) => (OK, MkBlockHandle offset size, input)
      | None => (Corruption (lit "bad block handle") [], MkBlockHandle offset (bh_size h), input)
      end
  | None => (Corruption (lit "bad block handle") [], h, input)
  end.

(** * The footer *)

Record Footer := MkFooter { metaindex_handle : BlockHandle; index_handle : BlockHandle }.

Definition Footer_kEncodedLength : Z := 2 * kMaxEncodedLength + 8.

Definition NewFooter : Footer := MkFooter NewBlockHandle NewBlockHandle.

Definition kTableMagicNumber : Z := 0xdb4775248b80fb57.

Definition kBlockTrailerSize : Z := 5.

(** [std::string::resize]. *)
Definition resize (n : nat) (s : slice) : slice := take n s ++ repeat x00 (n - length s).

Definition Footer_EncodeTo (f : Footer) (dst : slice) : slice :=
  let dst := BlockHandle_EncodeTo (metaindex_handle f) dst in
  let dst := BlockHandle_EncodeTo (index_handle f) dst in
  let dst := resize (Z.to_nat (2 * kMaxEncodedLength)) dst in
  let dst := PutFixed32 dst (u32 (Z.land kTableMagicNumber 0xffffffff)) in
  PutFixed32 dst (u32 (Z.shiftr kTableMagicNumber 32)).

(** The status, the footer and the rest of the input. *)
Definition Footer_DecodeFrom (f : Footer) (input : slice) : Status * Footer * slice :=
  if slen input <? Footer_kEncodedLength then (Corruption (lit "not an sstable (footer too short)") [], f, input)
  else
    let magic_ptr := drop (Z.to_nat (Footer_kEncodedLength - 8)) input in
    let magic_lo := DecodeFixed32 magic_ptr in
    let magic_hi := DecodeFixed32 (drop 4 magic_ptr) in
    let magic := Z.lor (Z.shiftl magic_hi 32) magic_lo in
    if negb (magic =? kTableMagicNumber) then (Corruption (lit "not an sstable (bad magic number)") [], f, input)
    else
      let '(result, meta, input') := BlockHandle_DecodeFrom (metaindex_handle f) input in
      if ok result then
        let '(result, index, input'') := BlockHandle_DecodeFrom (index_handle f) input' in
        (result, MkFooter meta index, if ok result then drop (Z.to_nat Footer_kEncodedLength) input else input'')
      else (result, MkFooter meta (index_handle f), input').

(** * Reading a block *)

Record BlockContents := MkBlockContents { bc_data : slice; bc_cachable : bool; bc_heap_allocated : bool }.

Section ReadBlock.
(** The checksum [crc32c::Extend], and the compression libraries. *)
Context (extend : Z -> slice -> Z) (snappy : option SnappyLib) (zstd : option ZstdLib).

(** [None] is a read outside of the bytes that the file returned. *)
Definition ReadBlock (file : RandomAccessFile) (verify_checksums : bool) (handle : BlockHandle) : option (Status * BlockContents) :=
  let result := MkBlockContents [] false false in
  let n := bh_size handle in
  let '(s, data, in_scratch) := raf_Read file (bh_offset handle) (u64 (n + kBlockTrailerSize)) in
  if negb (ok s) then Some (s, result)
  else if negb (slen data =? u64 (n + kBlockTrailerSize)) then Some (Corruption (lit "truncated block read") [], result)
  else if slen data <? n + kBlockTrailerSize then None
  else
    let n := Z.to_nat n in
    let crc := Unmask (DecodeFixed32 (drop (n + 1) data)) in
    let actual := extend 0 (take (n + 1) data) in
    if verify_checksums && negb (actual =? crc) then Some (Corruption (lit "block checksum mismatch") [], result)
    else
      match byte_at data n with
      | 0 => Some (OK, MkBlockContents (take n data) in_scratch in_scratch)
      | 1 =>
          match Snappy_GetUncompressedLength snappy (take n data) with
          | None => Some (Corruption (lit "corrupted snappy compressed block length") [], result)
          | Some _ =>
              match Snappy_Uncompress snappy (take n data) with
              | None => Some (Corruption (lit "corrupted snappy compressed block contents") [], result)
              | Some u => Some (OK, MkBlockContents u true true)
              end
          end
      | 2 =>
          match Zstd_GetUncompressedLength zstd (take n data) with
          | None => Some (Corruption (lit "corrupted zstd compressed block length") [], result)
          | Some _ =>
              match Zstd_Uncompress zstd (take n data) with
              | None => Some (Corruption (lit "corrupted zstd compressed block contents") [], result)
              | Some u => Some (OK, MkBlockContents u true true)
              end
          end
      | _ => Some (Corruption (lit "bad block type") [], result)
      end.
End ReadBlock.

(** * Lemmas *)

Definition handle_ok (h : BlockHandle) : Prop := is_u64 (bh_offset h) /\ is_u64 (bh_size h).

Lemma BlockHandle_Encode_app h dst : BlockHandle_EncodeTo h dst = dst ++ BlockHandle_EncodeTo h [].
Proof. unfold BlockHandle_EncodeTo, PutVarint64. by rewrite app_nil_l, app_assoc. Qed.

Lemma length_BlockHandle_Encode h : 0 < slen (BlockHandle_EncodeTo h []) <= kMaxEncodedLength.
Proof.
  unfold BlockHandle_EncodeTo, PutVarint64, kMaxEncodedLength. rewrite app_nil_l, length_app.
  pose proof (length_EncodeVarint64 (bh_offset h)). pose proof (length_EncodeVarint64 (bh_size h)). lia.
Qed.

Lemma BlockHandle_Decode_Encode h h0 rest :
  handle_ok h -> BlockHandle_DecodeFrom h0 (BlockHandle_EncodeTo h [] ++ rest) = (OK, h, rest).
Proof.
  intros [Ho Hs]. unfold BlockHandle_DecodeFrom, BlockHandle_EncodeTo, PutVarint64. rewrite app_nil_l, <-app_assoc.
  rewrite !GetVarint64_Encode by done. by destruct h.
Qed.

Lemma Footer_Encode_nil f :
  exists pad, Footer_EncodeTo f [] = BlockHandle_EncodeTo (metaindex_handle f) [] ++ BlockHandle_EncodeTo (index_handle f) [] ++ pad ++
      EncodeFixed32 (u32 (Z.land kTableMagicNumber 0xffffffff)) ++ EncodeFixed32 (u32 (Z.shiftr kTableMagicNumber 32)) /\
    slen (BlockHandle_EncodeTo (metaindex_handle f) []) + slen (BlockHandle_EncodeTo (index_handle f) []) + slen pad = 40.
Proof.
  set (s := BlockHandle_EncodeTo (metaindex_handle f) [] ++ BlockHandle_EncodeTo (index_handle f) []).
  pose proof (length_BlockHandle_Encode (metaindex_handle f)). pose proof (length_BlockHandle_Encode (index_handle f)).
  unfold kMaxEncodedLength in *. exists (repeat x00 (40 - length s)).
  split; [|rewrite repeat_length; unfold s; rewrite length_app; lia].
  unfold Footer_EncodeTo. rewrite (BlockHandle_Encode_app (index_handle f)). fold s. unfold resize, PutFixed32.
  change (Z.to_nat (2 * kMaxEncodedLength)) with 40%nat. rewrite take_ge by (unfold s; rewrite length_app; lia).
  unfold s. by rewrite <-!app_assoc.
Qed.

Lemma length_Footer_Encode f : slen (Footer_EncodeTo f []) = Footer_kEncodedLength.
Proof.
  destruct (Footer_Encode_nil f) as (pad & -> & Hl). rewrite !length_app, !length_EncodeFixed32.
  change Footer_kEncodedLength with 48. lia.
Qed.

Lemma Footer_Decode_Encode f f0 rest :
  handle_ok (metaindex_handle f) -> handle_ok (index_handle f) ->
  Footer_DecodeFrom f0 (Footer_EncodeTo f [] ++ rest) = (OK, f, rest).
Proof.
  intros Hm Hi. unfold Footer_DecodeFrom. pose proof (length_Footer_Encode f) as Hl. change Footer_kEncodedLength with 48 in *.
  rewrite length_app, (proj2 (Z.ltb_ge _ 48)) by lia. rewrite (drop_app_length' _ rest (Z.to_nat 48)) by lia.
  destruct (Footer_Encode_nil f) as (pad & -> & Hl'). change (Z.to_nat (48 - 8)) with 40%nat.
  set (lo := u32 (Z.land _ _)). set (hi := u32 (Z.shiftr _ _)). set (m := BlockHandle_EncodeTo (metaindex_handle f) []) in *.
  set (x := BlockHandle_EncodeTo (index_handle f) []) in *.
  assert (drop 40 ((m ++ x ++ pad ++ EncodeFixed32 lo ++ EncodeFixed32 hi) ++ rest) = EncodeFixed32 lo ++ EncodeFixed32 hi ++ rest) as ->.
  { replace ((m ++ x ++ pad ++ EncodeFixed32 lo ++ EncodeFixed32 hi) ++ rest) with
      ((m ++ x ++ pad) ++ EncodeFixed32 lo ++ EncodeFixed32 hi ++ rest) by (by rewrite <-!app_assoc).
    apply drop_app_length'. rewrite !length_app. lia. }
  rewrite (drop_app_length' (EncodeFixed32 lo)) by (by rewrite length_EncodeFixed32). rewrite !DecodeFixed32_Encode.
  replace (Z.lor (Z.shiftl (u32 hi) 32) (u32 lo) =? kTableMagicNumber) with true by (symmetry; by vm_compute). cbn [negb].
  rewrite <-!app_assoc. unfold m. rewrite BlockHandle_Decode_Encode by done. change (ok OK) with true. cbn match.
  unfold x. rewrite BlockHandle_Decode_Encode by done. change (ok OK) with true. by destruct f.
Qed.

(** ** Stored blocks *)

Section stored.
Context (extend : Z -> slice -> Z) `{!Checksum extend} (snappy : option SnappyLib) (zstd : option ZstdLib).

(** What a table holds for a block: its contents, the type and the masked checksum of both. *)
Definition stored (contents : slice) (t : CompressionType) : slice :=
  contents ++ of_uval (CompressionType_val t) :: EncodeFixed32 (Mask (extend (extend 0 contents) [of_uval (CompressionType_val t)])).

Lemma length_stored contents t : slen (stored contents t) = slen contents + kBlockTrailerSize.
Proof. unfold stored. rewrite length_app. cbn [length]. rewrite length_EncodeFixed32. unfold kBlockTrailerSize. lia. Qed.

(** The block the contents stand for. *)
Definition unpack (contents : slice) (t : CompressionType) : option slice :=
  match t with
  | kNoCompression => Some contents
  | kSnappyCompression => _ ← Snappy_GetUncompressedLength snappy contents; Snappy_Uncompress snappy contents
  | kZstdCompression => _ ← Zstd_GetUncompressedLength zstd contents; Zstd_Uncompress zstd contents
  end.

Lemma ReadBlock_stored pre contents t post direct verify u :
  slen (pre ++ stored contents t ++ post) < 2 ^ 64 -> unpack contents t = Some u ->
  exists c h, ReadBlock extend snappy zstd (raf_of (pre ++ stored contents t ++ post) direct) verify
    (MkBlockHandle (slen pre) (slen contents)) = Some (OK, MkBlockContents u c h).
Proof.
  intros Hlen Hu. unfold ReadBlock. cbn [bh_offset bh_size]. pose proof (length_stored contents t) as Hl.
  rewrite !length_app in Hlen. assert (0 <= slen pre /\ 0 <= slen post) by lia. unfold kBlockTrailerSize in *.
  rewrite (wrap_small 64) by (unfold in_u; lia). cbn [raf_of raf_Read].
  rewrite !length_app, !Z.min_l, Nat2Z.id, drop_app_length, take_app_length' by lia. change (ok OK) with true. cbn [negb].
  rewrite Hl, Z.eqb_refl, Z.ltb_irrefl. cbn [negb]. rewrite !Nat2Z.id.
  assert (extend 0 (take (length contents + 1) (stored contents t)) = Unmask (DecodeFixed32 (drop (length contents + 1) (stored contents t)))) as ->.
  { unfold stored. rewrite (cons_middle _ contents). rewrite !app_assoc, take_app_length' by (rewrite length_app; simpl; lia).
    rewrite drop_app_length' by (rewrite length_app; simpl; lia). rewrite <-(app_nil_r (EncodeFixed32 _)), DecodeFixed32_Encode.
    rewrite (wrap_small 32) by apply Mask_u32. rewrite Unmask_Mask by (apply checksum_u32, checksum_u32; unfold in_u; lia).
    symmetry. apply checksum_app. unfold in_u. lia. }
  rewrite Z.eqb_refl. cbn [negb]. rewrite andb_false_r.
  assert (byte_at (stored contents t) (length contents) = CompressionType_val t) as ->.
  { unfold byte_at, stored. rewrite app_nth2, Nat.sub_diag by lia. cbn [nth]. by destruct t. }
  assert (take (length contents) (stored contents t) = contents) as -> by (apply take_app_length).
  destruct t; cbn [CompressionType_val unpack] in *.
  - injection Hu as <-. by eauto.
  - destruct (Snappy_GetUncompressedLength snappy contents); [|done]. cbn in Hu. rewrite Hu. by eauto.
  - destruct (Zstd_GetUncompressedLength zstd contents); [|done]. cbn in Hu. rewrite Hu. by eauto.
Qed.
End stored.

(** * Properties *)

(** A block handle is read back from its encoding, of at most 20 bytes, and a footer from its own, which is always 48
    bytes long; both leave what follows. *)
Theorem footer_roundtrip (f f0 : Footer) (h h0 : BlockHandle) (rest : slice) :
  handle_ok (metaindex_handle f) -> handle_ok (index_handle f) -> handle_ok h ->
  BlockHandle_DecodeFrom h0 (BlockHandle_EncodeTo h [] ++ rest) = (OK, h, rest) /\
  slen (BlockHandle_EncodeTo h []) <= kMaxEncodedLength /\
  Footer_DecodeFrom f0 (Footer_EncodeTo f [] ++ rest) = (OK, f, rest) /\
  slen (Footer_EncodeTo f []) = Footer_kEncodedLength.
Proof.
  intros Hm Hi Hh. split_and!.
  - by apply BlockHandle_Decode_Encode.
  - apply length_BlockHandle_Encode.
  - by apply Footer_Decode_Encode.
  - apply length_Footer_Encode.
Qed.

Lemma footer_roundtrip_witness :
  let f := MkFooter (MkBlockHandle 0 300) (MkBlockHandle 305 (2 ^ 63)) in
  Footer_DecodeFrom NewFooter (Footer_EncodeTo f [] ++ [x01]) = (OK, f, [x01]).
Proof.
  apply (footer_roundtrip (MkFooter (MkBlockHandle 0 300) (MkBlockHandle 305 (2 ^ 63))) NewFooter (MkBlockHandle 0 300) NewBlockHandle [x01]);
    split; cbn; unfold in_u; lia.
Defined.

(** C33. With checksums verified, a block is returned only when the file gave all its bytes, with the checksum stored behind
    them, and it is what the type byte says of them; for a handle with a size below 2^64 - 5 no byte is read outside of
    what the file returned, whatever it returned. *)
Theorem ReadBlock_checked (extend : Z -> slice -> Z) snappy zstd (file : RandomAccessFile) (h : BlockHandle) :
  0 <= bh_size h < 2 ^ 64 - 5 ->
  exists s c, ReadBlock extend snappy zstd file true h = Some (s, c) /\
    (s = OK -> exists data t, let n := Z.to_nat (bh_size h) in
       (raf_Read file (bh_offset h) (bh_size h + 5)).1 = (OK, data) /\ slen data = bh_size h + 5 /\
       extend 0 (take (n + 1) data) = Unmask (DecodeFixed32 (drop (n + 1) data)) /\
       byte_at data n = CompressionType_val t /\ unpack snappy zstd (take n data) t = Some (bc_data c)).
Proof.
  intros Hn. unfold ReadBlock. change kBlockTrailerSize with 5. rewrite (wrap_small 64) by (unfold in_u; lia).
  destruct (raf_Read file (bh_offset h) (bh_size h + 5)) as [[s data] sc] eqn:E. cbn [fst].
  destruct (ok s) eqn:Es; cbn [negb]; [|eexists _, _; split; [done|]; intros ->; done]. apply ok_true in Es as ->.
  destruct (Z.eqb_spec (slen data) (bh_size h + 5)) as [El|El]; cbn [negb]; [|eexists _, _; by split].
  rewrite El, Z.ltb_irrefl. destruct (Z.eqb_spec (extend 0 (take (Z.to_nat (bh_size h) + 1) data))
    (Unmask (DecodeFixed32 (drop (Z.to_nat (bh_size h) + 1) data)))) as [Ec|Ec]; cbn [negb andb]; [|eexists _, _; by split].
  destruct (byte_at data (Z.to_nat (bh_size h))) as [|p|p] eqn:Eb; [|destruct p as [p|p|]; try destruct p as [p|p|]|].
  all: repeat case_match; (eexists _, _; split; [done|intros Hs; try discriminate Hs]).
  - by exists data, kNoCompression.
  - exists data, kZstdCompression. cbn [unpack bc_data]. by simplify_option_eq.
  - exists data, kSnappyCompression. cbn [unpack bc_data]. by simplify_option_eq.
Qed.

Lemma ReadBlock_checked_witness :
  let block := stored crc32c_ref (lit "contents") kNoCompression in
  exists s c, ReadBlock crc32c_ref None None (raf_of block true) true (MkBlockHandle 0 8) = Some (s, c) /\ s = OK /\ bc_data c = lit "contents".
Proof.
  intros block.
  destruct (ReadBlock_checked crc32c_ref None None (raf_of block true) (MkBlockHandle 0 8) ltac:(cbn; lia)) as (s & c & E & H).
  exists s, c. split; [exact E|]. vm_compute in E. injection E as <- <-. done.
Defined.

(** C39. The size in a block handle is not checked: when it is 2^64 - 5, the size of the read, with the trailer, wraps to
    zero, so that an empty read is taken for the whole block, and the type and the checksum are read outside of it.  A footer,
    which has no checksum, can hold such a handle. *)
Theorem ReadBlock_overflow (extend : Z -> slice -> Z) snappy zstd (contents : slice) (direct verify : bool) (off : Z) :
  let h := MkBlockHandle off (2 ^ 64 - 5) in
  ReadBlock extend snappy zstd (raf_of contents direct) verify h = None.
Proof.
  cbv zeta. unfold ReadBlock. cbn [bh_size bh_offset]. change (u64 (2 ^ 64 - 5 + kBlockTrailerSize)) with 0. cbn [raf_of raf_Read].
  rewrite Z.min_l by lia. cbn [Z.to_nat take length]. rewrite ok_OK. done.
Qed.
