(* ===== verification/Iterator.v ===== *)
(** Iterator: the interface of include/leveldb/iterator.h as a record of operations, what it promises as a class, the
    iterators of table/iterator.cc and the caching wrapper of table/iterator_wrapper.h. *)

From S2P Require Import Prelude Coding Comparator Status.

(** * The interface *)

(** The virtual functions of [Iterator] on a state [A].  A call that does not return, or reads memory it does not own, has
    no result. *)
Record IterOps (A : Type) := MkIterOps {
  i_Valid : A -> bool;
  i_key : A -> slice;
  i_value : A -> option slice;
  i_status : A -> Status;
  i_Seek : slice -> A -> option A;
  i_SeekToFirst : A -> option A;
  i_SeekToLast : A -> option A;
  i_Next : A -> option A;
  i_Prev : A -> option A;
}.

Arguments MkIterOps {A}.
Arguments i_Valid {A}.
Arguments i_key {A}.
Arguments i_value {A}.
Arguments i_status {A}.
Arguments i_Seek {A}.
Arguments i_SeekToFirst {A}.
Arguments i_SeekToLast {A}.
Arguments i_Next {A}.
Arguments i_Prev {A}.

(** ** What iterator.h promises *)

(** Entries with increasing keys. *)
Definition sorted_entries (cmp : Comparator) (es : list (slice * slice)) : Prop :=
  StronglySorted (fun a b => Compare cmp a.1 b.1 < 0) es.

(** Where [Seek] leads: the number of entries before the first key at or past the target. *)
Fixpoint seek_pos (cmp : Comparator) (target : slice) (es : list (slice * slice)) : nat :=
  match es with
  | [] => 0
  | e :: es => if Compare cmp e.1 target <? 0 then S (seek_pos cmp target es) else 0
  end.

(** Where [Prev] leads from entry [i]: the position past the end is that of an iterator that is not valid. *)
Definition prev_pos (n i : nat) : nat := if decide (i = 0)%nat then n else (i - 1)%nat.

(** The iterator's states that stand for a position in the list of entries, and that the operations move as iterator.h
    says. *)
Class IterLaws {A} (ops : IterOps A) (cmp : Comparator) (key : slice -> Prop) (es : list (slice * slice))
    (pos : A -> nat -> Prop) : Prop := {
  pos_range a i : pos a i -> (i <= length es)%nat;
  pos_Valid a i : pos a i -> i_Valid ops a = bool_decide (i < length es)%nat;
  pos_key a i k v : pos a i -> es !! i = Some (k, v) -> i_key ops a = k;
  pos_value a i k v : pos a i -> es !! i = Some (k, v) -> i_value ops a = Some v;
  pos_status a i : pos a i -> i_status ops a = OK;
  pos_Seek a i t : pos a i -> key t -> exists a', i_Seek ops t a = Some a' /\ pos a' (seek_pos cmp t es);
  pos_SeekToFirst a i : pos a i -> exists a', i_SeekToFirst ops a = Some a' /\ pos a' 0%nat;
  pos_SeekToLast a i : pos a i -> exists a', i_SeekToLast ops a = Some a' /\ pos a' (length es - 1)%nat;
  pos_Next a i : pos a i -> (i < length es)%nat -> exists a', i_Next ops a = Some a' /\ pos a' (S i);
  pos_Prev a i : pos a i -> (i < length es)%nat -> exists a', i_Prev ops a = Some a' /\ pos a' (prev_pos (length es) i);
}.

(** ** Sequences of calls *)

Inductive IterOp := OpSeekToFirst | OpSeekToLast | OpSeek (target : slice) | OpNext | OpPrev.

Definition iter_op {A} (ops : IterOps A) (op : IterOp) (a : A) : option A :=
  match op with
  | OpSeekToFirst => i_SeekToFirst ops a
  | OpSeekToLast => i_SeekToLast ops a
  | OpSeek target => i_Seek ops target a
  | OpNext => i_Next ops a
  | OpPrev => i_Prev ops a
  end.

(** The same calls on the position in the list of entries; [Next] and [Prev] are not allowed when the iterator is not
    valid. *)
Definition spec_op (cmp : Comparator) (es : list (slice * slice)) (op : IterOp) (i : nat) : option nat :=
  match op with
  | OpSeekToFirst => Some 0%nat
  | OpSeekToLast => Some (length es - 1)%nat
  | OpSeek target => Some (seek_pos cmp target es)
  | OpNext => if decide (i < length es)%nat then Some (S i) else None
  | OpPrev => if decide (i < length es)%nat then Some (prev_pos (length es) i) else None
  end.

Definition run_ops {A} (f : IterOp -> A -> option A) (ops : list IterOp) (a : A) : option A :=
  foldl (fun a op => a ≫= f op) (Some a) ops.

Definition op_key (key : slice -> Prop) (op : IterOp) : Prop := match op with OpSeek t => key t | _ => True end.

(** What a user sees of an iterator: nothing, or an entry. *)
Definition current {A} (ops : IterOps A) (a : A) : option (slice * slice) :=
  if i_Valid ops a then v ← i_value ops a; Some (i_key ops a, v) else None.

(** What a loop [for (; it->Valid(); it->Next())] goes through, and the iterator behind it; no result when the fuel does not
    suffice. *)
Fixpoint iter_entries {A} (ops : IterOps A) (fuel : nat) (a : A) : option (list (slice * slice) * A) :=
  if i_Valid ops a then
    match fuel with
    | O => None
    | S fuel => v ← i_value ops a; a' ← i_Next ops a; '(l, a'') ← iter_entries ops fuel a'; Some ((i_key ops a, v) :: l, a'')
    end
  else Some ([], a).

(** * table/iterator.cc: [EmptyIterator] *)

(** Its state is its status; [NewEmptyIterator] and [NewErrorIterator] make one. *)
Definition EmptyIterator_ops : IterOps Status :=
  MkIterOps (fun _ => false) (fun _ => []) (fun _ => Some []) (fun s => s) (fun _ s => Some s) Some Some Some Some.

Definition NewEmptyIterator : Status := OK.

Definition NewErrorIterator (status : Status) : Status := status.

(** * table/iterator_wrapper.h *)

Record IteratorWrapper (A : Type) := MkWrapper { w_iter : option A; w_valid : bool; w_key : slice }.

Arguments MkWrapper {A}.
Arguments w_iter {A}.
Arguments w_valid {A}.
Arguments w_key {A}.

Section wrapper.
Context {A : Type} (ops : IterOps A).

Definition Wrapper_Update (a : A) (w : IteratorWrapper A) : IteratorWrapper A :=
  let valid := i_Valid ops a in MkWrapper (Some a) valid (if valid then i_key ops a else w_key w).

Definition Wrapper_Set (iter : option A) (w : IteratorWrapper A) : IteratorWrapper A :=
  match iter with
  | None => MkWrapper None false (w_key w)
  | Some a => Wrapper_Update a w
  end.

Definition NewWrapper (iter : option A) : IteratorWrapper A := Wrapper_Set iter (MkWrapper None false []).

Definition Wrapper_value (w : IteratorWrapper A) : option slice := a ← w_iter w; i_value ops a.

(** [status()]; its result is used only when there is an iterator. *)
Definition Wrapper_status (w : IteratorWrapper A) : Status := from_option (i_status ops) OK (w_iter w).

(** A call is forwarded, and the cached results updated. *)
Definition Wrapper_call (f : A -> option A) (w : IteratorWrapper A) : option (IteratorWrapper A) :=
  a ← w_iter w; a ← f a; Some (Wrapper_Update a w).

Definition Wrapper_Next : IteratorWrapper A -> option (IteratorWrapper A) := Wrapper_call (i_Next ops).
Definition Wrapper_Prev : IteratorWrapper A -> option (IteratorWrapper A) := Wrapper_call (i_Prev ops).
Definition Wrapper_Seek (k : slice) : IteratorWrapper A -> option (IteratorWrapper A) := Wrapper_call (i_Seek ops k).
Definition Wrapper_SeekToFirst : IteratorWrapper A -> option (IteratorWrapper A) := Wrapper_call (i_SeekToFirst ops).
Definition Wrapper_SeekToLast : IteratorWrapper A -> option (IteratorWrapper A) := Wrapper_call (i_SeekToLast ops).
End wrapper.

(** * Lemmas *)

Lemma run_ops_cons {A} (f : IterOp -> A -> option A) op ops a :
  run_ops f (op :: ops) a = match f op a with Some a => run_ops f ops a | None => None end.
Proof.
  unfold run_ops. cbn [foldl mbind option_bind]. destruct (f op a); [done|]. induction ops as [|o ops IH]; [done|exact IH].
Qed.

Lemma seek_pos_le cmp t es : (seek_pos cmp t es <= length es)%nat.
Proof. induction es as [|e l IH]; cbn [seek_pos length]; [lia|]. case_match; lia. Qed.

Lemma sorted_lookup cmp es i j k v k' v' :
  sorted_entries cmp es -> (i < j)%nat -> es !! i = Some (k, v) -> es !! j = Some (k', v') -> Compare cmp k k' < 0.
Proof.
  intros Hs. revert i j. induction es as [|e l IH]; intros i j Hij Ei Ej; [done|].
  apply StronglySorted_inv in Hs as [Hs Hall]. destruct j as [|j]; [lia|]. destruct i as [|i]; cbn in Ei, Ej.
  - injection Ei as ->. exact (proj1 (Forall_lookup _ _) Hall _ _ Ej).
  - by apply (IH Hs i j); [lia|..].
Qed.

Lemma keys_lookup (key : slice -> Prop) es i k v : Forall (fun e : slice * slice => key e.1) es -> es !! i = Some (k, v) -> key k.
Proof. intros H E. exact (proj1 (Forall_lookup _ _) H _ _ E). Qed.

Section seek.
Context {key : slice -> Prop} {cmp : Comparator} `{!ComparatorLaws key cmp}.

(** The position of [Seek] divides the entries. *)
Lemma seek_pos_spec es t i k v :
  Forall (fun e => key e.1) es -> sorted_entries cmp es -> key t -> es !! i = Some (k, v) ->
  Compare cmp k t < 0 <-> (i < seek_pos cmp t es)%nat.
Proof.
  intros Hk Hs Ht. revert i. induction es as [|[k0 v0] l IH]; intros i E; [done|].
  apply StronglySorted_inv in Hs as [Hs Hall]. apply Forall_cons in Hk as [Hk0 Hl]. cbn [fst] in Hk0. cbn [seek_pos fst].
  destruct i as [|i]; cbn in E.
  - injection E as -> ->. destruct (Z.ltb_spec (Compare cmp k t) 0); lia.
  - rewrite (IH Hl Hs i E). destruct (Z.ltb_spec (Compare cmp k0 t) 0) as [H|H]; [lia|]. split; [|lia].
    intros Hi%(IH Hl Hs i E). pose proof (proj1 (Forall_lookup _ _) Hall _ _ E) as Hlt. cbn [fst] in Hlt.
    pose proof (keys_lookup key l i k v Hl E) as Hk. pose proof (compare_trans k0 k t Hk0 Hk Ht Hlt Hi). lia.
Qed.

(** It is the only one that does. *)
Lemma seek_pos_unique es t p :
  Forall (fun e => key e.1) es -> sorted_entries cmp es -> key t -> (p <= length es)%nat ->
  (forall i k v, (i < p)%nat -> es !! i = Some (k, v) -> Compare cmp k t < 0) ->
  (forall k v, es !! p = Some (k, v) -> 0 <= Compare cmp k t) -> p = seek_pos cmp t es.
Proof.
  intros Hk Hs Ht Hp Hlt Hge. pose proof (seek_pos_le cmp t es) as Hle.
  destruct (Nat.lt_trichotomy p (seek_pos cmp t es)) as [H|[H|H]]; [|done|].
  - destruct (lookup_lt_is_Some_2 es p ltac:(lia)) as [[k v] E]. specialize (Hge k v E).
    apply (seek_pos_spec es t p k v Hk Hs Ht E) in H. lia.
  - destruct (lookup_lt_is_Some_2 es (seek_pos cmp t es) ltac:(lia)) as [[k v] E]. specialize (Hlt _ k v H E).
    apply (seek_pos_spec es t _ k v Hk Hs Ht E) in Hlt. lia.
Qed.

(** At a key of the list it is the position of the key. *)
Lemma seek_pos_at es i k v :
  Forall (fun e => key e.1) es -> sorted_entries cmp es -> es !! i = Some (k, v) -> seek_pos cmp k es = i.
Proof.
  intros Hk Hs E. pose proof (keys_lookup _ _ _ _ _ Hk E) as Hkk. symmetry. apply seek_pos_unique; try done.
  - apply lookup_lt_Some in E. lia.
  - intros j k' v' Hj E'. exact (sorted_lookup cmp es j i k' v' k v Hs Hj E' E).
  - intros k' v' E'. rewrite E in E'. injection E' as <- <-. rewrite compare_refl by done. lia.
Qed.
End seek.

(** ** Any sequence of calls *)

Section refine.
Context {A} {ops : IterOps A} {cmp key es pos} `{L : !@IterLaws A ops cmp key es pos}.

Lemma iter_op_spec op a i j :
  pos a i -> op_key key op -> spec_op cmp es op i = Some j -> exists a', iter_op ops op a = Some a' /\ pos a' j.
Proof.
  intros Hp Hk Hs. destruct op as [| |t| |]; cbn [spec_op iter_op op_key] in *; try case_decide; simplify_eq.
  - exact (pos_SeekToFirst a i Hp).
  - exact (pos_SeekToLast a i Hp).
  - exact (pos_Seek a i t Hp Hk).
  - by apply (pos_Next a i).
  - by apply (pos_Prev a i).
Qed.

Lemma run_ops_spec l a i j :
  pos a i -> Forall (op_key key) l -> run_ops (spec_op cmp es) l i = Some j ->
  exists a', run_ops (iter_op ops) l a = Some a' /\ pos a' j.
Proof.
  revert a i. induction l as [|op l IH]; intros a i Hp Hk Hr; [injection Hr as <-; by exists a|].
  apply Forall_cons in Hk as [Hk Hks]. rewrite run_ops_cons in Hr. rewrite run_ops_cons.
  destruct (spec_op cmp es op i) as [i'|] eqn:E; [|done].
  destruct (iter_op_spec op a i i' Hp Hk E) as (a' & -> & Hp'). by apply (IH a' i').
Qed.

(** A state of position [i] shows the entry [i]. *)
Lemma pos_current a i : pos a i -> current ops a = es !! i.
Proof.
  intros Hp. unfold current. rewrite (pos_Valid a i Hp). case_bool_decide as H.
  - destruct (lookup_lt_is_Some_2 es i H) as [[k v] E]. rewrite (pos_value a i k v Hp E), (pos_key a i k v Hp E). done.
  - symmetry. apply lookup_ge_None. lia.
Qed.

(** A loop over the iterator goes through the rest of the entries. *)
Lemma iter_entries_spec fuel a i : pos a i ->
  if decide (length es - i <= fuel)%nat then exists a', iter_entries ops fuel a = Some (drop i es, a') /\ pos a' (length es)
  else iter_entries ops fuel a = None.
Proof.
  revert a i. induction fuel as [|fuel IH]; intros a i Hp; cbn [iter_entries]; rewrite (pos_Valid a i Hp); pose proof (pos_range a i Hp) as Hr.
  all: case_bool_decide as H; [|rewrite decide_True by lia; exists a; rewrite drop_ge by lia; by replace (length es) with i by lia].
  - by rewrite decide_False by lia.
  - destruct (lookup_lt_is_Some_2 es i H) as [[k v] E]. rewrite (pos_value a i k v Hp E), (pos_key a i k v Hp E).
    destruct (pos_Next a i Hp H) as (a' & -> & Hp'). cbn [mbind option_bind]. specialize (IH a' (S i) Hp'). rewrite (drop_S _ _ _ E).
    destruct (decide (length es - S i <= fuel)%nat); [rewrite decide_True by lia|rewrite decide_False by lia; by rewrite IH].
    destruct IH as (a'' & -> & Hp''). by exists a''.
Qed.
End refine.

(** ** The empty iterator and the wrapper *)

#[export] Instance EmptyIterator_laws cmp key : IterLaws EmptyIterator_ops cmp key [] (fun s i => s = OK /\ i = 0%nat).
Proof. split; intros; cbn in *; destruct_and?; simplify_eq; try done; eauto; lia. Qed.

Section wrapper_laws.
Context {A} {ops : IterOps A} {cmp key es pos} `{L : !@IterLaws A ops cmp key es pos}.

(** A wrapper that holds an iterator at position [i]. *)
Definition wraps (w : IteratorWrapper A) (i : nat) : Prop :=
  exists a, w_iter w = Some a /\ pos a i /\ w_valid w = bool_decide (i < length es)%nat /\
    forall k v, es !! i = Some (k, v) -> w_key w = k.

Lemma wraps_Update a w i : pos a i -> wraps (Wrapper_Update ops a w) i.
Proof.
  intros Hp. exists a. unfold Wrapper_Update. cbn [w_iter w_valid w_key]. rewrite (pos_Valid a i Hp). split_and!; try done.
  intros k v E. rewrite bool_decide_true by (by apply lookup_lt_Some in E). by apply (pos_key a i k v).
Qed.

Lemma wraps_call f w i j :
  wraps w i -> (forall a, pos a i -> exists a', f a = Some a' /\ pos a' j) -> exists w', Wrapper_call ops f w = Some w' /\ wraps w' j.
Proof.
  intros (a & Ea & Hp & _) Hf. destruct (Hf a Hp) as (a' & Ef & Hp'). unfold Wrapper_call. rewrite Ea. cbn [mbind option_bind].
  rewrite Ef. eexists. split; [done|]. by apply wraps_Update.
Qed.

Lemma wraps_valid w i : wraps w i -> w_valid w = bool_decide (i < length es)%nat.
Proof. by intros (? & _ & _ & ? & _). Qed.

Lemma wraps_value w i k v : wraps w i -> es !! i = Some (k, v) -> Wrapper_value ops w = Some v.
Proof. intros (a & Ea & Hp & _) E. unfold Wrapper_value. rewrite Ea. by apply (pos_value a i k v). Qed.

Lemma wraps_status w i : wraps w i -> Wrapper_status ops w = OK.
Proof. intros (a & Ea & Hp & _). unfold Wrapper_status. rewrite Ea. by apply (pos_status a i). Qed.
End wrapper_laws.
