(* ===== verification/TwoLevelIterator.v ===== *)
(** TwoLevelIterator: table/two_level_iterator.cc, an iterator over the concatenation of the blocks that the values of an
    index iterator stand for, over any two iterators that keep the promises of the interface. *)

From S2P Require Import Prelude Coding Comparator Status Iterator.

Section TwoLevelIterator.
(** The index iterator, the iterators of the blocks, and the function that opens one. *)
Context {A B : Type} (iops : IterOps A) (dops : IterOps B) (block_function : slice -> option B).
(** A bound on the number of entries of the index, for the loops that skip blocks. *)
Context (fuel : nat).

Record TwoLevelIterator := MkTwoLevel {
  tl_status : Status;
  index_iter_ : IteratorWrapper A;
  data_iter_ : IteratorWrapper B;
  data_block_handle_ : slice;
}.

Definition NewTwoLevelIterator (index_iter : A) : TwoLevelIterator :=
  MkTwoLevel OK (NewWrapper iops (Some index_iter)) (NewWrapper dops None) [].

Definition SaveError (s : Status) (t : TwoLevelIterator) : TwoLevelIterator :=
  if ok (tl_status t) && negb (ok s) then MkTwoLevel s (index_iter_ t) (data_iter_ t) (data_block_handle_ t) else t.

Definition set_index (w : IteratorWrapper A) (t : TwoLevelIterator) : TwoLevelIterator :=
  MkTwoLevel (tl_status t) w (data_iter_ t) (data_block_handle_ t).

Definition set_data (w : IteratorWrapper B) (t : TwoLevelIterator) : TwoLevelIterator :=
  MkTwoLevel (tl_status t) (index_iter_ t) w (data_block_handle_ t).

Definition SetDataIterator (data_iter : option B) (t : TwoLevelIterator) : TwoLevelIterator :=
  let t := match w_iter (data_iter_ t) with Some _ => SaveError (Wrapper_status dops (data_iter_ t)) t | None => t end in
  set_data (Wrapper_Set dops data_iter (data_iter_ t)) t.

Definition InitDataBlock (t : TwoLevelIterator) : option TwoLevelIterator :=
  if negb (w_valid (index_iter_ t)) then Some (SetDataIterator None t)
  else
    handle ← Wrapper_value iops (index_iter_ t);
    if bool_decide (is_Some (w_iter (data_iter_ t))) && (Slice_compare handle (data_block_handle_ t) =? 0) then Some t
    else
      iter ← block_function handle;
      let t := MkTwoLevel (tl_status t) (index_iter_ t) (data_iter_ t) handle in
      Some (SetDataIterator (Some iter) t).

(** [if (data_iter_.iter() != nullptr) data_iter_.f()]. *)
Definition on_data (f : IteratorWrapper B -> option (IteratorWrapper B)) (t : TwoLevelIterator) : option TwoLevelIterator :=
  match w_iter (data_iter_ t) with
  | Some _ => w ← f (data_iter_ t); Some (set_data w t)
  | None => Some t
  end.

(** The two loops, [step] moving the index and [pos] the new data iterator. *)
Fixpoint SkipEmptyDataBlocks (n : nat) (step : IteratorWrapper A -> option (IteratorWrapper A))
    (pos : IteratorWrapper B -> option (IteratorWrapper B)) (t : TwoLevelIterator) : option TwoLevelIterator :=
  match n with
  | O => None
  | S n =>
      if negb (bool_decide (is_Some (w_iter (data_iter_ t)))) || negb (w_valid (data_iter_ t)) then
        if negb (w_valid (index_iter_ t)) then Some (SetDataIterator None t)
        else
          w ← step (index_iter_ t);
          t ← InitDataBlock (set_index w t);
          t ← on_data pos t;
          SkipEmptyDataBlocks n step pos t
      else Some t
  end.

Definition SkipEmptyDataBlocksForward : TwoLevelIterator -> option TwoLevelIterator :=
  SkipEmptyDataBlocks (S (S fuel)) (Wrapper_Next iops) (Wrapper_SeekToFirst dops).

Definition SkipEmptyDataBlocksBackward : TwoLevelIterator -> option TwoLevelIterator :=
  SkipEmptyDataBlocks (S (S fuel)) (Wrapper_Prev iops) (Wrapper_SeekToLast dops).

Definition TwoLevel_Seek (target : slice) (t : TwoLevelIterator) : option TwoLevelIterator :=
  w ← Wrapper_Seek iops target (index_iter_ t);
  t ← InitDataBlock (set_index w t);
  t ← on_data (Wrapper_Seek dops target) t;
  SkipEmptyDataBlocksForward t.

Definition TwoLevel_SeekToFirst (t : TwoLevelIterator) : option TwoLevelIterator :=
  w ← Wrapper_SeekToFirst iops (index_iter_ t);
  t ← InitDataBlock (set_index w t);
  t ← on_data (Wrapper_SeekToFirst dops) t;
  SkipEmptyDataBlocksForward t.

Definition TwoLevel_SeekToLast (t : TwoLevelIterator) : option TwoLevelIterator :=
  w ← Wrapper_SeekToLast iops (index_iter_ t);
  t ← InitDataBlock (set_index w t);
  t ← on_data (Wrapper_SeekToLast dops) t;
  SkipEmptyDataBlocksBackward t.

Definition TwoLevel_Next (t : TwoLevelIterator) : option TwoLevelIterator :=
  w ← Wrapper_Next dops (data_iter_ t);
  SkipEmptyDataBlocksForward (set_data w t).

Definition TwoLevel_Prev (t : TwoLevelIterator) : option TwoLevelIterator :=
  w ← Wrapper_Prev dops (data_iter_ t);
  SkipEmptyDataBlocksBackward (set_data w t).

Definition TwoLevel_Valid (t : TwoLevelIterator) : bool := w_valid (data_iter_ t).

Definition TwoLevel_key (t : TwoLevelIterator) : slice := w_key (data_iter_ t).

Definition TwoLevel_value (t : TwoLevelIterator) : option slice := Wrapper_value dops (data_iter_ t).

Definition TwoLevel_get_status (t : TwoLevelIterator) : Status :=
  if negb (ok (Wrapper_status iops (index_iter_ t))) then Wrapper_status iops (index_iter_ t)
  else if bool_decide (is_Some (w_iter (data_iter_ t))) && negb (ok (Wrapper_status dops (data_iter_ t)))
  then Wrapper_status dops (data_iter_ t)
  else tl_status t.

Definition TwoLevel_ops : IterOps TwoLevelIterator :=
  MkIterOps TwoLevel_Valid TwoLevel_key TwoLevel_value TwoLevel_get_status
    TwoLevel_Seek TwoLevel_SeekToFirst TwoLevel_SeekToLast TwoLevel_Next TwoLevel_Prev.
End TwoLevelIterator.

Arguments TwoLevelIterator : clear implicits.
Arguments MkTwoLevel {A B}.
Arguments tl_status {A B}.
Arguments index_iter_ {A B}.
Arguments data_iter_ {A B}.
Arguments data_block_handle_ {A B}.
Arguments set_index {A B}.
Arguments set_data {A B}.

(** * The iterator is the concatenation of its blocks *)

(** What an index says of the blocks: every key of a block is at most the index key of the block, which is before all keys
    of the next blocks. *)
Definition index_separates (cmp : Comparator) (ies : list (slice * slice)) (bs : list (list (slice * slice))) : Prop :=
  length ies = length bs /\
  forall j k h, ies !! j = Some (k, h) ->
    (forall j' b e, (j' <= j)%nat -> bs !! j' = Some b -> e ∈ b -> Compare cmp e.1 k <= 0) /\
    (forall j' b e, (j < j')%nat -> bs !! j' = Some b -> e ∈ b -> Compare cmp k e.1 < 0).

(** * The concatenation of blocks *)

Section blocks.
Context {X : Type} {bs : list (list X)}.

Abbreviation base j := (length (concat (take j bs))).

Lemma concat_base_S j b : bs !! j = Some b -> base (S j) = (base j + length b)%nat.
Proof. intros E. rewrite (take_S_r _ _ _ E), concat_app, length_app. cbn [concat]. by rewrite app_nil_r. Qed.

Lemma concat_base_all : base (length bs) = length (concat bs).
Proof. by rewrite take_ge. Qed.

Lemma concat_split j b : bs !! j = Some b -> concat bs = concat (take j bs) ++ b ++ concat (drop (S j) bs).
Proof. intros E. rewrite <-(take_drop_middle _ _ _ E) at 1. by rewrite concat_app. Qed.

Lemma concat_base_lookup j b l : bs !! j = Some b -> (l < length b)%nat -> concat bs !! (base j + l)%nat = b !! l.
Proof.
  intros E Hl. rewrite (concat_split j b E). rewrite lookup_app_r by lia.
  replace (base j + l - base j)%nat with l by lia. by apply lookup_app_l.
Qed.

Lemma concat_base_le j b : bs !! j = Some b -> (base j + length b <= length (concat bs))%nat.
Proof. intros E. rewrite (concat_split j b E), !length_app. lia. Qed.

End blocks.

Section index.
Context {cmp : Comparator} {key : slice -> Prop} `{!ComparatorLaws key cmp}.
Context {ies : list (slice * slice)} {bs : list (list (slice * slice))} (Hsep : index_separates cmp ies bs).
Context (Hikeys : Forall (fun e => key e.1) ies) (Hisorted : sorted_entries cmp ies).
Context (Hkeys : Forall (fun e => key e.1) (concat bs)) (Hsorted : sorted_entries cmp (concat bs)).

Abbreviation base j := (length (concat (take j bs))).

Lemma index_length : length ies = length bs.
Proof. apply Hsep. Qed.

Lemma index_block j : (j < length ies)%nat -> exists k h b, ies !! j = Some (k, h) /\ bs !! j = Some b.
Proof.
  intros Hj. destruct (lookup_lt_is_Some_2 ies j Hj) as [[k h] E].
  destruct (lookup_lt_is_Some_2 bs j ltac:(rewrite <-index_length; done)) as [b Eb]. eauto 10.
Qed.

(** ** The position of [Seek] *)

Lemma elem_take j e : e ∈ concat (take j bs) -> exists j' b, (j' < j)%nat /\ bs !! j' = Some b /\ e ∈ b.
Proof.
  intros H. apply list_elem_of_In, in_concat in H as (b & Hb & He). apply list_elem_of_In in Hb, He.
  apply list_elem_of_lookup in Hb as [j' Hj']. apply lookup_take_Some in Hj' as [Hj' ?]. by exists j', b.
Qed.

Lemma elem_drop j e : e ∈ concat (drop j bs) -> exists j' b, (j <= j')%nat /\ bs !! j' = Some b /\ e ∈ b.
Proof.
  intros H. apply list_elem_of_In, in_concat in H as (b & Hb & He). apply list_elem_of_In in Hb, He.
  apply list_elem_of_lookup in Hb as [j' Hj']. rewrite lookup_drop in Hj'. exists (j + j')%nat, b. split; [lia|done].
Qed.

Lemma block_key j b e : bs !! j = Some b -> e ∈ b -> key e.1.
Proof.
  intros Eb He. rewrite (concat_split j b Eb), !Forall_app in Hkeys. destruct Hkeys as (_ & Hb & _).
  rewrite Forall_forall in Hb. by apply Hb.
Qed.

Lemma block_sorted j b : bs !! j = Some b -> Forall (fun e => key e.1) b /\ sorted_entries cmp b.
Proof.
  intros Eb. split; [apply Forall_forall; intros e He; by eapply block_key|]. unfold sorted_entries in *.
  rewrite (concat_split j b Eb) in Hsorted. apply StronglySorted_app_1_r in Hsorted. by apply StronglySorted_app_1_l in Hsorted.
Qed.

(** The index leads to the block of the position. *)
Lemma seek_concat t :
  key t -> let j := seek_pos cmp t ies in
  seek_pos cmp t (concat bs) = match bs !! j with Some b => (base j + seek_pos cmp t b)%nat | None => length (concat bs) end.
Proof.
  intros Ht j. assert (forall e, e ∈ concat (take j bs) -> Compare cmp e.1 t < 0) as Hbefore.
  { intros e (j' & b & Hj & Eb & He)%elem_take. pose proof (seek_pos_le cmp t ies : (j <= _)%nat).
    destruct (index_block j' ltac:(lia)) as (k & h & b' & Ei & Eb'). destruct (proj2 Hsep j' k h Ei) as [Hle _].
    apply (compare_le_lt _ k); [exact (block_key j' b e Eb He)|exact (keys_lookup _ _ _ _ _ Hikeys Ei)|done|by apply (Hle j' b e)|].
    by apply (seek_pos_spec ies t j' k h Hikeys Hisorted Ht Ei). }
  symmetry. destruct (bs !! j) as [b|] eqn:Eb.
  - destruct (block_sorted j b Eb) as [Hbk Hbs]. pose proof (seek_pos_le cmp t b) as Hle. pose proof (concat_base_le j b Eb).
    apply seek_pos_unique; [done|done|done|lia|..].
    + intros i k v Hi E. rewrite (concat_split j b Eb) in E. apply lookup_app_Some in E as [E|[Hge E]].
      { apply (Hbefore (k, v)). by eapply list_elem_of_lookup_2. }
      rewrite lookup_app_l in E by lia. apply (seek_pos_spec b t _ k v Hbk Hbs Ht E). lia.
    + intros k v E. rewrite (concat_split j b Eb), lookup_app_r in E by lia.
      replace (base j + seek_pos cmp t b - base j)%nat with (seek_pos cmp t b) in E by lia. apply lookup_app_Some in E as [E|[Hge E]].
      { destruct (decide (Compare cmp k t < 0)) as [H'|]; [|lia]. apply (seek_pos_spec b t _ k v Hbk Hbs Ht E) in H'. lia. }
      apply list_elem_of_lookup_2, elem_drop in E as (j' & b' & Hj & Eb' & He).
      destruct (index_block j ltac:(rewrite index_length; by apply lookup_lt_Some in Eb)) as (ik & h & ? & Ei & _).
      destruct (proj2 Hsep j ik h Ei) as [_ Hlt]. specialize (Hlt j' b' _ ltac:(lia) Eb' He). cbn [fst] in Hlt.
      pose proof (keys_lookup _ _ _ _ _ Hikeys Ei) as Hik. pose proof (block_key j' b' (k, v) Eb' He) as Hkk. cbn [fst] in Hkk.
      assert (~ Compare cmp ik t < 0) as Hn. { rewrite (seek_pos_spec ies t j ik h Hikeys Hisorted Ht Ei). unfold j. lia. }
      apply compare_nlt in Hn; [|done|done]. pose proof (compare_le_lt t ik k Ht Hik Hkk Hn Hlt) as Hlt'.
      apply compare_antisym in Hlt'; [lia|done|done].
  - apply lookup_ge_None in Eb. apply seek_pos_unique; [done|done|done|lia|..].
    + intros i k v Hi E. apply (Hbefore (k, v)). rewrite take_ge by done. by eapply list_elem_of_lookup_2.
    + intros k v E. apply lookup_lt_Some in E. lia.
Qed.

End index.

Section laws.
Context {A B : Type} {iops : IterOps A} {dops : IterOps B} {block_function : slice -> option B} {fuel : nat}.
Context (cmp : Comparator) (key : slice -> Prop) `{!ComparatorLaws key cmp}.
Context (ies : list (slice * slice)) (bs : list (list (slice * slice))) (ipos : A -> nat -> Prop) (dpos : nat -> B -> nat -> Prop).

(** The index and the blocks are iterators, and the values of the index open different blocks. *)
Context `{HI : !IterLaws iops cmp key ies ipos}.
Context (HD : forall j b, bs !! j = Some b -> IterLaws dops cmp key b (dpos j)).
Context (Hopen : forall j k h, ies !! j = Some (k, h) -> exists d l, block_function h = Some d /\ dpos j d l).
Context (Hdistinct : forall i j k k' h, ies !! i = Some (k, h) -> ies !! j = Some (k', h) -> i = j).
Context (Hsep : index_separates cmp ies bs) (Hfuel : (length ies <= fuel)%nat).
Context (Hikeys : Forall (fun e => key e.1) ies) (Hisorted : sorted_entries cmp ies).
Context (Hkeys : Forall (fun e => key e.1) (concat bs)) (Hsorted : sorted_entries cmp (concat bs)).

Abbreviation state := (TwoLevelIterator A B).
Abbreviation base j := (length (concat (take j bs))).

(** The index is at [j], and the statuses are OK. *)
Definition index_at (t : state) (j : nat) : Prop := @wraps A ies ipos (index_iter_ t) j /\ tl_status t = OK.

(** There is no block, or a block [j] at position [l]. *)
Definition data_none (t : state) : Prop := w_iter (data_iter_ t) = None /\ w_valid (data_iter_ t) = false.

Definition data_at (t : state) (j l : nat) : Prop :=
  exists b k, bs !! j = Some b /\ @wraps B b (dpos j) (data_iter_ t) l /\ ies !! j = Some (k, data_block_handle_ t).

Definition data_any (t : state) : Prop := data_none t \/ exists j l, data_at t j l.

(** The position [i] in all the entries. *)
Definition twolevel_pos (t : state) (i : nat) : Prop :=
  (exists j l b, index_at t j /\ data_at t j l /\ bs !! j = Some b /\ (l < length b)%nat /\ i = (base j + l)%nat) \/
  ((exists m, index_at t m) /\ data_none t /\ i = length (concat bs)).

Local Lemma index_len : length ies = length bs.
Proof. exact (index_length Hsep). Qed.

Local Lemma block_lookup j : (j < length ies)%nat -> exists k h b, ies !! j = Some (k, h) /\ bs !! j = Some b.
Proof. exact (index_block Hsep j). Qed.

Local Lemma data_some t j l : data_at t j l -> is_Some (w_iter (data_iter_ t)).
Proof. intros (b & k & _ & (d & E & _) & _). rewrite E. done. Qed.

Local Lemma data_valid t j l b : data_at t j l -> bs !! j = Some b -> w_valid (data_iter_ t) = bool_decide (l < length b)%nat.
Proof. intros (b' & k & Eb & Hw & _) E. rewrite E in Eb. injection Eb as <-. by apply wraps_valid in Hw. Qed.

Local Lemma data_status t j l : data_at t j l -> Wrapper_status dops (data_iter_ t) = OK.
Proof. intros (b & k & Eb & Hw & _). pose proof (HD j b Eb). by eapply wraps_status. Qed.

(** ** The steps *)

Local Lemma data_any_status t : data_any t -> w_iter (data_iter_ t) = None \/ Wrapper_status dops (data_iter_ t) = OK.
Proof. intros [[H _]|(j & l & H)]; [by left|right; by eapply data_status]. Qed.

Local Lemma SetDataIterator_eq o (t : state) :
  w_iter (data_iter_ t) = None \/ Wrapper_status dops (data_iter_ t) = OK ->
  SetDataIterator dops o t = set_data (Wrapper_Set dops o (data_iter_ t)) t.
Proof.
  intros H. unfold SetDataIterator. destruct (w_iter (data_iter_ t)) eqn:E; [|done]. destruct H as [H|H]; [done|].
  unfold SaveError. rewrite H, ok_OK. by rewrite andb_false_r.
Qed.

(** A block is opened, or kept. *)
Local Lemma InitDataBlock_at t j :
  index_at t j -> data_any t -> (j < length ies)%nat ->
  exists t' l, InitDataBlock iops dops block_function t = Some t' /\ index_at t' j /\ data_at t' j l.
Proof.
  intros [Hw Hst] Hd Hj. destruct (block_lookup j Hj) as (k & h & b & Ei & Eb). unfold InitDataBlock.
  rewrite (wraps_valid _ _ Hw), bool_decide_true by done. cbn [negb]. rewrite (wraps_value _ _ _ _ Hw Ei). cbn [mbind option_bind].
  destruct (bool_decide _ && _) eqn:Ec.
  - apply andb_true_iff in Ec as [Hs Hc]. apply bool_decide_eq_true in Hs. apply Z.eqb_eq, Slice_compare_eq in Hc as ->.
    destruct Hd as [[Hn _]|(j' & l & Hd)]; [rewrite Hn in Hs; by destruct Hs|]. exists t, l. split; [done|].
    pose proof Hd as (b' & k' & _ & _ & E'). rewrite <-(Hdistinct _ _ _ _ _ E' Ei). split; [|done].
    by rewrite (Hdistinct _ _ _ _ _ E' Ei).
  - destruct (Hopen j k h Ei) as (d & l & -> & Hp). cbn [mbind option_bind]. eexists _, l. split; [done|].
    rewrite SetDataIterator_eq by (by apply (data_any_status t)).
    split; [done|]. exists b, k. split_and!; [done| |done]. pose proof (HD j b Eb). by apply wraps_Update.
Qed.

(** Past the last entry of the index there is no block. *)
Local Lemma InitDataBlock_end t j :
  index_at t j -> data_any t -> (length ies <= j)%nat ->
  exists t', InitDataBlock iops dops block_function t = Some t' /\ index_at t' j /\ data_none t'.
Proof.
  intros [Hw Hst] Hd Hj. unfold InitDataBlock. rewrite (wraps_valid _ _ Hw), bool_decide_false by lia. cbn [negb].
  eexists. split; [done|]. rewrite SetDataIterator_eq by (by apply data_any_status). done.
Qed.

Local Lemma on_data_at f t j l l' :
  index_at t j -> data_at t j l ->
  (forall b w, bs !! j = Some b -> @wraps B b (dpos j) w l -> exists w', f w = Some w' /\ @wraps B b (dpos j) w' l') ->
  exists t', on_data f t = Some t' /\ index_at t' j /\ data_at t' j l'.
Proof.
  intros Hi Hd Hf. pose proof (data_some t j l Hd) as [d Es]. destruct Hd as (b & k & Eb & Hw & Eh).
  destruct (Hf b _ Eb Hw) as (w' & Ef & Hw'). unfold on_data. rewrite Es, Ef. eexists. split; [done|]. split; [done|]. by exists b, k.
Qed.

(** The index moves to [j'], and the block there to the position that [f] gives. *)
Local Lemma reposition t j' f (l' : list (slice * slice) -> nat) :
  index_at t j' -> data_any t -> (j' <= length ies)%nat ->
  (forall b w l, bs !! j' = Some b -> @wraps B b (dpos j') w l -> exists w', f w = Some w' /\ @wraps B b (dpos j') w' (l' b)) ->
  exists t', (t ← InitDataBlock iops dops block_function t; on_data f t) = Some t' /\
    index_at t' j' /\ match bs !! j' with Some b => data_at t' j' (l' b) | None => data_none t' end.
Proof.
  intros Hi Hd Hj Hf. destruct (decide (j' < length ies)%nat) as [Hlt|Hge].
  - destruct (InitDataBlock_at t j' Hi Hd Hlt) as (t1 & l & -> & Hi1 & Hd1). cbn [mbind option_bind].
    destruct (block_lookup j' Hlt) as (k & h & b & _ & Eb). rewrite Eb.
    apply (on_data_at f t1 j' l (l' b) Hi1 Hd1). intros b' w Eb' Hw. rewrite Eb in Eb'. injection Eb' as <-. by eapply Hf.
  - destruct (InitDataBlock_end t j' Hi Hd ltac:(lia)) as (t1 & -> & Hi1 & Hd1). cbn [mbind option_bind].
    exists t1. unfold on_data. pose proof Hd1 as [-> _]. rewrite (proj2 (lookup_ge_None bs j')) by (rewrite <-index_len; lia). done.
Qed.

Local Lemma none_pos t j : index_at t j -> data_none t -> twolevel_pos t (length (concat bs)).
Proof. intros. right. eauto. Qed.

(** One turn of the loops that skip empty blocks: the block is at an entry, or there are no more, or the next block in the
    direction is opened. *)
Local Lemma Skip_step n step pos t j (j' : nat) (l' : list (slice * slice) -> nat) l b :
  index_at t j -> data_at t j l -> bs !! j = Some b -> (j' <= length ies)%nat ->
  (forall w, @wraps A ies ipos w j -> exists w', step w = Some w' /\ @wraps A ies ipos w' j') ->
  (forall b w l, bs !! j' = Some b -> @wraps B b (dpos j') w l -> exists w', pos w = Some w' /\ @wraps B b (dpos j') w' (l' b)) ->
  if decide (l < length b)%nat then SkipEmptyDataBlocks iops dops block_function (S n) step pos t = Some t
  else exists t', SkipEmptyDataBlocks iops dops block_function (S n) step pos t = SkipEmptyDataBlocks iops dops block_function n step pos t' /\
    index_at t' j' /\ match bs !! j' with Some b => data_at t' j' (l' b) | None => data_none t' end.
Proof.
  intros Hi Hd Eb Hj' Hstep Hpos. cbn [SkipEmptyDataBlocks]. rewrite (bool_decide_true _ (data_some t j l Hd)).
  rewrite (data_valid t j l b Hd Eb). cbn [negb orb]. case_decide as Hl; [by rewrite bool_decide_true|]. rewrite bool_decide_false by done.
  assert (j < length ies)%nat as Hj by (rewrite index_len; by apply lookup_lt_Some in Eb). destruct Hi as [Hw Hst].
  rewrite (wraps_valid _ _ Hw), bool_decide_true by done. cbn [negb]. destruct (Hstep _ Hw) as (w' & -> & Hw'). cbn [mbind option_bind].
  destruct (reposition (set_index w' t) j' pos l') as (t' & E & Hi' & Hd'); [done|right; by exists j, l|done|done|].
  exists t'. split; [|done]. revert E. cbn [mbind option_bind]. destruct (InitDataBlock _ _ _ _) as [t1|]; [|done]. cbn. by intros ->.
Qed.

Local Lemma Skip_none n step pos t j :
  index_at t j -> data_none t -> (length ies <= j)%nat ->
  exists t', SkipEmptyDataBlocks iops dops block_function (S n) step pos t = Some t' /\ twolevel_pos t' (length (concat bs)).
Proof.
  intros Hi [Hn Hv] Hj. cbn [SkipEmptyDataBlocks]. rewrite Hn. destruct Hi as [Hw Hst].
  rewrite (wraps_valid _ _ Hw), (bool_decide_false (j < _)%nat) by lia. cbn.
  rewrite SetDataIterator_eq by (by left). eexists. split; [done|]. by apply (none_pos _ j).
Qed.

Local Lemma first_data j b w l :
  bs !! j = Some b -> @wraps B b (dpos j) w l -> exists w', Wrapper_SeekToFirst dops w = Some w' /\ @wraps B b (dpos j) w' 0%nat.
Proof. intros Eb Hw. pose proof (HD j b Eb). eapply wraps_call; [exact Hw|]. intros a Hp. by apply (pos_SeekToFirst a l). Qed.

Local Lemma last_data j b w l :
  bs !! j = Some b -> @wraps B b (dpos j) w l -> exists w', Wrapper_SeekToLast dops w = Some w' /\ @wraps B b (dpos j) w' (length b - 1)%nat.
Proof. intros Eb Hw. pose proof (HD j b Eb). eapply wraps_call; [exact Hw|]. intros a Hp. by apply (pos_SeekToLast a l). Qed.

Local Lemma Skip_done n step pos t j l b :
  data_at t j l -> bs !! j = Some b -> (l < length b)%nat ->
  SkipEmptyDataBlocks iops dops block_function (S n) step pos t = Some t.
Proof.
  intros Hd Eb Hl. cbn [SkipEmptyDataBlocks]. rewrite (bool_decide_true _ (data_some t j l Hd)), (data_valid t j l b Hd Eb).
  by rewrite bool_decide_true by done.
Qed.

(** Forward, the position stays the same. *)
Local Lemma Skip_forward n t j l b :
  index_at t j -> data_at t j l -> bs !! j = Some b -> (l <= length b)%nat -> (length ies < n + j)%nat -> (1 < n)%nat ->
  exists t', SkipEmptyDataBlocks iops dops block_function n (Wrapper_Next iops) (Wrapper_SeekToFirst dops) t = Some t' /\
    twolevel_pos t' (base j + l).
Proof.
  revert t j l b. induction n as [|n IH]; intros t j l b Hi Hd Eb Hl Hn H0; [lia|].
  assert (j < length ies)%nat as Hj by (rewrite index_len; by apply lookup_lt_Some in Eb).
  pose proof (Skip_step n (Wrapper_Next iops) (Wrapper_SeekToFirst dops) t j (S j) (fun _ => 0%nat) l b Hi Hd Eb ltac:(lia)) as Hs.
  case_decide as Hlt.
  - exists t. split; [|by left; exists j, l, b]. apply Hs; [|by intros; eapply first_data].
    intros w Hw. eapply wraps_call; [exact Hw|]. intros a Hp. by apply (pos_Next a j).
  - destruct Hs as (t' & -> & Hi' & Hd'); [|by intros; eapply first_data|].
    { intros w Hw. eapply wraps_call; [exact Hw|]. intros a Hp. by apply (pos_Next a j). }
    replace (base j + l)%nat with (base (S j) + 0)%nat by (rewrite (concat_base_S j b Eb); lia).
    destruct (bs !! S j) as [b'|] eqn:Eb'.
    + apply lookup_lt_Some in Eb' as Hj'. rewrite <-index_len in Hj'. apply (IH t' (S j) 0%nat b'); try done; lia.
    + apply lookup_ge_None in Eb'. replace (S j) with (length bs) in * by (rewrite <-index_len in *; lia).
      rewrite concat_base_all, Nat.add_0_r. destruct n as [|n]; [lia|]. apply (Skip_none n _ _ t' (length bs)); [done|done|]. by rewrite index_len.
Qed.

(** Backward from the end of a block, the position is that before the block. *)
Local Lemma Skip_backward n t j b :
  index_at t j -> data_at t j (length b) -> bs !! j = Some b -> (j + 1 < n)%nat ->
  exists t', SkipEmptyDataBlocks iops dops block_function n (Wrapper_Prev iops) (Wrapper_SeekToLast dops) t = Some t' /\
    twolevel_pos t' (prev_pos (length (concat bs)) (base j)).
Proof.
  revert n t b. induction j as [|j IH]; intros n t b Hi Hd Eb Hn; (destruct n as [|n]; [lia|]).
  - assert (0 < length ies)%nat as Hj by (rewrite index_len; by apply lookup_lt_Some in Eb).
    pose proof (Skip_step n (Wrapper_Prev iops) (Wrapper_SeekToLast dops) t 0 (length ies) (fun b => length b - 1)%nat _ b Hi Hd Eb ltac:(lia)) as Hs.
    rewrite decide_False in Hs by lia. destruct Hs as (t' & -> & Hi' & Hd'); [|by intros; eapply last_data|].
    { intros w Hw. eapply wraps_call; [exact Hw|]. intros a Hp. by apply (pos_Prev a 0). }
    rewrite (proj2 (lookup_ge_None bs (length ies))) in Hd' by (by rewrite index_len).
    destruct n as [|n]; [lia|]. by apply (Skip_none n _ _ t' (length ies)).
  - assert (S j < length ies)%nat as Hj by (rewrite index_len; by apply lookup_lt_Some in Eb).
    pose proof (Skip_step n (Wrapper_Prev iops) (Wrapper_SeekToLast dops) t (S j) j (fun b => length b - 1)%nat _ b Hi Hd Eb ltac:(lia)) as Hs.
    rewrite decide_False in Hs by lia. destruct Hs as (t' & -> & Hi' & Hd'); [|by intros; eapply last_data|].
    { intros w Hw. eapply wraps_call; [exact Hw|]. intros a Hp.
      destruct (pos_Prev a (S j) Hp Hj) as (a' & E & Hp'). exists a'. split; [done|].
      unfold prev_pos in Hp'. rewrite decide_False in Hp' by lia. by replace (S j - 1)%nat with j in Hp' by lia. }
    destruct (block_lookup j ltac:(lia)) as (k & h & b' & _ & Eb'). rewrite Eb' in Hd'. rewrite (concat_base_S j b' Eb').
    destruct (decide (length b' = 0)%nat) as [E0|E0].
    + rewrite E0, Nat.add_0_r. apply (IH n t' b'); [done| |done|lia]. by rewrite E0 in Hd' |- *.
    + exists t'. destruct n as [|n]; [lia|]. split; [by apply (Skip_done n _ _ t' j (length b' - 1) b'); [..|lia]|].
      left. exists j, (length b' - 1)%nat, b'. split_and!; try done; [lia|]. unfold prev_pos. rewrite decide_False by lia. lia.
Qed.

(** ** The laws *)

Local Lemma twolevel_inv t i : twolevel_pos t i -> (exists j, index_at t j) /\ data_any t.
Proof. intros [(j & l & b & Hi & Hd & _)|(Hi & Hd & _)]; [split; [by exists j|right; by exists j, l]|split; [done|by left]]. Qed.

Local Lemma bind_assoc {X Y Z} (m : option X) (f : X -> option Y) (g : Y -> option Z) y :
  (x ← m; f x) = Some y -> (x ← m; y ← f x; g y) = g y.
Proof. destruct m; [|done]. cbn. by intros ->. Qed.

(** The index is moved, the block opened and moved; what remains is to skip empty blocks. *)
Local Lemma seek_step t i fi fd skip (j' : nat) (l' : list (slice * slice) -> nat) p :
  twolevel_pos t i -> (j' <= length ies)%nat ->
  (forall j w, @wraps A ies ipos w j -> exists w', fi w = Some w' /\ @wraps A ies ipos w' j') ->
  (forall b w l, bs !! j' = Some b -> @wraps B b (dpos j') w l -> exists w', fd w = Some w' /\ @wraps B b (dpos j') w' (l' b)) ->
  (forall t', index_at t' j' -> match bs !! j' with Some b => data_at t' j' (l' b) | None => data_none t' end ->
     exists t2, skip t' = Some t2 /\ twolevel_pos t2 p) ->
  exists t', (w ← fi (index_iter_ t); t ← InitDataBlock iops dops block_function (set_index w t); t ← on_data fd t; skip t) = Some t' /\ twolevel_pos t' p.
Proof.
  intros Hp Hj Hfi Hfd Hskip. destruct (twolevel_inv t i Hp) as [(j & Hw & Hst) Hd].
  destruct (Hfi j _ Hw) as (w' & -> & Hw'). cbn [mbind option_bind].
  destruct (reposition (set_index w' t) j' fd l') as (t' & E & Hi' & Hd'); [done| |done|done|].
  { destruct Hd as [Hd|(j0 & l0 & Hd)]; [by left|right; by exists j0, l0]. }
  rewrite (bind_assoc _ _ _ t' E). by apply Hskip.
Qed.

Local Lemma Forward_spec t j b l :
  index_at t j -> data_at t j l -> bs !! j = Some b -> (l <= length b)%nat ->
  exists t', SkipEmptyDataBlocksForward iops dops block_function fuel t = Some t' /\ twolevel_pos t' (base j + l).
Proof. intros Hi Hd Eb Hl. apply (Skip_forward _ t j l b); try done; lia. Qed.

(** Backward, from an entry or from the end of a block. *)
Local Lemma Backward_spec t j b l :
  index_at t j -> data_at t j l -> bs !! j = Some b ->
  exists t', SkipEmptyDataBlocksBackward iops dops block_function fuel t = Some t' /\
    twolevel_pos t' (if decide (l < length b)%nat then (base j + l)%nat else prev_pos (length (concat bs)) (base j)).
Proof.
  intros Hi Hd Eb. assert (j < length ies)%nat as Hj by (rewrite index_len; by apply lookup_lt_Some in Eb). case_decide as Hl.
  - exists t. split; [by apply (Skip_done _ _ _ t j l b)|]. left. by exists j, l, b.
  - apply (Skip_backward _ t j b); [done| |done|lia]. pose proof Hd as (b' & k & Eb' & (d & _ & Hp & _) & _).
    rewrite Eb in Eb'. injection Eb' as <-. pose proof (HD j b Eb). apply pos_range in Hp.
    by replace (length b) with l by lia.
Qed.

Local Lemma TwoLevel_Seek_spec t i tg :
  twolevel_pos t i -> key tg ->
  exists t', TwoLevel_Seek iops dops block_function fuel tg t = Some t' /\ twolevel_pos t' (seek_pos cmp tg (concat bs)).
Proof.
  intros Hp Ht. apply (seek_step t i _ _ _ (seek_pos cmp tg ies) (seek_pos cmp tg)); [done|apply seek_pos_le| | |].
  - intros j w Hw. eapply wraps_call; [exact Hw|]. intros a Ha. by apply (pos_Seek a j).
  - intros b w l Eb Hw. pose proof (HD _ b Eb). eapply wraps_call; [exact Hw|]. intros a Ha. by apply (pos_Seek a l).
  - intros t' Hi' Hd'. rewrite (seek_concat Hsep Hikeys Hisorted Hkeys Hsorted tg Ht). destruct (bs !! seek_pos cmp tg ies) as [b|] eqn:Eb.
    + apply (Forward_spec t' _ b); try done. apply seek_pos_le.
    + apply lookup_ge_None in Eb. apply (Skip_none _ _ _ t' (seek_pos cmp tg ies)); [done|done|]. by rewrite index_len.
Qed.

Local Lemma TwoLevel_SeekToFirst_spec t i :
  twolevel_pos t i -> exists t', TwoLevel_SeekToFirst iops dops block_function fuel t = Some t' /\ twolevel_pos t' 0.
Proof.
  intros Hp. apply (seek_step t i _ _ _ 0%nat (fun _ => 0%nat)); [done|lia| |by intros; eapply first_data|].
  - intros j w Hw. eapply wraps_call; [exact Hw|]. intros a Ha. by apply (pos_SeekToFirst a j).
  - intros t' Hi' Hd'. destruct (bs !! 0%nat) as [b|] eqn:Eb.
    + apply (Forward_spec t' 0 b 0%nat); try done. lia.
    + assert (bs = []) as E by (by destruct bs). replace 0%nat with (length (concat bs)) by (by rewrite E).
      apply (Skip_none _ _ _ t' 0%nat); [done|done|]. rewrite index_len, E. done.
Qed.

Local Lemma TwoLevel_SeekToLast_spec t i :
  twolevel_pos t i ->
  exists t', TwoLevel_SeekToLast iops dops block_function fuel t = Some t' /\ twolevel_pos t' (length (concat bs) - 1).
Proof.
  intros Hp. apply (seek_step t i _ _ _ (length ies - 1)%nat (fun b => length b - 1)%nat); [done|lia| |by intros; eapply last_data|].
  - intros j w Hw. eapply wraps_call; [exact Hw|]. intros a Ha. by apply (pos_SeekToLast a j).
  - intros t' Hi' Hd'. destruct (bs !! (length ies - 1)%nat) as [b|] eqn:Eb.
    + destruct (Backward_spec t' _ b _ Hi' Hd' Eb) as (t2 & E & H2). exists t2. split; [done|].
      assert (length (concat bs) = base (length ies - 1) + length b)%nat as El.
      { rewrite <-(concat_base_S _ b Eb), <-concat_base_all, <-index_len. apply lookup_lt_Some in Eb. do 3 f_equal. rewrite index_len in *. lia. }
      revert H2. unfold prev_pos. repeat case_decide; intros H2.
      * by replace (length (concat bs) - 1)%nat with (base (length ies - 1) + (length b - 1))%nat by lia.
      * by replace (length (concat bs) - 1)%nat with (length (concat bs)) by lia.
      * by replace (length (concat bs) - 1)%nat with (base (length ies - 1) - 1)%nat by lia.
    + apply lookup_ge_None in Eb. rewrite index_len in Eb. assert (bs = []) as E by (destruct bs; [done|cbn [length] in Eb; lia]).
      replace (length (concat bs) - 1)%nat with (length (concat bs)) by (by rewrite E).
      apply (Skip_none _ _ _ t' (length ies - 1)%nat); [done|done|]. rewrite index_len, E. cbn. lia.
Qed.

(** From an entry, in its block. *)
Local Lemma step_data t j l b f l' :
  index_at t j -> data_at t j l -> bs !! j = Some b ->
  (forall a, dpos j a l -> exists a', f a = Some a' /\ dpos j a' l') ->
  exists w, Wrapper_call dops f (data_iter_ t) = Some w /\ index_at (set_data w t) j /\ data_at (set_data w t) j l'.
Proof.
  intros Hi (b' & k & Eb' & Hw & Eh) Eb Hf. rewrite Eb in Eb'. injection Eb' as <-. pose proof (HD j b Eb).
  destruct (wraps_call f _ l l' Hw Hf) as (w' & E & Hw'). exists w'. split; [done|]. split; [done|]. by exists b, k.
Qed.

Local Lemma TwoLevel_Next_spec t i :
  twolevel_pos t i -> (i < length (concat bs))%nat ->
  exists t', TwoLevel_Next iops dops block_function fuel t = Some t' /\ twolevel_pos t' (S i).
Proof.
  intros [(j & l & b & Hi & Hd & Eb & Hl & ->)|(_ & _ & ->)] Hlt; [|lia]. pose proof (HD j b Eb).
  destruct (step_data t j l b (i_Next dops) (S l) Hi Hd Eb) as (w & E & Hi' & Hd'); [intros a Ha; by apply (pos_Next a l)|].
  unfold TwoLevel_Next, Wrapper_Next. rewrite E. cbn [mbind option_bind].
  replace (S (base j + l)) with (base j + S l)%nat by lia. by apply (Forward_spec _ j b).
Qed.

Local Lemma TwoLevel_Prev_spec t i :
  twolevel_pos t i -> (i < length (concat bs))%nat ->
  exists t', TwoLevel_Prev iops dops block_function fuel t = Some t' /\ twolevel_pos t' (prev_pos (length (concat bs)) i).
Proof.
  intros [(j & l & b & Hi & Hd & Eb & Hl & ->)|(_ & _ & ->)] Hlt; [|lia]. pose proof (HD j b Eb).
  destruct (step_data t j l b (i_Prev dops) (prev_pos (length b) l) Hi Hd Eb) as (w & E & Hi' & Hd'); [intros a Ha; by apply (pos_Prev a l)|].
  unfold TwoLevel_Prev, Wrapper_Prev. rewrite E. cbn [mbind option_bind].
  destruct (Backward_spec _ j b _ Hi' Hd' Eb) as (t2 & E2 & H2). exists t2. split; [done|]. clear -H2 Hl. revert H2. unfold prev_pos.
  destruct (decide (l = 0)%nat) as [->|Hl0].
  - rewrite (decide_False (P := (length b < length b)%nat)) by lia. by rewrite Nat.add_0_r.
  - rewrite (decide_True (P := (l - 1 < length b)%nat)) by lia. rewrite decide_False by lia.
    by replace (base j + l - 1)%nat with (base j + (l - 1))%nat by lia.
Qed.

(** The iterator keeps the promises of the interface, for the concatenation of the blocks. *)
Lemma TwoLevel_laws :
  IterLaws (TwoLevel_ops iops dops block_function fuel) cmp key (concat bs) twolevel_pos.
Proof.
  split.
  - intros t i [(j & l & b & _ & _ & Eb & Hl & ->)|(_ & _ & ->)]; [|lia]. pose proof (concat_base_le j b Eb). lia.
  - intros t i [(j & l & b & _ & Hd & Eb & Hl & ->)|(_ & [_ Hv] & ->)]; cbn; unfold TwoLevel_Valid.
    + rewrite (data_valid t j l b Hd Eb). pose proof (concat_base_le j b Eb). by rewrite !bool_decide_true by lia.
    + by rewrite Hv, bool_decide_false by lia.
  - intros t i k v [(j & l & b & _ & (b' & k' & Eb' & (d & _ & _ & _ & Hk) & _) & Eb & Hl & ->)|(_ & _ & ->)] E;
      [|apply lookup_lt_Some in E; lia].
    rewrite (concat_base_lookup j b l Eb Hl) in E. rewrite Eb in Eb'. injection Eb' as <-. by apply (Hk k v).
  - intros t i k v [(j & l & b & _ & (b' & k' & Eb' & Hw & _) & Eb & Hl & ->)|(_ & _ & ->)] E; [|apply lookup_lt_Some in E; lia].
    rewrite (concat_base_lookup j b l Eb Hl) in E. rewrite Eb in Eb'. injection Eb' as <-. pose proof (HD j b Eb).
    by apply (wraps_value _ _ _ _ Hw E).
  - intros t i Hp. destruct (twolevel_inv t i Hp) as [(j & Hw & Hst) Hd]. cbn. unfold TwoLevel_get_status.
    rewrite (wraps_status _ _ Hw), ok_OK. cbn [negb]. destruct (data_any_status t Hd) as [->| ->].
    + by rewrite bool_decide_false by (by intros []).
    + by rewrite ok_OK, andb_false_r.
  - exact TwoLevel_Seek_spec.
  - exact TwoLevel_SeekToFirst_spec.
  - exact TwoLevel_SeekToLast_spec.
  - exact TwoLevel_Next_spec.
  - exact TwoLevel_Prev_spec.
Qed.

Lemma NewTwoLevelIterator_pos a j : ipos a j -> twolevel_pos (NewTwoLevelIterator iops dops a) (length (concat bs)).
Proof. intros Hp. right. split; [|done]. exists j. split; [|done]. by apply wraps_Update. Qed.
End laws.
