(* ===== verification/Version.v ===== *)
(** Version: the files of the levels and the searches in them, from db/version_set.cc: [FindFile], [SomeFileOverlapsRange],
    [Version] with [Get], and the choice of overlapping files. *)

From Stdlib Require Import Strings.Byte Strings.String Floats.SpecFloat.
From S2P Require Import Prelude Coding Status Comparator DbFormat Env FileSystem Filename VersionEdit MemTable Iterator TwoLevelIterator.

(** * Data *)

(** A version; the list of versions it is in, and the count of references, are those of the version set. *)
Record Version := MkVersion {
  files_ : list (list FileMetaData);
  file_to_compact_ : option FileMetaData;
  file_to_compact_level_ : Z;
  compaction_score_ : spec_float;
  compaction_level_ : Z;
}.

(** -1 as a [double]. *)
Definition minus_one : spec_float := S754_finite true 4503599627370496 (-52).

Definition NewVersion : Version := MkVersion (repeat [] (Z.to_nat kNumLevels)) None (-1) minus_one (-1).

(** [files_[level]]. *)
Definition level_files (v : Version) (level : Z) : list FileMetaData := nth (Z.to_nat level) (files_ v) [].

Definition NumFiles (v : Version) (level : Z) : Z := i32 (slen (level_files v level)).

(** * Sizes *)

Definition TargetFileSize (max_file_size : Z) : Z := max_file_size.
Definition MaxGrandParentOverlapBytes (max_file_size : Z) : Z := i64 (u64 (10 * TargetFileSize max_file_size)).
Definition ExpandedCompactionByteSizeLimit (max_file_size : Z) : Z := i64 (u64 (25 * TargetFileSize max_file_size)).
Definition MaxFileSizeForLevel (max_file_size : Z) (level : Z) : Z := TargetFileSize max_file_size.

Definition TotalFileSize (files : list FileMetaData) : Z := foldl (fun sum f => i64 (sum + file_size f)) 0 files.

Section Version.
(** The user comparator, and the comparator of internal keys over it. *)
Context (ucmp : Comparator).

Abbreviation icmp := (InternalKeyComparator ucmp).

(** * Searches *)

(** The loop of [FindFile] halves [right - left], so the number of files bounds its turns. *)
Fixpoint FindFile_loop (fuel : nat) (files : list FileMetaData) (key : slice) (left right : Z) : option Z :=
  if left <? right then
    match fuel with
    | O => None
    | S fuel =>
        let mid := u32 (left + right) / 2 in
        f ← files !! Z.to_nat mid;
        if Compare icmp (InternalKey_Encode (largest f)) key <? 0 then FindFile_loop fuel files key (u32 (mid + 1)) right
        else FindFile_loop fuel files key left mid
    end
  else Some right.

Definition FindFile (files : list FileMetaData) (key : slice) : option Z :=
  i32 <$> FindFile_loop (S (length files)) files key 0 (u32 (slen files)).

Definition AfterFile (user_key : option slice) (f : FileMetaData) : bool :=
  match user_key with Some k => 0 <? Compare ucmp k (InternalKey_user_key (largest f)) | None => false end.

Definition BeforeFile (user_key : option slice) (f : FileMetaData) : bool :=
  match user_key with Some k => Compare ucmp k (InternalKey_user_key (smallest f)) <? 0 | None => false end.

Definition SomeFileOverlapsRange (disjoint_sorted_files : bool) (files : list FileMetaData) (smallest_user_key largest_user_key : option slice) :
    option bool :=
  if negb disjoint_sorted_files then
    Some (existsb (fun f => negb (AfterFile smallest_user_key f || BeforeFile largest_user_key f)) files)
  else
    index ← match smallest_user_key with
            | Some k => u32 <$> FindFile files (InternalKey_Encode (NewInternalKey k kMaxSequenceNumber kValueTypeForSeek))
            | None => Some 0
            end;
    if slen files <=? index then Some false
    else f ← files !! Z.to_nat index; Some (negb (BeforeFile largest_user_key f)).

(** * [Version::Get] *)

Inductive SaverState := kNotFound | kFound | kDeleted | kCorrupt.

Record Saver := MkSaver { s_state : SaverState; s_user_key : slice; s_value : slice }.

Definition SaveValue (s : Saver) (ikey v : slice) : Saver :=
  match ParseInternalKey ikey with
  | None => MkSaver kCorrupt (s_user_key s) (s_value s)
  | Some parsed_key =>
      if Compare ucmp (user_key parsed_key) (s_user_key s) =? 0 then
        if decide (type parsed_key = kTypeValue) then MkSaver kFound (s_user_key s) v else MkSaver kDeleted (s_user_key s) (s_value s)
      else s
  end.

Definition NewestFirst (a b : FileMetaData) : Prop := number b < number a.

#[export] Instance NewestFirst_dec a b : Decision (NewestFirst a b).
Proof. unfold NewestFirst. apply _. Defined.

(** [std::sort], for files with different numbers. *)
Fixpoint sort_insert (x : FileMetaData) (l : list FileMetaData) : list FileMetaData :=
  match l with
  | [] => [x]
  | y :: l' => if decide (NewestFirst x y) then x :: l else y :: sort_insert x l'
  end.

Definition sort_newest_first (l : list FileMetaData) : list FileMetaData := foldr sort_insert [] l.

(** The calls of [func] on a state, until it returns false. *)
Section ForEachOverlapping.
Context {A : Type} (func : Z -> FileMetaData -> A -> option (bool * A)).

Fixpoint call_each (level : Z) (fs : list FileMetaData) (a : A) : option (bool * A) :=
  match fs with
  | [] => Some (true, a)
  | f :: fs => '(go, a) ← func level f a; if go : bool then call_each level fs a else Some (false, a)
  end.

(** The levels from [level], of which there are [n]. *)
Fixpoint search_levels (v : Version) (user_key internal_key : slice) (n : nat) (level : Z) (a : A) : option (bool * A) :=
  match n with
  | O => Some (true, a)
  | S n =>
      let files := level_files v level in
      '(go, a) ← (if slen files =? 0 then Some (true, a)
                  else
                    index ← u32 <$> FindFile files internal_key;
                    if index <? slen files then
                      f ← files !! Z.to_nat index;
                      if Compare ucmp user_key (InternalKey_user_key (smallest f)) <? 0 then Some (true, a) else func level f a
                    else Some (true, a));
      if go : bool then search_levels v user_key internal_key n (level + 1) a else Some (false, a)
  end.

Definition ForEachOverlapping (v : Version) (user_key internal_key : slice) (a : A) : option A :=
  let tmp := List.filter (fun f => (0 <=? Compare ucmp user_key (InternalKey_user_key (smallest f))) &&
                                   (Compare ucmp user_key (InternalKey_user_key (largest f)) <=? 0)) (level_files v 0) in
  '(go, a) ← call_each 0 (sort_newest_first tmp) a;
  if go : bool then snd <$> search_levels v user_key internal_key (Z.to_nat kNumLevels - 1) 1 a else Some a.
End ForEachOverlapping.

Record GetStats := MkStats { seek_file : option FileMetaData; seek_file_level : Z }.

(** [State] of [Version::Get]; [C] is the type of the state of the table cache. *)
Record GetState (C : Type) := MkGetState {
  g_saver : Saver;
  g_stats : GetStats;
  g_last_file_read : option FileMetaData;
  g_last_file_read_level : Z;
  g_s : Status;
  g_found : bool;
  g_cache : C;
}.

(** [TableCache::Get] of a file: the status, and the entry that the callback is called with, if it is. *)
Context {C : Type} (table_get : FileMetaData -> slice -> C -> option (Status * option (slice * slice) * C)).

Definition Match (ikey : slice) (level : Z) (f : FileMetaData) (state : GetState C) : option (bool * GetState C) :=
  let stats :=
    match seek_file (g_stats C state), g_last_file_read C state with
    | None, Some last => MkStats (Some last) (g_last_file_read_level C state)
    | _, _ => g_stats C state
    end in
  '(s, result, cache) ← table_get f ikey (g_cache C state);
  let saver := match result with Some (k, v) => SaveValue (g_saver C state) k v | None => g_saver C state end in
  let after s found := MkGetState C saver stats (Some f) level s found cache in
  Some (if negb (ok s) then (false, after s true)
        else
          match s_state saver with
          | kNotFound => (true, after s (g_found C state))
          | kFound => (false, after s true)
          | kDeleted => (false, after s (g_found C state))
          | kCorrupt => (false, after (Corruption (lit "corrupted key for ") (s_user_key saver)) true)
          end).

(** The status, [*value], [*stats] and the state of the table cache. *)
Definition Version_Get (v : Version) (k : LookupKey) (value : slice) (cache : C) : option (Status * slice * GetStats * C) :=
  let ikey := internal_key k in
  let state := MkGetState C (MkSaver kNotFound (lookup_user_key k) value) (MkStats None (-1)) None (-1) OK false cache in
  state ← ForEachOverlapping (Match ikey) v (lookup_user_key k) ikey state;
  Some (if g_found C state then g_s C state else NotFound [] [], s_value (g_saver C state), g_stats C state, g_cache C state).

(** * Statistics *)

(** [f->allowed_seeks--] is seen in every version that has the file; here in this one. *)
Definition decrement_seeks (f : FileMetaData) : FileMetaData :=
  MkFile (refs f) (i32 (allowed_seeks f - 1)) (number f) (file_size f) (smallest f) (largest f).

Definition UpdateStats (stats : GetStats) (v : Version) : bool * Version :=
  match seek_file stats with
  | None => (false, v)
  | Some f =>
      let f' := decrement_seeks f in
      let files := map (map (fun g => if decide (g = f) then f' else g)) (files_ v) in
      if (allowed_seeks f' <=? 0) && bool_decide (file_to_compact_ v = None) then
        (true, MkVersion files (Some f') (seek_file_level stats) (compaction_score_ v) (compaction_level_ v))
      else
        let to_compact := (fun g => if decide (g = f) then f' else g) <$> file_to_compact_ v in
        (false, MkVersion files to_compact (file_to_compact_level_ v) (compaction_score_ v) (compaction_level_ v))
  end.

(** [State] of [RecordReadSample]: the statistics and the number of matches. *)
Definition sample_match (level : Z) (f : FileMetaData) (state : GetStats * Z) : option (bool * (GetStats * Z)) :=
  let '(stats, matches) := state in
  let matches := i32 (matches + 1) in
  Some (matches <? 2, (if matches =? 1 then MkStats (Some f) level else stats, matches)).

Definition RecordReadSample (internal_key : slice) (v : Version) : option (bool * Version) :=
  match ParseInternalKey internal_key with
  | None => Some (false, v)
  | Some ikey =>
      '(stats, matches) ← ForEachOverlapping sample_match v (user_key ikey) internal_key (MkStats None (-1), 0);
      Some (if 2 <=? matches then UpdateStats stats v else (false, v))
  end.

(** * Overlapping files *)

Definition OverlapInLevel (v : Version) (level : Z) (smallest_user_key largest_user_key : option slice) : option bool :=
  SomeFileOverlapsRange (0 <? level) (level_files v level) smallest_user_key largest_user_key.

(** The loop over the files from position [i], whose restarts go back to all the [files]; [user_begin] and [user_end] are
    absent when the pointers are null. *)
Fixpoint GetOverlappingInputs_loop (fuel : nat) (level0 : bool) (files rest : list FileMetaData) (user_begin user_end : option slice)
    (inputs : list FileMetaData) : option (list FileMetaData) :=
  match rest with
  | [] => Some inputs
  | f :: rest =>
      match fuel with
      | O => None
      | S fuel =>
          let file_start := InternalKey_user_key (smallest f) in
          let file_limit := InternalKey_user_key (largest f) in
          let before k := match k with Some b => Compare ucmp file_limit b <? 0 | None => false end in
          let after k := match k with Some e => 0 <? Compare ucmp file_start e | None => false end in
          if before user_begin || after user_end then GetOverlappingInputs_loop fuel level0 files rest user_begin user_end inputs
          else if level0 then
            if match user_begin with Some b => Compare ucmp file_start b <? 0 | None => false end then
              GetOverlappingInputs_loop fuel level0 files files (Some file_start) user_end []
            else if match user_end with Some e => 0 <? Compare ucmp file_limit e | None => false end then
              GetOverlappingInputs_loop fuel level0 files files user_begin (Some file_limit) []
            else GetOverlappingInputs_loop fuel level0 files rest user_begin user_end (inputs ++ [f])
          else GetOverlappingInputs_loop fuel level0 files rest user_begin user_end (inputs ++ [f])
      end
  end.

(** Every restart moves an end of the range past that of another file, so there are at most two per file. *)
Definition overlap_fuel (files : list FileMetaData) : nat := (2 * length files + 1) * (length files + 1).

Definition GetOverlappingInputs (v : Version) (level : Z) (begin end_ : option InternalKey) : option (list FileMetaData) :=
  let files := level_files v level in
  GetOverlappingInputs_loop (overlap_fuel files) (level =? 0) files files (InternalKey_user_key <$> begin) (InternalKey_user_key <$> end_) [].

Definition kMaxMemCompactLevel : Z := 2.

Fixpoint PickLevel_loop (fuel : nat) (max_file_size : Z) (v : Version) (smallest_user_key largest_user_key : slice) (level : Z) : option Z :=
  match fuel with
  | O => None
  | S fuel =>
      if level <? kMaxMemCompactLevel then
        overlap ← OverlapInLevel v (level + 1) (Some smallest_user_key) (Some largest_user_key);
        if overlap : bool then Some level
        else if level + 2 <? kNumLevels then
          let start := NewInternalKey smallest_user_key kMaxSequenceNumber kValueTypeForSeek in
          let limit := NewInternalKey largest_user_key 0 kTypeDeletion in
          overlaps ← GetOverlappingInputs v (level + 2) (Some start) (Some limit);
          if MaxGrandParentOverlapBytes max_file_size <? TotalFileSize overlaps then Some level
          else PickLevel_loop fuel max_file_size v smallest_user_key largest_user_key (level + 1)
        else PickLevel_loop fuel max_file_size v smallest_user_key largest_user_key (level + 1)
      else Some level
  end.

Definition PickLevelForMemTableOutput (max_file_size : Z) (v : Version) (smallest_user_key largest_user_key : slice) : option Z :=
  overlap ← OverlapInLevel v 0 (Some smallest_user_key) (Some largest_user_key);
  if overlap : bool then Some 0
  else PickLevel_loop (S (Z.to_nat kMaxMemCompactLevel)) max_file_size v smallest_user_key largest_user_key 0.

(** * Iteration over the files of a level *)

(** The state of a [LevelFileNumIterator] is its index. *)
Definition file_value (f : FileMetaData) : slice := EncodeFixed64 (number f) ++ EncodeFixed64 (file_size f).

Definition LevelFileNum_ops (flist : list FileMetaData) : IterOps Z :=
  MkIterOps
    (fun index => index <? slen flist)
    (fun index => match flist !! Z.to_nat index with Some f => InternalKey_Encode (largest f) | None => [] end)
    (fun index => file_value <$> flist !! Z.to_nat index)
    (fun _ => OK)
    (fun target _ => u32 <$> FindFile flist target)
    (fun _ => Some 0)
    (fun _ => Some (if slen flist =? 0 then 0 else u32 (slen flist - 1)))
    (fun index => Some (u32 (index + 1)))
    (fun index => Some (if index =? 0 then u32 (slen flist) else index - 1)).

Definition NewLevelFileNumIterator (flist : list FileMetaData) : Z := u32 (slen flist).
End Version.

(** * Printing *)

Definition file_DebugString (r : slice) (f : FileMetaData) : slice :=
  AppendNumberTo (AppendNumberTo (r ++ lit " ") (number f) ++ lit ":") (file_size f) ++
    lit "[" ++ InternalKey_DebugString (smallest f) ++ lit " .. " ++ InternalKey_DebugString (largest f) ++ lit "]" ++ newline.

Definition Version_DebugString (v : Version) : slice :=
  foldl (fun r level =>
    foldl file_DebugString (AppendNumberTo (r ++ lit "--- level ") level ++ lit " ---" ++ newline) (level_files v level))
    [] (seqZ 0 kNumLevels).

(** * Lemmas: searches *)

Lemma level_files_sub v level f : f ∈ level_files v level -> f ∈ concat (files_ v).
Proof.
  intros Hf. unfold level_files in Hf. rewrite list_elem_of_In, in_concat. apply list_elem_of_In in Hf. exists (nth (Z.to_nat level) (files_ v) []).
  split; [|done]. destruct (nth_in_or_default (Z.to_nat level) (files_ v) []) as [|E]; [done|]. by rewrite E in Hf.
Qed.

Section proofs.
Context (ucmp : Comparator) `{!ComparatorLaws any_key ucmp} `{!SeparatorSame any_key ucmp}.

Abbreviation icmp := (InternalKeyComparator ucmp).

(** The encodings of internal keys. *)
Definition valid_key (k : slice) : Prop := exists p, seq_ok (sequence p) /\ k = AppendInternalKey [] p.

Lemma valid_internal k : valid_key k -> is_internal_key k.
Proof. intros (p & _ & ->). apply AppendInternalKey_internal. Qed.

(** A file with its bounds in order. *)
Definition file_ok (f : FileMetaData) : Prop :=
  valid_key (rep_ (smallest f)) /\ valid_key (rep_ (largest f)) /\ Compare icmp (rep_ (smallest f)) (rep_ (largest f)) <= 0.

(** Files one behind the other. *)
Definition sorted_files (files : list FileMetaData) : Prop :=
  StronglySorted (fun a b => Compare icmp (rep_ (largest a)) (rep_ (smallest b)) < 0) files.

Definition files_ok (files : list FileMetaData) : Prop := Forall file_ok files /\ slen files < 2 ^ 31.

(** What the iterator over the files shows. *)
Definition level_entries (files : list FileMetaData) : list (slice * slice) := map (fun f => (rep_ (largest f), file_value f)) files.

Lemma level_entries_keys files : Forall file_ok files -> Forall (fun e => is_internal_key e.1) (level_entries files).
Proof. intros H. unfold level_entries. rewrite Forall_map. eapply Forall_impl; [exact H|]. intros f (_ & ? & _). by apply valid_internal. Qed.

Lemma level_entries_sorted files : Forall file_ok files -> sorted_files files -> sorted_entries icmp (level_entries files).
Proof.
  intros Hok Hs. induction Hs as [|f files Hs IH Hall]; [constructor|]. apply Forall_cons in Hok as [Hf Hok]. cbn [level_entries map]. constructor; [by apply IH|].
  unfold level_entries. rewrite Forall_map. apply Forall_forall. intros g Hg. cbn [fst].
  pose proof (proj1 (Forall_forall _ _) Hall g Hg) as H1. destruct (proj1 (Forall_forall _ _) Hok g Hg) as (H2 & H3 & H4). destruct Hf as (_ & Hf & _).
  exact (compare_lt_le _ _ _ (valid_internal _ Hf) (valid_internal _ H2) (valid_internal _ H3) H1 H4).
Qed.

Lemma level_entries_lookup files i k v : level_entries files !! i = Some (k, v) <-> exists f, files !! i = Some f /\ k = rep_ (largest f) /\ v = file_value f.
Proof.
  unfold level_entries. rewrite lookup_map. destruct (files !! i) as [f|]; cbn; [|split; [done|by intros (? & ? & _)]].
  split; [intros [= <- <-]; by exists f|by intros (? & [= <-] & -> & ->)].
Qed.

Lemma length_level_entries files : length (level_entries files) = length files.
Proof. apply length_map. Qed.

Lemma FindFile_loop_spec files key fuel (left right : nat) :
  slen files < 2 ^ 31 -> (right <= length files)%nat -> (left <= right)%nat -> (right - left < fuel)%nat ->
  (forall i f, (i < left)%nat -> files !! i = Some f -> Compare icmp (rep_ (largest f)) key < 0) ->
  (forall i f, (right <= i)%nat -> files !! i = Some f -> ~ Compare icmp (rep_ (largest f)) key < 0) ->
  (forall i j f g, (i < j)%nat -> files !! i = Some f -> files !! j = Some g -> Compare icmp (rep_ (largest g)) key < 0 -> Compare icmp (rep_ (largest f)) key < 0) ->
  exists p : nat, FindFile_loop ucmp fuel files key (Z.of_nat left) (Z.of_nat right) = Some (Z.of_nat p) /\ (p <= length files)%nat /\
    (forall i f, (i < p)%nat -> files !! i = Some f -> Compare icmp (rep_ (largest f)) key < 0) /\
    (forall f, files !! p = Some f -> ~ Compare icmp (rep_ (largest f)) key < 0).
Proof.
  revert left right. induction fuel as [|fuel IH]; intros left right Hn Hr Hlr Hf Hl Hg Hmono; cbn [FindFile_loop]; [lia|].
  destruct (Z.ltb_spec (Z.of_nat left) (Z.of_nat right)) as [H|H].
  2: { assert (left = right) as -> by lia. exists right. split_and!; [done|done|done|]. intros f Ef. by apply (Hg right). }
  rewrite !(wrap_small 32 (Z.of_nat left + Z.of_nat right)) by (unfold in_u; lia). set (mid := ((left + right) / 2)%nat).
  assert ((Z.of_nat left + Z.of_nat right) / 2 = Z.of_nat mid) as -> by (unfold mid; rewrite Nat2Z.inj_div; lia).
  assert (left <= mid < right)%nat as Hmid by (unfold mid; split; [apply Nat.div_le_lower_bound; lia|apply Nat.Div0.div_lt_upper_bound; lia]).
  rewrite Nat2Z.id. destruct (lookup_lt_is_Some_2 files mid) as [f Ef]; [lia|]. rewrite Ef. cbn [mbind option_bind]. unfold InternalKey_Encode.
  destruct (Z.ltb_spec (Compare icmp (rep_ (largest f)) key) 0) as [Hc|Hc].
  - rewrite wrap_small by (unfold in_u; lia). replace (Z.of_nat mid + 1) with (Z.of_nat (S mid)) by lia. apply IH; try done; try lia.
    intros i g Hi Eg. destruct (decide (i = mid)) as [->|]; [congruence|]. apply (Hmono i mid g f); [lia|done..].
  - apply IH; try done; try lia. intros i g Hi Eg Hlt. destruct (decide (i = mid)) as [->|]; [assert (g = f) as -> by congruence; lia|].
    pose proof (Hmono mid i f g ltac:(lia) Ef Eg Hlt). lia.
Qed.

(** [FindFile] returns the position of the first file whose largest key is at or past the key. *)
Lemma FindFile_spec files key :
  files_ok files -> sorted_files files -> is_internal_key key ->
  FindFile ucmp files key = Some (Z.of_nat (seek_pos icmp key (level_entries files))).
Proof.
  intros [Hok Hn] Hs Hk. pose proof (level_entries_keys files Hok) as Hkeys. pose proof (level_entries_sorted files Hok Hs) as Hsort.
  assert (forall i f, files !! i = Some f -> level_entries files !! i = Some (rep_ (largest f), file_value f)) as Hlk.
  { intros i f E. apply level_entries_lookup. eauto. }
  destruct (FindFile_loop_spec files key (S (length files)) 0 (length files)) as (p & Ep & Hp & Hlt & Hge); try done; try lia.
  - intros i f Hi Ef. apply lookup_lt_Some in Ef. lia.
  - intros i j f g Hij Ef Eg Hc. pose proof (sorted_lookup _ _ _ _ _ _ _ _ Hsort Hij (Hlk i f Ef) (Hlk j g Eg)) as Hfg.
    eapply (compare_trans (key := is_internal_key)); [| | |exact Hfg|exact Hc]; [..|done].
    + apply (keys_lookup _ _ _ _ _ Hkeys (Hlk i f Ef)).
    + apply (keys_lookup _ _ _ _ _ Hkeys (Hlk j g Eg)).
  - unfold FindFile. rewrite (wrap_small 32 (slen files)) by (unfold in_u; lia). change 0 with (Z.of_nat 0). rewrite Ep. cbn [fmap option_fmap option_map]. f_equal.
    assert (p = seek_pos icmp key (level_entries files)) as <-.
    { apply (seek_pos_unique (key := is_internal_key)); try done.
      - by rewrite length_level_entries.
      - intros i k v Hi E. apply level_entries_lookup in E as (f & Ef & -> & _). by apply (Hlt i).
      - intros k v E. apply level_entries_lookup in E as (f & Ef & -> & _). specialize (Hge f Ef). lia. }
    unfold swrap. rewrite (wrap_small 32) by (unfold in_u; lia). destruct (Z.ltb_spec (Z.of_nat p) (2 ^ (32 - 1))); lia.
Qed.

(** ** Overlaps *)

Abbreviation user f := (InternalKey_user_key f).

Lemma icmp_user a b : Compare icmp a b <= 0 -> Compare ucmp (ExtractUserKey a) (ExtractUserKey b) <= 0.
Proof.
  intros H. destruct (Z.le_gt_cases (Compare ucmp (ExtractUserKey a) (ExtractUserKey b)) 0) as [|Hc]; [done|].
  assert (0 < Compare icmp a b) by (apply icmp_gt; left; lia). lia.
Qed.

Lemma file_user f : file_ok f -> Compare ucmp (user (smallest f)) (user (largest f)) <= 0.
Proof. intros (_ & _ & H). by apply icmp_user. Qed.

(** A valid key is before the first key of a user key if its user key is. *)
Lemma before_first k u :
  valid_key k -> Compare icmp k (rep_ (NewInternalKey u kMaxSequenceNumber kValueTypeForSeek)) < 0 <-> Compare ucmp (ExtractUserKey k) u < 0.
Proof.
  intros (p & Hp & ->). cbn [NewInternalKey rep_ InternalKeyComparator Compare]. rewrite icmp_parsed by (done || apply max_tag). rewrite AppendInternalKey_user.
  cbn [user_key sequence type]. unfold seq_ok in Hp. split; [|by left]. intros [H|[_ [H|[_ H]]]]; [done|lia|]. destruct (type p); cbn in H; lia.
Qed.

(** Some of the file is in the range of user keys. *)
Definition overlaps (begin end_ : option slice) (f : FileMetaData) : bool := negb (AfterFile ucmp begin f || BeforeFile ucmp end_ f).

Lemma sorted_files_lookup files i j f g :
  sorted_files files -> (i < j)%nat -> files !! i = Some f -> files !! j = Some g -> Compare icmp (rep_ (largest f)) (rep_ (smallest g)) < 0.
Proof.
  intros Hs. revert i j. induction Hs as [|x l Hs IH Hall]; intros i j Hij Ei Ej; [done|]. destruct j as [|j]; [lia|]. destruct i as [|i]; cbn in Ei, Ej.
  - injection Ei as ->. exact (proj1 (Forall_lookup _ _) Hall _ _ Ej).
  - by apply (IH i j); [lia|..].
Qed.

Lemma SomeFileOverlapsRange_spec disjoint files small large :
  files_ok files -> (disjoint = true -> sorted_files files) ->
  SomeFileOverlapsRange ucmp disjoint files small large = Some (existsb (overlaps small large) files).
Proof.
  intros [Hok Hn] Hs. unfold SomeFileOverlapsRange. destruct disjoint; [|done]. cbn [negb]. specialize (Hs eq_refl).
  assert (exists p : nat, match small with
    | Some k => u32 <$> FindFile ucmp files (InternalKey_Encode (NewInternalKey k kMaxSequenceNumber kValueTypeForSeek))
    | None => Some 0 end = Some (Z.of_nat p) /\ (p <= length files)%nat /\ (forall i f, files !! i = Some f -> AfterFile ucmp small f = bool_decide (i < p)%nat)) as (p & -> & Hp & Ha).
  { destruct small as [k|]; [|exists 0%nat; split; [done|split; [lia|]]; intros i f _; by rewrite bool_decide_false by lia].
    set (key := rep_ (NewInternalKey k kMaxSequenceNumber kValueTypeForSeek)). assert (is_internal_key key) as Hk by apply AppendInternalKey_internal.
    pose proof (seek_pos_le icmp key (level_entries files)) as Hle. rewrite length_level_entries in Hle. exists (seek_pos icmp key (level_entries files)).
    unfold InternalKey_Encode. fold key. rewrite FindFile_spec by done. cbn [fmap option_fmap option_map]. rewrite wrap_small by (unfold in_u; lia). split; [done|].
    split; [done|]. intros i f Ef. destruct (proj1 (Forall_lookup _ _) Hok i f Ef) as (_ & Hl & _).
    assert (level_entries files !! i = Some (rep_ (largest f), file_value f)) as Ei by (apply level_entries_lookup; eauto).
    pose proof (seek_pos_spec _ key i _ _ (level_entries_keys _ Hok) (level_entries_sorted _ Hok Hs) Hk Ei) as Hiff.
    cbn [AfterFile]. apply eq_true_iff_eq. rewrite bool_decide_eq_true, Z.ltb_lt, <-Hiff, (compare_gt (key := any_key)) by done. symmetry. by apply before_first. }
  cbn [mbind option_bind]. destruct (Z.leb_spec (slen files) (Z.of_nat p)) as [H|H].
  - symmetry. f_equal. apply not_true_iff_false. intros (f & Hf & Ho)%existsb_exists. apply list_elem_of_In, list_elem_of_lookup in Hf as [i Ei].
    unfold overlaps in Ho. rewrite (Ha i f Ei), bool_decide_true in Ho; [done|]. apply lookup_lt_Some in Ei. lia.
  - rewrite Nat2Z.id. destruct (lookup_lt_is_Some_2 files p ltac:(lia)) as [f Ef]. rewrite Ef. cbn [mbind option_bind]. f_equal. apply eq_true_iff_eq.
    rewrite existsb_exists. split.
    + intros Hb. exists f. split; [apply list_elem_of_In; by eapply list_elem_of_lookup_2|]. unfold overlaps. rewrite (Ha p f Ef), bool_decide_false by lia. done.
    + intros (g & Hg & Ho). apply list_elem_of_In, list_elem_of_lookup in Hg as [i Ei]. unfold overlaps in Ho. rewrite (Ha i g Ei) in Ho.
      case_bool_decide as Hi; [done|]. cbn [orb] in Ho. destruct (decide (i = p)) as [->|]; [congruence|]. apply negb_true_iff in Ho. apply negb_true_iff.
      destruct large as [u|]; [|done]. cbn [BeforeFile] in *. apply Z.ltb_ge in Ho. apply Z.ltb_ge.
      pose proof (sorted_files_lookup files p i f g Hs ltac:(lia) Ef Ei) as Hfg. pose proof (proj1 (Forall_lookup _ _) Hok p f Ef) as Hf.
      pose proof (file_user f Hf) as H1. pose proof (icmp_user _ _ (Z.lt_le_incl _ _ Hfg)) as H2.
      pose proof (compare_le_trans (key := any_key) (c := ucmp) _ _ _ I I I H1 H2) as H3. destruct (Z.le_gt_cases 0 (Compare ucmp u (user (smallest f)))) as [|Hlt]; [done|].
      pose proof (compare_lt_le (key := any_key) (c := ucmp) _ _ _ I I I ltac:(exact (Z.gt_lt _ _ Hlt) || exact Hlt) H3). unfold InternalKey_user_key in *. lia.
Qed.

(** ** [GetOverlappingInputs] *)

(** The range of user keys that the loop has, and the files it keeps. *)
Definition in_range (begin end_ : option slice) (f : FileMetaData) : Prop :=
  match begin with Some b => Compare ucmp b (user (smallest f)) <= 0 | None => True end /\
  match end_ with Some e => Compare ucmp (user (largest f)) e <= 0 | None => True end.

(** A range that is as wide at both ends. *)
Definition wider (begin end_ begin' end' : option slice) : Prop :=
  match begin, begin' with Some b, Some b' => Compare ucmp b' b <= 0 | None, None => True | _, _ => False end /\
  match end_, end' with Some e, Some e' => Compare ucmp e e' <= 0 | None, None => True | _, _ => False end.

(** The files that reach out of the range; each restart leaves fewer. *)
Definition sticks_out_before (begin : option slice) (f : FileMetaData) : bool :=
  match begin with Some b => Compare ucmp (user (smallest f)) b <? 0 | None => false end.
Definition sticks_out_after (end_ : option slice) (f : FileMetaData) : bool :=
  match end_ with Some e => 0 <? Compare ucmp (user (largest f)) e | None => false end.

Definition sticking (files : list FileMetaData) (begin end_ : option slice) : nat :=
  length (List.filter (sticks_out_before begin) files) + length (List.filter (sticks_out_after end_) files).

Lemma filter_length_le {A} (p q : A -> bool) l : (forall x, p x = true -> q x = true) -> (length (List.filter p l) <= length (List.filter q l))%nat.
Proof.
  intros H. induction l as [|x l IH]; [done|]. cbn [List.filter]. destruct (p x) eqn:E; [rewrite (H x E); cbn [length]; lia|].
  destruct (q x); cbn [length]; lia.
Qed.

Lemma filter_length_lt {A} (p q : A -> bool) l x :
  (forall x, p x = true -> q x = true) -> x ∈ l -> p x = false -> q x = true -> (length (List.filter p l) < length (List.filter q l))%nat.
Proof.
  intros H Hx Hp Hq. induction l as [|y l IH]; [by apply elem_of_nil in Hx|]. cbn [List.filter]. apply elem_of_cons in Hx as [<-|Hx].
  - rewrite Hp, Hq. cbn [length]. pose proof (filter_length_le p q l H). lia.
  - specialize (IH Hx). destruct (p y) eqn:E; [rewrite (H y E); cbn [length]; lia|]. destruct (q y); cbn [length]; lia.
Qed.

Lemma restart_begin files b e f :
  f ∈ files -> Compare ucmp (user (smallest f)) b < 0 -> (sticking files (Some (user (smallest f))) e < sticking files (Some b) e)%nat.
Proof.
  intros Hf H. unfold sticking. apply Nat.add_lt_mono_r. apply (filter_length_lt _ _ _ f); try done.
  - intros g. cbn [sticks_out_before]. rewrite !Z.ltb_lt. intros Hg. by apply (compare_trans (key := any_key) _ (user (smallest f))).
  - cbn [sticks_out_before]. rewrite (compare_refl (key := any_key)) by done. done.
  - cbn [sticks_out_before]. by apply Z.ltb_lt.
Qed.

Lemma restart_end files b e f :
  f ∈ files -> 0 < Compare ucmp (user (largest f)) e -> (sticking files b (Some (user (largest f))) < sticking files b (Some e))%nat.
Proof.
  intros Hf H. unfold sticking. apply Nat.add_lt_mono_l. apply (filter_length_lt _ _ _ f); try done.
  - intros g. cbn [sticks_out_after]. rewrite !Z.ltb_lt. rewrite (compare_gt (key := any_key)) in * by done.
    intros Hg. rewrite (compare_gt (key := any_key)) in * by done. by apply (compare_trans (key := any_key) _ (user (largest f))).
  - cbn [sticks_out_after]. rewrite (compare_refl (key := any_key)) by done. done.
  - cbn [sticks_out_after]. by apply Z.ltb_lt.
Qed.

Lemma wider_refl b e : wider b e b e.
Proof. unfold wider. destruct b, e; rewrite ?(compare_refl (key := any_key)) by done; lia. Qed.

Lemma wider_trans b e b1 e1 b2 e2 : wider b e b1 e1 -> wider b1 e1 b2 e2 -> wider b e b2 e2.
Proof.
  unfold wider. destruct b, b1, b2, e, e1, e2; intros [] []; split; try done; by eapply (compare_le_trans (key := any_key)); [done|done|done|..]; eassumption.
Qed.

(** The two tests of the loop are those of [AfterFile] and [BeforeFile]. *)
Lemma overlap_tests b e f :
  (match b with Some b => Compare ucmp (user (largest f)) b <? 0 | None => false end ||
   match e with Some e => 0 <? Compare ucmp (user (smallest f)) e | None => false end) = negb (overlaps b e f).
Proof.
  unfold overlaps, AfterFile, BeforeFile. rewrite negb_involutive. f_equal.
  - destruct b; [|done]. apply eq_true_iff_eq. by rewrite !Z.ltb_lt, (compare_gt (key := any_key)).
  - destruct e; [|done]. apply eq_true_iff_eq. by rewrite !Z.ltb_lt, (compare_gt (key := any_key)).
Qed.

Lemma overlaps_true b e f :
  overlaps b e f = true <->
  match b with Some b => Compare ucmp b (user (largest f)) <= 0 | None => True end /\ match e with Some e => Compare ucmp (user (smallest f)) e <= 0 | None => True end.
Proof.
  unfold overlaps, AfterFile, BeforeFile. rewrite negb_true_iff, orb_false_iff. f_equiv.
  - destruct b; [|done]. by rewrite Z.ltb_ge.
  - destruct e; [|done]. rewrite Z.ltb_ge. rewrite <-(compare_nlt (key := any_key)) by done. lia.
Qed.

Lemma overlaps_wider b e b' e' f : wider b e b' e' -> overlaps b e f = true -> overlaps b' e' f = true.
Proof.
  intros [Hb He] [H1 H2]%overlaps_true. apply overlaps_true. split.
  - destruct b, b'; try done. by eapply (compare_le_trans (key := any_key)); [done|done|done|exact Hb|].
  - destruct e, e'; try done. by eapply (compare_le_trans (key := any_key)); [done|done|done| |exact He].
Qed.

Lemma GetOverlappingInputs_loop_spec fuel level0 files done rest b e inputs :
  files = done ++ rest -> inputs = List.filter (overlaps b e) done -> (level0 = true -> Forall (in_range b e) inputs) ->
  (sticking files b e * (length files + 1) + length rest <= fuel)%nat ->
  exists b' e', GetOverlappingInputs_loop ucmp fuel level0 files rest b e inputs = Some (List.filter (overlaps b' e') files) /\ wider b e b' e' /\
    (level0 = true -> Forall (in_range b' e') (List.filter (overlaps b' e') files)) /\ (level0 = false -> b' = b /\ e' = e).
Proof.
  revert done rest b e inputs. induction fuel as [|fuel IH]; intros done rest b e inputs Hfiles Hin Hrange Hfuel; (destruct rest as [|f rest]; cbn [GetOverlappingInputs_loop]).
  1, 3: rewrite app_nil_r in Hfiles; subst; exists b, e; split_and!; try done; apply wider_refl.
  { cbn [length] in Hfuel. lia. }
  rewrite overlap_tests. cbn [length] in Hfuel. destruct (overlaps b e f) eqn:Ho; cbn [negb].
  2: { apply (IH (done ++ [f])); [by rewrite <-app_assoc| |done|lia]. rewrite List.filter_app, <-Hin. cbn [List.filter]. by rewrite Ho, app_nil_r. }
  assert (f ∈ files) as Hf by (rewrite Hfiles; apply elem_of_app; right; apply list_elem_of_here).
  assert (inputs ++ [f] = List.filter (overlaps b e) (done ++ [f])) as Hin' by (rewrite List.filter_app, <-Hin; cbn [List.filter]; by rewrite Ho).
  assert (length files = length done + S (length rest))%nat as Hl by (rewrite Hfiles, length_app; done).
  destruct level0; [|apply (IH (done ++ [f])); [by rewrite <-app_assoc|done|done|lia]].
  destruct (match b with Some b => Compare ucmp (user (smallest f)) b <? 0 | None => false end) eqn:Eb; [|destruct (match e with Some e => 0 <? Compare ucmp (user (largest f)) e | None => false end) eqn:Ee].
  - destruct b as [b|]; [|done]. apply Z.ltb_lt in Eb. pose proof (restart_begin files b e f Hf Eb) as Hst.
    destruct (IH [] files (Some (user (smallest f))) e []) as (b' & e' & E & Hw & Hr & Hne); [done|done|constructor|nia|].
    exists b', e'. split_and!; [done| |done|done]. eapply wider_trans; [|exact Hw]. split; [lia|]. destruct e; [|done]. rewrite (compare_refl (key := any_key)) by done. lia.
  - destruct e as [e|]; [|done]. apply Z.ltb_lt in Ee. pose proof (restart_end files b e f Hf Ee) as Hst.
    destruct (IH [] files b (Some (user (largest f))) []) as (b' & e' & E & Hw & Hr & Hne); [done|done|constructor|nia|].
    exists b', e'. split_and!; [done| |done|done]. eapply wider_trans; [|exact Hw]. split; [destruct b; [rewrite (compare_refl (key := any_key)) by done; lia|done]|].
    assert (Compare ucmp e (user (largest f)) < 0) by (by apply (compare_gt (key := any_key))). lia.
  - apply (IH (done ++ [f])); [by rewrite <-app_assoc|done| |lia]. intros _. apply Forall_app. split; [by apply Hrange|]. constructor; [|constructor]. split.
    + destruct b as [b|]; [|done]. apply Z.ltb_ge in Eb. destruct (Z.le_gt_cases (Compare ucmp b (user (smallest f))) 0) as [|H]; [done|].
      assert (Compare ucmp (user (smallest f)) b < 0) by (apply (compare_gt (key := any_key)); [done|done|lia]). lia.
    + destruct e as [e|]; [|done]. apply Z.ltb_ge in Ee. lia.
Qed.

Lemma GetOverlappingInputs_spec v level begin end_ :
  exists b e, GetOverlappingInputs ucmp v level begin end_ = Some (List.filter (overlaps b e) (level_files v level)) /\
    wider (InternalKey_user_key <$> begin) (InternalKey_user_key <$> end_) b e /\
    (level = 0 -> Forall (in_range b e) (List.filter (overlaps b e) (level_files v level))) /\
    (level <> 0 -> b = (InternalKey_user_key <$> begin) /\ e = (InternalKey_user_key <$> end_)).
Proof.
  unfold GetOverlappingInputs. set (files := level_files v level).
  destruct (GetOverlappingInputs_loop_spec (overlap_fuel files) (level =? 0) files [] files (InternalKey_user_key <$> begin) (InternalKey_user_key <$> end_) [])
    as (b & e & E & Hw & H0 & Hn); [done|done|constructor| |].
  - unfold overlap_fuel, sticking.
    assert (forall p : FileMetaData -> bool, (length (List.filter p files) <= length files)%nat) as Hle by (intros p; apply List.filter_length_le).
    pose proof (Hle (sticks_out_before (InternalKey_user_key <$> begin))). pose proof (Hle (sticks_out_after (InternalKey_user_key <$> end_))). nia.
  - exists b, e. split_and!; [done|done| |]; intros Hl; [apply H0; lia|apply Hn; lia].
Qed.

(** * Lemmas: [Version::Get] *)

(** The table of a list of entries. *)
Definition table_of (es : list entry) : list (slice * slice) := map (fun e => (entry_internal_key e, e_value e)) es.

(** What [TableCache::Get] promises: for a file of the store the entry where the key would be, if it may be of the same user
    key. *)
Class TableReader {C : Type} (table_get : FileMetaData -> slice -> C -> option (Status * option (slice * slice) * C))
    (contents : FileMetaData -> list entry) (stored : FileMetaData -> Prop) (inv : C -> Prop) : Prop := {
  reader_get f ikey c : stored f -> inv c -> is_internal_key ikey ->
    exists res c', table_get f ikey c = Some (OK, res, c') /\ inv c' /\
      let es := table_of (contents f) in
      (res = None \/ res = es !! seek_pos icmp ikey es) /\
      (forall x v, es !! seek_pos icmp ikey es = Some (x, v) -> ExtractUserKey x = ExtractUserKey ikey -> res = Some (x, v));
}.

(** The internal key of a lookup. *)
Lemma lookup_before e u s :
  seq_ok (e_seq e) -> seq_ok s ->
  Compare icmp (entry_internal_key e) (internal_key (NewLookupKey u s)) < 0 <-> Compare ucmp (e_key e) u < 0 \/ (e_key e = u /\ s < e_seq e).
Proof.
  intros He Hs. rewrite internal_key_New. cbn [InternalKeyComparator Compare]. unfold entry_internal_key. rewrite icmp_parsed by done.
  cbn [entry_parsed user_key sequence type]. change (ValueType_val kValueTypeForSeek) with 1.
  assert (0 <= ValueType_val (e_type e) <= 1) by (destruct (e_type e); simpl; lia). intuition lia.
Qed.

Lemma table_of_lookup es i k v : table_of es !! i = Some (k, v) <-> exists e, es !! i = Some e /\ k = entry_internal_key e /\ v = e_value e.
Proof.
  unfold table_of. rewrite lookup_map. destruct (es !! i) as [e|]; cbn; [|split; [done|by intros (? & ? & _)]].
  split; [intros [= <- <-]; by exists e|by intros (? & [= <-] & -> & ->)].
Qed.

(** The entries of a table are in order. *)
Definition entries_ok (es : list entry) : Prop := Forall (fun e => seq_ok (e_seq e)) es /\ sorted_entries icmp (table_of es).

Lemma entries_keys es : Forall (fun e => is_internal_key e.1) (table_of es).
Proof. unfold table_of. rewrite Forall_map. apply Forall_true. intros e. apply AppendInternalKey_internal. Qed.

Lemma entries_lookup_lt es i j a b :
  entries_ok es -> (i < j)%nat -> es !! i = Some a -> es !! j = Some b ->
  Compare ucmp (e_key a) (e_key b) < 0 \/ (e_key a = e_key b /\ e_seq b <= e_seq a).
Proof.
  intros [Hok Hs] Hij Ea Eb.
  assert (Compare icmp (entry_internal_key a) (entry_internal_key b) < 0) as Hlt.
  { apply (sorted_lookup icmp (table_of es) i j _ (e_value a) _ (e_value b) Hs Hij); apply table_of_lookup; eauto. }
  cbn [InternalKeyComparator Compare] in Hlt. unfold entry_internal_key in Hlt.
  rewrite icmp_parsed in Hlt; [|exact (proj1 (Forall_lookup _ _) Hok _ _ Ea)|exact (proj1 (Forall_lookup _ _) Hok _ _ Eb)].
  cbn [entry_parsed user_key sequence type] in Hlt. intuition lia.
Qed.

(** In a table the newest visible entry is where the lookup key would be, if that entry has the user key. *)
Lemma newest_at es u s :
  entries_ok es -> seqs_differ es -> seq_ok s ->
  newest u s es = match es !! seek_pos icmp (internal_key (NewLookupKey u s)) (table_of es) with
                  | Some e => if decide (e_key e = u) then Some e else None
                  | None => None
                  end.
Proof.
  intros Hes Hd Hs. set (ik := internal_key (NewLookupKey u s)). set (p := seek_pos icmp ik (table_of es)). pose proof Hes as [Hok Hsort].
  assert (is_internal_key ik) as Hik by (unfold ik; rewrite internal_key_New; apply AppendInternalKey_internal).
  assert (forall i e, es !! i = Some e -> Compare icmp (entry_internal_key e) ik < 0 <-> (i < p)%nat) as Hp.
  { intros i e E. apply (seek_pos_spec (key := is_internal_key) (table_of es) ik i _ (e_value e) (entries_keys es) Hsort Hik). apply table_of_lookup. eauto. }
  assert (forall i e, es !! i = Some e -> (i < p)%nat <-> Compare ucmp (e_key e) u < 0 \/ (e_key e = u /\ s < e_seq e)) as Hpos.
  { intros i e E. rewrite <-(Hp i e E). apply lookup_before; [exact (proj1 (Forall_lookup _ _) Hok _ _ E)|done]. }
  assert (forall e, e ∈ es -> visible u s e = true -> exists i, es !! i = Some e /\ (p <= i)%nat /\ e_key e = u) as Hvis.
  { intros e He [Hk Hq]%visible_true. apply list_elem_of_lookup in He as [i E]. exists i. split; [done|]. split; [|done].
    destruct (Nat.le_gt_cases p i) as [|H]; [done|]. apply (Hpos i e E) in H as [H|[_ H]]; [|lia]. subst. rewrite (compare_refl (key := any_key)) in H by done. lia. }
  destruct (es !! p) as [e|] eqn:Ep.
  - assert (~ (p < p)%nat) as Hnp by lia. rewrite (Hpos p e Ep) in Hnp. case_decide as Hu.
    + apply newest_unique; [done|by eapply list_elem_of_lookup_2| |].
      * apply visible_true. split; [done|]. destruct (Z.le_gt_cases (e_seq e) s); [done|]. exfalso. apply Hnp. right. split; [done|lia].
      * intros e' He' Hv. destruct (Hvis e' He' Hv) as (i & Ei & Hi & Hk). destruct (decide (i = p)) as [->|]; [rewrite Ep in Ei; by injection Ei as ->|].
        destruct (entries_lookup_lt es p i e e' Hes ltac:(lia) Ep Ei) as [H|[_ H]]; [|done]. rewrite Hu, Hk, (compare_refl (key := any_key)) in H by done. lia.
    + pose proof (newest_spec u s es) as Hn. destruct (newest u s es) as [e1|]; [|done]. destruct Hn as (H1 & H2 & _). exfalso.
      destruct (Hvis e1 H1 H2) as (i & Ei & Hi & Hk). destruct (decide (i = p)) as [->|]; [rewrite Ep in Ei; injection Ei as ->; done|].
      destruct (entries_lookup_lt es p i e e1 Hes ltac:(lia) Ep Ei) as [H|[H _]]; [|congruence]. apply Hnp. left. by rewrite Hk in H.
  - pose proof (newest_spec u s es) as Hn. destruct (newest u s es) as [e1|]; [|done]. destruct Hn as (H1 & H2 & _). exfalso.
    destruct (Hvis e1 H1 H2) as (i & Ei & Hi & _). apply lookup_lt_Some in Ei. apply lookup_ge_None in Ep. lia.
Qed.

(** ** Files *)

Section files.
Context (contents : FileMetaData -> list entry) (stored : FileMetaData -> Prop).

(** The contents of a file, and its bounds. *)
Definition file_holds (f : FileMetaData) : Prop :=
  stored f /\ entries_ok (contents f) /\ seqs_differ (contents f) /\ file_ok f /\
  (forall e, e ∈ contents f -> Compare icmp (rep_ (smallest f)) (entry_internal_key e) <= 0 /\ Compare icmp (entry_internal_key e) (rep_ (largest f)) <= 0) /\
  exists e, last (contents f) = Some e /\ entry_internal_key e = rep_ (largest f).

(** A file whose bounds are its first and its last key. *)
Lemma file_holds_intro f e0 e1 :
  stored f -> entries_ok (contents f) -> seqs_differ (contents f) -> head (contents f) = Some e0 -> last (contents f) = Some e1 ->
  rep_ (smallest f) = entry_internal_key e0 -> rep_ (largest f) = entry_internal_key e1 -> file_holds f.
Proof.
  intros Hst Hes Hd Hh Hl Hsm Hla. pose proof Hes as [Hseq Hsort]. rewrite last_lookup in Hl. rewrite head_lookup in Hh.
  assert (forall i j a b, (i <= j)%nat -> contents f !! i = Some a -> contents f !! j = Some b -> Compare icmp (entry_internal_key a) (entry_internal_key b) <= 0) as Hle.
  { intros i j a b Hij Ea Eb. destruct (decide (i = j)) as [->|]; [rewrite Ea in Eb; injection Eb as ->; rewrite (compare_refl (key := is_internal_key)) by apply AppendInternalKey_internal; lia|].
    apply Z.lt_le_incl. apply (sorted_lookup icmp (table_of (contents f)) i j _ (e_value a) _ (e_value b) Hsort ltac:(lia)); apply table_of_lookup; eauto. }
  unfold file_holds, file_ok. split_and!; try done; rewrite ?Hsm, ?Hla.
  - exists (entry_parsed e0). split; [exact (proj1 (Forall_lookup _ _) Hseq _ _ Hh)|done].
  - exists (entry_parsed e1). split; [exact (proj1 (Forall_lookup _ _) Hseq _ _ Hl)|done].
  - apply (Hle 0%nat (pred (length (contents f)))); [lia|done|done].
  - intros e He. apply list_elem_of_lookup in He as [i Ei]. pose proof (lookup_lt_Some _ _ _ Ei). split; [apply (Hle 0%nat i)|apply (Hle i (pred (length (contents f))))]; done || lia.
  - exists e1. by rewrite last_lookup.
Qed.

End files.

(** ** The search *)

Section search.
Context {C : Type} (table_get : FileMetaData -> slice -> C -> option (Status * option (slice * slice) * C)).
Context (contents : FileMetaData -> list entry) (stored : FileMetaData -> Prop) (inv : C -> Prop).
Context `{!TableReader table_get contents stored inv}.
Context (u : slice) (s : Z) (Hs : seq_ok s) (value : slice).

Abbreviation file_contents_ok := (file_holds contents stored).
Abbreviation lk := (NewLookupKey u s).
Abbreviation ik := (internal_key (NewLookupKey u s)).

(** Where the search stands: what it has found. *)
Definition found (o : option entry) (st : GetState C) : Prop :=
  inv (g_cache C st) /\
  match o with
  | None => g_saver C st = MkSaver kNotFound u value /\ g_found C st = false
  | Some e =>
      match e_type e with
      | kTypeValue => g_found C st = true /\ g_s C st = OK /\ s_value (g_saver C st) = e_value e
      | kTypeDeletion => g_found C st = false /\ s_value (g_saver C st) = value
      end
  end.

Lemma ik_internal : is_internal_key ik.
Proof. rewrite internal_key_New. apply AppendInternalKey_internal. Qed.

Lemma ik_user : ExtractUserKey ik = u.
Proof. by rewrite internal_key_New, AppendInternalKey_user. Qed.

Lemma entry_user e : ExtractUserKey (entry_internal_key e) = e_key e.
Proof. apply AppendInternalKey_user. Qed.

(** A call for a file finds the newest visible entry of the file. *)
Lemma Match_spec level f st :
  file_contents_ok f -> found None st ->
  exists go st', Match ucmp table_get ik level f st = Some (go, st') /\ go = bool_decide (newest u s (contents f) = None) /\ found (newest u s (contents f)) st'.
Proof.
  intros (Hst & Hes & Hd & _) (Hinv & Hsav & Hfound). unfold Match. destruct (reader_get f ik (g_cache C st) Hst Hinv ik_internal) as (res & c' & -> & Hinv' & Hres & Hhit).
  cbn [mbind option_bind]. rewrite ok_OK. cbn [negb]. rewrite (newest_at (contents f) u s Hes Hd Hs).
  set (p := seek_pos icmp ik (table_of (contents f))) in *. rewrite Hsav, Hfound. pose proof Hes as [Hseq _].
  assert (forall e, contents f !! p = Some e -> SaveValue ucmp (MkSaver kNotFound u value) (entry_internal_key e) (e_value e) =
    if decide (e_key e = u) then if decide (e_type e = kTypeValue) then MkSaver kFound u (e_value e) else MkSaver kDeleted u value else MkSaver kNotFound u value) as Hsave.
  { intros e E. unfold SaveValue, entry_internal_key. rewrite ParseInternalKey_Append by exact (proj1 (Forall_lookup _ _) Hseq _ _ E). cbn [entry_parsed user_key type s_user_key s_value].
    destruct (decide (e_key e = u)) as [Hk|Hk]; [rewrite Hk, (compare_refl (key := any_key)) by done; done|].
    destruct (Z.eqb_spec (Compare ucmp (e_key e) u) 0) as [H|]; [|done]. by apply (compare_eq (key := any_key)) in H. }
  assert (forall e, contents f !! p = Some e -> table_of (contents f) !! p = Some (entry_internal_key e, e_value e)) as Htab by (intros e E; apply table_of_lookup; eauto).
  destruct (contents f !! p) as [e|] eqn:Ep.
  - specialize (Htab e eq_refl). specialize (Hsave e eq_refl). case_decide as Hk.
    + rewrite (Hhit _ _ Htab) by (by rewrite entry_user, ik_user). rewrite Hsave. 
      destruct (e_type e) eqn:Et; case_decide as Hdt; try done; eexists _, _; (split; [reflexivity|]); (split; [done|]); (split; [done|]); by rewrite Et.
    + assert (match res with Some (k, v) => SaveValue ucmp (MkSaver kNotFound u value) k v | None => MkSaver kNotFound u value end = MkSaver kNotFound u value) as ->.
      { destruct Hres as [->| ->]; [done|]. by rewrite Htab. }
      eexists _, _. split; [reflexivity|]. split; [done|]. done.
  - assert (res = None) as ->.
    { destruct Hres as [->| ->]; [done|]. apply lookup_ge_None. apply lookup_ge_None in Ep. unfold table_of. by rewrite length_map. }
    eexists _, _. split; [reflexivity|]. split; [done|]. done.
Qed.

(** The newest entry of lists one older than the other. *)
Definition older (es es' : list entry) : Prop := forall a b, a ∈ es -> b ∈ es' -> e_key a = e_key b -> e_seq b < e_seq a.

Lemma newest_app es es' : older es es' -> newest u s (es ++ es') = match newest u s es with Some e => Some e | None => newest u s es' end.
Proof.
  intros Ho. induction es as [|a es IH]; [done|]. cbn [app newest]. rewrite IH by (intros x y Hx; apply Ho; by apply list_elem_of_further).
  pose proof (newest_spec u s es) as Hn. destruct (newest u s es) as [e1|]; [by destruct (visible u s a && _)|]. pose proof (newest_spec u s es') as Hn'.
  destruct (newest u s es') as [e2|]; [|by destruct (visible u s a)]. destruct Hn' as (H1 & H2 & _). destruct (visible u s a) eqn:Ev; cbn [andb]; [|done].
  apply visible_true in Ev as [Ea _]. apply visible_true in H2 as [E2 _]. rewrite (proj2 (Z.ltb_lt _ _)); [done|]. apply Ho; [apply list_elem_of_here|done|congruence].
Qed.

(** Files one older than the other. *)
Definition newest_first (fs : list FileMetaData) : Prop := StronglySorted (fun f g => older (contents f) (contents g)) fs.

Lemma call_each_spec level fs st :
  Forall file_contents_ok fs -> newest_first fs -> found None st ->
  exists go st', call_each (Match ucmp table_get ik) level fs st = Some (go, st') /\
    let o := newest u s (concat (map contents fs)) in go = bool_decide (o = None) /\ found o st'.
Proof.
  intros Hok Hn. revert st. induction Hn as [|f fs Hn IH Hall]; intros st Hst; [by eexists _, _|]. apply Forall_cons in Hok as [Hf Hok]. cbn [call_each map concat].
  destruct (Match_spec level f st Hf Hst) as (go & st' & -> & -> & Hst'). cbn [mbind option_bind].
  rewrite newest_app.
  - destruct (newest u s (contents f)) as [e|]; [by eexists _, _|]. rewrite bool_decide_true by done. by apply IH.
  - intros a b Ha Hb. apply list_elem_of_In, in_concat in Hb as (l & Hl & Hb). apply in_map_iff in Hl as (g & <- & Hg). apply list_elem_of_In in Hb, Hg.
    exact (proj1 (Forall_forall _ _) Hall g Hg a b Ha Hb).
Qed.

(** *** A level of sorted files *)

Abbreviation level_es files := (concat (map contents files)).
Abbreviation level_bs files := (map (fun f => table_of (contents f)) files).

Lemma table_of_concat files : table_of (level_es files) = concat (level_bs files).
Proof. unfold table_of. rewrite concat_map, map_map. done. Qed.

(** What is behind a file is past its largest key. *)
Lemma file_after f g e : file_contents_ok f -> file_contents_ok g -> Compare icmp (rep_ (largest f)) (rep_ (smallest g)) < 0 -> e ∈ contents g ->
  Compare icmp (rep_ (largest f)) (entry_internal_key e) < 0.
Proof.
  intros (_ & _ & _ & (_ & Hf & _) & _) (_ & _ & _ & (Hg & _) & Hb & _) H He. destruct (Hb e He) as [Hlo _].
  eapply (compare_lt_le (key := is_internal_key)); [by apply valid_internal| | |exact H|exact Hlo]; [by apply valid_internal|apply AppendInternalKey_internal].
Qed.

Lemma level_es_sorted files : Forall file_contents_ok files -> sorted_files files -> entries_ok (level_es files).
Proof.
  intros Hok Hsf. induction Hsf as [|f files Hsf IH Hall]; [by split; constructor|]. apply Forall_cons in Hok as [Hf Hok]. destruct (IH Hok) as [IH1 IH2].
  pose proof Hf as (_ & [Hseq Hsort] & _ & (_ & Hlv & _) & Hb & _). cbn [map concat]. split; [by apply Forall_app|]. unfold sorted_entries, table_of. rewrite map_app.
  apply StronglySorted_app_2; [|done|done]. intros x y Hx Hy. apply list_elem_of_In, in_map_iff in Hx as (a & <- & Ha), Hy as (b & <- & Hb'). cbn [fst].
  apply list_elem_of_In in Ha, Hb'. apply list_elem_of_In, in_concat in Hb' as (l & Hl & Hb'). apply in_map_iff in Hl as (g & <- & Hg). apply list_elem_of_In in Hb', Hg.
  pose proof (proj1 (Forall_forall _ _) Hall g Hg) as Hfg. pose proof (proj1 (Forall_forall _ _) Hok g Hg) as Hgok.
  eapply (compare_le_lt (key := is_internal_key)); [apply AppendInternalKey_internal| |apply AppendInternalKey_internal|exact (proj2 (Hb a Ha))|by apply (file_after f g b)].
  by apply valid_internal.
Qed.

Lemma level_separates files : Forall file_contents_ok files -> sorted_files files -> index_separates icmp (level_entries files) (level_bs files).
Proof.
  intros Hok Hsf. split; [by rewrite length_level_entries, length_map|]. intros j k h (f & Ef & -> & _)%level_entries_lookup.
  pose proof (proj1 (Forall_lookup _ _) Hok j f Ef) as Hf. split; intros j' b x Hj Eb Hx.
  all: rewrite lookup_map in Eb; destruct (files !! j') as [g|] eqn:Eg; [|done]; injection Eb as <-; pose proof (proj1 (Forall_lookup _ _) Hok j' g Eg) as Hg.
  all: apply list_elem_of_In, in_map_iff in Hx as (e & <- & He); apply list_elem_of_In in He; cbn [fst].
  - pose proof Hg as (_ & _ & _ & Hgok & Hb & _). destruct (Hb e He) as [_ Hhi]. destruct (decide (j' = j)) as [->|]; [congruence|].
    pose proof (sorted_files_lookup files j' j g f Hsf ltac:(lia) Eg Ef) as Hgf. destruct Hf as (_ & _ & _ & (Hf1 & Hf2 & Hf3) & _).
    apply Z.lt_le_incl. eapply (compare_le_lt (key := is_internal_key)); [apply AppendInternalKey_internal| | |exact Hhi|]; [apply valid_internal, Hgok|by apply valid_internal|].
    eapply (compare_lt_le (key := is_internal_key)); [| | |exact Hgf|exact Hf3]; [apply valid_internal, Hgok|by apply valid_internal..].
  - apply (file_after f g e); [done|done|by apply (sorted_files_lookup files j j')|done].
Qed.

(** The newest entry of the level is in the file that [FindFile] finds. *)
Lemma newest_level files :
  Forall file_contents_ok files -> sorted_files files -> seqs_differ (level_es files) ->
  newest u s (level_es files) = match files !! seek_pos icmp ik (level_entries files) with Some f => newest u s (contents f) | None => None end.
Proof.
  intros Hok Hsf Hd. pose proof (level_es_sorted files Hok Hsf) as Hes. assert (Forall file_ok files) as Hfok by (eapply Forall_impl; [exact Hok|]; by intros f (_ & _ & _ & ? & _)).
  rewrite (newest_at _ u s Hes Hd Hs). rewrite table_of_concat. pose proof Hes as [_ Hsort]. rewrite table_of_concat in Hsort.
  pose proof (entries_keys (level_es files)) as Hkeys. rewrite table_of_concat in Hkeys.
  rewrite (seek_concat (key := is_internal_key) (level_separates files Hok Hsf) (level_entries_keys files Hfok) (level_entries_sorted files Hfok Hsf) Hkeys Hsort ik ik_internal).
  set (p := seek_pos icmp ik (level_entries files)). rewrite lookup_map. destruct (files !! p) as [f|] eqn:Ef; cbn [fmap option_fmap option_map].
  2: { assert (level_es files !! length (concat (level_bs files)) = None) as ->; [|done]. rewrite <-table_of_concat. unfold table_of. rewrite length_map. by apply lookup_ge_None. }
  pose proof (proj1 (Forall_lookup _ _) Hok p f Ef) as Hf. pose proof Hf as (_ & Hfe & Hfd & _ & _ & (e & Hlast & He)). rewrite (newest_at _ u s Hfe Hfd Hs).
  set (q := seek_pos icmp ik (table_of (contents f))).
  assert (q < length (contents f))%nat as Hq.
  { destruct (Nat.lt_ge_cases q (length (contents f))) as [|Hge]; [done|]. exfalso. rewrite last_lookup in Hlast.
    pose proof (seek_pos_spec (key := is_internal_key) (table_of (contents f)) ik (pred (length (contents f))) _ (e_value e) (entries_keys _) (proj2 Hfe) ik_internal
      (proj2 (table_of_lookup _ _ _ _) ltac:(eauto))) as Hsp. pose proof (lookup_lt_Some _ _ _ Hlast) as Hl. rewrite He in Hsp.
    pose proof (seek_pos_spec (key := is_internal_key) (level_entries files) ik p (rep_ (largest f)) (file_value f) (level_entries_keys files Hfok) (level_entries_sorted files Hfok Hsf) ik_internal
      ltac:(apply level_entries_lookup; eauto)) as Hsp'. fold p in Hsp'. fold q in Hsp. lia. }
  assert (map contents files !! p = Some (contents f)) as Emap by (by rewrite lookup_map, Ef).
  rewrite <-(concat_base_lookup p (contents f) q Emap Hq). repeat f_equal.
  rewrite !firstn_map. rewrite <-table_of_concat. unfold table_of. by rewrite length_map.
Qed.

(** *** All levels *)

Lemma newest_same es es' : seqs_differ es' -> (forall e, visible u s e = true -> e ∈ es <-> e ∈ es') -> newest u s es = newest u s es'.
Proof.
  intros Hd Hiff. pose proof (newest_spec u s es) as Hn. destruct (newest u s es) as [e|].
  - destruct Hn as (H1 & H2 & H3). symmetry. apply newest_unique; [done|by apply Hiff|done|]. intros e' He' Hv. apply H3; [|done]. by apply Hiff.
  - pose proof (newest_spec u s es') as Hn'. destruct (newest u s es') as [e'|]; [|done]. destruct Hn' as (H1 & H2 & _). apply Hiff in H1; [|done]. by rewrite (Hn e' H1) in H2.
Qed.

Lemma elem_of_level e files : e ∈ level_es files <-> exists f, f ∈ files /\ e ∈ contents f.
Proof.
  rewrite list_elem_of_In, in_concat. setoid_rewrite in_map_iff. split.
  - intros (l & (f & <- & Hf) & He). exists f. by rewrite !list_elem_of_In.
  - intros (f & Hf & He). exists (contents f). rewrite !list_elem_of_In in *. split; [|done]. by exists f.
Qed.

(** A file with a visible entry covers the user key. *)
Lemma visible_covered f e : file_contents_ok f -> e ∈ contents f -> visible u s e = true ->
  Compare ucmp (user (smallest f)) u <= 0 /\ Compare ucmp u (user (largest f)) <= 0.
Proof.
  intros (_ & _ & _ & _ & Hb & _) He [Hk _]%visible_true. destruct (Hb e He) as [H1 H2]. apply icmp_user in H1, H2. rewrite entry_user, Hk in H1, H2. done.
Qed.

Lemma search_level_spec level files st :
  Forall file_contents_ok files -> sorted_files files -> slen files < 2 ^ 31 -> seqs_differ (level_es files) -> found None st ->
  exists go st',
    (if slen files =? 0 then Some (true, st)
     else
       index ← u32 <$> FindFile ucmp files ik;
       if index <? slen files then
         f ← files !! Z.to_nat index;
         if Compare ucmp u (user (smallest f)) <? 0 then Some (true, st) else Match ucmp table_get ik level f st
       else Some (true, st)) = Some (go, st') /\
    go = bool_decide (newest u s (level_es files) = None) /\ found (newest u s (level_es files)) st'.
Proof.
  intros Hok Hsf Hn Hd Hst. rewrite (newest_level files Hok Hsf Hd). assert (Forall file_ok files) as Hfok by (eapply Forall_impl; [exact Hok|]; by intros f (_ & _ & _ & ? & _)).
  destruct (Z.eqb_spec (slen files) 0) as [H0|H0]; [destruct files; [|done]; by eexists _, _|].
  rewrite (FindFile_spec files ik ltac:(by split) Hsf ik_internal). cbn [fmap option_fmap option_map mbind option_bind].
  set (p := seek_pos icmp ik (level_entries files)). pose proof (seek_pos_le icmp ik (level_entries files)) as Hle. rewrite length_level_entries in Hle. fold p in Hle.
  rewrite wrap_small by (unfold in_u; lia). destruct (Z.ltb_spec (Z.of_nat p) (slen files)) as [Hp|Hp].
  2: { rewrite (proj2 (lookup_ge_None files p)) by lia. by eexists _, _. }
  rewrite Nat2Z.id. destruct (lookup_lt_is_Some_2 files p ltac:(lia)) as [f Ef]. rewrite Ef. cbn [mbind option_bind]. pose proof (proj1 (Forall_lookup _ _) Hok p f Ef) as Hf.
  destruct (Z.ltb_spec (Compare ucmp u (user (smallest f))) 0) as [Hlt|Hge]; [|by apply Match_spec].
  pose proof (newest_spec u s (contents f)) as Hnw. destruct (newest u s (contents f)) as [e|]; [|by eexists _, _]. exfalso. destruct Hnw as (He & Hv & _).
  destruct (visible_covered f e Hf He Hv) as [H1 _]. apply (compare_nlt (key := any_key) (c := ucmp)) in H1; [|done|done]. lia.
Qed.

(** The entries of [n] levels from a level on. *)
Definition levels_es (v : Version) (level : Z) (n : nat) : list entry := concat (map (fun l => level_es (level_files v l)) (seqZ level (Z.of_nat n))).

(** What a version promises about the files and the entries in them: the files of a level but 0 are one behind the other,
    newer entries of a user key are in lower levels, and in files of higher number on level 0. *)
Record version_ok (v : Version) : Prop := {
  vo_files level : 0 <= level < kNumLevels -> Forall file_contents_ok (level_files v level);
  vo_count level : 0 <= level < kNumLevels -> slen (level_files v level) < 2 ^ 31;
  vo_sorted level : 0 < level < kNumLevels -> sorted_files (level_files v level);
  vo_numbers : NoDup (map number (level_files v 0));
  vo_level0 f g : f ∈ level_files v 0 -> g ∈ level_files v 0 -> number g < number f -> older (contents f) (contents g);
  vo_older i j : 0 <= i < j -> j < kNumLevels -> older (level_es (level_files v i)) (level_es (level_files v j));
  vo_differ level : 0 <= level < kNumLevels -> seqs_differ (level_es (level_files v level));
}.

Lemma levels_es_S v level n : levels_es v level (S n) = level_es (level_files v level) ++ levels_es v (level + 1) n.
Proof. unfold levels_es. rewrite Nat2Z.inj_succ, seqZ_cons by lia. cbn [map concat]. by rewrite Z.add_1_r, Z.pred_succ. Qed.

Lemma levels_older v level n :
  version_ok v -> 0 <= level -> level + 1 + Z.of_nat n <= kNumLevels -> older (level_es (level_files v level)) (levels_es v (level + 1) n).
Proof.
  intros Hv Hl Hn a b Ha Hb. unfold levels_es in Hb. apply list_elem_of_In, in_concat in Hb as (l & Hl' & Hb). apply in_map_iff in Hl' as (j & <- & Hj).
  apply list_elem_of_In, elem_of_seqZ in Hj. apply list_elem_of_In in Hb. by apply (vo_older v Hv level j); [lia|lia|..].
Qed.

Lemma search_levels_spec v n level st :
  version_ok v -> 1 <= level -> level + Z.of_nat n <= kNumLevels -> found None st ->
  exists go st', search_levels ucmp (Match ucmp table_get ik) v u ik n level st = Some (go, st') /\ found (newest u s (levels_es v level n)) st'.
Proof.
  intros Hv. revert level st. induction n as [|n IH]; intros level st Hl Hn Hst; [by eexists _, _|]. cbn [search_levels]. rewrite levels_es_S.
  destruct (search_level_spec level (level_files v level) st) as (go & st' & -> & -> & Hst'); [apply Hv; lia|apply Hv; lia|apply Hv; lia|apply Hv; lia|done|].
  cbn [mbind option_bind]. rewrite newest_app by (apply levels_older; [done|lia|lia]).
  destruct (newest u s (level_es (level_files v level))) as [e|]; [by eexists _, _|]. rewrite bool_decide_true by done. by apply IH; [lia|lia|].
Qed.

(** The files of level 0 that cover the key, sorted. *)
Lemma sort_insert_perm x l : sort_insert x l ≡ₚ x :: l.
Proof. induction l as [|y l IH]; cbn [sort_insert]; [done|]. case_decide; [done|]. rewrite IH. apply Permutation_swap. Qed.

Lemma sort_newest_first_perm l : sort_newest_first l ≡ₚ l.
Proof. induction l as [|x l IH]; [done|]. cbn [sort_newest_first foldr]. by rewrite sort_insert_perm, IH. Qed.

Lemma sort_insert_sorted x l : number x ∉ map number l -> StronglySorted NewestFirst l -> StronglySorted NewestFirst (sort_insert x l).
Proof.
  intros Hx Hl. induction Hl as [|y l Hl IH Hall]; cbn [sort_insert]; [by repeat constructor|]. cbn [map] in Hx. rewrite not_elem_of_cons in Hx. destruct Hx as [Hxy Hx].
  case_decide as Hd.
  - constructor; [by constructor|]. constructor; [done|]. eapply Forall_impl; [exact Hall|]. unfold NewestFirst in *. intros. lia.
  - constructor; [by apply IH|]. rewrite sort_insert_perm. constructor; [unfold NewestFirst in *; lia|done].
Qed.

Lemma sort_newest_first_sorted l : NoDup (map number l) -> StronglySorted NewestFirst (sort_newest_first l).
Proof.
  induction l as [|x l IH]; [constructor|]. cbn [map sort_newest_first foldr]. intros [Hx Hl]%NoDup_cons. apply sort_insert_sorted; [|by apply IH].
  change (foldr sort_insert [] l) with (sort_newest_first l). by rewrite sort_newest_first_perm.
Qed.

Definition all_entries (v : Version) : list entry := levels_es v 0 (Z.to_nat kNumLevels).

Lemma level0_spec v st :
  version_ok v -> found None st ->
  let tmp := List.filter (fun f => (0 <=? Compare ucmp u (user (smallest f))) && (Compare ucmp u (user (largest f)) <=? 0)) (level_files v 0) in
  exists go st', call_each (Match ucmp table_get ik) 0 (sort_newest_first tmp) st = Some (go, st') /\
    let o := newest u s (level_es (level_files v 0)) in go = bool_decide (o = None) /\ found o st'.
Proof.
  intros Hv Hst tmp. assert (forall f, f ∈ tmp -> f ∈ level_files v 0) as Hsub by (intros f; rewrite !list_elem_of_In; by intros [? _]%List.filter_In).
  assert (0 <= 0 < kNumLevels) as H0 by done. pose proof (vo_files v Hv 0 H0) as Hok.
  assert (Forall file_contents_ok tmp) as Htok by (apply Forall_forall; intros f Hf; by apply (proj1 (Forall_forall _ _) Hok), Hsub).
  assert (NoDup (map number tmp)) as Hnd.
  { pose proof (vo_numbers v Hv) as Hnd. unfold tmp. clear -Hnd. induction (level_files v 0) as [|f l IH]; [done|]. cbn [map List.filter] in *. apply NoDup_cons in Hnd as [Hf Hl].
    destruct (_ && _); [|by apply IH]. cbn [map]. apply NoDup_cons. split; [|by apply IH]. intros Hin. apply Hf. rewrite list_elem_of_In, in_map_iff in *.
    destruct Hin as (g & ? & Hg). exists g. split; [done|]. by apply List.filter_In in Hg as [? _]. }
  assert (newest u s (level_es (level_files v 0)) = newest u s (level_es (sort_newest_first tmp))) as ->.
  { symmetry. apply newest_same; [by apply Hv|]. intros e Hvis. rewrite !elem_of_level. split; intros (f & Hf & He); exists f; (split; [|done]).
    - apply Hsub. by rewrite sort_newest_first_perm in Hf.
    - rewrite sort_newest_first_perm. unfold tmp. rewrite list_elem_of_In, List.filter_In, <-list_elem_of_In. split; [done|].
      destruct (visible_covered f e (proj1 (Forall_forall _ _) Hok f Hf) He Hvis) as [H1 H2]. apply andb_true_iff. split; [|by apply Z.leb_le].
      apply Z.leb_le. apply (compare_nlt (key := any_key)) in H1; [lia|done|done]. }
  apply call_each_spec; [by rewrite sort_newest_first_perm| |done].
  pose proof (sort_newest_first_sorted tmp Hnd) as Hsn. assert (forall f, f ∈ sort_newest_first tmp -> f ∈ level_files v 0) as Hsub' by (intros f; rewrite sort_newest_first_perm; apply Hsub).
  clear -Hv Hsn Hsub'. induction Hsn as [|f l Hl IH Hall]; [constructor|]. constructor; [apply IH; intros g Hg; apply Hsub'; by apply list_elem_of_further|].
  apply Forall_forall. intros g Hg. apply (vo_level0 v Hv); [apply Hsub', list_elem_of_here|apply Hsub'; by apply list_elem_of_further|].
  exact (proj1 (Forall_forall _ _) Hall g Hg).
Qed.

(** The search finds the newest visible entry of the version. *)
Lemma Version_Get_spec v c :
  version_ok v -> inv c ->
  exists stats c', inv c' /\ Version_Get ucmp table_get v lk value c =
    Some (match newest u s (all_entries v) with
          | Some e => match e_type e with kTypeValue => (OK, e_value e) | kTypeDeletion => (NotFound [] [], value) end
          | None => (NotFound [] [], value)
          end, stats, c').
Proof.
  intros Hv Hc. unfold Version_Get. rewrite lookup_user_key_New. set (st0 := MkGetState C _ _ _ _ _ _ _).
  assert (found None st0) as Hst0 by done. unfold ForEachOverlapping.
  destruct (level0_spec v st0 Hv Hst0) as (go & st1 & -> & -> & Hst1). cbn [mbind option_bind].
  assert (exists st', (if bool_decide (newest u s (level_es (level_files v 0)) = None) then snd <$> search_levels ucmp (Match ucmp table_get ik) v u ik (Z.to_nat kNumLevels - 1) 1 st1 else Some st1) = Some st' /\
    found (newest u s (all_entries v)) st') as (st' & -> & Hst').
  { unfold all_entries. change (Z.to_nat kNumLevels) with (S (Z.to_nat kNumLevels - 1)). rewrite levels_es_S, newest_app by (apply levels_older; done).
    destruct (newest u s (level_es (level_files v 0))) as [e|]; [by eexists|]. rewrite bool_decide_true by done.
    destruct (search_levels_spec v (S (Z.to_nat kNumLevels - 1) - 1) 1 st1 Hv ltac:(lia) ltac:(done) Hst1) as (go & st2 & -> & Hst2). by eexists. }
  cbn [mbind option_bind]. destruct Hst' as [Hinv' Hres]. exists (g_stats C st'), (g_cache C st'). split; [done|].
  destruct (newest u s (all_entries v)) as [e|].
  - destruct (e_type e); destruct Hres as [-> Hres]; [by rewrite Hres|]. destruct Hres as [-> ->]. done.
  - destruct Hres as [-> ->]. done.
Qed.
End search.
End proofs.

(** * Properties *)

(** C12. [Version::Get] returns the newest visible entry.  Let a version satisfy what a version promises: the files of a level
    but 0 are one behind the other, and for every user key the entries of a lower level are newer than those of a higher
    one, and on level 0 those of a file with a higher number.  Then for a lookup of a user key at a snapshot, with any
    table cache that finds entries in its files, the result is the value of the entry with the largest sequence number at
    most the snapshot among all files of all levels, or NotFound if this entry is a deletion or there is none; the search
    of files by their bounds, the binary searches and the early end miss nothing. *)
Theorem version_get_newest (ucmp : Comparator) (L : ComparatorLaws any_key ucmp) (LS : SeparatorSame any_key ucmp) (C : Type)
    (table_get : FileMetaData -> slice -> C -> option (Status * option (slice * slice) * C))
    (contents : FileMetaData -> list entry) (stored : FileMetaData -> Prop) (inv : C -> Prop)
    (TR : TableReader ucmp table_get contents stored inv) (v : Version) (u : slice) (s : Z) (value : slice) (c : C) :
  version_ok ucmp contents stored v -> seq_ok s -> inv c ->
  exists stats c', inv c' /\ Version_Get ucmp table_get v (NewLookupKey u s) value c =
    Some (match newest u s (all_entries contents v) with
          | Some e => match e_type e with kTypeValue => (OK, e_value e) | kTypeDeletion => (NotFound [] [], value) end
          | None => (NotFound [] [], value)
          end, stats, c').
Proof. intros Hv Hs Hc. by apply (Version_Get_spec ucmp table_get contents stored inv). Qed.

(** A level 0 with two files, the newer of which deletes the key "k", and a level 1 with an old value of "k". *)
Definition sample_contents (f : FileMetaData) : list entry :=
  if number f =? 1 then [MkEntry 1 kTypeValue (lit "k") (lit "old"); MkEntry 2 kTypeValue (lit "m") (lit "x")]
  else if number f =? 2 then [MkEntry 4 kTypeValue (lit "k") (lit "new"); MkEntry 3 kTypeValue (lit "k") (lit "mid")]
  else [MkEntry 5 kTypeDeletion (lit "k") []].

Definition sample_file (n : Z) (a b : entry) : FileMetaData := NewFile n 100 (MkInternalKey (entry_internal_key a)) (MkInternalKey (entry_internal_key b)).

Definition sample_version : Version :=
  MkVersion
    [[sample_file 2 (MkEntry 4 kTypeValue (lit "k") []) (MkEntry 3 kTypeValue (lit "k") []); sample_file 3 (MkEntry 5 kTypeDeletion (lit "k") []) (MkEntry 5 kTypeDeletion (lit "k") [])];
     [sample_file 1 (MkEntry 1 kTypeValue (lit "k") []) (MkEntry 2 kTypeValue (lit "m") [])]; []; []; []; []; []] None (-1) minus_one (-1).

(** A table cache that looks into the lists. *)
Definition sample_get (f : FileMetaData) (ikey : slice) (c : unit) : option (Status * option (slice * slice) * unit) :=
  let es := table_of (sample_contents f) in Some (OK, es !! seek_pos (InternalKeyComparator BytewiseComparator) ikey es, c).

Lemma sample_reader : TableReader BytewiseComparator sample_get sample_contents (fun _ => True) (fun _ => True).
Proof. split. intros f ikey c _ _ Hk. eexists _, _. split; [reflexivity|]. split; [done|]. split; [by right|]. by intros x v -> _. Qed.

Ltac each_in H := apply list_elem_of_In in H; vm_compute in H; repeat destruct H as [<-|H]; try done.

Ltac sample_differ := repeat (split; [intros e He; each_in He|]); exact I.

Ltac sample_sorted := split; [repeat (apply Forall_cons; split; [by vm_compute|]); constructor|];
  repeat (apply SSorted_cons; [|repeat (apply Forall_cons; split; [by vm_compute|]); constructor]); constructor.

Ltac sample_file := first [exact I | reflexivity | sample_sorted | sample_differ].

Ltac level_cases level := assert (level = 0 \/ level = 1 \/ level = 2 \/ level = 3 \/ level = 4 \/ level = 5 \/ level = 6) as Hlc by (unfold kNumLevels in *; lia);
  destruct Hlc as [->|[->|[->|[->|[->|[->| ->]]]]]].

Lemma sample_files_ok f : f ∈ concat (files_ sample_version) -> file_holds BytewiseComparator sample_contents (fun _ => True) f.
Proof.
  intros Hf. each_in Hf.
  - eapply file_holds_intro with (e0 := MkEntry 4 kTypeValue (lit "k") (lit "new")) (e1 := MkEntry 3 kTypeValue (lit "k") (lit "mid")); try exact _; sample_file.
  - eapply file_holds_intro with (e0 := MkEntry 5 kTypeDeletion (lit "k") []) (e1 := MkEntry 5 kTypeDeletion (lit "k") []); try exact _; sample_file.
  - eapply file_holds_intro with (e0 := MkEntry 1 kTypeValue (lit "k") (lit "old")) (e1 := MkEntry 2 kTypeValue (lit "m") (lit "x")); try exact _; sample_file.
Qed.

Lemma sample_version_ok : version_ok BytewiseComparator sample_contents (fun _ => True) sample_version.
Proof.
  pose proof sample_files_ok as Hf. split.
  - intros level Hl. apply Forall_forall. intros f Hin. by apply Hf, (level_files_sub _ level).
  - intros level Hl. level_cases level; by vm_compute.
  - intros level Hl. level_cases level; [lia|repeat constructor..].
  - apply (bool_decide_unpack _). by vm_compute.
  - intros f g Hf' Hg Hn. each_in Hf'; each_in Hg; intros a b Ha Hb; each_in Ha; each_in Hb.
  - intros i j Hij Hj. level_cases i; level_cases j; try lia; intros a b Ha Hb; each_in Ha; each_in Hb.
  - intros level Hl. level_cases level; sample_differ.
Qed.

Lemma version_get_newest_witness :
  exists stats c', Version_Get BytewiseComparator sample_get sample_version (NewLookupKey (lit "k") 4) [] tt = Some (OK, lit "new", stats, c').
Proof.
  destruct (version_get_newest BytewiseComparator _ _ unit sample_get sample_contents _ _ sample_reader sample_version (lit "k") 4 [] tt sample_version_ok) as (stats & c' & _ & E);
    [by vm_compute|done|]. exists stats, c'. exact E.
Defined.

(** [SomeFileOverlapsRange] is true if and only if some file has a part in the range of user keys, where an absent end
    stands for no limit; also when the files are disjoint and sorted and only the file that a binary search finds is
    looked at. *)
Theorem some_file_overlaps_exact (ucmp : Comparator) (L : ComparatorLaws any_key ucmp) (LS : SeparatorSame any_key ucmp)
    (disjoint : bool) (files : list FileMetaData) (small large : option slice) :
  files_ok ucmp files -> (disjoint = true -> sorted_files ucmp files) ->
  exists b, SomeFileOverlapsRange ucmp disjoint files small large = Some b /\
    (b = true <-> exists f, f ∈ files /\
       match small with Some k => Compare ucmp k (InternalKey_user_key (largest f)) <= 0 | None => True end /\
       match large with Some k => Compare ucmp (InternalKey_user_key (smallest f)) k <= 0 | None => True end).
Proof.
  intros Hok Hs. rewrite SomeFileOverlapsRange_spec by done. eexists. split; [reflexivity|]. rewrite existsb_exists.
  split; intros (f & Hf & Ho); exists f; (split; [by apply list_elem_of_In|]); by apply overlaps_true.
Qed.

Lemma some_file_overlaps_exact_witness :
  SomeFileOverlapsRange BytewiseComparator true (level_files sample_version 1) (Some (lit "l")) (Some (lit "z")) = Some true.
Proof.
  destruct (some_file_overlaps_exact BytewiseComparator _ _ true (level_files sample_version 1) (Some (lit "l")) (Some (lit "z"))) as (b & E & Hb).
  - split; [|by vm_compute]. apply Forall_forall. intros f Hf. apply (sample_files_ok f). by apply (level_files_sub _ 1).
  - intros _. by apply sample_version_ok.
  - rewrite E. f_equal. apply Hb. eexists. split; [apply list_elem_of_here|]. by vm_compute.
Defined.

(** * The files of a range *)

(** A file with a part in a range of user keys. *)
Definition in_part (ucmp : Comparator) (begin end_ : option slice) (f : FileMetaData) : Prop :=
  match begin with Some b => Compare ucmp b (InternalKey_user_key (largest f)) <= 0 | None => True end /\
  match end_ with Some e => Compare ucmp (InternalKey_user_key (smallest f)) e <= 0 | None => True end.

(** The files that a chain of files joins to a range, each with a user key between the ends of the one before. *)
Inductive joined (ucmp : Comparator) (files : list FileMetaData) (begin end_ : option slice) : FileMetaData -> Prop :=
| joined_range f : f ∈ files -> in_part ucmp begin end_ f -> joined ucmp files begin end_ f
| joined_file f g : joined ucmp files begin end_ f -> g ∈ files -> in_part ucmp (Some (InternalKey_user_key (smallest f))) (Some (InternalKey_user_key (largest f))) g -> joined ucmp files begin end_ g.

Section joined.
Context (ucmp : Comparator) {L : ComparatorLaws any_key ucmp} (files : list FileMetaData).
Context (Hfiles : forall f, f ∈ files -> Compare ucmp (InternalKey_user_key (smallest f)) (InternalKey_user_key (largest f)) <= 0).

(** A file that the range meets only since a file has widened it meets that file. *)
Lemma widened_begin b e f g : f ∈ files -> g ∈ files -> in_part ucmp (Some b) e f -> in_part ucmp (Some (InternalKey_user_key (smallest f))) e g -> ~ in_part ucmp (Some b) e g ->
  in_part ucmp (Some (InternalKey_user_key (smallest f))) (Some (InternalKey_user_key (largest f))) g.
Proof.
  intros Hf Hg [F1 _] [G1 G2] Hn. split; [done|]. destruct (decide (Compare ucmp b (InternalKey_user_key (largest g)) <= 0)) as [H|H]; [by destruct Hn|].
  eapply (compare_le_trans (key := any_key)); [done|done|done|by apply Hfiles|]. eapply (compare_le_trans (key := any_key)); [done|done|done| |exact F1].
  enough (Compare ucmp (InternalKey_user_key (largest g)) b < 0) by lia. apply (compare_gt (key := any_key)); [done|done|lia].
Qed.

Lemma widened_end b e f g : f ∈ files -> g ∈ files -> in_part ucmp b (Some e) f -> in_part ucmp b (Some (InternalKey_user_key (largest f))) g -> ~ in_part ucmp b (Some e) g ->
  in_part ucmp (Some (InternalKey_user_key (smallest f))) (Some (InternalKey_user_key (largest f))) g.
Proof.
  intros Hf Hg [_ F2] [G1 G2] Hn. split; [|done]. destruct (decide (Compare ucmp (InternalKey_user_key (smallest g)) e <= 0)) as [H|H]; [by destruct Hn|].
  eapply (compare_le_trans (key := any_key)); [done|done|done| |by apply Hfiles]. eapply (compare_le_trans (key := any_key)); [done|done|done|exact F2|].
  enough (Compare ucmp e (InternalKey_user_key (smallest g)) < 0) by lia. apply (compare_gt (key := any_key)); [done|done|lia].
Qed.

#[local] Instance in_part_dec b e f : Decision (in_part ucmp b e f).
Proof. unfold in_part. destruct b, e; apply _. Defined.

Lemma overlapping_loop_joined begin end_ fuel rest : forall b e inputs out,
  (forall f, f ∈ rest -> f ∈ files) -> Forall (joined ucmp files begin end_) inputs -> (forall f, f ∈ files -> in_part ucmp b e f -> joined ucmp files begin end_ f) ->
  GetOverlappingInputs_loop ucmp fuel true files rest b e inputs = Some out -> Forall (joined ucmp files begin end_) out.
Proof.
  revert rest. induction fuel as [|fuel IH]; intros [|f rest] b e inputs out Hrest Hin Hj; cbn [GetOverlappingInputs_loop]; [by intros [= <-]|done|by intros [= <-]|].
  assert (f ∈ files) as Hf by (apply Hrest; left). rewrite (overlap_tests ucmp). destruct (overlaps ucmp b e f) eqn:Ho; cbn [negb]; [|apply IH; [intros g Hg; apply Hrest; by right|done|done]].
  assert (in_part ucmp b e f) as Hp by (by apply (overlaps_true ucmp) in Ho). assert (joined ucmp files begin end_ f) as Hjf by (by apply Hj).
  destruct b as [b|]; [case_match eqn:Eb|]; [apply IH; [done|constructor|]; intros g Hg Hgp; destruct (decide (in_part ucmp (Some b) e g)) as [H|H]; [by apply Hj|]; apply (joined_file _ _ _ _ f g Hjf Hg); by apply (widened_begin b e)|..].
  all: destruct e as [e|]; [case_match eqn:Ee|]; [apply IH; [done|constructor|]; intros g Hg Hgp|..].
  all: try (apply IH; [intros g Hg; apply Hrest; by right|apply Forall_app; by split; [|constructor]|done]).
  - destruct (decide (in_part ucmp (Some b) (Some e) g)) as [H|H]; [by apply Hj|]. apply (joined_file _ _ _ _ f g Hjf Hg). by apply (widened_end (Some b) e).
  - destruct (decide (in_part ucmp None (Some e) g)) as [H|H]; [by apply Hj|]. apply (joined_file _ _ _ _ f g Hjf Hg). by apply (widened_end None e).
Qed.
End joined.


