(* ===== verification/Block.v ===== *)
(** Block: the blocks of a table, written by table/block_builder.cc and read by table/block.cc: entries with shared key
    prefixes, an array of restart points, and an iterator over them.

    Pointers into a block are offsets.  A read outside the block, or through the slice of an iterator that has none, has
    no result: the operations return [None] then, as when the fuel of a loop is spent. *)

From Stdlib Require Import Strings.Byte Strings.String.
From S2P Require Import Prelude Coding Comparator Status Iterator.

(** * BlockBuilder *)

Record BlockBuilder := MkBlockBuilder {
  buffer_ : slice;
  restarts_ : list Z;
  counter_ : Z;
  finished_ : bool;
  last_key_ : slice;
}.

Definition NewBlockBuilder : BlockBuilder := MkBlockBuilder [] [0] 0 false [].

Definition BlockBuilder_Reset (b : BlockBuilder) : BlockBuilder := MkBlockBuilder [] [0] 0 false [].

Definition CurrentSizeEstimate (b : BlockBuilder) : Z := slen (buffer_ b) + Z.of_nat (length (restarts_ b)) * 4 + 4.

Definition BlockBuilder_empty (b : BlockBuilder) : bool := bool_decide (buffer_ b = []).

Definition BlockBuilder_Finish (b : BlockBuilder) : slice * BlockBuilder :=
  let buffer := foldl (fun d r => PutFixed32 d r) (buffer_ b) (restarts_ b) in
  let buffer := PutFixed32 buffer (u32 (Z.of_nat (length (restarts_ b)))) in
  (buffer, MkBlockBuilder buffer (restarts_ b) (counter_ b) true (last_key_ b)).

(** [interval] is [options_->block_restart_interval]. *)
Definition BlockBuilder_Add (interval : Z) (key value : slice) (b : BlockBuilder) : BlockBuilder :=
  let '(shared, restarts, counter) :=
    if counter_ b <? interval then (common_prefix (last_key_ b) key, restarts_ b, counter_ b)
    else (0%nat, restarts_ b ++ [u32 (slen (buffer_ b))], 0) in
  let non_shared := (length key - shared)%nat in
  let buffer := PutVarint32 (buffer_ b) (u32 (Z.of_nat shared)) in
  let buffer := PutVarint32 buffer (u32 (Z.of_nat non_shared)) in
  let buffer := PutVarint32 buffer (u32 (slen value)) in
  let buffer := buffer ++ take non_shared (drop shared key) ++ value in
  let last_key := take shared (last_key_ b) ++ take non_shared (drop shared key) in
  MkBlockBuilder buffer restarts (counter + 1) (finished_ b) last_key.

(** * Block *)

(** [size_] is 0 for contents that are no block. *)
Record Block := MkBlock { b_data : slice; b_size : Z; b_restart_offset : Z }.

Definition NumRestarts (data : slice) (size : Z) : Z := DecodeFixed32 (drop (Z.to_nat (size - 4)) data).

Definition NewBlock (contents : slice) : Block :=
  let size := slen contents in
  if size <? 4 then MkBlock contents 0 0
  else
    let max_restarts_allowed := (size - 4) / 4 in
    if max_restarts_allowed <? NumRestarts contents size then MkBlock contents 0 0
    else MkBlock contents size (u32 (size - u32 (1 + NumRestarts contents size) * 4)).

(** The bytes from [off] of length [len]; [None] is a read outside the block. *)
Definition read_bytes (data : slice) (off len : Z) : option slice :=
  if (0 <=? off) && (0 <=? len) && (off + len <=? slen data) then Some (take (Z.to_nat len) (drop (Z.to_nat off) data)) else None.

(** The offset of the key delta and the three lengths. *)
Definition DecodeEntry (data : slice) (p limit : Z) : option (Z * Z * Z * Z) :=
  if limit - p <? 3 then None
  else
    let s := take (Z.to_nat (limit - p)) (drop (Z.to_nat p) data) in
    let shared := byte_at s 0 in
    let non_shared := byte_at s 1 in
    let value_length := byte_at s 2 in
    '(p, shared, non_shared, value_length) ←
      (if Z.lor (Z.lor shared non_shared) value_length <? 128 then Some (p + 3, shared, non_shared, value_length)
       else
         '(shared, s) ← GetVarint32Ptr s;
         '(non_shared, s) ← GetVarint32Ptr s;
         '(value_length, s) ← GetVarint32Ptr s;
         Some (limit - slen s, shared, non_shared, value_length));
    if u32 (limit - p) <? u32 (non_shared + value_length) then None else Some (p, shared, non_shared, value_length).

(** [value_] is an offset and a length; [None] is a slice that does not point into the block. *)
Record Iter := MkIter {
  it_current : Z;
  it_restart_index : Z;
  it_key : slice;
  it_value : option (Z * Z);
  it_status : Status;
}.

Section Iter.
Context (cmp : Comparator) (data : slice) (restarts num_restarts : Z).

Definition NewIter : Iter := MkIter restarts num_restarts [] None OK.

Definition Iter_Valid (it : Iter) : bool := it_current it <? restarts.

Definition NextEntryOffset (it : Iter) : option Z := '(off, len) ← it_value it; Some (u32 (off + len)).

Definition GetRestartPoint (index : Z) : Z := DecodeFixed32 (drop (Z.to_nat (restarts + index * 4)) data).

Definition SeekToRestartPoint (index : Z) (it : Iter) : Iter :=
  MkIter (it_current it) index [] (Some (GetRestartPoint index, 0)) (it_status it).

Definition CorruptionError (it : Iter) : Iter :=
  MkIter restarts num_restarts [] None (Corruption (lit "bad entry in block") []).

(** The loop at the end of [ParseNextKey]; it ends at [num_restarts]. *)
Fixpoint advance_restart (fuel : nat) (current index : Z) : Z :=
  match fuel with
  | O => index
  | S fuel =>
      if (index + 1 <? num_restarts) && (GetRestartPoint (index + 1) <? current)
      then advance_restart fuel current (index + 1) else index
  end.

Definition ParseNextKey (it : Iter) : option (bool * Iter) :=
  current ← NextEntryOffset it;
  if restarts <=? current then Some (false, MkIter restarts num_restarts (it_key it) (it_value it) (it_status it))
  else
    match DecodeEntry data current restarts with
    | Some (p, shared, non_shared, value_length) =>
        if slen (it_key it) <? shared then Some (false, CorruptionError it)
        else
          delta ← read_bytes data p non_shared;
          let key := take (Z.to_nat shared) (it_key it) ++ delta in
          let index := advance_restart (Z.to_nat num_restarts) current (it_restart_index it) in
          Some (true, MkIter current index key (Some (p + non_shared, value_length)) (it_status it))
    | None => Some (false, CorruptionError it)
    end.

Definition Iter_value (it : Iter) : option slice := '(off, len) ← it_value it; read_bytes data off len.

Definition Iter_Next (it : Iter) : option Iter := snd <$> ParseNextKey it.

(** The first loop of [Prev]: the restart index, or [None] at the first entry. *)
Fixpoint Prev_restart (fuel : nat) (original index : Z) : option Z :=
  match fuel with
  | O => None
  | S fuel =>
      if original <=? GetRestartPoint index then
        if index =? 0 then None else Prev_restart fuel original (index - 1)
      else Some index
  end.

(** [while (ParseNextKey() && NextEntryOffset() < bound)]. *)
Fixpoint parse_until (fuel : nat) (bound : Z) (it : Iter) : option Iter :=
  match fuel with
  | O => None
  | S fuel =>
      '(go, it) ← ParseNextKey it;
      if (go : bool) then
        next ← NextEntryOffset it;
        if next <? bound then parse_until fuel bound it else Some it
      else Some it
  end.

(** Every entry takes bytes. *)
Definition scan_fuel : nat := S (Z.to_nat restarts).

Definition Iter_Prev (it : Iter) : option Iter :=
  let original := it_current it in
  match Prev_restart (S (Z.to_nat (it_restart_index it))) original (it_restart_index it) with
  | None => Some (MkIter restarts num_restarts (it_key it) (it_value it) (it_status it))
  | Some index => parse_until scan_fuel original (SeekToRestartPoint index it)
  end.

(** The binary search of [Seek]; [None] is a corrupted entry, the outer [None] a lack of fuel or a read outside. *)
Fixpoint Seek_search (fuel : nat) (target : slice) (left_ right_ : Z) : option (option Z) :=
  match fuel with
  | O => None
  | S fuel =>
      if left_ <? right_ then
        let mid := u32 (left_ + right_ + 1) / 2 in
        let region_offset := GetRestartPoint mid in
        match DecodeEntry data region_offset restarts with
        | Some (key_ptr, shared, non_shared, _) =>
            if negb (shared =? 0) then Some None
            else
              mid_key ← read_bytes data key_ptr non_shared;
              if Compare cmp mid_key target <? 0 then Seek_search fuel target mid right_
              else Seek_search fuel target left_ (mid - 1)
        | None => Some None
        end
      else Some (Some left_)
  end.

(** The linear search of [Seek]. *)
Fixpoint Seek_scan (fuel : nat) (target : slice) (it : Iter) : option Iter :=
  match fuel with
  | O => None
  | S fuel =>
      '(go, it) ← ParseNextKey it;
      if negb go then Some it
      else if 0 <=? Compare cmp (it_key it) target then Some it
      else Seek_scan fuel target it
  end.

Definition Iter_Seek (target : slice) (it : Iter) : option Iter :=
  let current_key_compare := if Iter_Valid it then Compare cmp (it_key it) target else 0 in
  if Iter_Valid it && (current_key_compare =? 0) then Some it
  else
    let left_ := if Iter_Valid it && (current_key_compare <? 0) then it_restart_index it else 0 in
    let right_ := if Iter_Valid it && (0 <? current_key_compare) then it_restart_index it else num_restarts - 1 in
    found ← Seek_search (S (Z.to_nat num_restarts)) target left_ right_;
    match found with
    | None => Some (CorruptionError it)
    | Some left_ =>
        let skip_seek := (left_ =? it_restart_index it) && (current_key_compare <? 0) in
        let it := if negb skip_seek then SeekToRestartPoint left_ it else it in
        Seek_scan scan_fuel target it
    end.

Definition Iter_SeekToFirst (it : Iter) : option Iter := snd <$> ParseNextKey (SeekToRestartPoint 0 it).

Definition Iter_SeekToLast (it : Iter) : option Iter :=
  parse_until scan_fuel restarts (SeekToRestartPoint (num_restarts - 1) it).
End Iter.

(** What [NewIterator] returns: an empty iterator with a status, or an [Iter] with the fields it does not change. *)
Inductive BlockIterator :=
  | BlockEmpty (s : Status)
  | BlockIter (data : slice) (restarts num_restarts : Z) (it : Iter).

Definition Block_NewIterator (b : Block) : BlockIterator :=
  if b_size b <? 4 then BlockEmpty (NewErrorIterator (Corruption (lit "bad block contents") []))
  else
    let num_restarts := NumRestarts (b_data b) (b_size b) in
    if num_restarts =? 0 then BlockEmpty NewEmptyIterator
    else BlockIter (b_data b) (b_restart_offset b) num_restarts (NewIter (b_restart_offset b) num_restarts).

(** The calls of either as an [Iterator]. *)
Definition on_block (e : Status -> option Status) (f : slice -> Z -> Z -> Iter -> option Iter) (b : BlockIterator) : option BlockIterator :=
  match b with
  | BlockEmpty s => BlockEmpty <$> e s
  | BlockIter data restarts num it => BlockIter data restarts num <$> f data restarts num it
  end.

Definition Block_ops (cmp : Comparator) : IterOps BlockIterator :=
  MkIterOps
    (fun b => match b with BlockEmpty s => i_Valid EmptyIterator_ops s | BlockIter _ restarts _ it => Iter_Valid restarts it end)
    (fun b => match b with BlockEmpty s => i_key EmptyIterator_ops s | BlockIter _ _ _ it => it_key it end)
    (fun b => match b with BlockEmpty s => i_value EmptyIterator_ops s | BlockIter data _ _ it => Iter_value data it end)
    (fun b => match b with BlockEmpty s => i_status EmptyIterator_ops s | BlockIter _ _ _ it => it_status it end)
    (fun t => on_block (i_Seek EmptyIterator_ops t) (fun data restarts num => Iter_Seek cmp data restarts num t))
    (on_block (i_SeekToFirst EmptyIterator_ops) Iter_SeekToFirst) (on_block (i_SeekToLast EmptyIterator_ops) Iter_SeekToLast)
    (on_block (i_Next EmptyIterator_ops) Iter_Next) (on_block (i_Prev EmptyIterator_ops) Iter_Prev).

(** * Lemmas: one entry *)

Definition entry_header (shared : nat) (k v : slice) : slice :=
  EncodeVarint32 (Z.of_nat shared) ++ EncodeVarint32 (Z.of_nat (length k - shared)) ++ EncodeVarint32 (slen v).

Definition entry_bytes (shared : nat) (k v : slice) : slice := entry_header shared k v ++ drop shared k ++ v.

Lemma EncodeVarint32_small v : 0 <= v < 128 -> EncodeVarint32 v = [of_uval v].
Proof. intros. unfold EncodeVarint32. change (Z.shiftl 1 7) with 128. by rewrite (proj2 (Z.ltb_lt v 128)) by lia. Qed.

Lemma EncodeVarint32_large v : 128 <= v -> exists b s, EncodeVarint32 v = b :: s /\ 128 <= uval b.
Proof.
  intros H. unfold EncodeVarint32. change (Z.shiftl 1 7) with 128. rewrite (proj2 (Z.ltb_ge v 128)) by lia.
  assert (128 <= uval (of_uval (Z.lor v 128))) by (rewrite uval_or_128; dlia).
  repeat case_match; eauto.
Qed.

Lemma lor3_small a b c : 0 <= a < 128 -> 0 <= b < 128 -> 0 <= c < 128 -> (Z.lor (Z.lor a b) c <? 128) = true.
Proof.
  intros. apply Z.ltb_lt. change 128 with (2 ^ 7) in *. change 128 with (2 ^ 7).
  assert (in_u 7 (Z.lor (Z.lor a b) c)) as [??]; [|done]. repeat apply lor_in_u; unfold in_u; lia.
Qed.

Lemma lor3_large a b c :
  0 <= a -> 0 <= b -> 0 <= c -> 128 <= a \/ 128 <= b \/ 128 <= c -> (Z.lor (Z.lor a b) c <? 128) = false.
Proof.
  intros Ha Hb Hc H. apply Z.ltb_ge.
  assert (forall x y, 0 <= x -> 0 <= y -> x <= Z.lor x y /\ y <= Z.lor x y) as Hl.
  { intros x y ??. split; apply Z.ldiff_le; try (apply Z.lor_nonneg; lia);
      apply Z.bits_inj'; intros i ?; rewrite Z.ldiff_spec, Z.lor_spec, Z.bits_0; by destruct (Z.testbit x i), (Z.testbit y i). }
  pose proof (Hl a b Ha Hb). pose proof (Hl (Z.lor a b) c ltac:(apply Z.lor_nonneg; lia) Hc). lia.
Qed.

Lemma length_entry_header shared k v : 3 <= slen (entry_header shared k v).
Proof.
  unfold entry_header. rewrite !length_app.
  pose proof (length_EncodeVarint32 (Z.of_nat shared)). pose proof (length_EncodeVarint32 (Z.of_nat (length k - shared))).
  pose proof (length_EncodeVarint32 (slen v)). lia.
Qed.

(** The three lengths are read back, by the fast path or by the slow one. *)
Lemma DecodeEntry_lengths a b c rest :
  is_u32 a -> is_u32 b -> is_u32 c ->
  let s := EncodeVarint32 a ++ EncodeVarint32 b ++ EncodeVarint32 c ++ rest in
  (if Z.lor (Z.lor (byte_at s 0) (byte_at s 1)) (byte_at s 2) <? 128
   then (byte_at s 0, byte_at s 1, byte_at s 2) = (a, b, c) /\ s = take 3 s ++ rest
   else exists s1 s2, GetVarint32Ptr s = Some (a, s1) /\ GetVarint32Ptr s1 = Some (b, s2) /\ GetVarint32Ptr s2 = Some (c, rest)).
Proof.
  intros Ha Hb Hc s. pose proof (GetVarint32_Encode a (EncodeVarint32 b ++ EncodeVarint32 c ++ rest) Ha) as G1.
  pose proof (GetVarint32_Encode b (EncodeVarint32 c ++ rest) Hb) as G2. pose proof (GetVarint32_Encode c rest Hc) as G3.
  unfold GetVarint32 in *. pose proof (fun i => uval_range (nth i s Byte.x00)) as Hr. unfold is_u32, in_u in *.
  destruct (decide (a < 128)) as [La|La].
  - destruct (decide (b < 128)) as [Lb|Lb].
    + destruct (decide (c < 128)) as [Lc|Lc].
      * unfold s. rewrite !EncodeVarint32_small by lia. unfold byte_at. cbn [app nth take].
        rewrite !uval_of_uval_small, lor3_small by lia. done.
      * destruct (EncodeVarint32_large c ltac:(lia)) as (x & t & E & Hx).
        rewrite lor3_large; [by eauto|apply Hr..|]. right. right. unfold s, byte_at.
        rewrite (EncodeVarint32_small a), (EncodeVarint32_small b), E by lia. done.
    + destruct (EncodeVarint32_large b ltac:(lia)) as (x & t & E & Hx).
      rewrite lor3_large; [by eauto|apply Hr..|]. right. left. unfold s, byte_at.
      rewrite (EncodeVarint32_small a), E by lia. done.
  - destruct (EncodeVarint32_large a ltac:(lia)) as (x & t & E & Hx).
    rewrite lor3_large; [by eauto|apply Hr..|]. left. unfold s, byte_at. by rewrite E.
Qed.

Lemma read_bytes_app pre s post : read_bytes (pre ++ s ++ post) (slen pre) (slen s) = Some s.
Proof.
  unfold read_bytes. rewrite !length_app, !(proj2 (Z.leb_le _ _)) by lia. cbn [andb].
  by rewrite !Nat2Z.id, drop_app_length, take_app_length.
Qed.

(** What [DecodeEntry] makes of a header: the sum of the lengths is one of 32 bits. *)
Lemma DecodeEntry_header data p limit a b c rest :
  is_u32 a -> is_u32 b -> is_u32 c -> 0 <= p <= limit -> limit <= slen data ->
  take (Z.to_nat (limit - p)) (drop (Z.to_nat p) data) = EncodeVarint32 a ++ EncodeVarint32 b ++ EncodeVarint32 c ++ rest ->
  DecodeEntry data p limit = if u32 (slen rest) <? u32 (b + c) then None else Some (limit - slen rest, a, b, c).
Proof.
  intros Ha Hb Hc Hp Hl Hs. pose proof (f_equal length Hs) as Ls. rewrite length_take, length_drop, !length_app in Ls.
  pose proof (length_EncodeVarint32 a). pose proof (length_EncodeVarint32 b). pose proof (length_EncodeVarint32 c).
  unfold DecodeEntry. rewrite (proj2 (Z.ltb_ge _ 3)) by lia. rewrite Hs. pose proof (DecodeEntry_lengths a b c rest Ha Hb Hc) as D.
  cbv zeta in D |- *. set (s := EncodeVarint32 a ++ _) in *.
  assert (slen s = limit - p) as Lp by (unfold s; rewrite !length_app; lia). destruct (_ <? 128).
  - destruct D as [[= -> -> ->] E]. cbn [mbind option_bind]. apply (f_equal length) in E. rewrite length_app, length_take in E.
    by replace (limit - (p + 3)) with (slen rest) by lia; replace (p + 3) with (limit - slen rest) by lia.
  - destruct D as (s1 & s2 & -> & G2 & G3). cbn [mbind option_bind]. rewrite G2. cbn [mbind option_bind]. rewrite G3. cbn [mbind option_bind].
    by replace (limit - (limit - slen rest)) with (slen rest) by lia.
Qed.

(** What [DecodeEntry] finds at an entry. *)
Lemma DecodeEntry_entry pre shared k v post tail :
  (shared <= length k)%nat -> slen k < 2 ^ 32 -> slen (pre ++ entry_bytes shared k v ++ post) < 2 ^ 32 ->
  DecodeEntry ((pre ++ entry_bytes shared k v ++ post) ++ tail) (slen pre) (slen (pre ++ entry_bytes shared k v ++ post)) =
    Some (slen (pre ++ entry_header shared k v), Z.of_nat shared, Z.of_nat (length k - shared), slen v).
Proof.
  intros Hs Hk Hlen. unfold entry_bytes in *. assert (slen (drop shared k ++ v ++ post) + slen (pre ++ entry_header shared k v) = slen (pre ++ (entry_header shared k v ++ drop shared k ++ v) ++ post)) as Hl
    by (rewrite !length_app; lia). pose proof (length_drop k shared) as Ld.
  rewrite (DecodeEntry_header _ _ _ (Z.of_nat shared) (Z.of_nat (length k - shared)) (slen v) (drop shared k ++ v ++ post)).
  - rewrite !length_app in *. rewrite !(wrap_small 32) by (unfold in_u; lia). rewrite (proj2 (Z.ltb_ge _ _)) by lia. do 2 f_equal. repeat f_equal. lia.
  - unfold is_u32, in_u. lia.
  - unfold is_u32, in_u. lia.
  - rewrite !length_app in Hlen. unfold is_u32, in_u. lia.
  - rewrite !length_app. lia.
  - rewrite !length_app. lia.
  - rewrite <-!app_assoc, drop_app_length' by lia. rewrite !app_assoc, take_app_length' by (rewrite !length_app; lia).
    unfold entry_header. by rewrite <-!app_assoc.
Qed.

(** * Lemmas: building a block *)

(** An entry adds its value to the size, and at most its bytes and 19 more. *)
Lemma Add_grows interval k v b : CurrentSizeEstimate b + slen v <= CurrentSizeEstimate (BlockBuilder_Add interval k v b).
Proof.
  unfold CurrentSizeEstimate, BlockBuilder_Add, PutVarint32. destruct (_ <? _); cbn [buffer_ restarts_]; rewrite !length_app; lia.
Qed.

Lemma Add_estimate interval k v b :
  CurrentSizeEstimate (BlockBuilder_Add interval k v b) <= CurrentSizeEstimate b + 19 + slen k + slen v.
Proof.
  unfold CurrentSizeEstimate, BlockBuilder_Add, PutVarint32.
  destruct (_ <? _); cbn [buffer_ restarts_]; rewrite !length_app, length_take, length_drop; cbn [length].
  all: repeat match goal with |- context [length (EncodeVarint32 ?x)] =>
    pose proof (length_EncodeVarint32 x); generalize dependent (length (EncodeVarint32 x)); intros end; lia.
Qed.

Section build.
Context (n : nat) (Hn : (1 <= n)%nat).

(** The entries as written, from entry number [i] on, after the key [prev]. *)
Fixpoint chunks (i : nat) (prev : slice) (es : list (slice * slice)) : list slice :=
  match es with
  | [] => []
  | (k, v) :: es => entry_bytes (if decide (i mod n = 0)%nat then 0%nat else common_prefix prev k) k v :: chunks (S i) k es
  end.

(** The offset of entry number [i]. *)
Definition off_of (es : list (slice * slice)) (i : nat) : Z := slen (concat (take i (chunks 0 [] es))).

Definition num_restarts_of (N : nat) : nat := S ((N - 1) / n).

Definition restarts_of (es : list (slice * slice)) : list Z :=
  map (fun j => off_of es (j * n)) (seq 0 (num_restarts_of (length es))).

Definition last_of (prev : slice) (es : list (slice * slice)) : slice := from_option fst prev (last es).

Lemma length_chunks i prev es : length (chunks i prev es) = length es.
Proof. revert i prev. induction es as [|[k v] es IH]; intros; [done|]. cbn [chunks length]. by rewrite IH. Qed.

Lemma chunks_snoc i prev es k v :
  chunks i prev (es ++ [(k, v)]) = chunks i prev es ++
    [entry_bytes (if decide ((i + length es) mod n = 0)%nat then 0%nat else common_prefix (last_of prev es) k) k v].
Proof.
  revert i prev. induction es as [|[k' v'] es IH]; intros i prev; cbn [app chunks length].
  - by rewrite Nat.add_0_r.
  - rewrite IH. replace (S i + length es)%nat with (i + S (length es))%nat by lia. do 3 f_equal. unfold last_of.
    destruct es as [|e es']; [done|]. change (last ((k', v') :: e :: es')) with (last (e :: es')).
    destruct (last (e :: es')) eqn:E; [done|]. by apply last_None in E.
Qed.

Lemma chunks_lookup es i k v :
  es !! i = Some (k, v) -> exists shared, chunks 0 [] es !! i = Some (entry_bytes shared k v) /\ (shared <= length k)%nat /\
    (shared = 0%nat \/ exists j k' v', i = S j /\ (i mod n <> 0)%nat /\ es !! j = Some (k', v') /\
       shared = common_prefix k' k).
Proof.
  revert i k v. induction es as [|[k0 v0] es IH] using rev_ind; intros i k v H; [done|].
  rewrite chunks_snoc. cbn [Nat.add]. apply lookup_app_Some in H as [H|[Hi H]].
  - destruct (IH _ _ _ H) as (sh & E & Hle & Hs). exists sh. split; [by apply lookup_app_l_Some|]. split; [done|].
    destruct Hs as [->|(j & k' & v' & -> & Hm & Hj & ->)]; [by left|]. right. exists j, k', v'.
    split_and!; try done. by apply lookup_app_l_Some.
  - assert (i = length es) as -> by (apply lookup_lt_Some in H; simpl in H; lia). rewrite Nat.sub_diag in H. injection H as -> ->.
    eexists. split; [apply list_lookup_middle; by rewrite length_chunks|]. case_decide as Hm; [split; [lia|by left]|].
    unfold last_of. destruct es as [|[k' v'] es'] using rev_ind; [by rewrite Nat.Div0.mod_0_l in Hm|]. clear IHes'.
    rewrite last_snoc. cbn [from_option fst]. pose proof (common_prefix_le k' k). split; [lia|]. right.
    exists (length es'), k', v'. rewrite length_app in *. simpl length in *. replace (length es' + 1)%nat with (S (length es')) in * by lia.
    split_and!; try done. rewrite <-app_assoc. by apply list_lookup_middle.
Qed.

Lemma off_of_app es es' i : (i <= length es)%nat -> off_of (es ++ es') i = off_of es i.
Proof.
  intros H. unfold off_of. do 2 f_equal. revert i H. induction es' as [|[k v] es' IH] using rev_ind; intros i H; [by rewrite app_nil_r|].
  rewrite app_assoc, chunks_snoc. rewrite take_app_le by (rewrite length_chunks, length_app; lia). by rewrite IH.
Qed.

Lemma off_of_all es : off_of es (length es) = slen (concat (chunks 0 [] es)).
Proof. unfold off_of. by rewrite take_ge by (by rewrite length_chunks). Qed.

(** The number of restart points changes with every [n]th entry. *)
Lemma num_restarts_step N :
  (N - (N - 1) / n * n < n)%nat /\ num_restarts_of (S N) = num_restarts_of N /\ ((N mod n)%nat <> 0%nat \/ N = 0%nat) \/
  (N - (N - 1) / n * n = n)%nat /\ num_restarts_of (S N) = S (num_restarts_of N) /\ (N mod n)%nat = 0%nat /\
    N = (num_restarts_of N * n)%nat.
Proof.
  unfold num_restarts_of. replace (S N - 1)%nat with N by lia. destruct N as [|N].
  - left. cbn [Nat.sub]. rewrite Nat.Div0.div_0_l. split_and!; [lia|lia|by right].
  - replace (S N - 1)%nat with N by lia. pose proof (Nat.div_mod_eq N n) as E. pose proof (Nat.mod_upper_bound N n ltac:(lia)).
    destruct (decide (N mod n = n - 1)%nat) as [E'|E'].
    + right. assert (S N = (N / n + 1) * n)%nat as E2 by nia.
      assert (S N / n = S (N / n))%nat as -> by (rewrite E2, Nat.div_mul by lia; lia).
      assert (S N mod n = 0)%nat as -> by (rewrite E2; apply Nat.Div0.mod_mul). split_and!; nia.
    + left. assert (S N = n * (N / n) + (N mod n + 1))%nat as E2 by lia.
      assert (S N / n = N / n)%nat as -> by (symmetry; apply (Nat.div_unique _ _ _ (N mod n + 1)); lia).
      assert (S N mod n = N mod n + 1)%nat as -> by (symmetry; apply (Nat.mod_unique _ _ (N / n)); lia).
      split_and!; nia.
Qed.

Definition build (es : list (slice * slice)) : BlockBuilder :=
  foldl (fun b e => BlockBuilder_Add (Z.of_nat n) e.1 e.2 b) NewBlockBuilder es.

Lemma off_of_mono es i j : (i <= j)%nat -> off_of es i <= off_of es j.
Proof.
  intros H. unfold off_of. replace (take i (chunks 0 [] es)) with (take i (take j (chunks 0 [] es)))
    by (rewrite take_take; f_equal; lia).
  rewrite <-(take_drop i (take j (chunks 0 [] es))) at 2. rewrite concat_app, length_app. lia.
Qed.

Lemma Add_buffer b shared k v :
  (shared <= length k)%nat -> slen k < 2 ^ 32 -> slen v < 2 ^ 32 ->
  PutVarint32 (PutVarint32 (PutVarint32 b (u32 (Z.of_nat shared))) (u32 (Z.of_nat (length k - shared)))) (u32 (slen v)) ++
    take (length k - shared) (drop shared k) ++ v = b ++ entry_bytes shared k v.
Proof.
  intros Hs Hk Hv. rewrite !(wrap_small 32) by (unfold in_u; lia). rewrite take_ge by (rewrite length_drop; lia).
  unfold PutVarint32, entry_bytes, entry_header. by rewrite <-!app_assoc.
Qed.

(** What the builder holds after the entries [es]. *)
Definition built (es : list (slice * slice)) : BlockBuilder :=
  MkBlockBuilder (concat (chunks 0 [] es)) (restarts_of es) (Z.of_nat (length es - (length es - 1) / n * n)) false (last_of [] es).

Lemma Add_built es k v :
  slen k < 2 ^ 32 -> slen v < 2 ^ 32 -> slen (concat (chunks 0 [] es)) < 2 ^ 32 ->
  BlockBuilder_Add (Z.of_nat n) k v (built es) = built (es ++ [(k, v)]).
Proof.
  intros Hk Hv Hsz. unfold built.
  assert (restarts_of (es ++ [(k, v)]) = map (fun j => off_of es (j * n)) (seq 0 (num_restarts_of (S (length es))))) as ->.
  { unfold restarts_of. rewrite length_app, Nat.add_1_r. apply map_ext_in. intros j Hj%in_seq. apply off_of_app.
    unfold num_restarts_of in Hj. replace (S (length es) - 1)%nat with (length es) in Hj by lia.
    pose proof (Nat.Div0.mul_div_le (length es) n). nia. }
  rewrite chunks_snoc, concat_app. cbn [Nat.add concat]. rewrite app_nil_r.
  unfold BlockBuilder_Add. cbn [counter_ last_key_ buffer_ restarts_ finished_]. unfold last_of at 4. rewrite last_snoc. cbn [from_option fst].
  rewrite length_app, Nat.add_1_r.
  assert (forall shared, (shared <= length k)%nat -> take shared (last_of [] es) = take shared k ->
    take shared (last_of [] es) ++ take (length k - shared) (drop shared k) = k) as Ek.
  { intros sh ? ->. rewrite (take_ge (drop sh k)) by (rewrite length_drop; lia). apply take_drop. }
  replace (S (length es) - 1)%nat with (length es) by lia. pose proof (common_prefix_le (last_of [] es) k) as Hcp.
  destruct (num_restarts_step (length es)) as [(Hlt & En & Hm)|(Heq & En & Hm & Hm')].
  - rewrite (proj2 (Z.ltb_lt _ (Z.of_nat n))) by lia.
    assert ((if decide ((length es mod n)%nat = 0%nat) then 0%nat else common_prefix (last_of [] es) k) = common_prefix (last_of [] es) k) as ->.
    { destruct Hm as [Hm|Hm]; [by rewrite decide_False|]. destruct es; [|done]. by case_decide. }
    rewrite Add_buffer, Ek by (try apply common_prefix_take; lia). rewrite En. f_equal.
    unfold num_restarts_of in En. replace (S (length es) - 1)%nat with (length es) in En by lia. injection En as En.
    pose proof (Nat.Div0.mul_div_le (length es) n). rewrite En in *. lia.
  - rewrite (proj2 (Z.ltb_ge _ (Z.of_nat n))) by lia. rewrite decide_True by done.
    rewrite Add_buffer, Ek by (try done; lia). rewrite En, seq_S, map_app. cbn [map Nat.add]. f_equal.
    + unfold restarts_of. do 2 f_equal. rewrite <-Hm', off_of_all. apply (wrap_small 32). unfold in_u. lia.
    + unfold num_restarts_of in En. replace (S (length es) - 1)%nat with (length es) in En by lia. injection En as En. nia.
Qed.

(** What the size estimate and the format ask of the entries. *)
Definition sizes_ok (es : list (slice * slice)) : Prop :=
  CurrentSizeEstimate (build es) < 2 ^ 32 /\ Forall (fun e => slen e.1 < 2 ^ 32) es.

Lemma build_built es : sizes_ok es -> build es = built es.
Proof.
  induction es as [|[k v] es IH] using rev_ind; intros [Hsz Hk].
  { unfold build, built, restarts_of, num_restarts_of. cbn [foldl length Nat.sub]. by rewrite Nat.Div0.div_0_l. }
  apply Forall_app in Hk as [Hes Hk]. apply Forall_inv in Hk. cbn [fst] in Hk.
  unfold build in *. rewrite foldl_app in *. cbn [foldl fst snd] in *. fold (build es) in *.
  pose proof (Add_grows (Z.of_nat n) k v (build es)) as Hg.
  assert (0 <= CurrentSizeEstimate (build es)) by (unfold CurrentSizeEstimate; lia).
  assert (build es = built es) as E by (apply IH; split; [lia|done]).
  assert (slen (concat (chunks 0 [] es)) <= CurrentSizeEstimate (build es)) by (rewrite E; unfold CurrentSizeEstimate, built; cbn [buffer_]; lia).
  rewrite E in *. apply Add_built; lia.
Qed.

Lemma sizes_ok_bound es :
  sizes_ok es -> slen (concat (chunks 0 [] es)) + 4 * Z.of_nat (num_restarts_of (length es)) + 4 < 2 ^ 32.
Proof.
  intros Hok. pose proof Hok as [Hsz _]. rewrite build_built in Hsz by done. unfold CurrentSizeEstimate, built, restarts_of in Hsz.
  cbn [buffer_ restarts_] in Hsz. rewrite length_map, length_seq in Hsz. lia.
Qed.

Lemma Finish_build es :
  sizes_ok es ->
  (BlockBuilder_Finish (build es)).1 =
    concat (chunks 0 [] es) ++ concat (map EncodeFixed32 (restarts_of es)) ++ EncodeFixed32 (Z.of_nat (num_restarts_of (length es))).
Proof.
  intros Hok. rewrite build_built by done. unfold BlockBuilder_Finish, built. cbn [fst buffer_ restarts_]. rewrite PutFixed32_words.
  unfold PutFixed32. rewrite <-app_assoc. do 2 f_equal. unfold restarts_of. rewrite length_map, length_seq.
  pose proof (sizes_ok_bound es Hok). rewrite (wrap_small 32); [done|]. unfold in_u. lia.
Qed.
End build.

(** * Lemmas: the iterator on a built block *)

Section iterate.
Context (n : nat) (Hn : (1 <= n)%nat) (es : list (slice * slice)) (Hok : sizes_ok n es).

Let N := length es.
Let body := concat (chunks n 0 [] es).
Let data := (BlockBuilder_Finish (build n es)).1.
Let R := num_restarts_of n N.
Let off := off_of n es.

Local Lemma data_eq : data = body ++ concat (map EncodeFixed32 (restarts_of n es)) ++ EncodeFixed32 (Z.of_nat R).
Proof. by apply Finish_build. Qed.

Local Lemma length_restarts : length (restarts_of n es) = R.
Proof. unfold restarts_of. by rewrite length_map, length_seq. Qed.

Local Lemma body_bound : slen body + 4 * Z.of_nat R + 4 < 2 ^ 32.
Proof. by apply sizes_ok_bound. Qed.

Local Lemma off_N : off N = slen body.
Proof. apply off_of_all. Qed.

Local Lemma off_range i : (i <= N)%nat -> 0 <= off i <= slen body.
Proof. intros. rewrite <-off_N. split; [unfold off, off_of; lia|]. by apply off_of_mono. Qed.

(** The block's footer says where the restart points are. *)
Lemma NewBlock_built : Block_NewIterator (NewBlock data) = BlockIter data (slen body) (Z.of_nat R) (NewIter (slen body) (Z.of_nat R)).
Proof.
  pose proof body_bound. assert (slen data = slen body + 4 * Z.of_nat R + 4) as El.
  { rewrite data_eq, !length_app, length_EncodeFixed32.
    pose proof (length_words (restarts_of n es)). rewrite length_restarts in *. lia. }
  assert (NumRestarts data (slen data) = Z.of_nat R) as En.
  { unfold NumRestarts. rewrite El. rewrite data_eq at 1. rewrite app_assoc, drop_app_length'.
    - rewrite <-(app_nil_r (EncodeFixed32 _)), DecodeFixed32_Encode. apply (wrap_small 32). unfold in_u. lia.
    - rewrite length_app. pose proof (length_words (restarts_of n es)). rewrite length_restarts in *. lia. }
  unfold NewBlock. cbv zeta. rewrite (proj2 (Z.ltb_ge _ 4)) by lia. rewrite En, (proj2 (Z.ltb_ge _ _)) by (rewrite El; dlia).
  unfold Block_NewIterator. cbn [b_size b_data b_restart_offset]. rewrite (proj2 (Z.ltb_ge _ 4)) by lia. rewrite En.
  assert (R <> 0)%nat by done. rewrite (proj2 (Z.eqb_neq _ 0)) by lia.
  rewrite (wrap_small 32 (1 + _)), (wrap_small 32) by (unfold in_u; lia).
  replace (slen data - (1 + Z.of_nat R) * 4) with (slen body) by lia. done.
Qed.

Local Lemma restart_point j : (j < R)%nat -> GetRestartPoint data (slen body) (Z.of_nat j) = off (j * n).
Proof.
  intros Hj. unfold GetRestartPoint. rewrite data_eq.
  rewrite drop_app_ge by lia. rewrite (DecodeFixed32_words _ j (off (j * n))); [|..|lia].
  - pose proof body_bound. apply (wrap_small 32). unfold in_u. enough (off (j * n) <= slen body) by (unfold off, off_of in *; lia).
    rewrite <-off_N. destruct (decide (j * n <= N)%nat); [by apply off_of_mono|].
    unfold off, off_of. by rewrite !take_ge by (rewrite length_chunks; fold N; lia).
  - unfold restarts_of. rewrite lookup_map, lookup_seq_lt by done. done.
Qed.

(** Restart points are at entries, unless the block is empty. *)
Local Lemma restart_entry j : (j < R)%nat -> (j * n < N)%nat \/ (j = 0%nat /\ N = 0%nat).
Proof.
  unfold R, num_restarts_of. intros Hj. destruct (decide (N = 0)%nat) as [E|E].
  - right. rewrite E in *. cbn [Nat.sub] in Hj. rewrite Nat.Div0.div_0_l in Hj. lia.
  - left. pose proof (Nat.Div0.mul_div_le (N - 1) n). nia.
Qed.

(** How much of its key the entry [i] shares with the entry before it. *)
Definition shared_with (shared i : nat) (k : slice) : Prop :=
  shared = 0%nat \/ exists j k' v', i = S j /\ (i mod n <> 0)%nat /\ es !! j = Some (k', v') /\ shared = common_prefix k' k.

Local Lemma entry_split i k v :
  es !! i = Some (k, v) -> exists pre shared post, body = pre ++ entry_bytes shared k v ++ post /\ slen pre = off i /\
    off (S i) = off i + slen (entry_bytes shared k v) /\ (shared <= length k)%nat /\ slen k < 2 ^ 32 /\
    shared_with shared i k.
Proof.
  intros H. destruct (chunks_lookup n Hn es i k v H) as (sh & E & Hle & Hs).
  exists (concat (take i (chunks n 0 [] es))), sh, (concat (drop (S i) (chunks n 0 [] es))).
  split_and!; try done.
  - unfold body. rewrite <-(take_drop_middle _ _ _ E) at 1. by rewrite concat_app.
  - unfold off, off_of. rewrite (take_S_r _ _ _ E), concat_app, length_app. cbn [concat]. rewrite app_nil_r. lia.
  - destruct Hok as [_ Hk]. rewrite Forall_lookup in Hk. exact (Hk _ _ H).
Qed.

Local Lemma off_lt i j : (i < j)%nat -> (j <= N)%nat -> off i < off j.
Proof.
  intros Hi Hj. assert (off (S i) <= off j) by (apply off_of_mono; lia).
  destruct (lookup_lt_is_Some_2 es i) as [[k v] E]; [unfold N in *; lia|].
  destruct (entry_split i k v E) as (pre & sh & post & _ & _ & E2 & _). unfold entry_bytes in E2. rewrite length_app in E2.
  pose proof (length_entry_header sh k v). lia.
Qed.

Local Lemma off_le_inv i j : (i <= N)%nat -> (j <= N)%nat -> off i <= off j <-> (i <= j)%nat.
Proof.
  intros Hi Hj. split; intros H; [|by apply off_of_mono]. destruct (decide (i <= j)%nat); [done|]. pose proof (off_lt j i). lia.
Qed.

(** What an iterator that is to parse entry [i] holds. *)
Definition pending (it : Iter) (i : nat) : Prop :=
  (exists o l, it_value it = Some (o, l) /\ o + l = off i) /\ it_status it = OK /\ (i <= N)%nat /\
  ((i mod n = 0)%nat \/ exists j k v, i = S j /\ es !! j = Some (k, v) /\ it_key it = k) /\
  (exists r, it_restart_index it = Z.of_nat r /\ (r < R)%nat /\ (r * n <= i)%nat).

(** What an iterator at entry [i] holds; past the last entry it is not valid. *)
Definition positioned (it : Iter) (i : nat) : Prop :=
  it_status it = OK /\
  match es !! i with
  | Some (k, v) =>
      it_current it = off i /\ it_key it = k /\ (exists o, it_value it = Some (o, slen v) /\ o + slen v = off (S i)) /\
      Iter_value data it = Some v /\
      (exists r, it_restart_index it = Z.of_nat r /\ (r < R)%nat /\ (r * n <= i <= S r * n)%nat)
  | None => i = N /\ it_current it = slen body /\ it_restart_index it = Z.of_nat R
  end.

Local Lemma positioned_next it i : (i < N)%nat -> positioned it i -> pending it (S i).
Proof.
  intros Hi [Hst H]. destruct (es !! i) as [[k v]|] eqn:E; [|by apply lookup_ge_None in E; unfold N in *; lia].
  destruct H as (_ & Hk & (o & Ho & Eo) & _ & (r & Hr & HR & Hb)).
  split_and!; [by eauto|done|lia|right; by eauto 10|]. exists r. split_and!; [done|done|lia].
Qed.

Local Lemma restart_pending it j : (j < R)%nat -> it_status it = OK -> pending (SeekToRestartPoint data (slen body) (Z.of_nat j) it) (j * n).
Proof.
  intros Hj Hst. pose proof (restart_entry j Hj). split_and!; [..|exists j; split_and!; [done|done|lia]].
  - exists (off (j * n)), 0. split; [|lia]. cbn. by rewrite restart_point.
  - done.
  - lia.
  - left. apply Nat.Div0.mod_mul.
Qed.

(** The restart index follows the entries. *)
Local Lemma advance_restart_spec fuel i r :
  (i <= N)%nat -> (r < R)%nat -> (r * n <= i)%nat -> (R <= fuel + r)%nat ->
  exists r', advance_restart data (slen body) (Z.of_nat R) fuel (off i) (Z.of_nat r) = Z.of_nat r' /\ (r' < R)%nat /\
    (r' * n <= i)%nat /\ (i <= S r' * n \/ S r' = R)%nat.
Proof.
  intros Hi. revert r. induction fuel as [|fuel IH]; intros r Hr Hri Hf; [lia|]. cbn [advance_restart].
  destruct (Z.ltb_spec (Z.of_nat r + 1) (Z.of_nat R)) as [H|H]; cbn [andb]; [|by exists r; split_and!; [..|right; lia]].
  replace (Z.of_nat r + 1) with (Z.of_nat (S r)) by lia. rewrite restart_point by lia.
  pose proof (restart_entry (S r) ltac:(lia)) as Hs. pose proof (off_le_inv i (S r * n) Hi ltac:(lia)) as Ho.
  destruct (Z.ltb_spec (off (S r * n)) (off i)) as [H'|H'].
  - apply IH; [lia|..|lia]. destruct (decide (i <= S r * n)%nat) as [H2|]; [apply Ho in H2|]; lia.
  - exists r. split_and!; try done. left. apply Ho. lia.
Qed.

Local Lemma last_restart : (N <= R * n)%nat.
Proof.
  unfold R, num_restarts_of. pose proof (Nat.div_mod_eq (N - 1) n). pose proof (Nat.mod_upper_bound (N - 1) n ltac:(lia)). nia.
Qed.

(** The key of an entry is rebuilt from the prefix of the key before it. *)
Local Lemma pending_prefix it i k shared :
  pending it i -> shared_with shared i k -> (shared <= length (it_key it))%nat /\ take shared (it_key it) = take shared k.
Proof.
  intros (_ & _ & _ & Hk & _) [->|(j & k' & v' & -> & Hm & E' & ->)]; [split; [lia|done]|].
  destruct Hk as [?|(j' & k2 & v2 & [= <-] & E2 & ->)]; [done|]. rewrite E' in E2. injection E2 as <- <-.
  split; [pose proof (common_prefix_le k' k); lia|apply common_prefix_take].
Qed.

(** What the block holds at the offset of entry [i]. *)
Local Lemma entry_at i k v :
  es !! i = Some (k, v) -> exists p shared,
    DecodeEntry data (off i) (slen body) = Some (p, Z.of_nat shared, Z.of_nat (length k - shared), slen v) /\
    read_bytes data p (Z.of_nat (length k - shared)) = Some (drop shared k) /\
    read_bytes data (p + Z.of_nat (length k - shared)) (slen v) = Some v /\
    p + Z.of_nat (length k - shared) + slen v = off (S i) /\ shared_with shared i k.
Proof.
  intros E. destruct (entry_split i k v E) as (pre & sh & post & Eb & Ep & Es & Hle & Hk & Hs). pose proof body_bound.
  exists (slen (pre ++ entry_header sh k v)), sh.
  assert (exists tail, data = (pre ++ entry_header sh k v) ++ drop sh k ++ v ++ tail) as [tail Ed].
  { eexists. rewrite data_eq, Eb. unfold entry_bytes. by rewrite <-!app_assoc. }
  assert (slen (pre ++ entry_header sh k v) + Z.of_nat (length k - sh) = slen ((pre ++ entry_header sh k v) ++ drop sh k)) as Ev
    by (rewrite (length_app (_ ++ _)), length_drop; lia).
  split_and!; [..|done].
  - rewrite data_eq, <-Ep, Eb. apply DecodeEntry_entry; [done|done|]. rewrite <-Eb. lia.
  - rewrite Ed, <-(length_drop k sh). apply read_bytes_app.
  - rewrite Ev, Ed, app_assoc. apply read_bytes_app.
  - rewrite Ev, Es, <-Ep. unfold entry_bytes. rewrite !length_app. lia.
Qed.

Lemma ParseNextKey_spec it i :
  pending it i -> exists it', ParseNextKey data (slen body) (Z.of_nat R) it = Some (bool_decide (i < N)%nat, it') /\ positioned it' i.
Proof.
  intros Hp. pose proof Hp as ((o & l & Hv & Eo) & Hst & Hi & _ & (r & Hr & HrR & Hri)). pose proof body_bound as Hb.
  pose proof (off_range i Hi) as Hoff. unfold ParseNextKey, NextEntryOffset. rewrite Hv. cbn [mbind option_bind].
  rewrite Eo, (wrap_small 32) by (unfold in_u; lia).
  destruct (es !! i) as [[k v]|] eqn:E.
  - assert (i < N)%nat as HiN by (by apply lookup_lt_Some in E). rewrite bool_decide_true by done.
    pose proof (off_lt i N HiN ltac:(lia)) as Hlt. rewrite off_N in Hlt. rewrite (proj2 (Z.leb_gt _ _)) by lia.
    destruct (entry_at i k v E) as (p & sh & -> & Hkey & Hval & Es & Hs).
    destruct (pending_prefix it i k sh Hp Hs) as [Hkl Hkp].
    rewrite (proj2 (Z.ltb_ge _ _)), Hkey by lia. cbn [mbind option_bind]. rewrite !Nat2Z.id, Hkp, take_drop, Hr.
    destruct (advance_restart_spec R i r Hi HrR Hri ltac:(lia)) as (r' & -> & Hr'R & Hr'i & Hr').
    eexists. split; [done|]. split; [done|]. rewrite E. cbn [it_current it_key it_value it_restart_index].
    split_and!; try done; [by eauto|].
    exists r'. pose proof last_restart. destruct Hr' as [?|E']; [|rewrite E']; split_and!; try done; lia.
  - apply lookup_ge_None in E. assert (i = N) as -> by (unfold N in *; lia). rewrite bool_decide_false by lia.
    rewrite off_N, (proj2 (Z.leb_le _ _)) by lia. eexists. split; [done|]. split; [done|].
    rewrite (proj2 (lookup_ge_None es N)) by done. done.
Qed.

Lemma Iter_Next_spec it i :
  (i < N)%nat -> positioned it i -> exists it', Iter_Next data (slen body) (Z.of_nat R) it = Some it' /\ positioned it' (S i).
Proof.
  intros Hi Hp. destruct (ParseNextKey_spec it (S i)) as (it' & E & H); [by apply positioned_next|].
  exists it'. split; [|done]. unfold Iter_Next. by rewrite E.
Qed.

Lemma Iter_SeekToFirst_spec it :
  it_status it = OK -> exists it', Iter_SeekToFirst data (slen body) (Z.of_nat R) it = Some it' /\ positioned it' 0.
Proof.
  intros Hst. destruct (ParseNextKey_spec _ _ (restart_pending it 0 ltac:(unfold R, num_restarts_of; lia) Hst)) as (it' & E & H).
  exists it'. split; [|done]. unfold Iter_SeekToFirst. change 0 with (Z.of_nat 0). by rewrite E.
Qed.

(** Every entry takes a byte, so there is fuel for all of them. *)
Local Lemma scan_fuel_enough i : (i <= N)%nat -> (N < scan_fuel (slen body) + i)%nat.
Proof.
  intros Hi. enough (forall j, (j <= N)%nat -> Z.of_nat j <= off j) as H.
  { specialize (H N ltac:(lia)). rewrite off_N in H. unfold scan_fuel. lia. }
  intros j. induction j as [|j IH]; intros Hj; [unfold off, off_of; lia|].
  pose proof (off_lt j (S j) ltac:(lia) Hj). specialize (IH ltac:(lia)). lia.
Qed.

Local Lemma positioned_NextEntryOffset it i : (i < N)%nat -> positioned it i -> NextEntryOffset it = Some (off (S i)).
Proof.
  intros Hi [_ H]. destruct (es !! i) as [[k v]|] eqn:E; [|by apply lookup_ge_None in E; unfold N in *; lia].
  destruct H as (_ & _ & (o & Ho & Eo) & _). unfold NextEntryOffset. rewrite Ho. cbn [mbind option_bind]. rewrite Eo.
  f_equal. apply (wrap_small 32). pose proof body_bound. pose proof (off_range (S i) ltac:(lia)). unfold in_u. lia.
Qed.

Local Lemma parse_until_spec fuel it i j :
  pending it i -> (i <= j < N)%nat -> (j < fuel + i)%nat ->
  exists it', parse_until data (slen body) (Z.of_nat R) fuel (off (S j)) it = Some it' /\ positioned it' j.
Proof.
  revert it i. induction fuel as [|fuel IH]; intros it i Hp Hij Hf; [lia|]. cbn [parse_until].
  destruct (ParseNextKey_spec it i Hp) as (it1 & -> & H1). cbn [mbind option_bind]. rewrite bool_decide_true by lia.
  rewrite (positioned_NextEntryOffset it1 i) by (done || lia). cbn [mbind option_bind].
  destruct (Z.ltb_spec (off (S i)) (off (S j))) as [H|H].
  - pose proof (off_le_inv (S j) (S i) ltac:(lia) ltac:(lia)). apply (IH it1 (S i)); [apply positioned_next; [lia|done]|lia|lia].
  - apply off_le_inv in H; [|lia|lia]. assert (i = j) as -> by lia. eauto.
Qed.

Lemma Iter_SeekToLast_spec it :
  it_status it = OK -> exists it', Iter_SeekToLast data (slen body) (Z.of_nat R) it = Some it' /\ positioned it' (N - 1).
Proof.
  intros Hst. unfold Iter_SeekToLast. assert (0 < R)%nat as HR by (unfold R, num_restarts_of; lia).
  replace (Z.of_nat R - 1) with (Z.of_nat (R - 1)) by lia. pose proof (restart_pending it (R - 1) ltac:(lia) Hst) as Hp.
  pose proof (restart_entry (R - 1) ltac:(lia)) as He. destruct (decide (N = 0)%nat) as [E0|E0].
  - destruct (ParseNextKey_spec _ _ Hp) as (it' & E & H). exists it'. unfold scan_fuel. cbn [parse_until]. rewrite E.
    cbn [mbind option_bind]. rewrite bool_decide_false by (rewrite E0; apply Nat.nlt_0_r). split; [done|].
    destruct He as [He|[He _]]; [rewrite E0 in He; by apply Nat.nlt_0_r in He|]. rewrite He in H. by rewrite E0.
  - pose proof (parse_until_spec (scan_fuel (slen body)) _ _ (N - 1) Hp ltac:(lia)) as Hl.
    replace (S (N - 1)) with N in Hl by lia. rewrite off_N in Hl. apply Hl. pose proof (scan_fuel_enough 0 ltac:(lia)). nia.
Qed.

(** The restart point that [Prev] starts from is before the entry. *)
Local Lemma Prev_restart_spec i r fuel :
  (i < N)%nat -> (r < R)%nat -> (r * n <= i)%nat -> (2 <= fuel)%nat \/ (r = 0 /\ 1 <= fuel)%nat ->
  match Prev_restart data (slen body) fuel (off i) (Z.of_nat r) with
  | None => i = 0%nat
  | Some index => exists j, index = Z.of_nat j /\ (j < R)%nat /\ (j * n < i)%nat
  end.
Proof.
  intros Hi Hr Hri Hf. destruct fuel as [|fuel]; [lia|]. cbn [Prev_restart]. rewrite restart_point by done.
  destruct (Z.leb_spec (off i) (off (r * n))) as [H|H].
  - apply off_le_inv in H; [|lia|lia]. destruct (Z.eqb_spec (Z.of_nat r) 0) as [H0|H0]; [nia|].
    destruct fuel as [|fuel]; [lia|]. cbn [Prev_restart]. replace (Z.of_nat r - 1) with (Z.of_nat (r - 1)) by lia.
    rewrite restart_point by lia. pose proof (off_lt ((r - 1) * n) i ltac:(nia) ltac:(lia)).
    rewrite (proj2 (Z.leb_gt _ _)) by lia. exists (r - 1)%nat. split_and!; [done|lia|nia].
  - exists r. split_and!; [done|done|]. destruct (decide (r * n = i)%nat) as [E|]; [rewrite E in H|]; lia.
Qed.

Lemma Iter_Prev_spec it i :
  (i < N)%nat -> positioned it i ->
  exists it', Iter_Prev data (slen body) (Z.of_nat R) it = Some it' /\ positioned it' (prev_pos N i).
Proof.
  intros Hi [Hst H]. unfold Iter_Prev, prev_pos.
  destruct (es !! i) as [[k v]|] eqn:E; [|by apply lookup_ge_None in E; unfold N in *; lia].
  destruct H as (-> & _ & _ & _ & (r & -> & Hr & Hri)).
  pose proof (Prev_restart_spec i r (S (Z.to_nat (Z.of_nat r))) Hi Hr ltac:(lia) ltac:(lia)) as Hp.
  destruct (Prev_restart _ _ _ _ _) as [index|].
  - destruct Hp as (j & -> & HjR & Hj). rewrite decide_False by lia. 
    pose proof (parse_until_spec (scan_fuel (slen body)) _ (j * n) (i - 1) (restart_pending it j HjR Hst) ltac:(lia)) as Hl.
    replace (S (i - 1)) with i in Hl by lia. apply Hl. pose proof (scan_fuel_enough 0 ltac:(lia)). nia.
  - subst i. rewrite decide_True by done. eexists. split; [done|]. split; [done|].
    rewrite (proj2 (lookup_ge_None es N)) by done. done.
Qed.

Context (key : slice -> Prop) (cmp : Comparator) `{!ComparatorLaws key cmp} (Hkeys : Forall (fun e => key e.1) es)
  (Hsorted : sorted_entries cmp es) (target : slice) (Htarget : key target).

Let p := seek_pos cmp target es.

Local Lemma Seek_scan_spec fuel it i :
  pending it i -> (i <= p)%nat -> (N < fuel + i)%nat ->
  exists it', Seek_scan cmp data (slen body) (Z.of_nat R) fuel target it = Some it' /\ positioned it' p.
Proof.
  revert it i. induction fuel as [|fuel IH]; intros it i Hp Hi Hf; [pose proof (seek_pos_le cmp target es : (p <= N)%nat); lia|]. cbn [Seek_scan].
  destruct (ParseNextKey_spec it i Hp) as (it1 & -> & H1). cbn [mbind option_bind]. pose proof (seek_pos_le cmp target es : (p <= N)%nat).
  case_bool_decide as HiN; cbn [negb]; [|assert (i = p) as -> by lia; by eauto].
  pose proof H1 as [_ H2]. destruct (es !! i) as [[k v]|] eqn:E; [|by apply lookup_ge_None in E; unfold N in *; lia].
  destruct H2 as (_ & -> & _). pose proof (seek_pos_spec es target i k v Hkeys Hsorted Htarget E). destruct (Z.leb_spec 0 (Compare cmp k target)).
  - assert (i = p) as -> by lia. eauto.
  - apply (IH it1 (S i)); [by apply positioned_next|lia|lia].
Qed.

(** The binary search ends at a restart point before the position looked for. *)
Local Lemma Seek_search_spec fuel l r :
  (l <= r < R)%nat -> (l * n <= p)%nat -> (r < fuel + l)%nat ->
  exists j, Seek_search cmp data (slen body) fuel target (Z.of_nat l) (Z.of_nat r) = Some (Some (Z.of_nat j)) /\
    (j < R)%nat /\ (j * n <= p)%nat.
Proof.
  revert l r. induction fuel as [|fuel IH]; intros l r Hlr Hl Hf; [lia|]. cbn [Seek_search].
  destruct (Z.ltb_spec (Z.of_nat l) (Z.of_nat r)) as [H|H]; [|exists l; split_and!; [done|lia|done]].
  pose proof body_bound. rewrite (wrap_small 32) by (unfold in_u; lia).
  assert (exists m, (Z.of_nat l + Z.of_nat r + 1) / 2 = Z.of_nat m /\ (l < m <= r)%nat) as (m & -> & Hm).
  { exists ((l + r + 1) / 2)%nat. rewrite Nat2Z.inj_div. split; [f_equal; lia|].
    pose proof (Nat.div_mod_eq (l + r + 1) 2). pose proof (Nat.mod_upper_bound (l + r + 1) 2 ltac:(lia)). lia. }
  destruct (restart_entry m ltac:(lia)) as [HmN|]; [|lia]. rewrite restart_point by lia.
  destruct (lookup_lt_is_Some_2 es (m * n) HmN) as [[k v] E].
  destruct (entry_at _ _ _ E) as (q & sh & -> & Hr & _ & _ & Hs).
  assert (sh = 0%nat) as -> by (destruct Hs as [->|(? & ? & ? & _ & Hm0 & _)]; [done|by rewrite Nat.Div0.mod_mul in Hm0]).
  cbn [Z.of_nat Z.eqb negb]. rewrite Hr. cbn [mbind option_bind]. rewrite drop_0. pose proof (seek_pos_spec es target _ k v Hkeys Hsorted Htarget E).
  destruct (Z.ltb_spec (Compare cmp k target) 0).
  - apply IH; lia.
  - replace (Z.of_nat m - 1) with (Z.of_nat (m - 1)) by lia. apply IH; lia.
Qed.

Lemma Iter_Seek_spec it i :
  positioned it i -> exists it', Iter_Seek cmp data (slen body) (Z.of_nat R) target it = Some it' /\ positioned it' p.
Proof.
  intros Hp. pose proof Hp as [Hst H]. unfold Iter_Seek, Iter_Valid. assert (0 < R)%nat as HR by (unfold R, num_restarts_of; lia).
  assert (forall l r it', (l <= r < R)%nat -> (l * n <= p)%nat -> it_status it' = OK ->
    exists j, Seek_search cmp data (slen body) (S (Z.to_nat (Z.of_nat R))) target (Z.of_nat l) (Z.of_nat r) = Some (Some (Z.of_nat j)) /\
    exists it2, Seek_scan cmp data (slen body) (Z.of_nat R) (scan_fuel (slen body)) target
      (SeekToRestartPoint data (slen body) (Z.of_nat j) it') = Some it2 /\ positioned it2 p) as Hfresh.
  { intros l r it' Hlr Hl Hs. destruct (Seek_search_spec (S (Z.to_nat (Z.of_nat R))) l r Hlr Hl ltac:(lia)) as (j & -> & Hj & Hjp).
    exists j. split; [done|]. apply (Seek_scan_spec _ _ (j * n)); [by apply restart_pending|done|].
    pose proof (scan_fuel_enough 0 ltac:(lia)). nia. }
  destruct (es !! i) as [[k v]|] eqn:E.
  - destruct H as (-> & -> & _ & _ & (r & Hri & Hr & Hb)). assert (i < N)%nat as HiN by (by apply lookup_lt_Some in E).
    pose proof (off_lt i N HiN ltac:(lia)) as Hlt. rewrite off_N in Hlt. rewrite (proj2 (Z.ltb_lt _ _)) by lia. cbn [andb].
    pose proof (seek_pos_spec es target i k v Hkeys Hsorted Htarget E) as Hc. destruct (Z.eqb_spec (Compare cmp k target) 0) as [H0|H0].
    + exists it. split; [done|]. enough (p = i) as -> by done.
      apply compare_eq in H0 as <-; [|by eapply keys_lookup|done]. by eapply seek_pos_at.
    + destruct (Z.ltb_spec (Compare cmp k target) 0) as [Hneg|Hneg].
      * rewrite (proj2 (Z.ltb_ge 0 _)) by lia. replace (Z.of_nat R - 1) with (Z.of_nat (R - 1)) by lia. rewrite Hri.
        destruct (Hfresh r (R - 1)%nat it) as (j & -> & Hj); [lia|lia|done|]. cbn [mbind option_bind]. rewrite andb_true_r.
        destruct (Z.of_nat j =? Z.of_nat r); cbn [negb]; [|done].
        apply (Seek_scan_spec _ _ (S i)); [by apply positioned_next|lia|]. pose proof (scan_fuel_enough 0 ltac:(lia)). nia.
      * rewrite (proj2 (Z.ltb_lt 0 _)) by lia. rewrite Hri. change 0 with (Z.of_nat 0) at 1.
        destruct (Hfresh 0%nat r it) as (j & -> & Hj); [lia|lia|done|]. cbn [mbind option_bind]. by rewrite andb_false_r.
  - destruct H as (-> & -> & Hidx). rewrite Z.ltb_irrefl. cbn [andb]. replace (Z.of_nat R - 1) with (Z.of_nat (R - 1)) by lia.
    change (Seek_search cmp data (slen body) (S (Z.to_nat (Z.of_nat R))) target 0) with
      (Seek_search cmp data (slen body) (S (Z.to_nat (Z.of_nat R))) target (Z.of_nat 0)).
    destruct (Hfresh 0%nat (R - 1)%nat it) as (j & -> & Hj); [lia|lia|done|]. cbn [mbind option_bind]. by rewrite andb_false_r.
Qed.
End iterate.

(** * The iterator of a built block *)

(** The states of the iterator of the block made from [es] at the position [i]. *)
Definition block_pos (n : nat) (es : list (slice * slice)) (b : BlockIterator) (i : nat) : Prop :=
  exists it, b = BlockIter (BlockBuilder_Finish (build n es)).1 (slen (concat (chunks n 0 [] es)))
      (Z.of_nat (num_restarts_of n (length es))) it /\ positioned n es it i.

Lemma on_block_spec n es e f b i j :
  block_pos n es b i ->
  (forall it, positioned n es it i -> exists it', f (BlockBuilder_Finish (build n es)).1 (slen (concat (chunks n 0 [] es)))
     (Z.of_nat (num_restarts_of n (length es))) it = Some it' /\ positioned n es it' j) ->
  exists b', on_block e f b = Some b' /\ block_pos n es b' j.
Proof. intros (it & -> & Hp) Hf. destruct (Hf it Hp) as (it' & E & Hp'). cbn [on_block]. rewrite E. eexists. split; [done|]. by exists it'. Qed.

Lemma Block_iter_laws (n : nat) (es : list (slice * slice)) (key : slice -> Prop) (cmp : Comparator) `{!ComparatorLaws key cmp} :
  (1 <= n)%nat -> sizes_ok n es -> Forall (fun e => key e.1) es -> sorted_entries cmp es ->
  IterLaws (Block_ops cmp) cmp key es (block_pos n es).
Proof.
  intros Hn Hok Hk Hs. assert (forall it i, positioned n es it i -> (i <= length es)%nat /\
    Iter_Valid (slen (concat (chunks n 0 [] es))) it = bool_decide (i < length es)%nat) as Hpos.
  { intros it i [_ H]. unfold Iter_Valid. destruct (es !! i) as [[k v]|] eqn:E.
    - destruct H as (-> & _). apply lookup_lt_Some in E. rewrite bool_decide_true by done. split; [lia|]. apply Z.ltb_lt.
      rewrite <-off_of_all. by apply off_lt.
    - destruct H as (-> & -> & _). rewrite bool_decide_false by lia. split; [lia|]. apply Z.ltb_irrefl. }
  split.
  - intros b i (it & -> & Hp). by apply (Hpos it).
  - intros b i (it & -> & Hp). by apply (Hpos it).
  - intros b i k v (it & -> & _ & Hp) E. rewrite E in Hp. by destruct Hp as (_ & Hk0 & _).
  - intros b i k v (it & -> & _ & Hp) E. rewrite E in Hp. by destruct Hp as (_ & _ & _ & Hv0 & _).
  - by intros b i (it & -> & Hst & _).
  - intros b i t Hp Ht. apply (on_block_spec n es _ _ b i); [done|]. intros it H.
    exact (Iter_Seek_spec n Hn es Hok key cmp Hk Hs t Ht it i H).
  - intros b i Hp. apply (on_block_spec n es _ _ b i); [done|]. intros it [Hst _]. by apply Iter_SeekToFirst_spec.
  - intros b i Hp. apply (on_block_spec n es _ _ b i); [done|]. intros it [Hst _]. by apply Iter_SeekToLast_spec.
  - intros b i Hp Hi. apply (on_block_spec n es _ _ b i); [done|]. intros it H. by apply Iter_Next_spec.
  - intros b i Hp Hi. apply (on_block_spec n es _ _ b i); [done|]. intros it H. by apply Iter_Prev_spec.
Qed.

Lemma NewIterator_pos n es :
  (1 <= n)%nat -> sizes_ok n es -> block_pos n es (Block_NewIterator (NewBlock (BlockBuilder_Finish (build n es)).1)) (length es).
Proof.
  intros Hn Hok. rewrite NewBlock_built by done. eexists. split; [done|]. split; [done|].
  by rewrite (proj2 (lookup_ge_None es (length es))) by done.
Qed.

(** * Properties *)

(** C21. Let a [BlockBuilder] with a restart interval [n] >= 1 be given entries with increasing keys, of a block of less
    than 2^32 bytes.  Then the iterator of the [Block] that [Finish] returns is, after any calls that iterator.h allows,
    in any order, at the position in the list of entries that the specification says: it shows the key and the value of
    the entry there, or is not valid past the end, its status stays OK, and no call reads outside of the block or loops for
    ever.  In particular [Seek] finds the first key at or past the target wherever the iterator was. *)
Theorem block_iterator_refines (n : nat) (es : list (slice * slice)) (key : slice -> Prop) (cmp : Comparator)
    (L : ComparatorLaws key cmp) (ops : list IterOp) (i : nat) :
  (1 <= n)%nat -> sizes_ok n es -> Forall (fun e => key e.1) es -> sorted_entries cmp es ->
  Forall (op_key key) ops -> run_ops (spec_op cmp es) ops (length es) = Some i ->
  exists b, run_ops (iter_op (Block_ops cmp)) ops (Block_NewIterator (NewBlock (BlockBuilder_Finish (build n es)).1)) = Some b /\
    i_status (Block_ops cmp) b = OK /\ current (Block_ops cmp) b = es !! i.
Proof.
  intros Hn Hok Hk Hs Hops Hrun. pose proof (Block_iter_laws n es key cmp Hn Hok Hk Hs) as HL.
  destruct (run_ops_spec ops _ _ i (NewIterator_pos n es Hn Hok) Hops Hrun) as (b & E & Hp).
  exists b. split; [exact E|]. split; [by apply (pos_status b i)|by apply (pos_current b i)].
Qed.

Lemma block_iterator_refines_witness :
  let es := [(lit "apple", lit "1"); (lit "apply", lit "2"); (lit "banana", lit "3"); (lit "bandana", [])] in
  let ops := [OpSeek (lit "ap"); OpSeek (lit "ball"); OpPrev; OpNext; OpSeekToLast; OpSeek (lit "apply"); OpNext; OpNext] in
  exists b, run_ops (iter_op (Block_ops BytewiseComparator)) ops (Block_NewIterator (NewBlock (BlockBuilder_Finish (build 2 es)).1)) = Some b /\
    i_status (Block_ops BytewiseComparator) b = OK /\ current (Block_ops BytewiseComparator) b = Some (lit "bandana", []).
Proof.
  intros es ops.
  apply (block_iterator_refines 2 es any_key BytewiseComparator _ ops 3); [lia| | | | |reflexivity].
  - split; [by vm_compute|]. repeat constructor.
  - repeat constructor.
  - repeat constructor; by vm_compute.
  - repeat constructor.
Defined.

(** C40. [DecodeEntry] adds the two lengths of an entry in 32 bits.  For any entry header of a block shorter than 4GB, it
    accepts the entry exactly if the sum modulo 2^32 is at most the number of bytes that follow the header.  So it also
    accepts an entry whose lengths go beyond those bytes if the sum wraps around; its comment says that it will not
    dereference past the limit, but then [ParseNextKey] copies the key from outside of the block, or gives a value that
    lies outside of it. *)
Theorem DecodeEntry_overflow data p limit num_restarts shared non_shared value_length rest (it : Iter) :
  is_u32 shared -> is_u32 non_shared -> is_u32 value_length -> 0 <= p <= limit -> limit <= slen data < 2 ^ 32 ->
  take (Z.to_nat (limit - p)) (drop (Z.to_nat p) data) = EncodeVarint32 shared ++ EncodeVarint32 non_shared ++ EncodeVarint32 value_length ++ rest ->
  DecodeEntry data p limit = (if u32 (non_shared + value_length) <=? slen rest then Some (limit - slen rest, shared, non_shared, value_length) else None) /\
  (slen rest < non_shared + value_length -> u32 (non_shared + value_length) <= slen rest ->
   NextEntryOffset it = Some p -> p < limit -> shared <= slen (it_key it) ->
   match ParseNextKey data limit num_restarts it with
   | None => True
   | Some (valid, it') => valid = true /\ Iter_value data it' = None
   end).
Proof.
  intros Ha Hb Hc Hp Hl Hs. pose proof (f_equal length Hs) as Ls. rewrite length_take, length_drop, !length_app in Ls.
  assert (is_u32 (slen rest)) as Hr by (unfold is_u32, in_u; lia). rewrite (DecodeEntry_header _ _ _ _ _ _ _ Ha Hb Hc Hp (proj1 Hl) Hs).
  rewrite (wrap_small 32 (slen rest)) by done. split.
  { by destruct (Z.ltb_spec (slen rest) (u32 (non_shared + value_length))), (Z.leb_spec (u32 (non_shared + value_length)) (slen rest)); try lia. }
  intros Hgt Hle Hn Hlt Hk. unfold ParseNextKey. rewrite Hn. cbn [mbind option_bind]. rewrite (proj2 (Z.leb_gt _ _)) by lia.
  rewrite (DecodeEntry_header _ _ _ _ _ _ _ Ha Hb Hc Hp (proj1 Hl) Hs), (wrap_small 32 (slen rest)) by done.
  rewrite !(proj2 (Z.ltb_ge _ _)) by lia. destruct (read_bytes _ _ _) as [delta|]; [|done]. split; [done|].
  unfold Iter_value, read_bytes. cbn [it_value mbind option_bind].
  assert (2 ^ 32 <= non_shared + value_length) as Hw.
  { destruct (decide (non_shared + value_length < 2 ^ 32)) as [H|]; [|lia]. rewrite (wrap_small 32) in Hle by (unfold is_u32, in_u in *; lia). lia. }
  rewrite (proj2 (Z.leb_gt (limit - slen rest + non_shared + value_length) _)) by lia. by rewrite andb_false_r.
Qed.

Lemma DecodeEntry_overflow_witness :
  let contents := [x00; x01; xff; xff; xff; xff; x0f; x61] ++ EncodeFixed32 0 ++ EncodeFixed32 1 in
  Block_NewIterator (NewBlock contents) = BlockIter contents 8 1 (NewIter 8 1) /\
  DecodeEntry contents 0 8 = Some (7, 0, 1, 2 ^ 32 - 1) /\
  exists it, Iter_SeekToFirst contents 8 1 (NewIter 8 1) = Some it /\ Iter_Valid 8 it = true /\ it_key it = [x61] /\ Iter_value contents it = None.
Proof.
  intros contents. split; [by vm_compute|].
  destruct (DecodeEntry_overflow contents 0 8 1 0 1 (2 ^ 32 - 1) [x61] (SeekToRestartPoint contents 8 0 (NewIter 8 1))) as [E H];
    [unfold is_u32, in_u; lia..|by vm_compute|by vm_compute|]. split; [rewrite E; by vm_compute|]. clear E.
  unfold Iter_SeekToFirst. destruct (ParseNextKey _ _ _ _) as [[valid it]|] eqn:Ep; [|vm_compute in Ep; discriminate Ep].
  exists it. split; [done|]. assert (Iter_Valid 8 it = true /\ it_key it = [x61]) as [Hv Hk] by (vm_compute in Ep; injection Ep as <- <-; by vm_compute).
  split; [exact Hv|]. split; [exact Hk|]. apply H; by vm_compute.
Defined.
