(* ===== verification/Merger.v ===== *)
(** Merger: table/merger.cc, an iterator over the union of the entries of other iterators in the order of a comparator, over
    any children that keep the promises of the interface. *)

From Stdlib Require Import Strings.Byte Strings.String.
From S2P Require Import Prelude Coding Comparator DbFormat Status Iterator Block.

(** * [MergingIterator] *)

Inductive Direction := kForward | kReverse.

#[export] Instance Direction_eq_dec : EqDecision Direction.
Proof. solve_decision. Defined.

Section MergingIterator.
Context {A : Type} (ops : IterOps A) (cmp : Comparator).

(** [children_] and [n_] are the list of the children, [current_] the index of one of them. *)
Record MergingIterator := MkMerging {
  children_ : list (IteratorWrapper A);
  current_ : option nat;
  direction_ : Direction;
}.

Definition NewMerging (children : list A) : MergingIterator :=
  MkMerging (map (fun c => NewWrapper ops (Some c)) children) None kForward.

(** [for (int i = 0; i < n_; i++)], with the index of the first child. *)
Fixpoint for_children (f : nat -> IteratorWrapper A -> option (IteratorWrapper A)) (i : nat) (l : list (IteratorWrapper A)) :
    option (list (IteratorWrapper A)) :=
  match l with
  | [] => Some []
  | w :: l => w ← f i w; l ← for_children f (S i) l; Some (w :: l)
  end.

(** The choice of the loops of [FindSmallest] and [FindLargest] between the child found so far and child [i]. *)
Definition find_step (better : Z -> bool) (best : option (nat * slice)) (iw : nat * IteratorWrapper A) : option (nat * slice) :=
  let '(i, child) := iw in
  if w_valid child then
    match best with
    | None => Some (i, w_key child)
    | Some (_, k) => if better (Compare cmp (w_key child) k) then Some (i, w_key child) else best
    end
  else best.

Definition indexed (l : list (IteratorWrapper A)) : list (nat * IteratorWrapper A) := imap (fun i w => (i, w)) l.

Definition FindSmallest (m : MergingIterator) : MergingIterator :=
  MkMerging (children_ m) (fst <$> foldl (find_step (fun c => c <? 0)) None (indexed (children_ m))) (direction_ m).

Definition FindLargest (m : MergingIterator) : MergingIterator :=
  MkMerging (children_ m) (fst <$> foldl (find_step (fun c => 0 <? c)) None (reverse (indexed (children_ m)))) (direction_ m).

Definition Merging_Valid (m : MergingIterator) : bool := bool_decide (is_Some (current_ m)).

(** [current_], which is not null when the iterator is valid. *)
Definition current_child (m : MergingIterator) : option (IteratorWrapper A) := c ← current_ m; children_ m !! c.

Definition Merging_key (m : MergingIterator) : slice := from_option w_key [] (current_child m).

Definition Merging_value (m : MergingIterator) : option slice := w ← current_child m; Wrapper_value ops w.

Definition Merging_SeekToFirst (m : MergingIterator) : option MergingIterator :=
  l ← for_children (fun _ => Wrapper_SeekToFirst ops) 0 (children_ m);
  Some (MkMerging l (current_ (FindSmallest (MkMerging l (current_ m) (direction_ m)))) kForward).

Definition Merging_SeekToLast (m : MergingIterator) : option MergingIterator :=
  l ← for_children (fun _ => Wrapper_SeekToLast ops) 0 (children_ m);
  Some (MkMerging l (current_ (FindLargest (MkMerging l (current_ m) (direction_ m)))) kReverse).

Definition Merging_Seek (target : slice) (m : MergingIterator) : option MergingIterator :=
  l ← for_children (fun _ => Wrapper_Seek ops target) 0 (children_ m);
  Some (MkMerging l (current_ (FindSmallest (MkMerging l (current_ m) (direction_ m)))) kForward).

(** A child that is not the current one, moved behind [key]. *)
Definition move_after (key : slice) (child : IteratorWrapper A) : option (IteratorWrapper A) :=
  child ← Wrapper_Seek ops key child;
  if w_valid child && (Compare cmp key (w_key child) =? 0) then Wrapper_Next ops child else Some child.

(** ... and moved before it. *)
Definition move_before (key : slice) (child : IteratorWrapper A) : option (IteratorWrapper A) :=
  child ← Wrapper_Seek ops key child;
  if w_valid child then Wrapper_Prev ops child else Wrapper_SeekToLast ops child.

(** The loop that changes the direction. *)
Definition turn (d : Direction) (m : MergingIterator) : option MergingIterator :=
  if decide (direction_ m = d) then Some m
  else
    let move := match d with kForward => move_after | kReverse => move_before end in
    l ← for_children (fun i child => if decide (current_ m = Some i) then Some child else move (Merging_key m) child) 0 (children_ m);
    Some (MkMerging l (current_ m) d).

(** [current_->f()]. *)
Definition on_current (f : IteratorWrapper A -> option (IteratorWrapper A)) (m : MergingIterator) : option MergingIterator :=
  c ← current_ m;
  w ← children_ m !! c;
  w ← f w;
  Some (MkMerging (<[c := w]> (children_ m)) (current_ m) (direction_ m)).

Definition Merging_Next (m : MergingIterator) : option MergingIterator :=
  m ← turn kForward m; m ← on_current (Wrapper_Next ops) m; Some (FindSmallest m).

Definition Merging_Prev (m : MergingIterator) : option MergingIterator :=
  m ← turn kReverse m; m ← on_current (Wrapper_Prev ops) m; Some (FindLargest m).

(** The first status that is not OK, or that of the last child. *)
Fixpoint first_error (l : list (IteratorWrapper A)) (status : Status) : Status :=
  match l with
  | [] => status
  | w :: l => let status := Wrapper_status ops w in if ok status then first_error l status else status
  end.

Definition Merging_status (m : MergingIterator) : Status := first_error (children_ m) OK.

Definition Merging_ops : IterOps MergingIterator :=
  MkIterOps Merging_Valid Merging_key Merging_value Merging_status
    Merging_Seek Merging_SeekToFirst Merging_SeekToLast Merging_Next Merging_Prev.
End MergingIterator.

Arguments MergingIterator : clear implicits.
Arguments MkMerging {A}.
Arguments children_ {A}.
Arguments current_ {A}.
Arguments direction_ {A}.

(** * [NewMergingIterator] *)

(** The iterator that it returns: an empty one, the only child, or a merging one. *)
Inductive MergedIterator (A : Type) :=
  | MergedEmpty (s : Status)
  | MergedOne (a : A)
  | MergedMany (m : MergingIterator A).

Arguments MergedEmpty {A}.
Arguments MergedOne {A}.
Arguments MergedMany {A}.

Definition NewMergingIterator {A} (ops : IterOps A) (children : list A) : MergedIterator A :=
  match children with
  | [] => MergedEmpty NewEmptyIterator
  | [a] => MergedOne a
  | _ => MergedMany (NewMerging ops children)
  end.

(** The virtual calls. *)
Definition Merged_call {A} (ops : IterOps A) (cmp : Comparator) (f : forall B, IterOps B -> B -> option B) (m : MergedIterator A) :
    option (MergedIterator A) :=
  match m with
  | MergedEmpty s => MergedEmpty <$> f _ EmptyIterator_ops s
  | MergedOne a => MergedOne <$> f _ ops a
  | MergedMany m => MergedMany <$> f _ (Merging_ops ops cmp) m
  end.

Definition Merged_get {A R} (ops : IterOps A) (cmp : Comparator) (f : forall B, IterOps B -> B -> R) (m : MergedIterator A) : R :=
  match m with
  | MergedEmpty s => f _ EmptyIterator_ops s
  | MergedOne a => f _ ops a
  | MergedMany m => f _ (Merging_ops ops cmp) m
  end.

Definition Merged_ops {A} (ops : IterOps A) (cmp : Comparator) : IterOps (MergedIterator A) :=
  MkIterOps (Merged_get ops cmp (@i_Valid)) (Merged_get ops cmp (@i_key)) (Merged_get ops cmp (@i_value)) (Merged_get ops cmp (@i_status))
    (fun t => Merged_call ops cmp (fun B o => i_Seek o t)) (Merged_call ops cmp (@i_SeekToFirst)) (Merged_call ops cmp (@i_SeekToLast))
    (Merged_call ops cmp (@i_Next)) (Merged_call ops cmp (@i_Prev)).

(** * Lemmas *)

Section lists.
Context {A : Type}.

Lemma for_children_spec (f : nat -> IteratorWrapper A -> option (IteratorWrapper A)) (P : nat -> IteratorWrapper A -> Prop) l i :
  (forall j w, l !! j = Some w -> exists w', f (i + j)%nat w = Some w' /\ P (i + j)%nat w') ->
  exists l', for_children f i l = Some l' /\ length l' = length l /\ forall j w, l' !! j = Some w -> P (i + j)%nat w.
Proof.
  revert i. induction l as [|w l IH]; intros i H; [by exists []|]. cbn [for_children].
  destruct (H 0%nat w eq_refl) as (w' & E & HP). rewrite Nat.add_0_r in E, HP. rewrite E. cbn [mbind option_bind].
  destruct (IH (S i)) as (l' & -> & Hl & Hall).
  { intros j w0 Ej. specialize (H (S j) w0 Ej). by rewrite Nat.add_succ_r in H. }
  exists (w' :: l'). split; [done|]. split; [cbn; lia|]. intros [|j] w0 Ej; cbn in Ej; [injection Ej as <-; by rewrite Nat.add_0_r|].
  rewrite Nat.add_succ_r. exact (Hall j w0 Ej).
Qed.

Lemma elem_of_indexed (l : list (IteratorWrapper A)) i w : (i, w) ∈ indexed l <-> l !! i = Some w.
Proof.
  unfold indexed. rewrite elem_of_lookup_imap. split.
  - intros (j & w' & E & Hj). by injection E as <- <-.
  - intros E. by exists i, w.
Qed.

Section find.
Context (cmp : Comparator) (better : Z -> bool) (c : nat) (kc : slice).

(** Child [c] with key [kc] is better than a child with another key. *)
Definition beats (k : slice) : Prop := better (Compare cmp kc k) = true /\ better (Compare cmp k kc) = false.

Definition candidate (j : nat) (k : slice) : Prop := (j = c /\ k = kc) \/ beats k.

Lemma find_best (l : list (nat * IteratorWrapper A)) best :
  (forall j w, (j, w) ∈ l -> w_valid w = true -> candidate j (w_key w)) ->
  from_option (fun b => candidate b.1 b.2) True best ->
  best = Some (c, kc) \/ (exists w, (c, w) ∈ l /\ w_valid w = true /\ w_key w = kc) ->
  foldl (find_step cmp better) best l = Some (c, kc).
Proof.
  revert best. induction l as [|[j w] l IH]; intros best Hl Hb Hc; [destruct Hc as [Hc|(w & Hc & _)]; [done|by apply elem_of_nil in Hc]|].
  cbn [foldl]. pose proof (fun j w H => Hl j w (list_elem_of_further _ _ _ H)) as Hl'.
  pose proof (Hl j w (list_elem_of_here _ _)) as Hw. unfold find_step at 2. destruct (w_valid w) eqn:Ev.
  2:{ apply IH; [done..|]. destruct Hc as [Hc|(w' & [E|Hc]%elem_of_cons & Hc')]; [by left| |right; by exists w']. injection E as <- <-. destruct Hc' as [Hc' _]. by rewrite Ev in Hc'. }
  specialize (Hw eq_refl). destruct best as [[jb kb]|].
  2:{ apply IH; [done..|]. destruct Hc as [Hc|(w' & [E|Hc]%elem_of_cons & Hv' & Hk')]; [done| |right; by exists w']. injection E as <- <-. left. by rewrite Hk'. }
  cbn [from_option fst snd] in Hb. destruct (better (Compare cmp (w_key w) kb)) eqn:Eb; (apply IH; [done|done|]).
  - destruct Hc as [Hc|(w' & [E|Hc]%elem_of_cons & Hv' & Hk')]; [|injection E as <- <-; left; by rewrite Hk'|right; by exists w'].
    injection Hc as -> ->. destruct Hw as [[-> ->]|[_ Hw]]; [by left|by rewrite Hw in Eb].
  - destruct Hc as [Hc|(w' & [E|Hc]%elem_of_cons & Hv' & Hk')]; [by left| |right; by exists w']. injection E as <- <-.
    rewrite Hk' in Eb. destruct Hb as [[-> ->]|[Hb _]]; [by left|by rewrite Hb in Eb].
Qed.

Lemma find_none (l : list (nat * IteratorWrapper A)) :
  (forall j w, (j, w) ∈ l -> w_valid w = false) -> foldl (find_step cmp better) None l = None.
Proof.
  induction l as [|[j w] l IH]; intros H; [done|]. cbn [foldl find_step]. rewrite (H j w (list_elem_of_here _ _)).
  apply IH. intros j' w' H'. apply (H j' w'). by right.
Qed.
End find.
End lists.

(** ** The union of sorted lists *)

Lemma sorted_nodup_of {cmp : Comparator} {key : slice -> Prop} `{!ComparatorLaws key cmp} (es : list (slice * slice)) :
  Forall (fun e => key e.1) es -> sorted_entries cmp es -> NoDup es.
Proof.
  intros Hk Hs. induction Hs as [|e l Hl IH Hall]; [constructor|]. apply Forall_cons in Hk as [He Hk]. constructor; [|by apply IH].
  intros Hin. pose proof (proj1 (Forall_forall _ _) Hall e Hin) as H. cbn beta in H. rewrite compare_refl in H by done. lia.
Qed.

Section merged.
Context {cmp : Comparator} {key : slice -> Prop} `{!ComparatorLaws key cmp}.
Context {es : list (slice * slice)} {ess : list (list (slice * slice))} (Hperm : es ≡ₚ concat ess).
Context (Hkeys : Forall (fun e => key e.1) es) (Hsorted : sorted_entries cmp es) (Hchildren : Forall (sorted_entries cmp) ess).

Lemma sorted_nodup : NoDup es.
Proof. by apply (sorted_nodup_of es). Qed.

Lemma elem_child x : x ∈ es <-> exists j l, ess !! j = Some l /\ x ∈ l.
Proof.
  rewrite Hperm. split.
  - intros H. apply list_elem_of_In, in_concat in H as (l & Hl & Hx). apply list_elem_of_In in Hl, Hx.
    apply list_elem_of_lookup in Hl as [j Hj]. by exists j, l.
  - intros (j & l & Hj & Hx). apply list_elem_of_In, in_concat. exists l. split; apply list_elem_of_In; [by eapply list_elem_of_lookup_2|done].
Qed.

(** An entry is in one child. *)
Lemma child_unique x j l j' l' : ess !! j = Some l -> x ∈ l -> ess !! j' = Some l' -> x ∈ l' -> j = j'.
Proof.
  pose proof sorted_nodup as Hnd. rewrite Hperm in Hnd. clear Hperm Hchildren. revert j j'. induction ess as [|l0 ls IH]; intros j j' Ej Hx Ej' Hx'; [done|].
  cbn [concat] in Hnd. apply NoDup_app in Hnd as (_ & Hdis & Hnd).
  assert (forall j l, ls !! j = Some l -> x ∈ l -> x ∈ concat ls) as Hin.
  { intros k lk Ek Hk. apply list_elem_of_In, in_concat. exists lk. split; apply list_elem_of_In; [by eapply list_elem_of_lookup_2|done]. }
  destruct j as [|j], j' as [|j']; cbn in Ej, Ej'; [done|injection Ej as ->|injection Ej' as ->|f_equal; by eapply IH].
  - exfalso. exact (Hdis x Hx (Hin _ _ Ej' Hx')).
  - exfalso. exact (Hdis x Hx' (Hin _ _ Ej Hx)).
Qed.

Lemma child_sorted j l : ess !! j = Some l -> Forall (fun e => key e.1) l /\ sorted_entries cmp l.
Proof.
  intros E. split; [|exact (proj1 (Forall_lookup _ _) Hchildren j l E)]. apply Forall_forall. intros x Hx.
  apply (proj1 (Forall_forall _ _) Hkeys). apply elem_child. by exists j, l.
Qed.

Lemma elem_take_lt i k x : es !! k = Some x -> x ∈ take i es <-> (k < i)%nat.
Proof.
  intros E. split.
  - intros [k' H]%list_elem_of_lookup. apply lookup_take_Some in H as [H Hk]. by rewrite (NoDup_lookup _ _ _ _ sorted_nodup E H).
  - intros Hk. apply (list_elem_of_lookup_2 _ k). apply lookup_take_Some. done.
Qed.

(** The position of a child before which are its entries among the first [i] of the union. *)
Definition is_cut (l : list (slice * slice)) (i p : nat) : Prop :=
  (p <= length l)%nat /\ forall q x, l !! q = Some x -> (q < p)%nat <-> x ∈ take i es.

Lemma cut_0 l : is_cut l 0 0.
Proof. split; [lia|]. intros q x _. rewrite take_0, elem_of_nil. lia. Qed.

Lemma cut_end j l : ess !! j = Some l -> is_cut l (length es) (length l).
Proof.
  intros E. split; [lia|]. intros q x Eq. rewrite take_ge by done. split; [|intros _; by apply lookup_lt_Some in Eq].
  intros _. apply elem_child. exists j, l. split; [done|by eapply list_elem_of_lookup_2].
Qed.

Lemma cut_seek j l t : ess !! j = Some l -> key t -> is_cut l (seek_pos cmp t es) (seek_pos cmp t l).
Proof.
  intros E Ht. destruct (child_sorted j l E) as [Hk Hs]. split; [apply seek_pos_le|]. intros q [k v] Eq.
  rewrite <-(seek_pos_spec l t q k v Hk Hs Ht Eq). assert ((k, v) ∈ es) as [r Er]%list_elem_of_lookup by (apply elem_child; exists j, l; split; [done|by eapply list_elem_of_lookup_2]).
  rewrite (elem_take_lt _ _ _ Er). exact (seek_pos_spec es t r k v Hkeys Hsorted Ht Er).
Qed.

Lemma cut_unique l i p p' : is_cut l i p -> is_cut l i p' -> p = p'.
Proof.
  intros [Hp H] [Hp' H']. destruct (Nat.lt_trichotomy p p') as [Hlt|[?|Hlt]]; [|done|].
  - destruct (lookup_lt_is_Some_2 l p ltac:(lia)) as [x E]. pose proof (H p x E). pose proof (H' p x E). assert (p < p)%nat by tauto. lia.
  - destruct (lookup_lt_is_Some_2 l p' ltac:(lia)) as [x E]. pose proof (H p' x E). pose proof (H' p' x E). assert (p' < p')%nat by tauto. lia.
Qed.

(** The entry behind the cut, and the one before it. *)
Lemma cut_after j l i p x : ess !! j = Some l -> is_cut l i p -> l !! p = Some x -> exists k, (i <= k)%nat /\ es !! k = Some x.
Proof.
  intros E [_ H] Ex. assert (x ∈ es) as [k Ek]%list_elem_of_lookup by (apply elem_child; exists j, l; split; [done|by eapply list_elem_of_lookup_2]).
  exists k. split; [|done]. specialize (H p x Ex). rewrite (elem_take_lt _ _ _ Ek) in H. lia.
Qed.

Lemma cut_before l i p x : is_cut l i (S p) -> l !! p = Some x -> exists k, (k < i)%nat /\ es !! k = Some x.
Proof.
  intros [_ H] Ex. specialize (H p x Ex). assert (x ∈ take i es) as [k Hk]%list_elem_of_lookup by (apply H; lia).
  apply lookup_take_Some in Hk as [Hk ?]. by exists k.
Qed.

Lemma cut_owner j l i p x : ess !! j = Some l -> is_cut l i p -> es !! i = Some x -> x ∈ l -> l !! p = Some x.
Proof.
  intros E Hcut Ei [q Hq]%list_elem_of_lookup. pose proof (proj2 Hcut q x Hq) as Hqp. rewrite (elem_take_lt _ _ _ Ei) in Hqp.
  destruct (decide (p = q)) as [->|Hne]; [done|]. destruct (lookup_lt_is_Some_2 l p) as [[k v] Ey]; [apply lookup_lt_Some in Hq; lia|]. exfalso.
  destruct x as [kx vx], (child_sorted j l E) as [_ Hs]. pose proof (sorted_lookup cmp l p q _ _ _ _ Hs ltac:(lia) Ey Hq) as Hlt.
  destruct (cut_after j l i p _ E Hcut Ey) as (r & Hr & Er). destruct (decide (r = i)) as [->|Hri].
  - rewrite Ei in Er. injection Er as <- <-. rewrite compare_refl in Hlt; [lia|]. exact (keys_lookup _ _ _ _ _ Hkeys Ei).
  - pose proof (sorted_lookup cmp es i r _ _ _ _ Hsorted ltac:(lia) Ei Er) as Hgt. apply compare_antisym in Hgt; [lia|exact (keys_lookup _ _ _ _ _ Hkeys Ei)|exact (keys_lookup _ _ _ _ _ Hkeys Er)].
Qed.

(** The next cut. *)
Lemma cut_S_other l i p x : is_cut l i p -> es !! i = Some x -> (x ∉ l) -> is_cut l (S i) p.
Proof.
  intros [Hp H] Ei Hx. split; [done|]. intros q y Eq. rewrite (H q y Eq), (take_S_r _ _ _ Ei), elem_of_app, list_elem_of_singleton.
  split; [by left|]. intros [?| ->]; [done|]. destruct Hx. by eapply list_elem_of_lookup_2.
Qed.

Lemma cut_S_owner j l i p x : ess !! j = Some l -> is_cut l i p -> es !! i = Some x -> l !! p = Some x -> is_cut l (S i) (S p).
Proof.
  intros E [Hp H] Ei Ex. split; [by apply lookup_lt_Some in Ex|]. intros q y Eq. rewrite (take_S_r _ _ _ Ei), elem_of_app, list_elem_of_singleton, <-(H q y Eq).
  split; [|intros [?| ->]; [lia|]].
  - intros Hq. destruct (decide (q = p)) as [->|]; [right; congruence|left; lia].
  - destruct (child_sorted j l E) as [Hk Hs]. assert (NoDup l) as Hnd by (by apply (sorted_nodup_of l)). rewrite (NoDup_lookup _ _ _ _ Hnd Eq Ex). lia.
Qed.
Lemma cut_exists j l i : ess !! j = Some l -> (i <= length es)%nat -> exists p, is_cut l i p.
Proof.
  intros E Hi. destruct (es !! i) as [[k v]|] eqn:Ei.
  - exists (seek_pos cmp k l). rewrite <-(seek_pos_at es i k v Hkeys Hsorted Ei). apply (cut_seek j); [done|]. exact (keys_lookup _ _ _ _ _ Hkeys Ei).
  - apply lookup_ge_None in Ei. exists (length l). replace i with (length es) by lia. by apply (cut_end j).
Qed.

(** The cut before. *)
Lemma cut_prev_owner j l i p x : ess !! j = Some l -> is_cut l (S i) p -> es !! i = Some x -> x ∈ l -> exists p', p = S p' /\ is_cut l i p' /\ l !! p' = Some x.
Proof.
  intros E Hp Ei Hx. destruct (cut_exists j l i E) as [p' Hp']; [apply lookup_lt_Some in Ei; lia|]. pose proof (cut_owner j l i p' x E Hp' Ei Hx) as Ex.
  exists p'. split; [|done]. exact (cut_unique _ _ _ _ Hp (cut_S_owner j l i p' x E Hp' Ei Ex)).
Qed.

Lemma cut_prev_other j l i p x : ess !! j = Some l -> is_cut l (S i) p -> es !! i = Some x -> (x ∉ l) -> is_cut l i p.
Proof.
  intros E Hp Ei Hx. destruct (cut_exists j l i E) as [p' Hp']; [apply lookup_lt_Some in Ei; lia|].
  by rewrite (cut_unique _ _ _ _ Hp (cut_S_other l i p' x Hp' Ei Hx)).
Qed.
End merged.

(** ** The merging iterator is an iterator over the union *)

Section laws.
Context {A : Type} {ops : IterOps A} {cmp : Comparator} {key : slice -> Prop} `{!ComparatorLaws key cmp}.
(** The keys that the children can be asked for. *)
Context {target : slice -> Prop} (Htarget : forall t, target t -> key t).
Context {es : list (slice * slice)} {ess : list (list (slice * slice))} (cpos : nat -> A -> nat -> Prop).
Context (HC : forall j l, ess !! j = Some l -> IterLaws ops cmp target l (cpos j)).
Context (Hperm : es ≡ₚ concat ess).
Context (Htargets : Forall (fun e => target e.1) es) (Hkeys : Forall (fun e => key e.1) es) (Hsorted : sorted_entries cmp es) (Hchildren : Forall (sorted_entries cmp) ess).

Abbreviation cut := (is_cut (es := es)).

(** The children are iterators, at positions that are as [R] says. *)
Definition holds_at (R : nat -> list (slice * slice) -> nat -> Prop) (cs : list (IteratorWrapper A)) : Prop :=
  length cs = length ess /\
  forall j l w, ess !! j = Some l -> cs !! j = Some w -> exists q, @wraps A l (cpos j) w q /\ R j l q.

(** Where the children that are not the current one are. *)
Definition beside (d : Direction) (l : list (slice * slice)) (p : nat) : nat :=
  match d with kForward => p | kReverse => prev_pos (length l) p end.

(** The position [i] of the union. *)
Definition merging_pos (m : MergingIterator A) (i : nat) : Prop :=
  (exists c l p x, current_ m = Some c /\ ess !! c = Some l /\ cut l i p /\ l !! p = Some x /\ es !! i = Some x /\
     holds_at (fun j l q => exists p, cut l i p /\ q = if decide (j = c) then p else beside (direction_ m) l p) (children_ m)) \/
  (current_ m = None /\ i = length es /\ holds_at (fun _ _ _ => True) (children_ m)).

Lemma holds_lookup R cs j w : holds_at R cs -> cs !! j = Some w -> exists l q, ess !! j = Some l /\ @wraps A l (cpos j) w q /\ R j l q.
Proof.
  intros [Hlen H] Ew. destruct (lookup_lt_is_Some_2 ess j) as [l El]; [rewrite <-Hlen; by apply lookup_lt_Some in Ew|].
  destruct (H j l w El Ew) as (q & Hq). by exists l, q.
Qed.

Lemma holds_child R cs j l : holds_at R cs -> ess !! j = Some l -> exists w q, cs !! j = Some w /\ @wraps A l (cpos j) w q /\ R j l q.
Proof.
  intros [Hlen H] El. destruct (lookup_lt_is_Some_2 cs j) as [w Ew]; [rewrite Hlen; by apply lookup_lt_Some in El|].
  destruct (H j l w El Ew) as (q & Hq). by exists w, q.
Qed.

Lemma holds_mono (R R' : nat -> list (slice * slice) -> nat -> Prop) cs :
  (forall j l q, ess !! j = Some l -> R j l q -> R' j l q) -> holds_at R cs -> holds_at R' cs.
Proof. intros HR [Hlen H]. split; [done|]. intros j l w El Ew. destruct (H j l w El Ew) as (q & Hw & Hq). exists q. auto. Qed.

(** One call for every child. *)
Lemma holds_for (R R' : nat -> list (slice * slice) -> nat -> Prop) f cs :
  holds_at R cs ->
  (forall j l w q, ess !! j = Some l -> @wraps A l (cpos j) w q -> R j l q -> exists w' q', f j w = Some w' /\ @wraps A l (cpos j) w' q' /\ R' j l q') ->
  exists cs', for_children f 0 cs = Some cs' /\ holds_at R' cs'.
Proof.
  intros H Hf. destruct (for_children_spec f (fun j w => forall l, ess !! j = Some l -> exists q, @wraps A l (cpos j) w q /\ R' j l q) cs 0) as (cs' & E & Hlen & Hall).
  - intros j w Ew. destruct (holds_lookup R cs j w H Ew) as (l & q & El & Hw & HR). destruct (Hf j l w q El Hw HR) as (w' & q' & Ef & Hw' & HR').
    exists w'. split; [exact Ef|]. intros l' El'. cbn in El'. rewrite El in El'. injection El' as <-. by exists q'.
  - exists cs'. split; [done|]. split; [rewrite Hlen; apply H|]. intros j l w El Ew. exact (Hall j w Ew l El).
Qed.

Lemma wraps_entry j l w q k v : ess !! j = Some l -> @wraps A l (cpos j) w q -> l !! q = Some (k, v) -> w_valid w = true /\ w_key w = k.
Proof.
  intros El Hw E. destruct Hw as (a & _ & _ & Hv & Hk). split; [|by eapply Hk]. rewrite Hv. apply bool_decide_eq_true. by apply lookup_lt_Some in E.
Qed.

Lemma wraps_shows j l w q : @wraps A l (cpos j) w q -> w_valid w = true -> exists k v, l !! q = Some (k, v) /\ w_key w = k.
Proof.
  intros (a & _ & _ & Hv & Hk) Hval. rewrite Hv in Hval. apply bool_decide_eq_true in Hval. destruct (lookup_lt_is_Some_2 l q Hval) as [[k v] E].
  exists k, v. split; [done|by eapply Hk].
Qed.

(** Whatever is found is at the position of the union. *)
Lemma find_at (better : Z -> bool) (order : list (nat * IteratorWrapper A)) cs (at_ : list (slice * slice) -> nat -> nat) i i' x :
  (forall j w, (j, w) ∈ order <-> cs !! j = Some w) ->
  holds_at (fun _ l q => exists p, cut l i p /\ q = at_ l p) cs ->
  es !! i' = Some x ->
  (forall j l p, ess !! j = Some l -> cut l i p -> x ∈ l -> l !! at_ l p = Some x) ->
  (forall j l p y, ess !! j = Some l -> cut l i p -> l !! at_ l p = Some y -> y = x \/ beats cmp better x.1 y.1) ->
  exists c l p, fst <$> foldl (find_step cmp better) None order = Some c /\ ess !! c = Some l /\ cut l i p /\ l !! at_ l p = Some x.
Proof.
  intros Hord Hh Ex Hown Hbeat. assert (x ∈ es) as (c & l & El & Hx)%(elem_child Hperm) by (by eapply list_elem_of_lookup_2).
  destruct (holds_child _ _ c l Hh El) as (w & q & Ew & Hw & p & Hp & ->). pose proof (Hown c l p El Hp Hx) as Exp.
  exists c, l, p. split; [|done]. destruct x as [k v]. destruct (wraps_entry c l w _ k v El Hw Exp) as [Hval Hkey].
  rewrite (find_best cmp better c k order None); [done| |done|].
  - intros j w' Hin Hv'. apply Hord in Hin. destruct (holds_lookup _ _ _ _ Hh Hin) as (l' & q' & El' & Hw' & p' & Hp' & ->).
    destruct (wraps_shows j l' w' _ Hw' Hv') as (k' & v' & E' & ->). destruct (Hbeat j l' p' _ El' Hp' E') as [Heq|Hb]; [|by right].
    injection Heq as -> ->. left. split; [|done]. symmetry. apply (child_unique Hperm Hkeys Hsorted (k, v) c l j l' El Hx El'). by eapply list_elem_of_lookup_2.
  - right. exists w. split; [by apply Hord|done].
Qed.

Lemma key_of k v : (k, v) ∈ es -> key k.
Proof. intros H. exact (proj1 (Forall_forall _ _) Hkeys _ H). Qed.

Lemma FindSmallest_spec cs c i :
  (i <= length es)%nat -> holds_at (fun _ l q => exists p, cut l i p /\ q = p) cs -> merging_pos (MkMerging cs (current_ (FindSmallest cmp (MkMerging cs c kForward))) kForward) i.
Proof.
  intros Hi Hh. unfold merging_pos, FindSmallest. cbn [current_ children_ direction_]. destruct (es !! i) as [[k v]|] eqn:Ei.
  - left. destruct (find_at (fun c => c <? 0) (indexed cs) cs (fun _ p => p) i i (k, v)) as (c' & l & p & Ef & El & Hp & Ex); try done.
    + intros j w. apply elem_of_indexed.
    + intros j l p El Hp Hx. by eapply (cut_owner Hperm Hkeys Hsorted Hchildren).
    + intros j l p [k' v'] El Hp Ey. destruct (cut_after Hperm Hkeys Hsorted j l i p _ El Hp Ey) as (r & Hr & Er). destruct (decide (r = i)) as [->|Hri]; [left; congruence|right].
      pose proof (sorted_lookup cmp es i r _ _ _ _ Hsorted ltac:(lia) Ei Er) as Hlt. cbn [fst]. unfold beats.
      pose proof (compare_antisym k k' ltac:(by eapply keys_lookup) ltac:(by eapply keys_lookup)) as Ha.
      destruct (Z.ltb_spec (Compare cmp k k') 0), (Z.ltb_spec (Compare cmp k' k) 0); split; try done; lia.
    + exists c', l, p, (k, v). split_and!; [done..|]. eapply holds_mono; [|exact Hh]. intros j l' q El' (p' & Hp' & ->). exists p'. split; [done|]. by case_decide.
  - right. apply lookup_ge_None in Ei. assert (i = length es) as -> by lia. split_and!; [|done|by eapply holds_mono; [|exact Hh]].
    rewrite find_none; [done|]. intros j w Hin. apply elem_of_indexed in Hin. destruct (holds_lookup _ _ _ _ Hh Hin) as (l & q & El & Hw & p & Hp & ->).
    rewrite (cut_unique _ _ _ _ Hp (cut_end Hperm j l El)) in Hw. rewrite (wraps_valid _ _ Hw). apply bool_decide_eq_false. lia.
Qed.

Lemma FindLargest_spec cs c i :
  (i <= length es)%nat -> holds_at (fun _ l q => exists p, cut l i p /\ q = prev_pos (length l) p) cs ->
  merging_pos (MkMerging cs (current_ (FindLargest cmp (MkMerging cs c kReverse))) kReverse) (prev_pos (length es) i).
Proof.
  intros Hi Hh. unfold merging_pos, FindLargest. cbn [current_ children_ direction_]. destruct i as [|i].
  - right. split_and!; [|done|by eapply holds_mono; [|exact Hh]]. rewrite find_none; [done|]. intros j w Hin. apply elem_of_reverse, elem_of_indexed in Hin.
    destruct (holds_lookup _ _ _ _ Hh Hin) as (l & q & El & Hw & p & Hp & ->). rewrite (cut_unique _ _ _ _ Hp (cut_0 l)) in Hw.
    rewrite (wraps_valid _ _ Hw). apply bool_decide_eq_false. unfold prev_pos. case_decide; lia.
  - left. assert (prev_pos (length es) (S i) = i) as -> by (unfold prev_pos; case_decide; lia). destruct (lookup_lt_is_Some_2 es i ltac:(lia)) as [[k v] Ei].
    assert (forall j l p, ess !! j = Some l -> cut l (S i) p -> (k, v) ∈ l -> exists p', p = S p' /\ cut l i p' /\ l !! p' = Some (k, v)) as Hown.
    { intros j l p El Hp Hx. by apply (cut_prev_owner Hperm Hkeys Hsorted Hchildren j). }
    destruct (find_at (fun c => 0 <? c) (reverse (indexed cs)) cs (fun l p => prev_pos (length l) p) (S i) i (k, v)) as (c' & l & p & Ef & El & Hp & Ex); try done.
    + intros j w. rewrite elem_of_reverse. apply elem_of_indexed.
    + intros j l p El Hp Hx. destruct (Hown j l p El Hp Hx) as (p' & -> & _ & E). unfold prev_pos. rewrite decide_False by lia. by replace (S p' - 1)%nat with p' by lia.
    + intros j l p [k' v'] El Hp Ey. unfold prev_pos in Ey. case_decide as Hd; [apply lookup_lt_Some in Ey; lia|]. destruct p as [|p]; [done|]. replace (S p - 1)%nat with p in Ey by lia.
      destruct (cut_before l (S i) p _ Hp Ey) as (r & Hr & Er). destruct (decide (r = i)) as [->|Hri]; [left; congruence|right].
      pose proof (sorted_lookup cmp es r i _ _ _ _ Hsorted ltac:(lia) Er Ei) as Hlt. cbn [fst]. unfold beats.
      pose proof (compare_antisym k' k ltac:(by eapply keys_lookup) ltac:(by eapply keys_lookup)) as Ha.
      destruct (Z.ltb_spec 0 (Compare cmp k k')), (Z.ltb_spec 0 (Compare cmp k' k)); split; try done; lia.
    + destruct (Hown c' l p El Hp ltac:(by eapply list_elem_of_lookup_2)) as (p' & -> & Hp' & Ex').
      exists c', l, p', (k, v). split_and!; [done..|]. eapply holds_mono; [|exact Hh]. intros j l' q El' (p0 & Hp0 & ->). case_decide as Hj.
      * subst j. rewrite El in El'. injection El' as <-. rewrite (cut_unique _ _ _ _ Hp0 Hp). exists p'. split; [done|]. unfold prev_pos. case_decide; lia.
      * exists p0. split; [|done]. apply (cut_prev_other Hperm Hkeys Hsorted Hchildren j l' i p0 (k, v)); try done.
        intros Hin. apply Hj. apply (child_unique Hperm Hkeys Hsorted (k, v) j l' c' l); try done. by eapply list_elem_of_lookup_2.
Qed.
Lemma merging_any m i : merging_pos m i -> holds_at (fun _ _ _ => True) (children_ m).
Proof. intros [(c & l & p & x & _ & _ & _ & _ & _ & H)|(_ & _ & H)]; [|done]. eapply holds_mono; [|exact H]. done. Qed.

(** A call of every child that leads all of them to known positions. *)
Lemma holds_call (f : A -> option A) (g : list (slice * slice) -> nat) cs R :
  holds_at R cs -> (forall j l a q, ess !! j = Some l -> cpos j a q -> exists a', f a = Some a' /\ cpos j a' (g l)) ->
  exists cs', for_children (fun _ => Wrapper_call ops f) 0 cs = Some cs' /\ holds_at (fun _ l q => q = g l) cs'.
Proof.
  intros H Hf. apply (holds_for R _ _ cs H). intros j l w q El Hw _. pose proof (HC j l El).
  destruct (wraps_call f w q (g l) Hw) as (w' & E & Hw'); [intros a Ha; by apply (Hf j l a q)|]. by exists w', (g l).
Qed.

Lemma Merging_SeekToFirst_spec m i : merging_pos m i -> exists m', Merging_SeekToFirst ops cmp m = Some m' /\ merging_pos m' 0%nat.
Proof.
  intros H%merging_any. destruct (holds_call (i_SeekToFirst ops) (fun _ => 0%nat) _ _ H) as (cs & E & Hcs).
  { intros j l a q El Ha. pose proof (HC j l El). by apply (pos_SeekToFirst a q). }
  unfold Merging_SeekToFirst, Wrapper_SeekToFirst. rewrite E. eexists. split; [done|]. apply (FindSmallest_spec cs (current_ m)); [lia|].
  eapply holds_mono; [|exact Hcs]. intros j l q El ->. exists 0%nat. split; [apply cut_0|done].
Qed.

Lemma Merging_SeekToLast_spec m i : merging_pos m i -> exists m', Merging_SeekToLast ops cmp m = Some m' /\ merging_pos m' (length es - 1)%nat.
Proof.
  intros H%merging_any. destruct (holds_call (i_SeekToLast ops) (fun l => length l - 1)%nat _ _ H) as (cs & E & Hcs).
  { intros j l a q El Ha. pose proof (HC j l El). by apply (pos_SeekToLast a q). }
  unfold Merging_SeekToLast, Wrapper_SeekToLast. rewrite E. eexists. split; [done|].
  replace (length es - 1)%nat with (prev_pos (length es) (length es)) by (unfold prev_pos; case_decide; lia).
  apply (FindLargest_spec cs (current_ m)); [lia|]. eapply holds_mono; [|exact Hcs]. intros j l q El ->. exists (length l). split; [by apply (cut_end Hperm j)|].
  unfold prev_pos. case_decide; lia.
Qed.

Lemma Merging_Seek_spec m i t : merging_pos m i -> target t -> exists m', Merging_Seek ops cmp t m = Some m' /\ merging_pos m' (seek_pos cmp t es).
Proof.
  intros H%merging_any Ht. destruct (holds_call (i_Seek ops t) (seek_pos cmp t) _ _ H) as (cs & E & Hcs).
  { intros j l a q El Ha. pose proof (HC j l El). by apply (pos_Seek a q). }
  unfold Merging_Seek, Wrapper_Seek. rewrite E. eexists. split; [done|]. apply (FindSmallest_spec cs (current_ m)); [apply seek_pos_le|].
  eapply holds_mono; [|exact Hcs]. intros j l q El ->. exists (seek_pos cmp t l). split; [by apply (cut_seek Hperm Hkeys Hsorted Hchildren j); [|apply Htarget]|done].
Qed.

(** ** Changes of direction *)

Lemma Merging_shows m i k v : merging_pos m i -> es !! i = Some (k, v) -> Merging_key m = k /\ Merging_value ops m = Some v.
Proof.
  intros [(c & l & p & x & Ec & El & Hp & Ex & Ei & Hh)|(Ec & -> & _)] E; [|apply lookup_lt_Some in E; lia]. rewrite Ei in E. injection E as ->.
  destruct (holds_child _ _ c l Hh El) as (w & q & Ew & Hw & p' & Hp' & ->). rewrite decide_True in Hw by done. rewrite (cut_unique _ _ _ _ Hp' Hp) in Hw.
  unfold Merging_key, Merging_value, current_child. rewrite Ec. cbn [mbind option_bind]. rewrite Ew. cbn [from_option mbind option_bind].
  pose proof (HC c l El). split; [exact (proj2 (wraps_entry c l w p k v El Hw Ex))|by eapply wraps_value].
Qed.

(** The position [d] of the children beside the current one. *)
Lemma turn_spec d m i c l p k v :
  current_ m = Some c -> ess !! c = Some l -> cut l i p -> l !! p = Some (k, v) -> es !! i = Some (k, v) ->
  holds_at (fun j l q => exists p, cut l i p /\ q = if decide (j = c) then p else beside (direction_ m) l p) (children_ m) ->
  exists cs, turn ops cmp d m = Some (MkMerging cs (Some c) d) /\
    holds_at (fun j l q => exists p, cut l i p /\ q = if decide (j = c) then p else beside d l p) cs.
Proof.
  intros Ec El Hp Ex Ei Hh. unfold turn. destruct (decide (direction_ m = d)) as [<-|Hd].
  { exists (children_ m). split; [rewrite <-Ec; by destruct m|done]. }
  assert (key k) as Hk by exact (keys_lookup _ _ _ _ _ Hkeys Ei). assert (target k) as Hkt by exact (keys_lookup _ _ _ _ _ Htargets Ei). pose proof (seek_pos_at es i k v Hkeys Hsorted Ei) as Hi.
  assert (Merging_key m = k) as -> by (apply (Merging_shows m i k v); [left; by exists c, l, p, (k, v)|done]).
  match goal with |- context [for_children ?f 0 _] => destruct (holds_for _ (fun j l q => exists p, cut l i p /\ q = if decide (j = c) then p else beside d l p) f _ Hh) as (cs & E & Hcs) end.
  2:{ exists cs. rewrite E, Ec. by split. }
  intros j l' w q El' Hw (p' & Hp' & ->). rewrite Ec. destruct (decide (Some c = Some j)) as [Hjc|Hjc]; [injection Hjc as <-; exists w, p'; rewrite decide_True in Hw by done; split_and!; [done..|]; exists p'; by rewrite decide_True|].
  rewrite decide_False in Hw by congruence. pose proof (HC j l' El') as Hlaws. pose proof (cut_seek Hperm Hkeys Hsorted Hchildren j l' k El' Hk) as Hcut. rewrite Hi in Hcut.
  destruct (wraps_call (i_Seek ops k) w _ (seek_pos cmp k l') Hw) as (w1 & E1 & Hw1); [intros a Ha; by apply (pos_Seek a _ k Ha)|].
  assert (exists w' q', match d with kForward => move_after ops cmp | kReverse => move_before ops end k w = Some w' /\ @wraps A l' (cpos j) w' q' /\ q' = beside d l' (seek_pos cmp k l')) as (w' & q' & E' & Hw' & ->).
  2:{ exists w', (beside d l' (seek_pos cmp k l')). split_and!; [done..|]. exists (seek_pos cmp k l'). by rewrite decide_False by congruence. }
  destruct d; cbn [beside]; unfold move_after, move_before, Wrapper_Seek; rewrite E1; cbn [mbind option_bind].
  - exists w1, (seek_pos cmp k l'). destruct (w_valid w1) eqn:Ev; [|done]. destruct (wraps_shows j l' w1 _ Hw1 Ev) as (k1 & v1 & Ek1 & ->).
    destruct (cut_after Hperm Hkeys Hsorted j l' i _ _ El' Hcut Ek1) as (r & Hr & Er). destruct (decide (r = i)) as [->|Hri].
    + exfalso. apply Hjc. f_equal. rewrite Ei in Er. injection Er as <- <-. apply (child_unique Hperm Hkeys Hsorted (k, v) c l j l' El ltac:(by eapply list_elem_of_lookup_2) El'). by eapply list_elem_of_lookup_2.
    + pose proof (sorted_lookup cmp es i r _ _ _ _ Hsorted ltac:(lia) Ei Er). destruct (Z.eqb_spec (Compare cmp k k1) 0); [lia|done].
  - rewrite (wraps_valid _ _ Hw1). unfold Wrapper_Prev, Wrapper_SeekToLast. case_bool_decide as Hb.
    + destruct (wraps_call (i_Prev ops) w1 _ (prev_pos (length l') (seek_pos cmp k l')) Hw1) as (w2 & E2 & Hw2); [intros a Ha; by apply pos_Prev|]. eauto.
    + destruct (wraps_call (i_SeekToLast ops) w1 _ (length l' - 1)%nat Hw1) as (w2 & E2 & Hw2); [intros a Ha; by apply (pos_SeekToLast a _ Ha)|]. exists w2, (length l' - 1)%nat. split_and!; [done..|].
      pose proof (seek_pos_le cmp k l'). unfold prev_pos. case_decide; lia.
Qed.

Lemma holds_insert (R R' : nat -> list (slice * slice) -> nat -> Prop) cs c l w q :
  holds_at R cs -> ess !! c = Some l -> @wraps A l (cpos c) w q -> R' c l q -> (forall j l q, j <> c -> ess !! j = Some l -> R j l q -> R' j l q) -> holds_at R' (<[c := w]> cs).
Proof.
  intros [Hlen H] El Hw HR' Hmono. split; [by rewrite length_insert|]. intros j l' w' El' Ew'. apply list_lookup_insert_Some in Ew' as [(<- & <- & _)|(Hne & Ew')].
  - rewrite El in El'. injection El' as <-. by exists q.
  - destruct (H j l' w' El' Ew') as (q' & Hq' & HR). exists q'. split; [done|]. by apply Hmono.
Qed.

Lemma on_current_spec f cs c d l i p x q' (R' : nat -> list (slice * slice) -> nat -> Prop) :
  ess !! c = Some l -> cut l i p -> l !! p = Some x -> es !! i = Some x ->
  holds_at (fun j l q => exists p, cut l i p /\ q = if decide (j = c) then p else beside d l p) cs ->
  (forall a, cpos c a p -> exists a', f a = Some a' /\ cpos c a' q') -> R' c l q' ->
  (forall j l p, ess !! j = Some l -> cut l i p -> (x ∉ l) -> R' j l (beside d l p)) ->
  exists cs', on_current (Wrapper_call ops f) (MkMerging cs (Some c) d) = Some (MkMerging cs' (Some c) d) /\ holds_at R' cs'.
Proof.
  intros El Hp Ex Ei Hh Hf HR Hother. destruct (holds_child _ _ c l Hh El) as (w & q & Ew & Hw & p' & Hp' & Hq). rewrite decide_True in Hq by done.
  rewrite (cut_unique _ _ _ _ Hp' Hp) in Hq. subst q. pose proof (HC c l El). destruct (wraps_call f w p q' Hw Hf) as (w' & E' & Hw').
  exists (<[c := w']> cs). unfold on_current. cbn [current_ children_ direction_ mbind option_bind]. rewrite Ew. cbn [mbind option_bind]. rewrite E'. split; [done|].
  eapply (holds_insert _ _ _ _ _ _ _ Hh El Hw' HR). intros j l' q Hne El' (p1 & Hp1 & ->). rewrite decide_False by done. apply Hother; [done..|].
  intros Hin. apply Hne. apply (child_unique Hperm Hkeys Hsorted x j l' c l El' Hin El). by eapply list_elem_of_lookup_2.
Qed.

Lemma Merging_Next_spec m i : merging_pos m i -> (i < length es)%nat -> exists m', Merging_Next ops cmp m = Some m' /\ merging_pos m' (S i).
Proof.
  intros [(c & l & p & [k v] & Ec & El & Hp & Ex & Ei & Hh)|(_ & -> & _)] Hi; [|lia]. unfold Merging_Next.
  destruct (turn_spec kForward m i c l p k v Ec El Hp Ex Ei Hh) as (cs & -> & Hcs). cbn [mbind option_bind]. pose proof (HC c l El).
  destruct (on_current_spec (i_Next ops) cs c kForward l i p (k, v) (S p) (fun _ l q => exists p, cut l (S i) p /\ q = p) El Hp Ex Ei Hcs) as (cs' & E & Hcs').
  - intros a Ha. apply (pos_Next a p Ha). by apply lookup_lt_Some in Ex.
  - exists (S p). split; [|done]. by apply (cut_S_owner Hperm Hkeys Hchildren c l i p (k, v)).
  - intros j l' p' El' Hp' Hx. exists p'. split; [by apply (cut_S_other l' i p' (k, v))|done].
  - unfold Wrapper_Next. rewrite E. eexists. split; [done|]. by apply (FindSmallest_spec cs' (Some c)).
Qed.

Lemma Merging_Prev_spec m i : merging_pos m i -> (i < length es)%nat -> exists m', Merging_Prev ops cmp m = Some m' /\ merging_pos m' (prev_pos (length es) i).
Proof.
  intros [(c & l & p & [k v] & Ec & El & Hp & Ex & Ei & Hh)|(_ & -> & _)] Hi; [|lia]. unfold Merging_Prev.
  destruct (turn_spec kReverse m i c l p k v Ec El Hp Ex Ei Hh) as (cs & -> & Hcs). cbn [mbind option_bind]. pose proof (HC c l El).
  destruct (on_current_spec (i_Prev ops) cs c kReverse l i p (k, v) (prev_pos (length l) p) (fun _ l q => exists p, cut l i p /\ q = prev_pos (length l) p) El Hp Ex Ei Hcs) as (cs' & E & Hcs').
  - intros a Ha. apply (pos_Prev a p Ha). by apply lookup_lt_Some in Ex.
  - by exists p.
  - intros j l' p' El' Hp' Hx. by exists p'.
  - unfold Wrapper_Prev. rewrite E. eexists. split; [done|]. apply (FindLargest_spec cs' (Some c)); [lia|done].
Qed.

Lemma first_error_OK (R : nat -> list (slice * slice) -> nat -> Prop) cs : holds_at R cs -> first_error ops cs OK = OK.
Proof.
  intros H. assert (forall j w, cs !! j = Some w -> Wrapper_status ops w = OK) as Hst.
  { intros j w Ew. destruct (holds_lookup _ _ _ _ H Ew) as (l & q & El & Hw & _). pose proof (HC j l El). by eapply wraps_status. }
  clear H. induction cs as [|w cs IH]; [done|]. cbn [first_error]. rewrite (Hst 0%nat w eq_refl), ok_OK. apply IH. intros j w' E. exact (Hst (S j) w' E).
Qed.

#[export] Instance Merging_laws : IterLaws (Merging_ops ops cmp) cmp target es merging_pos.
Proof.
  split.
  - intros m i [(c & l & p & x & _ & _ & _ & _ & Ei & _)|(_ & -> & _)]; [apply lookup_lt_Some in Ei; lia|lia].
  - intros m i [(c & l & p & x & Ec & _ & _ & _ & Ei & _)|(Ec & -> & _)]; cbn [i_Valid Merging_ops]; unfold Merging_Valid; rewrite Ec.
    + apply lookup_lt_Some in Ei. by rewrite !bool_decide_true by eauto.
    + rewrite !bool_decide_false; [done|lia|by intros [? ?]].
  - intros m i k v H E. exact (proj1 (Merging_shows m i k v H E)).
  - intros m i k v H E. exact (proj2 (Merging_shows m i k v H E)).
  - intros m i H%merging_any. exact (first_error_OK _ _ H).
  - apply Merging_Seek_spec.
  - apply Merging_SeekToFirst_spec.
  - apply Merging_SeekToLast_spec.
  - apply Merging_Next_spec.
  - apply Merging_Prev_spec.
Qed.

Lemma NewMerging_pos (children : list A) :
  length children = length ess -> (forall j a, children !! j = Some a -> exists q, cpos j a q) -> merging_pos (NewMerging ops children) (length es).
Proof.
  intros Hlen H. right. split_and!; [done..|]. split; [cbn [NewMerging children_]; by rewrite length_map|]. intros j l w El Ew.
  cbn [NewMerging children_] in Ew. apply list_lookup_fmap_Some in Ew as (a & -> & Ea). destruct (H j a Ea) as [q Hq]. exists q. split; [|done].
  pose proof (HC j l El). by apply wraps_Update.
Qed.

(** ** [NewMergingIterator] *)

Definition merged_pos (m : MergedIterator A) (i : nat) : Prop :=
  match m with
  | MergedEmpty s => s = OK /\ i = 0%nat /\ ess = []
  | MergedOne a => length ess = 1%nat /\ cpos 0 a i
  | MergedMany m => merging_pos m i
  end.

Lemma merged_one l : ess = [l] -> es = l.
Proof.
  intros E. pose proof Hperm as Hp. rewrite E in Hp. cbn [concat] in Hp. rewrite app_nil_r in Hp.
  apply (StronglySorted_unique_strong (fun a b => Compare cmp a.1 b.1 < 0)); [|done|exact (proj1 (Forall_forall _ _) Hchildren l ltac:(rewrite E; by left))|done].
  intros [k1 v1] [k2 v2] H1 H2 Hlt Hgt. cbn [fst] in *. rewrite <-Hp in H2. exfalso.
  pose proof (compare_antisym k1 k2 (key_of _ _ H1) (key_of _ _ H2)). lia.
Qed.

(** Every such iterator is one of the three, and calls its functions. *)
Lemma merged_dispatch m i : merged_pos m i ->
  exists (B : Type) (o : IterOps B) (pos : B -> nat -> Prop) (inj : B -> MergedIterator A) (b : B),
    m = inj b /\ IterLaws o cmp target es pos /\ pos b i /\ (forall b j, pos b j -> merged_pos (inj b) j) /\
    (forall f b, Merged_call ops cmp f (inj b) = inj <$> f B o b) /\ forall R (f : forall B, IterOps B -> B -> R) b, Merged_get ops cmp f (inj b) = f B o b.
Proof.
  destruct m as [s|a|m]; cbn [merged_pos].
  - intros (-> & -> & E). assert (es = []) as Ees by (pose proof Hperm as Hp; rewrite E in Hp; by apply Permutation_nil_r in Hp).
    exists Status, EmptyIterator_ops, (fun s i => s = OK /\ i = 0%nat), MergedEmpty, OK. split_and!; try done; [rewrite Ees; apply _|]. intros b j (-> & ->). by split_and!.
  - intros [Hl Ha]. assert (exists l, ess = [l]) as [l El] by (clear -Hl; destruct ess as [|l [|]]; try done; by exists l).
    exists A, ops, (cpos 0), MergedOne, a. split_and!; try done. rewrite (merged_one l El). apply HC. by rewrite El.
  - intros Hm. exists (MergingIterator A), (Merging_ops ops cmp), merging_pos, MergedMany, m. split_and!; try done. apply Merging_laws.
Qed.

#[export] Instance Merged_laws : IterLaws (Merged_ops ops cmp) cmp target es merged_pos.
Proof.
  split; intros m i; intros *; intros (B & o & pos & inj & b & -> & L & Hp & Hinj & Hcall & Hget)%merged_dispatch; cbn [Merged_ops i_Valid i_key i_value i_status i_Seek i_SeekToFirst i_SeekToLast i_Next i_Prev];
    rewrite ?Hget, ?Hcall.
  - exact (pos_range b i Hp).
  - exact (pos_Valid b i Hp).
  - exact (pos_key b i _ _ Hp).
  - exact (pos_value b i _ _ Hp).
  - exact (pos_status b i Hp).
  - intros Hk. destruct (pos_Seek b i t Hp Hk) as (b' & -> & Hb'). eauto.
  - destruct (pos_SeekToFirst b i Hp) as (b' & -> & Hb'). eauto.
  - destruct (pos_SeekToLast b i Hp) as (b' & -> & Hb'). eauto.
  - intros Hi. destruct (pos_Next b i Hp Hi) as (b' & -> & Hb'). eauto.
  - intros Hi. destruct (pos_Prev b i Hp Hi) as (b' & -> & Hb'). eauto.
Qed.

Lemma NewMergingIterator_pos (children : list A) :
  length children = length ess -> (forall j a, children !! j = Some a -> exists q, cpos j a q) -> exists i, merged_pos (NewMergingIterator ops children) i.
Proof.
  intros Hlen H. destruct children as [|a [|b l]]; cbn [NewMergingIterator merged_pos].
  - exists 0%nat. split_and!; [done..|]. symmetry in Hlen. by apply nil_length_inv in Hlen.
  - destruct (H 0%nat a eq_refl) as [q Hq]. exists q. by split.
  - exists (length es). by apply NewMerging_pos.
Qed.
End laws.

(** * Properties *)

(** C14. Let the children of [NewMergingIterator] be any iterators that keep the promises of iterator.h over sorted lists of
    entries, and [es] the sorted union of the lists, in which no two keys are the same.  Then the iterator that is returned
    is, after any calls that iterator.h allows, in any order and with any changes of direction, at the position in [es] that
    the specification says: it shows the key and the value there, or is not valid past the end, and its status stays OK. *)
Theorem merging_iterator_refines (A : Type) (ops : IterOps A) (cmp : Comparator) (key : slice -> Prop) (L : ComparatorLaws key cmp)
    (es : list (slice * slice)) (ess : list (list (slice * slice))) (cpos : nat -> A -> nat -> Prop) (children : list A) :
  (forall j l, ess !! j = Some l -> IterLaws ops cmp key l (cpos j)) ->
  length children = length ess -> (forall j a, children !! j = Some a -> exists q, cpos j a q) ->
  es ≡ₚ concat ess -> Forall (fun e => key e.1) es -> sorted_entries cmp es -> Forall (sorted_entries cmp) ess ->
  exists start, forall calls i, Forall (op_key key) calls -> run_ops (spec_op cmp es) calls start = Some i ->
    exists m, run_ops (iter_op (Merged_ops ops cmp)) calls (NewMergingIterator ops children) = Some m /\
      i_status (Merged_ops ops cmp) m = OK /\ current (Merged_ops ops cmp) m = es !! i.
Proof.
  intros HC Hlen Hpos Hperm Hkeys Hsorted Hchildren. pose proof (Merged_laws (fun _ H => H) cpos HC Hperm Hkeys Hkeys Hsorted Hchildren) as ML.
  destruct (NewMergingIterator_pos (es := es) cpos HC children Hlen Hpos) as [start Hstart]. exists start. intros calls i Hcalls Hrun.
  destruct (run_ops_spec calls _ _ i Hstart Hcalls Hrun) as (m & E & Hm). exists m. split; [exact E|]. split; [by apply (pos_status m i)|by apply (pos_current m i)].
Qed.

(** Three blocks, one of them empty. *)
Definition sample_lists : list (list (slice * slice)) :=
  [[(lit "a", lit "1"); (lit "c", lit "3"); (lit "d", lit "4")]; []; [(lit "b", lit "2"); (lit "e", lit "5")]].

Lemma merging_iterator_refines_witness :
  let bops := Block_ops BytewiseComparator in
  let children := map (fun es => Block_NewIterator (NewBlock (BlockBuilder_Finish (build 2 es)).1)) sample_lists in
  let calls := [OpSeek (lit "bb"); OpPrev; OpNext; OpNext; OpPrev; OpPrev] in
  exists m, run_ops (iter_op (Merged_ops bops BytewiseComparator)) calls (NewMergingIterator bops children) = Some m /\
    i_status (Merged_ops bops BytewiseComparator) m = OK /\ current (Merged_ops bops BytewiseComparator) m = Some (lit "b", lit "2").
Proof.
  intros bops children calls.
  assert (forall j l, sample_lists !! j = Some l -> sizes_ok 2 l /\ Forall (fun e => any_key e.1) l /\ sorted_entries BytewiseComparator l) as Hok.
  { intros j l E. destruct j as [|[|[|j]]]; cbn in E; [injection E as <-..|done]; (split; [split; [by vm_compute|repeat constructor]|split; [repeat constructor|repeat constructor; by vm_compute]]). }
  destruct (merging_iterator_refines _ bops BytewiseComparator any_key _
    [(lit "a", lit "1"); (lit "b", lit "2"); (lit "c", lit "3"); (lit "d", lit "4"); (lit "e", lit "5")] sample_lists
    (fun j => block_pos 2 (default [] (sample_lists !! j))) children) as [start H].
  - intros j l E. rewrite E. cbn [default from_option]. destruct (Hok j l E) as (H1 & H2 & H3). refine (Block_iter_laws 2 l any_key _ _ H1 H2 H3). lia.
  - reflexivity.
  - intros j a E. apply list_lookup_fmap_Some in E as (l & -> & E). rewrite E. cbn [default from_option]. exists (length l). apply (NewIterator_pos 2 l); [lia|]. by apply (Hok j).
  - apply perm_skip. exact (Permutation_middle [(lit "c", lit "3"); (lit "d", lit "4")] [(lit "e", lit "5")] (lit "b", lit "2")).
  - repeat constructor.
  - repeat constructor; by vm_compute.
  - apply Forall_lookup. intros j l E. by apply (Hok j).
  - destruct (H calls 1%nat) as (m & E & Hs & Hc).
    + repeat constructor.
    + reflexivity.
    + exists m. split; [exact E|]. split; [exact Hs|exact Hc].
Defined.
