(* ===== verification/DbIter.v ===== *)
(** DbIter: db/db_iter.cc, the iterator that a user sees: it goes through the internal entries of a store and shows for every
    user key the newest value that a snapshot sees, over any internal iterator that keeps the promises of the interface. *)

From Stdlib Require Import Strings.Byte Strings.String.
From S2P Require Import Prelude Coding Comparator DbFormat Status Random SkipList MemTable Iterator Version Block Merger.

(** * Data *)

(** Approximate gap in bytes between samples of data read during iteration. *)
Definition kReadBytesPeriod : Z := 1048576.

(** The members of [DBIter] that change.  The calls of [db_->RecordReadSample] are kept in order. *)
Record DBIter (A : Type) := MkDBIter {
  di_iter : A;
  di_status : Status;
  saved_key_ : slice;
  saved_value_ : slice;
  di_direction : Direction;
  valid_ : bool;
  rnd_ : Z;
  bytes_until_read_sampling_ : Z;
  di_samples : list slice;
}.

Arguments MkDBIter {A}.
Arguments di_iter {A}.
Arguments di_status {A}.
Arguments saved_key_ {A}.
Arguments saved_value_ {A}.
Arguments di_direction {A}.
Arguments valid_ {A}.
Arguments rnd_ {A}.
Arguments bytes_until_read_sampling_ {A}.
Arguments di_samples {A}.

Section DBIter.
Context {A : Type} (ops : IterOps A) (ucmp : Comparator) (sequence_ : Z).
(** A bound on the number of entries, for the loops. *)
Context (fuel : nat).

Abbreviation state := (DBIter A).

Definition set_iter (it : A) (d : state) : state :=
  MkDBIter it (di_status d) (saved_key_ d) (saved_value_ d) (di_direction d) (valid_ d) (rnd_ d) (bytes_until_read_sampling_ d) (di_samples d).
Definition SaveKey (k : slice) (d : state) : state :=
  MkDBIter (di_iter d) (di_status d) k (saved_value_ d) (di_direction d) (valid_ d) (rnd_ d) (bytes_until_read_sampling_ d) (di_samples d).
Definition save_value (v : slice) (d : state) : state :=
  MkDBIter (di_iter d) (di_status d) (saved_key_ d) v (di_direction d) (valid_ d) (rnd_ d) (bytes_until_read_sampling_ d) (di_samples d).
Definition set_direction (dir : Direction) (d : state) : state :=
  MkDBIter (di_iter d) (di_status d) (saved_key_ d) (saved_value_ d) dir (valid_ d) (rnd_ d) (bytes_until_read_sampling_ d) (di_samples d).
Definition set_valid (b : bool) (d : state) : state :=
  MkDBIter (di_iter d) (di_status d) (saved_key_ d) (saved_value_ d) (di_direction d) b (rnd_ d) (bytes_until_read_sampling_ d) (di_samples d).

(** [saved_value_.clear()], or a swap with an empty string. *)
Definition ClearSavedValue (d : state) : state := save_value [] d.

(** [RandomCompactionPeriod()] and the new seed. *)
Definition RandomCompactionPeriod (rnd : Z) : Z * Z := Random_Uniform (2 * kReadBytesPeriod) rnd.

Definition NewDBIterator (internal_iter : A) (seed : Z) : state :=
  let '(period, rnd) := RandomCompactionPeriod (NewRandom seed) in
  MkDBIter internal_iter OK [] [] kForward false rnd period [].

(** [while (bytes_until_read_sampling_ < bytes_read)]: the seed, the counter and the samples. *)
Fixpoint sample_loop (n : nat) (k : slice) (bytes_read rnd bytes : Z) (samples : list slice) : option (Z * Z * list slice) :=
  if bytes <? bytes_read then
    match n with
    | O => None
    | S n => let '(period, rnd) := RandomCompactionPeriod rnd in sample_loop n k bytes_read rnd (u64 (bytes + period)) (samples ++ [k])
    end
  else Some (rnd, bytes, samples).

(** Two draws add at least one byte. *)
Definition sample_fuel (bytes_read : Z) : nat := Z.to_nat (2 * bytes_read).

Definition ParseKey (d : state) : option (option ParsedInternalKey * state) :=
  let k := i_key ops (di_iter d) in
  v ← i_value ops (di_iter d);
  let bytes_read := u64 (slen k + slen v) in
  '(rnd, bytes, samples) ← sample_loop (sample_fuel bytes_read) k bytes_read (rnd_ d) (bytes_until_read_sampling_ d) (di_samples d);
  let ikey := ParseInternalKey k in
  let status := match ikey with Some _ => di_status d | None => Corruption (lit "corrupted internal key in DBIter") [] end in
  Some (ikey, MkDBIter (di_iter d) status (saved_key_ d) (saved_value_ d) (di_direction d) (valid_ d) rnd (u64 (bytes - bytes_read)) samples).

(** The loop; [skip] is always [&saved_key_]. *)
Fixpoint FindNextUserEntry (n : nat) (skipping : bool) (d : state) : option state :=
  match n with
  | O => None
  | S n =>
      '(ikey, d) ← ParseKey d;
      let next skipping d :=
        it ← i_Next ops (di_iter d);
        let d := set_iter it d in
        if i_Valid ops it then FindNextUserEntry n skipping d else Some (set_valid false (SaveKey [] d)) in
      match ikey with
      | Some ikey =>
          if sequence ikey <=? sequence_ then
            match type ikey with
            | kTypeDeletion => next true (SaveKey (user_key ikey) d)
            | kTypeValue =>
                if skipping && (Compare ucmp (user_key ikey) (saved_key_ d) <=? 0) then next skipping d
                else Some (SaveKey [] (set_valid true d))
            end
          else next skipping d
      | None => next skipping d
      end
  end.

(** The loop of [FindPrevUserEntry], with [value_type]. *)
Fixpoint FindPrev_loop (n : nat) (value_type : ValueType) (d : state) : option (ValueType * state) :=
  match n with
  | O => None
  | S n =>
      '(ikey, d) ← ParseKey d;
      let prev value_type d :=
        it ← i_Prev ops (di_iter d);
        let d := set_iter it d in
        if i_Valid ops it then FindPrev_loop n value_type d else Some (value_type, d) in
      match ikey with
      | Some ikey =>
          if sequence ikey <=? sequence_ then
            if negb (bool_decide (value_type = kTypeDeletion)) && (Compare ucmp (user_key ikey) (saved_key_ d) <? 0) then Some (value_type, d)
            else
              match type ikey with
              | kTypeDeletion => prev kTypeDeletion (ClearSavedValue (SaveKey [] d))
              | kTypeValue =>
                  raw_value ← i_value ops (di_iter d);
                  prev kTypeValue (save_value raw_value (SaveKey (ExtractUserKey (i_key ops (di_iter d))) d))
              end
          else prev value_type d
      | None => prev value_type d
      end
  end.

Definition FindPrevUserEntry (d : state) : option state :=
  '(value_type, d) ← (if i_Valid ops (di_iter d) then FindPrev_loop (S fuel) kTypeDeletion d else Some (kTypeDeletion, d));
  Some (match value_type with
        | kTypeDeletion => set_direction kForward (ClearSavedValue (SaveKey [] (set_valid false d)))
        | kTypeValue => set_valid true d
        end).

Definition DBIter_Next (d : state) : option state :=
  d ← match di_direction d with
      | kReverse =>
          it ← (if i_Valid ops (di_iter d) then i_Next ops (di_iter d) else i_SeekToFirst ops (di_iter d));
          Some (set_iter it (set_direction kForward d))
      | kForward =>
          let d := SaveKey (ExtractUserKey (i_key ops (di_iter d))) d in
          it ← i_Next ops (di_iter d);
          Some (set_iter it d)
      end;
  if i_Valid ops (di_iter d) then FindNextUserEntry (S fuel) true d else Some (SaveKey [] (set_valid false d)).

(** The loop that leaves the entries of the current key; [false] when there are none before them. *)
Fixpoint Prev_loop (n : nat) (d : state) : option (bool * state) :=
  match n with
  | O => None
  | S n =>
      it ← i_Prev ops (di_iter d);
      let d := set_iter it d in
      if negb (i_Valid ops it) then Some (false, ClearSavedValue (SaveKey [] (set_valid false d)))
      else if Compare ucmp (ExtractUserKey (i_key ops it)) (saved_key_ d) <? 0 then Some (true, d)
      else Prev_loop n d
  end.

Definition DBIter_Prev (d : state) : option state :=
  match di_direction d with
  | kForward =>
      '(more, d) ← Prev_loop (S fuel) (SaveKey (ExtractUserKey (i_key ops (di_iter d))) d);
      if more : bool then FindPrevUserEntry (set_direction kReverse d) else Some d
  | kReverse => FindPrevUserEntry d
  end.

Definition DBIter_Seek (target : slice) (d : state) : option state :=
  let d := ClearSavedValue (set_direction kForward d) in
  let d := SaveKey (AppendInternalKey [] (ParsedKey target sequence_ kValueTypeForSeek)) d in
  it ← i_Seek ops (saved_key_ d) (di_iter d);
  let d := set_iter it d in
  if i_Valid ops it then FindNextUserEntry (S fuel) false d else Some (set_valid false d).

Definition DBIter_SeekToFirst (d : state) : option state :=
  let d := ClearSavedValue (set_direction kForward d) in
  it ← i_SeekToFirst ops (di_iter d);
  let d := set_iter it d in
  if i_Valid ops it then FindNextUserEntry (S fuel) false d else Some (set_valid false d).

Definition DBIter_SeekToLast (d : state) : option state :=
  let d := ClearSavedValue (set_direction kReverse d) in
  it ← i_SeekToLast ops (di_iter d);
  FindPrevUserEntry (set_iter it d).

Definition DBIter_key (d : state) : slice :=
  match di_direction d with kForward => ExtractUserKey (i_key ops (di_iter d)) | kReverse => saved_key_ d end.

Definition DBIter_value (d : state) : option slice :=
  match di_direction d with kForward => i_value ops (di_iter d) | kReverse => Some (saved_value_ d) end.

Definition DBIter_status (d : state) : Status := if ok (di_status d) then i_status ops (di_iter d) else di_status d.

Definition DBIter_ops : IterOps state :=
  MkIterOps valid_ DBIter_key DBIter_value DBIter_status DBIter_Seek DBIter_SeekToFirst DBIter_SeekToLast DBIter_Next DBIter_Prev.
End DBIter.

(** * Lemmas: the read samples *)

(** A draw that adds nothing is followed by one that does. *)
Lemma draw_after_zero seed : seed_ok seed -> seed mod 2 ^ 21 = 0 -> Random_Next seed mod 2 ^ 21 <> 0.
Proof.
  intros Hs Hm. assert (forallb (fun a => negb (Random_Next (a * 2 ^ 21) mod 2 ^ 21 =? 0)) (seqZ 1 1023) = true) as Hall by (by vm_compute).
  rewrite forallb_forall in Hall. unfold seed_ok in Hs. pose proof (Z.div_mod seed (2 ^ 21) ltac:(done)) as Hd. rewrite Hm in Hd.
  set (q := seed / 2 ^ 21) in *. clearbody q. change (2 ^ 21) with 2097152 in Hd.
  assert (q ∈ seqZ 1 1023) as Hin by (apply elem_of_seqZ; lia). specialize (Hall _ (proj1 (list_elem_of_In _ _) Hin)).
  replace (q * 2 ^ 21) with seed in Hall by (change (2 ^ 21) with 2097152; lia). by destruct (Z.eqb_spec (Random_Next seed mod 2 ^ 21) 0).
Qed.

Lemma sample_loop_spec n k bytes_read rnd bytes samples :
  seed_ok rnd -> 0 <= bytes < 2 ^ 63 -> 0 <= bytes_read < 2 ^ 62 ->
  2 * (bytes_read - bytes) <= Z.of_nat n \/ (2 * (bytes_read - bytes) <= Z.of_nat n + 1 /\ rnd mod 2 ^ 21 = 0) ->
  exists rnd' bytes' samples', sample_loop n k bytes_read rnd bytes samples = Some (rnd', bytes', samples') /\
    seed_ok rnd' /\ bytes_read <= bytes' < 2 ^ 63.
Proof.
  revert rnd bytes samples. induction n as [|n IH]; intros rnd bytes samples Hr Hb Hbr Hf; cbn [sample_loop].
  all: destruct (Z.ltb_spec bytes bytes_read) as [Hlt|Hge]; [|exists rnd, bytes, samples; split_and!; [done..|lia|lia]].
  - exfalso. destruct Hf as [Hf|[Hf Hm]]; lia.
  - unfold RandomCompactionPeriod, Random_Uniform. cbn zeta. change (2 * kReadBytesPeriod) with (2 ^ 21). destruct (Random_Next_spec rnd Hr) as [_ Hr'].
    pose proof (Z.mod_pos_bound (Random_Next rnd) (2 ^ 21) ltac:(lia)) as Hp. rewrite (wrap_small 64) by (unfold in_u; lia).
    apply IH; [done|lia|done|]. destruct Hf as [Hf|[Hf Hm]].
    + destruct (decide (Random_Next rnd mod 2 ^ 21 = 0)); [right|left]; lia.
    + left. pose proof (draw_after_zero rnd Hr Hm). lia.
Qed.

(** What the counter and the generator keep. *)
Definition sampling_ok {A} (d : DBIter A) : Prop := seed_ok (rnd_ d) /\ 0 <= bytes_until_read_sampling_ d < 2 ^ 63.

Lemma NewDBIterator_sampling {A} (it : A) seed : sampling_ok (NewDBIterator it seed).
Proof.
  unfold NewDBIterator, RandomCompactionPeriod, Random_Uniform, sampling_ok. cbn [rnd_ bytes_until_read_sampling_].
  destruct (Random_Next_spec _ (NewRandom_ok seed)) as [_ Hr]. split; [done|]. pose proof (Z.mod_pos_bound (Random_Next (NewRandom seed)) (2 * kReadBytesPeriod) ltac:(done)).
  unfold kReadBytesPeriod in *. lia.
Qed.

(** * What a snapshot shows *)

(** The entries that are the newest of their user key at the snapshot [s], and values. *)
Definition shown (s : Z) (es : list entry) (e : entry) : bool :=
  match newest (e_key e) s es with
  | Some e' => (e_seq e' =? e_seq e) && bool_decide (e_type e = kTypeValue)
  | None => false
  end.

Definition user_view (s : Z) (es : list entry) : list (slice * slice) :=
  map (fun e => (e_key e, e_value e)) (List.filter (shown s es) es).

Lemma filter_lookup_at {X} (f : X -> bool) l p x :
  l !! p = Some x -> f x = true -> List.filter f l !! length (List.filter f (take p l)) = Some x.
Proof.
  intros E Hf. replace (List.filter f l) with (List.filter f (take p l ++ x :: drop (S p) l)) by (by rewrite (take_drop_middle l p x E)). rewrite List.filter_app. cbn [List.filter]. rewrite Hf. by rewrite lookup_app_r, Nat.sub_diag by lia.
Qed.

Lemma filter_sorted {X} (R : X -> X -> Prop) (f : X -> bool) l :
  (forall i j a b, (i < j)%nat -> l !! i = Some a -> l !! j = Some b -> f a = true -> f b = true -> R a b) -> StronglySorted R (List.filter f l).
Proof.
  induction l as [|x l IH]; intros H; [constructor|]. assert (StronglySorted R (List.filter f l)) as Hl by (apply IH; intros i j a b Hij Ea Eb; apply (H (S i) (S j)); [lia|done..]).
  cbn [List.filter]. destruct (f x) eqn:Ef; [|done]. constructor; [done|]. apply Forall_forall. intros y Hy. apply list_elem_of_In, filter_In in Hy as [Hy Hfy].
  apply list_elem_of_In, list_elem_of_lookup in Hy as [j Hj]. by apply (H 0%nat (S j)); [lia|..].
Qed.

Lemma seqs_differ_lookup es i j a b :
  seqs_differ es -> es !! i = Some a -> es !! j = Some b -> (i < j)%nat -> e_key a = e_key b -> e_seq a <> e_seq b.
Proof.
  revert i j. induction es as [|e es IH]; intros i j Hd Ea Eb Hij Hk; [done|]. destruct Hd as [Hd1 Hd2]. destruct j as [|j]; [lia|]. destruct i as [|i]; cbn in Ea, Eb.
  - injection Ea as ->. apply Hd1; [by eapply list_elem_of_lookup_2|done].
  - apply (IH i j); [done..|lia|done].
Qed.

Section view.
Context (ucmp : Comparator) `{!ComparatorLaws any_key ucmp} (s : Z) (Hseq : seq_ok s).
Context (es : list entry) (Hes : entries_ok ucmp es) (Hdiffer : seqs_differ es).

Abbreviation cmp a b := (Compare ucmp (e_key a) (e_key b)).

Lemma key_le i j a b : (i <= j)%nat -> es !! i = Some a -> es !! j = Some b -> cmp a b <= 0.
Proof.
  intros Hij Ea Eb. destruct (decide (i = j)) as [->|Hne].
  - rewrite Ea in Eb. injection Eb as <-. rewrite compare_refl by done. lia.
  - destruct (entries_lookup_lt ucmp es i j a b Hes ltac:(lia) Ea Eb) as [H|[H _]]; [lia|]. rewrite H, compare_refl by done. lia.
Qed.

Lemma key_same a b : cmp a b <= 0 -> cmp b a <= 0 -> e_key a = e_key b.
Proof. intros H1 H2. apply (compare_eq (key := any_key) (c := ucmp)); [done..|]. pose proof (compare_antisym (c := ucmp) (e_key a) (e_key b) I I). lia. Qed.

(** The entry at a position is the newest of its key when the ones before it are not visible. *)
Lemma shown_lookup p e :
  es !! p = Some e ->
  shown s es e = true <-> e_seq e <= s /\ e_type e = kTypeValue /\ forall r e', (r < p)%nat -> es !! r = Some e' -> e_key e' = e_key e -> s < e_seq e'.
Proof.
  intros Ep. unfold shown. pose proof (newest_spec (e_key e) s es) as Hn. split.
  - destruct (newest (e_key e) s es) as [e1|]; [|done]. intros [Hq Ht]%andb_true_iff. apply Z.eqb_eq in Hq. apply bool_decide_eq_true in Ht.
    destruct Hn as (Hin & Hv & Hmax). apply visible_true in Hv as [Hk Hs]. split_and!; [lia|done|]. intros r e' Hr Er Hk'.
    destruct (decide (s < e_seq e')) as [|Hns]; [done|]. exfalso. pose proof (Hmax e' ltac:(by eapply list_elem_of_lookup_2) ltac:(apply visible_true; split; [done|lia])) as Hm.
    destruct (entries_lookup_lt ucmp es r p e' e Hes Hr Er Ep) as [Hlt|[_ Hge]]; [rewrite Hk', compare_refl in Hlt by done; lia|].
    apply (seqs_differ_lookup es r p e' e Hdiffer Er Ep Hr Hk'). lia.
  - intros (Hs & Ht & Hfirst). rewrite (newest_unique (e_key e) s es e); [by rewrite Z.eqb_refl, bool_decide_true|done|by eapply list_elem_of_lookup_2|by apply visible_true|].
    intros e' [r Er]%list_elem_of_lookup [Hk' Hs']%visible_true. destruct (Nat.lt_trichotomy r p) as [Hr|[->|Hr]].
    + specialize (Hfirst r e' Hr Er Hk'). lia.
    + rewrite Ep in Er. injection Er as <-. lia.
    + destruct (entries_lookup_lt ucmp es p r e e' Hes Hr Ep Er) as [Hlt|[_ Hge]]; [|lia]. rewrite Hk', compare_refl in Hlt by done. lia.
Qed.

(** ** Positions *)

Definition shown_at (p : nat) : Prop := exists e, es !! p = Some e /\ shown s es e = true.

(** The number of entries that are shown before a position. *)
Definition rank (p : nat) : nat := length (List.filter (shown s es) (take p es)).

Lemma rank_S_shown p : shown_at p -> rank (S p) = S (rank p).
Proof. intros (e & E & H). unfold rank. rewrite (take_S_r _ _ _ E), List.filter_app, length_app. cbn [List.filter]. rewrite H. cbn. lia. Qed.

Lemma rank_S_hidden p : ~ shown_at p -> rank (S p) = rank p.
Proof.
  intros H. unfold rank. destruct (es !! p) as [e|] eqn:E.
  - rewrite (take_S_r _ _ _ E), List.filter_app, length_app. cbn [List.filter]. destruct (shown s es e) eqn:Es; [|cbn; lia]. destruct H. by exists e.
  - apply lookup_ge_None in E. by rewrite !take_ge by lia.
Qed.

(** Nothing is shown between two positions. *)
Lemma rank_skip p p' : (p <= p')%nat -> (forall q, (p <= q < p')%nat -> ~ shown_at q) -> rank p' = rank p.
Proof.
  intros Hle H. replace p' with (p + (p' - p))%nat by lia. remember (p' - p)%nat as n eqn:En. assert (forall q, (p <= q < p + n)%nat -> ~ shown_at q) as H' by (intros q Hq; apply H; lia).
  clear En Hle H p'. induction n as [|n IH]; [by rewrite Nat.add_0_r|]. rewrite Nat.add_succ_r, rank_S_hidden by (apply H'; lia). apply IH. intros q Hq. apply H'. lia.
Qed.

Lemma length_view : length (user_view s es) = rank (length es).
Proof. unfold user_view, rank. by rewrite length_map, take_ge by lia. Qed.

Lemma rank_0 : rank 0 = 0%nat.
Proof. done. Qed.

Lemma view_lookup p e : es !! p = Some e -> shown s es e = true -> user_view s es !! rank p = Some (e_key e, e_value e).
Proof. intros E H. unfold user_view. rewrite lookup_map. unfold rank. by rewrite (filter_lookup_at _ _ _ _ E H). Qed.

Lemma rank_lt p : shown_at p -> (rank p < length (user_view s es))%nat.
Proof. intros (e & E & H). apply lookup_lt_Some with (e_key e, e_value e). by apply view_lookup. Qed.

(** Every position of the view is that of an entry. *)
Lemma view_position i : (i < length (user_view s es))%nat -> exists p, shown_at p /\ rank p = i.
Proof.
  rewrite length_view. assert (forall n, (n <= length es)%nat -> (i < rank n)%nat -> exists p, (p < n)%nat /\ shown_at p /\ rank p = i) as H.
  { induction n as [|n IH]; intros Hn Hi; [rewrite rank_0 in Hi; lia|]. destruct (es !! n) as [e|] eqn:E; [|apply lookup_ge_None in E; lia].
    destruct (shown s es e) eqn:Es.
    - assert (shown_at n) as Hsh by (by exists e). rewrite (rank_S_shown n Hsh) in Hi. destruct (decide (rank n = i)) as [Hr|Hr]; [exists n; split_and!; [lia|done|done]|].
      destruct (IH ltac:(lia) ltac:(lia)) as (p & Hp & H1 & H2). exists p. split_and!; [lia|done|done].
    - rewrite rank_S_hidden in Hi; [|intros (e' & E' & H'); congruence]. destruct (IH ltac:(lia) Hi) as (p & Hp & H1 & H2). exists p. split_and!; [lia|done|done]. }
  intros Hi. destruct (H (length es) ltac:(lia) Hi) as (p & _ & Hp). by exists p.
Qed.

Lemma view_sorted : sorted_entries ucmp (user_view s es).
Proof.
  unfold sorted_entries, user_view. apply (StronglySorted_fmap (fun e : entry => (e_key e, e_value e)) (fun a b => cmp a b < 0)); [done|]. apply filter_sorted. intros i j a b Hij Ea Eb Ha Hb.
  pose proof (key_le i j a b ltac:(lia) Ea Eb) as Hle. apply (shown_lookup i a Ea) in Ha as (Hs & _ & _). apply (shown_lookup j b Eb) in Hb as (_ & _ & Hfirst).
  destruct (decide (cmp a b = 0)) as [H0|]; [|lia]. apply compare_eq in H0; [|done..]. specialize (Hfirst i a Hij Ea H0). lia.
Qed.
(** The view has what [Get] finds. *)
Lemma view_newest k v : (k, v) ∈ user_view s es <-> exists e, newest k s es = Some e /\ e_type e = kTypeValue /\ e_value e = v.
Proof.
  unfold user_view. rewrite list_elem_of_fmap. split.
  - intros (e & E & He). injection E as -> ->. apply list_elem_of_In, filter_In in He as [He Hs]. exists e. unfold shown in Hs. pose proof (newest_spec (e_key e) s es) as Hn.
    destruct (newest (e_key e) s es) as [e1|]; [|done]. destruct Hn as (Hin & Hv & _). apply andb_true_iff in Hs as [Hq Ht]. apply Z.eqb_eq in Hq. apply bool_decide_eq_true in Ht.
    apply visible_true in Hv as [Hk _]. apply list_elem_of_In in He. by rewrite (seqs_differ_elem es e1 e Hdiffer Hin He Hk Hq).
  - intros (e & E & Ht & <-). pose proof (newest_spec k s es) as Hn. rewrite E in Hn. destruct Hn as (Hin & [Hk _]%visible_true & _). exists e. split; [by rewrite Hk|].
    apply list_elem_of_In, filter_In. split; [by apply list_elem_of_In|]. unfold shown. rewrite Hk, E, Z.eqb_refl, Ht. done.
Qed.

(** * The loops *)

Section loops.
Context {A : Type} {ops : IterOps A} {key : slice -> Prop} {ipos : A -> nat -> Prop}.
Context `{HI : !IterLaws ops (InternalKeyComparator ucmp) key (table_of es) ipos}.
Context (Hsizes : Forall (fun e => slen (e_key e) + 8 + slen (e_value e) < 2 ^ 62) es).

Abbreviation state := (DBIter A).
Abbreviation N := (length es).

Lemma table_length : length (table_of es) = N.
Proof. apply length_map. Qed.

Lemma iter_entry it p e : ipos it p -> es !! p = Some e -> i_key ops it = entry_internal_key e /\ i_value ops it = Some (e_value e).
Proof.
  intros Hp E. assert (table_of es !! p = Some (entry_internal_key e, e_value e)) as Et by (apply table_of_lookup; eauto).
  split; [by eapply pos_key|by eapply pos_value].
Qed.

Lemma iter_valid it p : ipos it p -> i_Valid ops it = bool_decide (p < N)%nat.
Proof. intros Hp. rewrite (pos_Valid it p Hp). by rewrite table_length. Qed.

(** What [ParseKey] changes. *)
Definition resampled (d d' : state) : Prop :=
  di_iter d' = di_iter d /\ di_status d' = di_status d /\ saved_key_ d' = saved_key_ d /\ saved_value_ d' = saved_value_ d /\ di_direction d' = di_direction d /\ valid_ d' = valid_ d.

Lemma ParseKey_spec d p e :
  ipos (di_iter d) p -> es !! p = Some e -> sampling_ok d ->
  exists d', ParseKey ops d = Some (Some (entry_parsed e), d') /\ resampled d d' /\ sampling_ok d'.
Proof.
  intros Hp E [Hr Hb]. destruct (iter_entry _ p e Hp E) as [Hk Hv]. unfold ParseKey. rewrite Hv. cbn [mbind option_bind]. rewrite Hk.
  assert (slen (entry_internal_key e) + slen (e_value e) < 2 ^ 62) as Hsz by (pose proof (proj1 (Forall_lookup _ _) Hsizes p e E) as H; cbn beta in H; by rewrite length_internal_key).
  rewrite (wrap_small 64) by (unfold in_u in *; lia).
  destruct (sample_loop_spec (sample_fuel (slen (entry_internal_key e) + slen (e_value e))) (entry_internal_key e) (slen (entry_internal_key e) + slen (e_value e)) (rnd_ d)
    (bytes_until_read_sampling_ d) (di_samples d) Hr Hb ltac:(lia)) as (rnd & bytes & samples & -> & Hr' & Hb').
  { left. unfold sample_fuel. rewrite Z2Nat.id by lia. lia. }
  cbn [mbind option_bind]. rewrite (wrap_small 64) by (unfold in_u in *; lia). unfold entry_internal_key at 1 2.
  rewrite ParseInternalKey_Append by exact (proj1 (Forall_lookup _ _) (proj1 Hes) p e E). eexists. split; [done|]. split; [by split_and!|].
  split; [done|]. cbn [bytes_until_read_sampling_]. lia.
Qed.

(** ** [FindNextUserEntry] *)

(** An entry that the snapshot sees. *)
Definition seen (q : nat) (e : entry) : Prop := es !! q = Some e /\ e_seq e <= s.

(** The loop at [p] with [skipping] and a saved key, when it is to stop at the first position of [T]. *)
Definition searching (T : nat -> Prop) (p : nat) (skipping : bool) (saved : slice) : Prop :=
  (forall q, T q -> exists e, seen q e /\ e_type e = kTypeValue) /\
  (skipping = true -> forall q e, (p <= q)%nat -> seen q e -> Compare ucmp saved (e_key e) <= 0) /\
  (forall q e, (p <= q)%nat -> seen q e -> e_type e = kTypeValue ->
     T q <-> ~ (skipping = true /\ Compare ucmp (e_key e) saved <= 0) /\ forall r e', (p <= r < q)%nat -> seen r e' -> e_key e' <> e_key e).

(** What the loop leaves. *)
Definition forward_ok (d : state) : Prop := di_status d = OK /\ di_direction d = kForward /\ sampling_ok d.

Definition stopped (T : nat -> Prop) (p : nat) (d : state) : Prop :=
  forward_ok d /\ exists p', (p <= p')%nat /\ (forall q, (p <= q < p')%nat -> ~ T q) /\
    ((valid_ d = true /\ T p' /\ ipos (di_iter d) p') \/ (valid_ d = false /\ p' = N /\ exists q, ipos (di_iter d) q)).

Lemma searching_unseen T p skipping saved e :
  searching T p skipping saved -> es !! p = Some e -> s < e_seq e -> ~ T p /\ searching T (S p) skipping saved.
Proof.
  intros (HT & Ha & Hb) E Hs. split; [intros (e' & [E' He'] & _)%HT; rewrite E in E'; injection E' as <-; lia|]. split_and!; [done|intros Hsk q e' Hq; apply (Ha Hsk q e'); lia|].
  intros q e' Hq Hse Ht. rewrite (Hb q e' ltac:(lia) Hse Ht). split; (intros [H1 H2]; split; [exact H1|]); intros r er Hr Hser.
  - apply (H2 r er); [lia|done].
  - destruct (decide (r = p)) as [->|]; [destruct Hser as [E' ?]; rewrite E in E'; injection E' as <-; lia|apply (H2 r er); [lia|done]].
Qed.

Lemma searching_deletion T p skipping saved e :
  searching T p skipping saved -> seen p e -> e_type e = kTypeDeletion -> ~ T p /\ searching T (S p) true (e_key e).
Proof.
  intros (HT & Ha & Hb) Hse Ht. pose proof Hse as [E Hs]. split; [intros (e' & [E' _] & Ht')%HT; rewrite E in E'; injection E' as <-; by rewrite Ht in Ht'|].
  split_and!; [done|intros _ q e' Hq [Eq _]; by apply (key_le p q e e' ltac:(lia))|]. intros q e' Hq Hq' Ht'. rewrite (Hb q e' ltac:(lia) Hq' Ht').
  pose proof (key_le p q e e' ltac:(lia) E (proj1 Hq')) as Hle. split; intros [H1 H2].
  - split; [|intros r er Hr; apply (H2 r er); lia]. intros [_ Hc]. by apply (H2 p e ltac:(lia) Hse), key_same.
  - assert (e_key e <> e_key e') as Hne by (intros Heq; apply H1; split; [done|]; rewrite Heq, compare_refl by done; lia). split.
    + intros [Hsk Hc]. pose proof (Ha Hsk p e ltac:(lia) Hse) as Hsp. apply Hne, key_same; [done|]. apply (compare_le_trans (key := any_key) _ saved); done.
    + intros r er Hr Hser. destruct (decide (r = p)) as [->|]; [destruct Hser as [E' ?]; rewrite E in E'; by injection E' as <-|apply (H2 r er); [lia|done]].
Qed.

Lemma searching_hidden T p skipping saved e :
  searching T p skipping saved -> seen p e -> e_type e = kTypeValue -> skipping = true -> Compare ucmp (e_key e) saved <= 0 -> ~ T p /\ searching T (S p) skipping saved.
Proof.
  intros (HT & Ha & Hb) Hse Ht Hsk Hc. pose proof Hse as [E Hs]. split; [rewrite (Hb p e ltac:(lia) Hse Ht); intros [H _]; by apply H|].
  split_and!; [done|intros _ q e' Hq; apply (Ha Hsk q e'); lia|]. intros q e' Hq Hq' Ht'. rewrite (Hb q e' ltac:(lia) Hq' Ht').
  split; (intros [H1 H2]; split; [exact H1|]); intros r er Hr Hser; [apply (H2 r er); [lia|done]|].
  destruct (decide (r = p)) as [->|]; [|apply (H2 r er); [lia|done]]. destruct Hser as [E' ?]. rewrite E in E'. injection E' as <-. intros Heq. apply H1. split; [done|]. by rewrite <-Heq.
Qed.

Lemma FindNextUserEntry_spec T n d p skipping :
  ipos (di_iter d) p -> (p < N)%nat -> forward_ok d -> searching T p skipping (saved_key_ d) -> (N - p <= n)%nat ->
  exists d', FindNextUserEntry ops ucmp s n skipping d = Some d' /\ stopped T p d'.
Proof.
  revert d p skipping. induction n as [|n IH]; intros d p skipping Hp HpN (Hst & Hdir & Hsa) Hsearch Hn; [lia|]. cbn [FindNextUserEntry].
  destruct (lookup_lt_is_Some_2 es p HpN) as [e E]. destruct (ParseKey_spec d p e Hp E Hsa) as (d1 & -> & (R1 & R2 & R3 & R4 & R5 & R6) & Hsa1). cbn [mbind option_bind].
  rewrite <-R1 in Hp. rewrite <-R3 in Hsearch. destruct (pos_Next _ _ Hp ltac:(by rewrite table_length)) as (it & Eit & Hit).
  (* the next iteration *)
  assert (forall skipping' d2, di_iter d2 = di_iter d1 -> forward_ok d2 -> ~ T p -> searching T (S p) skipping' (saved_key_ d2) ->
    exists d', (it ← i_Next ops (di_iter d2); let d2 := set_iter it d2 in
      if i_Valid ops it then FindNextUserEntry ops ucmp s n skipping' d2 else Some (set_valid false (SaveKey [] d2))) = Some d' /\ stopped T p d') as Hnext.
  { intros skipping' d2 Ei Hf2 HnT Hs2. rewrite Ei, Eit. cbn [mbind option_bind]. rewrite (iter_valid it (S p) Hit).
    assert (forall d', stopped T (S p) d' -> stopped T p d') as Hweak.
    { intros d' (Hf & p' & Hle & Hno & Hres). split; [done|]. exists p'. split_and!; [lia| |done]. intros q Hq. destruct (decide (q = p)) as [->|]; [done|]. apply Hno. lia. }
    case_bool_decide as Hlt.
    - destruct (IH (set_iter it d2) (S p) skipping' Hit Hlt Hf2 Hs2 ltac:(lia)) as (d' & -> & Hd'). exists d'. split; [done|]. by apply Hweak.
    - eexists. split; [done|]. apply Hweak. split; [done|]. exists (S p). split_and!; [lia|intros q Hq; lia|]. right. split_and!; [done|lia|by exists (S p)]. }
  cbn [entry_parsed sequence type user_key]. assert (forward_ok d1) as Hf1 by (split_and!; [by rewrite R2|by rewrite R5|apply Hsa1..]).
  destruct (Z.leb_spec (e_seq e) s) as [Hle|Hgt].
  2:{ destruct (searching_unseen T p _ _ e Hsearch E Hgt) as [HnT Hs2]. by apply Hnext. }
  assert (seen p e) as Hse by done. destruct (e_type e) eqn:Ht.
  - destruct (searching_deletion T p _ _ e Hsearch Hse Ht) as [HnT Hs2]. by apply Hnext.
  - destruct (skipping && _) eqn:Eh.
    + apply andb_true_iff in Eh as [Hsk Hc%Z.leb_le]. destruct (searching_hidden T p _ _ e Hsearch Hse Ht Hsk Hc) as [HnT Hs2]. by apply Hnext.
    + eexists. split; [done|]. split; [done|]. exists p. split_and!; [lia|intros q Hq; lia|]. left. split_and!; [done| |done].
      apply (proj2 (proj2 Hsearch) p e ltac:(lia) Hse Ht). split; [|intros r er Hr; lia]. intros [-> Hc%Z.leb_le]. by rewrite Hc in Eh.
Qed.
(** ** [FindPrevUserEntry] *)

(** Where the internal iterator is when [c] entries are before it. *)
Abbreviation before c := (prev_pos N c).

(** The loop with [c] entries left of the [c0] that it started with. *)
Definition gathering (c0 c : nat) (value_type : ValueType) (saved value : slice) : Prop :=
  match value_type with
  | kTypeDeletion => forall q, (c <= q < c0)%nat -> ~ shown_at q
  | kTypeValue => exists r e, (c <= r < c0)%nat /\ seen r e /\ e_type e = kTypeValue /\ saved = e_key e /\ value = e_value e /\
      (forall q e', (c <= q < r)%nat -> ~ seen q e') /\ (forall q, (c <= q < c0)%nat -> shown_at q -> q = r)
  end.

(** What the loop leaves: no entry, or the last one that is shown. *)
Definition gathered (c0 : nat) (value_type : ValueType) (d : state) : Prop :=
  di_status d = OK /\ sampling_ok d /\
  match value_type with
  | kTypeDeletion => (forall q, (q < c0)%nat -> ~ shown_at q) /\ exists q, ipos (di_iter d) q
  | kTypeValue => exists c r e, (c <= r < c0)%nat /\ es !! r = Some e /\ shown s es e = true /\ saved_key_ d = e_key e /\ saved_value_ d = e_value e /\
      ipos (di_iter d) (before c) /\ (forall q e', (c <= q < r)%nat -> ~ seen q e') /\ (forall q, (c <= q < c0)%nat -> shown_at q -> q = r)
  end.

Lemma shown_seen q e : es !! q = Some e -> shown s es e = true -> seen q e /\ e_type e = kTypeValue.
Proof. intros E H. apply (shown_lookup q e E) in H as (H1 & H2 & _). by repeat split. Qed.

Lemma hidden_by x q e e' : (x < q)%nat -> seen x e' -> es !! q = Some e -> e_key e' = e_key e -> ~ shown_at q.
Proof.
  intros Hx [Ex Hs] E Hk (e1 & E1 & H1). rewrite E in E1. injection E1 as <-. apply (shown_lookup q e E) in H1 as (_ & _ & Hf). specialize (Hf x e' Hx Ex Hk). lia.
Qed.

Lemma gathering_unseen c0 c vt saved value e :
  gathering c0 (S c) vt saved value -> es !! c = Some e -> s < e_seq e -> gathering c0 c vt saved value.
Proof.
  intros H E Hs. assert (forall e', ~ seen c e') as Hun by (intros e' [E' ?]; rewrite E in E'; injection E' as <-; lia).
  assert (~ shown_at c) as Hns by (intros (e' & E' & H'); by apply (Hun e'), shown_seen). destruct vt; cbn [gathering] in *.
  - intros q Hq. destruct (decide (q = c)) as [->|]; [done|]. apply H. lia.
  - destruct H as (r & er & Hr & Hse & Ht & Hk & Hv & Hno & Hone). exists r, er. split; [lia|]. do 4 (split; [done|]). split.
    + intros q e' Hq. destruct (decide (q = c)) as [->|]; [apply Hun|]. apply Hno. lia.
    + intros q Hq Hsh. destruct (decide (q = c)) as [->|]; [done|]. apply Hone; [lia|done].
Qed.

(** Nothing that is shown is lost when the loop takes the entry [c]. *)
Lemma gathering_only c0 c vt saved value e :
  gathering c0 (S c) vt saved value -> seen c e -> (vt = kTypeValue -> ~ Compare ucmp (e_key e) saved < 0) -> forall q, (S c <= q < c0)%nat -> ~ shown_at q.
Proof.
  intros H Hse Hnb q Hq Hsh. destruct vt; cbn [gathering] in H; [by apply (H q)|]. destruct H as (r & er & Hr & [Er Hser] & Ht & -> & _ & _ & Hone).
  assert (q = r) as -> by (by apply Hone). apply (hidden_by c r er e); [lia|done|done| |done]. apply key_same; [apply (key_le c r); [lia|apply Hse|done]|].
  apply (compare_nlt (key := any_key)); [done..|]. by apply Hnb.
Qed.

Lemma gathering_entry c0 c vt saved value e :
  gathering c0 (S c) vt saved value -> seen c e -> (c < c0)%nat -> (vt = kTypeValue -> ~ Compare ucmp (e_key e) saved < 0) ->
  match e_type e with kTypeDeletion => gathering c0 c kTypeDeletion [] [] | kTypeValue => gathering c0 c kTypeValue (e_key e) (e_value e) end.
Proof.
  intros H Hse Hc Hnb. pose proof (gathering_only c0 c vt saved value e H Hse Hnb) as Hno. destruct (e_type e) eqn:Ht; cbn [gathering].
  - intros q Hq. destruct (decide (q = c)) as [->|]; [|apply Hno; lia]. intros (e' & E' & Hs'). apply (shown_seen c e' E') in Hs' as [_ Ht']. destruct Hse as [E _]. rewrite E in E'. injection E' as <-. by rewrite Ht in Ht'.
  - exists c, e. split; [lia|]. do 4 (split; [done|]). split; [intros q e' Hq; lia|]. intros q Hq Hsh. destruct (decide (q = c)) as [->|]; [done|]. exfalso. apply (Hno q); [lia|done].
Qed.

Lemma gathering_shown c0 c saved value d :
  gathering c0 c kTypeValue saved value -> saved = saved_key_ d -> value = saved_value_ d -> ipos (di_iter d) (before c) -> di_status d = OK -> sampling_ok d ->
  (forall q e', (q < c)%nat -> seen q e' -> Compare ucmp (e_key e') saved < 0) -> gathered c0 kTypeValue d.
Proof.
  intros (r & er & Hr & Hse & Ht & Hk & Hv & Hno & Hone) Esaved Evalue Hp Hst Hsa Hbefore. split; [done|]. split; [done|]. pose proof Hse as [E Hs]. rewrite Hk in Hbefore. exists c, r, er. split; [lia|]. split; [done|]. split; [|split_and!; [congruence|congruence|done..]].
  apply (shown_lookup r er E). split_and!; [done|done|]. intros q e' Hq E' Hk'. destruct (decide (s < e_seq e')) as [|Hns]; [done|]. exfalso. assert (seen q e') as Hse' by (split; [done|lia]).
  destruct (decide (c <= q)%nat) as [Hcq|Hcq]; [by apply (Hno q e'); [lia|]|]. specialize (Hbefore q e' ltac:(lia) Hse'). rewrite Hk', compare_refl in Hbefore by done. lia.
Qed.

Lemma FindPrev_loop_spec n d c0 c vt :
  ipos (di_iter d) c -> (c < c0)%nat -> (c0 <= N)%nat -> di_status d = OK -> sampling_ok d -> gathering c0 (S c) vt (saved_key_ d) (saved_value_ d) -> (S c <= n)%nat ->
  exists vt' d', FindPrev_loop ops ucmp s n vt d = Some (vt', d') /\ gathered c0 vt' d' /\ di_direction d' = di_direction d.
Proof.
  revert d c vt. induction n as [|n IH]; intros d c vt Hp Hc Hc0 Hst Hsa Hg Hn; [lia|]. cbn [FindPrev_loop].
  destruct (lookup_lt_is_Some_2 es c ltac:(lia)) as [e E]. destruct (ParseKey_spec d c e Hp E Hsa) as (d1 & -> & (R1 & R2 & R3 & R4 & R5 & R6) & Hsa1). cbn [mbind option_bind].
  rewrite <-R1 in Hp. rewrite <-R3, <-R4 in Hg. destruct (pos_Prev _ _ Hp ltac:(rewrite table_length; lia)) as (it & Eit & Hit). rewrite table_length in Hit.
  assert (forall vt' d2, di_iter d2 = di_iter d1 -> di_status d2 = OK -> sampling_ok d2 -> di_direction d2 = di_direction d -> gathering c0 c vt' (saved_key_ d2) (saved_value_ d2) ->
    exists vt'' d', (it ← i_Prev ops (di_iter d2); let d2 := set_iter it d2 in
      if i_Valid ops it then FindPrev_loop ops ucmp s n vt' d2 else Some (vt', d2)) = Some (vt'', d') /\ gathered c0 vt'' d' /\ di_direction d' = di_direction d) as Hprev.
  { intros vt' d2 Ei Hst2 Hsa2 Hdir2 Hg2. rewrite Ei, Eit. cbn [mbind option_bind]. rewrite (iter_valid it _ Hit). destruct c as [|c].
    - rewrite bool_decide_false by (unfold prev_pos; case_decide; lia). exists vt', (set_iter it d2). split; [done|]. split; [|done]. destruct vt'.
      + split; [done|]. split; [done|]. split; [|by exists (before 0)]. intros q Hq. apply Hg2. lia.
      + apply (gathering_shown c0 0 (saved_key_ d2) (saved_value_ d2)); try done. intros q e' Hq. lia.
    - assert (before (S c) = c) as Hbc by (unfold prev_pos; case_decide; lia). rewrite Hbc in Hit. rewrite bool_decide_true by (rewrite Hbc; lia).
      destruct (IH (set_iter it d2) c vt' Hit ltac:(lia) Hc0 Hst2 Hsa2 Hg2 ltac:(lia)) as (vt'' & d' & -> & Hd' & Hdir'). exists vt'', d'. split; [done|]. split; [done|]. by rewrite Hdir'. }
  cbn [entry_parsed sequence type user_key]. assert (di_status d1 = OK) as Hst1 by (by rewrite R2). destruct (Z.leb_spec (e_seq e) s) as [Hle|Hgt].
  2:{ apply Hprev; [done|done|done|done|]. by apply (gathering_unseen c0 c vt _ _ e). }
  assert (seen c e) as Hse by done. destruct (negb _ && _) eqn:Eb.
  - apply andb_true_iff in Eb as [Hv Hlt%Z.ltb_lt]. apply negb_true_iff, bool_decide_eq_false in Hv. destruct vt; [done|]. eexists _, d1. split; [done|]. split; [|done].
    apply (gathering_shown c0 (S c) (saved_key_ d1) (saved_value_ d1)); try done.
    + replace (before (S c)) with c by (unfold prev_pos; case_decide; lia). done.
    + intros q e' Hq [E' _]. apply (compare_le_lt (key := any_key) _ (e_key e)); [done..| |done]. apply (key_le q c); [lia|done..].
  - assert (vt = kTypeValue -> ~ Compare ucmp (e_key e) (saved_key_ d1) < 0) as Hnb by (intros ->; rewrite bool_decide_false in Eb by done; cbn [negb andb] in Eb; apply Z.ltb_ge in Eb; lia).
    pose proof (gathering_entry c0 c vt _ _ e Hg Hse Hc Hnb) as Hg'. destruct (e_type e); [by apply Hprev|].
    destruct (iter_entry _ c e Hp E) as [Hk Hv]. rewrite Hv. cbn [mbind option_bind]. rewrite Hk. unfold entry_internal_key. rewrite AppendInternalKey_user. by apply Hprev.
Qed.

(** ** Positions in the view *)

Abbreviation V := (length (user_view s es)).

Definition dbiter_pos (d : state) (i : nat) : Prop :=
  di_status d = OK /\ sampling_ok d /\
  ((valid_ d = true /\ di_direction d = kForward /\ exists p, ipos (di_iter d) p /\ shown_at p /\ rank p = i) \/
   (valid_ d = true /\ di_direction d = kReverse /\ exists c r e, (c <= r)%nat /\ es !! r = Some e /\ shown s es e = true /\ rank r = i /\
      saved_key_ d = e_key e /\ saved_value_ d = e_value e /\ ipos (di_iter d) (before c) /\ forall q e', (c <= q < r)%nat -> ~ seen q e') \/
   (valid_ d = false /\ i = V /\ exists q, ipos (di_iter d) q)).

Lemma stopped_pos p d : stopped shown_at p d -> dbiter_pos d (rank p).
Proof.
  intros ((Hst & Hdir & Hsa) & p' & Hle & Hno & Hres). rewrite <-(rank_skip p p' Hle Hno). split; [done|]. split; [done|]. destruct Hres as [(Hv & HT & Hp)|(Hv & -> & Hq)].
  - left. split_and!; [done..|]. by exists p'.
  - right; right. by rewrite length_view.
Qed.

Lemma shown_iff q e : seen q e -> e_type e = kTypeValue -> shown_at q <-> forall r e', (r < q)%nat -> seen r e' -> e_key e' <> e_key e.
Proof.
  intros [E Hs] Ht. split.
  - intros Hsh r e' Hr Hse Hk. by apply (hidden_by r q e e').
  - intros H. exists e. split; [done|]. apply (shown_lookup q e E). split_and!; [done..|]. intros r e' Hr Er Hk. destruct (decide (s < e_seq e')); [done|]. destruct (H r e' Hr); [split; [done|lia]|done].
Qed.

Lemma shown_value q : shown_at q -> exists e, seen q e /\ e_type e = kTypeValue.
Proof. intros (e & E & H). exists e. by apply shown_seen. Qed.

Context (fuel : nat) (Hfuel : (N <= fuel)%nat).

Lemma FindPrevUserEntry_spec d c0 :
  ipos (di_iter d) (before c0) -> (c0 <= N)%nat -> di_status d = OK -> sampling_ok d -> di_direction d = kReverse ->
  exists d', FindPrevUserEntry ops ucmp s fuel d = Some d' /\ dbiter_pos d' (prev_pos V (rank c0)).
Proof.
  intros Hp Hc0 Hst Hsa Hdir. unfold FindPrevUserEntry. rewrite (iter_valid _ _ Hp).
  assert (exists vt d', (if bool_decide (before c0 < N)%nat then FindPrev_loop ops ucmp s (S fuel) kTypeDeletion d else Some (kTypeDeletion, d)) = Some (vt, d') /\
    gathered c0 vt d' /\ di_direction d' = kReverse) as (vt & d' & -> & (Hst' & Hsa' & Hg) & Hdir').
  { case_bool_decide as Hb.
    - destruct c0 as [|c]; [unfold prev_pos in Hb; case_decide; lia|]. assert (before (S c) = c) as Hbc by (unfold prev_pos; case_decide; lia). rewrite Hbc in Hp.
      destruct (FindPrev_loop_spec (S fuel) d (S c) c kTypeDeletion Hp ltac:(lia) Hc0 Hst Hsa) as (vt & d' & E & Hg & Hd); [intros q Hq; lia|lia|].
      exists vt, d'. split_and!; [done..|]. by rewrite Hd.
    - exists kTypeDeletion, d. split; [done|]. split; [|done]. split; [done|]. split; [done|]. split; [|by eexists]. intros q Hq. unfold prev_pos in Hb. case_decide; lia. }
  cbn [mbind option_bind]. eexists. split; [done|]. destruct vt.
  - destruct Hg as [Hno Hq]. assert (rank c0 = 0%nat) as -> by (rewrite <-rank_0; apply rank_skip; [lia|intros q Hq'; apply Hno; lia]). split; [done|]. split; [done|]. right; right. by split_and!.
  - destruct Hg as (c & r & e & Hr & E & Hsh & Hk & Hv & Hp' & Hno & Hone). assert (shown_at r) as Hshr by (by exists e).
    assert (rank c0 = S (rank r)) as ->.
    { rewrite <-(rank_S_shown r Hshr). apply rank_skip; [lia|]. intros q Hq Hsq. specialize (Hone q ltac:(lia) Hsq). lia. }
    split; [done|]. split; [done|]. right; left. split; [done|]. split; [done|]. exists c, r, e. split_and!; try done; [lia|unfold prev_pos; case_decide; lia].
Qed.

Lemma Prev_loop_spec n d p p0 e0 :
  ipos (di_iter d) p -> (p <= p0 < N)%nat -> saved_key_ d = e_key e0 -> (forall q e, (p <= q < p0)%nat -> es !! q = Some e -> e_key e = e_key e0) -> es !! p0 = Some e0 -> (S p <= n)%nat ->
  exists more d' c, Prev_loop ops ucmp n d = Some (more, d') /\ di_status d' = di_status d /\ (sampling_ok d -> sampling_ok d') /\ (c <= p0)%nat /\
    (forall q e, (c <= q < p0)%nat -> es !! q = Some e -> e_key e = e_key e0) /\
    if more then ipos (di_iter d') (before c) else c = 0%nat /\ valid_ d' = false /\ exists q, ipos (di_iter d') q.
Proof.
  revert d p. induction n as [|n IH]; intros d p Hp Hp0 Hk Hsame E0 Hn; [lia|]. cbn [Prev_loop].
  destruct (pos_Prev _ _ Hp ltac:(rewrite table_length; lia)) as (it & -> & Hit). rewrite table_length in Hit. cbn [mbind option_bind]. rewrite (iter_valid it _ Hit). destruct p as [|p].
  - rewrite bool_decide_false by (unfold prev_pos; case_decide; lia). cbn [negb]. eexists _, _, 0%nat. split; [done|]. split_and!; try done; [lia|]. by exists (before 0).
  - assert (before (S p) = p) as Hbp by (unfold prev_pos; case_decide; lia). rewrite Hbp in Hit |- *. rewrite bool_decide_true by lia. cbn [negb].
    destruct (lookup_lt_is_Some_2 es p ltac:(lia)) as [e E]. destruct (iter_entry it p e Hit E) as [Hki _]. rewrite Hki. unfold entry_internal_key at 1. rewrite AppendInternalKey_user. cbn [entry_parsed user_key].
    change (saved_key_ (set_iter it d)) with (saved_key_ d). rewrite Hk. destruct (Z.ltb_spec (Compare ucmp (e_key e) (e_key e0)) 0) as [Hlt|Hge].
    + eexists _, _, (S p). split; [done|]. split_and!; try done; [lia|]. by rewrite Hbp.
    + assert (e_key e = e_key e0) as Hkk by (apply key_same; [by apply (key_le p p0); [lia|..]|]; by apply (compare_nlt (key := any_key)); [..|lia]).
      destruct (IH (set_iter it d) p Hit ltac:(lia) Hk) as (more & d' & c & E' & Hrest); [|done|lia|by exists more, d', c].
      intros q e' Hq Eq. destruct (decide (q = p)) as [->|]; [congruence|]. apply (Hsame q); [lia|done].
Qed.

(** ** The operations *)

Context `{!SeparatorSame any_key ucmp}.

Lemma dbiter_any d i : dbiter_pos d i -> di_status d = OK /\ sampling_ok d /\ exists q, ipos (di_iter d) q.
Proof.
  intros (Hst & Hsa & [(_ & _ & p & Hp & _)|[(_ & _ & c & r & e & _ & _ & _ & _ & _ & _ & Hp & _)|(_ & _ & Hq)]]); (split; [done|]; split; [done|]); by eauto.
Qed.

(** A search for the first entry at or past [p] that is to be shown. *)
Lemma search_from T (P : state -> Prop) it d d0 p skipping :
  ipos it p -> di_iter d = it -> forward_ok d -> (p <= N)%nat -> searching T p skipping (saved_key_ d) ->
  di_iter d0 = it /\ forward_ok d0 /\ valid_ d0 = false -> (forall d', stopped T p d' -> P d') ->
  exists d', (if i_Valid ops it then FindNextUserEntry ops ucmp s (S fuel) skipping d else Some d0) = Some d' /\ P d'.
Proof.
  intros Hp Ei Hf HpN Hs (Ei0 & Hf0 & Hv0) HP. rewrite (iter_valid it p Hp). case_bool_decide as Hlt.
  - destruct (FindNextUserEntry_spec T (S fuel) d p skipping) as (d' & E & Hd'); [by rewrite Ei|done..|lia|]. exists d'. auto.
  - exists d0. split; [done|]. apply HP. split; [done|]. exists p. split_and!; [lia|intros q Hq; lia|]. right. split_and!; [done|lia|]. exists p. by rewrite Ei0.
Qed.

Lemma DBIter_SeekToFirst_spec d i : dbiter_pos d i -> exists d', DBIter_SeekToFirst ops ucmp s fuel d = Some d' /\ dbiter_pos d' 0%nat.
Proof.
  intros (Hst & Hsa & q & Hq)%dbiter_any. unfold DBIter_SeekToFirst. cbn [ClearSavedValue save_value set_direction di_iter].
  destruct (pos_SeekToFirst _ _ Hq) as (it & -> & Hit). cbn [mbind option_bind].
  apply (search_from shown_at _ it _ _ 0 false Hit); [done|by split_and!|lia| |by split_and!|].
  - split_and!; [apply shown_value|done|]. intros q' e _ Hse Ht. rewrite (shown_iff q' e Hse Ht). split; [intros H; split; [by intros [? _]|]; intros r e' Hr; apply (H r e'); lia|intros [_ H] r e' Hr; apply (H r e'); lia].
  - intros d' Hd'. rewrite <-rank_0. by apply stopped_pos.
Qed.

Lemma DBIter_SeekToLast_spec d i : dbiter_pos d i -> exists d', DBIter_SeekToLast ops ucmp s fuel d = Some d' /\ dbiter_pos d' (V - 1)%nat.
Proof.
  intros (Hst & Hsa & q & Hq)%dbiter_any. unfold DBIter_SeekToLast. cbn [ClearSavedValue save_value set_direction di_iter].
  destruct (pos_SeekToLast _ _ Hq) as (it & -> & Hit). rewrite table_length in Hit. cbn [mbind option_bind].
  replace (V - 1)%nat with (prev_pos V (rank N)) by (rewrite <-length_view; unfold prev_pos; case_decide; lia).
  apply FindPrevUserEntry_spec; [|lia|done..]. replace (before N) with (N - 1)%nat by (unfold prev_pos; case_decide; lia). done.
Qed.

Lemma searching_after p e : es !! p = Some e -> shown s es e = true -> searching shown_at (S p) true (e_key e).
Proof.
  intros E Hsh. destruct (shown_seen p e E Hsh) as [Hse _]. split_and!; [apply shown_value|intros _ q e' Hq [Eq _]; by apply (key_le p q e e'); [lia|..]|].
  intros q e' Hq Hse' Ht'. rewrite (shown_iff q e' Hse' Ht'). pose proof (key_le p q e e' ltac:(lia) E (proj1 Hse')) as Hle. split.
  - intros H. split; [|intros r er Hr; apply (H r er); lia]. intros [_ Hc]. apply (H p e ltac:(lia) Hse). by apply key_same.
  - intros [H1 H2] r er Hr Hser. destruct (decide (S p <= r)%nat) as [|Hrp]; [apply (H2 r er); [lia|done]|]. intros Hk. apply H1. split; [done|]. rewrite <-Hk. apply (key_le r p); [lia|apply Hser|done].
Qed.

Lemma searching_again c r e : (c <= r)%nat -> es !! r = Some e -> shown s es e = true -> (forall q e', (c <= q < r)%nat -> ~ seen q e') ->
  searching (fun q => shown_at q /\ (r < q)%nat) c true (e_key e).
Proof.
  intros Hc E Hsh Hno. destruct (shown_seen r e E Hsh) as [Hse _]. assert (forall q e', (c <= q)%nat -> seen q e' -> (r <= q)%nat) as Hge by (intros q e' Hq Hq'; destruct (decide (r <= q)%nat); [done|]; destruct (Hno q e'); [lia|done]).
  split_and!; [by intros q [?%shown_value _]|intros _ q e' Hq Hq'; apply (key_le r q e e'); [by eapply Hge|done|apply Hq']|].
  intros q e' Hq Hse' Ht'. pose proof (Hge q e' Hq Hse') as Hrq. rewrite (shown_iff q e' Hse' Ht'). pose proof (key_le r q e e' Hrq E (proj1 Hse')) as Hle. split.
  - intros [H Hlt]. split; [|intros x ex Hx; apply (H x ex); lia]. intros [_ Hk]. apply (H r e Hlt Hse). by apply key_same.
  - intros [H1 H2]. assert (r < q)%nat as Hlt.
    { destruct (decide (r = q)) as [->|]; [|lia]. exfalso. apply H1. split; [done|]. destruct Hse' as [E' _]. rewrite E in E'. injection E' as <-. rewrite compare_refl by done. lia. }
    split; [|done]. intros x ex Hx Hsex. destruct (decide (c <= x)%nat) as [|Hcx]; [apply (H2 x ex); [lia|done]|]. intros Hk. apply H1. split; [done|]. rewrite <-Hk. apply (key_le x r); [lia|apply Hsex|done].
Qed.

Lemma DBIter_Next_spec d i : dbiter_pos d i -> (i < V)%nat -> exists d', DBIter_Next ops ucmp s fuel d = Some d' /\ dbiter_pos d' (S i).
Proof.
  intros (Hst & Hsa & [(_ & Hdir & p & Hp & (e & E & Hsh) & <-)|[(_ & Hdir & c & r & e & Hc & E & Hsh & <- & Hk & _ & Hp & Hno)|(_ & -> & _)]]) Hi; [| |lia]; unfold DBIter_Next; rewrite Hdir.
  - destruct (iter_entry _ p e Hp E) as [Hki _]. destruct (pos_Next _ _ Hp) as (it & Eit & Hit); [rewrite table_length; by apply lookup_lt_Some in E|]. cbn [SaveKey di_iter]. rewrite Eit. cbn [mbind option_bind].
    rewrite Hki. unfold entry_internal_key. rewrite AppendInternalKey_user.
    apply (search_from shown_at _ it _ _ (S p) true Hit); [done|by split_and!|by apply lookup_lt_Some in E|by apply searching_after|by split_and!|].
    intros d' Hd'. rewrite <-(rank_S_shown p) by (by exists e). by apply stopped_pos.
  - apply lookup_lt_Some in E as HrN. assert (exists it, (if i_Valid ops (di_iter d) then i_Next ops (di_iter d) else i_SeekToFirst ops (di_iter d)) = Some it /\ ipos it c) as (it & -> & Hit).
    { rewrite (iter_valid _ _ Hp). destruct c as [|c].
      - rewrite bool_decide_false by (unfold prev_pos; case_decide; lia). by apply (pos_SeekToFirst _ _ Hp).
      - assert (before (S c) = c) as Hbc by (unfold prev_pos; case_decide; lia). rewrite Hbc in Hp |- *. rewrite bool_decide_true by lia. apply (pos_Next _ _ Hp). rewrite table_length. lia. }
    cbn [mbind option_bind set_iter set_direction di_iter]. set (T q := shown_at q /\ (r < q)%nat).
    apply (search_from T _ it _ _ c true Hit); [done|by split_and!|lia|change (searching T c true (saved_key_ d)); rewrite Hk; by apply searching_again|by split_and!|].
    intros d' Hd'. rewrite <-(rank_S_shown r) by (by exists e). apply stopped_pos. destruct Hd' as (Hf & p' & Hle & HnT & Hres). split; [done|].
    assert (r < p')%nat as Hrp by (destruct Hres as [(_ & [_ ?] & _)|(_ & -> & _)]; lia). exists p'. split_and!; [lia| |].
    + intros q Hq Hsq. apply (HnT q); [lia|]. split; [done|lia].
    + destruct Hres as [(Hv & [HT _] & Hp')|Hres]; [by left|by right].
Qed.

Lemma DBIter_Prev_spec d i : dbiter_pos d i -> (i < V)%nat -> exists d', DBIter_Prev ops ucmp s fuel d = Some d' /\ dbiter_pos d' (prev_pos V i).
Proof.
  intros (Hst & Hsa & [(_ & Hdir & p & Hp & (e & E & Hsh) & <-)|[(_ & Hdir & c & r & e & Hc & E & Hsh & <- & Hk & _ & Hp & Hno)|(_ & -> & _)]]) Hi; [| |lia]; unfold DBIter_Prev; rewrite Hdir.
  - destruct (iter_entry _ p e Hp E) as [Hki _]. rewrite Hki. unfold entry_internal_key. rewrite AppendInternalKey_user. cbn [entry_parsed user_key]. apply lookup_lt_Some in E as HpN.
    destruct (Prev_loop_spec (S fuel) (SaveKey (e_key e) d) p p e Hp ltac:(lia) eq_refl ltac:(intros; lia) E ltac:(lia)) as (more & d1 & c & -> & Hst1 & Hsa1 & Hc & Hsame & Hmore).
    cbn [mbind option_bind]. assert (rank p = rank c) as ->.
    { apply rank_skip; [lia|]. intros q Hq (e' & E' & Hs'). destruct (shown_seen q e' E' Hs') as [Hseq' _]. apply (hidden_by q p e e'); [lia|done|done|by apply (Hsame q)|]. by exists e. }
    destruct more.
    + apply FindPrevUserEntry_spec; [done|lia|by rewrite <-Hst|by apply Hsa1|done].
    + destruct Hmore as (-> & Hv & Hq). exists d1. split; [done|]. split; [by rewrite Hst1|]. split; [by apply Hsa1|]. right; right. by split_and!.
  - apply lookup_lt_Some in E as HrN. assert (rank r = rank c) as ->.
    { apply rank_skip; [lia|]. intros q Hq (e' & E' & Hs'). apply (Hno q e' Hq). by apply shown_seen. }
    apply FindPrevUserEntry_spec; [done|lia|done..].
Qed.

Lemma rank_mono p p' : (p <= p')%nat -> (rank p <= rank p')%nat.
Proof.
  intros H. unfold rank. replace p' with (p + (p' - p))%nat by lia. rewrite <-take_take_drop, List.filter_app, length_app. lia.
Qed.

Lemma DBIter_Seek_spec d i t :
  dbiter_pos d i -> key (AppendInternalKey [] (ParsedKey t s kValueTypeForSeek)) -> exists d', DBIter_Seek ops ucmp s fuel t d = Some d' /\ dbiter_pos d' (seek_pos ucmp t (user_view s es)).
Proof.
  intros (Hst & Hsa & q & Hq)%dbiter_any Ht. unfold DBIter_Seek. cbn [SaveKey ClearSavedValue save_value set_direction di_iter saved_key_].
  destruct (pos_Seek _ _ _ Hq Ht) as (it & -> & Hit). cbn [mbind option_bind]. rewrite <-internal_key_New in Hit. set (p := seek_pos _ _ _) in Hit.
  assert (forall r e, es !! r = Some e -> (r < p)%nat <-> Compare ucmp (e_key e) t < 0 \/ (e_key e = t /\ s < e_seq e)) as Hp.
  { intros r e E. rewrite <-(lookup_before ucmp e t s) by (done || exact (proj1 (Forall_lookup _ _) (proj1 Hes) r e E)). symmetry.
    apply (seek_pos_spec (key := is_internal_key) (table_of es) _ r (entry_internal_key e) (e_value e)); [apply entries_keys|apply Hes|rewrite internal_key_New; apply AppendInternalKey_internal|apply table_of_lookup; eauto]. }
  assert (p <= N)%nat as HpN by (unfold p; rewrite <-table_length; apply seek_pos_le).
  assert (forall r e, (r < p)%nat -> seen r e -> Compare ucmp (e_key e) t < 0) as Hbefore by (intros r e Hr [E Hse]; destruct (proj1 (Hp r e E) Hr) as [|[_ ?]]; [done|lia]).
  assert (forall r e, (p <= r)%nat -> es !! r = Some e -> 0 <= Compare ucmp (e_key e) t) as Hafter.
  { intros r e Hr E. destruct (decide (Compare ucmp (e_key e) t < 0)); [|lia]. assert (r < p)%nat by (apply (Hp r e E); by left). lia. }
  apply (search_from shown_at _ it _ _ p false Hit); [done|by split_and!|done| |by split_and!|].
  - split_and!; [apply shown_value|done|]. intros r e Hr Hse Hty. rewrite (shown_iff r e Hse Hty). split; [intros H; split; [by intros [? _]|]; intros x ex Hx; apply (H x ex); lia|].
    intros [_ H] x ex Hx Hsx Hk. destruct (decide (p <= x)%nat) as [|Hxp]; [apply (H x ex); [lia|done..]|]. specialize (Hbefore x ex ltac:(lia) Hsx). specialize (Hafter r e Hr (proj1 Hse)). rewrite Hk in Hbefore. lia.
  - intros d' Hd'%stopped_pos. enough (seek_pos ucmp t (user_view s es) = rank p) as -> by done. symmetry. apply (seek_pos_unique (key := any_key)); [by apply Forall_true|apply view_sorted|done|..].
    + rewrite length_view. by apply rank_mono.
    + intros j k v Hj Ev. destruct (view_position j) as (r & (e & E & Hsh) & <-); [by apply lookup_lt_Some in Ev|]. rewrite (view_lookup r e E Hsh) in Ev. injection Ev as <- <-.
      apply (Hbefore r e); [|by apply shown_seen]. destruct (decide (r < p)%nat); [done|]. pose proof (rank_mono p r ltac:(lia)). lia.
    + intros k v Ev. destruct (view_position (rank p)) as (r & (e & E & Hsh) & Hr); [by apply lookup_lt_Some in Ev|]. rewrite <-Hr, (view_lookup r e E Hsh) in Ev. injection Ev as <- <-.
      apply (Hafter r e); [|done]. destruct (decide (p <= r)%nat); [done|]. pose proof (rank_mono (S r) p ltac:(lia)) as Hm. rewrite rank_S_shown in Hm by (by exists e). lia.
Qed.

Lemma dbiter_shows d i k v : dbiter_pos d i -> user_view s es !! i = Some (k, v) -> DBIter_key ops d = k /\ DBIter_value ops d = Some v.
Proof.
  unfold DBIter_key, DBIter_value. intros (Hst & Hsa & [(_ & -> & p & Hp & (e & E & Hsh) & <-)|[(_ & -> & c & r & e & Hc & E & Hsh & <- & -> & -> & _)|(_ & -> & _)]]) Ev.
  - rewrite (view_lookup p e E Hsh) in Ev. injection Ev as <- <-. destruct (iter_entry _ p e Hp E) as [-> ->]. unfold entry_internal_key. by rewrite AppendInternalKey_user.
  - rewrite (view_lookup r e E Hsh) in Ev. injection Ev as <- <-. done.
  - apply lookup_lt_Some in Ev. lia.
Qed.

#[export] Instance DBIter_laws :
  IterLaws (DBIter_ops ops ucmp s fuel) ucmp (fun t => key (AppendInternalKey [] (ParsedKey t s kValueTypeForSeek))) (user_view s es) dbiter_pos.
Proof.
  split.
  - intros d i (_ & _ & [(_ & _ & p & _ & Hsh%rank_lt & <-)|[(_ & _ & c & r & e & _ & E & Hsh & <- & _)|(_ & -> & _)]]); [lia| |lia].
    pose proof (rank_lt r ltac:(by exists e)). lia.
  - intros d i (_ & _ & [(Hv & _ & p & _ & Hsh%rank_lt & <-)|[(Hv & _ & c & r & e & _ & E & Hsh & <- & _)|(Hv & -> & _)]]); cbn [i_Valid DBIter_ops]; rewrite Hv; symmetry.
    + by apply bool_decide_eq_true.
    + apply bool_decide_eq_true, rank_lt. by exists e.
    + apply bool_decide_eq_false. lia.
  - intros d i k v H E. exact (proj1 (dbiter_shows d i k v H E)).
  - intros d i k v H E. exact (proj2 (dbiter_shows d i k v H E)).
  - intros d i (Hst & _ & q & Hq)%dbiter_any. cbn [i_status DBIter_ops]. unfold DBIter_status. rewrite Hst, ok_OK. by eapply pos_status.
  - apply DBIter_Seek_spec.
  - apply DBIter_SeekToFirst_spec.
  - apply DBIter_SeekToLast_spec.
  - apply DBIter_Next_spec.
  - apply DBIter_Prev_spec.
Qed.

Lemma NewDBIterator_pos it q seed : ipos it q -> dbiter_pos (NewDBIterator it seed) V.
Proof. intros Hq. split; [done|]. split; [apply NewDBIterator_sampling|]. right; right. split_and!; [done..|]. by exists q. Qed.
End loops.
End view.

(** * Properties *)

(** C6. What a user iterates over is what [Get] finds.  Let the internal iterator keep the promises of iterator.h over the
    sorted entries [es] of a store.  Then the database iterator at the snapshot [s] is, after any calls that iterator.h
    allows, in any order and with any changes of direction, at the position that the specification says in the list of the
    user keys whose newest entry at most as new as the snapshot is a value, each with this value, in the order of the keys.
    No loop runs for ever, the one that draws random sampling periods included, and the status stays OK. *)
Theorem db_iterator_refines (A : Type) (ops : IterOps A) (ucmp : Comparator) (L : ComparatorLaws any_key ucmp) (LS : SeparatorSame any_key ucmp)
    (key : slice -> Prop) (es : list entry) (ipos : A -> nat -> Prop) (s seed : Z) (it : A) (q fuel : nat) :
  IterLaws ops (InternalKeyComparator ucmp) key (table_of es) ipos -> ipos it q ->
  seq_ok s -> entries_ok ucmp es -> seqs_differ es -> Forall (fun e => slen (e_key e) + 8 + slen (e_value e) < 2 ^ 62) es -> (length es <= fuel)%nat ->
  let view := user_view s es in
  (forall k v, (k, v) ∈ view <-> exists e, newest k s es = Some e /\ e_type e = kTypeValue /\ e_value e = v) /\ sorted_entries ucmp view /\
  forall calls i, Forall (op_key (fun t => key (AppendInternalKey [] (ParsedKey t s kValueTypeForSeek)))) calls ->
    run_ops (spec_op ucmp view) calls (length view) = Some i ->
    exists d, run_ops (iter_op (DBIter_ops ops ucmp s fuel)) calls (NewDBIterator it seed) = Some d /\
      i_status (DBIter_ops ops ucmp s fuel) d = OK /\ current (DBIter_ops ops ucmp s fuel) d = view !! i.
Proof.
  intros HI Hit Hs Hes Hd Hsz Hf view. split; [by apply view_newest|]. split; [by apply view_sorted|]. intros calls i Hcalls Hrun.
  pose proof (DBIter_laws ucmp s Hs es Hes Hd Hsz fuel Hf (HI := HI)) as DL.
  destruct (run_ops_spec calls _ _ i (NewDBIterator_pos s es it q seed Hit) Hcalls Hrun) as (d & E & Hp).
  exists d. split; [exact E|]. split; [by apply (pos_status d i)|by apply (pos_current d i)].
Qed.

(** Entries of three keys, one of them deleted, seen at 4. *)
Definition view_entries : list entry :=
  [MkEntry 7 kTypeValue (lit "a") (lit "new"); MkEntry 2 kTypeValue (lit "a") (lit "old"); MkEntry 4 kTypeDeletion (lit "b") []; MkEntry 1 kTypeValue (lit "b") (lit "gone");
   MkEntry 3 kTypeValue (lit "c") (lit "3")].

Lemma db_iterator_refines_witness :
  let bops := Block_ops (InternalKeyComparator BytewiseComparator) in
  let it := Block_NewIterator (NewBlock (BlockBuilder_Finish (build 2 (table_of view_entries))).1) in
  let calls := [OpSeekToLast; OpPrev; OpNext; OpPrev] in
  exists d, run_ops (iter_op (DBIter_ops bops BytewiseComparator 4 5)) calls (NewDBIterator it 301) = Some d /\
    i_status (DBIter_ops bops BytewiseComparator 4 5) d = OK /\ current (DBIter_ops bops BytewiseComparator 4 5) d = Some (lit "a", lit "old").
Proof.
  intros bops it calls. assert (entries_ok BytewiseComparator view_entries) as Hes by (split; [repeat constructor; by vm_compute|repeat constructor; by vm_compute]).
  assert (sizes_ok 2 (table_of view_entries)) as Hsz by (split; [by vm_compute|repeat constructor]).
  destruct (db_iterator_refines _ bops BytewiseComparator _ _ is_internal_key view_entries (block_pos 2 (table_of view_entries)) 4 301 it 5 5) as (_ & _ & H).
  - refine (Block_iter_laws 2 _ is_internal_key _ _ Hsz (entries_keys _) (proj2 Hes)). lia.
  - apply (NewIterator_pos 2 (table_of view_entries)); [lia|done].
  - by vm_compute.
  - exact Hes.
  - cbn. split_and!; try exact I; intros e He; repeat (apply elem_of_cons in He as [->|He]; [done|]); by apply elem_of_nil in He.
  - repeat constructor; by vm_compute.
  - vm_compute. lia.
  - destruct (H calls 0%nat) as (d & E & Hst & Hc); [repeat constructor|reflexivity|]. exists d. split; [exact E|]. split; [exact Hst|exact Hc].
Defined.
