(* ===== verification/TableBuilder.v ===== *)
(** TableBuilder: table/table_builder.cc, the writer of a table file: data blocks with an index of short separators, a filter
    block, a metaindex block and the footer. *)

From Stdlib Require Import Strings.Byte Strings.String.
From S2P Require Import Prelude Coding Crc32c Comparator Status Env FilterPolicy FilterBlock Format Iterator TwoLevelIterator Block.

(** * The options that tables use *)

Record Options := MkOptions {
  opt_comparator : Comparator;
  opt_paranoid_checks : bool;
  opt_block_size : Z;
  opt_block_restart_interval : Z;
  opt_compression : CompressionType;
  opt_zstd_compression_level : Z;
  opt_filter_policy : option FilterPolicy;
}.

(** * The state *)

(** [TableBuilder::Rep]; the filter block comes with the policy it was made with, the options of the index block are [r_options] with a restart interval of 1, and
    [compressed_output] is empty between the calls. *)
Record Rep := MkRep {
  r_options : Options;
  r_file : WritableFile;
  r_offset : Z;
  r_status : Status;
  r_data_block : BlockBuilder;
  r_index_block : BlockBuilder;
  r_last_key : slice;
  r_num_entries : Z;
  r_closed : bool;
  r_filter_block : option (FilterPolicy * FilterBlockBuilder);
  r_pending_index_entry : bool;
  r_pending_handle : BlockHandle;
}.

(** Assignments to single fields. *)
Definition with_file (f : WritableFile) (s : Status) (off : Z) (r : Rep) : Rep :=
  MkRep (r_options r) f off s (r_data_block r) (r_index_block r) (r_last_key r) (r_num_entries r) (r_closed r)
    (r_filter_block r) (r_pending_index_entry r) (r_pending_handle r).

Definition with_data (b : BlockBuilder) (r : Rep) : Rep :=
  MkRep (r_options r) (r_file r) (r_offset r) (r_status r) b (r_index_block r) (r_last_key r) (r_num_entries r) (r_closed r)
    (r_filter_block r) (r_pending_index_entry r) (r_pending_handle r).

Definition with_index (b : BlockBuilder) (r : Rep) : Rep :=
  MkRep (r_options r) (r_file r) (r_offset r) (r_status r) (r_data_block r) b (r_last_key r) (r_num_entries r) (r_closed r)
    (r_filter_block r) (r_pending_index_entry r) (r_pending_handle r).

Definition with_last_key (k : slice) (r : Rep) : Rep :=
  MkRep (r_options r) (r_file r) (r_offset r) (r_status r) (r_data_block r) (r_index_block r) k (r_num_entries r) (r_closed r)
    (r_filter_block r) (r_pending_index_entry r) (r_pending_handle r).

Definition with_num_entries (n : Z) (r : Rep) : Rep :=
  MkRep (r_options r) (r_file r) (r_offset r) (r_status r) (r_data_block r) (r_index_block r) (r_last_key r) n (r_closed r)
    (r_filter_block r) (r_pending_index_entry r) (r_pending_handle r).

Definition with_closed (c : bool) (r : Rep) : Rep :=
  MkRep (r_options r) (r_file r) (r_offset r) (r_status r) (r_data_block r) (r_index_block r) (r_last_key r) (r_num_entries r) c
    (r_filter_block r) (r_pending_index_entry r) (r_pending_handle r).

Definition with_filter (b : option (FilterPolicy * FilterBlockBuilder)) (r : Rep) : Rep :=
  MkRep (r_options r) (r_file r) (r_offset r) (r_status r) (r_data_block r) (r_index_block r) (r_last_key r) (r_num_entries r)
    (r_closed r) b (r_pending_index_entry r) (r_pending_handle r).

Definition with_pending (p : bool) (h : BlockHandle) (r : Rep) : Rep :=
  MkRep (r_options r) (r_file r) (r_offset r) (r_status r) (r_data_block r) (r_index_block r) (r_last_key r) (r_num_entries r)
    (r_closed r) (r_filter_block r) p h.

(** The calls [if (r->filter_block != nullptr) r->filter_block->f()]. *)
Definition on_filter (f : FilterPolicy -> FilterBlockBuilder -> FilterBlockBuilder) (r : Rep) : Rep :=
  match r_filter_block r with
  | Some (p, b) => with_filter (Some (p, f p b)) r
  | None => r
  end.

Section TableBuilder.
(** The checksum [crc32c::Extend], and the compression libraries. *)
Context (extend : Z -> slice -> Z) (snappy : option SnappyLib) (zstd : option ZstdLib).

Definition NewTableBuilder (options : Options) (file : WritableFile) : Rep :=
  let r := MkRep options file 0 OK NewBlockBuilder NewBlockBuilder [] 0 false
    ((fun p => (p, NewFilterBlockBuilder)) <$> opt_filter_policy options) false NewBlockHandle in
  on_filter (fun p => StartBlock p 0) r.

(** [same_comparator]: the comparators are the same object. *)
Definition ChangeOptions (same_comparator : bool) (options : Options) (r : Rep) : Status * Rep :=
  if negb same_comparator then (InvalidArgument (lit "changing comparator while building table") [], r)
  else
    (OK, MkRep options (r_file r) (r_offset r) (r_status r) (r_data_block r) (r_index_block r) (r_last_key r) (r_num_entries r)
           (r_closed r) (r_filter_block r) (r_pending_index_entry r) (r_pending_handle r)).

Definition WriteRawBlock (block_contents : slice) (type : CompressionType) (r : Rep) : BlockHandle * Rep :=
  let handle := MkBlockHandle (r_offset r) (slen block_contents) in
  let '(s, f) := WritableFile_Append block_contents (r_file r) in
  if ok s then
    let type_byte := of_uval (CompressionType_val type) in
    let crc := extend (extend 0 block_contents) [type_byte] in
    let '(s, f) := WritableFile_Append (type_byte :: EncodeFixed32 (Mask crc)) f in
    (handle, with_file f s (if ok s then u64 (r_offset r + (slen block_contents + kBlockTrailerSize)) else r_offset r) r)
  else (handle, with_file f s (r_offset r) r).

(** The [switch] of [WriteBlock]: what is stored for the block, and its type. *)
Definition compress_block (options : Options) (raw : slice) : slice * CompressionType :=
  let choose compressed type :=
    match compressed with
    | Some c => if slen c <? slen raw - slen raw / 8 then (c, type) else (raw, kNoCompression)
    | None => (raw, kNoCompression)
    end in
  match opt_compression options with
  | kNoCompression => (raw, kNoCompression)
  | kSnappyCompression => choose (Snappy_Compress snappy raw) kSnappyCompression
  | kZstdCompression => choose (Zstd_Compress zstd (opt_zstd_compression_level options) raw) kZstdCompression
  end.

(** The handle, the block after its reset, and the new state. *)
Definition WriteBlock (block : BlockBuilder) (r : Rep) : BlockHandle * BlockBuilder * Rep :=
  let '(raw, block) := BlockBuilder_Finish block in
  let '(block_contents, type) := compress_block (r_options r) raw in
  let '(handle, r) := WriteRawBlock block_contents type r in
  (handle, BlockBuilder_Reset block, r).

Definition Flush (r : Rep) : Rep :=
  if negb (ok (r_status r)) then r
  else if BlockBuilder_empty (r_data_block r) then r
  else
    let '(handle, block, r) := WriteBlock (r_data_block r) r in
    let r := with_pending (r_pending_index_entry r) handle (with_data block r) in
    let r :=
      if ok (r_status r) then
        let '(s, f) := WritableFile_Flush (r_file r) in
        with_file f s (r_offset r) (with_pending true (r_pending_handle r) r)
      else r in
    on_filter (fun p => StartBlock p (r_offset r)) r.

(** The index entry of the block before, with the key in [last_key]. *)
Definition AddIndexEntry (r : Rep) : Rep :=
  let handle_encoding := BlockHandle_EncodeTo (r_pending_handle r) [] in
  with_pending false (r_pending_handle r) (with_index (BlockBuilder_Add 1 (r_last_key r) handle_encoding (r_index_block r)) r).

Definition TableBuilder_Add (key value : slice) (r : Rep) : Rep :=
  if negb (ok (r_status r)) then r
  else
    let r :=
      if r_pending_index_entry r then
        AddIndexEntry (with_last_key (FindShortestSeparator (opt_comparator (r_options r)) (r_last_key r) key) r)
      else r in
    let r := on_filter (fun _ => AddKey key) r in
    let r := with_num_entries (r_num_entries r + 1) (with_last_key key r) in
    let r := with_data (BlockBuilder_Add (opt_block_restart_interval (r_options r)) key value (r_data_block r)) r in
    let estimated_block_size := CurrentSizeEstimate (r_data_block r) in
    if opt_block_size (r_options r) <=? estimated_block_size then Flush r else r.

(** ** The steps of [Finish] *)

Definition Finish_filter (r : Rep) : BlockHandle * Rep :=
  match ok (r_status r), r_filter_block r with
  | true, Some (p, b) =>
      let '(contents, b) := Finish p b in
      WriteRawBlock contents kNoCompression (with_filter (Some (p, b)) r)
  | _, _ => (NewBlockHandle, r)
  end.

Definition filter_key (p : FilterPolicy) : slice := lit "filter." ++ FilterPolicy_Name p.

(** The name is that of the policy in the options; [None] is a call on a null pointer. *)
Definition Finish_metaindex (filter_handle : BlockHandle) (r : Rep) : option (BlockHandle * Rep) :=
  if ok (r_status r) then
    meta_index_block ←
      (match r_filter_block r with
       | Some _ =>
           p ← opt_filter_policy (r_options r);
           Some (BlockBuilder_Add (opt_block_restart_interval (r_options r)) (filter_key p) (BlockHandle_EncodeTo filter_handle [])
                   NewBlockBuilder)
       | None => Some NewBlockBuilder
       end);
    let '(handle, _, r) := WriteBlock meta_index_block r in
    Some (handle, r)
  else Some (NewBlockHandle, r).

(** The last index entry, before the index block is written. *)
Definition Finish_last_entry (r : Rep) : Rep :=
  if r_pending_index_entry r then
    AddIndexEntry (with_last_key (FindShortSuccessor (opt_comparator (r_options r)) (r_last_key r)) r)
  else r.

Definition Finish_index (r : Rep) : BlockHandle * Rep :=
  if ok (r_status r) then
    let r := Finish_last_entry r in
    let '(handle, block, r) := WriteBlock (r_index_block r) r in
    (handle, with_index block r)
  else (NewBlockHandle, r).

Definition Finish_footer (metaindex index : BlockHandle) (r : Rep) : Rep :=
  if ok (r_status r) then
    let footer_encoding := Footer_EncodeTo (MkFooter metaindex index) [] in
    let '(s, f) := WritableFile_Append footer_encoding (r_file r) in
    with_file f s (if ok s then u64 (r_offset r + slen footer_encoding) else r_offset r) r
  else r.

Definition TableBuilder_Finish (r : Rep) : option (Status * Rep) :=
  let r := with_closed true (Flush r) in
  let '(filter_handle, r) := Finish_filter r in
  '(metaindex_handle, r) ← Finish_metaindex filter_handle r;
  let '(index_handle, r) := Finish_index r in
  let r := Finish_footer metaindex_handle index_handle r in
  Some (r_status r, r).

Definition Abandon (r : Rep) : Rep := with_closed true r.

Definition NumEntries (r : Rep) : Z := r_num_entries r.

Definition FileSize (r : Rep) : Z := r_offset r.

(** A table of the given entries. *)
Definition add_entries (es : list (slice * slice)) (r : Rep) : Rep := foldl (fun r e => TableBuilder_Add e.1 e.2 r) r es.
End TableBuilder.

(** * Lemmas: writing blocks *)

(** The fields of an updated state. *)
Ltac rep_simpl :=
  cbn [r_options r_file r_offset r_status r_data_block r_index_block r_last_key r_num_entries r_closed r_filter_block
    r_pending_index_entry r_pending_handle with_file with_data with_index with_last_key with_num_entries with_closed with_filter
    with_pending AddIndexEntry fst snd] in *.

Section order.
Context {key : slice -> Prop} {cmp : Comparator} `{!ComparatorLaws key cmp}.

Lemma sorted_last_max b k0 v0 e :
  Forall (fun e => key e.1) b -> sorted_entries cmp b -> last b = Some (k0, v0) -> e ∈ b -> Compare cmp e.1 k0 <= 0.
Proof.
  intros Hk Hs Hl He. destruct b as [|x b] using rev_ind; [done|]. rewrite last_snoc in Hl. injection Hl as ->.
  apply Forall_app in Hk as [_ Hk]. apply Forall_inv in Hk. cbn [fst] in Hk.
  apply elem_of_app in He as [He|He%list_elem_of_singleton]; [|subst; cbn [fst]; rewrite compare_refl by done; lia].
  unfold sorted_entries in Hs. pose proof (StronglySorted_app_1_elem_of _ _ _ _ _ Hs He (list_elem_of_here _ _)). cbn in *. lia.
Qed.

Lemma sorted_snoc es e : sorted_entries cmp es -> (forall x, x ∈ es -> Compare cmp x.1 e.1 < 0) -> sorted_entries cmp (es ++ [e]).
Proof.
  intros Hs Hx. unfold sorted_entries. apply StronglySorted_app_2; [|done|by repeat constructor].
  intros a b Ha Hb%list_elem_of_singleton. subst. by apply Hx.
Qed.

(** The index is extended by a block. *)
Lemma index_separates_snoc ies bs b s h :
  index_separates cmp ies bs -> Forall (fun e => key e.1) ies -> Forall (fun e => key e.1) (concat bs) -> key s ->
  (forall i e, i ∈ ies -> e ∈ b -> Compare cmp i.1 e.1 < 0) -> (forall i, i ∈ ies -> Compare cmp i.1 s < 0) ->
  (forall e, e ∈ b -> Compare cmp e.1 s <= 0) -> index_separates cmp (ies ++ [(s, h)]) (bs ++ [b]).
Proof.
  intros [Hl Hsep] Hki Hkb Hs Hib His Hbs. split; [by rewrite !length_app, Hl|]. intros j k h' E.
  assert (forall j' b' e, (bs ++ [b]) !! j' = Some b' -> e ∈ b' -> (j' = length bs /\ b' = b) \/ bs !! j' = Some b') as Hcase.
  { intros j' b' e E' _. apply lookup_app_Some in E' as [?|[? E']]; [by right|left].
    apply list_lookup_singleton_Some in E' as [? <-]. split; [lia|done]. }
  apply lookup_app_Some in E as [E|[Hj E]].
  - destruct (Hsep j k h' E) as [H1 H2]. pose proof (lookup_lt_Some _ _ _ E) as Hlt. pose proof (list_elem_of_lookup_2 _ _ _ E) as Hin. split.
    + intros j' b' e Hj' E' He. destruct (Hcase j' b' e E' He) as [[-> ->]|E2]; [lia|by eapply H1].
    + intros j' b' e Hj' E' He. destruct (Hcase j' b' e E' He) as [[-> ->]|E2]; [exact (Hib _ e Hin He)|by eapply H2].
  - apply list_lookup_singleton_Some in E as [Hj0 [= <- <-]]. split.
    + intros j' b' e Hj' E' He. destruct (Hcase j' b' e E' He) as [[-> ->]|E2]; [by apply Hbs|].
      destruct (lookup_lt_is_Some_2 ies j') as [[k2 h2] Ei]; [rewrite Hl; by apply lookup_lt_Some in E2|].
      pose proof (proj1 (Hsep j' k2 h2 Ei) j' b' e ltac:(lia) E2 He) as Hle.
      assert (Compare cmp e.1 s < 0); [|lia]. apply (compare_le_lt _ k2); [|exact (keys_lookup _ _ _ _ _ Hki Ei)|done|done|].
      * rewrite Forall_forall in Hkb. apply Hkb. apply list_elem_of_In, in_concat. exists b'.
        split; apply list_elem_of_In; [by eapply list_elem_of_lookup_2|done].
      * exact (His _ (list_elem_of_lookup_2 _ _ _ Ei)).
    + intros j' b' e Hj' E' He. destruct (Hcase j' b' e E' He) as [[-> ->]|E2]; [lia|]. apply lookup_lt_Some in E2. lia.
Qed.
End order.

Section build_lemmas.
Context (extend : Z -> slice -> Z) (snappy : option SnappyLib) (zstd : option ZstdLib).
Context (Hsnappy : forall lib, snappy = Some lib -> SnappyLaws lib) (Hzstd : forall lib, zstd = Some lib -> ZstdLaws lib).

(** What is stored for a block is uncompressed to the block. *)
Lemma unpack_compress o raw : raw <> [] -> unpack snappy zstd (compress_block snappy zstd o raw).1 (compress_block snappy zstd o raw).2 = Some raw.
Proof.
  intros Hraw. assert (0 < slen raw) by (destruct raw; cbn; [done|lia]). unfold compress_block.
  destruct (opt_compression o); [done|..].
  - unfold Snappy_Compress. destruct snappy as [lib|] eqn:E; [|done]. cbn [mbind option_bind]. case_match; [|done]. cbn [fst snd].
    unfold unpack, Snappy_GetUncompressedLength, Snappy_Uncompress. cbn [mbind option_bind]. pose proof (Hsnappy lib eq_refl).
    destruct (snappy_roundtrip raw Hraw) as [-> ->]. done.
  - unfold Zstd_Compress. destruct zstd as [lib|] eqn:E; [|done]. cbn [mbind option_bind].
    destruct (ZSTD_compress2 lib _ raw) as [c|] eqn:Ec; [|done]. case_match; [|done]. cbn [fst snd].
    unfold unpack, Zstd_Uncompress, Zstd_GetUncompressedLength. cbn [mbind option_bind]. pose proof (Hzstd lib eq_refl).
    destruct (zstd_roundtrip _ raw c Hraw Ec) as [-> Hd]. rewrite (proj2 (Z.eqb_neq _ 0)) by lia. cbn [mbind option_bind]. done.
Qed.

Lemma WriteRawBlock_spec contents t r c :
  r_file r = MkWritableFile c [] -> r_offset r = u64 (slen c) ->
  WriteRawBlock extend contents t r = (MkBlockHandle (u64 (slen c)) (slen contents),
    with_file (MkWritableFile (c ++ stored extend contents t) []) OK (u64 (slen (c ++ stored extend contents t))) r).
Proof.
  intros Hf Ho. unfold WriteRawBlock. rewrite Hf. cbn [WritableFile_Append wf_faults wf_contents]. rewrite !ok_OK, Ho.
  cbn [WritableFile_Append wf_faults wf_contents]. rewrite ?ok_OK.
  assert (u64 (slen (c ++ stored extend contents t)) = u64 (u64 (slen c) + (slen contents + kBlockTrailerSize))) as ->.
  { rewrite length_app, Nat2Z.inj_add, length_stored. unfold wrap. by rewrite Z.add_mod_idemp_l. }
  unfold stored. by rewrite <-app_assoc.
Qed.

Lemma WriteBlock_spec block r c :
  r_file r = MkWritableFile c [] -> r_offset r = u64 (slen c) ->
  let p := compress_block snappy zstd (r_options r) (BlockBuilder_Finish block).1 in
  WriteBlock extend snappy zstd block r = (MkBlockHandle (u64 (slen c)) (slen p.1), NewBlockBuilder,
    with_file (MkWritableFile (c ++ stored extend p.1 p.2) []) OK (u64 (slen (c ++ stored extend p.1 p.2))) r).
Proof.
  intros Hf Ho p. unfold WriteBlock. destruct (BlockBuilder_Finish block) as [raw block'] eqn:E. cbn [fst] in p. subst p.
  destruct (compress_block snappy zstd (r_options r) raw) as [contents t]. cbn [fst snd].
  rewrite (WriteRawBlock_spec contents t r c Hf Ho). done.
Qed.

(** ** What the builder has written *)

Context (o : Options) (n : nat) (Hn : (1 <= n)%nat) (Hinterval : opt_block_restart_interval o = Z.of_nat n).

(** A block with the restart interval [m] as stored. *)
Definition packed (m : nat) (b : list (slice * slice)) : slice * CompressionType :=
  compress_block snappy zstd o (BlockBuilder_Finish (build m b)).1.

Definition stored_block (m : nat) (b : list (slice * slice)) : slice := stored extend (packed m b).1 (packed m b).2.

(** The data blocks. *)
Definition body (bs : list (list (slice * slice))) : slice := concat (map (stored_block n) bs).

Definition handle_of (pre : list (list (slice * slice))) (b : list (slice * slice)) : BlockHandle :=
  MkBlockHandle (u64 (slen (body pre))) (slen (packed n b).1).

Fixpoint handles (pre bs : list (list (slice * slice))) : list BlockHandle :=
  match bs with
  | [] => []
  | b :: bs => handle_of pre b :: handles (pre ++ [b]) bs
  end.

(** The blocks that the filter builder was told of: the finished ones, and the one with the entries [cur]. *)
Fixpoint filter_blocks (pre bs : list (list (slice * slice))) (cur : list (slice * slice)) : list (Z * list slice) :=
  match bs with
  | [] => [(u64 (slen (body pre)), map fst cur)]
  | b :: bs => (u64 (slen (body pre)), map fst b) :: filter_blocks (pre ++ [b]) bs cur
  end.

Lemma body_snoc bs b : body (bs ++ [b]) = body bs ++ stored_block n b.
Proof. unfold body. rewrite map_app, concat_app. cbn. by rewrite app_nil_r. Qed.

Lemma handles_snoc pre bs b : handles pre (bs ++ [b]) = handles pre bs ++ [handle_of (pre ++ bs) b].
Proof.
  revert pre. induction bs as [|b' bs IH]; intros pre; cbn [app handles]; [by rewrite app_nil_r|]. by rewrite IH, <-app_assoc.
Qed.

Lemma handles_lookup pre bs j b : bs !! j = Some b -> handles pre bs !! j = Some (handle_of (pre ++ take j bs) b).
Proof.
  revert pre j. induction bs as [|b' bs IH]; intros pre j E; [done|]. destruct j as [|j]; cbn in *.
  - injection E as ->. by rewrite app_nil_r.
  - rewrite (IH _ _ E), <-app_assoc. done.
Qed.

Lemma length_handles pre bs : length (handles pre bs) = length bs.
Proof. revert pre. induction bs; intros pre; cbn; [done|]. by rewrite IHbs. Qed.

Lemma filter_blocks_snoc pre bs cur : exists l, forall cur', filter_blocks pre bs cur' = l ++ [(u64 (slen (body (pre ++ bs))), map fst cur')] /\
  filter_blocks pre (bs ++ [cur]) cur' = l ++ [(u64 (slen (body (pre ++ bs))), map fst cur); (u64 (slen (body (pre ++ bs ++ [cur]))), map fst cur')].
Proof.
  revert pre. induction bs as [|b bs IH]; intros pre.
  - exists []. intros cur'. cbn. by rewrite app_nil_r.
  - destruct (IH (pre ++ [b])) as [l Hl]. exists ((u64 (slen (body pre)), map fst b) :: l). intros cur'.
    destruct (Hl cur') as [E1 E2]. cbn [app filter_blocks]. rewrite E1, E2, <-!app_assoc. done.
Qed.

Lemma filter_AddKey p bs cur k v :
  AddKey k (build_blocks p (filter_blocks [] bs cur)) = build_blocks p (filter_blocks [] bs (cur ++ [(k, v)])).
Proof.
  destruct (filter_blocks_snoc [] bs cur) as [l Hl]. rewrite (proj1 (Hl cur)), (proj1 (Hl (cur ++ [(k, v)]))).
  unfold build_blocks. rewrite !foldl_app. cbn [foldl]. rewrite map_app, foldl_app. done.
Qed.

Lemma filter_StartBlock p bs cur :
  StartBlock p (u64 (slen (body (bs ++ [cur])))) (build_blocks p (filter_blocks [] bs cur)) = build_blocks p (filter_blocks [] (bs ++ [cur]) []).
Proof.
  destruct (filter_blocks_snoc [] bs cur) as [l Hl]. rewrite (proj1 (Hl cur)), (proj2 (Hl [])).
  unfold build_blocks. rewrite !foldl_app. done.
Qed.

(** ** The invariant *)

Context (key : slice -> Prop) `{!ComparatorLaws key (opt_comparator o)}.

Abbreviation cmp := (opt_comparator o).

Definition opt_list {A} (x : option A) : list A := match x with Some a => [a] | None => [] end.

(** The blocks [bs0] have their index entries [ies], [pend] is the block whose entry is pending, and [cur] are the entries
    of the block that is being built. *)
Record table_inv (r : Rep) (bs0 : list (list (slice * slice))) (pend : option (list (slice * slice))) (cur ies : list (slice * slice)) : Prop := {
  ti_options : r_options r = o;
  ti_file : r_file r = MkWritableFile (body (bs0 ++ opt_list pend)) [];
  ti_offset : r_offset r = u64 (slen (body (bs0 ++ opt_list pend)));
  ti_status : r_status r = OK;
  ti_data : r_data_block r = build n cur;
  ti_index : r_index_block r = build 1 ies;
  ti_filter : r_filter_block r = (fun p => (p, build_blocks p (filter_blocks [] (bs0 ++ opt_list pend) cur))) <$> opt_filter_policy o;
  ti_pending : match pend with
    | Some b => r_pending_index_entry r = true /\ r_pending_handle r = handle_of bs0 b /\ cur = []
    | None => r_pending_index_entry r = false
    end;
  ti_handles : map snd ies = map (fun h => BlockHandle_EncodeTo h []) (handles [] bs0);
  ti_nonempty : Forall (fun b => b <> []) (bs0 ++ opt_list pend);
  ti_sizes : Forall (sizes_ok n) (bs0 ++ opt_list pend);
  ti_cur_size : sizes_ok n cur;
  ti_keys : Forall (fun e => key e.1) ies;
  ti_sorted : sorted_entries cmp ies;
  ti_sep : index_separates cmp ies bs0;
  ti_after : forall i e, i ∈ ies -> e ∈ concat (opt_list pend) ++ cur -> Compare cmp i.1 e.1 < 0;
}.

Lemma sizes_ok_nil : sizes_ok n [].
Proof. split; [by vm_compute|constructor]. Qed.

Lemma NewTableBuilder_inv : table_inv (NewTableBuilder o (MkWritableFile [] [])) [] None [] [].
Proof.
  unfold NewTableBuilder, on_filter. cbn [r_filter_block]. destruct (opt_filter_policy o) as [p|] eqn:Ep; cbn [fmap option_fmap option_map].
  all: split; try apply sizes_ok_nil; try (by constructor); try done; try (cbn; by rewrite Ep).
  all: intros i e H; by apply elem_of_nil in H.
Qed.

(** The data block takes an entry. *)
Lemma data_add_inv r bs0 cur ies k v last count :
  table_inv r bs0 None cur ies -> (forall i, i ∈ ies -> Compare cmp i.1 k < 0) -> sizes_ok n (cur ++ [(k, v)]) ->
  table_inv (with_data (BlockBuilder_Add (Z.of_nat n) k v (r_data_block r)) (with_num_entries count (with_last_key last (on_filter (fun _ => AddKey k) r))))
    bs0 None (cur ++ [(k, v)]) ies.
Proof.
  intros [] Hk Hs. unfold on_filter. rewrite ti_filter0. destruct (opt_filter_policy o) as [p|] eqn:Ep; cbn [fmap option_fmap option_map].
  all: split; cbn; try done; try (by rewrite ti_filter0, Ep).
  all: try (rewrite ti_data0; unfold build; by rewrite foldl_app).
  all: try (rewrite filter_AddKey with (v := v); by rewrite Ep).
  all: intros i e Hi He; apply elem_of_app in He as [He|He%list_elem_of_singleton];
    [by apply ti_after0|subst; by apply Hk].
Qed.

(** The index takes the entry of the pending block, with a key [s] at or past its last one. *)
Lemma add_index_inv r bs0 b ies s k0 v0 :
  table_inv r bs0 (Some b) [] ies -> last b = Some (k0, v0) -> Forall (fun e => key e.1) (concat bs0 ++ b) -> sorted_entries cmp b ->
  key s -> Compare cmp k0 s <= 0 ->
  table_inv (AddIndexEntry (with_last_key s r)) (bs0 ++ [b]) None [] (ies ++ [(s, BlockHandle_EncodeTo (handle_of bs0 b) [])]).
Proof.
  intros [] Hlast Hkeys Hb Hs Hle. destruct ti_pending0 as (Hp & Hh & _). apply Forall_app in Hkeys as [Hk0 Hkb].
  pose proof (proj1 (Forall_forall _ _) Hkb) as Hkb'. pose proof (proj1 (Forall_forall _ _) ti_keys0) as Hki.
  pose proof (last_Some_elem_of _ _ Hlast) as H0.
  assert (forall e, e ∈ b -> Compare cmp e.1 s <= 0) as Hbs.
  { intros e He. apply (compare_le_trans _ k0); [by apply Hkb'|exact (Hkb' _ H0)|done|by eapply sorted_last_max|done]. }
  assert (forall i, i ∈ ies -> Compare cmp i.1 s < 0) as His.
  { intros i Hi. apply (compare_lt_le _ k0); [by apply Hki|exact (Hkb' _ H0)|done| |done].
    apply (ti_after0 i (k0, v0) Hi). cbn. rewrite !app_nil_r. done. }
  split; rep_simpl; cbn [opt_list] in *; rewrite ?app_nil_r; try done.
  - by rewrite Hh, ti_index0; unfold build; rewrite foldl_app.
  - by rewrite map_app, handles_snoc, map_app, ti_handles0.
  - by apply Forall_app_2; [|by repeat constructor].
  - by apply sorted_snoc.
  - apply index_separates_snoc; try done. intros i e Hi He. apply ti_after0; [done|]. cbn [concat]. by rewrite !app_nil_r.
  - intros i e _ He. by apply elem_of_nil in He.
Qed.

Lemma build_nonempty cur : sizes_ok n cur -> cur <> [] -> BlockBuilder_empty (build n cur) = false.
Proof.
  intros Hs Hc. rewrite build_built by done. unfold BlockBuilder_empty, built. cbn [buffer_]. apply bool_decide_eq_false.
  destruct cur as [|[k v] cur]; [done|]. cbn [chunks concat]. intros E%(f_equal length). unfold entry_bytes in E. rewrite !length_app in E.
  pose proof (length_entry_header (if decide ((0 mod n)%nat = 0%nat) then 0%nat else common_prefix [] k) k v). cbn [length] in E. lia.
Qed.

(** The current block is written. *)
Lemma Flush_inv r bs0 cur ies : table_inv r bs0 None cur ies -> cur <> [] -> table_inv (Flush extend snappy zstd r) bs0 (Some cur) [] ies.
Proof.
  intros [] Hcur. unfold Flush. rewrite ti_status0, ok_OK, ti_data0, build_nonempty by done. cbn [negb].
  cbn [opt_list] in *. rewrite app_nil_r in *. rewrite (WriteBlock_spec _ r (body bs0)) by done. rewrite ti_options0.
  fold (packed n cur). fold (stored_block n cur). rewrite <-body_snoc. rep_simpl. rewrite ok_OK. cbn [WritableFile_Flush wf_faults].
  unfold on_filter. rep_simpl. rewrite ti_filter0. destruct (opt_filter_policy o) as [p|] eqn:Ep; cbn [fmap option_fmap option_map].
  all: split; rep_simpl; cbn [opt_list] in *; try done; try apply sizes_ok_nil; try (by rewrite ?ti_filter0, Ep).
  all: try (by apply Forall_app_2; [|apply Forall_singleton]).
  all: try (by intros i e Hi He; apply ti_after0; [|cbn [concat] in *; rewrite !app_nil_r in *]).
  rewrite Ep. cbn. by rewrite filter_StartBlock.
Qed.

(** ** Adding entries *)

(** The index keys are the separators of consecutive blocks. *)
Definition separators (ies : list (slice * slice)) (bs : list (list (slice * slice))) : Prop :=
  forall j b b' k h, ies !! j = Some (k, h) -> bs !! j = Some b -> bs !! S j = Some b' ->
    exists e e', last b = Some e /\ head b' = Some e' /\ k = FindShortestSeparator cmp e.1 e'.1.

(** The blocks with the one that is being built. *)
Definition all_blocks (bs0 : list (list (slice * slice))) (pend : option (list (slice * slice))) (cur : list (slice * slice)) : list (list (slice * slice)) :=
  bs0 ++ opt_list pend ++ match cur with [] => [] | _ => [cur] end.

Lemma separators_nil bs : separators [] bs.
Proof. by intros j b b' k h E. Qed.

(** The last block grows. *)
Lemma separators_grow ies bs cur e :
  cur <> [] -> separators ies (bs ++ [cur]) -> separators ies (bs ++ [cur ++ [e]]).
Proof.
  intros Hc Hs j b b' k h Ei Eb Eb'. pose proof (lookup_lt_Some _ _ _ Eb') as Hl. rewrite length_app in Hl. cbn in Hl.
  rewrite lookup_app_l in Eb by lia. destruct (decide (S j = length bs)%nat) as [E|E].
  - rewrite list_lookup_middle in Eb' by done. injection Eb' as <-.
    destruct (Hs j b cur k h Ei) as (x & x' & H1 & H2 & H3); [by rewrite lookup_app_l by lia|by apply list_lookup_middle|].
    exists x, x'. split; [done|]. split; [|done]. by destruct cur.
  - rewrite lookup_app_l in Eb' by lia. apply (Hs j b b' k h Ei); rewrite lookup_app_l by lia; done.
Qed.

(** A block begins, and its separator from the block before is added. *)
Lemma separators_next ies bs b k0 v0 k v h :
  length ies = length bs -> last b = Some (k0, v0) -> separators ies (bs ++ [b]) ->
  separators (ies ++ [(FindShortestSeparator cmp k0 k, h)]) ((bs ++ [b]) ++ [[(k, v)]]).
Proof.
  intros Hl Hb Hs j b1 b2 k' h' Ei E1 E2. destruct (decide (j < length bs)%nat) as [Hj|Hj].
  - rewrite lookup_app_l in Ei by lia. rewrite lookup_app_l in E1, E2 by (rewrite length_app; cbn; lia). by apply (Hs j b1 b2 k' h').
  - pose proof (lookup_lt_Some _ _ _ Ei) as Hj'. rewrite length_app in Hj'. cbn in Hj'. assert (j = length bs) as -> by lia.
    rewrite list_lookup_middle in Ei by done. injection Ei as <- <-. rewrite lookup_app_l in E1 by (rewrite length_app; cbn; lia).
    rewrite list_lookup_middle in E1 by done. injection E1 as <-. rewrite list_lookup_middle in E2 by (rewrite length_app; cbn; lia).
    injection E2 as <-. by exists (k0, v0), (k, v).
Qed.

(** The key of the last block has no block to be separated from. *)
Lemma separators_last ies bs e : length bs = S (length ies) -> separators ies bs -> separators (ies ++ [e]) bs.
Proof.
  intros Hl Hs j b b' k h Ei Eb Eb'. pose proof (lookup_lt_Some _ _ _ Eb') as Hj. rewrite lookup_app_l in Ei by lia.
  by apply (Hs j b b' k h).
Qed.

(** The state of a builder that was given the entries [es]. *)
Definition builder_state (r : Rep) (es : list (slice * slice)) : Prop :=
  exists bs0 pend cur ies, table_inv r bs0 pend cur ies /\ es = concat (bs0 ++ opt_list pend) ++ cur /\
    (forall k v, last es = Some (k, v) -> r_last_key r = k) /\ (pend = None -> cur = [] -> bs0 = [] /\ ies = []) /\
    CurrentSizeEstimate (build n cur) < Z.max 9 (opt_block_size o) /\ r_num_entries r = Z.of_nat (length es) /\
    separators ies (all_blocks bs0 pend cur).

(** What is asked of the sizes of an entry, so that its block stays below 4 GiB. *)
Definition entry_fits (e : slice * slice) : Prop := Z.max 9 (opt_block_size o) + 19 + slen e.1 + slen e.2 < 2 ^ 32.

Lemma last_app_ne {A} (l l' : list A) : l' <> [] -> last (l ++ l') = last l'.
Proof. intros H. destruct l' as [|x l'] using rev_ind; [done|]. by rewrite app_assoc, !last_snoc. Qed.

(** Before the data block takes the entry, the index has the entries of all the blocks. *)
Lemma Add_index_state r es k v :
  builder_state r es -> Forall (fun e => key e.1) (es ++ [(k, v)]) -> sorted_entries cmp (es ++ [(k, v)]) ->
  let r1 := if r_pending_index_entry r then AddIndexEntry (with_last_key (FindShortestSeparator cmp (r_last_key r) k) r) else r in
  exists bs0 cur ies, table_inv r1 bs0 None cur ies /\ es = concat bs0 ++ cur /\ (forall i, i ∈ ies -> Compare cmp i.1 k < 0) /\
    CurrentSizeEstimate (build n cur) < Z.max 9 (opt_block_size o) /\ r_num_entries r1 = Z.of_nat (length es) /\
    separators ies (bs0 ++ [cur ++ [(k, v)]]).
Proof.
  intros (bs0 & pend & cur & ies & Hinv & -> & Hlast & Hempty & Hest & Hnum & Hseps) Hk Hs. apply Forall_app in Hk as [Hk Hkk].
  apply Forall_inv in Hkk. cbn [fst] in Hkk. pose proof (ti_pending _ _ _ _ _ Hinv) as Hp.
  assert (forall e, e ∈ concat (bs0 ++ opt_list pend) ++ cur -> Compare cmp e.1 k < 0) as Hlt.
  { intros e He. exact (StronglySorted_app_1_elem_of _ _ _ e (k, v) Hs He (list_elem_of_here _ _)). }
  pose proof (proj1 (Forall_forall _ _) Hk) as Hk'. pose proof (proj1 (Forall_forall _ _) (ti_keys _ _ _ _ _ Hinv)) as Hki.
  destruct pend as [b|]; cbn [opt_list] in *.
  - destruct Hp as (-> & _ & ->). rewrite app_nil_r, concat_app in *. cbn [concat] in *. rewrite app_nil_r in *.
    assert (b <> []) as Hb by (pose proof (ti_nonempty _ _ _ _ _ Hinv) as H; cbn in H; apply Forall_app in H as [_ H]; by apply Forall_inv in H).
    destruct (last b) as [[k0 v0]|] eqn:El; [|by apply last_None in El].
    specialize (Hlast k0 v0 ltac:(by rewrite last_app_ne)) as Hlk. pose proof (last_Some_elem_of _ _ El) as H0.
    assert (key k0) as Hk0 by (apply (Hk' (k0, v0)), elem_of_app; by right).
    pose proof (Hlt (k0, v0) ltac:(apply elem_of_app; by right)) as Hlt0. cbn [fst] in Hlt0. rewrite Hlk.
    destruct (separator_spec k0 k Hk0 Hkk Hlt0) as [Hs1 Hs2].
    eexists (bs0 ++ [b]), [], _. split; [eapply (add_index_inv r bs0 b ies _ k0 v0); try done; [|by apply separator_key]|].
    { unfold sorted_entries in *. rewrite <-app_assoc in Hs. by apply StronglySorted_app_1_r, StronglySorted_app_1_l in Hs. }
    rewrite concat_app. cbn [concat]. rewrite !app_nil_r. split_and!; [done| |by vm_compute|done|].
    2: { apply (separators_next ies bs0 b k0 v0); [by apply (ti_sep _ _ _ _ _ Hinv)|done|]. unfold all_blocks in Hseps. cbn in Hseps. by rewrite ?app_nil_r in Hseps. }
    intros i [Hi|Hi%list_elem_of_singleton]%elem_of_app; [|by subst].
    apply (compare_trans _ k0); [by apply Hki|done|done| |done]. apply (ti_after _ _ _ _ _ Hinv i (k0, v0) Hi). cbn. by rewrite !app_nil_r.
  - rewrite Hp. rewrite app_nil_r in *. exists bs0, cur, ies. split_and!; try done.
    2: { destruct cur as [|e cur]; [destruct (Hempty eq_refl eq_refl) as [-> ->]; apply separators_nil|]. by apply separators_grow. }
    intros i Hi. destruct cur as [|e cur].
    + destruct (Hempty eq_refl eq_refl) as [_ ->]. by apply elem_of_nil in Hi.
    + assert (e ∈ concat bs0 ++ e :: cur) as He by (apply elem_of_app; right; apply list_elem_of_here).
      apply (compare_trans _ e.1); [by apply Hki|by apply Hk'|done| |by apply Hlt].
      apply (ti_after _ _ _ _ _ Hinv); [done|]. cbn. apply list_elem_of_here.
Qed.

(** Writing a block leaves the last key and the count alone. *)
Lemma Flush_frame r : r_last_key (Flush extend snappy zstd r) = r_last_key r /\ r_num_entries (Flush extend snappy zstd r) = r_num_entries r.
Proof.
  unfold Flush, WriteBlock, WriteRawBlock, on_filter. repeat (case_match; simplify_eq; rep_simpl); done.
Qed.

Lemma Add_state r es k v :
  builder_state r es -> Forall (fun e => key e.1) (es ++ [(k, v)]) -> sorted_entries cmp (es ++ [(k, v)]) -> entry_fits (k, v) ->
  builder_state (TableBuilder_Add extend snappy zstd k v r) (es ++ [(k, v)]).
Proof.
  intros Hst Hk Hs Hfit. unfold TableBuilder_Add.
  assert (r_status r = OK /\ r_options r = o) as [-> ->] by (destruct Hst as (? & ? & ? & ? & [] & _); done).
  rewrite ok_OK. cbn [negb]. destruct (Add_index_state r es k v Hst Hk Hs) as (bs0 & cur & ies & Hinv & -> & Hik & Hest & Hnum & Hseps).
  set (r1 := if r_pending_index_entry r then _ else r) in *.
  assert (sizes_ok n (cur ++ [(k, v)])) as Hsz.
  { destruct (ti_cur_size _ _ _ _ _ Hinv) as [_ Hkl]. unfold entry_fits in Hfit. cbn [fst snd] in Hfit. split; [|apply Forall_app_2; [done|]; apply Forall_singleton; cbn; lia].
    unfold build. rewrite foldl_app. cbn [foldl fst snd]. fold (build n cur). pose proof (Add_estimate (Z.of_nat n) k v (build n cur)). lia. }
  pose proof (data_add_inv r1 bs0 cur ies k v k (r_num_entries r1 + 1) Hinv Hik Hsz) as H2. rep_simpl.
  assert (r_options (on_filter (fun _ => AddKey k) r1) = o /\ r_num_entries (on_filter (fun _ => AddKey k) r1) = r_num_entries r1 /\
    r_data_block (on_filter (fun _ => AddKey k) r1) = r_data_block r1) as (-> & -> & ->).
  { unfold on_filter. repeat case_match; rep_simpl; split_and!; try done; exact (ti_options _ _ _ _ _ Hinv). }
  rewrite Hinterval. rewrite (ti_data _ _ _ _ _ Hinv) in *. rep_simpl.
  set (r2 := with_data _ (with_num_entries _ _)) in *.
  assert (CurrentSizeEstimate (BlockBuilder_Add (Z.of_nat n) k v (build n cur)) = CurrentSizeEstimate (build n (cur ++ [(k, v)]))) as ->.
  { unfold build. by rewrite foldl_app. }
  assert (r_num_entries r2 = Z.of_nat (length ((concat bs0 ++ cur) ++ [(k, v)]))) as Hn2.
  { subst r2. rep_simpl. rewrite Hnum, (length_app _ [_]). cbn [length]. lia. }
  destruct (Z.leb_spec (opt_block_size o) (CurrentSizeEstimate (build n (cur ++ [(k, v)])))) as [Hflush|Hno].
  - exists bs0, (Some (cur ++ [(k, v)])), [], ies. split; [apply Flush_inv; [done|by destruct cur]|]. cbn [opt_list].
    split; [by rewrite concat_app, app_nil_r; cbn [concat]; rewrite app_nil_r, app_assoc|].
    destruct (Flush_frame r2) as [-> ->]. split; [intros k' v'; rewrite last_snoc; by intros [= <- <-]|].
    split; [done|]. split; [change (CurrentSizeEstimate (build n [])) with 8; lia|]. split; [done|]. unfold all_blocks. cbn [opt_list]. by rewrite app_nil_r.
  - exists bs0, None, (cur ++ [(k, v)]), ies. split; [done|]. cbn [opt_list]. rewrite app_nil_r, <-app_assoc.
    split; [done|]. rewrite app_assoc. split; [intros k' v'; rewrite last_snoc; by intros [= <- <-]|].
    split; [by destruct cur|]. split; [lia|]. split; [done|]. unfold all_blocks. cbn [opt_list app]. by destruct cur.
Qed.

Lemma add_entries_state es r es0 :
  builder_state r es0 -> Forall (fun e => key e.1) (es0 ++ es) -> sorted_entries cmp (es0 ++ es) -> Forall entry_fits es ->
  builder_state (add_entries extend snappy zstd es r) (es0 ++ es).
Proof.
  revert r es0. induction es as [|[k v] es IH]; intros r es0 Hst Hk Hs Hf; [by rewrite app_nil_r|].
  apply Forall_cons in Hf as [Hf Hfs]. rewrite cons_middle, app_assoc in *. apply IH; try done. cbn [fst snd].
  apply Add_state; try done; [by apply Forall_app in Hk as [Hk _]|unfold sorted_entries in *; by apply StronglySorted_app_1_l in Hs].
Qed.

Lemma NewTableBuilder_state : builder_state (NewTableBuilder o (MkWritableFile [] [])) [].
Proof.
  exists [], None, [], []. split; [apply NewTableBuilder_inv|]. split_and!; try done.
  - change (CurrentSizeEstimate (build n [])) with 8. lia.
  - unfold NewTableBuilder, on_filter. by repeat case_match.
Qed.

(** ** The finished table *)

(** The filter block, where there is a policy. *)
Definition filter_contents (bs : list (list (slice * slice))) : option slice :=
  (fun p => filter_block p (filter_blocks [] bs [])) <$> opt_filter_policy o.

Definition filter_part (bs : list (list (slice * slice))) : slice :=
  match filter_contents bs with Some c => stored extend c kNoCompression | None => [] end.

Definition filter_handle_of (bs : list (list (slice * slice))) : BlockHandle :=
  match filter_contents bs with Some c => MkBlockHandle (u64 (slen (body bs))) (slen c) | None => NewBlockHandle end.

Definition meta_entries (bs : list (list (slice * slice))) : list (slice * slice) :=
  match opt_filter_policy o with
  | Some p => [(filter_key p, BlockHandle_EncodeTo (filter_handle_of bs) [])]
  | None => []
  end.

(** The parts of the file before the footer, and the handles in it. *)
Definition upto_filter (bs : list (list (slice * slice))) : slice := body bs ++ filter_part bs.

Definition upto_meta (bs : list (list (slice * slice))) : slice := upto_filter bs ++ stored_block n (meta_entries bs).

Definition upto_index (bs : list (list (slice * slice))) (ies : list (slice * slice)) : slice := upto_meta bs ++ stored_block 1 ies.

Definition footer_of (bs : list (list (slice * slice))) (ies : list (slice * slice)) : Footer :=
  MkFooter (MkBlockHandle (u64 (slen (upto_filter bs))) (slen (packed n (meta_entries bs)).1))
    (MkBlockHandle (u64 (slen (upto_meta bs))) (slen (packed 1 ies).1)).

Definition table_bytes (bs : list (list (slice * slice))) (ies : list (slice * slice)) : slice :=
  upto_index bs ies ++ Footer_EncodeTo (footer_of bs ies) [].

(** The blocks and the index of a finished table. *)
Record table_layout (es : list (slice * slice)) (bs : list (list (slice * slice))) (ies : list (slice * slice)) : Prop := {
  tl_entries : es = concat bs;
  tl_handles : map snd ies = map (fun h => BlockHandle_EncodeTo h []) (handles [] bs);
  tl_nonempty : Forall (fun b => b <> []) bs;
  tl_sizes : Forall (sizes_ok n) bs;
  tl_keys : Forall (fun e => key e.1) ies;
  tl_sorted : sorted_entries cmp ies;
  tl_sep : index_separates cmp ies bs;
  tl_separators : separators ies bs;
}.

(** [Finish] flushes the last block. *)
Lemma Finish_flush r es :
  builder_state r es -> exists bs0 pend ies, table_inv (Flush extend snappy zstd r) bs0 pend [] ies /\
    es = concat (bs0 ++ opt_list pend) /\ (forall k v, last es = Some (k, v) -> r_last_key (Flush extend snappy zstd r) = k) /\
    (pend = None -> bs0 = [] /\ ies = []) /\ separators ies (bs0 ++ opt_list pend).
Proof.
  intros (bs0 & pend & cur & ies & Hinv & -> & Hlast & Hempty & _ & _ & Hseps). unfold all_blocks in Hseps. rewrite (proj1 (Flush_frame r)). destruct (decide (cur = [])) as [->|Hc].
  - exists bs0, pend, ies. rewrite app_nil_r in *. split_and!; [|done|done|by intros; apply Hempty|by rewrite ?app_nil_r in Hseps].
    pose proof (ti_status _ _ _ _ _ Hinv) as Hs. unfold Flush. rewrite Hs, ok_OK, (ti_data _ _ _ _ _ Hinv). done.
  - destruct pend as [b|]; [by destruct (ti_pending _ _ _ _ _ Hinv) as (_ & _ & ->)|]. cbn [opt_list] in *. rewrite app_nil_r in *.
    exists bs0, (Some cur), ies. split; [by apply Flush_inv|]. cbn [opt_list]. rewrite concat_app. cbn [concat]. rewrite app_nil_r.
    split_and!; try done. by destruct cur.
Qed.

(** The last index entry completes the layout. *)
Lemma Finish_last_entry_spec r es :
  builder_state r es -> Forall (fun e => key e.1) es -> sorted_entries cmp es ->
  let r1 := Flush extend snappy zstd r in
  exists bs ies, table_layout es bs ies /\ r_index_block (Finish_last_entry r1) = build 1 ies /\ r_options r1 = o /\
    r_file r1 = MkWritableFile (body bs) [] /\ r_offset r1 = u64 (slen (body bs)) /\ r_status r1 = OK /\
    r_filter_block r1 = (fun p => (p, build_blocks p (filter_blocks [] bs []))) <$> opt_filter_policy o.
Proof.
  intros Hst Hk Hs. destruct (Finish_flush r es Hst) as (bs0 & pend & ies & Hinv & -> & Hlast & Hempty & Hseps). cbv zeta.
  set (r1 := Flush extend snappy zstd r) in *. unfold Finish_last_entry. pose proof (ti_pending _ _ _ _ _ Hinv) as Hp. destruct pend as [b|].
  - destruct Hp as (-> & Hh & _). cbn [opt_list] in *. rewrite concat_app in *. cbn [concat] in *. rewrite app_nil_r in *.
    assert (b <> []) as Hb by (pose proof (ti_nonempty _ _ _ _ _ Hinv) as H; cbn in H; apply Forall_app in H as [_ H]; by apply Forall_inv in H).
    destruct (last b) as [[k0 v0]|] eqn:El; [|by apply last_None in El].
    specialize (Hlast k0 v0 ltac:(by rewrite last_app_ne)) as Hlk. pose proof (last_Some_elem_of _ _ El) as H0.
    assert (key k0) as Hk0 by (apply (proj1 (Forall_forall _ _) Hk (k0, v0)), elem_of_app; by right).
    rewrite Hlk, (ti_options _ _ _ _ _ Hinv).
    destruct (add_index_inv r1 bs0 b ies (FindShortSuccessor cmp k0) k0 v0) as []; try done; [|by apply successor_key|by apply successor_spec|].
    { unfold sorted_entries in *. by apply StronglySorted_app_1_r in Hs. }
    cbn [opt_list] in *. rewrite app_nil_r in *. eexists (bs0 ++ [b]), _.
    split; [split; try done|rep_simpl; split_and!; try done; apply Hinv].
    + rewrite concat_app. cbn. by rewrite app_nil_r.
    + apply separators_last; [|done]. rewrite length_app, (proj1 (ti_sep _ _ _ _ _ Hinv)). cbn. lia.
  - destruct (Hempty eq_refl) as [-> ->]. rewrite Hp. exists [], []. destruct Hinv. by split_and!.
Qed.

(** The builder has written [c], without an error. *)
Definition written (r : Rep) (c : slice) : Prop :=
  r_options r = o /\ r_file r = MkWritableFile c [] /\ r_offset r = u64 (slen c) /\ r_status r = OK.

(** The fields that the last index entry is made of. *)
Definition same_index (r r' : Rep) : Prop :=
  r_index_block r = r_index_block r' /\ r_last_key r = r_last_key r' /\ r_pending_handle r = r_pending_handle r' /\
  r_pending_index_entry r = r_pending_index_entry r'.

Lemma Finish_filter_spec r bs :
  written r (body bs) -> r_filter_block r = (fun p => (p, build_blocks p (filter_blocks [] bs []))) <$> opt_filter_policy o ->
  exists r', Finish_filter extend r = (filter_handle_of bs, r') /\ written r' (upto_filter bs) /\ same_index r' r /\
    (r_filter_block r' = None <-> opt_filter_policy o = None).
Proof.
  intros (Ho & Hf & Hoff & Hok) Hfil. unfold Finish_filter, upto_filter, filter_part, filter_handle_of, filter_contents. rewrite Hok, ok_OK, Hfil.
  destruct (opt_filter_policy o) as [p|]; cbn [fmap option_fmap option_map].
  - unfold filter_block. destruct (Finish p _) as [c b]. cbn [fst]. rewrite (WriteRawBlock_spec _ _ _ (body bs)) by done.
    by eexists.
  - rewrite app_nil_r. by exists r.
Qed.

Lemma Finish_metaindex_spec r bs ies :
  written r (upto_filter bs) -> (r_filter_block r = None <-> opt_filter_policy o = None) ->
  exists r', Finish_metaindex extend snappy zstd (filter_handle_of bs) r = Some (metaindex_handle (footer_of bs ies), r') /\
    written r' (upto_meta bs) /\ same_index r' r.
Proof.
  intros (Ho & Hf & Hoff & Hok) Hfil. unfold Finish_metaindex. rewrite Hok, ok_OK, Ho, Hinterval.
  assert ((match r_filter_block r with
    | Some _ => p ← opt_filter_policy o; Some (BlockBuilder_Add (Z.of_nat n) (filter_key p) (BlockHandle_EncodeTo (filter_handle_of bs) []) NewBlockBuilder)
    | None => Some NewBlockBuilder end) = Some (build n (meta_entries bs))) as ->.
  { unfold meta_entries. destruct (r_filter_block r), (opt_filter_policy o); try done; [by destruct Hfil as [_ Hfil]; specialize (Hfil eq_refl)|
      by destruct Hfil as [Hfil _]; specialize (Hfil eq_refl)]. }
  cbn [mbind option_bind]. rewrite (WriteBlock_spec _ _ (upto_filter bs)) by done. rewrite Ho. by eexists.
Qed.

Lemma Finish_index_spec r bs ies :
  written r (upto_meta bs) -> r_index_block (Finish_last_entry r) = build 1 ies ->
  exists r', Finish_index extend snappy zstd r = (index_handle (footer_of bs ies), r') /\ written r' (upto_index bs ies).
Proof.
  intros (Ho & Hf & Hoff & Hok) Hidx. unfold Finish_index. rewrite Hok, ok_OK.
  assert (written (Finish_last_entry r) (upto_meta bs)) as (Ho2 & Hf2 & Hoff2 & Hok2) by (unfold Finish_last_entry; by case_match).
  rewrite (WriteBlock_spec _ _ (upto_meta bs)) by done. rewrite Hidx, Ho2. by eexists.
Qed.

Lemma Finish_spec r es :
  builder_state r es -> Forall (fun e => key e.1) es -> sorted_entries cmp es ->
  exists bs ies r', table_layout es bs ies /\ r_index_block (Finish_last_entry (Flush extend snappy zstd r)) = build 1 ies /\
    r_filter_block (Flush extend snappy zstd r) = (fun p => (p, build_blocks p (filter_blocks [] bs []))) <$> opt_filter_policy o /\
    TableBuilder_Finish extend snappy zstd r = Some (OK, r') /\ written r' (table_bytes bs ies).
Proof.
  intros Hst Hk Hs. destruct (Finish_last_entry_spec r es Hst Hk Hs) as (bs & ies & Hl & Hidx & Ho & Hf & Hoff & Hok & Hfil).
  exists bs, ies. set (r1 := Flush extend snappy zstd r) in *. unfold TableBuilder_Finish. fold r1.
  destruct (Finish_filter_spec (with_closed true r1) bs) as (r2 & -> & W2 & I2 & F2); [done|done|].
  destruct (Finish_metaindex_spec r2 bs ies W2 F2) as (r3 & -> & W3 & I3). cbn [mbind option_bind].
  destruct (Finish_index_spec r3 bs ies W3) as (r4 & -> & Ho4 & Hf4 & Hoff4 & Hok4).
  { rewrite <-Hidx. destruct I2 as (A1 & A2 & A3 & A4), I3 as (B1 & B2 & B3 & B4), W3 as (C & _). unfold Finish_last_entry.
    rewrite B4, A4, C, B2, A2. rep_simpl. rewrite Ho. destruct (r_pending_index_entry r1); rep_simpl; congruence. }
  unfold Finish_footer. rewrite Hok4, ok_OK, Hf4. cbn [WritableFile_Append wf_faults wf_contents]. rewrite ok_OK, Hoff4. eexists.
  split_and!; [done|done|done|done|]. rep_simpl. split_and!; try done. rep_simpl. unfold table_bytes.
  rewrite length_app, Nat2Z.inj_add. unfold wrap. by rewrite Z.add_mod_idemp_l.
Qed.
End build_lemmas.

(** ** The size of the index block *)

(** With a restart interval of 1 whole keys are stored, so the size of the block bounds them. *)
Lemma build_1_whole es :
  (counter_ (build 1 es) = 0 /\ last_key_ (build 1 es) = [] \/ counter_ (build 1 es) = 1) /\
  Forall (fun e => slen e.1 <= CurrentSizeEstimate (build 1 es)) es.
Proof.
  induction es as [|[k v] es [Hc IH]] using rev_ind; [split; [by left|constructor]|].
  assert (build 1 (es ++ [(k, v)]) = BlockBuilder_Add 1 k v (build 1 es)) as -> by (unfold build; by rewrite foldl_app).
  pose proof (Add_grows 1 k v (build 1 es)) as Hg.
  assert (counter_ (BlockBuilder_Add 1 k v (build 1 es)) = 1 /\ slen k <= CurrentSizeEstimate (BlockBuilder_Add 1 k v (build 1 es))) as [Hc1 Hk1].
  { unfold BlockBuilder_Add, CurrentSizeEstimate, PutVarint32. destruct Hc as [[-> ->]| ->].
    all: cbn [Z.ltb Z.compare Pos.compare Pos.compare_cont common_prefix counter_ buffer_ restarts_]; split; [done|].
    all: rewrite Nat.sub_0_r, drop_0, take_ge by lia; rewrite !length_app; lia. }
  split; [by right|]. apply Forall_app_2; [|by apply Forall_singleton]. eapply Forall_impl; [exact IH|]. cbn. lia.
Qed.

Lemma sizes_ok_1 es : CurrentSizeEstimate (build 1 es) < 2 ^ 32 -> sizes_ok 1 es.
Proof. intros H. split; [done|]. eapply Forall_impl; [exact (proj2 (build_1_whole es))|]. cbn. lia. Qed.
