(* ===== verification/Table.v ===== *)
(** Table: table/table.cc, the reader of a table file: opening, the block cache, lookup through the filter, iteration. *)

From stdpp Require Import gmap.
From Stdlib Require Import Strings.Byte Strings.String.
From S2P Require Import Prelude Coding Crc32c Comparator DbFormat Status Env FilterPolicy FilterBlock Format Iterator TwoLevelIterator Block TableBuilder.

(** [ReadOptions], without the snapshot. *)
Record ReadOptions := MkReadOptions { verify_checksums : bool; fill_cache : bool }.

Definition DefaultReadOptions : ReadOptions := MkReadOptions false true.

(** [Table::Rep]; the filter reader comes with the policy it was made with. *)
Record Table := MkTable {
  t_options : Options;
  t_file : RandomAccessFile;
  t_cache_id : Z;
  t_filter : option (FilterPolicy * FilterBlockReader);
  t_metaindex_handle : BlockHandle;
  t_index_block : Block;
}.

Section Table.
(** The checksum [crc32c::Extend], and the compression libraries. *)
Context (extend : Z -> slice -> Z) (snappy : option SnappyLib) (zstd : option ZstdLib).

Definition meta_read_options (options : Options) : ReadOptions := MkReadOptions (opt_paranoid_checks options) true.

Definition set_filter (f : FilterPolicy * FilterBlockReader) (t : Table) : Table :=
  MkTable (t_options t) (t_file t) (t_cache_id t) (Some f) (t_metaindex_handle t) (t_index_block t).

Definition ReadFilter (policy : FilterPolicy) (filter_handle_value : slice) (t : Table) : option Table :=
  let '(s, filter_handle, _) := BlockHandle_DecodeFrom NewBlockHandle filter_handle_value in
  if negb (ok s) then Some t
  else
    '(s, block) ← ReadBlock extend snappy zstd (t_file t) (verify_checksums (meta_read_options (t_options t))) filter_handle;
    if negb (ok s) then Some t else Some (set_filter (policy, NewFilterBlockReader (bc_data block)) t).

Definition ReadMeta (footer : Footer) (t : Table) : option Table :=
  match opt_filter_policy (t_options t) with
  | None => Some t
  | Some policy =>
      '(s, contents) ← ReadBlock extend snappy zstd (t_file t) (verify_checksums (meta_read_options (t_options t))) (metaindex_handle footer);
      if negb (ok s) then Some t
      else
        let iter := Block_NewIterator (NewBlock (bc_data contents)) in
        let key := filter_key policy in
        iter ← i_Seek (Block_ops BytewiseComparator) key iter;
        if i_Valid (Block_ops BytewiseComparator) iter && Slice_eqb (i_key (Block_ops BytewiseComparator) iter) key then
          v ← i_value (Block_ops BytewiseComparator) iter; ReadFilter policy v t
        else Some t
  end.

(** [cache_id] is the id that the block cache gives out, or 0 without one. *)
Definition Table_Open (options : Options) (file : RandomAccessFile) (size cache_id : Z) : option (Status * option Table) :=
  if size <? Footer_kEncodedLength then Some (Corruption (lit "file is too short to be an sstable") [], None)
  else
    let '(s, footer_input, _) := raf_Read file (size - Footer_kEncodedLength) Footer_kEncodedLength in
    if negb (ok s) then Some (s, None)
    else
      let '(s, footer, _) := Footer_DecodeFrom NewFooter footer_input in
      if negb (ok s) then Some (s, None)
      else
        '(s, index_block_contents) ← ReadBlock extend snappy zstd file (verify_checksums (meta_read_options options)) (index_handle footer);
        if ok s then
          let t := MkTable options file cache_id None (metaindex_handle footer) (NewBlock (bc_data index_block_contents)) in
          t ← ReadMeta footer t; Some (s, Some t)
        else Some (s, None).

Definition cache_key (cache_id offset : Z) : slice := EncodeFixed64 cache_id ++ EncodeFixed64 offset.

(** [cache] is what the block cache holds when it is asked, if there is one; the second result is the block to insert. *)
Definition BlockReader (cache : option (slice -> option Block)) (t : Table) (options : ReadOptions) (index_value : slice) :
    option (BlockIterator * option (slice * Block)) :=
  let '(s, handle, _) := BlockHandle_DecodeFrom NewBlockHandle index_value in
  if ok s then
    match cache with
    | Some lookup =>
        let key := cache_key (t_cache_id t) (bh_offset handle) in
        match lookup key with
        | Some block => Some (Block_NewIterator block, None)
        | None =>
            '(s, contents) ← ReadBlock extend snappy zstd (t_file t) (verify_checksums options) handle;
            if ok s then
              let block := NewBlock (bc_data contents) in
              Some (Block_NewIterator block, if bc_cachable contents && fill_cache options then Some (key, block) else None)
            else Some (BlockEmpty (NewErrorIterator s), None)
        end
    | None =>
        '(s, contents) ← ReadBlock extend snappy zstd (t_file t) (verify_checksums options) handle;
        if ok s then Some (Block_NewIterator (NewBlock (bc_data contents)), None)
        else Some (BlockEmpty (NewErrorIterator s), None)
    end
  else Some (BlockEmpty (NewErrorIterator s), None).

Definition block_function (cache : option (slice -> option Block)) (t : Table) (options : ReadOptions) (v : slice) : option BlockIterator :=
  fst <$> BlockReader cache t options v.

(** Every index entry takes bytes, so the index block bounds their number. *)
Definition table_iter_ops (cache : option (slice -> option Block)) (t : Table) (options : ReadOptions) :
    IterOps (TwoLevelIterator BlockIterator BlockIterator) :=
  let bops := Block_ops (opt_comparator (t_options t)) in
  TwoLevel_ops bops bops (block_function cache t options) (length (b_data (t_index_block t))).

Definition Table_NewIterator (t : Table) : TwoLevelIterator BlockIterator BlockIterator :=
  let bops := Block_ops (opt_comparator (t_options t)) in
  NewTwoLevelIterator bops bops (Block_NewIterator (t_index_block t)).

(** The status, and the entry that [handle_result] is called with, if it is. *)
Definition InternalGet (cache : option (slice -> option Block)) (t : Table) (options : ReadOptions) (k : slice) :
    option (Status * option (slice * slice)) :=
  let bops := Block_ops (opt_comparator (t_options t)) in
  iiter ← i_Seek bops k (Block_NewIterator (t_index_block t));
  if i_Valid bops iiter then
    handle_value ← i_value bops iiter;
    let '(hs, handle, _) := BlockHandle_DecodeFrom NewBlockHandle handle_value in
    let excluded :=
      match t_filter t with
      | Some (p, filter) => ok hs && negb (FilterBlock_KeyMayMatch p (bh_offset handle) k filter)
      | None => false
      end in
    if excluded then Some (i_status bops iiter, None)
    else
      block_iter ← block_function cache t options handle_value;
      block_iter ← i_Seek bops k block_iter;
      result ← (if i_Valid bops block_iter then v ← i_value bops block_iter; Some (Some (i_key bops block_iter, v)) else Some None);
      let s := i_status bops block_iter in
      Some (if ok s then i_status bops iiter else s, result)
  else Some (i_status bops iiter, None).

Definition ApproximateOffsetOf (t : Table) (key : slice) : option Z :=
  let bops := Block_ops (opt_comparator (t_options t)) in
  index_iter ← i_Seek bops key (Block_NewIterator (t_index_block t));
  if i_Valid bops index_iter then
    input ← i_value bops index_iter;
    let '(s, handle, _) := BlockHandle_DecodeFrom NewBlockHandle input in
    Some (if ok s then bh_offset handle else bh_offset (t_metaindex_handle t))
  else Some (bh_offset (t_metaindex_handle t)).
End Table.

(** * Lemmas: reading a finished table *)

Section read.
Context (extend : Z -> slice -> Z) `{!Checksum extend} (snappy : option SnappyLib) (zstd : option ZstdLib).
Context (Hsnappy : forall lib, snappy = Some lib -> SnappyLaws lib) (Hzstd : forall lib, zstd = Some lib -> ZstdLaws lib).
Context (o : Options) (n : nat) (Hn : (1 <= n)%nat).
Context (key : slice -> Prop) `{!ComparatorLaws key (opt_comparator o)}.
Context (es : list (slice * slice)) (bs : list (list (slice * slice))) (ies : list (slice * slice)).
Context (Hlayout : table_layout extend snappy zstd o n key es bs ies).
Context (Hkeys : Forall (fun e => key e.1) es) (Hsorted : sorted_entries (opt_comparator o) es).
Context (Hindex : CurrentSizeEstimate (build 1 ies) < 2 ^ 32).

Abbreviation cmp := (opt_comparator o).

Let bytes := table_bytes extend snappy zstd o n bs ies.

Context (Hlen : slen bytes < 2 ^ 64) (in_scratch : bool).

Let file := raf_of bytes in_scratch.

Abbreviation raw m b := ((BlockBuilder_Finish (build m b)).1).

Lemma raw_nonempty m b : raw m b <> [].
Proof.
  unfold BlockBuilder_Finish. cbn [fst]. intros E%(f_equal length). unfold PutFixed32 in E. rewrite length_app, length_EncodeFixed32 in E.
  cbn in E. lia.
Qed.

(** A block of the table is read back. *)
Lemma read_part m b pre post verify :
  bytes = pre ++ stored_block extend snappy zstd o m b ++ post ->
  exists c h, ReadBlock extend snappy zstd file verify (MkBlockHandle (u64 (slen pre)) (slen (packed snappy zstd o m b).1)) =
    Some (OK, MkBlockContents (raw m b) c h).
Proof.
  intros E. unfold file. rewrite E in *. rewrite (wrap_small 64) by (unfold in_u; rewrite length_app in Hlen; lia).
  apply ReadBlock_stored; [done|done|]. apply unpack_compress; [done|done|apply raw_nonempty].
Qed.

Lemma body_split j b : bs !! j = Some b ->
  body extend snappy zstd o n bs = body extend snappy zstd o n (take j bs) ++ stored_block extend snappy zstd o n b ++
    body extend snappy zstd o n (drop (S j) bs).
Proof. intros E. unfold body. rewrite <-(take_drop_middle _ _ _ E) at 1. rewrite map_app, concat_app. done. Qed.

Lemma read_data j b verify : bs !! j = Some b ->
  exists c h, ReadBlock extend snappy zstd file verify (handle_of extend snappy zstd o n (take j bs) b) = Some (OK, MkBlockContents (raw n b) c h).
Proof.
  intros E. eapply read_part. unfold bytes, table_bytes, upto_index, upto_meta, upto_filter. rewrite (body_split j b E), <-!app_assoc. done.
Qed.

Lemma part_handle_ok pre contents t post :
  bytes = pre ++ stored extend contents t ++ post -> handle_ok (MkBlockHandle (u64 (slen pre)) (slen contents)).
Proof.
  intros E. split; cbn; [apply wrap_in_u; lia|]. rewrite E, !length_app in Hlen. pose proof (length_stored extend contents t) as Hl.
  unfold kBlockTrailerSize in Hl. unfold in_u. lia.
Qed.

Lemma bytes_index : bytes = upto_meta extend snappy zstd o n bs ++ stored_block extend snappy zstd o 1 ies ++
  Footer_EncodeTo (footer_of extend snappy zstd o n bs ies) [].
Proof. unfold bytes, table_bytes, upto_index. by rewrite <-app_assoc. Qed.

Lemma bytes_meta : exists post, bytes = upto_filter extend snappy zstd o n bs ++ stored_block extend snappy zstd o n (meta_entries extend snappy zstd o n bs) ++ post.
Proof. eexists. rewrite bytes_index. unfold upto_meta. by rewrite <-!app_assoc. Qed.

Lemma bytes_data j b : bs !! j = Some b -> exists post, bytes = body extend snappy zstd o n (take j bs) ++ stored_block extend snappy zstd o n b ++ post.
Proof. intros E. destruct bytes_meta as [post ->]. eexists. unfold upto_filter. rewrite (body_split j b E), <-!app_assoc. done. Qed.

(** ** The filter *)

Context (Hname : forall p, opt_filter_policy o = Some p -> slen (FilterPolicy_Name p) < 2 ^ 31).

(** The filter reader of the opened table. *)
Definition the_filter : option (FilterPolicy * FilterBlockReader) :=
  (fun p => (p, NewFilterBlockReader (filter_block p (filter_blocks extend snappy zstd o n [] bs [])))) <$> opt_filter_policy o.

Definition the_table (cache_id : Z) : Table :=
  MkTable o file cache_id the_filter (metaindex_handle (footer_of extend snappy zstd o n bs ies)) (NewBlock (raw 1 ies)).

Lemma meta_sizes : sizes_ok n (meta_entries extend snappy zstd o n bs).
Proof.
  unfold meta_entries. destruct (opt_filter_policy o) as [p|] eqn:Ep; [|by split; [vm_compute|constructor]].
  specialize (Hname p eq_refl). set (h := filter_handle_of _ _ _ _ _ _). pose proof (length_BlockHandle_Encode h) as Hh. unfold kMaxEncodedLength in Hh.
  assert (slen (filter_key p) < 2 ^ 31 + 7) as Hk by (unfold filter_key; rewrite length_app; change (length (lit "filter.")) with 7%nat; lia).
  split; [|by apply Forall_singleton; cbn [fst]; lia]. unfold build. cbn [foldl fst snd].
  pose proof (Add_estimate (Z.of_nat n) (filter_key p) (BlockHandle_EncodeTo h []) NewBlockBuilder) as He.
  change (CurrentSizeEstimate NewBlockBuilder) with 8 in He. lia.
Qed.

Lemma ReadFilter_spec p t :
  opt_filter_policy o = Some p -> t_file t = file ->
  ReadFilter extend snappy zstd p (BlockHandle_EncodeTo (filter_handle_of extend snappy zstd o n bs) []) t =
    Some (set_filter (p, NewFilterBlockReader (filter_block p (filter_blocks extend snappy zstd o n [] bs []))) t).
Proof.
  intros Ep Ef. unfold ReadFilter, filter_handle_of, filter_contents. rewrite Ep. cbn [fmap option_fmap option_map].
  set (c := filter_block p _).
  assert (exists post, bytes = body extend snappy zstd o n bs ++ stored extend c kNoCompression ++ post) as [post E].
  { destruct bytes_meta as [post ->]. unfold upto_filter, filter_part, filter_contents. rewrite Ep. cbn. rewrite <-app_assoc. eauto. }
  pose proof (BlockHandle_Decode_Encode _ NewBlockHandle [] (part_handle_ok _ _ _ _ E)) as D. rewrite app_nil_r in D. rewrite D, ok_OK. cbn [negb].
  rewrite (wrap_small 64) by (unfold in_u; rewrite E, length_app in Hlen; lia). rewrite Ef. unfold file. rewrite E in *.
  destruct (ReadBlock_stored extend snappy zstd (body extend snappy zstd o n bs) c kNoCompression post in_scratch
    (verify_checksums (meta_read_options (t_options t))) c Hlen eq_refl) as (x & y & ->). done.
Qed.

Lemma ReadMeta_spec t :
  t_options t = o -> t_file t = file -> t_filter t = None -> ReadMeta extend snappy zstd (footer_of extend snappy zstd o n bs ies) t =
    Some (MkTable o file (t_cache_id t) the_filter (t_metaindex_handle t) (t_index_block t)).
Proof.
  intros Eo Ef En. pose proof meta_sizes as Hms. pose proof ReadFilter_spec as Hrf. unfold ReadMeta, the_filter. rewrite Eo. destruct (opt_filter_policy o) as [p|] eqn:Ep; [|by destruct t; cbn in *; subst].
  destruct bytes_meta as [post E]. destruct (read_part n _ _ _ (verify_checksums (meta_read_options o)) E) as (x & y & Er).
  cbn [footer_of metaindex_handle]. rewrite Ef, Er. cbn [mbind option_bind]. rewrite ok_OK. cbn [negb bc_data].
  assert (meta_entries extend snappy zstd o n bs =
    [(filter_key p, BlockHandle_EncodeTo (filter_handle_of extend snappy zstd o n bs) [])]) as Em by (unfold meta_entries; by rewrite Ep).
  assert (IterLaws (Block_ops BytewiseComparator) BytewiseComparator any_key (meta_entries extend snappy zstd o n bs)
    (block_pos n (meta_entries extend snappy zstd o n bs))) as HL.
  { apply (Block_iter_laws n _ any_key BytewiseComparator); [done|done|by apply Forall_forall|]. rewrite Em. unfold sorted_entries. repeat constructor. }
  destruct (pos_Seek _ _ (filter_key p) (NewIterator_pos n _ Hn Hms) I) as (it & Es & Hp). rewrite Es. cbn [mbind option_bind].
  assert (seek_pos BytewiseComparator (filter_key p) (meta_entries extend snappy zstd o n bs) = 0%nat) as E0.
  { rewrite Em. cbn [seek_pos fst]. rewrite compare_refl by done. done. }
  rewrite E0 in Hp. assert (meta_entries extend snappy zstd o n bs !! 0%nat = Some (filter_key p, BlockHandle_EncodeTo (filter_handle_of extend snappy zstd o n bs) [])) as E1 by (by rewrite Em).
  rewrite (pos_Valid _ _ Hp), (pos_key _ _ _ _ Hp E1), (pos_value _ _ _ _ Hp E1). rewrite bool_decide_true by (rewrite Em; cbn; lia).
  rewrite (proj2 (Slice_eqb_spec _ _) eq_refl). cbn [andb mbind option_bind]. rewrite (Hrf p t) by done. unfold set_filter. by rewrite Eo, Ef.
Qed.

(** Opening the table. *)
Lemma Table_Open_spec cache_id : Table_Open extend snappy zstd o file (slen bytes) cache_id = Some (OK, Some (the_table cache_id)).
Proof.
  unfold Table_Open. pose proof bytes_index as E. pose proof (length_Footer_Encode (footer_of extend snappy zstd o n bs ies)) as Hf.
  change Footer_kEncodedLength with 48 in *.
  assert (slen bytes = slen (upto_index extend snappy zstd o n bs ies) + 48) as El by (unfold bytes, table_bytes; rewrite length_app; lia).
  rewrite (proj2 (Z.ltb_ge _ 48)) by lia.
  assert ((raf_Read file (slen bytes - 48) 48).1 = (OK, Footer_EncodeTo (footer_of extend snappy zstd o n bs ies) [])) as Er.
  { unfold file. cbn [raf_of raf_Read fst]. rewrite !Z.min_l by lia. rewrite El. f_equal. unfold bytes, table_bytes.
    rewrite drop_app_length' by lia. apply take_ge. lia. }
  destruct (raf_Read file (slen bytes - 48) 48) as [[s fi] sc]. cbn [fst] in Er. injection Er as -> ->. rewrite ok_OK. cbn [negb].
  destruct bytes_meta as [post Em]. pose proof (Footer_Decode_Encode (footer_of extend snappy zstd o n bs ies) NewFooter []) as D.
  rewrite app_nil_r in D. rewrite D; [|eapply part_handle_ok; exact Em|eapply part_handle_ok; exact E]. rewrite ok_OK. cbn [negb].
  destruct (read_part 1 ies _ _ (verify_checksums (meta_read_options o)) E) as (x & y & Er). cbn [footer_of index_handle]. rewrite Er.
  cbn [mbind option_bind]. rewrite ok_OK. cbn [bc_data]. change (MkFooter _ _) with (footer_of extend snappy zstd o n bs ies).
  rewrite ReadMeta_spec by done. done.
Qed.

(** ** The blocks *)

Abbreviation the_handle j b := (handle_of extend snappy zstd o n (take j bs) b).

(** A block cache that holds, for the table's keys, the blocks of the table. *)
Context (cache : option (slice -> option Block)) (cache_id : Z).
Context (Hcache : forall lookup j b block, cache = Some lookup -> bs !! j = Some b ->
  lookup (cache_key cache_id (bh_offset (the_handle j b))) = Some block -> block = NewBlock (raw n b)).

Lemma handle_decode j b rest : bs !! j = Some b ->
  BlockHandle_DecodeFrom NewBlockHandle (BlockHandle_EncodeTo (the_handle j b) [] ++ rest) = (OK, the_handle j b, rest).
Proof. intros E. apply BlockHandle_Decode_Encode. destruct (bytes_data j b E) as [post Ep]. eapply part_handle_ok. exact Ep. Qed.

Lemma block_function_spec j b ro : bs !! j = Some b ->
  block_function extend snappy zstd cache (the_table cache_id) ro (BlockHandle_EncodeTo (the_handle j b) []) =
    Some (Block_NewIterator (NewBlock (raw n b))).
Proof.
  intros E. unfold block_function, BlockReader. pose proof (handle_decode j b [] E) as D. rewrite app_nil_r in D. rewrite D, ok_OK.
  destruct (read_data j b (verify_checksums ro) E) as (x & y & Er). cbn [the_table t_file t_cache_id].
  destruct cache as [lookup|] eqn:Ec; [|by rewrite Er].
  destruct (lookup _) as [block|] eqn:El; [by rewrite (Hcache lookup j b block eq_refl E El)|]. by rewrite Er.
Qed.

Lemma index_lookup j k h : ies !! j = Some (k, h) -> exists b, bs !! j = Some b /\ h = BlockHandle_EncodeTo (the_handle j b) [].
Proof.
  intros E. destruct (lookup_lt_is_Some_2 bs j) as [b Eb].
  { rewrite <-(proj1 (tl_sep _ _ _ _ _ _ _ _ _ Hlayout)). by apply lookup_lt_Some in E. }
  exists b. split; [done|]. pose proof (f_equal (lookup j) (tl_handles _ _ _ _ _ _ _ _ _ Hlayout)) as H.
  rewrite !lookup_map, E, (handles_lookup _ _ _ _ _ _ _ _ _ Eb) in H. by injection H.
Qed.

(** Different blocks are at different offsets. *)
Lemma offsets_distinct i j b b' : bs !! i = Some b -> bs !! j = Some b' -> bh_offset (the_handle i b) = bh_offset (the_handle j b') -> i = j.
Proof.
  intros Eb Eb' D. destruct (bytes_data i b Eb) as [p Ep]. destruct (bytes_data j b' Eb') as [p' Ep'].
  assert (forall x y c, (x < y)%nat -> bs !! x = Some c -> slen (body extend snappy zstd o n (take x bs)) < slen (body extend snappy zstd o n (take y bs))) as Hmono.
  { intros x y c Hxy Ex. replace y with (S x + (y - S x))%nat by lia. rewrite <-take_take_drop, (take_S_r _ _ _ Ex).
    unfold body. rewrite !map_app, !concat_app, !length_app. cbn [map concat]. rewrite app_nil_r.
    pose proof (length_stored extend (packed snappy zstd o n c).1 (packed snappy zstd o n c).2) as Hl. unfold stored_block, kBlockTrailerSize in *. lia. }
  pose proof (f_equal length Ep) as Lp. pose proof (f_equal length Ep') as Lp'. rewrite length_app in Lp, Lp'.
  cbn [handle_of bh_offset] in D. rewrite !(wrap_small 64) in D by (unfold in_u; lia).
  destruct (Nat.lt_trichotomy i j) as [H|[H|H]]; [|done|].
  - pose proof (Hmono i j b H Eb). lia.
  - pose proof (Hmono j i b' H Eb'). lia.
Qed.

Lemma handles_distinct i j k k' h : ies !! i = Some (k, h) -> ies !! j = Some (k', h) -> i = j.
Proof.
  intros Ei Ej. destruct (index_lookup i k h Ei) as (b & Eb & ->). destruct (index_lookup j k' _ Ej) as (b' & Eb' & E).
  pose proof (handle_decode i b [] Eb) as D. rewrite E, (handle_decode j b' [] Eb') in D. apply (offsets_distinct i j b b' Eb Eb').
  by injection D.
Qed.

Lemma length_raw m b : (1 <= m)%nat -> sizes_ok m b -> (length b <= length (raw m b))%nat.
Proof.
  intros Hm Hs. rewrite Finish_build by done. rewrite length_app. enough (length b <= length (concat (chunks m 0 [] b)))%nat by lia.
  generalize 0%nat, (@nil byte). clear. induction b as [|[k v] b IH]; intros i prev; [done|]. cbn [chunks concat length]. rewrite length_app.
  specialize (IH (S i) k). unfold entry_bytes. rewrite length_app. pose proof (length_entry_header (if decide ((i mod m)%nat = 0%nat) then 0%nat else common_prefix prev k) k v). lia.
Qed.

(** ** The iterator *)

Definition data_pos (j : nat) : BlockIterator -> nat -> Prop := block_pos n (nth j bs []).

Lemma block_nth j b : bs !! j = Some b -> nth j bs [] = b.
Proof. apply nth_lookup_Some. Qed.

Lemma block_facts j b : bs !! j = Some b -> sizes_ok n b /\ Forall (fun e => key e.1) b /\ sorted_entries cmp b.
Proof.
  intros E. split; [exact (Forall_lookup_1 _ _ _ _ (tl_sizes _ _ _ _ _ _ _ _ _ Hlayout) E)|].
  pose proof (tl_entries _ _ _ _ _ _ _ _ _ Hlayout) as He. rewrite He in Hkeys, Hsorted.
  rewrite <-(take_drop_middle _ _ _ E), concat_app in Hkeys, Hsorted. cbn [concat] in Hkeys, Hsorted. unfold sorted_entries in *.
  apply Forall_app in Hkeys as [_ Hk]. apply Forall_app in Hk as [Hk _]. split; [done|].
  by apply StronglySorted_app_1_r, StronglySorted_app_1_l in Hsorted.
Qed.

Lemma index_laws : IterLaws (Block_ops cmp) cmp key ies (block_pos 1 ies).
Proof. destruct Hlayout. apply (Block_iter_laws 1 ies key cmp); [lia|by apply sizes_ok_1|done|done]. Qed.

Lemma data_laws j b : bs !! j = Some b -> IterLaws (Block_ops cmp) cmp key b (data_pos j).
Proof. intros E. unfold data_pos. rewrite (block_nth j b E). destruct (block_facts j b E) as (? & ? & ?). by apply (Block_iter_laws n b key cmp). Qed.

Lemma NewIterator_data j b : bs !! j = Some b -> data_pos j (Block_NewIterator (NewBlock (raw n b))) (length b).
Proof. intros E. unfold data_pos. rewrite (block_nth j b E). apply NewIterator_pos; [done|]. by destruct (block_facts j b E). Qed.

Lemma table_iter_laws ro :
  IterLaws (table_iter_ops extend snappy zstd cache (the_table cache_id) ro) cmp key es (twolevel_pos ies bs (block_pos 1 ies) data_pos).
Proof.
  pose proof (tl_entries _ _ _ _ _ _ _ _ _ Hlayout) as He. rewrite He. pose proof index_laws.
  apply (TwoLevel_laws cmp key); try done; try apply Hlayout; try by rewrite <-He.
  - exact data_laws.
  - intros j k h E. destruct (index_lookup j k h E) as (b & Eb & ->). exists (Block_NewIterator (NewBlock (raw n b))), (length b).
    split; [by apply block_function_spec|by apply NewIterator_data].
  - exact handles_distinct.
  - cbn [the_table t_index_block]. replace (b_data (NewBlock (raw 1 ies))) with (raw 1 ies); [by apply length_raw, sizes_ok_1|].
    unfold NewBlock. by repeat case_match.
Qed.

(** ** Lookup *)

Lemma filter_offsets_ok pre l cur last_ :
  slen (body extend snappy zstd o n (pre ++ l)) < 2 ^ 64 -> last_ <= slen (body extend snappy zstd o n pre) ->
  offsets_ok last_ (filter_blocks extend snappy zstd o n pre l cur).
Proof.
  revert pre last_. induction l as [|b l IH]; intros pre last_ Hl Hle; cbn [filter_blocks offsets_ok].
  - rewrite app_nil_r in Hl. rewrite (wrap_small 64) by (unfold in_u; lia). done.
  - assert (slen (body extend snappy zstd o n pre) <= slen (body extend snappy zstd o n (pre ++ b :: l))) by (unfold body; rewrite map_app, concat_app, length_app; lia).
    rewrite (wrap_small 64) by (unfold in_u; lia). split; [done|]. apply IH; [by rewrite <-app_assoc|].
    unfold body. rewrite map_app, concat_app, length_app. lia.
Qed.

Lemma filter_total pre l cur : total_keys (filter_blocks extend snappy zstd o n pre l cur) = Z.of_nat (length (concat l) + length cur).
Proof.
  unfold total_keys. revert pre. induction l as [|b l IH]; intros pre; cbn [filter_blocks map snd concat].
  - rewrite app_nil_r, length_map. cbn. lia.
  - specialize (IH (pre ++ [b])). rewrite !length_app, length_map. lia.
Qed.

Lemma filter_elem pre l cur j b : l !! j = Some b ->
  (u64 (slen (body extend snappy zstd o n (pre ++ take j l))), map fst b) ∈ filter_blocks extend snappy zstd o n pre l cur.
Proof.
  revert pre j. induction l as [|b' l IH]; intros pre j E; [done|]. destruct j as [|j]; cbn in E; cbn [filter_blocks take].
  - injection E as ->. rewrite app_nil_r. apply list_elem_of_here.
  - apply list_elem_of_further. specialize (IH (pre ++ [b']) j E). by rewrite <-app_assoc in IH.
Qed.

Context (Hpolicy : forall p, opt_filter_policy o = Some p -> FilterPolicyLaws p /\ Z.of_nat (length es) < 2 ^ 31 /\
  slen (filter_block p (filter_blocks extend snappy zstd o n [] bs [])) < 2 ^ 32).

(** The filter does not exclude a key of the block. *)
Lemma filter_accepts p j b x :
  opt_filter_policy o = Some p -> bs !! j = Some b -> x ∈ map fst b ->
  FilterBlock_KeyMayMatch p (bh_offset (the_handle j b)) x (NewFilterBlockReader (filter_block p (filter_blocks extend snappy zstd o n [] bs []))) = true.
Proof.
  intros Ep Eb Hx. destruct (Hpolicy p Ep) as (HL & Hc & Hs). apply (filter_block_matches p _ _ (map fst b)); [|..|done|exact (filter_elem [] bs [] j b Eb)|done].
  - apply filter_offsets_ok; [|done]. destruct bytes_meta as [post E]. pose proof (f_equal length E) as El. unfold upto_filter in El.
    rewrite !length_app in El. cbn [app]. lia.
  - rewrite filter_total, <-(tl_entries _ _ _ _ _ _ _ _ _ Hlayout). cbn [length]. lia.
Qed.

(** [related k x]: an entry [x] answers a lookup of [k].  The filter treats the two alike, and a separator of [x] from a
    key before [k] is before [k]. *)
Context (k : slice) (related : slice -> Prop) (Hk : key k).
Context (Hrel_filter : forall p x f, opt_filter_policy o = Some p -> related x -> KeyMayMatch p k f = KeyMayMatch p x f).
Context (Hrel_sep : forall a x, key a -> key x -> related x -> Compare cmp a k < 0 -> Compare cmp k x <= 0 ->
  Compare cmp (FindShortestSeparator cmp a x) k < 0).

Lemma related_filter p off x r : opt_filter_policy o = Some p -> related x ->
  FilterBlock_KeyMayMatch p off k r = FilterBlock_KeyMayMatch p off x r.
Proof.
  intros Ep Hx. unfold FilterBlock_KeyMayMatch. repeat case_match; try done. by apply Hrel_filter.
Qed.

(** When the block that the index leads to has no entry for the target, the next one does not answer it. *)
Lemma gap_unrelated j b ik h x v :
  ies !! j = Some (ik, h) -> bs !! j = Some b -> j = seek_pos cmp k ies -> seek_pos cmp k b = length b ->
  concat bs !! length (concat (take (S j) bs)) = Some (x, v) -> ~ related x.
Proof.
  intros Ei Eb Hj Hp Ex Hr. destruct (bs !! S j) as [b'|] eqn:Eb'.
  2: { apply lookup_ge_None in Eb'. rewrite take_ge in Ex by done. apply lookup_lt_Some in Ex. lia. }
  pose proof (tl_nonempty _ _ _ _ _ _ _ _ _ Hlayout) as Hne.
  destruct (tl_separators _ _ _ _ _ _ _ _ _ Hlayout j b b' ik h Ei Eb Eb') as ([a va] & [x' v'] & Ha & Hx' & ->). cbn [fst] in *.
  assert (x' = x) as ->.
  { assert (concat bs = concat (take (S j) bs) ++ b' ++ concat (drop (S (S j)) bs)) as Ec
      by (rewrite <-(take_drop_middle _ _ _ Eb') at 1; by rewrite concat_app).
    rewrite Ec, lookup_app_r, Nat.sub_diag in Ex by lia. destruct b' as [|e b']; [done|]. cbn in Hx', Ex. congruence. }
  destruct (block_facts j b Eb) as (_ & Hkb & Hsb). destruct (block_facts (S j) b' Eb') as (_ & Hkb' & _).
  assert (key a) by (exact (proj1 (Forall_forall _ _) Hkb _ (last_Some_elem_of _ _ Ha))).
  assert (key x) by (exact (proj1 (Forall_forall _ _) Hkb' _ (head_Some_elem_of _ _ Hx'))).
  assert (Compare cmp a k < 0) as Hak.
  { destruct (proj1 (list_elem_of_lookup _ _) (last_Some_elem_of _ _ Ha)) as [l El].
    apply (seek_pos_spec b k l a va Hkb Hsb Hk El). rewrite Hp. by apply lookup_lt_Some in El. }
  pose proof (tl_keys _ _ _ _ _ _ _ _ _ Hlayout) as Hki. pose proof (tl_sorted _ _ _ _ _ _ _ _ _ Hlayout) as Hsi.
  pose proof (seek_pos_spec ies k j _ h Hki Hsi Hk Ei) as Hsp.
  assert (~ Compare cmp (FindShortestSeparator cmp a x) k < 0) as Hn' by (rewrite Hsp; lia). apply Hn', Hrel_sep; try done.
  apply compare_nlt in Hn'; [|exact (keys_lookup _ _ _ _ _ Hki Ei)|done].
  destruct (tl_sep _ _ _ _ _ _ _ _ _ Hlayout) as [_ Hsep].
  pose proof (proj2 (Hsep j _ h Ei) (S j) b' (x, v') ltac:(lia) Eb' (head_Some_elem_of _ _ Hx')) as Hlt. cbn [fst] in Hlt.
  pose proof (compare_le_lt _ _ _ Hk (keys_lookup _ _ _ _ _ Hki Ei) ltac:(done) Hn' Hlt). lia.
Qed.

Lemma InternalGet_spec ro :
  exists res, InternalGet extend snappy zstd cache (the_table cache_id) ro k = Some (OK, res) /\
    (res = None \/ res = es !! seek_pos cmp k es) /\
    (forall x v, es !! seek_pos cmp k es = Some (x, v) -> related x -> res = Some (x, v)).
Proof.
  pose proof index_laws as HI. pose proof (sizes_ok_1 ies Hindex) as Hsi.
  pose proof (tl_entries _ _ _ _ _ _ _ _ _ Hlayout) as He. pose proof (tl_keys _ _ _ _ _ _ _ _ _ Hlayout) as Hki.
  assert (seek_pos cmp k es = match bs !! seek_pos cmp k ies with
    | Some b => length (concat (take (seek_pos cmp k ies) bs)) + seek_pos cmp k b | None => length (concat bs) end)%nat as Hseek.
  { rewrite He. apply (seek_concat (key := key)); try done; try apply Hlayout; by rewrite <-He. }
  unfold InternalGet. cbn [the_table t_options t_index_block t_filter].
  destruct (pos_Seek _ _ k (NewIterator_pos 1 ies ltac:(lia) Hsi) Hk) as (ii & -> & Hii). cbn [mbind option_bind].
  rewrite (pos_Valid _ _ Hii), (pos_status _ _ Hii). set (j := seek_pos cmp k ies) in *. case_bool_decide as Hj.
  2: { exists None. split; [done|]. split; [by left|]. intros x v E. exfalso. rewrite Hseek in E.
       rewrite (proj2 (lookup_ge_None bs j)) in E by (rewrite <-(proj1 (tl_sep _ _ _ _ _ _ _ _ _ Hlayout)); lia).
       rewrite He in E. apply lookup_lt_Some in E. lia. }
  destruct (lookup_lt_is_Some_2 ies j Hj) as [[ik h] Ei]. destruct (index_lookup j ik h Ei) as (b & Eb & ->). rewrite Eb in Hseek.
  rewrite (pos_value _ _ _ _ Hii Ei). cbn [mbind option_bind]. pose proof (handle_decode j b [] Eb) as D. rewrite app_nil_r in D. rewrite D, ok_OK.
  pose proof (data_laws j b Eb) as HD. rewrite (block_function_spec j b ro Eb). cbn [mbind option_bind].
  destruct (pos_Seek _ _ k (NewIterator_data j b Eb) Hk) as (it & Es & Hit). rewrite Es. cbn [mbind option_bind].
  rewrite (pos_Valid _ _ Hit), (pos_status _ _ Hit), ok_OK. set (l := seek_pos cmp k b) in *.
  assert (forall x v, es !! seek_pos cmp k es = Some (x, v) -> related x ->
    b !! l = Some (x, v) /\ forall p, opt_filter_policy o = Some p ->
      FilterBlock_KeyMayMatch p (bh_offset (the_handle j b)) k (NewFilterBlockReader (filter_block p (filter_blocks extend snappy zstd o n [] bs []))) = true) as Hhit.
  { intros x v E Hx. rewrite Hseek, He in E. destruct (decide (l < length b)%nat) as [Hl|Hl].
    - rewrite (concat_base_lookup j b l Eb Hl) in E. split; [done|]. intros p Ep. rewrite (related_filter p _ x _ Ep Hx).
      apply filter_accepts; [done|done|]. apply list_elem_of_In, in_map_iff. exists (x, v). split; [done|]. apply list_elem_of_In. by eapply list_elem_of_lookup_2.
    - pose proof (seek_pos_le cmp k b). exfalso. apply (gap_unrelated j b ik _ x v Ei Eb eq_refl); [fold l; lia| |done].
      rewrite (concat_base_S j b Eb). by replace (length b) with l by lia. }
  assert (es !! seek_pos cmp k es = b !! l \/ ~ (l < length b)%nat) as Hsame.
  { destruct (decide (l < length b)%nat) as [Hl|Hl]; [left|by right]. rewrite Hseek, He. by apply concat_base_lookup. }
  destruct (match the_filter with Some (p, filter) => _ | None => false end) eqn:Ex.
  - exists None. split; [done|]. split; [by left|]. intros x v E Hx. destruct (Hhit x v E Hx) as [_ Hf]. unfold the_filter in Ex.
    destruct (opt_filter_policy o) as [p|]; [|done]. cbn [fmap option_fmap option_map] in Ex. by rewrite (Hf p eq_refl) in Ex.
  - case_bool_decide as Hl.
    + destruct (lookup_lt_is_Some_2 b l Hl) as [[x v] El]. rewrite (pos_value _ _ _ _ Hit El), (pos_key _ _ _ _ Hit El). cbn [mbind option_bind].
      exists (Some (x, v)). split; [done|]. destruct Hsame as [Hsame|]; [|done]. rewrite Hsame, El. split; [by right|]. by intros ? ? [= <- <-] _.
    + exists None. split; [done|]. split; [by left|]. intros x v E Hx. destruct (Hhit x v E Hx) as [El _]. apply lookup_lt_Some in El. lia.
Qed.
End read.


(** * A table that was built and opened *)

Section built_table.
Context (extend : Z -> slice -> Z) `{!Checksum extend} (snappy : option SnappyLib) (zstd : option ZstdLib).

(** The builder after the entries, before [Finish]. *)
Definition table_builder (o : Options) (es : list (slice * slice)) : Rep :=
  add_entries extend snappy zstd es (NewTableBuilder o (MkWritableFile [] [])).

(** The sizes that the format allows: entries, index block, filter block and file. *)
Definition table_fits (o : Options) (es : list (slice * slice)) : Prop :=
  let r := Flush extend snappy zstd (table_builder o es) in
  Forall (entry_fits o) es /\ Z.of_nat (length es) < 2 ^ 31 /\
  CurrentSizeEstimate (r_index_block (Finish_last_entry r)) < 2 ^ 32 /\
  match r_filter_block r with Some (p, b) => slen (Finish p b).1 < 2 ^ 32 /\ slen (FilterPolicy_Name p) < 2 ^ 31 | None => True end /\
  match TableBuilder_Finish extend snappy zstd (table_builder o es) with Some (_, r') => slen (wf_contents (r_file r')) < 2 ^ 64 | None => True end.

(** What the builder is given. *)
Record table_input (o : Options) (key : slice -> Prop) (es : list (slice * slice)) : Prop := {
  in_snappy : forall lib, snappy = Some lib -> SnappyLaws lib;
  in_zstd : forall lib, zstd = Some lib -> ZstdLaws lib;
  in_interval : 1 <= opt_block_restart_interval o;
  in_policy : forall p, opt_filter_policy o = Some p -> FilterPolicyLaws p;
  in_keys : Forall (fun e => key e.1) es;
  in_sorted : sorted_entries (opt_comparator o) es;
  in_fits : table_fits o es;
}.

(** The values of the index that its iterator goes through. *)
Definition index_value (t : Table) (v : slice) : Prop :=
  let bops := Block_ops (opt_comparator (t_options t)) in
  exists it fuel l it', i_SeekToFirst bops (Block_NewIterator (t_index_block t)) = Some it /\ iter_entries bops fuel it = Some (l, it') /\ v ∈ map snd l.

(** A block cache is coherent with a table when it has, for the blocks of the table's index, what is in the file. *)
Definition cache_coherent (cache : option (slice -> option Block)) (t : Table) : Prop :=
  forall lookup v h rest block, cache = Some lookup -> index_value t v -> BlockHandle_DecodeFrom NewBlockHandle v = (OK, h, rest) ->
    lookup (cache_key (t_cache_id t) (bh_offset h)) = Some block ->
    exists c, ReadBlock extend snappy zstd (t_file t) true h = Some (OK, c) /\ block = NewBlock (bc_data c).

(** The table is written, and opened. *)
Definition opened (o : Options) (es : list (slice * slice)) (in_scratch : bool) (cache_id : Z) (t : Table) : Prop :=
  exists r, TableBuilder_Finish extend snappy zstd (table_builder o es) = Some (OK, r) /\
    let contents := wf_contents (r_file r) in
    Table_Open extend snappy zstd o (raf_of contents in_scratch) (slen contents) cache_id = Some (OK, Some t).

Context (o : Options) (key : slice -> Prop) `{!ComparatorLaws key (opt_comparator o)} (es : list (slice * slice)).
Context (Hin : table_input o key es).

Let n := Z.to_nat (opt_block_restart_interval o).

(** The layout of the file. *)
Lemma table_input_layout :
  exists bs ies, table_layout extend snappy zstd o n key es bs ies /\ CurrentSizeEstimate (build 1 ies) < 2 ^ 32 /\
    slen (table_bytes extend snappy zstd o n bs ies) < 2 ^ 64 /\
    (exists r, TableBuilder_Finish extend snappy zstd (table_builder o es) = Some (OK, r) /\
       r_file r = MkWritableFile (table_bytes extend snappy zstd o n bs ies) [] /\ r_offset r = slen (table_bytes extend snappy zstd o n bs ies)) /\
    (forall p, opt_filter_policy o = Some p -> slen (FilterPolicy_Name p) < 2 ^ 31 /\
       slen (filter_block p (filter_blocks extend snappy zstd o n [] bs [])) < 2 ^ 32).
Proof.
  destruct Hin as [Hsn Hzs Hint Hpol Hk Hs (Hef & Hcount & Hidx & Hfil & Hlen)].
  assert (opt_block_restart_interval o = Z.of_nat n) as Hn by (unfold n; lia).
  assert (builder_state extend snappy zstd o n key (table_builder o es) es) as Hst.
  { apply (add_entries_state extend snappy zstd o n) with (es0 := []); try done; [unfold n; lia|]. apply NewTableBuilder_state; unfold n; lia. }
  destruct (Finish_spec extend snappy zstd o n ltac:(unfold n; lia) Hn key _ _ Hst Hk Hs) as (bs & ies & r & Hl & Hi & Hf & E & (_ & W & Woff & _)).
  exists bs, ies. rewrite Hi in Hidx. rewrite E, W in Hlen. cbn [wf_contents] in Hlen. split_and!; try done; [exists r; split_and!; [done|done|]; rewrite Woff; apply wrap_small; unfold in_u; lia|].
  intros p Ep. rewrite Ep in Hf. rewrite Hf in Hfil. by destruct Hfil.
Qed.

(** An opened table is the one of the layout. *)
Lemma opened_table in_scratch cache_id :
  exists bs ies, table_layout extend snappy zstd o n key es bs ies /\ CurrentSizeEstimate (build 1 ies) < 2 ^ 32 /\
    slen (table_bytes extend snappy zstd o n bs ies) < 2 ^ 64 /\
    (forall p, opt_filter_policy o = Some p -> slen (FilterPolicy_Name p) < 2 ^ 31 /\
       slen (filter_block p (filter_blocks extend snappy zstd o n [] bs [])) < 2 ^ 32) /\
    opened o es in_scratch cache_id (the_table extend snappy zstd o n bs ies in_scratch cache_id) /\
    (forall t, opened o es in_scratch cache_id t -> t = the_table extend snappy zstd o n bs ies in_scratch cache_id).
Proof.
  destruct table_input_layout as (bs & ies & Hl & Hidx & Hlen & (r & Er & Efile & _) & Hf). exists bs, ies.
  assert (wf_contents (r_file r) = table_bytes extend snappy zstd o n bs ies) as Ec by (by rewrite Efile).
  assert (Table_Open extend snappy zstd o (raf_of (table_bytes extend snappy zstd o n bs ies) in_scratch) (slen (table_bytes extend snappy zstd o n bs ies)) cache_id =
    Some (OK, Some (the_table extend snappy zstd o n bs ies in_scratch cache_id))) as Eo.
  { destruct Hin. apply (Table_Open_spec extend snappy zstd); try done; [unfold n; lia|]. intros p Ep. by apply Hf. }
  split_and!; try done.
  - exists r. by rewrite Ec.
  - intros t (r' & Er' & Et). rewrite Er in Er'. injection Er' as <-. cbv zeta in Et. rewrite Ec, Eo in Et. by injection Et.
Qed.

(** The file that the builder has written, and the size it says. *)
Lemma finished_file :
  exists r c, TableBuilder_Finish extend snappy zstd (table_builder o es) = Some (OK, r) /\ r_file r = MkWritableFile c [] /\ FileSize r = slen c /\ 0 < slen c.
Proof.
  destruct table_input_layout as (bs & ies & _ & _ & _ & (r & Er & Ef & Eoff) & _). eexists r, _. split_and!; [exact Er|exact Ef|exact Eoff|].
  unfold table_bytes. rewrite length_app, Nat2Z.inj_add, length_Footer_Encode. change Footer_kEncodedLength with 48. lia.
Qed.

(** The values of the index are the handles of the blocks. *)
Lemma index_value_spec bs ies in_scratch cache_id v :
  table_layout extend snappy zstd o n key es bs ies -> CurrentSizeEstimate (build 1 ies) < 2 ^ 32 ->
  index_value (the_table extend snappy zstd o n bs ies in_scratch cache_id) v <-> exists j k, ies !! j = Some (k, v).
Proof.
  intros Hl Hidx. pose proof (sizes_ok_1 ies Hidx) as Hs. pose proof (tl_sorted _ _ _ _ _ _ _ _ _ Hl) as Hsi.
  pose proof (Block_iter_laws 1 ies key (opt_comparator o) ltac:(lia) Hs (tl_keys _ _ _ _ _ _ _ _ _ Hl) Hsi) as HL.
  destruct (pos_SeekToFirst _ _ (NewIterator_pos 1 ies ltac:(lia) Hs)) as (it & Es & Hp). unfold index_value. cbn [the_table t_options t_index_block].
  trans (v ∈ map snd ies); [split|].
  - intros (it' & fuel & l & it2 & Es' & E & Hv). rewrite Es in Es'. injection Es' as <-. pose proof (iter_entries_spec fuel it 0 Hp) as Hi.
    case_decide; [|congruence]. destruct Hi as (a' & Hi & _). rewrite Hi in E. by injection E as <- _.
  - intros Hv. pose proof (iter_entries_spec (length ies) it 0 Hp) as Hi. rewrite decide_True in Hi by lia. destruct Hi as (a' & Hi & _).
    by exists it, (length ies), ies, a'.
  - rewrite list_elem_of_lookup. split; intros (j & H).
    + rewrite lookup_map in H. destruct (ies !! j) as [[k h]|] eqn:E; [|done]. injection H as <-. by exists j, k.
    + destruct H as [k E]. exists j. by rewrite lookup_map, E.
Qed.

(** Reading a block of the index, with any options. *)
Lemma index_value_block bs ies in_scratch cache_id v h rest :
  table_layout extend snappy zstd o n key es bs ies -> CurrentSizeEstimate (build 1 ies) < 2 ^ 32 ->
  slen (table_bytes extend snappy zstd o n bs ies) < 2 ^ 64 ->
  index_value (the_table extend snappy zstd o n bs ies in_scratch cache_id) v -> BlockHandle_DecodeFrom NewBlockHandle v = (OK, h, rest) ->
  exists j b, bs !! j = Some b /\ h = handle_of extend snappy zstd o n (take j bs) b /\
    forall verify, exists x y, ReadBlock extend snappy zstd (raf_of (table_bytes extend snappy zstd o n bs ies) in_scratch) verify h =
      Some (OK, MkBlockContents (BlockBuilder_Finish (build n b)).1 x y).
Proof.
  intros Hl Hidx Hlen Hv Hd. pose proof Hin as [Hsn Hzs Hint _ _ _ _]. assert (1 <= n)%nat as Hn by (unfold n; lia).
  apply (index_value_spec bs ies in_scratch cache_id v Hl Hidx) in Hv as (j & k & Ei).
  destruct (index_lookup extend snappy zstd o n key es bs ies Hl j k v Ei) as (b & Eb & ->). exists j, b. split; [done|].
  pose proof (handle_decode extend snappy zstd o n Hn bs ies Hlen in_scratch j b [] Eb) as D. rewrite app_nil_r in D. rewrite Hd in D.
  injection D as -> _. split; [done|]. intros verify. by apply (read_data extend snappy zstd Hsn Hzs o n Hn bs ies Hlen in_scratch j b verify).
Qed.

Lemma coherent_blocks bs ies in_scratch cache_id cache :
  table_layout extend snappy zstd o n key es bs ies -> CurrentSizeEstimate (build 1 ies) < 2 ^ 32 ->
  slen (table_bytes extend snappy zstd o n bs ies) < 2 ^ 64 ->
  cache_coherent cache (the_table extend snappy zstd o n bs ies in_scratch cache_id) ->
  forall lookup j b block, cache = Some lookup -> bs !! j = Some b ->
    lookup (cache_key cache_id (bh_offset (handle_of extend snappy zstd o n (take j bs) b))) = Some block ->
    block = NewBlock (BlockBuilder_Finish (build n b)).1.
Proof.
  intros Hl Hidx Hlen Hc lookup j b block E Eb El. pose proof Hin as [Hsn Hzs Hint _ _ _ _]. assert (1 <= n)%nat as Hn by (unfold n; lia).
  destruct (lookup_lt_is_Some_2 ies j) as [[k h] Ei]; [rewrite (proj1 (tl_sep _ _ _ _ _ _ _ _ _ Hl)); by apply lookup_lt_Some in Eb|].
  destruct (index_lookup extend snappy zstd o n key es bs ies Hl j k h Ei) as (b' & Eb' & ->). rewrite Eb in Eb'. injection Eb' as <-.
  pose proof (handle_decode extend snappy zstd o n Hn bs ies Hlen in_scratch j b [] Eb) as D. rewrite app_nil_r in D.
  destruct (Hc lookup _ _ _ block E (proj2 (index_value_spec bs ies in_scratch cache_id _ Hl Hidx) ltac:(eauto)) D El) as (c & Er & ->).
  destruct (read_data extend snappy zstd Hsn Hzs o n Hn bs ies Hlen in_scratch j b true Eb) as (x & y & Er').
  cbn [the_table t_file] in Er. rewrite Er' in Er. by injection Er as <-.
Qed.

(** The iterator of an opened table obeys the laws of iterators. *)
Lemma opened_iterator in_scratch cache_id t cache ro :
  opened o es in_scratch cache_id t -> cache_coherent cache t ->
  exists pos, IterLaws (table_iter_ops extend snappy zstd cache t ro) (opt_comparator o) key es pos /\ pos (Table_NewIterator t) (length es).
Proof.
  intros Ho Hc. destruct (opened_table in_scratch cache_id) as (bs & ies & Hl & Hidx & Hlen & Hf & _ & Ht). rewrite (Ht t Ho) in *.
  pose proof Hin as [Hsn Hzs Hint _ Hk Hs _]. assert (1 <= n)%nat as Hn by (unfold n; lia).
  eexists. split; [apply (table_iter_laws extend snappy zstd Hsn Hzs o n Hn key es bs ies Hl Hk Hs Hidx Hlen in_scratch cache cache_id
    (coherent_blocks bs ies in_scratch cache_id cache Hl Hidx Hlen Hc))|].
  rewrite (tl_entries _ _ _ _ _ _ _ _ _ Hl). pose proof (sizes_ok_1 ies Hidx) as Hsi.
  pose proof (Block_iter_laws 1 ies key (opt_comparator o) ltac:(lia) Hsi (tl_keys _ _ _ _ _ _ _ _ _ Hl) (tl_sorted _ _ _ _ _ _ _ _ _ Hl)) as HL.
  apply (NewTwoLevelIterator_pos (opt_comparator o) key) with (j := length ies); [done|]. by apply NewIterator_pos.
Qed.

(** [InternalGet] of an opened table, for keys that the filter and the separators of the index keep apart. *)
Lemma opened_get in_scratch cache_id t cache ro k (related : slice -> Prop) :
  opened o es in_scratch cache_id t -> cache_coherent cache t -> key k ->
  (forall p x f, opt_filter_policy o = Some p -> related x -> KeyMayMatch p k f = KeyMayMatch p x f) ->
  (forall a x, key a -> key x -> related x -> Compare (opt_comparator o) a k < 0 -> Compare (opt_comparator o) k x <= 0 ->
     Compare (opt_comparator o) (FindShortestSeparator (opt_comparator o) a x) k < 0) ->
  exists res, InternalGet extend snappy zstd cache t ro k = Some (OK, res) /\
    (res = None \/ res = es !! seek_pos (opt_comparator o) k es) /\
    (forall x v, es !! seek_pos (opt_comparator o) k es = Some (x, v) -> related x -> res = Some (x, v)).
Proof.
  intros Ho Hc Hkey Hf1 Hs1. destruct (opened_table in_scratch cache_id) as (bs & ies & Hl & Hidx & Hlen & Hf & _ & Ht). rewrite (Ht t Ho) in *.
  pose proof Hin as [Hsn Hzs Hint Hpol Hk Hs (_ & Hcount & _)]. assert (1 <= n)%nat as Hn by (unfold n; lia).
  apply (InternalGet_spec extend snappy zstd Hsn Hzs o n Hn key es bs ies Hl Hk Hs Hidx Hlen in_scratch); try done.
  - intros p Ep. by apply Hf.
  - by apply (coherent_blocks bs ies in_scratch).
  - intros p Ep. split_and!; [by apply Hpol|done|by apply Hf].
Qed.
End built_table.

(** * The block cache *)

Lemma NoDup_map_eq {A B} (f : A -> B) l x y : NoDup (map f l) -> x ∈ l -> y ∈ l -> f x = f y -> x = y.
Proof.
  intros Hn Hx Hy E. apply list_elem_of_lookup in Hx as [i Hi], Hy as [j Hj].
  assert (i = j) as <- by (apply (NoDup_lookup _ i j (f x) Hn); rewrite lookup_map; [by rewrite Hi|by rewrite Hj, E]). congruence.
Qed.

Section block_cache.
Context (extend : Z -> slice -> Z) `{!Checksum extend} (snappy : option SnappyLib) (zstd : option ZstdLib).

Abbreviation lookup_in c := (Some (fun k : slice => (c : gmap slice Block) !! k)).

(** What happens to the cache while tables are read: a read of a block may insert it, and the cache may drop any block. *)
Inductive cache_step (ts : list Table) : gmap slice Block -> gmap slice Block -> Prop :=
  | cache_read t ro v it k block c :
      t ∈ ts -> index_value t v -> BlockReader extend snappy zstd (lookup_in c) t ro v = Some (it, Some (k, block)) ->
      cache_step ts c (<[k := block]> c)
  | cache_evict k c : cache_step ts c (delete k c).

(** A table of the reader, that was built from an input. *)
Definition table_ok (t : Table) : Prop :=
  exists o key es in_scratch cache_id, ComparatorLaws key (opt_comparator o) /\ table_input extend snappy zstd o key es /\
    opened extend snappy zstd o es in_scratch cache_id t /\ is_u64 cache_id.

Lemma cache_key_inj id id' off off' :
  is_u64 id -> is_u64 id' -> is_u64 off -> is_u64 off' -> cache_key id off = cache_key id' off' -> id = id' /\ off = off'.
Proof.
  intros ? ? ? ? E. pose proof (f_equal DecodeFixed64 E) as E1. unfold cache_key in *. apply app_inj_1 in E as [_ E2]; [|by rewrite !length_EncodeFixed64].
  pose proof (f_equal DecodeFixed64 E2) as E3. rewrite <-(app_nil_r (EncodeFixed64 off)), <-(app_nil_r (EncodeFixed64 off')) in E3.
  rewrite !DecodeFixed64_Encode, !(wrap_small 64) in E1, E3 by done. done.
Qed.

(** The facts about a table that the cache depends on: the offsets of its blocks identify them, and what is read there does
    not depend on the options. *)
Lemma table_ok_blocks t : table_ok t ->
  is_u64 (t_cache_id t) /\
  forall v, index_value t v ->
    exists h c, BlockHandle_DecodeFrom NewBlockHandle v = (OK, h, []) /\ is_u64 (bh_offset h) /\
      (forall verify, exists x y, ReadBlock extend snappy zstd (t_file t) verify h = Some (OK, MkBlockContents c x y)) /\
      forall v' h' rest, index_value t v' -> BlockHandle_DecodeFrom NewBlockHandle v' = (OK, h', rest) -> bh_offset h' = bh_offset h -> h' = h.
Proof.
  intros (o & key & es & sc & id & L & Hin & Ho & Hid). destruct (opened_table extend snappy zstd o key es Hin sc id) as (bs & ies & Hl & Hidx & Hlen & _ & _ & Ht).
  rewrite (Ht t Ho). split; [done|]. intros v Hv. pose proof (in_interval _ _ _ _ _ _ Hin) as Hint.
  assert (1 <= Z.to_nat (opt_block_restart_interval o))%nat as Hn by lia.
  pose proof (proj1 (index_value_spec extend snappy zstd o key es bs ies sc id v Hl Hidx) Hv) as (j & k & Ei).
  destruct (index_lookup extend snappy zstd o _ key es bs ies Hl j k v Ei) as (b & Eb & ->).
  pose proof (handle_decode extend snappy zstd o _ Hn bs ies Hlen sc j b [] Eb) as D. rewrite app_nil_r in D.
  destruct (index_value_block extend snappy zstd o key es Hin bs ies sc id _ _ _ Hl Hidx Hlen Hv D) as (j1 & b1 & Eb1 & Eh & Hr).
  eexists _, _. split; [exact D|]. split; [by apply wrap_in_u|]. split; [exact Hr|].
  intros v' h' rest Hv' D' E. destruct (index_value_block extend snappy zstd o key es Hin bs ies sc id _ _ _ Hl Hidx Hlen Hv' D') as (j' & b' & Eb' & -> & _).
  assert (j' = j) as -> by (eapply (offsets_distinct extend snappy zstd o); eauto). congruence.
Qed.

(** What a read inserts is what is in the file. *)
Lemma BlockReader_inserts c t ro v it k block :
  table_ok t -> index_value t v -> BlockReader extend snappy zstd (lookup_in c) t ro v = Some (it, Some (k, block)) ->
  exists h x, BlockHandle_DecodeFrom NewBlockHandle v = (OK, h, []) /\ k = cache_key (t_cache_id t) (bh_offset h) /\
    ReadBlock extend snappy zstd (t_file t) true h = Some (OK, x) /\ block = NewBlock (bc_data x).
Proof.
  intros Ht Hv E. destruct (table_ok_blocks t Ht) as [_ Hb]. destruct (Hb v Hv) as (h & d & D & _ & Hr & _).
  unfold BlockReader in E. rewrite D, ok_OK in E. destruct (c !! _); [done|]. destruct (Hr (verify_checksums ro)) as (x & y & Er). rewrite Er in E.
  cbn [mbind option_bind] in E. rewrite ok_OK in E. destruct (Hr true) as (x' & y' & Er'). exists h, (MkBlockContents d x' y').
  split; [done|]. injection E as _ E. case_match; [|done]. by injection E as <- <-.
Qed.

Lemma cache_step_coherent ts c c' :
  Forall table_ok ts -> NoDup (map t_cache_id ts) -> cache_step ts c c' ->
  (forall t, t ∈ ts -> cache_coherent extend snappy zstd (lookup_in c) t) -> forall t, t ∈ ts -> cache_coherent extend snappy zstd (lookup_in c') t.
Proof.
  intros Hts Hnd Hstep Hc t Ht lookup v h rest block [= <-] Hv D Hk. pose proof (proj1 (Forall_forall _ _) Hts) as Hok.
  destruct Hstep as [t0 ro v0 it k b c Ht0 Hv0 Hr|k c].
  - destruct (BlockReader_inserts c t0 ro v0 it k b (Hok t0 Ht0) Hv0 Hr) as (h0 & x & D0 & -> & Er & ->).
    apply lookup_insert_Some in Hk as [[E <-]|[_ Hk]]; [|by apply (Hc t Ht _ v h rest block eq_refl)].
    destruct (table_ok_blocks t0 (Hok t0 Ht0)) as [Hid0 Hb0]. destruct (Hb0 v0 Hv0) as (h1 & c1 & D1 & Ho1 & _ & Hu).
    rewrite D0 in D1. injection D1 as <-. destruct (table_ok_blocks t (Hok t Ht)) as [Hid Hb]. destruct (Hb v Hv) as (h2 & c2 & D2 & Ho2 & _).
    rewrite D in D2. injection D2 as <- ->. apply cache_key_inj in E as [Eid Eoff]; try done.
    assert (t0 = t) as -> by (by apply (NoDup_map_eq t_cache_id ts)). rewrite (Hu v h [] Hv D (eq_sym Eoff)). by exists x.
  - apply lookup_delete_Some in Hk as [_ Hk]. by apply (Hc t Ht _ v h rest block eq_refl).
Qed.

Lemma cache_reachable_coherent ts c :
  Forall table_ok ts -> NoDup (map t_cache_id ts) -> rtc (cache_step ts) ∅ c -> forall t, t ∈ ts -> cache_coherent extend snappy zstd (lookup_in c) t.
Proof.
  intros Hts Hnd Hr. remember (∅ : gmap slice Block) as c0 eqn:E0.
  assert (forall t, t ∈ ts -> cache_coherent extend snappy zstd (lookup_in c0) t) as H0 by (intros t _ lookup v h rest block [= <-] _ _; subst; by rewrite lookup_empty).
  clear E0. induction Hr as [|c0 c1 c2 Hs _ IH]; [done|]. apply IH. by apply (cache_step_coherent ts c0).
Qed.

(** Through a coherent cache a block is what it is without one. *)
Lemma coherent_transparent cache t ro v :
  table_ok t -> cache_coherent extend snappy zstd cache t -> index_value t v ->
  block_function extend snappy zstd cache t ro v = block_function extend snappy zstd None t ro v.
Proof.
  intros Ht Hc Hv. destruct (table_ok_blocks t Ht) as [_ Hb]. destruct (Hb v Hv) as (h & d & D & _ & Hr & _).
  unfold block_function, BlockReader. rewrite D, ok_OK. destruct (Hr (verify_checksums ro)) as (x & y & ->). cbn [mbind option_bind]. rewrite ok_OK.
  destruct cache as [lookup|]; [|done]. destruct (lookup _) as [block|] eqn:E; [|done].
  destruct (Hc lookup v h [] block eq_refl Hv D E) as (c & Er & ->). destruct (Hr true) as (x' & y' & Er'). rewrite Er in Er'. by injection Er' as ->.
Qed.
End block_cache.

(** Four entries in blocks of at least 20 bytes, with a Bloom filter. *)
Definition sample_options : Options :=
  MkOptions BytewiseComparator true 20 2 kSnappyCompression 1 (Some (NewBloomFilterPolicy 10)).

Definition sample_table : list (slice * slice) :=
  [(lit "apple", lit "1"); (lit "apply", lit "2"); (lit "banana", lit "3"); (lit "bandana", [])].

Lemma sample_table_input : table_input crc32c_ref None None sample_options any_key sample_table.
Proof.
  split.
  - done.
  - done.
  - by vm_compute.
  - intros p E. injection E as <-. by apply Bloom_laws.
  - repeat constructor.
  - repeat constructor; by vm_compute.
  - split; [repeat constructor; by vm_compute|]. vm_compute. repeat split.
Qed.

(** * Properties *)

(** C13. Let a table be built from entries with increasing keys, with any options, restart interval, block size, filter
    policy and compression libraries, and within the sizes of the format.  Then [Finish] succeeds, [Open] of the bytes
    succeeds, and the iterator of the table is, after any calls that iterator.h allows, in any order, at the position in the
    list of entries that the specification says: it shows that entry, or is not valid past the end, and its status is OK.
    It is so with and without checksum verification, and with and without a block cache, if the cache has what is in the
    file for the blocks of this table. *)
Theorem table_iterator_refines (extend : Z -> slice -> Z) (HE : Checksum extend) (snappy : option SnappyLib) (zstd : option ZstdLib)
    (o : Options) (key : slice -> Prop) (L : ComparatorLaws key (opt_comparator o)) (es : list (slice * slice))
    (in_scratch : bool) (cache_id : Z) (ro : ReadOptions) (ops : list IterOp) (i : nat) :
  table_input extend snappy zstd o key es -> Forall (op_key key) ops ->
  run_ops (spec_op (opt_comparator o) es) ops (length es) = Some i ->
  exists t, opened extend snappy zstd o es in_scratch cache_id t /\
    forall cache, cache_coherent extend snappy zstd cache t ->
      let iops := table_iter_ops extend snappy zstd cache t ro in
      exists it, run_ops (iter_op iops) ops (Table_NewIterator t) = Some it /\ i_status iops it = OK /\ current iops it = es !! i.
Proof.
  intros Hin Hops Hrun. destruct (opened_table extend snappy zstd o key es Hin in_scratch cache_id) as (bs & ies & _ & _ & _ & _ & Ho & _).
  eexists. split; [exact Ho|]. intros cache Hc iops.
  destruct (opened_iterator extend snappy zstd o key es Hin in_scratch cache_id _ cache ro Ho Hc) as (pos & HL & Hp0).
  destruct (run_ops_spec ops _ _ i Hp0 Hops Hrun) as (b & E & Hp).
  exists b. split; [exact E|]. split; [by apply (pos_status b i)|by apply (pos_current b i)].
Qed.

Lemma table_iterator_refines_witness :
  let ops := [OpSeek (lit "ap"); OpSeek (lit "ball"); OpPrev; OpNext; OpSeekToLast; OpSeek (lit "apply"); OpNext; OpNext] in
  let ro := MkReadOptions true true in
  exists t, opened crc32c_ref None None sample_options sample_table true 0 t /\
    exists it, run_ops (iter_op (table_iter_ops crc32c_ref None None None t ro)) ops (Table_NewIterator t) = Some it /\
      current (table_iter_ops crc32c_ref None None None t ro) it = Some (lit "bandana", []).
Proof.
  intros ops ro.
  destruct (table_iterator_refines crc32c_ref _ None None sample_options any_key _ sample_table true 0 ro ops 3 sample_table_input) as (t & Ho & Hc);
    [by repeat constructor|reflexivity|].
  exists t. split; [exact Ho|]. destruct (Hc None) as (it & E & _ & Ec); [by intros ? ? ? ? ?|]. by exists it.
Defined.

(** C24. The block cache does not change what is read.  Let any number of tables, each built from some input and opened
    with a cache id of its own, be read through one cache that starts empty, where every read may insert the block it
    read, with or without checksum verification, and the cache may drop any block at any time.  Then for every block of
    every table the cache has nothing or what is in the file, and a read through it gives what a read of the file gives. *)
Theorem block_cache_transparent (extend : Z -> slice -> Z) (HE : Checksum extend) (snappy : option SnappyLib) (zstd : option ZstdLib)
    (ts : list Table) (c : gmap slice Block) (t : Table) :
  Forall (table_ok extend snappy zstd) ts -> NoDup (map t_cache_id ts) -> rtc (cache_step extend snappy zstd ts) ∅ c -> t ∈ ts ->
  let cache := Some (fun k => c !! k) in
  cache_coherent extend snappy zstd cache t /\
  forall ro v, index_value t v -> block_function extend snappy zstd cache t ro v = block_function extend snappy zstd None t ro v.
Proof.
  intros Hts Hnd Hr Ht cache. pose proof (cache_reachable_coherent extend snappy zstd ts c Hts Hnd Hr t Ht) as Hc. split; [done|].
  intros ro v Hv. apply coherent_transparent; [done|by apply (proj1 (Forall_forall _ _) Hts)|done|done].
Qed.

(** The table of the sample, opened. *)
Definition sample_opened : option Table :=
  '(_, r) ← TableBuilder_Finish crc32c_ref None None (table_builder crc32c_ref None None sample_options sample_table);
  let contents := wf_contents (r_file r) in
  '(_, t) ← Table_Open crc32c_ref None None sample_options (raf_of contents true) (slen contents) 7; t.

Lemma sample_opened_ok : exists t, sample_opened = Some t /\ table_ok crc32c_ref None None t.
Proof.
  destruct (opened_table crc32c_ref None None sample_options any_key sample_table sample_table_input true 7) as (bs & ies & _ & _ & _ & _ & Ho & _).
  eexists. split.
  - destruct Ho as (r & Er & Et). unfold sample_opened. rewrite Er. cbn [mbind option_bind]. cbv zeta in *. rewrite Et. reflexivity.
  - exists sample_options, any_key, sample_table, true, 7. split; [apply _|]. split; [exact sample_table_input|]. by split.
Qed.

(** The first block of its index, read through an empty cache. *)
Definition sample_read : option (slice * (slice * Block)) :=
  t ← sample_opened;
  let bops := Block_ops (opt_comparator (t_options t)) in
  it ← i_SeekToFirst bops (Block_NewIterator (t_index_block t));
  '(l, _) ← iter_entries bops 4 it;
  '(_, v) ← head l;
  '(_, ins) ← BlockReader crc32c_ref None None (Some (fun k => (∅ : gmap slice Block) !! k)) t DefaultReadOptions v;
  kb ← ins; Some (v, kb).

Lemma block_cache_transparent_witness :
  exists t v k b, sample_opened = Some t /\ index_value t v /\
    block_function crc32c_ref None None (Some (fun k' => (<[k := b]> ∅ : gmap slice Block) !! k')) t DefaultReadOptions v =
      block_function crc32c_ref None None None t DefaultReadOptions v.
Proof.
  destruct sample_opened_ok as (t & Et & Hok). destruct sample_read as [[v [k b]]|] eqn:E; [|by vm_compute in E].
  exists t, v, k, b. split; [exact Et|]. unfold sample_read in E. rewrite Et in E. cbn [mbind option_bind] in E.
  destruct (i_SeekToFirst _ _) as [it|] eqn:E1; [|done]. cbn [mbind option_bind] in E.
  destruct (iter_entries _ _ _) as [[l it2]|] eqn:E2; [|done]. cbn [mbind option_bind] in E.
  destruct (head l) as [[k0 v0]|] eqn:E3; [|done]. cbn [mbind option_bind] in E.
  destruct (BlockReader _ _ _ _ _ _ _) as [[bi [kb|]]|] eqn:E4; [|done..]. injection E as <- ->.
  assert (index_value t v0) as Hv.
  { exists it, 4%nat, l, it2. split; [exact E1|]. split; [exact E2|]. apply list_elem_of_In, in_map_iff. exists (k0, v0). split; [done|].
    apply list_elem_of_In. by apply head_Some_elem_of. }
  split; [exact Hv|]. apply (block_cache_transparent crc32c_ref _ None None [t] (<[k := b]> ∅) t).
  - by constructor.
  - apply NoDup_singleton.
  - apply rtc_once. apply (cache_read _ _ _ _ t DefaultReadOptions v0 bi); [by left|exact Hv|exact E4].
  - by left.
  - exact Hv.
Defined.
