(* ===== verification/TableCache.v ===== *)
(** TableCache: db/table_cache.cc, the open tables of a database and the reads through them, and db/builder.cc, the table file
    that is written from an iterator. *)

From stdpp Require Import gmap.
From Stdlib Require Import Strings.Byte Strings.String.
From S2P Require Import Prelude Coding Crc32c Comparator DbFormat Status Env FileSystem Filename VersionEdit FilterPolicy FilterBlock MemTable Format Iterator TwoLevelIterator Version Block TableBuilder Table.

(** * Data *)

(** The environment, the tables that the cache holds, by the encoded file number, and the next id that the block cache gives
    out. *)
Record TableCache := MkTableCache {
  tc_env : EnvState;
  tc_cache : gmap slice Table;
  tc_next_id : Z;
}.

Section TableCache.
(** The checksum, the compression libraries, the name of the database and its options, and where the environment puts the data
    of a read. *)
Context (extend : Z -> slice -> Z) (snappy : option SnappyLib) (zstd : option ZstdLib).
Context (dbname : slice) (options : Options) (in_scratch : bool).

(** * Operations *)

Definition FindTable (file_number file_size : Z) (tc : TableCache) : option (Status * option Table * TableCache) :=
  let key := EncodeFixed64 file_number in
  match tc_cache tc !! key with
  | Some t => Some (OK, Some t, tc)
  | None =>
      let '(s, file, env) := NewRandomAccessFile in_scratch (TableFileName dbname file_number) (tc_env tc) in
      let '(s, file, env) :=
        if negb (ok s) then
          let '(s', file', env) := NewRandomAccessFile in_scratch (SSTTableFileName dbname file_number) env in
          if ok s' then (OK, file', env) else (s, file, env)
        else (s, file, env) in
      match file with
      | Some file =>
          '(s, table) ← Table_Open extend snappy zstd options file file_size (tc_next_id tc);
          match table with
          | Some t => Some (s, Some t, MkTableCache env (<[key := t]> (tc_cache tc)) (tc_next_id tc + 1))
          | None => Some (s, None, MkTableCache env (tc_cache tc) (tc_next_id tc))
          end
      | None => Some (s, None, MkTableCache env (tc_cache tc) (tc_next_id tc))
      end
  end.

(** The iterator of a table, or an error iterator, with the table. *)
Inductive TableIterator := TableError (s : Status) | TableIter (t : Table) (it : TwoLevelIterator BlockIterator BlockIterator).

Definition TableCache_NewIterator (file_number file_size : Z) (tc : TableCache) : option (TableIterator * TableCache) :=
  '(s, table, tc) ← FindTable file_number file_size tc;
  Some (match table with
        | Some t => if ok s then TableIter t (Table_NewIterator t) else TableError (NewErrorIterator s)
        | None => TableError (NewErrorIterator s)
        end, tc).

(** [bcache] is what the block cache holds when it is asked. *)
Definition TableCache_Get (bcache : option (slice -> option Block)) (ro : ReadOptions) (f : FileMetaData) (k : slice) (tc : TableCache) :
    option (Status * option (slice * slice) * TableCache) :=
  '(s, table, tc) ← FindTable (number f) (file_size f) tc;
  match table with
  | Some t =>
      if ok s then '(s, result) ← InternalGet extend snappy zstd bcache t ro k; Some (s, result, tc)
      else Some (s, None, tc)
  | None => Some (s, None, tc)
  end.

Definition Evict (file_number : Z) (tc : TableCache) : TableCache :=
  MkTableCache (tc_env tc) (delete (EncodeFixed64 file_number) (tc_cache tc)) (tc_next_id tc).

(** * db/builder.cc *)

Definition with_env (f : EnvState -> EnvState) (tc : TableCache) : TableCache :=
  MkTableCache (f (tc_env tc)) (tc_cache tc) (tc_next_id tc).

(** The status of the iterator that checks that the table is usable. *)
Definition TableIterator_status (bcache : option (slice -> option Block)) (it : TableIterator) : Status :=
  match it with
  | TableError s => s
  | TableIter t it => i_status (table_iter_ops extend snappy zstd bcache t DefaultReadOptions) it
  end.

(** [BuildTable] over any iterator, with a bound of the entries it goes through: the status, the metadata, and the
    cache with the environment.  The keys of the iterator stay valid when it advances, as those of a memtable do. *)
Definition BuildTable {A} (ops : IterOps A) (fuel : nat) (bcache : option (slice -> option Block)) (iter : A) (meta : FileMetaData) (tc : TableCache) :
    option (Status * FileMetaData * TableCache) :=
  let meta := MkFile (refs meta) (allowed_seeks meta) (number meta) 0 (smallest meta) (largest meta) in
  iter ← i_SeekToFirst ops iter;
  let fname := TableFileName dbname (number meta) in
  '(opened, s, meta, tc, iter) ←
    (if i_Valid ops iter then
       let '(s, file, env) := NewWritableFile fname (tc_env tc) in
       let tc := with_env (fun _ => env) tc in
       match file with
       | None => Some (false, s, meta, tc, iter)
       | Some file =>
           let builder := NewTableBuilder options file in
           let sm := fst (InternalKey_DecodeFrom (i_key ops iter)) in
           '(entries, iter) ← iter_entries ops fuel iter;
           let builder := add_entries extend snappy zstd entries builder in
           let la := match last entries with
                     | Some (key, _) => if bool_decide (key = []) then largest meta else fst (InternalKey_DecodeFrom key)
                     | None => largest meta
                     end in
           '(s, builder) ← TableBuilder_Finish extend snappy zstd builder;
           let size := if ok s then FileSize builder else 0 in
           let meta := MkFile (refs meta) (allowed_seeks meta) (number meta) size sm la in
           let file := r_file builder in
           let '(s, file) := if ok s then WritableFile_Sync file else (s, file) in
           let '(s, file) := if ok s then WritableFile_Close file else (s, file) in
           let tc := with_env (delete_file fname file) tc in
           if ok s then
             '(it, tc) ← TableCache_NewIterator (number meta) (file_size meta) tc;
             Some (true, TableIterator_status bcache it, meta, tc, iter)
           else Some (true, s, meta, tc, iter)
       end
     else Some (true, OK, meta, tc, iter));
  if negb opened then Some (s, meta, tc)
  else
    let s := if negb (ok (i_status ops iter)) then i_status ops iter else s in
    Some (s, meta, if ok s && (0 <? file_size meta) then tc else with_env (fun env => snd (FileSystem.RemoveFile fname env)) tc).
End TableCache.

(** * Lemmas *)

(** The separator of internal keys stays before a key between them that has the user key of the limit. *)
Lemma internal_separator_before ucmp `{!ComparatorLaws any_key ucmp} `{!SeparatorSame any_key ucmp} a x k :
  is_internal_key a -> is_internal_key x -> is_internal_key k -> ExtractUserKey x = ExtractUserKey k ->
  Compare (InternalKeyComparator ucmp) a k < 0 -> Compare (InternalKeyComparator ucmp) (FindShortestSeparator (InternalKeyComparator ucmp) a x) k < 0.
Proof.
  intros Ha Hx Hk Hu Hlt. cbn [InternalKeyComparator Compare FindShortestSeparator] in *. unfold InternalKeyComparator_FindShortestSeparator.
  destruct (_ && _) eqn:E; [|done]. apply andb_true_iff in E as [_ E]. apply Z.ltb_lt in E. apply icmp_lt. left.
  unfold PutFixed64. rewrite ExtractUserKey_app by apply length_EncodeFixed64. rewrite Hu in *.
  apply icmp_lt in Hlt as [Hlt|[Heq _]].
  - by apply (separator_spec (key := any_key)).
  - rewrite Heq, (separator_same (key := any_key)), (compare_refl (key := any_key)) in E by done. lia.
Qed.

Section reader.
Context (extend : Z -> slice -> Z) `{!Checksum extend} (snappy : option SnappyLib) (zstd : option ZstdLib).
Context (dbname : slice) (in_scratch : bool) (bcache : option (slice -> option Block)) (ro : ReadOptions).
Context (ucmp : Comparator) `{!ComparatorLaws any_key ucmp} `{!SeparatorSame any_key ucmp}.
Context (o : Options) (Ho : opt_comparator o = InternalKeyComparator ucmp).
Context (Hfilter : forall p, opt_filter_policy o = Some p -> exists up, p = InternalFilterPolicy up).
Context (contents : FileMetaData -> list entry).

(** The bytes of the file are the table of its entries. *)
Definition table_bytes_of (es : list (slice * slice)) (bytes : slice) : Prop :=
  exists r, TableBuilder_Finish extend snappy zstd (table_builder extend snappy zstd o es) = Some (OK, r) /\ bytes = wf_contents (r_file r).

(** The metadata fits a table of the entries. *)
Definition table_stored (f : FileMetaData) : Prop :=
  is_u64 (number f) /\ table_input extend snappy zstd o is_internal_key (table_of (contents f)) /\
  forall bytes, table_bytes_of (table_of (contents f)) bytes -> file_size f = slen bytes.

(** The files on disk and the tables in the cache are those of the [live] files, in an environment without faults. *)
Definition cache_inv (live : FileMetaData -> Prop) (tc : TableCache) : Prop :=
  env_faults (tc_env tc) = [] /\
  forall f, live f ->
    (exists bytes, env_files (tc_env tc) !! TableFileName dbname (number f) = Some bytes /\ table_bytes_of (table_of (contents f)) bytes) /\
    forall t, tc_cache tc !! EncodeFixed64 (number f) = Some t -> exists id, opened extend snappy zstd o (table_of (contents f)) in_scratch id t.

(** The files are as they were, and the cache has no other tables than those of the [live] files besides what it had. *)
Definition only_opens (live : FileMetaData -> Prop) (tc tc' : TableCache) : Prop :=
  tc_env tc' = tc_env tc /\ forall k t, tc_cache tc' !! k = Some t -> tc_cache tc !! k = Some t \/ exists f, live f /\ k = EncodeFixed64 (number f).

Lemma only_opens_refl live tc : only_opens live tc tc.
Proof. split; [done|]. intros k t H. by left. Qed.

Lemma only_opens_trans live tc1 tc2 tc3 : only_opens live tc1 tc2 -> only_opens live tc2 tc3 -> only_opens live tc1 tc3.
Proof. intros [E1 H1] [E2 H2]. split; [congruence|]. intros k t [H|H]%H2; [by apply H1|by right]. Qed.

Lemma EncodeFixed64_inj a b : is_u64 a -> is_u64 b -> EncodeFixed64 a = EncodeFixed64 b -> a = b.
Proof.
  intros Ha Hb E. apply (f_equal DecodeFixed64) in E. rewrite <-(app_nil_r (EncodeFixed64 a)), <-(app_nil_r (EncodeFixed64 b)) in E.
  by rewrite !DecodeFixed64_Encode, !(wrap_small 64) in E.
Qed.

(** [FindTable] finds or opens the table. *)
Lemma FindTable_spec live f tc :
  (forall g, live g -> table_stored g) -> (forall g, live g -> number g = number f -> contents g = contents f) -> live f -> cache_inv live tc ->
  exists t id tc', FindTable extend snappy zstd dbname o in_scratch (number f) (file_size f) tc = Some (OK, Some t, tc') /\
    opened extend snappy zstd o (table_of (contents f)) in_scratch id t /\ cache_inv live tc' /\ only_opens live tc tc'.
Proof.
  intros Hst Hsame Hf [Hnf Hinv]. pose proof (Hst f Hf) as (Hnum & Hin & Hsize). destruct (Hinv f Hf) as [(bytes & Edisk & r & Er & ->) Hcache].
  unfold FindTable. destruct (tc_cache tc !! EncodeFixed64 (number f)) as [t|] eqn:Et.
  { destruct (Hcache t eq_refl) as [id Hop]. exists t, id, tc. split_and!; try done. apply only_opens_refl. }
  destruct tc as [[files faults] cache id]. cbn [tc_env env_faults env_files tc_cache tc_next_id] in *. subst faults.
  unfold NewRandomAccessFile, NewSequentialFile. cbn [next_fault env_faults env_files]. rewrite Edisk. cbn [fmap option_fmap option_map]. rewrite ok_OK. cbn [negb].
  assert (ComparatorLaws is_internal_key (opt_comparator o)) as HL by (rewrite Ho; apply _).
  destruct (opened_table extend snappy zstd o is_internal_key (table_of (contents f)) Hin in_scratch id) as (bs & ies & _ & _ & _ & _ & Hop & _).
  pose proof Hop as (r' & Er' & Et'). rewrite Er in Er'. injection Er' as <-. cbv zeta in Et'. rewrite (Hsize (wf_contents (r_file r))) by (by exists r). rewrite Et'.
  cbn [mbind option_bind]. eexists _, id, _. split; [reflexivity|]. split; [exact Hop|]. split; [split; [done|]|].
  2: { split; [done|]. cbn [tc_cache]. intros k t' [[<- _]|[_ Ht']]%lookup_insert_Some; [right; by exists f|by left]. }
  intros g Hg. destruct (Hinv g Hg) as [Hd Hc]. split; [exact Hd|]. cbn [tc_cache]. intros t' [[E <-]|[_ Ht']]%lookup_insert_Some.
  - exists id. rewrite (Hsame g Hg); [exact Hop|]. symmetry. apply EncodeFixed64_inj; [done|apply Hst, Hg|done].
  - by apply Hc.
Qed.

(** [TableCache::Get] keeps what [Version::Get] needs of it, and only opens tables. *)
Lemma TableCache_reader (live : FileMetaData -> Prop) (tc0 : TableCache) :
  (forall f, live f -> table_stored f) -> (forall f g, live f -> live g -> number f = number g -> contents f = contents g) ->
  (forall f id t, live f -> opened extend snappy zstd o (table_of (contents f)) in_scratch id t -> cache_coherent extend snappy zstd bcache t) ->
  TableReader ucmp (TableCache_Get extend snappy zstd dbname o in_scratch bcache ro) contents live (fun tc => cache_inv live tc /\ only_opens live tc0 tc).
Proof.
  intros Hst Hsame Hbc. split. intros f ikey tc Hf [Hinv Hop0] Hk. unfold TableCache_Get.
  destruct (FindTable_spec live f tc Hst ltac:(intros g Hg; by apply Hsame) Hf Hinv) as (t & id & tc' & -> & Hop & Hinv' & Hop'). cbn [mbind option_bind]. rewrite ok_OK.
  assert (ComparatorLaws is_internal_key (opt_comparator o)) as HL by (rewrite Ho; apply _).
  destruct (opened_get extend snappy zstd o is_internal_key (table_of (contents f)) (proj1 (proj2 (Hst f Hf))) in_scratch id t bcache ro ikey
    (fun x => ExtractUserKey x = ExtractUserKey ikey)) as (res & -> & Hres & Hhit); [exact Hop|by apply (Hbc f id)|done| | |].
  - intros p x g Ep Hx. destruct (Hfilter p Ep) as [up ->]. cbn [KeyMayMatch InternalFilterPolicy]. by rewrite Hx.
  - rewrite Ho. intros a x Ha Hx Hrel Hlt _. by apply internal_separator_before.
  - rewrite Ho in Hres, Hhit. cbn [mbind option_bind]. exists res, tc'. split; [done|]. split; [|done]. split; [done|]. by eapply only_opens_trans.
Qed.
End reader.

(** ** Building a table *)

Lemma last_table_of es : last (table_of es) = (fun e => (entry_internal_key e, e_value e)) <$> last es.
Proof. apply fmap_last. Qed.

Section build.
Context (extend : Z -> slice -> Z) `{!Checksum extend} (snappy : option SnappyLib) (zstd : option ZstdLib).
Context (dbname : slice) (in_scratch : bool) (bcache : option (slice -> option Block)).
Context (ucmp : Comparator) `{!ComparatorLaws any_key ucmp} `{!SeparatorSame any_key ucmp}.
Context (o : Options) (Ho : opt_comparator o = InternalKeyComparator ucmp).
Context {A : Type} (ops : IterOps A) (es : list entry) (ik : slice -> Prop) (pos : A -> nat -> Prop).
Context (HI : IterLaws ops (InternalKeyComparator ucmp) ik (table_of es) pos).
Context (Hin : table_input extend snappy zstd o is_internal_key (table_of es)).
Context (Hbc : forall id t, opened extend snappy zstd o (table_of es) in_scratch id t -> cache_coherent extend snappy zstd bcache t).

(** Without faults, [BuildTable] writes the entries of the iterator, and says where they begin and end. *)
Lemma BuildTable_spec fuel it i meta tc e0 e1 :
  pos it i -> (length es <= fuel)%nat -> is_u64 (number meta) -> env_faults (tc_env tc) = [] -> tc_cache tc !! EncodeFixed64 (number meta) = None ->
  head es = Some e0 -> last es = Some e1 ->
  exists bytes f tc', BuildTable extend snappy zstd dbname o in_scratch ops fuel bcache it meta tc = Some (OK, f, tc') /\
    table_bytes_of extend snappy zstd o (table_of es) bytes /\ 0 < slen bytes < 2 ^ 64 /\
    f = MkFile (refs meta) (allowed_seeks meta) (number meta) (slen bytes) (MkInternalKey (entry_internal_key e0)) (MkInternalKey (entry_internal_key e1)) /\
    env_faults (tc_env tc') = [] /\ env_files (tc_env tc') = <[TableFileName dbname (number meta) := bytes]> (env_files (tc_env tc)) /\
    exists t id, opened extend snappy zstd o (table_of es) in_scratch id t /\ tc_cache tc' = <[EncodeFixed64 (number meta) := t]> (tc_cache tc).
Proof.
  intros Hp Hfuel Hnum Hfaults Hcache Hh Hl. unfold BuildTable. destruct (pos_SeekToFirst it i Hp) as (it0 & -> & Hp0). cbn [mbind option_bind].
  assert (0 < length es)%nat as Hne by (destruct es; [done|cbn; lia]). assert (length (table_of es) = length es) as Hlen by apply length_map.
  rewrite (pos_Valid it0 0 Hp0), bool_decide_true by lia. destruct tc as [[files faults] cache id]. cbn [tc_env env_faults env_files tc_cache] in *. subst faults.
  unfold NewWritableFile. cbn [next_fault env_faults env_files with_files with_env tc_env]. 
  pose proof (iter_entries_spec fuel it0 0 Hp0) as Hie. rewrite decide_True in Hie by lia. destruct Hie as (it1 & -> & Hp1). rewrite drop_0. cbn [mbind option_bind].
  assert (ComparatorLaws is_internal_key (opt_comparator o)) as HL by (rewrite Ho; apply _).
  destruct (finished_file extend snappy zstd o is_internal_key (table_of es) Hin) as (r & c & Er & Ef & Eoff & Hc).
  change (add_entries extend snappy zstd (table_of es) (NewTableBuilder o (MkWritableFile [] []))) with (table_builder extend snappy zstd o (table_of es)).
  rewrite Er. cbn [mbind option_bind]. rewrite ok_OK, Ef, Eoff. cbn [WritableFile_Sync WritableFile_Flush wf_faults]. rewrite ok_OK.
  cbn [WritableFile_Close WritableFile_Flush wf_faults]. rewrite ok_OK. cbn [delete_file wf_contents wf_faults env_files].
  rewrite last_table_of, Hl. cbn [fmap option_fmap option_map]. rewrite bool_decide_false.
  2: { intros E. pose proof (AppendInternalKey_internal (entry_parsed e1)) as Hi. unfold entry_internal_key in E. rewrite E in Hi. unfold is_internal_key in Hi. cbn in Hi. lia. }
  rewrite (pos_key it0 0 (entry_internal_key e0) (e_value e0) Hp0) by (apply table_of_lookup; exists e0; by rewrite <-head_lookup).
  cbn [InternalKey_DecodeFrom fst number file_size refs allowed_seeks smallest largest].
  destruct (opened_table extend snappy zstd o is_internal_key (table_of es) Hin in_scratch id) as (bs & ies & _ & _ & _ & _ & Hop & _).
  pose proof Hop as (r' & Er' & Et'). rewrite Er in Er'. injection Er' as <-. cbv zeta in Et'. rewrite Ef in Et'. cbn [wf_contents] in Et'.
  destruct (opened_iterator extend snappy zstd o is_internal_key (table_of es) Hin in_scratch id _ bcache DefaultReadOptions Hop (Hbc id _ Hop)) as (tpos & HL' & Htp).
  unfold TableCache_NewIterator, FindTable, with_env, delete_file. cbn [tc_cache tc_env tc_next_id env_files env_faults wf_contents wf_faults]. rewrite Hcache. unfold NewRandomAccessFile, NewSequentialFile.
  unfold with_files. cbn [next_fault env_faults env_files]. rewrite insert_insert_eq, lookup_insert_eq. cbn [fmap option_fmap option_map]. rewrite ok_OK. cbn [negb]. rewrite Et'.
  cbn [mbind option_bind]. rewrite ok_OK. cbn [TableIterator_status]. rewrite (pos_status _ _ Htp). rewrite (pos_status _ _ Hp1), ok_OK. cbn [negb].
  rewrite (proj2 (Z.ltb_lt _ _)) by done. cbn [andb]. eexists c, _, _. split; [reflexivity|]. split; [exists r; by rewrite Ef|]. split.
  { split; [done|]. destruct Hin as [_ _ _ _ _ _ (_ & _ & _ & _ & Hsz)]. rewrite Er, Ef in Hsz. exact Hsz. }
  split_and!; try done.
  eexists _, id. split; [exact Hop|]. done.
Qed.
End build.
