(* ===== verification/VersionSet.v ===== *)
(** VersionSet: db/version_set.cc, the versions of the store and the descriptor file that records their edits:
    [VersionSet::Builder], [LogAndApply], [Recover], [WriteSnapshot], and [DBImpl::NewDB] of db/db_impl.cc. *)

From stdpp Require Import gmap sorting.
From Stdlib Require Import Strings.Byte Strings.String Floats.SpecFloat.
From S2P Require Import Prelude Coding Crc32c Status Comparator DbFormat Env FileSystem Filename VersionEdit Log Version.

(** * [Finalize] *)

(** A [double]. *)
Definition double_of (n : Z) : spec_float := binary_normalize 53 1024 n 0 false.
Definition double_mul : spec_float -> spec_float -> spec_float := SFmul 53 1024.
Definition double_div : spec_float -> spec_float -> spec_float := SFdiv 53 1024.

Definition kL0_CompactionTrigger : Z := 4.

Definition MaxBytesForLevel (level : Z) : spec_float :=
  Nat.iter (Z.to_nat (level - 1)) (fun result => double_mul result (double_of 10)) (double_mul (double_of 10) (double_of 1048576)).

Definition level_score (v : Version) (level : Z) : spec_float :=
  if level =? 0 then double_div (double_of (slen (level_files v level))) (double_of kL0_CompactionTrigger)
  else double_div (double_of (u64 (TotalFileSize (level_files v level)))) (MaxBytesForLevel level).

Definition Finalize (v : Version) : Version :=
  let '(best_level, best_score) :=
    foldl (fun '(best_level, best_score) level =>
             let score := level_score v level in if SFltb best_score score then (level, score) else (best_level, best_score))
      (-1, minus_one) (seqZ 0 (kNumLevels - 1)) in
  MkVersion (files_ v) (file_to_compact_ v) (file_to_compact_level_ v) best_score best_level.

(** * The builder *)

(** Pointers to files are modelled by the files; the count of references to a file is not kept up to date. *)
Section Builder.
Context (ucmp : Comparator).

Abbreviation icmp := (InternalKeyComparator ucmp).

Definition BySmallestKey (f1 f2 : FileMetaData) : bool :=
  let r := Compare icmp (InternalKey_Encode (smallest f1)) (InternalKey_Encode (smallest f2)) in
  if negb (r =? 0) then r <? 0 else number f1 <? number f2.

(** [insert] of a [FileSet]. *)
Fixpoint FileSet_insert (f : FileMetaData) (l : list FileMetaData) : list FileMetaData :=
  match l with
  | [] => [f]
  | g :: l' => if BySmallestKey f g then f :: l else if BySmallestKey g f then g :: FileSet_insert f l' else l
  end.

Record LevelState := MkLevelState { deleted_files : gset Z; added_files : list FileMetaData }.

Record Builder := MkBuilder { base_ : Version; levels_ : list LevelState }.

Definition NewBuilder (base : Version) : Builder := MkBuilder base (replicate (Z.to_nat kNumLevels) (MkLevelState ∅ [])).

Definition alter_level (f : LevelState -> LevelState) (level : Z) (b : Builder) : Builder :=
  MkBuilder (base_ b) (alter f (Z.to_nat level) (levels_ b)).

(** The file of an edit with the fields that [Apply] sets. *)
Definition applied_file (f : FileMetaData) : FileMetaData :=
  let allowed_seeks := i32 (file_size f / 16384) in
  MkFile 1 (if allowed_seeks <? 100 then 100 else allowed_seeks) (number f) (file_size f) (smallest f) (largest f).

Definition apply_deleted (b : Builder) (df : Z * Z) : Builder :=
  alter_level (fun l => MkLevelState ({[df.2]} ∪ deleted_files l) (added_files l)) df.1 b.

Definition apply_new (b : Builder) (nf : Z * FileMetaData) : Builder :=
  let f := applied_file nf.2 in
  alter_level (fun l => MkLevelState (deleted_files l ∖ {[number f]}) (FileSet_insert f (added_files l))) nf.1 b.

Definition apply_pointer (pointers : list slice) (cp : Z * InternalKey) : list slice :=
  <[Z.to_nat cp.1 := InternalKey_Encode cp.2]> pointers.

(** The [compact_pointer_] of the version set, and the builder. *)
Definition Builder_Apply (edit : VersionEdit) (compact_pointer : list slice) (b : Builder) : list slice * Builder :=
  (foldl apply_pointer compact_pointer (compact_pointers_ edit),
   foldl apply_new (foldl apply_deleted b (deleted_files_ edit)) (new_files_ edit)).

Definition MaybeAddFile (deleted : gset Z) (files : list FileMetaData) (f : FileMetaData) : list FileMetaData :=
  if decide (number f ∈ deleted) then files else files ++ [f].

(** [std::upper_bound] of a sorted range: the files up to the first that is behind, and those from it on. *)
Fixpoint upper_bound (f : FileMetaData) (base : list FileMetaData) : list FileMetaData * list FileMetaData :=
  match base with
  | [] => ([], [])
  | g :: base' => if BySmallestKey f g then ([], base) else let '(before, rest) := upper_bound f base' in (g :: before, rest)
  end.

Fixpoint SaveTo_level (deleted : gset Z) (base added files : list FileMetaData) : list FileMetaData :=
  match added with
  | [] => foldl (MaybeAddFile deleted) files base
  | f :: added =>
      let '(before, rest) := upper_bound f base in
      SaveTo_level deleted rest added (MaybeAddFile deleted (foldl (MaybeAddFile deleted) files before) f)
  end.

(** The files of the new version; its other fields are those of [NewVersion]. *)
Definition SaveTo (b : Builder) : Version :=
  let files := imap (fun i l => SaveTo_level (deleted_files l) (level_files (base_ b) (Z.of_nat i)) (added_files l) []) (levels_ b) in
  MkVersion files (file_to_compact_ NewVersion) (file_to_compact_level_ NewVersion) (compaction_score_ NewVersion) (compaction_level_ NewVersion).
End Builder.

(** * The version set *)

(** A version of the list [dummy_versions_]; the id stands for its address. *)
Record LiveVersion := MkLive { lv_id : Z; lv_refs : Z; lv_version : Version }.

(** The list of the versions ends in [current_]; an open descriptor file is its name with the writer on it. *)
Record VersionSet := MkVersionSet {
  vs_next_file_number : Z;
  vs_manifest_file_number : Z;
  vs_last_sequence : Z;
  vs_log_number : Z;
  vs_prev_log_number : Z;
  vs_descriptor_log : option (slice * Writer);
  vs_versions : list LiveVersion;
  vs_next_id : Z;
  vs_compact_pointer : list slice;
}.

Definition current_live (vs : VersionSet) : LiveVersion := default (MkLive (-1) 0 NewVersion) (last (vs_versions vs)).
Definition current (vs : VersionSet) : Version := lv_version (current_live vs).

Definition set_versions (l : list LiveVersion) (vs : VersionSet) : VersionSet :=
  let 'MkVersionSet n m s g p d _ i c := vs in MkVersionSet n m s g p d l i c.
(** The current version with its statistics updated: [UpdateStats] changes the object. *)
Definition update_current (v : Version) (vs : VersionSet) : VersionSet :=
  let live := current_live vs in
  set_versions (take (length (vs_versions vs) - 1) (vs_versions vs) ++ [MkLive (lv_id live) (lv_refs live) v]) vs.
Definition set_numbers (n m s g p : Z) (vs : VersionSet) : VersionSet :=
  let 'MkVersionSet _ _ _ _ _ d l i c := vs in MkVersionSet n m s g p d l i c.
Definition set_next_file_number (n : Z) (vs : VersionSet) : VersionSet :=
  let 'MkVersionSet _ m s g p d l i c := vs in MkVersionSet n m s g p d l i c.
Definition set_descriptor_log (d : option (slice * Writer)) (vs : VersionSet) : VersionSet :=
  let 'MkVersionSet n m s g p _ l i c := vs in MkVersionSet n m s g p d l i c.
Definition set_compact_pointer (c : list slice) (vs : VersionSet) : VersionSet :=
  let 'MkVersionSet n m s g p d l i _ := vs in MkVersionSet n m s g p d l i c.

Definition Version_Ref (id : Z) (vs : VersionSet) : VersionSet :=
  set_versions (map (fun l => if decide (lv_id l = id) then MkLive id (lv_refs l + 1) (lv_version l) else l) (vs_versions vs)) vs.

(** A version without references leaves the list. *)
Definition Version_Unref (id : Z) (vs : VersionSet) : VersionSet :=
  let less := map (fun l => if decide (lv_id l = id) then MkLive id (lv_refs l - 1) (lv_version l) else l) (vs_versions vs) in
  set_versions (List.filter (fun l => negb (bool_decide (lv_id l = id) && (lv_refs l =? 0))) less) vs.

Definition AppendVersion (v : Version) (vs : VersionSet) : VersionSet :=
  let vs := if decide (vs_versions vs = []) then vs else Version_Unref (lv_id (current_live vs)) vs in
  let 'MkVersionSet n m s g p d l i c := vs in MkVersionSet n m s g p d (l ++ [MkLive i 1 v]) (i + 1) c.

Definition NewVersionSet : VersionSet :=
  AppendVersion NewVersion (MkVersionSet 2 0 0 0 0 None [] 0 (repeat [] (Z.to_nat kNumLevels))).

Definition NewFileNumber (vs : VersionSet) : Z * VersionSet :=
  (vs_next_file_number vs, set_next_file_number (u64 (vs_next_file_number vs + 1)) vs).

Definition ReuseFileNumber (file_number : Z) (vs : VersionSet) : VersionSet :=
  if vs_next_file_number vs =? u64 (file_number + 1) then set_next_file_number file_number vs else vs.

Definition VersionSet_SetLastSequence (s : Z) (vs : VersionSet) : VersionSet :=
  set_numbers (vs_next_file_number vs) (vs_manifest_file_number vs) s (vs_log_number vs) (vs_prev_log_number vs) vs.

Definition MarkFileNumberUsed (number : Z) (vs : VersionSet) : VersionSet :=
  if vs_next_file_number vs <=? number then set_next_file_number (u64 (number + 1)) vs else vs.

Definition NumLevelFiles (level : Z) (vs : VersionSet) : Z := NumFiles (current vs) level.
Definition NumLevelBytes (level : Z) (vs : VersionSet) : Z := TotalFileSize (level_files (current vs) level).

Definition NeedsCompaction (vs : VersionSet) : bool :=
  SFleb (double_of 1) (compaction_score_ (current vs)) || bool_decide (file_to_compact_ (current vs) <> None).

Definition AddLiveFiles (vs : VersionSet) (live : gset Z) : gset Z :=
  foldl (fun live lv => foldl (fun live f => {[number f]} ∪ live) live (concat (files_ (lv_version lv)))) live (vs_versions vs).

Definition LevelSummary (vs : VersionSet) : slice :=
  snprintf 100 (foldl (fun r level => r ++ decimal (NumFiles (current vs) level) ++ lit " ") (lit "files[ ") (seqZ 0 kNumLevels) ++ lit "]").

(** * The descriptor *)

(** The writer on an open file, with the faults of the environment. *)
Definition resume (w : Writer) (e : EnvState) : Writer := MkWriter (MkWritableFile (wf_contents (dest_ w)) (env_faults e)) (block_offset_ w).

Section Descriptor.
(** The comparator and its name, the checksum of the log, and of the options the size of files and whether the logs are used again. *)
Context (ucmp : Comparator) (cmp_name : slice) (extend : Z -> slice -> Z) (dbname : slice) (max_file_size : Z) (reuse_logs : bool).

(** The edit that [WriteSnapshot] makes. *)
Definition snapshot_edit (vs : VersionSet) : VersionEdit :=
  let edit := SetComparatorName cmp_name NewVersionEdit in
  let edit :=
    foldl (fun edit level =>
             let pointer := nth (Z.to_nat level) (vs_compact_pointer vs) [] in
             if bool_decide (pointer = []) then edit else SetCompactPointer level (InternalKey_DecodeFrom pointer).1 edit)
      edit (seqZ 0 kNumLevels) in
  foldl (fun edit level =>
           foldl (fun edit f => AddFile level (number f) (file_size f) (smallest f) (largest f) edit) edit (level_files (current vs) level))
    edit (seqZ 0 kNumLevels).

Definition WriteSnapshot (vs : VersionSet) (log : Writer) : Status * Writer :=
  AddRecord extend (VersionEdit_EncodeTo (snapshot_edit vs) []) log.

(** The first part of [LogAndApply], on [*edit]. *)
Definition complete_edit (vs : VersionSet) (edit : VersionEdit) : VersionEdit :=
  let edit := if has_log_number_ edit then edit else SetLogNumber (vs_log_number vs) edit in
  let edit := if has_prev_log_number_ edit then edit else SetPrevLogNumber (vs_prev_log_number vs) edit in
  SetLastSequence (vs_last_sequence vs) (SetNextFile (vs_next_file_number vs) edit).

(** The descriptor log that [LogAndApply] writes to: the open one, or a new one with a snapshot, and whether it is new. *)
Definition open_descriptor (vs : VersionSet) (e : EnvState) : Status * option (slice * Writer) * bool * EnvState :=
  match vs_descriptor_log vs with
  | Some (fname, w) => (OK, Some (fname, resume w e), false, e)
  | None =>
      let new_manifest_file := DescriptorFileName dbname (vs_manifest_file_number vs) in
      let '(s, file, e) := NewWritableFile new_manifest_file e in
      match file with
      | Some file => let '(s, w) := WriteSnapshot vs (NewWriter file) in (s, Some (new_manifest_file, w), true, e)
      | None => (s, None, true, e)
      end
  end.

(** The record and the synchronisation; the file is the descriptor file of the environment again. *)
Definition write_edit (edit : VersionEdit) (s : Status) (d : option (slice * Writer)) (e : EnvState) : Status * option (slice * Writer) * EnvState :=
  match d with
  | None => (s, None, e)
  | Some (fname, w) =>
      let '(s, w) :=
        if ok s then
          let '(s, w) := AddRecord extend (VersionEdit_EncodeTo edit []) w in
          if ok s then let '(s, file) := WritableFile_Sync (dest_ w) in (s, MkWriter file (block_offset_ w)) else (s, w)
        else (s, w) in
      (s, Some (fname, w), delete_file fname (dest_ w) e)
  end.

(** The status, [*edit], the version set and the environment. *)
Definition LogAndApply (edit : VersionEdit) (vs : VersionSet) (e : EnvState) : Status * VersionEdit * VersionSet * EnvState :=
  let edit := complete_edit vs edit in
  let '(compact_pointer, builder) := Builder_Apply ucmp edit (vs_compact_pointer vs) (NewBuilder (current vs)) in
  let vs := set_compact_pointer compact_pointer vs in
  let v := Finalize (SaveTo ucmp builder) in
  let '(s, d, is_new, e) := open_descriptor vs e in
  let '(s, d, e) := write_edit edit s d e in
  let vs := set_descriptor_log d vs in
  let '(s, e) := if ok s && is_new then SetCurrentFile dbname (vs_manifest_file_number vs) e else (s, e) in
  if ok s then
    let vs := AppendVersion v vs in
    let vs := set_numbers (vs_next_file_number vs) (vs_manifest_file_number vs) (vs_last_sequence vs) (log_number_ edit) (prev_log_number_ edit) vs in
    (s, edit, vs, e)
  else if is_new then
    (s, edit, set_descriptor_log None vs, snd (FileSystem.RemoveFile (DescriptorFileName dbname (vs_manifest_file_number vs)) e))
  else (s, edit, vs, e).

(** * Recovery *)

(** The variables of [Recover]: the status, the last numbers of the edits, and what the edits are applied to. *)
Record RecoverVars := MkVars {
  rv_status : Status;
  rv_log_number : option Z;
  rv_prev_log_number : option Z;
  rv_next_file : option Z;
  rv_last_sequence : option Z;
  rv_compact_pointer : list slice;
  rv_builder : Builder;
}.

Definition or_else (has : bool) (n : Z) (o : option Z) : option Z := if has then Some n else o.

(** The effect of a decoded edit.  The numbers of one that does not decode, or is of another comparator, are not used. *)
Definition recover_edit (edit : VersionEdit) (r : RecoverVars) : RecoverVars :=
  let s := if has_comparator_ edit && negb (bool_decide (comparator_ edit = cmp_name))
           then InvalidArgument (comparator_ edit ++ lit " does not match existing comparator ") cmp_name else OK in
  let '(cp, b) := if ok s then Builder_Apply ucmp edit (rv_compact_pointer r) (rv_builder r) else (rv_compact_pointer r, rv_builder r) in
  MkVars s
    (or_else (has_log_number_ edit) (log_number_ edit) (rv_log_number r))
    (or_else (has_prev_log_number_ edit) (prev_log_number_ edit) (rv_prev_log_number r))
    (or_else (has_next_file_number_ edit) (next_file_number_ edit) (rv_next_file r))
    (or_else (has_last_sequence_ edit) (last_sequence_ edit) (rv_last_sequence r))
    cp b.

Definition set_status (s : Status) (r : RecoverVars) : RecoverVars :=
  MkVars s (rv_log_number r) (rv_prev_log_number r) (rv_next_file r) (rv_last_sequence r) (rv_compact_pointer r) (rv_builder r).

(** [LogReporter::Corruption], for the reports of one call. *)
Definition report (reports : list drop_report) (s : Status) : Status :=
  foldl (fun s d => if ok s then dr_status d else s) s reports.

Fixpoint Recover_loop (fuel : nat) (reader : Reader) (r : RecoverVars) : option (RecoverVars * Reader) :=
  match fuel with
  | O => None
  | S fuel =>
      '(record, reader') ← ReadRecord extend reader;
      let r := set_status (report (drop (length (reports_ reader)) (reports_ reader')) (rv_status r)) r in
      match record with
      | None => Some (r, reader')
      | Some record =>
          if negb (ok (rv_status r)) then Some (r, reader')
          else
            '(s, edit) ← VersionEdit_DecodeFrom record;
            match edit with
            | Some edit => Recover_loop fuel reader' (recover_edit edit r)
            | None => Recover_loop fuel reader' (set_status s r)
            end
      end
  end.

Definition ReuseManifest (dscname dscbase : slice) (vs : VersionSet) (e : EnvState) : bool * VersionSet * EnvState :=
  if negb reuse_logs then (false, vs, e)
  else
    match ParseFileName dscbase with
    | Some (manifest_number, kDescriptorFile) =>
        let '(s, manifest_size, e) := GetFileSize dscname e in
        if negb (ok s) || (TargetFileSize max_file_size <=? manifest_size) then (false, vs, e)
        else
          let '(r, file, e) := NewAppendableFile dscname e in
          match file with
          | None => (false, vs, e)
          | Some file =>
              let vs := set_descriptor_log (Some (dscname, NewWriter_at file manifest_size)) vs in
              (true, set_numbers (vs_next_file_number vs) manifest_number (vs_last_sequence vs) (vs_log_number vs) (vs_prev_log_number vs) vs, e)
          end
    | _ => (false, vs, e)
    end.

(** What is done with the variables behind the loop: the status, whether the manifest is to be saved, the version set and
    the environment. *)
Definition install_recovered (dscname current_ : slice) (r : RecoverVars) (vs : VersionSet) (e : EnvState) :
    Status * bool * VersionSet * EnvState :=
  let vs := set_compact_pointer (rv_compact_pointer r) vs in
  if negb (ok (rv_status r)) then (rv_status r, false, vs, e)
  else
    let vs := MarkFileNumberUsed (default 0 (rv_log_number r)) (MarkFileNumberUsed (default 0 (rv_prev_log_number r)) vs) in
    match rv_next_file r, rv_log_number r, rv_last_sequence r with
    | None, _, _ => (Corruption (lit "no meta-nextfile entry in descriptor") [], false, vs, e)
    | _, None, _ => (Corruption (lit "no meta-lognumber entry in descriptor") [], false, vs, e)
    | _, _, None => (Corruption (lit "no last-sequence-number entry in descriptor") [], false, vs, e)
    | Some next_file, Some log_number, Some last_sequence =>
        let vs := AppendVersion (Finalize (SaveTo ucmp (rv_builder r))) vs in
        let vs := set_numbers (u64 (next_file + 1)) next_file last_sequence log_number (default 0 (rv_prev_log_number r)) vs in
        let '(reused, vs, e) := ReuseManifest dscname current_ vs e in
        (OK, negb reused, vs, e)
    end.

(** [*save_manifest] is true in the result when [Recover] sets it.  [None] is a lack of fuel only: every record has bytes. *)
Definition Recover (vs : VersionSet) (e : EnvState) : option (Status * bool * VersionSet * EnvState) :=
  '(s, current_, e) ← ReadFileToString (CurrentFileName dbname) e;
  if negb (ok s) then Some (s, false, vs, e)
  else if bool_decide (current_ = []) || negb (bool_decide (last current_ = Some x0a)) then
    Some (Corruption (lit "CURRENT file does not end with newline") [], false, vs, e)
  else
    let current_ := take (length current_ - 1) current_ in
    let dscname := dbname ++ lit "/" ++ current_ in
    let '(s, contents, e) := NewSequentialFile dscname e in
    match contents with
    | None => Some (if IsNotFound s then Corruption (lit "CURRENT points to a non-existent file") (ToString s) else s, false, vs, e)
    | Some contents =>
        let file := MkSequentialFile contents (map (fmap snd) (env_faults e)) in
        '(r, reader) ← Recover_loop (S (length contents)) (NewReader file true true 0)
              (MkVars OK None None None None (vs_compact_pointer vs) (NewBuilder (current vs)));
        let e := MkEnv (env_files e) (drop (length (env_faults e) - length (sf_faults (file_ reader))) (env_faults e)) in
        Some (install_recovered dscname current_ r vs e)
    end.

(** * [DBImpl::NewDB] *)

Definition NewDB (e : EnvState) : Status * EnvState :=
  let new_db := SetLastSequence 0 (SetNextFile 2 (SetLogNumber 0 (SetComparatorName cmp_name NewVersionEdit))) in
  let manifest := DescriptorFileName dbname 1 in
  let '(s, file, e) := NewWritableFile manifest e in
  match file with
  | None => (s, e)
  | Some file =>
      let '(s, log) := AddRecord extend (VersionEdit_EncodeTo new_db []) (NewWriter file) in
      let '(s, file) := if ok s then WritableFile_Sync (dest_ log) else (s, dest_ log) in
      let '(s, file) := if ok s then WritableFile_Close file else (s, file) in
      let e := delete_file manifest file e in
      if ok s then SetCurrentFile dbname 1 e else (s, snd (FileSystem.RemoveFile manifest e))
  end.
End Descriptor.

(** * Lemmas: the builder *)

Lemma current_Version_Ref id vs : current (Version_Ref id vs) = current vs.
Proof.
  unfold current, current_live, Version_Ref. destruct vs as [n m s g p d l i c]. cbn [set_versions vs_versions]. rewrite last_lookup, length_map, lookup_map, <-last_lookup.
  destruct (last l) as [[]|]; cbn; [|done]. by case_decide.
Qed.

Section builder_proofs.
Context (ucmp : Comparator) `{!ComparatorLaws any_key ucmp} `{!SeparatorSame any_key ucmp}.

Abbreviation icmp := (InternalKeyComparator ucmp).

(** A file whose smallest key is an internal key. *)
Definition has_key (f : FileMetaData) : Prop := is_internal_key (rep_ (smallest f)).

Abbreviation before := (fun f g => BySmallestKey ucmp f g = true).

Lemma before_spec f g : before f g <->
  Compare icmp (rep_ (smallest f)) (rep_ (smallest g)) < 0 \/ (Compare icmp (rep_ (smallest f)) (rep_ (smallest g)) = 0 /\ number f < number g).
Proof.
  unfold BySmallestKey, InternalKey_Encode. destruct (Z.eqb_spec (Compare icmp (rep_ (smallest f)) (rep_ (smallest g))) 0) as [E|E]; cbn [negb].
  - rewrite E, Z.ltb_lt. lia.
  - rewrite Z.ltb_lt. lia.
Qed.

Lemma before_trans f g h : has_key f -> has_key g -> has_key h -> before f g -> before g h -> before f h.
Proof.
  intros Hf Hg Hh. rewrite !before_spec. intros [H1|[H1 N1]] [H2|[H2 N2]].
  - left. by apply (compare_trans (key := is_internal_key) _ (rep_ (smallest g))).
  - left. eapply (compare_lt_le (key := is_internal_key)); [exact Hf|exact Hg|exact Hh|done|lia].
  - left. eapply (compare_le_lt (key := is_internal_key)); [exact Hf|exact Hg|exact Hh|lia|done].
  - right. apply (compare_eq (key := is_internal_key)) in H1; [|done|done]. rewrite H1. split; [done|lia].
Qed.

Lemma before_asym f g : has_key f -> has_key g -> before f g -> before g f -> False.
Proof.
  intros Hf Hg H1 H2. pose proof (before_trans f g f Hf Hg Hf H1 H2) as H. rewrite before_spec, (compare_refl (key := is_internal_key)) in H by done. lia.
Qed.

Lemma before_total f g : has_key f -> has_key g -> number f <> number g -> BySmallestKey ucmp f g = false -> before g f.
Proof.
  intros Hf Hg Hn H. assert (~ before f g) as Hnb by (by rewrite H). rewrite before_spec in Hnb. rewrite before_spec.
  rewrite <-(compare_gt (key := is_internal_key)) by done. destruct (Z.eq_dec (Compare icmp (rep_ (smallest f)) (rep_ (smallest g))) 0) as [E|E].
  - right. split; [|lia]. apply (compare_eq (key := is_internal_key)) in E; [|done|done]. rewrite E. by apply (compare_refl (key := is_internal_key)).
  - left. lia.
Qed.

(** Files in the order of the builder. *)
Definition ordered (l : list FileMetaData) : Prop := StronglySorted before l.

Lemma ordered_filter p l : ordered l -> ordered (List.filter p l).
Proof.
  intros H. induction H as [|f l H IH Hall]; [constructor|]. cbn [List.filter]. destruct (p f); [|done]. constructor; [done|].
  apply Forall_forall. intros g Hg. apply list_elem_of_In, filter_In in Hg as [Hg _]. apply list_elem_of_In in Hg. by apply (proj1 (Forall_forall _ _) Hall).
Qed.

Lemma ordered_NoDup l : Forall has_key l -> ordered l -> NoDup l.
Proof.
  intros Hk H. induction H as [|f l H IH Hall]; [constructor|]. apply Forall_cons in Hk as [Hf Hk]. constructor; [|by apply IH]. intros Hin.
  pose proof (proj1 (Forall_forall _ _) Hall f Hin) as Hb. by apply (before_asym f f).
Qed.

(** An ordered list is determined by its members. *)
Lemma ordered_same l l' : Forall has_key l -> ordered l -> ordered l' -> (forall f, f ∈ l <-> f ∈ l') -> l = l'.
Proof.
  intros Hk Hl Hl' Hiff. assert (Forall has_key l') as Hk' by (apply Forall_forall; intros f Hf; apply Hiff in Hf; by apply (proj1 (Forall_forall _ _) Hk)).
  apply (StronglySorted_unique_strong (fun f g => before f g)); [|done|done|by apply NoDup_Permutation; [apply ordered_NoDup..|]].
  intros f g Hf Hg H1 H2. exfalso. apply (before_asym f g); [by apply (proj1 (Forall_forall _ _) Hk)|by apply (proj1 (Forall_forall _ _) Hk')|done|done].
Qed.

Lemma FileSet_insert_perm f l : Forall has_key (f :: l) -> number f ∉ map number l -> FileSet_insert ucmp f l ≡ₚ f :: l.
Proof.
  intros [Hf Hl]%Forall_cons. induction l as [|g l IH]; cbn [FileSet_insert map]; [done|]. apply Forall_cons in Hl as [Hg Hl]. rewrite not_elem_of_cons. intros [Hn Hni].
  destruct (BySmallestKey ucmp f g) eqn:E; [done|]. rewrite (before_total f g Hf Hg Hn E). rewrite IH by done. apply Permutation_swap.
Qed.

Lemma FileSet_insert_ordered f l : Forall has_key (f :: l) -> number f ∉ map number l -> ordered l -> ordered (FileSet_insert ucmp f l).
Proof.
  intros [Hf Hl]%Forall_cons Hn Ho. induction Ho as [|g l Ho IH Hall]; cbn [FileSet_insert]; [by repeat constructor|].
  apply Forall_cons in Hl as [Hg Hl]. cbn [map] in Hn. apply not_elem_of_cons in Hn as [Hn Hni]. destruct (BySmallestKey ucmp f g) eqn:E.
  - constructor; [by constructor|]. constructor; [done|]. apply Forall_forall. intros h Hh.
    apply (before_trans f g h); [done|done|by apply (proj1 (Forall_forall _ _) Hl)|done|by apply (proj1 (Forall_forall _ _) Hall)].
  - rewrite (before_total f g Hf Hg Hn E). constructor; [by apply IH|]. rewrite FileSet_insert_perm by (done || by constructor). constructor; [|done]. by apply before_total.
Qed.

(** ** [SaveTo] *)

Definition kept (deleted : gset Z) (f : FileMetaData) : bool := negb (bool_decide (number f ∈ deleted)).

(** The merge of the files of the base with those that are added. *)
Fixpoint merge_files (base added : list FileMetaData) : list FileMetaData :=
  match added with
  | [] => base
  | f :: added => let '(b, r) := upper_bound ucmp f base in b ++ f :: merge_files r added
  end.

Lemma MaybeAddFile_eq deleted files f : MaybeAddFile deleted files f = files ++ List.filter (kept deleted) [f].
Proof. unfold MaybeAddFile, kept. cbn [List.filter]. case_decide as H; [by rewrite bool_decide_true, app_nil_r|by rewrite bool_decide_false]. Qed.

Lemma MaybeAddFile_foldl deleted files l : foldl (MaybeAddFile deleted) files l = files ++ List.filter (kept deleted) l.
Proof.
  revert files. induction l as [|f l IH]; intros files; cbn [foldl]; [by rewrite app_nil_r|]. rewrite IH, MaybeAddFile_eq, <-app_assoc, <-List.filter_app. done.
Qed.

Lemma SaveTo_level_merge deleted base added files :
  SaveTo_level ucmp deleted base added files = files ++ List.filter (kept deleted) (merge_files base added).
Proof.
  revert base files. induction added as [|f added IH]; intros base files; cbn [SaveTo_level merge_files]; [apply MaybeAddFile_foldl|].
  destruct (upper_bound ucmp f base) as [b r]. rewrite IH, MaybeAddFile_eq, MaybeAddFile_foldl, <-!app_assoc. f_equal. rewrite List.filter_app. f_equal.
  change (f :: merge_files r added) with ([f] ++ merge_files r added). by rewrite List.filter_app.
Qed.

Lemma upper_bound_app f base b r : upper_bound ucmp f base = (b, r) -> base = b ++ r.
Proof.
  revert b r. induction base as [|g base IH]; intros b r; cbn [upper_bound]; [by intros [= <- <-]|]. destruct (BySmallestKey ucmp f g); [by intros [= <- <-]|].
  destruct (upper_bound ucmp f base) as [b' r'] eqn:E. intros [= <- <-]. cbn [app]. f_equal. by apply IH.
Qed.

Lemma merge_files_perm base added : merge_files base added ≡ₚ base ++ added.
Proof.
  revert base. induction added as [|f added IH]; intros base; cbn [merge_files]; [by rewrite app_nil_r|].
  destruct (upper_bound ucmp f base) as [b r] eqn:E. apply upper_bound_app in E as ->. rewrite IH. by rewrite <-!app_assoc, !Permutation_middle.
Qed.

(** What is before the bound is not behind the file, and what is from it on is. *)
Lemma upper_bound_spec f base b r :
  has_key f -> Forall has_key base -> ordered base -> number f ∉ map number base -> upper_bound ucmp f base = (b, r) ->
  Forall (fun g => before g f) b /\ Forall (before f) r.
Proof.
  intros Hf Hk Ho. revert b r. induction Ho as [|g base Ho IH Hall]; intros b r Hn; cbn [upper_bound]; [intros [= <- <-]; done|].
  apply Forall_cons in Hk as [Hg Hk]. cbn [map] in Hn. apply not_elem_of_cons in Hn as [Hn Hni]. destruct (BySmallestKey ucmp f g) eqn:E.
  - intros [= <- <-]. split; [constructor|]. constructor; [done|]. apply Forall_forall. intros h Hh.
    apply (before_trans f g h); [done|done|by apply (proj1 (Forall_forall _ _) Hk)|done|by apply (proj1 (Forall_forall _ _) Hall)].
  - destruct (upper_bound ucmp f base) as [b' r'] eqn:Eb. intros [= <- <-]. destruct (IH Hk b' r' Hni eq_refl) as [H1 H2]. split; [|done]. constructor; [|done].
    by apply before_total.
Qed.

Lemma merge_files_ordered base added :
  Forall has_key base -> Forall has_key added -> ordered base -> ordered added -> (forall f, f ∈ added -> number f ∉ map number base) -> ordered (merge_files base added).
Proof.
  intros Hb Ha Hob Hoa. revert base Hb Hob. induction Hoa as [|f added Hoa IH Hall]; intros base Hb Hob Hn; cbn [merge_files]; [done|].
  apply Forall_cons in Ha as [Hf Ha]. destruct (upper_bound ucmp f base) as [b r] eqn:E.
  destruct (upper_bound_spec f base b r Hf Hb Hob ltac:(apply Hn; left) E) as [H1 H2]. apply upper_bound_app in E as ->.
  apply Forall_app in Hb as [Hkb Hkr]. apply StronglySorted_app in Hob as (Hbr & Hob & Hor).
  assert (ordered (merge_files r added)) as Hm.
  { apply IH; [done|done|done|]. intros g Hg Hin. apply (Hn g); [by right|]. rewrite map_app. apply elem_of_app. by right. }
  assert (forall g, g ∈ merge_files r added -> before f g) as Hfm.
  { intros g Hg. rewrite merge_files_perm in Hg. apply elem_of_app in Hg as [Hg|Hg]; [by apply (proj1 (Forall_forall _ _) H2)|by apply (proj1 (Forall_forall _ _) Hall)]. }
  apply StronglySorted_app_2; [|done|constructor; [done|by apply Forall_forall]].
  intros x y Hx Hy. pose proof (proj1 (Forall_forall _ _) H1 x Hx) as Hxf. apply elem_of_cons in Hy as [->|Hy]; [done|].
  apply (before_trans x f y); [by apply (proj1 (Forall_forall _ _) Hkb)|done| |done|by apply Hfm].
  rewrite merge_files_perm in Hy. apply elem_of_app in Hy as [Hy|Hy]; [by apply (proj1 (Forall_forall _ _) Hkr)|by apply (proj1 (Forall_forall _ _) Ha)].
Qed.

(** ** [Apply] *)

(** The level and the number of an added file. *)
Definition file_key (nf : Z * FileMetaData) : Z * Z := (nf.1, number nf.2).

(** An edit whose files are of the levels, with keys, and with different numbers on a level. *)
Definition edit_files_ok (edit : VersionEdit) : Prop :=
  Forall (fun nf => level_ok nf.1 /\ has_key nf.2) (new_files_ edit) /\ Forall (fun df => level_ok df.1) (deleted_files_ edit) /\
  NoDup (map file_key (new_files_ edit)).

(** The file is of the level, as the builder has it. *)
Definition new_at (level : Z) (nfs : list (Z * FileMetaData)) (g : FileMetaData) : Prop := exists f, (level, f) ∈ nfs /\ g = applied_file f.

Lemma new_at_cons level nf nfs g : new_at level (nf :: nfs) g <-> (nf.1 = level /\ g = applied_file nf.2) \/ new_at level nfs g.
Proof.
  unfold new_at. setoid_rewrite elem_of_cons. split.
  - intros (f & [<-|H] & ->); [by left|right; eauto].
  - intros [[<- ->]|(f & H & ->)]; [exists nf.2; split; [left; by destruct nf|done]|eauto].
Qed.

Lemma alter_level_lookup h level level' b l :
  level_ok level -> level_ok level' -> levels_ b !! Z.to_nat level' = Some l ->
  levels_ (alter_level h level b) !! Z.to_nat level' = Some (if decide (level = level') then h l else l).
Proof.
  intros H H' E. unfold alter_level. cbn [levels_]. case_decide as Hd.
  - subst. by rewrite list_lookup_alter_eq, E.
  - rewrite list_lookup_alter_ne; [done|]. unfold level_ok in *. lia.
Qed.

Lemma foldl_deleted_level dfs b level l :
  level_ok level -> Forall (fun df => level_ok df.1) dfs -> levels_ b !! Z.to_nat level = Some l ->
  exists l', levels_ (foldl apply_deleted b dfs) !! Z.to_nat level = Some l' /\ added_files l' = added_files l /\
    (forall n, n ∈ deleted_files l' <-> n ∈ deleted_files l \/ (level, n) ∈ dfs).
Proof.
  intros Hl Hd. revert b l. induction Hd as [|[lv n] dfs Hdf Hd IH]; intros b l El; cbn [foldl].
  { exists l. split_and!; [done..|]. intros n. rewrite elem_of_nil. tauto. }
  destruct (IH (apply_deleted b (lv, n)) _ (alter_level_lookup _ lv level b l Hdf Hl El)) as (l' & -> & Ha & Hm). exists l'. split; [done|]. split.
  - rewrite Ha. by case_decide.
  - intros m. rewrite Hm, elem_of_cons. case_decide as E; cbn [deleted_files snd]; [subst; rewrite elem_of_union, elem_of_singleton|].
    + split; [intros [[->|]|]; auto|intros [|[[= ->]|]]; auto].
    + split; [intros [|]; auto|intros [|[[= -> _]|]]; auto; done].
Qed.

Lemma foldl_new_level nfs b level l :
  level_ok level -> Forall (fun nf => level_ok nf.1 /\ has_key nf.2) nfs -> NoDup (map file_key nfs) ->
  levels_ b !! Z.to_nat level = Some l -> Forall has_key (added_files l) -> ordered (added_files l) ->
  (forall f, (level, f) ∈ nfs -> number f ∉ map number (added_files l)) ->
  exists l', levels_ (foldl (apply_new ucmp) b nfs) !! Z.to_nat level = Some l' /\ Forall has_key (added_files l') /\ ordered (added_files l') /\
    (forall g, g ∈ added_files l' <-> g ∈ added_files l \/ new_at level nfs g) /\
    (forall n, n ∈ deleted_files l' <-> n ∈ deleted_files l /\ ~ (exists f, (level, f) ∈ nfs /\ number f = n)).
Proof.
  intros Hl Hn. revert b l. induction Hn as [|[lv f] nfs [Hlv Hf] Hn IH]; intros b l Hnd El Hk Ho Hfresh; cbn [foldl].
  { exists l. split_and!; [done..| |]; [intros g; split; [auto|intros [|(f & Hf & _)]; [done|by apply elem_of_nil in Hf]]|].
    intros n. split; [|tauto]. intros Hn. split; [done|]. intros (f & Hf & _). by apply elem_of_nil in Hf. }
  cbn [map] in Hnd. apply NoDup_cons in Hnd as [Hni Hnd]. cbn [fst snd] in Hlv, Hf.
  pose proof (alter_level_lookup (fun l => MkLevelState (deleted_files l ∖ {[number f]}) (FileSet_insert ucmp (applied_file f) (added_files l))) lv level b l Hlv Hl El) as E1.
  change (alter_level _ lv b) with (apply_new ucmp b (lv, f)) in E1. set (b1 := apply_new ucmp b (lv, f)) in *. case_decide as Hd; [subst lv|].
  - assert (number f ∉ map number (added_files l)) as Hnf by (apply Hfresh; left).
    assert (Forall has_key (applied_file f :: added_files l)) as Hk1 by (by constructor).
    pose proof (FileSet_insert_perm (applied_file f) (added_files l) Hk1 Hnf) as Hp.
    destruct (IH b1 _ Hnd E1) as (l' & E & Hk' & Ho' & Hm & Hdel); cbn [added_files deleted_files] in *.
    + by rewrite Hp.
    + by apply FileSet_insert_ordered.
    + intros g Hg. rewrite Hp. cbn [map applied_file number]. rewrite not_elem_of_cons. split; [|apply Hfresh; by right].
      intros E. apply Hni. apply list_elem_of_fmap. exists (level, g). unfold file_key. cbn. split; [by f_equal|done].
    + exists l'. split_and!; [done..| |].
      * intros g. rewrite Hm, Hp, elem_of_cons, new_at_cons. cbn [fst snd]. clear. intuition auto.
      * intros n. rewrite Hdel, elem_of_difference, elem_of_singleton. setoid_rewrite elem_of_cons. split.
        -- intros [[H1 H2] H3]. split; [done|]. intros (g & [[= ->]|Hg] & <-); [done|]. apply H3. eauto.
        -- intros [H1 H2]. split_and!; [done| |]; [intros ->; apply H2; eauto|]. intros (g & Hg & <-). apply H2. eauto.
  - destruct (IH b1 _ Hnd E1) as (l' & E & Hk' & Ho' & Hm & Hdel); [done|done|intros g Hg; apply Hfresh; by right|]. exists l'. split_and!; [done..| |].
    + intros g. rewrite Hm, new_at_cons. cbn [fst]. clear - Hd. intuition auto.
    + intros n. rewrite Hdel. setoid_rewrite elem_of_cons. f_equiv. split; intros H (g & Hg & <-); apply H; [|eauto].
      destruct Hg as [[= -> _]|Hg]; [done|eauto].
Qed.

(** The state of a level behind an edit. *)
Lemma Builder_Apply_level edit cp b level l :
  edit_files_ok edit -> level_ok level -> levels_ b !! Z.to_nat level = Some l -> Forall has_key (added_files l) -> ordered (added_files l) ->
  (forall f, (level, f) ∈ new_files_ edit -> number f ∉ map number (added_files l)) ->
  exists l', levels_ (Builder_Apply ucmp edit cp b).2 !! Z.to_nat level = Some l' /\ Forall has_key (added_files l') /\ ordered (added_files l') /\
    (forall g, g ∈ added_files l' <-> g ∈ added_files l \/ new_at level (new_files_ edit) g) /\
    (forall n, n ∈ deleted_files l' <-> (n ∈ deleted_files l \/ (level, n) ∈ deleted_files_ edit) /\ ~ (exists f, (level, f) ∈ new_files_ edit /\ number f = n)).
Proof.
  intros (Hn & Hd & Hnd) Hl El Hk Ho Hfresh. cbn [Builder_Apply snd]. destruct (foldl_deleted_level _ b level l Hl Hd El) as (l1 & E1 & Ha & Hdel).
  rewrite <-Ha in Hk, Ho, Hfresh. destruct (foldl_new_level _ _ level l1 Hl Hn Hnd E1 Hk Ho Hfresh) as (l2 & E2 & H1 & H2 & H3 & H4). exists l2.
  split_and!; [done..| |]; [intros g; by rewrite H3, Ha|]. intros n. by rewrite H4, Hdel.
Qed.

(** ** Histories *)

(** The files of a level behind the edits, the newest of which is the first. *)
Fixpoint live (level : Z) (hist : list VersionEdit) (g : FileMetaData) : Prop :=
  match hist with
  | [] => False
  | edit :: hist => (live level hist g /\ (level, number g) ∉ deleted_files_ edit) \/ new_at level (new_files_ edit) g
  end.

(** The files that edits have added. *)
Definition used_by (hist : list VersionEdit) : list (Z * Z) := concat (map (fun edit => map file_key (new_files_ edit)) hist).

(** An edit whose new files are not among those of before. *)
Definition fresh_edit (used : list (Z * Z)) (edit : VersionEdit) : Prop :=
  edit_files_ok edit /\ forall nf, nf ∈ new_files_ edit -> file_key nf ∉ used.

Fixpoint fresh_history (hist : list VersionEdit) : Prop :=
  match hist with [] => True | edit :: hist => fresh_edit (used_by hist) edit /\ fresh_history hist end.

Lemma new_at_used level edit g hist : new_at level (new_files_ edit) g -> edit ∈ hist -> (level, number g) ∈ used_by hist.
Proof.
  intros (f & Hf & ->) He. unfold used_by. rewrite list_elem_of_In, in_concat. exists (map file_key (new_files_ edit)). split.
  - apply in_map_iff. exists edit. split; [done|]. by apply list_elem_of_In.
  - apply in_map_iff. exists (level, f). split; [done|]. by apply list_elem_of_In.
Qed.

Lemma used_by_cons edit hist : used_by (edit :: hist) = map file_key (new_files_ edit) ++ used_by hist.
Proof. done. Qed.

(** The state of a builder over an empty version behind a history. *)
Definition built (hist : list VersionEdit) (b : Builder) : Prop :=
  files_ (base_ b) = files_ NewVersion /\ length (levels_ b) = Z.to_nat kNumLevels /\
  forall level, level_ok level -> exists l, levels_ b !! Z.to_nat level = Some l /\ Forall has_key (added_files l) /\ ordered (added_files l) /\
    (forall g, g ∈ added_files l -> (level, number g) ∈ used_by hist) /\
    (forall g, g ∈ added_files l /\ number g ∉ deleted_files l <-> live level hist g).

Lemma lookup_new_levels base level : level_ok level -> levels_ (NewBuilder base) !! Z.to_nat level = Some (MkLevelState ∅ []).
Proof. intros Hl. unfold NewBuilder. cbn [levels_]. unfold level_ok, kNumLevels in *. apply lookup_replicate_2. lia. Qed.

Lemma built_nil : built [] (NewBuilder NewVersion).
Proof.
  split; [done|]. split; [done|]. intros level Hl. exists (MkLevelState ∅ []). rewrite lookup_new_levels by done. split_and!; try done; [constructor..| |].
  - intros g Hg. by apply elem_of_nil in Hg.
  - intros g. cbn [live added_files]. rewrite elem_of_nil. tauto.
Qed.

Lemma alter_level_base h level b : base_ (alter_level h level b) = base_ b /\ length (levels_ (alter_level h level b)) = length (levels_ b).
Proof. unfold alter_level. cbn [base_ levels_]. split; [done|]. apply length_alter. Qed.

Lemma Builder_Apply_base edit cp b : base_ (Builder_Apply ucmp edit cp b).2 = base_ b /\ length (levels_ (Builder_Apply ucmp edit cp b).2) = length (levels_ b).
Proof.
  cbn [Builder_Apply snd].
  assert (forall A (f : Builder -> A -> Builder) l b, (forall b x, base_ (f b x) = base_ b /\ length (levels_ (f b x)) = length (levels_ b)) ->
    base_ (foldl f b l) = base_ b /\ length (levels_ (foldl f b l)) = length (levels_ b)) as Hfold.
  { intros A f l b0 Hf. revert b0. induction l as [|x l IH]; intros b0; cbn [foldl]; [done|]. destruct (IH (f b0 x)) as [-> ->]. apply Hf. }
  destruct (Hfold _ (apply_new ucmp) (new_files_ edit) (foldl apply_deleted b (deleted_files_ edit))) as [-> ->]; [intros; apply alter_level_base|].
  apply Hfold. intros. apply alter_level_base.
Qed.

Lemma built_cons edit cp hist b : fresh_edit (used_by hist) edit -> built hist b -> built (edit :: hist) (Builder_Apply ucmp edit cp b).2.
Proof.
  intros [Hok Hfresh] (Hbase & Hlen & Hb). destruct (Builder_Apply_base edit cp b) as [Eb El]. split; [by rewrite Eb|]. split; [by rewrite El|]. intros level Hl.
  destruct (Hb level Hl) as (l & E & Hk & Ho & Hu & Hm).
  assert (forall f, (level, f) ∈ new_files_ edit -> number f ∉ map number (added_files l)) as Hnew.
  { intros f Hf Hin. apply list_elem_of_fmap in Hin as (g & Eg & Hg). apply (Hfresh _ Hf). unfold file_key. cbn [fst snd]. rewrite Eg. by apply Hu. }
  destruct (Builder_Apply_level edit cp b level l Hok Hl E Hk Ho Hnew) as (l' & E' & Hk' & Ho' & Hm' & Hd'). exists l'. split_and!; [done..| |].
  - intros g Hg. apply Hm' in Hg as [Hg|Hg]; [rewrite used_by_cons; apply elem_of_app; right; by apply Hu|]. apply (new_at_used _ edit); [done|left].
  - intros g. cbn [live]. rewrite <-Hm, Hm', Hd'. split.
    + intros [[Hg|Hg] Hn]; [|by right]. left. assert (~ exists f, (level, f) ∈ new_files_ edit /\ number f = number g) as Hno.
      { intros (f & Hf & En). apply (Hnew f Hf). rewrite En. apply list_elem_of_fmap. eauto. }
      split_and!; [done|intros H; apply Hn; auto|intros H; apply Hn; auto].
    + intros [[[Hg Hn] Hd]|Hg].
      * split; [by left|]. intros [[|] _]; done.
      * split; [by right|]. intros [_ Hno]. apply Hno. destruct Hg as (f & Hf & ->). by exists f.
Qed.

(** ** The files of a version *)

(** The files of the version are those of the history, in order, up to the seeks that they have left. *)
Definition holds (hist : list VersionEdit) (v : Version) : Prop :=
  length (files_ v) = Z.to_nat kNumLevels /\
  forall level, level_ok level -> Forall has_key (level_files v level) /\ ordered (level_files v level) /\ forall g, g ∈ map applied_file (level_files v level) <-> live level hist g.

Lemma level_files_lookup v level l : files_ v !! Z.to_nat level = Some l -> level_files v level = l.
Proof. intros E. unfold level_files. by apply nth_lookup_Some. Qed.

Lemma applied_ordered l : Forall has_key l -> ordered l -> Forall has_key (map applied_file l) /\ ordered (map applied_file l).
Proof. intros Hk Ho. split; [by rewrite Forall_map|]. by apply (StronglySorted_fmap applied_file before). Qed.

(** A history determines the files. *)
Lemma holds_unique hist v v' : holds hist v -> holds hist v' -> map (map applied_file) (files_ v) = map (map applied_file) (files_ v').
Proof.
  intros [Hlen H] [Hlen' H']. apply list_eq. intros i. rewrite !lookup_map. destruct (decide (i < Z.to_nat kNumLevels)%nat) as [Hi|Hi].
  - destruct (lookup_lt_is_Some_2 (files_ v) i ltac:(lia)) as [l El]. destruct (lookup_lt_is_Some_2 (files_ v') i ltac:(lia)) as [l' El']. rewrite El, El'. cbn. f_equal.
    destruct (H (Z.of_nat i)) as (Hk & Ho & Hm); [unfold level_ok; lia|]. destruct (H' (Z.of_nat i)) as (Hk' & Ho' & Hm'); [unfold level_ok; lia|].
    rewrite (level_files_lookup v _ l) in * by (by rewrite Nat2Z.id). rewrite (level_files_lookup v' _ l') in * by (by rewrite Nat2Z.id).
    destruct (applied_ordered l Hk Ho), (applied_ordered l' Hk' Ho'). apply ordered_same; [done..|]. intros f. by rewrite Hm, Hm'.
  - rewrite !lookup_ge_None_2 by lia. done.
Qed.

Lemma level_files_SaveTo b level l :
  levels_ b !! Z.to_nat level = Some l -> level_ok level ->
  level_files (SaveTo ucmp b) level = List.filter (kept (deleted_files l)) (merge_files (level_files (base_ b) level) (added_files l)).
Proof.
  intros E Hl. apply level_files_lookup. unfold SaveTo. cbn [files_]. rewrite list_lookup_imap, E. cbn [fmap option_fmap option_map].
  rewrite SaveTo_level_merge. cbn [app]. rewrite Z2Nat.id by (unfold level_ok in Hl; lia). done.
Qed.

Lemma SaveTo_length b : length (files_ (SaveTo ucmp b)) = length (levels_ b).
Proof. unfold SaveTo. cbn [files_]. apply length_imap. Qed.

(** A merge with distinct numbers keeps the order, and its members are known. *)
Lemma kept_merge deleted base added :
  Forall has_key base -> Forall has_key added -> ordered base -> ordered added -> (forall f, f ∈ added -> number f ∉ map number base) ->
  let l := List.filter (kept deleted) (merge_files base added) in
  Forall has_key l /\ ordered l /\ forall g, g ∈ l <-> (g ∈ base \/ g ∈ added) /\ number g ∉ deleted.
Proof.
  intros Hb Ha Hob Hoa Hn l. assert (forall g, g ∈ l <-> (g ∈ base \/ g ∈ added) /\ number g ∉ deleted) as Hm.
  { intros g. unfold l. rewrite list_elem_of_In, filter_In, <-list_elem_of_In, merge_files_perm, elem_of_app. unfold kept. by rewrite negb_true_iff, bool_decide_eq_false. }
  split_and!; [|by apply ordered_filter, merge_files_ordered|done]. apply Forall_forall. intros g Hg. apply Hm in Hg as [[Hg|Hg] _].
  - by apply (proj1 (Forall_forall _ _) Hb).
  - by apply (proj1 (Forall_forall _ _) Ha).
Qed.

Lemma live_applied level hist g : live level hist g -> applied_file g = g.
Proof. induction hist as [|edit hist IH]; [done|]. intros [[Hg _]|(f & _ & ->)]; [by apply IH|done]. Qed.

Lemma built_SaveTo hist b : built hist b -> holds hist (SaveTo ucmp b).
Proof.
  intros (Hbase & Hlen & Hb). split; [by rewrite SaveTo_length|]. intros level Hl. destruct (Hb level Hl) as (l & E & Hk & Ho & _ & Hm).
  rewrite (level_files_SaveTo b level l E Hl).
  assert (level_files (base_ b) level = []) as ->.
  { unfold level_files. rewrite Hbase. cbn [files_ NewVersion]. apply nth_repeat. }
  destruct (kept_merge (deleted_files l) [] (added_files l)) as (H1 & H2 & H3); [constructor|done|constructor|done|intros f _ Hf; by apply elem_of_nil in Hf|].
  split_and!; [done..|]. intros g. rewrite list_elem_of_fmap. setoid_rewrite H3. split.
  - intros (f & -> & [Hf|Hf] & Hd); [by apply elem_of_nil in Hf|]. assert (live level hist f) as Hlf by (by apply Hm). by rewrite (live_applied level hist f Hlf).
  - intros Hg. exists g. rewrite (live_applied level hist g Hg). split; [done|]. apply Hm in Hg as [Hg Hd]. auto.
Qed.

Lemma live_used level hist g : live level hist g -> (level, number g) ∈ used_by hist.
Proof.
  induction hist as [|edit hist IH]; [done|]. cbn [live]. intros [[Hg _]|Hg].
  - rewrite used_by_cons. apply elem_of_app. right. by apply IH.
  - apply (new_at_used _ edit); [done|left].
Qed.

(** The files of a level behind an edit. *)
Lemma apply_level v edit cp level :
  Forall has_key (level_files v level) -> ordered (level_files v level) -> edit_files_ok edit -> level_ok level ->
  (forall f, (level, f) ∈ new_files_ edit -> number f ∉ map number (level_files v level)) ->
  let files := level_files (SaveTo ucmp (Builder_Apply ucmp edit cp (NewBuilder v)).2) level in
  Forall has_key files /\ ordered files /\
  forall g, g ∈ files <-> (g ∈ level_files v level /\ (level, number g) ∉ deleted_files_ edit) \/ new_at level (new_files_ edit) g.
Proof.
  intros Hk Ho Hok Hl Hnew files. destruct (Builder_Apply_base edit cp (NewBuilder v)) as [Eb El].
  destruct (Builder_Apply_level edit cp (NewBuilder v) level (MkLevelState ∅ []) Hok Hl) as (l & E & Hkl & Hol & Hml & Hdl);
    [by apply lookup_new_levels|constructor|constructor|intros f _ Hf; by apply elem_of_nil in Hf|].
  unfold files. rewrite (level_files_SaveTo _ level l E Hl), Eb. cbn [NewBuilder base_].
  destruct (kept_merge (deleted_files l) (level_files v level) (added_files l)) as (H1 & H2 & H3); [done..| |].
  { intros f Hf. apply Hml in Hf as [Hf|(f1 & Hf & ->)]; [by apply elem_of_nil in Hf|]. exact (Hnew f1 Hf). }
  split_and!; [done..|]. intros g. rewrite H3, Hml, Hdl. cbn [added_files deleted_files]. split.
  - intros [[Hg|[Hg|Hg]] Hn]; [|by apply elem_of_nil in Hg|by right]. left. split; [done|]. intros Hd. apply Hn. split; [by right|].
    intros (f & Hf & En). apply (Hnew f Hf). rewrite En. apply list_elem_of_fmap. by exists g.
  - intros [[Hg Hd]|Hg].
    + split; [by left|]. intros [[Hn|Hn] _]; [by apply elem_of_empty in Hn|done].
    + split; [by right; right|]. intros [_ Hno]. apply Hno. destruct Hg as (f & Hf & ->). by exists f.
Qed.

Lemma fresh_numbers hist v edit level :
  holds hist v -> fresh_edit (used_by hist) edit -> level_ok level -> forall f, (level, f) ∈ new_files_ edit -> number f ∉ map number (level_files v level).
Proof.
  intros [_ H] [_ Hfresh] Hl f Hf Hin. apply list_elem_of_fmap in Hin as (g & Eg & Hg). apply (Hfresh _ Hf). unfold file_key. cbn [fst snd]. rewrite Eg.
  apply (live_used level hist (applied_file g)). apply (H level Hl). by apply list_elem_of_fmap_2.
Qed.

(** Applying an edit to a version is applying it to the history. *)
Lemma holds_apply hist v edit cp :
  holds hist v -> fresh_edit (used_by hist) edit -> holds (edit :: hist) (SaveTo ucmp (Builder_Apply ucmp edit cp (NewBuilder v)).2).
Proof.
  intros Hh Hf. pose proof Hh as [Hlen H]. destruct (Builder_Apply_base edit cp (NewBuilder v)) as [Eb El]. split; [by rewrite SaveTo_length, El|]. intros level Hl.
  destruct (H level Hl) as (Hk & Ho & Hm). destruct (apply_level v edit cp level Hk Ho (proj1 Hf) Hl (fresh_numbers hist v edit level Hh Hf Hl)) as (H1 & H2 & H3).
  split_and!; [done..|]. intros g. cbn [live]. rewrite <-Hm, !list_elem_of_fmap. setoid_rewrite H3. split.
  - intros (f & -> & [[Hg Hd]|(f0 & Hf0 & ->)]); [left; split; [by exists f|done]|right; by exists f0].
  - intros [[(f & -> & Hg) Hd]|(f & Hf0 & ->)]; [exists f; auto|]. exists (applied_file f). split; [done|]. right. by exists f.
Qed.
End builder_proofs.
