(* ===== verification/Score.v ===== *)
(** Score: the double-precision score that [VersionSet::Finalize] of db/version_set.cc gives to level 0.  The quotient by the
    trigger is exact, so that as many files as the trigger always ask for a compaction. *)

From Stdlib Require Import Floats.SpecFloat.
From S2P Require Import Prelude Coding Comparator DbFormat VersionEdit Version VersionSet.

Lemma digits_log2 p : Z.pos (digits2_pos p) = Z.log2 (Z.pos p) + 1.
Proof. induction p as [p IH|p IH|]; cbn [digits2_pos]; [|(*xO*)|done]; rewrite Pos2Z.inj_succ, IH; [rewrite Pos2Z.inj_xI, Z.log2_succ_double by lia|rewrite Pos2Z.inj_xO, Z.log2_double by lia]; lia. Qed.

Lemma digits_shift d m : digits2_pos (Pos.iter xO m d) = (digits2_pos m + d)%positive.
Proof. induction d as [|d IH] using Pos.peano_ind; [cbn; lia|]. rewrite Pos.iter_succ. cbn [digits2_pos]. rewrite IH. lia. Qed.

(** A number of 53 digits is a double, and so is one of 54 whose last digit is zero. *)
Lemma shr_exact m e : digits2_pos m = 53%positive -> -1074 <= e -> shr_fexp 53 1024 (Z.pos m) e loc_Exact = ({| shr_m := Z.pos m; shr_r := false; shr_s := false |}, e).
Proof. intros Hd He. unfold shr_fexp, fexp, emin. cbn [Zdigits2 shr_record_of_loc]. rewrite Hd. by replace (Z.max (53 + e - 53) (3 - 1024 - 53) - e) with 0 by lia. Qed.

Lemma round_exact m e : digits2_pos m = 53%positive -> -1074 <= e <= 971 -> binary_round_aux 53 1024 false (Z.pos m) e loc_Exact = S754_finite false m e.
Proof.
  intros Hd He. unfold binary_round_aux. rewrite (shr_exact m e) by (done || lia). cbn [shr_m loc_of_shr_record round_nearest_even]. rewrite (shr_exact m e) by (done || lia). cbn [shr_m]. by rewrite (proj2 (Z.leb_le _ _)) by lia.
Qed.

Lemma round_even m e : digits2_pos m = 53%positive -> -1074 <= e < 971 -> binary_round_aux 53 1024 false (Z.pos m~0) e loc_Exact = S754_finite false m (e + 1).
Proof.
  intros Hd He. rewrite <-(round_exact m (e + 1) Hd ltac:(lia)). unfold binary_round_aux. assert (shr_fexp 53 1024 (Z.pos m~0) e loc_Exact = shr_fexp 53 1024 (Z.pos m) (e + 1) loc_Exact) as ->; [|done].
  rewrite (shr_exact m (e + 1)) by (done || lia). unfold shr_fexp, fexp, emin. cbn [Zdigits2 digits2_pos shr_record_of_loc]. rewrite Hd. by replace (Z.max (Z.pos (Pos.succ 53) + e - 53) (3 - 1024 - 53) - e) with 1 by lia.
Qed.

Lemma double_of_pos n : 1 <= n < 2 ^ 53 -> exists m, double_of n = S754_finite false m (Z.log2 n - 52) /\ digits2_pos m = 53%positive.
Proof.
  intros Hn. destruct n as [|p|]; try lia. unfold double_of, binary_normalize, binary_round. pose proof (digits_log2 p) as Hd. assert (Z.log2 (Z.pos p) < 53) as Hl by (apply Z.log2_lt_pow2; lia). pose proof (Z.log2_nonneg (Z.pos p)).
  unfold fexp, emin. replace (Z.max (Z.pos (digits2_pos p) + 0 - 53) (3 - 1024 - 53)) with (Z.log2 (Z.pos p) - 52) by lia. unfold shl_align. rewrite Z.sub_0_r. destruct (Z.log2 (Z.pos p) - 52) as [|d|d] eqn:E.
  - exists p. assert (digits2_pos p = 53%positive) as Hp by lia. split; [|done]. by apply round_exact.
  - lia.
  - exists (Pos.iter xO p d). assert (digits2_pos (Pos.iter xO p d) = 53%positive) as Hp by (rewrite digits_shift; lia). split; [|done]. apply round_exact; [done|lia].
Qed.

Lemma score_exact n : 1 <= n < 2 ^ 53 -> exists m, double_div (double_of n) (double_of kL0_CompactionTrigger) = S754_finite false m (Z.log2 n - 54) /\ digits2_pos m = 53%positive.
Proof.
  intros Hn. destruct (double_of_pos n Hn) as (m & -> & Hd). exists m. split; [|done]. assert (double_of kL0_CompactionTrigger = S754_finite false 4503599627370496 (-50)) as -> by reflexivity.
  pose proof (Z.log2_nonneg n). assert (Z.log2 n < 53) as Hl by (apply Z.log2_lt_pow2; lia). unfold double_div, SFdiv, SFdiv_core_binary. cbn [Zdigits2]. rewrite Hd. change (digits2_pos 4503599627370496) with 53%positive. unfold fexp, emin.
  replace (Z.min (Z.max (53 + (Z.log2 n - 52) - (53 + -50) - 53) (3 - 1024 - 53)) (Z.log2 n - 52 - -50)) with (Z.log2 n - 55) by lia. replace (Z.log2 n - 52 - -50 - (Z.log2 n - 55)) with 53 by lia.
  rewrite Z.shiftl_mul_pow2 by lia. replace (Z.pos m * 2 ^ 53) with (Z.pos m~0 * Z.pos 4503599627370496) by (change (2 ^ 53) with (2 * 4503599627370496); lia).
  assert (Z.div_eucl (Z.pos m~0 * Z.pos 4503599627370496) (Z.pos 4503599627370496) = (Z.pos m~0, 0)) as ->.
  { pose proof (Z.div_mul (Z.pos m~0) (Z.pos 4503599627370496) ltac:(lia)) as H1. pose proof (Z_mod_mult (Z.pos m~0) (Z.pos 4503599627370496)) as H2. unfold Z.div, Z.modulo in *. destruct (Z.div_eucl _ _). congruence. }
  change (new_location 4503599627370496 0) with loc_Exact. cbn [xorb]. rewrite round_even by (done || lia). f_equal. lia.
Qed.

Lemma SFleb_pos m e m' e' : SFleb (S754_finite false m e) (S754_finite false m' e') = true <-> e < e' \/ (e = e' /\ Z.pos m <= Z.pos m').
Proof.
  unfold SFleb, SFcompare. destruct (Z.compare_spec e e') as [E|E|E]; [|by split; [left|]|split; [done|lia]]. change (Pos.compare_cont Eq m m') with (Pos.compare m m'). destruct (Pos.compare_spec m m'); split; (done || lia).
Qed.

Lemma SFltb_pos m e m' e' : SFltb (S754_finite false m e) (S754_finite false m' e') = true <-> e < e' \/ (e = e' /\ Z.pos m < Z.pos m').
Proof.
  unfold SFltb, SFcompare. destruct (Z.compare_spec e e') as [E|E|E]; [|by split; [left|]|split; [done|lia]]. change (Pos.compare_cont Eq m m') with (Pos.compare m m'). destruct (Pos.compare_spec m m'); split; (done || lia).
Qed.

(** As many files as the trigger. *)
Lemma score_level0 v : kL0_CompactionTrigger <= slen (level_files v 0) < 2 ^ 31 -> SFleb (double_of 1) (level_score v 0) = true.
Proof.
  intros Hn. unfold level_score. cbn [Z.eqb]. unfold kL0_CompactionTrigger in Hn. destruct (score_exact (slen (level_files v 0)) ltac:(lia)) as (m & -> & Hd). assert (2 <= Z.log2 (slen (level_files v 0))) as Hl by (apply Z.log2_le_pow2; lia).
  change (double_of 1) with (S754_finite false 4503599627370496 (-52)). apply SFleb_pos. pose proof (digits_log2 m) as H. rewrite Hd in H. pose proof (Z.log2_spec (Z.pos m) ltac:(lia)) as [H1 _]. replace (Z.log2 (Z.pos m)) with 52 in H1 by lia. lia.
Qed.

Lemma score_above m e x y : let one := S754_finite false m e in SFleb one x = true -> SFltb x y = true -> SFleb one y = true.
Proof.
  cbv zeta. destruct x as [|[]| |[] mx ex]; try done; [by destruct y as [|[]| |[]]|]. destruct y as [|[]| |[] my ey]; try done. rewrite !SFleb_pos, SFltb_pos. lia.
Qed.

Lemma score_positive m e m' e' x : SFleb (S754_finite false m e) x = true -> SFltb (S754_finite true m' e') x = true.
Proof. by destruct x as [|[]| |[]]. Qed.

(** The best score is no less than the one of level 0. *)
Lemma Finalize_scored v : kL0_CompactionTrigger <= slen (level_files v 0) < 2 ^ 31 -> SFleb (double_of 1) (compaction_score_ (Finalize v)) = true.
Proof.
  intros Hn%score_level0. unfold Finalize. set (step := fun '(bl, bs) level => _). change (double_of 1) with (S754_finite false 4503599627370496 (-52)) in *.
  assert (forall levels bl bs, SFleb (S754_finite false 4503599627370496 (-52)) bs = true -> SFleb (S754_finite false 4503599627370496 (-52)) (foldl step (bl, bs) levels).2 = true) as Hfold.
  { induction levels as [|l levels IH]; intros bl bs Hb; [exact Hb|]. cbn [foldl]. unfold step at 2. destruct (SFltb bs (level_score v l)) eqn:E; apply IH; [exact (score_above _ _ _ _ Hb E)|exact Hb]. }
  change (seqZ 0 (kNumLevels - 1)) with (0 :: seqZ 1 5). cbn [foldl]. unfold step at 2. unfold minus_one. rewrite (score_positive _ _ _ _ _ Hn). specialize (Hfold (seqZ 1 5) 0 (level_score v 0) Hn). destruct (foldl step _ _) as [bl bs]. exact Hfold.
Qed.

Lemma files_Finalize v : files_ (Finalize v) = files_ v.
Proof. unfold Finalize. by destruct (foldl _ _ _). Qed.
