(* ===== verification/Compaction.v ===== *)
(** Compaction: the choice of the files of a compaction in db/version_set.cc: [GetRange], [AddBoundaryInputs],
    [SetupOtherInputs], [PickCompaction], [CompactRange] and the class [Compaction].  The files that are left out have no
    older entry of a key of the files that are moved, and the outputs fit between the files that stay. *)

From stdpp Require Import gmap sorting.
From Stdlib Require Import Strings.Byte Strings.String Floats.SpecFloat.
From S2P Require Import Prelude Coding Status Comparator DbFormat Env FileSystem Filename VersionEdit MemTable Iterator TwoLevelIterator Version Log VersionSet Score.

(** * Data *)

(** [input_version_] is the id of the version in the version set with its files, which do not change. *)
Record Compaction := MkCompaction {
  c_level : Z;
  c_max_output_file_size : Z;
  c_input_version : option (Z * Version);
  c_edit : VersionEdit;
  c_inputs0 : list FileMetaData;
  c_inputs1 : list FileMetaData;
  c_grandparents : list FileMetaData;
  c_grandparent_index : nat;
  c_seen_key : bool;
  c_overlapped_bytes : Z;
  c_level_ptrs : list nat;
}.

Section Compaction.
Context (ucmp : Comparator) (max_file_size : Z).

Abbreviation icmp := (InternalKeyComparator ucmp).
Abbreviation icompare a b := (Compare icmp (InternalKey_Encode a) (InternalKey_Encode b)).

Definition NewCompaction (level : Z) : Compaction :=
  MkCompaction level (MaxFileSizeForLevel max_file_size level) None NewVersionEdit [] [] [] 0 false 0 (repeat 0%nat (Z.to_nat kNumLevels)).

Definition set_inputs (inputs0 inputs1 : list FileMetaData) (c : Compaction) : Compaction :=
  let 'MkCompaction l m v e _ _ g i s o p := c in MkCompaction l m v e inputs0 inputs1 g i s o p.
Definition set_grandparents (g : list FileMetaData) (c : Compaction) : Compaction :=
  let 'MkCompaction l m v e i0 i1 _ i s o p := c in MkCompaction l m v e i0 i1 g i s o p.
Definition set_edit (e : VersionEdit) (c : Compaction) : Compaction :=
  let 'MkCompaction l m v _ i0 i1 g i s o p := c in MkCompaction l m v e i0 i1 g i s o p.
Definition set_input_version (v : option (Z * Version)) (c : Compaction) : Compaction :=
  let 'MkCompaction l m _ e i0 i1 g i s o p := c in MkCompaction l m v e i0 i1 g i s o p.
Definition set_level_ptrs (p : list nat) (c : Compaction) : Compaction :=
  let 'MkCompaction l m v e i0 i1 g i s o _ := c in MkCompaction l m v e i0 i1 g i s o p.
Definition set_overlap (i : nat) (s : bool) (o : Z) (c : Compaction) : Compaction :=
  let 'MkCompaction l m v e i0 i1 g _ _ _ p := c in MkCompaction l m v e i0 i1 g i s o p.

(** * The choice of the inputs *)

(** The range of files, which are not empty. *)
Definition GetRange (inputs : list FileMetaData) : option (InternalKey * InternalKey) :=
  match inputs with
  | [] => None
  | f :: rest =>
      Some (foldl (fun '(small, large) f =>
                     (if icompare (smallest f) small <? 0 then smallest f else small,
                      if 0 <? icompare (largest f) large then largest f else large))
              (smallest f, largest f) rest)
  end.

Definition GetRange2 (inputs1 inputs2 : list FileMetaData) : option (InternalKey * InternalKey) := GetRange (inputs1 ++ inputs2).

Definition FindLargestKey (files : list FileMetaData) : option InternalKey :=
  match files with
  | [] => None
  | f :: rest => Some (foldl (fun large f => if 0 <? icompare (largest f) large then largest f else large) (largest f) rest)
  end.

Definition FindSmallestBoundaryFile (files : list FileMetaData) (largest_key : InternalKey) : option FileMetaData :=
  foldl (fun found f =>
           if (0 <? icompare (smallest f) largest_key) && (Compare ucmp (InternalKey_user_key (smallest f)) (InternalKey_user_key largest_key) =? 0) then
             match found with
             | None => Some f
             | Some g => if icompare (smallest f) (smallest g) <? 0 then Some f else found
             end
           else found)
    None files.

(** The loop; every file that is added begins behind the one before, so there are no more of them than files. *)
Fixpoint AddBoundary_loop (fuel : nat) (files : list FileMetaData) (largest_key : InternalKey) (compaction_files : list FileMetaData) :
    option (list FileMetaData) :=
  match fuel with
  | O => None
  | S fuel =>
      match FindSmallestBoundaryFile files largest_key with
      | Some f => AddBoundary_loop fuel files (largest f) (compaction_files ++ [f])
      | None => Some compaction_files
      end
  end.

Definition AddBoundaryInputs (files compaction_files : list FileMetaData) : option (list FileMetaData) :=
  match FindLargestKey compaction_files with
  | None => Some compaction_files
  | Some largest_key => AddBoundary_loop (S (length files)) files largest_key compaction_files
  end.

(** The inputs when they can grow in the level without more files of the next level: both inputs and the largest key. *)
Definition expand_inputs (v : Version) (level : Z) (inputs0 inputs1 : list FileMetaData) (all_start all_limit largest_key : InternalKey) :
    option (list FileMetaData * list FileMetaData * InternalKey * (InternalKey * InternalKey)) :=
  let unchanged := (inputs0, inputs1, largest_key, (all_start, all_limit)) in
  if bool_decide (inputs1 = []) then Some unchanged
  else
    expanded0 ← GetOverlappingInputs ucmp v level (Some all_start) (Some all_limit);
    expanded0 ← AddBoundaryInputs (level_files v level) expanded0;
    if (slen inputs0 <? slen expanded0) &&
       (i64 (TotalFileSize inputs1 + TotalFileSize expanded0) <? ExpandedCompactionByteSizeLimit max_file_size)
    then
      '(new_start, new_limit) ← GetRange expanded0;
      expanded1 ← GetOverlappingInputs ucmp v (level + 1) (Some new_start) (Some new_limit);
      expanded1 ← AddBoundaryInputs (level_files v (level + 1)) expanded1;
      if slen expanded1 =? slen inputs1 then
        range ← GetRange2 expanded0 expanded1;
        Some (expanded0, expanded1, new_limit, range)
      else Some unchanged
    else Some unchanged.

Definition SetupOtherInputs (c : Compaction) (vs : VersionSet) : option (Compaction * VersionSet) :=
  let level := c_level c in
  let v := current vs in
  inputs0 ← AddBoundaryInputs (level_files v level) (c_inputs0 c);
  '(smallest_key, largest_key) ← GetRange inputs0;
  inputs1 ← GetOverlappingInputs ucmp v (level + 1) (Some smallest_key) (Some largest_key);
  inputs1 ← AddBoundaryInputs (level_files v (level + 1)) inputs1;
  '(all_start, all_limit) ← GetRange2 inputs0 inputs1;
  '(inputs0, inputs1, largest_key, (all_start, all_limit)) ← expand_inputs v level inputs0 inputs1 all_start all_limit largest_key;
  grandparents ← (if level + 2 <? kNumLevels then GetOverlappingInputs ucmp v (level + 2) (Some all_start) (Some all_limit)
                  else Some (c_grandparents c));
  let c := set_grandparents grandparents (set_inputs inputs0 inputs1 c) in
  Some (set_edit (SetCompactPointer level largest_key (c_edit c)) c,
        set_compact_pointer (<[Z.to_nat level := InternalKey_Encode largest_key]> (vs_compact_pointer vs)) vs).

(** The compaction with its reference to the current version. *)
Definition begin_compaction (level : Z) (inputs : list FileMetaData) (vs : VersionSet) : Compaction * VersionSet :=
  let id := lv_id (current_live vs) in
  (set_input_version (Some (id, current vs)) (set_inputs inputs [] (NewCompaction level)), Version_Ref id vs).

(** The level and the file that [PickCompaction] starts with. *)
Definition pick_start (vs : VersionSet) : option (option (Z * list FileMetaData)) :=
  let v := current vs in
  if SFleb (double_of 1) (compaction_score_ v) then
    let level := compaction_level_ v in
    let pointer := nth (Z.to_nat level) (vs_compact_pointer vs) [] in
    match List.find (fun f => bool_decide (pointer = []) || (0 <? Compare icmp (InternalKey_Encode (largest f)) pointer)) (level_files v level) with
    | Some f => Some (Some (level, [f]))
    | None => f ← head (level_files v level); Some (Some (level, [f]))
    end
  else
    match file_to_compact_ v with
    | Some f => Some (Some (file_to_compact_level_ v, [f]))
    | None => Some None
    end.

(** No compaction, or one with the version set. *)
Definition PickCompaction (vs : VersionSet) : option (option Compaction * VersionSet) :=
  start ← pick_start vs;
  match start with
  | None => Some (None, vs)
  | Some (level, inputs) =>
      let v := current vs in
      inputs ← (if level =? 0 then
                  '(smallest_key, largest_key) ← GetRange inputs;
                  GetOverlappingInputs ucmp v 0 (Some smallest_key) (Some largest_key)
                else Some inputs);
      let '(c, vs) := begin_compaction level inputs vs in
      '(c, vs) ← SetupOtherInputs c vs;
      Some (Some c, vs)
  end.

(** The files up to the one with which their sizes reach the limit. *)
Fixpoint limit_inputs (limit total : Z) (inputs : list FileMetaData) : list FileMetaData :=
  match inputs with
  | [] => []
  | f :: inputs => let total := u64 (total + file_size f) in f :: (if limit <=? total then [] else limit_inputs limit total inputs)
  end.

Definition CompactRange (level : Z) (begin end_ : option InternalKey) (vs : VersionSet) : option (option Compaction * VersionSet) :=
  inputs ← GetOverlappingInputs ucmp (current vs) level begin end_;
  if bool_decide (inputs = []) then Some (None, vs)
  else
    let inputs := if 0 <? level then limit_inputs (MaxFileSizeForLevel max_file_size level) 0 inputs else inputs in
    let '(c, vs) := begin_compaction level inputs vs in
    '(c, vs) ← SetupOtherInputs c vs;
    Some (Some c, vs).

(** * The compaction *)

Definition IsTrivialMove (c : Compaction) : bool :=
  (slen (c_inputs0 c) =? 1) && (slen (c_inputs1 c) =? 0) && (TotalFileSize (c_grandparents c) <=? MaxGrandParentOverlapBytes max_file_size).

Definition AddInputDeletions (c : Compaction) (edit : VersionEdit) : VersionEdit :=
  let remove level edit f := RemoveFile level (number f) edit in
  foldl (remove (c_level c + 1)) (foldl (remove (c_level c)) edit (c_inputs0 c)) (c_inputs1 c).

(** The files of one level from the pointer on: whether one has the key in its range, and the pointer. *)
Fixpoint base_scan (user_key : slice) (files : list FileMetaData) (ptr : nat) : bool * nat :=
  match files with
  | [] => (false, ptr)
  | f :: files =>
      if Compare ucmp user_key (InternalKey_user_key (largest f)) <=? 0 then (0 <=? Compare ucmp user_key (InternalKey_user_key (smallest f)), ptr)
      else base_scan user_key files (S ptr)
  end.

Fixpoint base_levels (v : Version) (user_key : slice) (levels : list Z) (ptrs : list nat) : bool * list nat :=
  match levels with
  | [] => (true, ptrs)
  | lvl :: levels =>
      let ptr := nth (Z.to_nat lvl) ptrs 0%nat in
      let '(found, ptr) := base_scan user_key (drop ptr (level_files v lvl)) ptr in
      let ptrs := <[Z.to_nat lvl := ptr]> ptrs in
      if found : bool then (false, ptrs) else base_levels v user_key levels ptrs
  end.

Definition IsBaseLevelForKey (user_key : slice) (c : Compaction) : option (bool * Compaction) :=
  '(_, v) ← c_input_version c;
  let '(base, ptrs) := base_levels v user_key (seqZ (c_level c + 2) (kNumLevels - (c_level c + 2))) (c_level_ptrs c) in
  Some (base, set_level_ptrs ptrs c).

(** The loop of [ShouldStopBefore] over the grandparents from the index on. *)
Fixpoint grandparent_scan (internal_key : slice) (files : list FileMetaData) (seen_key : bool) (index : nat) (overlapped : Z) : nat * Z :=
  match files with
  | [] => (index, overlapped)
  | f :: files =>
      if 0 <? Compare icmp internal_key (InternalKey_Encode (largest f)) then
        grandparent_scan internal_key files seen_key (S index) (if seen_key then i64 (overlapped + file_size f) else overlapped)
      else (index, overlapped)
  end.

Definition ShouldStopBefore (internal_key : slice) (c : Compaction) : bool * Compaction :=
  let '(index, overlapped) :=
    grandparent_scan internal_key (drop (c_grandparent_index c) (c_grandparents c)) (c_seen_key c) (c_grandparent_index c) (c_overlapped_bytes c) in
  if MaxGrandParentOverlapBytes max_file_size <? overlapped then (true, set_overlap index true 0 c)
  else (false, set_overlap index true overlapped c).

Definition ReleaseInputs (c : Compaction) (vs : VersionSet) : Compaction * VersionSet :=
  match c_input_version c with
  | Some (id, _) => (set_input_version None c, Version_Unref id vs)
  | None => (c, vs)
  end.

(** ** Sizes *)

Definition MaxNextLevelOverlappingBytes (v : Version) : option Z :=
  foldl (fun result '(level, f) =>
           result ← result;
           overlaps ← GetOverlappingInputs ucmp v (level + 1) (Some (smallest f)) (Some (largest f));
           let sum := TotalFileSize overlaps in
           Some (if result <? sum then sum else result))
    (Some 0) (concat (map (fun level => map (pair level) (level_files v level)) (seqZ 1 (kNumLevels - 2)))).
End Compaction.

(** * Lemmas *)

(** A list in order is cut into what is before a range, what is in it, and what is behind it. *)
Lemma split_range {X} (p q : X -> bool) (l : list X) :
  (forall i j a b, (i < j)%nat -> l !! i = Some a -> l !! j = Some b -> p b = true -> p a = true) ->
  (forall i j a b, (i < j)%nat -> l !! i = Some a -> l !! j = Some b -> q a = true -> q b = true) ->
  exists pre post, l = pre ++ List.filter (fun x => negb (p x || q x)) l ++ post /\ Forall (fun x => p x = true) pre /\ Forall (fun x => q x = true) post.
Proof.
  induction l as [|x l IH]; intros Hp Hq; [by exists [], []|].
  destruct IH as (pre & post & E & H1 & H2); [intros i j a b Hij; apply (Hp (S i) (S j)); lia|intros i j a b Hij; apply (Hq (S i) (S j)); lia|].
  cbn [List.filter]. destruct (p x) eqn:Ep; cbn [orb negb].
  - exists (x :: pre), post. split; [cbn; by f_equal|]. split; [by constructor|done].
  - assert (forall y, y ∈ l -> p y = false) as Hnp by (intros y [j Hj]%list_elem_of_lookup; destruct (p y) eqn:E'; [|done]; by rewrite (Hp 0%nat (S j) x y ltac:(lia) eq_refl Hj E') in Ep).
    destruct (q x) eqn:Eq; cbn [negb].
    + exists [], (x :: l). assert (Forall (fun x => q x = true) l) as Hall by (apply Forall_forall; intros y [j Hj]%list_elem_of_lookup; by apply (Hq 0%nat (S j) x y ltac:(lia) eq_refl Hj)).
      split_and!; [|done|by constructor]. assert (List.filter (fun x => negb (p x || q x)) l = []) as ->; [|done]. clear -Hall.
      induction Hall as [|y l Hy Hall IH]; [done|]. cbn [List.filter]. by rewrite Hy, orb_true_r.
    + assert (pre = []) as ->. { destruct pre as [|y pre]; [done|]. apply Forall_cons in H1 as [H1 _]. rewrite Hnp in H1; [done|]. rewrite E. apply list_elem_of_here. }
      exists [], post. split_and!; [cbn in E |- *; by f_equal|done|done].
Qed.

Lemma filter_sublist {X} (p : X -> bool) (l : list X) : List.filter p l `sublist_of` l.
Proof. induction l as [|x l IH]; [constructor|]. cbn [List.filter]. destruct (p x); by constructor. Qed.

Lemma sublist_sorted {X} (R : X -> X -> Prop) (l k : list X) : l `sublist_of` k -> StronglySorted R k -> StronglySorted R l.
Proof.
  induction 1 as [|x l k Hs IH|x l k Hs IH]; intros Hk; [done| |]; apply StronglySorted_inv in Hk as [Hk Hall]; [|by apply IH].
  constructor; [by apply IH|]. apply Forall_forall. intros y Hy. apply (proj1 (Forall_forall _ _) Hall). by eapply elem_of_sublist.
Qed.

Section inputs.
Context (ucmp : Comparator) `{!ComparatorLaws any_key ucmp} `{!SeparatorSame any_key ucmp} (max_file_size : Z).

Abbreviation icmp := (InternalKeyComparator ucmp).
Abbreviation user k := (InternalKey_user_key k).
Abbreviation ult a b := (Compare ucmp (user a) (user b) < 0).
Abbreviation ule a b := (Compare ucmp (user a) (user b) <= 0).
Abbreviation ilt a b := (Compare icmp (rep_ a) (rep_ b) < 0).
Abbreviation ile a b := (Compare icmp (rep_ a) (rep_ b) <= 0).

(** ** Orders *)

Abbreviation ik k := (is_internal_key (rep_ k)).

Lemma small_internal f : file_ok ucmp f -> ik (smallest f).
Proof. intros (H & _ & _). by apply valid_internal. Qed.

Lemma large_internal f : file_ok ucmp f -> ik (largest f).
Proof. intros (_ & H & _). by apply valid_internal. Qed.

Lemma ilt_ile_trans a b c : ik a -> ik b -> ik c -> ilt a b -> ile b c -> ilt a c.
Proof. intros Ha Hb Hc. by apply (compare_lt_le (key := is_internal_key)). Qed.

Lemma ile_ilt_trans a b c : ik a -> ik b -> ik c -> ile a b -> ilt b c -> ilt a c.
Proof. intros Ha Hb Hc. by apply (compare_le_lt (key := is_internal_key)). Qed.

Lemma ile_trans a b c : ik a -> ik b -> ik c -> ile a b -> ile b c -> ile a c.
Proof. intros Ha Hb Hc. by apply (compare_le_trans (key := is_internal_key)). Qed.

Lemma ult_ilt a b : ult a b -> ilt a b.
Proof. intros H. cbn [InternalKeyComparator Compare]. apply icmp_lt. by left. Qed.

Lemma ile_ule a b : ile a b -> ule a b.
Proof. intros H. by apply icmp_user. Qed.

Lemma ule_trans a b c : ule a b -> ule b c -> ule a c.
Proof. by apply (compare_le_trans (key := any_key)). Qed.

Lemma ult_ule_trans a b c : ult a b -> ule b c -> ult a c.
Proof. by apply (compare_lt_le (key := any_key)). Qed.

Lemma ule_ult_trans a b c : ule a b -> ult b c -> ult a c.
Proof. by apply (compare_le_lt (key := any_key)). Qed.

Lemma file_ule f : file_ok ucmp f -> ule (smallest f) (largest f).
Proof. intros H. by apply file_user. Qed.

(** ** Ranges *)

Definition range_step := fun '(small, large) (f : FileMetaData) =>
  (if Compare icmp (InternalKey_Encode (smallest f)) (InternalKey_Encode small) <? 0 then smallest f else small,
   if 0 <? Compare icmp (InternalKey_Encode (largest f)) (InternalKey_Encode large) then largest f else large).

(** The range of files: its ends are ends of files, and every file is in it. *)
Definition range_of (ins : list FileMetaData) (range : InternalKey * InternalKey) : Prop :=
  ik range.1 /\ ik range.2 /\ (exists f, f ∈ ins /\ range.1 = smallest f) /\ (exists f, f ∈ ins /\ range.2 = largest f) /\
  forall f, f ∈ ins -> ile range.1 (smallest f) /\ ile (largest f) range.2.

Lemma range_of_one f : file_ok ucmp f -> range_of [f] (smallest f, largest f).
Proof.
  intros Hf. pose proof (small_internal f Hf). pose proof (large_internal f Hf). split_and!; [done|done|..].
  - exists f. split; [apply list_elem_of_here|done].
  - exists f. split; [apply list_elem_of_here|done].
  - intros g ->%list_elem_of_singleton. cbn [fst snd]. rewrite !(compare_refl (key := is_internal_key)) by done. lia.
Qed.

Lemma range_of_step ins range f : Forall (file_ok ucmp) (ins ++ [f]) -> range_of ins range -> range_of (ins ++ [f]) (range_step range f).
Proof.
  destruct range as [sk lk]. intros [Hd [Hf _]%Forall_cons]%Forall_app (Hsk & Hlk & Hes & Hel & Hall). cbn [fst snd] in *.
  pose proof (small_internal f Hf) as Hfs. pose proof (large_internal f Hf) as Hfl. unfold range_step, range_of. cbn [fst snd]. unfold InternalKey_Encode. split_and!.
  - by case_match.
  - by case_match.
  - case_match; [exists f; split; [apply elem_of_app; right; apply list_elem_of_here|done]|]. destruct Hes as (g & Hg & ->). exists g. split; [apply elem_of_app; by left|done].
  - case_match; [exists f; split; [apply elem_of_app; right; apply list_elem_of_here|done]|]. destruct Hel as (g & Hg & ->). exists g. split; [apply elem_of_app; by left|done].
  - intros g Hg. destruct (Z.ltb_spec (Compare icmp (rep_ (smallest f)) (rep_ sk)) 0) as [Hlt|Hge], (Z.ltb_spec 0 (Compare icmp (rep_ (largest f)) (rep_ lk))) as [Hgt|Hle];
      (apply elem_of_app in Hg as [Hg| ->%list_elem_of_singleton]; [destruct (Hall g Hg) as [H1 H2]; pose proof (proj1 (Forall_forall _ _) Hd g Hg) as Hgok;
        pose proof (small_internal g Hgok); pose proof (large_internal g Hgok)|]); split; try done;
      try (rewrite (compare_refl (key := is_internal_key)) by done; lia);
      try (apply (compare_nlt (key := is_internal_key)); [done|done|lia]);
      try (by apply (ile_trans _ sk); [..|lia|]); apply (compare_gt (key := is_internal_key)) in Hgt; try done; by apply (ile_trans _ lk); [..|lia].
Qed.

Lemma range_of_fold ins done range :
  Forall (file_ok ucmp) (done ++ ins) -> range_of done range -> range_of (done ++ ins) (foldl range_step range ins).
Proof.
  revert done range. induction ins as [|f ins IH]; intros done range Hok Hr; [by rewrite app_nil_r|]. cbn [foldl].
  replace (done ++ f :: ins) with ((done ++ [f]) ++ ins) in * by (by rewrite <-app_assoc). apply IH; [done|]. apply range_of_step; [|done].
  by apply Forall_app in Hok as [Hok _].
Qed.

Lemma GetRange_spec ins : Forall (file_ok ucmp) ins -> ins <> [] -> exists range, GetRange ucmp ins = Some range /\ range_of ins range.
Proof.
  intros Hok Hne. destruct ins as [|f ins]; [done|]. eexists. split; [reflexivity|]. apply (range_of_fold ins [f]); [done|].
  apply range_of_one. by apply Forall_cons in Hok as [Hf _].
Qed.

Lemma FindLargestKey_spec ins : FindLargestKey ucmp ins = snd <$> GetRange ucmp ins.
Proof.
  destruct ins as [|f ins]; [done|]. cbn [FindLargestKey GetRange fmap option_fmap option_map]. f_equal. generalize (smallest f) (largest f).
  induction ins as [|g ins IH]; intros sk lk; [done|]. apply IH.
Qed.

(** ** The files at the boundary *)

(** A file begins behind a key with the same user key. *)
Definition boundary (k : InternalKey) (f : FileMetaData) : bool :=
  (0 <? Compare icmp (rep_ (smallest f)) (rep_ k)) && (Compare ucmp (user (smallest f)) (user k) =? 0).

Lemma FindSmallestBoundaryFile_none files k :
  Forall (fun f => boundary k f = false) files -> FindSmallestBoundaryFile ucmp files k = None.
Proof.
  unfold FindSmallestBoundaryFile. induction 1 as [|f files Hf Hall IH]; [done|]. cbn [foldl]. unfold boundary, InternalKey_Encode in *. by rewrite Hf.
Qed.

Lemma boundary_skip files k f post :
  Forall (fun f => boundary k f = false) files -> boundary k f = true -> Forall (fun g => ~ ilt (smallest g) (smallest f)) post ->
  FindSmallestBoundaryFile ucmp (files ++ f :: post) k = Some f.
Proof.
  unfold FindSmallestBoundaryFile. intros Hall Hf Hpost. induction Hall as [|g files Hg Hall IH]; cbn [foldl app]; unfold boundary, InternalKey_Encode in *; [|by rewrite Hg].
  rewrite Hf. clear Hf. induction Hpost as [|g post Hg Hpost IH]; [done|]. cbn [foldl]. case_match; [|apply IH].
  destruct (Z.ltb_spec (Compare icmp (rep_ (smallest g)) (rep_ (smallest f))) 0); [done|apply IH].
Qed.

(** A file is in front of another, and its keys may end with the user key the other begins with. *)
Abbreviation before f g := (ilt (largest f) (smallest g)).

Lemma sorted_before files1 files2 f g : sorted_files ucmp (files1 ++ files2) -> f ∈ files1 -> g ∈ files2 -> before f g.
Proof. intros Hs Hf Hg. exact (StronglySorted_app_1_elem_of _ files1 files2 f g Hs Hf Hg). Qed.

Lemma before_ule f g : file_ok ucmp g -> before f g -> ule (largest f) (largest g).
Proof. intros Hg H. eapply ule_trans; [by apply ile_ule, Z.lt_le_incl|by apply file_ule]. Qed.

Lemma boundary_behind k h post :
  Forall (file_ok ucmp) (h :: post) -> sorted_files ucmp (h :: post) -> ik k -> ilt k (smallest h) -> boundary k h = false ->
  forall g, g ∈ h :: post -> ult k (smallest g).
Proof.
  intros [Hh Hok]%Forall_cons [Hs Hall]%StronglySorted_inv Hik Hk Hb g Hg.
  assert (ult k (smallest h)) as Hlt.
  { unfold boundary in Hb. pose proof (ile_ule _ _ (Z.lt_le_incl _ _ Hk)) as Hu. apply andb_false_iff in Hb as [Hb|Hb].
    - apply Z.ltb_ge in Hb. apply (compare_gt (key := is_internal_key)) in Hk; [lia|by apply small_internal|done].
    - apply Z.eqb_neq in Hb. destruct (Z.eq_dec (Compare ucmp (user k) (user (smallest h))) 0) as [E|]; [|lia].
      exfalso. apply Hb. apply (compare_eq (key := any_key)) in E; [|done|done]. rewrite E. by apply (compare_refl (key := any_key)). }
  apply elem_of_cons in Hg as [->|Hg]; [done|]. eapply ult_ule_trans; [exact Hlt|]. eapply ule_trans; [by apply file_ule|].
  apply ile_ule, Z.lt_le_incl. by apply (proj1 (Forall_forall _ _) Hall).
Qed.

Lemma boundary_false_before k f : ik k -> file_ok ucmp f -> ile (largest f) k -> boundary k f = false.
Proof.
  intros Hk Hf Hle. unfold boundary. apply andb_false_iff. left. apply Z.ltb_ge.
  apply (ile_trans _ (largest f)); [by apply small_internal|by apply large_internal|done| |done]. by destruct Hf as (_ & _ & Hf).
Qed.

Lemma boundary_false_behind k f : ult k (smallest f) -> boundary k f = false.
Proof.
  intros Hlt. unfold boundary. apply andb_false_iff. right. apply Z.eqb_neq. rewrite (compare_antisym (key := any_key)) in Hlt by done. lia.
Qed.

(** The files that follow are added up to one that begins with another user key. *)
Lemma AddBoundary_loop_segment fuel pre ins post k :
  Forall (file_ok ucmp) (pre ++ ins ++ post) -> sorted_files ucmp (pre ++ ins ++ post) -> ik k -> (forall f, f ∈ pre ++ ins -> ile (largest f) k) ->
  (forall g, g ∈ post -> ilt k (smallest g)) -> (length post < fuel)%nat ->
  exists more post', post = more ++ post' /\ AddBoundary_loop ucmp fuel (pre ++ ins ++ post) k ins = Some (ins ++ more) /\
    forall f g, f ∈ ins ++ more -> g ∈ post' -> ult (largest f) (smallest g).
Proof.
  revert ins k fuel. induction post as [|h post IH]; intros ins k fuel Hok Hs Hk Hpre Hpost Hfuel; (destruct fuel as [|fuel]; [simpl in Hfuel; lia|]);
    (assert (Forall (fun f => boundary k f = false) (pre ++ ins)) as Hnb by
      (apply Forall_forall; intros f Hf; apply boundary_false_before; [done| |by apply Hpre]; rewrite app_assoc in Hok; apply Forall_app in Hok as [Hok _]; by apply (proj1 (Forall_forall _ _) Hok)));
    cbn [AddBoundary_loop].
  - exists [], []. rewrite !app_nil_r, FindSmallestBoundaryFile_none by done. split_and!; [done|done|by intros f g _ ?%elem_of_nil].
  - assert (Forall (file_ok ucmp) (h :: post) /\ sorted_files ucmp (h :: post)) as [Hok2 Hs2].
    { rewrite app_assoc in Hok, Hs. apply Forall_app in Hok as [_ Hok]. apply StronglySorted_app_1_r in Hs. done. }
    pose proof (Hpost h (list_elem_of_here _ _)) as Hkh. pose proof Hok2 as [Hh Hokp]%Forall_cons. destruct (boundary k h) eqn:Eb.
    + rewrite app_assoc, (boundary_skip (pre ++ ins) k h post); [|done|done|].
      * rewrite <-app_assoc. replace (pre ++ ins ++ h :: post) with (pre ++ (ins ++ [h]) ++ post) in * by (by rewrite <-!app_assoc).
        destruct (IH (ins ++ [h]) (largest h) fuel) as (more & post' & -> & E & Hc); [done|done|by apply large_internal| | |simpl in Hfuel; lia|].
        -- intros f. rewrite app_assoc. intros [Hf| ->%list_elem_of_singleton]%elem_of_app; [|rewrite (compare_refl (key := is_internal_key)) by (by apply large_internal); lia].
           assert (file_ok ucmp f) as Hfok. { apply (proj1 (Forall_forall _ _) Hok). rewrite <-app_assoc, app_assoc. apply elem_of_app. by left. }
           apply Z.lt_le_incl, (ile_ilt_trans _ k); [by apply large_internal|done|by apply large_internal|by apply Hpre|].
           apply (ilt_ile_trans _ (smallest h)); [done|by apply small_internal|by apply large_internal|done|by destruct Hh as (_ & _ & Hh)].
        -- intros g Hg. apply StronglySorted_inv in Hs2 as [_ Hs2]. by apply (proj1 (Forall_forall _ _) Hs2).
        -- exists (h :: more), post'. rewrite E. rewrite <-app_assoc in Hc |- *. done.
      * apply Forall_forall. intros g Hg. apply StronglySorted_inv in Hs2 as [_ Hs2]. pose proof (proj1 (Forall_forall _ _) Hs2 g Hg) as Hhg. pose proof (proj1 (Forall_forall _ _) Hokp g Hg) as Hgok.
        apply (compare_nlt (key := is_internal_key)); [by apply small_internal|by apply small_internal|]. apply Z.lt_le_incl.
        apply (ile_ilt_trans _ (largest h)); [by apply small_internal|by apply large_internal|by apply small_internal|by destruct Hh as (_ & _ & Hh)|done].
    + exists [], (h :: post). pose proof (boundary_behind k h post Hok2 Hs2 Hk Hkh Eb) as Hult. rewrite app_assoc, FindSmallestBoundaryFile_none.
      * split_and!; [done|by rewrite app_nil_r|]. rewrite app_nil_r. intros f g Hf Hg. eapply ule_ult_trans; [|by apply Hult]. apply ile_ule, Hpre. apply elem_of_app. by right.
      * apply Forall_app. split; [done|]. apply Forall_forall. intros g Hg. by apply boundary_false_behind, Hult.
Qed.

Lemma AddBoundaryInputs_segment pre ins post :
  Forall (file_ok ucmp) (pre ++ ins ++ post) -> sorted_files ucmp (pre ++ ins ++ post) -> ins <> [] ->
  exists more post', post = more ++ post' /\ AddBoundaryInputs ucmp (pre ++ ins ++ post) ins = Some (ins ++ more) /\
    forall f g, f ∈ ins ++ more -> g ∈ post' -> ult (largest f) (smallest g).
Proof.
  intros Hok Hs Hne. assert (Forall (file_ok ucmp) ins) as Hoki by (apply Forall_app in Hok as [_ Hok]; by apply Forall_app in Hok as [Hok _]).
  destruct (GetRange_spec ins Hoki Hne) as ([sk lk] & E & _ & Hlk & _ & (fl & Hfl & El) & Hall). cbn [fst snd] in *. unfold AddBoundaryInputs. rewrite FindLargestKey_spec, E. cbn [fmap option_fmap option_map snd].
  apply AddBoundary_loop_segment; [done|done|done| | |rewrite !length_app; lia].
  - intros f [Hf|Hf]%elem_of_app; [|by apply Hall]. subst lk. assert (file_ok ucmp f) as Hfok by (apply (proj1 (Forall_forall _ _) Hok); apply elem_of_app; by left).
    pose proof (proj1 (Forall_forall _ _) Hoki fl Hfl) as Hflok. apply Z.lt_le_incl, (ilt_ile_trans _ (smallest fl)); [by apply large_internal|by apply small_internal|done| |by destruct Hflok as (_ & _ & ?)].
    eapply (sorted_before pre (ins ++ post)); [done|done|]. apply elem_of_app. by left.
  - intros g Hg. subst lk. rewrite app_assoc in Hs. eapply (sorted_before (pre ++ ins) post); [done| |done]. apply elem_of_app. by right.
Qed.

(** ** The inputs are closed *)

(** The files of every level are in order. *)
Definition levels_ok (v : Version) : Prop :=
  forall level, 0 <= level < kNumLevels -> Forall (file_ok ucmp) (level_files v level) /\ (level <> 0 -> sorted_files ucmp (level_files v level)).

(** A file that is left in the level of the inputs is in front of each of them, or behind it with other user keys. *)
Definition left_ok (files ins : list FileMetaData) : Prop :=
  forall f g, f ∈ ins -> g ∈ files -> g ∉ ins -> before g f \/ ult (largest f) (smallest g).

(** A file is in front of all the inputs, or behind all with other user keys. *)
Definition apart (ins : list FileMetaData) (g : FileMetaData) : Prop :=
  (forall f, f ∈ ins -> before g f) \/ (forall f, f ∈ ins -> ult (largest f) (smallest g)).

(** What a compaction of two levels needs of its inputs. *)
Record compaction_inputs (v : Version) (level : Z) (inputs0 inputs1 : list FileMetaData) : Prop := {
  ci_some : inputs0 <> [];
  ci_from0 : inputs0 `sublist_of` level_files v level;
  ci_from1 : inputs1 `sublist_of` level_files v (level + 1);
  ci_left0 : left_ok (level_files v level) inputs0;
  ci_left1 : forall g, g ∈ level_files v (level + 1) -> g ∉ inputs1 -> apart (inputs0 ++ inputs1) g;
}.

(** The inputs a compaction starts with: some files in a row, and in level 0 all that share user keys. *)
Definition start_ok (v : Version) (level : Z) (ins : list FileMetaData) : Prop :=
  ins <> [] /\
  if decide (level = 0) then
    ins `sublist_of` level_files v 0 /\
    forall f g, f ∈ ins -> g ∈ level_files v 0 -> g ∉ ins -> ult (largest g) (smallest f) \/ ult (largest f) (smallest g)
  else exists pre post, level_files v level = pre ++ ins ++ post.

Lemma segment_files b e files :
  Forall (file_ok ucmp) files -> sorted_files ucmp files ->
  exists pre post, files = pre ++ List.filter (overlaps ucmp b e) files ++ post /\
    Forall (fun f => AfterFile ucmp b f = true) pre /\ Forall (fun f => BeforeFile ucmp e f = true) post.
Proof.
  intros Hok Hs. apply split_range; intros i j f g Hij Ef Eg; pose proof (sorted_files_lookup ucmp files i j f g Hs Hij Ef Eg) as Hlt;
    pose proof (proj1 (Forall_lookup _ _) Hok _ _ Ef) as Hf; pose proof (proj1 (Forall_lookup _ _) Hok _ _ Eg) as Hg.
  - unfold AfterFile. destruct b as [b|]; [|done]. intros H%Z.ltb_lt. apply Z.ltb_lt. apply (compare_gt (key := any_key)) in H; [|done|done].
    apply (compare_gt (key := any_key)); [done|done|]. eapply (compare_le_lt (key := any_key)); [done|done|done|by apply before_ule|done].
  - unfold BeforeFile. destruct e as [e|]; [|done]. intros H%Z.ltb_lt. apply Z.ltb_lt. eapply (compare_lt_le (key := any_key)); [done|done|done|done|].
    eapply ule_trans; [by apply file_ule|]. by apply ile_ule, Z.lt_le_incl.
Qed.

Lemma level0_closed b e files f g :
  Forall (in_range ucmp b e) (List.filter (overlaps ucmp b e) files) -> f ∈ List.filter (overlaps ucmp b e) files -> g ∈ files -> g ∉ List.filter (overlaps ucmp b e) files ->
  ult (largest g) (smallest f) \/ ult (largest f) (smallest g).
Proof.
  intros Hall Hf Hg Hn. pose proof (proj1 (Forall_forall _ _) Hall f Hf) as [H1 H2]. destruct (overlaps ucmp b e g) eqn:Eo.
  - exfalso. apply Hn. apply list_elem_of_In, filter_In. split; [by apply list_elem_of_In|done].
  - unfold overlaps in Eo. apply negb_false_iff, orb_true_iff in Eo as [Eo|Eo].
    + left. unfold AfterFile in Eo. destruct b as [b|]; [|done]. apply Z.ltb_lt in Eo. apply (compare_gt (key := any_key)) in Eo; [|done|done]. by eapply (compare_lt_le (key := any_key)).
    + right. unfold BeforeFile in Eo. destruct e as [e|]; [|done]. apply Z.ltb_lt in Eo. by eapply (compare_le_lt (key := any_key)).
Qed.

(** The files a range overlaps can start a compaction. *)
(** A file that has a part in a range of user keys. *)
Definition meets (begin end_ : option InternalKey) (f : FileMetaData) : bool :=
  match begin with Some k => Compare ucmp (user k) (user (largest f)) <=? 0 | None => true end &&
  match end_ with Some k => Compare ucmp (user (smallest f)) (user k) <=? 0 | None => true end.

Lemma meets_overlaps begin end_ f : meets begin end_ f = overlaps ucmp (InternalKey_user_key <$> begin) (InternalKey_user_key <$> end_) f.
Proof.
  apply eq_bool_prop_intro. rewrite !Is_true_true. rewrite (overlaps_true ucmp). unfold meets. rewrite andb_true_iff.
  f_equiv; [destruct begin|destruct end_]; cbn [fmap option_fmap option_map]; [apply Z.leb_le|done|apply Z.leb_le|done].
Qed.

Lemma overlapping_none fuel level0 files rest b e :
  Forall (fun f => overlaps ucmp b e f = false) rest -> (length rest <= fuel)%nat -> GetOverlappingInputs_loop ucmp fuel level0 files rest b e [] = Some [].
Proof.
  revert fuel. induction rest as [|f rest IH]; intros [|fuel] Hall Hf; cbn [GetOverlappingInputs_loop length] in *; try done; try lia.
  apply Forall_cons in Hall as [Ho Hall]. rewrite overlap_tests, Ho by done. cbn [negb]. apply IH; [done|lia].
Qed.

(** The result has the files that meet the range, and is empty if there are none; above level 0 it has no others. *)
Lemma overlapping_meets v level begin end_ ins :
  GetOverlappingInputs ucmp v level begin end_ = Some ins ->
  (forall f, f ∈ level_files v level -> meets begin end_ f = true -> f ∈ ins) /\
  ((forall f, f ∈ level_files v level -> meets begin end_ f = false) -> ins = []) /\
  (level <> 0 -> ins = List.filter (meets begin end_) (level_files v level)).
Proof.
  intros E. destruct (GetOverlappingInputs_spec ucmp v level begin end_) as (b & e & E' & Hw & _ & Hne). rewrite E' in E. injection E as <-. split_and!.
  - intros f Hf Hm. rewrite meets_overlaps in Hm. apply list_elem_of_In, filter_In. split; [by apply list_elem_of_In|]. by eapply overlaps_wider.
  - intros Hn. unfold GetOverlappingInputs in E'. rewrite overlapping_none in E'; [by injection E' as <-| |unfold overlap_fuel; lia].
    apply Forall_forall. intros f Hf. rewrite <-meets_overlaps. by apply Hn.
  - intros Hl. destruct (Hne Hl) as [-> ->]. apply filter_ext. intros f. by rewrite meets_overlaps.
Qed.

Lemma overlapping_start v level begin end_ :
  levels_ok v -> 0 <= level < kNumLevels -> exists ins, GetOverlappingInputs ucmp v level begin end_ = Some ins /\ (ins <> [] -> start_ok v level ins).
Proof.
  intros Hv Hl0. destruct (GetOverlappingInputs_spec ucmp v level begin end_) as (b & e & -> & _ & H0 & _). eexists. split; [reflexivity|]. intros Hne. split; [done|]. destruct (Hv level Hl0) as [Hok Hs].
  case_decide as Hl.
  - subst. split.
    + apply filter_sublist.
    + intros f g Hf Hg Hn. by apply (level0_closed b e (level_files v 0)); [apply H0|..].
  - destruct (segment_files b e _ Hok (Hs Hl)) as (pre & post & E & _). by exists pre, post.
Qed.

(** Level 0: nothing is at the boundary of files that have all that share user keys. *)
Lemma AddBoundaryInputs_level0 files ins :
  Forall (file_ok ucmp) files -> ins <> [] -> ins `sublist_of` files ->
  (forall f g, f ∈ ins -> g ∈ files -> g ∉ ins -> ult (largest g) (smallest f) \/ ult (largest f) (smallest g)) -> AddBoundaryInputs ucmp files ins = Some ins.
Proof.
  intros Hok Hne Hsub Hcl. assert (Forall (file_ok ucmp) ins) as Hoki by (apply Forall_forall; intros f Hf; apply (proj1 (Forall_forall _ _) Hok); by eapply elem_of_sublist).
  destruct (GetRange_spec ins Hoki Hne) as ([sk lk] & E & _ & Hlk & _ & (fl & Hfl & El) & Hall). cbn [fst snd] in *. subst lk.
  unfold AddBoundaryInputs. rewrite FindLargestKey_spec, E. cbn [fmap option_fmap option_map snd AddBoundary_loop]. rewrite FindSmallestBoundaryFile_none; [done|].
  apply Forall_forall. intros g Hg. pose proof (proj1 (Forall_forall _ _) Hok g Hg) as Hgok. destruct (decide (g ∈ ins)) as [Hin|Hn]; [apply boundary_false_before; [done|done|by apply Hall]|].
  destruct (Hcl fl g Hfl Hg Hn) as [H|H]; [|by apply boundary_false_behind]. apply boundary_false_before; [done|done|]. apply Z.lt_le_incl, ult_ilt.
  eapply ult_ule_trans; [done|]. apply file_ule. by apply (proj1 (Forall_forall _ _) Hoki).
Qed.

Lemma segment_left {X} (pre ins post : list X) g : g ∈ pre ++ ins ++ post -> g ∉ ins -> g ∈ pre \/ g ∈ post.
Proof. rewrite !elem_of_app. tauto. Qed.

Lemma AddBoundaryInputs_closed v level ins :
  levels_ok v -> 0 <= level < kNumLevels -> start_ok v level ins ->
  exists ins', AddBoundaryInputs ucmp (level_files v level) ins = Some ins' /\ ins' <> [] /\ ins' `sublist_of` level_files v level /\ left_ok (level_files v level) ins' /\ ins ⊆ ins'.
Proof.
  intros Hv Hl0 [Hne Hst]. destruct (Hv level Hl0) as [Hok Hs]. case_decide as Hl.
  - subst. destruct Hst as [Hsub Hcl]. exists ins. split; [by apply AddBoundaryInputs_level0|]. split_and!; [done|done| |done]. intros f g Hf Hg Hn.
    destruct (Hcl f g Hf Hg Hn); [left; by apply ult_ilt|by right].
  - specialize (Hs Hl). destruct Hst as (pre & post & E). rewrite E in Hok, Hs |- *. destruct (AddBoundaryInputs_segment pre ins post Hok Hs Hne) as (more & post' & -> & -> & Hc).
    eexists. split; [reflexivity|]. replace (pre ++ ins ++ more ++ post') with (pre ++ (ins ++ more) ++ post') in * by (by rewrite <-app_assoc). split_and!.
    + by destruct ins.
    + by apply sublist_inserts_l, sublist_inserts_r.
    + intros f g Hf Hg Hn. destruct (segment_left _ _ _ _ Hg Hn) as [H|H]; [left|right; by apply Hc]. eapply (sorted_before pre ((ins ++ more) ++ post')); [done|done|].
      apply elem_of_app. by left.
    + intros f Hf. apply elem_of_app. by left.
Qed.

(** The files of the next level with a range of the inputs: what is left there is apart from all of them. *)
Lemma next_inputs v level ins0 sk lk :
  levels_ok v -> 0 <= level < kNumLevels - 1 -> Forall (file_ok ucmp) ins0 -> range_of ins0 (sk, lk) ->
  exists overlapping ins1, GetOverlappingInputs ucmp v (level + 1) (Some sk) (Some lk) = Some overlapping /\
    AddBoundaryInputs ucmp (level_files v (level + 1)) overlapping = Some ins1 /\ ins1 `sublist_of` level_files v (level + 1) /\
    forall g, g ∈ level_files v (level + 1) -> g ∉ ins1 -> apart (ins0 ++ ins1) g.
Proof.
  intros Hv Hl Hok0 (_ & _ & _ & _ & Hrange). cbn [fst snd] in Hrange. destruct (Hv (level + 1) ltac:(lia)) as [Hok Hs]. specialize (Hs ltac:(lia)).
  destruct (GetOverlappingInputs_spec ucmp v (level + 1) (Some sk) (Some lk)) as (b & e & -> & _ & _ & Hbe). destruct (Hbe ltac:(lia)) as [-> ->]. cbn [fmap option_fmap option_map].
  destruct (segment_files (Some (user sk)) (Some (user lk)) _ Hok Hs) as (pre & post & E & Hpre & Hpost). set (ov := List.filter _ _) in *. exists ov.
  assert (forall f g, f ∈ ins0 -> g ∈ pre -> before g f) as Hbefore.
  { intros f g Hf Hg. apply ult_ilt. pose proof (proj1 (Forall_forall _ _) Hpre g Hg) as H. cbn [AfterFile] in H. apply Z.ltb_lt in H. apply (compare_gt (key := any_key)) in H; [|done|done].
    eapply (compare_lt_le (key := any_key)); [done|done|done|done|]. apply ile_ule. by apply Hrange. }
  assert (forall f g, f ∈ ins0 -> g ∈ post -> ult (largest f) (smallest g)) as Hbehind.
  { intros f g Hf Hg. pose proof (proj1 (Forall_forall _ _) Hpost g Hg) as H. cbn [BeforeFile] in H. apply Z.ltb_lt in H. eapply (compare_le_lt (key := any_key)); [done|done|done| |done].
    apply ile_ule. by apply Hrange. }
  clearbody ov. rewrite E in Hok, Hs |- *. destruct (decide (ov = [])) as [->|Hne].
  - exists []. split_and!; [done|done|apply sublist_nil_l|]. rewrite app_nil_r. intros g Hg Hn. destruct (segment_left _ _ _ _ Hg Hn) as [H|H]; [left|right]; eauto.
  - destruct (AddBoundaryInputs_segment pre ov post Hok Hs Hne) as (more & post' & -> & -> & Hc). exists (ov ++ more).
    replace (pre ++ ov ++ more ++ post') with (pre ++ (ov ++ more) ++ post') in * by (by rewrite <-app_assoc). split_and!; [done|done|by apply sublist_inserts_l, sublist_inserts_r|].
    intros g Hg Hn. destruct (segment_left _ _ _ _ Hg Hn) as [H|H]; [left|right]; intros f [Hf|Hf]%elem_of_app.
    + eauto.
    + eapply (sorted_before pre ((ov ++ more) ++ post')); [done|done|]. apply elem_of_app. by left.
    + apply Hbehind; [done|]. apply elem_of_app. by right.
    + by apply Hc.
Qed.

Lemma inputs_ok v level ins : levels_ok v -> 0 <= level < kNumLevels -> ins `sublist_of` level_files v level -> Forall (file_ok ucmp) ins.
Proof. intros Hv Hl Hsub. apply Forall_forall. intros f Hf. apply (proj1 (Forall_forall _ _) (proj1 (Hv level Hl))). by eapply elem_of_sublist. Qed.

Lemma expand_inputs_closed v level ins0 ins1 all_start all_limit largest_key :
  levels_ok v -> 0 <= level < kNumLevels - 1 -> compaction_inputs v level ins0 ins1 -> (exists f, f ∈ ins0 /\ largest_key = largest f) ->
  range_of (ins0 ++ ins1) (all_start, all_limit) ->
  exists ins0' ins1' lk range, expand_inputs ucmp max_file_size v level ins0 ins1 all_start all_limit largest_key = Some (ins0', ins1', lk, range) /\ compaction_inputs v level ins0' ins1' /\ ins0 ⊆ ins0' /\
    exists f, f ∈ ins0' /\ lk = largest f.
Proof.
  intros Hv Hl Hci Hlk Hall. unfold expand_inputs. case_bool_decide; [by eexists _, _, _, _|].
  destruct (overlapping_start v level (Some all_start) (Some all_limit) Hv ltac:(lia)) as (ex0 & Eo & Hst). rewrite Eo. cbn [mbind option_bind].
  destruct (decide (ex0 = [])) as [->|Hne].
  { cbn [AddBoundaryInputs FindLargestKey]. cbn [mbind option_bind length]. destruct (Z.ltb_spec (slen ins0) (Z.of_nat 0)); [lia|]. by eexists _, _, _, _. }
  destruct (AddBoundaryInputs_closed v level ex0 Hv ltac:(lia) (Hst Hne)) as (ex & -> & Hne' & Hsub & Hleft & Hin). cbn [mbind option_bind]. case_match; [|by eexists _, _, _, _].
  pose proof (inputs_ok v level ex Hv ltac:(lia) Hsub) as Hok. destruct (GetRange_spec ex Hok Hne') as ([ns nl] & -> & Hr). cbn [mbind option_bind].
  destruct (next_inputs v level ex ns nl Hv Hl Hok Hr) as (ov & ex1 & -> & E1 & Hsub1 & Hap). cbn [mbind option_bind]. rewrite E1. cbn [mbind option_bind].
  case_match; [|by eexists _, _, _, _]. pose proof (inputs_ok v (level + 1) ex1 Hv ltac:(lia) Hsub1) as Hok1.
  destruct (GetRange_spec (ex ++ ex1)) as (range & Er & _); [by apply Forall_app|by destruct ex|]. unfold GetRange2. rewrite Er. cbn [mbind option_bind].
  eexists _, _, _, _. split; [reflexivity|]. split; [done|]. split; [|apply Hr]. intros f Hf. apply Hin.
  apply (proj1 (overlapping_meets _ _ _ _ _ Eo)); [eapply elem_of_sublist; [exact Hf|apply Hci]|].
  destruct Hall as (_ & _ & _ & _ & Hall). destruct (Hall f) as [Hs1 Hs2]; [apply elem_of_app; by left|]. pose proof (inputs_ok v level ins0 Hv ltac:(lia) (ci_from0 _ _ _ _ Hci)) as Hok0.
  pose proof (file_ule f (proj1 (Forall_forall _ _) Hok0 f Hf)) as Hff. unfold meets. apply andb_true_iff. split; apply Z.leb_le.
  - eapply (compare_le_trans (key := any_key)); [done|done|done|apply ile_ule, Hs1|exact Hff].
  - eapply (compare_le_trans (key := any_key)); [done|done|done|exact Hff|apply ile_ule, Hs2].
Qed.

(** [SetupOtherInputs] gives closed inputs for every start. *)
Lemma SetupOtherInputs_spec c vs :
  levels_ok (current vs) -> 0 <= c_level c < kNumLevels - 1 -> start_ok (current vs) (c_level c) (c_inputs0 c) ->
  exists c' vs', SetupOtherInputs ucmp max_file_size c vs = Some (c', vs') /\ compaction_inputs (current vs) (c_level c) (c_inputs0 c') (c_inputs1 c') /\
    c_level c' = c_level c /\ c_input_version c' = c_input_version c /\ c_level_ptrs c' = c_level_ptrs c /\ current vs' = current vs /\
    c_grandparent_index c' = c_grandparent_index c /\ c_inputs0 c ⊆ c_inputs0 c' /\
    exists f, f ∈ c_inputs0 c' /\ c_edit c' = SetCompactPointer (c_level c) (largest f) (c_edit c) /\
      vs' = set_compact_pointer (<[Z.to_nat (c_level c) := rep_ (largest f)]> (vs_compact_pointer vs)) vs.
Proof.
  intros Hv Hl Hst. unfold SetupOtherInputs. destruct (AddBoundaryInputs_closed _ (c_level c) _ Hv ltac:(lia) Hst) as (ins0 & -> & Hne & Hsub & Hleft & Hin). cbn [mbind option_bind].
  pose proof (inputs_ok _ (c_level c) ins0 Hv ltac:(lia) Hsub) as Hok. destruct (GetRange_spec ins0 Hok Hne) as ([sk lk] & -> & Hr). cbn [mbind option_bind].
  destruct (next_inputs _ (c_level c) ins0 sk lk Hv Hl Hok Hr) as (ov & ins1 & -> & E1 & Hsub1 & Hap). cbn [mbind option_bind]. rewrite E1. cbn [mbind option_bind].
  pose proof (inputs_ok _ (c_level c + 1) ins1 Hv ltac:(lia) Hsub1) as Hok1. unfold GetRange2.
  destruct (GetRange_spec (ins0 ++ ins1)) as ([s l] & -> & Hall); [by apply Forall_app|by destruct ins0|]. cbn [mbind option_bind].
  destruct (expand_inputs_closed (current vs) (c_level c) ins0 ins1 s l lk Hv Hl) as (i0 & i1 & lk' & [s' l'] & -> & Hci & Hin' & f & Hf & ->); [done|apply Hr|exact Hall|]. cbn [mbind option_bind].
  assert (exists g, (if c_level c + 2 <? kNumLevels then GetOverlappingInputs ucmp (current vs) (c_level c + 2) (Some s') (Some l') else Some (c_grandparents c)) = Some g) as [g ->].
  { case_match; [|by eexists]. destruct (GetOverlappingInputs_spec ucmp (current vs) (c_level c + 2) (Some s') (Some l')) as (? & ? & -> & _). by eexists. }
  cbn [mbind option_bind]. eexists _, _. split; [reflexivity|]. destruct c, vs; cbn. split_and!; try done; [|by exists f]. intros f' Hf'. by apply Hin', Hin.
Qed.

(** ** The choice *)

(** What a version says of the next compaction: a level with files, or a file of a level, and the level is not the last; and
    that there is one if level 0 has files enough. *)
Definition pick_ok (v : Version) : Prop :=
  (SFleb (double_of 1) (compaction_score_ v) = true -> 0 <= compaction_level_ v < kNumLevels - 1 /\ level_files v (compaction_level_ v) <> []) /\
  (forall f, file_to_compact_ v = Some f -> 0 <= file_to_compact_level_ v < kNumLevels - 1 /\ f ∈ level_files v (file_to_compact_level_ v)) /\
  (kL0_CompactionTrigger <= slen (level_files v 0) < 2 ^ 31 -> SFleb (double_of 1) (compaction_score_ v) = true).

(** A compaction that was chosen, and the version set with its reference. *)
Definition chosen (vs : VersionSet) (c : Compaction) (vs' : VersionSet) : Prop :=
  compaction_inputs (current vs) (c_level c) (c_inputs0 c) (c_inputs1 c) /\ 0 <= c_level c < kNumLevels - 1 /\
  c_input_version c = Some (lv_id (current_live vs), current vs) /\ c_level_ptrs c = repeat 0%nat (Z.to_nat kNumLevels) /\ c_grandparent_index c = 0%nat /\
  exists f, f ∈ c_inputs0 c /\ c_edit c = SetCompactPointer (c_level c) (largest f) NewVersionEdit /\
    vs' = set_compact_pointer (<[Z.to_nat (c_level c) := rep_ (largest f)]> (vs_compact_pointer vs)) (Version_Ref (lv_id (current_live vs)) vs).

Lemma begin_compaction_chosen level ins vs :
  levels_ok (current vs) -> 0 <= level < kNumLevels - 1 -> start_ok (current vs) level ins ->
  let '(c, vs') := begin_compaction max_file_size level ins vs in
  exists c' vs'', SetupOtherInputs ucmp max_file_size c vs' = Some (c', vs'') /\ chosen vs c' vs'' /\ c_level c' = level /\ ins ⊆ c_inputs0 c'.
Proof.
  intros Hv Hl Hst. cbn [begin_compaction]. set (id := lv_id (current_live vs)). set (c := set_input_version _ _). pose proof (current_Version_Ref id vs) as Ec.
  destruct (SetupOtherInputs_spec c (Version_Ref id vs)) as (c' & vs'' & E & Hci & E1 & E2 & E3 & _ & E4 & Hin & f & Hf & E5 & E6); [rewrite Ec; exact Hv|exact Hl|rewrite Ec; exact Hst|].
  exists c', vs''. split; [done|]. split; [|done]. rewrite Ec in Hci. unfold chosen. rewrite E1, E2, E3, E4. split_and!; [exact Hci|exact (proj1 Hl)|exact (proj2 Hl)|done|done|done|].
  exists f. split; [exact Hf|]. split; [exact E5|]. rewrite E6. by destruct vs.
Qed.

Lemma file_start v level f : level <> 0 -> f ∈ level_files v level -> start_ok v level [f].
Proof. intros Hl (pre & post & E)%list_elem_of_split. split; [done|]. rewrite decide_False by done. by exists pre, post. Qed.

Lemma file_start0 v f :
  levels_ok v -> f ∈ level_files v 0 -> exists ins, GetOverlappingInputs ucmp v 0 (Some (smallest f)) (Some (largest f)) = Some ins /\ start_ok v 0 ins /\ f ∈ ins.
Proof.
  intros Hv Hf. pose proof (file_ule f (proj1 (Forall_forall _ _) (proj1 (Hv 0 ltac:(done))) f Hf)) as Hff.
  destruct (overlapping_start v 0 (Some (smallest f)) (Some (largest f)) Hv) as (ins & E & Hst); [done|]. exists ins.
  assert (f ∈ ins) as Hin by (apply (proj1 (overlapping_meets _ _ _ _ _ E)); [done|]; unfold meets; apply andb_true_iff; split; by apply Z.leb_le).
  split_and!; [done|apply Hst; intros ->; by apply elem_of_nil in Hin|done].
Qed.

(** The level of the highest score and the file whose turn it is there, or the file with too many seeks. *)
Definition picks (vs : VersionSet) (level : Z) (f : FileMetaData) : Prop :=
  if SFleb (double_of 1) (compaction_score_ (current vs)) then
    level = compaction_level_ (current vs) /\
    exists pre post, level_files (current vs) level = pre ++ f :: post /\
      let pointer := nth (Z.to_nat level) (vs_compact_pointer vs) [] in
      let behind g := pointer = [] \/ 0 < Compare (InternalKeyComparator ucmp) (rep_ (largest g)) pointer in
      (behind f /\ Forall (fun g => ~ behind g) pre) \/ (pre = [] /\ Forall (fun g => ~ behind g) (f :: post))
  else level = file_to_compact_level_ (current vs) /\ file_to_compact_ (current vs) = Some f.

Lemma find_first {X} (p : X -> bool) l x :
  List.find p l = Some x -> exists pre post, l = pre ++ x :: post /\ p x = true /\ Forall (fun y => p y = false) pre.
Proof.
  induction l as [|y l IH]; [done|]. cbn [List.find]. destruct (p y) eqn:Ey; [intros [= ->]; by exists [], l|].
  intros (pre & post & -> & Hx & Hpre)%IH. exists (y :: pre), post. split_and!; [done|done|by constructor].
Qed.

Lemma pick_start_spec vs :
  pick_ok (current vs) ->
  (pick_start ucmp vs = Some None /\ NeedsCompaction vs = false) \/
  exists level f, pick_start ucmp vs = Some (Some (level, [f])) /\ NeedsCompaction vs = true /\ 0 <= level < kNumLevels - 1 /\ f ∈ level_files (current vs) level /\
    picks vs level f.
Proof.
  intros (H1 & H2 & _). unfold pick_start, NeedsCompaction. destruct (SFleb _ _) eqn:Es; cbn [orb].
  - right. destruct (H1 eq_refl) as [Hl Hne]. exists (compaction_level_ (current vs)). unfold picks. rewrite Es. set (pointer := nth _ _ _). set (p := fun f => _ || _).
    assert (forall g, p g = true <-> pointer = [] \/ 0 < Compare icmp (rep_ (largest g)) pointer) as Hp by (intros g; unfold p; by rewrite orb_true_iff, bool_decide_eq_true, Z.ltb_lt).
    assert (forall l, Forall (fun g => p g = false) l -> Forall (fun g => ~ (pointer = [] \/ 0 < Compare icmp (rep_ (largest g)) pointer)) l) as Hnp
      by (intros l Hl'; apply (Forall_impl _ _ _ Hl'); intros g Hg; by rewrite <-Hp, Hg).
    destruct (List.find _ _) as [f|] eqn:Ef.
    + exists f. apply find_first in Ef as (pre & post & -> & Hf & Hpre). do 3 (split; [done|]). split; [apply elem_of_app; right; apply list_elem_of_here|].
      split; [done|]. exists pre, post. split; [done|]. left. split; [by apply Hp|by apply Hnp].
    + destruct (level_files (current vs) (compaction_level_ (current vs))) as [|f fs] eqn:El; [done|]. exists f. do 3 (split; [done|]). split; [apply list_elem_of_here|].
      split; [done|]. exists [], fs. split; [done|]. right. split; [done|]. apply Hnp, Forall_forall. intros g Hg%list_elem_of_In. by eapply find_none.
  - destruct (file_to_compact_ (current vs)) as [f|] eqn:Ef; [|by left]. right. destruct (H2 f eq_refl) as [Hl Hf]. exists (file_to_compact_level_ (current vs)), f. unfold picks. by rewrite Es.
Qed.

Lemma PickCompaction_spec vs :
  levels_ok (current vs) -> pick_ok (current vs) ->
  if NeedsCompaction vs then exists c vs' f, PickCompaction ucmp max_file_size vs = Some (Some c, vs') /\ chosen vs c vs' /\ picks vs (c_level c) f /\ f ∈ c_inputs0 c
  else PickCompaction ucmp max_file_size vs = Some (None, vs).
Proof.
  intros Hv Hp. unfold PickCompaction. destruct (pick_start_spec vs Hp) as [[-> ->]|(level & f & -> & -> & Hl & Hf & Hpk)]; [done|]. cbn [mbind option_bind].
  assert (exists ins, (if level =? 0 then '(sk, lk) ← GetRange ucmp [f]; GetOverlappingInputs ucmp (current vs) 0 (Some sk) (Some lk) else Some [f]) = Some ins /\ start_ok (current vs) level ins /\ f ∈ ins)
    as (ins & -> & Hst & Hfi).
  { destruct (Z.eqb_spec level 0) as [->|Hne]; [cbn [GetRange foldl mbind option_bind]; by apply file_start0|]. exists [f]. split; [done|]. split; [by apply file_start|apply list_elem_of_here]. }
  cbn [mbind option_bind]. pose proof (begin_compaction_chosen level ins vs Hv Hl Hst) as Hb. destruct (begin_compaction _ _ _ _) as [c vs']. destruct Hb as (c' & vs'' & -> & Hc & <- & Hin).
  exists c', vs'', f. split_and!; [done|done|done|by apply Hin].
Qed.

Lemma limit_inputs_prefix limit total ins : exists rest, ins = limit_inputs limit total ins ++ rest /\ (ins <> [] -> limit_inputs limit total ins <> []).
Proof.
  revert total. induction ins as [|f ins IH]; intros total; [by exists []|]. cbn [limit_inputs]. case_match; [by exists ins|].
  destruct (IH (u64 (total + file_size f))) as (rest & E & _). exists rest. split; [cbn; by f_equal|done].
Qed.

(** The files up to the limit of the sizes. *)
Lemma limit_inputs_reach limit total pre f post :
  0 <= total -> Forall (fun g => 0 <= file_size g) pre -> total + foldr (fun g n => file_size g + n) 0 pre < limit -> f ∈ limit_inputs limit total (pre ++ f :: post).
Proof.
  revert total. induction pre as [|g pre IH]; intros total Ht Hall Hs; cbn [app limit_inputs foldr] in *; [apply list_elem_of_here|].
  apply Forall_cons in Hall as [Hg Hall]. assert (0 <= foldr (fun g n => file_size g + n) 0 pre) as Hn by (clear -Hall; induction Hall; cbn; lia).
  assert (0 <= u64 (total + file_size g) <= total + file_size g) as [H1 H2] by (split; [apply Z.mod_pos_bound; lia|apply Z.mod_le; lia]).
  rewrite (proj2 (Z.leb_gt _ _)) by lia. apply list_elem_of_further, IH; [done|done|lia].
Qed.

(** The files of a level that a compaction of a range starts with: all that meet the range in level 0, and in other levels
    those in front of which the ones that meet it are smaller than an output. *)
Definition starts_range (v : Version) (level : Z) (begin end_ : option InternalKey) (f : FileMetaData) : Prop :=
  exists pre post, level_files v level = pre ++ f :: post /\ meets begin end_ f = true /\
    (level = 0 \/ Forall (fun g => 0 <= file_size g) pre /\
       foldr (fun g n => file_size g + n) 0 (List.filter (meets begin end_) pre) < MaxFileSizeForLevel max_file_size level).

Lemma CompactRange_spec level begin end_ vs :
  levels_ok (current vs) -> 0 <= level < kNumLevels - 1 ->
  ((forall f, f ∈ level_files (current vs) level -> meets begin end_ f = false) /\ CompactRange ucmp max_file_size level begin end_ vs = Some (None, vs)) \/
  ((exists f, f ∈ level_files (current vs) level /\ meets begin end_ f = true) /\
   exists c vs', CompactRange ucmp max_file_size level begin end_ vs = Some (Some c, vs') /\ c_level c = level /\ chosen vs c vs' /\
     forall f, starts_range (current vs) level begin end_ f -> f ∈ c_inputs0 c).
Proof.
  intros Hv Hl. unfold CompactRange. destruct (overlapping_start (current vs) level begin end_ Hv ltac:(lia)) as (ins & E & Hst). rewrite E. cbn [mbind option_bind].
  destruct (overlapping_meets _ _ _ _ _ E) as (Hall & Hnone & Hfilter). case_bool_decide as Hne.
  { left. split; [|done]. intros f Hf. destruct (meets begin end_ f) eqn:Hm; [|done]. specialize (Hall f Hf Hm). rewrite Hne in Hall. by apply elem_of_nil in Hall. }
  right. split.
  { destruct (existsb (meets begin end_) (level_files (current vs) level)) eqn:Ex; [apply existsb_exists in Ex as (f & Hf & Hm); exists f; split; [by apply list_elem_of_In|done]|].
    destruct Hne. apply Hnone. intros f Hf. apply not_true_iff_false. intros Hm. apply not_true_iff_false in Ex. apply Ex, existsb_exists. exists f. split; [by apply list_elem_of_In|done]. }
  specialize (Hst Hne). set (ins' := if 0 <? level then _ else ins). assert (start_ok (current vs) level ins' /\ forall f, starts_range (current vs) level begin end_ f -> f ∈ ins') as [Hst' Hin].
  { unfold ins'. destruct (Z.ltb_spec 0 level) as [H|H].
    - split.
      + destruct (limit_inputs_prefix (MaxFileSizeForLevel max_file_size level) 0 ins) as (rest & Er & Hn). destruct Hst as [_ Hst]. split; [by apply Hn|].
        rewrite decide_False in Hst |- * by lia. destruct Hst as (pre & post & Ef). exists pre, (rest ++ post). rewrite Ef. rewrite Er at 1. by rewrite <-app_assoc.
      + intros f (pre & post & Ef & Hm & [->|[Hp Hs]]); [lia|]. rewrite (Hfilter ltac:(lia)), Ef, List.filter_app. cbn [List.filter]. rewrite Hm.
        apply limit_inputs_reach; [lia| |lia]. apply Forall_forall. intros g [Hg _]%list_elem_of_In%filter_In. by apply (proj1 (Forall_forall _ _) Hp), list_elem_of_In.
    - split; [done|]. intros f (pre & post & Ef & Hm & _). apply Hall; [|done]. rewrite Ef. apply elem_of_app. right. apply list_elem_of_here. }
  pose proof (begin_compaction_chosen level ins' vs Hv Hl Hst') as Hb. destruct (begin_compaction max_file_size level ins' vs) as [c vs'].
  destruct Hb as (c' & vs'' & -> & Hc & Hlv & Hsub). cbn [mbind option_bind]. exists c', vs''. split_and!; [done|done|done|]. intros f Hf. by apply Hsub, Hin.
Qed.

(** A new version names a level with files. *)
Lemma level_score_empty v level : 0 <= level < kNumLevels - 1 -> level_files v level = [] -> SFleb (double_of 1) (level_score v level) = false.
Proof.
  intros Hl He. unfold level_score. rewrite He. assert (level ∈ seqZ 0 6) as Hin by (apply elem_of_seqZ; unfold kNumLevels in Hl; lia). clear Hl He. vm_compute in Hin.
  repeat (apply elem_of_cons in Hin as [->|Hin]; [vm_compute; reflexivity|]). by apply elem_of_nil in Hin.
Qed.

Lemma Finalize_pick v : file_to_compact_ v = None -> pick_ok (Finalize v).
Proof.
  intros Hf. assert (kL0_CompactionTrigger <= slen (level_files (Finalize v) 0) < 2 ^ 31 -> SFleb (double_of 1) (compaction_score_ (Finalize v)) = true) as Hsc.
  { unfold level_files. rewrite files_Finalize. apply Finalize_scored. }
  apply and_assoc. split; [|exact Hsc]. clear Hsc. unfold Finalize. set (step := fun '(bl, bs) level => _).
  assert (forall levels bl bs, Forall (fun l => 0 <= l < kNumLevels - 1) levels -> (SFleb (double_of 1) bs = true -> 0 <= bl < kNumLevels - 1 /\ level_files v bl <> []) ->
    let '(bl', bs') := foldl step (bl, bs) levels in SFleb (double_of 1) bs' = true -> 0 <= bl' < kNumLevels - 1 /\ level_files v bl' <> []) as Hfold.
  { induction levels as [|l levels IH]; intros bl bs Hall Hb; [done|]. apply Forall_cons in Hall as [Hl Hall]. cbn [foldl]. unfold step at 2. destruct (SFltb bs (level_score v l)); apply IH; try done.
    intros Hs. split; [done|]. intros He. by rewrite level_score_empty in Hs. }
  specialize (Hfold (seqZ 0 (kNumLevels - 1)) (-1) minus_one). destruct (foldl step _ _) as [bl bs]. split; cbn.
  - apply Hfold; [apply Forall_seqZ; lia|done].
  - by rewrite Hf.
Qed.

(** ** The levels below *)

(** The range of user keys of a file has the key. *)
Definition has_key (k : slice) (f : FileMetaData) : Prop := Compare ucmp (user (smallest f)) k <= 0 /\ Compare ucmp k (user (largest f)) <= 0.

(** The pointers have passed only files that end before the key. *)
Definition ptrs_ok (v : Version) (k : slice) (ptrs : list nat) : Prop :=
  length ptrs = Z.to_nat kNumLevels /\
  forall level i f, 0 <= level < kNumLevels -> (i < nth (Z.to_nat level) ptrs 0)%nat -> level_files v level !! i = Some f -> Compare ucmp (user (largest f)) k < 0.

Lemma ptrs_ok_start v k : ptrs_ok v k (repeat 0%nat (Z.to_nat kNumLevels)).
Proof. split; [by rewrite repeat_length|]. intros level i f _ Hi. rewrite nth_repeat in Hi. lia. Qed.

Lemma ptrs_ok_mono v k k' ptrs : Compare ucmp k k' <= 0 -> ptrs_ok v k ptrs -> ptrs_ok v k' ptrs.
Proof. intros Hk [Hn H]. split; [done|]. intros level i f Hl Hi Hf. eapply (compare_lt_le (key := any_key)); [done|done|done|by eapply H|done]. Qed.

Lemma base_scan_spec k pre files :
  Forall (file_ok ucmp) (pre ++ files) -> sorted_files ucmp (pre ++ files) -> Forall (fun f => Compare ucmp (user (largest f)) k < 0) pre ->
  exists found ptr, base_scan ucmp k files (length pre) = (found, ptr) /\ (found = true <-> exists f, f ∈ pre ++ files /\ has_key k f) /\
    forall i f, (i < ptr)%nat -> (pre ++ files) !! i = Some f -> Compare ucmp (user (largest f)) k < 0.
Proof.
  revert pre. induction files as [|f files IH]; intros pre Hok Hs Hpre; cbn [base_scan].
  - rewrite app_nil_r. exists false, (length pre). split; [done|]. split.
    + split; [done|]. intros (f & Hf & _ & Hh). pose proof (proj1 (Forall_forall _ _) Hpre f Hf) as H. apply (compare_gt (key := any_key)) in H; [lia|done|done].
    + intros i f _ Hf. by apply (proj1 (Forall_lookup _ _) Hpre i).
  - destruct (Z.leb_spec (Compare ucmp k (user (largest f))) 0) as [Hle|Hgt].
    + eexists _, _. split; [reflexivity|]. split.
      * rewrite Z.leb_le. split.
        -- intros H. exists f. split; [apply elem_of_app; right; apply list_elem_of_here|]. split; [|done]. apply (compare_nlt (key := any_key)); [done|done|lia].
        -- intros (g & Hg & H1 & H2). apply Z.nlt_ge, (compare_nlt (key := any_key)); [done|done|]. apply elem_of_app in Hg as [Hg|[->|Hg]%elem_of_cons]; [|done|].
           ++ pose proof (proj1 (Forall_forall _ _) Hpre g Hg) as H. apply (compare_gt (key := any_key)) in H; [lia|done|done].
           ++ assert (before f g) as Hfg. { apply StronglySorted_app_1_r, StronglySorted_inv in Hs as [_ Hs]. by apply (proj1 (Forall_forall _ _) Hs). }
              eapply (compare_le_trans (key := any_key)); [done|done|done| |exact H1]. eapply ule_trans; [apply file_ule|by apply ile_ule, Z.lt_le_incl].
              apply (proj1 (Forall_forall _ _) Hok). apply elem_of_app. right. apply list_elem_of_here.
      * intros i g Hi Hg. rewrite lookup_app_l in Hg by done. by apply (proj1 (Forall_lookup _ _) Hpre i).
    + replace (pre ++ f :: files) with ((pre ++ [f]) ++ files) in * by (by rewrite <-app_assoc). replace (S (length pre)) with (length (pre ++ [f])) by (rewrite length_app; simpl; lia).
      apply IH; [done|done|]. apply Forall_app. split; [done|]. constructor; [|done]. by apply (compare_gt (key := any_key)).
Qed.

Lemma base_levels_spec v k levels ptrs :
  levels_ok v -> ptrs_ok v k ptrs -> Forall (fun l => 0 < l < kNumLevels) levels ->
  exists base ptrs', base_levels ucmp v k levels ptrs = (base, ptrs') /\ ptrs_ok v k ptrs' /\
    (base = true <-> forall level f, level ∈ levels -> f ∈ level_files v level -> ~ has_key k f).
Proof.
  intros Hv. revert ptrs. induction levels as [|l levels IH]; intros ptrs Hp Hall; [exists true, ptrs; cbn; split_and!; [done|done|split; [|done]]; by intros _ level f ?%elem_of_nil|].
  apply Forall_cons in Hall as [Hl Hall]. cbn [base_levels]. destruct (Hv l ltac:(lia)) as [Hok Hs]. specialize (Hs ltac:(lia)). destruct Hp as [Hn Hp].
  set (ptr := nth (Z.to_nat l) ptrs 0%nat). set (files := level_files v l) in *. rewrite <-(take_drop ptr files) in Hok, Hs.
  destruct (base_scan_spec k (take ptr files) (drop ptr files) Hok Hs) as (found & ptr' & E & Hfound & Hptr').
  { apply Forall_lookup. intros i f Hi. apply lookup_take_Some in Hi as [Hf Hi]. by apply (Hp l i f); [lia|..]. }
  assert (exists ptr'', base_scan ucmp k (drop ptr files) ptr = (found, ptr'') /\ forall i f, (i < ptr'')%nat -> files !! i = Some f -> Compare ucmp (user (largest f)) k < 0) as (ptr'' & -> & Hptr).
  { rewrite take_drop in Hptr'. destruct (Nat.le_gt_cases ptr (length files)) as [Hle|Hgt].
    - rewrite length_take, Nat.min_l in E by done. by exists ptr'.
    - rewrite drop_ge in E |- * by lia. cbn [base_scan] in E |- *. injection E as <- <-. exists ptr. split; [done|]. intros i f Hi Hf. by apply (Hp l i f); [lia|..]. }
  rewrite take_drop in Hfound. clear E Hok Hs Hptr'.
  assert (ptrs_ok v k (<[Z.to_nat l := ptr'']> ptrs)) as Hp'.
  { split; [by rewrite length_insert|]. intros level i f Hlv. rewrite nth_lookup. destruct (decide (level = l)) as [->|Hne].
    - rewrite list_lookup_insert_eq by (rewrite Hn; apply Z2Nat.inj_lt; lia). apply Hptr.
    - rewrite list_lookup_insert_ne by (intros ?%Z2Nat.inj; lia). rewrite <-nth_lookup. by apply Hp. }
  destruct found.
  - eexists _, _. split; [reflexivity|]. split; [done|]. split; [done|]. intros H. exfalso. destruct (proj1 Hfound eq_refl) as (f & Hf & Hk). by apply (H l f (list_elem_of_here _ _) Hf).
  - destruct (IH _ Hp' Hall) as (base & ptrs' & -> & Hp'' & Hb). eexists _, _. split; [reflexivity|]. split; [done|]. rewrite Hb. split.
    + intros H level f [->|Hin]%elem_of_cons Hf; [|by apply (H level)]. intros Hk. discriminate (proj2 Hfound (ex_intro _ f (conj Hf Hk))).
    + intros H level f Hin. apply H. by apply list_elem_of_further.
Qed.

(** [IsBaseLevelForKey] for a key that is not before those it was called with: exact, and ready for the next key. *)
Lemma IsBaseLevelForKey_spec id v k c :
  levels_ok v -> c_input_version c = Some (id, v) -> 0 <= c_level c -> ptrs_ok v k (c_level_ptrs c) ->
  exists base ptrs, IsBaseLevelForKey ucmp k c = Some (base, set_level_ptrs ptrs c) /\ ptrs_ok v k ptrs /\
    (base = true <-> forall level f, c_level c + 1 < level < kNumLevels -> f ∈ level_files v level -> ~ has_key k f).
Proof.
  intros Hv Hi Hl Hp. unfold IsBaseLevelForKey. rewrite Hi. cbn [mbind option_bind].
  destruct (base_levels_spec v k (seqZ (c_level c + 2) (kNumLevels - (c_level c + 2))) (c_level_ptrs c) Hv Hp) as (base & ptrs & -> & Hp' & Hb); [apply Forall_seqZ; lia|].
  exists base, ptrs. split; [done|]. split; [done|]. rewrite Hb. split; intros H level f Hlv Hf; (apply (H level); [|done]).
  - apply elem_of_seqZ. lia.
  - apply elem_of_seqZ in Hlv. lia.
Qed.

(** * Correctness *)

(** C15. The choice of a compaction always ends.  [PickCompaction] chooses one exactly if the score or the seeks ask for one,
    at the level and with the file that they name: for the score the first file behind the compaction pointer of the level,
    or the first of all if there is none.  [CompactRange] chooses one exactly if a file of the level has a part in the range;
    the first inputs then have all such files in level 0, and in other levels all up to the one with which their sizes reach
    that of an output.  The inputs are files of the two levels; a file that is left in the level of the first inputs is
    in front of each of them or has other user keys behind it, so that it has no older entry of a key that moves down; and a
    file that is left in the next level is in front of all the inputs or behind all with other user keys, so that the outputs
    fit between these. *)
Theorem compaction_inputs_closed vs :
  levels_ok (current vs) -> pick_ok (current vs) ->
  (if NeedsCompaction vs then
     exists c vs' f, PickCompaction ucmp max_file_size vs = Some (Some c, vs') /\ chosen vs c vs' /\ picks vs (c_level c) f /\ f ∈ c_inputs0 c
   else PickCompaction ucmp max_file_size vs = Some (None, vs)) /\
  forall level begin end_, 0 <= level < kNumLevels - 1 ->
    ((forall f, f ∈ level_files (current vs) level -> meets begin end_ f = false) /\ CompactRange ucmp max_file_size level begin end_ vs = Some (None, vs)) \/
    ((exists f, f ∈ level_files (current vs) level /\ meets begin end_ f = true) /\
     exists c vs', CompactRange ucmp max_file_size level begin end_ vs = Some (Some c, vs') /\ c_level c = level /\ chosen vs c vs' /\
       forall f, starts_range (current vs) level begin end_ f -> f ∈ c_inputs0 c).
Proof. intros Hv Hp. split; [by apply PickCompaction_spec|]. intros. by apply CompactRange_spec. Qed.
End inputs.

(** Two files of level 1 that share a user key, and one of level 2. *)
Definition inputs_key (u : string) (s : Z) : InternalKey := NewInternalKey (lit u) s kTypeValue.
Definition inputs_f1 : FileMetaData := MkFile 1 100 11 1000 (inputs_key "a" 9) (inputs_key "b" 7).
Definition inputs_f2 : FileMetaData := MkFile 1 100 12 1000 (inputs_key "b" 5) (inputs_key "c" 3).
Definition inputs_f3 : FileMetaData := MkFile 1 100 10 1000 (inputs_key "c" 2) (inputs_key "d" 1).
Definition inputs_files : Version := MkVersion [[]; [inputs_f1; inputs_f2]; [inputs_f3]; []; []; []; []] None (-1) minus_one (-1).
Definition inputs_version : Version := Finalize inputs_files.
Definition inputs_vs : VersionSet := AppendVersion inputs_version NewVersionSet.

Lemma inputs_levels_ok : levels_ok BytewiseComparator inputs_version.
Proof.
  assert (forall u s, seq_ok s -> valid_key (rep_ (inputs_key u s))) as Hk by (intros u s Hs; by exists (ParsedKey (lit u) s kTypeValue)).
  assert (file_ok BytewiseComparator inputs_f1 /\ file_ok BytewiseComparator inputs_f2 /\ file_ok BytewiseComparator inputs_f3) as (H1 & H2 & H3).
  { unfold file_ok. split_and!; first [apply Hk; vm_compute; split; discriminate|apply Z.leb_le; vm_compute; reflexivity]. }
  assert (Compare (InternalKeyComparator BytewiseComparator) (rep_ (largest inputs_f1)) (rep_ (smallest inputs_f2)) < 0) as H12 by (apply Z.ltb_lt; vm_compute; reflexivity).
  assert (files_ inputs_version = [[]; [inputs_f1; inputs_f2]; [inputs_f3]; []; []; []; []]) as Ef by (unfold inputs_version, Finalize; by case_match).
  intros level Hl. assert (level ∈ seqZ 0 7) as Hin by (apply elem_of_seqZ; unfold kNumLevels in Hl; lia). clear Hl. vm_compute in Hin.
  repeat (apply elem_of_cons in Hin as [->|Hin]; [unfold level_files; rewrite Ef; cbv [nth Z.to_nat Pos.to_nat Pos.iter_op Nat.add]; split; [by auto using Forall_nil_2, Forall_cons_2|intros _; repeat apply SSorted_cons; try apply SSorted_nil; auto using Forall_nil_2, Forall_cons_2]|]).
  exfalso. exact (not_elem_of_nil _ Hin).
Qed.

Lemma inputs_current : current inputs_vs = inputs_version.
Proof. reflexivity. Qed.

(** A compaction of the first file takes the second with it, and the file of the next level. *)
Lemma compaction_inputs_closed_witness :
  exists c vs', CompactRange BytewiseComparator 2097152 1 None (Some (inputs_key "a" 9)) inputs_vs = Some (Some c, vs') /\
    c_inputs0 c = [inputs_f1; inputs_f2] /\ c_inputs1 c = [inputs_f3] /\ chosen BytewiseComparator inputs_vs c vs'.
Proof.
  assert (levels_ok BytewiseComparator (current inputs_vs) /\ pick_ok (current inputs_vs)) as [Hv Hp].
  { rewrite inputs_current. split; [exact inputs_levels_ok|]. apply Finalize_pick. reflexivity. }
  assert (0 <= 1 < kNumLevels - 1) as Hl by (split; [discriminate|reflexivity]).
  pose proof (compaction_inputs_closed BytewiseComparator 2097152 inputs_vs Hv Hp) as [_ Hall]. specialize (Hall 1 None (Some (inputs_key "a" 9)) Hl). clear Hl Hv Hp.
  destruct Hall as [[H _]|(_ & c & vs' & E & _ & Hc & _)].
  - exfalso. specialize (H inputs_f1). rewrite inputs_current in H. assert (meets BytewiseComparator None (Some (inputs_key "a" 9)) inputs_f1 = true) as Hm by (vm_compute; reflexivity).
    rewrite Hm in H. discriminate H. apply list_elem_of_In. vm_compute. left. reflexivity.
  - exists c, vs'. assert (match CompactRange BytewiseComparator 2097152 1 None (Some (inputs_key "a" 9)) inputs_vs with
      | Some (Some c, _) => c_inputs0 c = [inputs_f1; inputs_f2] /\ c_inputs1 c = [inputs_f3] | _ => False end) as H by (vm_compute; split; reflexivity).
    rewrite E in H. destruct H as [H0 H1]. split; [exact E|]. split; [exact H0|]. split; [exact H1|exact Hc].
Defined.
