(* ===== verification/Manifest.v ===== *)
(** Manifest: what the descriptor file keeps of the versions.  The files of a version are those of the history of edits in
    the descriptor; [LogAndApply] extends the history and [Recover] replays it, also when a crash has cut the last record. *)

From stdpp Require Import gmap.
From Stdlib Require Import Strings.Byte Strings.String.
From S2P Require Import Prelude Coding Crc32c Status Comparator DbFormat Env FileSystem Filename VersionEdit Log Crash Version VersionSet Score.

Abbreviation encoded edit := (VersionEdit_EncodeTo edit []).

Section replay.
Context (ucmp : Comparator) (cmp_name : slice) (extend : Z -> slice -> Z).
Context `{!ComparatorLaws any_key ucmp} `{!SeparatorSame any_key ucmp} `{!Checksum extend}.

(** * The loop of [Recover] *)

(** An edit that decodes from its record, and passes the check of the comparator. *)
Definition edit_fits (edit : VersionEdit) : Prop := edit_ok edit /\ (has_comparator_ edit = true -> comparator_ edit = cmp_name).

Definition replayed (r : RecoverVars) (edits : list VersionEdit) : RecoverVars := foldl (fun r edit => recover_edit ucmp cmp_name edit r) r edits.

Lemma report_none reader reader' s : same_config reader reader' -> report (drop (length (reports_ reader)) (reports_ reader')) s = s.
Proof. intros (-> & _). by rewrite drop_all. Qed.

Lemma recover_edit_status edit r : edit_fits edit -> rv_status (recover_edit ucmp cmp_name edit r) = OK.
Proof.
  intros [_ Hc]. unfold recover_edit. destruct (has_comparator_ edit); cbn [andb]; [|by destruct (Builder_Apply _ _ _ _)].
  rewrite bool_decide_true by (by apply Hc). by destruct (Builder_Apply _ _ _ _).
Qed.

Lemma Recover_loop_layout fuel fragss edits reader off s r :
  Forall2 is_record fragss (map (fun edit => encoded edit) edits) -> Forall edit_fits edits -> rd_at reader off s ->
  s `prefix_of` layout extend off (concat fragss) -> frags_fit off (concat fragss) -> (length s < fuel)%nat -> rv_status r = OK ->
  exists k reader', Recover_loop ucmp cmp_name extend fuel reader r = Some (replayed r (take k edits), reader') /\ (k <= length edits)%nat /\
    forall j, (j <= length edits)%nat -> layout extend off (concat (take j fragss)) `prefix_of` s -> (j <= k)%nat.
Proof.
  intros Hrecs Hfits. revert fuel fragss reader off s r Hrecs.
  induction Hfits as [|edit edits Hfit Hfits IH]; intros fuel fragss reader off s r Hrecs Hr Hp Hff Hfuel Hst; (destruct fuel as [|fuel]; [lia|]);
    cbn [map] in Hrecs; inversion Hrecs as [|frags rec fragss' recs Hrec Hrecs']; subst.
  - apply prefix_nil_inv in Hp. subst s. destruct (ReadRecord_end extend reader off Hr) as (r' & E & Hc). cbn [Recover_loop]. rewrite E. cbn [mbind option_bind].
    rewrite (report_none _ _ _ Hc). exists 0%nat, r'. split_and!; [|done|intros j Hj _; cbn in Hj; lia]. by destruct r.
  - cbn [concat] in Hp, Hff. destruct (ReadRecord_layout extend frags (concat fragss') _ reader off s Hrec Hr Hp Hff)
      as [(s' & r' & E & Es & Hp' & Hr' & Hc)|(r' & E & Hlt & Hc)]; cbn [Recover_loop]; rewrite E; cbn [mbind option_bind]; rewrite (report_none _ _ _ Hc).
    + cbn [set_status rv_status]. rewrite Hst, ok_OK. cbn [negb]. rewrite DecodeFrom_Encode by apply Hfit. cbn [mbind option_bind].
      assert (MkVars OK (rv_log_number r) (rv_prev_log_number r) (rv_next_file r) (rv_last_sequence r) (rv_compact_pointer r) (rv_builder r) = r) as Er by (destruct r; cbn in Hst; by subst).
      unfold set_status. rewrite Er. apply frags_fit_app in Hff as [_ Hff']. pose proof (is_record_layout_pos extend off _ _ Hrec) as Hlp.
      destruct (IH fuel fragss' r' (end_off off frags) s' (recover_edit ucmp cmp_name edit r)) as (k & reader' & -> & Hk & Hj); try done.
      { subst s. rewrite length_app in Hfuel. lia. }
      { by apply recover_edit_status. }
      exists (S k), reader'. split_and!; [done|cbn; lia|]. intros [|j] Hjl Hpre; [lia|]. apply le_n_S, Hj; [cbn in Hjl; lia|].
      cbn [take concat] in Hpre. rewrite layout_app, Es in Hpre. by apply prefix_app_inv in Hpre.
    + exists 0%nat, r'. split_and!; [by destruct r|lia|]. intros [|j] Hjl Hpre; [lia|]. exfalso. cbn [take concat] in Hpre. rewrite layout_app in Hpre.
      apply prefix_length in Hpre. rewrite length_app in Hpre. lia.
Qed.

(** * What is replayed *)

(** The edits the newest of which has all the numbers. *)
Definition numbered (hist : list VersionEdit) : Prop :=
  match hist with
  | [] => False
  | edit :: rest => has_log_number_ edit = true /\ has_next_file_number_ edit = true /\ has_last_sequence_ edit = true /\
      (has_prev_log_number_ edit = true \/ (rest = [] /\ prev_log_number_ edit = 0))
  end.

Definition newest_edit (hist : list VersionEdit) : VersionEdit := default NewVersionEdit (head hist).

Definition start_vars (pointers : list slice) : RecoverVars := MkVars OK None None None None pointers (NewBuilder NewVersion).

Lemma replayed_snoc r edits edit : replayed r (edits ++ [edit]) = recover_edit ucmp cmp_name edit (replayed r edits).
Proof. unfold replayed. by rewrite foldl_app. Qed.

Lemma recover_edit_builder edit r : edit_fits edit -> rv_builder (recover_edit ucmp cmp_name edit r) = (Builder_Apply ucmp edit (rv_compact_pointer r) (rv_builder r)).2.
Proof.
  intros [_ Hc]. unfold recover_edit. destruct (has_comparator_ edit); cbn [andb]; [rewrite bool_decide_true by (by apply Hc)|]; done.
Qed.

Lemma replayed_spec pointers hist :
  Forall edit_fits hist -> fresh_history hist -> numbered hist ->
  let r := replayed (start_vars pointers) (reverse hist) in let edit := newest_edit hist in
  rv_status r = OK /\ built ucmp hist (rv_builder r) /\ rv_log_number r = Some (log_number_ edit) /\ rv_next_file r = Some (next_file_number_ edit) /\
  rv_last_sequence r = Some (last_sequence_ edit) /\ default 0 (rv_prev_log_number r) = prev_log_number_ edit.
Proof.
  intros Hf Hh Hn r edit. assert (built ucmp hist (rv_builder r)) as Hb.
  { unfold r. clear Hn r edit. induction hist as [|edit hist IH]; [apply built_nil|]. apply Forall_cons in Hf as [Hf1 Hf]. destruct Hh as [Hfe Hh].
    rewrite reverse_cons, replayed_snoc, recover_edit_builder by done. apply built_cons; [done..|]. by apply IH. }
  destruct hist as [|e hist]; [done|]. cbn [newest_edit head default] in *. apply Forall_cons in Hf as [Hfe Hf]. destruct Hn as (H1 & H2 & H3 & H4).
  unfold r. rewrite reverse_cons, replayed_snoc. split; [by apply recover_edit_status|]. split; [by rewrite <-replayed_snoc, <-reverse_cons|].
  unfold recover_edit. destruct (if ok _ then _ else _) as [cp b]. cbn [rv_log_number rv_next_file rv_last_sequence rv_prev_log_number]. unfold or_else. rewrite H1, H2, H3.
  split_and!; [done..|]. destruct H4 as [->|[-> E]]; [done|]. cbn. destruct (has_prev_log_number_ e); [done|]. symmetry. exact E.
Qed.

(** * [Recover] *)

Context (dbname : slice) (max_file_size : Z) (reuse_logs : bool).

Abbreviation Recover := (Recover ucmp cmp_name extend dbname max_file_size reuse_logs).

Definition pointers_ok (pointers : list slice) : Prop := Forall (fun p => is_u32 (slen p)) pointers.

Lemma Builder_Apply_pointers edit cp b : edit_ok edit -> pointers_ok cp -> pointers_ok (Builder_Apply ucmp edit cp b).1.
Proof.
  intros [Ho _ _ _ _ _ _ _] Hcp. cbn [Builder_Apply fst]. unfold ops_of in Ho. rewrite !Forall_app in Ho. destruct Ho as (_ & _ & _ & _ & _ & Ho & _).
  rewrite Forall_map in Ho. revert cp Hcp. induction Ho as [|[level key] cps [_ [_ Hk]] _ IH]; intros cp Hcp; cbn [foldl]; [done|].
  apply IH. by apply Forall_insert.
Qed.

Lemma replayed_pointers edits r : Forall edit_fits edits -> pointers_ok (rv_compact_pointer r) -> pointers_ok (rv_compact_pointer (replayed r edits)).
Proof.
  intros H. revert r. induction H as [|edit edits Hf _ IH]; intros r Hr; [done|]. cbn [replayed foldl]. apply IH. unfold recover_edit. destruct (ok _); cbn [rv_compact_pointer]; [|done].
  pose proof (Builder_Apply_pointers edit _ (rv_builder r) (proj1 Hf) Hr) as H. by destruct (Builder_Apply _ _ _ _).
Qed.

(** CURRENT names a descriptor file with a prefix of the records of the edits. *)
Record described (e : EnvState) (n : Z) (s : slice) (fragss : list (list (RecordType * slice))) (edits : list VersionEdit) : Prop := {
  de_faults : env_faults e = [];
  de_number : is_u64 n;
  de_current : env_files e !! CurrentFileName dbname = Some ((lit "MANIFEST-" ++ decimal06 n) ++ [x0a]);
  de_file : env_files e !! DescriptorFileName dbname n = Some s;
  de_records : Forall2 is_record fragss (map (fun edit => encoded edit) edits);
  de_fit : frags_fit 0 (concat fragss);
  de_prefix : s `prefix_of` layout extend 0 (concat fragss);
  de_edits : Forall edit_fits edits;
}.

(** The numbers and the files of a history. *)
Record recorded (hist : list VersionEdit) (vs : VersionSet) : Prop := {
  re_files : holds ucmp hist (current vs);
  re_log : vs_log_number vs = log_number_ (newest_edit hist);
  re_prev : vs_prev_log_number vs = prev_log_number_ (newest_edit hist);
}.

Definition descriptor_state (n : Z) (s : slice) (next : Z) (vs : VersionSet) : Prop :=
  match vs_descriptor_log vs with
  | None => vs_manifest_file_number vs = next
  | Some (fname, w) => fname = DescriptorFileName dbname n /\ vs_manifest_file_number vs = n /\ wf_contents (dest_ w) = s /\
      0 <= block_offset_ w <= kBlockSize /\ block_offset_ w mod kBlockSize = slen s mod kBlockSize
  end.

Lemma holds_files hist v v' : files_ v = files_ v' -> holds ucmp hist v -> holds ucmp hist v'.
Proof. intros E. unfold holds, level_files. by rewrite E. Qed.

Lemma holds_same hist v v' : map (map applied_file) (files_ v') = map (map applied_file) (files_ v) -> holds ucmp hist v -> holds ucmp hist v'.
Proof.
  intros E [Hlen H]. split; [by apply (f_equal length) in E; rewrite !length_map in E; congruence|]. intros level Hl. destruct (H level Hl) as (Hk & Ho & Hm).
  assert (map applied_file (level_files v' level) = map applied_file (level_files v level)) as El.
  { unfold level_files. rewrite <-!(map_nth (map applied_file)). cbn [map]. by rewrite E. }
  destruct (applied_ordered ucmp _ Hk Ho) as [Hk' Ho']. rewrite <-El in Hk', Ho'. rewrite Forall_map in Hk'. split; [done|]. split; [|by rewrite El].
  clear -Ho'. induction (level_files v' level) as [|f l IH]; [constructor|]. apply StronglySorted_inv in Ho' as [Ho' Hall]. constructor; [by apply IH|]. by apply (proj1 (Forall_map _ _ _)) in Hall.
Qed.

Lemma current_update v vs : current (update_current v vs) = v.
Proof. destruct vs as [n m s g p d l i c]. unfold current, current_live, update_current, set_versions. cbn [VersionSet.vs_versions]. by rewrite last_snoc. Qed.

Lemma current_AppendVersion v vs : current (AppendVersion v vs) = v.
Proof. unfold AppendVersion. destruct (if decide _ then _ else _) as [n m s g p d l i c]. unfold current, current_live. cbn [vs_versions]. by rewrite last_snoc. Qed.

Lemma AppendVersion_fields v vs :
  exists l i, AppendVersion v vs = MkVersionSet (vs_next_file_number vs) (vs_manifest_file_number vs) (vs_last_sequence vs) (vs_log_number vs) (vs_prev_log_number vs)
    (vs_descriptor_log vs) l i (vs_compact_pointer vs).
Proof. destruct vs as [n m s g p d l i c]. unfold AppendVersion. case_decide; by eexists _, _. Qed.

Lemma MarkFileNumberUsed_fields number vs :
  vs_descriptor_log (MarkFileNumberUsed number vs) = vs_descriptor_log vs /\ vs_compact_pointer (MarkFileNumberUsed number vs) = vs_compact_pointer vs.
Proof. unfold MarkFileNumberUsed. destruct vs. by destruct (_ <=? _). Qed.

Lemma current_set_numbers n m s g p vs : current (set_numbers n m s g p vs) = current vs.
Proof. by destruct vs. Qed.

Lemma ReuseManifest_spec n s vs e :
  is_u64 n -> env_faults e = [] -> env_files e !! DescriptorFileName dbname n = Some s -> vs_descriptor_log vs = None ->
  exists reused vs', ReuseManifest max_file_size reuse_logs (DescriptorFileName dbname n) (lit "MANIFEST-" ++ decimal06 n) vs e = (reused, vs', e) /\
    descriptor_state n s (vs_manifest_file_number vs) vs' /\ vs_versions vs' = vs_versions vs /\ vs_compact_pointer vs' = vs_compact_pointer vs /\
    vs_next_file_number vs' = vs_next_file_number vs /\ vs_last_sequence vs' = vs_last_sequence vs /\
    vs_log_number vs' = vs_log_number vs /\ vs_prev_log_number vs' = vs_prev_log_number vs.
Proof.
  intros Hn He Hs Hd. assert (descriptor_state n s (vs_manifest_file_number vs) vs) as Hsame by (unfold descriptor_state; by rewrite Hd).
  unfold ReuseManifest. destruct reuse_logs; cbn [negb]; [|by exists false, vs]. rewrite ParseFileName_manifest by done.
  destruct e as [files faults]. cbn in He, Hs. subst faults. unfold GetFileSize. cbn [next_fault env_faults env_files]. rewrite Hs, ok_OK. cbn [negb orb].
  destruct (TargetFileSize max_file_size <=? slen s); [by exists false, vs|]. unfold NewAppendableFile. cbn [next_fault env_faults env_files]. rewrite Hs. cbn [default].
  unfold with_files. cbn [env_files env_faults]. rewrite insert_id by done. eexists true, _. split; [done|]. destruct vs. cbn. split_and!; try done.
  - pose proof (Z.mod_pos_bound (slen s) kBlockSize). unfold kBlockSize in *. lia.
  - pose proof (Z.mod_pos_bound (slen s) kBlockSize). unfold kBlockSize in *. lia.
  - apply Z.mod_mod. done.
Qed.

(** What [Recover] makes of a history of edits. *)
Definition recovered (e : EnvState) (n : Z) (s : slice) (hist : list VersionEdit) : Prop :=
  let next := next_file_number_ (newest_edit hist) in
  exists save vs, Recover NewVersionSet e = Some (OK, save, vs, e) /\ recorded hist vs /\ pointers_ok (vs_compact_pointer vs) /\
    vs_next_file_number vs = u64 (next + 1) /\ vs_last_sequence vs = last_sequence_ (newest_edit hist) /\ descriptor_state n s next vs.

Lemma install_recovered_spec n s r hist vs e :
  is_u64 n -> env_faults e = [] -> env_files e !! DescriptorFileName dbname n = Some s -> vs_descriptor_log vs = None ->
  let edit := newest_edit hist in
  rv_status r = OK -> built ucmp hist (rv_builder r) -> rv_log_number r = Some (log_number_ edit) -> rv_next_file r = Some (next_file_number_ edit) ->
  rv_last_sequence r = Some (last_sequence_ edit) -> default 0 (rv_prev_log_number r) = prev_log_number_ edit -> pointers_ok (rv_compact_pointer r) ->
  exists save vs', install_recovered ucmp max_file_size reuse_logs (DescriptorFileName dbname n) (lit "MANIFEST-" ++ decimal06 n) r vs e = (OK, save, vs', e) /\
    recorded hist vs' /\ pointers_ok (vs_compact_pointer vs') /\ vs_next_file_number vs' = u64 (next_file_number_ edit + 1) /\
    vs_last_sequence vs' = last_sequence_ edit /\ descriptor_state n s (next_file_number_ edit) vs'.
Proof.
  intros Hn He Hs Hd edit Hst Hb Hl Hnext Hseq Hprev Hp. unfold install_recovered. rewrite Hst, ok_OK. cbn [negb]. rewrite Hprev, Hl, Hnext, Hseq. cbn [default].
  set (vs1 := AppendVersion _ _).
  assert (current vs1 = Finalize (SaveTo ucmp (rv_builder r)) /\ vs_descriptor_log vs1 = None /\ vs_compact_pointer vs1 = rv_compact_pointer r) as (E1 & E2 & E3).
  { split; [apply current_AppendVersion|]. unfold vs1. match goal with |- context [AppendVersion ?v ?x] => destruct (AppendVersion_fields v x) as (l & i & ->) end. cbn.
    rewrite !(proj1 (MarkFileNumberUsed_fields _ _)), !(proj2 (MarkFileNumberUsed_fields _ _)). by destruct vs. }
  destruct (ReuseManifest_spec n s (set_numbers (u64 (next_file_number_ edit + 1)) (next_file_number_ edit) (last_sequence_ edit) (log_number_ edit) (prev_log_number_ edit) vs1) e Hn He Hs)
    as (reused & vs2 & -> & H1 & H2 & H3 & H4 & H5 & H6 & H7); [by destruct vs1|].
  exists (negb reused), vs2. split; [done|]. assert (current vs2 = current vs1) as Ec by (unfold current, current_live; rewrite H2; by destruct vs1).
  split; [|split; [|by destruct vs1]].
  - split; [|by destruct vs1|by destruct vs1]. rewrite Ec, E1. apply (holds_files _ (SaveTo ucmp (rv_builder r))); [by rewrite files_Finalize|]. by apply built_SaveTo.
  - rewrite H3. assert (vs_compact_pointer (set_numbers (u64 (next_file_number_ edit + 1)) (next_file_number_ edit) (last_sequence_ edit) (log_number_ edit) (prev_log_number_ edit) vs1) =
      rv_compact_pointer r) as ->; [|done]. rewrite <-E3. by destruct vs1.
Qed.

(** The history that is recovered has all the records of the prefix, and is one that was written. *)
Lemma Recover_described e n s fragss edits j :
  described e n s fragss edits -> (j <= length edits)%nat -> layout extend 0 (concat (take j fragss)) `prefix_of` s ->
  exists k, (j <= k <= length edits)%nat /\
    let hist := reverse (take k edits) in (fresh_history hist -> numbered hist -> recovered e n s hist).
Proof.
  intros [He Hn Hc Hs Hrec Hfit Hp Hed] Hj Hpre.
  rewrite <-(layout_block extend) in Hp, Hpre. rewrite <-frags_fit_block in Hfit.
  destruct (Recover_loop_layout (S (length s)) fragss edits (NewReader (MkSequentialFile s []) true true 0) kBlockSize s (start_vars (vs_compact_pointer NewVersionSet)))
    as (k & reader' & E & Hk & Hjk); [done|done|apply rd_at_NewReader|done|done|lia|done|].
  exists k. split; [split; [by apply Hjk|done]|]. intros hist Hfresh Hnum.
  assert (Forall edit_fits hist) as Hfh by (unfold hist; apply Forall_reverse, Forall_take; done).
  destruct (replayed_spec (vs_compact_pointer NewVersionSet) hist Hfh Hfresh Hnum) as (R1 & R2 & R3 & R4 & R5 & R6). unfold hist in R1, R2, R3, R4, R5, R6. rewrite reverse_involutive in R1, R2, R3, R4, R5, R6.
  fold hist in R2, R3, R4, R5, R6. set (r := replayed _ (take k edits)) in *.
  assert (pointers_ok (rv_compact_pointer r)) as Hpo by (apply replayed_pointers; [by apply Forall_take|change (pointers_ok (replicate 7 [])); apply Forall_replicate; by vm_compute]).
  destruct (install_recovered_spec n s r hist NewVersionSet e Hn He Hs) as (save & vs & Ei & H1 & H2 & H3 & H4 & H5); [done..|].
  exists save, vs. split; [|done]. unfold VersionSet.Recover. rewrite (ReadFileToString_spec _ _ _ He Hc). cbn [mbind option_bind]. rewrite ok_OK. cbn [negb].
  rewrite bool_decide_false by (by destruct (lit "MANIFEST-" ++ decimal06 n)). rewrite last_snoc, bool_decide_true by done. cbn [orb negb].
  rewrite length_app, Nat.add_sub, take_app_length. change (dbname ++ lit "/" ++ lit "MANIFEST-" ++ decimal06 n) with (dbname ++ x2f :: lit "MANIFEST-" ++ decimal06 n).
  rewrite <-DescriptorFileName_eq by done. destruct e as [files faults]. cbn in He, Hs. subst faults. unfold NewSequentialFile. cbn [next_fault env_faults env_files]. rewrite Hs.
  cbn [map fmap list_fmap env_faults]. unfold start_vars in E. change (NewBuilder (current NewVersionSet)) with (NewBuilder NewVersion). rewrite E. cbn [mbind option_bind]. fold r.
  rewrite drop_nil. cbn [env_files]. by rewrite Ei.
Qed.

(** * [LogAndApply] *)

Context (Hname : is_u32 (slen cmp_name)).

(** ** Edits *)

Lemma complete_edit_eq vs edit :
  complete_edit vs edit =
    foldl apply_op edit (opt_op (negb (has_log_number_ edit)) (OpLogNumber (vs_log_number vs)) ++
      opt_op (negb (has_prev_log_number_ edit)) (OpPrevLogNumber (vs_prev_log_number vs)) ++ [OpNextFile (vs_next_file_number vs); OpLastSequence (vs_last_sequence vs)]).
Proof. unfold complete_edit. destruct edit as [c l p n s [] [] [] bn bs cp df nf]; done. Qed.

(** The numbers that [LogAndApply] puts in an edit. *)
Definition numbers_ok (vs : VersionSet) : Prop :=
  is_u64 (vs_log_number vs) /\ is_u64 (vs_prev_log_number vs) /\ is_u64 (vs_next_file_number vs) /\ is_u64 (vs_last_sequence vs).

Lemma complete_edit_fits vs edit : numbers_ok vs -> edit_fits edit -> edit_fits (complete_edit vs edit).
Proof.
  intros (H1 & H2 & H3 & H4) [Ho Hc]. split.
  - rewrite complete_edit_eq. apply edit_ok_foldl; [done|]. rewrite !Forall_app, !opt_op_ok. split_and!; [done..|]. constructor; [done|]. by constructor.
  - unfold complete_edit. destruct edit as [c l p n s [] [] [] bn bs cp df nf]; done.
Qed.

Lemma complete_edit_fields vs edit :
  let edit' := complete_edit vs edit in
  new_files_ edit' = new_files_ edit /\ deleted_files_ edit' = deleted_files_ edit /\ next_file_number_ edit' = vs_next_file_number vs /\
  last_sequence_ edit' = vs_last_sequence vs /\ forall hist, numbered (edit' :: hist).
Proof. unfold complete_edit. destruct edit as [c l p n s bc [] [] bn bs cp df nf]; cbn; split_and!; try done; intros; by auto. Qed.

Lemma edit_ok_numbers edit : edit_ok edit -> is_u64 (log_number_ edit) /\ is_u64 (prev_log_number_ edit) /\ is_u64 (next_file_number_ edit).
Proof.
  intros [Ho _ H1 H2 H3 _ _ _]. unfold ops_of in Ho. rewrite !Forall_app, !opt_op_ok in Ho. destruct Ho as (_ & O1 & O2 & O3 & _).
  assert (is_u64 0) as H0 by (by vm_compute). destruct (has_log_number_ edit), (has_prev_log_number_ edit), (has_next_file_number_ edit);
    split_and!; try (by apply O1); try (by apply O2); try (by apply O3); rewrite ?H1, ?H2, ?H3 by done; done.
Qed.

Lemma edit_ok_file edit level f : edit_ok edit -> (level, f) ∈ new_files_ edit ->
  f = NewFile (number f) (file_size f) (smallest f) (largest f) /\ op_ok (OpAddFile level (number f) (file_size f) (smallest f) (largest f)).
Proof.
  intros [Ho _ _ _ _ _ _ Hf] Hin. split; [exact (proj1 (Forall_forall _ _) Hf _ Hin)|]. unfold ops_of in Ho. rewrite !Forall_app in Ho.
  destruct Ho as (_ & _ & _ & _ & _ & _ & _ & Ho). rewrite Forall_map in Ho. exact (proj1 (Forall_forall _ _) Ho _ Hin).
Qed.

(** ** The snapshot *)

(** The files of a version as an edit adds them. *)
Definition snapshot_files (v : Version) : list (Z * FileMetaData) :=
  concat (map (fun level => map (fun f => (level, NewFile (number f) (file_size f) (smallest f) (largest f))) (level_files v level)) (seqZ 0 kNumLevels)).

Definition snapshot_pointers (pointers : list slice) : list (Z * InternalKey) :=
  concat (map (fun level => let p := nth (Z.to_nat level) pointers [] in if bool_decide (p = []) then [] else [(level, MkInternalKey p)]) (seqZ 0 kNumLevels)).

Lemma foldl_AddFile level l edit :
  foldl (fun edit f => AddFile level (number f) (file_size f) (smallest f) (largest f) edit) edit l =
    let 'MkEdit c lg p n s bc bl bp bn bs cp df nf := edit in
    MkEdit c lg p n s bc bl bp bn bs cp df (nf ++ map (fun f => (level, NewFile (number f) (file_size f) (smallest f) (largest f))) l).
Proof.
  revert edit. induction l as [|f l IH]; intros [c lg p n s bc bl bp bn bs cp df nf]; cbn [foldl map]; [by rewrite app_nil_r|].
  rewrite IH. cbn [AddFile push_new_file]. by rewrite <-app_assoc.
Qed.

Lemma snapshot_edit_eq vs :
  snapshot_edit cmp_name vs = MkEdit cmp_name 0 0 0 0 true false false false false (snapshot_pointers (vs_compact_pointer vs)) [] (snapshot_files (current vs)).
Proof.
  unfold snapshot_edit, snapshot_pointers, snapshot_files. set (levels := seqZ 0 kNumLevels).
  assert (forall ls cp, foldl (fun edit level => let pointer := nth (Z.to_nat level) (vs_compact_pointer vs) [] in
      if bool_decide (pointer = []) then edit else SetCompactPointer level (InternalKey_DecodeFrom pointer).1 edit) (MkEdit cmp_name 0 0 0 0 true false false false false cp [] []) ls =
    MkEdit cmp_name 0 0 0 0 true false false false false (cp ++ concat (map (fun level => let p := nth (Z.to_nat level) (vs_compact_pointer vs) [] in
      if bool_decide (p = []) then [] else [(level, MkInternalKey p)]) ls)) [] []) as H1.
  { intros ls. induction ls as [|level ls IH]; intros cp; cbn [foldl map concat]; [by rewrite app_nil_r|]. cbv zeta. case_bool_decide; [by rewrite IH|].
    cbn [SetCompactPointer]. rewrite IH, <-app_assoc. done. }
  assert (forall ls c nf, foldl (fun edit level => foldl (fun edit f => AddFile level (number f) (file_size f) (smallest f) (largest f) edit) edit (level_files (current vs) level))
      (MkEdit cmp_name 0 0 0 0 true false false false false c [] nf) ls =
    MkEdit cmp_name 0 0 0 0 true false false false false c [] (nf ++ concat (map (fun level => map (fun f => (level, NewFile (number f) (file_size f) (smallest f) (largest f))) (level_files (current vs) level)) ls))) as H2.
  { intros ls. induction ls as [|level ls IH]; intros c nf; cbn [foldl map concat]; [by rewrite app_nil_r|]. rewrite foldl_AddFile, IH, <-app_assoc. done. }
  cbn [SetComparatorName NewVersionEdit]. rewrite H1, H2. done.
Qed.

Lemma elem_of_snapshot level f v :
  (level, f) ∈ snapshot_files v <-> level_ok level /\ exists g, g ∈ level_files v level /\ f = NewFile (number g) (file_size g) (smallest g) (largest g).
Proof.
  unfold snapshot_files. rewrite list_elem_of_In, in_concat. setoid_rewrite in_map_iff. split.
  - intros (l & (lv & <- & Hlv) & Hin). apply in_map_iff in Hin as (g & [= <- <-] & Hg). apply list_elem_of_In, elem_of_seqZ in Hlv. apply list_elem_of_In in Hg.
    split; [unfold level_ok; lia|]. by exists g.
  - intros (Hl & g & Hg & ->). eexists. split; [exists level; split; [done|apply list_elem_of_In, elem_of_seqZ; unfold level_ok in Hl; lia]|].
    apply in_map_iff. exists g. by rewrite <-list_elem_of_In.
Qed.

(** A file of a history is as an edit of it has it. *)
Lemma live_new level hist g : live level hist g -> exists edit, edit ∈ hist /\ new_at level (new_files_ edit) g.
Proof.
  induction hist as [|edit hist IH]; [done|]. intros [[Hg _]|Hg]; [|exists edit; split; [left|done]].
  destruct (IH Hg) as (edit' & He & Hn). exists edit'. split; [by right|done].
Qed.

(** In a fresh history a level has one file of a number. *)
Lemma live_inj level hist f g : fresh_history hist -> live level hist f -> live level hist g -> number f = number g -> f = g.
Proof.
  intros Hh. induction hist as [|edit hist IH]; [done|]. destruct Hh as [[(_ & _ & Hnd) Hfe] Hh]. intros [[Hf _]|(f0 & Hf & ->)] [[Hg _]|(g0 & Hg & ->)] En.
  - by apply IH.
  - exfalso. apply (Hfe _ Hg). unfold file_key. cbn in En |- *. rewrite <-En. by apply live_used.
  - exfalso. apply (Hfe _ Hf). unfold file_key. cbn in En |- *. rewrite En. by apply live_used.
  - f_equal. cbn in En. apply list_elem_of_lookup in Hf as [i Ei], Hg as [j Ej].
    assert (i = j) as ->; [|rewrite Ei in Ej; by injection Ej].
    apply (NoDup_lookup _ i j (level, number f0) Hnd); rewrite list_lookup_fmap, ?Ei, ?Ej; cbn; [done|]. unfold file_key. cbn. by rewrite En.
Qed.

Lemma applied_again f : applied_file (NewFile (number (applied_file f)) (file_size (applied_file f)) (smallest (applied_file f)) (largest (applied_file f))) = applied_file f.
Proof. done. Qed.

Section snapshot.
Context (hist : list VersionEdit) (vs : VersionSet) (Hfits : Forall edit_fits hist) (Hfresh : fresh_history hist) (Hholds : holds ucmp hist (current vs)).

Lemma current_file level g : level_ok level -> g ∈ level_files (current vs) level ->
  has_key g /\ op_ok (OpAddFile level (number g) (file_size g) (smallest g) (largest g)).
Proof.
  intros Hl Hg. destruct (proj2 Hholds level Hl) as (Hk & _ & Hm). split; [by apply (proj1 (Forall_forall _ _) Hk)|]. apply (list_elem_of_fmap_2 applied_file), Hm, live_new in Hg as (edit & He & f & Hf & Ef).
  destruct (proj1 (Forall_forall _ _) Hfits edit He) as [Hok _]. injection Ef as _ -> -> -> ->. by apply (edit_ok_file edit level f Hok Hf).
Qed.

Lemma snapshot_fresh : fresh_edit [] (snapshot_edit cmp_name vs).
Proof.
  rewrite snapshot_edit_eq. split; [|intros nf _ H; by apply elem_of_nil in H]. unfold edit_files_ok. cbn [new_files_ deleted_files_]. split_and!; [|constructor|].
  - apply Forall_forall. intros [level f] (Hl & g & Hg & ->)%elem_of_snapshot. split; [done|]. by apply (current_file level g).
  - unfold snapshot_files. assert (Forall level_ok (seqZ 0 kNumLevels)) as Hls.
    { apply Forall_forall. intros level Hin%elem_of_seqZ. unfold level_ok. lia. }
    pose proof (NoDup_seqZ 0 kNumLevels) as Hnd. induction (seqZ 0 kNumLevels) as [|level ls IH]; [constructor|]. apply Forall_cons in Hls as [Hl Hls].
    apply NoDup_cons in Hnd as [Hni Hnd]. cbn [map concat]. rewrite map_app. apply NoDup_app. split_and!; [|intros [lv n] H1 H2|by apply IH].
    + rewrite map_map. destruct (proj2 Hholds level Hl) as (Hk & Ho & Hm). destruct (applied_ordered ucmp _ Hk Ho) as [Hk' Ho'].
      change (NoDup (map (fun f => (level, number (applied_file f))) (level_files (current vs) level))). rewrite <-(map_map applied_file (fun f => (level, number f))).
      apply NoDup_fmap_2_strong; [|by apply (ordered_NoDup ucmp)]. intros f g Hf Hg [= En]. apply (live_inj level hist); [done|by apply Hm|by apply Hm|done].
    + rewrite map_map in H1. apply list_elem_of_fmap in H1 as (f & [= -> _] & _). apply list_elem_of_fmap in H2 as ([lv' f'] & [= -> _] & Hin).
      apply list_elem_of_In, in_concat in Hin as (l & Hl1 & Hin). apply in_map_iff in Hl1 as (lv & <- & Hlv). apply in_map_iff in Hin as (g & [= -> _] & _).
      apply Hni. by apply list_elem_of_In.
Qed.

Lemma snapshot_holds : holds ucmp [snapshot_edit cmp_name vs] (current vs).
Proof.
  split; [apply Hholds|]. intros level Hl. destruct (proj2 Hholds level Hl) as (Hk & Ho & Hm). split_and!; [done..|]. intros g. rewrite snapshot_edit_eq. cbn [live new_files_]. split.
  - intros (f & -> & Hf)%list_elem_of_fmap. right. eexists. split; [apply elem_of_snapshot; split; [done|]; by exists f|done].
  - intros [[[] _]|(f & Hf & ->)]. apply elem_of_snapshot in Hf as (_ & g & Hg & ->). apply list_elem_of_fmap. by exists g.
Qed.

Lemma snapshot_fits : pointers_ok (vs_compact_pointer vs) -> edit_fits (snapshot_edit cmp_name vs).
Proof.
  intros Hp. rewrite snapshot_edit_eq. split; [|done]. split; try done; [|constructor|].
  - unfold ops_of. rewrite !Forall_app, !opt_op_ok. cbn [has_comparator_ has_log_number_ has_prev_log_number_ has_next_file_number_ has_last_sequence_ comparator_
      compact_pointers_ deleted_files_ new_files_]. split_and!; try done; rewrite Forall_map; apply Forall_forall.
    + intros [level k] Hin. unfold snapshot_pointers in Hin. apply list_elem_of_In, in_concat in Hin as (l & Hl & Hin). apply in_map_iff in Hl as (lv & <- & Hlv).
      cbv zeta in Hin. case_bool_decide as Hb; [done|]. destruct Hin as [[= <- <-]|[]]. apply list_elem_of_In, elem_of_seqZ in Hlv. cbn. split; [unfold level_ok; lia|]. split; [done|]. cbn.
      destruct (nth_in_or_default (Z.to_nat lv) (vs_compact_pointer vs) []) as [Hn|Hn]; [|done]. apply list_elem_of_In in Hn. exact (proj1 (Forall_forall _ _) Hp _ Hn).
    + intros [level f] (Hl & g & Hg & ->)%elem_of_snapshot. by apply (current_file level g).
  - apply Forall_forall. by intros [level f] (Hl & g & Hg & ->)%elem_of_snapshot.
Qed.
End snapshot.

(** ** The invariant *)

Abbreviation LogAndApply := (LogAndApply ucmp cmp_name extend dbname).

(** The descriptor that CURRENT names has the records of a history, which is that of the current version; [used] are the
    files that were ever added. *)
Record consistent (used : list (Z * Z)) (vs : VersionSet) (e : EnvState) (n : Z) (fragss : list (list (RecordType * slice))) (hist : list VersionEdit) : Prop := {
  co_described : described e n (layout extend 0 (concat fragss)) fragss (reverse hist);
  co_fresh : fresh_history hist;
  co_numbered : numbered hist;
  co_used k : k ∈ used_by hist -> k ∈ used;
  co_recorded : recorded hist vs;
  co_pointers : pointers_ok (vs_compact_pointer vs);
  co_numbers : is_u64 (vs_last_sequence vs) /\ n < next_file_number_ (newest_edit hist) <= vs_next_file_number vs /\ vs_next_file_number vs + 1 < 2 ^ 64;
  co_descriptor : descriptor_state n (layout extend 0 (concat fragss)) (next_file_number_ (newest_edit hist)) vs;
  co_closed : vs_descriptor_log vs = None -> next_file_number_ (newest_edit hist) < vs_next_file_number vs;
  co_given : Forall (fun k => k.2 < next_file_number_ (newest_edit hist)) used;
}.

(** The numbers of the files of an edit were given out. *)
Definition given (vs : VersionSet) (edit : VersionEdit) : Prop := Forall (fun nf => number nf.2 < vs_next_file_number vs) (new_files_ edit).

Lemma given_used vs edit used next : given vs edit -> Forall (fun k => k.2 < next) used -> next <= vs_next_file_number vs -> Forall (fun k => k.2 < vs_next_file_number vs) (map file_key (new_files_ edit) ++ used).
Proof. intros Hg Hu Hle. apply Forall_app. split; [apply Forall_map; eapply Forall_impl; [exact Hg|]; by intros [l f]|]. eapply Forall_impl; [exact Hu|]. cbn. lia. Qed.

Lemma newest_edit_fits hist : Forall edit_fits hist -> numbered hist -> edit_fits (newest_edit hist).
Proof. destruct hist as [|edit hist]; [done|]. by intros [H _]%Forall_cons. Qed.

Lemma consistent_numbers used vs e n fragss hist : consistent used vs e n fragss hist -> numbers_ok vs /\ is_u64 n /\ is_u64 (next_file_number_ (newest_edit hist)).
Proof.
  intros [Hde _ Hnum _ [_ Hl Hp] _ (H1 & H2 & H3) _ _ _]. assert (Forall edit_fits hist) as Hf by (rewrite <-(reverse_involutive hist); apply Forall_reverse, Hde).
  destruct (edit_ok_numbers _ (proj1 (newest_edit_fits hist Hf Hnum))) as (N1 & N2 & N3). pose proof (de_number _ _ _ _ _ Hde) as Hn.
  split; [|done]. unfold numbers_ok. rewrite Hl, Hp. split_and!; [done..| |done]. unfold in_u in *. lia.
Qed.

(** The version that an edit makes, in the history of the descriptor. *)
Lemma applied_recorded hist edit cp d n m s vs :
  holds ucmp hist (current vs) -> fresh_edit (used_by hist) edit ->
  recorded (edit :: hist) (set_numbers n m s (log_number_ edit) (prev_log_number_ edit)
    (AppendVersion (Finalize (SaveTo ucmp (Builder_Apply ucmp edit cp (NewBuilder (current vs))).2)) (set_descriptor_log d (set_compact_pointer cp vs)))).
Proof.
  intros Hh Hf. split; [|by destruct (AppendVersion _ _)..]. rewrite current_set_numbers, current_AppendVersion.
  apply (holds_files _ (SaveTo ucmp (Builder_Apply ucmp edit cp (NewBuilder (current vs))).2)); [by rewrite files_Finalize|]. by apply holds_apply.
Qed.

Lemma fresh_edit_sub used used' edit : (forall k, k ∈ used' -> k ∈ used) -> fresh_edit used edit -> fresh_edit used' edit.
Proof. intros H [Hok Hf]. split; [done|]. intros nf Hnf Hin. exact (Hf nf Hnf (H _ Hin)). Qed.

(** A record appended to the descriptor. *)
Lemma write_edit_clean edit fname c off e :
  0 <= off <= kBlockSize ->
  exists frags, write_edit extend edit OK (Some (fname, clean c off)) e =
      (OK, Some (fname, clean (c ++ layout extend off frags) (end_off off frags)), MkEnv (<[fname := c ++ layout extend off frags]> (env_files e)) []) /\
    is_record frags (encoded edit) /\ frags_fit off frags.
Proof.
  intros Hoff. destruct (AddRecord_clean extend (encoded edit) c off Hoff) as (frags & E & Hr & Hf). exists frags. split; [|done].
  unfold write_edit. rewrite ok_OK, E, ok_OK. done.
Qed.

(** The offset of a writer behind the layout. *)
Lemma layout_continues fragss off frags :
  frags_fit 0 (concat fragss) -> 0 <= off <= kBlockSize -> off mod kBlockSize = slen (layout extend 0 (concat fragss)) mod kBlockSize -> frags_fit off frags ->
  layout extend 0 (concat (fragss ++ [frags])) = layout extend 0 (concat fragss) ++ layout extend off frags /\ frags_fit 0 (concat (fragss ++ [frags])) /\
  0 <= end_off off frags <= kBlockSize /\ end_off off frags mod kBlockSize = slen (layout extend 0 (concat (fragss ++ [frags]))) mod kBlockSize.
Proof.
  intros Hfit Hoff Hmod Hf. assert (0 <= 0 <= kBlockSize) as H0 by done. pose proof (end_off_range 0 _ H0 Hfit) as Hend. pose proof (layout_end extend 0 _ H0 Hfit) as Hm.
  rewrite Z.add_0_l in Hm. rewrite Hm in Hmod. rewrite concat_app. cbn [concat]. rewrite app_nil_r, layout_app.
  destruct (layout_mod extend off frags Hoff) as [E1 F1]. destruct (layout_mod extend (end_off 0 (concat fragss)) frags Hend) as [E2 F2]. rewrite Hmod in E1, F1.
  assert (layout extend (end_off 0 (concat fragss)) frags = layout extend off frags) as E by (by rewrite <-E1, E2).
  split; [by rewrite E|]. split; [apply frags_fit_app; split; [done|]; apply F2, F1, Hf|]. split; [by apply end_off_range|].
  rewrite E, length_app, Nat2Z.inj_add. rewrite <-(layout_end extend off frags Hoff Hf). rewrite Z.add_mod, Hmod, <-Hm, <-Z.add_mod by done. done.
Qed.

(** The fields of the version set behind a successful [LogAndApply]. *)
Lemma installed_fields cp d v g p vs :
  let vs1 := AppendVersion v (set_descriptor_log d (set_compact_pointer cp vs)) in
  let vs2 := set_numbers (vs_next_file_number vs1) (vs_manifest_file_number vs1) (vs_last_sequence vs1) g p vs1 in
  vs_next_file_number vs2 = vs_next_file_number vs /\ vs_manifest_file_number vs2 = vs_manifest_file_number vs /\ vs_last_sequence vs2 = vs_last_sequence vs /\
  vs_descriptor_log vs2 = d /\ vs_compact_pointer vs2 = cp.
Proof. cbv zeta. destruct (AppendVersion_fields v (set_descriptor_log d (set_compact_pointer cp vs))) as (l & i & ->). by destruct vs. Qed.

Lemma LogAndApply_open used vs e n fragss hist edit :
  consistent used vs e n fragss hist -> edit_fits edit -> fresh_edit used edit -> given vs edit -> vs_descriptor_log vs <> None ->
  let edit' := complete_edit vs edit in
  exists vs' e' frags, LogAndApply edit vs e = (OK, edit', vs', e') /\
    consistent (map file_key (new_files_ edit) ++ used) vs' e' n (fragss ++ [frags]) (edit' :: hist).
Proof.
  intros Hco Hfits Hfresh Hgiven Hopen edit'. destruct (consistent_numbers _ _ _ _ _ _ Hco) as (Hno & Hn & _). destruct Hco as [Hde Hh Hnum Hu [Hre Hl Hp] Hpo (Hs & Hnx & Hmax) Hd Hcl Hbd].
  pose proof (complete_edit_fits vs edit Hno Hfits) as Hfit'. destruct (complete_edit_fields vs edit) as (F1 & F2 & F3 & F4 & F5). fold edit' in Hfit', F1, F2, F3, F4, F5.
  assert (fresh_edit (used_by hist) edit') as Hfr.
  { apply (fresh_edit_sub used); [done|]. destruct Hfresh as [(A & B & C) D]. unfold fresh_edit, edit_files_ok. by rewrite F1, F2. }
  unfold VersionSet.LogAndApply. fold edit'. pose proof (Builder_Apply_pointers edit' _ (NewBuilder (current vs)) (proj1 Hfit') Hpo) as Hpo'.
  pose proof (fun cp d n m s => applied_recorded hist edit' cp d n m s vs Hre Hfr) as Hrec. cbn [Builder_Apply fst snd] in Hpo', Hrec |- *.
  set (cp := foldl apply_pointer _ _) in *. set (v := Finalize (SaveTo ucmp _)) in *.
  unfold descriptor_state in Hd. destruct (vs_descriptor_log vs) as [[fname w]|] eqn:Ed; [|done]. destruct Hd as (-> & Hm & Hc & Hoff & Hmod).
  unfold open_descriptor. assert (vs_descriptor_log (set_compact_pointer cp vs) = Some (DescriptorFileName dbname n, w)) as -> by (by destruct vs).
  pose proof Hde as [He _ Hcur Hfile Hrecs Hfit _ Hed]. unfold resume. rewrite He, Hc.
  destruct (write_edit_clean edit' (DescriptorFileName dbname n) (layout extend 0 (concat fragss)) (block_offset_ w) e Hoff) as (frags & E & Hr & Hf).
  unfold clean in E. rewrite E. rewrite ok_OK. cbn [andb]. rewrite ok_OK. set (d := Some _).
  destruct (layout_continues fragss (block_offset_ w) frags Hfit Hoff Hmod Hf) as (L1 & L2 & L3 & L4). rewrite <-L1 in *.
  pose proof (installed_fields cp d v (log_number_ edit') (prev_log_number_ edit') vs) as (I1 & I2 & I3 & I4 & I5). cbv zeta in I1, I2, I3, I4, I5.
  eexists _, _, frags. split; [reflexivity|]. split.
  - split; cbn [env_faults env_files]; [done|done| | | |done|done|].
    + rewrite lookup_insert_ne; [done|]. by apply DescriptorFileName_current.
    + by rewrite lookup_insert_eq.
    + rewrite reverse_cons, map_app. apply Forall2_app; [done|]. by repeat constructor.
    + rewrite reverse_cons. apply Forall_app. split; [done|]. by constructor.
  - split; [done|exact Hh].
  - apply F5.
  - intros k. rewrite used_by_cons, F1, !elem_of_app. intros [|Hk]; [by left|right; by apply Hu].
  - apply Hrec.
  - by rewrite I5.
  - rewrite I1, I3. change (newest_edit (edit' :: hist)) with edit'. rewrite F3. split; [done|]. lia.
  - unfold descriptor_state. rewrite I2, I4. cbn [dest_ wf_contents block_offset_ d]. done.
  - by rewrite I4.
  - change (newest_edit (edit' :: hist)) with edit'. rewrite F3. apply (given_used vs edit used _ Hgiven Hbd). lia.
Qed.


Lemma set_compact_pointer_fields cp vs :
  let vs1 := set_compact_pointer cp vs in
  current vs1 = current vs /\ vs_compact_pointer vs1 = cp /\ vs_descriptor_log vs1 = vs_descriptor_log vs /\ vs_manifest_file_number vs1 = vs_manifest_file_number vs.
Proof. by destruct vs. Qed.

(** A new descriptor file with two records, and CURRENT that names it. *)
Lemma new_descriptor n snapshot edit e :
  is_u64 n -> env_faults e = [] ->
  exists frags1 frags2 e1 e2 off,
    let c := layout extend 0 (concat [frags1; frags2]) in let fname := DescriptorFileName dbname n in
    NewWritableFile fname e = (OK, Some (MkWritableFile [] []), e1) /\
    AddRecord extend (encoded snapshot) (NewWriter (MkWritableFile [] [])) = (OK, clean (layout extend 0 frags1) (end_off 0 frags1)) /\
    (exists e1', write_edit extend edit OK (Some (fname, clean (layout extend 0 frags1) (end_off 0 frags1))) e1 = (OK, Some (fname, clean c off), e1') /\
      SetCurrentFile dbname n e1' = (OK, e2)) /\
    Forall2 is_record [frags1; frags2] [encoded snapshot; encoded edit] /\ frags_fit 0 (concat [frags1; frags2]) /\
    0 <= off <= kBlockSize /\ off mod kBlockSize = slen c mod kBlockSize /\ env_faults e2 = [] /\
    env_files e2 !! CurrentFileName dbname = Some ((lit "MANIFEST-" ++ decimal06 n) ++ [x0a]) /\ env_files e2 !! fname = Some c /\
    forall m, is_u64 m -> m <> n -> env_files e2 !! DescriptorFileName dbname m = env_files e !! DescriptorFileName dbname m.
Proof.
  intros Hn He. assert (0 <= 0 <= kBlockSize) as H0 by done. destruct (AddRecord_clean extend (encoded snapshot) [] 0 H0) as (frags1 & E1 & R1 & F1).
  pose proof (end_off_range 0 frags1 H0 F1) as Hend. set (fname := DescriptorFileName dbname n). set (e1 := MkEnv (<[fname := []]> (env_files e)) []).
  destruct (write_edit_clean edit fname (layout extend 0 frags1) (end_off 0 frags1) e1 Hend) as (frags2 & E2 & R2 & F2).
  assert (concat [frags1; frags2] = frags1 ++ frags2) as Ec by (cbn; by rewrite app_nil_r). rewrite <-layout_app, <-Ec in E2.
  set (c := layout extend 0 (concat [frags1; frags2])) in *. set (e1' := MkEnv (<[fname := c]> (env_files e1)) []).
  destruct (SetCurrentFile_no_faults dbname n e1' eq_refl) as (e2 & E3 & He2). destruct (SetCurrentFile_spec dbname n e1' OK e2 Hn E3) as [Hok Hother]. rewrite ok_OK in Hok.
  destruct Hok as (name & Hcur & Hname' & _ & _). rewrite DescriptorFileName_eq in Hname' by done. apply app_inv_head in Hname'. injection Hname' as Hname'.
  assert (forall m, is_u64 m -> env_files e2 !! DescriptorFileName dbname m = env_files e1' !! DescriptorFileName dbname m) as Hdesc.
  { intros m Hm. apply Hother; [by apply DescriptorFileName_current|by apply DescriptorFileName_temp]. }
  exists frags1, frags2, e1, e2, (end_off (end_off 0 frags1) frags2). cbv zeta. fold fname c. split.
  { unfold NewWritableFile. destruct e as [files faults]. cbn in He. by subst faults. }
  split; [exact E1|]. split; [exists e1'; by split|]. split; [by repeat constructor|]. split; [rewrite Ec; by apply frags_fit_app|]. split; [by apply end_off_range|].
  split. { unfold c. rewrite Ec, <-end_off_app. rewrite <-(layout_end extend 0 (frags1 ++ frags2)); [done|done|by apply frags_fit_app]. }
  split; [done|]. split; [by rewrite Hcur, <-Hname'|]. split; [unfold fname; rewrite Hdesc by done; cbn; by rewrite lookup_insert_eq|].
  intros m Hm Hne. rewrite Hdesc by done. cbn [env_files e1' e1]. rewrite !lookup_insert_ne; [done|..]; intros E; apply Hne; symmetry; by apply (DescriptorFileName_inj dbname).
Qed.

Lemma LogAndApply_new used vs e n fragss hist edit :
  consistent used vs e n fragss hist -> edit_fits edit -> fresh_edit used edit -> given vs edit -> vs_descriptor_log vs = None ->
  let edit' := complete_edit vs edit in
  exists vs' e' n' fragss' snapshot, LogAndApply edit vs e = (OK, edit', vs', e') /\
    consistent (map file_key (new_files_ edit) ++ used) vs' e' n' fragss' [edit'; snapshot] /\
    env_files e' !! DescriptorFileName dbname n = env_files e !! DescriptorFileName dbname n.
Proof.
  intros Hco Hfits Hfresh Hgiven Hnone edit'. destruct (consistent_numbers _ _ _ _ _ _ Hco) as (Hno & Hn & Hnu). destruct Hco as [Hde Hh Hnum Hu [Hre Hl Hp] Hpo (Hs & Hnx & Hmax) Hd Hcl Hbd].
  pose proof (complete_edit_fits vs edit Hno Hfits) as Hfit'. destruct (complete_edit_fields vs edit) as (F1 & F2 & F3 & F4 & F5). fold edit' in Hfit', F1, F2, F3, F4, F5.
  specialize (Hcl Hnone). unfold descriptor_state in Hd. rewrite Hnone in Hd. set (m := next_file_number_ (newest_edit hist)) in *.
  pose proof Hde as [He _ _ _ _ _ _ Hed]. assert (Forall edit_fits hist) as Hed' by (rewrite <-(reverse_involutive hist); by apply Forall_reverse).
  unfold VersionSet.LogAndApply. fold edit'. pose proof (Builder_Apply_pointers edit' _ (NewBuilder (current vs)) (proj1 Hfit') Hpo) as Hpo'. cbn [Builder_Apply fst snd] in Hpo'.
  cbn [Builder_Apply]. set (cp := foldl apply_pointer _ _) in *. set (vs1 := set_compact_pointer cp vs).
  assert (current vs1 = current vs /\ vs_compact_pointer vs1 = cp /\ vs_descriptor_log vs1 = None /\ vs_manifest_file_number vs1 = m) as (C1 & C2 & C3 & C4).
  { destruct (set_compact_pointer_fields cp vs) as (A1 & A2 & A3 & A4). unfold vs1. by rewrite A1, A2, A3, A4. }
  assert (holds ucmp hist (current vs1)) as Hre1 by (by rewrite C1). assert (pointers_ok (vs_compact_pointer vs1)) as Hpo1 by (by rewrite C2).
  pose proof (snapshot_fresh hist vs1 Hed' Hh Hre1) as Sf. pose proof (snapshot_holds hist vs1 Hre1) as Sh. pose proof (snapshot_fits hist vs1 Hed' Hre1 Hpo1) as Sfit. rewrite C1 in Sh. set (snapshot := snapshot_edit cmp_name vs1) in *.
  assert (forall k, k ∈ used_by [snapshot] -> k ∈ used) as Su.
  { intros k Hk. rewrite used_by_cons in Hk. cbn in Hk. rewrite app_nil_r in Hk. unfold snapshot in Hk. rewrite snapshot_edit_eq in Hk. cbn [new_files_] in Hk.
    apply list_elem_of_fmap in Hk as ([level f] & -> & (Hlv & g & Hg & ->)%elem_of_snapshot). rewrite C1 in Hg. apply Hu. apply (live_used level hist (applied_file g)), (proj2 Hre level Hlv). by apply list_elem_of_fmap_2. }
  assert (fresh_edit (used_by [snapshot]) edit') as Hfr.
  { apply (fresh_edit_sub used); [done|]. destruct Hfresh as [(A & B & C) D]. unfold fresh_edit, edit_files_ok. by rewrite F1, F2. }
  pose proof (fun cp d n m s => applied_recorded [snapshot] edit' cp d n m s vs Sh Hfr) as Hrec. cbn [Builder_Apply snd] in Hrec. set (v := Finalize (SaveTo ucmp _)) in *.
  unfold open_descriptor. rewrite C3, C4.
  destruct (new_descriptor m snapshot edit' e Hnu He) as (frags1 & frags2 & e1 & e2 & off & -> & E1 & (e1' & E2 & E3) & R & Fit & Off & Mod & He2 & Hcur & Hfile & Hsame).
  unfold WriteSnapshot. fold snapshot. rewrite E1, E2. rewrite ok_OK. cbn [andb]. set (d := Some (_, clean _ off)).
  assert (vs_manifest_file_number (set_descriptor_log d vs1) = m) as -> by (by rewrite <-C4; destruct vs1). rewrite E3, ok_OK. unfold vs1.
  pose proof (installed_fields cp d v (log_number_ edit') (prev_log_number_ edit') vs) as (I1 & I2 & I3 & I4 & I5). cbv zeta in I1, I2, I3, I4, I5.
  eexists _, _, m, [frags1; frags2], snapshot. split; [reflexivity|]. split; [split|].
  - split; try done. apply Forall_reverse, Forall_cons. split; [done|]. by apply Forall_singleton.
  - by split.
  - apply F5.
  - intros k. rewrite used_by_cons, F1, !elem_of_app. intros [|Hk]; [by left|right; by apply Su].
  - apply Hrec.
  - by rewrite I5.
  - rewrite I1, I3. change (newest_edit [edit'; snapshot]) with edit'. rewrite F3. split; [done|]. lia.
  - unfold descriptor_state. rewrite I2, I4, Hd. cbn [dest_ wf_contents block_offset_ d clean]. done.
  - by rewrite I4.
  - change (newest_edit [edit'; snapshot]) with edit'. rewrite F3. apply (given_used vs edit used _ Hgiven Hbd). lia.
  - apply Hsame; [done|]. lia.
Qed.

(** * The states of the version set *)

(** Writes to other files than CURRENT and the descriptor that it names. *)
Definition same_descriptor (e e' : EnvState) : Prop :=
  env_faults e' = [] /\ env_files e' !! CurrentFileName dbname = env_files e !! CurrentFileName dbname /\
  forall name, env_files e !! CurrentFileName dbname = Some (name ++ [x0a]) -> env_files e' !! (dbname ++ lit "/" ++ name) = env_files e !! (dbname ++ lit "/" ++ name).

(** The states that the calls lead to: a new store, then [LogAndApply] of edits whose files are new on their levels,
    closing and opening again, the calls that change the numbers, the compaction pointers and the references to versions, of
    which the current one keeps one, the statistics of the current version, and writes to other files.  The environment has no faults. *)
Inductive reachable : list (Z * Z) -> VersionSet -> EnvState -> Prop :=
| reach_create e e1 s save vs e2 :
    env_faults e = [] -> NewDB cmp_name extend dbname e = (OK, e1) -> Recover NewVersionSet e1 = Some (s, save, vs, e2) -> reachable [] vs e2
| reach_apply used vs e edit s edit' vs' e' :
    reachable used vs e -> edit_fits edit -> fresh_edit used edit -> given vs edit -> LogAndApply edit vs e = (s, edit', vs', e') ->
    reachable (map file_key (new_files_ edit) ++ used) vs' e'
| reach_reopen used vs e s save vs' e' :
    reachable used vs e -> Recover NewVersionSet e = Some (s, save, vs', e') -> vs_next_file_number vs' + 1 < 2 ^ 64 -> reachable used vs' e'
| reach_number used vs e : reachable used vs e -> vs_next_file_number vs + 2 < 2 ^ 64 -> reachable used (NewFileNumber vs).2 e
| reach_mark used vs e number : reachable used vs e -> number + 2 < 2 ^ 64 -> reachable used (MarkFileNumberUsed number vs) e
| reach_sequence used vs e s : reachable used vs e -> is_u64 s -> reachable used (VersionSet_SetLastSequence s vs) e
| reach_pointer used vs e level pointer :
    reachable used vs e -> is_u32 (slen pointer) -> reachable used (set_compact_pointer (<[Z.to_nat level := pointer]> (vs_compact_pointer vs)) vs) e
| reach_ref used vs e id : reachable used vs e -> reachable used (Version_Ref id vs) e
| reach_unref used vs e id : reachable used vs e -> current (Version_Unref id vs) = current vs -> vs_versions (Version_Unref id vs) <> [] -> reachable used (Version_Unref id vs) e
| reach_stats used vs e v : reachable used vs e -> map (map applied_file) (files_ v) = map (map applied_file) (files_ (current vs)) -> reachable used (update_current v vs) e
| reach_files used vs e e' : reachable used vs e -> same_descriptor e e' -> reachable used vs e'.

(** A consistent state is recovered, and consistent again. *)
Lemma consistent_recover used vs e n fragss hist :
  consistent used vs e n fragss hist ->
  exists save vs', Recover NewVersionSet e = Some (OK, save, vs', e) /\ recorded hist vs' /\
    (vs_next_file_number vs' + 1 < 2 ^ 64 -> consistent used vs' e n fragss hist) /\
    vs_next_file_number vs' = u64 (next_file_number_ (newest_edit hist) + 1) /\ vs_last_sequence vs' = last_sequence_ (newest_edit hist).
Proof.
  intros Hco. destruct (consistent_numbers _ _ _ _ _ _ Hco) as (Hno & Hn & Hnu). destruct Hco as [Hde Hh Hnum Hu Hre Hpo (Hs & Hnx & Hmax) Hd Hcl Hbd].
  destruct (Recover_described e n _ fragss (reverse hist) (length (reverse hist)) Hde) as (k & Hk & Hrec); [done| |].
  { rewrite take_ge; [done|]. pose proof (Forall2_length _ _ _ (de_records _ _ _ _ _ Hde)) as El. rewrite length_map in El. lia. }
  cbv zeta in Hrec. rewrite take_ge, reverse_involutive in Hrec by lia. destruct (Hrec Hh Hnum) as (save & vs' & E & R1 & R2 & R3 & R4 & R5).
  exists save, vs'. split; [done|]. split; [done|]. split; [|done]. intros Hmax'. rewrite wrap_small in R3 by (unfold in_u in *; lia). split; try done; [|lia].
  rewrite R3, R4. split; [|lia]. destruct hist as [|edit hist]; [done|]. pose proof (de_edits _ _ _ _ _ Hde) as Hed. rewrite reverse_cons in Hed. apply Forall_app in Hed as [_ Hed].
  apply Forall_singleton in Hed as [[Ho _ _ _ _ _ _ _] _]. unfold ops_of in Ho. rewrite !Forall_app, !opt_op_ok in Ho. destruct Ho as (_ & _ & _ & _ & Ho & _). apply Ho, Hnum.
Qed.

(** The edit of a new store. *)
Definition created_edit : VersionEdit := SetLastSequence 0 (SetNextFile 2 (SetLogNumber 0 (SetComparatorName cmp_name NewVersionEdit))).

Lemma created_consistent e :
  env_faults e = [] ->
  exists e1 save vs fragss, NewDB cmp_name extend dbname e = (OK, e1) /\ Recover NewVersionSet e1 = Some (OK, save, vs, e1) /\ consistent [] vs e1 1 fragss [created_edit] /\ vs_next_file_number vs = 3 /\ vs_last_sequence vs = 0 /\
    forall f, f <> CurrentFileName dbname -> f <> TempFileName dbname 1 -> f <> DescriptorFileName dbname 1 -> env_files e1 !! f = env_files e !! f.
Proof.
  intros He. unfold NewDB. fold created_edit. set (edit := created_edit). assert (0 <= 0 <= kBlockSize) as H0 by done. assert (is_u64 1) as H1 by (by vm_compute).
  destruct e as [files faults]. cbn in He. subst faults. unfold NewWritableFile. cbn [next_fault env_faults].
  destruct (AddRecord_clean extend (encoded edit) [] 0 H0) as (frags & E & Hr & Hf). unfold clean in E. unfold NewWriter. cbn [with_files env_files env_faults]. rewrite E. cbn [app] in *.
  set (c := layout extend 0 frags). cbn [dest_]. rewrite ok_OK. unfold WritableFile_Sync, WritableFile_Close, WritableFile_Flush. cbn [wf_faults]. rewrite ok_OK. cbn [wf_faults]. rewrite ok_OK.
  match goal with |- context [SetCurrentFile _ _ ?x] => set (e0 := x) end. destruct (SetCurrentFile_no_faults dbname 1 e0 eq_refl) as (e1 & Es & He2).
  destruct (SetCurrentFile_spec dbname 1 _ OK e1 H1 Es) as [Hok Hother]. rewrite ok_OK in Hok.
  destruct Hok as (name & Hcur & Hn & _ & _). rewrite DescriptorFileName_eq in Hn by done. apply app_inv_head in Hn. injection Hn as Hn.
  assert (edit_fits edit) as Hfits.
  { split; [|done]. change edit with (foldl apply_op NewVersionEdit [OpComparatorName cmp_name; OpLogNumber 0; OpNextFile 2; OpLastSequence 0]).
    apply edit_ok_foldl; [apply NewVersionEdit_ok|]. repeat (apply Forall_cons; split; [done || by vm_compute|]). apply Forall_nil_2. }
  assert (layout extend 0 (concat [frags]) = c) as Ec by (cbn; by rewrite app_nil_r).
  assert (described e1 1 c [frags] [edit]) as Hde.
  { split; [done|done|by rewrite Hcur, <-Hn| |by repeat constructor|by cbn; rewrite app_nil_r|by rewrite Ec|by apply Forall_singleton].
    rewrite Hother by (by apply DescriptorFileName_current || by apply DescriptorFileName_temp). change (env_files e0) with (<[DescriptorFileName dbname 1 := c]> (<[DescriptorFileName dbname 1 := []]> files)).
    by rewrite lookup_insert_eq. }
  assert (fresh_history [edit] /\ numbered [edit]) as [Hh Hnum].
  { split; [split; [|done]; split; [|intros nf Hnf; by apply elem_of_nil in Hnf]; split_and!; constructor|]. split_and!; try done. by right. }
  destruct (Recover_described e1 1 c [frags] [edit] 1 Hde) as (k & Hk & Hrec); [done|cbn [take]; by rewrite Ec|]. cbv zeta in Hrec. rewrite take_ge in Hrec by (cbn; lia).
  destruct (Hrec Hh Hnum) as (save & vs & E3 & R1 & R2 & R3 & R4 & R5). exists e1, save, vs, [frags]. split; [done|]. split; [done|]. cbn in R3, R4, R5. change (u64 (2 + 1)) with 3 in R3. split; [|split; [done|]; split; [done|]].
  - split; try done; rewrite ?Ec; try done; rewrite ?R3, ?R4; cbn; [|lia]. split; [by vm_compute|lia].
  - intros f F1 F2 F3. rewrite Hother by done. change (env_files e0) with (<[DescriptorFileName dbname 1 := c]> (<[DescriptorFileName dbname 1 := []]> files)). by rewrite !lookup_insert_ne.
Qed.

Lemma consistent_next used vs e n fragss hist next :
  consistent used vs e n fragss hist -> vs_next_file_number vs <= next -> next + 1 < 2 ^ 64 -> consistent used (set_next_file_number next vs) e n fragss hist.
Proof.
  intros [Hde Hh Hnum Hu [R1 R2 R3] Hpo (Hs & Hnx & Hmax) Hd Hcl Hbd] Hle Hlt. destruct vs as [nf m ls g p d l i c]. cbn in Hnx, Hle, Hcl, Hs. split; try done; cbn.
  - split_and!; try done; lia.
  - intros Hc. specialize (Hcl Hc). lia.
Qed.

Lemma consistent_same used vs vs' e n fragss hist :
  consistent used vs e n fragss hist -> current vs' = current vs -> pointers_ok (vs_compact_pointer vs') ->
  vs_next_file_number vs' = vs_next_file_number vs -> vs_manifest_file_number vs' = vs_manifest_file_number vs -> vs_last_sequence vs' = vs_last_sequence vs ->
  vs_log_number vs' = vs_log_number vs -> vs_prev_log_number vs' = vs_prev_log_number vs -> vs_descriptor_log vs' = vs_descriptor_log vs -> consistent used vs' e n fragss hist.
Proof.
  intros [Hde Hh Hnum Hu [R1 R2 R3] Hpo Hno Hd Hcl Hbd] Hc Hp E1 E2 E3 E4 E5 E6. split; try done.
  - split; congruence.
  - by rewrite E1, E3.
  - unfold descriptor_state in *. by rewrite E2, E6.
  - by rewrite E1, E6.
Qed.

Lemma same_described e e' n s fragss edits : same_descriptor e e' -> described e n s fragss edits -> described e' n s fragss edits.
Proof.
  intros (He' & Hcur & Hfile) [He Hn Hc Hs Hr Hf Hp Hed]. split; try done; [by rewrite Hcur|]. specialize (Hfile _ Hc).
  change (dbname ++ lit "/" ++ lit "MANIFEST-" ++ decimal06 n) with (dbname ++ x2f :: lit "MANIFEST-" ++ decimal06 n) in Hfile. rewrite <-DescriptorFileName_eq in Hfile by done.
  by rewrite Hfile.
Qed.

Lemma reachable_consistent used vs e : reachable used vs e -> exists n fragss hist, consistent used vs e n fragss hist.
Proof.
  induction 1 as [e e1 s save vs e2 He Hnew Hrec|used vs e edit s edit' vs' e' _ (n & fragss & hist & Hco) Hfits Hfr Hgv Hla|used vs e s save vs' e' _ (n & fragss & hist & Hco) Hrec Hmax
    |used vs e _ (n & fragss & hist & Hco) Hmax|used vs e number _ (n & fragss & hist & Hco) Hmax|used vs e s _ (n & fragss & hist & Hco) Hs|used vs e level k _ (n & fragss & hist & Hco) Hk
    |used vs e id _ (n & fragss & hist & Hco)|used vs e id _ (n & fragss & hist & Hco) Hc|used vs e v _ (n & fragss & hist & Hco) Hv|used vs e e' _ (n & fragss & hist & Hco) Hsame].
  - destruct (created_consistent e He) as (e1' & save' & vs' & fragss & En & E & Hco & _). rewrite Hnew in En. injection En as <-. rewrite E in Hrec. injection Hrec as <- <- <- <-. eauto.
  - destruct (decide (vs_descriptor_log vs = None)) as [Hd|Hd].
    + destruct (LogAndApply_new _ _ _ _ _ _ _ Hco Hfits Hfr Hgv Hd) as (vs1 & e1 & n1 & fr & sn & E & Hco1 & _). rewrite E in Hla. injection Hla as <- <- <- <-. eauto.
    + destruct (LogAndApply_open _ _ _ _ _ _ _ Hco Hfits Hfr Hgv Hd) as (vs1 & e1 & fr & E & Hco1). rewrite E in Hla. injection Hla as <- <- <- <-. eauto.
  - destruct (consistent_recover _ _ _ _ _ _ Hco) as (save1 & vs1 & E & _ & Hco1 & _). rewrite E in Hrec. injection Hrec as <- <- <- <-. eauto.
  - exists n, fragss, hist. unfold NewFileNumber. cbn [snd]. pose proof (co_numbers _ _ _ _ _ _ Hco) as (_ & H1 & H2). destruct (consistent_numbers _ _ _ _ _ _ Hco) as (_ & Hn & _).
    rewrite wrap_small by (unfold in_u in *; lia). apply consistent_next; [done|lia|lia].
  - exists n, fragss, hist. unfold MarkFileNumberUsed. pose proof (co_numbers _ _ _ _ _ _ Hco) as (_ & H1 & H2). destruct (consistent_numbers _ _ _ _ _ _ Hco) as (_ & Hn & _).
    destruct (Z.leb_spec (vs_next_file_number vs) number) as [Hle|]; [|done]. rewrite wrap_small by (unfold in_u in *; lia). apply consistent_next; [done|lia|lia].
  - exists n, fragss, hist. destruct Hco as [Hde Hh Hnum Hu [R1 R2 R3] Hpo (Hq & Hnx & Hmax) Hd Hcl Hbd]. by destruct vs; split.
  - exists n, fragss, hist. pose proof (co_pointers _ _ _ _ _ _ Hco) as Hpo. apply (consistent_same _ _ _ _ _ _ _ Hco); try (by destruct vs). destruct vs. by apply Forall_insert.
  - exists n, fragss, hist. apply (consistent_same _ _ _ _ _ _ _ Hco); [apply current_Version_Ref|destruct vs; apply Hco|by destruct vs..].
  - exists n, fragss, hist. apply (consistent_same _ _ _ _ _ _ _ Hco); [done|destruct vs; apply Hco|by destruct vs..].
  - exists n, fragss, hist. destruct Hco as [Hde Hh Hnum Hu [R1 R2 R3] Hpo Hno Hd Hcl Hbd]. pose proof (current_update v vs) as Ec. split; try (by destruct vs). split; [|by destruct vs..].
    rewrite Ec. by apply (holds_same hist (current vs)).
  - exists n, fragss, hist. destruct Hco as [Hde Hh Hnum Hu Hre Hpo Hno Hd Hcl Hbd]. split; try done. by apply (same_described e).
Qed.

(** The files, up to the seeks that they have left, and the log numbers that two version sets have in common. *)
Definition same_version (vs vs' : VersionSet) : Prop :=
  map (map applied_file) (files_ (current vs')) = map (map applied_file) (files_ (current vs)) /\ vs_log_number vs' = vs_log_number vs /\ vs_prev_log_number vs' = vs_prev_log_number vs.

Lemma recorded_same hist vs vs' : recorded hist vs -> recorded hist vs' -> same_version vs vs'.
Proof. intros [H1 L1 P1] [H2 L2 P2]. split_and!; [by apply (holds_unique ucmp hist)|congruence|congruence]. Qed.

Lemma recovered_same e n s hist vs : recovered e n s hist -> recorded hist vs -> exists save vs', Recover NewVersionSet e = Some (OK, save, vs', e) /\ same_version vs vs'.
Proof. intros (save & vs' & E & R & _) Hr. exists save, vs'. split; [done|]. by apply (recorded_same hist). Qed.

(** The whole history, and all of it but perhaps the last record. *)
Lemma recovers_all e n c fragss hist vs :
  described e n c fragss (reverse hist) -> layout extend 0 (concat fragss) `prefix_of` c -> fresh_history hist -> numbered hist -> recorded hist vs ->
  exists save vs', Recover NewVersionSet e = Some (OK, save, vs', e) /\ same_version vs vs'.
Proof.
  intros Hde Hp Hh Hnum Hr. pose proof (Forall2_length _ _ _ (de_records _ _ _ _ _ Hde)) as El. rewrite length_map in El.
  destruct (Recover_described e n c fragss (reverse hist) (length (reverse hist)) Hde) as (k & Hk & Hrec); [done|by rewrite take_ge by lia|].
  cbv zeta in Hrec. rewrite take_ge, reverse_involutive in Hrec by lia. apply (recovered_same e n c hist); [by apply Hrec|done].
Qed.

Lemma recovers_last e n c fragss frags hist edit vs vs' :
  described e n c (fragss ++ [frags]) (reverse (edit :: hist)) -> layout extend 0 (concat fragss) `prefix_of` c -> length fragss = length hist ->
  fresh_history (edit :: hist) -> numbered hist -> numbered (edit :: hist) -> recorded hist vs -> recorded (edit :: hist) vs' ->
  exists save vs'', Recover NewVersionSet e = Some (OK, save, vs'', e) /\ (same_version vs vs'' \/ same_version vs' vs'').
Proof.
  intros Hde Hp El Hh Hn Hn' Hr Hr'. destruct (Recover_described e n c (fragss ++ [frags]) (reverse (edit :: hist)) (length hist) Hde) as (k & Hk & Hrec).
  { rewrite length_reverse. cbn. lia. }
  { rewrite <-El, take_app_length. done. }
  cbv zeta in Hrec. rewrite length_reverse in Hk. cbn [length] in Hk. destruct (decide (k = length hist)) as [->|].
  - rewrite reverse_cons, take_app_le, take_ge, reverse_involutive in Hrec by (rewrite length_reverse; lia).
    destruct (recovered_same e n c hist vs ltac:(apply Hrec; [apply Hh|done]) Hr) as (save & vs'' & E & Hs). eauto.
  - rewrite take_ge, reverse_involutive in Hrec by (rewrite length_reverse; cbn; lia).
    destruct (recovered_same e n c (edit :: hist) vs' ltac:(by apply Hrec) Hr') as (save & vs'' & E & Hs). eauto.
Qed.

(** ** What [LogAndApply] leaves *)

(** The files that it writes. *)
Definition descriptor_file (vs : VersionSet) (fname : slice) : Prop :=
  fname = CurrentFileName dbname \/ fname = TempFileName dbname (vs_manifest_file_number vs) \/ fname = DescriptorFileName dbname (vs_manifest_file_number vs) \/
  exists w, vs_descriptor_log vs = Some (fname, w).

Lemma open_descriptor_none vs e s is_new e' : open_descriptor cmp_name extend dbname vs e = (s, None, is_new, e') -> ok s = false.
Proof.
  unfold open_descriptor. destruct (vs_descriptor_log vs) as [[g w]|]; [done|]. destruct (NewWritableFile _ e) as [[s0 file] e0] eqn:En.
  destruct (NewWritableFile_files _ _ _ _ _ En) as [_ Hs]. destruct file as [file|]; [by destruct (WriteSnapshot _ _ _ _)|]. by intros [= <- _ _].
Qed.

Lemma LogAndApply_current edit vs e s edit' vs' e' :
  LogAndApply edit vs e = (s, edit', vs', e') -> ok s = true ->
  edit' = complete_edit vs edit /\ vs_next_file_number vs' = vs_next_file_number vs /\ vs_descriptor_log vs' <> None /\
  exists cp, current vs' = Finalize (SaveTo ucmp (Builder_Apply ucmp edit' cp (NewBuilder (current vs))).2).
Proof.
  unfold VersionSet.LogAndApply. cbn [Builder_Apply]. set (cp := foldl apply_pointer _ _). destruct (open_descriptor _ _ _ _ _) as [[[s1 d1] is_new] e1] eqn:E1.
  destruct (write_edit _ _ _ _ _) as [[s2 d2] e2] eqn:E2. destruct (if ok s2 && is_new then _ else _) as [s3 e3] eqn:E3.
  destruct (ok s3) eqn:Eok; [|destruct is_new; intros [= <- <- <- <-]; congruence]. intros [= <- <- <- <-] _. split; [done|].
  assert (d2 <> None) as Hd.
  { intros ->. unfold write_edit in E2. destruct d1 as [[g w]|]; [destruct (if ok s1 then _ else _); by injection E2|]. injection E2 as <- <-.
    apply open_descriptor_none in E1. rewrite E1 in E3. cbn [andb] in E3. injection E3 as <- <-. congruence. }
  split; [|split; [|exists cp; by rewrite current_set_numbers, current_AppendVersion]].
  all: match goal with |- context [AppendVersion ?v ?x] => destruct (AppendVersion_fields v x) as (l & i & ->) end; by destruct vs.
Qed.

Lemma LogAndApply_sequence edit vs e s edit' vs' e' : LogAndApply edit vs e = (s, edit', vs', e') -> vs_last_sequence vs' = vs_last_sequence vs.
Proof.
  unfold VersionSet.LogAndApply. cbn [Builder_Apply]. destruct (open_descriptor _ _ _ _ _) as [[[s1 d1] is_new] e1]. destruct (write_edit _ _ _ _ _) as [[s2 d2] e2].
  destruct (if ok s2 && is_new then _ else _) as [s3 e3]. destruct (ok s3); [|destruct is_new; intros [= <- <- <- <-]; by destruct vs]. intros [= <- <- <- <-].
  match goal with |- context [AppendVersion ?v ?x] => destruct (AppendVersion_fields v x) as (l & i & ->) end. by destruct vs.
Qed.

Lemma LogAndApply_files edit vs e s edit' vs' e' fname :
  is_u64 (vs_manifest_file_number vs) -> LogAndApply edit vs e = (s, edit', vs', e') -> ~ descriptor_file vs fname -> env_files e' !! fname = env_files e !! fname.
Proof.
  intros Hm. unfold VersionSet.LogAndApply. cbn [Builder_Apply]. set (cp := foldl apply_pointer _ _). set (m := vs_manifest_file_number vs) in *.
  destruct (set_compact_pointer_fields cp vs) as (_ & _ & Ed & Em). fold m in Em. intros E Hno. unfold descriptor_file in Hno. fold m in Hno.
  destruct (open_descriptor _ _ _ _ _) as [[[s1 d1] is_new] e1] eqn:E1.
  assert (env_files e1 !! fname = env_files e !! fname /\ (forall g w, d1 = Some (g, w) -> g <> fname)) as [H1 Hd].
  { revert E1. unfold open_descriptor. rewrite Ed, Em. destruct (vs_descriptor_log vs) as [[g w]|] eqn:Eg.
    - intros [= <- <- <- <-]. split; [done|]. intros g' w' [= <- <-] ->. apply Hno. right; right; right. by eexists.
    - destruct (NewWritableFile (DescriptorFileName dbname m) e) as [[s0 file] e0] eqn:En. pose proof (NewWritableFile_files _ _ _ _ _ En) as [Hf _].
      assert (fname <> DescriptorFileName dbname m) as Hne by (intros ->; apply Hno; auto). destruct file as [file|].
      + destruct (WriteSnapshot _ _ _ _) as [sw w]. intros [= <- <- <- <-]. split; [by apply Hf|]. intros g w' [= <- _]. congruence.
      + intros [= <- <- <- <-]. split; [by apply Hf|done]. }
  destruct (write_edit _ _ _ _ _) as [[s2 d2] e2] eqn:E2.
  assert (env_files e2 !! fname = env_files e1 !! fname) as H2.
  { revert E2. unfold write_edit. destruct d1 as [[g w]|]; [|by intros [= <- <- <-]]. destruct (if ok s1 then _ else _) as [sw ww]. intros [= <- <- <-].
    unfold delete_file. cbn [env_files]. rewrite lookup_insert_ne; [done|]. by apply (Hd g w). }
  destruct (if ok s2 && is_new then _ else _) as [s3 e3] eqn:E3.
  assert (env_files e3 !! fname = env_files e2 !! fname) as H3.
  { assert (vs_manifest_file_number (set_descriptor_log d2 (set_compact_pointer cp vs)) = m) as Em2 by (by destruct vs). rewrite Em2 in E3.
    destruct (ok s2 && is_new); [|by injection E3 as <- <-]. apply SetCurrentFile_spec in E3 as [_ Hf]; [|done]. apply Hf; intros ->; apply Hno; auto. }
  assert (vs_manifest_file_number (set_descriptor_log d2 (set_compact_pointer cp vs)) = m) as Em2 by (by destruct vs). rewrite Em2 in E.
  destruct (ok s3); [injection E as <- <- <- <-; congruence|]. destruct is_new; injection E as <- <- <- <-; [|congruence].
  rewrite RemoveFile_files; [congruence|]. intros ->. apply Hno. auto.
Qed.

(** ** What holds in every state *)

Lemma reachable_apply used vs e edit :
  reachable used vs e -> edit_fits edit -> fresh_edit used edit -> given vs edit ->
  exists edit' vs' e', LogAndApply edit vs e = (OK, edit', vs', e') /\ reachable (map file_key (new_files_ edit) ++ used) vs' e'.
Proof.
  intros Hr Hfits Hfr Hgv. destruct (reachable_consistent _ _ _ Hr) as (n & fragss & hist & Hco). destruct (decide (vs_descriptor_log vs = None)) as [Hd|Hd].
  - destruct (LogAndApply_new _ _ _ _ _ _ _ Hco Hfits Hfr Hgv Hd) as (vs' & e' & n' & fr & sn & E & _). eexists _, vs', e'. split; [exact E|]. by eapply reach_apply.
  - destruct (LogAndApply_open _ _ _ _ _ _ _ Hco Hfits Hfr Hgv Hd) as (vs' & e' & fr & E & _). eexists _, vs', e'. split; [exact E|]. by eapply reach_apply.
Qed.

(** The files of the levels behind an edit. *)
Lemma reachable_levels used vs e edit cp level :
  reachable used vs e -> fresh_edit used edit -> level_ok level ->
  let files := level_files (SaveTo ucmp (Builder_Apply ucmp edit cp (NewBuilder (current vs))).2) level in
  Forall has_key files /\ ordered ucmp files /\
  forall g, g ∈ files <-> (g ∈ level_files (current vs) level /\ (level, number g) ∉ deleted_files_ edit) \/ new_at level (new_files_ edit) g.
Proof.
  intros (n & fragss & hist & Hco)%reachable_consistent Hfr Hl. pose proof (re_files _ _ (co_recorded _ _ _ _ _ _ Hco)) as Hh.
  destruct (proj2 Hh level Hl) as (Hk & Ho & _). apply (apply_level ucmp (current vs) edit cp level Hk Ho (proj1 Hfr) Hl).
  apply (fresh_numbers ucmp hist); [done|exact (fresh_edit_sub used _ _ (co_used _ _ _ _ _ _ Hco) Hfr)|done].
Qed.

(** The files are as an edit can have them. *)
Lemma reachable_file used vs e level f :
  reachable used vs e -> level_ok level -> f ∈ level_files (current vs) level ->
  op_ok (OpAddFile level (number f) (file_size f) (smallest f) (largest f)).
Proof.
  intros (n & fragss & hist & Hco)%reachable_consistent Hl Hf. pose proof (de_edits _ _ _ _ _ (co_described _ _ _ _ _ _ Hco)) as He. rewrite Forall_reverse in He.
  by destruct (current_file hist vs He (re_files _ _ (co_recorded _ _ _ _ _ _ Hco)) level f Hl Hf) as [_ H].
Qed.

Lemma reachable_state used vs e :
  reachable used vs e ->
  env_faults e = [] /\ numbers_ok vs /\ vs_next_file_number vs + 1 < 2 ^ 64 /\ is_u64 (vs_manifest_file_number vs) /\
  (forall level f, level_ok level -> f ∈ level_files (current vs) level -> (level, number f) ∈ used) /\
  exists n, is_u64 n /\ env_files e !! CurrentFileName dbname = Some ((lit "MANIFEST-" ++ decimal06 n) ++ [x0a]) /\
    forall fname w, vs_descriptor_log vs = Some (fname, w) -> fname = DescriptorFileName dbname n /\ vs_manifest_file_number vs = n.
Proof.
  intros (n & fragss & hist & Hco)%reachable_consistent. destruct (consistent_numbers _ _ _ _ _ _ Hco) as (Hno & Hn & Hnu). destruct Hco as [Hde Hh Hnum Hu Hre Hpo (Hs & Hnx & Hmax) Hd Hcl Hbd].
  split; [apply Hde|]. split; [done|]. split; [done|]. unfold descriptor_state in Hd. split; [destruct (vs_descriptor_log vs) as [[fname w]|]; [by destruct Hd as (_ & -> & _)|by rewrite Hd]|]. split.
  - intros level f Hl Hf. apply Hu, (live_used level hist (applied_file f)), (proj2 (re_files _ _ Hre) level Hl). by apply list_elem_of_fmap_2.
  - exists n. split; [done|]. split; [apply Hde|]. intros fname w E. rewrite E in Hd. by destruct Hd as (-> & -> & _).
Qed.

(** The log numbers that it leaves. *)
Lemma LogAndApply_logs edit vs e s edit' vs' e' :
  LogAndApply edit vs e = (s, edit', vs', e') -> ok s = true ->
  vs_log_number vs' = (if has_log_number_ edit then log_number_ edit else vs_log_number vs) /\ vs_prev_log_number vs' = (if has_prev_log_number_ edit then prev_log_number_ edit else vs_prev_log_number vs).
Proof.
  unfold VersionSet.LogAndApply. cbn [Builder_Apply]. destruct (open_descriptor _ _ _ _ _) as [[[s1 d1] is_new] e1]. destruct (write_edit _ _ _ _ _) as [[s2 d2] e2].
  destruct (if ok s2 && is_new then _ else _) as [s3 e3]. destruct (ok s3) eqn:Eok; [|destruct is_new; intros [= <- <- <- <-]; congruence]. intros [= <- <- <- <-] _.
  match goal with |- context [AppendVersion ?v ?x] => destruct (AppendVersion_fields v x) as (l & i & ->) end. destruct vs. destruct edit as [? ? ? ? ? ? [] [] ? ? ? ? ?]; done.
Qed.

(** The last sequence number that the descriptor has. *)
Definition recorded_sequence (e : EnvState) (q : Z) : Prop := exists save vs, Recover NewVersionSet e = Some (OK, save, vs, e) /\ vs_last_sequence vs = q.

Lemma consistent_sequence used vs e n fragss hist q : consistent used vs e n fragss hist -> recorded_sequence e q <-> q = last_sequence_ (newest_edit hist).
Proof.
  intros Hco. destruct (consistent_recover _ _ _ _ _ _ Hco) as (save & vs' & E & _ & _ & _ & Hq). split; [|intros ->; by exists save, vs'].
  intros (save' & vs'' & E' & <-). rewrite E in E'. by injection E' as _ <-.
Qed.

Lemma same_sequence used vs e e' q : reachable used vs e -> same_descriptor e e' -> recorded_sequence e q -> recorded_sequence e' q.
Proof.
  intros (n & fragss & hist & Hco)%reachable_consistent Hs Hq. apply (consistent_sequence _ _ _ _ _ _ _ Hco) in Hq. apply (consistent_sequence used vs e' n fragss hist); [|done].
  destruct Hco. split; try done. by apply (same_described e).
Qed.

(** A store is opened again: the same files, up to the seeks that they have left, and numbers that no file has. *)
Lemma reachable_reopen used vs e q :
  reachable used vs e -> recorded_sequence e q -> vs_next_file_number vs + 2 < 2 ^ 64 ->
  exists save vs', Recover NewVersionSet e = Some (OK, save, vs', e) /\ reachable used vs' e /\ same_version vs vs' /\ Forall (fun k => k.2 < vs_next_file_number vs') used /\
    vs_next_file_number vs' <= vs_next_file_number vs + 1 /\ vs_last_sequence vs' = q.
Proof.
  intros Hr Hq Hmax. destruct (reachable_consistent _ _ _ Hr) as (n & fragss & hist & Hco). destruct (consistent_recover _ _ _ _ _ _ Hco) as (save & vs' & E & R & _ & Hn & Hs).
  destruct (consistent_numbers _ _ _ _ _ _ Hco) as (_ & _ & Hu). pose proof (co_numbers _ _ _ _ _ _ Hco) as (_ & Hle & _). rewrite wrap_small in Hn by (unfold in_u in *; lia).
  exists save, vs'. split; [done|]. split; [apply (reach_reopen used vs e OK save vs' e Hr E); lia|]. split; [apply (recorded_same hist); [apply Hco|done]|].
  split; [eapply Forall_impl; [apply (co_given _ _ _ _ _ _ Hco)|]; cbn; lia|]. split; [lia|]. rewrite Hs. symmetry. by apply (consistent_sequence _ _ _ _ _ _ _ Hco).
Qed.

(** The last sequence number is recorded with every edit. *)
Lemma LogAndApply_recorded used vs e edit s edit' vs' e' :
  reachable used vs e -> edit_fits edit -> fresh_edit used edit -> given vs edit -> LogAndApply edit vs e = (s, edit', vs', e') -> recorded_sequence e' (vs_last_sequence vs).
Proof.
  intros (n & fragss & hist & Hco)%reachable_consistent Hfits Hfr Hgv Hla. destruct (complete_edit_fields vs edit) as (_ & _ & _ & Hs & _). destruct (decide (vs_descriptor_log vs = None)) as [Hd|Hd].
  - destruct (LogAndApply_new _ _ _ _ _ _ _ Hco Hfits Hfr Hgv Hd) as (vs1 & e1 & n1 & fr & sn & E & Hco1 & _). rewrite E in Hla. injection Hla as <- <- <- <-. by apply (consistent_sequence _ _ _ _ _ _ _ Hco1).
  - destruct (LogAndApply_open _ _ _ _ _ _ _ Hco Hfits Hfr Hgv Hd) as (vs1 & e1 & fr & E & Hco1). rewrite E in Hla. injection Hla as <- <- <- <-. by apply (consistent_sequence _ _ _ _ _ _ _ Hco1).
Qed.

(** ** A process that ends in [LogAndApply] *)

Lemma write_edit_crash edit fname c fs off e e0 s0 s d e' :
  crashing fs -> env_files e0 = env_files e -> ok s0 = true -> write_edit extend edit s0 (Some (fname, MkWriter (MkWritableFile c fs) off)) e = (s, d, e') ->
  exists c1 off1 c', write_edit extend edit OK (Some (fname, clean c off)) e0 = (OK, Some (fname, clean c1 off1), MkEnv (<[fname := c1]> (env_files e)) []) /\
    env_files e' = <[fname := c']> (env_files e) /\ c `prefix_of` c' /\ c' `prefix_of` c1 /\ (ok s = true -> c' = c1).
Proof.
  intros Hc He0 Hs0. unfold write_edit. rewrite Hs0, ok_OK. destruct (AddRecord extend _ (MkWriter _ _)) as [s1 w1] eqn:E1.
  destruct (AddRecord_crash _ _ _ _ _ _ _ Hc E1) as (c1 & off1 & -> & Hp & Hcut). rewrite ok_OK. unfold delete_file. cbn [dest_ clean block_offset_]. intros E.
  exists c1, off1. change (WritableFile_Sync (MkWritableFile c1 [])) with (OK, MkWritableFile c1 []). rewrite He0. cbn [dest_ wf_contents wf_faults].
  destruct Hcut as [(Hs1 & fs1 & -> & Hc1)|(Hs1 & H1 & H2)]; rewrite Hs1 in E; cbn [dest_ block_offset_] in E.
  - destruct (WritableFile_Sync (MkWritableFile c1 fs1)) as [s2 f2] eqn:E2. apply Flush_contents in E2. cbn [wf_contents] in E2. injection E as <- <- <-. exists c1. cbn [env_files dest_]. by rewrite E2.
  - injection E as <- <- <-. exists (wf_contents (dest_ w1)). cbn [env_files]. split_and!; try done. by rewrite Hs1.
Qed.

Lemma LogAndApply_crash_open edit vs files fs fname w s edit2 vs2 e2 :
  vs_descriptor_log vs = Some (fname, w) -> crashing fs -> LogAndApply edit vs (MkEnv files fs) = (s, edit2, vs2, e2) ->
  exists edit' vs' c1 c', LogAndApply edit vs (MkEnv files []) = (OK, edit', vs', MkEnv (<[fname := c1]> files) []) /\
    env_files e2 = <[fname := c']> files /\ wf_contents (dest_ w) `prefix_of` c' /\ c' `prefix_of` c1 /\ (ok s = true -> c' = c1).
Proof.
  intros Hd Hc. unfold VersionSet.LogAndApply. cbn [Builder_Apply]. set (cp := foldl apply_pointer _ _). unfold open_descriptor. destruct (set_compact_pointer_fields cp vs) as (_ & _ & -> & _).
  rewrite Hd. unfold resume. cbn [env_faults]. destruct (write_edit _ _ _ _ (MkEnv files fs)) as [[s1 d1] e1] eqn:E1.
  destruct (write_edit_crash _ _ _ _ _ (MkEnv files fs) (MkEnv files []) _ _ _ _ Hc eq_refl ok_OK E1) as (c1 & off1 & c' & E & He & H1 & H2 & H3). cbn [env_files] in E, He. unfold clean in E at 1. rewrite E, ok_OK, andb_false_r.
  cbn [andb]. rewrite ok_OK. intros Er. eexists _, _, c1, c'. split; [reflexivity|]. assert (s = s1 /\ e2 = e1) as [-> ->] by (destruct (ok s1); by injection Er). done.
Qed.

Lemma LogAndApply_failed_current edit vs e s edit2 vs2 e2 :
  is_u64 (vs_manifest_file_number vs) -> vs_descriptor_log vs = None -> LogAndApply edit vs e = (s, edit2, vs2, e2) -> ok s = false ->
  env_files e2 !! CurrentFileName dbname = env_files e !! CurrentFileName dbname.
Proof.
  intros Hm Hd. unfold VersionSet.LogAndApply. cbn [Builder_Apply]. set (cp := foldl apply_pointer _ _). destruct (set_compact_pointer_fields cp vs) as (_ & _ & Ed & Em). rewrite Hd in Ed.
  pose proof (DescriptorFileName_current dbname _ Hm) as Hne. destruct (open_descriptor _ _ _ _ _) as [[[s1 d1] is_new] e1] eqn:E1.
  assert (env_files e1 !! CurrentFileName dbname = env_files e !! CurrentFileName dbname /\ is_new = true /\ (d1 = None \/ exists w, d1 = Some (DescriptorFileName dbname (vs_manifest_file_number vs), w)))
    as (H1 & -> & Hd1).
  { unfold open_descriptor in E1. rewrite Ed, Em in E1. destruct (NewWritableFile _ e) as [[s0 file] e0] eqn:En. apply NewWritableFile_files in En as [Hf _].
    rewrite <-(Hf (CurrentFileName dbname)) by done. destruct file; [destruct (WriteSnapshot _ _ _ _)|]; injection E1 as <- <- <- <-; eauto. }
  destruct (write_edit _ _ _ _ _) as [[s2 d2] e2'] eqn:E2.
  assert (env_files e2' !! CurrentFileName dbname = env_files e1 !! CurrentFileName dbname) as H2.
  { unfold write_edit in E2. destruct Hd1 as [->|[w ->]]; [by injection E2 as <- <- <-|]. destruct (if ok s1 then _ else _) as [sw ww]. injection E2 as <- <- <-. by apply lookup_insert_ne. }
  assert (vs_manifest_file_number (set_descriptor_log d2 (set_compact_pointer cp vs)) = vs_manifest_file_number vs) as -> by (by destruct vs).
  destruct (if ok s2 && true then _ else _) as [s3 e3] eqn:E3. intros E Hs. destruct (ok s3) eqn:Hs3; injection E as <- <- <- <-; [congruence|]. rewrite RemoveFile_files by done.
  destruct (ok s2) eqn:Hs2; cbn [andb] in E3; [|injection E3 as <- <-; congruence]. apply SetCurrentFile_spec in E3 as [Hc _]; [|done]. rewrite Hs3 in Hc. congruence.
Qed.

Lemma LogAndApply_crash_new edit vs files fs s edit2 vs2 e2 :
  let m := vs_manifest_file_number vs in
  is_u64 m -> vs_descriptor_log vs = None -> crashing fs -> LogAndApply edit vs (MkEnv files fs) = (s, edit2, vs2, e2) -> ok s = true ->
  exists edit' vs' e', LogAndApply edit vs (MkEnv files []) = (OK, edit', vs', e') /\ same_descriptor e' (MkEnv (env_files e2) []).
Proof.
  intros m Hm Hd Hc. unfold VersionSet.LogAndApply. cbn [Builder_Apply]. set (cp := foldl apply_pointer _ _). destruct (set_compact_pointer_fields cp vs) as (_ & _ & Ed & Em). rewrite Hd in Ed. fold m in Em.
  unfold open_descriptor. rewrite Ed, Em. assert (forall d, vs_manifest_file_number (set_descriptor_log d (set_compact_pointer cp vs)) = m) as Em' by (by destruct vs).
  destruct (crashing_cases _ Hc) as [(fs1 & -> & Hc1)|(n & msg & rest & -> & _)]; unfold NewWritableFile; cbn [next_fault env_faults env_files with_files].
  2: { cbn [write_edit]. intros E Hs. apply (f_equal (fun x => x.1.1.1)) in E. cbn in E. by subst s. }
  unfold NewWriter. destruct (WriteSnapshot cmp_name extend _ (MkWriter (MkWritableFile [] fs1) 0)) as [s1 w1] eqn:E1. unfold WriteSnapshot in E1 |- *.
  destruct (AddRecord_crash _ _ _ _ _ _ _ Hc1 E1) as (c1 & off1 & E1' & _ & Hcut). unfold clean in E1' at 1. rewrite E1'. clear E1 E1'.
  destruct Hcut as [(Hs1 & fs2 & -> & Hc2)|(Hs1 & _)].
  2: { intros E Hs. unfold write_edit in E. rewrite Hs1 in E. cbn [andb] in E. rewrite Hs1 in E. cbn [andb] in E. rewrite Hs1 in E. apply (f_equal (fun x => x.1.1.1)) in E. cbn [fst] in E. congruence. }
  set (fname := DescriptorFileName dbname m). destruct (write_edit _ _ s1 _ _) as [[s2 d2] e2'] eqn:E2.
  match goal with |- context [write_edit _ _ OK _ ?e0] => destruct (write_edit_crash _ _ _ _ _ _ e0 _ _ _ _ Hc2 eq_refl Hs1 E2) as (c2 & off2 & c' & -> & He2 & _ & _ & Hall) end. clear E2. rewrite ok_OK. cbn [andb env_files] in He2 |- *. rewrite !Em'.
  intros E Hs. destruct (ok s2) eqn:Hs2; cbn [andb] in E; [|rewrite Hs2 in E; apply (f_equal (fun x => x.1.1.1)) in E; cbn [fst] in E; congruence]. rewrite (Hall eq_refl) in He2.
  destruct (SetCurrentFile dbname m e2') as [s3 e3] eqn:E3. assert (ok s3 = true /\ e2 = e3) as [Hs3 ->] by (destruct (ok s3) eqn:Hok3; injection E as <- _ _ <-; [done|congruence]).
  match goal with |- context [SetCurrentFile dbname m ?e0] => destruct (SetCurrentFile_no_faults dbname m e0 eq_refl) as (e4 & E4 & _) end. rewrite E4, ok_OK. eexists _, _, e4. split; [reflexivity|].
  apply SetCurrentFile_spec in E3 as [H3 Ho3]; [|done]. apply SetCurrentFile_spec in E4 as [H4 Ho4]; [|done]. rewrite Hs3 in H3. rewrite ok_OK in H4. destruct H3 as (name0 & Hc3 & En & _), H4 as (name & Hc4 & En' & _). unfold same_descriptor. rewrite Hc4. cbn [env_files]. rewrite Hc3.
  pose proof En as Em2. rewrite En' in Em2. apply app_inv_head, app_inv_head in Em2 as ->. split; [done|]. split; [done|]. intros name' [= Hnm]. apply app_inj_tail in Hnm as [-> _].
  rewrite <-En'. rewrite Ho3, Ho4, He2 by (by apply DescriptorFileName_current || by apply DescriptorFileName_temp). done.
Qed.

(** A descriptor that is open has between the records of before and those of after. *)
Lemma crash_open used used' vs files n fragss hist edit frags edit' vs' e' faults s edit2 vs2 e2 :
  consistent used vs (MkEnv files []) n fragss hist -> vs_descriptor_log vs <> None -> LogAndApply edit vs (MkEnv files []) = (OK, edit', vs', e') ->
  consistent used' vs' e' n (fragss ++ [frags]) (edit' :: hist) -> crashing faults -> LogAndApply edit vs (MkEnv files faults) = (s, edit2, vs2, e2) ->
  exists c, described (MkEnv (env_files e2) []) n c (fragss ++ [frags]) (reverse (edit' :: hist)) /\ layout extend 0 (concat fragss) `prefix_of` c /\
    (ok s = true -> c = layout extend 0 (concat (fragss ++ [frags]))).
Proof.
  intros Hco Hd E Hco' Hc Hrun. destruct (vs_descriptor_log vs) as [[fname w]|] eqn:Ed; [|done]. pose proof (co_descriptor _ _ _ _ _ _ Hco) as Hst. unfold descriptor_state in Hst. rewrite Ed in Hst.
  destruct Hst as (-> & _ & Hw & _). destruct (LogAndApply_crash_open _ _ _ _ _ _ _ _ _ _ Ed Hc Hrun) as (edit1 & vs1 & c1 & c & E1 & He2 & H1 & H2 & H3).
  rewrite E in E1. injection E1 as <- <- ->. destruct (co_described _ _ _ _ _ _ Hco') as [Hf Hn Hcur Hfile Hrec Hfit Hpre Hed]. cbn [env_files] in Hcur, Hfile. rewrite lookup_insert_eq in Hfile. injection Hfile as ->.
  rewrite lookup_insert_ne in Hcur by (by apply DescriptorFileName_current). exists c. rewrite Hw in H1. split; [|by split].
  split; try done; cbn [env_files]; rewrite He2; [|by rewrite lookup_insert_eq]. by rewrite lookup_insert_ne by (by apply DescriptorFileName_current).
Qed.

(** A call that fails before CURRENT is switched leaves the old descriptor as it was. *)
Lemma crash_new_failed used vs files n fragss hist edit faults s edit2 vs2 e2 :
  consistent used vs (MkEnv files []) n fragss hist -> vs_descriptor_log vs = None -> LogAndApply edit vs (MkEnv files faults) = (s, edit2, vs2, e2) -> ok s = false ->
  same_descriptor (MkEnv files []) (MkEnv (env_files e2) []).
Proof.
  intros Hco Hd Hrun Hs. destruct (consistent_numbers _ _ _ _ _ _ Hco) as (_ & Hn & Hm). pose proof (co_descriptor _ _ _ _ _ _ Hco) as Em. unfold descriptor_state in Em. rewrite Hd in Em. rewrite <-Em in Hm.
  pose proof (LogAndApply_failed_current _ _ _ _ _ _ _ Hm Hd Hrun Hs) as Hcur. split; [done|]. split; [exact Hcur|]. cbn [env_files] in *. intros name Hnm.
  pose proof (de_current _ _ _ _ _ (co_described _ _ _ _ _ _ Hco)) as Hc. cbn [env_files] in Hc. rewrite Hnm in Hc. apply (inj Some) in Hc. apply app_inj_tail in Hc as [-> _].
  change (dbname ++ lit "/" ++ lit "MANIFEST-" ++ decimal06 n) with (dbname ++ x2f :: lit "MANIFEST-" ++ decimal06 n). rewrite <-DescriptorFileName_eq by done.
  apply (LogAndApply_files _ _ _ _ _ _ _ _ Hm Hrun). intros [H|[H|[H|(w & H)]]].
  - by apply DescriptorFileName_current in H.
  - by apply DescriptorFileName_temp in H.
  - apply DescriptorFileName_inj in H; [|done|done]. pose proof (co_numbers _ _ _ _ _ _ Hco). lia.
  - by rewrite Hd in H.
Qed.

(** C8. What [LogAndApply] has recorded is there when the store is opened again.  In every state that the calls lead to from
    a new store, [Recover] on the files of the environment succeeds without changing them, and finds the files of the
    current version, level by level and up to the seeks that they have left, and its log numbers; also behind any number of
    openings, with the descriptor used again or written anew. *)
Theorem manifest_recovery used vs e :
  reachable used vs e -> exists save vs', Recover NewVersionSet e = Some (OK, save, vs', e) /\ same_version vs vs'.
Proof.
  intros (n & fragss & hist & Hco)%reachable_consistent. destruct (consistent_recover _ _ _ _ _ _ Hco) as (save & vs' & E & R & _). exists save, vs'. split; [done|].
  apply (recorded_same hist); [apply Hco|done].
Qed.

(** C7. [LogAndApply] is atomic.  In every state that the calls lead to from a new store it succeeds.  If the process ends at
    any of its calls of the environment, where a write may have reached the file in part and no later call has an effect,
    then [Recover] on the files that are left succeeds and finds the version, up to the seeks that its files have left, and
    the log numbers of before, or those of after; and those of after if [LogAndApply] has returned OK.  The edit adds files
    that are new on their levels and whose numbers were given out. *)
Theorem log_and_apply_atomic used vs e edit :
  reachable used vs e -> edit_fits edit -> fresh_edit used edit -> given vs edit ->
  exists edit' vs' e', LogAndApply edit vs e = (OK, edit', vs', e') /\
    forall faults s edit2 vs2 e2, crashing faults -> LogAndApply edit vs (MkEnv (env_files e) faults) = (s, edit2, vs2, e2) ->
      let left := MkEnv (env_files e2) [] in
      exists save vs3, Recover NewVersionSet left = Some (OK, save, vs3, left) /\ (same_version vs' vs3 \/ ok s = false /\ same_version vs vs3).
Proof.
  intros (n & fragss & hist & Hco)%reachable_consistent Hfits Hfr Hgv. pose proof (de_faults _ _ _ _ _ (co_described _ _ _ _ _ _ Hco)) as He. destruct e as [files fs]. cbn in He. subst fs. change (env_files (MkEnv files [])) with files.
  destruct (decide (vs_descriptor_log vs = None)) as [Hd|Hd].
  - destruct (LogAndApply_new _ _ _ _ _ _ _ Hco Hfits Hfr Hgv Hd) as (vs' & e' & n' & fragss' & sn & E & Hco' & _). eexists _, vs', e'. split; [exact E|].
    assert (is_u64 (vs_manifest_file_number vs)) as Hm by (pose proof (co_descriptor _ _ _ _ _ _ Hco) as Em; unfold descriptor_state in Em; rewrite Hd in Em; rewrite Em; apply (consistent_numbers _ _ _ _ _ _ Hco)).
    intros faults s edit2 vs2 e2 Hc Hrun left. destruct (ok s) eqn:Es.
    + destruct (LogAndApply_crash_new _ _ _ _ _ _ _ _ Hm Hd Hc Hrun Es) as (edit1 & vs1 & e1 & E1 & Hsame). rewrite E in E1. injection E1 as <- <- <-.
      pose proof (same_described _ _ _ _ _ _ Hsame (co_described _ _ _ _ _ _ Hco')) as Hde.
      destruct (recovers_all left n' _ fragss' _ vs' Hde) as (save & vs3 & E3 & Hv); [done|apply Hco'..|]. exists save, vs3. auto.
    + pose proof (same_described _ _ _ _ _ _ (crash_new_failed _ _ _ _ _ _ _ _ _ _ _ _ Hco Hd Hrun Es) (co_described _ _ _ _ _ _ Hco)) as Hde.
      destruct (recovers_all left n _ fragss hist vs Hde) as (save & vs3 & E3 & Hv); [done|apply Hco..|]. exists save, vs3. auto.
  - destruct (LogAndApply_open _ _ _ _ _ _ _ Hco Hfits Hfr Hgv Hd) as (vs' & e' & frags & E & Hco'). eexists _, vs', e'. split; [exact E|].
    intros faults s edit2 vs2 e2 Hc Hrun left. destruct (crash_open _ _ _ _ _ _ _ _ _ _ _ _ _ _ _ _ _ Hco Hd E Hco' Hc Hrun) as (c & Hde & Hp & Hs).
    destruct (ok s) eqn:Es.
    + destruct (recovers_all left n c _ _ vs' Hde) as (save & vs3 & E3 & Hv); [by rewrite (Hs eq_refl)|apply Hco'..|]. exists save, vs3. auto.
    + pose proof (Forall2_length _ _ _ (de_records _ _ _ _ _ (co_described _ _ _ _ _ _ Hco))) as El. rewrite length_map, length_reverse in El.
      destruct (recovers_last left n c fragss frags hist _ vs vs' Hde) as (save & vs3 & E3 & Hv); [done|done|apply Hco'|apply Hco|apply Hco'|apply Hco|apply Hco'|].
      exists save, vs3. split; [done|]. destruct Hv; auto.
Qed.
End replay.

(** * An example *)

Definition sample_name : slice := lit "leveldb.BytewiseComparator".
Definition sample_db : slice := lit "/db".

(** A new store, and the edit of a first table. *)
Definition sample_create : Status * EnvState := NewDB sample_name crc32c_ref sample_db (MkEnv ∅ []).

Definition sample_open (e : EnvState) : VersionSet * EnvState :=
  match Recover BytewiseComparator sample_name crc32c_ref sample_db 2097152 false NewVersionSet e with
  | Some (_, _, vs, e) => (vs, e)
  | None => (NewVersionSet, e)
  end.

Definition sample_vs : VersionSet := (sample_open sample_create.2).1.
Definition sample_env : EnvState := (sample_open sample_create.2).2.

Definition sample_edit : VersionEdit :=
  AddFile 0 4 1000 (NewInternalKey (lit "a") 2 kTypeValue) (NewInternalKey (lit "b") 1 kTypeValue) (VersionEdit.SetLogNumber 3 NewVersionEdit).

Abbreviation sample_reachable := (reachable BytewiseComparator sample_name crc32c_ref sample_db 2097152 false).

Lemma sample_created : sample_reachable [] sample_vs sample_env.
Proof.
  assert (NewDB sample_name crc32c_ref sample_db (MkEnv ∅ []) = (OK, sample_create.2)) as E1.
  { fold sample_create. by rewrite (surjective_pairing sample_create) at 1. }
  unfold sample_vs, sample_env, sample_open. destruct (Recover _ _ _ _ _ _ NewVersionSet sample_create.2) as [[[[s save] vs] e]|] eqn:E2.
  - exact (reach_create _ _ _ _ _ _ (MkEnv ∅ []) sample_create.2 s save vs e eq_refl E1 E2).
  - apply (f_equal (fun o => match o with Some _ => true | None => false end)) in E2. by vm_compute in E2.
Qed.

Lemma sample_fits : edit_fits sample_name sample_edit /\ fresh_edit [] sample_edit.
Proof.
  split.
  - split; [|done]. apply (edit_ok_foldl [OpLogNumber 3; OpAddFile 0 4 1000 (NewInternalKey (lit "a") 2 kTypeValue) (NewInternalKey (lit "b") 1 kTypeValue)] NewVersionEdit NewVersionEdit_ok).
    repeat (apply Forall_cons; split; [by vm_compute|]). apply Forall_nil_2.
  - split; [|intros nf _ H; by apply elem_of_nil in H]. split_and!; [|constructor|apply NoDup_singleton]. apply Forall_singleton. split; [by vm_compute|]. unfold has_key, is_internal_key. vm_compute. lia.
Qed.

(** The numbers 3 and 4 are given out, to the log and the table. *)
Definition sample_numbered : VersionSet := (NewFileNumber (NewFileNumber sample_vs).2).2.

Lemma sample_ready : sample_reachable [] sample_numbered sample_env /\ given sample_numbered sample_edit.
Proof.
  assert (vs_next_file_number sample_vs = 3 /\ vs_next_file_number (NewFileNumber sample_vs).2 = 4 /\ vs_next_file_number sample_numbered = 5) as (E1 & E2 & E3) by (vm_compute; repeat split).
  split; [apply reach_number; [apply reach_number; [apply sample_created|]|]; lia|]. apply Forall_singleton. rewrite E3. reflexivity.
Qed.

Definition sample_apply : Status * VersionEdit * VersionSet * EnvState :=
  LogAndApply BytewiseComparator sample_name crc32c_ref sample_db sample_edit sample_numbered sample_env.

Lemma sample_apply_eq :
  LogAndApply BytewiseComparator sample_name crc32c_ref sample_db sample_edit sample_numbered sample_env =
    (sample_apply.1.1.1, sample_apply.1.1.2, sample_apply.1.2, sample_apply.2).
Proof. unfold sample_apply. generalize (LogAndApply BytewiseComparator sample_name crc32c_ref sample_db sample_edit sample_numbered sample_env). by intros [[[? ?] ?] ?]. Qed.

Lemma manifest_recovery_witness :
  map (map number) (files_ (current sample_apply.1.2)) = [[4]; []; []; []; []; []; []] /\
  exists save vs', Recover BytewiseComparator sample_name crc32c_ref sample_db 2097152 false NewVersionSet sample_apply.2 = Some (OK, save, vs', sample_apply.2) /\
    same_version sample_apply.1.2 vs'.
Proof.
  split; [by vm_compute|].
  apply (manifest_recovery BytewiseComparator sample_name crc32c_ref sample_db 2097152 false ltac:(by vm_compute) (map file_key (new_files_ sample_edit) ++ []) sample_apply.1.2 sample_apply.2).
  apply (reach_apply _ _ _ _ _ _ [] sample_numbered sample_env sample_edit sample_apply.1.1.1 sample_apply.1.1.2 sample_apply.1.2 sample_apply.2);
    [apply sample_ready|apply sample_fits|apply sample_fits|apply sample_ready|apply sample_apply_eq].
Defined.

(** The process ends in the payload of the second record of the new descriptor. *)
Definition sample_faults : list (option (nat * slice)) := repeat None 5 ++ Some (4%nat, lit "end") :: repeat (Some (0%nat, lit "end")) 9.

Definition sample_crash : Status * VersionEdit * VersionSet * EnvState :=
  LogAndApply BytewiseComparator sample_name crc32c_ref sample_db sample_edit sample_numbered (MkEnv (env_files sample_env) sample_faults).

Lemma sample_crashing : crashing sample_faults.
Proof. exists 5%nat, 4%nat, (lit "end"), (repeat (Some (0%nat, lit "end")) 9). split; [done|]. split; [done|]. repeat constructor; by eexists. Qed.

Lemma log_and_apply_atomic_witness :
  let left := MkEnv (env_files sample_crash.2) [] in
  ok sample_crash.1.1.1 = false /\ is_Some (env_files left !! DescriptorFileName sample_db 2) /\
  exists edit' vs' e' save vs3, LogAndApply BytewiseComparator sample_name crc32c_ref sample_db sample_edit sample_numbered sample_env = (OK, edit', vs', e') /\
    Recover BytewiseComparator sample_name crc32c_ref sample_db 2097152 false NewVersionSet left = Some (OK, save, vs3, left) /\
    (same_version vs' vs3 \/ ok sample_crash.1.1.1 = false /\ same_version sample_numbered vs3).
Proof.
  intros left. split; [by vm_compute|]. split; [unfold left; eexists; vm_compute; reflexivity|].
  destruct (log_and_apply_atomic BytewiseComparator sample_name crc32c_ref sample_db 2097152 false ltac:(by vm_compute) [] sample_numbered sample_env sample_edit (proj1 sample_ready)
    (proj1 sample_fits) (proj2 sample_fits) (proj2 sample_ready)) as (edit' & vs' & e' & E & H).
  destruct (H sample_faults sample_crash.1.1.1 sample_crash.1.1.2 sample_crash.1.2 sample_crash.2 sample_crashing) as (save & vs3 & E3 & Hv).
  { fold sample_crash. generalize sample_crash. by intros [[[? ?] ?] ?]. }
  exists edit', vs', e', save, vs3. split; [exact E|]. split; [exact E3|exact Hv].
Defined.
