(* ===== verification/Flush.v ===== *)
(** Flush: from a memtable to a table file: the iterator of the memtable as an [Iterator], and [DBImpl::WriteLevel0Table] of
    db/db_impl.cc, which writes the table and picks a level for it.  The file that is added keeps what the version promises,
    with the entries of the memtable before those of the version. *)

From stdpp Require Import gmap.
From Stdlib Require Import Strings.Byte Strings.String.
From S2P Require Import Prelude Coding Crc32c Comparator DbFormat Status Env FileSystem Filename VersionEdit FilterPolicy FilterBlock SkipList MemTable Format Iterator TwoLevelIterator Version Block TableBuilder Table TableCache VersionSet.

(** * The iterator of a memtable *)

Definition memtable_ops (ucmp : Comparator) (m : MemTable) : IterOps ptr :=
  MkIterOps
    MemTableIterator_Valid
    (fun node => default [] (MemTableIterator_key m node))
    (fun node => MemTableIterator_value m node)
    (fun _ => OK)
    (fun k _ => MemTableIterator_Seek ucmp m k)
    (fun _ => MemTableIterator_SeekToFirst m)
    (fun _ => MemTableIterator_SeekToLast m)
    (fun node => MemTableIterator_Next m node)
    (fun node => MemTableIterator_Prev ucmp m node).

(** * [DBImpl::WriteLevel0Table] *)

Section WriteLevel0Table.
Context (extend : Z -> slice -> Z) (snappy : option SnappyLib) (zstd : option ZstdLib).
Context (dbname : slice) (options : Options) (in_scratch : bool) (bcache : option (slice -> option Block)).
Context (ucmp : Comparator) (max_file_size : Z).

(** The status, [*edit], the version set with its next file number, and the table cache with the environment.  The number is
    in [pending_outputs_] only while the mutex is released, and the statistics are not kept. *)
Definition WriteLevel0Table (mem : MemTable) (edit : VersionEdit) (base : option Version) (vs : VersionSet) (tc : TableCache) :
    option (Status * VersionEdit * VersionSet * TableCache) :=
  let '(n, vs) := NewFileNumber vs in
  let meta := NewFile n 0 (MkInternalKey []) (MkInternalKey []) in
  '(s, meta, tc) ← BuildTable extend snappy zstd dbname options in_scratch (memtable_ops ucmp mem) (length (nodes (table_ mem))) bcache None meta tc;
  if ok s && (0 <? file_size meta) then
    level ← match base with
            | Some base => PickLevelForMemTableOutput ucmp max_file_size base (InternalKey_user_key (smallest meta)) (InternalKey_user_key (largest meta))
            | None => Some 0
            end;
    Some (s, AddFile level (number meta) (file_size meta) (smallest meta) (largest meta) edit, vs, tc)
  else Some (s, edit, vs, tc).
End WriteLevel0Table.

(** * Lemmas: the iterator *)

Lemma link_levels_length {Key} n i (ns : list (Node Key)) prev x ns' : link_levels n i ns prev x = Some ns' -> length ns' = length ns.
Proof.
  revert i ns. induction n as [|n IH]; intros i ns; cbn [link_levels]; [by intros [= <-]|].
  assert (forall (a b : list (Node Key)) y m p, Node_SetNext a y m p = Some b -> length b = length a) as Hset.
  { intros a b y m p. unfold Node_SetNext. destruct (a !! y); [|done]. cbn [mbind option_bind]. destruct (_ <? _)%nat; [|done]. intros [= <-]. apply length_insert. }
  destruct (link_level ns prev x i) as [ns1|] eqn:E; [|done]. cbn [mbind option_bind]. intros H%IH. rewrite H. clear H IH. revert E. unfold link_level.
  repeat (match goal with |- context [mbind _ ?o] => destruct o eqn:?; [|done]; cbn [mbind option_bind] end). intros. by repeat (match goal with H : Node_SetNext _ _ _ _ = Some _ |- _ => apply Hset in H; rewrite H; clear H end).
Qed.

(** Every entry has a node. *)
Lemma add_all_nodes ucmp es m m' : add_all ucmp es m = Some m' -> length (nodes (table_ m')) = (length (nodes (table_ m)) + length es)%nat.
Proof.
  revert m. induction es as [|e es IH]; intros m; cbn [add_all]; [intros [= <-]; cbn; lia|]. unfold MemTable_Add, Insert.
  destruct (Insert_prepare _ _ _) as [[[[[[prev h] mh] rnd] x] ns]|] eqn:E; [|done]. cbn [mbind option_bind]. destruct (link_levels h 0 ns prev x) as [ns'|] eqn:El; [|done].
  cbn [mbind option_bind]. intros ->%IH. cbn [table_ nodes length]. rewrite (link_levels_length _ _ _ _ _ _ El). revert E. unfold Insert_prepare.
  destruct (FindGreaterOrEqual _ _ _ _) as [[y prev0]|]; [|done]. cbn [mbind option_bind]. destruct prev0 as [prev0|]; [|done]. cbn [mbind option_bind].
  destruct (RandomHeight _) as [h0 rnd0]. destruct (if (_ <? _)%nat then _ else _) as [prev1 mh1]. unfold NewNode. intros [= _ _ _ _ _ <-].
  rewrite length_app. cbn [length]. lia.
Qed.

Section memtable.
Context (ucmp : Comparator) `{!ComparatorLaws any_key ucmp} `{!SeparatorSame any_key ucmp}.

Abbreviation icmp := (InternalKeyComparator ucmp).

(** The targets that a memtable's iterator can encode. *)
Definition seekable (k : slice) : Prop := is_internal_key k /\ slen k < 2 ^ 32.

Lemma filter_seek_pos sorted k :
  sorted_entries icmp (table_of sorted) -> is_internal_key k ->
  length (List.filter (fun e => Compare icmp (entry_internal_key e) k <? 0) sorted) = seek_pos icmp k (table_of sorted).
Proof.
  intros Hs Hk. induction sorted as [|e l IH]; [done|]. apply StronglySorted_inv in Hs as [Hs Hall]. cbn [table_of map List.filter seek_pos fst].
  fold (table_of l). destruct (Z.ltb_spec (Compare icmp (entry_internal_key e) k) 0) as [Hlt|Hge]; [cbn [length]; by rewrite IH|].
  assert (List.filter (fun e => Compare icmp (entry_internal_key e) k <? 0) l = []) as ->; [|done].
  destruct (List.filter _ l) as [|x xs] eqn:E; [done|]. exfalso.
  assert (In x (List.filter (fun e => Compare icmp (entry_internal_key e) k <? 0) l)) as Hin by (rewrite E; by left). apply filter_In in Hin as [Hin Hx].
  apply Z.ltb_lt in Hx. pose proof (proj1 (Forall_forall _ _) Hall (entry_internal_key x, e_value x)) as Hex. cbn [fst] in Hex.
  assert (Compare icmp (entry_internal_key e) k < 0); [|lia]. apply (compare_trans (key := is_internal_key) _ (entry_internal_key x)); try apply AppendInternalKey_internal; try done.
  apply Hex. apply list_elem_of_In, in_map_iff. by exists x.
Qed.

(** The iterator of a memtable goes through its entries in the order of their internal keys. *)
Lemma memtable_iter es m :
  Forall entry_ok es -> seqs_differ es -> add_all ucmp es NewMemTable = Some m ->
  exists sorted pos, sorted ≡ₚ es /\ entries_ok ucmp sorted /\ IterLaws (memtable_ops ucmp m) icmp seekable (table_of sorted) pos /\ pos None (length es).
Proof.
  intros Hok Hd Hm. destruct (MemTableIterator_spec ucmp es Hok Hd) as (m' & ids & sorted & E & Hp & Hlen & Hs & Hfirst & Hlast & Hseek & Hat). rewrite Hm in E. injection E as <-.
  assert (length sorted = length es) as Hls by (by rewrite Hp). assert (length (table_of sorted) = length ids) as Hlt by (unfold table_of; rewrite length_map; lia).
  assert (sorted_entries icmp (table_of sorted)) as Hst.
  { unfold sorted_entries, table_of. clear -Hs. induction Hs as [|a l Hs IH Hall]; [constructor|]. cbn [map]. constructor; [done|]. by rewrite Forall_map. }
  exists sorted, (fun node i => (i <= length ids)%nat /\ node = ids !! i). split; [done|]. split.
  { split; [|done]. rewrite Hp. eapply Forall_impl; [exact Hok|]. by intros e (? & _). }
  assert (forall i k v, table_of sorted !! i = Some (k, v) -> exists x, ids !! i = Some x /\ MemTableIterator_key m (Some x) = Some k /\ MemTableIterator_value m (Some x) = Some v) as Hent.
  { intros i k v (e & Ee & -> & ->)%table_of_lookup. destruct (Hat i e Ee) as (x & Ex & Hk & Hv & _). by exists x. }
  assert (forall i, (i < length ids)%nat -> exists x e, ids !! i = Some x /\ sorted !! i = Some e) as Hlook.
  { intros i Hi. destruct (lookup_lt_is_Some_2 ids i Hi) as [x Ex]. destruct (lookup_lt_is_Some_2 sorted i ltac:(lia)) as [e Ee]. by exists x, e. }
  split; [split|split; [lia|]; symmetry; apply lookup_ge_None; lia]; cbn [memtable_ops i_Valid i_key i_value i_status i_Seek i_SeekToFirst i_SeekToLast i_Next i_Prev].
  - intros node i [Hi ->]. lia.
  - intros node i [Hi ->]. unfold MemTableIterator_Valid, Iterator_Valid. apply bool_decide_ext. rewrite lookup_lt_is_Some. by rewrite Hlt.
  - intros node i k v [Hi ->] Ek. destruct (Hent i k v Ek) as (x & -> & -> & _). done.
  - intros node i k v [Hi ->] Ek. by destruct (Hent i k v Ek) as (x & -> & _ & ->).
  - done.
  - intros node i t _ [Ht1 Ht2]. rewrite Hseek by done. eexists. split; [done|]. rewrite filter_seek_pos by done. split; [|done]. rewrite <-Hlt. apply seek_pos_le.
  - intros node i _. rewrite Hfirst. eexists. split; [done|]. split; [lia|done].
  - intros node i _. rewrite Hlast. eexists. split; [done|]. rewrite Hlt. split; [lia|]. rewrite last_lookup. f_equal. lia.
  - intros node i [Hi ->] Hv. destruct (Hlook i ltac:(lia)) as (x & e & Ex & Ee). destruct (Hat i e Ee) as (x' & Ex' & _ & _ & Hn & _). rewrite Ex in Ex'. injection Ex' as <-.
    rewrite Ex, Hn. eexists. split; [done|]. split; [lia|done].
  - intros node i [Hi ->] Hv. destruct (Hlook i ltac:(lia)) as (x & e & Ex & Ee). destruct (Hat i e Ee) as (x' & Ex' & _ & _ & _ & Hn). rewrite Ex in Ex'. injection Ex' as <-.
    rewrite Ex, Hn. eexists. split; [done|]. rewrite Hlt. unfold prev_pos. case_decide as H0; [subst i|].
    + split; [done|]. cbn. symmetry. by apply lookup_ge_None.
    + split; [lia|]. rewrite last_lookup, length_take, lookup_take_lt by lia. f_equal. lia.
Qed.
End memtable.

(** * Lemmas: the level of the file *)

Section level.
Context (ucmp : Comparator) `{!ComparatorLaws any_key ucmp} `{!SeparatorSame any_key ucmp}.
Context (contents : FileMetaData -> list entry) (stored : FileMetaData -> Prop).

Abbreviation icmp := (InternalKeyComparator ucmp).
Abbreviation user k := (InternalKey_user_key k).
Abbreviation version_ok := (version_ok ucmp contents stored).

Lemma version_files_ok v level : version_ok v -> 0 <= level < kNumLevels -> files_ok ucmp (level_files v level).
Proof.
  intros Hv Hl. split; [|by apply Hv]. eapply Forall_impl; [by apply (vo_files _ _ _ _ Hv)|]. by intros f (_ & _ & _ & ? & _).
Qed.

Lemma OverlapInLevel_spec v level small large :
  version_ok v -> 0 <= level < kNumLevels -> OverlapInLevel ucmp v level small large = Some (existsb (overlaps ucmp small large) (level_files v level)).
Proof.
  intros Hv Hl. unfold OverlapInLevel. apply (SomeFileOverlapsRange_spec ucmp); [by apply version_files_ok|]. intros E%Z.ltb_lt. apply Hv. lia.
Qed.

(** No file of the levels down to the picked one overlaps the range, unless level 0 is picked. *)
Lemma PickLevel_spec max v small large :
  version_ok v ->
  exists level, PickLevelForMemTableOutput ucmp max v small large = Some level /\ 0 <= level <= kMaxMemCompactLevel /\
    (0 < level -> forall l f, 0 <= l <= level -> f ∈ level_files v l -> overlaps ucmp (Some small) (Some large) f = false).
Proof.
  intros Hv. unfold PickLevelForMemTableOutput. rewrite OverlapInLevel_spec by (done || lia). cbn [mbind option_bind].
  destruct (existsb _ _) eqn:E0; [exists 0; split; [done|]; unfold kMaxMemCompactLevel; split; [lia|]; intros; lia|].
  assert (forall l, existsb (overlaps ucmp (Some small) (Some large)) (level_files v l) = false -> forall f, f ∈ level_files v l -> overlaps ucmp (Some small) (Some large) f = false) as Hnone.
  { intros l E f Hf. destruct (overlaps ucmp (Some small) (Some large) f) eqn:Ef; [|done]. rewrite <-E. symmetry. apply existsb_exists. exists f. by rewrite <-list_elem_of_In. }
  assert (forall fuel level, 0 <= level <= kMaxMemCompactLevel -> (Z.to_nat (kMaxMemCompactLevel - level) < fuel)%nat ->
    (forall l f, 0 <= l <= level -> f ∈ level_files v l -> overlaps ucmp (Some small) (Some large) f = false) ->
    exists level', PickLevel_loop ucmp fuel max v small large level = Some level' /\ 0 <= level' <= kMaxMemCompactLevel /\
      forall l f, 0 <= l <= level' -> f ∈ level_files v l -> overlaps ucmp (Some small) (Some large) f = false) as Hloop.
  { intros fuel. induction fuel as [|fuel IH]; intros level Hl Hfuel Hno; [lia|]. cbn [PickLevel_loop].
    destruct (Z.ltb_spec level kMaxMemCompactLevel) as [Hlt|]; [|by exists level]. unfold kMaxMemCompactLevel in *. rewrite OverlapInLevel_spec by (done || unfold kNumLevels; lia). cbn [mbind option_bind].
    destruct (existsb (overlaps ucmp (Some small) (Some large)) (level_files v (level + 1))) eqn:E1; [by exists level|].
    assert (exists level', PickLevel_loop ucmp fuel max v small large (level + 1) = Some level' /\ 0 <= level' <= 2 /\
      forall l f, 0 <= l <= level' -> f ∈ level_files v l -> overlaps ucmp (Some small) (Some large) f = false) as Hnext.
    { apply IH; [lia|lia|]. intros l f Hll Hf. destruct (decide (l = level + 1)) as [->|]; [by apply (Hnone (level + 1))|apply (Hno l); [lia|done]]. }
    destruct (level + 2 <? kNumLevels); [|done].
    destruct (GetOverlappingInputs_spec ucmp v (level + 2) (Some (NewInternalKey small kMaxSequenceNumber kValueTypeForSeek)) (Some (NewInternalKey large 0 kTypeDeletion))) as (b & e & -> & _).
    cbn [mbind option_bind]. destruct (_ <? _); [by exists level|done]. }
  destruct (Hloop (S (Z.to_nat kMaxMemCompactLevel)) 0) as (level & E & Hl & Hno); [unfold kMaxMemCompactLevel; lia|unfold kMaxMemCompactLevel; lia| |].
  - intros l f Hl Hf. assert (l = 0) as -> by lia. by apply (Hnone 0).
  - by exists level.
Qed.

(** ** A file that overlaps no other *)

(** The ranges of the files have no user key in common. *)
Lemma no_overlap f g : file_ok ucmp f -> file_ok ucmp g -> overlaps ucmp (Some (user (smallest f))) (Some (user (largest f))) g = false ->
  Compare ucmp (user (largest g)) (user (smallest f)) < 0 \/ Compare ucmp (user (largest f)) (user (smallest g)) < 0.
Proof.
  intros Hf Hg Ho. destruct (Z.lt_ge_cases (Compare ucmp (user (largest g)) (user (smallest f))) 0) as [|H1]; [by left|].
  destruct (Z.lt_ge_cases (Compare ucmp (user (largest f)) (user (smallest g))) 0) as [|H2]; [by right|]. exfalso. rewrite (proj2 (overlaps_true ucmp _ _ g)) in Ho; [done|].
  split; apply (compare_nlt (key := any_key)); done || lia.
Qed.

Lemma user_lt a b : is_internal_key a -> is_internal_key b -> Compare ucmp (ExtractUserKey a) (ExtractUserKey b) < 0 -> Compare icmp a b < 0.
Proof. intros Ha Hb H. apply icmp_lt. by left. Qed.

Lemma merge_sorted base f :
  Forall (file_ok ucmp) base -> file_ok ucmp f -> sorted_files ucmp base ->
  (forall g, g ∈ base -> overlaps ucmp (Some (user (smallest f))) (Some (user (largest f))) g = false) -> sorted_files ucmp (merge_files ucmp base [f]).
Proof.
  intros Hok Hf Hs Hno. cbn [merge_files]. 
  assert (forall g, g ∈ base -> file_ok ucmp g -> Compare icmp (rep_ (largest g)) (rep_ (smallest f)) < 0 \/ Compare icmp (rep_ (largest f)) (rep_ (smallest g)) < 0) as Hsep.
  { intros g Hg Hgo. destruct Hf as (F1 & F2 & F3), Hgo as (G1 & G2 & G3). pose proof (no_overlap f g ltac:(by split) ltac:(by split) (Hno g Hg)) as [H|H]; [left|right];
      (apply user_lt; [by apply valid_internal..|exact H]). }
  clear Hno. induction Hs as [|g base Hs IH Hall]; cbn [upper_bound]; [by repeat constructor|]. apply Forall_cons in Hok as [Hg Hok].
  pose proof (Hsep g ltac:(left) Hg) as Hfg. pose proof Hf as (F1 & F2 & F3). pose proof Hg as (G1 & G2 & G3).
  destruct (BySmallestKey ucmp f g) eqn:E.
  - apply before_spec in E. assert (Compare icmp (rep_ (largest f)) (rep_ (smallest g)) < 0) as Hlt.
    { destruct Hfg as [H|H]; [|done]. exfalso. assert (Compare icmp (rep_ (smallest g)) (rep_ (smallest g)) < 0) as Hbad.
      { apply (compare_le_lt (key := is_internal_key) _ (rep_ (largest g))); [by apply valid_internal..|done|].
        apply (compare_lt_le (key := is_internal_key) _ (rep_ (smallest f))); [by apply valid_internal..|done|lia]. }
      rewrite (compare_refl (key := is_internal_key)) in Hbad by (by apply valid_internal). lia. }
    constructor; [by constructor|]. constructor; [done|]. apply Forall_forall. intros h Hh. pose proof (proj1 (Forall_forall _ _) Hall h Hh) as Hgh.
    destruct (proj1 (Forall_forall _ _) Hok h Hh) as (H1 & _). apply (compare_trans (key := is_internal_key) _ (rep_ (smallest g))); [by apply valid_internal..|done|].
    apply (compare_le_lt (key := is_internal_key) _ (rep_ (largest g))); [by apply valid_internal..|done|done].
  - destruct (upper_bound ucmp f base) as [b r] eqn:Eb. cbn [app]. constructor; [apply IH; [done|]; intros h Hh; by apply Hsep; right|].
    apply upper_bound_app in Eb as ->. rewrite Forall_app, Forall_cons. apply Forall_app in Hall as [Ha Hb]. split_and!; [done| |done].
    destruct Hfg as [H|H]; [done|]. exfalso. assert (~ (Compare icmp (rep_ (smallest f)) (rep_ (smallest g)) < 0)) as Hn.
    { intros H'. rewrite (proj2 (before_spec ucmp f g)) in E; [done|by left]. }
    apply Hn. apply (compare_le_lt (key := is_internal_key) _ (rep_ (largest f))); [by apply valid_internal..|done|done].
Qed.

(** ** Entries *)

Lemma seqs_differ_perm es es' : es ≡ₚ es' -> seqs_differ es -> seqs_differ es'.
Proof.
  induction 1 as [|e l l' Hp IH|a b l|l1 l2 l3 _ IH1 _ IH2]; [done| | |by intros; apply IH2, IH1].
  - intros [H1 H2]. split; [intros e' He'; apply H1; by rewrite Hp|by apply IH].
  - intros [H1 [H2 H3]]. split; [|split; [|done]].
    + intros e He. apply elem_of_cons in He as [->|He]; [|by apply H2]. intros Hk Hs. by apply (H1 a ltac:(left)).
    + intros e He. apply H1. by right.
Qed.

Lemma seqs_differ_app es es' : seqs_differ es -> seqs_differ es' -> older es es' -> seqs_differ (es ++ es').
Proof.
  induction es as [|e es IH]; [done|]. intros [H1 H2] Hd Ho. cbn [app]. split.
  - intros e' [He'|He']%elem_of_app Hk; [by apply H1|]. pose proof (Ho e e' ltac:(left) He' ltac:(congruence)). lia.
  - apply IH; [done|done|]. intros a b Ha. apply Ho. by right.
Qed.

Section add.
Context (v v' : Version) (f : FileMetaData) (es : list entry) (level : Z).

(** The contents and the stored files with the new one. *)
Definition contents_with (g : FileMetaData) : list entry := if decide (number g = number f) then es else contents g.
Definition stored_with (g : FileMetaData) : Prop := stored g \/ g = f.

Context (Hv : version_ok v) (Hlevel : 0 <= level < kNumLevels).
Context (Hnumber : forall l g, 0 <= l < kNumLevels -> g ∈ level_files v l -> number g < number f).
Context (Hf : file_holds ucmp contents_with stored_with f).
Context (Hfiles : forall l, 0 <= l < kNumLevels -> level_files v' l = if decide (l = level) then merge_files ucmp (level_files v l) [f] else level_files v l).
Context (Hcount : slen (level_files v level) + 1 < 2 ^ 31).
Context (Hnewer : forall l, 0 <= l < kNumLevels -> older es (concat (map contents (level_files v l)))).
Context (Hno : 0 < level -> forall l g, 0 <= l <= level -> g ∈ level_files v l -> overlaps ucmp (Some (user (smallest f))) (Some (user (largest f))) g = false).

Abbreviation level_es' l := (concat (map contents_with (level_files v' l))).
Abbreviation level_es l := (concat (map contents (level_files v l))).

Lemma contents_with_new : contents_with f = es.
Proof. unfold contents_with. by rewrite decide_True. Qed.

Lemma contents_with_old l g : 0 <= l < kNumLevels -> g ∈ level_files v l -> contents_with g = contents g.
Proof. intros Hl Hg. unfold contents_with. rewrite decide_False; [done|]. pose proof (Hnumber l g Hl Hg). lia. Qed.

Lemma holds_old l g : 0 <= l < kNumLevels -> g ∈ level_files v l -> file_holds ucmp contents_with stored_with g.
Proof.
  intros Hl Hg. pose proof (proj1 (Forall_forall _ _) (vo_files _ _ _ _ Hv l Hl) g Hg) as Hold. unfold file_holds in *. rewrite (contents_with_old l g Hl Hg).
  destruct Hold as (H1 & H2). split; [by left|done].
Qed.

(** The files and the entries of a level. *)
Lemma level_perm l : 0 <= l < kNumLevels -> level_files v' l ≡ₚ if decide (l = level) then f :: level_files v l else level_files v l.
Proof. intros Hl. rewrite Hfiles by done. case_decide; [|done]. rewrite merge_files_perm. by rewrite (comm (++)). Qed.

Lemma level_contents l : 0 <= l < kNumLevels -> level_es' l ≡ₚ (if decide (l = level) then es else []) ++ level_es l.
Proof.
  intros Hl. assert (map contents_with (level_files v l) = map contents (level_files v l)) as E.
  { apply map_ext_in. intros g Hg. apply (contents_with_old l); [done|]. by apply list_elem_of_In. }
  rewrite level_perm by done. case_decide; cbn [map concat app]; rewrite E; [by rewrite contents_with_new|done].
Qed.

Lemma concat_perm ls : Forall (fun l => 0 <= l < kNumLevels) ls -> NoDup ls ->
  concat (map (fun l => level_es' l) ls) ≡ₚ (if decide (level ∈ ls) then es else []) ++ concat (map (fun l => level_es l) ls).
Proof.
  intros Hls Hnd. induction Hnd as [|l ls Hni Hnd IH]; [done|]. apply Forall_cons in Hls as [Hl Hls]. cbn [map concat]. rewrite (IH Hls), (level_contents l Hl).
  destruct (decide (l = level)) as [->|Hne].
  - rewrite (decide_False (P := level ∈ ls)) by done. rewrite decide_True by left. cbn [app]. by rewrite <-app_assoc.
  - cbn [app]. destruct (decide (level ∈ ls)) as [Hin|Hin]; [rewrite decide_True by (by right)|rewrite decide_False by (rewrite elem_of_cons; intros [|]; done)]; [|done].
    rewrite !app_assoc. by apply Permutation_app_tail, Permutation_app_comm.
Qed.

Lemma all_entries_with : all_entries contents_with v' ≡ₚ es ++ all_entries contents v.
Proof.
  unfold all_entries, levels_es. rewrite Z2Nat.id by (unfold kNumLevels; lia). rewrite (concat_perm (seqZ 0 kNumLevels)).
  - rewrite decide_True; [done|]. apply elem_of_seqZ. lia.
  - apply Forall_forall. intros l Hl%elem_of_seqZ. lia.
  - apply NoDup_seqZ.
Qed.

Lemma elem_level_es l e : e ∈ level_es l <-> exists g, g ∈ level_files v l /\ e ∈ contents g.
Proof. apply (elem_of_level contents). Qed.

(** The user keys of a file are between its bounds. *)
Lemma file_key_range (ct : FileMetaData -> list entry) st g e : file_holds ucmp ct st g -> e ∈ ct g ->
  Compare ucmp (user (smallest g)) (e_key e) <= 0 /\ Compare ucmp (e_key e) (user (largest g)) <= 0.
Proof.
  intros (_ & _ & _ & _ & Hb & _) He. destruct (Hb e He) as [H1 H2]. apply (icmp_user ucmp) in H1, H2. rewrite (entry_user e) in H1, H2. done.
Qed.

(** On the levels above the file no user key is one of the file's. *)
Lemma apart l g a b : 0 < level -> 0 <= l <= level -> g ∈ level_files v l -> a ∈ contents g -> b ∈ es -> e_key a = e_key b -> False.
Proof.
  intros Hpos Hl Hg Ha Hb Hk. assert (0 <= l < kNumLevels) as Hl' by lia. pose proof (proj1 (Forall_forall _ _) (vo_files _ _ _ _ Hv l Hl') g Hg) as Hgh.
  destruct (file_key_range contents stored g a Hgh Ha) as [G1 G2].
  assert (b ∈ contents_with f) as Hb' by (by rewrite contents_with_new). destruct (file_key_range _ _ f b Hf Hb') as [F1 F2]. rewrite <-Hk in F1, F2.
  pose proof (Hno Hpos l g Hl Hg) as Ho. rewrite (proj2 (overlaps_true ucmp _ _ g)) in Ho; [done|].
  split; by eapply (compare_le_trans (key := any_key)); [done..|eassumption|eassumption].
Qed.

Lemma numbers_NoDup : NoDup (map number (level_files v' 0)).
Proof.
  rewrite level_perm by (unfold kNumLevels; lia). case_decide; [|apply Hv]. cbn [map]. apply NoDup_cons. split; [|apply Hv].
  intros Hin. apply list_elem_of_fmap in Hin as (g & E & Hg). pose proof (Hnumber 0 g ltac:(unfold kNumLevels; lia) Hg). lia.
Qed.

Lemma elem_level l g : 0 <= l < kNumLevels -> g ∈ level_files v' l -> (g = f /\ l = level) \/ g ∈ level_files v l.
Proof. intros Hl. rewrite level_perm by done. case_decide; [rewrite elem_of_cons; intros [|]; auto|auto]. Qed.

Lemma level0_newer g h : g ∈ level_files v' 0 -> h ∈ level_files v' 0 -> number h < number g -> older (contents_with g) (contents_with h).
Proof.
  assert (0 <= 0 < kNumLevels) as H0 by (unfold kNumLevels; lia). intros Hg Hh Hn. apply (elem_level 0) in Hg as [[-> _]|Hg], Hh as [[-> _]|Hh]; try done; [lia| | |].
  - rewrite contents_with_new, (contents_with_old 0 h H0 Hh). intros a b Ha Hb. apply (Hnewer 0 H0 a b Ha). apply elem_level_es. eauto.
  - pose proof (Hnumber 0 g H0 Hg). lia.
  - rewrite (contents_with_old 0 g H0 Hg), (contents_with_old 0 h H0 Hh). by apply Hv.
Qed.

Lemma levels_newer i j : 0 <= i < j -> j < kNumLevels -> older (level_es' i) (level_es' j).
Proof.
  intros Hij Hj a b. rewrite (level_contents i), (level_contents j) by lia. rewrite !elem_of_app. intros Ha Hb Hk. destruct Ha as [Ha|Ha], Hb as [Hb|Hb].
  - repeat case_decide; try (by apply elem_of_nil in Ha); try (by apply elem_of_nil in Hb). lia.
  - case_decide; [|by apply elem_of_nil in Ha]. by apply (Hnewer j ltac:(lia) a b).
  - case_decide as E; [|by apply elem_of_nil in Hb]. apply elem_level_es in Ha as (g & Hg & Ha). exfalso. apply (apart i g a b); [lia|lia|done..].
  - by apply (vo_older _ _ _ _ Hv i j).
Qed.

Lemma version_ok_with : seqs_differ es -> Version.version_ok ucmp contents_with stored_with v'.
Proof.
  intros Hd. split.
  - intros l Hl. apply Forall_forall. intros g Hg. apply (elem_level l g Hl) in Hg as [[-> ->]|Hg]; [done|by apply (holds_old l)].
  - intros l Hl. rewrite (Permutation_length (level_perm l Hl)). pose proof (vo_count _ _ _ _ Hv l Hl). case_decide; [subst; cbn [length]; lia|done].
  - intros l Hl. rewrite Hfiles by lia. case_decide as E; [|by apply Hv]. subst l. apply merge_sorted; [|apply Hf|by apply Hv|].
    + eapply Forall_impl; [apply (vo_files _ _ _ _ Hv level Hlevel)|]. by intros g (_ & _ & _ & ? & _).
    + intros g Hg. by apply (Hno ltac:(lia) level); [lia|].
  - apply numbers_NoDup.
  - apply level0_newer.
  - apply levels_newer.
  - intros l Hl. apply (seqs_differ_perm ((if decide (l = level) then es else []) ++ level_es l)); [by rewrite (level_contents l Hl)|].
    case_decide; [|by apply Hv]. apply seqs_differ_app; [done|by apply Hv|by apply Hnewer].
Qed.
End add.
End level.

(** ** The edit *)

Lemma kept_all (d : gset Z) ls : (forall n, n ∉ d) -> List.filter (kept d) ls = ls.
Proof. intros Hd. induction ls as [|g ls IH]; [done|]. cbn [List.filter]. unfold kept at 1. rewrite bool_decide_false by apply Hd. cbn [negb]. by rewrite IH. Qed.

(** The files of the levels when an edit adds a file and deletes none. *)
Lemma added_file_levels ucmp v edit cp level f l :
  new_files_ edit = [(level, f)] -> deleted_files_ edit = [] -> level_ok level -> level_ok l ->
  level_files (SaveTo ucmp (Builder_Apply ucmp edit cp (NewBuilder v)).2) l =
    if decide (l = level) then merge_files ucmp (level_files v l) [applied_file f] else level_files v l.
Proof.
  intros En Ed Hlevel Hl. cbn [Builder_Apply snd]. rewrite En, Ed. cbn [foldl]. unfold apply_new. cbn [fst snd].
  set (h := fun l0 => MkLevelState _ _). pose proof (alter_level_lookup h level l (NewBuilder v) _ Hlevel Hl (lookup_new_levels v l Hl)) as E.
  rewrite (level_files_SaveTo ucmp _ l _ E Hl). cbn [alter_level base_ NewBuilder].
  destruct (decide (level = l)) as [->|Hne].
  - rewrite decide_True by done. rewrite kept_all; [done|]. intros n [Hn _]%elem_of_difference. by apply elem_of_empty in Hn.
  - rewrite decide_False by congruence. rewrite kept_all; [done|]. intros n Hn. by apply elem_of_empty in Hn.
Qed.

(** ** The call *)

(** The memtable has the entries; the count of its references does not matter. *)
Definition mem_holds (ucmp : Comparator) (m : MemTable) (es : list entry) : Prop := exists m0, add_all ucmp es NewMemTable = Some m0 /\ table_ m = table_ m0.

Section write.
Context (extend : Z -> slice -> Z) `{!Checksum extend} (snappy : option SnappyLib) (zstd : option ZstdLib).
Context (dbname : slice) (in_scratch : bool) (ucmp : Comparator) `{!ComparatorLaws any_key ucmp} `{!SeparatorSame any_key ucmp} (max_file_size : Z).
Context (o : Options) (Ho : opt_comparator o = InternalKeyComparator ucmp).

Abbreviation input_ok es := (table_input extend snappy zstd o is_internal_key (table_of es)).

Lemma memtable_ops_table m m0 : table_ m = table_ m0 -> memtable_ops ucmp m = memtable_ops ucmp m0.
Proof. destruct m as [r t], m0 as [r0 t0]. cbn [table_]. by intros <-. Qed.

Lemma WriteLevel0Table_spec contents stored base vs tc mem es edit :
  mem_holds ucmp mem es -> Forall entry_ok es -> seqs_differ es -> es <> [] -> (forall sorted, sorted ≡ₚ es -> entries_ok ucmp sorted -> input_ok sorted) ->
  (forall v, base = Some v -> version_ok ucmp contents stored v) -> is_u64 (vs_next_file_number vs) -> env_faults (tc_env tc) = [] -> tc_cache tc !! EncodeFixed64 (vs_next_file_number vs) = None ->
  let n := vs_next_file_number vs in
  exists sorted e0 e1 bytes level tc', sorted ≡ₚ es /\ entries_ok ucmp sorted /\ head sorted = Some e0 /\ last sorted = Some e1 /\
    let small := MkInternalKey (entry_internal_key e0) in let large := MkInternalKey (entry_internal_key e1) in
    WriteLevel0Table extend snappy zstd dbname o in_scratch None ucmp max_file_size mem edit base vs tc =
      Some (OK, AddFile level n (slen bytes) small large edit, (NewFileNumber vs).2, tc') /\
    table_bytes_of extend snappy zstd o (table_of sorted) bytes /\ 0 < slen bytes < 2 ^ 64 /\
    0 <= level <= kMaxMemCompactLevel /\ (base = None -> level = 0) /\
    (forall v, base = Some v -> 0 < level -> forall l g, 0 <= l <= level -> g ∈ level_files v l -> overlaps ucmp (Some (InternalKey_user_key small)) (Some (InternalKey_user_key large)) g = false) /\
    env_faults (tc_env tc') = [] /\ env_files (tc_env tc') = <[TableFileName dbname n := bytes]> (env_files (tc_env tc)) /\
    exists t id, opened extend snappy zstd o (table_of sorted) in_scratch id t /\ tc_cache tc' = <[EncodeFixed64 n := t]> (tc_cache tc).
Proof.
  intros (m0 & Hm & Ht) Hok Hd Hne Hin Hv Hn He Hc n. destruct (memtable_iter ucmp es m0 Hok Hd Hm) as (sorted & pos & Hp & Hes & HI & Hpos).
  assert (exists e0 e1, head sorted = Some e0 /\ last sorted = Some e1) as (e0 & e1 & Hh & Hl).
  { destruct sorted as [|e0 l]; [exfalso; apply Hne; by apply Permutation_nil|]. destruct (last (e0 :: l)) as [e1|] eqn:E; [by exists e0, e1|]. by apply last_None in E. }
  assert (length sorted <= length (nodes (table_ mem)))%nat as Hfuel.
  { rewrite Ht, (add_all_nodes _ _ _ _ Hm), (Permutation_length Hp). lia. }
  set (meta := NewFile n 0 (MkInternalKey []) (MkInternalKey [])).
  destruct (BuildTable_spec extend snappy zstd dbname in_scratch None ucmp o Ho (memtable_ops ucmp m0) sorted seekable pos HI (Hin sorted Hp Hes) ltac:(by intros)
    (length (nodes (table_ mem))) None (length es) meta tc e0 e1 Hpos Hfuel Hn He Hc Hh Hl) as (bytes & f & tc' & E & Hb & Hsz & -> & He' & Hfiles & Hcache).
  set (small := InternalKey_user_key (MkInternalKey (entry_internal_key e0))). set (large := InternalKey_user_key (MkInternalKey (entry_internal_key e1))).
  assert (exists level, match base with Some v => PickLevelForMemTableOutput ucmp max_file_size v small large | None => Some 0 end = Some level /\ 0 <= level <= kMaxMemCompactLevel /\
    (base = None -> level = 0) /\ forall v, base = Some v -> 0 < level -> forall l g, 0 <= l <= level -> g ∈ level_files v l -> overlaps ucmp (Some small) (Some large) g = false) as (level & El & Hlev & Hnone & Hno).
  { destruct base as [v|]; [|exists 0; by split_and!]. destruct (PickLevel_spec ucmp contents stored max_file_size v small large (Hv v eq_refl)) as (level & El & Hlev & Hno).
    exists level. split_and!; try done; try lia. by intros v' [= <-]. }
  exists sorted, e0, e1, bytes, level, tc'. split_and!; try done. cbv zeta. split_and!; try done; try lia.
  unfold WriteLevel0Table. unfold NewFileNumber. fold n. rewrite (memtable_ops_table mem m0 Ht). fold meta. rewrite E. cbn [mbind option_bind file_size number smallest largest]. rewrite ok_OK.
  rewrite (proj2 (Z.ltb_lt _ _)) by lia. cbn [andb]. fold small large. rewrite El. cbn [mbind option_bind snd]. done.
Qed.
End write.
