(* ===== verification/InternalIterator.v ===== *)
(** InternalIterator: the iterators over the entries of a version and of a compaction: the iterators of tables and of the
    files of a level ([GetFileIterator], [Version::NewConcatenatingIterator], [Version::AddIterators] and
    [VersionSet::MakeInputIterator] of db/version_set.cc).  Each shows the entries of its files in the order of the internal
    keys. *)

From stdpp Require Import gmap sorting.
From Stdlib Require Import Strings.Byte Strings.String.
From S2P Require Import Prelude Coding Crc32c Comparator DbFormat Status Env FileSystem Filename VersionEdit FilterPolicy FilterBlock SkipList MemTable Format Iterator TwoLevelIterator Version Block Merger TableBuilder Table TableCache VersionSet Compaction Flush.

(** * Virtual calls *)

(** The operations of a type of iterators of several kinds: [kind] calls its argument with the operations of the kind of an
    iterator, its constructor and its state. *)
Definition dispatch_ops {C : Type} (kind : forall R, (forall A, IterOps A -> (A -> C) -> A -> R) -> C -> R) : IterOps C :=
  MkIterOps
    (kind _ (fun A ops _ a => i_Valid ops a))
    (kind _ (fun A ops _ a => i_key ops a))
    (kind _ (fun A ops _ a => i_value ops a))
    (kind _ (fun A ops _ a => i_status ops a))
    (fun t => kind _ (fun A ops inj a => inj <$> i_Seek ops t a))
    (kind _ (fun A ops inj a => inj <$> i_SeekToFirst ops a))
    (kind _ (fun A ops inj a => inj <$> i_SeekToLast ops a))
    (kind _ (fun A ops inj a => inj <$> i_Next ops a))
    (kind _ (fun A ops inj a => inj <$> i_Prev ops a)).

Section InternalIterator.
Context (extend : Z -> slice -> Z) (snappy : option SnappyLib) (zstd : option ZstdLib).
Context (dbname : slice) (options : Options) (in_scratch : bool) (bcache : option (slice -> option Block)).
Context (ucmp : Comparator).

(** * Iterators of tables and levels *)

Definition table_kind (ro : ReadOptions) R (f : forall A, IterOps A -> (A -> TableIterator) -> A -> R) (it : TableIterator) : R :=
  match it with
  | TableError s => f _ EmptyIterator_ops TableError s
  | TableIter t it => f _ (table_iter_ops extend snappy zstd bcache t ro) (TableIter t) it
  end.

Definition TableIterator_ops (ro : ReadOptions) : IterOps TableIterator := dispatch_ops (table_kind ro).

(** The cache is the one when the iterator over the level was made: a table that is opened later is not kept for the next
    call, which opens it again. *)
Definition GetFileIterator (tc : TableCache) (file_value : slice) : option TableIterator :=
  if negb (slen file_value =? 16) then Some (TableError (NewErrorIterator (Corruption (lit "FileReader invoked with unexpected value") [])))
  else fst <$> TableCache_NewIterator extend snappy zstd dbname options in_scratch (DecodeFixed64 file_value) (DecodeFixed64 (drop 8 file_value)) tc.

Abbreviation LevelIterator := (TwoLevelIterator Z TableIterator).

Definition level_iter_ops (ro : ReadOptions) (flist : list FileMetaData) (tc : TableCache) : IterOps LevelIterator :=
  TwoLevel_ops (LevelFileNum_ops ucmp flist) (TableIterator_ops ro) (GetFileIterator tc) (length flist).

(** The iterator over some files of a level, one behind the other. *)
Definition NewLevelIterator (ro : ReadOptions) (flist : list FileMetaData) : LevelIterator :=
  NewTwoLevelIterator (LevelFileNum_ops ucmp flist) (TableIterator_ops ro) (NewLevelFileNumIterator flist).

Definition NewConcatenatingIterator (ro : ReadOptions) (v : Version) (level : Z) : LevelIterator := NewLevelIterator ro (level_files v level).

(** * The children of a merging iterator *)

(** The iterators of a memtable, of a table, and of files of a level. *)
Inductive InternalChild :=
  | MemChild (m : MemTable) (node : ptr)
  | TableChild (it : TableIterator)
  | LevelChild (flist : list FileMetaData) (tc : TableCache) (it : LevelIterator).

Definition child_kind (ro : ReadOptions) R (f : forall A, IterOps A -> (A -> InternalChild) -> A -> R) (c : InternalChild) : R :=
  match c with
  | MemChild m node => f _ (memtable_ops ucmp m) (MemChild m) node
  | TableChild it => f _ (TableIterator_ops ro) TableChild it
  | LevelChild flist tc it => f _ (level_iter_ops ro flist tc) (LevelChild flist tc) it
  end.

Definition child_ops (ro : ReadOptions) : IterOps InternalChild := dispatch_ops (child_kind ro).

(** The iterators of tables, which are opened. *)
Fixpoint table_children (files : list FileMetaData) (tc : TableCache) : option (list InternalChild * TableCache) :=
  match files with
  | [] => Some ([], tc)
  | f :: files =>
      '(it, tc) ← TableCache_NewIterator extend snappy zstd dbname options in_scratch (number f) (file_size f) tc;
      '(l, tc) ← table_children files tc;
      Some (TableChild it :: l, tc)
  end.

Definition level_child (ro : ReadOptions) (files : list FileMetaData) (tc : TableCache) : list InternalChild :=
  if bool_decide (files = []) then [] else [LevelChild files tc (NewLevelIterator ro files)].

(** The iterators that are added to [*iters]. *)
Definition AddIterators (ro : ReadOptions) (v : Version) (tc : TableCache) : option (list InternalChild * TableCache) :=
  '(l, tc) ← table_children (level_files v 0) tc;
  Some (l ++ concat (map (fun level => level_child ro (level_files v level) tc) (seqZ 1 (kNumLevels - 1))), tc).

Definition input_read_options : ReadOptions := MkReadOptions (opt_paranoid_checks options) false.

(** The files of one of the inputs. *)
Definition input_children (level : Z) (files : list FileMetaData) (tc : TableCache) : option (list InternalChild * TableCache) :=
  if level =? 0 then table_children files tc else Some (level_child input_read_options files tc, tc).

Definition MakeInputIterator (c : Compaction) (tc : TableCache) : option (MergedIterator InternalChild * TableCache) :=
  '(l0, tc) ← input_children (c_level c) (c_inputs0 c) tc;
  '(l1, tc) ← input_children (c_level c + 1) (c_inputs1 c) tc;
  Some (NewMergingIterator (child_ops input_read_options) (l0 ++ l1), tc).
End InternalIterator.

(** * Lemmas *)

(** An iterator of a kind keeps the promises that the kind keeps. *)
Lemma dispatch_laws {C A : Type} (kind : forall R, (forall A, IterOps A -> (A -> C) -> A -> R) -> C -> R) (ops : IterOps A) (inj : A -> C) cmp key es pos :
  (forall R (f : forall A, IterOps A -> (A -> C) -> A -> R) a, kind R f (inj a) = f A ops inj a) -> IterLaws ops cmp key es pos ->
  IterLaws (dispatch_ops kind) cmp key es (fun c i => exists a, c = inj a /\ pos a i).
Proof.
  intros Hk L. split; unfold dispatch_ops; cbn [i_Valid i_key i_value i_status i_Seek i_SeekToFirst i_SeekToLast i_Next i_Prev]; intros c i.
  - intros (a & -> & Ha). by apply (pos_range a).
  - intros (a & -> & Ha). rewrite Hk. by apply (pos_Valid a).
  - intros k v (a & -> & Ha). rewrite Hk. by apply (pos_key a).
  - intros k v (a & -> & Ha). rewrite Hk. by apply (pos_value a).
  - intros (a & -> & Ha). rewrite Hk. by apply (pos_status a i).
  - intros t (a & -> & Ha) Ht. rewrite Hk. destruct (pos_Seek a i t Ha Ht) as (a' & -> & Ha'). cbn. eauto.
  - intros (a & -> & Ha). rewrite Hk. destruct (pos_SeekToFirst a i Ha) as (a' & -> & Ha'). cbn. eauto.
  - intros (a & -> & Ha). rewrite Hk. destruct (pos_SeekToLast a i Ha) as (a' & -> & Ha'). cbn. eauto.
  - intros (a & -> & Ha) Hi. rewrite Hk. destruct (pos_Next a i Ha Hi) as (a' & -> & Ha'). cbn. eauto.
  - intros (a & -> & Ha) Hi. rewrite Hk. destruct (pos_Prev a i Ha Hi) as (a' & -> & Ha'). cbn. eauto.
Qed.

Lemma laws_targets {A : Type} (ops : IterOps A) cmp (key key' : slice -> Prop) es pos : (forall t, key' t -> key t) -> IterLaws ops cmp key es pos -> IterLaws ops cmp key' es pos.
Proof.
  intros Hk L. split; intros a i; intros *.
  - apply pos_range.
  - apply pos_Valid.
  - apply pos_key.
  - apply pos_value.
  - apply pos_status.
  - intros Ha Ht. apply (pos_Seek a i); [done|by apply Hk].
  - apply pos_SeekToFirst.
  - apply pos_SeekToLast.
  - apply pos_Next.
  - apply pos_Prev.
Qed.

(** An iterator that is at a position of some list of entries, in whatever way it represents it. *)
Definition at_pos {A : Type} (ops : IterOps A) cmp (key : slice -> Prop) es (a : A) (i : nat) : Prop := exists pos, IterLaws ops cmp key es pos /\ pos a i.

#[export] Instance at_pos_laws {A : Type} (ops : IterOps A) cmp key es : IterLaws ops cmp key es (at_pos ops cmp key es).
Proof.
  split; intros a i; intros *; intros (pos & L & Ha).
  - by apply (pos_range a).
  - by apply (pos_Valid a).
  - by apply (pos_key a).
  - by apply (pos_value a).
  - by apply (pos_status a i).
  - intros Ht. destruct (pos_Seek a i t Ha Ht) as (a' & -> & Ha'). eexists. split; [done|]. by exists pos.
  - destruct (pos_SeekToFirst a i Ha) as (a' & -> & Ha'). eexists. split; [done|]. by exists pos.
  - destruct (pos_SeekToLast a i Ha) as (a' & -> & Ha'). eexists. split; [done|]. by exists pos.
  - intros Hi. destruct (pos_Next a i Ha Hi) as (a' & -> & Ha'). eexists. split; [done|]. by exists pos.
  - intros Hi. destruct (pos_Prev a i Ha Hi) as (a' & -> & Ha'). eexists. split; [done|]. by exists pos.
Qed.

Section laws.
Context (extend : Z -> slice -> Z) `{!Checksum extend} (snappy : option SnappyLib) (zstd : option ZstdLib).
Context (dbname : slice) (in_scratch : bool) (bcache : option (slice -> option Block)) (ro : ReadOptions).
Context (ucmp : Comparator) `{!ComparatorLaws any_key ucmp} `{!SeparatorSame any_key ucmp}.
Context (o : Options) (Ho : opt_comparator o = InternalKeyComparator ucmp).
(** The files of the store, with their contents, and a block cache that has their blocks. *)
Context (contents : FileMetaData -> list entry) (live : FileMetaData -> Prop).
Context (Hstored : forall f, live f -> table_stored extend snappy zstd o contents f).
Context (Hsame : forall f g, live f -> live g -> number f = number g -> contents f = contents g).
Context (Hbc : forall f id t, live f -> opened extend snappy zstd o (table_of (contents f)) in_scratch id t -> cache_coherent extend snappy zstd bcache t).

Abbreviation icmp := (InternalKeyComparator ucmp).
Abbreviation inv := (cache_inv extend snappy zstd dbname in_scratch o contents live).
Abbreviation table_ops := (TableIterator_ops extend snappy zstd bcache ro).
Abbreviation level_ops := (level_iter_ops extend snappy zstd dbname o in_scratch bcache ucmp ro).

(** ** Tables *)

Lemma table_iterator f tc :
  live f -> inv tc ->
  exists it tc' i, TableCache_NewIterator extend snappy zstd dbname o in_scratch (number f) (file_size f) tc = Some (it, tc') /\ inv tc' /\ only_opens live tc tc' /\
    at_pos table_ops icmp is_internal_key (table_of (contents f)) it i.
Proof.
  intros Hf Hinv. destruct (FindTable_spec extend snappy zstd dbname in_scratch ucmp o Ho contents live f tc Hstored) as (t & id & tc' & E & Hop & Hinv' & Hgr); [intros g Hg Hn; by apply Hsame|done|done|].
  assert (ComparatorLaws is_internal_key (opt_comparator o)) as HL by (rewrite Ho; apply _).
  destruct (opened_iterator extend snappy zstd o is_internal_key (table_of (contents f)) (proj1 (proj2 (Hstored f Hf))) in_scratch id t bcache ro Hop (Hbc f id t Hf Hop)) as (pos & L & Hp).
  rewrite Ho in L. unfold TableCache_NewIterator. rewrite E. cbn [mbind option_bind]. rewrite ok_OK. eexists _, tc', _. split; [reflexivity|]. split; [done|]. split; [done|]. eexists. split.
  - refine (dispatch_laws (table_kind extend snappy zstd bcache ro) _ (TableIter t) _ _ _ _ _ L). done.
  - eexists. split; [reflexivity|exact Hp].
Qed.

(** ** Levels *)

Definition level_table (files : list FileMetaData) : list (slice * slice) := table_of (concat (map contents files)).

Lemma level_table_concat files : level_table files = concat (map (fun f => table_of (contents f)) files).
Proof. unfold level_table, table_of. by rewrite concat_map, map_map. Qed.

(** Files in a row, with what they hold. *)
Definition row_ok (files : list FileMetaData) : Prop := Forall live files /\ Forall (file_holds ucmp contents live) files /\ sorted_files ucmp files /\ slen files < 2 ^ 31.

Lemma row_numbers files i j f g : row_ok files -> files !! i = Some f -> files !! j = Some g -> number f = number g -> i = j.
Proof.
  intros (Hlive & Hh & Hs & _). assert (forall i j f g, (i < j)%nat -> files !! i = Some f -> files !! j = Some g -> number f = number g -> False) as Hlt.
  { clear i j f g. intros i j f g Hij Ef Eg En. pose proof (proj1 (Forall_lookup _ _) Hlive _ _ Ef) as Lf. pose proof (proj1 (Forall_lookup _ _) Hlive _ _ Eg) as Lg.
    destruct (proj1 (Forall_lookup _ _) Hh _ _ Ef) as (_ & _ & _ & Fok & Fb & e & Fe & _). destruct (proj1 (Forall_lookup _ _) Hh _ _ Eg) as (_ & _ & _ & Gok & Gb & _).
    rewrite last_lookup in Fe. apply list_elem_of_lookup_2 in Fe. destruct (Fb e Fe) as [_ H1]. rewrite (Hsame f g Lf Lg En) in Fe. destruct (Gb e Fe) as [H2 _].
    pose proof (sorted_files_lookup ucmp files i j f g Hs Hij Ef Eg) as H3. destruct Fok as (_ & Fl & _), Gok as (Gs & _ & _).
    assert (Compare icmp (entry_internal_key e) (entry_internal_key e) < 0) as H4.
    { apply (compare_le_lt (key := is_internal_key) _ (rep_ (largest f))); [apply AppendInternalKey_internal|by apply valid_internal|apply AppendInternalKey_internal|done|].
      apply (compare_lt_le (key := is_internal_key) _ (rep_ (smallest g))); [by apply valid_internal..|apply AppendInternalKey_internal|done|done]. }
    rewrite (compare_refl (key := is_internal_key)) in H4 by apply AppendInternalKey_internal. lia. }
  intros Ef Eg En. destruct (lt_eq_lt_dec i j) as [[H|H]|H]; [|done|]; exfalso; [by apply (Hlt i j f g)|by apply (Hlt j i g f)].
Qed.

#[export] Instance LevelFileNum_laws files : files_ok ucmp files -> sorted_files ucmp files ->
  IterLaws (LevelFileNum_ops ucmp files) icmp is_internal_key (level_entries files) (fun z i => z = Z.of_nat i /\ (i <= length files)%nat).
Proof.
  intros [Hok Hn] Hs. assert (forall z, 0 <= z <= slen files -> u32 z = z) as Hw by (intros z Hz; apply wrap_small; unfold in_u; lia).
  split; cbn [LevelFileNum_ops i_Valid i_key i_value i_status i_Seek i_SeekToFirst i_SeekToLast i_Next i_Prev]; rewrite ?length_level_entries; intros z i; intros *; intros [-> Hi].
  - done.
  - apply eq_true_iff_eq. rewrite Z.ltb_lt, bool_decide_eq_true. lia.
  - intros (f & Ef & -> & _)%level_entries_lookup. by rewrite Nat2Z.id, Ef.
  - intros (f & Ef & _ & ->)%level_entries_lookup. by rewrite Nat2Z.id, Ef.
  - done.
  - intros Ht. rewrite FindFile_spec by done. eexists. split; [done|]. pose proof (seek_pos_le icmp t (level_entries files)) as Hle. rewrite length_level_entries in Hle. rewrite Hw by lia. done.
  - eexists. split; [done|]. split; [done|lia].
  - eexists. split; [done|]. destruct (Z.eqb_spec (slen files) 0); [split; lia|]. rewrite Hw by lia. split; lia.
  - intros Hlt. eexists. split; [done|]. rewrite Hw by lia. split; lia.
  - intros Hlt. eexists. split; [done|]. unfold prev_pos. case_decide as H0; [subst; cbn; rewrite Hw by lia; done|]. destruct (Z.eqb_spec (Z.of_nat i) 0); [lia|]. split; lia.
Qed.

Lemma GetFileIterator_spec f tc :
  live f -> is_u64 (file_size f) -> inv tc ->
  exists it i, GetFileIterator extend snappy zstd dbname o in_scratch tc (file_value f) = Some it /\ at_pos table_ops icmp is_internal_key (table_of (contents f)) it i.
Proof.
  intros Hf Hsz Hinv. destruct (table_iterator f tc Hf Hinv) as (it & tc' & i & E & _ & _ & Hi). exists it, i. split; [|done].
  unfold GetFileIterator, file_value. rewrite length_app, !length_EncodeFixed64. cbn [Z.of_nat negb Z.eqb Nat.add Pos.of_succ_nat Pos.succ Pos.eqb].
  pose proof (proj1 (Hstored f Hf)) as Hn. rewrite DecodeFixed64_Encode, drop_app_length' by (by rewrite length_EncodeFixed64). rewrite <-(app_nil_r (EncodeFixed64 (file_size f))), DecodeFixed64_Encode.
  rewrite !(wrap_small 64) by done. by rewrite E.
Qed.

(** The iterator over files in a row. *)
Lemma level_iterator files tc :
  row_ok files -> Forall (fun f => is_u64 (file_size f)) files -> inv tc ->
  at_pos (level_ops files tc) icmp is_internal_key (level_table files) (NewLevelIterator extend snappy zstd bcache ucmp ro files) (length (level_table files)).
Proof.
  intros Hrow Hsz Hinv. pose proof Hrow as (Hlive & Hh & Hs & Hn). assert (Forall (file_ok ucmp) files) as Hok by (eapply Forall_impl; [exact Hh|]; by intros f (_ & _ & _ & ? & _)).
  set (bs := map (fun f => table_of (contents f)) files). pose proof (LevelFileNum_laws files ltac:(by split) Hs) as HI.
  assert (forall j b, bs !! j = Some b -> IterLaws table_ops icmp is_internal_key b (at_pos table_ops icmp is_internal_key (default [] (bs !! j)))) as HD by (intros j b ->; apply _).
  rewrite level_table_concat. fold bs. eexists. split.
  - apply (TwoLevel_laws icmp is_internal_key (level_entries files) bs _ _ HD).
    + intros j k h (f & Ef & -> & ->)%level_entries_lookup. destruct (GetFileIterator_spec f tc) as (it & i & E & Hi); [by apply (proj1 (Forall_lookup _ _) Hlive j)|by apply (proj1 (Forall_lookup _ _) Hsz j)|done|].
      exists it, i. split; [done|]. unfold bs. by rewrite lookup_map, Ef.
    + intros i j k k' h (f & Ef & _ & ->)%level_entries_lookup (g & Eg & _ & Eh)%level_entries_lookup. apply (row_numbers files i j f g Hrow Ef Eg).
      unfold file_value in Eh. apply app_inj_1 in Eh as [Eh _]; [|by rewrite !length_EncodeFixed64]. apply EncodeFixed64_inj in Eh; [done|apply Hstored; by apply (proj1 (Forall_lookup _ _) Hlive i)|].
      apply Hstored. by apply (proj1 (Forall_lookup _ _) Hlive j).
    + by apply (level_separates ucmp contents live).
    + rewrite length_level_entries. lia.
    + by apply (level_entries_keys ucmp).
    + by apply level_entries_sorted.
    + unfold bs. rewrite <-level_table_concat. apply entries_keys.
    + unfold bs. rewrite <-level_table_concat. by apply (level_es_sorted ucmp contents live).
  - apply (NewTwoLevelIterator_pos icmp is_internal_key) with (j := length files); [done|]. unfold NewLevelFileNumIterator. split; [|done]. apply wrap_small. unfold in_u. lia.
Qed.

(** ** Children *)

Abbreviation c_ops := (child_ops extend snappy zstd dbname o in_scratch bcache ucmp ro).

(** The child is an iterator over the entries; [target] are the keys it can be asked for. *)
Definition shows (target : slice -> Prop) (c : InternalChild) (es : list (slice * slice)) : Prop := exists i, at_pos c_ops icmp target es c i.

Lemma shows_targets (target target' : slice -> Prop) c es : (forall t, target' t -> target t) -> shows target c es -> shows target' c es.
Proof. intros Ht (i & pos & L & Hp). exists i, pos. split; [by apply (laws_targets _ _ target)|done]. Qed.

Lemma child_shows {A} (ops : IterOps A) (inj : A -> InternalChild) target es a i :
  (forall R (f : forall A, IterOps A -> (A -> InternalChild) -> A -> R) a, child_kind extend snappy zstd dbname o in_scratch bcache ucmp ro R f (inj a) = f A ops inj a) ->
  at_pos ops icmp target es a i -> shows target (inj a) es.
Proof.
  intros Hk (pos & L & Hp). exists i. eexists. split; [exact (dispatch_laws _ ops inj icmp target es pos Hk L)|]. by exists a.
Qed.

Lemma table_children_spec files tc :
  Forall live files -> inv tc ->
  exists l tc', table_children extend snappy zstd dbname o in_scratch files tc = Some (l, tc') /\ inv tc' /\ only_opens live tc tc' /\ Forall2 (shows is_internal_key) l (map (fun f => table_of (contents f)) files).
Proof.
  intros Hl. revert tc. induction Hl as [|f files Hf Hl IH]; intros tc Hinv; cbn [table_children map]; [exists [], tc; split_and!; try done; apply only_opens_refl|].
  destruct (table_iterator f tc Hf Hinv) as (it & tc1 & i & -> & Hinv1 & Hg1 & Hi). cbn [mbind option_bind]. destruct (IH tc1 Hinv1) as (l & tc2 & -> & Hinv2 & Hg2 & Hl2). cbn [mbind option_bind].
  eexists _, tc2. split; [done|]. split; [done|]. split; [by eapply only_opens_trans|]. constructor; [|done]. by apply (child_shows table_ops TableChild _ _ it i).
Qed.

Lemma level_child_spec files tc :
  row_ok files -> Forall (fun f => is_u64 (file_size f)) files -> inv tc ->
  Forall2 (shows is_internal_key) (level_child extend snappy zstd bcache ucmp ro files tc) (if bool_decide (files = []) then [] else [level_table files]).
Proof.
  intros Hrow Hsz Hinv. unfold level_child. case_bool_decide; [constructor|]. constructor; [|constructor].
  apply (child_shows (level_ops files tc) (LevelChild files tc) _ _ _ _ ltac:(done) (level_iterator files tc Hrow Hsz Hinv)).
Qed.

(** ** The union *)

(** Entries of different internal keys can be sorted. *)
Lemma sort_exists es : Forall (fun e => seq_ok (e_seq e)) es -> seqs_differ es -> exists sorted, sorted ≡ₚ es /\ entries_ok ucmp sorted.
Proof.
  intros Hok Hd. set (le a b := Compare icmp (entry_internal_key a) (entry_internal_key b) <= 0).
  assert (forall e, is_internal_key (entry_internal_key e)) as Hi by (intros e; apply AppendInternalKey_internal).
  assert (RelDecision le) as Dle by (intros a b; unfold le; apply _). assert (Total le) as Tle.
  { intros a b. unfold le. destruct (Z.le_gt_cases (Compare icmp (entry_internal_key a) (entry_internal_key b)) 0); [by left|right]. apply Z.lt_le_incl, (compare_gt (key := is_internal_key)); [done|done|lia]. }
  assert (Transitive le) as Trle by (intros a b c; unfold le; by apply (compare_le_trans (key := is_internal_key))).
  exists (merge_sort le es). pose proof (merge_sort_Permutation le es) as Hp. split; [done|]. split; [by rewrite Hp|]. pose proof (StronglySorted_merge_sort le es) as Hs.
  apply (seqs_differ_perm es (merge_sort le es)) in Hd; [|done]. rewrite <-Hp in Hok. clear Hp. unfold sorted_entries, table_of. induction Hs as [|a l Hs IH Hall]; [constructor|].
  apply Forall_cons in Hok as [Ha Hok]. destruct Hd as [Hda Hd]. cbn [map]. constructor; [by apply IH|]. rewrite Forall_map. apply Forall_forall. intros b Hb. cbn [fst].
  pose proof (proj1 (Forall_forall _ _) Hall b Hb) as Hle. unfold le in Hle. destruct (Z.eq_dec (Compare icmp (entry_internal_key a) (entry_internal_key b)) 0) as [E|]; [|lia]. exfalso.
  apply (compare_eq (key := is_internal_key)) in E; [|done|done]. unfold entry_internal_key in E. apply (f_equal ParseInternalKey) in E.
  rewrite !ParseInternalKey_Append in E; [|exact (proj1 (Forall_forall _ _) Hok b Hb)|exact Ha]. injection E as Es Et Ek. by apply (Hda b Hb).
Qed.

(** [NewMergingIterator] over children is an iterator over the sorted union. *)
Lemma merged_children (target : slice -> Prop) children (ess : list (list (slice * slice))) sorted :
  (forall t, target t -> is_internal_key t) -> Forall2 (shows target) children ess -> table_of sorted ≡ₚ concat ess -> entries_ok ucmp sorted -> Forall (fun e => target e.1) (table_of sorted) ->
  Forall (sorted_entries icmp) ess ->
  exists i, at_pos (Merged_ops c_ops icmp) icmp target (table_of sorted) (NewMergingIterator c_ops children) i.
Proof.
  intros Ht Hsh Hp [_ Hs] Htg Hess. set (cpos := fun j => at_pos c_ops icmp target (default [] (ess !! j))).
  assert (forall j l, ess !! j = Some l -> IterLaws c_ops icmp target l (cpos j)) as HC by (intros j l E; unfold cpos; rewrite E; apply _).
  pose proof (Merged_laws Ht cpos HC Hp Htg (entries_keys sorted) Hs Hess) as ML.
  destruct (NewMergingIterator_pos (es := table_of sorted) cpos HC children) as [i Hi].
  - by apply Forall2_length in Hsh.
  - intros j a Ea. destruct (Forall2_lookup_l _ _ _ _ _ Hsh Ea) as (l & El & i & Hi). exists i. unfold cpos. by rewrite El.
  - exists i, (merged_pos cpos (es := table_of sorted) (ess := ess)). by split.
Qed.
End laws.

(** ** The inputs of a compaction *)

Lemma stored_size extend snappy zstd dbname in_scratch o contents live f tc :
  live f -> table_stored extend snappy zstd o contents f -> cache_inv extend snappy zstd dbname in_scratch o contents live tc -> is_u64 (file_size f).
Proof.
  intros Hf (_ & Hin & Hsz) [_ Hinv]. destruct (Hinv f Hf) as [(bytes & _ & Hb) _]. rewrite (Hsz bytes Hb). destruct Hb as (r & Er & ->).
  destruct Hin as [_ _ _ _ _ _ (_ & _ & _ & _ & Hs)]. rewrite Er in Hs. unfold is_u64, in_u. lia.
Qed.

Lemma seqs_differ_sublist es es' : es `sublist_of` es' -> seqs_differ es' -> seqs_differ es.
Proof.
  induction 1 as [|e l k Hs IH|e l k Hs IH]; [done| |]; intros [H1 H2]; [|by apply IH]. split; [|by apply IH]. intros e' He'. apply H1. by eapply elem_of_sublist.
Qed.

Lemma concat_sublist {X Y} (f : X -> list Y) (l k : list X) : l `sublist_of` k -> concat (map f l) `sublist_of` concat (map f k).
Proof. induction 1; cbn [map concat]; [constructor|by apply sublist_app|by apply sublist_inserts_l]. Qed.

Section inputs.
Context (extend : Z -> slice -> Z) `{!Checksum extend} (snappy : option SnappyLib) (zstd : option ZstdLib).
Context (dbname : slice) (in_scratch : bool) (bcache : option (slice -> option Block)).
Context (ucmp : Comparator) `{!ComparatorLaws any_key ucmp} `{!SeparatorSame any_key ucmp}.
Context (o : Options) (Ho : opt_comparator o = InternalKeyComparator ucmp).
Context (contents : FileMetaData -> list entry) (live : FileMetaData -> Prop) (v : Version).
Context (Hstored : forall f, live f -> table_stored extend snappy zstd o contents f).
Context (Hsame : forall f g, live f -> live g -> number f = number g -> contents f = contents g).
Context (Hbc : forall f id t, live f -> opened extend snappy zstd o (table_of (contents f)) in_scratch id t -> cache_coherent extend snappy zstd bcache t).
Context (Hv : version_ok ucmp contents live v) (Hlive : forall l f, 0 <= l < kNumLevels -> f ∈ level_files v l -> live f).

Abbreviation icmp := (InternalKeyComparator ucmp).
Abbreviation inv := (cache_inv extend snappy zstd dbname in_scratch o contents live).
Abbreviation level_es files := (concat (map contents files)).

Lemma version_levels_ok : levels_ok ucmp v.
Proof.
  intros l Hl. split; [|intros Hn; apply Hv; lia]. eapply Forall_impl; [by apply (vo_files _ _ _ _ Hv)|]. by intros f (_ & _ & _ & ? & _).
Qed.

Lemma sublist_row l files : 0 < l < kNumLevels -> files `sublist_of` level_files v l -> row_ok ucmp contents live files.
Proof.
  intros Hl Hs. assert (forall f, f ∈ files -> f ∈ level_files v l) as Hin by (intros f Hf; by eapply elem_of_sublist). split_and!.
  - apply Forall_forall. intros f Hf. apply (Hlive l f ltac:(lia)), Hin, Hf.
  - apply Forall_forall. intros f Hf. apply (proj1 (Forall_forall _ _) (vo_files _ _ _ _ Hv l ltac:(lia))). by apply Hin.
  - apply (sublist_sorted _ _ _ Hs). by apply Hv.
  - pose proof (sublist_length _ _ Hs). pose proof (vo_count _ _ _ _ Hv l ltac:(lia)). lia.
Qed.

Lemma sublist_sizes l files tc : 0 <= l < kNumLevels -> files `sublist_of` level_files v l -> inv tc -> Forall (fun f => is_u64 (file_size f)) files.
Proof.
  intros Hl Hs Hinv. apply Forall_forall. intros f Hf. assert (live f) as Hf' by (apply (Hlive l f Hl); by eapply elem_of_sublist).
  by apply (stored_size extend snappy zstd dbname in_scratch o contents live f tc Hf' (Hstored f Hf')).
Qed.

(** The children of one of the inputs show the entries of its files. *)
Lemma input_children_spec l files tc :
  0 <= l < kNumLevels -> files `sublist_of` level_files v l -> inv tc ->
  exists cs tc' ess, input_children extend snappy zstd dbname o in_scratch bcache ucmp l files tc = Some (cs, tc') /\ inv tc' /\ only_opens live tc tc' /\
    Forall2 (shows extend snappy zstd dbname in_scratch bcache (input_read_options o) ucmp o is_internal_key) cs ess /\
    concat ess = table_of (level_es files) /\ Forall (sorted_entries icmp) ess.
Proof.
  intros Hl Hs Hinv. assert (forall f, f ∈ files -> f ∈ level_files v l) as Hin by (intros f Hf; by eapply elem_of_sublist). unfold input_children. destruct (Z.eqb_spec l 0) as [E|Hne].
  - assert (Forall live files) as Hlf by (apply Forall_forall; intros f Hf; apply (Hlive l f Hl), Hin, Hf).
    destruct (table_children_spec extend snappy zstd dbname in_scratch bcache (input_read_options o) ucmp o Ho contents live Hstored Hsame Hbc files tc Hlf Hinv) as (cs & tc' & -> & Hinv' & Hgr & Hsh).
    eexists cs, tc', _. split; [done|]. split; [done|]. split; [done|]. split; [exact Hsh|]. split; [by rewrite <-level_table_concat|]. rewrite Forall_map. apply Forall_forall. intros f Hf.
    destruct (proj1 (Forall_forall _ _) (vo_files _ _ _ _ Hv l Hl) f (Hin f Hf)) as (_ & [_ H] & _). exact H.
  - pose proof (sublist_row l files ltac:(lia) Hs) as Hrow. pose proof (sublist_sizes l files tc Hl Hs Hinv) as Hsz.
    eexists _, tc, _. split; [done|]. split; [done|]. split; [apply only_opens_refl|]. split; [by apply (level_child_spec extend snappy zstd dbname in_scratch bcache (input_read_options o) ucmp o Ho contents live Hstored Hsame Hbc)|].
    case_bool_decide as He; [subst; split; [done|constructor]|]. cbn [concat]. rewrite app_nil_r. split; [done|]. apply Forall_singleton.
    destruct Hrow as (_ & Hh & Hsf & _). apply (level_es_sorted ucmp contents live files Hh Hsf).
Qed.

(** [MakeInputIterator] shows the entries of all the inputs, in order. *)
Lemma MakeInputIterator_spec c tc :
  0 <= c_level c < kNumLevels - 1 -> compaction_inputs ucmp v (c_level c) (c_inputs0 c) (c_inputs1 c) -> inv tc ->
  exists it tc' sorted i, MakeInputIterator extend snappy zstd dbname o in_scratch bcache ucmp c tc = Some (it, tc') /\ inv tc' /\ only_opens live tc tc' /\
    sorted ≡ₚ level_es (c_inputs0 c ++ c_inputs1 c) /\ entries_ok ucmp sorted /\ seqs_differ sorted /\
    at_pos (Merged_ops (child_ops extend snappy zstd dbname o in_scratch bcache ucmp (input_read_options o)) icmp) icmp is_internal_key (table_of sorted) it i.
Proof.
  intros Hl [_ Hs0 Hs1 _ _] Hinv. set (L := c_level c) in *. unfold MakeInputIterator. fold L.
  destruct (input_children_spec L (c_inputs0 c) tc ltac:(lia) Hs0 Hinv) as (cs0 & tc0 & ess0 & -> & Hinv0 & Hg0 & Hsh0 & E0 & Hst0). cbn [mbind option_bind].
  destruct (input_children_spec (L + 1) (c_inputs1 c) tc0 ltac:(lia) Hs1 Hinv0) as (cs1 & tc1 & ess1 & -> & Hinv1 & Hg1 & Hsh1 & E1 & Hst1). cbn [mbind option_bind].
  pose proof (concat_sublist contents _ _ Hs0) as Hc0. pose proof (concat_sublist contents _ _ Hs1) as Hc1.
  assert (seqs_differ (level_es (c_inputs0 c ++ c_inputs1 c))) as Hd.
  { rewrite map_app, concat_app. apply seqs_differ_app.
    - apply (seqs_differ_sublist _ _ Hc0). apply Hv. lia.
    - apply (seqs_differ_sublist _ _ Hc1). apply Hv. lia.
    - intros a b Ha Hb. apply (vo_older _ _ _ _ Hv L (L + 1)); [lia|lia|by eapply elem_of_sublist..]. }
  assert (Forall (fun e => seq_ok (e_seq e)) (level_es (c_inputs0 c ++ c_inputs1 c))) as Hok.
  { apply Forall_forall. intros e He. apply elem_of_level in He as (f & Hf & He). assert (exists l, 0 <= l < kNumLevels /\ f ∈ level_files v l) as (l & Hl' & Hf').
    { apply elem_of_app in Hf as [Hf|Hf]; [exists L|exists (L + 1)]; (split; [lia|by eapply elem_of_sublist]). }
    destruct (proj1 (Forall_forall _ _) (vo_files _ _ _ _ Hv l Hl') f Hf') as (_ & [H _] & _). by apply (proj1 (Forall_forall _ _) H). }
  destruct (sort_exists ucmp _ Hok Hd) as (sorted & Hp & Hes).
  destruct (merged_children extend snappy zstd dbname in_scratch bcache (input_read_options o) ucmp o is_internal_key (cs0 ++ cs1) (ess0 ++ ess1) sorted) as (i & Hi).
  - done.
  - by apply Forall2_app.
  - rewrite concat_app, E0, E1. unfold table_of. rewrite <-map_app, <-concat_app, <-map_app. by apply Permutation_map.
  - done.
  - apply entries_keys.
  - by apply Forall_app.
  - eexists _, tc1, sorted, i. split; [done|]. split; [done|]. split; [by eapply only_opens_trans|]. split; [done|]. split; [done|]. split; [|exact Hi]. by apply (seqs_differ_perm (level_es (c_inputs0 c ++ c_inputs1 c))).
Qed.
End inputs.
