(* ===== verification/DbImpl.v ===== *)
(** DbImpl: db/db_impl.cc, reads and the compaction of the memtable: [DBImpl::Get], [DBImpl::CompactMemTable] and
    [DBImpl::RemoveObsoleteFiles], over the version set, the table cache and the environment. *)

From stdpp Require Import gmap.
From Stdlib Require Import Strings.Byte Strings.String.
From S2P Require Import Prelude Coding Crc32c Comparator DbFormat Status Env FileSystem Filename VersionEdit FilterPolicy FilterBlock SkipList MemTable Format Iterator TwoLevelIterator Version Block TableBuilder Table TableCache VersionSet Score Compaction Log Manifest Flush.

(** * Data *)

(** The members of [DBImpl] that these functions use.  The environment is that of the table cache. *)
Record DBState := MkDB {
  db_mem : MemTable;
  db_imm : option MemTable;
  db_versions : VersionSet;
  db_table_cache : TableCache;
  db_pending_outputs : gset Z;
  db_logfile_number : Z;
  db_bg_error : Status;
  db_shutting_down : bool;
}.

Definition set_version_set (vs : VersionSet) (st : DBState) : DBState :=
  MkDB (db_mem st) (db_imm st) vs (db_table_cache st) (db_pending_outputs st) (db_logfile_number st) (db_bg_error st) (db_shutting_down st).
Definition set_table_cache (tc : TableCache) (st : DBState) : DBState :=
  MkDB (db_mem st) (db_imm st) (db_versions st) tc (db_pending_outputs st) (db_logfile_number st) (db_bg_error st) (db_shutting_down st).
Definition set_imm (imm : option MemTable) (st : DBState) : DBState :=
  MkDB (db_mem st) imm (db_versions st) (db_table_cache st) (db_pending_outputs st) (db_logfile_number st) (db_bg_error st) (db_shutting_down st).

Section DbImpl.
Context (extend : Z -> slice -> Z) (snappy : option SnappyLib) (zstd : option ZstdLib).
Context (dbname : slice) (options : Options) (in_scratch : bool) (bcache : option (slice -> option Block)).
Context (ucmp : Comparator) (cmp_name : slice) (max_file_size : Z).

(** * [DBImpl::Get] *)

(** The status, [*value], whether a compaction is to be scheduled, and the state.  The references that are taken for the
    time of the read are given back at its end. *)
Definition DB_Get (ro : ReadOptions) (snapshot : option Z) (key value : slice) (st : DBState) : option (Status * slice * bool * DBState) :=
  let lkey := NewLookupKey key (default (vs_last_sequence (db_versions st)) snapshot) in
  let answer (r : bool * option slice * option Status) := let '(found, v, s) := r in (found, default value v, default OK s) in
  '(found, v, s) ← answer <$> MemTable_Get ucmp (db_mem st) lkey;
  if found : bool then Some (s, v, false, st)
  else
    '(found, v, s) ← match db_imm st with Some imm => answer <$> MemTable_Get ucmp imm lkey | None => Some (false, value, OK) end;
    if found : bool then Some (s, v, false, st)
    else
      '(s, v, stats, tc) ← Version_Get ucmp (TableCache_Get extend snappy zstd dbname options in_scratch bcache ro) (current (db_versions st)) lkey value (db_table_cache st);
      let '(schedule, cur) := UpdateStats stats (current (db_versions st)) in
      Some (s, v, schedule, set_version_set (update_current cur (db_versions st)) (set_table_cache tc st)).

(** * [DBImpl::RemoveObsoleteFiles] *)

Definition keep_file (vs : VersionSet) (live : gset Z) (number : Z) (type : FileType) : bool :=
  match type with
  | kLogFile => (vs_log_number vs <=? number) || (number =? vs_prev_log_number vs)
  | kDescriptorFile => vs_manifest_file_number vs <=? number
  | kTableFile | kTempFile => bool_decide (number ∈ live)
  | kCurrentFile | kDBLockFile | kInfoLogFile => true
  end.

(** The files to delete. *)
Definition obsolete (vs : VersionSet) (live : gset Z) (filename : slice) : bool :=
  match ParseFileName filename with Some (number, type) => negb (keep_file vs live number type) | None => false end.

Definition evict_table (tc : TableCache) (filename : slice) : TableCache :=
  match ParseFileName filename with Some (number, kTableFile) => Evict number tc | _ => tc end.

Definition remove_in_db (env : EnvState) (filename : slice) : EnvState := snd (FileSystem.RemoveFile (dbname ++ lit "/" ++ filename) env).

Definition RemoveObsoleteFiles (st : DBState) : DBState :=
  if negb (ok (db_bg_error st)) then st
  else
    let vs := db_versions st in
    let live := AddLiveFiles vs (db_pending_outputs st) in
    let tc := db_table_cache st in
    let '(_, filenames, env) := GetChildren dbname (tc_env tc) in
    let files_to_delete := List.filter (obsolete vs live) filenames in
    let tc := foldl evict_table (with_env (fun _ => env) tc) files_to_delete in
    set_table_cache (with_env (fun env => foldl remove_in_db env files_to_delete) tc) st.

(** * [DBImpl::CompactMemTable] *)

Definition RecordBackgroundError (s : Status) (st : DBState) : DBState :=
  if ok (db_bg_error st) then
    MkDB (db_mem st) (db_imm st) (db_versions st) (db_table_cache st) (db_pending_outputs st) (db_logfile_number st) s (db_shutting_down st)
  else st.

(** There must be an immutable memtable.  The reference to the base version is taken and given back. *)
Definition CompactMemTable (st : DBState) : option DBState :=
  imm ← db_imm st;
  let base := current (db_versions st) in
  '(s, edit, vs, tc) ← WriteLevel0Table extend snappy zstd dbname options in_scratch bcache ucmp max_file_size imm NewVersionEdit (Some base) (db_versions st) (db_table_cache st);
  let s := if ok s && db_shutting_down st then IOError (lit "Deleting DB during memtable compaction") [] else s in
  let '(s, vs, tc) :=
    if ok s then
      let edit := VersionEdit.SetLogNumber (db_logfile_number st) (SetPrevLogNumber 0 edit) in
      let '(s, _, vs, env) := LogAndApply ucmp cmp_name extend dbname edit vs (tc_env tc) in
      (s, vs, with_env (fun _ => env) tc)
    else (s, vs, tc) in
  let st := set_table_cache tc (set_version_set vs st) in
  Some (if ok s then RemoveObsoleteFiles (set_imm None st) else RecordBackgroundError s st).
End DbImpl.

(** * Lemmas: obsolete files *)

Lemma child_name_spec dir name fname : child_name dir fname = Some name <-> fname = dir ++ x2f :: name /\ x2f ∉ name.
Proof.
  unfold child_name. split.
  - destruct (bool_decide (take _ _ = _)) eqn:E1; cbn [andb]; [|done]. apply bool_decide_eq_true in E1. case_bool_decide as E2; cbn [negb]; [done|]. intros [= <-]. split; [|done].
    rewrite <-(take_drop (length dir + 1) fname) at 1. by rewrite E1, <-app_assoc.
  - intros [-> Hn]. assert (dir ++ x2f :: name = (dir ++ [x2f]) ++ name) as -> by (by rewrite <-app_assoc).
    assert (length dir + 1 = length (dir ++ [x2f]))%nat as -> by (by rewrite length_app). rewrite take_app_length, drop_app_length.
    by rewrite !bool_decide_true, bool_decide_false by done.
Qed.

Lemma omap_NoDup {A B} (f : A -> option B) l : (forall x y z, x ∈ l -> y ∈ l -> f x = Some z -> f y = Some z -> x = y) -> NoDup l -> NoDup (omap f l).
Proof.
  intros Hinj. induction 1 as [|x l Hx _ IH]; [constructor|]. cbn [omap list_omap]. assert (NoDup (omap f l)) as Hl by (apply IH; intros a b z Ha Hb; apply Hinj; by right).
  destruct (f x) as [z|] eqn:E; [|done]. apply NoDup_cons. split; [|done]. rewrite list_elem_of_omap. intros (y & Hy & Ey). apply Hx. by rewrite (Hinj x y z ltac:(left) ltac:(by right) E Ey).
Qed.

Lemma GetChildren_spec dir e : env_faults e = [] ->
  exists names, GetChildren dir e = (OK, names, e) /\ NoDup names /\ forall name, (name ∈ names) <-> (x2f ∉ name) /\ is_Some (env_files e !! (dir ++ x2f :: name)).
Proof.
  intros He. destruct e as [files faults]. cbn in He. subst. unfold GetChildren. cbn [next_fault env_faults env_files]. eexists. split; [done|]. split; [apply omap_NoDup; [|apply NoDup_fst_map_to_list]; intros f f' name _ _; rewrite !child_name_spec; by intros [-> _] [-> _]|]. intros name.
  rewrite list_elem_of_omap. setoid_rewrite child_name_spec. split.
  - intros (fname & Hin & -> & Hn). split; [done|]. apply list_elem_of_fmap in Hin as ([k c] & -> & Hkc). apply elem_of_map_to_list in Hkc. cbn. eauto.
  - intros (Hn & c & Hc). exists (dir ++ x2f :: name). split; [|done]. apply list_elem_of_fmap. exists (dir ++ x2f :: name, c). split; [done|]. by apply elem_of_map_to_list.
Qed.

Section obsolete_files.
Context (dbname : slice).

Abbreviation in_db name := (dbname ++ x2f :: name).

Lemma remove_in_db_files e name g : env_faults e = [] ->
  env_faults (remove_in_db dbname e name) = [] /\ env_files (remove_in_db dbname e name) !! g = if decide (g = in_db name) then None else env_files e !! g.
Proof.
  intros He. destruct e as [files faults]. cbn in He. subst. unfold remove_in_db, FileSystem.RemoveFile. cbn [next_fault env_faults env_files].
  change (dbname ++ lit "/" ++ name) with (in_db name). destruct (files !! in_db name) as [c|] eqn:E; cbn [snd with_files env_files env_faults]; (split; [done|]); case_decide as Hd.
  - subst. apply lookup_delete_eq.
  - by rewrite lookup_delete_ne.
  - by subst.
  - done.
Qed.

Lemma remove_all_files names e g : env_faults e = [] ->
  env_faults (foldl (remove_in_db dbname) e names) = [] /\
  env_files (foldl (remove_in_db dbname) e names) !! g = if decide (g ∈ map (fun name => in_db name) names) then None else env_files e !! g.
Proof.
  revert e. induction names as [|name names IH]; intros e He; cbn [foldl map].
  - split; [done|]. rewrite decide_False; [done|]. apply not_elem_of_nil.
  - destruct (remove_in_db_files e name g He) as [H1 H2]. destruct (IH (remove_in_db dbname e name) H1) as [H3 H4]. split; [done|]. rewrite H4, H2.
    destruct (decide (g = in_db name)) as [->|Hne].
    + rewrite (decide_True (P := in_db name ∈ in_db name :: _)) by left. by case_decide.
    + destruct (decide (g ∈ map _ names)) as [Hin|Hin]; [by rewrite decide_True by (by right)|]. rewrite decide_False; [done|]. rewrite elem_of_cons. by intros [|].
Qed.

(** The cache may lose tables. *)
Lemma evict_table_spec tc name :
  tc_env (evict_table tc name) = tc_env tc /\ forall k t, tc_cache (evict_table tc name) !! k = Some t -> tc_cache tc !! k = Some t.
Proof. unfold evict_table. destruct (ParseFileName name) as [[n []]|]; try done. split; [done|]. intros k t. cbn [Evict tc_cache]. by intros [_ ?]%lookup_delete_Some. Qed.

Lemma evict_tables names tc :
  tc_env (foldl evict_table tc names) = tc_env tc /\ forall k t, tc_cache (foldl evict_table tc names) !! k = Some t -> tc_cache tc !! k = Some t.
Proof.
  revert tc. induction names as [|name names IH]; intros tc; cbn [foldl]; [done|]. destruct (IH (evict_table tc name)) as [H1 H2], (evict_table_spec tc name) as [H3 H4].
  split; [congruence|]. intros k t Hk. by apply H4, H2.
Qed.

(** What is left of the files and of the cached tables. *)
Lemma RemoveObsoleteFiles_spec st :
  env_faults (tc_env (db_table_cache st)) = [] -> ok (db_bg_error st) = true ->
  let live := AddLiveFiles (db_versions st) (db_pending_outputs st) in
  exists tc, RemoveObsoleteFiles dbname st = set_table_cache tc st /\ env_faults (tc_env tc) = [] /\
    (forall k t, tc_cache tc !! k = Some t -> tc_cache (db_table_cache st) !! k = Some t) /\
    (forall name, x2f ∉ name -> env_files (tc_env tc) !! in_db name = if obsolete (db_versions st) live name then None else env_files (tc_env (db_table_cache st)) !! in_db name) /\
    forall fname, is_Some (env_files (tc_env tc) !! fname) -> is_Some (env_files (tc_env (db_table_cache st)) !! fname).
Proof.
  intros He Hb live. unfold RemoveObsoleteFiles. rewrite Hb. cbn [negb]. destruct (GetChildren_spec dbname _ He) as (names & -> & _ & Hnames). fold live.
  set (dead := List.filter (obsolete (db_versions st) live) names). set (tc0 := with_env _ (db_table_cache st)). destruct (evict_tables dead tc0) as [E1 E2].
  assert (tc_env tc0 = tc_env (db_table_cache st)) as E0 by done. rewrite E0 in E1. set (tc1 := foldl evict_table tc0 dead) in *.
  eexists. split; [reflexivity|]. cbn [with_env tc_env tc_cache]. rewrite E1. split; [by apply (remove_all_files dead _ [] He)|]. split; [exact E2|].
  split; [|intros fname; destruct (remove_all_files dead _ fname He) as [_ ->]; case_decide; [by intros []|done]]. intros name Hn. destruct (remove_all_files dead _ (in_db name) He) as [_ ->]. assert ((in_db name ∈ map (fun name => in_db name) dead) <-> name ∈ dead) as Hiff.
  { split; [|intros Hin; apply list_elem_of_fmap; by exists name]. intros Hin. apply list_elem_of_fmap in Hin as (name' & E & Hin). apply app_inv_head in E. by injection E as ->. }
  assert (name ∈ dead <-> obsolete (db_versions st) live name = true /\ is_Some (env_files (tc_env (db_table_cache st)) !! in_db name)) as Hdead.
  { unfold dead. rewrite list_elem_of_In, filter_In, <-list_elem_of_In, Hnames. tauto. }
  destruct (decide (_ ∈ _)) as [Hin|Hin]; rewrite Hiff, Hdead in Hin.
  - by destruct Hin as [-> _].
  - destruct (obsolete _ live name); [|done]. destruct (env_files _ !! in_db name) as [c|]; [|done]. exfalso. apply Hin. split; [done|]. by eexists.
Qed.

(** ** The files that are kept *)

Lemma AddLiveFiles_spec vs live n :
  n ∈ AddLiveFiles vs live <-> n ∈ live \/ exists lv f, lv ∈ vs_versions vs /\ f ∈ concat (files_ (lv_version lv)) /\ n = number f.
Proof.
  unfold AddLiveFiles. generalize (vs_versions vs). intros lvs. revert live. assert (forall fs (live : gset Z), n ∈ foldl (fun live f => {[number f]} ∪ live) live fs <-> n ∈ live \/ exists f, f ∈ fs /\ n = number f) as Hfs.
  { intros fs. induction fs as [|f fs IH]; intros live; cbn [foldl]; [split; [by left|intros [|(f & Hf & _)]; [done|by apply elem_of_nil in Hf]]|]. rewrite IH, elem_of_union, elem_of_singleton.
    setoid_rewrite elem_of_cons. split; [intros [[|]|(g & ? & ?)]; eauto|intros [|(g & [->|] & ?)]; eauto]. }
  induction lvs as [|lv lvs IH]; intros live; cbn [foldl]; [split; [by left|intros [|(lv & f & Hf & _)]; [done|by apply elem_of_nil in Hf]]|]. rewrite IH, Hfs.
  setoid_rewrite elem_of_cons. split; [intros [[|(f & ? & ?)]|(lv' & f & ? & ? & ?)]; eauto 8|intros [|(lv' & f & [->|] & ? & ?)]; eauto 8].
Qed.

Lemma keep_not_obsolete vs live name n type : ParseFileName name = Some (n, type) -> keep_file vs live n type = true -> obsolete vs live name = false.
Proof. intros E Hk. unfold obsolete. by rewrite E, Hk. Qed.

Lemma digits_no_slash ds : Forall is_digit ds -> x2f ∉ ds.
Proof. intros H Hin. pose proof (proj1 (Forall_forall _ _) H _ Hin) as Hd. vm_compute in Hd. by destruct Hd. Qed.

Lemma name_no_slash n suffix : is_u64 n -> x2f ∉ suffix -> x2f ∉ decimal06 n ++ suffix.
Proof. intros Hn Hs [H|H]%elem_of_app; [|done]. destruct (decimal06_spec n Hn) as (Hd & _). by apply digits_no_slash in H. Qed.

(** The names of the files that are looked at. *)
Lemma TableFileName_parts n : is_u64 n ->
  TableFileName dbname n = in_db (decimal06 n ++ lit ".ldb") /\ ParseFileName (decimal06 n ++ lit ".ldb") = Some (n, kTableFile) /\ x2f ∉ decimal06 n ++ lit ".ldb".
Proof.
  intros Hn. split; [unfold TableFileName; by rewrite MakeFileName_eq by (done || (cbn; lia))|]. split; [by rewrite ParseFileName_number by (done || (by vm_compute; intros []))|].
  apply name_no_slash; [done|]. apply (bool_decide_unpack _). by vm_compute.
Qed.

Lemma LogFileName_parts n : is_u64 n ->
  LogFileName dbname n = in_db (decimal06 n ++ lit ".log") /\ ParseFileName (decimal06 n ++ lit ".log") = Some (n, kLogFile) /\ x2f ∉ decimal06 n ++ lit ".log".
Proof.
  intros Hn. split; [unfold LogFileName; by rewrite MakeFileName_eq by (done || (cbn; lia))|]. split; [by rewrite ParseFileName_number by (done || (by vm_compute; intros []))|].
  apply name_no_slash; [done|]. apply (bool_decide_unpack _). by vm_compute.
Qed.

Lemma DescriptorFileName_parts n : is_u64 n ->
  DescriptorFileName dbname n = in_db (lit "MANIFEST-" ++ decimal06 n) /\ ParseFileName (lit "MANIFEST-" ++ decimal06 n) = Some (n, kDescriptorFile) /\ x2f ∉ lit "MANIFEST-" ++ decimal06 n.
Proof.
  intros Hn. split; [by rewrite DescriptorFileName_eq|]. split; [by apply ParseFileName_manifest|]. intros [H|H]%elem_of_app.
  - revert H. apply (bool_decide_unpack _). by vm_compute.
  - destruct (decimal06_spec n Hn) as (Hd & _). by apply digits_no_slash in H.
Qed.

Lemma CurrentFileName_parts : CurrentFileName dbname = in_db (lit "CURRENT") /\ ParseFileName (lit "CURRENT") = Some (0, kCurrentFile) /\ x2f ∉ lit "CURRENT".
Proof. split; [done|]. split; [by vm_compute|]. apply (bool_decide_unpack _). by vm_compute. Qed.

(** A file that is kept. *)
Definition needed (st : DBState) (fname : slice) : Prop :=
  exists name n type, fname = in_db name /\ ParseFileName name = Some (n, type) /\ (x2f ∉ name) /\
    keep_file (db_versions st) (AddLiveFiles (db_versions st) (db_pending_outputs st)) n type = true.

Lemma needed_current st : needed st (CurrentFileName dbname).
Proof. destruct CurrentFileName_parts as (-> & H1 & H2). by exists (lit "CURRENT"), 0, kCurrentFile. Qed.

Lemma needed_descriptor st n : is_u64 n -> vs_manifest_file_number (db_versions st) <= n -> needed st (DescriptorFileName dbname n).
Proof. intros Hn Hle. destruct (DescriptorFileName_parts n Hn) as (-> & H1 & H2). eexists _, n, kDescriptorFile. split_and!; try done. by apply Z.leb_le. Qed.

Lemma needed_log st n : is_u64 n -> vs_log_number (db_versions st) <= n \/ n = vs_prev_log_number (db_versions st) -> needed st (LogFileName dbname n).
Proof.
  intros Hn Hor. destruct (LogFileName_parts n Hn) as (-> & H1 & H2). eexists _, n, kLogFile. split_and!; try done. cbn [keep_file]. apply orb_true_iff.
  destruct Hor as [H|H]; [left; by apply Z.leb_le|right; by apply Z.eqb_eq].
Qed.

Lemma needed_table st n : is_u64 n -> n ∈ AddLiveFiles (db_versions st) (db_pending_outputs st) -> needed st (TableFileName dbname n).
Proof. intros Hn Hl. destruct (TableFileName_parts n Hn) as (-> & H1 & H2). eexists _, n, kTableFile. split_and!; try done. by apply bool_decide_eq_true. Qed.

(** What nothing needs any more: an old log, an old descriptor file, and a table or temporary file that no version has and
    that is not being written. *)
Inductive garbage (st : DBState) (name : slice) : Prop :=
  | garbage_log n : ParseFileName name = Some (n, kLogFile) -> n < vs_log_number (db_versions st) -> n <> vs_prev_log_number (db_versions st) -> garbage st name
  | garbage_descriptor n : ParseFileName name = Some (n, kDescriptorFile) -> n < vs_manifest_file_number (db_versions st) -> garbage st name
  | garbage_file n type : ParseFileName name = Some (n, type) -> type = kTableFile \/ type = kTempFile -> n ∉ db_pending_outputs st ->
      (forall lv f, lv ∈ vs_versions (db_versions st) -> f ∈ concat (files_ (lv_version lv)) -> number f <> n) -> garbage st name.

Lemma garbage_obsolete st name : garbage st name <-> obsolete (db_versions st) (AddLiveFiles (db_versions st) (db_pending_outputs st)) name = true.
Proof.
  unfold obsolete. split.
  - intros [n E Hn Hp|n E Hn|n type E Ht Hn Hf]; rewrite E; apply negb_true_iff; cbn [keep_file].
    + rewrite (proj2 (Z.leb_gt _ _)) by lia. by apply Z.eqb_neq.
    + by apply Z.leb_gt.
    + assert (n ∉ AddLiveFiles (db_versions st) (db_pending_outputs st)) as Hl by (rewrite AddLiveFiles_spec; intros [|(lv & f & Hlv & Hin & ->)]; [done|by apply (Hf lv f)]).
      destruct Ht as [-> | ->]; by apply bool_decide_eq_false.
  - destruct (ParseFileName name) as [[n type]|] eqn:E; [|done]. rewrite negb_true_iff.
    assert (n ∉ AddLiveFiles (db_versions st) (db_pending_outputs st) -> type = kTableFile \/ type = kTempFile -> garbage st name) as Hf.
    { intros Hl Ht. rewrite AddLiveFiles_spec in Hl. apply (garbage_file st name n type); [done|done|by intros H; apply Hl; left|]. intros lv f Hlv Hin <-. apply Hl. eauto 6. }
    destruct type; cbn [keep_file]; try done.
    + intros [H1 H2]%orb_false_iff. apply (garbage_log st name n); [done|by apply Z.leb_gt|by apply Z.eqb_neq].
    + intros H%bool_decide_eq_false. apply Hf; [done|by left].
    + intros H. apply (garbage_descriptor st name n); [done|by apply Z.leb_gt].
    + intros H%bool_decide_eq_false. apply Hf; [done|by right].
Qed.

(** Whatever calls fail, only the files named can go. *)
Lemma remove_any_files names e g :
  env_files (foldl (remove_in_db dbname) e names) !! g = env_files e !! g \/
  env_files (foldl (remove_in_db dbname) e names) !! g = None /\ exists name, name ∈ names /\ g = in_db name.
Proof.
  revert e. induction names as [|name names IH]; intros e; cbn [foldl]; [by left|]. destruct (IH (remove_in_db dbname e name)) as [E|(E & name' & Hin & Hg)].
  2: { right. split; [done|]. exists name'. split; [by right|done]. }
  rewrite E. unfold remove_in_db, FileSystem.RemoveFile. change (dbname ++ lit "/" ++ name) with (in_db name).
  destruct e as [files [|[[k msg]|] faults]]; cbn [next_fault env_faults env_files]; [|by left|]; (destruct (files !! in_db name) as [c|] eqn:Ec; cbn [snd with_files env_files]; [|by left]).
  all: destruct (decide (g = in_db name)) as [->|Hne]; [right; rewrite lookup_delete_eq; split; [done|]; exists name; split; [left|done]|left; by rewrite lookup_delete_ne].
Qed.

Lemma GetChildren_any dir e :
  env_files (GetChildren dir e).2 = env_files e /\ forall name, name ∈ (GetChildren dir e).1.2 -> x2f ∉ name.
Proof.
  unfold GetChildren. destruct e as [files [|[[k msg]|] faults]]; cbn [next_fault env_faults env_files fst snd]; (split; [done|]); intros name; [|by intros ?%elem_of_nil|].
  all: rewrite list_elem_of_omap; setoid_rewrite child_name_spec; by intros (? & _ & _ & ?).
Qed.

Lemma RemoveObsoleteFiles_safe st fname :
  let files st := env_files (tc_env (db_table_cache st)) in
  files (RemoveObsoleteFiles dbname st) !! fname = files st !! fname \/
  files (RemoveObsoleteFiles dbname st) !! fname = None /\ ok (db_bg_error st) = true /\ exists name, fname = in_db name /\ (x2f ∉ name) /\ garbage st name.
Proof.
  cbv zeta. unfold RemoveObsoleteFiles. destruct (ok (db_bg_error st)) eqn:Hb; cbn [negb]; [|by left].
  pose proof (GetChildren_any dbname (tc_env (db_table_cache st))) as [He Hn]. destruct (GetChildren _ _) as [[s names] e]. cbn [fst snd] in He, Hn.
  set (dead := List.filter _ names). set (tc0 := with_env (fun _ => e) (db_table_cache st)). destruct (evict_tables dead tc0) as [E1 _]. cbn [set_table_cache db_table_cache with_env tc_env]. rewrite E1.
  change (tc_env tc0) with e. destruct (remove_any_files dead e fname) as [H|(H & name & Hin & ->)]; rewrite H; [left; by rewrite He|].
  right. split; [done|]. split; [done|]. apply list_elem_of_In, filter_In in Hin as [Hin Ho]. exists name. split; [done|]. split; [by apply Hn, list_elem_of_In|by apply garbage_obsolete].
Qed.
End obsolete_files.

(** C22. [RemoveObsoleteFiles] deletes the files that nothing needs, and only these.  Whatever calls of the environment fail,
    every file is as it was or is gone; what goes is a file of the database directory, there was no background error, and its
    name is that of a log before the current one (but not the previous log), of a descriptor file before the one in use, or
    of a table or temporary file that no version which is still referenced has and that is not being written.  If no call
    fails and there is no background error, all these files go.  In particular CURRENT, the lock, the info logs and the files
    with other names stay, and by their names the descriptor file in use, the logs that are not yet in tables, and the tables
    of every version. *)
Theorem remove_obsolete_exact (dbname : slice) (st : DBState) :
  let vs := db_versions st in
  let before := env_files (tc_env (db_table_cache st)) in
  let after := env_files (tc_env (db_table_cache (RemoveObsoleteFiles dbname st))) in
  (forall fname, after !! fname = before !! fname \/
     after !! fname = None /\ ok (db_bg_error st) = true /\ exists name, fname = dbname ++ x2f :: name /\ (x2f ∉ name) /\ garbage st name) /\
  (env_faults (tc_env (db_table_cache st)) = [] -> ok (db_bg_error st) = true ->
     forall name, x2f ∉ name -> garbage st name -> after !! (dbname ++ x2f :: name) = None) /\
  after !! CurrentFileName dbname = before !! CurrentFileName dbname /\
  (forall n, is_u64 n -> vs_manifest_file_number vs <= n -> after !! DescriptorFileName dbname n = before !! DescriptorFileName dbname n) /\
  (forall n, is_u64 n -> vs_log_number vs <= n \/ n = vs_prev_log_number vs -> after !! LogFileName dbname n = before !! LogFileName dbname n) /\
  (forall n, is_u64 n -> n ∈ db_pending_outputs st \/ (exists lv f, lv ∈ vs_versions vs /\ f ∈ concat (files_ (lv_version lv)) /\ n = number f) ->
     after !! TableFileName dbname n = before !! TableFileName dbname n).
Proof.
  intros vs before after. assert (forall fname, needed dbname st fname -> after !! fname = before !! fname) as Hkept.
  { intros fname (name & n & type & -> & Hp & Hs & Hk). destruct (RemoveObsoleteFiles_safe dbname st (dbname ++ x2f :: name)) as [|(_ & _ & name' & E & _ & Hg)]; [done|].
    apply app_inv_head in E. injection E as <-. apply garbage_obsolete in Hg. by rewrite (keep_not_obsolete _ _ _ _ _ Hp Hk) in Hg. }
  split; [apply RemoveObsoleteFiles_safe|]. split.
  { intros He Hb name Hn Hg%garbage_obsolete. destruct (RemoveObsoleteFiles_spec dbname st He Hb) as (tc & E & _ & _ & Hall & _). unfold after. rewrite E. cbn [set_table_cache db_table_cache].
    by rewrite (Hall name Hn), Hg. }
  split; [apply Hkept, needed_current|]. split; [intros; by apply Hkept, needed_descriptor|]. split; [intros; by apply Hkept, needed_log|].
  intros n Hn Hor. apply Hkept, needed_table; [done|]. by apply AddLiveFiles_spec.
Qed.

Lemma remove_obsolete_exact_witness :
  let tc := MkTableCache (MkEnv {[ lit "/db/000004.ldb" := lit "t"; lit "/db/CURRENT" := lit "c" ]} []) ∅ 0 in
  let st := MkDB NewMemTable None NewVersionSet tc ∅ 0 OK false in
  env_files (tc_env (db_table_cache (RemoveObsoleteFiles (lit "/db") st))) !! (lit "/db" ++ x2f :: lit "000004.ldb") = None /\
  env_files (tc_env (db_table_cache (RemoveObsoleteFiles (lit "/db") st))) !! CurrentFileName (lit "/db") = Some (lit "c").
Proof.
  intros tc st. destruct (remove_obsolete_exact (lit "/db") st) as (_ & H1 & H2 & _). split.
  - clear H2. apply H1; [reflexivity|reflexivity|apply (bool_decide_unpack _); by vm_compute|]. clear H1.
    apply (garbage_file st _ 4 kTableFile); [vm_compute; reflexivity|left; reflexivity|apply not_elem_of_empty|].
    intros lv f Hlv Hf. change (vs_versions (db_versions st)) with (vs_versions NewVersionSet) in Hlv. clear st tc. apply list_elem_of_singleton in Hlv. subst lv. destruct (not_elem_of_nil _ Hf).
  - rewrite H2. by vm_compute.
Defined.

(** * Lemmas: names and entries *)

(** A file of the database directory, with what its name stands for. *)
Definition named (dbname fname : slice) (n : Z) (type : FileType) : Prop :=
  exists name, fname = dbname ++ x2f :: name /\ ParseFileName name = Some (n, type).

Lemma named_inj dbname fname n type n' type' : named dbname fname n type -> named dbname fname n' type' -> n = n' /\ type = type'.
Proof. intros (name & -> & E) (name' & Ef & E'). apply app_inv_head in Ef. injection Ef as <-. rewrite E in E'. by injection E'. Qed.

Lemma named_table dbname n : is_u64 n -> named dbname (TableFileName dbname n) n kTableFile.
Proof. intros Hn. destruct (TableFileName_parts dbname n Hn) as (-> & H & _). by eexists. Qed.

Lemma named_descriptor dbname n : is_u64 n -> named dbname (DescriptorFileName dbname n) n kDescriptorFile.
Proof. intros Hn. destruct (DescriptorFileName_parts dbname n Hn) as (-> & H & _). by eexists. Qed.

Lemma named_current dbname : named dbname (CurrentFileName dbname) 0 kCurrentFile.
Proof. exists (lit "CURRENT"). split; [done|by vm_compute]. Qed.

Lemma named_temp dbname n : is_u64 n -> named dbname (TempFileName dbname n) n kTempFile.
Proof.
  intros Hn. exists (decimal06 n ++ lit ".dbtmp"). split; [unfold TempFileName; by rewrite MakeFileName_eq by (done || (cbn; lia))|].
  by rewrite ParseFileName_number by (done || (by vm_compute; intros [])).
Qed.

Lemma levels_differ ucmp contents stored v level k :
  version_ok ucmp contents stored v -> 0 <= level -> level + Z.of_nat k <= kNumLevels -> seqs_differ (levels_es contents v level k).
Proof.
  intros Hv. revert level. induction k as [|k IH]; intros level Hl Hk; [done|]. rewrite levels_es_S. apply seqs_differ_app; [apply Hv; lia|apply IH; lia|].
  apply (levels_older ucmp contents stored); [done|lia|lia].
Qed.

Lemma all_entries_differ ucmp contents stored v : version_ok ucmp contents stored v -> seqs_differ (all_entries contents v).
Proof. intros Hv. by apply (levels_differ ucmp contents stored). Qed.

Lemma current_files_live vs l f : f ∈ level_files (current vs) l -> exists lv, lv ∈ vs_versions vs /\ f ∈ concat (files_ (lv_version lv)).
Proof.
  intros Hf. unfold current, current_live in Hf. destruct (last (vs_versions vs)) as [lv|] eqn:E.
  - exists lv. split; [|by apply (level_files_sub _ l)]. rewrite last_lookup in E. by eapply list_elem_of_lookup_2.
  - apply (level_files_sub NewVersion) in Hf. change (concat (files_ NewVersion)) with (@nil FileMetaData) in Hf. by apply elem_of_nil in Hf.
Qed.

(** * Reads and the compaction of the memtable *)

Lemma MemTable_Get_table ucmp m m0 k : table_ m = table_ m0 -> MemTable_Get ucmp m k = MemTable_Get ucmp m0 k.
Proof. destruct m as [r t], m0 as [r0 t0]. cbn [table_]. by intros <-. Qed.

Lemma version_ok_stored ucmp contents (stored stored' : FileMetaData -> Prop) v :
  version_ok ucmp contents stored v -> (forall l f, 0 <= l < kNumLevels -> f ∈ level_files v l -> stored' f) -> version_ok ucmp contents stored' v.
Proof.
  intros [H1 H2 H3 H4 H5 H6 H7] Hst. split; try done. intros l Hl. apply Forall_forall. intros f Hf. destruct (proj1 (Forall_forall _ _) (H1 l Hl) f Hf) as (_ & H).
  split; [by apply (Hst l)|exact H].
Qed.

(** What a read finds for a newest entry. *)
Definition read_result (value : slice) (o : option entry) : Status * slice :=
  match o with
  | Some e => match e_type e with kTypeValue => (OK, e_value e) | kTypeDeletion => (NotFound [] [], value) end
  | None => (NotFound [] [], value)
  end.

(** What the background work does not change. *)
Definition same_rest (st st' : DBState) : Prop :=
  db_mem st' = db_mem st /\ vs_last_sequence (db_versions st') = vs_last_sequence (db_versions st) /\
  db_logfile_number st' = db_logfile_number st /\ db_bg_error st' = db_bg_error st /\ db_shutting_down st' = db_shutting_down st.

Section flush.
Context (extend : Z -> slice -> Z) `{!Checksum extend} (snappy : option SnappyLib) (zstd : option ZstdLib).
Context (dbname : slice) (in_scratch reuse_logs : bool) (ro : ReadOptions).
Context (ucmp : Comparator) `{!ComparatorLaws any_key ucmp} `{!SeparatorSame any_key ucmp} (cmp_name : slice) (Hname : is_u32 (slen cmp_name)) (max_file_size : Z).
Context (o : Options) (Ho : opt_comparator o = InternalKeyComparator ucmp) (Hfilter : forall p, opt_filter_policy o = Some p -> exists up, p = InternalFilterPolicy up).

Abbreviation input_ok es := (table_input extend snappy zstd o is_internal_key (table_of es)).
Abbreviation reachable := (reachable ucmp cmp_name extend dbname max_file_size reuse_logs).
Abbreviation db_get := (DB_Get extend snappy zstd dbname o in_scratch None ucmp ro).
Abbreviation compact_mem := (CompactMemTable extend snappy zstd dbname o in_scratch None ucmp cmp_name max_file_size).

(** A file of the version. *)
Definition in_version (v : Version) (f : FileMetaData) : Prop := exists l, 0 <= l < kNumLevels /\ f ∈ level_files v l.

(** The store has the entries of the memtables, and those of the tables: [contents] are the entries of a file, and [used] the
    files that were ever added. *)
Record db_ok (contents : FileMetaData -> list entry) (used : list (Z * Z)) (mes ies : list entry) (st : DBState) : Prop := {
  ok_mem : mem_holds ucmp (db_mem st) mes;
  ok_imm : match db_imm st with Some imm => mem_holds ucmp imm ies | None => ies = [] end;
  ok_entries : Forall entry_ok mes /\ Forall entry_ok ies /\ seqs_differ mes /\ seqs_differ ies;
  ok_older : let es := all_entries contents (current (db_versions st)) in older mes ies /\ older mes es /\ older ies es;
  ok_reachable : reachable used (db_versions st) (tc_env (db_table_cache st));
  ok_used : Forall (fun k => k.2 < vs_next_file_number (db_versions st)) used;
  ok_moved l f l' : 0 <= l < kNumLevels -> f ∈ level_files (current (db_versions st)) l -> (l', number f) ∈ used -> l' <= l;
  ok_version : version_ok ucmp contents (in_version (current (db_versions st))) (current (db_versions st));
  ok_stored f : in_version (current (db_versions st)) f -> table_stored extend snappy zstd o contents f;
  ok_same f g : in_version (current (db_versions st)) f -> in_version (current (db_versions st)) g -> number f = number g -> contents f = contents g;
  ok_cache : cache_inv extend snappy zstd dbname in_scratch o contents (in_version (current (db_versions st))) (db_table_cache st);
  ok_uncached n : vs_next_file_number (db_versions st) <= n -> is_u64 n -> tc_cache (db_table_cache st) !! EncodeFixed64 n = None;
}.

(** A read finds the newest entry that it sees. *)
Lemma DB_Get_spec contents used mes ies st s key value :
  db_ok contents used mes ies st -> seq_ok s -> slen key + 8 < 2 ^ 32 ->
  exists sched st', db_get (Some s) key value st =
    Some (read_result value (newest key s (mes ++ ies ++ all_entries contents (current (db_versions st)))), sched, st').
Proof.
  intros [[m0 [Hm Et]] Himm (Ok1 & Ok2 & Hd1 & Hd2) (O1 & O2 & O3) _ _ _ Hv Hst Hsame Hc _] Hs Hk. unfold DB_Get. change (default (vs_last_sequence (db_versions st)) (Some s)) with s.
  assert (older mes (ies ++ all_entries contents (current (db_versions st)))) as Ho1 by (intros a b Ha [Hb|Hb]%elem_of_app; [by apply O1|by apply O2]).
  rewrite (newest_app key s mes _ Ho1), (newest_app key s ies _ O3).
  rewrite (MemTable_Get_table ucmp _ m0 _ Et). destruct (MemTable_Get_newest ucmp mes key s Ok1 Hd1 Hs Hk) as (m1 & Hm1 & E1). rewrite Hm in Hm1. injection Hm1 as <-. rewrite E1. cbn [fmap option_fmap option_map mbind option_bind].
  destruct (newest key s mes) as [e|]; [unfold get_result; destruct (e_type e) eqn:Ety; cbn [mbind option_bind default read_result]; rewrite Ety; by eexists _, _|].
  assert (exists r, match db_imm st with Some imm => (fun r : bool * option slice * option Status => let '(found, v, s) := r in (found, default value v, default OK s)) <$> MemTable_Get ucmp imm (NewLookupKey key s)
      | None => Some (false, value, OK) end = Some r /\
    r = match newest key s ies with Some e => (true, (read_result value (Some e)).2, (read_result value (Some e)).1) | None => (false, value, OK) end) as (r & Er & Hr).
  { destruct (db_imm st) as [imm|]; [|subst ies; by eexists]. destruct Himm as (i0 & Hi & Ei). rewrite (MemTable_Get_table ucmp _ i0 _ Ei).
    destruct (MemTable_Get_newest ucmp ies key s Ok2 Hd2 Hs Hk) as (i1 & Hi1 & E). rewrite Hi in Hi1. injection Hi1 as <-. rewrite E. eexists. split; [done|].
    destruct (newest key s ies) as [e|]; [|done]. unfold get_result, read_result. by destruct (e_type e). }
  cbn [default]. rewrite Er. cbn [mbind option_bind]. subst r. destruct (newest key s ies) as [e|]; [eexists _, _; by destruct (read_result value (Some e))|].
  pose proof (TableCache_reader extend snappy zstd dbname in_scratch None ro ucmp o Ho Hfilter contents (in_version (current (db_versions st))) (db_table_cache st) Hst Hsame ltac:(by intros)) as TR.
  destruct (Version_Get_spec ucmp _ contents _ _ key s Hs value (current (db_versions st)) (db_table_cache st) Hv (conj Hc (only_opens_refl _ _))) as (stats & tc & _ & ->). cbn [mbind option_bind].
  fold (read_result value (newest key s (all_entries contents (current (db_versions st))))). destruct (read_result value _) as [s0 v0]. cbn [mbind option_bind].
  destruct (UpdateStats stats _) as [sched cur]. by eexists _, _.
Qed.

(** ** The new version *)

Lemma file_numbers contents used mes ies st f :
  db_ok contents used mes ies st -> in_version (current (db_versions st)) f -> number f < vs_next_file_number (db_versions st) /\ is_u64 (number f).
Proof.
  intros Hdb Hf. destruct (ok_stored _ _ _ _ _ Hdb f Hf) as (Hn & _). split; [|done]. destruct Hf as (l & Hl & Hf).
  destruct (reachable_state _ _ _ _ _ _ Hname _ _ _ (ok_reachable _ _ _ _ _ Hdb)) as (_ & _ & _ & _ & Hu & _).
  exact (proj1 (Forall_forall _ _) (ok_used _ _ _ _ _ Hdb) _ (Hu l f Hl Hf)).
Qed.

Lemma elem_of_all_entries (contents : FileMetaData -> list entry) v l e : 0 <= l < kNumLevels -> e ∈ concat (map contents (level_files v l)) -> e ∈ all_entries contents v.
Proof.
  intros Hl He. unfold all_entries, levels_es. rewrite Z2Nat.id by (unfold kNumLevels; lia). apply list_elem_of_In, in_concat. eexists. split; [|by apply list_elem_of_In].
  apply in_map_iff. exists l. split; [done|]. apply list_elem_of_In, elem_of_seqZ. lia.
Qed.

(** The tables of a version that a database can read. *)
Record tables_ok (contents : FileMetaData -> list entry) (v : Version) (next : Z) (tc : TableCache) : Prop := {
  to_version : version_ok ucmp contents (in_version v) v;
  to_stored f : in_version v f -> table_stored extend snappy zstd o contents f;
  to_same f g : in_version v f -> in_version v g -> number f = number g -> contents f = contents g;
  to_cache : cache_inv extend snappy zstd dbname in_scratch o contents (in_version v) tc;
  to_uncached n : next <= n -> is_u64 n -> tc_cache tc !! EncodeFixed64 n = None;
  to_numbers f : in_version v f -> number f < next;
}.

Lemma db_ok_tables contents used mes ies st : db_ok contents used mes ies st -> tables_ok contents (current (db_versions st)) (vs_next_file_number (db_versions st)) (db_table_cache st).
Proof. intros Hdb. split; try apply Hdb. intros f Hf. by apply (file_numbers _ _ _ _ _ f Hdb). Qed.

(** The same tables, the files of level 0 perhaps in another order, with no more in the cache. *)
Lemma tables_ok_same contents v n tc v' n' tc' :
  tables_ok contents v n tc -> level_files v' 0 ≡ₚ level_files v 0 -> (forall l, 0 < l < kNumLevels -> level_files v' l = level_files v l) ->
  (forall f, in_version v f -> number f < n') -> (forall m, n' <= m -> is_u64 m -> tc_cache tc' !! EncodeFixed64 m = None) -> env_faults (tc_env tc') = [] ->
  (forall f, in_version v f -> env_files (tc_env tc') !! TableFileName dbname (number f) = env_files (tc_env tc) !! TableFileName dbname (number f)) ->
  (forall k t, tc_cache tc' !! k = Some t -> tc_cache tc !! k = Some t) -> tables_ok contents v' n' tc' /\ all_entries contents v' ≡ₚ all_entries contents v.
Proof.
  intros Htab H0 Hlev Hnum Hun Hf Hfiles Hc. assert (forall l, 0 <= l < kNumLevels -> level_files v' l ≡ₚ level_files v l) as Hp.
  { intros l Hl. destruct (decide (l = 0)) as [->|]; [done|]. by rewrite Hlev by lia. }
  assert (forall l, 0 <= l < kNumLevels -> concat (map contents (level_files v' l)) ≡ₚ concat (map contents (level_files v l))) as Hpc by (intros l Hl; by rewrite (Hp l Hl)).
  assert (forall f, in_version v' f <-> in_version v f) as Hin by (intros f; unfold in_version; split; intros (l & Hl & Hg); exists l; (split; [done|]); [by rewrite <-Hp|by rewrite Hp]).
  destruct Htab as [[V1 V2 V3 V4 V5 V6 V7] T2 T3 [_ T4] T5 T6]. split.
  - split; [split| | | | |].
    + intros l Hl. apply Forall_forall. intros f Hfl. pose proof Hfl as Hfv. rewrite (Hp l Hl) in Hfv. destruct (proj1 (Forall_forall _ _) (V1 l Hl) f Hfv) as (_ & H). split; [by exists l|done].
    + intros l Hl. rewrite (Hp l Hl). by apply V2.
    + intros l Hl. rewrite Hlev by done. by apply V3.
    + by rewrite H0.
    + intros f g. rewrite H0. apply V5.
    + intros i j Hij Hj a b. rewrite !Hpc by lia. by apply V6.
    + intros l Hl. apply (seqs_differ_perm (concat (map contents (level_files v l)))); [by rewrite Hpc|by apply V7].
    + intros f Hfv%Hin. by apply T2.
    + intros f g Hfv%Hin Hgv%Hin. by apply T3.
    + split; [done|]. intros f Hfv%Hin. rewrite (Hfiles f Hfv). destruct (T4 f Hfv) as [T4a T4b]. split; [done|]. intros t Ht%Hc. by apply T4b.
    + done.
    + intros f Hfv%Hin. by apply Hnum.
  - unfold all_entries, levels_es. rewrite Z2Nat.id by (unfold kNumLevels; lia).
    assert (Forall (fun l => 0 <= l < kNumLevels) (seqZ 0 kNumLevels)) as Hls by (apply Forall_forall; intros l Hl%elem_of_seqZ; lia).
    induction Hls as [|l ls Hl _ IH]; [done|]. cbn [map concat]. by rewrite (Hpc l Hl), IH.
Qed.

Section flushed.
Context (contents : FileMetaData -> list entry) (v : Version) (n : Z) (tc : TableCache) (Htab : tables_ok contents v n tc) (Hn : is_u64 n).
Context (sorted : list entry) (e0 e1 : entry) (bytes : slice) (level : Z) (v' : Version).

Definition flushed_file : FileMetaData := applied_file (NewFile n (slen bytes) (MkInternalKey (entry_internal_key e0)) (MkInternalKey (entry_internal_key e1))).
Definition flushed_contents : FileMetaData -> list entry := contents_with contents flushed_file sorted.

Context (Hd : seqs_differ sorted) (Hes : entries_ok ucmp sorted) (Hh : head sorted = Some e0) (Hl : last sorted = Some e1).
Context (Hlevel : 0 <= level < kNumLevels) (Holder : older sorted (all_entries contents v)).
Context (Hno : 0 < level -> forall l g, 0 <= l <= level -> g ∈ level_files v l ->
  overlaps ucmp (Some (InternalKey_user_key (smallest flushed_file))) (Some (InternalKey_user_key (largest flushed_file))) g = false).
Context (Hfiles : forall l, 0 <= l < kNumLevels -> level_files v' l = if decide (l = level) then merge_files ucmp (level_files v l) [flushed_file] else level_files v l).
Context (Hcount : slen (level_files v level) + 1 < 2 ^ 31).

Lemma in_version_with g : in_version v' g <-> in_version v g \/ g = flushed_file.
Proof.
  split.
  - intros (l & Hl' & Hg). rewrite (level_perm ucmp v v' flushed_file level Hfiles l Hl') in Hg. case_decide; [apply elem_of_cons in Hg as [->|Hg]; [by right|]|]; left; by exists l.
  - intros [(l & Hl' & Hg)| ->]; [exists l|exists level]; (split; [done|]); rewrite (level_perm ucmp v v' flushed_file level Hfiles) by done; case_decide; try done; [by right|left].
Qed.

Lemma flushed_contents_old g : in_version v g -> flushed_contents g = contents g.
Proof. intros Hg. unfold flushed_contents, contents_with. rewrite decide_False; [done|]. pose proof (to_numbers _ _ _ _ Htab g Hg). cbn. lia. Qed.

Lemma flushed_contents_new : flushed_contents flushed_file = sorted.
Proof. apply contents_with_new. Qed.

Lemma flushed_version : version_ok ucmp flushed_contents (in_version v') v' /\ all_entries flushed_contents v' ≡ₚ sorted ++ all_entries contents v.
Proof.
  assert (forall l g, 0 <= l < kNumLevels -> g ∈ level_files v l -> number g < number flushed_file) as Hnum.
  { intros l g Hl' Hg. apply (to_numbers _ _ _ _ Htab g). by exists l. }
  split; [|by apply (all_entries_with ucmp contents v v' flushed_file sorted level)].
  apply (version_ok_stored ucmp _ (stored_with (in_version v) flushed_file)); [|intros l f Hl' Hf; by exists l].
  apply (version_ok_with ucmp contents (in_version v) v v' flushed_file sorted level); try done.
  - apply Htab.
  - pose proof flushed_contents_new as Ec. apply (file_holds_intro ucmp _ _ flushed_file e0 e1); unfold flushed_contents in Ec; rewrite ?Ec; try done. by right.
  - intros l Hl' a b Ha Hb. apply Holder; [done|]. by apply (elem_of_all_entries contents _ l).
Qed.

(** The table is written: [tc2] has no more cached tables than the old ones and the new one, with the files of the new version. *)
Lemma flushed_tables t id tc2 :
  input_ok sorted -> table_bytes_of extend snappy zstd o (table_of sorted) bytes -> opened extend snappy zstd o (table_of sorted) in_scratch id t -> env_faults (tc_env tc2) = [] ->
  (forall g, in_version v' g -> env_files (tc_env tc2) !! TableFileName dbname (number g) = <[TableFileName dbname n := bytes]> (env_files (tc_env tc)) !! TableFileName dbname (number g)) ->
  (forall k t', tc_cache tc2 !! k = Some t' -> <[EncodeFixed64 n := t]> (tc_cache tc) !! k = Some t') ->
  tables_ok flushed_contents v' (n + 1) tc2.
Proof.
  intros Hin Hb Hop Hf2 Hdisk Hcache. pose proof in_version_with as Hin1. pose proof flushed_contents_new as Ef. split.
  - apply flushed_version.
  - intros g [Hg| ->]%Hin1.
    + destruct (to_stored _ _ _ _ Htab g Hg) as (S1 & S2 & S3). unfold table_stored. by rewrite flushed_contents_old.
    + split; [done|]. rewrite Ef. split; [done|]. intros bytes' Hb'. destruct Hb as (r & Rr & E), Hb' as (r' & Rr' & ->). rewrite Rr in Rr'. injection Rr' as <-. by rewrite <-E.
  - intros g h Hg%Hin1 Hhh%Hin1 En. unfold flushed_contents, contents_with. rewrite En. case_decide as Hdec; [done|].
    destruct Hg as [Hg| ->]; [|exfalso; apply Hdec; exact (eq_sym En)]. destruct Hhh as [Hhh| ->]; [|exfalso; by apply Hdec]. by apply (to_same _ _ _ _ Htab).
  - split; [done|]. intros g Hg. rewrite (Hdisk g Hg). pose proof (fun t' => Hcache (EncodeFixed64 (number g)) t') as Hcg. apply Hin1 in Hg as [Hg| ->].
    + pose proof (to_numbers _ _ _ _ Htab g Hg) as Hlt. destruct (to_stored _ _ _ _ Htab g Hg) as (Hu & _). destruct (proj2 (to_cache _ _ _ _ Htab) g Hg) as [Hdg Hc]. rewrite flushed_contents_old by done.
      rewrite lookup_insert_ne. 2: { intros E. pose proof (named_table dbname n Hn) as Ht. rewrite E in Ht. destruct (named_inj _ _ _ _ _ _ Ht (named_table dbname _ Hu)) as [E' _]. lia. }
      split; [done|]. intros t' Ht'. specialize (Hcg t' Ht'). rewrite lookup_insert_ne in Hcg; [by apply Hc|]. intros E. apply EncodeFixed64_inj in E; [|done..]. lia.
    + rewrite Ef. change (number flushed_file) with n in *. rewrite lookup_insert_eq. split; [by exists bytes|]. intros t' Ht'. specialize (Hcg t' Ht'). rewrite lookup_insert_eq in Hcg. injection Hcg as <-. by exists id.
  - intros m Hm Hmu. destruct (tc_cache tc2 !! EncodeFixed64 m) as [t'|] eqn:E; [|done]. exfalso. apply Hcache in E. rewrite lookup_insert_ne in E.
    + rewrite (to_uncached _ _ _ _ Htab m) in E; [done|lia|done].
    + intros E'. apply EncodeFixed64_inj in E'; [lia|done..].
  - intros g [Hg| ->]%Hin1; [pose proof (to_numbers _ _ _ _ Htab g Hg); lia|cbn; lia].
Qed.
End flushed.

Lemma reachable_not_descriptor used vs e fname n type :
  reachable used vs e -> named dbname fname n type -> type <> kCurrentFile -> type <> kTempFile -> type <> kDescriptorFile -> ~ descriptor_file dbname vs fname.
Proof.
  intros Hr Ht Hnc Hnt Hnd. destruct (reachable_state _ _ _ _ _ _ Hname _ _ _ Hr) as (_ & _ & _ & Hm & _ & k & Hk & _ & Hd).
  intros [E|[E|[E|(w & E)]]].
  - rewrite E in Ht. by destruct (named_inj _ _ _ _ _ _ Ht (named_current dbname)).
  - rewrite E in Ht. by destruct (named_inj _ _ _ _ _ _ Ht (named_temp dbname _ Hm)).
  - rewrite E in Ht. by destruct (named_inj _ _ _ _ _ _ Ht (named_descriptor dbname _ Hm)).
  - destruct (Hd _ _ E) as [E' _]. rewrite E' in Ht. by destruct (named_inj _ _ _ _ _ _ Ht (named_descriptor dbname _ Hk)).
Qed.

(** Writing a table leaves the descriptor alone. *)
Lemma other_descriptor used vs e e' fname n type :
  reachable used vs e -> named dbname fname n type -> type <> kCurrentFile -> type <> kDescriptorFile -> env_faults e' = [] ->
  (forall f, f <> fname -> env_files e' !! f = env_files e !! f) -> same_descriptor dbname e e'.
Proof.
  intros Hr Ht Hnc Hnd Hf He. destruct (reachable_state _ _ _ _ _ _ Hname _ _ _ Hr) as (_ & _ & _ & _ & _ & k & Hk & Hc & _). split; [done|]. split.
  - apply He. intros E. rewrite <-E in Ht. by destruct (named_inj _ _ _ _ _ _ Ht (named_current dbname)).
  - intros name Ename. rewrite Hc in Ename. injection Ename as Ename. apply (app_inj_tail (lit "MANIFEST-" ++ decimal06 k) name) in Ename as [<- _]. apply He. intros E.
    destruct (DescriptorFileName_parts dbname k Hk) as (Ed & _). change (dbname ++ lit "/" ++ lit "MANIFEST-" ++ decimal06 k) with (dbname ++ x2f :: lit "MANIFEST-" ++ decimal06 k) in E.
    rewrite <-Ed in E. rewrite <-E in Ht. by destruct (named_inj _ _ _ _ _ _ Ht (named_descriptor dbname k Hk)).
Qed.

Lemma reachable_other used vs e e' fname n type :
  reachable used vs e -> named dbname fname n type -> type <> kCurrentFile -> type <> kDescriptorFile -> env_faults e' = [] ->
  (forall f, f <> fname -> env_files e' !! f = env_files e !! f) -> reachable used vs e'.
Proof. intros Hr Ht Hnc Hnd Hf He. apply (reach_files _ _ _ _ _ _ _ _ e e' Hr). by apply (other_descriptor used vs e e' fname n type). Qed.

Lemma reachable_table used vs e e' n bytes :
  reachable used vs e -> is_u64 n -> env_faults e' = [] -> env_files e' = <[TableFileName dbname n := bytes]> (env_files e) -> reachable used vs e'.
Proof.
  intros Hr Hn Hf He. apply (reachable_other used vs e e' _ n kTableFile Hr (named_table dbname n Hn)); [done|done|done|]. intros f Hne. rewrite He. by apply lookup_insert_ne.
Qed.

(** So does the removal of the obsolete files, once the descriptor is open. *)
Lemma removed_descriptor used st tc :
  reachable used (db_versions st) (tc_env (db_table_cache st)) -> vs_descriptor_log (db_versions st) <> None -> env_faults (tc_env tc) = [] ->
  (forall fname, needed dbname st fname -> env_files (tc_env tc) !! fname = env_files (tc_env (db_table_cache st)) !! fname) -> same_descriptor dbname (tc_env (db_table_cache st)) (tc_env tc).
Proof.
  intros Hr Hd Hf Hneed. destruct (reachable_state _ _ _ _ _ _ Hname _ _ _ Hr) as (_ & _ & _ & _ & _ & k & Hk & Hc & Hdesc).
  split; [done|]. split; [apply Hneed, needed_current|]. intros name Ename. rewrite Hc in Ename. injection Ename as Ename. apply (app_inj_tail (lit "MANIFEST-" ++ decimal06 k) name) in Ename as [<- _].
  destruct (DescriptorFileName_parts dbname k Hk) as (Ed & _). change (dbname ++ lit "/" ++ lit "MANIFEST-" ++ decimal06 k) with (dbname ++ x2f :: lit "MANIFEST-" ++ decimal06 k).
  rewrite <-Ed. apply Hneed, needed_descriptor; [done|]. destruct (vs_descriptor_log (db_versions st)) as [[fname w]|] eqn:E; [|done]. destruct (Hdesc _ _ eq_refl) as [_ ->]. lia.
Qed.

Lemma reachable_removed used st tc :
  reachable used (db_versions st) (tc_env (db_table_cache st)) -> vs_descriptor_log (db_versions st) <> None -> env_faults (tc_env tc) = [] ->
  (forall fname, needed dbname st fname -> env_files (tc_env tc) !! fname = env_files (tc_env (db_table_cache st)) !! fname) -> reachable used (db_versions st) (tc_env tc).
Proof. intros Hr Hd Hf Hneed. apply (reach_files _ _ _ _ _ _ _ _ _ _ Hr). by apply (removed_descriptor used st tc). Qed.

(** ** The logs *)

Abbreviation recorded_sequence := (recorded_sequence ucmp cmp_name extend dbname max_file_size reuse_logs).

(** The logs from a number on are as they were, and there are no new ones. *)
Definition logs_kept (log : Z) (e e' : EnvState) : Prop :=
  (forall n, is_u64 n -> log <= n -> env_files e' !! LogFileName dbname n = env_files e !! LogFileName dbname n) /\
  (forall fname n, named dbname fname n kLogFile -> is_Some (env_files e' !! fname) -> is_Some (env_files e !! fname)).

(** What the background work does to the logs: those that the descriptor still counts stay, and behind a flush it counts from
    the log of the memtable on; the last sequence number in the descriptor is the last one of all, or that of before, where nothing was flushed. *)
Record kept_logs (st st' : DBState) : Prop := {
  kl_imm : db_imm st' = db_imm st \/ db_imm st' = None;
  kl_number : vs_log_number (db_versions st') = match db_imm st, db_imm st' with Some _, None => db_logfile_number st | _, _ => vs_log_number (db_versions st) end;
  kl_prev : vs_prev_log_number (db_versions st') = vs_prev_log_number (db_versions st) \/ vs_prev_log_number (db_versions st') = 0;
  kl_next : vs_next_file_number (db_versions st) <= vs_next_file_number (db_versions st');
  kl_files : logs_kept (vs_log_number (db_versions st')) (tc_env (db_table_cache st)) (tc_env (db_table_cache st'));
  kl_sequence q : recorded_sequence (tc_env (db_table_cache st)) q ->
    exists q', recorded_sequence (tc_env (db_table_cache st')) q' /\ (q' = q /\ db_imm st' = db_imm st \/ q' = vs_last_sequence (db_versions st));
}.

Lemma logs_kept_refl log e : logs_kept log e e.
Proof. done. Qed.

Lemma logs_kept_trans log e e' e'' : logs_kept log e e' -> logs_kept log e' e'' -> logs_kept log e e''.
Proof. intros [H1 H2] [H3 H4]. split; [intros n Hn Hl; by rewrite H3, H1|]. intros fname n Hf Hs. eapply H2; [done|]. by eapply H4. Qed.

Lemma logs_kept_same log e e' : (forall fname n, named dbname fname n kLogFile -> env_files e' !! fname = env_files e !! fname) -> logs_kept log e e'.
Proof.
  intros H. split; [|intros fname n Hf; by rewrite (H _ _ Hf)]. intros n Hn _. apply (H _ n). destruct (LogFileName_parts dbname n Hn) as (-> & Hp & _). by eexists.
Qed.

Lemma kept_logs_refl st : kept_logs st st.
Proof. split; [by left|by destruct (db_imm st)|by left|done|done|]. intros q Hq. exists q. split; [done|by left]. Qed.

Lemma kept_logs_trans st st' st'' : kept_logs st st' -> kept_logs st' st'' -> db_imm st' = None -> vs_last_sequence (db_versions st') = vs_last_sequence (db_versions st) -> kept_logs st st''.
Proof.
  intros [I1 N1 P1 X1 F1 S1] [I2 N2 P2 X2 F2 S2] Hn Hs. rewrite Hn in *. assert (db_imm st'' = None) as Hn2 by (by destruct I2). rewrite Hn2 in *. split.
  - rewrite Hn2. by right.
  - rewrite N2, N1, Hn2. done.
  - destruct P2 as [->| ->]; [done|by right].
  - lia.
  - rewrite N2 in *. by eapply logs_kept_trans.
  - intros q Hq. destruct (S1 q Hq) as (q1 & Hq1 & Hor1). destruct (S2 q1 Hq1) as (q2 & Hq2 & Hor2). exists q2. split; [done|]. rewrite Hs, Hn2 in *. destruct Hor2 as [[-> _]| ->]; [exact Hor1|by right].
Qed.

(** The logs and what the descriptor has of them stay. *)
Definition logs_same (e e' : EnvState) : Prop := (forall log, logs_kept log e e') /\ forall q, recorded_sequence e q -> recorded_sequence e' q.

Lemma logs_same_trans e e' e'' : logs_same e e' -> logs_same e' e'' -> logs_same e e''.
Proof. intros [H1 H2] [H3 H4]. split; [intros log; by apply (logs_kept_trans log e e')|]. intros q Hq. by apply H4, H2. Qed.

(** The log numbers and the last sequence number of two version sets are the same. *)
Definition same_log_numbers (vs vs' : VersionSet) : Prop :=
  vs_last_sequence vs' = vs_last_sequence vs /\ vs_log_number vs' = vs_log_number vs /\ vs_prev_log_number vs' = vs_prev_log_number vs.

Lemma kept_logs_versions st vs st' : kept_logs (set_version_set vs st) st' -> same_log_numbers (db_versions st) vs -> vs_next_file_number vs = vs_next_file_number (db_versions st) -> kept_logs st st'.
Proof. intros [K1 K2 K3 K4 K5 K6] (E1 & E2 & E3) E4. cbn [set_version_set db_imm db_versions db_table_cache db_logfile_number] in *. rewrite E1, E2, E3, E4 in *. by split. Qed.

(** A table is written. *)
Lemma table_logs used vs e e' n :
  reachable used vs e -> is_u64 n -> env_faults e' = [] -> (forall f, f <> TableFileName dbname n -> env_files e' !! f = env_files e !! f) ->
  logs_same e e'.
Proof.
  intros Hr Hn Hf He. pose proof (named_table dbname n Hn) as Ht. split.
  - intros log. apply logs_kept_same. intros fname m Hm. apply He. intros ->. by destruct (named_inj _ _ _ _ _ _ Hm Ht).
  - intros q. apply (same_sequence _ _ _ _ _ _ Hname used vs e e' q Hr). by apply (other_descriptor used vs e e' _ n kTableFile Hr Ht).
Qed.

(** An edit is logged. *)
Lemma LogAndApply_kept used vs e edit s edit' vs' e' :
  reachable used vs e -> edit_fits cmp_name edit -> fresh_edit used edit -> given vs edit -> LogAndApply ucmp cmp_name extend dbname edit vs e = (s, edit', vs', e') ->
  (forall log, logs_kept log e e') /\ recorded_sequence e' (vs_last_sequence vs).
Proof.
  intros Hr Hfits Hfr Hgv Ela. split; [|by apply (LogAndApply_recorded _ _ _ _ _ _ Hname used vs e edit s edit' vs' e')]. intros log. apply logs_kept_same. intros fname n Hn.
  destruct (reachable_state _ _ _ _ _ _ Hname _ _ _ Hr) as (_ & _ & _ & Hman & _). apply (LogAndApply_files _ _ _ _ _ _ _ _ _ _ _ fname Hman Ela). by apply (reachable_not_descriptor used vs e fname n kLogFile).
Qed.

(** The obsolete files are removed. *)
Lemma removed_logs used st tc :
  reachable used (db_versions st) (tc_env (db_table_cache st)) -> vs_descriptor_log (db_versions st) <> None -> env_faults (tc_env tc) = [] ->
  (forall fname, needed dbname st fname -> env_files (tc_env tc) !! fname = env_files (tc_env (db_table_cache st)) !! fname) ->
  (forall fname, is_Some (env_files (tc_env tc) !! fname) -> is_Some (env_files (tc_env (db_table_cache st)) !! fname)) ->
  logs_kept (vs_log_number (db_versions st)) (tc_env (db_table_cache st)) (tc_env tc) /\ forall q, recorded_sequence (tc_env (db_table_cache st)) q -> recorded_sequence (tc_env tc) q.
Proof.
  intros Hr Hd Hf Hneed Hsub. split.
  - split; [|intros fname n _; apply Hsub]. intros n Hn Hle. apply Hneed. apply needed_log; [done|by left].
  - intros q. apply (same_sequence _ _ _ _ _ _ Hname used _ _ _ q Hr). by apply (removed_descriptor used st tc).
Qed.

(** An edit with a new file. *)
Lemma edit_add edit level n (size : Z) a b :
  edit_fits cmp_name edit -> level_ok level -> is_u64 n -> is_u64 size -> entry_ok a -> entry_ok b ->
  edit_fits cmp_name (AddFile level n size (MkInternalKey (entry_internal_key a)) (MkInternalKey (entry_internal_key b)) edit).
Proof.
  intros [H1 H2] Hl Hn Hsz (_ & K0 & _) (_ & K1 & _). assert (forall e, slen (e_key e) + 8 < 2 ^ 32 -> key_ok (MkInternalKey (entry_internal_key e))) as Hkey.
  { intros e He. pose proof (length_internal_key e) as El. unfold key_ok. cbn [rep_]. split; [intros E; rewrite E in El; cbn in El; lia|]. unfold in_u. lia. }
  split; [|by destruct edit]. change (AddFile _ _ _ _ _ edit) with (foldl apply_op edit [OpAddFile level n size (MkInternalKey (entry_internal_key a)) (MkInternalKey (entry_internal_key b))]).
  apply edit_ok_foldl; [done|]. apply Forall_singleton. cbn [op_ok]. split_and!; try done; by apply Hkey.
Qed.

(** An edit with the number of the log. *)
Lemma edit_log edit logfile : edit_fits cmp_name edit -> is_u64 logfile -> edit_fits cmp_name (VersionEdit.SetLogNumber logfile (SetPrevLogNumber 0 edit)).
Proof.
  intros [H1 H2] Hl. split; [|by destruct edit]. change (VersionEdit.SetLogNumber _ _) with (foldl apply_op edit [OpPrevLogNumber 0; OpLogNumber logfile]).
  apply edit_ok_foldl; [done|]. apply Forall_cons. split; [by vm_compute|by apply Forall_singleton].
Qed.

(** The edit of the flush. *)
Lemma flush_edit contents used mes ies st level e0 e1 (bytes : slice) logfile :
  db_ok contents used mes ies st -> level_ok level -> entry_ok e0 -> entry_ok e1 -> 0 < slen bytes < 2 ^ 64 -> is_u64 logfile -> is_u64 (vs_next_file_number (db_versions st)) ->
  let edit := VersionEdit.SetLogNumber logfile (SetPrevLogNumber 0 (AddFile level (vs_next_file_number (db_versions st)) (slen bytes)
    (MkInternalKey (entry_internal_key e0)) (MkInternalKey (entry_internal_key e1)) NewVersionEdit)) in
  edit_fits cmp_name edit /\ fresh_edit used edit.
Proof.
  intros Hdb Hl K0 K1 Hb Hlog Hn edit. split.
  - apply edit_log; [|done]. apply edit_add; try done; [|unfold in_u; lia]. split; [apply NewVersionEdit_ok|done].
  - split; [split_and!; [apply Forall_singleton; split; [done|apply AppendInternalKey_internal]|constructor|apply NoDup_singleton]|].
    intros nf Hnf. apply list_elem_of_singleton in Hnf as ->. intros Hin. pose proof (proj1 (Forall_forall _ _) (ok_used _ _ _ _ _ Hdb) _ Hin) as H. cbn in H. lia.
Qed.

(** ** The flush *)

(** What a flush is given: the entries fit a table, and the numbers and the levels have room. *)
Record flushable (ies : list entry) (st : DBState) : Prop := {
  fl_nonempty : ies <> [];
  fl_input sorted : sorted ≡ₚ ies -> entries_ok ucmp sorted -> input_ok sorted;
  fl_count l : 0 <= l < kNumLevels -> slen (level_files (current (db_versions st)) l) + 1 < 2 ^ 31;
  fl_number : vs_next_file_number (db_versions st) + 2 < 2 ^ 64;
  fl_log : is_u64 (db_logfile_number st);
  fl_error : ok (db_bg_error st) = true;
  fl_open : db_shutting_down st = false;
}.

(** The steps before the obsolete files are removed. *)
Lemma flush_steps contents used mes ies st imm :
  db_ok contents used mes ies st -> db_imm st = Some imm -> flushable ies st ->
  let v := current (db_versions st) in let n := vs_next_file_number (db_versions st) in
  exists sorted e0 e1 bytes level vs1 tc1 t id,
    sorted ≡ₚ ies /\ entries_ok ucmp sorted /\ head sorted = Some e0 /\ last sorted = Some e1 /\ input_ok sorted /\
    compact_mem st = Some (RemoveObsoleteFiles dbname (set_imm None (set_table_cache tc1 (set_version_set vs1 st)))) /\
    0 <= level <= kMaxMemCompactLevel /\
    (0 < level -> forall l g, 0 <= l <= level -> g ∈ level_files v l ->
      overlaps ucmp (Some (InternalKey_user_key (smallest (flushed_file n e0 e1 bytes)))) (Some (InternalKey_user_key (largest (flushed_file n e0 e1 bytes)))) g = false) /\
    (forall l, 0 <= l < kNumLevels -> level_files (current vs1) l =
      if decide (l = level) then merge_files ucmp (level_files v l) [flushed_file n e0 e1 bytes] else level_files v l) /\
    table_bytes_of extend snappy zstd o (table_of sorted) bytes /\ opened extend snappy zstd o (table_of sorted) in_scratch id t /\
    tc_cache tc1 = <[EncodeFixed64 n := t]> (tc_cache (db_table_cache st)) /\
    (forall m, is_u64 m -> env_files (tc_env tc1) !! TableFileName dbname m = <[TableFileName dbname n := bytes]> (env_files (tc_env (db_table_cache st))) !! TableFileName dbname m) /\
    reachable ((level, n) :: used) vs1 (tc_env tc1) /\ vs_descriptor_log vs1 <> None /\ vs_next_file_number vs1 = n + 1 /\ vs_last_sequence vs1 = vs_last_sequence (db_versions st) /\ pick_ok (current vs1) /\
    (vs_log_number vs1 = db_logfile_number st /\ vs_prev_log_number vs1 = 0 /\ (forall log, logs_kept log (tc_env (db_table_cache st)) (tc_env tc1)) /\ recorded_sequence (tc_env tc1) (vs_last_sequence (db_versions st))).
Proof.
  intros Hdb Eimm [Hne Hin Hcnt Hnum Hlog Herr Hopen] v n. pose proof (ok_reachable _ _ _ _ _ Hdb) as Hr.
  destruct (reachable_state _ _ _ _ _ _ Hname _ _ _ Hr) as (Hf & (_ & _ & Hnu & _) & _ & _ & _ & _). fold n in Hnu, Hnum.
  pose proof (ok_imm _ _ _ _ _ Hdb) as Himm. rewrite Eimm in Himm. destruct (ok_entries _ _ _ _ _ Hdb) as (_ & Hok & _ & Hd).
  destruct (WriteLevel0Table_spec extend snappy zstd dbname in_scratch ucmp max_file_size o Ho contents (in_version v) (Some v) (db_versions st) (db_table_cache st) imm ies NewVersionEdit
    Himm Hok Hd Hne Hin ltac:(by intros ? [= <-]; apply Hdb) Hnu Hf (ok_uncached _ _ _ _ _ Hdb n (Z.le_refl _) Hnu))
    as (sorted & e0 & e1 & bytes & level & tc' & Hp & Hes & Hh & Hl & Ew & Hb & Hsz & Hlev & _ & Hno & Hf' & Hfiles & t & id & Hop & Hcache). specialize (Hno v eq_refl). cbv zeta in Ew. fold n in Ew, Hfiles, Hcache.
  assert (level_ok level) as Hlok by (unfold level_ok, kMaxMemCompactLevel, kNumLevels in *; lia).
  assert (forall e, e ∈ sorted -> entry_ok e) as Heok by (intros e He; rewrite Hp in He; by apply (proj1 (Forall_forall _ _) Hok)).
  rewrite head_lookup in Hh. rewrite last_lookup in Hl.
  destruct (flush_edit contents used mes ies st level e0 e1 bytes (db_logfile_number st) Hdb Hlok ltac:(by eapply Heok, list_elem_of_lookup_2) ltac:(by eapply Heok, list_elem_of_lookup_2) Hsz Hlog Hnu) as [Hfits Hfr].
  fold n in Hfits, Hfr. set (edit := VersionEdit.SetLogNumber _ _) in *.
  assert (reachable used (NewFileNumber (db_versions st)).2 (tc_env tc')) as Hr1 by (apply (reachable_table used _ (tc_env (db_table_cache st)) _ n bytes); [by apply reach_number|done..]).
  assert (vs_next_file_number (NewFileNumber (db_versions st)).2 = n + 1 /\ vs_last_sequence (NewFileNumber (db_versions st)).2 = vs_last_sequence (db_versions st)) as [En Es].
  { unfold NewFileNumber. cbn [snd]. fold n. rewrite wrap_small by (unfold in_u in *; lia). unfold set_next_file_number. by destruct (db_versions st). }
  assert (given (NewFileNumber (db_versions st)).2 edit) as Hgv by (apply Forall_singleton; rewrite En; cbn; lia).
  destruct (reachable_apply _ _ _ _ _ _ Hname _ _ _ _ Hr1 Hfits Hfr Hgv) as (edit' & vs1 & e' & Ela & Hr2).
  destruct (table_logs used _ (tc_env (db_table_cache st)) (tc_env tc') n Hr Hnu Hf' ltac:(intros f Hnf; rewrite Hfiles; by apply lookup_insert_ne)) as [Hk1 _].
  destruct (LogAndApply_kept _ _ _ _ _ _ _ _ Hr1 Hfits Hfr Hgv Ela) as [Hk2 Hseq]. rewrite Es in Hseq. destruct (LogAndApply_logs _ _ _ _ _ _ _ _ _ _ _ Ela ok_OK) as [Hln Hlp].
  destruct (reachable_state _ _ _ _ _ _ Hname _ _ _ Hr1) as (_ & _ & _ & Hman & _). destruct (LogAndApply_current _ _ _ _ _ _ _ _ _ _ _ Ela ok_OK) as (-> & Hnx & Hdesc & cp & Hcur).
  destruct (complete_edit_fields (NewFileNumber (db_versions st)).2 edit) as (F1 & F2 & _).
  assert (current (NewFileNumber (db_versions st)).2 = v) as Ev by (unfold v, NewFileNumber, set_next_file_number; by destruct (db_versions st)).
  exists sorted, e0, e1, bytes, level, vs1, (with_env (fun _ => e') tc'), t, id. rewrite <-head_lookup in Hh. rewrite <-last_lookup in Hl.
  split_and!; try done; try lia.
  - by apply Hin.
  - unfold CompactMemTable. rewrite Eimm. cbn [mbind option_bind]. fold v. rewrite Ew. cbn [mbind option_bind]. rewrite ok_OK, Hopen. cbn [andb]. rewrite ok_OK. fold edit. rewrite Ela, ok_OK. done.
  - intros l Hl'. rewrite Hcur. unfold level_files at 1. rewrite files_Finalize. rewrite Ev.
    apply (added_file_levels ucmp v _ cp level (NewFile n (slen bytes) (MkInternalKey (entry_internal_key e0)) (MkInternalKey (entry_internal_key e1))) l); [by rewrite F1|by rewrite F2|done|done].
  - intros m Hm. cbn [with_env tc_env]. rewrite (LogAndApply_files _ _ _ _ _ _ _ _ _ _ _ (TableFileName dbname m) Hman Ela); [by rewrite Hfiles|].
    by apply (reachable_not_descriptor used _ _ _ m kTableFile Hr1 (named_table dbname m Hm)).
  - by rewrite (LogAndApply_sequence _ _ _ _ _ _ _ _ _ _ _ Ela).
  - rewrite Hcur. by apply Finalize_pick.
  - intros log. by apply (logs_kept_trans log _ (tc_env tc')).
Qed.

(** The files that stay when the obsolete ones are removed. *)
Lemma removed_spec st :
  env_faults (tc_env (db_table_cache st)) = [] -> ok (db_bg_error st) = true ->
  exists tc, RemoveObsoleteFiles dbname st = set_table_cache tc st /\ env_faults (tc_env tc) = [] /\
    (forall k t, tc_cache tc !! k = Some t -> tc_cache (db_table_cache st) !! k = Some t) /\
    (forall fname, needed dbname st fname -> env_files (tc_env tc) !! fname = env_files (tc_env (db_table_cache st)) !! fname) /\
    forall fname, is_Some (env_files (tc_env tc) !! fname) -> is_Some (env_files (tc_env (db_table_cache st)) !! fname).
Proof.
  intros Hf Hb. destruct (RemoveObsoleteFiles_spec dbname st Hf Hb) as (tc & E & Hf' & Hc & Hall & Hsub). exists tc. split_and!; [done..| |done].
  intros fname (name & n & type & -> & Hp & Hs & Hk). rewrite (Hall name Hs). by rewrite (keep_not_obsolete _ _ _ _ _ Hp Hk).
Qed.

Lemma CompactMemTable_spec contents used mes ies st imm :
  db_ok contents used mes ies st -> db_imm st = Some imm -> flushable ies st ->
  exists contents' used' st', compact_mem st = Some st' /\ db_imm st' = None /\ (same_rest st st' /\ vs_next_file_number (db_versions st') = vs_next_file_number (db_versions st) + 1 /\ pick_ok (current (db_versions st')) /\ kept_logs st st') /\ db_ok contents' used' mes [] st' /\
    all_entries contents' (current (db_versions st')) ≡ₚ ies ++ all_entries contents (current (db_versions st)) /\
    forall key s, newest key s (mes ++ [] ++ all_entries contents' (current (db_versions st'))) = newest key s (mes ++ ies ++ all_entries contents (current (db_versions st))).
Proof.
  intros Hdb Eimm Hfl. destruct (flush_steps contents used mes ies st imm Hdb Eimm Hfl)
    as (sorted & e0 & e1 & bytes & level & vs1 & tc1 & t & id & Hp & Hes & Hh & Hl & Hin & E & Hlev & Hno & Hfiles & Hb & Hop & Hcache & Htab' & Hr & Hdesc & Hnx & Hls & Hpick & Hln & Hlp & Hlk & Hlq).
  set (v := current (db_versions st)) in *. set (n := vs_next_file_number (db_versions st)) in *. set (f := flushed_file n e0 e1 bytes) in *.
  set (st1 := set_imm None (set_table_cache tc1 (set_version_set vs1 st))) in *. destruct (reachable_state _ _ _ _ _ _ Hname _ _ _ Hr) as (Hf1 & _).
  destruct (reachable_state _ _ _ _ _ _ Hname _ _ _ (ok_reachable _ _ _ _ _ Hdb)) as (_ & (_ & _ & Hnu & _) & _). fold n in Hnu.
  destruct (removed_spec st1 Hf1 (fl_error _ _ Hfl)) as (tc2 & Er & Hf2 & Hc2 & Hneed & Hsub). rewrite Er in E.
  destruct (ok_entries _ _ _ _ _ Hdb) as (Ok1 & Ok2 & Hd1 & Hd2). destruct (ok_older _ _ _ _ _ Hdb) as (O1 & O2 & O3). fold v in O2, O3. pose proof (db_ok_tables _ _ _ _ _ Hdb) as Htab. fold v n in Htab.
  assert (0 <= level < kNumLevels) as Hlev' by (unfold kMaxMemCompactLevel, kNumLevels in *; lia). pose proof (fl_count _ _ Hfl level Hlev') as Hcount.
  assert (seqs_differ sorted) as Hds by (apply (seqs_differ_perm ies); [by symmetry|done]). assert (older sorted (all_entries contents v)) as Hos by (intros a b Ha; apply O3; by rewrite Hp in Ha).
  destruct (flushed_version contents v n _ Htab sorted e0 e1 bytes level (current vs1) Hds Hes Hh Hl Hlev' Hos Hno Hfiles Hcount) as [_ Hall].
  pose proof (in_version_with v n e0 e1 bytes level (current vs1) Hlev' Hfiles) as Hin1. fold f in Hin1.
  assert (tables_ok (flushed_contents contents n sorted e0 e1 bytes) (current vs1) (n + 1) tc2) as Htab1.
  { apply (flushed_tables contents v n (db_table_cache st) Htab Hnu sorted e0 e1 bytes level (current vs1) Hds Hes Hh Hl Hlev' Hos Hno Hfiles Hcount t id); try done.
    - intros g Hg. assert (is_u64 (number g)) as Hgu by (apply Hin1 in Hg as [Hg| ->]; [by apply (file_numbers _ _ _ _ _ g Hdb)|done]).
      rewrite Hneed; [by apply Htab'|]. apply needed_table; [done|]. apply AddLiveFiles_spec. right. destruct Hg as (l & _ & Hg). destruct (current_files_live _ _ _ Hg) as (lv & Hlv & Hg'). by exists lv, g.
    - intros k t' Ht'. rewrite <-Hcache. by apply Hc2. }
  set (contents1 := flushed_contents contents n sorted e0 e1 bytes) in *.
  exists contents1, ((level, n) :: used), (set_table_cache tc2 st1). split; [exact E|]. split; [done|]. destruct (removed_logs _ st1 tc2 Hr Hdesc Hf2 Hneed Hsub) as [Hrk Hrq]. split.
  { split_and!; try done. split; cbn [set_table_cache set_imm set_version_set st1 db_imm db_versions db_table_cache db_logfile_number]; [by right|by rewrite Eimm|by right|rewrite Hnx; fold n; lia|apply (logs_kept_trans _ _ (tc_env tc1)); [done|exact Hrk]|].
    intros q _. eexists. split; [apply Hrq, Hlq|by right]. }
  split.
  - split; cbn [set_table_cache set_imm set_version_set st1 db_mem db_imm db_versions db_table_cache]; try done; try apply Htab1; [apply Hdb| | | | |].
    + split; [intros a b _ Hbb; by apply elem_of_nil in Hbb|]. split; [|intros a b Ha; by apply elem_of_nil in Ha].
      intros a b Ha Hbb. rewrite Hall, Hp in Hbb. apply elem_of_app in Hbb as [Hbb|Hbb]; [by apply O1|by apply O2].
    + by apply (reachable_removed _ st1 tc2 Hr Hdesc Hf2 Hneed).
    + rewrite Hnx. apply Forall_cons. split; [cbn; lia|]. eapply Forall_impl; [exact (ok_used _ _ _ _ _ Hdb)|]. cbn. fold n. intros. lia.
    + intros l g l' Hll Hg. rewrite (level_perm ucmp v (current vs1) f level Hfiles l Hll) in Hg. rewrite elem_of_cons.
      assert (forall h, in_version v h -> number h < n) as Hlt by (intros h Hhv; apply (file_numbers _ _ _ _ _ h Hdb Hhv)).
      assert (g ∈ level_files v l \/ (g = f /\ l = level)) as [Hg'|[-> ->]] by (case_decide; [apply elem_of_cons in Hg as [->|Hg]|]; auto).
      * intros [Eq|Hu]; [apply (f_equal snd) in Eq; cbn in Eq; pose proof (Hlt g ltac:(by exists l)); lia|]. by apply (ok_moved _ _ _ _ _ Hdb l g).
      * intros [Eq|Hu]; [apply (f_equal fst) in Eq; cbn in Eq; lia|]. pose proof (proj1 (Forall_forall _ _) (ok_used _ _ _ _ _ Hdb) _ Hu) as H. cbn in H. fold n in H. lia.
    + rewrite Hnx. apply Htab1.
  - split; [cbn [set_table_cache set_imm set_version_set st1 db_versions]; by rewrite Hall, Hp|]. intros key s. cbn [app set_table_cache set_imm set_version_set st1 db_versions]. apply newest_same.
    + apply seqs_differ_app; [done| |intros a b Ha Hbb; apply elem_of_app in Hbb as [Hbb|Hbb]; [by apply O1|by apply O2]]. apply seqs_differ_app; [done| |done].
      apply (all_entries_differ ucmp contents (in_version v)). apply (ok_version _ _ _ _ _ Hdb).
    + intros e _. rewrite !elem_of_app, Hall, elem_of_app, Hp. done.
Qed.
End flush.

(** C3. Compacting the memtable changes no read.  In a store whose memtables, tables and versions hold their entries, newer
    entries before older ones, and whose immutable memtable fits a table: [CompactMemTable] succeeds, without a background
    error; the table it writes goes to a level where no newer entry of a key is behind an older one; the version set records
    it, the files that nothing needs are deleted; the store is again one that holds its entries; and [Get] of every key at
    every snapshot returns the status and the value that it returned before. *)
Theorem compact_memtable_preserves_reads (extend : Z -> slice -> Z) (CS : Checksum extend) (snappy : option SnappyLib) (zstd : option ZstdLib)
    (dbname : slice) (in_scratch reuse_logs : bool) (ro : ReadOptions)
    (ucmp : Comparator) (L : ComparatorLaws any_key ucmp) (LS : SeparatorSame any_key ucmp) (cmp_name : slice) (max_file_size : Z) (o : Options)
    (contents : FileMetaData -> list entry) (used : list (Z * Z)) (mes ies : list entry) (st : DBState) (imm : MemTable) :
  let ok := db_ok extend snappy zstd dbname in_scratch reuse_logs ucmp cmp_name max_file_size o in
  let get := DB_Get extend snappy zstd dbname o in_scratch None ucmp ro in
  is_u32 (slen cmp_name) -> opt_comparator o = InternalKeyComparator ucmp -> (forall p, opt_filter_policy o = Some p -> exists up, p = InternalFilterPolicy up) ->
  ok contents used mes ies st -> db_imm st = Some imm -> flushable extend snappy zstd ucmp o ies st ->
  exists contents' used' st', CompactMemTable extend snappy zstd dbname o in_scratch None ucmp cmp_name max_file_size st = Some st' /\
    db_imm st' = None /\ db_bg_error st' = db_bg_error st /\ ok contents' used' mes [] st' /\
    forall s key value, seq_ok s -> slen key + 8 < 2 ^ 32 ->
      exists result sched st1 sched' st1', get (Some s) key value st = Some (result, sched, st1) /\ get (Some s) key value st' = Some (result, sched', st1').
Proof.
  intros ok get Hname Ho Hfilter Hdb Eimm Hfl.
  destruct (CompactMemTable_spec extend snappy zstd dbname in_scratch reuse_logs ucmp cmp_name Hname max_file_size o Ho contents used mes ies st imm Hdb Eimm Hfl)
    as (contents' & used' & st' & E & H1 & ((_ & _ & _ & H2 & _) & _) & Hdb' & _ & Hsame).
  exists contents', used', st'. split_and!; [done..|]. intros s key value Hs Hk.
  destruct (DB_Get_spec extend snappy zstd dbname in_scratch reuse_logs ro ucmp cmp_name max_file_size o Ho Hfilter contents used mes ies st s key value Hdb Hs Hk) as (sched & st1 & E1).
  destruct (DB_Get_spec extend snappy zstd dbname in_scratch reuse_logs ro ucmp cmp_name max_file_size o Ho Hfilter contents' used' mes [] st' s key value Hdb' Hs Hk) as (sched' & st1' & E2).
  rewrite Hsame in E2. by eexists _, sched, st1, sched', st1'.
Qed.

(** A new store, with one entry in the immutable memtable. *)
Definition flush_entry : entry := MkEntry 1 kTypeValue (lit "k") (lit "v").
Definition flush_options : Options := MkOptions (InternalKeyComparator BytewiseComparator) true 20 2 kNoCompression 1 (Some (InternalFilterPolicy (NewBloomFilterPolicy 10))).
Definition flush_imm : MemTable := default NewMemTable (add_all BytewiseComparator [flush_entry] NewMemTable).
Definition flush_state : DBState := MkDB NewMemTable (Some flush_imm) sample_vs (MkTableCache sample_env ∅ 0) ∅ 3 OK false.

Lemma flush_no_files l : level_files (current sample_vs) l = [].
Proof. unfold level_files. replace (files_ (current sample_vs)) with (repeat (@nil FileMetaData) 7) by (by vm_compute). apply nth_repeat. Qed.

Lemma version_ok_empty ucmp contents stored v : (forall l, level_files v l = []) -> version_ok ucmp contents stored v.
Proof.
  intros Hl. split; intros *; rewrite ?Hl; try done; try constructor.
  - intros H. by apply elem_of_nil in H.
  - intros _ _ a b Ha. by apply elem_of_nil in Ha.
Qed.

Lemma all_entries_empty contents v : (forall l, level_files v l = []) -> all_entries contents v = [].
Proof. intros Hl. unfold all_entries, levels_es. induction (seqZ _ _) as [|l ls IH]; [done|]. cbn [map concat]. rewrite Hl. exact IH. Qed.

Lemma flush_db_ok : db_ok crc32c_ref None None sample_db true false BytewiseComparator sample_name 2097152 flush_options (fun _ => []) [] [] [flush_entry] flush_state.
Proof.
  assert (forall f, ~ in_version (current sample_vs) f) as Hnone by (intros f (l & _ & Hf); rewrite flush_no_files in Hf; by apply elem_of_nil in Hf).
  split; cbn [flush_state db_mem db_imm db_versions db_table_cache tc_env tc_cache].
  - by exists NewMemTable.
  - exists flush_imm. split; [by vm_compute|done].
  - split; [constructor|]. split; [apply Forall_singleton; by vm_compute|]. split; [done|]. split; [|done]. intros e He. by apply elem_of_nil in He.
  - split; [intros a b Ha; by apply elem_of_nil in Ha|]. split; [intros a b Ha; by apply elem_of_nil in Ha|]. rewrite all_entries_empty by apply flush_no_files. intros a b _ Hb. by apply elem_of_nil in Hb.
  - apply sample_created.
  - constructor.
  - intros l f l' _ Hf. rewrite flush_no_files in Hf. by apply elem_of_nil in Hf.
  - apply version_ok_empty, flush_no_files.
  - intros f Hf. by apply Hnone in Hf.
  - intros f g Hf. by apply Hnone in Hf.
  - split; [by vm_compute|]. intros f Hf. by apply Hnone in Hf.
  - done.
Qed.

Lemma flush_flushable : flushable crc32c_ref None None BytewiseComparator flush_options [flush_entry] flush_state.
Proof.
  split; cbn [flush_state db_versions db_logfile_number db_bg_error db_shutting_down].
  - done.
  - intros sorted Hp _. apply Permutation_singleton_r in Hp as ->. split.
    + done.
    + done.
    + by vm_compute.
    + intros p E. injection E as <-. apply InternalFilterPolicy_laws. by apply Bloom_laws.
    + apply Forall_singleton. apply AppendInternalKey_internal.
    + repeat constructor.
    + split; [apply Forall_singleton; by vm_compute|]. vm_compute. repeat split.
  - intros l. rewrite flush_no_files. done.
  - by vm_compute.
  - done.
  - done.
  - done.
Qed.

Lemma compact_memtable_preserves_reads_witness :
  exists st', CompactMemTable crc32c_ref None None sample_db flush_options true None BytewiseComparator sample_name 2097152 flush_state = Some st' /\ db_imm st' = None /\
    exists result sched st1 sched' st1',
      DB_Get crc32c_ref None None sample_db flush_options true None BytewiseComparator DefaultReadOptions (Some 1) (lit "k") [] flush_state = Some (result, sched, st1) /\
      DB_Get crc32c_ref None None sample_db flush_options true None BytewiseComparator DefaultReadOptions (Some 1) (lit "k") [] st' = Some (result, sched', st1') /\ result = (OK, lit "v").
Proof.
  assert (seq_ok 1) as Hs by (by vm_compute). assert (slen (lit "k") + 8 < 2 ^ 32) as Hk by (by vm_compute).
  destruct (compact_memtable_preserves_reads crc32c_ref _ None None sample_db true false DefaultReadOptions BytewiseComparator _ _ sample_name 2097152 flush_options
    (fun _ => []) [] [] [flush_entry] flush_state flush_imm) as (contents' & used' & st' & E & H1 & _ & _ & Hget).
  - by vm_compute.
  - reflexivity.
  - intros p Ep. injection Ep as <-. by eexists.
  - apply flush_db_ok.
  - reflexivity.
  - apply flush_flushable.
  - exists st'. split; [exact E|]. split; [exact H1|].
    specialize (Hget 1 (lit "k") []). specialize (Hget Hs Hk). clear Hs Hk.
    destruct Hget as (result & sched & st1 & sched' & st1' & E1 & E2).
    exists result, sched, st1, sched', st1'. split; [exact E1|]. split; [exact E2|].
    apply (f_equal (fun x => match x with Some (r, _, _) => r | None => (OK, []) end)) in E1. rewrite <-E1. clear. vm_compute. reflexivity.
Defined.
