(* ===== verification/Snapshot.v ===== *)
(** Snapshot: db/snapshot.h, the snapshots of a database in a circular doubly-linked list with a dummy head.  The list is the
    sequence of the snapshots in the order they were made, whatever snapshots are released in between. *)

From stdpp Require Import gmap sorting.
From S2P Require Import Prelude.

(** * The list *)

Record SnapshotImpl := MkSnapshot { prev_ : Z; next_ : Z; sequence_number_ : Z }.

(** The snapshots by their addresses; [&head_] is 0, and a new snapshot gets the next address. *)
Record SnapshotList := MkSnapshotList { sl_nodes : gmap Z SnapshotImpl; sl_next_address : Z }.

Definition sl_head : Z := 0.

Definition NewSnapshotList : SnapshotList := MkSnapshotList {[sl_head := MkSnapshot sl_head sl_head 0]} 1.

Definition on_node (f : SnapshotImpl -> SnapshotImpl) (a : Z) (l : SnapshotList) : SnapshotList := MkSnapshotList (alter f a (sl_nodes l)) (sl_next_address l).
Definition set_prev (p : Z) (n : SnapshotImpl) : SnapshotImpl := MkSnapshot p (next_ n) (sequence_number_ n).
Definition set_next (x : Z) (n : SnapshotImpl) : SnapshotImpl := MkSnapshot (prev_ n) x (sequence_number_ n).

(** A pointer that is followed; [None] is a pointer to no snapshot. *)
Definition sequence_number (a : Z) (l : SnapshotList) : option Z := sequence_number_ <$> sl_nodes l !! a.
Definition oldest (l : SnapshotList) : option Z := next_ <$> sl_nodes l !! sl_head.
Definition newest_snapshot (l : SnapshotList) : option Z := prev_ <$> sl_nodes l !! sl_head.

Definition empty_list (l : SnapshotList) : option bool := (fun a => a =? sl_head) <$> oldest l.

(** The address of the new snapshot. *)
Definition Snapshot_New (seq : Z) (l : SnapshotList) : option (Z * SnapshotList) :=
  let a := sl_next_address l in
  last ← newest_snapshot l;
  let l := MkSnapshotList (<[a := MkSnapshot last sl_head seq]> (sl_nodes l)) (a + 1) in
  Some (a, on_node (set_prev a) sl_head (on_node (set_next a) last l)).

Definition Snapshot_Delete (a : Z) (l : SnapshotList) : option SnapshotList :=
  n ← sl_nodes l !! a;
  let l := on_node (set_prev (prev_ n)) (next_ n) (on_node (set_next (next_ n)) (prev_ n) l) in
  Some (MkSnapshotList (delete a (sl_nodes l)) (sl_next_address l)).

(** * The sequence that a list stands for *)

(** The nodes of [xs] one behind the other, from the one behind [before] to the one before [after]. *)
Fixpoint linked (nodes : gmap Z SnapshotImpl) (before : Z) (xs : list (Z * Z)) (after : Z) : Prop :=
  match xs with
  | [] => True
  | (a, s) :: xs => nodes !! a = Some (MkSnapshot before (match xs with [] => after | (b, _) :: _ => b end) s) /\ linked nodes a xs after
  end.

(** The addresses and numbers in order. *)
Record represents (l : SnapshotList) (xs : list (Z * Z)) : Prop := {
  sr_head : exists s, sl_nodes l !! sl_head = Some (MkSnapshot (default sl_head (fst <$> last xs)) (default sl_head (fst <$> head xs)) s);
  sr_linked : linked (sl_nodes l) sl_head xs sl_head;
  sr_nodup : NoDup (sl_head :: map fst xs);
  sr_fresh : sl_head < sl_next_address l /\ Forall (fun x => x.1 < sl_next_address l) xs;
}.

(** ** Lemmas *)

Lemma linked_same nodes nodes' before xs after : (forall a, a ∈ map fst xs -> nodes' !! a = nodes !! a) -> linked nodes before xs after -> linked nodes' before xs after.
Proof.
  revert before. induction xs as [|[a s] xs IH]; intros before H; [done|]. cbn [linked]. intros [H1 H2]. split; [rewrite H; [done|left]|].
  apply IH; [|done]. intros b Hb. apply H. by right.
Qed.

(** The address behind a position. *)
Definition first_or (xs : list (Z * Z)) (after : Z) : Z := match xs with [] => after | (b, _) :: _ => b end.
Definition last_or (before : Z) (xs : list (Z * Z)) : Z := match last xs with Some (b, _) => b | None => before end.

Lemma linked_app nodes before xs ys after :
  linked nodes before (xs ++ ys) after <-> linked nodes before xs (first_or ys after) /\ linked nodes (last_or before xs) ys after.
Proof.
  revert before. induction xs as [|[a s] xs IH]; intros before; [unfold last_or; cbn; tauto|]. cbn [app linked]. rewrite IH. destruct xs as [|[b s'] xs]; cbn [app].
  - unfold last_or. cbn. destruct ys as [|[]]; cbn; tauto.
  - unfold last_or. rewrite !last_cons_cons. destruct (last ((b, s') :: xs)) as [[]|] eqn:E; [cbn; tauto|by apply last_None in E].
Qed.

Lemma new_represents : represents NewSnapshotList [].
Proof. split; [exists 0; by vm_compute|done|apply NoDup_singleton|done]. Qed.

Lemma represents_head l xs : represents l xs -> oldest l = Some (first_or xs sl_head) /\ newest_snapshot l = Some (last_or sl_head xs).
Proof.
  intros [(s & H) _ _ _]. unfold oldest, newest_snapshot. rewrite H. cbn. unfold first_or, last_or. split; [by destruct xs as [|[]]|]. by destruct (last xs) as [[]|].
Qed.

Lemma last_or_snoc before xs a s : last_or before (xs ++ [(a, s)]) = a.
Proof. unfold last_or. by rewrite last_snoc. Qed.

Lemma last_or_in before xs : last_or before xs = before /\ xs = [] \/ exists ys s, xs = ys ++ [(last_or before xs, s)].
Proof. destruct xs as [|[a s] xs] using rev_ind; [by left|]. right. rewrite last_or_snoc. by exists xs, s. Qed.

Lemma Snapshot_New_spec l xs seq :
  represents l xs -> exists l', Snapshot_New seq l = Some (sl_next_address l, l') /\ represents l' (xs ++ [(sl_next_address l, seq)]) /\ sl_next_address l' = sl_next_address l + 1.
Proof.
  intros Hr. destruct (represents_head l xs Hr) as [_ Hlast]. destruct Hr as [(s & Hh) Hl Hnd [Hf1 Hf2]]. unfold Snapshot_New. rewrite Hlast. cbn [mbind option_bind]. eexists. split; [reflexivity|]. split; [|done].
  set (a := sl_next_address l) in *. assert (a ∉ sl_head :: map fst xs) as Hni.
  { intros [E|Hin]%elem_of_cons; [unfold sl_head in *; lia|]. apply list_elem_of_fmap in Hin as (x & E & Hx). pose proof (proj1 (Forall_forall _ _) Hf2 x Hx) as Hlt. cbn in E, Hlt. lia. }
  apply not_elem_of_cons in Hni as [Hnh Hnx]. pose proof Hnd as [Hh0 Hnd']%NoDup_cons. split; cbn [on_node sl_nodes sl_next_address].
  - exists s. rewrite last_snoc. cbn [default from_option fmap option_fmap option_map fst]. rewrite lookup_alter_eq. destruct (last_or_in sl_head xs) as [[E ->]|(ys & s' & E)].
    + rewrite E, lookup_alter_eq, lookup_insert_ne by done. rewrite Hh. done.
    + assert (last_or sl_head xs <> sl_head) as Hne. { intros E'. apply Hh0. rewrite E, map_app. apply elem_of_app. right. cbn. rewrite E'. apply list_elem_of_here. }
      rewrite lookup_alter_ne, lookup_insert_ne by done. rewrite Hh. cbn. f_equal. unfold set_prev. cbn. f_equal. destruct xs as [|[]]; [|done]. by destruct ys.
  - apply linked_app. split.
    + destruct (last_or_in sl_head xs) as [[E ->]|(ys & s' & E)]; [done|]. set (b := last_or sl_head xs) in *. rewrite E in Hl, Hnd', Hh0, Hnx |- *.
      apply linked_app in Hl as [Hl1 Hl2]. apply linked_app. rewrite map_app in Hnd', Hnx, Hh0. apply NoDup_app in Hnd' as (_ & Hdis & _). split.
      * cbn [first_or]. eapply linked_same; [|exact Hl1]. intros c Hc. rewrite !lookup_alter_ne, lookup_insert_ne; [done|..].
        -- intros <-. apply Hnx, elem_of_app. by left.
        -- intros <-. apply (Hdis b Hc). apply list_elem_of_here.
        -- intros <-. apply Hh0, elem_of_app. by left.
      * cbn [linked first_or] in Hl2 |- *. destruct Hl2 as [Hl2 _]. split; [|done]. rewrite lookup_alter_ne, lookup_alter_eq, lookup_insert_ne; [by rewrite Hl2|..].
        -- intros <-. apply Hnx, elem_of_app. right. apply list_elem_of_here.
        -- intros E'. apply Hh0, elem_of_app. right. cbn. rewrite E'. apply list_elem_of_here.
    + cbn [linked]. split; [|done]. rewrite !lookup_alter_ne; [by rewrite lookup_insert_eq|..]; [|by intros <-].
      intros E'. destruct (last_or_in sl_head xs) as [[E _]|(ys & s' & E)]; [congruence|]. apply Hnx. rewrite E, map_app. apply elem_of_app. right. cbn. rewrite E'. apply list_elem_of_here.
  - rewrite map_app, app_comm_cons. apply NoDup_app. split; [done|]. split; [|apply NoDup_singleton]. intros c Hc E%list_elem_of_singleton. subst c. apply elem_of_cons in Hc as [|]; done.
  - split; [unfold sl_head in *; lia|]. apply Forall_app. split; [|apply Forall_singleton; cbn; lia]. eapply Forall_impl; [exact Hf2|]. cbn. intros. lia.
Qed.

Lemma Snapshot_Delete_spec l pre a s post : represents l (pre ++ (a, s) :: post) -> exists l', Snapshot_Delete a l = Some l' /\ represents l' (pre ++ post).
Proof.
  intros [(hs & Hh) Hl Hnd [Hf1 Hf2]]. apply linked_app in Hl as [Hl1 [Ha Hl2]]. cbn [first_or] in Hl1. rewrite map_app in Hnd. cbn [map fst] in Hnd. unfold Snapshot_Delete. rewrite Ha. cbn [mbind option_bind prev_ next_].
  eexists. split; [reflexivity|]. fold (first_or post sl_head). set (p := last_or sl_head pre). set (n := first_or post sl_head).
  pose proof Hnd as [Hh0 Hnd']%NoDup_cons. apply NoDup_app in Hnd' as (Hnd1 & Hdis & [Hap Hnd2]%NoDup_cons). apply not_elem_of_app in Hh0 as [Hh1 [Hh2 Hh3]%not_elem_of_cons].
  assert (a ∉ map fst pre) as Hapre by (intros Hc; apply (Hdis a Hc); apply list_elem_of_here).
  assert (p <> a) as Hpa.
  { unfold p. destruct (last_or_in sl_head pre) as [[-> _]|(ys & s' & E)]; [done|]. intros E'. apply Hapre. rewrite E, map_app. apply elem_of_app. right. cbn. rewrite E'. apply list_elem_of_here. }
  assert (n <> a) as Hna. { unfold n. destruct post as [|[b sb] post]; [done|]. cbn. intros ->. apply Hap. apply list_elem_of_here. }
  split; cbn [on_node sl_nodes sl_next_address].
  - exists hs. rewrite lookup_delete_ne by done. destruct (decide (p = sl_head)) as [Ep|Hp], (decide (n = sl_head)) as [En|Hn].
    + rewrite En, Ep, !lookup_alter_eq. rewrite Hh. cbn. unfold set_prev, set_next. cbn. unfold p, n in *. clear -Ep En Hh1 Hh3.
      destruct (last_or_in sl_head pre) as [[_ ->]|(ys & s' & E)]; [|exfalso; apply Hh1; rewrite E, Ep, map_app; apply elem_of_app; right; apply list_elem_of_here].
      destruct post as [|[b sb] post]; [done|]. cbn in En. subst b. exfalso. apply Hh3. apply list_elem_of_here.
    + rewrite lookup_alter_ne by done. rewrite Ep, lookup_alter_eq, Hh. cbn. unfold set_next. cbn. unfold p in Ep. destruct (last_or_in sl_head pre) as [[_ ->]|(ys & s' & E)].
      * by destruct post as [|[b sb] post].
      * exfalso. apply Hh1. rewrite E, Ep, map_app. apply elem_of_app. right. apply list_elem_of_here.
    + rewrite En, lookup_alter_eq, lookup_alter_ne by done. rewrite Hh. cbn. unfold set_prev. cbn. unfold n in En. destruct post as [|[b sb] post]; [|cbn in En; subst b; exfalso; apply Hh3; apply list_elem_of_here].
      rewrite !app_nil_r. f_equal. f_equal.
      * unfold p, last_or. by destruct (last pre) as [[]|].
      * unfold p in Hp. by destruct pre as [|[]].
    + rewrite !lookup_alter_ne by done. rewrite Hh. f_equal. f_equal.
      * unfold n in Hn. destruct post as [|[b sb] post]; [done|]. rewrite !last_app, last_cons_cons. by destruct (last ((b, sb) :: post)) eqn:E.
      * unfold p in Hp. by destruct pre as [|[]].
  - assert (forall c, c <> a -> c <> p -> c <> n -> delete a (alter (set_prev p) n (alter (set_next n) p (sl_nodes l))) !! c = sl_nodes l !! c) as Hother.
    { intros c H1 H2 H3. by rewrite lookup_delete_ne, !lookup_alter_ne. }
    apply linked_app. fold n. fold p. split.
    + destruct (last_or_in sl_head pre) as [[_ ->]|(ys & s' & E)]; [done|]. fold p in E. rewrite E in Hl1, Hh1, Hdis, Hnd1 |- *. rewrite map_app in Hh1, Hdis, Hnd1. apply linked_app in Hl1 as [L1 L2]. apply linked_app. cbn [first_or] in *.
      assert (n ∉ map fst ys ++ [p]) as Hnn.
      { unfold n. destruct post as [|[b sb] post]; [done|]. cbn. intros Hc. apply (Hdis b Hc). right. apply list_elem_of_here. }
      apply NoDup_app in Hnd1 as (_ & Hd1 & _). split.
      * eapply linked_same; [|exact L1]. intros c Hc. apply Hother.
        -- intros ->. apply (Hdis a); [apply elem_of_app; by left|apply list_elem_of_here].
        -- intros ->. apply (Hd1 p Hc). apply list_elem_of_here.
        -- intros ->. apply Hnn, elem_of_app. by left.
      * cbn [linked] in L2 |- *. destruct L2 as [L2 _]. split; [|done]. rewrite lookup_delete_ne by done. rewrite lookup_alter_ne; [by rewrite lookup_alter_eq, L2|]. intros E'. apply Hnn. rewrite E'. apply elem_of_app. right. apply list_elem_of_here.
    + destruct post as [|[b sb] post]; [done|]. cbn [linked first_or] in Hl2, n |- *. destruct Hl2 as [L1 L2]. cbn [map fst] in Hap, Hnd2, Hh3. apply NoDup_cons in Hnd2 as [Hb Hnd2].
      assert (p ∉ b :: map fst post) as Hpn.
      { unfold p. destruct (last_or_in sl_head pre) as [[-> _]|(ys & s' & E)]; [done|]. intros Hc. apply (Hdis (last_or sl_head pre)); [rewrite E, map_app, last_or_snoc; apply elem_of_app; right; apply list_elem_of_here|by right]. }
      apply not_elem_of_cons in Hpn as [Hpb Hpp]. split.
      * unfold n. rewrite lookup_delete_ne by done. rewrite lookup_alter_eq, lookup_alter_ne by done. by rewrite L1.
      * eapply linked_same; [|exact L2]. intros c Hc. apply Hother; [|by intros ->|].
        -- intros ->. apply Hap. by right.
        -- unfold n. by intros ->.
  - rewrite map_app. apply NoDup_cons. split; [apply not_elem_of_app; by split|]. apply NoDup_app. split_and!; [done| |done]. intros c Hc Hc'. apply (Hdis c Hc). by right.
  - split; [done|]. rewrite Forall_app, Forall_cons in Hf2. apply Forall_app. tauto.
Qed.

(** * Sequences of calls *)

Inductive SnapshotOp := OpNew (seq : Z) | OpDelete (a : Z).

Definition snapshot_op (op : SnapshotOp) (l : SnapshotList) : option SnapshotList :=
  match op with OpNew seq => snd <$> Snapshot_New seq l | OpDelete a => Snapshot_Delete a l end.

(** The calls on a sequence of addresses and numbers, with the next address: a snapshot is not older than those before it,
    and only one that is live is released. *)
Definition spec_snapshot (op : SnapshotOp) (st : Z * list (Z * Z)) : option (Z * list (Z * Z)) :=
  let '(next, xs) := st in
  match op with
  | OpNew seq => if forallb (fun x => x.2 <=? seq) xs then Some (next + 1, xs ++ [(next, seq)]) else None
  | OpDelete a => if bool_decide (a ∈ map fst xs) then Some (next, List.filter (fun x => negb (x.1 =? a)) xs) else None
  end.

Fixpoint run_snapshots {S} (f : SnapshotOp -> S -> option S) (ops : list SnapshotOp) (s : S) : option S :=
  match ops with [] => Some s | op :: ops => s ← f op s; run_snapshots f ops s end.

Lemma filter_address pre a s post :
  NoDup (map fst (pre ++ (a, s) :: post)) -> List.filter (fun x : Z * Z => negb (x.1 =? a)) (pre ++ (a, s) :: post) = pre ++ post.
Proof.
  intros Hnd. rewrite map_app in Hnd. apply NoDup_app in Hnd as (_ & Hd & [Hn _]%NoDup_cons). cbn [map fst] in Hd, Hn.
  assert (forall l, a ∉ map fst l -> List.filter (fun x : Z * Z => negb (x.1 =? a)) l = l) as Hk.
  { intros l. induction l as [|[b t] l IH]; [done|]. cbn [map fst]. intros [Hb Hl]%not_elem_of_cons. cbn [List.filter fst]. destruct (Z.eqb_spec b a); [congruence|]. cbn [negb]. by rewrite IH. }
  rewrite List.filter_app. cbn [List.filter fst]. rewrite Z.eqb_refl. cbn [negb]. rewrite !Hk; [done|done|]. intros Hc. apply (Hd a Hc). apply list_elem_of_here.
Qed.

Lemma snapshot_op_spec op l xs st :
  represents l xs -> StronglySorted (fun x y => x.2 <= y.2) xs -> spec_snapshot op (sl_next_address l, xs) = Some st ->
  exists l', snapshot_op op l = Some l' /\ represents l' st.2 /\ sl_next_address l' = st.1 /\ StronglySorted (fun x y : Z * Z => x.2 <= y.2) st.2.
Proof.
  intros Hr Hs. destruct op as [seq|a]; cbn [spec_snapshot snapshot_op].
  - destruct (forallb _ xs) eqn:E; [|done]. intros [= <-]. destruct (Snapshot_New_spec l xs seq Hr) as (l' & -> & Hr' & Hn). exists l'. split_and!; [done..|].
    apply StronglySorted_app_2; [|done|by repeat constructor]. intros x y Hx ->%list_elem_of_singleton. cbn. apply Z.leb_le. rewrite forallb_forall in E. apply E. by apply list_elem_of_In.
  - case_bool_decide as Ha; [|done]. intros [= <-]. cbn [fst snd]. apply list_elem_of_fmap in Ha as ([b s] & -> & (pre & post & ->)%list_elem_of_split). cbn [fst] in *.
    destruct (Snapshot_Delete_spec l pre b s post Hr) as (l' & E & Hr'). rewrite (filter_address pre b s post) by (pose proof (sr_nodup _ _ Hr) as H; by apply NoDup_cons in H as [_ H]).
    exists l'. split_and!; [done|done| |].
    + unfold Snapshot_Delete in E. destruct (sl_nodes l !! b); [|done]. cbn in E. by injection E as <-.
    + apply StronglySorted_app in Hs as (H1 & H2 & H3). apply StronglySorted_inv in H3 as [H3 _]. apply StronglySorted_app_2; [|done|done]. intros x y Hx Hy. apply H1; [done|by right].
Qed.

Lemma run_snapshots_spec ops l xs st :
  represents l xs -> StronglySorted (fun x y => x.2 <= y.2) xs -> run_snapshots spec_snapshot ops (sl_next_address l, xs) = Some st ->
  exists l', run_snapshots snapshot_op ops l = Some l' /\ represents l' st.2 /\ StronglySorted (fun x y : Z * Z => x.2 <= y.2) st.2.
Proof.
  revert l xs. induction ops as [|op ops IH]; intros l xs Hr Hs; cbn [run_snapshots]; [intros [= <-]; by exists l|].
  destruct (spec_snapshot op (sl_next_address l, xs)) as [st1|] eqn:E; [|done]. cbn [mbind option_bind]. destruct (snapshot_op_spec op l xs st1 Hr Hs E) as (l1 & -> & Hr1 & En & Hs1).
  cbn [mbind option_bind]. destruct st1 as [n1 xs1]. cbn [fst snd] in *. subst n1. by apply IH.
Qed.

(** The number that [DoCompactionWork] keeps the entries for: that of the oldest snapshot, or the last one without snapshots. *)
Definition smallest_snapshot (l : SnapshotList) (last_sequence : Z) : option Z :=
  e ← empty_list l;
  if e : bool then Some last_sequence else a ← oldest l; sequence_number a l.

Lemma smallest_snapshot_spec l xs last_sequence :
  represents l xs -> smallest_snapshot l last_sequence = Some (match xs with [] => last_sequence | (_, s) :: _ => s end).
Proof.
  intros Hr. destruct (represents_head l xs Hr) as [Ho _]. unfold smallest_snapshot, empty_list. rewrite Ho. cbn [fmap option_fmap option_map mbind option_bind].
  destruct xs as [|[a s] xs]; cbn [first_or]; [done|]. pose proof (sr_nodup _ _ Hr) as Hnd. cbn [map fst] in Hnd. apply NoDup_cons in Hnd as [[Hn _]%not_elem_of_cons _].
  destruct (Z.eqb_spec a sl_head); [congruence|]. destruct (sr_linked _ _ Hr) as [H _]. unfold sequence_number. by rewrite H.
Qed.

(** C19. The list of snapshots.  After any calls of [New] and [Delete], each of a snapshot that is not older than those before
    it, or of a live one, the circular list holds the live snapshots in the order they were made, whatever was released;
    and what a compaction takes as the smallest snapshot is at most the number of every live one. *)
Theorem snapshot_list_refines ops next xs last_sequence :
  run_snapshots spec_snapshot ops (1, []) = Some (next, xs) ->
  exists l s, run_snapshots snapshot_op ops NewSnapshotList = Some l /\ represents l xs /\ smallest_snapshot l last_sequence = Some s /\
    (forall a t, (a, t) ∈ xs -> sequence_number a l = Some t /\ s <= t) /\ (xs = [] -> s = last_sequence).
Proof.
  intros H. destruct (run_snapshots_spec ops NewSnapshotList [] (next, xs) new_represents ltac:(constructor) H) as (l & E & Hr & Hs). cbn [snd] in *.
  exists l. eexists. split; [done|]. split; [done|]. split; [by apply smallest_snapshot_spec|]. split; [|by intros ->]. intros a t Hin. split.
  - apply list_elem_of_split in Hin as (pre & post & ->). pose proof (sr_linked _ _ Hr) as Hl. apply linked_app in Hl as [_ [Hl _]]. unfold sequence_number. by rewrite Hl.
  - destruct xs as [|[b s] xs]; [by apply elem_of_nil in Hin|]. apply elem_of_cons in Hin as [[= -> ->]|Hin]; [lia|]. apply StronglySorted_inv in Hs as [_ Hs]. exact (proj1 (Forall_forall _ _) Hs _ Hin).
Qed.

(** The first and the third of four snapshots are released. *)
Lemma snapshot_list_refines_witness :
  exists l s, run_snapshots snapshot_op [OpNew 3; OpNew 5; OpNew 5; OpDelete 1; OpNew 8; OpDelete 3] NewSnapshotList = Some l /\ represents l [(2, 5); (4, 8)] /\
    smallest_snapshot l 9 = Some s /\ s <= 5.
Proof.
  destruct (snapshot_list_refines [OpNew 3; OpNew 5; OpNew 5; OpDelete 1; OpNew 8; OpDelete 3] 5 [(2, 5); (4, 8)] 9 ltac:(vm_compute; reflexivity)) as (l & s & E & Hr & Hm & Hall & _).
  exists l, s. split; [exact E|]. split; [exact Hr|]. split; [exact Hm|]. apply (Hall 2 5). apply list_elem_of_here.
Defined.
