(* ===== verification/CompactionVersion.v ===== *)
(** CompactionVersion: what a compaction does to the entries of a store: which entries the loop of [DoCompactionWork]
    (db/db_impl.cc) keeps, and that the version in which the outputs replace the inputs is again one that keeps newer entries
    before older ones, with the same result for every read of a live snapshot. *)

From stdpp Require Import gmap sorting.
From Stdlib Require Import Strings.Byte Strings.String.
From S2P Require Import Prelude Coding Comparator DbFormat Status VersionEdit MemTable Iterator TwoLevelIterator Version VersionSet Compaction Flush InternalIterator.

(** * The entries that are kept *)

Section kept.
(** The smallest snapshot, and whether no level below the outputs has a user key. *)
Context (ss : Z) (base : slice -> bool).

(** An entry is hidden when the one before is of the same user key and every snapshot sees it. *)
Definition hidden (last : option entry) (e : entry) : bool :=
  match last with Some l => bool_decide (e_key l = e_key e) && (e_seq l <=? ss) | None => false end.

Definition dropped (last : option entry) (e : entry) : bool :=
  hidden last e || (bool_decide (e_type e = kTypeDeletion) && (e_seq e <=? ss) && base (e_key e)).

(** The entries behind [last] that are kept. *)
Fixpoint kept_entries (last : option entry) (es : list entry) : list entry :=
  match es with
  | [] => []
  | e :: es => (if dropped last e then [] else [e]) ++ kept_entries (Some e) es
  end.

Lemma kept_sublist last es : kept_entries last es `sublist_of` es.
Proof. revert last. induction es as [|e es IH]; intros last; cbn [kept_entries]; [constructor|]. destruct (dropped last e); cbn [app]; by constructor. Qed.

Lemma kept_app last es es' : kept_entries last (es ++ es') = kept_entries last es ++ kept_entries (match list.last es with Some e => Some e | None => last end) es'.
Proof.
  revert last. induction es as [|e es IH]; intros last; [done|]. cbn [kept_entries app]. rewrite IH, <-app_assoc. f_equal. f_equal. f_equal. destruct es as [|e' es]; [done|].
  rewrite last_cons_cons. by destruct (list.last (e' :: es)) eqn:E; [|apply last_None in E].
Qed.
End kept.

Section order.
Context (ucmp : Comparator) `{!ComparatorLaws any_key ucmp} `{!SeparatorSame any_key ucmp}.

(** Two entries in order, of different numbers when they are of one user key. *)
Definition in_order (a b : entry) : Prop := Compare ucmp (e_key a) (e_key b) < 0 \/ (e_key a = e_key b /\ e_seq b < e_seq a).

Lemma entries_in_order es : entries_ok ucmp es -> seqs_differ es -> StronglySorted in_order es.
Proof.
  intros Hes. pose proof (fun i j a b => entries_lookup_lt ucmp es i j a b Hes) as Hlt. clear Hes. revert Hlt. induction es as [|e es IH]; intros Hlt Hd; [constructor|]. destruct Hd as [Hd1 Hd2].
  constructor; [apply IH; [intros i j a b Hij Ea Eb; apply (Hlt (S i) (S j)); [lia|done|done]|done]|]. apply Forall_forall. intros b [j Hb]%list_elem_of_lookup.
  destruct (Hlt 0%nat (S j) e b ltac:(lia) eq_refl Hb) as [H|[Hk Hs]]; [by left|right]. split; [done|]. pose proof (Hd1 b ltac:(by eapply list_elem_of_lookup_2) Hk). lia.
Qed.

Lemma in_order_same a b : in_order a b -> e_key a = e_key b -> e_seq b < e_seq a.
Proof. intros [H|[_ H]] E; [|done]. rewrite E, (compare_refl (key := any_key)) in H by done. lia. Qed.

Context (ss : Z) (base : slice -> bool).

(** Behind an entry that every snapshot sees, none of its user key is kept. *)
Lemma kept_hidden l es : StronglySorted in_order (l :: es) -> e_seq l <= ss -> forall e, e ∈ kept_entries ss base (Some l) es -> e_key e <> e_key l.
Proof.
  revert l. induction es as [|x es IH]; intros l Hs Hss e; cbn [kept_entries]; [by intros ?%elem_of_nil|]. apply StronglySorted_inv in Hs as [Hs Hall].
  pose proof (proj1 (proj1 (Forall_cons _ _ _) Hall)) as Hlx. destruct (decide (e_key l = e_key x)) as [Hk|Hk].
  - unfold dropped, hidden. rewrite bool_decide_true by done. destruct (Z.leb_spec (e_seq l) ss); [|lia]. cbn [andb orb app]. rewrite Hk. apply (IH x Hs).
    pose proof (in_order_same _ _ Hlx Hk). lia.
  - intros He Hek. assert (e ∈ x :: es) as Hin.
    { apply elem_of_app in He as [He|He]; [destruct (dropped _ _ _ _); [by apply elem_of_nil in He|apply list_elem_of_singleton in He as ->; left]|right]. eapply elem_of_sublist; [exact He|apply kept_sublist]. }
    assert (Compare ucmp (e_key l) (e_key x) < 0) as Hlt by (destruct Hlx as [|[]]; done).
    assert (Compare ucmp (e_key x) (e_key e) <= 0) as Hle.
    { apply elem_of_cons in Hin as [->|Hin]; [rewrite (compare_refl (key := any_key)) by done; lia|]. apply StronglySorted_inv in Hs as [_ Hs].
      destruct (proj1 (Forall_forall _ _) Hs e Hin) as [H|[-> _]]; [lia|]. rewrite (compare_refl (key := any_key)) by done. lia. }
    pose proof (compare_lt_le (key := any_key) (c := ucmp) _ _ _ I I I Hlt Hle) as H. rewrite Hek, (compare_refl (key := any_key)) in H by done. lia.
Qed.

(** Why an entry is dropped. *)
Lemma dropped_why last es e :
  StronglySorted in_order (option_list last ++ es) -> e ∈ es -> e ∉ kept_entries ss base last es ->
  (exists e', e' ∈ option_list last ++ es /\ e_key e' = e_key e /\ e_seq e < e_seq e' <= ss) \/
  (e_type e = kTypeDeletion /\ e_seq e <= ss /\ base (e_key e) = true /\ forall e2, e2 ∈ kept_entries ss base last es -> e_key e2 = e_key e -> e_seq e < e_seq e2).
Proof.
  revert last. induction es as [|x es IH]; intros last Hs He Hn; [by apply elem_of_nil in He|]. cbn [kept_entries] in Hn |- *.
  assert (StronglySorted in_order (x :: es)) as Hs' by (by apply StronglySorted_app_1_r in Hs). apply elem_of_cons in He as [->|He].
  - destruct (dropped ss base last x) eqn:Ed; [|exfalso; apply Hn; left]. cbn [app] in Hn |- *. unfold dropped in Ed. apply orb_true_iff in Ed as [Ed|Ed].
    + left. unfold hidden in Ed. destruct last as [l|]; [|done]. apply andb_true_iff in Ed as [Ek%bool_decide_eq_true El%Z.leb_le]. exists l. split; [left|]. split; [done|]. split; [|done].
      apply in_order_same; [|done]. apply StronglySorted_inv in Hs as [_ Hs]. by apply (proj1 (Forall_cons _ _ _)) in Hs as [Hs _].
    + right. apply andb_true_iff in Ed as [[Et%bool_decide_eq_true Es%Z.leb_le]%andb_true_iff Eb]. split_and!; try done. intros e2 He2 Hk. exfalso.
      by apply (kept_hidden x es Hs' Es e2 He2).
  - apply not_elem_of_app in Hn as [_ Hn]. destruct (IH (Some x) Hs' He Hn) as [(e' & He' & Hk & Hss)|(Ht & Hss & Hb & Hall)].
    + left. exists e'. split; [|done]. apply elem_of_app. by right.
    + right. split_and!; try done. intros e2 [He2|He2]%elem_of_app Hk; [|by apply Hall]. destruct (dropped ss base last x); [by apply elem_of_nil in He2|]. apply list_elem_of_singleton in He2 as ->.
      apply in_order_same; [|done]. apply StronglySorted_inv in Hs' as [_ Hs']. by apply (proj1 (Forall_forall _ _) Hs').
Qed.
End order.

(** * Lists of files and entries *)

Lemma seqs_differ_concat {X} (c : X -> list entry) (l : list X) :
  NoDup l -> (forall x, x ∈ l -> seqs_differ (c x)) ->
  (forall x y a b, x ∈ l -> y ∈ l -> x <> y -> a ∈ c x -> b ∈ c y -> e_key a = e_key b -> e_seq a <> e_seq b) -> seqs_differ (concat (map c l)).
Proof.
  intros Hnd. induction Hnd as [|x l Hx Hnd IH]; intros H1 H2; [done|]. cbn [map concat].
  assert (seqs_differ (concat (map c l))) as Hl. { apply IH; [intros y Hy; apply H1; by right|]. intros y z a b Hy Hz. apply H2; by right. }
  assert (forall a b, a ∈ c x -> b ∈ concat (map c l) -> e_key a = e_key b -> e_seq a <> e_seq b) as Hab.
  { intros a b Ha Hb. apply list_elem_of_In, in_concat in Hb as (k & Hk & Hb). apply in_map_iff in Hk as (y & <- & Hy). apply list_elem_of_In in Hy, Hb.
    apply (H2 x y); [left|by right|by intros ->|done|done]. }
  specialize (H1 x ltac:(left)). clear H2. induction (c x) as [|e es IHe]; [done|]. destruct H1 as [H1 H1']. cbn [app]. split.
  - intros e' [He'|He']%elem_of_app; [by apply H1|]. apply Hab; [left|done].
  - apply IHe; [done|]. intros a b Ha. apply Hab. by right.
Qed.

Lemma seqs_differ_app_inv es es' a b : seqs_differ (es ++ es') -> a ∈ es -> b ∈ es' -> e_key a = e_key b -> e_seq a <> e_seq b.
Proof.
  induction es as [|e es IH]; [intros _ Ha; by apply elem_of_nil in Ha|]. cbn [app]. intros [H1 H2] [->|Ha]%elem_of_cons Hb; [|by apply IH]. apply H1. apply elem_of_app. by right.
Qed.

Lemma seqs_differ_files {X} (c : X -> list entry) (l : list X) x y a b :
  seqs_differ (concat (map c l)) -> x ∈ l -> y ∈ l -> x <> y -> a ∈ c x -> b ∈ c y -> e_key a = e_key b -> e_seq a <> e_seq b.
Proof.
  intros Hd Hx Hy Hne Ha Hb Hk. assert (forall z k, z ∈ k -> forall e, e ∈ c z -> e ∈ concat (map c k)) as Hin.
  { intros z k Hz e He. apply list_elem_of_In, in_concat. exists (c z). split; [apply in_map_iff; exists z; split; [done|]|]; by apply list_elem_of_In. }
  apply list_elem_of_split in Hx as (l1 & l2 & ->). rewrite map_app, concat_app in Hd. cbn [map concat] in Hd. apply elem_of_app in Hy as [Hy|[->|Hy]%elem_of_cons]; [|done|].
  - intros E. apply (seqs_differ_app_inv (concat (map c l1)) (c x ++ concat (map c l2)) b a Hd); [by apply (Hin y)|apply elem_of_app; by left|done|done].
  - assert (seqs_differ (c x ++ concat (map c l2))) as Hd'. { clear -Hd. induction (concat (map c l1)); [done|]. apply IHl. by destruct Hd. }
    apply (seqs_differ_app_inv _ _ a b Hd'); [done|by apply (Hin y)|done].
Qed.

Lemma elem_of_all contents v e : e ∈ all_entries contents v <-> exists l, 0 <= l < kNumLevels /\ e ∈ concat (map contents (level_files v l)).
Proof.
  unfold all_entries, levels_es. rewrite list_elem_of_In, in_concat. split.
  - intros (es & (l & <- & Hl%list_elem_of_In%elem_of_seqZ)%in_map_iff & He). exists l. split; [lia|]. by apply list_elem_of_In.
  - intros (l & Hl & He). eexists. split; [apply in_map_iff; exists l; split; [reflexivity|]|by apply list_elem_of_In]. apply list_elem_of_In, elem_of_seqZ. lia.
Qed.

Lemma entries_ok_sublist ucmp es es' : es `sublist_of` es' -> entries_ok ucmp es' -> entries_ok ucmp es.
Proof.
  intros Hsub [H1 H2]. split; [apply Forall_forall; intros e He; apply (proj1 (Forall_forall _ _) H1); by eapply elem_of_sublist|].
  eapply sublist_sorted; [|exact H2]. exact (fmap_sublist (fun e => (entry_internal_key e, e_value e)) _ _ Hsub).
Qed.

Section files.
Context (ucmp : Comparator) `{!ComparatorLaws any_key ucmp} `{!SeparatorSame any_key ucmp}.

Abbreviation icmp := (InternalKeyComparator ucmp).
Abbreviation user k := (InternalKey_user_key k).
Abbreviation ult a b := (Compare ucmp (user a) (user b) < 0).
Abbreviation before f g := (Compare icmp (rep_ (largest f)) (rep_ (smallest g)) < 0).

(** Files that the builder has put in order are one behind the other when no two of them overlap. *)
Lemma ordered_sorted files :
  ordered ucmp files -> Forall (file_ok ucmp) files -> (forall f g, f ∈ files -> g ∈ files -> f <> g -> before f g \/ before g f) -> sorted_files ucmp files.
Proof.
  intros Ho. induction Ho as [|f files Ho IH Hall]; intros Hok Hcmp; [constructor|]. apply Forall_cons in Hok as [Hf Hok]. constructor; [apply IH; [done|]; intros g h Hg Hh; apply Hcmp; by right|].
  apply Forall_forall. intros g Hg. pose proof (proj1 (Forall_forall _ _) Hall g Hg) as Hfg. apply before_spec in Hfg. pose proof (proj1 (Forall_forall _ _) Hok g Hg) as Hgok.
  pose proof (small_internal ucmp f Hf) as If. pose proof (small_internal ucmp g Hgok) as Ig. destruct (Hcmp f g) as [H|H]; [left|by right| |done|].
  - intros <-. rewrite (compare_refl (key := is_internal_key)) in Hfg by done. lia.
  - exfalso. destruct Hgok as (_ & Gl & Gle). apply valid_internal in Gl.
    assert (Compare icmp (rep_ (smallest g)) (rep_ (smallest g)) < 0) as Hbad.
    { apply (compare_le_lt (key := is_internal_key) _ (rep_ (largest g))); [done..|]. apply (compare_lt_le (key := is_internal_key) _ (rep_ (smallest f))); [done..|lia]. }
    rewrite (compare_refl (key := is_internal_key)) in Hbad by done. lia.
Qed.

Lemma sorted_comparable files f g : sorted_files ucmp files -> f ∈ files -> g ∈ files -> f <> g -> before f g \/ before g f.
Proof.
  intros Hs [i Hf]%list_elem_of_lookup [j Hg]%list_elem_of_lookup Hne. destruct (lt_eq_lt_dec i j) as [[H| ->]|H]; [left|congruence|right]; by eapply (sorted_files_lookup ucmp files).
Qed.

Context (contents : FileMetaData -> list entry) (stored : FileMetaData -> Prop).

(** Entries of one user key in files one behind the other. *)
Lemma before_newer f g a b :
  file_holds ucmp contents stored f -> file_holds ucmp contents stored g -> before f g -> a ∈ contents f -> b ∈ contents g -> e_key a = e_key b -> e_seq b <= e_seq a.
Proof.
  intros Hf Hg Hb Ha Hbb Hk. pose proof (file_after ucmp contents stored f g b Hf Hg Hb Hbb) as H1. destruct Hf as (_ & [Hsf _] & _ & (_ & Hfl & _) & Hfb & _), Hg as (_ & [Hsg _] & _).
  destruct (Hfb a Ha) as [_ H2]. assert (Compare icmp (entry_internal_key a) (entry_internal_key b) < 0) as H.
  { eapply (compare_le_lt (key := is_internal_key)); [apply AppendInternalKey_internal| |apply AppendInternalKey_internal|exact H2|exact H1]. by apply valid_internal. }
  cbn [InternalKeyComparator Compare] in H. unfold entry_internal_key in H. rewrite icmp_parsed in H; [|by apply (proj1 (Forall_forall _ _) Hsf)|by apply (proj1 (Forall_forall _ _) Hsg)].
  cbn [entry_parsed user_key sequence type] in H. rewrite Hk, (compare_refl (key := any_key)) in H by done. intuition lia.
Qed.

Lemma apart_keys f g a b :
  file_holds ucmp contents stored f -> file_holds ucmp contents stored g -> ult (largest f) (smallest g) -> a ∈ contents f -> b ∈ contents g -> e_key a = e_key b -> False.
Proof.
  intros Hf Hg Hu Ha Hb Hk. destruct (file_key_range ucmp contents stored f a Hf Ha) as [_ H1], (file_key_range ucmp contents stored g b Hg Hb) as [H2 _]. rewrite Hk in H1.
  assert (Compare ucmp (e_key b) (e_key b) < 0) as H. { eapply (compare_le_lt (key := any_key)); [done|done|done|exact H1|]. by eapply (compare_lt_le (key := any_key)). }
  rewrite (compare_refl (key := any_key)) in H by done. lia.
Qed.
End files.

(** * The version behind a compaction *)

(** An entry of a level. *)
Definition entry_at (contents : FileMetaData -> list entry) (v : Version) (l : Z) (e : entry) : Prop :=
  0 <= l < kNumLevels /\ e ∈ concat (map contents (level_files v l)).

(** No entry comes up, and one goes down or is gone. *)
Definition sinks (contents : FileMetaData -> list entry) (v : Version) (contents' : FileMetaData -> list entry) (v' : Version) : Prop :=
  (forall l e, entry_at contents' v' l e -> exists l0, l0 <= l /\ entry_at contents v l0 e) /\
  exists l e, entry_at contents v l e /\ forall l', l' <= l -> ~ entry_at contents' v' l' e.

Section compacted.
Context (ucmp : Comparator) `{!ComparatorLaws any_key ucmp} `{!SeparatorSame any_key ucmp}.
Context (contents : FileMetaData -> list entry) (stored : FileMetaData -> Prop) (v : Version) (Hv : version_ok ucmp contents stored v).
Context (L : Z) (HL : 0 <= L < kNumLevels - 1) (inputs0 inputs1 : list FileMetaData) (Hci : compaction_inputs ucmp v L inputs0 inputs1).
(** The version with the outputs, and the contents of its files. *)
Context (contents' : FileMetaData -> list entry) (stored' : FileMetaData -> Prop) (v' : Version) (outs : list FileMetaData).

Abbreviation icmp := (InternalKeyComparator ucmp).
Abbreviation user k := (InternalKey_user_key k).
Abbreviation before f g := (Compare icmp (rep_ (largest f)) (rep_ (smallest g)) < 0).
Abbreviation K := (concat (map contents' outs)).
Abbreviation inputs := (inputs0 ++ inputs1).

(** A file of a level that is not an input. *)
Definition remains (l : Z) (g : FileMetaData) : Prop := g ∈ level_files v l /\ ~ (l = L /\ g ∈ inputs0) /\ ~ (l = L + 1 /\ g ∈ inputs1).

Context (Hold : forall l g, 0 <= l < kNumLevels -> remains l g -> contents' g = contents g).
Context (Hfiles : forall l g, 0 <= l < kNumLevels -> g ∈ level_files v' l <-> remains l g \/ (l = L + 1 /\ g ∈ outs)).
Context (Hordered : forall l, 0 <= l < kNumLevels -> Forall VersionSet.has_key (level_files v' l) /\ ordered ucmp (level_files v' l)).
Context (Hcount : forall l, 0 <= l < kNumLevels -> slen (level_files v' l) < 2 ^ 31).
Context (Hstored : forall l g, 0 <= l < kNumLevels -> g ∈ level_files v' l -> stored' g).
(** The outputs are new files one behind the other, and fit between the files that are left. *)
Context (Houts : Forall (file_holds ucmp contents' stored') outs) (Hsorted : sorted_files ucmp outs).
Context (Hfit : forall f g, f ∈ outs -> remains (L + 1) g -> before f g \/ before g f).
(** They have entries of the inputs only. *)
Context (HK : forall e, e ∈ K -> exists h, h ∈ inputs /\ e ∈ contents h) (HKd : seqs_differ K).

Lemma level_input0 h : h ∈ inputs0 -> h ∈ level_files v L.
Proof. intros H. exact (elem_of_sublist _ _ _ H (ci_from0 _ _ _ _ _ Hci)). Qed.

Lemma level_input1 h : h ∈ inputs1 -> h ∈ level_files v (L + 1).
Proof. intros H. exact (elem_of_sublist _ _ _ H (ci_from1 _ _ _ _ _ Hci)). Qed.

Lemma input_level h : h ∈ inputs -> exists l, (l = L \/ l = L + 1) /\ h ∈ level_files v l /\ ((l = L /\ h ∈ inputs0) \/ (l = L + 1 /\ h ∈ inputs1)).
Proof.
  intros [Hh|Hh]%elem_of_app; [exists L|exists (L + 1)]; (split; [auto|]); (split; [|auto]); [exact (level_input0 h Hh)|exact (level_input1 h Hh)].
Qed.

Lemma holds_v l g : 0 <= l < kNumLevels -> g ∈ level_files v l -> file_holds ucmp contents stored g.
Proof. intros Hl Hg. exact (proj1 (Forall_forall _ _) (vo_files _ _ _ _ Hv l Hl) g Hg). Qed.

Lemma holds_remains l g : 0 <= l < kNumLevels -> remains l g -> file_holds ucmp contents' stored' g.
Proof.
  intros Hl Hg. destruct (holds_v l g Hl (proj1 Hg)) as (_ & H). unfold file_holds. rewrite (Hold l g Hl Hg). split; [|exact H]. apply (Hstored l g Hl). apply Hfiles; [done|by left].
Qed.

(** An entry of a level is of a file that was there, or of an output. *)
Lemma new_entry l e : 0 <= l < kNumLevels -> e ∈ concat (map contents' (level_files v' l)) -> (exists g, remains l g /\ e ∈ contents g) \/ (l = L + 1 /\ e ∈ K).
Proof.
  intros Hl (g & Hg & He)%elem_of_level. apply Hfiles in Hg as [Hg|[-> Hg]]; [|right; split; [done|apply elem_of_level; eauto]|done]. left. exists g. split; [done|]. by rewrite <-(Hold l g Hl Hg).
Qed.

(** On the level of the outputs nothing that is left is of a user key of the first inputs. *)
Lemma next_level_apart g e h e' : remains (L + 1) g -> e ∈ contents g -> h ∈ inputs0 -> e' ∈ contents h -> e_key e = e_key e' -> False.
Proof.
  intros (Hg & _ & Hn1) He Hh He' Hk. pose proof (level_input0 h Hh) as Hhv. pose proof (holds_v (L + 1) g ltac:(lia) Hg) as Gh. pose proof (holds_v L h ltac:(lia) Hhv) as Hh'.
  assert (e_seq e < e_seq e') as Hlt. { apply (vo_older _ _ _ _ Hv L (L + 1) ltac:(lia) ltac:(lia) e' e); [apply elem_of_level; eauto|apply elem_of_level; eauto|done]. }
  assert (h ∈ inputs) as Hin by (apply elem_of_app; by left). destruct (ci_left1 _ _ _ _ _ Hci g Hg ltac:(by intros Hg1; apply Hn1)) as [Hap|Hap].
  - pose proof (before_newer ucmp contents stored g h e e' Gh Hh' (Hap h Hin) He He' Hk). lia.
  - exact (apart_keys ucmp contents stored h g e' e Hh' Gh (Hap h Hin) He' He (eq_sym Hk)).
Qed.

(** What is left on the levels down to the outputs is newer than an entry of the inputs. *)
Lemma left_newer l g e h e' : 0 <= l <= L + 1 -> remains l g -> e ∈ contents g -> h ∈ inputs -> e' ∈ contents h -> e_key e = e_key e' -> e_seq e' < e_seq e.
Proof.
  intros Hl Hr He Hh He' Hk. destruct (input_level h Hh) as (lh & Hlh & Hhv & Hin). destruct (decide (l = L + 1 /\ h ∈ inputs0)) as [[-> Hh0]|Hn].
  { exfalso. by eapply next_level_apart. }
  pose proof Hr as (Hg & Hn0 & Hn1). assert (0 <= l < kNumLevels /\ 0 <= lh < kNumLevels) as [Hlk' Hlk] by lia. pose proof (holds_v l g Hlk' Hg) as Gh. pose proof (holds_v lh h Hlk Hhv) as Hh'.
  destruct (decide (l < lh)) as [Hlt|Hge]; [apply (vo_older _ _ _ _ Hv l lh ltac:(lia) ltac:(lia) e e'); [apply elem_of_level; eauto..|done]|].
  assert (l = lh) as -> by (destruct Hin as [[-> ?]|[-> ?]]; [|lia]; destruct (decide (l = L + 1)); [by destruct Hn|lia]).
  assert (g <> h) as Hne by (intros ->; destruct Hin as [[-> H]|[-> H]]; [by apply Hn0|by apply Hn1]).
  pose proof (seqs_differ_files contents _ g h e e' (vo_differ _ _ _ _ Hv lh Hlk) Hg Hhv Hne He He' Hk) as Hd.
  assert (before g h \/ Compare ucmp (user (largest h)) (user (smallest g)) < 0) as [Hb|Ha].
  { destruct Hin as [[-> H]|[-> H]]; [apply (ci_left0 _ _ _ _ _ Hci h g H Hg); by intros Hg0; apply Hn0|].
    destruct (ci_left1 _ _ _ _ _ Hci g Hg ltac:(by intros Hg1; apply Hn1)) as [Hap|Hap]; [left|right]; by apply Hap. }
  - pose proof (before_newer ucmp contents stored g h e e' Gh Hh' Hb He He' Hk). lia.
  - exfalso. exact (apart_keys ucmp contents stored h g e' e Hh' Gh Ha He' He (eq_sym Hk)).
Qed.

Lemma K_newer l g e e' : 0 <= l <= L + 1 -> remains l g -> e ∈ contents g -> e' ∈ K -> e_key e = e_key e' -> e_seq e' < e_seq e.
Proof. intros Hl Hg He He' Hk. destruct (HK e' He') as (h & Hh & He''). by eapply (left_newer l g e h e'). Qed.

Lemma new_holds l : 0 <= l < kNumLevels -> Forall (file_holds ucmp contents' stored') (level_files v' l).
Proof.
  intros Hl. apply Forall_forall. intros g Hg. apply Hfiles in Hg as [Hg|[_ Hg]]; [by apply (holds_remains l)|exact (proj1 (Forall_forall _ _) Houts g Hg)|done].
Qed.

Lemma new_sorted l : 0 < l < kNumLevels -> sorted_files ucmp (level_files v' l).
Proof.
  intros Hl. apply (ordered_sorted ucmp); [apply Hordered; lia|eapply Forall_impl; [apply new_holds; lia|]; by intros f (_ & _ & _ & ? & _)|].
  intros f g Hf Hg Hne. apply Hfiles in Hf, Hg; [|lia..]. destruct Hf as [Hf|[-> Hf]], Hg as [Hg|[E Hg]].
  - apply (sorted_comparable ucmp (level_files v l)); [by apply (vo_sorted _ _ _ _ Hv)|apply Hf|apply Hg|done].
  - subst l. destruct (Hfit g f Hg Hf); auto.
  - by apply Hfit.
  - by apply (sorted_comparable ucmp outs).
Qed.

Lemma new_nodup l : 0 <= l < kNumLevels -> NoDup (level_files v' l).
Proof. intros Hl. destruct (Hordered l Hl). by apply (ordered_NoDup ucmp). Qed.

Lemma new_differ l : 0 <= l < kNumLevels -> seqs_differ (concat (map contents' (level_files v' l))).
Proof.
  intros Hl. apply seqs_differ_concat; [by apply new_nodup| |].
  - intros g Hg. by destruct (proj1 (Forall_forall _ _) (new_holds l Hl) g Hg) as (_ & _ & ? & _).
  - intros f g a b Hf Hg Hne Ha Hb Hk. apply Hfiles in Hf, Hg; [|done..]. destruct Hf as [Hf|[-> Hf]], Hg as [Hg|[E Hg]].
    + rewrite (Hold l f Hl Hf) in Ha. rewrite (Hold l g Hl Hg) in Hb. apply (seqs_differ_files contents (level_files v l) f g a b); [by apply (vo_differ _ _ _ _ Hv)|apply Hf|apply Hg|done..].
    + subst l. rewrite (Hold _ f Hl Hf) in Ha. assert (b ∈ K) as HbK by (apply elem_of_level; eauto). pose proof (K_newer (L + 1) f a b ltac:(lia) Hf Ha HbK Hk). lia.
    + rewrite (Hold _ g Hl Hg) in Hb. assert (a ∈ K) as HaK by (apply elem_of_level; eauto). pose proof (K_newer (L + 1) g b a ltac:(lia) Hg Hb HaK (eq_sym Hk)). lia.
    + by apply (seqs_differ_files contents' outs f g a b).
Qed.

Lemma new_older i j : 0 <= i < j -> j < kNumLevels -> older (concat (map contents' (level_files v' i))) (concat (map contents' (level_files v' j))).
Proof.
  intros Hi Hj a b Ha Hb Hk. apply new_entry in Ha, Hb; [|lia..]. destruct Ha as [(f & Hf & Ha)|[-> Ha]], Hb as [(g & Hg & Hb)|[E Hb]].
  - apply (vo_older _ _ _ _ Hv i j); [lia|lia|apply elem_of_level; exists f; split; [apply Hf|done]|apply elem_of_level; exists g; split; [apply Hg|done]|done].
  - subst j. by apply (K_newer i f a b); [lia|..].
  - destruct (HK a Ha) as (h & Hh & Ha'). destruct (input_level h Hh) as (lh & Hlh & Hhv & _).
    apply (vo_older _ _ _ _ Hv lh j); [lia|lia|apply elem_of_level; eauto|apply elem_of_level; exists g; split; [apply Hg|done]|done].
  - lia.
Qed.

(** The version with the outputs in the place of the inputs keeps newer entries before older ones. *)
Lemma compacted_version : version_ok ucmp contents' stored' v'.
Proof.
  assert (forall g, g ∈ level_files v' 0 -> remains 0 g) as H0 by (intros g [Hg|[? _]]%Hfiles; [done|lia|lia]).
  split; [apply new_holds|exact Hcount|apply new_sorted| | |apply new_older|apply new_differ].
  - apply NoDup_fmap_2_strong; [|apply new_nodup; lia]. intros f g Hf Hg E. apply H0 in Hf as [Hf _], Hg as [Hg _]. pose proof (vo_numbers _ _ _ _ Hv) as Hn.
    apply list_elem_of_lookup in Hf as [i Hi], Hg as [j Hj]. assert (i = j) as <-; [|congruence].
    apply (NoDup_lookup _ i j (number f) Hn); [by rewrite list_lookup_fmap, Hi|by rewrite list_lookup_fmap, Hj, E].
  - intros f g Hf%H0 Hg%H0 Hn. rewrite (Hold 0 f ltac:(lia) Hf), (Hold 0 g ltac:(lia) Hg). apply (vo_level0 _ _ _ _ Hv); [apply Hf|apply Hg|done].
Qed.
(** An entry that is gone is hidden by another that every live snapshot sees, or is a deletion with nothing below. *)
Definition gone_why (ss : Z) (K : list entry) (e : entry) : Prop :=
  (exists h e', h ∈ inputs /\ e' ∈ contents h /\ e_key e' = e_key e /\ e_seq e < e_seq e' <= ss) \/
  (e_type e = kTypeDeletion /\ e_seq e <= ss /\ (forall l f, L + 1 < l < kNumLevels -> f ∈ level_files v l -> ~ Compaction.has_key ucmp (e_key e) f) /\
   forall e2, e2 ∈ K -> e_key e2 = e_key e -> e_seq e < e_seq e2).

Lemma compacted_sub e : e ∈ all_entries contents' v' -> e ∈ all_entries contents v.
Proof.
  rewrite !elem_of_all. intros (l & Hl & He). apply new_entry in He as [(g & [Hg _] & He)|[_ He]]; [exists l; split; [done|]; apply elem_of_level; eauto| |done].
  destruct (HK e He) as (h & Hh & He'). destruct (input_level h Hh) as (lh & Hlh & Hhv & _). exists lh. split; [lia|]. apply elem_of_level. eauto.
Qed.

Lemma compacted_gone ss e :
  (forall h e, h ∈ inputs -> e ∈ contents h -> e ∉ K -> gone_why ss K e) -> e ∈ all_entries contents v -> e ∉ all_entries contents' v' ->
  (exists e', e' ∈ all_entries contents v /\ e_key e' = e_key e /\ e_seq e < e_seq e' <= ss) \/
  (e_type e = kTypeDeletion /\ e_seq e <= ss /\ forall e2, e2 ∈ all_entries contents' v' -> e_key e2 = e_key e -> e_seq e < e_seq e2).
Proof.
  intros Hwhy He Hn. rewrite elem_of_all in He. destruct He as (l & Hl & (h & Hh & He)%elem_of_level).
  assert (forall l' f, 0 <= l' < kNumLevels -> f ∈ level_files v' l' -> e ∉ contents' f) as Hn'. { intros l' f Hl' Hf He'. apply Hn, elem_of_all. exists l'. split; [done|]. apply elem_of_level. eauto. }
  assert (h ∈ inputs) as Hin.
  { destruct (decide (l = L /\ h ∈ inputs0)) as [[_ H]|H0]; [apply elem_of_app; by left|]. destruct (decide (l = L + 1 /\ h ∈ inputs1)) as [[_ H]|H1]; [apply elem_of_app; by right|].
    assert (remains l h) as Hr by done. exfalso. apply (Hn' l h Hl); [apply Hfiles; [done|by left]|]. by rewrite (Hold l h Hl Hr). }
  assert (e ∉ K) as HnK. { intros (f & Hf & He')%elem_of_level. apply (Hn' (L + 1) f ltac:(lia)); [apply Hfiles; [lia|by right]|done]. }
  destruct (Hwhy h e Hin He HnK) as [(h' & e' & Hh' & He' & Hk & Hs)|(Ht & Hs & Hbase & HnewK)]; [left|right].
  - exists e'. split; [|done]. destruct (input_level h' Hh') as (lh & Hlh & Hhv & _). apply elem_of_all. exists lh. split; [lia|]. apply elem_of_level. eauto.
  - split; [done|]. split; [done|]. intros e2 (l2 & Hl2 & He2)%elem_of_all Hk. apply new_entry in He2 as [(g & Hg & He2)|[_ He2]]; [|by apply HnewK|done].
    destruct (decide (l2 <= L + 1)) as [Hle|Hgt]; [by apply (left_newer l2 g e2 h e); [lia|..]|]. exfalso. apply (Hbase l2 g ltac:(lia) (proj1 Hg)). rewrite <-Hk.
    exact (file_key_range ucmp contents stored g e2 (holds_v l2 g Hl2 (proj1 Hg)) He2).
Qed.

Lemma compacted_sinks : sinks contents v contents' v'.
Proof.
  split.
  - intros l e [Hl He]. apply new_entry in He as [(g & Hg & He)|[-> He]]; [exists l; split; [lia|]; split; [done|]; apply elem_of_level; exists g; split; [apply Hg|done]| |done].
    destruct (HK e He) as (h & Hh & Hin). destruct (input_level h Hh) as (l0 & Hl0 & Hhl & _). exists l0. split; [lia|]. split; [lia|]. apply elem_of_level. by exists h.
  - assert (exists h, h ∈ inputs0) as [h Hh] by (pose proof (ci_some _ _ _ _ _ Hci) as Hsome; clear -Hsome; destruct inputs0 as [|h ins]; [done|]; exists h; left).
    pose proof (level_input0 h Hh) as Hhv. destruct (holds_v L h ltac:(lia) Hhv) as (_ & _ & _ & _ & _ & e & He & _). apply last_Some_elem_of in He.
    exists L, e. split; [split; [lia|]; apply elem_of_level; by exists h|]. intros l' Hle [Hl' Hin]. apply new_entry in Hin as [(g & (Hg & Hn0 & _) & Heg)|[-> _]]; [|lia|done].
    destruct (decide (l' = L)) as [->|Hne].
    + destruct (decide (g = h)) as [->|Hgh]; [by apply Hn0|]. by apply (seqs_differ_files contents _ g h e e (vo_differ _ _ _ _ Hv L ltac:(lia)) Hg Hhv Hgh Heg He eq_refl).
    + pose proof (vo_older _ _ _ _ Hv l' L ltac:(lia) ltac:(lia) e e) as Hold'. assert (e_seq e < e_seq e); [|lia]. apply Hold'; [apply elem_of_level; by exists g|apply elem_of_level; by exists h|done].
Qed.
End compacted.

(** * Reads *)

(** A read at a snapshot that is not older finds the same entry, or nothing where it found a deletion. *)
Lemma newest_compacted u s ss es es' :
  ss <= s -> seqs_differ es -> seqs_differ es' -> (forall e, e ∈ es' -> e ∈ es) ->
  (forall e, e ∈ es -> e ∉ es' -> (exists e', e' ∈ es /\ e_key e' = e_key e /\ e_seq e < e_seq e' <= ss) \/
     (e_type e = kTypeDeletion /\ e_seq e <= ss /\ forall e2, e2 ∈ es' -> e_key e2 = e_key e -> e_seq e < e_seq e2)) ->
  newest u s es' = newest u s es \/ (newest u s es' = None /\ exists e, newest u s es = Some e /\ e_type e = kTypeDeletion).
Proof.
  intros Hs Hd Hd' Hsub Hgone. pose proof (newest_spec u s es) as Hn. destruct (newest u s es) as [e|].
  - destruct Hn as (He & Hv & Hmax). destruct (decide (e ∈ es')) as [Hin|Hout]; [left; apply newest_unique; [done|done|done|intros e' He'; apply Hmax; by apply Hsub]|].
    pose proof (proj1 (visible_true _ _ _) Hv) as [Hk Hle]. destruct (Hgone e He Hout) as [(e' & He' & Hk' & Hlt)|(Ht & _ & Hnew)].
    + pose proof (Hmax e' He' ltac:(apply visible_true; split; [congruence|lia])). lia.
    + right. split; [|eauto]. pose proof (newest_spec u s es') as Hn'. destruct (newest u s es') as [e2|]; [|done]. destruct Hn' as (He2 & Hv2 & _).
      pose proof (proj1 (visible_true _ _ _) Hv2) as [Hk2 _]. pose proof (Hnew e2 He2 ltac:(congruence)). pose proof (Hmax e2 (Hsub e2 He2) Hv2). lia.
  - left. pose proof (newest_spec u s es') as Hn'. destruct (newest u s es') as [e2|]; [|done]. destruct Hn' as (He2 & Hv2 & _). by rewrite (Hn e2 (Hsub e2 He2)) in Hv2.
Qed.
