(* ===== verification/CompactionWork.v ===== *)
(** CompactionWork: the background compaction of db/db_impl.cc: [BackgroundCompaction] with the trivial move,
    [DoCompactionWork] and what it calls, over the choice of the inputs, the merging iterator over them, the table builder
    and the version set.  Every read that a live snapshot can make has the same result behind it. *)

From stdpp Require Import gmap sorting.
From Stdlib Require Import Strings.Byte Strings.String.
From S2P Require Import Prelude Coding Crc32c Comparator DbFormat Status Env FileSystem Filename VersionEdit FilterPolicy FilterBlock SkipList MemTable Format Iterator TwoLevelIterator Version Block Merger TableBuilder Table TableCache VersionSet Compaction Log Manifest Flush InternalIterator DbImpl Snapshot.

(** * Data *)

Record Output := MkOutput { out_number : Z; out_file_size : Z; out_smallest : InternalKey; out_largest : InternalKey }.

(** [outfile] is the file of the builder, and null when there is none; [file_size] has no value before the file is finished. *)
Record CompactionState := MkCompactionState {
  cs_compaction : Compaction;
  cs_smallest_snapshot : Z;
  cs_outputs : list Output;
  cs_builder : option Rep;
  cs_total_bytes : Z;
}.

Definition NewCompactionState (c : Compaction) : CompactionState := MkCompactionState c 0 [] None 0.

Definition set_compaction (c : Compaction) (compact : CompactionState) : CompactionState :=
  let 'MkCompactionState _ s o b t := compact in MkCompactionState c s o b t.
Definition set_smallest_snapshot (s : Z) (compact : CompactionState) : CompactionState :=
  let 'MkCompactionState c _ o b t := compact in MkCompactionState c s o b t.
Definition set_outputs (o : list Output) (compact : CompactionState) : CompactionState :=
  let 'MkCompactionState c s _ b t := compact in MkCompactionState c s o b t.
Definition set_builder (b : option Rep) (compact : CompactionState) : CompactionState :=
  let 'MkCompactionState c s o _ t := compact in MkCompactionState c s o b t.

(** [current_output()] changed. *)
Definition on_current_output (f : Output -> Output) (outputs : list Output) : list Output :=
  alter f (pred (length outputs)) outputs.

Definition set_pending_outputs (p : gset Z) (st : DBState) : DBState :=
  MkDB (db_mem st) (db_imm st) (db_versions st) (db_table_cache st) p (db_logfile_number st) (db_bg_error st) (db_shutting_down st).

(** A call of the builder, on the file with the faults of the environment. *)
Definition builder_call {R} (f : Rep -> R * Rep) (b : Rep) (e : EnvState) : R * Rep * EnvState :=
  let '(r, b) := f (with_file (MkWritableFile (wf_contents (r_file b)) (env_faults e)) (r_status b) (r_offset b) b) in
  (r, b, MkEnv (env_files e) (wf_faults (r_file b))).

(** What the loop of [DoCompactionWork] knows of the last key. *)
Record LastKey := MkLastKey { has_current_user_key : bool; current_user_key : slice; last_sequence_for_key : Z }.

Definition NoLastKey : LastKey := MkLastKey false [] kMaxSequenceNumber.

Section CompactionWork.
Context (extend : Z -> slice -> Z) (snappy : option SnappyLib) (zstd : option ZstdLib).
Context (dbname : slice) (options : Options) (in_scratch : bool) (bcache : option (slice -> option Block)).
Context (ucmp : Comparator) (cmp_name : slice) (max_file_size : Z).

(** * Output files *)

Definition OpenCompactionOutputFile (compact : CompactionState) (st : DBState) : Status * CompactionState * DBState :=
  let '(file_number, vs) := NewFileNumber (db_versions st) in
  let st := set_pending_outputs ({[file_number]} ∪ db_pending_outputs st) (set_version_set vs st) in
  let compact := set_outputs (cs_outputs compact ++ [MkOutput file_number 0 (MkInternalKey []) (MkInternalKey [])]) compact in
  let '(s, file, env) := NewWritableFile (TableFileName dbname file_number) (tc_env (db_table_cache st)) in
  let st := set_table_cache (with_env (fun _ => env) (db_table_cache st)) st in
  (s, set_builder (NewTableBuilder options <$> file) compact, st).

(** There are a builder and an output; [input_status] is that of the input iterator. *)
Definition FinishCompactionOutputFile (compact : CompactionState) (input_status : Status) (st : DBState) : option (Status * CompactionState * DBState) :=
  builder ← cs_builder compact;
  output ← last (cs_outputs compact);
  let output_number := out_number output in
  let current_entries := NumEntries builder in
  let tc := db_table_cache st in
  let builder := with_file (MkWritableFile (wf_contents (r_file builder)) (env_faults (tc_env tc))) (r_status builder) (r_offset builder) builder in
  '(s, builder) ← (if ok input_status then TableBuilder_Finish extend snappy zstd builder else Some (input_status, Abandon builder));
  let current_bytes := FileSize builder in
  let compact :=
    MkCompactionState (cs_compaction compact) (cs_smallest_snapshot compact)
      (on_current_output (fun out => MkOutput (out_number out) current_bytes (out_smallest out) (out_largest out)) (cs_outputs compact))
      None (u64 (cs_total_bytes compact + current_bytes)) in
  let file := r_file builder in
  let '(s, file) := if ok s then WritableFile_Sync file else (s, file) in
  let '(s, file) := if ok s then WritableFile_Close file else (s, file) in
  let tc := with_env (delete_file (TableFileName dbname output_number) file) tc in
  '(s, tc) ← (if ok s && (0 <? current_entries) then
                '(it, tc) ← TableCache_NewIterator extend snappy zstd dbname options in_scratch output_number current_bytes tc;
                Some (TableIterator_status extend snappy zstd bcache it, tc)
              else Some (s, tc));
  Some (s, compact, set_table_cache tc st).

(** * The loop *)

(** Whether an entry is dropped, and what is known behind it. *)
Definition drop_entry (smallest_snapshot : Z) (key : slice) (lk : LastKey) (c : Compaction) : option (bool * LastKey * Compaction) :=
  match ParseInternalKey key with
  | None => Some (false, NoLastKey, c)
  | Some ikey =>
      let lk :=
        if negb (has_current_user_key lk) || negb (Compare ucmp (user_key ikey) (current_user_key lk) =? 0)
        then MkLastKey true (user_key ikey) kMaxSequenceNumber else lk in
      '(drop, c) ←
        (if last_sequence_for_key lk <=? smallest_snapshot then Some (true, c)
         else if bool_decide (type ikey = kTypeDeletion) && (sequence ikey <=? smallest_snapshot) then IsBaseLevelForKey ucmp (user_key ikey) c
         else Some (false, c));
      Some (drop, MkLastKey true (current_user_key lk) (sequence ikey), c)
  end.

(** An entry that is not dropped goes to the output. *)
Definition add_to_output (key value : slice) (input_status : Status) (compact : CompactionState) (st : DBState) : option (Status * CompactionState * DBState) :=
  let '(s, compact, st) := match cs_builder compact with None => OpenCompactionOutputFile compact st | Some _ => (OK, compact, st) end in
  if negb (ok s) then Some (s, compact, st)
  else
    builder ← cs_builder compact;
    let k := fst (InternalKey_DecodeFrom key) in
    let outputs := if NumEntries builder =? 0 then on_current_output (fun out => MkOutput (out_number out) (out_file_size out) k (out_largest out)) (cs_outputs compact)
                   else cs_outputs compact in
    let outputs := on_current_output (fun out => MkOutput (out_number out) (out_file_size out) (out_smallest out) k) outputs in
    let '(_, builder, env) := builder_call (fun b => (tt, TableBuilder_Add extend snappy zstd key value b)) builder (tc_env (db_table_cache st)) in
    let compact := set_builder (Some builder) (set_outputs outputs compact) in
    let st := set_table_cache (with_env (fun _ => env) (db_table_cache st)) st in
    if c_max_output_file_size (cs_compaction compact) <=? FileSize builder then FinishCompactionOutputFile compact input_status st
    else Some (OK, compact, st).

Section loop.
(** The input iterator, and what the other threads do to the state while the mutex is released, in every iteration. *)
Context {A : Type} (ops : IterOps A) (others : nat -> DBState -> DBState).

(** One iteration: [None] for the state to go on with is a [break]. *)
Definition compaction_step (compact : CompactionState) (lk : LastKey) (input : A) (st : DBState) :
    option (Status * CompactionState * DBState * option (LastKey * A)) :=
  st ← (if bool_decide (db_imm st = None) then Some st
        else CompactMemTable extend snappy zstd dbname options in_scratch bcache ucmp cmp_name max_file_size st);
  let key := i_key ops input in
  let '(stop, c) := ShouldStopBefore ucmp max_file_size key (cs_compaction compact) in
  let compact := set_compaction c compact in
  '(s, compact, st) ← (if stop && negb (bool_decide (cs_builder compact = None)) then FinishCompactionOutputFile compact (i_status ops input) st
                       else Some (OK, compact, st));
  if negb (ok s) then Some (s, compact, st, None)
  else
    '(drop, lk, c) ← drop_entry (cs_smallest_snapshot compact) key lk (cs_compaction compact);
    let compact := set_compaction c compact in
    '(s, compact, st) ← (if drop : bool then Some (OK, compact, st)
                         else value ← i_value ops input; add_to_output key value (i_status ops input) compact st);
    if negb (ok s) then Some (s, compact, st, None)
    else input ← i_Next ops input; Some (OK, compact, st, Some (lk, input)).

(** The iterations from number [i] on, with a bound of the entries that are left. *)
Fixpoint compaction_loop (fuel i : nat) (compact : CompactionState) (lk : LastKey) (input : A) (st : DBState) :
    option (Status * CompactionState * A * DBState) :=
  let st := others i st in
  if i_Valid ops input && negb (db_shutting_down st) then
    match fuel with
    | O => None
    | S fuel =>
        '(s, compact, st, next) ← compaction_step compact lk input st;
        match next with
        | Some (lk, input) => compaction_loop fuel (S i) compact lk input st
        | None => Some (s, compact, input, st)
        end
    end
  else Some (OK, compact, input, st).
End loop.

(** * [DBImpl::DoCompactionWork] *)

(** [*edit] is that of the compaction. *)
Definition InstallCompactionResults (compact : CompactionState) (st : DBState) : Status * CompactionState * DBState :=
  let c := cs_compaction compact in
  let edit := AddInputDeletions c (c_edit c) in
  let edit := foldl (fun edit out => AddFile (c_level c + 1) (out_number out) (out_file_size out) (out_smallest out) (out_largest out) edit) edit (cs_outputs compact) in
  let '(s, edit, vs, env) := LogAndApply ucmp cmp_name extend dbname edit (db_versions st) (tc_env (db_table_cache st)) in
  (s, set_compaction (set_edit edit c) compact, set_table_cache (with_env (fun _ => env) (db_table_cache st)) (set_version_set vs st)).

(** What is done behind the loop.  The statistics are not kept. *)
Definition finish_work {A} (ops : IterOps A) (s : Status) (compact : CompactionState) (input : A) (st : DBState) : option (Status * CompactionState * DBState) :=
  let s := if ok s && db_shutting_down st then IOError (lit "Deleting DB during compaction") [] else s in
  '(s, compact, st) ← (if ok s && negb (bool_decide (cs_builder compact = None)) then FinishCompactionOutputFile compact (i_status ops input) st
                       else Some (s, compact, st));
  let s := if ok s then i_status ops input else s in
  let '(s, compact, st) := if ok s then InstallCompactionResults compact st else (s, compact, st) in
  Some (s, compact, if ok s then st else RecordBackgroundError s st).

Abbreviation input_ops := (Merged_ops (child_ops extend snappy zstd dbname options in_scratch bcache ucmp (input_read_options options)) (InternalKeyComparator ucmp)).

Definition DoCompactionWork (others : nat -> DBState -> DBState) (fuel : nat) (snapshots : SnapshotList) (compact : CompactionState) (st : DBState) :
    option (Status * CompactionState * DBState) :=
  seq ← smallest_snapshot snapshots (vs_last_sequence (db_versions st));
  let compact := set_smallest_snapshot seq compact in
  '(input, tc) ← MakeInputIterator extend snappy zstd dbname options in_scratch bcache ucmp (cs_compaction compact) (db_table_cache st);
  let st := set_table_cache tc st in
  input ← i_SeekToFirst input_ops input;
  '(s, compact, input, st) ← compaction_loop input_ops others fuel 0 compact NoLastKey input st;
  finish_work input_ops s compact input st.

(** The file of a builder that was left open is closed. *)
Definition CleanupCompaction (compact : CompactionState) (st : DBState) : DBState :=
  let st :=
    match cs_builder compact, last (cs_outputs compact) with
    | Some builder, Some out =>
        let tc := db_table_cache st in
        set_table_cache (with_env (delete_file (TableFileName dbname (out_number out)) (MkWritableFile (wf_contents (r_file (Abandon builder))) (env_faults (tc_env tc)))) tc) st
    | _, _ => st
    end in
  set_pending_outputs (db_pending_outputs st ∖ list_to_set (map out_number (cs_outputs compact))) st.

(** * [DBImpl::BackgroundCompaction] *)

(** [tmp_storage] is where [begin] points to when it is moved. *)
Record ManualCompaction := MkManual { m_level : Z; m_done : bool; m_begin : option InternalKey; m_end : option InternalKey }.

(** The members that the background work uses besides those of [DBState]. *)
Record Background := MkBackground {
  bg_db : DBState;
  bg_snapshots : SnapshotList;
  bg_manual : option ManualCompaction;
  bg_scheduled : bool;
}.

Definition set_db (st : DBState) (bg : Background) : Background := MkBackground st (bg_snapshots bg) (bg_manual bg) (bg_scheduled bg).

(** The file moves to the next level. *)
Definition trivial_move (c : Compaction) (st : DBState) : option (Status * Compaction * DBState) :=
  f ← head (c_inputs0 c);
  let edit := VersionEdit.RemoveFile (c_level c) (number f) (c_edit c) in
  let edit := AddFile (c_level c + 1) (number f) (file_size f) (smallest f) (largest f) edit in
  let '(s, edit, vs, env) := LogAndApply ucmp cmp_name extend dbname edit (db_versions st) (tc_env (db_table_cache st)) in
  let st := set_table_cache (with_env (fun _ => env) (db_table_cache st)) (set_version_set vs st) in
  Some (s, set_edit edit c, if ok s then st else RecordBackgroundError s st).

(** The compaction [c] that was chosen; it ends with its reference to the version. *)
Definition run_compaction (others : nat -> DBState -> DBState) (fuel : nat) (is_manual : bool) (snapshots : SnapshotList) (c : Compaction) (st : DBState) :
    option (Status * DBState) :=
  if negb is_manual && IsTrivialMove max_file_size c then
    '(s, c, st) ← trivial_move c st;
    Some (s, set_version_set (ReleaseInputs c (db_versions st)).2 st)
  else
    '(s, compact, st) ← DoCompactionWork others fuel snapshots (NewCompactionState c) st;
    let st := if ok s then st else RecordBackgroundError s st in
    let st := CleanupCompaction compact st in
    let st := set_version_set (ReleaseInputs (cs_compaction compact) (db_versions st)).2 st in
    Some (s, RemoveObsoleteFiles dbname st).

(** The state, and the manual compaction as the thread that waits for it finds it. *)
Definition BackgroundCompaction (others : nat -> DBState -> DBState) (fuel : nat) (bg : Background) : option (Background * option ManualCompaction) :=
  let st := bg_db bg in
  if negb (bool_decide (db_imm st = None)) then
    st ← CompactMemTable extend snappy zstd dbname options in_scratch bcache ucmp cmp_name max_file_size st;
    Some (set_db st bg, bg_manual bg)
  else
    let is_manual := negb (bool_decide (bg_manual bg = None)) in
    '(c, vs) ← match bg_manual bg with
               | Some m => CompactRange ucmp max_file_size (m_level m) (m_begin m) (m_end m) (db_versions st)
               | None => PickCompaction ucmp max_file_size (db_versions st)
               end;
    let st := set_version_set vs st in
    manual_end ← match c with Some c => largest <$> last (c_inputs0 c) | None => Some (MkInternalKey []) end;
    '(s, st) ← match c with
               | None => Some (OK, st)
               | Some c => run_compaction others fuel is_manual (bg_snapshots bg) c st
               end;
    let manual :=
      (fun m =>
         let done := bool_decide (c = None) || negb (ok s) in
         MkManual (m_level m) done (if done then m_begin m else Some manual_end) (m_end m)) <$> bg_manual bg in
    Some (MkBackground st (bg_snapshots bg) None (bg_scheduled bg), manual).
End CompactionWork.
