(* ===== verification/CompactionLoop.v ===== *)
(** CompactionLoop: the loop of [DBImpl::DoCompactionWork] (db/db_impl.cc) as it runs when no other thread interferes and the
    environment has no faults: the outputs are tables of the entries that are kept, in order. *)

From stdpp Require Import gmap sorting.
From Stdlib Require Import Strings.Byte Strings.String.
From S2P Require Import Prelude Coding Crc32c Comparator DbFormat Status Env FileSystem Filename VersionEdit FilterPolicy FilterBlock SkipList MemTable Format Iterator TwoLevelIterator Version Block Merger TableBuilder Table TableCache VersionSet Compaction Log Manifest Flush InternalIterator DbImpl Snapshot CompactionVersion CompactionWork.

(** * Keys and numbers *)

Definition first_key (es : list entry) : InternalKey := MkInternalKey (default [] (entry_internal_key <$> head es)).
Definition last_key (es : list entry) : InternalKey := MkInternalKey (default [] (entry_internal_key <$> last es)).

Lemma last_key_snoc es e : last_key (es ++ [e]) = MkInternalKey (entry_internal_key e).
Proof. unfold last_key. by rewrite last_snoc. Qed.

Lemma first_key_snoc es e : es <> [] -> first_key (es ++ [e]) = first_key es.
Proof. by destruct es. Qed.

Lemma set_next_twice n n' vs : set_next_file_number n (set_next_file_number n' vs) = set_next_file_number n vs.
Proof. by destruct vs. Qed.

Lemma set_next_fields n vs : vs_next_file_number (set_next_file_number n vs) = n /\ current (set_next_file_number n vs) = current vs.
Proof. by destruct vs. Qed.

Lemma with_file_id b : wf_faults (r_file b) = [] -> with_file (MkWritableFile (wf_contents (r_file b)) []) (r_status b) (r_offset b) b = b.
Proof. destruct b as [? f ? ? ? ? ? ? ? ? ? ?], f as [c faults]. cbn. by intros ->. Qed.

Section outputs.
Context (extend : Z -> slice -> Z) `{!Checksum extend} (snappy : option SnappyLib) (zstd : option ZstdLib).
Context (dbname : slice) (in_scratch reuse_logs : bool).
Context (ucmp : Comparator) `{!ComparatorLaws any_key ucmp} `{!SeparatorSame any_key ucmp} (cmp_name : slice) (Hname : is_u32 (slen cmp_name)) (max_file_size : Z).
Context (o : Options) (Ho : opt_comparator o = InternalKeyComparator ucmp).

Abbreviation input_ok es := (table_input extend snappy zstd o is_internal_key (table_of es)).
Abbreviation builder es := (table_builder extend snappy zstd o (table_of es)).
Abbreviation reachable := (reachable ucmp cmp_name extend dbname max_file_size reuse_logs).
Abbreviation tname n := (TableFileName dbname n).

(** ** The builder *)

(** The bytes of the table of some entries. *)
Definition bytes_of (es : list entry) : slice :=
  match TableBuilder_Finish extend snappy zstd (builder es) with Some (_, r) => wf_contents (r_file r) | None => [] end.

Lemma bytes_of_spec es : input_ok es ->
  table_bytes_of extend snappy zstd o (table_of es) (bytes_of es) /\ 0 < slen (bytes_of es) < 2 ^ 64 /\
  exists r, TableBuilder_Finish extend snappy zstd (builder es) = Some (OK, r) /\ r_file r = MkWritableFile (bytes_of es) [] /\ FileSize r = slen (bytes_of es).
Proof.
  intros Hin. assert (ComparatorLaws is_internal_key (opt_comparator o)) as HL by (rewrite Ho; apply _).
  destruct (finished_file extend snappy zstd o is_internal_key (table_of es) Hin) as (r & c & Er & Ef & Es & Hc). unfold bytes_of, table_bytes_of. rewrite Er, Ef. cbn [wf_contents].
  split; [by exists r; rewrite Ef|]. split; [|by exists r]. split; [done|]. destruct Hin as [_ _ _ _ _ _ (_ & _ & _ & _ & Hsz)]. rewrite Er, Ef in Hsz. exact Hsz.
Qed.

Lemma builder_facts es : es = [] \/ input_ok es -> wf_faults (r_file (builder es)) = [] /\ NumEntries (builder es) = slen es.
Proof.
  intros Hin. destruct Hin as [->|Hin].
  { unfold NumEntries, table_builder, NewTableBuilder, on_filter. cbn [table_of map add_entries foldl]. by repeat case_match. }
  assert (ComparatorLaws is_internal_key (opt_comparator o)) as HL by (rewrite Ho; apply _). destruct Hin as [Hsn Hzs Hint Hpol Hk Hs (Hef & _)].
  set (n := Z.to_nat (opt_block_restart_interval o)). assert (builder_state extend snappy zstd o n is_internal_key (builder es) (table_of es)) as Hst.
  { apply (add_entries_state extend snappy zstd o n) with (es0 := []); try done; [unfold n; lia|unfold n; lia|]. apply NewTableBuilder_state; unfold n; lia. }
  destruct Hst as (bs0 & pend & cur & ies & [_ -> _ _ _ _ _ _ _ _ _ _ _ _ _ _] & _ & _ & _ & _ & Hnum & _). split; [done|]. unfold NumEntries. rewrite Hnum. unfold table_of. by rewrite length_map.
Qed.

Lemma builder_snoc es e : TableBuilder_Add extend snappy zstd (entry_internal_key e) (e_value e) (builder es) = builder (es ++ [e]).
Proof. unfold table_builder, add_entries, table_of. by rewrite map_app, foldl_app. Qed.

(** ** The outputs *)

Definition finished (n : Z) (es : list entry) : Output := MkOutput n (slen (bytes_of es)) (first_key es) (last_key es).
Definition finished_outputs (n0 : Z) (chunks : list (list entry)) : list Output := imap (fun i es => finished (n0 + Z.of_nat i) es) chunks.
Definition open_output (n : Z) (cur : option (list entry)) : list Output :=
  match cur with Some es => [MkOutput n 0 (first_key es) (last_key es)] | None => [] end.

Lemma finished_snoc n0 chunks es : finished_outputs n0 (chunks ++ [es]) = finished_outputs n0 chunks ++ [finished (n0 + slen chunks) es].
Proof. unfold finished_outputs. rewrite imap_app. cbn [imap]. by rewrite Nat.add_0_r. Qed.

Lemma length_finished n0 chunks : length (finished_outputs n0 chunks) = length chunks.
Proof. apply length_imap. Qed.

Lemma on_current_snoc f outputs out : on_current_output f (outputs ++ [out]) = outputs ++ [f out].
Proof. unfold on_current_output. rewrite length_app. cbn [length]. rewrite Nat.add_1_r. cbn [Nat.pred]. by rewrite alter_app_r_alt, Nat.sub_diag by lia. Qed.

(** A table that was just written is opened to check it. *)
Lemma open_new_table es m tc :
  input_ok es -> env_faults (tc_env tc) = [] -> env_files (tc_env tc) !! tname m = Some (bytes_of es) -> tc_cache tc !! EncodeFixed64 m = None ->
  exists it tc' t id, TableCache_NewIterator extend snappy zstd dbname o in_scratch m (slen (bytes_of es)) tc = Some (it, tc') /\
    TableIterator_status extend snappy zstd None it = OK /\ tc_env tc' = tc_env tc /\ tc_cache tc' = <[EncodeFixed64 m := t]> (tc_cache tc) /\
    opened extend snappy zstd o (table_of es) in_scratch id t.
Proof.
  intros Hin Hf Hfile Hc. destruct tc as [[files faults] cache id]. cbn [tc_env env_faults env_files tc_cache] in *. subst faults.
  assert (ComparatorLaws is_internal_key (opt_comparator o)) as HL by (rewrite Ho; apply _). destruct (bytes_of_spec es Hin) as (_ & _ & r & Er & Ef & _).
  destruct (opened_table extend snappy zstd o is_internal_key (table_of es) Hin in_scratch id) as (bs & ies & _ & _ & _ & _ & Hop & _).
  pose proof Hop as (r' & Er' & Et'). rewrite Er in Er'. injection Er' as <-. cbv zeta in Et'. rewrite Ef in Et'. cbn [wf_contents] in Et'.
  destruct (opened_iterator extend snappy zstd o is_internal_key (table_of es) Hin in_scratch id _ None DefaultReadOptions Hop ltac:(done)) as (tpos & HL' & Htp).
  unfold TableCache_NewIterator, FindTable. cbn [tc_cache tc_env tc_next_id]. rewrite Hc. unfold NewRandomAccessFile, NewSequentialFile. cbn [next_fault env_faults env_files]. rewrite Hfile.
  cbn [fmap option_fmap option_map]. rewrite ok_OK. cbn [negb]. rewrite Et'. cbn [mbind option_bind]. rewrite ok_OK. eexists _, _, _, id. split; [reflexivity|].
  split; [cbn [TableIterator_status]; exact (pos_status _ _ Htp)|]. split; [done|]. split; [reflexivity|exact Hop].
Qed.

(** ** What the loop has done *)

Context (used : list (Z * Z)) (st0 : DBState).

Abbreviation n0 := (vs_next_file_number (db_versions st0)).
Abbreviation tc0 := (db_table_cache st0).
Abbreviation files st := (env_files (tc_env (db_table_cache st))).

Context (Hn0 : 0 <= n0) (Huncached : forall n, n0 <= n -> is_u64 n -> tc_cache tc0 !! EncodeFixed64 n = None).

(** From [st0] on, the [chunks] are finished tables and [cur] are the entries of the open one. *)
Record progress (chunks : list (list entry)) (cur : option (list entry)) (compact : CompactionState) (st : DBState) : Prop := {
  pg_chunks : Forall (fun es => es <> [] /\ input_ok es) chunks;
  pg_cur es : cur = Some es -> es = [] \/ input_ok es;
  pg_rest : st = MkDB (db_mem st0) (db_imm st0) (db_versions st) (db_table_cache st) (db_pending_outputs st) (db_logfile_number st0) (db_bg_error st0) (db_shutting_down st0);
  pg_versions : db_versions st = set_next_file_number (n0 + slen (cs_outputs compact)) (db_versions st0);
  pg_reachable : reachable used (db_versions st) (tc_env (db_table_cache st));
  pg_outputs : cs_outputs compact = finished_outputs n0 chunks ++ open_output (n0 + slen chunks) cur;
  pg_builder : cs_builder compact = (fun es => builder es) <$> cur;
  pg_old m : is_u64 m -> m < n0 -> files st !! tname m = files st0 !! tname m;
  pg_new i es : chunks !! i = Some es -> files st !! tname (n0 + Z.of_nat i) = Some (bytes_of es);
  pg_cache k t : tc_cache (db_table_cache st) !! k = Some t -> tc_cache tc0 !! k = Some t \/
    exists i es id, chunks !! i = Some es /\ k = EncodeFixed64 (n0 + Z.of_nat i) /\ opened extend snappy zstd o (table_of es) in_scratch id t;
  pg_logs : logs_same extend dbname reuse_logs ucmp cmp_name max_file_size (tc_env tc0) (tc_env (db_table_cache st));
}.

Lemma tname_inj m n : is_u64 m -> is_u64 n -> tname m = tname n -> m = n.
Proof. intros Hm Hn E. pose proof (named_table dbname m Hm) as Ht. rewrite E in Ht. by destruct (named_inj _ _ _ _ _ _ Ht (named_table dbname n Hn)). Qed.

Lemma length_outputs chunks cur compact st : progress chunks cur compact st -> slen (cs_outputs compact) = slen chunks + (if cur is Some _ then 1 else 0).
Proof. intros H. rewrite (pg_outputs _ _ _ _ H), length_app, length_finished. destruct cur; cbn [open_output length]; lia. Qed.

Lemma progress_numbers chunks cur compact st : progress chunks cur compact st -> n0 + slen (cs_outputs compact) + 1 < 2 ^ 64 /\ env_faults (tc_env (db_table_cache st)) = [].
Proof.
  intros H. destruct (reachable_state _ _ _ _ _ _ Hname _ _ _ (pg_reachable _ _ _ _ H)) as (Hf & _ & Hmax & _). rewrite (pg_versions _ _ _ _ H) in Hmax.
  destruct (set_next_fields (n0 + slen (cs_outputs compact)) (db_versions st0)) as [E _]. by rewrite E in Hmax.
Qed.

(** The number of the open table. *)
Lemma open_number chunks cur compact st : progress chunks (Some cur) compact st ->
  is_u64 (n0 + slen chunks) /\ tc_cache (db_table_cache st) !! EncodeFixed64 (n0 + slen chunks) = None.
Proof.
  intros H. destruct (progress_numbers _ _ _ _ H) as [Hmax _]. rewrite (length_outputs _ _ _ _ H) in Hmax.
  assert (is_u64 (n0 + slen chunks)) as Hu by (unfold in_u; lia). split; [done|]. destruct (tc_cache _ !! _) as [t|] eqn:E; [|done]. exfalso.
  destruct (pg_cache _ _ _ _ H _ _ E) as [E0|(i & es & id & Ei & Ek & _)]; [rewrite Huncached in E0; [done|lia|done]|].
  apply lookup_lt_Some in Ei. apply EncodeFixed64_inj in Ek; [lia|done|unfold in_u in *; lia].
Qed.

(** The table of the open output is finished. *)
Lemma Finish_output chunks cur compact st :
  progress chunks (Some cur) compact st -> cur <> [] ->
  exists compact' st', FinishCompactionOutputFile extend snappy zstd dbname o in_scratch None compact OK st = Some (OK, compact', st') /\
    progress (chunks ++ [cur]) None compact' st' /\ cs_compaction compact' = cs_compaction compact /\ cs_smallest_snapshot compact' = cs_smallest_snapshot compact.
Proof.
  intros H Hne. destruct (open_number _ _ _ _ H) as [Hu Hc]. destruct (progress_numbers _ _ _ _ H) as [Hmax Hf]. pose proof (pg_outputs _ _ _ _ H) as Eo. pose proof (length_outputs _ _ _ _ H) as Elen.
  destruct (pg_cur _ _ _ _ H cur eq_refl) as [?|Hin]; [done|]. cbn [open_output] in Eo. pose proof (pg_builder _ _ _ _ H) as Eb. cbn [fmap option_fmap option_map] in Eb.
  destruct (builder_facts cur ltac:(by right)) as [Hbf Hnum]. destruct (bytes_of_spec cur Hin) as (Hb & Hsz & r & Er & Ef & Es).
  unfold FinishCompactionOutputFile. rewrite Eb, Eo, last_snoc. cbn [mbind option_bind out_number]. rewrite Hf, with_file_id by done. rewrite ok_OK, Er. cbn [mbind option_bind].
  rewrite ok_OK, Ef, Es. cbn [WritableFile_Sync WritableFile_Flush wf_faults]. rewrite ok_OK. cbn [WritableFile_Close WritableFile_Flush wf_faults]. rewrite ok_OK, Hnum.
  rewrite (proj2 (Z.ltb_lt _ _)) by (destruct cur; [done|cbn [length]; lia]). cbn [andb].
  set (tc1 := with_env _ (db_table_cache st)). destruct (open_new_table cur (n0 + slen chunks) tc1 Hin eq_refl (lookup_insert_eq _ _ _) Hc) as (it & tc' & t & id & -> & Hs & Eenv & Ecache & Hop).
  cbn [mbind option_bind]. rewrite Hs, on_current_snoc. eexists _, _. split; [reflexivity|]. split; [|done]. cbn [out_number out_file_size out_smallest out_largest].
  assert (forall m, is_u64 m -> m <> n0 + slen chunks -> env_files (tc_env tc1) !! tname m = files st !! tname m) as Hother.
  { intros m Hm Hd. apply lookup_insert_ne. intros E. apply tname_inj in E; [lia|done|done]. }
  split; cbn [cs_outputs cs_builder db_versions db_table_cache set_table_cache]; rewrite ?Eenv.
  - apply Forall_app. split; [apply H|by constructor].
  - done.
  - rewrite (pg_rest _ _ _ _ H) at 1. done.
  - rewrite (pg_versions _ _ _ _ H). by rewrite Eo, !length_app.
  - apply (reachable_table extend dbname reuse_logs ucmp cmp_name Hname max_file_size used _ (tc_env (db_table_cache st)) _ (n0 + slen chunks) (bytes_of cur)); [apply H|done|done|done].
  - cbn [open_output]. rewrite app_nil_r, finished_snoc. done.
  - done.
  - intros m Hm Hlt. rewrite Hother by (done || lia). by apply (pg_old _ _ _ _ H).
  - intros i es [Hi|[Hi Hes]]%lookup_snoc_Some; [|].
    + destruct Hi as [Hi Hes]. rewrite Hother by (unfold in_u in *; lia). by apply (pg_new _ _ _ _ H).
    + subst. apply lookup_insert_eq.
  - intros k t'. rewrite Ecache. intros [[<- <-]|[_ Ht']]%lookup_insert_Some.
    + right. exists (length chunks), cur, id. split; [|done]. by rewrite lookup_app_r, Nat.sub_diag by lia.
    + destruct (pg_cache _ _ _ _ H k t' Ht') as [|(i & es & id' & Hi & Hk & Ho')]; [by left|right]. exists i, es, id'. split; [|done]. by apply lookup_app_l_Some.
  - apply (logs_same_trans _ _ _ _ _ _ _ (tc_env (db_table_cache st))); [apply H|].
    apply (table_logs extend dbname reuse_logs ucmp cmp_name Hname max_file_size used (db_versions st) _ _ (n0 + slen chunks)); [apply H|done|done|]. intros f Hnf. by apply lookup_insert_ne.
Qed.

(** A new output is opened. *)
Lemma Open_output chunks compact st :
  progress chunks None compact st -> n0 + slen chunks + 2 < 2 ^ 64 ->
  exists compact' st', OpenCompactionOutputFile dbname o compact st = (OK, compact', st') /\
    progress chunks (Some []) compact' st' /\ cs_compaction compact' = cs_compaction compact /\ cs_smallest_snapshot compact' = cs_smallest_snapshot compact.
Proof.
  intros H Hroom. destruct (progress_numbers _ _ _ _ H) as [Hmax Hf]. pose proof (pg_outputs _ _ _ _ H) as Eo. pose proof (length_outputs _ _ _ _ H) as Elen. cbn beta iota in Elen. cbn [open_output] in Eo. rewrite app_nil_r in Eo.
  assert (vs_next_file_number (db_versions st) = n0 + slen chunks) as En by (rewrite (pg_versions _ _ _ _ H), (proj1 (set_next_fields _ _)); lia).
  assert (is_u64 (n0 + slen chunks)) as Hu by (unfold in_u; lia). unfold OpenCompactionOutputFile, NewFileNumber. rewrite En, wrap_small by (unfold in_u; lia).
  cbn [set_pending_outputs set_version_set db_table_cache db_versions]. destruct (db_table_cache st) as [[fs faults] cache id] eqn:Etc. cbn [tc_env env_faults] in Hf. subst faults.
  unfold NewWritableFile. cbn [next_fault env_faults tc_env with_files env_files fmap option_fmap option_map]. eexists _, _. split; [reflexivity|].
  destruct compact as [c ss outs b total]. cbn [cs_outputs cs_compaction cs_smallest_snapshot set_builder set_outputs] in *. split; [|done].
  assert (forall m, is_u64 m -> m < n0 + slen chunks -> <[tname (n0 + slen chunks) := []]> fs !! tname m = fs !! tname m) as Hother.
  { intros m Hm Hd. apply lookup_insert_ne. intros E. apply tname_inj in E; [lia|done|done]. }
  split; cbn [cs_outputs cs_builder db_versions db_table_cache set_table_cache with_env tc_env tc_cache env_files db_mem db_imm db_pending_outputs db_logfile_number db_bg_error db_shutting_down].
  - apply H.
  - intros es [= <-]. by left.
  - rewrite (pg_rest _ _ _ _ H). done.
  - rewrite (pg_versions _ _ _ _ H), set_next_twice. apply (f_equal (fun n => set_next_file_number n _)). rewrite length_app. cbn [length]. lia.
  - assert (reachable used (NewFileNumber (db_versions st)).2 (tc_env (db_table_cache st))) as Hr by (apply reach_number; [apply H|lia]).
    unfold NewFileNumber in Hr. rewrite En, wrap_small in Hr by (unfold in_u; lia). cbn [snd] in Hr.
    apply (reachable_table extend dbname reuse_logs ucmp cmp_name Hname max_file_size used _ (tc_env (db_table_cache st)) _ (n0 + slen chunks) []); [exact Hr|done|done|by rewrite Etc].
  - by rewrite Eo.
  - done.
  - intros m Hm Hlt. rewrite Hother by (done || lia). rewrite <-(pg_old _ _ _ _ H m Hm Hlt). by rewrite Etc.
  - intros i es Hi. pose proof (lookup_lt_Some _ _ _ Hi). rewrite Hother by (unfold in_u in *; lia). rewrite <-(pg_new _ _ _ _ H i es Hi). by rewrite Etc.
  - intros k t Ht. apply (pg_cache _ _ _ _ H). by rewrite Etc.
  - apply (logs_same_trans _ _ _ _ _ _ _ (tc_env (db_table_cache st))); [apply H|].
    apply (table_logs extend dbname reuse_logs ucmp cmp_name Hname max_file_size used (db_versions st) _ _ (n0 + slen chunks)); [apply H|done|done|]. intros f Hnf. rewrite Etc. by apply lookup_insert_ne.
Qed.

(** The open output takes an entry. *)
Lemma builder_add es e env :
  es = [] \/ input_ok es -> input_ok (es ++ [e]) -> env_faults env = [] ->
  builder_call (fun b => (tt, TableBuilder_Add extend snappy zstd (entry_internal_key e) (e_value e) b)) (builder es) env = (tt, builder (es ++ [e]), env).
Proof.
  intros Hin Hin' Hf. destruct (builder_facts es Hin) as [Hbf _], (builder_facts (es ++ [e]) ltac:(by right)) as [Hbf' _]. unfold builder_call.
  rewrite Hf, with_file_id, builder_snoc, Hbf' by done. destruct env. cbn in Hf. by subst.
Qed.

Definition with_entry (e : entry) (es : list entry) (compact : CompactionState) : CompactionState :=
  let k := MkInternalKey (entry_internal_key e) in
  let outputs := if NumEntries (builder es) =? 0 then on_current_output (fun out => MkOutput (out_number out) (out_file_size out) k (out_largest out)) (cs_outputs compact)
                 else cs_outputs compact in
  set_builder (Some (builder (es ++ [e]))) (set_outputs (on_current_output (fun out => MkOutput (out_number out) (out_file_size out) (out_smallest out) k) outputs) compact).

Lemma progress_entry chunks es compact st e :
  progress chunks (Some es) compact st -> input_ok (es ++ [e]) -> progress chunks (Some (es ++ [e])) (with_entry e es compact) st.
Proof.
  intros H Hin. destruct (builder_facts es (pg_cur _ _ _ _ H es eq_refl)) as [_ Hnum]. unfold with_entry. rewrite Hnum. pose proof (pg_outputs _ _ _ _ H) as Eo. cbn [open_output] in Eo.
  rewrite Eo. set (outs := on_current_output _ _).
  assert (outs = finished_outputs n0 chunks ++ open_output (n0 + slen chunks) (Some (es ++ [e]))) as Eouts.
  { unfold outs. cbn [open_output]. destruct (Z.eqb_spec (slen es) 0) as [E|E].
    - destruct es; [|cbn in E; lia]. rewrite !on_current_snoc. done.
    - rewrite on_current_snoc, last_key_snoc, first_key_snoc by (by intros ->). done. }
  destruct compact as [c ss outs0 b total]. cbn [set_builder set_outputs cs_outputs] in *. destruct H; split; cbn [cs_outputs cs_builder] in *; try done.
  - intros es' [= <-]. by right.
  - rewrite Eouts, length_app. rewrite pg_versions0, Eo, length_app. done.
Qed.

Lemma with_env_id tc : with_env (fun _ => tc_env tc) tc = tc.
Proof. by destruct tc. Qed.

Lemma set_table_cache_id st : set_table_cache (db_table_cache st) st = st.
Proof. by destruct st. Qed.

Lemma Add_open chunks es compact st e :
  progress chunks (Some es) compact st -> input_ok (es ++ [e]) ->
  exists chunks' cur' compact' st',
    add_to_output extend snappy zstd dbname o in_scratch None (entry_internal_key e) (e_value e) OK compact st = Some (OK, compact', st') /\
    progress chunks' cur' compact' st' /\ cur' <> Some [] /\ concat chunks' ++ default [] cur' = concat chunks ++ es ++ [e] /\
    cs_compaction compact' = cs_compaction compact /\ cs_smallest_snapshot compact' = cs_smallest_snapshot compact.
Proof.
  intros H Hin. unfold add_to_output. pose proof (pg_builder _ _ _ _ H) as Eb. cbn [fmap option_fmap option_map] in Eb. rewrite Eb, ok_OK. cbn [negb]. rewrite Eb. cbn [mbind option_bind].
  destruct (progress_numbers _ _ _ _ H) as [_ Hf]. rewrite builder_add by (done || by apply (pg_cur _ _ _ _ H)). cbn [InternalKey_DecodeFrom fst]. fold (with_entry e es compact).
  rewrite with_env_id, set_table_cache_id. pose proof (progress_entry _ _ _ _ e H Hin) as H'.
  assert (cs_compaction (with_entry e es compact) = cs_compaction compact /\ cs_smallest_snapshot (with_entry e es compact) = cs_smallest_snapshot compact) as [E1 E2] by (by destruct compact).
  destruct (_ <=? _).
  - destruct (Finish_output _ _ _ _ H') as (compact' & st' & -> & Hp & E3 & E4); [by destruct es|]. eexists (chunks ++ [es ++ [e]]), None, compact', st'. split; [done|]. split; [done|]. split; [done|].
    split; [|split; congruence]. rewrite concat_app. cbn [concat default]. by rewrite !app_nil_r.
  - eexists chunks, (Some (es ++ [e])), _, st. split; [done|]. split; [done|]. split; [by destruct es|]. split; [done|]. by split.
Qed.

Lemma Add_output chunks cur compact st e :
  progress chunks cur compact st -> input_ok (default [] cur ++ [e]) -> n0 + slen chunks + 2 < 2 ^ 64 ->
  exists chunks' cur' compact' st',
    add_to_output extend snappy zstd dbname o in_scratch None (entry_internal_key e) (e_value e) OK compact st = Some (OK, compact', st') /\
    progress chunks' cur' compact' st' /\ cur' <> Some [] /\ concat chunks' ++ default [] cur' = concat chunks ++ default [] cur ++ [e] /\
    cs_compaction compact' = cs_compaction compact /\ cs_smallest_snapshot compact' = cs_smallest_snapshot compact.
Proof.
  intros H Hin Hroom. destruct cur as [es|]; [by apply Add_open|]. destruct (Open_output _ _ _ H Hroom) as (compact1 & st1 & E1 & H1 & Ec & Es).
  destruct (Add_open _ _ _ _ e H1 Hin) as (chunks' & cur' & compact' & st' & E & Hp & Hne & Hcat & Ec' & Es'). exists chunks', cur', compact', st'.
  split; [|split; [done|]; split; [done|]; split; [done|]; split; congruence]. rewrite <-E. unfold add_to_output.
  pose proof (pg_builder _ _ _ _ H) as Eb. pose proof (pg_builder _ _ _ _ H1) as Eb1. cbn [fmap option_fmap option_map] in Eb, Eb1. rewrite Eb, E1, Eb1. cbv beta iota. rewrite Eb1. reflexivity.
Qed.

(** ** The loop *)

Lemma chunks_count chunks : Forall (fun es => es <> [] /\ input_ok es) chunks -> slen chunks <= slen (concat chunks).
Proof. clear Hn0 Huncached. induction 1 as [|es chunks [Hne _] _ IH]; [done|]. cbn [concat length]. rewrite length_app. destruct es; [done|]. cbn [length]. lia. Qed.

Definition work (c : Compaction) := (c_level c, c_input_version c, c_edit c, c_inputs0 c, c_inputs1 c).

Definition lk_ok (l : option entry) (lk : LastKey) : Prop := lk = match l with Some e => MkLastKey true (e_key e) (e_seq e) | None => NoLastKey end.

Lemma progress_compaction c chunks cur compact st : progress chunks cur compact st ->
  progress chunks cur (set_compaction c compact) st /\ cs_compaction (set_compaction c compact) = c /\ cs_smallest_snapshot (set_compaction c compact) = cs_smallest_snapshot compact.
Proof. intros H. split; [destruct compact; destruct H; split; done|by destruct compact]. Qed.

Section run.
Context (id : Z) (v : Version) (Hv : levels_ok ucmp v) (L : Z) (HL : 0 <= L) (ss : Z) (Hss : ss < kMaxSequenceNumber) (base : slice -> bool).
Context (Hbase : forall k, base k = true <-> forall level f, L + 1 < level < kNumLevels -> f ∈ level_files v level -> ~ Compaction.has_key ucmp k f).

Definition next_ptrs (l : option entry) (ptrs : list nat) : Prop :=
  forall k, match l with Some e => Compare ucmp (e_key e) k <= 0 | None => True end -> ptrs_ok ucmp v k ptrs.

Lemma ShouldStopBefore_work key c : work (ShouldStopBefore ucmp max_file_size key c).2 = work c /\ c_level_ptrs (ShouldStopBefore ucmp max_file_size key c).2 = c_level_ptrs c.
Proof. unfold ShouldStopBefore. destruct (grandparent_scan _ _ _ _ _ _) as [i ov]. by destruct c, (_ <? ov). Qed.

Lemma drop_entry_spec l e lk c :
  lk_ok l lk -> seq_ok (e_seq e) -> next_ptrs l (c_level_ptrs c) -> match l with Some l => Compare ucmp (e_key l) (e_key e) <= 0 | None => True end ->
  c_input_version c = Some (id, v) -> c_level c = L ->
  exists c', drop_entry ucmp ss (entry_internal_key e) lk c = Some (dropped ss base l e, MkLastKey true (e_key e) (e_seq e), c') /\ work c' = work c /\ next_ptrs (Some e) (c_level_ptrs c').
Proof.
  intros -> Hseq Hp Hle Hi Hc. unfold drop_entry, entry_internal_key. rewrite ParseInternalKey_Append by done. cbn [entry_parsed user_key sequence type].
  assert (next_ptrs (Some e) (c_level_ptrs c)) as Hp'. { intros k Hk. apply (ptrs_ok_mono ucmp v (e_key e)); [done|]. by apply Hp. }
  assert (has_current_user_key (match l with Some e => MkLastKey true (e_key e) (e_seq e) | None => NoLastKey end) = bool_decide (l <> None)) as -> by (by destruct l).
  set (lk := if _ || _ then _ else _).
  assert (current_user_key lk = e_key e /\ (last_sequence_for_key lk <=? ss) = hidden ss l e) as [E1 E2].
  { subst lk. unfold hidden. destruct l as [l|]; cbn [current_user_key last_sequence_for_key]; [|rewrite (proj2 (Z.leb_gt _ _)) by done; done]. rewrite bool_decide_true by done. cbn [negb orb].
    destruct (Z.eqb_spec (Compare ucmp (e_key e) (e_key l)) 0) as [E|E]; cbn [negb current_user_key last_sequence_for_key].
    - apply (compare_eq (key := any_key)) in E; [|done|done]. by rewrite bool_decide_true by done.
    - rewrite bool_decide_false by (intros E'; apply E; rewrite E'; by apply (compare_refl (key := any_key))). rewrite (proj2 (Z.leb_gt _ _)) by done. done. }
  rewrite E1, E2. unfold dropped. destruct (hidden ss l e); cbn [orb mbind option_bind]; [by exists c|]. destruct (bool_decide _ && _); cbn [andb]; [|by exists c].
  destruct (IsBaseLevelForKey_spec ucmp id v (e_key e) c Hv Hi ltac:(lia) (Hp' (e_key e) ltac:(cbn beta iota; by rewrite (compare_refl (key := any_key))))) as (b & ptrs & -> & Hptrs & Hb). cbn [mbind option_bind].
  exists (set_level_ptrs ptrs c). assert (b = base (e_key e)) as ->. { apply eq_true_iff_eq. rewrite Hb, Hbase, Hc. done. }
  split; [done|]. split; [by destruct c|]. intros k Hk. assert (c_level_ptrs (set_level_ptrs ptrs c) = ptrs) as -> by (by destruct c). by apply (ptrs_ok_mono ucmp v (e_key e)).
Qed.

Context {A : Type} (ops : IterOps A) (key : slice -> Prop) (ins : list entry) (pos : A -> nat -> Prop) `{!IterLaws ops (InternalKeyComparator ucmp) key (table_of ins) pos}.
Context (Hes : entries_ok ucmp ins) (Hd : seqs_differ ins) (Hin : forall es, es `sublist_of` ins -> es <> [] -> input_ok es) (Hroom : n0 + slen ins + 2 < 2 ^ 64).
Context (Himm : db_imm st0 = None) (Hopen : db_shutting_down st0 = false) (c0 : Compaction) (Hversion : c_input_version c0 = Some (id, v)) (Hlevel : c_level c0 = L).

(** What the loop has done with the entries [pre]. *)
Record looped (pre : list entry) (chunks : list (list entry)) (cur : option (list entry)) (compact : CompactionState) (lk : LastKey) (st : DBState) : Prop := {
  lo_progress : progress chunks cur compact st;
  lo_open : cur <> Some [];
  lo_kept : concat chunks ++ default [] cur = kept_entries ss base None pre;
  lo_last : lk_ok (last pre) lk;
  lo_work : work (cs_compaction compact) = work c0;
  lo_snapshot : cs_smallest_snapshot compact = ss;
  lo_ptrs : next_ptrs (last pre) (c_level_ptrs (cs_compaction compact));
}.

Lemma looped_count pre post chunks cur compact lk st : ins = pre ++ post -> looped pre chunks cur compact lk st -> slen chunks <= slen ins.
Proof.
  intros E H. pose proof (chunks_count chunks (pg_chunks _ _ _ _ (lo_progress _ _ _ _ _ _ H))) as H1. pose proof (f_equal length (lo_kept _ _ _ _ _ _ H)) as H2. rewrite length_app in H2.
  pose proof (sublist_length _ _ (kept_sublist ss base None pre)). subst. rewrite length_app. lia.
Qed.

(** The table of the open output is finished, when there is one. *)
Lemma looped_stop pre chunks cur compact lk st (stop : bool) c :
  looped pre chunks cur compact lk st -> work c = work c0 -> next_ptrs (last pre) (c_level_ptrs c) ->
  exists chunks' cur' compact' st',
    (if stop && negb (bool_decide (cs_builder (set_compaction c compact) = None)) then FinishCompactionOutputFile extend snappy zstd dbname o in_scratch None (set_compaction c compact) OK st
     else Some (OK, set_compaction c compact, st)) = Some (OK, compact', st') /\ looped pre chunks' cur' compact' lk st' /\ (stop = true -> cur' = None).
Proof.
  intros [Hp Ho' Hk Hl Hw Hs Hptr] Hc Hcp. destruct (progress_compaction c _ _ _ _ Hp) as (Hp' & E1 & E2).
  rewrite (pg_builder _ _ _ _ Hp'). destruct cur as [cur|]; cbn [fmap option_fmap option_map].
  - rewrite bool_decide_false by done. destruct stop; cbn [negb andb].
    + destruct (Finish_output _ _ _ _ Hp') as (compact' & st' & -> & H & Ec & Es'); [by intros ->|]. exists (chunks ++ [cur]), None, compact', st'. split; [done|]. split; [|done].
      split; [done|done| |done|congruence|congruence|by rewrite Ec, E1]. rewrite concat_app. cbn [concat default] in *. by rewrite !app_nil_r.
    + exists chunks, (Some cur), (set_compaction c compact), st. split; [done|]. split; [|done]. split; rewrite ?E1, ?E2; done.
  - rewrite bool_decide_true by done. rewrite andb_false_r. exists chunks, None, (set_compaction c compact), st. split; [done|]. split; [|done]. split; rewrite ?E1, ?E2; done.
Qed.

Lemma looped_rest pre chunks cur compact lk st : looped pre chunks cur compact lk st -> db_imm st = None /\ db_shutting_down st = false.
Proof. intros H. rewrite (pg_rest _ _ _ _ (lo_progress _ _ _ _ _ _ H)). by split. Qed.

(** An entry that is kept. *)
Lemma looped_add pre e post chunks cur compact lk st c :
  ins = pre ++ e :: post -> looped pre chunks cur compact lk st -> dropped ss base (last pre) e = false -> work c = work c0 -> next_ptrs (Some e) (c_level_ptrs c) ->
  exists chunks' cur' compact' st',
    add_to_output extend snappy zstd dbname o in_scratch None (entry_internal_key e) (e_value e) OK (set_compaction c compact) st = Some (OK, compact', st') /\
    looped (pre ++ [e]) chunks' cur' compact' (MkLastKey true (e_key e) (e_seq e)) st'.
Proof.
  intros Ei H Hdr Hc Hcp. pose proof (looped_count _ (e :: post) _ _ _ _ _ Ei H) as Hcnt. destruct H as [Hp Ho' Hk Hl Hw Hs Hptr].
  destruct (progress_compaction c _ _ _ _ Hp) as (Hp' & E1 & E2).
  assert (kept_entries ss base None (pre ++ [e]) = concat chunks ++ default [] cur ++ [e]) as Hk'.
  { rewrite kept_app, <-Hk, <-app_assoc. cbn [kept_entries]. f_equal. f_equal. destruct (last pre) as [l|]; by rewrite Hdr. }
  assert (input_ok (default [] cur ++ [e])) as Hok.
  { apply Hin; [|by destruct (default [] cur)]. trans (pre ++ [e]); [|rewrite Ei, (cons_middle e pre post), app_assoc; by apply sublist_inserts_r].
    trans (kept_entries ss base None (pre ++ [e])); [|apply kept_sublist]. rewrite Hk'. by apply sublist_inserts_l. }
  destruct (Add_output _ _ _ _ e Hp' Hok ltac:(lia)) as (chunks' & cur' & compact' & st' & E & Hp'' & Hne & Hcat & Ec & Es'). exists chunks', cur', compact', st'. split; [done|].
  split; [done|done|by rewrite Hcat|by rewrite last_snoc|by rewrite Ec, E1|by rewrite Es', E2|by rewrite Ec, E1, last_snoc].
Qed.

Lemma looped_dropped pre e chunks cur compact lk st c :
  looped pre chunks cur compact lk st -> dropped ss base (last pre) e = true -> work c = work (cs_compaction compact) -> next_ptrs (Some e) (c_level_ptrs c) ->
  looped (pre ++ [e]) chunks cur (set_compaction c compact) (MkLastKey true (e_key e) (e_seq e)) st.
Proof.
  intros [Hp Ho' Hk Hl Hw Hs Hptr] Hdr Hc Hcp. destruct (progress_compaction c _ _ _ _ Hp) as (Hp' & E1 & E2).
  split; rewrite ?E1, ?E2, ?last_snoc; [done|done| |done|congruence|done|done].
  rewrite kept_app, <-Hk. cbn [kept_entries]. destruct (last pre) as [l|]; by rewrite Hdr, !app_nil_r.
Qed.

(** One iteration takes the next entry. *)
Lemma compaction_step_spec pre e post chunks cur compact lk st it :
  ins = pre ++ e :: post -> looped pre chunks cur compact lk st -> pos it (length pre) ->
  exists chunks' cur' compact' lk' st' it',
    compaction_step extend snappy zstd dbname o in_scratch None ucmp cmp_name max_file_size ops compact lk it st = Some (OK, compact', st', Some (lk', it')) /\
    looped (pre ++ [e]) chunks' cur' compact' lk' st' /\ pos it' (length (pre ++ [e])).
Proof.
  intros Ei H Hpos. assert (table_of ins !! length pre = Some (entry_internal_key e, e_value e)) as Hlk by (apply table_of_lookup; exists e; by rewrite Ei, list_lookup_middle).
  assert (length (table_of ins) = length ins) as Hlen by apply length_map. assert (length pre < length ins)%nat as Hlt by (rewrite Ei, length_app; cbn [length]; lia).
  unfold compaction_step. destruct (looped_rest _ _ _ _ _ _ H) as [-> _]. rewrite bool_decide_true by done. cbn [mbind option_bind].
  rewrite (pos_key it _ _ _ Hpos Hlk), (pos_status it _ Hpos), (pos_value it _ _ _ Hpos Hlk). destruct (ShouldStopBefore_work (entry_internal_key e) (cs_compaction compact)) as [Hw Hptr].
  destruct (ShouldStopBefore _ _ _ _) as [stop c] eqn:Estop. cbn [snd] in Hw, Hptr.
  destruct (looped_stop _ _ _ _ _ _ stop c H) as (chunks1 & cur1 & compact1 & st1 & -> & H1 & _); [rewrite Hw; apply H|rewrite Hptr; apply H|]. cbn [mbind option_bind]. rewrite ok_OK. cbn [negb].
  assert (seq_ok (e_seq e)) as Hseq by (apply (proj1 (Forall_forall _ _) (proj1 Hes)); rewrite Ei; apply elem_of_app; right; left).
  assert (match last pre with Some l => Compare ucmp (e_key l) (e_key e) <= 0 | None => True end) as Hle.
  { destruct (last pre) as [l|] eqn:El; [|done]. apply last_Some in El as [pre' ->]. pose proof (entries_lookup_lt ucmp ins (length pre') (length (pre' ++ [l])) l e Hes) as Hll.
    assert (ins !! length pre' = Some l /\ ins !! length (pre' ++ [l]) = Some e) as [L1 L2] by (rewrite Ei; split; [rewrite <-app_assoc; by apply list_lookup_middle|by apply list_lookup_middle]).
    destruct (Hll ltac:(rewrite length_app; cbn [length]; lia) L1 L2) as [?|[-> _]]; [lia|].
    by rewrite (compare_refl (key := any_key)). }
  pose proof (lo_work _ _ _ _ _ _ H1) as Hw1. pose proof Hw1 as Hw1'. unfold work in Hw1'. injection Hw1' as W1 W2 _ _ _.
  rewrite (lo_snapshot _ _ _ _ _ _ H1). destruct (drop_entry_spec (last pre) e lk (cs_compaction compact1)) as (c' & -> & Hw' & Hptr'); [apply H1|done|apply H1|done|congruence|congruence|].
  cbn [mbind option_bind].
  assert (exists it', i_Next ops it = Some it' /\ pos it' (length (pre ++ [e]))) as (it' & -> & Hpos').
  { destruct (pos_Next it _ Hpos ltac:(lia)) as (it' & E & Hp). exists it'. split; [done|]. rewrite length_app. cbn [length]. by rewrite Nat.add_1_r. }
  destruct (dropped ss base (last pre) e) eqn:Edr; cbn [mbind option_bind].
  - rewrite ok_OK. cbn [negb mbind option_bind]. eexists chunks1, cur1, _, _, st1, it'. split; [reflexivity|]. split; [|done]. by apply (looped_dropped pre e _ _ _ lk).
  - destruct (looped_add pre e post chunks1 cur1 compact1 lk st1 c' Ei H1 Edr) as (chunks2 & cur2 & compact2 & st2 & -> & H2); [congruence|done|]. cbn [mbind option_bind]. rewrite ok_OK. cbn [negb mbind option_bind].
    eexists chunks2, cur2, _, _, st2, it'. split; [reflexivity|]. by split.
Qed.

(** The loop takes all the entries. *)
Lemma compaction_loop_spec post : forall pre chunks cur compact lk st it fuel i,
  ins = pre ++ post -> looped pre chunks cur compact lk st -> pos it (length pre) -> (length post <= fuel)%nat ->
  exists chunks' cur' compact' lk' st' it',
    compaction_loop extend snappy zstd dbname o in_scratch None ucmp cmp_name max_file_size ops (fun _ st => st) fuel i compact lk it st = Some (OK, compact', it', st') /\
    looped ins chunks' cur' compact' lk' st' /\ pos it' (length ins).
Proof.
  induction post as [|e post IH]; intros pre chunks cur compact lk st it fuel i Ei H Hpos Hfuel.
  - rewrite app_nil_r in Ei. subst pre. exists chunks, cur, compact, lk, st, it. split; [|done].
    assert (i_Valid ops it = false) as Ev by (rewrite (pos_Valid it _ Hpos); apply bool_decide_eq_false; unfold table_of; rewrite length_map; lia).
    destruct fuel; cbn [compaction_loop]; by rewrite Ev.
  - destruct fuel as [|fuel]; [cbn in Hfuel; lia|]. cbn [compaction_loop]. destruct (looped_rest _ _ _ _ _ _ H) as [_ ->].
    rewrite (pos_Valid it _ Hpos), bool_decide_true by (unfold table_of; rewrite length_map, Ei, length_app; cbn [length]; lia). cbn [negb andb].
    destruct (compaction_step_spec pre e post chunks cur compact lk st it Ei H Hpos) as (chunks1 & cur1 & compact1 & lk1 & st1 & it1 & -> & H1 & Hpos1). cbn [mbind option_bind].
    apply (IH (pre ++ [e]) chunks1 cur1 compact1 lk1 st1 it1 fuel (S i)); [by rewrite <-app_assoc|done|done|cbn in Hfuel; lia].
Qed.

End run.
End outputs.
