(* ===== verification/CompactionResults.v ===== *)
(** CompactionResults: what a background compaction leaves behind (db/db_impl.cc, [InstallCompactionResults],
    [CleanupCompaction] and [BackgroundCompaction]): the outputs in the place of the inputs, in a store that holds its
    entries, with the same result for every read of a live snapshot. *)

From stdpp Require Import gmap sorting.
From Stdlib Require Import Strings.Byte Strings.String.
From S2P Require Import Prelude Coding Crc32c Comparator DbFormat Status Env FileSystem Filename VersionEdit FilterPolicy FilterBlock SkipList MemTable Format Iterator TwoLevelIterator Version Block Merger TableBuilder Table TableCache VersionSet Score Compaction Log Manifest Flush InternalIterator DbImpl Snapshot CompactionVersion CompactionWork CompactionLoop.

(** * The versions of the list *)

(** The ids of the versions, which are never given out twice, and the references to them; there is a current version. *)
Definition listed_ok (vs : VersionSet) : Prop := 0 <= vs_next_id vs /\ Forall (fun lv => 0 <= lv_id lv < vs_next_id vs /\ 1 <= lv_refs lv) (vs_versions vs).
Definition ids_ok (vs : VersionSet) : Prop := listed_ok vs /\ vs_versions vs <> [].

Lemma ids_same vs vs' : vs_versions vs' = vs_versions vs -> vs_next_id vs' = vs_next_id vs -> ids_ok vs -> ids_ok vs'.
Proof. unfold ids_ok, listed_ok. by intros -> ->. Qed.

Lemma ids_Ref id vs : ids_ok vs -> ids_ok (Version_Ref id vs).
Proof.
  intros [[H1 H2] H3]. destruct vs as [n m s g p d l i c]. split; [split; [done|]|]; cbn [Version_Ref set_versions vs_versions vs_next_id] in *; [|by destruct l]. rewrite Forall_map. eapply Forall_impl; [exact H2|].
  intros lv Hlv. cbn in Hlv |- *. case_decide; cbn; subst; lia.
Qed.

Lemma current_listed vs : ids_ok vs -> current_live vs ∈ vs_versions vs /\ 0 <= lv_id (current_live vs) < vs_next_id vs /\ 1 <= lv_refs (current_live vs).
Proof.
  intros [[_ H2] H3]. unfold current_live. destruct (last (vs_versions vs)) as [lv|] eqn:E; [|by apply last_None in E]. apply last_Some_elem_of in E. cbn [default]. split; [done|]. exact (proj1 (Forall_forall _ _) H2 lv E).
Qed.

Lemma ids_update v vs : ids_ok vs -> ids_ok (update_current v vs).
Proof.
  intros Hok. pose proof (current_listed vs Hok) as (_ & Hid & Hrefs). destruct Hok as [[H1 H2] H3].
  destruct vs as [n m s g p d l i c]. split; [split; [done|]|]; cbn [update_current set_versions vs_versions vs_next_id] in *; [|by destruct (take _ l)]. apply Forall_app. split; [by apply Forall_take|]. by apply Forall_singleton.
Qed.

Lemma ids_Unref id vs : listed_ok vs -> listed_ok (Version_Unref id vs).
Proof.
  intros [H1 H2]. destruct vs as [n m s g p d l i c]. split; [done|]. cbn [Version_Unref set_versions vs_versions vs_next_id] in *. apply Forall_forall. intros lv Hlv.
  apply list_elem_of_In, filter_In in Hlv as [Hlv Hne]. apply in_map_iff in Hlv as (lv' & <- & Hlv'). apply list_elem_of_In in Hlv'. pose proof (proj1 (Forall_forall _ _) H2 lv' Hlv') as H.
  case_decide; [|done]. cbn [lv_id lv_refs] in *. rewrite bool_decide_true in Hne by done. cbn [andb] in Hne. apply negb_true_iff, Z.eqb_neq in Hne. subst. lia.
Qed.

Lemma ids_Append v vs : ids_ok vs -> ids_ok (AppendVersion v vs) /\ lv_id (current_live (AppendVersion v vs)) = vs_next_id vs.
Proof.
  intros [H Hne]. unfold AppendVersion. rewrite decide_False by done. set (vs1 := Version_Unref _ _). assert (listed_ok vs1 /\ vs_next_id vs1 = vs_next_id vs) as [[H1 H2] <-] by (split; [by apply ids_Unref|by destruct vs]).
  destruct vs1 as [n m s g p d l i c]. cbn [vs_next_id vs_versions] in *. split; [|unfold current_live; cbn [vs_versions]; by rewrite last_snoc]. split; [split; cbn [vs_next_id vs_versions]; [lia|]|by destruct l].
  apply Forall_app. split; [eapply Forall_impl; [exact H2|]; cbn; lia|]. constructor; [cbn; lia|done].
Qed.

Lemma current_id vs : ids_ok vs -> lv_id (current_live vs) < vs_next_id vs.
Proof. intros H. pose proof (current_listed vs H). lia. Qed.

(** The version that is released is not the current one. *)
Lemma current_Unref old vs : old <> lv_id (current_live vs) -> current (Version_Unref old vs) = current vs.
Proof.
  intros Hne. unfold current, current_live in *. destruct vs as [n m s g p d l i c]. cbn [Version_Unref set_versions vs_versions] in *. destruct l as [|lv l] using rev_ind; [done|].
  rewrite last_snoc in *. change (old <> lv_id lv) in Hne. rewrite map_app, List.filter_app. cbn [map List.filter]. rewrite decide_False by congruence. rewrite bool_decide_false by congruence.
  cbn [andb negb]. by rewrite last_snoc.
Qed.

Lemma Unref_listed old vs : old <> lv_id (current_live vs) -> vs_versions vs <> [] -> vs_versions (Version_Unref old vs) <> [].
Proof.
  unfold current_live. destruct vs as [n m s g p d l i c]. cbn [Version_Unref set_versions vs_versions]. destruct l as [|lv l] using rev_ind; [done|]. intros Hne _.
  rewrite last_snoc in Hne. change (old <> lv_id lv) in Hne. rewrite map_app, List.filter_app. cbn [map List.filter]. rewrite decide_False, bool_decide_false by congruence. cbn [andb negb]. by destruct (List.filter _ _).
Qed.

Section ids.
Context (ucmp : Comparator) (cmp_name : slice) (extend : Z -> slice -> Z) (dbname : slice) (max_file_size : Z) (reuse_logs : bool).

Lemma ids_LogAndApply edit vs e s edit' vs' e' :
  LogAndApply ucmp cmp_name extend dbname edit vs e = (s, edit', vs', e') -> ids_ok vs -> ids_ok vs' /\ (ok s = true -> lv_id (current_live vs') = vs_next_id vs).
Proof.
  unfold LogAndApply. cbn [Builder_Apply]. destruct (open_descriptor _ _ _ _ _) as [[[s1 d1] is_new] e1]. destruct (write_edit _ _ _ _ _) as [[s2 d2] e2]. destruct (if ok s2 && is_new then _ else _) as [s3 e3].
  intros E H. set (cp := foldl apply_pointer _ _) in *. assert (ids_ok (set_descriptor_log d2 (set_compact_pointer cp vs))) as H' by (apply (ids_same vs); by destruct vs).
  assert (vs_next_id (set_descriptor_log d2 (set_compact_pointer cp vs)) = vs_next_id vs) as En by (by destruct vs).
  destruct (ok s3) eqn:Eok; [|destruct is_new; injection E as <- <- <- <-; split; try congruence; apply (ids_same vs); by destruct vs].
  injection E as <- <- <- <-. destruct (ids_Append (Finalize (SaveTo ucmp (Builder_Apply ucmp (complete_edit vs edit) [] (NewBuilder (current vs))).2)) _ H') as [H1 H2].
  cbn [Builder_Apply snd] in H1, H2. split; [eapply (ids_same _ _ _ _ H1)|intros _; rewrite <-En, <-H2]; by destruct (AppendVersion _ _).
  Unshelve. all: by destruct (AppendVersion _ _).
Qed.

Lemma ids_Recover vs e s save vs' e' : Recover ucmp cmp_name extend dbname max_file_size reuse_logs vs e = Some (s, save, vs', e') -> ids_ok vs -> ids_ok vs'.
Proof.
  intros E H. revert E. unfold Recover. destruct (ReadFileToString _ _) as [[[s0 cur] e0]|]; [|done]. cbn [mbind option_bind]. destruct (negb (ok s0)); [by intros [= <- <- <- <-]|].
  destruct (_ || _); [by intros [= <- <- <- <-]|]. destruct (NewSequentialFile _ _) as [[s1 c] e1]. destruct c as [c|]; [|by intros [= <- <- <- <-]].
  destruct (Recover_loop _ _ _ _ _ _) as [[r reader]|]; [|done]. cbn [mbind option_bind]. intros [= E]. revert E. unfold install_recovered.
  assert (ids_ok (set_compact_pointer (rv_compact_pointer r) vs)) as H1 by (apply (ids_same vs); by destruct vs). destruct (negb _); [by intros [= <- <- <- <-]|].
  assert (forall n vs, ids_ok vs -> ids_ok (MarkFileNumberUsed n vs)) as Hm by (intros n vs0 H0; unfold MarkFileNumberUsed; case_match; [apply (ids_same vs0); by destruct vs0|done]).
  set (vs2 := MarkFileNumberUsed _ (MarkFileNumberUsed _ _)). assert (ids_ok vs2) as H2 by (by apply Hm, Hm). clearbody vs2. destruct (rv_next_file r) as [nf|]; [|by intros [= <- <- <- <-]].
  destruct (rv_log_number r) as [ln|]; [|by intros [= <- <- <- <-]]. destruct (rv_last_sequence r) as [ls|]; [|by intros [= <- <- <- <-]].
  destruct (ids_Append (Finalize (SaveTo ucmp (rv_builder r))) vs2 H2) as [H3 _]. set (vs3 := AppendVersion _ _) in *. clearbody vs3. set (vs4 := set_numbers _ _ _ _ _ vs3).
  assert (ids_ok vs4) as H4 by (apply (ids_same vs3); by destruct vs3). clearbody vs4. destruct (ReuseManifest _ _ _ _ _ _) as [[reused vs5] e5] eqn:Er. intros [= <- <- <- <-].
  revert Er. unfold ReuseManifest. repeat case_match; intros [= <- <- <-]; try done; apply (ids_same vs4); by destruct vs4.
Qed.

Lemma reachable_ids used vs e : reachable ucmp cmp_name extend dbname max_file_size reuse_logs used vs e -> ids_ok vs.
Proof.
  assert (ids_ok NewVersionSet) as H0 by (split; [split; [by vm_compute|by vm_compute; repeat constructor]|by vm_compute]). induction 1 as [| |used vs e s save vs' e'| |used vs e number| |used vs e level p| | | |]; try done.
  - by eapply ids_Recover.
  - by eapply ids_LogAndApply.
  - by eapply ids_Recover.
  - apply (ids_same vs); by destruct vs.
  - unfold MarkFileNumberUsed. case_match; [apply (ids_same vs); by destruct vs|done].
  - apply (ids_same vs); by destruct vs.
  - apply (ids_same vs); by destruct vs.
  - by apply ids_Ref.
  - split; [apply ids_Unref; by destruct IHreachable|done].
  - by apply ids_update.
Qed.
End ids.

(** * The store with the outputs *)

(** Two files of a level with one number are one file. *)
Lemma level_numbers ucmp `{!ComparatorLaws any_key ucmp} `{!SeparatorSame any_key ucmp} contents stored v l f g :
  version_ok ucmp contents stored v -> 0 <= l < kNumLevels -> f ∈ level_files v l -> g ∈ level_files v l -> number f = number g -> contents f = contents g -> f = g.
Proof.
  intros Hv Hl Hf Hg En Ec. destruct (decide (f = g)) as [|Hne]; [done|]. exfalso. destruct (decide (l = 0)) as [->|Hl0].
  - pose proof (vo_numbers _ _ _ _ Hv) as Hn. apply list_elem_of_lookup in Hf as [i Hi], Hg as [j Hj]. assert (i = j) as <-; [|congruence].
    apply (NoDup_lookup _ i j (number f) Hn); [by rewrite list_lookup_fmap, Hi|by rewrite list_lookup_fmap, Hj, En].
  - pose proof (proj1 (Forall_forall _ _) (vo_files _ _ _ _ Hv l Hl)) as Hh. pose proof (Hh f Hf) as Ff. pose proof (Hh g Hg) as Fg.
    destruct Ff as (Ff0 & Ff1 & Ff2 & Ff3 & Ff4 & e & He & Ff5). pose proof (last_Some_elem_of _ _ He) as Hin. assert (e ∈ contents g) as Hin' by (by rewrite <-Ec).
    pose proof (seqs_differ_files contents _ f g e e (vo_differ _ _ _ _ Hv l Hl) Hf Hg Hne Hin Hin' eq_refl). done.
Qed.

Section compacted_store.
Context (extend : Z -> slice -> Z) `{!Checksum extend} (snappy : option SnappyLib) (zstd : option ZstdLib).
Context (dbname : slice) (in_scratch reuse_logs : bool).
Context (ucmp : Comparator) `{!ComparatorLaws any_key ucmp} `{!SeparatorSame any_key ucmp} (cmp_name : slice) (Hname : is_u32 (slen cmp_name)) (max_file_size : Z).
Context (o : Options) (Ho : opt_comparator o = InternalKeyComparator ucmp).

Abbreviation db_ok := (db_ok extend snappy zstd dbname in_scratch reuse_logs ucmp cmp_name max_file_size o).
Abbreviation reachable := (reachable ucmp cmp_name extend dbname max_file_size reuse_logs).
Abbreviation v_of st := (current (db_versions st)).

Context (contents : FileMetaData -> list entry) (used : list (Z * Z)) (mes ies : list entry) (st : DBState) (Hdb : db_ok contents used mes ies st).
Context (L : Z) (HL : 0 <= L < kNumLevels - 1) (inputs0 inputs1 : list FileMetaData) (Hci : compaction_inputs ucmp (v_of st) L inputs0 inputs1).
Context (contents' : FileMetaData -> list entry) (used' : list (Z * Z)) (st' : DBState) (outs : list FileMetaData) (ss : Z).

Abbreviation remains := (remains (v_of st) L inputs0 inputs1).
Abbreviation K := (concat (map contents' outs)).

Lemma store_version : version_ok ucmp contents (in_version (v_of st)) (v_of st).
Proof. apply Hdb. Qed.

(** What an installed compaction has. *)
Record installed : Prop := {
  is_rest : db_mem st' = db_mem st /\ db_imm st' = db_imm st;
  is_old l g : 0 <= l < kNumLevels -> remains l g -> contents' g = contents g;
  is_files l g : 0 <= l < kNumLevels -> g ∈ level_files (v_of st') l <-> remains l g \/ (l = L + 1 /\ g ∈ outs);
  is_ordered l : 0 <= l < kNumLevels -> Forall VersionSet.has_key (level_files (v_of st') l) /\ ordered ucmp (level_files (v_of st') l);
  is_count : slen (level_files (v_of st) (L + 1)) + slen outs < 2 ^ 31;
  is_outs : Forall (file_holds ucmp contents' (in_version (v_of st'))) outs /\ sorted_files ucmp outs;
  is_fit f g : f ∈ outs -> remains (L + 1) g ->
    Compare (InternalKeyComparator ucmp) (rep_ (largest f)) (rep_ (smallest g)) < 0 \/ Compare (InternalKeyComparator ucmp) (rep_ (largest g)) (rep_ (smallest f)) < 0;
  is_entries e : e ∈ K -> exists h, h ∈ inputs0 ++ inputs1 /\ e ∈ contents h;
  is_differ : seqs_differ K;
  is_why h e : h ∈ inputs0 ++ inputs1 -> e ∈ contents h -> e ∉ K -> gone_why ucmp contents (v_of st) L inputs0 inputs1 ss K e;
  is_reachable : reachable used' (db_versions st') (tc_env (db_table_cache st'));
  is_used : Forall (fun k => k.2 < vs_next_file_number (db_versions st')) used';
  is_moved l f l' : 0 <= l < kNumLevels -> f ∈ level_files (v_of st') l -> (l', number f) ∈ used' -> l' <= l;
  is_stored f : f ∈ outs -> table_stored extend snappy zstd o contents' f;
  is_same f g : f ∈ outs -> in_version (v_of st') g -> number f = number g -> contents' f = contents' g;
  is_cache : cache_inv extend snappy zstd dbname in_scratch o contents' (in_version (v_of st')) (db_table_cache st');
  is_uncached n : vs_next_file_number (db_versions st') <= n -> is_u64 n -> tc_cache (db_table_cache st') !! EncodeFixed64 n = None;
}.

Lemma NoDup_length_le {X} (l k : list X) : NoDup l -> (forall x, x ∈ l -> x ∈ k) -> (length l <= length k)%nat.
Proof. intros Hn Hi. apply submseteq_length, NoDup_submseteq; done. Qed.

Lemma installed_count : installed -> forall l, 0 <= l < kNumLevels -> slen (level_files (v_of st') l) < 2 ^ 31.
Proof.
  intros H l Hl. destruct (is_ordered H l Hl) as [Hk Hord]. pose proof (ordered_NoDup ucmp _ Hk Hord) as Hnd. pose proof (vo_count _ _ _ _ store_version l Hl) as Hc.
  destruct (decide (l = L + 1)) as [->|Hne].
  - pose proof (NoDup_length_le _ (level_files (v_of st) (L + 1) ++ outs) Hnd) as Hle. rewrite length_app in Hle. pose proof (is_count H). enough (length (level_files (v_of st') (L + 1)) <= length (level_files (v_of st) (L + 1)) + length outs)%nat by lia.
    apply Hle. intros g Hg. apply (is_files H) in Hg as [[Hg _]|[_ Hg]]; [..|done]; apply elem_of_app; auto.
  - enough (length (level_files (v_of st') l) <= length (level_files (v_of st) l))%nat by lia. apply (NoDup_length_le _ _ Hnd). intros g Hg. apply (is_files H) in Hg as [[Hg _]|[? _]]; done.
Qed.

Lemma installed_version : installed ->
  version_ok ucmp contents' (in_version (v_of st')) (v_of st') /\ (forall e, e ∈ all_entries contents' (v_of st') -> e ∈ all_entries contents (v_of st)) /\
  forall e, e ∈ all_entries contents (v_of st) -> e ∉ all_entries contents' (v_of st') ->
    (exists e', e' ∈ all_entries contents (v_of st) /\ e_key e' = e_key e /\ e_seq e < e_seq e' <= ss) \/
    (e_type e = kTypeDeletion /\ e_seq e <= ss /\ forall e2, e2 ∈ all_entries contents' (v_of st') -> e_key e2 = e_key e -> e_seq e < e_seq e2).
Proof.
  intros H. pose proof (installed_count H) as Hc. destruct H as [_ Hold Hfiles Hord _ [Houts Hs] Hfit HK HKd Hwhy _ _ _ _ _ _ _].
  assert (forall l g, 0 <= l < kNumLevels -> g ∈ level_files (v_of st') l -> in_version (v_of st') g) as Hst by (intros l g Hl Hg; by exists l).
  split; [by eapply (compacted_version ucmp contents _ _ store_version L HL inputs0 inputs1 Hci contents' _ _ outs)|]. split.
  - intros e. by eapply (compacted_sub ucmp contents (v_of st) L HL inputs0 inputs1 Hci contents' _ outs).
  - intros e. by eapply (compacted_gone ucmp contents _ _ store_version L HL inputs0 inputs1 Hci contents' _ outs).
Qed.

Lemma installed_sinks : installed -> sinks contents (v_of st) contents' (v_of st').
Proof.
  intros H. destruct H as [_ Hold Hfiles _ _ _ _ HK _ _ _ _ _ _ _ _ _]. by eapply (compacted_sinks ucmp contents _ _ store_version L HL inputs0 inputs1 Hci contents' _ outs).
Qed.

(** The store holds its entries, and reads of live snapshots find what they found. *)
Lemma installed_ok : installed ->
  db_ok contents' used' mes ies st' /\
  forall key s value, ss <= s -> read_result value (newest key s (mes ++ ies ++ all_entries contents' (v_of st'))) = read_result value (newest key s (mes ++ ies ++ all_entries contents (v_of st))).
Proof.
  intros H. destruct (installed_version H) as (Hv' & Hsub & Hgone). destruct Hdb as [Hm Hi (Ok1 & Ok2 & Hd1 & Hd2) (O1 & O2 & O3) Hr Hu Hmv Hv Hst Hsame Hc Hun]. split.
  - destruct (is_rest H) as [Em Ei]. split; rewrite ?Em, ?Ei; try done; try apply H.
    + split; [done|]. split; intros a b Ha Hb; [apply O2|apply O3]; auto.
    + intros f (l & Hl & Hf). apply (is_files H) in Hf as [Hf|[_ Hf]]; [|by apply (is_stored H)|done]. unfold table_stored. rewrite (is_old H l f Hl Hf). apply Hst. exists l. split; [done|apply Hf].
    + intros f g Hf Hg En. pose proof Hf as (l & Hl & Hf'). pose proof Hg as (l' & Hl' & Hg'). apply (is_files H) in Hf', Hg'; [|done..].
      destruct Hf' as [Hf'|[_ Hf']]; [|by apply (is_same H)]. destruct Hg' as [Hg'|[_ Hg']]; [|symmetry; by apply (is_same H)].
      rewrite (is_old H l f Hl Hf'), (is_old H l' g Hl' Hg'). apply Hsame; [exists l; split; [done|apply Hf']|exists l'; split; [done|apply Hg']|done].
  - intros key s value Hs. assert (forall es, seqs_differ es -> (forall e, e ∈ es -> e ∈ all_entries contents (v_of st)) -> seqs_differ (mes ++ ies ++ es)) as Hdiff.
    { intros es Hd Hin. apply seqs_differ_app; [done| |intros a b Ha [Hb|Hb]%elem_of_app; [by apply O1|apply O2; auto]]. apply seqs_differ_app; [done|done|]. intros a b Ha Hb. apply O3; auto. }
    destruct (newest_compacted key s ss (mes ++ ies ++ all_entries contents (v_of st)) (mes ++ ies ++ all_entries contents' (v_of st')) Hs) as [->|[-> (e & -> & Ht)]].
    + apply Hdiff; [by apply (all_entries_differ ucmp contents (in_version (v_of st)))|done].
    + apply Hdiff; [by apply (all_entries_differ ucmp contents' (in_version (v_of st')))|done].
    + intros e. rewrite !elem_of_app. intros [|[|He]]; auto.
    + intros e He Hn. rewrite !elem_of_app in He, Hn. destruct (Hgone e) as [(e' & He' & Hk & Hlt)|(Ht & Hle & Hnew)]; [tauto|tauto| |].
      * left. exists e'. split; [rewrite !elem_of_app; auto|done].
      * right. split; [done|]. split; [done|]. intros e2 He2 Hk. assert (e ∈ all_entries contents (v_of st)) as Hin by tauto.
        rewrite !elem_of_app in He2. destruct He2 as [He2|[He2|He2]]; [by apply (O2 e2 e)|by apply (O3 e2 e)|by apply Hnew].
    + done.
    + cbn [read_result]. by rewrite Ht.
Qed.
End compacted_store.

(** * The edit *)

Lemma elem_of_set_insert x l y : y ∈ set_insert x l <-> y = x \/ y ∈ l.
Proof.
  split; [apply set_insert_elem|]. induction l as [|z l IH]; cbn [set_insert]; [intros [->|H]; [left|by apply elem_of_nil in H]|]. repeat case_decide; rewrite !elem_of_cons; try tauto.
  intros [->|Hy]; [|tauto]. left. destruct x as [a b], z as [a' b']. unfold deleted_lt in *. cbn in *. f_equal; lia.
Qed.

Definition out_meta (out : Output) : FileMetaData := NewFile (out_number out) (out_file_size out) (out_smallest out) (out_largest out).

(** The edit of [InstallCompactionResults] and of a trivial move, as a list of calls. *)
Definition edit_ops (level : Z) (pointer : InternalKey) (inputs0 inputs1 : list FileMetaData) (metas : list FileMetaData) : list EditOp :=
  OpCompactPointer level pointer :: map (fun f => OpRemoveFile level (number f)) inputs0 ++ map (fun f => OpRemoveFile (level + 1) (number f)) inputs1 ++
  map (fun f => OpAddFile (level + 1) (number f) (file_size f) (smallest f) (largest f)) metas.
Definition compaction_edit (level : Z) (pointer : InternalKey) (inputs0 inputs1 : list FileMetaData) (metas : list FileMetaData) : VersionEdit :=
  foldl apply_op NewVersionEdit (edit_ops level pointer inputs0 inputs1 metas).

Lemma foldl_map {X Y Z'} (f : X -> Y) (g : Z' -> Y -> Z') l a : foldl g a (map f l) = foldl (fun a x => g a (f x)) a l.
Proof. revert a. induction l as [|x l IH]; intros a; [done|]. apply IH. Qed.

Lemma install_edit c outputs pointer :
  c_edit c = SetCompactPointer (c_level c) pointer NewVersionEdit ->
  foldl (fun edit out => AddFile (c_level c + 1) (out_number out) (out_file_size out) (out_smallest out) (out_largest out) edit) (AddInputDeletions c (c_edit c)) outputs =
  compaction_edit (c_level c) pointer (c_inputs0 c) (c_inputs1 c) (map out_meta outputs).
Proof. intros E. unfold compaction_edit, edit_ops, AddInputDeletions. rewrite E. cbn [foldl]. by rewrite !foldl_app, !foldl_map. Qed.

Lemma removes_fields level fs e :
  let e' := foldl apply_op e (map (fun f => OpRemoveFile level (number f)) fs) in
  new_files_ e' = new_files_ e /\ has_comparator_ e' = has_comparator_ e /\ forall p, p ∈ deleted_files_ e' <-> p ∈ deleted_files_ e \/ exists f, f ∈ fs /\ p = (level, number f).
Proof.
  revert e. induction fs as [|f fs IH]; intros e; cbn [map foldl]; [split_and!; [done|done|]; intros p; split; [by left|intros [|(f & Hf & _)]; [done|by apply elem_of_nil in Hf]]|].
  destruct (IH (apply_op e (OpRemoveFile level (number f)))) as (-> & -> & H). destruct e as [x1 x2 x3 x4 x5 x6 x7 x8 x9 x10 x11 x12 x13]; cbn [apply_op VersionEdit.RemoveFile new_files_ has_comparator_ deleted_files_] in *. split_and!; [done|done|].
  intros p. rewrite H, elem_of_set_insert. setoid_rewrite elem_of_cons. split; [intros [[->|]|(g & ? & ?)]; eauto|intros [|(g & [->|] & ?)]; eauto].
Qed.

Lemma adds_fields level fs e :
  let e' := foldl apply_op e (map (fun f => OpAddFile level (number f) (file_size f) (smallest f) (largest f)) fs) in
  new_files_ e' = new_files_ e ++ map (fun f => (level, NewFile (number f) (file_size f) (smallest f) (largest f))) fs /\ has_comparator_ e' = has_comparator_ e /\ deleted_files_ e' = deleted_files_ e.
Proof.
  revert e. induction fs as [|f fs IH]; intros e; cbn [map foldl]; [by rewrite app_nil_r|]. destruct (IH (apply_op e (OpAddFile level (number f) (file_size f) (smallest f) (largest f)))) as (-> & -> & ->).
  destruct e as [x1 x2 x3 x4 x5 x6 x7 x8 x9 x10 x11 x12 x13]; cbn. by rewrite <-app_assoc.
Qed.

Lemma compaction_edit_fields level pointer inputs0 inputs1 metas :
  let edit := compaction_edit level pointer inputs0 inputs1 metas in
  new_files_ edit = map (fun f => (level + 1, NewFile (number f) (file_size f) (smallest f) (largest f))) metas /\ has_comparator_ edit = false /\
  forall p, p ∈ deleted_files_ edit <-> (exists f, f ∈ inputs0 /\ p = (level, number f)) \/ (exists f, f ∈ inputs1 /\ p = (level + 1, number f)).
Proof.
  intros edit. unfold edit, compaction_edit, edit_ops. cbn [foldl]. rewrite !foldl_app. set (e0 := apply_op _ _).
  destruct (removes_fields level inputs0 e0) as (N0 & C0 & D0). set (e1 := foldl _ e0 _) in *. destruct (removes_fields (level + 1) inputs1 e1) as (N1 & C1 & D1). set (e2 := foldl _ e1 _) in *.
  destruct (adds_fields (level + 1) metas e2) as (-> & -> & ->). rewrite N1, N0, C1, C0. split; [done|]. split; [done|]. intros p. rewrite D1, D0.
  assert (deleted_files_ e0 = []) as -> by done. split; [intros [[H|H]|H]; [by apply elem_of_nil in H|auto|auto]|tauto].
Qed.

Lemma compaction_edit_logs level pointer inputs0 inputs1 metas :
  let edit := compaction_edit level pointer inputs0 inputs1 metas in has_log_number_ edit = false /\ has_prev_log_number_ edit = false.
Proof.
  assert (forall ops e, Forall (fun o => match o with OpLogNumber _ | OpPrevLogNumber _ => False | _ => True end) ops ->
    has_log_number_ (foldl apply_op e ops) = has_log_number_ e /\ has_prev_log_number_ (foldl apply_op e ops) = has_prev_log_number_ e) as H.
  { induction ops as [|op ops IH]; intros e; [done|]. intros [Ho Hops]%Forall_cons. cbn [foldl]. destruct (IH (apply_op e op) Hops) as [-> ->]. destruct e, op; done. }
  apply (H _ NewVersionEdit). unfold edit_ops. constructor; [done|]. rewrite !Forall_app, !Forall_map. split_and!; apply Forall_true; done.
Qed.

Lemma compaction_edit_fits cmp_name level pointer inputs0 inputs1 metas :
  0 <= level < kNumLevels - 1 -> key_ok pointer -> Forall (fun f => is_u64 (number f)) (inputs0 ++ inputs1) ->
  Forall (fun f => is_u64 (number f) /\ is_u64 (file_size f) /\ key_ok (smallest f) /\ key_ok (largest f)) metas -> edit_fits cmp_name (compaction_edit level pointer inputs0 inputs1 metas).
Proof.
  intros Hl Hp Hin Hm. split; [|intros E; by rewrite (proj1 (proj2 (compaction_edit_fields level pointer inputs0 inputs1 metas))) in E]. apply edit_ok_foldl; [apply NewVersionEdit_ok|].
  apply Forall_app in Hin as [H0 H1]. constructor; [split; [unfold level_ok; lia|done]|]. rewrite !Forall_app, !Forall_map. split_and!.
  - eapply Forall_impl; [exact H0|]. intros f Hf. cbn. split; [unfold level_ok; lia|done].
  - eapply Forall_impl; [exact H1|]. intros f Hf. cbn. split; [unfold level_ok; lia|done].
  - eapply Forall_impl; [exact Hm|]. intros f (? & ? & ? & ?). cbn. split; [unfold level_ok; lia|done].
Qed.

Lemma compaction_edit_fresh used level pointer inputs0 inputs1 metas :
  0 <= level < kNumLevels - 1 -> Forall VersionSet.has_key metas -> NoDup (map number metas) -> Forall (fun f => (level + 1, number f) ∉ used) metas ->
  fresh_edit used (compaction_edit level pointer inputs0 inputs1 metas).
Proof.
  intros Hl Hk Hn Hu. destruct (compaction_edit_fields level pointer inputs0 inputs1 metas) as (N & _ & D). unfold fresh_edit, edit_files_ok. rewrite N. split_and!.
  - rewrite Forall_map. eapply Forall_impl; [exact Hk|]. intros f Hf. cbn. split; [unfold level_ok; lia|done].
  - apply Forall_forall. intros p [(f & _ & ->)|(f & _ & ->)]%D; cbn; unfold level_ok; lia.
  - rewrite map_map. cbn. replace (map (fun f => file_key (level + 1, NewFile (number f) (file_size f) (smallest f) (largest f))) metas) with (map (pair (level + 1)) (map number metas)) by (by rewrite map_map).
    apply NoDup_fmap_2; [|done]. by intros a b [= ->].
  - intros nf Hnf. apply list_elem_of_fmap in Hnf as (f & -> & Hf). exact (proj1 (Forall_forall _ _) Hu f Hf).
Qed.

(** * Installing an edit *)

Section results.
Context (extend : Z -> slice -> Z) `{!Checksum extend} (snappy : option SnappyLib) (zstd : option ZstdLib).
Context (dbname : slice) (in_scratch reuse_logs : bool).
Context (ucmp : Comparator) `{!ComparatorLaws any_key ucmp} `{!SeparatorSame any_key ucmp} (cmp_name : slice) (Hname : is_u32 (slen cmp_name)) (max_file_size : Z).
Context (o : Options) (Ho : opt_comparator o = InternalKeyComparator ucmp).

Abbreviation input_ok es := (table_input extend snappy zstd o is_internal_key (table_of es)).
Abbreviation db_ok := (db_ok extend snappy zstd dbname in_scratch reuse_logs ucmp cmp_name max_file_size o).
Abbreviation reachable := (reachable ucmp cmp_name extend dbname max_file_size reuse_logs).
Abbreviation v_of st := (current (db_versions st)).
Abbreviation tname n := (TableFileName dbname n).

Context (contents : FileMetaData -> list entry) (used : list (Z * Z)) (mes ies : list entry) (st : DBState) (Hdb : db_ok contents used mes ies st).
Context (L : Z) (HL : 0 <= L < kNumLevels - 1) (inputs0 inputs1 : list FileMetaData) (Hci : compaction_inputs ucmp (v_of st) L inputs0 inputs1).

Abbreviation v := (v_of st).
Abbreviation remains := (remains v L inputs0 inputs1).

Lemma db_version : version_ok ucmp contents (in_version v) v.
Proof. apply Hdb. Qed.

Lemma deleted_iff l g : 0 <= l < kNumLevels -> g ∈ level_files v l ->
  ((exists f, f ∈ inputs0 /\ (l, number g) = (L, number f)) \/ (exists f, f ∈ inputs1 /\ (l, number g) = (L + 1, number f))) <-> (l = L /\ g ∈ inputs0) \/ (l = L + 1 /\ g ∈ inputs1).
Proof.
  intros Hl Hg. assert (forall f, f ∈ level_files v l -> number g = number f -> g = f) as Hu.
  { intros f Hf En. apply (level_numbers ucmp contents (in_version v) v l g f); [apply Hdb|done|done|done|done|]. apply Hdb; [by exists l|by exists l|done]. }
  split.
  - intros [(f & Hf & [= -> E])|(f & Hf & [= -> E])]; [left|right]; (split; [done|]); rewrite (Hu f); try done; [by apply (level_input0 ucmp v L inputs0 inputs1 Hci)|by apply (level_input1 ucmp v L inputs0 inputs1 Hci)].
  - intros [[-> H]|[-> H]]; [left|right]; by exists g.
Qed.

(** The version set behind the edit. *)
Lemma install_levels vs1 e1 pointer metas :
  let edit := compaction_edit L pointer inputs0 inputs1 metas in
  current vs1 = v -> reachable used vs1 e1 -> edit_fits cmp_name edit -> fresh_edit used edit -> given vs1 edit ->
  exists edit' vs2 e2, LogAndApply ucmp cmp_name extend dbname edit vs1 e1 = (OK, edit', vs2, e2) /\ reachable (map (fun f => (L + 1, number f)) metas ++ used) vs2 e2 /\
    vs_next_file_number vs2 = vs_next_file_number vs1 /\ same_log_numbers vs1 vs2 /\ vs_descriptor_log vs2 <> None /\ pick_ok (current vs2) /\ lv_id (current_live vs2) = vs_next_id vs1 /\
    ((forall m, is_u64 m -> env_files e2 !! tname m = env_files e1 !! tname m) /\ (forall log, logs_kept dbname log e1 e2) /\
      recorded_sequence ucmp cmp_name extend dbname max_file_size reuse_logs e2 (vs_last_sequence vs1)) /\
    (forall l, 0 <= l < kNumLevels -> Forall VersionSet.has_key (level_files (current vs2) l) /\ ordered ucmp (level_files (current vs2) l)) /\
    forall l g, 0 <= l < kNumLevels -> g ∈ level_files (current vs2) l <-> remains l g \/ (l = L + 1 /\ g ∈ map applied_file metas).
Proof.
  intros edit Ev Hr Hfits Hfr Hgv. destruct (reachable_apply _ _ _ _ _ _ Hname _ _ _ _ Hr Hfits Hfr Hgv) as (edit' & vs2 & e2 & E & Hr2). exists edit', vs2, e2. split; [done|].
  destruct (LogAndApply_current _ _ _ _ _ _ _ _ _ _ _ E ok_OK) as (-> & Hnx & Hdesc & cp & Hcur). destruct (compaction_edit_fields L pointer inputs0 inputs1 metas) as (N & _ & D). fold edit in N, D.
  destruct (complete_edit_fields vs1 edit) as (F1 & F2 & _). rewrite N, map_map in Hr2. change (map (fun x => file_key (L + 1, NewFile (number x) (file_size x) (smallest x) (largest x))) metas) with (map (fun f => (L + 1, number f)) metas) in Hr2.
  assert (forall l, level_files (current vs2) l = level_files (SaveTo ucmp (Builder_Apply ucmp edit cp (NewBuilder (current vs1))).2) l) as Hlev.
  { intros l. rewrite Hcur. unfold level_files at 1. rewrite files_Finalize. unfold level_files, Builder_Apply. cbn [snd]. by rewrite F1, F2. }
  split; [exact Hr2|]. split; [done|]. split; [split; [by apply (LogAndApply_sequence _ _ _ _ _ _ _ _ _ _ _ E)|destruct (LogAndApply_logs _ _ _ _ _ _ _ _ _ _ _ E ok_OK) as [-> ->]; unfold edit; by destruct (compaction_edit_logs L pointer inputs0 inputs1 metas) as [-> ->]]|]. split; [done|]. split; [rewrite Hcur; by apply Finalize_pick|]. split; [apply (ids_LogAndApply _ _ _ _ _ _ _ _ _ _ _ E); [by eapply reachable_ids|apply ok_OK]|]. split; [|split].
  - split; [|by apply (LogAndApply_kept extend dbname reuse_logs ucmp cmp_name Hname max_file_size used vs1 e1 edit _ _ _ _ Hr Hfits Hfr Hgv E)].
    intros m Hm. destruct (reachable_state _ _ _ _ _ _ Hname _ _ _ Hr) as (_ & _ & _ & Hman & _). apply (LogAndApply_files _ _ _ _ _ _ _ _ _ _ _ (tname m) Hman E).
    by apply (reachable_not_descriptor extend dbname reuse_logs ucmp cmp_name Hname max_file_size used _ e1 _ m kTableFile Hr (named_table dbname m Hm)).
  - intros l Hl. rewrite Hlev. destruct (reachable_levels _ _ _ _ _ _ Hname used vs1 e1 edit cp l Hr Hfr Hl) as (H1 & H2 & _). by split.
  - intros l g Hl. rewrite Hlev. destruct (reachable_levels _ _ _ _ _ _ Hname used vs1 e1 edit cp l Hr Hfr Hl) as (_ & _ & H3). rewrite H3, Ev, D, N.
    assert (new_at l (map (fun f => (L + 1, NewFile (number f) (file_size f) (smallest f) (largest f))) metas) g <-> l = L + 1 /\ g ∈ map applied_file metas) as ->.
    { unfold new_at. split.
      - intros (f & Hf & ->). apply list_elem_of_fmap in Hf as (x & [= -> ->] & Hx). split; [done|]. apply list_elem_of_fmap. by exists x.
      - intros [-> Hg]. apply list_elem_of_fmap in Hg as (x & -> & Hx). eexists. split; [apply list_elem_of_fmap; exists x; split; [reflexivity|done]|done]. }
    unfold CompactionVersion.remains. split; (intros [[Hg Hn]|H]; [left; split; [done|]|by right]).
    + rewrite (deleted_iff l g Hl Hg) in Hn. tauto.
    + rewrite (deleted_iff l g Hl Hg). tauto.
Qed.

(** ** The outputs *)

Abbreviation bytes_of := (bytes_of extend snappy zstd o).
Abbreviation n0 := (vs_next_file_number (db_versions st)).

Definition out_file (n : Z) (es : list entry) : FileMetaData := applied_file (out_meta (finished extend snappy zstd o n es)).

Fixpoint out_files (n : Z) (chunks : list (list entry)) : list FileMetaData :=
  match chunks with [] => [] | es :: chunks => out_file n es :: out_files (n + 1) chunks end.

Lemma out_files_eq n chunks : map applied_file (map out_meta (finished_outputs extend snappy zstd o n chunks)) = out_files n chunks.
Proof.
  revert n. induction chunks as [|es chunks IH]; intros n; [done|]. unfold finished_outputs. cbn [imap map out_files]. rewrite Z.add_0_r. f_equal. rewrite <-IH. f_equal. f_equal. apply imap_ext. intros i x _.
  cbn. f_equal. lia.
Qed.

Lemma elem_of_out_files n chunks g : g ∈ out_files n chunks <-> exists i es, chunks !! i = Some es /\ g = out_file (n + Z.of_nat i) es.
Proof.
  revert n. induction chunks as [|es chunks IH]; intros n; cbn [out_files]; [split; [by intros ?%elem_of_nil|by intros (i & es & H & _)]|]. rewrite elem_of_cons, IH. split.
  - intros [->|(i & x & Hi & ->)]; [exists 0%nat, es; by rewrite Z.add_0_r|]. exists (S i), x. split; [done|]. f_equal. lia.
  - intros ([|i] & x & Hi & ->); [injection Hi as <-; left; by rewrite Z.add_0_r|right]. exists i, x. split; [done|]. f_equal. lia.
Qed.

(** The entries of the files, with the outputs. *)
Definition contents_out (chunks : list (list entry)) (g : FileMetaData) : list entry :=
  if n0 <=? number g then default [] (chunks !! Z.to_nat (number g - n0)) else contents g.

Lemma contents_out_old chunks g : number g < n0 -> contents_out chunks g = contents g.
Proof. intros H. unfold contents_out. by rewrite (proj2 (Z.leb_gt _ _)). Qed.

Lemma contents_out_new chunks i es : chunks !! i = Some es -> contents_out chunks (out_file (n0 + Z.of_nat i) es) = es.
Proof. intros H. unfold contents_out. cbn. rewrite (proj2 (Z.leb_le _ _)) by lia. replace (Z.to_nat (n0 + Z.of_nat i - n0)) with i by lia. by rewrite H. Qed.

Lemma contents_out_files chunks : map (contents_out chunks) (out_files n0 chunks) = chunks.
Proof.
  apply list_eq. intros i. rewrite lookup_map. assert (forall n l, out_files n l !! i = (fun es => out_file (n + Z.of_nat i) es) <$> l !! i) as Hl.
  { induction i as [|i IH]; intros n [|es l]; cbn [out_files]; try done; [cbn; by rewrite Z.add_0_r|]. change ((out_file n es :: out_files (n + 1) l) !! S i) with (out_files (n + 1) l !! i).
    rewrite IH. cbn. by replace (n + 1 + Z.of_nat i) with (n + Z.of_nat (S i)) by lia. }
  rewrite Hl. destruct (chunks !! i) as [es|] eqn:E; [|done]. cbn. f_equal. by apply contents_out_new.
Qed.

Context (chunks : list (list entry)) (Hchunks : Forall (fun es => es <> [] /\ input_ok es) chunks) (Hes : entries_ok ucmp (concat chunks)) (Hd : seqs_differ (concat chunks)).

Lemma chunk_entries i es : chunks !! i = Some es -> entries_ok ucmp es /\ seqs_differ es /\ exists e0 e1, head es = Some e0 /\ last es = Some e1.
Proof.
  intros Hi. assert (es `sublist_of` concat chunks) as Hsub.
  { apply list_elem_of_split_length in Hi as (l1 & l2 & -> & _). rewrite concat_app. cbn [concat]. by apply sublist_inserts_l, sublist_inserts_r. }
  split; [by apply (entries_ok_sublist ucmp _ _ Hsub)|]. split; [by apply (seqs_differ_sublist _ _ Hsub)|].
  destruct (proj1 (Forall_lookup _ _) Hchunks i es Hi) as [Hne _]. destruct es as [|e0 es]; [done|]. destruct (last (e0 :: es)) as [e1|] eqn:E; [|by apply last_None in E]. by exists e0, e1.
Qed.

(** The bounds of an output. *)
Lemma out_bounds n es e0 e1 : head es = Some e0 -> last es = Some e1 ->
  rep_ (smallest (out_file n es)) = entry_internal_key e0 /\ rep_ (largest (out_file n es)) = entry_internal_key e1.
Proof. intros H0 H1. cbn. unfold first_key, last_key. rewrite H0, H1. done. Qed.

Lemma out_holds (stored : FileMetaData -> Prop) g : g ∈ out_files n0 chunks -> stored g -> file_holds ucmp (contents_out chunks) stored g.
Proof.
  intros (i & es & Hi & ->)%elem_of_out_files Hst. destruct (chunk_entries i es Hi) as (H1 & H2 & e0 & e1 & H3 & H4). destruct (out_bounds (n0 + Z.of_nat i) es e0 e1 H3 H4) as [B1 B2].
  apply (file_holds_intro ucmp _ _ _ e0 e1); rewrite ?(contents_out_new chunks i es Hi); done.
Qed.

Abbreviation icmp := (InternalKeyComparator ucmp).

Lemma out_sorted : sorted_files ucmp (out_files n0 chunks).
Proof.
  clear Hd. generalize n0. revert Hes. induction Hchunks as [|es l [Hne _] Hl IH]; intros Hs n; cbn [out_files]; [constructor|]. cbn [concat] in Hs. destruct Hs as [Hs1 Hs2].
  unfold table_of in Hs2. rewrite map_app in Hs2. constructor.
  - apply IH; [done|]. split; [by apply Forall_app in Hs1 as [_ ?]|by apply StronglySorted_app_1_r in Hs2].
  - apply Forall_forall. intros g (i & es' & Hi & ->)%elem_of_out_files. destruct (proj1 (Forall_lookup _ _) Hl i es' Hi) as [Hne' _].
    destruct (last es) as [e1|] eqn:E1; [|by apply last_None in E1]. destruct (head es') as [e0|] eqn:E0; [|by apply head_None in E0].
    cbn. unfold first_key, last_key. rewrite E1, E0. cbn. apply (StronglySorted_app_1_elem_of _ _ _ (entry_internal_key e1, e_value e1) (entry_internal_key e0, e_value e0) Hs2).
    + apply list_elem_of_fmap. exists e1. split; [done|]. by apply last_Some_elem_of.
    + apply list_elem_of_fmap. exists e0. split; [done|]. apply list_elem_of_In, in_concat. exists es'. split; [apply list_elem_of_In; by eapply list_elem_of_lookup_2|].
      apply list_elem_of_In. by apply head_Some_elem_of.
Qed.

Lemma out_stored g : g ∈ out_files n0 chunks -> is_u64 (number g) -> table_stored extend snappy zstd o (contents_out chunks) g.
Proof.
  intros (i & es & Hi & ->)%elem_of_out_files Hn. destruct (proj1 (Forall_lookup _ _) Hchunks i es Hi) as [_ Hin]. split; [done|]. rewrite (contents_out_new chunks i es Hi). split; [done|].
  intros bytes Hb. destruct (bytes_of_spec extend snappy zstd ucmp o Ho es Hin) as (Hb' & _). destruct Hb as (r & Rr & ->), Hb' as (r' & Rr' & E). rewrite Rr in Rr'. injection Rr' as <-. cbn. by rewrite E.
Qed.

(** The outputs fit between the files that are left. *)
Lemma out_fit f g :
  (forall e, e ∈ concat chunks -> exists h, h ∈ inputs0 ++ inputs1 /\ e ∈ contents h) -> f ∈ out_files n0 chunks -> remains (L + 1) g ->
  Compare icmp (rep_ (largest f)) (rep_ (smallest g)) < 0 \/ Compare icmp (rep_ (largest g)) (rep_ (smallest f)) < 0.
Proof.
  intros HK (i & es & Hi & ->)%elem_of_out_files (Hg & _ & Hn1). destruct (chunk_entries i es Hi) as (_ & _ & e0 & e1 & H0 & H1). destruct (out_bounds (n0 + Z.of_nat i) es e0 e1 H0 H1) as [-> ->].
  assert (forall e, e ∈ es -> exists h, h ∈ inputs0 ++ inputs1 /\ Compare icmp (rep_ (smallest h)) (entry_internal_key e) <= 0 /\ Compare icmp (entry_internal_key e) (rep_ (largest h)) <= 0 /\ file_ok ucmp h) as Hb.
  { intros e He. destruct (HK e) as (h & Hh & He'); [apply list_elem_of_In, in_concat; exists es; split; apply list_elem_of_In; [by eapply list_elem_of_lookup_2|done]|].
    destruct (input_level ucmp v L inputs0 inputs1 Hci h Hh) as (l & Hl & Hhv & _). exists h. split; [done|].
    destruct (proj1 (Forall_forall _ _) (vo_files _ _ _ _ db_version l ltac:(lia)) h Hhv) as (_ & _ & _ & Hok & Hbd & _).
    destruct (Hbd e He'). done. }
  assert (file_ok ucmp g) as Hgok. { destruct (proj1 (Forall_forall _ _) (vo_files _ _ _ _ db_version (L + 1) ltac:(lia)) g Hg) as (_ & _ & _ & Hok & _). done. }
  pose proof (small_internal ucmp g Hgok) as Sg. pose proof (large_internal ucmp g Hgok) as Lg. destruct (ci_left1 _ _ _ _ _ Hci g Hg ltac:(by intros ?; apply Hn1)) as [Hap|Hap].
  - right. destruct (Hb e0 ltac:(by apply head_Some_elem_of)) as (h & Hh & Hlo & _ & Hok). eapply (compare_lt_le (key := is_internal_key)); [exact Lg|exact (small_internal ucmp h Hok)|apply AppendInternalKey_internal|by apply Hap|done].
  - left. destruct (Hb e1 ltac:(by apply last_Some_elem_of)) as (h & Hh & _ & Hhi & Hok). eapply (compare_le_lt (key := is_internal_key)); [apply AppendInternalKey_internal|exact (large_internal ucmp h Hok)|exact Sg|done|].
    apply (user_lt ucmp); [exact (large_internal ucmp h Hok)|exact Sg|by apply Hap].
Qed.

Lemma out_numbers g : g ∈ out_files n0 chunks -> n0 <= number g < n0 + slen chunks.
Proof. intros (i & es & Hi%lookup_lt_Some & ->)%elem_of_out_files. cbn. lia. Qed.

Abbreviation progress := (progress extend snappy zstd dbname in_scratch reuse_logs ucmp cmp_name max_file_size o used st).

Context (compact : CompactionState) (st1 : DBState) (Hp : progress chunks None compact st1).

Lemma progress_next : vs_next_file_number (db_versions st1) = n0 + slen chunks /\ current (db_versions st1) = v /\ vs_next_id (db_versions st1) = vs_next_id (db_versions st) /\
  same_log_numbers (db_versions st) (db_versions st1) /\ 0 <= n0 /\ n0 + slen chunks + 1 < 2 ^ 64.
Proof.
  clear HL Hci. pose proof Hdb as [_ _ _ _ Hr _ _ _ _ _ _ _]. destruct (reachable_state _ _ _ _ _ _ Hname _ _ _ Hr) as (_ & (_ & _ & Hn & _) & _). destruct (progress_numbers _ _ _ _ _ _ _ _ Hname _ _ _ _ _ _ _ _ Hp) as [Hmax _].
  pose proof (length_outputs _ _ _ _ _ _ _ _ _ _ _ _ _ _ _ _ Hp) as Hlen. cbv beta iota in Hlen. rewrite Z.add_0_r in Hlen. rewrite Hlen in Hmax. pose proof Hp as [_ _ _ Ev _ _ _ _ _ _]. rewrite Hlen in Ev. rewrite Ev.
  destruct (set_next_fields (n0 + slen chunks) (db_versions st)) as [-> ->]. split_and!; [done|done|by destruct (db_versions st)|by destruct (db_versions st)|unfold in_u in Hn; lia|done].
Qed.

(** The files and the cached tables: [tc2] has no more tables than [st1], and the files of the new version. *)
Lemma out_cache (live : FileMetaData -> Prop) tc2 :
  (forall g, live g -> in_version v g \/ g ∈ out_files n0 chunks) -> env_faults (tc_env tc2) = [] ->
  (forall g, live g -> env_files (tc_env tc2) !! tname (number g) = env_files (tc_env (db_table_cache st1)) !! tname (number g)) ->
  (forall k t, tc_cache tc2 !! k = Some t -> tc_cache (db_table_cache st1) !! k = Some t) ->
  cache_inv extend snappy zstd dbname in_scratch o (contents_out chunks) live tc2 /\ forall m, n0 + slen chunks <= m -> is_u64 m -> tc_cache tc2 !! EncodeFixed64 m = None.
Proof.
  intros Hlive Hf Hfiles Hcache. destruct progress_next as (_ & _ & _ & Hn0 & Hmax). pose proof Hp as [_ _ _ _ _ _ _ Hold Hnew Hc _].
  assert (forall g, in_version v g -> number g < n0 /\ is_u64 (number g)) as Hnum by (intros g Hg; by apply (file_numbers extend snappy zstd dbname in_scratch reuse_logs ucmp cmp_name Hname max_file_size o contents used mes ies st g)).
  pose proof Hdb as [_ _ _ _ _ _ _ _ _ _ [_ Hci0] Hun]. split; [split; [done|]|].
  - intros g Hg. rewrite (Hfiles g Hg). destruct (Hlive g Hg) as [Hgv|Hgn].
    + destruct (Hnum g Hgv) as [Hlt Hu]. destruct (Hci0 g Hgv) as [Hd0 Hc0]. rewrite contents_out_old, Hold by done. split; [done|]. intros t Ht. apply Hcache, Hc in Ht as [Ht|(i & es & id & Hi & Ek & Hop)]; [by apply Hc0|].
      exfalso. apply lookup_lt_Some in Hi. apply EncodeFixed64_inj in Ek; [lia|done|unfold in_u in *; lia].
    + apply elem_of_out_files in Hgn as (i & es & Hi & ->). rewrite (contents_out_new chunks i es Hi). cbn [number out_file applied_file out_meta finished NewFile out_number]. pose proof (lookup_lt_Some _ _ _ Hi) as Hil.
      destruct (proj1 (Forall_lookup _ _) Hchunks i es Hi) as [_ Hin]. split; [exists (bytes_of es); split; [by apply Hnew|by apply (bytes_of_spec extend snappy zstd ucmp o Ho)]|].
      intros t Ht. apply Hcache, Hc in Ht as [Ht|(j & es' & id & Hj & Ek & Hop)]; [rewrite Hun in Ht; [done|lia|unfold in_u in *; lia]|]. pose proof (lookup_lt_Some _ _ _ Hj) as Hjl.
      apply EncodeFixed64_inj in Ek; [|unfold in_u in *; lia..]. assert (j = i) as -> by lia. rewrite Hi in Hj. injection Hj as <-. by exists id.
  - intros m Hm Hu. destruct (tc_cache tc2 !! EncodeFixed64 m) as [t|] eqn:E; [|done]. exfalso. apply Hcache, Hc in E as [E|(j & es' & id & Hj%lookup_lt_Some & Ek & _)]; [rewrite Hun in E; [done|lia|done]|].
    apply EncodeFixed64_inj in Ek; [lia|done|unfold in_u in *; lia].
Qed.

Context (ins : list entry) (ss : Z) (base : slice -> bool).
Context (Hins : ins ≡ₚ concat (map contents (inputs0 ++ inputs1))) (Hok : entries_ok ucmp ins) (Hdiff : seqs_differ ins) (Hkept : concat chunks = kept_entries ss base None ins).
Context (Hbase : forall k, base k = true <-> forall level f, L + 1 < level < kNumLevels -> f ∈ level_files v level -> ~ Compaction.has_key ucmp k f).
Context (Hroom : slen (level_files v (L + 1)) + slen ins < 2 ^ 31).

Lemma out_entries e : e ∈ concat chunks -> exists h, h ∈ inputs0 ++ inputs1 /\ e ∈ contents h.
Proof. rewrite Hkept. intros He. apply (elem_of_level contents). rewrite <-Hins. eapply elem_of_sublist; [exact He|apply kept_sublist]. Qed.

(** Why an entry of the inputs is not in the outputs. *)
Lemma out_gone h e : h ∈ inputs0 ++ inputs1 -> e ∈ contents h -> e ∉ concat chunks -> gone_why ucmp contents v L inputs0 inputs1 ss (concat chunks) e.
Proof.
  intros Hh He Hn. rewrite Hkept in Hn |- *. assert (e ∈ ins) as Hin by (rewrite Hins; apply (elem_of_level contents); eauto).
  destruct (dropped_why ucmp ss base None ins e (entries_in_order ucmp ins Hok Hdiff) Hin Hn) as [(e' & He' & Hk & Hs)|(Ht & Hs & Hb & Hall)]; [left|right].
  - cbn [option_list app] in He'. rewrite Hins in He'. apply (elem_of_level contents) in He' as (h' & Hh' & He'). by exists h', e'.
  - split; [done|]. split; [done|]. split; [by apply Hbase|done].
Qed.

Lemma out_installed used' st' :
  db_mem st' = db_mem st /\ db_imm st' = db_imm st -> used' = map (fun f => (L + 1, number f)) (out_files n0 chunks) ++ used ->
  (forall l, 0 <= l < kNumLevels -> Forall VersionSet.has_key (level_files (v_of st') l) /\ ordered ucmp (level_files (v_of st') l)) ->
  (forall l g, 0 <= l < kNumLevels -> g ∈ level_files (v_of st') l <-> remains l g \/ (l = L + 1 /\ g ∈ out_files n0 chunks)) ->
  reachable used' (db_versions st') (tc_env (db_table_cache st')) -> vs_next_file_number (db_versions st') = n0 + slen chunks ->
  env_faults (tc_env (db_table_cache st')) = [] ->
  (forall g, in_version (v_of st') g -> env_files (tc_env (db_table_cache st')) !! tname (number g) = env_files (tc_env (db_table_cache st1)) !! tname (number g)) ->
  (forall k t, tc_cache (db_table_cache st') !! k = Some t -> tc_cache (db_table_cache st1) !! k = Some t) ->
  installed extend snappy zstd dbname in_scratch reuse_logs ucmp cmp_name max_file_size o contents st L inputs0 inputs1 (contents_out chunks) used' st' (out_files n0 chunks) ss.
Proof.
  intros Hrest -> Hord Hfiles Hr Hnx Hf Hdisk Hcache. destruct progress_next as (_ & _ & _ & Hn0 & Hmax).
  assert (forall g, in_version v g -> number g < n0 /\ is_u64 (number g)) as Hnum by (intros g Hg; by apply (file_numbers extend snappy zstd dbname in_scratch reuse_logs ucmp cmp_name Hname max_file_size o contents used mes ies st g)).
  assert (forall l g, 0 <= l < kNumLevels -> remains l g -> in_version v g) as Hrem by (intros l g Hl Hg; exists l; split; [done|apply Hg]).
  destruct (out_cache (in_version (v_of st')) (db_table_cache st')) as [Hci' Hun']; [|done|done|done|].
  { intros g (l & Hl & Hg). apply Hfiles in Hg as [Hg|[_ Hg]]; [left; by apply (Hrem l)|by right|done]. }
  assert (length (out_files n0 chunks) = length chunks) as Hlen by (rewrite <-(contents_out_files chunks) at 2; by rewrite length_map).
  assert (concat (map (contents_out chunks) (out_files n0 chunks)) = concat chunks) as EK by (by rewrite contents_out_files).
  pose proof Hdb as [_ _ _ _ _ Hu Hmv _ _ _ _ _]. split; try done; rewrite ?EK; try done.
  - intros l g Hl Hg. apply contents_out_old. by apply Hnum, (Hrem l).
  - pose proof (chunks_count extend snappy zstd o chunks Hchunks) as H1. pose proof (sublist_length _ _ (kept_sublist ss base None ins)) as H2. rewrite <-Hkept in H2. rewrite Hlen. lia.
  - split; [|apply out_sorted]. apply Forall_forall. intros g Hg. apply out_holds; [done|]. exists (L + 1). split; [lia|]. apply Hfiles; [lia|by right].
  - intros f g Hfo Hg. apply out_fit; [apply out_entries|done|done].
  - apply out_entries.
  - apply out_gone.
  - rewrite Hnx. apply Forall_app. split; [rewrite Forall_map; apply Forall_forall; intros g Hg; cbn; by apply out_numbers|]. eapply Forall_impl; [exact Hu|]. cbn. intros. lia.
  - intros l f l' Hl Hff. apply Hfiles in Hff as [Hff|[-> Hff]]; [| |done]; intros [Hin|Hin]%elem_of_app.
    + exfalso. apply list_elem_of_fmap in Hin as (g & [= -> E] & Hg%out_numbers). pose proof (Hnum f (Hrem l f Hl Hff)). lia.
    + apply (Hmv l f); [done|apply Hff|done].
    + apply list_elem_of_fmap in Hin as (g & [= -> E] & Hg). lia.
    + exfalso. pose proof (proj1 (Forall_forall _ _) Hu _ Hin) as H. cbn in H. apply out_numbers in Hff. lia.
  - intros f Hff. apply out_stored; [done|]. apply out_numbers in Hff. unfold in_u. lia.
  - intros f g Hff (l & Hl & Hg) En. apply Hfiles in Hg as [Hg|[_ Hg]]; [|unfold contents_out; rewrite En, (proj2 (Z.leb_le _ _)); [done|apply out_numbers in Hg; lia]|done]. exfalso. apply out_numbers in Hff. pose proof (Hnum g (Hrem l g Hl Hg)). lia.
  - by rewrite Hnx.
Qed.
End results.
