(* ===== verification/Background.v ===== *)
(** Background: the background compaction of db/db_impl.cc as a whole.  From a store that holds its entries,
    [BackgroundCompaction] ends in one that does, whether it moves a file, merges files or does nothing, and every read at a
    snapshot that is not older than the oldest live one has the same result. *)

From stdpp Require Import gmap sorting.
From Stdlib Require Import Strings.Byte Strings.String Floats.SpecFloat.
From S2P Require Import Prelude Coding Crc32c Comparator DbFormat Status Env FileSystem Filename VersionEdit FilterPolicy FilterBlock SkipList MemTable Format Iterator TwoLevelIterator Version Block Merger TableBuilder Table TableCache VersionSet Compaction Log Manifest Flush InternalIterator DbImpl Snapshot CompactionVersion CompactionWork CompactionLoop CompactionResults.

Lemma seqs_differ_NoDup es : seqs_differ es -> NoDup es.
Proof. induction es as [|e es IH]; intros Hd; [constructor|]. destruct Hd as [H1 H2]. constructor; [|by apply IH]. intros Hin. by apply (H1 e Hin). Qed.

Section background.
Context (extend : Z -> slice -> Z) `{!Checksum extend} (snappy : option SnappyLib) (zstd : option ZstdLib).
Context (dbname : slice) (in_scratch reuse_logs : bool).
Context (ucmp : Comparator) `{!ComparatorLaws any_key ucmp} `{!SeparatorSame any_key ucmp} (cmp_name : slice) (Hname : is_u32 (slen cmp_name)) (max_file_size : Z).
Context (o : Options) (Ho : opt_comparator o = InternalKeyComparator ucmp).

Abbreviation input_ok es := (table_input extend snappy zstd o is_internal_key (table_of es)).
Abbreviation db_ok := (db_ok extend snappy zstd dbname in_scratch reuse_logs ucmp cmp_name max_file_size o).
Abbreviation reachable := (reachable ucmp cmp_name extend dbname max_file_size reuse_logs).
Abbreviation v_of st := (current (db_versions st)).
Abbreviation cache_inv := (cache_inv extend snappy zstd dbname in_scratch o).

(** What a compaction of tables does beyond the reads: the rest of the store stays, the logs too, a number is taken for each output,
    and the entries go down. *)
Record stepped (contents : FileMetaData -> list entry) (st : DBState) (contents' : FileMetaData -> list entry) (st' : DBState) : Prop := {
  sp_rest : same_rest st st' /\ db_imm st' = db_imm st;
  sp_number : vs_next_file_number (db_versions st) <= vs_next_file_number (db_versions st') <= vs_next_file_number (db_versions st) + slen (all_entries contents (current (db_versions st)));
  sp_kept : kept_logs extend dbname reuse_logs ucmp cmp_name max_file_size st st';
  sp_sinks : sinks contents (current (db_versions st)) contents' (current (db_versions st'));
}.

(** ** Steps that keep the version *)

Lemma db_ok_versions contents used mes ies st vs' :
  db_ok contents used mes ies st -> current vs' = v_of st -> vs_next_file_number vs' = vs_next_file_number (db_versions st) ->
  reachable used vs' (tc_env (db_table_cache st)) -> db_ok contents used mes ies (set_version_set vs' st).
Proof. intros [H1 H2 H3 H4 H5 H6 H7 H8 H9 H10 H11 H12] Ev En Hr. split; cbn [set_version_set db_mem db_imm db_versions db_table_cache]; rewrite ?Ev, ?En; done. Qed.

Lemma db_ok_cache contents used mes ies st tc :
  db_ok contents used mes ies st -> cache_inv contents (in_version (v_of st)) tc -> only_opens (in_version (v_of st)) (db_table_cache st) tc -> db_ok contents used mes ies (set_table_cache tc st).
Proof.
  intros Hdb Hc [Ee Ho']. pose proof Hdb as [H1 H2 H3 H4 H5 H6 H7 H8 H9 H10 H11 H12]. split; cbn [set_table_cache db_mem db_imm db_versions db_table_cache]; try done; [by rewrite Ee|].
  intros n Hn Hu. destruct (tc_cache tc !! EncodeFixed64 n) as [t|] eqn:E; [|done]. exfalso. apply Ho' in E as [E|(f & Hf & E)]; [by rewrite H12 in E|].
  destruct (file_numbers extend snappy zstd dbname in_scratch reuse_logs ucmp cmp_name Hname max_file_size o contents used mes ies st f Hdb Hf) as [Hlt Hfu]. apply EncodeFixed64_inj in E; [lia|done|done].
Qed.

(** The choice of a compaction. *)
Lemma chosen_db contents used mes ies st c vs' :
  db_ok contents used mes ies st -> chosen ucmp (db_versions st) c vs' ->
  db_ok contents used mes ies (set_version_set vs' st) /\ current vs' = v_of st /\ vs_next_file_number vs' = vs_next_file_number (db_versions st) /\
  same_log_numbers (db_versions st) vs' /\ lv_id (current_live (db_versions st)) < vs_next_id vs' /\ exists f, f ∈ c_inputs0 c /\ key_ok (largest f) /\ c_edit c = SetCompactPointer (c_level c) (largest f) NewVersionEdit.
Proof.
  intros Hdb (Hci & HL & _ & _ & _ & f & Hf & Ee & ->). pose proof Hdb as [_ _ _ _ Hr _ _ _ _ _ _ _]. set (id := lv_id _). set (vs1 := Version_Ref id (db_versions st)).
  assert (f ∈ level_files (v_of st) (c_level c)) as Hfv by (by apply (level_input0 ucmp _ _ _ _ Hci)).
  destruct (reachable_file _ _ _ _ _ _ Hname _ _ _ (c_level c) f Hr ltac:(unfold level_ok; lia) Hfv) as (_ & _ & _ & _ & Hkey).
  assert (current vs1 = v_of st) as Ev by apply current_Version_Ref. assert (vs_compact_pointer vs1 = vs_compact_pointer (db_versions st)) as Ep by (by destruct (db_versions st)).
  pose proof (current_id _ (reachable_ids _ _ _ _ _ _ _ _ _ Hr)) as Hid. fold id in Hid. rewrite <-Ep. set (vs2 := set_compact_pointer _ vs1).
  assert (current vs2 = v_of st /\ vs_next_file_number vs2 = vs_next_file_number (db_versions st) /\ same_log_numbers (db_versions st) vs2 /\ vs_next_id vs2 = vs_next_id (db_versions st)) as (E1 & E2 & E3 & E4).
  { subst vs2 vs1. rewrite <-Ev. by destruct (db_versions st). }
  split; [|split; [done|]; split; [done|]; split; [done|]; split; [by rewrite E4|by exists f]]. apply db_ok_versions; [done|done|done|]. apply reach_pointer; [by apply reach_ref|apply Hkey].
Qed.

(** What a compaction is given: every set of entries that can be an output fits a table, and the numbers and the levels have
    room. *)
Record compactable (contents : FileMetaData -> list entry) (st : DBState) : Prop := {
  cp_input es : (forall e, e ∈ es -> e ∈ all_entries contents (v_of st)) -> entries_ok ucmp es -> seqs_differ es -> es <> [] -> input_ok es;
  cp_count l : 0 <= l < kNumLevels -> slen (level_files (v_of st) l) + slen (all_entries contents (v_of st)) < 2 ^ 31;
  cp_number : vs_next_file_number (db_versions st) + slen (all_entries contents (v_of st)) + 2 < 2 ^ 64;
  cp_error : ok (db_bg_error st) = true;
  cp_open : db_shutting_down st = false;
}.

(** ** The work *)

(** Whether no file of the levels below the outputs can have the key. *)
Definition base_below (v : Version) (L : Z) (k : slice) : bool :=
  forallb (fun level => forallb (fun f => negb ((Compare ucmp (InternalKey_user_key (smallest f)) k <=? 0) && (Compare ucmp k (InternalKey_user_key (largest f)) <=? 0))) (level_files v level))
    (seqZ (L + 2) (kNumLevels - (L + 2))).

Lemma base_below_spec v L k : base_below v L k = true <-> forall level f, L + 1 < level < kNumLevels -> f ∈ level_files v level -> ~ Compaction.has_key ucmp k f.
Proof.
  unfold base_below. rewrite forallb_forall. setoid_rewrite forallb_forall. setoid_rewrite <-list_elem_of_In. setoid_rewrite elem_of_seqZ. unfold Compaction.has_key. split.
  - intros H level f Hl Hf [H1 H2]. specialize (H level ltac:(lia) f Hf). by rewrite !(proj2 (Z.leb_le _ _)) in H by done.
  - intros H level Hl f Hf. specialize (H level f ltac:(lia) Hf). apply negb_true_iff, andb_false_iff. rewrite !Z.leb_gt. lia.
Qed.

Lemma set_next_same vs : set_next_file_number (vs_next_file_number vs) vs = vs.
Proof. by destruct vs. Qed.

Lemma set_compaction_same compact : set_compaction (cs_compaction compact) compact = compact.
Proof. by destruct compact. Qed.

Lemma cleanup_none compact st : cs_builder compact = None ->
  CleanupCompaction dbname compact st = set_pending_outputs (db_pending_outputs st ∖ list_to_set (map out_number (cs_outputs compact))) st.
Proof. intros E. unfold CleanupCompaction. by rewrite E. Qed.

Section work.
Context (contents : FileMetaData -> list entry) (used : list (Z * Z)) (mes ies : list entry) (st : DBState) (Hdb : db_ok contents used mes ies st).
Context (c : Compaction) (HL : 0 <= c_level c < kNumLevels - 1) (Hci : compaction_inputs ucmp (v_of st) (c_level c) (c_inputs0 c) (c_inputs1 c)).
Context (id : Z) (Hid : c_input_version c = Some (id, v_of st)) (Hptrs : c_level_ptrs c = repeat 0%nat (Z.to_nat kNumLevels)).
Context (Himm : db_imm st = None) (Hcp : compactable contents st) (snapshots : SnapshotList) (ss : Z).
Context (Hsnap : smallest_snapshot snapshots (vs_last_sequence (db_versions st)) = Some ss) (Hss : ss < kMaxSequenceNumber).

Abbreviation L := (c_level c).
Abbreviation v := (v_of st).
Abbreviation base := (base_below v L).

Lemma inputs_entries es : es ≡ₚ concat (map contents (c_inputs0 c ++ c_inputs1 c)) -> seqs_differ es -> (forall e, e ∈ es -> e ∈ all_entries contents v) /\ slen es <= slen (all_entries contents v).
Proof.
  intros Hp Hd. assert (forall e, e ∈ es -> e ∈ all_entries contents v) as Hin.
  { intros e He. rewrite Hp in He. apply (elem_of_level contents) in He as (h & Hh & He). destruct (input_level ucmp v L _ _ Hci h Hh) as (l & Hl & Hhv & _).
    apply elem_of_all. exists l. split; [lia|]. apply elem_of_level. eauto. }
  split; [done|]. apply inj_le, NoDup_length_le; [by apply seqs_differ_NoDup|done].
Qed.

(** The loop, up to the installation of its results. *)
Lemma DoCompactionWork_loop fuel :
  slen (all_entries contents v) <= Z.of_nat fuel ->
  exists tc ins chunks compact st1,
    let st0 := set_table_cache tc st in
    db_ok contents used mes ies st0 /\ tc_env tc = tc_env (db_table_cache st) /\ ins ≡ₚ concat (map contents (c_inputs0 c ++ c_inputs1 c)) /\ entries_ok ucmp ins /\ seqs_differ ins /\
    progress extend snappy zstd dbname in_scratch reuse_logs ucmp cmp_name max_file_size o used st0 chunks None compact st1 /\
    concat chunks = kept_entries ss base None ins /\ work (cs_compaction compact) = work c /\
    DoCompactionWork extend snappy zstd dbname o in_scratch None ucmp cmp_name max_file_size (fun _ st => st) fuel snapshots (NewCompactionState c) st =
      let '(s, compact, st) := InstallCompactionResults extend dbname ucmp cmp_name compact st1 in Some (s, compact, if ok s then st else RecordBackgroundError s st).
Proof.
  intros Hfuel. unfold DoCompactionWork. rewrite Hsnap. cbn [mbind option_bind set_smallest_snapshot NewCompactionState cs_compaction]. pose proof Hdb as [_ _ _ _ _ _ _ Hv Hst Hsame Hc _].
  destruct (MakeInputIterator_spec extend snappy zstd dbname in_scratch None ucmp o Ho contents (in_version v) v Hst Hsame ltac:(done) Hv ltac:(intros l f Hl Hf; by exists l) c (db_table_cache st) HL Hci Hc)
    as (it & tc & ins & i & -> & Hc' & Hopens & Hp & Hes & Hd & Hi). cbn [mbind option_bind].
  pose proof (db_ok_cache _ _ _ _ _ _ Hdb Hc' Hopens) as Hdb0. set (st0 := set_table_cache tc st) in *. destruct (inputs_entries ins Hp Hd) as [Hin Hlen].
  destruct (pos_SeekToFirst it i Hi) as (it0 & -> & Hi0). cbn [mbind option_bind]. pose proof Hdb0 as [_ _ _ _ Hr0 _ _ _ _ _ _ Hun0].
  destruct (reachable_state _ _ _ _ _ _ Hname _ _ _ Hr0) as (_ & (_ & _ & Hn0 & _) & _). assert (levels_ok ucmp v) as Hlv by (apply (version_levels_ok ucmp contents (in_version v)); done).
  set (compact0 := MkCompactionState c ss [] None 0).
  assert (looped extend snappy zstd dbname in_scratch reuse_logs ucmp cmp_name max_file_size o used st0 v ss base c [] [] None compact0 NoLastKey st0) as Hloop0.
  { split; try done; [|intros k _; change (c_level_ptrs (cs_compaction compact0)) with (c_level_ptrs c); rewrite Hptrs; apply ptrs_ok_start]. split; try done; [change (slen (cs_outputs compact0)) with 0; rewrite Z.add_0_r; symmetry; apply set_next_same|intros k t Ht; by left]. }
  assert (forall es, es `sublist_of` ins -> es <> [] -> input_ok es) as Hsub.
  { intros es Hs Hne. apply (cp_input _ _ Hcp); [intros e He; apply Hin; by eapply elem_of_sublist|by apply (entries_ok_sublist ucmp _ _ Hs)|by apply (seqs_differ_sublist _ _ Hs)|done]. }
  pose proof (cp_number _ _ Hcp) as Hnum. pose proof (cp_open _ _ Hcp) as Hopen.
  destruct (compaction_loop_spec extend snappy zstd dbname in_scratch reuse_logs ucmp cmp_name Hname max_file_size o Ho used st0 (proj1 Hn0) Hun0 id v Hlv L (proj1 HL) ss Hss base (base_below_spec v L)
    _ is_internal_key ins (at_pos (Merged_ops (child_ops extend snappy zstd dbname o in_scratch None ucmp (input_read_options o)) (InternalKeyComparator ucmp)) (InternalKeyComparator ucmp) is_internal_key (table_of ins)) Hes Hd Hsub ltac:(change (vs_next_file_number (db_versions st0)) with (vs_next_file_number (db_versions st)); lia) Himm Hopen c Hid eq_refl ins [] [] None
    compact0 NoLastKey st0 it0 fuel 0%nat eq_refl Hloop0 Hi0 ltac:(lia)) as (chunks & cur & compact1 & lk1 & st1 & it1 & -> & Hl1 & Hi1).
  assert (db_imm st0 = None /\ db_shutting_down st0 = false) as [Himm0 Hopen0] by (split; [exact Himm|exact Hopen]). destruct (looped_rest _ _ _ _ _ _ _ _ _ _ _ _ _ _ _ Himm0 Hopen0 _ _ _ _ _ _ _ Hl1) as [_ Hsd].
  destruct (looped_stop extend snappy zstd dbname in_scratch reuse_logs ucmp cmp_name Hname max_file_size o Ho used st0 (proj1 Hn0) Hun0 v ss base c ins chunks cur compact1 lk1 st1 true (cs_compaction compact1) Hl1) as (chunks' & cur' & compact2 & st2 & Efin & Hl2 & Hnone); [apply Hl1|apply Hl1|].
  rewrite (Hnone eq_refl) in Hl2. rewrite set_compaction_same in Efin. cbn [mbind option_bind]. unfold finish_work. rewrite ok_OK, Hsd. cbn [andb]. rewrite ok_OK. rewrite (pos_status it1 _ Hi1). cbn [andb] in Efin |- *.
  rewrite Efin. cbn [mbind option_bind]. rewrite !ok_OK. exists tc, ins, chunks', compact2, st2. cbv zeta. fold st0. pose proof Hl2 as [Hpr _ Hkept _ Hwork _ _]. cbn [default] in Hkept. rewrite app_nil_r in Hkept.
  split_and!; done || apply Hopens.
Qed.

Context (Hnid : id < vs_next_id (db_versions st)) (pointer : InternalKey) (Hpointer : key_ok pointer) (Hedit : c_edit c = SetCompactPointer L pointer NewVersionEdit).

Lemma input_files f : f ∈ c_inputs0 c ++ c_inputs1 c -> in_version v f.
Proof. intros Hf. destruct (input_level ucmp v L _ _ Hci f Hf) as (l & Hl & Hfv & _). exists l. split; [lia|done]. Qed.

(** The edit of the outputs. *)
Lemma outputs_edit n chunks :
  n = vs_next_file_number (db_versions st) -> n + slen chunks < 2 ^ 64 -> Forall (fun es => es <> [] /\ input_ok es) chunks ->
  let edit := compaction_edit L pointer (c_inputs0 c) (c_inputs1 c) (map out_meta (finished_outputs extend snappy zstd o n chunks)) in
  edit_fits cmp_name edit /\ fresh_edit used edit /\ forall vs, vs_next_file_number vs = n + slen chunks -> given vs edit.
Proof.
  intros -> Hmax Hch. set (n := vs_next_file_number (db_versions st)) in *. pose proof Hdb as [_ _ _ _ Hr Hu _ _ _ _ _ _]. destruct (reachable_state _ _ _ _ _ _ Hname _ _ _ Hr) as (_ & (_ & _ & Hn & _) & _). fold n in Hn, Hu.
  assert (forall m, m ∈ map out_meta (finished_outputs extend snappy zstd o n chunks) -> exists i es, chunks !! i = Some es /\ m = out_meta (finished extend snappy zstd o (n + Z.of_nat i) es)) as Hm.
  { intros m (out & -> & Hout)%list_elem_of_fmap. unfold finished_outputs in Hout. apply elem_of_lookup_imap in Hout as (i & es & -> & Hi). by exists i, es. }
  assert (forall e es, e ∈ es -> input_ok es -> key_ok (MkInternalKey (entry_internal_key e))) as Hkey.
  { intros e es He [_ _ _ _ _ _ (Hfit & _)]. unfold table_of in Hfit. rewrite Forall_map in Hfit. pose proof (proj1 (Forall_forall _ _) Hfit e He) as H. unfold entry_fits in H. cbn [fst snd] in H.
    pose proof (length_internal_key e) as El. unfold key_ok. cbn [rep_]. split; [intros E; rewrite E in El; cbn in El; lia|]. unfold in_u. lia. }
  assert (forall es, es <> [] -> input_ok es -> key_ok (first_key es) /\ key_ok (last_key es) /\ is_internal_key (rep_ (first_key es))) as Hkeys.
  { intros es Hne Hin. destruct (last es) as [e1|] eqn:E1; [|by apply last_None in E1]. destruct (head es) as [e0|] eqn:E0; [|by apply head_None in E0]. unfold first_key, last_key. rewrite E0, E1.
    split; [apply (Hkey e0 es); [by apply head_Some_elem_of|done]|]. split; [apply (Hkey e1 es); [by apply last_Some_elem_of|done]|]. apply AppendInternalKey_internal. }
  split_and!.
  - apply compaction_edit_fits; [done|done|apply Forall_forall; intros f Hf%input_files; by apply (file_numbers extend snappy zstd dbname in_scratch reuse_logs ucmp cmp_name Hname max_file_size o contents used mes ies st f)|].
    apply Forall_forall. intros m (i & es & Hi & ->)%Hm. destruct (proj1 (Forall_lookup _ _) Hch i es Hi) as [Hne Hin]. destruct (Hkeys es Hne Hin) as (H1 & H2 & _). pose proof (lookup_lt_Some _ _ _ Hi).
    destruct (bytes_of_spec extend snappy zstd ucmp o Ho es Hin) as (_ & Hsz & _). cbn. split; [unfold in_u in *; lia|]. split; [unfold in_u; lia|]. done.
  - apply compaction_edit_fresh; [done|..].
    + apply Forall_forall. intros m (i & es & Hi & ->)%Hm. destruct (proj1 (Forall_lookup _ _) Hch i es Hi) as [Hne Hin]. by apply (Hkeys es Hne Hin).
    + rewrite map_map. unfold finished_outputs. apply NoDup_alt. intros i j x Hi Hj. rewrite lookup_map, list_lookup_imap in Hi, Hj. destruct (chunks !! i), (chunks !! j); try done. cbn in Hi, Hj. simplify_eq. lia.
    + apply Forall_forall. intros m (i & es & Hi & ->)%Hm Hin. pose proof (proj1 (Forall_forall _ _) Hu _ Hin) as H. cbn in H. lia.
  - intros vs Evs. unfold given. rewrite (proj1 (compaction_edit_fields _ _ _ _ _)), Forall_map, Evs. apply Forall_forall. intros m (i & es & Hi%lookup_lt_Some & ->)%Hm. cbn. lia.
Qed.

(** The state with the results, whose obsolete files are removed. *)
Lemma install_done tc ins chunks compact st1 vs2 e2 pending :
  let st0 := set_table_cache tc st in
  let metas := map out_meta (finished_outputs extend snappy zstd o (vs_next_file_number (db_versions st)) chunks) in
  let st3 := set_version_set (Version_Unref id vs2) (set_pending_outputs pending (set_table_cache (with_env (fun _ => e2) (db_table_cache st1)) (set_version_set vs2 st1))) in
  db_ok contents used mes ies st0 -> tc_env tc = tc_env (db_table_cache st) -> ins ≡ₚ concat (map contents (c_inputs0 c ++ c_inputs1 c)) -> entries_ok ucmp ins -> seqs_differ ins ->
  progress extend snappy zstd dbname in_scratch reuse_logs ucmp cmp_name max_file_size o used st0 chunks None compact st1 -> concat chunks = kept_entries ss base None ins ->
  reachable (map (fun f => (L + 1, number f)) metas ++ used) vs2 e2 -> vs_next_file_number vs2 = vs_next_file_number (db_versions st1) -> same_log_numbers (db_versions st1) vs2 -> vs_descriptor_log vs2 <> None ->
  lv_id (current_live vs2) = vs_next_id (db_versions st1) -> (forall m, is_u64 m -> env_files e2 !! TableFileName dbname m = env_files (tc_env (db_table_cache st1)) !! TableFileName dbname m) ->
  (forall log, logs_kept dbname log (tc_env (db_table_cache st1)) e2) -> recorded_sequence ucmp cmp_name extend dbname max_file_size reuse_logs e2 (vs_last_sequence (db_versions st1)) ->
  (forall l, 0 <= l < kNumLevels -> Forall VersionSet.has_key (level_files (current vs2) l) /\ ordered ucmp (level_files (current vs2) l)) ->
  (forall l g, 0 <= l < kNumLevels -> g ∈ level_files (current vs2) l <-> remains v L (c_inputs0 c) (c_inputs1 c) l g \/ (l = L + 1 /\ g ∈ map applied_file metas)) ->
  exists contents' used' tc4, let st4 := set_table_cache tc4 st3 in RemoveObsoleteFiles dbname st3 = st4 /\ db_ok contents' used' mes ies st4 /\ v_of st4 = current vs2 /\ stepped contents st contents' st4 /\
    forall key s value, ss <= s -> read_result value (newest key s (mes ++ ies ++ all_entries contents' (v_of st4))) = read_result value (newest key s (mes ++ ies ++ all_entries contents v)).
Proof.
  intros st0 metas st3 Hdb0 Htc Hp Hes Hd Hpr Hkept Hr2 Hnx2 (Hls2 & Hln2 & Hlp2) Hdesc Hlid Htab Hlk Hlq Hord Hfiles.
  destruct (progress_next extend snappy zstd dbname in_scratch reuse_logs ucmp cmp_name Hname max_file_size o contents used mes ies st0 Hdb0 chunks compact st1 Hpr) as (Hnx & _ & Hnid1 & (Hls1 & Hln1 & Hlp1) & Hn0 & Hmax).
  pose proof Hpr as [Hch _ Hrest _ _ _ _ _ _ _ [Hpk _]]. set (n0 := vs_next_file_number (db_versions st)) in *. change (vs_next_file_number (db_versions st0)) with n0 in *.
  assert (id <> lv_id (current_live vs2)) as Hidne by (rewrite Hlid, Hnid1; intros Eid; change (vs_next_id (db_versions st0)) with (vs_next_id (db_versions st)) in Eid; lia).
  pose proof (current_Unref _ _ Hidne) as Ecur. pose proof (Unref_listed _ _ Hidne (proj2 (reachable_ids _ _ _ _ _ _ _ _ _ Hr2))) as Hlist2.
  assert (vs_next_file_number (Version_Unref id vs2) = vs_next_file_number vs2 /\ vs_descriptor_log (Version_Unref id vs2) = vs_descriptor_log vs2 /\ same_log_numbers vs2 (Version_Unref id vs2)) as (Enx & Edl & Els & Eln & Elp) by (by destruct vs2).
  pose proof (reach_unref _ _ _ _ _ _ _ _ _ id Hr2 Ecur Hlist2) as Hr3. destruct (reachable_state _ _ _ _ _ _ Hname _ _ _ Hr3) as (Hf3 & _).
  assert ((same_rest st st3 /\ db_imm st3 = db_imm st) /\ ok (db_bg_error st3) = true) as [Hsr Herr] by (subst st3; unfold same_rest; cbn; rewrite Hrest; cbn; rewrite Els, Hls2, Hls1, (cp_error _ _ Hcp); by split_and!). pose proof Hsr as ((Em & _) & Ei).
  destruct (removed_spec dbname st3 Hf3 Herr) as (tc4 & Er & Hf4 & Hc4 & Hneed & Hsub4). unfold metas in Hfiles. rewrite (out_files_eq extend snappy zstd o n0 chunks) in Hfiles.
  set (outs := out_files extend snappy zstd o n0 chunks) in *. set (used' := map (fun f => (L + 1, number f)) outs ++ used).
  assert (used' = map (fun f => (L + 1, number f)) metas ++ used) as Eused by (unfold used', outs; by rewrite <-out_files_eq, map_map). rewrite <-Eused in Hr3. set (st4 := set_table_cache tc4 st3).
  assert (v_of st4 = current vs2) as Ev4 by exact Ecur.
  assert (forall g, in_version (v_of st4) g -> needed dbname st3 (TableFileName dbname (number g)) /\ is_u64 (number g)) as Hlive.
  { intros g (l & Hl & Hg). assert (is_u64 (number g)) as Hu.
    { rewrite Ev4 in Hg. apply Hfiles in Hg as [[Hg _]|[_ Hg]]; [| |done].
      - apply (file_numbers extend snappy zstd dbname in_scratch reuse_logs ucmp cmp_name Hname max_file_size o contents used mes ies st g Hdb). by exists l.
      - apply (out_numbers extend snappy zstd o st0) in Hg. change (vs_next_file_number (db_versions st0)) with n0 in Hg. unfold in_u. lia. }
    split; [|done]. apply needed_table; [done|]. apply AddLiveFiles_spec. right. destruct (current_files_live _ _ _ Hg) as (lv & Hlv & Hg'). by exists lv, g. }
  assert (concat chunks `sublist_of` ins) as Hsub by (rewrite Hkept; apply kept_sublist). pose proof (proj2 (inputs_entries ins Hp Hd)) as Hlen. pose proof (cp_count _ _ Hcp (L + 1) ltac:(lia)) as Hcount.
  assert (installed extend snappy zstd dbname in_scratch reuse_logs ucmp cmp_name max_file_size o contents st0 L (c_inputs0 c) (c_inputs1 c) (contents_out contents st0 chunks) used' st4 outs ss) as Hins.
  { apply (out_installed extend snappy zstd dbname in_scratch reuse_logs ucmp cmp_name Hname max_file_size o Ho contents used mes ies st0 Hdb0 L HL (c_inputs0 c) (c_inputs1 c) Hci chunks Hch) with
    (compact := compact) (st1 := st1) (ins := ins) (base := base); try done.
  - by apply (entries_ok_sublist ucmp _ _ Hsub).
  - by apply (seqs_differ_sublist _ _ Hsub).
  - apply base_below_spec.
  - change (v_of st0) with v. lia.
  - by rewrite Ev4.
  - by rewrite Ev4.
  - apply (reachable_removed extend dbname reuse_logs ucmp cmp_name Hname max_file_size used' st3 tc4); [exact Hr3|change (vs_descriptor_log (Version_Unref id vs2) <> None); by rewrite Edl|done|done].
  - change (vs_next_file_number (Version_Unref id vs2) = n0 + slen chunks). by rewrite Enx, Hnx2.
  - intros g Hg. destruct (Hlive g Hg) as [Hne Hu]. change (db_table_cache st4) with tc4. rewrite (Hneed _ Hne). exact (Htab _ Hu). }
  destruct (installed_ok extend snappy zstd dbname in_scratch reuse_logs ucmp cmp_name max_file_size o contents used mes ies st0 Hdb0 L HL (c_inputs0 c) (c_inputs1 c) Hci
    (contents_out contents st0 chunks) used' st4 outs ss) as [Hdb4 Hreads]; [exact Hins|]. exists (contents_out contents st0 chunks), used', tc4. split; [done|]. split; [done|]. split; [done|]. split; [|done]. split; [exact Hsr| | |].
  3: by apply (installed_sinks extend snappy zstd dbname in_scratch reuse_logs ucmp cmp_name max_file_size o contents used mes ies st0 Hdb0 L HL (c_inputs0 c) (c_inputs1 c) Hci _ used' st4 outs ss Hins).
  assert (vs_next_file_number (db_versions st4) = n0 + slen chunks) as E4 by (change (vs_next_file_number (Version_Unref id vs2) = n0 + slen chunks); by rewrite Enx, Hnx2).
  change (n0 <= vs_next_file_number (db_versions st4) <= n0 + slen (all_entries contents v)). rewrite E4. pose proof (chunks_count extend snappy zstd o chunks Hch). apply sublist_length in Hsub. lia.
  - destruct (removed_logs extend dbname reuse_logs ucmp cmp_name Hname max_file_size used' st3 tc4 Hr3 ltac:(change (vs_descriptor_log (Version_Unref id vs2) <> None); by rewrite Edl) Hf4 Hneed Hsub4) as [Hk4 Hq4].
    assert (vs_log_number (db_versions st4) = vs_log_number (db_versions st)) as E1 by (change (vs_log_number (Version_Unref id vs2) = vs_log_number (db_versions st)); rewrite Eln, Hln2, Hln1; done).
    split.
    + left. exact Ei.
    + etrans; [exact E1|]. by rewrite Himm.
    + left. change (vs_prev_log_number (Version_Unref id vs2) = vs_prev_log_number (db_versions st)). rewrite Elp, Hlp2, Hlp1. done.
    + change (n0 <= vs_next_file_number (Version_Unref id vs2)). rewrite Enx, Hnx2, Hnx. lia.
    + apply (logs_kept_trans dbname _ _ (tc_env (db_table_cache st1))); [rewrite <-Htc; apply Hpk|]. apply (logs_kept_trans dbname _ _ e2); [apply Hlk|]. exact Hk4.
    + intros q _. exists (vs_last_sequence (db_versions st1)). split; [by apply Hq4|]. right. by rewrite Hls1.
Qed.

(** A compaction that is not a trivial move. *)
Lemma run_work fuel is_manual :
  slen (all_entries contents v) <= Z.of_nat fuel -> negb is_manual && IsTrivialMove max_file_size c = false ->
  exists contents' used' st', run_compaction extend snappy zstd dbname o in_scratch None ucmp cmp_name max_file_size (fun _ st => st) fuel is_manual snapshots c st = Some (OK, st') /\
    db_ok contents' used' mes ies st' /\ pick_ok (v_of st') /\ stepped contents st contents' st' /\
    forall key s value, ss <= s -> read_result value (newest key s (mes ++ ies ++ all_entries contents' (v_of st'))) = read_result value (newest key s (mes ++ ies ++ all_entries contents v)).
Proof.
  intros Hfuel Htriv. destruct (DoCompactionWork_loop fuel Hfuel) as (tc & ins & chunks & compact & st1 & Hdb0 & Htc & Hp & Hes & Hd & Hpr & Hkept & Hwork & E). set (st0 := set_table_cache tc st) in *.
  unfold run_compaction. rewrite Htriv, E. unfold work in Hwork. injection Hwork as W1 W2 W3 W4 W5.
  destruct (progress_next extend snappy zstd dbname in_scratch reuse_logs ucmp cmp_name Hname max_file_size o contents used mes ies st0 Hdb0 chunks compact st1 Hpr) as (Hnx1 & Hcur & _ & _ & Hn0 & Hmax).
  pose proof Hpr as [Hch _ _ _ Hr1 Houts Hbuild _ _ _ _]. cbn [open_output] in Houts. rewrite app_nil_r in Houts. change (vs_next_file_number (db_versions st0)) with (vs_next_file_number (db_versions st)) in *.
  destruct (outputs_edit _ chunks eq_refl ltac:(lia) Hch) as (Hfits & Hfresh & Hgv).
  destruct (install_levels extend snappy zstd dbname in_scratch reuse_logs ucmp cmp_name Hname max_file_size o contents used mes ies st Hdb L HL (c_inputs0 c) (c_inputs1 c) Hci (db_versions st1) (tc_env (db_table_cache st1))
    pointer _ Hcur Hr1 Hfits Hfresh (Hgv _ Hnx1)) as (edit' & vs2 & e2 & Ela & Hr2 & Hnx2 & Hls2 & Hdesc & Hpick & Hlid & (Htab & Hlk & Hlq) & Hord & Hfiles).
  unfold InstallCompactionResults. rewrite (install_edit (cs_compaction compact)) with (pointer := pointer) by (rewrite W3, W1; exact Hedit). rewrite W1, W4, W5, Houts, Ela. cbn [mbind option_bind]. rewrite !ok_OK.
  set (compact' := set_compaction _ _). assert (cs_builder compact' = None /\ c_input_version (cs_compaction compact') = Some (id, v)) as [Hb' Hv'].
  { subst compact'. split; [by destruct compact|]. destruct compact as [[] ? ? ? ?]. cbn in *. by rewrite W2, Hid. }
  rewrite (cleanup_none compact' _ Hb'). unfold ReleaseInputs. rewrite Hv'. cbn [snd]. set (pending := _ ∖ _).
  destruct (install_done tc ins chunks compact st1 vs2 e2 pending Hdb0 Htc Hp Hes Hd Hpr Hkept Hr2 Hnx2 Hls2 Hdesc Hlid Htab Hlk Hlq Hord Hfiles) as (contents' & used' & tc4 & Er & Hdb4 & Ev4 & Ebg & Hreads).
  eexists contents', used', (set_table_cache tc4 _). split; [exact (f_equal (fun st => Some (OK, st)) Er)|]. split; [exact Hdb4|]. split; [rewrite Ev4; exact Hpick|]. split; [exact Ebg|exact Hreads].
Qed.

(** ** The trivial move *)

Section move.
Context (f : FileMetaData) (Hin0 : c_inputs0 c = [f]) (Hin1 : c_inputs1 c = []).

Lemma move_level : f ∈ level_files v L.
Proof. apply (level_input0 ucmp v L _ _ Hci). rewrite Hin0. left. Qed.

Lemma move_edit : let edit := compaction_edit L pointer [f] [] [f] in edit_fits cmp_name edit /\ fresh_edit used edit /\ given (db_versions st) edit.
Proof.
  pose proof Hdb as [_ _ _ _ Hr _ Hmv _ _ _ _ _]. destruct (reachable_file _ _ _ _ _ _ Hname _ _ _ L f Hr ltac:(unfold level_ok; lia) move_level) as (_ & H1 & H2 & H3 & H4). split_and!.
  - apply compaction_edit_fits; [done|done|by constructor|]. by constructor.
  - apply compaction_edit_fresh; [done| |apply NoDup_singleton|].
    + constructor; [|done]. pose proof (ok_version _ _ _ _ _ _ _ _ _ _ _ _ _ _ _ Hdb) as Hv. destruct (proj1 (Forall_forall _ _) (vo_files _ _ _ _ Hv L ltac:(lia)) f move_level) as (_ & _ & _ & Hok & _).
      exact (small_internal ucmp f Hok).
    + constructor; [|done]. intros Hu. pose proof (Hmv L f (L + 1) ltac:(lia) move_level Hu). lia.
  - unfold given. rewrite (proj1 (compaction_edit_fields _ _ _ _ _)). apply Forall_singleton. apply (file_numbers extend snappy zstd dbname in_scratch reuse_logs ucmp cmp_name Hname max_file_size o contents used mes ies st f Hdb).
    exists L. split; [lia|apply move_level].
Qed.

(** The moved file has all its seeks again. *)
Abbreviation moved := (applied_file f).
Definition moved_contents : FileMetaData -> list entry := contents_with contents moved (contents f).

Lemma moved_contents_same g : in_version v g -> moved_contents g = contents g.
Proof.
  intros Hg. unfold moved_contents, contents_with. case_decide as E; [|done]. pose proof Hdb as [_ _ _ _ _ _ _ _ _ Hsame _ _]. apply Hsame; [exists L; split; [lia|apply move_level]|done|by rewrite E].
Qed.

Lemma moved_contents_moved : moved_contents moved = contents f.
Proof. unfold moved_contents, contents_with. by rewrite decide_True. Qed.

Lemma move_installed st' :
  db_mem st' = db_mem st /\ db_imm st' = db_imm st ->
  (forall l, 0 <= l < kNumLevels -> Forall VersionSet.has_key (level_files (v_of st') l) /\ ordered ucmp (level_files (v_of st') l)) ->
  (forall l g, 0 <= l < kNumLevels -> g ∈ level_files (v_of st') l <-> remains v L [f] [] l g \/ (l = L + 1 /\ g ∈ [moved])) ->
  reachable ((L + 1, number f) :: used) (db_versions st') (tc_env (db_table_cache st')) -> vs_next_file_number (db_versions st') = vs_next_file_number (db_versions st) ->
  (forall m, is_u64 m -> env_files (tc_env (db_table_cache st')) !! TableFileName dbname m = env_files (tc_env (db_table_cache st)) !! TableFileName dbname m) ->
  tc_cache (db_table_cache st') = tc_cache (db_table_cache st) ->
  installed extend snappy zstd dbname in_scratch reuse_logs ucmp cmp_name max_file_size o contents st L [f] [] moved_contents ((L + 1, number f) :: used) st' [moved] ss.
Proof.
  intros Hrest Hord Hfiles Hr Hnx Htab Hcache. pose proof Hdb as [_ _ _ _ Hr0 Hu Hmv Hv Hst Hsame [Hf0 Hc0] Hun]. pose proof move_level as Hfl. destruct (reachable_state _ _ _ _ _ _ Hname _ _ _ Hr) as (Hf & _).
  destruct (reachable_state _ _ _ _ _ _ Hname _ _ _ Hr0) as (_ & _ & _ & _ & Hused & _). pose proof (proj1 (Forall_forall _ _) (vo_files _ _ _ _ Hv L ltac:(lia)) f Hfl) as Hfh.
  assert (in_version v f) as Hfv by (exists L; split; [lia|done]). pose proof moved_contents_moved as Emv.
  assert (forall g, in_version (v_of st') g -> exists g0, in_version v g0 /\ number g = number g0 /\ moved_contents g = contents g0) as Hsub.
  { intros g (l & Hl & [[Hg _]|[_ ->%list_elem_of_singleton]]%Hfiles); [| |done]; [|by exists f]. exists g. assert (in_version v g) as Hgv by (by exists l). split; [done|]. split; [done|]. by apply moved_contents_same. }
  assert (forall e, e ∈ concat (map moved_contents [moved]) <-> e ∈ contents f) as HK by (intros e; cbn [map concat]; by rewrite app_nil_r, Emv).
  destruct Hfh as (Fs & Fe & Fd & Fok & Fb & Fl). split; try done.
  - intros l g Hl [Hg _]. apply moved_contents_same. by exists l.
  - destruct Fl as (e & He & _). apply last_Some_elem_of in He. pose proof (cp_count _ _ Hcp (L + 1) ltac:(lia)) as Hc. assert (e ∈ all_entries contents v) as Hin by (apply elem_of_all; exists L; split; [lia|]; apply elem_of_level; eauto).
    destruct (all_entries contents v); [by apply elem_of_nil in Hin|]. cbn [length] in *. lia.
  - split; [constructor; [|done]|by repeat constructor]. unfold file_holds. rewrite Emv. split; [exists (L + 1); split; [lia|]; apply Hfiles; [lia|right; split; [done|left]]|done].
  - intros g h ->%list_elem_of_singleton (Hh & _ & _). pose proof Hci as [_ _ _ _ Hleft]. rewrite Hin0, Hin1 in Hleft. destruct (Hleft h Hh ltac:(apply not_elem_of_nil)) as [Hap|Hap]; [right; apply (Hap f); left|left].
    destruct (proj1 (Forall_forall _ _) (vo_files _ _ _ _ Hv (L + 1) ltac:(lia)) h Hh) as (_ & _ & _ & Hok & _). apply (user_lt ucmp); [exact (large_internal ucmp f Fok)|exact (small_internal ucmp h Hok)|apply (Hap f); left].
  - intros e He%HK. exists f. split; [left|done].
  - cbn [map concat]. by rewrite app_nil_r, Emv.
  - intros h e ->%list_elem_of_singleton He Hn. exfalso. by apply Hn, HK.
  - rewrite Hnx. constructor; [|done]. exact (proj1 (Forall_forall _ _) Hu _ (Hused L f ltac:(unfold level_ok; lia) Hfl)).
  - intros l g l' Hl Hg. apply Hfiles in Hg as [Hg|[-> ->%list_elem_of_singleton]]; [| |done]; intros [E|Hin]%elem_of_cons.
    + injection E as -> En. exfalso. destruct Hg as (Hg & Hn & _). pose proof (Hmv L f l ltac:(lia) Hfl) as H1. rewrite <-En in H1. specialize (H1 (Hused l g Hl Hg)).
      pose proof (Hmv l g L Hl Hg) as H2. rewrite En in H2. specialize (H2 (Hused L f ltac:(unfold level_ok; lia) Hfl)). assert (l = L) as -> by lia.
      apply Hn. split; [done|]. apply list_elem_of_singleton. apply (level_numbers ucmp contents (in_version v) v L); try done. apply Hsame; [by exists L|done|done].
    + apply (Hmv l g); [done|apply Hg|done].
    + injection E as ->. lia.
    + pose proof (Hmv L f l' ltac:(lia) Hfl Hin). lia.
  - intros g ->%list_elem_of_singleton. unfold table_stored. rewrite Emv. by apply (Hst f).
  - intros g h ->%list_elem_of_singleton (h0 & Hh & En0 & ->)%Hsub En. rewrite Emv. apply Hsame; [done|done|]. change (number f = number h) in En. congruence.
  - split; [done|]. intros g (g0 & Hg & -> & ->)%Hsub. rewrite Htab, Hcache by (by apply Hst). by apply Hc0.
  - rewrite Hnx, Hcache. done.
Qed.

Lemma run_move fuel :
  IsTrivialMove max_file_size c = true ->
  exists st', run_compaction extend snappy zstd dbname o in_scratch None ucmp cmp_name max_file_size (fun _ st => st) fuel false snapshots c st = Some (OK, st') /\
    db_ok moved_contents ((L + 1, number f) :: used) mes ies st' /\ pick_ok (v_of st') /\ stepped contents st moved_contents st' /\
    forall key s value, ss <= s -> read_result value (newest key s (mes ++ ies ++ all_entries moved_contents (v_of st'))) = read_result value (newest key s (mes ++ ies ++ all_entries contents v)).
Proof.
  intros Htriv. unfold run_compaction. rewrite Htriv. cbn [negb andb]. unfold trivial_move. rewrite Hin0. cbn [head mbind option_bind]. rewrite Hedit.
  destruct move_edit as (Hfits & Hfresh & Hgv). pose proof Hdb as [_ _ _ _ Hr _ _ _ _ _ _ _]. pose proof Hci as Hci'. rewrite Hin0, Hin1 in Hci'.
  destruct (install_levels extend snappy zstd dbname in_scratch reuse_logs ucmp cmp_name Hname max_file_size o contents used mes ies st Hdb L HL [f] [] Hci' (db_versions st) (tc_env (db_table_cache st))
    pointer [f] eq_refl Hr Hfits Hfresh Hgv) as (edit' & vs2 & e2 & Ela & Hr2 & Hnx2 & Hls2 & Hdesc & Hpick & Hlid & (Htab & Hlk & Hlq) & Hord & Hfiles).
  change (AddFile (L + 1) (number f) (file_size f) (smallest f) (largest f) (VersionEdit.RemoveFile L (number f) (SetCompactPointer L pointer NewVersionEdit))) with (compaction_edit L pointer [f] [] [f]).
  rewrite Ela. cbn [mbind option_bind]. rewrite ok_OK. assert (c_input_version (set_edit edit' c) = Some (id, v)) as Hv' by (rewrite <-Hid; by destruct c). unfold ReleaseInputs. rewrite Hv'. cbn [snd].
  assert (id <> lv_id (current_live vs2)) as Hidne by (rewrite Hlid; lia). pose proof (current_Unref _ _ Hidne) as Ecur. pose proof (Unref_listed _ _ Hidne (proj2 (reachable_ids _ _ _ _ _ _ _ _ _ Hr2))) as Hlist2. assert (vs_next_file_number (Version_Unref id vs2) = vs_next_file_number vs2) as Enx by (by destruct vs2).
  cbn [map] in Hfiles, Hr2. set (st' := set_version_set _ _). assert (v_of st' = current vs2) as Ev by exact Ecur.
  assert (vs_next_file_number (db_versions st') = vs_next_file_number (db_versions st)) as Enx' by (change (vs_next_file_number (Version_Unref id vs2) = vs_next_file_number (db_versions st)); congruence).
  assert (same_log_numbers (db_versions st) (db_versions st')) as (Els & Eln & Elp) by (destruct Hls2 as (H1 & H2 & H3); unfold same_log_numbers; rewrite <-H1, <-H2, <-H3; change (db_versions st') with (Version_Unref id vs2); by destruct vs2).
  assert (installed extend snappy zstd dbname in_scratch reuse_logs ucmp cmp_name max_file_size o contents st L [f] [] moved_contents ((L + 1, number f) :: used) st' [moved] ss) as Hins.
  { apply move_installed; try done; rewrite ?Ev; try done. by apply reach_unref. }
  destruct (installed_ok extend snappy zstd dbname in_scratch reuse_logs ucmp cmp_name max_file_size o contents used mes ies st Hdb L HL [f] [] Hci' moved_contents ((L + 1, number f) :: used) st' [moved] ss) as [Hdb4 Hreads].
  - exact Hins.
  - exists st'. split; [done|]. split; [done|]. split; [rewrite Ev; exact Hpick|]. split; [|done]. split; [split_and!; done|rewrite Enx'; lia| |].
    { split; [by left|change (db_imm st') with (db_imm st); rewrite Himm; done|left; exact Elp|rewrite Enx'; lia|apply Hlk|]. intros q _. exists (vs_last_sequence (db_versions st)). split; [exact Hlq|by right]. }
    by apply (installed_sinks extend snappy zstd dbname in_scratch reuse_logs ucmp cmp_name max_file_size o contents used mes ies st Hdb L HL [f] [] Hci' moved_contents ((L + 1, number f) :: used) st' [moved] ss).
Qed.
End move.

(** ** The compaction *)

Lemma run_compaction_spec fuel is_manual :
  slen (all_entries contents v) <= Z.of_nat fuel ->
  exists contents' used' st', run_compaction extend snappy zstd dbname o in_scratch None ucmp cmp_name max_file_size (fun _ st => st) fuel is_manual snapshots c st = Some (OK, st') /\
    db_ok contents' used' mes ies st' /\ pick_ok (v_of st') /\ stepped contents st contents' st' /\
    forall key s value, ss <= s -> read_result value (newest key s (mes ++ ies ++ all_entries contents' (v_of st'))) = read_result value (newest key s (mes ++ ies ++ all_entries contents v)).
Proof.
  intros Hfuel. destruct (negb is_manual && IsTrivialMove max_file_size c) eqn:E; [|by apply run_work]. apply andb_true_iff in E as [Em Et]. destruct is_manual; [done|].
  pose proof Et as Et'. unfold IsTrivialMove in Et'. rewrite !andb_true_iff, !Z.eqb_eq in Et'. destruct Et' as [[E0 E1] _]. 
  assert (exists f, c_inputs0 c = [f]) as [f Ei0] by (clear -E0; destruct (c_inputs0 c) as [|f [|]]; cbn in E0; try lia; by exists f).
  assert (c_inputs1 c = []) as Ei1 by (clear -E1; destruct (c_inputs1 c); cbn in E1; [done|lia]). destruct (run_move f Ei0 Ei1 fuel Et) as (st' & H). by exists (moved_contents f), ((L + 1, number f) :: used), st'.
Qed.
End work.

(** A compaction that was chosen, from its choice on. *)
Lemma chosen_run contents used mes ies st c vs' snapshots ss fuel is_manual :
  db_ok contents used mes ies st -> db_imm st = None -> compactable contents st -> smallest_snapshot snapshots (vs_last_sequence (db_versions st)) = Some ss -> ss < kMaxSequenceNumber ->
  slen (all_entries contents (v_of st)) <= Z.of_nat fuel -> chosen ucmp (db_versions st) c vs' ->
  exists contents' used' st', run_compaction extend snappy zstd dbname o in_scratch None ucmp cmp_name max_file_size (fun _ st => st) fuel is_manual snapshots c (set_version_set vs' st) = Some (OK, st') /\
    db_ok contents' used' mes ies st' /\ pick_ok (v_of st') /\ stepped contents st contents' st' /\
    forall key s value, ss <= s -> read_result value (newest key s (mes ++ ies ++ all_entries contents' (v_of st'))) = read_result value (newest key s (mes ++ ies ++ all_entries contents (v_of st))).
Proof.
  intros Hdb Himm Hcp Hsnap Hss Hfuel Hch. destruct (chosen_db contents used mes ies st c vs' Hdb Hch) as (Hdb1 & Ev & En & Els & Hid & f & Hf & Hkey & Hedit). destruct Hch as (Hci & HL & Hiv & Hptrs & _).
  assert (v_of (set_version_set vs' st) = v_of st) as Ev1 by exact Ev. destruct (run_compaction_spec contents used mes ies (set_version_set vs' st) Hdb1 c HL) with (id := lv_id (current_live (db_versions st))) (snapshots := snapshots) (ss := ss)
    (pointer := largest f) (fuel := fuel) (is_manual := is_manual) as (contents' & used' & st' & E & H1 & H2 & H3 & H4); rewrite ?Ev1; try done.
  - destruct Hcp as [C1 C2 C3 C4 C5]. split; rewrite ?Ev1; try done. change (vs_next_file_number (db_versions (set_version_set vs' st))) with (vs_next_file_number vs'). by rewrite En.
  - change (vs_last_sequence (db_versions (set_version_set vs' st))) with (vs_last_sequence vs'). by rewrite (proj1 Els).
  - exists contents', used', st'. split; [done|]. split; [done|]. split; [done|]. split; [|by rewrite Ev1 in H4]. destruct H3 as [((R1 & R2 & R3 & R4 & R5) & R6) R7 Rk R8]. rewrite Ev1 in R7, R8.
    split; [|by rewrite <-En|by apply (kept_logs_versions _ _ _ _ _ _ _ vs')|done]. destruct Els as (Els & _). split; [|exact R6]. unfold same_rest. split_and!; [exact R1|rewrite R2; exact Els|exact R3|exact R4|exact R5].
Qed.

(** There are files to compact: of the range of the manual compaction, or by the sizes or the seeks. *)
Definition chooses (bg : Background) : Prop :=
  match bg_manual bg with
  | Some m => GetOverlappingInputs ucmp (v_of (bg_db bg)) (m_level m) (m_begin m) (m_end m) <> Some []
  | None => NeedsCompaction (db_versions (bg_db bg)) = true
  end.

Lemma BackgroundCompaction_spec contents used mes ies bg ss fuel :
  let st := bg_db bg in
  db_ok contents used mes ies st -> db_imm st = None -> pick_ok (v_of st) -> (forall m, bg_manual bg = Some m -> 0 <= m_level m < kNumLevels - 1) -> compactable contents st ->
  smallest_snapshot (bg_snapshots bg) (vs_last_sequence (db_versions st)) = Some ss -> ss < kMaxSequenceNumber -> slen (all_entries contents (v_of st)) <= Z.of_nat fuel ->
  exists contents' used' st' manual,
    BackgroundCompaction extend snappy zstd dbname o in_scratch None ucmp cmp_name max_file_size (fun _ st => st) fuel bg = Some (MkBackground st' (bg_snapshots bg) None (bg_scheduled bg), manual) /\
    db_ok contents' used' mes ies st' /\ pick_ok (v_of st') /\ (chooses bg /\ stepped contents st contents' st' \/ ~ chooses bg /\ contents' = contents /\ st' = st) /\
    match bg_manual bg with
    | Some m => exists m', manual = Some m' /\ m_level m' = m_level m /\ (m_done m' = true <-> GetOverlappingInputs ucmp (v_of st) (m_level m) (m_begin m) (m_end m) = Some [])
    | None => manual = None
    end /\
    forall key s value, ss <= s -> read_result value (newest key s (mes ++ ies ++ all_entries contents' (v_of st'))) = read_result value (newest key s (mes ++ ies ++ all_entries contents (v_of st))).
Proof.
  intros st Hdb Himm Hpick Hm Hcp Hsnap Hss Hfuel. unfold BackgroundCompaction. fold st. rewrite Himm, bool_decide_true by done. cbn [negb].
  assert (levels_ok ucmp (v_of st)) as Hlv. { pose proof Hdb as [_ _ _ _ _ _ _ Hv _ _ _ _]. apply (version_levels_ok ucmp contents (in_version (v_of st))); done. }
  assert (exists oc vs', match bg_manual bg with
      | Some m => CompactRange ucmp max_file_size (m_level m) (m_begin m) (m_end m) (db_versions st)
      | None => PickCompaction ucmp max_file_size (db_versions st) end = Some (oc, vs') /\
    match oc with Some c => chosen ucmp (db_versions st) c vs' | None => vs' = db_versions st end /\
    match oc with Some _ => chooses bg | None => ~ chooses bg end /\
    forall m, bg_manual bg = Some m -> oc = None <-> GetOverlappingInputs ucmp (v_of st) (m_level m) (m_begin m) (m_end m) = Some []) as (oc & vs' & -> & Hoc & Hcs & Hov).
  { unfold chooses. fold st. destruct (bg_manual bg) as [m|] eqn:Em.
    - destruct (CompactRange_spec ucmp max_file_size (m_level m) (m_begin m) (m_end m) (db_versions st) Hlv (Hm m eq_refl)) as [[Hn E]|(_ & c & vs' & E & _ & Hc & _)].
      + destruct (overlapping_start ucmp (v_of st) (m_level m) (m_begin m) (m_end m) Hlv) as (ins & Ho' & _); [pose proof (Hm m eq_refl); lia|].
        destruct (overlapping_meets ucmp _ _ _ _ _ Ho') as (_ & Hi & _). rewrite (Hi Hn) in Ho'. clear Hn Hi. exists None, (db_versions st). split; [done|]. split; [done|]. split; [intros Hn; by apply Hn|by intros m' [= <-]].
      + assert (GetOverlappingInputs ucmp (v_of st) (m_level m) (m_begin m) (m_end m) <> Some []) as Hne by (intros E'; unfold CompactRange in E; rewrite E' in E; cbn in E; done).
        exists (Some c), vs'. split; [done|]. split; [done|]. split; [done|]. intros m' [= <-]. by split.
    - pose proof (PickCompaction_spec ucmp max_file_size (db_versions st) Hlv Hpick) as Hpc. destruct (NeedsCompaction (db_versions st)); [destruct Hpc as (c & vs' & _ & E & Hc & _); exists (Some c), vs'; repeat (split; [done|]); done|exists None, (db_versions st); repeat (split; [done|]); done]. }
  cbn [mbind option_bind]. destruct oc as [c|].
  - pose proof Hoc as (Hci & _). pose proof (ci_some _ _ _ _ _ Hci) as Hne. destruct (last (c_inputs0 c)) as [fl|] eqn:El; [|by apply last_None in El]. cbn [fmap option_fmap option_map mbind option_bind].
    destruct (chosen_run contents used mes ies st c vs' (bg_snapshots bg) ss fuel (negb (bool_decide (bg_manual bg = None))) Hdb Himm Hcp Hsnap Hss Hfuel Hoc) as (contents' & used' & st' & -> & H1 & H2 & H3 & H4).
    cbn [mbind option_bind]. eexists contents', used', st', _. split; [reflexivity|]. split; [done|]. split; [done|]. split; [by left|]. split; [|done]. destruct (bg_manual bg) as [m|] eqn:Em; [|done].
    eexists. split; [reflexivity|]. split; [done|]. cbn [m_done]. rewrite ok_OK, <-(Hov m eq_refl). by rewrite bool_decide_false.
  - subst vs'. cbn [mbind option_bind]. assert (set_version_set (db_versions st) st = st) as -> by (by destruct st). eexists contents, used, st, _. split; [reflexivity|]. split; [done|]. split; [done|]. split; [by right|]. split; [|done].
    destruct (bg_manual bg) as [m|] eqn:Em; [|done]. eexists. split; [reflexivity|]. split; [done|]. cbn [m_done]. rewrite <-(Hov m eq_refl). by rewrite bool_decide_true.
Qed.
End background.

(** * Correctness *)

(** C2. A background compaction changes no read of a live snapshot.  In a store whose memtables, tables and versions hold their
    entries, with no immutable memtable, no fault of the environment and no other thread: [BackgroundCompaction] ends, with
    or without a manual compaction, by the sizes, the seeks or the range, and whether it moves a file, merges files with
    [DoCompactionWork] or finds nothing to do.  Behind it the store holds its entries, newer before older, in tables and
    levels that the version set records, and names a level for the next compaction that has files; no background error is
    recorded, and a manual compaction is done exactly if no file of its level overlaps its range.  [Get] of every key, at every snapshot that is not older than the oldest live one (or
    the last sequence number, if there is none), returns the status and the value that it returned before: the entries that
    were dropped are hidden by newer ones, or are deletions with nothing below them to hide. *)
Theorem background_compaction_preserves_reads (extend : Z -> slice -> Z) (CS : Checksum extend) (snappy : option SnappyLib) (zstd : option ZstdLib)
    (dbname : slice) (in_scratch reuse_logs : bool) (ro : ReadOptions)
    (ucmp : Comparator) (CL : ComparatorLaws any_key ucmp) (LS : SeparatorSame any_key ucmp) (cmp_name : slice) (max_file_size : Z) (o : Options)
    (contents : FileMetaData -> list entry) (used : list (Z * Z)) (mes : list entry) (bg : Background) (oldest_seq : Z) (fuel : nat) :
  let ok := db_ok extend snappy zstd dbname in_scratch reuse_logs ucmp cmp_name max_file_size o in
  let get := DB_Get extend snappy zstd dbname o in_scratch None ucmp ro in
  let st := bg_db bg in
  is_u32 (slen cmp_name) -> opt_comparator o = InternalKeyComparator ucmp -> (forall p, opt_filter_policy o = Some p -> exists up, p = InternalFilterPolicy up) ->
  ok contents used mes [] st -> db_imm st = None -> pick_ok (current (db_versions st)) -> (forall m, bg_manual bg = Some m -> 0 <= m_level m < kNumLevels - 1) ->
  compactable extend snappy zstd ucmp o contents st -> smallest_snapshot (bg_snapshots bg) (vs_last_sequence (db_versions st)) = Some oldest_seq -> oldest_seq < kMaxSequenceNumber ->
  slen (all_entries contents (current (db_versions st))) <= Z.of_nat fuel ->
  exists contents' used' st' manual,
    BackgroundCompaction extend snappy zstd dbname o in_scratch None ucmp cmp_name max_file_size (fun _ st => st) fuel bg = Some (MkBackground st' (bg_snapshots bg) None (bg_scheduled bg), manual) /\
    ok contents' used' mes [] st' /\ pick_ok (current (db_versions st')) /\ db_bg_error st' = db_bg_error st /\
    match bg_manual bg with
    | Some m => exists m', manual = Some m' /\ (m_done m' = true <-> GetOverlappingInputs ucmp (current (db_versions st)) (m_level m) (m_begin m) (m_end m) = Some [])
    | None => manual = None
    end /\
    forall s key value, seq_ok s -> oldest_seq <= s -> slen key + 8 < 2 ^ 32 ->
      exists result sched st1 sched' st1', get (Some s) key value st = Some (result, sched, st1) /\ get (Some s) key value st' = Some (result, sched', st1').
Proof.
  intros ok get st Hname Ho Hfilter Hdb Himm Hpick Hm Hcp Hsnap Hss Hfuel.
  destruct (BackgroundCompaction_spec extend snappy zstd dbname in_scratch reuse_logs ucmp cmp_name Hname max_file_size o Ho contents used mes [] bg oldest_seq fuel Hdb Himm Hpick Hm Hcp Hsnap Hss Hfuel)
    as (contents' & used' & st' & manual & E & H1 & H2 & H3 & H4 & Hreads).
  exists contents', used', st', manual. split; [exact E|]. split; [exact H1|]. split; [exact H2|]. split; [destruct H3 as [[_ [((_ & _ & _ & H3 & _) & _) _ _]]|(_ & _ & ->)]; done|]. split; [destruct (bg_manual bg); [destruct H4 as (m' & ? & _ & ?); by exists m'|done]|]. intros s key value Hs Hge Hk.
  destruct (DB_Get_spec extend snappy zstd dbname in_scratch reuse_logs ro ucmp cmp_name max_file_size o Ho Hfilter contents used mes [] st s key value Hdb Hs Hk) as (sched & st1 & E1).
  destruct (DB_Get_spec extend snappy zstd dbname in_scratch reuse_logs ro ucmp cmp_name max_file_size o Ho Hfilter contents' used' mes [] st' s key value H1 Hs Hk) as (sched' & st1' & E2).
  rewrite (Hreads key s value Hge) in E2. by eexists _, sched, st1, sched', st1'.
Qed.

(** The store of [flush_state] behind the compaction of its memtable, and a manual compaction of the level of its file. *)
Definition moved_state : DBState := default flush_state (CompactMemTable crc32c_ref None None sample_db flush_options true None BytewiseComparator sample_name 2097152 flush_state).
Definition moved_background : Background := MkBackground moved_state NewSnapshotList (Some (MkManual 2 false None None)) true.

Lemma moved_facts :
  db_imm moved_state = None /\ forallb (fun files => slen files <? 2) (files_ (current (db_versions moved_state))) = true /\
  (vs_next_file_number (db_versions moved_state) <? 100) = true /\ ok (db_bg_error moved_state) = true /\ db_shutting_down moved_state = false /\
  SFleb (double_of 1) (compaction_score_ (current (db_versions moved_state))) = false /\ file_to_compact_ (current (db_versions moved_state)) = None /\
  smallest_snapshot NewSnapshotList (vs_last_sequence (db_versions moved_state)) = Some (vs_last_sequence (db_versions moved_state)) /\ (vs_last_sequence (db_versions moved_state) <? 2) = true.
Proof. vm_compute. repeat split; reflexivity. Qed.

Lemma moved_levels l : slen (level_files (current (db_versions moved_state)) l) < 2.
Proof.
  unfold level_files. destruct moved_facts as (_ & F2 & _).
  destruct (nth_in_or_default (Z.to_nat l) (files_ (current (db_versions moved_state))) []) as [Hin| ->]; [|cbn; lia]. apply Z.ltb_lt. exact (proj1 (forallb_forall _ _) F2 _ Hin).
Qed.

Lemma only_entry e es : (forall x, x ∈ es -> x ∈ [e]) -> seqs_differ es -> es <> [] -> es = [e].
Proof.
  intros Hin Hd Hne. assert (forall x, x ∈ es -> x = e) as Hall by (intros x Hx; by apply list_elem_of_singleton, Hin). destruct es as [|a [|b es]]; [done|by rewrite (Hall a ltac:(left))|].
  exfalso. destruct Hd as [Hd _]. apply (Hd b ltac:(left)); by rewrite (Hall a ltac:(left)), (Hall b ltac:(right; left)).
Qed.

Lemma background_compaction_preserves_reads_witness :
  exists st' manual, BackgroundCompaction crc32c_ref None None sample_db flush_options true None BytewiseComparator sample_name 2097152 (fun _ st => st) 1 moved_background = Some (MkBackground st' NewSnapshotList None true, manual) /\
    exists result sched st1 sched' st1',
      DB_Get crc32c_ref None None sample_db flush_options true None BytewiseComparator DefaultReadOptions (Some 1) (lit "k") [] moved_state = Some (result, sched, st1) /\
      DB_Get crc32c_ref None None sample_db flush_options true None BytewiseComparator DefaultReadOptions (Some 1) (lit "k") [] st' = Some (result, sched', st1') /\ result = (OK, lit "v").
Proof.
  assert (is_u32 (slen sample_name)) as Hname by (by vm_compute). assert (seq_ok 1) as Hs by (by vm_compute). assert (slen (lit "k") + 8 < 2 ^ 32) as Hk by (by vm_compute).
  destruct (CompactMemTable_spec crc32c_ref None None sample_db true false BytewiseComparator sample_name Hname 2097152 flush_options eq_refl (fun _ => []) [] [] [flush_entry] flush_state flush_imm flush_db_ok eq_refl flush_flushable)
    as (contents & used & st & E & _ & _ & Hdb & Hall & _).
  assert (st = moved_state) as -> by (unfold moved_state; by rewrite E). clear E. destruct moved_facts as (F1 & F2 & F3 & F4 & F5 & F6 & F7 & F8 & F9).
  apply Z.ltb_lt in F3, F9. assert (vs_last_sequence (db_versions moved_state) <= 1) as Hge by lia. rewrite (all_entries_empty (fun _ => []) (current (db_versions flush_state)) flush_no_files) in Hall. cbn [app] in Hall. apply Permutation_singleton_r in Hall.
  destruct (background_compaction_preserves_reads crc32c_ref _ None None sample_db true false DefaultReadOptions BytewiseComparator _ _ sample_name 2097152 flush_options
    contents used [] moved_background (vs_last_sequence (db_versions moved_state)) 1) as (contents' & used' & st' & manual & E & _ & _ & _ & _ & Hget).
  - exact Hname.
  - reflexivity.
  - intros p Ep. injection Ep as <-. by eexists.
  - exact Hdb.
  - exact F1.
  - change (bg_db moved_background) with moved_state. split; [congruence|]. split; [intros f Hf; congruence|]. pose proof (moved_levels 0). unfold kL0_CompactionTrigger. lia.
  - intros m [= <-]. cbn. unfold kNumLevels. lia.
  - split; change (bg_db moved_background) with moved_state; rewrite ?Hall; [| | |exact F4|exact F5].
    + intros es Hin Hes Hd Hne. rewrite (only_entry flush_entry es Hin Hd Hne) in Hes |- *. exact (fl_input _ _ _ _ _ _ _ flush_flushable _ (Permutation_refl _) Hes).
    + intros l _. pose proof (moved_levels l). cbn [length]. lia.
    + cbn [length]. lia.
  - exact F8.
  - apply (Z.lt_trans _ 2 _ F9). reflexivity.
  - change (bg_db moved_background) with moved_state. rewrite Hall. cbn [length]. lia.
  - exists st', manual. split; [exact E|].
    specialize (Hget 1 (lit "k") [] Hs Hge Hk). clear Hs Hk Hge Hdb E. destruct Hget as (result & sched & st1 & sched' & st1' & E1 & E2).
    exists result, sched, st1, sched', st1'. split; [exact E1|]. split; [exact E2|].
    apply (f_equal (fun x => match x with Some (r, _, _) => r | None => (OK, []) end)) in E1. rewrite <-E1. clear. vm_compute. reflexivity.
Defined.

(** * A memtable that is compacted during a manual compaction *)

(** The store with the entries in an immutable memtable, as a writer leaves it, and with them in a table. *)
Definition race_imm (es : list entry) (st : DBState) : DBState := set_imm (add_all BytewiseComparator es NewMemTable) st.
Definition race_flush (st : option DBState) (es : list entry) : option DBState :=
  st ← st; CompactMemTable crc32c_ref None None sample_db flush_options true None BytewiseComparator sample_name 2097152 (race_imm es st).
Definition race_entry (u : string) (s : Z) : entry := MkEntry s kTypeValue (lit u) (lit "v").
Definition race_get (u : string) (st : DBState) : option (Status * slice) :=
  '(s, value, _, _) ← DB_Get crc32c_ref None None sample_db flush_options true None BytewiseComparator DefaultReadOptions (Some 9) (lit u) [] st; Some (s, value).
(** A writer fills the memtable before the third entry is merged. *)
Definition race_writer (i : nat) (st : DBState) : DBState := if (i =? 2)%nat then race_imm [race_entry "m" 7; race_entry "n" 8] st else st.

Definition race_state : option DBState :=
  foldl race_flush (Some (set_imm None flush_state)) [[race_entry "a" 1; race_entry "c" 2]; [race_entry "b" 3]; [race_entry "x" 4; race_entry "z" 5]; [race_entry "y" 6]].
Definition race_compaction (st : DBState) : option DBState :=
  '(bg, _) ← BackgroundCompaction crc32c_ref None None sample_db flush_options true None BytewiseComparator sample_name 2097152 race_writer 10
    (MkBackground st NewSnapshotList (Some (MkManual 1 false None None)) true); Some (bg_db bg).

Lemma race_results :
  match race_state with
  | Some st =>
      match race_compaction st with
      | Some st' =>
          race_get "m" (race_writer 2 st) = Some (OK, lit "v") /\ race_get "m" st' = Some (NotFound [] [], []) /\
          match level_files (current (db_versions st')) 2 with
          | [f; g] => (Compare (InternalKeyComparator BytewiseComparator) (rep_ (largest f)) (rep_ (smallest g)) <? 0) = false
          | _ => False
          end
      | None => False
      end
  | None => False
  end.
Proof. vm_compute. repeat split; reflexivity. Qed.

(** A memtable that is compacted while a manual compaction runs can hide a write.  Level 1 has files of the keys "b" and "y",
    level 2 files of "a" to "c" and of "x" to "z"; the manual compaction of level 1 merges all of them.  Before its third
    entry is merged a writer leaves "m" and "n" in an immutable memtable, which [DoCompactionWork] compacts first: no file of
    the current version overlaps it, so [PickLevelForMemTableOutput] puts it on level 2, where the output of the compaction,
    "a" to "z", goes too.  The files of level 2 are no longer one behind the other, and [Get] of "m", which found its value
    before, finds nothing. *)
Theorem flush_in_manual_compaction_hides_write :
  exists st st', race_state = Some st /\ race_compaction st = Some st' /\
    race_get "m" (race_writer 2 st) = Some (OK, lit "v") /\ race_get "m" st' = Some (NotFound [] [], []) /\
    ~ sorted_files BytewiseComparator (level_files (current (db_versions st')) 2).
Proof.
  pose proof race_results as H. destruct race_state as [st|]; [|destruct H]. destruct (race_compaction st) as [st'|] eqn:E; [|destruct H]. destruct H as (H1 & H2 & H3). exists st, st'.
  split; [reflexivity|]. split; [exact E|]. split; [exact H1|]. split; [exact H2|]. clear -H3. intros Hs. destruct (level_files _ 2) as [|f [|g [|]]]; try (exfalso; exact H3).
  apply StronglySorted_inv in Hs as [_ Hs]. apply Forall_cons in Hs as [Hs _]. apply Z.ltb_ge in H3. lia.
Qed.
