(* ===== verification/Schedule.v ===== *)
(** Schedule: the scheduling of the background work of db/db_impl.cc: [MaybeScheduleCompaction], [BackgroundCall] and the
    threads that wait for it, [TEST_CompactRange] and the end of [TEST_CompactMemTable].

    The background thread has one item of work at most, [bg_scheduled]; it runs while another thread waits for the signal that
    the work is finished.  A thread that waits while nothing is scheduled would wait forever: [None]. *)

From stdpp Require Import gmap sorting.
From Stdlib Require Import Strings.Byte Strings.String Floats.SpecFloat.
From S2P Require Import Prelude Coding Crc32c Comparator DbFormat Status Env FileSystem Filename VersionEdit FilterPolicy FilterBlock SkipList MemTable Format Iterator TwoLevelIterator Version Block Merger TableBuilder Table TableCache VersionSet Score Compaction Log Manifest Flush InternalIterator DbImpl Snapshot CompactionVersion CompactionWork CompactionLoop CompactionResults Background.

(** * The scheduling *)

Definition set_scheduled (scheduled : bool) (bg : Background) : Background := MkBackground (bg_db bg) (bg_snapshots bg) (bg_manual bg) scheduled.
Definition set_manual (manual : option ManualCompaction) (bg : Background) : Background := MkBackground (bg_db bg) (bg_snapshots bg) manual (bg_scheduled bg).

Definition MaybeScheduleCompaction (bg : Background) : Background :=
  if bg_scheduled bg then bg
  else if db_shutting_down (bg_db bg) then bg
  else if negb (ok (db_bg_error (bg_db bg))) then bg
  else if bool_decide (db_imm (bg_db bg) = None) && bool_decide (bg_manual bg = None) && negb (NeedsCompaction (db_versions (bg_db bg))) then bg
  else set_scheduled true bg.

Section Schedule.
Context (extend : Z -> slice -> Z) (snappy : option SnappyLib) (zstd : option ZstdLib).
Context (dbname : slice) (options : Options) (in_scratch : bool) (bcache : option (slice -> option Block)).
Context (ucmp : Comparator) (cmp_name : slice) (max_file_size : Z).

(** The state, and the manual compaction that was asked for, as the thread that waits for it finds it. *)
Definition BackgroundCall (others : nat -> DBState -> DBState) (fuel : nat) (bg : Background) : option (Background * option ManualCompaction) :=
  if negb (bg_scheduled bg) then None
  else
    '(bg, manual) ← (if db_shutting_down (bg_db bg) then Some (bg, bg_manual bg)
                     else if negb (ok (db_bg_error (bg_db bg))) then Some (bg, bg_manual bg)
                     else BackgroundCompaction extend snappy zstd dbname options in_scratch bcache ucmp cmp_name max_file_size others fuel bg);
    Some (MaybeScheduleCompaction (set_scheduled false bg), manual).

(** The calls of the background thread until nothing is scheduled, [n] at most; [work] bounds the entries of each. *)
Fixpoint run_background (n work : nat) (bg : Background) : option Background :=
  if negb (bg_scheduled bg) then Some bg
  else match n with
       | O => None
       | S n => '(bg, _) ← BackgroundCall (fun _ st => st) work bg; run_background n work bg
       end.

(** The loop of [TEST_CompactRange]: whether [manual_compaction_] is the thread's own, its manual compaction and the state. *)
Fixpoint TEST_CompactRange_loop (n work : nat) (mine : bool) (manual : ManualCompaction) (bg : Background) : option Background :=
  match n with
  | O => None
  | S n =>
      if negb (m_done manual) && negb (db_shutting_down (bg_db bg)) && ok (db_bg_error (bg_db bg)) then
        match bg_manual bg with
        | None => TEST_CompactRange_loop n work true manual (MaybeScheduleCompaction (set_manual (Some manual) bg))
        | Some _ =>
            '(bg', m) ← BackgroundCall (fun _ st => st) work bg;
            TEST_CompactRange_loop n work (mine && negb (bool_decide (bg_manual bg' = None))) (if mine then default manual m else manual) bg'
        end
      else Some (if mine then set_manual None bg else bg)
  end.

Definition TEST_CompactRange (n work : nat) (level : Z) (begin end_ : option slice) (bg : Background) : option Background :=
  TEST_CompactRange_loop n work false
    (MkManual level false ((fun k => NewInternalKey k kMaxSequenceNumber kValueTypeForSeek) <$> begin) ((fun k => NewInternalKey k 0 kTypeDeletion) <$> end_)) bg.

(** The wait of [TEST_CompactMemTable] behind its write, and its status. *)
Fixpoint wait_imm (n work : nat) (bg : Background) : option (Status * Background) :=
  if negb (bool_decide (db_imm (bg_db bg) = None)) && ok (db_bg_error (bg_db bg)) then
    match n with
    | O => None
    | S n => '(bg, _) ← BackgroundCall (fun _ st => st) work bg; wait_imm n work bg
    end
  else Some (if bool_decide (db_imm (bg_db bg) = None) then OK else db_bg_error (bg_db bg), bg).
End Schedule.

(** * Lemmas: a memtable without entries *)

Lemma removed_env fname e : env_faults e = [] -> let e' := (FileSystem.RemoveFile fname e).2 in env_faults e' = [] /\ forall f, f <> fname -> env_files e' !! f = env_files e !! f.
Proof.
  intros Hf. unfold FileSystem.RemoveFile, next_fault. rewrite Hf. destruct e as [files faults]. cbn in Hf |- *. subst faults. destruct (files !! fname); cbn; [|done]. split; [done|]. intros f Hne. by apply lookup_delete_ne.
Qed.

(** The levels when an edit has no files. *)
Lemma no_file_levels ucmp v edit cp l : new_files_ edit = [] -> deleted_files_ edit = [] -> level_ok l -> level_files (SaveTo ucmp (Builder_Apply ucmp edit cp (NewBuilder v)).2) l = level_files v l.
Proof.
  intros En Ed Hl. cbn [Builder_Apply snd]. rewrite En, Ed. cbn [foldl]. rewrite (level_files_SaveTo ucmp _ l _ (lookup_new_levels v l Hl) Hl). cbn [base_ NewBuilder].
  rewrite kept_all; [done|]. intros n Hn. by apply elem_of_empty in Hn.
Qed.

Lemma all_entries_levels contents v v' : (forall l, 0 <= l < kNumLevels -> level_files v' l = level_files v l) -> all_entries contents v' = all_entries contents v.
Proof.
  intros Hlev. unfold all_entries, levels_es. f_equal. apply map_ext_in. intros l Hl%list_elem_of_In%elem_of_seqZ. rewrite Hlev; [done|]. unfold kNumLevels in *. lia.
Qed.

(** ** How much work is left *)

(** An entry counts once for its level and once for each level below: the less, the deeper the entries are. *)
Definition depths (contents : FileMetaData -> list entry) (v : Version) : list (Z * entry) :=
  concat (map (fun k => map (pair k) (concat (map (fun l => concat (map contents (level_files v l))) (seqZ 0 (k + 1))))) (seqZ 0 kNumLevels)).
Definition weight (contents : FileMetaData -> list entry) (v : Version) : nat := length (remove_dups (depths contents v)).

Lemma elem_of_depths contents v k e : (k, e) ∈ depths contents v <-> k < kNumLevels /\ exists l, l <= k /\ entry_at contents v l e.
Proof.
  unfold depths, entry_at. rewrite list_elem_of_In, in_concat. split.
  - intros (x & (k' & <- & Hk%list_elem_of_In%elem_of_seqZ)%in_map_iff & Hx%list_elem_of_In). apply list_elem_of_fmap in Hx as (e' & [= <- <-] & He). apply list_elem_of_In, in_concat in He as (y & (l & <- & Hl%list_elem_of_In%elem_of_seqZ)%in_map_iff & He).
    split; [lia|]. exists l. split; [lia|]. split; [lia|]. by apply list_elem_of_In.
  - intros (Hk & l & Hlk & Hl & He). eexists. split; [apply in_map_iff; exists k; split; [reflexivity|apply list_elem_of_In, elem_of_seqZ; lia]|]. apply list_elem_of_In, list_elem_of_fmap. exists e. split; [done|].
    apply list_elem_of_In, in_concat. eexists. split; [apply in_map_iff; exists l; split; [reflexivity|apply list_elem_of_In, elem_of_seqZ; lia]|]. by apply list_elem_of_In.
Qed.

Lemma sinks_weight contents v contents' v' : sinks contents v contents' v' -> (weight contents' v' < weight contents v)%nat.
Proof.
  intros [Hsub (l & e & He & Hn)]. unfold weight. assert (NoDup ((l, e) :: remove_dups (depths contents' v'))) as Hnd.
  { constructor; [|apply NoDup_remove_dups]. rewrite elem_of_remove_dups, elem_of_depths. intros (_ & l' & Hle & Hl'). by apply (Hn l'). }
  apply (NoDup_length_le _ (remove_dups (depths contents v)) Hnd). intros [k e']. rewrite elem_of_cons, !elem_of_remove_dups, !elem_of_depths. intros [[= -> ->]|(Hk & l' & Hle & Hl')].
  - destruct He as [Hl He]. split; [lia|]. by exists l.
  - split; [done|]. destruct (Hsub l' e' Hl') as (l0 & Hl0 & He0). exists l0. split; [lia|done].
Qed.

Lemma sinks_entries contents v contents' v' e : sinks contents v contents' v' -> e ∈ all_entries contents' v' -> e ∈ all_entries contents v.
Proof. intros [Hsub _]. rewrite !elem_of_all. intros (l & Hl & He). destruct (Hsub l e (conj Hl He)) as (l0 & _ & Hl0 & He0). eauto. Qed.

(** A bound on the work. *)
Lemma weight_bound contents v (E : list entry) : (forall e, e ∈ all_entries contents v -> e ∈ E) -> Z.of_nat (weight contents v) <= kNumLevels * slen E.
Proof.
  intros Hin. unfold weight. assert (length (remove_dups (depths contents v)) <= length (list_prod (seqZ 0 kNumLevels) E))%nat as H.
  - apply NoDup_length_le; [apply NoDup_remove_dups|]. intros [k e]. rewrite elem_of_remove_dups, elem_of_depths. intros (Hk & l & Hle & Hl & He). apply list_elem_of_In, in_prod; apply list_elem_of_In; [apply elem_of_seqZ; lia|].
    apply Hin, elem_of_all. eauto.
  - rewrite length_prod, length_seqZ in H. unfold kNumLevels in *. lia.
Qed.

Section schedule.
Context (extend : Z -> slice -> Z) `{!Checksum extend} (snappy : option SnappyLib) (zstd : option ZstdLib).
Context (dbname : slice) (in_scratch reuse_logs : bool).
Context (ucmp : Comparator) `{!ComparatorLaws any_key ucmp} `{!SeparatorSame any_key ucmp} (cmp_name : slice) (Hname : is_u32 (slen cmp_name)) (max_file_size : Z).
Context (o : Options) (Ho : opt_comparator o = InternalKeyComparator ucmp).

Abbreviation input_ok es := (table_input extend snappy zstd o is_internal_key (table_of es)).
Abbreviation db_ok := (db_ok extend snappy zstd dbname in_scratch reuse_logs ucmp cmp_name max_file_size o).
Abbreviation reachable := (reachable ucmp cmp_name extend dbname max_file_size reuse_logs).
Abbreviation v_of st := (current (db_versions st)).
Abbreviation kept_logs := (kept_logs extend dbname reuse_logs ucmp cmp_name max_file_size).
Abbreviation compact_mem := (CompactMemTable extend snappy zstd dbname o in_scratch None ucmp cmp_name max_file_size).

(** No table is written. *)
Lemma WriteLevel0Table_empty mem edit base vs tc :
  mem_holds ucmp mem [] ->
  WriteLevel0Table extend snappy zstd dbname o in_scratch None ucmp max_file_size mem edit base vs tc =
    Some (OK, edit, (NewFileNumber vs).2, with_env (fun env => snd (FileSystem.RemoveFile (TableFileName dbname (vs_next_file_number vs)) env)) tc).
Proof.
  intros (m0 & [= <-] & Ht). unfold WriteLevel0Table, NewFileNumber. rewrite (memtable_ops_table ucmp mem NewMemTable Ht). reflexivity.
Qed.

(** The store behind a change of the version set and the files that keeps the files of every level. *)
Lemma db_ok_levels contents used mes ies st vs' tc' imm' ies' :
  db_ok contents used mes ies st -> (forall l, 0 <= l < kNumLevels -> level_files (current vs') l = level_files (v_of st) l) -> vs_next_file_number (db_versions st) <= vs_next_file_number vs' ->
  reachable used vs' (tc_env tc') -> env_faults (tc_env tc') = [] -> (forall k t, tc_cache tc' !! k = Some t -> tc_cache (db_table_cache st) !! k = Some t) ->
  (forall m, is_u64 m -> m < vs_next_file_number (db_versions st) -> (exists f, in_version (v_of st) f /\ number f = m) -> env_files (tc_env tc') !! TableFileName dbname m = env_files (tc_env (db_table_cache st)) !! TableFileName dbname m) ->
  match imm' with Some imm => mem_holds ucmp imm ies' | None => ies' = [] end -> (ies' = ies \/ ies' = []) ->
  db_ok contents used mes ies' (set_imm imm' (set_table_cache tc' (set_version_set vs' st))).
Proof.
  intros Hdb Hlev Hnx Hr Hf Hc Hfiles Himm Hies. pose proof Hdb as [H1 H2 (Ok1 & Ok2 & Hd1 & Hd2) (O1 & O2 & O3) H5 H6 H7 H8 H9 H10 H11 H12].
  pose proof (all_entries_levels contents _ _ Hlev) as Eall. pose proof (db_ok_tables extend snappy zstd dbname in_scratch reuse_logs ucmp cmp_name Hname max_file_size o _ _ _ _ _ Hdb) as Htab.
  assert (tables_ok extend snappy zstd dbname in_scratch ucmp o contents (current vs') (vs_next_file_number vs') tc') as Htab'.
  { eapply (tables_ok_same extend snappy zstd dbname in_scratch ucmp o); [exact Htab|by rewrite Hlev|intros l Hl; apply Hlev; lia| | |done| |done].
    - intros f Hfv. pose proof (to_numbers _ _ _ _ _ _ _ _ _ _ _ Htab f Hfv). lia.
    - intros n Hn Hu. destruct (tc_cache tc' !! EncodeFixed64 n) as [t|] eqn:E; [|done]. apply Hc in E. by rewrite H12 in E by (done || lia).
    - intros f Hfv. pose proof (to_numbers _ _ _ _ _ _ _ _ _ _ _ Htab f Hfv). destruct (H9 f Hfv) as (Hu & _). apply Hfiles; [done|done|by exists f]. }
  split; cbn [set_imm set_table_cache set_version_set db_mem db_imm db_versions db_table_cache]; rewrite ?Eall; try done; try apply Htab'.
  - destruct Hies as [->| ->]; [done|]. split_and!; try done.
  - destruct Hies as [->| ->]; [done|]. split; [intros a b _ Hb; by apply elem_of_nil in Hb|]. split; [done|]. intros a b Ha. by apply elem_of_nil in Ha.
  - eapply Forall_impl; [exact H6|]. cbn. intros. lia.
  - intros l f l' Hl. rewrite Hlev by done. by apply H7.
Qed.

(** The edit that records the log. *)
Lemma log_edit used logfile : is_u64 logfile -> let edit := VersionEdit.SetLogNumber logfile (SetPrevLogNumber 0 NewVersionEdit) in edit_fits cmp_name edit /\ fresh_edit used edit.
Proof.
  intros Hlog edit. split.
  - split; [|done]. change edit with (foldl apply_op NewVersionEdit [OpPrevLogNumber 0; OpLogNumber logfile]). apply edit_ok_foldl; [apply NewVersionEdit_ok|].
    apply Forall_cons. split; [by vm_compute|]. by apply Forall_singleton.
  - split; [split_and!; constructor|]. intros nf Hnf. by apply elem_of_nil in Hnf.
Qed.

Lemma CompactMemTable_empty contents used mes st imm :
  db_ok contents used mes [] st -> db_imm st = Some imm -> vs_next_file_number (db_versions st) + 2 < 2 ^ 64 -> is_u64 (db_logfile_number st) -> ok (db_bg_error st) = true -> db_shutting_down st = false ->
  exists st', compact_mem st = Some st' /\ db_imm st' = None /\ (same_rest st st' /\ vs_next_file_number (db_versions st') = vs_next_file_number (db_versions st) + 1 /\ pick_ok (v_of st') /\ kept_logs st st') /\
    db_ok contents used mes [] st' /\ all_entries contents (v_of st') = all_entries contents (v_of st).
Proof.
  intros Hdb Eimm Hnum Hlog Herr Hopen. pose proof Hdb as [_ Himm _ _ Hr _ _ _ _ _ [Hf _] _]. rewrite Eimm in Himm. set (n := vs_next_file_number (db_versions st)) in *.
  destruct (reachable_state _ _ _ _ _ _ Hname _ _ _ Hr) as (_ & (_ & _ & Hnu & _) & _). fold n in Hnu. destruct (log_edit used (db_logfile_number st) Hlog) as [Hfits Hfr]. set (edit := VersionEdit.SetLogNumber _ _) in *.
  destruct (removed_env (TableFileName dbname n) _ Hf) as [Hf1 He1]. set (e1 := (FileSystem.RemoveFile _ _).2) in *.
  pose proof (reachable_other extend dbname reuse_logs ucmp cmp_name Hname max_file_size used _ _ e1 _ n kTableFile (reach_number _ _ _ _ _ _ _ _ _ Hr Hnum) (named_table dbname n Hnu) ltac:(done) ltac:(done) Hf1 He1) as Hr1.
  destruct (table_logs extend dbname reuse_logs ucmp cmp_name Hname max_file_size used _ _ e1 n Hr Hnu Hf1 He1) as [Hk1 _].
  assert (given (NewFileNumber (db_versions st)).2 edit) as Hgv by constructor. destruct (reachable_apply _ _ _ _ _ _ Hname _ _ _ _ Hr1 Hfits Hfr Hgv) as (edit' & vs2 & e2 & Ela & Hr2).
  destruct (LogAndApply_kept extend dbname reuse_logs ucmp cmp_name Hname max_file_size _ _ _ _ _ _ _ _ Hr1 Hfits Hfr Hgv Ela) as [Hk2 Hq2]. destruct (LogAndApply_logs _ _ _ _ _ _ _ _ _ _ _ Ela ok_OK) as [Hln Hlp]. destruct (LogAndApply_current _ _ _ _ _ _ _ _ _ _ _ Ela ok_OK) as (-> & Hnx & Hdesc & cp & Hcur).
  pose proof (LogAndApply_sequence _ _ _ _ _ _ _ _ _ _ _ Ela) as Hls. destruct (reachable_state _ _ _ _ _ _ Hname _ _ _ Hr1) as (_ & _ & _ & Hman & _).
  destruct (complete_edit_fields (NewFileNumber (db_versions st)).2 edit) as (F1 & F2 & _).
  assert (current (NewFileNumber (db_versions st)).2 = v_of st /\ vs_last_sequence (NewFileNumber (db_versions st)).2 = vs_last_sequence (db_versions st)) as [Ev El] by (unfold NewFileNumber, set_next_file_number; by destruct (db_versions st)).
  assert (vs_next_file_number (NewFileNumber (db_versions st)).2 = n + 1) as En.
  { unfold NewFileNumber. cbn [snd]. fold n. rewrite wrap_small by (unfold in_u in *; lia). unfold set_next_file_number. by destruct (db_versions st). }
  assert (forall l, 0 <= l < kNumLevels -> level_files (current vs2) l = level_files (v_of st) l) as Hlev.
  { intros l Hl. rewrite Hcur. unfold level_files at 1. rewrite files_Finalize. rewrite Ev. apply no_file_levels; [by rewrite F1|by rewrite F2|done]. }
  set (tc2 := with_env (fun _ => e2) (db_table_cache st)). set (st2 := set_imm None (set_table_cache tc2 (set_version_set vs2 st))).
  destruct (reachable_state _ _ _ _ _ _ Hname _ _ _ Hr2) as (Hf2 & _). destruct (removed_spec dbname st2 Hf2 Herr) as (tc3 & Er & Hf3 & Hc3 & Hneed & Hsub3).
  exists (set_table_cache tc3 st2). split.
  { unfold CompactMemTable. rewrite Eimm. cbn [mbind option_bind]. rewrite (WriteLevel0Table_empty _ _ _ _ _ Himm). cbn [mbind option_bind]. rewrite ok_OK, Hopen. cbn [andb]. rewrite ok_OK. fold n edit.
    change (tc_env (with_env _ _)) with e1. rewrite Ela, ok_OK. exact (f_equal Some Er). }
  split; [done|]. split.
  { split; [split_and!; [done|cbn; congruence|done..]|]. split; [cbn; congruence|]. split; [cbn; rewrite Hcur; by apply Finalize_pick|].
    destruct (removed_logs extend dbname reuse_logs ucmp cmp_name Hname max_file_size used st2 tc3 Hr2 Hdesc Hf3 Hneed Hsub3) as [Hk3 Hq3].
    split; cbn [set_table_cache set_imm set_version_set st2 db_imm db_versions db_table_cache db_logfile_number]; [by right|by rewrite Eimm|by right|fold n; lia| |intros q _; eexists; split; [apply Hq3, Hq2|by right]].
    apply (logs_kept_trans dbname _ _ e1); [apply Hk1|]. apply (logs_kept_trans dbname _ _ e2); [apply Hk2|]. exact Hk3. }
  split.
  - change (set_table_cache tc3 st2) with (set_imm None (set_table_cache tc3 (set_version_set vs2 st))). apply (db_ok_levels contents used mes []); try done; [fold n; lia| | |by left].
    + apply (reachable_removed extend dbname reuse_logs ucmp cmp_name Hname max_file_size used st2 tc3); done.
    + intros m Hm Hlt (f & (l & Hl & Hfl) & <-). rewrite Hneed.
      * change (tc_env (db_table_cache st2)) with e2. rewrite (LogAndApply_files _ _ _ _ _ _ _ _ _ _ _ (TableFileName dbname (number f)) Hman Ela).
        -- apply He1. intros E. pose proof (named_table dbname _ Hm) as Ht. rewrite E in Ht. destruct (named_inj _ _ _ _ _ _ Ht (named_table dbname n Hnu)). fold n in Hlt. lia.
        -- by apply (reachable_not_descriptor extend dbname reuse_logs ucmp cmp_name Hname max_file_size used _ e1 _ (number f) kTableFile Hr1 (named_table dbname _ Hm)).
      * apply needed_table; [done|]. apply AddLiveFiles_spec. right. rewrite <-Hlev in Hfl by done. destruct (current_files_live _ _ _ Hfl) as (lv & Hlv & Hg'). by exists lv, f.
  - by apply all_entries_levels.
Qed.

(** ** One call *)

(** Every set of entries that can be a table fits one, and there are not too many. *)
Definition entries_fit (E : list entry) : Prop :=
  2 * slen E < 2 ^ 31 /\ forall es, (forall e, e ∈ es -> e ∈ E) -> entries_ok ucmp es -> seqs_differ es -> es <> [] -> input_ok es.

(** The store holds its entries, all of [E], and has numbers for the files of [k] more calls. *)
Record work_ok (E : list entry) (k : Z) (contents : FileMetaData -> list entry) (used : list (Z * Z)) (mes ies : list entry) (bg : Background) : Prop := {
  wk_db : db_ok contents used mes ies (bg_db bg);
  wk_pick : pick_ok (v_of (bg_db bg));
  wk_manual m : bg_manual bg = Some m -> 0 <= m_level m < kNumLevels - 1;
  wk_entries e : e ∈ ies ++ all_entries contents (v_of (bg_db bg)) -> e ∈ E;
  wk_number : vs_next_file_number (db_versions (bg_db bg)) + k * (slen E + 1) + 2 < 2 ^ 64;
  wk_log : is_u64 (db_logfile_number (bg_db bg));
  wk_error : ok (db_bg_error (bg_db bg)) = true;
  wk_open : db_shutting_down (bg_db bg) = false;
}.

(** Every read that no live snapshot is too old for has the result that it had. *)
Definition same_reads (ss : Z) (es es' : list entry) : Prop := forall key s value, ss <= s -> read_result value (newest key s es') = read_result value (newest key s es).

(** What a call did: the memtable, the manual compaction, or a compaction by the sizes or the seeks, if there was one. *)
Definition call_did (contents : FileMetaData -> list entry) (bg : Background) (contents' : FileMetaData -> list entry) (bg' : Background) (manual : option ManualCompaction) : Prop :=
  let less := (weight contents' (v_of (bg_db bg')) < weight contents (v_of (bg_db bg)))%nat in
  match db_imm (bg_db bg), bg_manual bg with
  | Some _, _ => bg_manual bg' = bg_manual bg /\ manual = bg_manual bg
  | None, Some m => bg_manual bg' = None /\ (less \/ bg_db bg' = bg_db bg /\ contents' = contents) /\ exists m', manual = Some m' /\ m_level m' = m_level m /\ (m_done m' = true \/ less)
  | None, None => bg_manual bg' = None /\ manual = None /\ (less \/ bg_db bg' = bg_db bg /\ contents' = contents /\ NeedsCompaction (db_versions (bg_db bg)) = false)
  end.

Lemma level_count contents stored v l : version_ok ucmp contents stored v -> 0 <= l < kNumLevels -> slen (level_files v l) <= slen (all_entries contents v).
Proof.
  intros Hv Hl.
  assert (length (level_files v l) <= length (concat (map contents (level_files v l))))%nat as H1.
  { pose proof (vo_files _ _ _ _ Hv l Hl) as Hfs. induction Hfs as [|f fs Hf _ IH]; [done|]. cbn [map concat]. rewrite length_app. destruct Hf as (_ & _ & _ & _ & _ & e & He & _).
    destruct (contents f); [done|]. cbn [length] in *. lia. }
  assert (length (concat (map contents (level_files v l))) <= length (all_entries contents v))%nat; [|lia].
  apply NoDup_length_le; [by apply seqs_differ_NoDup, (vo_differ _ _ _ _ Hv)|]. intros e He. apply elem_of_all. eauto.
Qed.

Lemma work_count E k contents used mes ies bg : work_ok E k contents used mes ies bg -> slen ies <= slen E /\ slen (all_entries contents (v_of (bg_db bg))) <= slen E.
Proof.
  intros Hw. pose proof (wk_db _ _ _ _ _ _ _ Hw) as [_ _ (_ & _ & _ & Hd) _ _ _ _ Hv _ _ _ _]. pose proof (wk_entries _ _ _ _ _ _ _ Hw) as Hin.
  split; apply inj_le, NoDup_length_le; [by apply seqs_differ_NoDup|intros e He; apply Hin, elem_of_app; by left|by apply seqs_differ_NoDup, (all_entries_differ ucmp _ _ _ Hv)|intros e He; apply Hin, elem_of_app; by right].
Qed.

Lemma work_weight E k contents used mes ies bg : work_ok E k contents used mes ies bg -> (weight contents (v_of (bg_db bg)) <= 7 * length E)%nat.
Proof.
  intros Hw. assert (forall e, e ∈ all_entries contents (v_of (bg_db bg)) -> e ∈ E) as Hin by (intros e He; apply (wk_entries _ _ _ _ _ _ _ Hw), elem_of_app; by right).
  clear Hw Ho Hname. pose proof (weight_bound contents (v_of (bg_db bg)) E Hin) as H. unfold kNumLevels in H. lia.
Qed.

Lemma work_compactable E k contents used mes ies bg : entries_fit E -> 0 <= k -> work_ok E (k + 1) contents used mes ies bg -> compactable extend snappy zstd ucmp o contents (bg_db bg).
Proof.
  intros [Hcnt Hfit] Hk Hw. pose proof (work_count _ _ _ _ _ _ _ Hw) as [_ Hn]. destruct Hw as [Hdb _ _ Hin Hnum _ Herr Hopen]. split; [| |nia|done|done].
  - intros es Hes. apply Hfit. intros e He. apply Hin, elem_of_app. right. by apply Hes.
  - intros l Hl. pose proof (level_count _ _ _ l (ok_version _ _ _ _ _ _ _ _ _ _ _ _ _ _ _ Hdb) Hl). lia.
Qed.

Lemma work_flushable E k contents used mes ies bg : entries_fit E -> 0 <= k -> work_ok E (k + 1) contents used mes ies bg -> ies <> [] -> flushable extend snappy zstd ucmp o ies (bg_db bg).
Proof.
  intros [Hcnt Hfit] Hk Hw Hne. pose proof (work_count _ _ _ _ _ _ _ Hw) as [Hi Hn]. destruct Hw as [Hdb _ _ Hin Hnum Hlog Herr Hopen]. split; [done| | |nia|done|done|done].
  - intros sorted Hp Hes. pose proof Hdb as [_ _ (_ & _ & _ & Hd) _ _ _ _ _ _ _ _ _]. apply Hfit; [|done|by apply (seqs_differ_perm ies)|intros ->; by apply Permutation_nil in Hp].
    intros e He. apply Hin, elem_of_app. left. by rewrite <-Hp.
  - intros l Hl. pose proof (level_count _ _ _ l (ok_version _ _ _ _ _ _ _ _ _ _ _ _ _ _ _ Hdb) Hl). lia.
Qed.

Lemma flush_work E k contents used mes ies bg imm ss fuel :
  entries_fit E -> 0 <= k -> work_ok E (k + 1) contents used mes ies bg -> db_imm (bg_db bg) = Some imm ->
  exists contents' used' st',
    BackgroundCompaction extend snappy zstd dbname o in_scratch None ucmp cmp_name max_file_size (fun _ st => st) fuel bg = Some (set_db st' bg, bg_manual bg) /\
    work_ok E k contents' used' mes [] (set_db st' bg) /\ db_imm st' = None /\ (same_rest (bg_db bg) st' /\ kept_logs (bg_db bg) st') /\ (forall e, e ∈ all_entries contents' (v_of st') -> e ∈ ies ++ all_entries contents (v_of (bg_db bg))) /\
    same_reads ss (mes ++ ies ++ all_entries contents (v_of (bg_db bg))) (mes ++ [] ++ all_entries contents' (v_of st')).
Proof.
  intros Hfit Hk Hw Himm. assert (exists contents' used' st', compact_mem (bg_db bg) = Some st' /\ db_imm st' = None /\
      (same_rest (bg_db bg) st' /\ vs_next_file_number (db_versions st') = vs_next_file_number (db_versions (bg_db bg)) + 1 /\ pick_ok (v_of st') /\ kept_logs (bg_db bg) st') /\ db_ok contents' used' mes [] st' /\
      all_entries contents' (v_of st') ≡ₚ ies ++ all_entries contents (v_of (bg_db bg)) /\
      forall key s, newest key s (mes ++ [] ++ all_entries contents' (v_of st')) = newest key s (mes ++ ies ++ all_entries contents (v_of (bg_db bg)))) as (contents' & used' & st' & E1 & H1 & (Hrest & Hnx & Hp & Hkl) & Hdb' & Hall & Hnew).
  { destruct (decide (ies = [])) as [->|Hne]; [|apply (CompactMemTable_spec extend snappy zstd dbname in_scratch reuse_logs ucmp cmp_name Hname max_file_size o Ho contents used mes ies (bg_db bg) imm); [apply Hw|done|by apply (work_flushable E k contents used mes ies)]].
    pose proof Hw as [Hdb _ _ _ Hnum Hlog Herr Hopen]. destruct (CompactMemTable_empty contents used mes (bg_db bg) imm Hdb Himm ltac:(nia) Hlog Herr Hopen) as (st' & E1 & H1 & H2 & H3 & H4).
    exists contents, used, st'. split; [done|]. split; [done|]. split; [done|]. split; [done|]. split; [by rewrite H4|]. intros key s. by rewrite H4. }
  exists contents', used', st'. split; [unfold BackgroundCompaction; rewrite bool_decide_false by (by rewrite Himm); cbn [negb]; by rewrite E1|].
  split; [|split; [done|]; split; [done|]; split; [intros e; by rewrite Hall|]; intros key s value _; by rewrite Hnew]. destruct Hw as [Hdb _ Hm Hin Hnum Hlog Herr Hopen]. destruct Hrest as (_ & _ & R3 & R4 & R5).
  split; cbn [set_db bg_db bg_manual]; rewrite ?R3, ?R4, ?R5; try done; [|rewrite Hnx; nia]. intros e. rewrite Hall. apply Hin.
Qed.

Lemma tables_work E k contents used mes bg ss fuel :
  entries_fit E -> 0 <= k -> work_ok E (k + 1) contents used mes [] bg -> db_imm (bg_db bg) = None ->
  smallest_snapshot (bg_snapshots bg) (vs_last_sequence (db_versions (bg_db bg))) = Some ss -> ss < kMaxSequenceNumber -> slen E <= Z.of_nat fuel ->
  exists contents' used' st' manual, let bg' := MkBackground st' (bg_snapshots bg) None (bg_scheduled bg) in
    BackgroundCompaction extend snappy zstd dbname o in_scratch None ucmp cmp_name max_file_size (fun _ st => st) fuel bg = Some (bg', manual) /\
    work_ok E k contents' used' mes [] bg' /\ db_imm st' = None /\ (same_rest (bg_db bg) st' /\ kept_logs (bg_db bg) st') /\ (forall e, e ∈ all_entries contents' (v_of st') -> e ∈ all_entries contents (v_of (bg_db bg))) /\ same_reads ss (mes ++ [] ++ all_entries contents (v_of (bg_db bg))) (mes ++ [] ++ all_entries contents' (v_of st')) /\
    call_did contents bg contents' bg' manual.
Proof.
  intros Hfit Hk Hw Himm Hsnap Hss Hfuel. pose proof (work_count _ _ _ _ _ _ _ Hw) as [_ Hn]. pose proof (work_compactable _ _ _ _ _ _ _ Hfit Hk Hw) as Hcp. destruct Hw as [Hdb Hp Hm Hin Hnum Hlog Herr Hopen].
  destruct (BackgroundCompaction_spec extend snappy zstd dbname in_scratch reuse_logs ucmp cmp_name Hname max_file_size o Ho contents used mes [] bg ss fuel Hdb Himm Hp Hm Hcp Hsnap Hss ltac:(lia))
    as (contents' & used' & st' & manual & E1 & Hdb' & Hp' & Hstep & Hman & Hreads). exists contents', used', st', manual. cbv zeta.
  assert ((same_rest (bg_db bg) st' /\ db_imm st' = None /\ kept_logs (bg_db bg) st') /\ vs_next_file_number (db_versions st') <= vs_next_file_number (db_versions (bg_db bg)) + slen E /\ (forall e, e ∈ all_entries contents' (v_of st') -> e ∈ all_entries contents (v_of (bg_db bg))) /\
    ((chooses ucmp bg /\ (weight contents' (v_of st') < weight contents (v_of (bg_db bg)))%nat) \/ (~ chooses ucmp bg /\ st' = bg_db bg /\ contents' = contents))) as ((Hrest & Himm' & Hkl) & Hnx & Hin' & Hdid).
  { destruct Hstep as [[Hch [[H1 H2] H3 Hkl H4]]|(Hch & -> & ->)].
    - split; [split_and!; [done|congruence|done]|]. split; [lia|]. split; [|left; split; [done|by apply sinks_weight]]. intros e He. by eapply sinks_entries.
    - split; [split_and!; [done|done|apply kept_logs_refl]|]. split; [lia|]. split; [done|by right]. }
  split; [done|]. split; [|split; [done|]; split; [done|]; split; [done|]; split; [done|]].
  - destruct Hrest as (_ & _ & R3 & R4 & R5). split; cbn [bg_db bg_manual]; rewrite ?R3, ?R4, ?R5; try done; [intros e He; apply Hin; by apply Hin'|nia].
  - unfold call_did. rewrite Himm. cbn [bg_db bg_manual]. unfold chooses in Hdid. destruct (bg_manual bg) as [m|].
    + split; [done|]. split; [destruct Hdid as [[_ ?]|(_ & ? & ?)]; [by left|by right]|]. destruct Hman as (m' & -> & Hl & Hdone). exists m'. split; [done|]. split; [done|]. destruct Hdid as [[_ ?]|[Hnc _]]; [by right|]. left. apply Hdone. destruct (GetOverlappingInputs _ _ _ _ _) as [[]|]; [done|exfalso; by apply Hnc..].
    + split; [done|]. split; [done|]. destruct Hdid as [[_ ?]|(Hnc & -> & ->)]; [by left|right]. split; [done|]. split; [done|]. by destruct (NeedsCompaction _).
Qed.

(** Work that is left is scheduled. *)
Definition awake (bg : Background) : Prop :=
  bg_scheduled bg = false -> db_imm (bg_db bg) = None /\ bg_manual bg = None /\ NeedsCompaction (db_versions (bg_db bg)) = false.

Lemma MaybeSchedule_fields bg : bg_db (MaybeScheduleCompaction bg) = bg_db bg /\ bg_snapshots (MaybeScheduleCompaction bg) = bg_snapshots bg /\ bg_manual (MaybeScheduleCompaction bg) = bg_manual bg.
Proof. unfold MaybeScheduleCompaction. by repeat case_match. Qed.

Lemma MaybeSchedule_awake bg : ok (db_bg_error (bg_db bg)) = true -> db_shutting_down (bg_db bg) = false -> awake (MaybeScheduleCompaction bg).
Proof.
  intros Herr Hopen. unfold awake, MaybeScheduleCompaction. rewrite Herr, Hopen. cbn [negb]. destruct (bg_scheduled bg) eqn:Es; [by rewrite Es|].
  destruct (bool_decide _ && bool_decide _ && negb _) eqn:E; [|done]. intros _. apply andb_true_iff in E as [[H1%bool_decide_eq_true H2%bool_decide_eq_true]%andb_true_iff H3%negb_true_iff]. done.
Qed.

Lemma MaybeSchedule_idle bg : bg_scheduled bg = false -> db_imm (bg_db bg) = None -> bg_manual bg = None -> NeedsCompaction (db_versions (bg_db bg)) = false -> bg_scheduled (MaybeScheduleCompaction bg) = false.
Proof. intros H1 H2 H3 H4. unfold MaybeScheduleCompaction. rewrite H1, H2, H3, H4. by repeat case_match. Qed.

Lemma work_schedule E k contents used mes ies bg b : work_ok E k contents used mes ies bg -> work_ok E k contents used mes ies (MaybeScheduleCompaction (set_scheduled b bg)).
Proof. intros []. destruct (MaybeSchedule_fields (set_scheduled b bg)) as (E1 & E2 & E3). split; rewrite ?E1, ?E3; done. Qed.

Abbreviation call := (BackgroundCall extend snappy zstd dbname o in_scratch None ucmp cmp_name max_file_size (fun _ st => st)).

(** What a call leaves to the next one. *)
Record called (ss E k : _) (contents : FileMetaData -> list entry) (mes ies : list entry) (bg : Background) (contents' : FileMetaData -> list entry) (used' : list (Z * Z)) (bg' : Background) : Prop := {
  cd_work : work_ok E k contents' used' mes [] bg';
  cd_imm : db_imm (bg_db bg') = None;
  cd_snapshots : bg_snapshots bg' = bg_snapshots bg;
  cd_rest : same_rest (bg_db bg) (bg_db bg');
  cd_entries e : e ∈ all_entries contents' (v_of (bg_db bg')) -> e ∈ ies ++ all_entries contents (v_of (bg_db bg));
  cd_reads : same_reads ss (mes ++ ies ++ all_entries contents (v_of (bg_db bg))) (mes ++ [] ++ all_entries contents' (v_of (bg_db bg')));
  cd_awake : awake bg';
  cd_kept : kept_logs (bg_db bg) (bg_db bg');
}.

Lemma BackgroundCall_spec E k contents used mes ies bg ss fuel :
  entries_fit E -> 0 <= k -> work_ok E (k + 1) contents used mes ies bg -> bg_scheduled bg = true ->
  smallest_snapshot (bg_snapshots bg) (vs_last_sequence (db_versions (bg_db bg))) = Some ss -> ss < kMaxSequenceNumber -> slen E <= Z.of_nat fuel ->
  exists contents' used' bg' manual, call fuel bg = Some (bg', manual) /\ called ss E k contents mes ies bg contents' used' bg' /\ call_did contents bg contents' bg' manual /\
    (NeedsCompaction (db_versions (bg_db bg')) = false -> bg_manual bg' = None -> bg_scheduled bg' = false).
Proof.
  intros Hfit Hk Hw Hs Hsnap Hss Hfuel. assert (exists contents' used' bg' manual,
    BackgroundCompaction extend snappy zstd dbname o in_scratch None ucmp cmp_name max_file_size (fun _ st => st) fuel bg = Some (bg', manual) /\
    work_ok E k contents' used' mes [] bg' /\ bg_snapshots bg' = bg_snapshots bg /\ db_imm (bg_db bg') = None /\ (same_rest (bg_db bg) (bg_db bg') /\ kept_logs (bg_db bg) (bg_db bg')) /\ (forall e, e ∈ all_entries contents' (v_of (bg_db bg')) -> e ∈ ies ++ all_entries contents (v_of (bg_db bg))) /\
    same_reads ss (mes ++ ies ++ all_entries contents (v_of (bg_db bg))) (mes ++ [] ++ all_entries contents' (v_of (bg_db bg'))) /\ call_did contents bg contents' bg' manual) as
    (contents' & used' & bg' & manual & E1 & Hw' & Hsn & Himm' & (Hrest & Hkl) & Hent & Hreads & Hdid).
  { destruct (db_imm (bg_db bg)) as [imm|] eqn:Himm.
    - destruct (flush_work E k contents used mes ies bg imm ss fuel Hfit Hk Hw Himm) as (contents' & used' & st' & H1 & H2 & H3 & H4 & H5 & H6). exists contents', used', (set_db st' bg), (bg_manual bg).
      do 7 (split; [done|]). unfold call_did. by rewrite Himm.
    - assert (ies = []) as -> by (pose proof (wk_db _ _ _ _ _ _ _ Hw) as [_ Hi _ _ _ _ _ _ _ _ _ _]; by rewrite Himm in Hi).
      destruct (tables_work E k contents used mes bg ss fuel Hfit Hk Hw Himm Hsnap Hss Hfuel) as (contents' & used' & st' & manual & H1 & H2 & H3 & H4 & H5 & H6 & H7).
      by exists contents', used', (MkBackground st' (bg_snapshots bg) None (bg_scheduled bg)), manual. }
  exists contents', used', (MaybeScheduleCompaction (set_scheduled false bg')), manual. destruct (MaybeSchedule_fields (set_scheduled false bg')) as (M1 & M2 & M3).
  split; [unfold BackgroundCall; rewrite Hs; cbn [negb]; by rewrite (wk_open _ _ _ _ _ _ _ Hw), (wk_error _ _ _ _ _ _ _ Hw), E1|]. split.
  - split; rewrite ?M1, ?M2; try done; [by apply work_schedule|]. apply MaybeSchedule_awake; [apply (wk_error _ _ _ _ _ _ _ Hw')|apply (wk_open _ _ _ _ _ _ _ Hw')].
  - split; [unfold call_did in *; by rewrite M1, M3|]. rewrite M1, M3. intros Hn Hm. by apply MaybeSchedule_idle.
Qed.

Lemma called_trans ss E k k' contents mes ies bg contents1 used1 bg1 contents2 used2 bg2 :
  called ss E k contents mes ies bg contents1 used1 bg1 -> called ss E k' contents1 mes [] bg1 contents2 used2 bg2 -> called ss E k' contents mes ies bg contents2 used2 bg2.
Proof.
  intros [W1 I1 S1 (A1 & A2 & A3 & A4 & A5) N1 R1 _ K1] [W2 I2 S2 (B1 & B2 & B3 & B4 & B5) N2 R2 Q2 K2]. split; try done; [by rewrite S2|split_and!; congruence|intros e He; by apply N1, N2| |by apply (kept_logs_trans _ _ _ _ _ _ _ (bg_db bg1))].
  intros key s value Hs. by rewrite R2, R1.
Qed.

(** A state that needs no call. *)
Lemma called_self ss E k contents used mes bg : work_ok E k contents used mes [] bg -> db_imm (bg_db bg) = None -> awake bg -> called ss E k contents mes [] bg contents used bg.
Proof. intros Hw Hi Ha. split; try done. apply kept_logs_refl. Qed.

Lemma work_less E k k' contents used mes ies bg : k' <= k -> work_ok E k contents used mes ies bg -> work_ok E k' contents used mes ies bg.
Proof. intros Hk []. split; try done. nia. Qed.

Lemma called_less ss E k k' contents mes ies bg contents' used' bg' : k' <= k -> called ss E k contents mes ies bg contents' used' bg' -> called ss E k' contents mes ies bg contents' used' bg'.
Proof. intros Hk []. split; try done. by apply (work_less E k). Qed.

Lemma called_snapshot ss E k contents mes ies bg contents' used' bg' x : called ss E k contents mes ies bg contents' used' bg' ->
  smallest_snapshot (bg_snapshots bg) (vs_last_sequence (db_versions (bg_db bg))) = Some x -> smallest_snapshot (bg_snapshots bg') (vs_last_sequence (db_versions (bg_db bg'))) = Some x.
Proof. intros [_ _ S1 (_ & A2 & _) _ _ _ _]. by rewrite S1, A2. Qed.

(** ** The background thread *)

Section settle.
Context (E : list entry) (Hfit : entries_fit E) (mes : list entry) (ss : Z) (Hss : ss < kMaxSequenceNumber) (fuel : nat) (Hfuel : slen E <= Z.of_nat fuel).

Abbreviation run := (run_background extend snappy zstd dbname o in_scratch None ucmp cmp_name max_file_size).
Abbreviation sees bg := (smallest_snapshot (bg_snapshots bg) (vs_last_sequence (db_versions (bg_db bg))) = Some ss).

(** At rest: nothing is scheduled, and there is nothing to do. *)
Definition at_rest (bg : Background) : Prop := bg_scheduled bg = false /\ db_imm (bg_db bg) = None /\ bg_manual bg = None /\ NeedsCompaction (db_versions (bg_db bg)) = false.

Lemma run_rest n k contents used bg :
  0 <= k -> work_ok E k contents used mes [] bg -> awake bg -> bg_scheduled bg = false ->
  run n fuel bg = Some bg /\ called ss E 0 contents mes [] bg contents used bg /\ at_rest bg.
Proof.
  intros Hk Hw Ha Hs. pose proof (Ha Hs) as (Hi & Hr). split; [by destruct n; cbn; rewrite Hs|]. split; [|done]. apply called_self; [by apply (work_less E k)|done|done].
Qed.

(** With tables only: each call makes the work less. *)
Lemma run_tables w contents used bg :
  (weight contents (v_of (bg_db bg)) <= w)%nat -> work_ok E (Z.of_nat w + 1) contents used mes [] bg -> db_imm (bg_db bg) = None -> bg_manual bg = None -> awake bg -> sees bg ->
  exists contents' used' bg', run (S w) fuel bg = Some bg' /\ called ss E 0 contents mes [] bg contents' used' bg' /\ at_rest bg'.
Proof.
  revert contents used bg. induction w as [|w IH]; intros contents used bg Hle Hw Himm Hm Ha Hs.
  all: destruct (bg_scheduled bg) eqn:Esc; [|exists contents, used, bg; eapply run_rest; [|exact Hw|done|done]; lia].
  all: match type of Hw with work_ok _ (?k + 1) _ _ _ _ _ => destruct (BackgroundCall_spec E k contents used mes [] bg ss fuel Hfit ltac:(lia) Hw Esc Hs Hss Hfuel) as (c1 & u1 & bg1 & m1 & E1 & Hc & Hdid & Hidle) end; unfold call_did in Hdid; rewrite Himm, Hm in Hdid; destruct Hdid as (Hm1 & -> & Hdid).
  all: cbn [run_background]; rewrite Esc; cbn [negb]; rewrite E1; cbn [mbind option_bind]; pose proof Hc as [Hw1 Hi1 _ _ _ _ Ha1 _].
  all: destruct Hdid as [Hlt|(Edb & _ & Hn)]; [|rewrite <-Edb in Hn; specialize (Hidle Hn Hm1)].
  - lia.
  - destruct (run_rest 0 (Z.of_nat 0) c1 u1 bg1 ltac:(lia) Hw1 Ha1 Hidle) as (Er & Hc' & Hr). exists c1, u1, bg1. split; [exact Er|]. split; [|done]. by apply (called_trans _ _ _ _ _ _ _ _ _ _ _ _ _ _ Hc).
  - destruct (IH c1 u1 bg1 ltac:(lia)) as (c2 & u2 & bg2 & E2 & Hc2 & Hr2); [by replace (Z.of_nat w + 1) with (Z.of_nat (S w)) by lia|done|done|done|by apply (called_snapshot _ _ _ _ _ _ _ _ _ _ _ Hc)|].
    exists c2, u2, bg2. split; [exact E2|]. split; [|done]. by apply (called_trans _ _ _ _ _ _ _ _ _ _ _ _ _ _ Hc).
  - destruct (run_rest (S w) (Z.of_nat (S w)) c1 u1 bg1 ltac:(lia) Hw1 Ha1 Hidle) as (Er & Hc' & Hr). exists c1, u1, bg1. split; [exact Er|]. split; [|done]. by apply (called_trans _ _ _ _ _ _ _ _ _ _ _ _ _ _ Hc).
Qed.

(** A call, and the calls behind it. *)
Lemma run_call n k contents used ies bg :
  0 <= k -> work_ok E (k + 1) contents used mes ies bg -> bg_scheduled bg = true -> sees bg ->
  (forall c1 u1 bg1 m1, work_ok E k c1 u1 mes [] bg1 -> db_imm (bg_db bg1) = None -> awake bg1 -> sees bg1 -> call_did contents bg c1 bg1 m1 ->
    exists c2 u2 bg2, run n fuel bg1 = Some bg2 /\ called ss E 0 c1 mes [] bg1 c2 u2 bg2 /\ at_rest bg2) ->
  exists contents' used' bg', run (S n) fuel bg = Some bg' /\ called ss E 0 contents mes ies bg contents' used' bg' /\ at_rest bg'.
Proof.
  intros Hk Hw Hsc Hs Hnext. destruct (BackgroundCall_spec E k contents used mes ies bg ss fuel Hfit Hk Hw Hsc Hs Hss Hfuel) as (c1 & u1 & bg1 & m1 & E1 & Hc & Hdid & _). pose proof Hc as [Hw1 Hi1 _ _ _ _ Ha1 _].
  destruct (Hnext c1 u1 bg1 m1 Hw1 Hi1 Ha1 ltac:(by apply (called_snapshot _ _ _ _ _ _ _ _ _ _ _ Hc)) Hdid) as (c2 & u2 & bg2 & E2 & Hc2 & Hr). exists c2, u2, bg2.
  split; [cbn [run_background]; rewrite Hsc; cbn [negb]; rewrite E1; exact E2|]. split; [|done]. by apply (called_trans _ _ _ _ _ _ _ _ _ _ _ _ _ _ Hc).
Qed.

Lemma run_manual w contents used bg :
  (7 * length E <= w)%nat -> work_ok E (Z.of_nat w + 2) contents used mes [] bg -> db_imm (bg_db bg) = None -> awake bg -> sees bg ->
  exists contents' used' bg', run (S (S w)) fuel bg = Some bg' /\ called ss E 0 contents mes [] bg contents' used' bg' /\ at_rest bg'.
Proof.
  intros Hle Hw Hi Ha Hs. pose proof (work_weight _ _ _ _ _ _ _ Hw) as Hwt. destruct (bg_manual bg) as [m|] eqn:Em.
  - assert (bg_scheduled bg = true) as Hsc by (destruct (bg_scheduled bg) eqn:Esc; [done|]; destruct (Ha Esc) as (_ & ? & _); congruence).
    apply (run_call _ (Z.of_nat w + 1) contents used [] bg); [lia|by replace (Z.of_nat w + 1 + 1) with (Z.of_nat w + 2) by lia|done|done|].
    intros c1 u1 bg1 m1 Hw1 Hi1 Ha1 Hs1 Hdid. unfold call_did in Hdid. rewrite Hi, Em in Hdid. destruct Hdid as [Hm1 _]. pose proof (work_weight _ _ _ _ _ _ _ Hw1). by apply (run_tables w c1 u1 bg1); [lia|..].
  - apply (run_tables (S w) contents used bg); [lia|by replace (Z.of_nat (S w) + 1) with (Z.of_nat w + 2) by lia|done..].
Qed.

Lemma run_settles contents used ies bg :
  work_ok E (7 * slen E + 3) contents used mes ies bg -> awake bg -> sees bg ->
  exists contents' used' bg', run (7 * length E + 3) fuel bg = Some bg' /\ called ss E 0 contents mes ies bg contents' used' bg' /\ at_rest bg'.
Proof.
  intros Hw Ha Hs. set (w := (7 * length E)%nat). assert (7 * slen E = Z.of_nat w) as Ew by (unfold w; lia). rewrite Ew in Hw. replace (w + 3)%nat with (S (S (S w))) by lia. destruct (db_imm (bg_db bg)) as [imm|] eqn:Ei.
  - assert (bg_scheduled bg = true) as Hsc by (destruct (bg_scheduled bg) eqn:Esc; [done|]; destruct (Ha Esc) as (? & _); congruence).
    apply (run_call _ (Z.of_nat w + 2) contents used ies bg); [lia|by replace (Z.of_nat w + 2 + 1) with (Z.of_nat w + 3) by lia|done|done|].
    intros c1 u1 bg1 m1 Hw1 Hi1 Ha1 Hs1 _. by apply (run_manual w c1 u1 bg1); [lia|..].
  - assert (ies = []) as -> by (pose proof (wk_db _ _ _ _ _ _ _ Hw) as [_ Hi _ _ _ _ _ _ _ _ _ _]; by rewrite Ei in Hi).
    apply (run_manual (S w) contents used bg); [lia|by replace (Z.of_nat (S w) + 2) with (Z.of_nat w + 3) by lia|done..].
Qed.

(** ** The thread of a manual compaction *)

Abbreviation loop := (TEST_CompactRange_loop extend snappy zstd dbname o in_scratch None ucmp cmp_name max_file_size).

(** What the loop leaves behind, with numbers for the files of [k0] more calls. *)
Context (k0 : Z) (Hk0 : 0 <= k0).

Definition compacted_range (contents : FileMetaData -> list entry) (ies : list entry) (bg : Background) (result : option Background) : Prop :=
  exists contents' used' bg', result = Some bg' /\ called ss E k0 contents mes ies bg contents' used' bg' /\ bg_manual bg' = None.

(** The manual compaction is put in the place of [manual_compaction_]. *)
Lemma work_claim k contents used ies bg m :
  work_ok E k contents used mes ies bg -> 0 <= m_level m < kNumLevels - 1 -> let bg1 := MaybeScheduleCompaction (set_manual (Some m) bg) in
  work_ok E k contents used mes ies bg1 /\ bg_db bg1 = bg_db bg /\ bg_snapshots bg1 = bg_snapshots bg /\ bg_manual bg1 = Some m /\ bg_scheduled bg1 = true /\ awake bg1.
Proof.
  intros Hw Hl bg1. pose proof Hw as [H1 H2 H3 H4 H5 H6 H7 H8]. destruct (MaybeSchedule_fields (set_manual (Some m) bg)) as (E1 & E2 & E3). fold bg1 in E1, E2, E3. change (bg_db (set_manual _ _)) with (bg_db bg) in E1.
  assert (awake bg1) as Ha by (by apply MaybeSchedule_awake). split; [split; rewrite ?E1, ?E3; try done; by intros m' [= <-]|]. split; [done|]. split; [done|]. split; [done|]. split; [|done].
  destruct (bg_scheduled bg1) eqn:Es; [done|]. destruct (Ha Es) as (_ & Hm & _). by rewrite E3 in Hm.
Qed.

(** A call behind which the loop goes on. *)
Lemma loop_call n k contents used ies bg mine manual m0 :
  0 <= k -> work_ok E (k + 1) contents used mes ies bg -> bg_manual bg = Some m0 -> awake bg -> sees bg -> m_done manual = false ->
  (forall c1 u1 bg1 m1, work_ok E k c1 u1 mes [] bg1 -> db_imm (bg_db bg1) = None -> awake bg1 -> sees bg1 -> call_did contents bg c1 bg1 m1 ->
    compacted_range c1 [] bg1 (loop n fuel (mine && negb (bool_decide (bg_manual bg1 = None))) (if mine then default manual m1 else manual) bg1)) ->
  compacted_range contents ies bg (loop (S n) fuel mine manual bg).
Proof.
  intros Hk Hw Hm Ha Hs Hd Hnext. assert (bg_scheduled bg = true) as Hsc by (destruct (bg_scheduled bg) eqn:Esc; [done|]; destruct (Ha Esc) as (_ & ? & _); congruence).
  destruct (BackgroundCall_spec E k contents used mes ies bg ss fuel Hfit Hk Hw Hsc Hs Hss Hfuel) as (c1 & u1 & bg1 & m1 & E1 & Hc & Hdid & _). pose proof Hc as [Hw1 Hi1 _ _ _ _ Ha1 _].
  destruct (Hnext c1 u1 bg1 m1 Hw1 Hi1 Ha1 ltac:(by apply (called_snapshot _ _ _ _ _ _ _ _ _ _ _ Hc)) Hdid) as (c2 & u2 & bg2 & E2 & Hc2 & Hr). exists c2, u2, bg2.
  split; [cbn [TEST_CompactRange_loop]; rewrite Hd, (wk_open _ _ _ _ _ _ _ Hw), (wk_error _ _ _ _ _ _ _ Hw), Hm, E1; exact E2|]. split; [|done]. by apply (called_trans _ _ _ _ _ _ _ _ _ _ _ _ _ _ Hc).
Qed.

(** The claim, behind which the loop goes on. *)
Lemma loop_claim n k contents used ies bg mine manual :
  work_ok E k contents used mes ies bg -> bg_manual bg = None -> sees bg -> m_done manual = false -> 0 <= m_level manual < kNumLevels - 1 ->
  (forall bg1, work_ok E k contents used mes ies bg1 -> bg_db bg1 = bg_db bg -> bg_manual bg1 = Some manual -> awake bg1 -> sees bg1 -> compacted_range contents ies bg1 (loop n fuel true manual bg1)) ->
  compacted_range contents ies bg (loop (S n) fuel mine manual bg).
Proof.
  intros Hw Hm Hs Hd Hl Hnext. destruct (work_claim k contents used ies bg manual Hw Hl) as (Hw1 & Edb & Esn & Em & _ & Ha1). set (bg1 := MaybeScheduleCompaction _) in *.
  assert (sees bg1) as Hs1 by (by rewrite Edb, Esn). destruct (Hnext bg1 Hw1 Edb Em Ha1 Hs1) as (c2 & u2 & bg2 & E2 & Hc & Hr). exists c2, u2, bg2.
  split; [cbn [TEST_CompactRange_loop]; rewrite Hd, (wk_open _ _ _ _ _ _ _ Hw), (wk_error _ _ _ _ _ _ _ Hw), Hm; exact E2|]. split; [|done].
  destruct Hc as [C1 C2 C3 C4 C5 C6 C7 C8]. split; try done; [by rewrite C3|by rewrite <-Edb..].
Qed.

Lemma loop_done n k contents used bg manual :
  k0 <= k -> work_ok E k contents used mes [] bg -> db_imm (bg_db bg) = None -> bg_manual bg = None -> awake bg -> m_done manual = true -> compacted_range contents [] bg (loop (S n) fuel false manual bg).
Proof.
  intros Hk Hw Hi Hm Ha Hd. exists contents, used, bg. split; [cbn [TEST_CompactRange_loop]; by rewrite Hd|]. split; [|done]. apply called_self; [by apply (work_less E k)|done|done].
Qed.

Lemma loop_tables w contents used bg manual n :
  (weight contents (v_of (bg_db bg)) <= w)%nat -> work_ok E (k0 + Z.of_nat w + 1) contents used mes [] bg -> db_imm (bg_db bg) = None -> awake bg -> sees bg -> m_done manual = false -> 0 <= m_level manual < kNumLevels - 1 ->
  (bg_manual bg = Some manual -> (2 * w + 2 <= n)%nat -> compacted_range contents [] bg (loop n fuel true manual bg)) /\
  (bg_manual bg = None -> (2 * w + 3 <= n)%nat -> compacted_range contents [] bg (loop n fuel false manual bg)).
Proof.
  revert contents used bg manual n. induction w as [w IH] using lt_wf_ind. intros contents used bg manual n Hle Hw Hi Ha Hs Hd Hl.
  assert (forall bg n, work_ok E (k0 + Z.of_nat w + 1) contents used mes [] bg -> (weight contents (v_of (bg_db bg)) <= w)%nat -> db_imm (bg_db bg) = None -> awake bg -> sees bg -> bg_manual bg = Some manual -> (2 * w + 2 <= n)%nat ->
    compacted_range contents [] bg (loop n fuel true manual bg)) as Hmine.
  { clear -IH Hd Hl Hk0 Hfit Hss Hfuel Hname Ho ComparatorLaws0 SeparatorSame0 Checksum0. intros bg n Hw Hle Hi Ha Hs Hm Hn. destruct n as [|n]; [lia|]. apply (loop_call n (k0 + Z.of_nat w) contents used [] bg true manual manual); try done; [lia|].
    intros c1 u1 bg1 m1 Hw1 Hi1 Ha1 Hs1 Hdid. unfold call_did in Hdid. rewrite Hi, Hm in Hdid. destruct Hdid as (Hm1 & _ & m' & -> & Hl' & Hless). rewrite Hm1, bool_decide_true by done. cbn [andb negb default].
    destruct n as [|n]; [lia|]. destruct (m_done m') eqn:Ed; [by apply (loop_done n (k0 + Z.of_nat w) c1 u1); [lia|..]|]. destruct Hless as [|Hless]; [done|].
    destruct (IH (w - 1)%nat ltac:(lia) c1 u1 bg1 m' (S n) ltac:(lia)) as [_ Hb]; [by replace (k0 + Z.of_nat (w - 1) + 1) with (k0 + Z.of_nat w) by lia|done|done|done|done|by rewrite Hl'|]. apply Hb; [done|lia]. }
  split; [intros Hm Hn; by apply Hmine|]. intros Hm Hn. destruct n as [|n]; [lia|]. apply (loop_claim n (k0 + Z.of_nat w + 1) contents used [] bg false manual); try done.
  intros bg1 Hw1 Edb Em1 Ha1 Hs1. apply Hmine; try done; [by rewrite Edb|by rewrite Edb|lia].
Qed.

Lemma loop_returns contents used ies bg manual n :
  work_ok E (7 * slen E + 3 + k0) contents used mes ies bg -> awake bg -> sees bg -> m_done manual = false -> 0 <= m_level manual < kNumLevels - 1 -> (14 * length E + 5 <= n)%nat ->
  compacted_range contents ies bg (loop n fuel false manual bg).
Proof.
  intros Hw Ha Hs Hd Hl Hn. set (w := (7 * length E)%nat). replace (7 * slen E + 3 + k0) with (k0 + Z.of_nat w + 1 + 1 + 1) in Hw by (unfold w; lia).
  assert (forall contents used bg n, work_ok E (k0 + Z.of_nat w + 1) contents used mes [] bg -> db_imm (bg_db bg) = None -> awake bg -> sees bg -> bg_manual bg = None -> (2 * w + 3 <= n)%nat ->
    compacted_range contents [] bg (loop n fuel false manual bg)) as H1.
  { intros c u b n' Hw' Hi' Ha' Hs' Hm' Hn'. pose proof (work_weight _ _ _ _ _ _ _ Hw') as Hwt. by apply (loop_tables w c u b manual n' Hwt Hw' Hi' Ha' Hs' Hd Hl). }
  assert (forall contents used bg n, work_ok E (k0 + Z.of_nat w + 1 + 1) contents used mes [] bg -> db_imm (bg_db bg) = None -> awake bg -> sees bg -> (2 * w + 4 <= n)%nat ->
    compacted_range contents [] bg (loop n fuel false manual bg)) as H2.
  { intros c u b n' Hw' Hi' Ha' Hs' Hn'. destruct (bg_manual b) as [m0|] eqn:Em; [|apply (H1 c u b); try done; [eapply work_less; [|exact Hw']; lia|lia]]. destruct n' as [|n']; [lia|].
    apply (loop_call n' (k0 + Z.of_nat w + 1) c u [] b false manual m0); try done; [lia|]. intros c1 u1 b1 m1 Hw1 Hi1 Ha1 Hs1 Hdid. unfold call_did in Hdid. rewrite Hi', Em in Hdid. destruct Hdid as (Hm1 & _). apply (H1 c1 u1 b1); try done. lia. }
  destruct (db_imm (bg_db bg)) as [imm|] eqn:Ei.
  2: { assert (ies = []) as -> by (pose proof (wk_db _ _ _ _ _ _ _ Hw) as [_ Hi _ _ _ _ _ _ _ _ _ _]; by rewrite Ei in Hi). apply (H2 contents used bg); try done; [eapply work_less; [|exact Hw]; lia|lia]. }
  destruct n as [|n]; [lia|]. destruct (bg_manual bg) as [m0|] eqn:Em.
  - apply (loop_call n (k0 + Z.of_nat w + 1 + 1) contents used ies bg false manual m0); try done; [lia|]. intros c1 u1 bg1 m1 Hw1 Hi1 Ha1 Hs1 _. apply (H2 c1 u1 bg1); try done. lia.
  - apply (loop_claim n (k0 + Z.of_nat w + 1 + 1 + 1) contents used ies bg false manual); try done. intros bg1 Hw1 Edb Em1 Ha1 Hs1. destruct n as [|n]; [lia|].
    apply (loop_call n (k0 + Z.of_nat w + 1 + 1) contents used ies bg1 true manual manual); try done; [lia|]. intros c2 u2 bg2 m2 Hw2 Hi2 Ha2 Hs2 Hdid. unfold call_did in Hdid. rewrite Edb, Ei, Em1 in Hdid. destruct Hdid as [Hm2 ->].
    rewrite Hm2, bool_decide_false by done. cbn [andb negb default]. pose proof (work_weight _ _ _ _ _ _ _ Hw2) as Hwt. apply (loop_tables w c2 u2 bg2 manual n Hwt); try done; [eapply work_less; [|exact Hw2]; lia|lia].
Qed.
End settle.

Lemma called_get ro : (forall p, opt_filter_policy o = Some p -> exists up, p = InternalFilterPolicy up) -> forall ss E k k' contents used mes ies bg contents' used' bg' s key value,
  let get := DB_Get extend snappy zstd dbname o in_scratch None ucmp ro in
  work_ok E k contents used mes ies bg -> called ss E k' contents mes ies bg contents' used' bg' -> seq_ok s -> ss <= s -> slen key + 8 < 2 ^ 32 ->
  exists result sched st1 sched' st1', get (Some s) key value (bg_db bg) = Some (result, sched, st1) /\ get (Some s) key value (bg_db bg') = Some (result, sched', st1').
Proof.
  intros Hfilter ss E k k' contents used mes ies bg contents' used' bg' s key value get [Hdb _ _ _ _ _ _ _] [[Hdb' _ _ _ _ _ _ _] _ _ _ _ Hreads _] Hs Hge Hk.
  destruct (DB_Get_spec extend snappy zstd dbname in_scratch reuse_logs ro ucmp cmp_name max_file_size o Ho Hfilter contents used mes ies (bg_db bg) s key value Hdb Hs Hk) as (sched & st1 & E1).
  destruct (DB_Get_spec extend snappy zstd dbname in_scratch reuse_logs ro ucmp cmp_name max_file_size o Ho Hfilter contents' used' mes [] (bg_db bg') s key value Hdb' Hs Hk) as (sched' & st1' & E2).
  rewrite (Hreads key s value Hge) in E2. by eexists _, sched, st1, sched', st1'.
Qed.
End schedule.

(** * Correctness *)

(** C5. The background work comes to rest.  In a store whose memtables, tables and versions hold their entries, whose entries fit
    tables and whose numbers have room, with no fault of the environment and no writer: the background thread, which calls
    [BackgroundCall] as long as work is scheduled, stops after at most 7 |E| + 3 calls for |E| entries, whether there is an
    immutable memtable, a manual compaction, or levels with too many files or files with too many seeks, and however much each
    compaction leaves to the next one: each one puts an entry on a deeper level or drops it.  Then nothing is scheduled and
    nothing is left to do; no background error is recorded; the store holds its entries; and [Get] of every key, at every
    snapshot that is not older than the oldest live one, returns what it returned before. *)
Theorem background_work_settles (extend : Z -> slice -> Z) (CS : Checksum extend) (snappy : option SnappyLib) (zstd : option ZstdLib)
    (dbname : slice) (in_scratch reuse_logs : bool) (ro : ReadOptions)
    (ucmp : Comparator) (CL : ComparatorLaws any_key ucmp) (LS : SeparatorSame any_key ucmp) (cmp_name : slice) (max_file_size : Z) (o : Options)
    (E : list entry) (contents : FileMetaData -> list entry) (used : list (Z * Z)) (mes ies : list entry) (bg : Background) (oldest_seq : Z) (fuel : nat) :
  let get := DB_Get extend snappy zstd dbname o in_scratch None ucmp ro in
  is_u32 (slen cmp_name) -> opt_comparator o = InternalKeyComparator ucmp -> (forall p, opt_filter_policy o = Some p -> exists up, p = InternalFilterPolicy up) ->
  entries_fit extend snappy zstd ucmp o E -> work_ok extend snappy zstd dbname in_scratch reuse_logs ucmp cmp_name max_file_size o E (7 * slen E + 3) contents used mes ies bg -> awake bg ->
  smallest_snapshot (bg_snapshots bg) (vs_last_sequence (db_versions (bg_db bg))) = Some oldest_seq -> oldest_seq < kMaxSequenceNumber -> slen E <= Z.of_nat fuel ->
  exists contents' used' bg',
    run_background extend snappy zstd dbname o in_scratch None ucmp cmp_name max_file_size (7 * length E + 3) fuel bg = Some bg' /\
    bg_scheduled bg' = false /\ db_imm (bg_db bg') = None /\ bg_manual bg' = None /\ NeedsCompaction (db_versions (bg_db bg')) = false /\ db_bg_error (bg_db bg') = db_bg_error (bg_db bg) /\
    db_ok extend snappy zstd dbname in_scratch reuse_logs ucmp cmp_name max_file_size o contents' used' mes [] (bg_db bg') /\
    forall s key value, seq_ok s -> oldest_seq <= s -> slen key + 8 < 2 ^ 32 ->
      exists result sched st1 sched' st1', get (Some s) key value (bg_db bg) = Some (result, sched, st1) /\ get (Some s) key value (bg_db bg') = Some (result, sched', st1').
Proof.
  intros get Hname Ho Hfilter Hfit Hw Ha Hsnap Hss Hfuel.
  destruct (run_settles extend snappy zstd dbname in_scratch reuse_logs ucmp cmp_name Hname max_file_size o Ho E Hfit mes oldest_seq Hss fuel Hfuel contents used ies bg Hw Ha Hsnap)
    as (contents' & used' & bg' & Er & Hc & H1 & H2 & H3 & H4). pose proof Hc as [Hw' _ _ (_ & _ & _ & Hbg & _) _ _ _ _].
  exists contents', used', bg'. do 6 (split; [done|]). split; [apply Hw'|]. intros s key value Hs Hge Hk.
  by apply (called_get extend snappy zstd dbname in_scratch reuse_logs ucmp cmp_name max_file_size o Ho ro Hfilter oldest_seq E _ _ contents used mes ies bg contents' used' bg' s key value Hw Hc).
Qed.

(** C18. A manual compaction returns.  [TEST_CompactRange] of a level, in such a store, whatever the background thread has to do
    first (an immutable memtable, the manual compaction of another thread, a compaction that was scheduled): the thread finds
    its turn, never waits while nothing is scheduled, and the loop ends after at most 14 |E| + 5 rounds.  Behind it there is no
    manual compaction, what is left to do is scheduled, the store holds its entries, and the reads are as they were. *)
Theorem manual_compaction_returns (extend : Z -> slice -> Z) (CS : Checksum extend) (snappy : option SnappyLib) (zstd : option ZstdLib)
    (dbname : slice) (in_scratch reuse_logs : bool) (ro : ReadOptions)
    (ucmp : Comparator) (CL : ComparatorLaws any_key ucmp) (LS : SeparatorSame any_key ucmp) (cmp_name : slice) (max_file_size : Z) (o : Options)
    (E : list entry) (contents : FileMetaData -> list entry) (used : list (Z * Z)) (mes ies : list entry) (bg : Background) (oldest_seq : Z) (fuel : nat)
    (level : Z) (begin end_ : option slice) :
  let get := DB_Get extend snappy zstd dbname o in_scratch None ucmp ro in
  is_u32 (slen cmp_name) -> opt_comparator o = InternalKeyComparator ucmp -> (forall p, opt_filter_policy o = Some p -> exists up, p = InternalFilterPolicy up) ->
  entries_fit extend snappy zstd ucmp o E -> work_ok extend snappy zstd dbname in_scratch reuse_logs ucmp cmp_name max_file_size o E (7 * slen E + 3) contents used mes ies bg -> awake bg ->
  smallest_snapshot (bg_snapshots bg) (vs_last_sequence (db_versions (bg_db bg))) = Some oldest_seq -> oldest_seq < kMaxSequenceNumber -> slen E <= Z.of_nat fuel -> 0 <= level < kNumLevels - 1 ->
  exists contents' used' bg',
    TEST_CompactRange extend snappy zstd dbname o in_scratch None ucmp cmp_name max_file_size (14 * length E + 5) fuel level begin end_ bg = Some bg' /\
    bg_manual bg' = None /\ awake bg' /\ db_bg_error (bg_db bg') = db_bg_error (bg_db bg) /\
    db_ok extend snappy zstd dbname in_scratch reuse_logs ucmp cmp_name max_file_size o contents' used' mes [] (bg_db bg') /\
    forall s key value, seq_ok s -> oldest_seq <= s -> slen key + 8 < 2 ^ 32 ->
      exists result sched st1 sched' st1', get (Some s) key value (bg_db bg) = Some (result, sched, st1) /\ get (Some s) key value (bg_db bg') = Some (result, sched', st1').
Proof.
  intros get Hname Ho Hfilter Hfit Hw Ha Hsnap Hss Hfuel Hl.
  destruct (loop_returns extend snappy zstd dbname in_scratch reuse_logs ucmp cmp_name Hname max_file_size o Ho E Hfit mes oldest_seq Hss fuel Hfuel 0 (Z.le_refl 0) contents used ies bg
    (MkManual level false ((fun k => NewInternalKey k kMaxSequenceNumber kValueTypeForSeek) <$> begin) ((fun k => NewInternalKey k 0 kTypeDeletion) <$> end_)) (14 * length E + 5) ltac:(by rewrite Z.add_0_r) Ha Hsnap eq_refl Hl (Nat.le_refl _))
    as (contents' & used' & bg' & Er & Hc & Hm). pose proof Hc as [Hw' _ _ (_ & _ & _ & Hbg & _) _ _ Ha' _].
  exists contents', used', bg'. do 4 (split; [done|]). split; [apply Hw'|]. intros s key value Hs Hge Hk.
  by apply (called_get extend snappy zstd dbname in_scratch reuse_logs ucmp cmp_name max_file_size o Ho ro Hfilter oldest_seq E _ _ contents used mes ies bg contents' used' bg' s key value Hw Hc).
Qed.

(** The store with an entry in its immutable memtable, and a manual compaction that waits. *)
Definition settle_background : Background := MkBackground flush_state NewSnapshotList (Some (MkManual 2 false None None)) true.

Lemma settle_facts :
  SFleb (double_of 1) (compaction_score_ (current sample_vs)) = false /\ file_to_compact_ (current sample_vs) = None /\ (vs_next_file_number sample_vs <? 100) = true /\
  smallest_snapshot NewSnapshotList (vs_last_sequence sample_vs) = Some (vs_last_sequence sample_vs) /\ (vs_last_sequence sample_vs <? 2) = true.
Proof. vm_compute. repeat split; reflexivity. Qed.

Lemma settle_fit : entries_fit crc32c_ref None None BytewiseComparator flush_options [flush_entry].
Proof.
  split; [cbn [length]; lia|]. intros es Hin Hes Hd Hne. rewrite (only_entry flush_entry es Hin Hd Hne) in Hes |- *. exact (fl_input _ _ _ _ _ _ _ flush_flushable _ (Permutation_refl _) Hes).
Qed.

Lemma settle_work : work_ok crc32c_ref None None sample_db true false BytewiseComparator sample_name 2097152 flush_options [flush_entry] (7 * slen [flush_entry] + 3) (fun _ => []) [] [] [flush_entry] settle_background.
Proof.
  destruct settle_facts as (F1 & F2 & F3 & _). apply Z.ltb_lt in F3. split.
  - exact flush_db_ok.
  - change (current (db_versions (bg_db settle_background))) with (current sample_vs). split; [congruence|]. split; [intros f Hf; congruence|]. rewrite flush_no_files. unfold kL0_CompactionTrigger. cbn [length]. lia.
  - intros m [= <-]. cbn. unfold kNumLevels. lia.
  - change (current (db_versions (bg_db settle_background))) with (current sample_vs). by rewrite (all_entries_empty (fun _ => []) (current sample_vs) flush_no_files).
  - change (db_versions (bg_db settle_background)) with sample_vs. cbn [length]. lia.
  - change (db_logfile_number (bg_db settle_background)) with 3. unfold in_u. lia.
  - reflexivity.
  - reflexivity.
Qed.

Lemma background_work_settles_witness :
  exists bg', run_background crc32c_ref None None sample_db flush_options true None BytewiseComparator sample_name 2097152 10 1 settle_background = Some bg' /\
    bg_scheduled bg' = false /\ db_imm (bg_db bg') = None /\ bg_manual bg' = None /\ NeedsCompaction (db_versions (bg_db bg')) = false /\
    exists result sched st1 sched' st1',
      DB_Get crc32c_ref None None sample_db flush_options true None BytewiseComparator DefaultReadOptions (Some 1) (lit "k") [] flush_state = Some (result, sched, st1) /\
      DB_Get crc32c_ref None None sample_db flush_options true None BytewiseComparator DefaultReadOptions (Some 1) (lit "k") [] (bg_db bg') = Some (result, sched', st1') /\ result = (OK, lit "v").
Proof.
  assert (is_u32 (slen sample_name)) as Hname by (by vm_compute). assert (seq_ok 1) as Hs by (by vm_compute). assert (slen (lit "k") + 8 < 2 ^ 32) as Hk by (by vm_compute).
  destruct settle_facts as (_ & _ & _ & F4 & F5). apply Z.ltb_lt in F5. assert (vs_last_sequence sample_vs <= 1) as Hge by lia.
  destruct (background_work_settles crc32c_ref _ None None sample_db true false DefaultReadOptions BytewiseComparator _ _ sample_name 2097152 flush_options [flush_entry] (fun _ => []) [] [] [flush_entry]
    settle_background (vs_last_sequence sample_vs) 1) as (contents' & used' & bg' & E & H1 & H2 & H3 & H4 & _ & _ & Hget).
  - exact Hname.
  - reflexivity.
  - intros p Ep. injection Ep as <-. by eexists.
  - exact settle_fit.
  - exact settle_work.
  - intros Hf. discriminate Hf.
  - exact F4.
  - apply (Z.lt_trans _ 2 _ F5). reflexivity.
  - cbn [length]. lia.
  - exists bg'. split; [exact E|]. split; [exact H1|]. split; [exact H2|]. split; [exact H3|]. split; [exact H4|].
    specialize (Hget 1 (lit "k") [] Hs Hge Hk). clear Hs Hk Hge E H1 H2 H3 H4. destruct Hget as (result & sched & st1 & sched' & st1' & E1 & E2).
    exists result, sched, st1, sched', st1'. split; [exact E1|]. split; [exact E2|].
    apply (f_equal (fun x => match x with Some (r, _, _) => r | None => (OK, []) end)) in E1. rewrite <-E1. clear. vm_compute. reflexivity.
Defined.

Lemma manual_compaction_returns_witness :
  exists bg', TEST_CompactRange crc32c_ref None None sample_db flush_options true None BytewiseComparator sample_name 2097152 19 1 1 None (Some (lit "z")) settle_background = Some bg' /\ bg_manual bg' = None /\ awake bg'.
Proof.
  assert (is_u32 (slen sample_name)) as Hname by (by vm_compute). destruct settle_facts as (_ & _ & _ & F4 & F5). apply Z.ltb_lt in F5.
  destruct (manual_compaction_returns crc32c_ref _ None None sample_db true false DefaultReadOptions BytewiseComparator _ _ sample_name 2097152 flush_options [flush_entry] (fun _ => []) [] [] [flush_entry]
    settle_background (vs_last_sequence sample_vs) 1 1 None (Some (lit "z"))) as (contents' & used' & bg' & E & H1 & H2 & _).
  - exact Hname.
  - reflexivity.
  - intros p Ep. injection Ep as <-. by eexists.
  - exact settle_fit.
  - exact settle_work.
  - intros Hf. discriminate Hf.
  - exact F4.
  - apply (Z.lt_trans _ 2 _ F5). reflexivity.
  - cbn [length]. lia.
  - unfold kNumLevels. lia.
  - exists bg'. split; [exact E|]. split; [exact H1|exact H2].
Defined.
