(* ===== verification/DbWrite.v ===== *)
(** DbWrite: the write path and the recovery of a log of db/db_impl.cc: the group commit of [DBImpl::Write] and
    [BuildBatchGroup], and the loop of [RecoverLogFile].

    The state is the part of [DBImpl] that they use.  Store puts [MakeRoomForWrite] before the group.  The comparison of the memtable's memory
    with the write buffer and [WriteLevel0Table] are arguments of the recovery: Recovery gives it the ones of the code,
    [mem_full] and [flush_recovered]. *)

From Stdlib Require Import Strings.Byte Strings.String.
From S2P Require Import Prelude Coding Crc32c Comparator DbFormat Status Env SkipList MemTable WriteBatch Log.

(** An entry of the queue [writers_]. *)
Record DBWriter := MkDBWriter { w_batch : option WriteBatch; w_sync : bool }.

Record DBState := MkDBState {
  db_log : Writer;
  db_mem : MemTable;
  db_tmp_batch : WriteBatch;
  db_last_sequence : Z;
  db_bg_error : Status;
}.

Definition ByteSize (b : WriteBatch) : Z := slen (batch_rep b).

(** The loop over the writers behind the first, from index [i]: the batch, whether it is [tmp_batch_] and no longer the
    batch of the first writer, and the index of the last writer of the group. *)
Fixpoint BuildBatchGroup_loop (first_sync : bool) (first_batch tmp : WriteBatch) (max_size : Z) (ws : list DBWriter)
    (i : nat) (size : Z) (last : nat) (result : WriteBatch) (is_tmp : bool) : WriteBatch * bool * nat :=
  match ws with
  | [] => (result, is_tmp, last)
  | w :: ws =>
      if w_sync w && negb first_sync then (result, is_tmp, last)
      else
        match w_batch w with
        | Some batch =>
            let size := size + ByteSize batch in
            if max_size <? size then (result, is_tmp, last)
            else
              let result := if is_tmp then result else Append tmp first_batch in
              let result := Append result batch in
              BuildBatchGroup_loop first_sync first_batch tmp max_size ws (S i) size i result true
        | None => BuildBatchGroup_loop first_sync first_batch tmp max_size ws (S i) size i result is_tmp
        end
  end.

(** The group of a queue whose first writer has the batch [first_batch]. *)
Definition BuildBatchGroup (first_sync : bool) (first_batch tmp : WriteBatch) (rest : list DBWriter) : WriteBatch * bool * nat :=
  let size := ByteSize first_batch in
  let max_size := Z.shiftl 1 20 in
  let max_size := if size <=? Z.shiftl 128 10 then size + Z.shiftl 128 10 else max_size in
  BuildBatchGroup_loop first_sync first_batch tmp max_size rest 1 size 0 first_batch false.

Definition RecordBackgroundError (s : Status) (st : DBState) : DBState :=
  if ok (db_bg_error st)
  then MkDBState (db_log st) (db_mem st) (db_tmp_batch st) (db_last_sequence st) s
  else st.

(** The variables of [RecoverLogFile], with the state that [WriteLevel0Table] changes. *)
Record RecoverState {F : Type} := MkRecoverState {
  rs_status : Status;
  rs_mem : option MemTable;
  rs_max_sequence : Z;
  rs_compactions : Z;
  rs_flushed : F;
}.
Arguments RecoverState : clear implicits.
Arguments MkRecoverState {F}.

Section DbWrite.
Context (ucmp : Comparator) (extend : Z -> slice -> Z).

(** [Write] of the writer at the front of the queue behind [MakeRoomForWrite], which returned [status]: the status, how
    many writers of the queue it serves, and the state. *)
Definition Write_group (status : Status) (w : DBWriter) (rest : list DBWriter) (st : DBState) : option (Status * nat * DBState) :=
  match (if ok status then w_batch w else None) with
  | None => Some (status, 1%nat, st)
  | Some updates =>
      let '(write_batch, is_tmp, last_writer) := BuildBatchGroup (w_sync w) updates (db_tmp_batch st) rest in
      let write_batch := SetSequence write_batch (u64 (db_last_sequence st + 1)) in
      let last_sequence := u64 (db_last_sequence st + Count write_batch) in
      let '(status, log) := AddRecord extend (batch_rep write_batch) (db_log st) in
      let '(status, sync_error, log) :=
        if ok status && w_sync w then
          let '(status, file) := WritableFile_Sync (dest_ log) in
          (status, negb (ok status), MkWriter file (block_offset_ log))
        else (status, false, log) in
      '(status, mem) ← (if ok status then InsertInto ucmp write_batch (db_mem st) else Some (status, db_mem st));
      let tmp := if is_tmp then Clear write_batch else db_tmp_batch st in
      let st := MkDBState log mem tmp (db_last_sequence st) (db_bg_error st) in
      let st := if (sync_error : bool) then RecordBackgroundError status st else st in
      Some (status, S last_writer, MkDBState (db_log st) (db_mem st) (db_tmp_batch st) last_sequence (db_bg_error st))
  end.

(** * Recovery *)

(** The effect of the calls of [LogReporter::Corruption] on the status. *)
Definition report_status (paranoid_checks : bool) (reports : list drop_report) (status : Status) : Status :=
  foldl (fun status d => if paranoid_checks && ok status then dr_status d else status) status reports.

Definition MaybeIgnoreError (paranoid_checks : bool) (s : Status) : Status :=
  if ok s || paranoid_checks then s else OK.

Section Recover.
Context {F : Type} (paranoid_checks : bool) (full : MemTable -> option bool) (WriteLevel0Table : MemTable -> F -> option (Status * F)).

(** The loop of [RecoverLogFile]: [None] is a lack of fuel or a failed insertion. *)
Fixpoint RecoverLogFile_loop (fuel : nat) (reader : Reader) (st : RecoverState F) : option (RecoverState F) :=
  match fuel with
  | O => None
  | S fuel =>
      '(record, reader') ← ReadRecord extend reader;
      let reports := drop (length (reports_ reader)) (reports_ reader') in
      let status := report_status paranoid_checks reports (rs_status st) in
      let st := MkRecoverState status (rs_mem st) (rs_max_sequence st) (rs_compactions st) (rs_flushed st) in
      match record with
      | None => Some st
      | Some record =>
          if negb (ok status) then Some st
          else if slen record <? 12 then
            let status := report_status paranoid_checks [DropReport (slen record) (Corruption (lit "log record too small") [])] status in
            RecoverLogFile_loop fuel reader' (MkRecoverState status (rs_mem st) (rs_max_sequence st) (rs_compactions st) (rs_flushed st))
          else
            let batch := SetContents record in
            let mem := match rs_mem st with None => MemTable_Ref NewMemTable | Some mem => mem end in
            '(status, mem) ← InsertInto ucmp batch mem;
            let status := MaybeIgnoreError paranoid_checks status in
            if negb (ok status) then Some (MkRecoverState status (Some mem) (rs_max_sequence st) (rs_compactions st) (rs_flushed st))
            else
              let last_seq := u64 (Sequence batch + Count batch - 1) in
              let max_sequence := if rs_max_sequence st <? last_seq then last_seq else rs_max_sequence st in
              is_full ← full mem;
              if is_full : bool then
                '(status, f) ← WriteLevel0Table mem (rs_flushed st);
                let st := MkRecoverState status None max_sequence (rs_compactions st + 1) f in
                if negb (ok status) then Some st else RecoverLogFile_loop fuel reader' st
              else RecoverLogFile_loop fuel reader' (MkRecoverState status (Some mem) max_sequence (rs_compactions st) (rs_flushed st))
      end
  end.

(** The recovery of the log with the given contents; every record takes at least one byte. *)
Definition RecoverLogFile (contents : slice) (max_sequence : Z) (f : F) : option (RecoverState F) :=
  RecoverLogFile_loop (S (length contents)) (NewReader (MkSequentialFile contents []) true true 0)
    (MkRecoverState OK None max_sequence 0 f).
End Recover.
End DbWrite.

(** * Groups *)

(** The operations of a writer's batch. *)
Definition writer_ops (w : DBWriter) (os : list op) : Prop :=
  match w_batch w with
  | Some b => exists seq, is_batch b seq os
  | None => os = []
  end.

Definition batch_size (w : DBWriter) : Z := match w_batch w with Some b => ByteSize b | None => 0 end.
Definition sizes (ws : list DBWriter) : Z := foldr (fun w z => batch_size w + z) 0 ws.

Definition total_ops (oss : list (list op)) : Z := Z.of_nat (length (concat oss)).

Lemma ByteSize_nonneg b : 0 <= ByteSize b.
Proof. unfold ByteSize. lia. Qed.

Lemma BuildBatchGroup_loop_spec first_sync first_batch tmp max_size ws oss i size last_ result is_tmp fos ros seq seq' :
  Forall2 writer_ops ws oss -> is_batch tmp 0 [] -> is_batch first_batch seq fos -> is_batch result seq' ros ->
  (is_tmp = false -> result = first_batch /\ ros = fos) ->
  Z.of_nat (length ros) + total_ops oss < 2 ^ 31 -> (last_ < i)%nat ->
  exists n result' is_tmp' seq'', (n <= length ws)%nat /\
    BuildBatchGroup_loop first_sync first_batch tmp max_size ws i size last_ result is_tmp =
      (result', is_tmp', if decide (n = 0%nat) then last_ else (i + n - 1)%nat) /\
    is_batch result' seq'' (ros ++ concat (take n oss)) /\
    (first_sync = false -> Forall (fun w => w_sync w = false) (take n ws)) /\
    (size + sizes (take n ws) <= Z.max size max_size).
Proof.
  intros H. revert i size last_ result is_tmp ros seq'. induction H as [|w os ws oss Hw Hws IH];
    intros i size last_ result is_tmp ros seq' Htmp Hf Hr Hnt Hlen Hlast.
  { exists 0%nat, result, is_tmp, seq'. cbn. rewrite app_nil_r. split_and!; [lia|done|done|by constructor|lia]. }
  assert (Htot : total_ops (os :: oss) = Z.of_nat (length os) + total_ops oss).
  { unfold total_ops. cbn [concat]. rewrite length_app. lia. }
  assert (Hpos : 0 <= total_ops oss) by (unfold total_ops; lia). rewrite Htot in Hlen.
  assert (Hstop : exists n result' is_tmp' seq'', (n <= length (w :: ws))%nat /\ (result, is_tmp, last_) =
      (result', is_tmp', if decide (n = 0%nat) then last_ else (i + n - 1)%nat) /\
      is_batch result' seq'' (ros ++ concat (take n (os :: oss))) /\
      (first_sync = false -> Forall (fun w => w_sync w = false) (take n (w :: ws))) /\
      size + sizes (take n (w :: ws)) <= Z.max size max_size).
  { exists 0%nat, result, is_tmp, seq'. cbn. rewrite app_nil_r. split_and!; [lia|done|done|by constructor|lia]. }
  cbn [BuildBatchGroup_loop]. destruct (w_sync w && negb first_sync) eqn:Es; [exact Hstop|].
  assert (Hsync : first_sync = false -> w_sync w = false) by (intros ->; by rewrite andb_true_r in Es).
  unfold writer_ops in Hw. destruct (w_batch w) as [batch|] eqn:Eb.
  - destruct Hw as [seqw Hw]. destruct (Z.ltb_spec max_size (size + ByteSize batch)); [exact Hstop|].
    assert (Hres : is_batch (Append (if is_tmp then result else Append tmp first_batch) batch) (if is_tmp then seq' else 0) (ros ++ os)).
    { destruct is_tmp; [by eapply Append_is; [done|done|lia]|]. destruct (Hnt eq_refl) as [-> ->].
      eapply Append_is; [|done|lia]. apply (Append_is tmp first_batch 0 seq [] fos); [done|done|simpl; lia]. }
    destruct (IH (S i) (size + ByteSize batch) i _ true (ros ++ os) _ Htmp Hf Hres) as (n & r' & t' & s'' & Hn & -> & Hb & Hsy & Hsz);
      [done|rewrite length_app; lia|lia|].
    exists (S n), r', t', s''. split_and!; [simpl; lia| |by rewrite <-app_assoc in Hb|intros Hfs; constructor; auto|].
    + do 2 f_equal. destruct (decide (n = 0%nat)) as [->|]; [rewrite decide_False by lia; lia|]. rewrite decide_False by lia. lia.
    + cbn [take sizes foldr]. fold (sizes (take n ws)). unfold batch_size. rewrite Eb. pose proof (ByteSize_nonneg batch). lia.
  - subst os. destruct (IH (S i) size i result is_tmp ros seq' Htmp Hf Hr Hnt) as (n & r' & t' & s'' & Hn & -> & Hb & Hsy & Hsz); [lia|lia|].
    exists (S n), r', t', s''. split_and!; [simpl; lia| |done|intros Hfs; constructor; auto|].
    + do 2 f_equal. destruct (decide (n = 0%nat)) as [->|]; [rewrite decide_False by lia; lia|]. rewrite decide_False by lia. lia.
    + cbn [take sizes foldr]. fold (sizes (take n ws)). unfold batch_size. rewrite Eb. lia.
Qed.

Lemma BuildBatchGroup_spec first_sync first_batch tmp rest oss seq fos :
  Forall2 writer_ops rest oss -> is_batch tmp 0 [] -> is_batch first_batch seq fos ->
  Z.of_nat (length fos) + total_ops oss < 2 ^ 31 ->
  exists n result is_tmp seq', (n <= length rest)%nat /\
    BuildBatchGroup first_sync first_batch tmp rest = (result, is_tmp, n) /\
    is_batch result seq' (fos ++ concat (take n oss)) /\
    (first_sync = false -> Forall (fun w => w_sync w = false) (take n rest)) /\
    ByteSize first_batch + sizes (take n rest) <= Z.max (ByteSize first_batch) (2 ^ 20).
Proof.
  intros Hr Ht Hf Hlen. unfold BuildBatchGroup.
  set (max_size := if ByteSize first_batch <=? _ then _ else _).
  destruct (BuildBatchGroup_loop_spec first_sync first_batch tmp max_size rest oss 1 (ByteSize first_batch) 0 first_batch false fos fos seq seq) as (n & r & t & s & Hn & E & Hb & Hs & Hsz);
    [exact Hr|exact Ht|exact Hf|exact Hf|done|exact Hlen|lia|].
  rewrite E. exists n, r, t, s. split_and!; [done| |done|done|].
  - do 2 f_equal. destruct (decide (n = 0%nat)); lia.
  - unfold max_size in Hsz. change (Z.shiftl 128 10) with 131072 in Hsz. change (Z.shiftl 1 20) with (2 ^ 20) in Hsz.
    destruct (Z.leb_spec (ByteSize first_batch) 131072); lia.
Qed.

(** A group commit serves a prefix of the queue.  For a queue of writers with well-formed batches, the batch of
    [BuildBatchGroup] holds exactly the operations of the first writers up to the one it reports as the last, in
    order, whole batches only; a group that a writer without [sync] leads has no writer with [sync]; and the batches
    together stay within 1 MiB unless the first alone exceeds it. *)
Theorem batch_group_is_prefix first_sync first_batch rest oss seq fos :
  Forall2 writer_ops rest oss -> is_batch first_batch seq fos -> Z.of_nat (length fos) + total_ops oss < 2 ^ 31 ->
  exists n result is_tmp seq', (n <= length rest)%nat /\
    BuildBatchGroup first_sync first_batch NewWriteBatch rest = (result, is_tmp, n) /\
    is_batch result seq' (fos ++ concat (take n oss)) /\
    (first_sync = false -> Forall (fun w => w_sync w = false) (take n rest)) /\
    ByteSize first_batch + sizes (take n rest) <= Z.max (ByteSize first_batch) (2 ^ 20).
Proof. intros Hr Hf Hlen. by apply (BuildBatchGroup_spec first_sync first_batch NewWriteBatch rest oss seq fos Hr NewWriteBatch_is). Qed.

Lemma batch_group_is_prefix_witness :
  exists n result is_tmp seq', (n <= 2)%nat /\
    BuildBatchGroup false (Delete NewWriteBatch [Byte.x61]) NewWriteBatch
      [MkDBWriter (Some (Delete NewWriteBatch [Byte.x62])) false; MkDBWriter (Some (Delete NewWriteBatch [Byte.x63])) true] = (result, is_tmp, n) /\
    is_batch result seq' ([OpDelete [Byte.x61]] ++ concat (take n [[OpDelete [Byte.x62]]; [OpDelete [Byte.x63]]])).
Proof.
  assert (Hd : forall k, slen k < 2 ^ 32 -> is_batch (Delete NewWriteBatch k) 0 [OpDelete k]).
  { intros k Hk. apply (apply_op_is NewWriteBatch 0 [] (OpDelete k)); [apply NewWriteBatch_is|exact Hk|reflexivity]. }
  destruct (batch_group_is_prefix false (Delete NewWriteBatch [Byte.x61])
    [MkDBWriter (Some (Delete NewWriteBatch [Byte.x62])) false; MkDBWriter (Some (Delete NewWriteBatch [Byte.x63])) true]
    [[OpDelete [Byte.x62]]; [OpDelete [Byte.x63]]] 0 [OpDelete [Byte.x61]]) as (n & r & t & s & Hn & E & Hb & _).
  - repeat constructor; exists 0; apply Hd; reflexivity.
  - apply Hd. reflexivity.
  - reflexivity.
  - exists n, r, t, s. split; [exact Hn|]. split; [exact E|exact Hb].
Defined.

(** * The group and the records of a log *)

Section proofs.
Context (ucmp : Comparator) (extend : Z -> slice -> Z) `{!ComparatorLaws any_key ucmp} `{!Checksum extend}.

(** A state without errors, with the log contents [c] at block offset [off]. *)
Definition db_ok (st : DBState) (c : slice) (off seq : Z) : Prop :=
  db_log st = MkWriter (MkWritableFile c []) off /\ 0 <= off <= kBlockSize /\ is_batch (db_tmp_batch st) 0 [] /\
  db_bg_error st = OK /\ db_last_sequence st = seq.

(** The sync of a file without faults. *)
Lemma sync_clean sync c off :
  (if ok OK && sync then
     let '(status, file) := WritableFile_Sync (dest_ (MkWriter (MkWritableFile c []) off)) in
     (status, negb (ok status), MkWriter file (block_offset_ (MkWriter (MkWritableFile c []) off)))
   else (OK, false, MkWriter (MkWritableFile c []) off)) = (OK, false, MkWriter (MkWritableFile c []) off).
Proof. by destruct sync. Qed.

Lemma Clear_is b : is_batch (Clear b) 0 [].
Proof. apply NewWriteBatch_is. Qed.

Lemma total_ops_take n oss : total_ops (take n oss) <= total_ops oss.
Proof. unfold total_ops. rewrite <-(take_drop n oss) at 2. rewrite concat_app, length_app. lia. Qed.

(** A writer with a batch logs its group and inserts it. *)
Lemma Write_group_spec w rest st c off seq b os oss :
  db_ok st c off seq -> w_batch w = Some b -> writer_ops w os -> Forall2 writer_ops rest oss ->
  0 <= seq -> seq + Z.of_nat (length os) + total_ops oss < 2 ^ 63 -> Z.of_nat (length os) + total_ops oss < 2 ^ 31 ->
  (forall n, is_Some (add_all ucmp (entries_of (seq + 1) (os ++ concat (take n oss))) (db_mem st))) ->
  exists n gb frags st', (n <= length rest)%nat /\
    let g := os ++ concat (take n oss) in
    Write_group ucmp extend OK w rest st = Some (OK, S n, st') /\ is_batch gb (seq + 1) g /\
    is_record frags (batch_rep gb) /\ frags_fit off frags /\
    db_ok st' (c ++ layout extend off frags) (end_off off frags) (seq + Z.of_nat (length g)) /\
    add_all ucmp (entries_of (seq + 1) g) (db_mem st) = Some (db_mem st').
Proof.
  intros (Hlog & Hoff & Htmp & Hbg & Hseq) Hb Hw Hrest H0 Hlen Hcount Hadd. unfold writer_ops in Hw. rewrite Hb in Hw. destruct Hw as [bseq Hw].
  destruct (BuildBatchGroup_spec (w_sync w) b (db_tmp_batch st) rest oss bseq os Hrest Htmp Hw) as (n & r & t & s & Hn & E & Hr & _); [lia|].
  pose proof (total_ops_take n oss) as Htake. destruct (Hadd n) as [m1 Em1]. set (g := os ++ concat (take n oss)) in *.
  assert (Hg : Z.of_nat (length g) = Z.of_nat (length os) + total_ops (take n oss)) by (unfold g, total_ops; rewrite length_app; lia).
  assert (Hgb : is_batch (SetSequence r (seq + 1)) (seq + 1) g) by (eapply SetSequence_is; [exact Hr|unfold in_u; lia]).
  destruct (AddRecord_clean extend (batch_rep (SetSequence r (seq + 1))) c off Hoff) as (frags & Elog & Hrec & Hfit).
  exists n, (SetSequence r (seq + 1)), frags,
    (MkDBState (MkWriter (MkWritableFile (c ++ layout extend off frags) []) (end_off off frags)) m1
       (if t then Clear (SetSequence r (seq + 1)) else db_tmp_batch st) (seq + Z.of_nat (length g)) OK).
  split; [done|]. cbn zeta. split_and!; [|done|done|done| |exact Em1].
  - unfold Write_group. rewrite ok_OK, Hb, E, Hseq, Hlog, Hbg. rewrite (wrap_small 64 (seq + 1)) by (unfold in_u; lia).
    unfold clean in Elog. rewrite Elog, sync_clean, ok_OK. cbn iota.
    rewrite (InsertInto_is ucmp _ (seq + 1) g) by (done || lia). rewrite Em1. cbn [mbind option_bind].
    rewrite (is_batch_Count _ _ _ Hgb), (wrap_small 64) by (unfold in_u; lia). reflexivity.
  - unfold db_ok. cbn [db_log db_tmp_batch db_bg_error db_last_sequence]. split_and!; [done|by apply end_off_range|by apply end_off_range| |done|done].
    destruct t; [apply Clear_is|done].
Qed.

(** The records of the groups [gs], with sequence numbers from [seq] + 1. *)
Inductive batch_records : Z -> list (list op) -> list slice -> Prop :=
| records_nil seq : batch_records seq [] []
| records_cons seq b g gs recs :
    is_batch b (seq + 1) g -> batch_records (seq + Z.of_nat (length g)) gs recs -> batch_records seq (g :: gs) (batch_rep b :: recs).

Lemma batch_records_app seq gs recs gs' recs' :
  batch_records seq gs recs -> batch_records (seq + total_ops gs) gs' recs' -> batch_records seq (gs ++ gs') (recs ++ recs').
Proof.
  induction 1 as [seq|seq b g gs recs Hb _ IH]; cbn [app]; [unfold total_ops; cbn; by rewrite Z.add_0_r|]. intros H. constructor; [done|]. apply IH.
  replace (seq + Z.of_nat (length g) + total_ops gs) with (seq + total_ops (g :: gs)); [done|]. unfold total_ops. cbn [concat]. rewrite length_app. lia.
Qed.

Lemma report_status_none paranoid r r' st : same_config r r' -> report_status paranoid (drop (length (reports_ r)) (reports_ r')) st = st.
Proof. intros (-> & _). by rewrite drop_all. Qed.

Lemma is_batch_length b seq os : is_batch b seq os -> 12 <= slen (batch_rep b).
Proof. intros (-> & _). rewrite !length_app, length_EncodeFixed64, length_EncodeFixed32. lia. Qed.

Section recover.
Context {F : Type} (paranoid : bool) (full : MemTable -> option bool) (WriteLevel0Table : MemTable -> F -> option (Status * F)).

(** The memtable that the next batch goes into. *)
Definition current_mem (m : option MemTable) : MemTable := match m with Some m => m | None => MemTable_Ref NewMemTable end.

(** One record: the batch goes into the memtable, which is written to a table when it is full. *)
Lemma Recover_step fuel reader r' st b seq g m1 is_full :
  ReadRecord extend reader = Some (Some (batch_rep b), r') -> same_config reader r' -> rs_status st = OK ->
  is_batch b (seq + 1) g -> rs_max_sequence st <= seq -> 0 <= seq -> seq + Z.of_nat (length g) + 1 < 2 ^ 64 ->
  add_all ucmp (entries_of (seq + 1) g) (current_mem (rs_mem st)) = Some m1 -> full m1 = Some is_full ->
  RecoverLogFile_loop ucmp extend paranoid full WriteLevel0Table (S fuel) reader st =
    let max := seq + Z.of_nat (length g) in
    if is_full : bool then
      '(status, f) ← WriteLevel0Table m1 (rs_flushed st);
      let st' := MkRecoverState status None max (rs_compactions st + 1) f in
      if negb (ok status) then Some st' else RecoverLogFile_loop ucmp extend paranoid full WriteLevel0Table fuel r' st'
    else RecoverLogFile_loop ucmp extend paranoid full WriteLevel0Table fuel r' (MkRecoverState OK (Some m1) max (rs_compactions st) (rs_flushed st)).
Proof.
  intros E Hc Hst Hb Hmax H0 Hlen Em1 Hfull. cbn [RecoverLogFile_loop]. rewrite E. cbn [mbind option_bind]. rewrite (report_status_none _ _ _ _ Hc), Hst.
  rewrite ok_OK. cbn [negb]. pose proof (is_batch_length _ _ _ Hb). destruct (Z.ltb_spec (slen (batch_rep b)) 12); [lia|].
  cbn [rs_mem rs_max_sequence rs_flushed]. fold (current_mem (rs_mem st)). destruct b as [rep]. cbn [batch_rep] in *.
  change (SetContents rep) with (MkWriteBatch rep).
  rewrite (InsertInto_is ucmp _ _ _ _ Hb) by lia. rewrite Em1. cbn [mbind option_bind]. unfold MaybeIgnoreError. rewrite ok_OK. cbn [orb negb].
  rewrite (is_batch_Count _ _ _ Hb), (is_batch_Sequence _ _ _ Hb), Hfull, wrap_small by (unfold in_u; lia).
  replace (seq + 1 + Z.of_nat (length g) - 1) with (seq + Z.of_nat (length g)) by lia.
  assert ((if rs_max_sequence st <? seq + Z.of_nat (length g) then seq + Z.of_nat (length g) else rs_max_sequence st) = seq + Z.of_nat (length g)) as -> by (case_match eqn:El; [done|apply Z.ltb_ge in El; lia]). done.
Qed.

(** The end of a log, and of what is left of it. *)
Lemma Recover_end fuel reader r' st :
  ReadRecord extend reader = Some (None, r') -> same_config reader r' ->
  RecoverLogFile_loop ucmp extend paranoid full WriteLevel0Table (S fuel) reader st =
    Some (MkRecoverState (rs_status st) (rs_mem st) (rs_max_sequence st) (rs_compactions st) (rs_flushed st)).
Proof. intros E Hc. cbn [RecoverLogFile_loop]. rewrite E. cbn [mbind option_bind]. by rewrite (report_status_none _ _ _ _ Hc). Qed.
End recover.
End proofs.
