(* ===== verification/DbRead.v ===== *)
(** DbRead: the iterators of db/db_impl.cc: [DBImpl::NewInternalIterator] over the memtables and the current version, and
    [DBImpl::NewIterator].  What a user iterates over is what [DBImpl::Get] finds. *)

From stdpp Require Import gmap sorting.
From Stdlib Require Import Strings.Byte Strings.String.
From S2P Require Import Prelude Coding Crc32c Comparator DbFormat Status Env FileSystem Filename VersionEdit FilterPolicy FilterBlock SkipList MemTable Format Iterator TwoLevelIterator Version Block Merger DbIter TableBuilder Table TableCache VersionSet Compaction Log Manifest Flush InternalIterator DbImpl Background.

Section DbRead.
Context (extend : Z -> slice -> Z) (snappy : option SnappyLib) (zstd : option ZstdLib).
Context (dbname : slice) (options : Options) (in_scratch : bool) (bcache : option (slice -> option Block)).
Context (ucmp : Comparator).

Definition ref_memtables (st : DBState) : DBState :=
  MkDB (MemTable_Ref (db_mem st)) (MemTable_Ref <$> db_imm st) (db_versions st) (db_table_cache st) (db_pending_outputs st) (db_logfile_number st) (db_bg_error st) (db_shutting_down st).

Abbreviation c_ops ro := (child_ops extend snappy zstd dbname options in_scratch bcache ucmp ro).

(** The iterator, [*latest_snapshot], [*seed], which is the new [seed_], and the state.  The references are given back when
    the iterator is deleted. *)
Definition NewInternalIterator (ro : ReadOptions) (seed_ : Z) (st : DBState) : option (MergedIterator InternalChild * Z * Z * DBState) :=
  let latest_snapshot := vs_last_sequence (db_versions st) in
  let mem_children := MemChild (db_mem st) None :: match db_imm st with Some imm => [MemChild imm None] | None => [] end in
  let st := ref_memtables st in
  '(l, tc) ← AddIterators extend snappy zstd dbname options in_scratch bcache ucmp ro (current (db_versions st)) (db_table_cache st);
  let internal_iter := NewMergingIterator (c_ops ro) (mem_children ++ l) in
  let vs := Version_Ref (lv_id (current_live (db_versions st))) (db_versions st) in
  Some (internal_iter, latest_snapshot, u32 (seed_ + 1), set_version_set vs (set_table_cache tc st)).

(** The iterator, the sequence number that it reads at, the new [seed_] and the state. *)
Definition NewIterator (ro : ReadOptions) (snapshot : option Z) (seed_ : Z) (st : DBState) : option (DBIter (MergedIterator InternalChild) * Z * Z * DBState) :=
  '(iter, latest_snapshot, seed, st) ← NewInternalIterator ro seed_ st;
  Some (NewDBIterator iter seed, default latest_snapshot snapshot, seed, st).
End DbRead.

(** * Lemmas *)

Section lemmas.
Context (extend : Z -> slice -> Z) `{!Checksum extend} (snappy : option SnappyLib) (zstd : option ZstdLib).
Context (dbname : slice) (in_scratch reuse_logs : bool) (ro : ReadOptions).
Context (ucmp : Comparator) `{!ComparatorLaws any_key ucmp} `{!SeparatorSame any_key ucmp} (cmp_name : slice) (Hname : is_u32 (slen cmp_name)) (max_file_size : Z).
Context (o : Options) (Ho : opt_comparator o = InternalKeyComparator ucmp).

Abbreviation icmp := (InternalKeyComparator ucmp).
Abbreviation db_ok := (db_ok extend snappy zstd dbname in_scratch reuse_logs ucmp cmp_name max_file_size o).
Abbreviation shows := (shows extend snappy zstd dbname in_scratch None ro ucmp o).
Abbreviation inv := (cache_inv extend snappy zstd dbname in_scratch o).

(** ** Children *)

Lemma mem_child m es :
  mem_holds ucmp m es -> Forall entry_ok es -> seqs_differ es ->
  exists sorted, sorted ≡ₚ es /\ entries_ok ucmp sorted /\ shows seekable (MemChild m None) (table_of sorted).
Proof.
  intros (m0 & Hm & Et) Hok Hd. destruct (memtable_iter ucmp es m0 Hok Hd Hm) as (sorted & pos & Hp & Hes & L & Hpos). exists sorted. split; [done|]. split; [done|].
  apply (child_shows extend snappy zstd dbname in_scratch None ro ucmp o (memtable_ops ucmp m) (MemChild m) seekable _ _ (length es)); [done|].
  exists pos. rewrite (memtable_ops_table ucmp m m0 Et). by split.
Qed.

Section version.
Context (contents : FileMetaData -> list entry) (live : FileMetaData -> Prop) (v : Version).
Context (Hstored : forall f, live f -> table_stored extend snappy zstd o contents f).
Context (Hsame : forall f g, live f -> live g -> number f = number g -> contents f = contents g).
Context (Hv : version_ok ucmp contents live v) (Hlive : forall l f, 0 <= l < kNumLevels -> f ∈ level_files v l -> live f).

Lemma level_children levels tc :
  (forall l, l ∈ levels -> 0 < l < kNumLevels) -> inv contents live tc ->
  exists ess, Forall2 (shows is_internal_key) (concat (map (fun l => level_child extend snappy zstd None ucmp ro (level_files v l) tc) levels)) ess /\
    concat ess = table_of (concat (map (fun l => concat (map contents (level_files v l))) levels)) /\ Forall (sorted_entries icmp) ess.
Proof.
  intros Hl Hinv. induction levels as [|l levels IH]; [exists []; split; [constructor|]; split; [done|constructor]|]. destruct IH as (ess & Hsh & Ec & Hs); [intros k Hk; apply Hl; by right|].
  assert (0 < l < kNumLevels) as Hl0 by (apply Hl; left). clear Hl. pose proof (sublist_row ucmp contents live v Hv Hlive l (level_files v l) Hl0 (reflexivity _)) as Hrow.
  pose proof (sublist_sizes extend snappy zstd dbname in_scratch o contents live v Hstored Hlive l (level_files v l) tc ltac:(lia) (reflexivity _) Hinv) as Hsz.
  exists ((if bool_decide (level_files v l = []) then [] else [level_table contents (level_files v l)]) ++ ess). cbn [map concat]. split; [|split].
  - apply Forall2_app; [|done]. by apply (level_child_spec extend snappy zstd dbname in_scratch None ro ucmp o Ho contents live Hstored Hsame).
  - rewrite concat_app, Ec. unfold level_table, table_of. rewrite map_app. f_equal. case_bool_decide as He; [by rewrite He|]. cbn [concat]. by rewrite app_nil_r.
  - apply Forall_app. split; [|done]. case_bool_decide; [constructor|]. apply Forall_singleton. destruct Hrow as (_ & Hh & Hsf & _). apply (level_es_sorted ucmp contents live _ Hh Hsf).
Qed.

(** The iterators of a version show its entries. *)
Lemma AddIterators_spec tc :
  inv contents live tc ->
  exists cs tc' ess, AddIterators extend snappy zstd dbname o in_scratch None ucmp ro v tc = Some (cs, tc') /\ inv contents live tc' /\ only_opens live tc tc' /\
    Forall2 (shows is_internal_key) cs ess /\ concat ess = table_of (all_entries contents v) /\ Forall (sorted_entries icmp) ess.
Proof.
  intros Hinv. assert (Forall live (level_files v 0)) as Hl0 by (apply Forall_forall; intros f Hf; by apply (Hlive 0)). unfold AddIterators.
  destruct (table_children_spec extend snappy zstd dbname in_scratch None ro ucmp o Ho contents live Hstored Hsame ltac:(by intros) (level_files v 0) tc Hl0 Hinv) as (cs & tc' & -> & Hinv' & Hopens & Hsh).
  destruct (level_children (seqZ 1 (kNumLevels - 1)) tc') as (ess & Hsh' & Ec & Hs); [intros l Hl; apply elem_of_seqZ in Hl; lia|done|]. cbn [mbind option_bind].
  eexists _, tc', _. split; [done|]. split; [done|]. split; [done|]. split; [by apply Forall2_app|]. split.
  - rewrite concat_app, Ec, <-level_table_concat. unfold level_table, table_of. rewrite <-map_app. f_equal.
  - apply Forall_app. split; [|done]. rewrite Forall_map. apply Forall_forall. intros f Hf. destruct (proj1 (Forall_forall _ _) (vo_files _ _ _ _ Hv 0 ltac:(done)) f Hf) as (_ & [_ H] & _). exact H.
Qed.
End version.

(** ** The iterator over everything *)

Lemma ref_memtables_ok contents used mes ies st : db_ok contents used mes ies st -> db_ok contents used mes ies (ref_memtables st).
Proof.
  intros [[m0 [H1 H1']] H2 H3 H4 H5 H6 H7 H8 H9 H10 H11 H12]. split; cbn [ref_memtables db_mem db_imm db_versions db_table_cache]; try done; [by exists m0|].
  destruct (db_imm st) as [imm|]; [|done]. destruct H2 as (i0 & H2 & H2'). by exists i0.
Qed.

Lemma db_entries_differ contents used mes ies st : db_ok contents used mes ies st -> seqs_differ (mes ++ ies ++ all_entries contents (current (db_versions st))).
Proof.
  intros [_ _ (_ & _ & D1 & D2) (O1 & O2 & O3) _ _ _ Hv _ _ _ _].
  apply seqs_differ_app; [done|apply seqs_differ_app; [done| |by intros a b Ha Hb; apply O3]|].
  - by apply (all_entries_differ ucmp contents (in_version (current (db_versions st)))).
  - intros a b Ha [Hb|Hb]%elem_of_app; [by apply O1|by apply O2].
Qed.

(** What an iterator takes: references, and tables that are opened. *)
Definition iterated (st st' : DBState) : Prop :=
  exists tc, tc_env tc = tc_env (db_table_cache st) /\ st' = set_version_set (Version_Ref (lv_id (current_live (db_versions st))) (db_versions st)) (set_table_cache tc (ref_memtables st)).

Lemma NewInternalIterator_spec contents used mes ies st seed :
  db_ok contents used mes ies st -> Forall entry_ok (all_entries contents (current (db_versions st))) ->
  let es := mes ++ ies ++ all_entries contents (current (db_versions st)) in
  exists it st' sorted i, NewInternalIterator extend snappy zstd dbname o in_scratch None ucmp ro seed st = Some (it, vs_last_sequence (db_versions st), u32 (seed + 1), st') /\
    iterated st st' /\ db_ok contents used mes ies st' /\ sorted ≡ₚ es /\ entries_ok ucmp sorted /\ seqs_differ sorted /\ Forall entry_ok sorted /\
    at_pos (Merged_ops (child_ops extend snappy zstd dbname o in_scratch None ucmp ro) icmp) icmp seekable (table_of sorted) it i.
Proof.
  intros Hdb Htab es. set (v := current (db_versions st)) in *. pose proof (db_entries_differ _ _ _ _ _ Hdb) as Hd. fold v es in Hd. pose proof (ref_memtables_ok _ _ _ _ _ Hdb) as Hdb1.
  pose proof Hdb as [Hm Hi (Ok1 & Ok2 & D1 & D2) _ Hr _ _ Hv Hst Hsm Hc _]. fold v in Hv, Hst, Hsm, Hc.
  destruct (mem_child _ _ Hm Ok1 D1) as (ms & Pm & Em & Sm).
  assert (exists iss, Forall2 (shows seekable) (match db_imm st with Some imm => [MemChild imm None] | None => [] end) iss /\ concat iss ≡ₚ table_of ies /\ Forall (sorted_entries icmp) iss) as (iss & Si & Pi & Ei).
  { destruct (db_imm st) as [imm|]; [|subst ies; exists []; split; [constructor|]; split; [done|constructor]]. destruct (mem_child _ _ Hi Ok2 D2) as (si & Pi & Ei & Si).
    exists [table_of si]. split; [by repeat constructor|]. cbn [concat]. rewrite app_nil_r. split; [by apply Permutation_map|]. apply Forall_singleton. apply Ei. }
  destruct (AddIterators_spec contents (in_version v) v Hst Hsm Hv ltac:(intros l f Hl Hf; by exists l) (db_table_cache st) Hc) as (cs & tc & ess & E & Hc' & Hop & Sv & Ev & Hs).
  assert (Forall entry_ok es) as Hok by (by unfold es; rewrite !Forall_app).
  destruct (sort_exists ucmp es) as (sorted & Hp & Hes); [|done|]. { eapply Forall_impl; [exact Hok|]. by intros e (? & _). }
  assert (Forall entry_ok sorted) as Hoks by (by rewrite Hp).
  destruct (merged_children extend snappy zstd dbname in_scratch None ro ucmp o seekable (MemChild (db_mem st) None :: match db_imm st with Some imm => [MemChild imm None] | None => [] end ++ cs) (table_of ms :: iss ++ ess) sorted) as (i & Hat).
  - by intros t [? _].
  - constructor; [done|]. apply Forall2_app; [done|]. eapply Forall2_impl; [exact Sv|]. intros c l. apply shows_targets. by intros t [? _].
  - cbn [concat]. rewrite concat_app, Ev, Pi. unfold table_of. rewrite <-!map_app. apply Permutation_map. rewrite Hp, Pm. done.
  - done.
  - unfold table_of. rewrite Forall_map. eapply Forall_impl; [exact Hoks|]. intros e (_ & Hk & _). cbn [fst]. split; [apply AppendInternalKey_internal|]. rewrite length_internal_key. lia.
  - constructor; [apply Em|]. by apply Forall_app.
  - eexists _, _, sorted, i. unfold NewInternalIterator. cbn [ref_memtables db_versions db_table_cache]. fold v. rewrite E. cbn [mbind option_bind]. split; [reflexivity|]. split; [exists tc; split; [apply Hop|done]|]. split; [|split; [done|]; split; [done|]; split; [by apply (seqs_differ_perm es)|]; split; [done|exact Hat]].
    assert (forall id vs, vs_next_file_number (Version_Ref id vs) = vs_next_file_number vs) as Hn by (by intros ? []). set (vs := Version_Ref _ _). pose proof (current_Version_Ref (lv_id (current_live (db_versions st))) (db_versions st)) as Hcur. fold vs v in Hcur.
    apply db_ok_versions; [|exact Hcur|apply Hn|]; cbn [set_table_cache ref_memtables db_versions db_table_cache].
    + apply (db_ok_cache extend snappy zstd dbname in_scratch reuse_logs ucmp cmp_name Hname max_file_size o contents used mes ies (ref_memtables st) tc Hdb1 Hc' Hop).
    + destruct Hop as [-> _]. by apply reach_ref.
Qed.

(** The iterator of a user is in front of what the sequence number sees. *)
Lemma NewIterator_spec contents used mes ies st snapshot seed fuel :
  let s := default (vs_last_sequence (db_versions st)) snapshot in
  let es := mes ++ ies ++ all_entries contents (current (db_versions st)) in
  let ops := DBIter_ops (Merged_ops (child_ops extend snappy zstd dbname o in_scratch None ucmp ro) icmp) ucmp s fuel in
  db_ok contents used mes ies st -> Forall entry_ok (all_entries contents (current (db_versions st))) -> seq_ok s -> (length es <= fuel)%nat ->
  exists d st' view, NewIterator extend snappy zstd dbname o in_scratch None ucmp ro snapshot seed st = Some (d, s, u32 (seed + 1), st') /\ iterated st st' /\ db_ok contents used mes ies st' /\
    sorted_entries ucmp view /\ (forall key value, (key, value) ∈ view <-> exists e, newest key s es = Some e /\ e_type e = kTypeValue /\ e_value e = value) /\
    at_pos ops ucmp (fun t => slen t + 8 < 2 ^ 32) view d (length view).
Proof.
  intros s es ops Hdb Htab Hs Hfuel. destruct (NewInternalIterator_spec contents used mes ies st seed Hdb Htab) as (it & st' & sorted & i0 & E & Hit & Hdb' & Hp & Hes & Hd & Hok & Hat). fold es in Hp.
  assert (Forall (fun e => slen (e_key e) + 8 + slen (e_value e) < 2 ^ 62) sorted) as Hsz by (eapply Forall_impl; [exact Hok|]; intros e (_ & Hk & Hv); lia).
  assert (length sorted <= fuel)%nat as Hlen by (by rewrite Hp).
  exists (NewDBIterator it (u32 (seed + 1))), st', (user_view s sorted). unfold NewIterator. rewrite E. cbn [mbind option_bind]. fold s. split; [reflexivity|]. split; [done|]. split; [exact Hdb'|]. split; [by apply view_sorted|]. split.
  - intros key value. rewrite view_newest by done. by rewrite (newest_same key s sorted es); [|by apply (seqs_differ_perm sorted)|intros e _; by rewrite Hp].
  - destruct Hat as (ipos & HI & Hpos). pose proof (DBIter_laws ucmp s Hs sorted Hes Hd Hsz fuel Hlen (HI := HI)) as DL. eexists. split; [|exact (NewDBIterator_pos s sorted it i0 (u32 (seed + 1)) Hpos)].
    eapply laws_targets; [|exact DL]. intros t Ht. split; [apply AppendInternalKey_internal|].
    change (AppendInternalKey [] (ParsedKey t s kValueTypeForSeek)) with (entry_internal_key (MkEntry s kValueTypeForSeek t [])). by rewrite length_internal_key.
Qed.
End lemmas.

(** * Correctness *)

(** C4. What a user iterates over is what [Get] finds.  In a store that holds its entries in memtables and tables, [NewIterator]
    returns an iterator over the memtables and all files of the current version, and the store still holds its entries.  The
    iterator is, after any calls that iterator.h allows, at the position that the specification says of a list of user keys
    with values, in increasing order: exactly the keys of which [Get] at the same sequence number, that of the snapshot or the
    last one, returns the status OK, each with the value that [Get] returns. *)
Theorem iteration_agrees_with_get (extend : Z -> slice -> Z) (CS : Checksum extend) (snappy : option SnappyLib) (zstd : option ZstdLib)
    (dbname : slice) (in_scratch reuse_logs : bool) (ro : ReadOptions)
    (ucmp : Comparator) (L : ComparatorLaws any_key ucmp) (LS : SeparatorSame any_key ucmp) (cmp_name : slice) (max_file_size : Z) (o : Options)
    (contents : FileMetaData -> list entry) (used : list (Z * Z)) (mes ies : list entry) (st : DBState) (snapshot : option Z) (seed : Z) (fuel : nat) :
  let ok := db_ok extend snappy zstd dbname in_scratch reuse_logs ucmp cmp_name max_file_size o contents used mes ies in
  let get := DB_Get extend snappy zstd dbname o in_scratch None ucmp ro in
  let s := default (vs_last_sequence (db_versions st)) snapshot in
  let ops := DBIter_ops (Merged_ops (child_ops extend snappy zstd dbname o in_scratch None ucmp ro) (InternalKeyComparator ucmp)) ucmp s fuel in
  is_u32 (slen cmp_name) -> opt_comparator o = InternalKeyComparator ucmp -> (forall p, opt_filter_policy o = Some p -> exists up, p = InternalFilterPolicy up) ->
  ok st -> Forall entry_ok (all_entries contents (current (db_versions st))) -> seq_ok s ->
  (length (mes ++ ies ++ all_entries contents (current (db_versions st))) <= fuel)%nat ->
  exists d st' view, NewIterator extend snappy zstd dbname o in_scratch None ucmp ro snapshot seed st = Some (d, s, u32 (seed + 1), st') /\ ok st' /\
    sorted_entries ucmp view /\
    (forall key value, slen key + 8 < 2 ^ 32 -> (key, value) ∈ view <-> exists sched st1, get (Some s) key [] st = Some ((OK, value), sched, st1)) /\
    forall calls i, Forall (op_key (fun t => slen t + 8 < 2 ^ 32)) calls -> run_ops (spec_op ucmp view) calls (length view) = Some i ->
      exists d', run_ops (iter_op ops) calls d = Some d' /\ i_status ops d' = OK /\ Iterator.current ops d' = view !! i.
Proof.
  intros ok get s ops Hname Ho Hfilter Hdb Htab Hs Hfuel.
  destruct (NewIterator_spec extend snappy zstd dbname in_scratch reuse_logs ro ucmp cmp_name Hname max_file_size o Ho contents used mes ies st snapshot seed fuel Hdb Htab Hs Hfuel) as (d & st' & view & E & _ & Hdb' & Hsort & Hview & pos & L' & Hpos).
  exists d, st', view. split; [exact E|]. split; [exact Hdb'|]. split; [exact Hsort|]. split.
  - intros key value Hk. rewrite Hview. destruct (DB_Get_spec extend snappy zstd dbname in_scratch reuse_logs ro ucmp cmp_name max_file_size o Ho Hfilter contents used mes ies st s key [] Hdb Hs Hk) as (sched & st1 & Eg). unfold get. fold s. rewrite Eg. clear.
    destruct (newest key s _) as [e|]; cbn [read_result].
    + split; [intros (e' & [= <-] & -> & <-); by eexists _, _|]. intros (? & ? & E). exists e. destruct (e_type e); [discriminate E|]. by injection E as <- _ _.
    + split; [by intros (e & [=] & _)|intros (? & ? & [=])].
  - intros calls i Hcalls Hrun. destruct (run_ops_spec calls d _ i Hpos Hcalls Hrun) as (d' & Ed & Hpd). exists d'. split; [exact Ed|]. split; [by apply (pos_status d' i)|by apply (pos_current d' i)].
Qed.

(** The iterator over the store of [moved_state] finds its entry, which is in a table. *)
Lemma iteration_agrees_with_get_witness :
  let ops := DBIter_ops (Merged_ops (child_ops crc32c_ref None None sample_db flush_options true None BytewiseComparator DefaultReadOptions) (InternalKeyComparator BytewiseComparator)) BytewiseComparator 1 1 in
  exists d st' d', NewIterator crc32c_ref None None sample_db flush_options true None BytewiseComparator DefaultReadOptions (Some 1) 0 moved_state = Some (d, 1, 1, st') /\
    run_ops (iter_op ops) [OpSeekToFirst] d = Some d' /\ i_status ops d' = OK /\ is_Some (Iterator.current ops d').
Proof.
  assert (is_u32 (slen sample_name)) as Hname by (by vm_compute). assert (entry_ok flush_entry) as Hfe by (by vm_compute). assert (seq_ok 1) as Hs by (by vm_compute). assert (slen (lit "k") + 8 < 2 ^ 32) as Hk by (by vm_compute). intros ops.
  destruct (CompactMemTable_spec crc32c_ref None None sample_db true false BytewiseComparator sample_name Hname 2097152 flush_options eq_refl (fun _ => []) [] [] [flush_entry] flush_state flush_imm flush_db_ok eq_refl flush_flushable)
    as (contents & used & st & E & _ & _ & Hdb & Hall & _).
  assert (st = moved_state) as -> by (unfold moved_state; by rewrite E). clear E. rewrite (all_entries_empty (fun _ => []) (current (db_versions flush_state)) flush_no_files) in Hall. cbn [app] in Hall. apply Permutation_singleton_r in Hall.
  assert (exists sched st1, DB_Get crc32c_ref None None sample_db flush_options true None BytewiseComparator DefaultReadOptions (Some 1) (lit "k") [] moved_state = Some (OK, lit "v", sched, st1)) as Hget.
  { clear. assert (match DB_Get crc32c_ref None None sample_db flush_options true None BytewiseComparator DefaultReadOptions (Some 1) (lit "k") [] moved_state with Some (r, _, _) => r = (OK, lit "v") | None => False end) as H by (vm_compute; reflexivity).
    destruct (DB_Get _ _ _ _ _ _ _ _ _ _ _ _ _) as [[[r sched] st1]|]; [|destruct H]. exists sched, st1. by rewrite H. }
  destruct (iteration_agrees_with_get crc32c_ref _ None None sample_db true false DefaultReadOptions BytewiseComparator _ _ sample_name 2097152 flush_options contents used [] [] moved_state (Some 1) 0 1) as (d & st' & view & E & _ & _ & Hview & Hrun).
  - exact Hname.
  - reflexivity.
  - intros p Ep. injection Ep as <-. by eexists.
  - exact Hdb.
  - rewrite Hall. apply Forall_singleton. exact Hfe.
  - exact Hs.
  - rewrite Hall. apply le_n.
  - clear Hdb Hall. apply (Hview _ (lit "v") Hk) in Hget. clear Hview Hk. destruct view as [|kv view]; [exfalso; exact (not_elem_of_nil _ Hget)|].
    destruct (Hrun [OpSeekToFirst] 0%nat) as (d' & E1 & E2 & E3); [repeat constructor; exact I|reflexivity|].
    exists d, st', d'. split; [exact E|]. split; [exact E1|]. split; [exact E2|]. exists kv. exact E3.
Defined.
