(* ===== verification/ReadStats.v ===== *)
(** ReadStats: what reads change.  [Version::Get] and [Version::RecordReadSample] charge a seek to a file, which may become
    the next one to compact ([Version::UpdateStats]); the table cache opens tables.  The store still holds its entries. *)

From stdpp Require Import gmap sorting.
From Stdlib Require Import Strings.Byte Strings.String Floats.SpecFloat.
From S2P Require Import Prelude Coding Crc32c Comparator DbFormat Status Env FileSystem Filename VersionEdit FilterPolicy FilterBlock SkipList MemTable Format Iterator TwoLevelIterator Version Block TableBuilder Table TableCache VersionSet Compaction Log Manifest Flush DbImpl CompactionResults Background.

(** * The file that a read is charged to *)

Section search.
Context (ucmp : Comparator) {A : Type} (func : Z -> FileMetaData -> A -> option (bool * A)) (v : Version).
(** What holds in front of a level, and what behind the last call. *)
Context (P : Z -> A -> Prop) (Q : A -> Prop).
Context (H0 : forall f a go a', f ∈ level_files v 0 -> P 0 a -> func 0 f a = Some (go, a') -> if go : bool then P 0 a' else Q a').
Context (HS : forall l f a go a', 0 < l < kNumLevels -> f ∈ level_files v l -> P l a -> func l f a = Some (go, a') -> if go : bool then P (l + 1) a' else Q a').
Context (Hnext : forall l a, P l a -> P (l + 1) a) (Hend : forall l a, P l a -> Q a).

Lemma call_each_ind fs a go a' :
  (forall f, f ∈ fs -> f ∈ level_files v 0) -> P 0 a -> call_each func 0 fs a = Some (go, a') -> if go : bool then P 0 a' else Q a'.
Proof.
  revert a. induction fs as [|f fs IH]; intros a Hfs Ha; cbn [call_each]; [by intros [= <- <-]|]. destruct (func 0 f a) as [[g a1]|] eqn:E; [|done]. cbn [mbind option_bind].
  pose proof (H0 f a g a1 ltac:(apply Hfs; left) Ha E) as H1. destruct g; [|by intros [= <- <-]]. apply IH; [|done]. intros h Hh. apply Hfs. by right.
Qed.

Lemma search_levels_ind user_key internal_key n l a go a' :
  0 < l -> l + Z.of_nat n <= kNumLevels -> P l a -> search_levels ucmp func v user_key internal_key n l a = Some (go, a') -> Q a'.
Proof.
  revert l a. induction n as [|n IH]; intros l a Hl Hn Ha; cbn [search_levels]; [intros [= _ <-]; by apply (Hend l)|].
  destruct (slen (level_files v l) =? 0); cbn [mbind option_bind]; [apply IH; [lia|lia|by apply Hnext]|].
  destruct (u32 <$> FindFile ucmp (level_files v l) internal_key) as [i|]; [|done]. cbn [mbind option_bind].
  destruct (i <? slen (level_files v l)); cbn [mbind option_bind]; [|apply IH; [lia|lia|by apply Hnext]].
  destruct (level_files v l !! Z.to_nat i) as [f|] eqn:Ef; [|done]. cbn [mbind option_bind]. destruct (_ <? 0); cbn [mbind option_bind]; [apply IH; [lia|lia|by apply Hnext]|].
  destruct (func l f a) as [[g a1]|] eqn:E; [|done]. cbn [mbind option_bind]. pose proof (HS l f a g a1 ltac:(lia) ltac:(by eapply list_elem_of_lookup_2) Ha E) as H1.
  destruct g; [|by intros [= _ <-]]. apply IH; [lia|lia|done].
Qed.

Lemma ForEachOverlapping_ind user_key internal_key a a' : P 0 a -> ForEachOverlapping ucmp func v user_key internal_key a = Some a' -> Q a'.
Proof.
  intros Ha. unfold ForEachOverlapping. destruct (call_each func 0 _ a) as [[go a1]|] eqn:E; [|done]. cbn [mbind option_bind].
  apply call_each_ind in E; [|intros f Hf; rewrite sort_newest_first_perm in Hf; by apply list_elem_of_In, filter_In in Hf as [Hf%list_elem_of_In _]|done].
  destruct go; [|by intros [= <-]]. destruct (search_levels _ _ _ _ _ _ _ _) as [[g a2]|] eqn:Es; [|done]. intros [= <-].
  apply (search_levels_ind user_key internal_key (Z.to_nat kNumLevels - 1) 1 a1 g); [done|done|by apply (Hnext 0)|done].
Qed.
End search.

(** The file is of the version, and not of the last level. *)
Definition stats_ok (v : Version) (stats : GetStats) : Prop :=
  forall f, seek_file stats = Some f -> 0 <= seek_file_level stats < kNumLevels - 1 /\ f ∈ level_files v (seek_file_level stats).

Lemma Version_Get_stats ucmp {C} (table_get : FileMetaData -> slice -> C -> option (Status * option (slice * slice) * C)) v k value c s value' stats c' :
  Version_Get ucmp table_get v k value c = Some (s, value', stats, c') -> stats_ok v stats.
Proof.
  unfold Version_Get. destruct (ForEachOverlapping _ _ _ _ _ _) as [state|] eqn:E; [|done]. cbn [mbind option_bind]. intros [= _ _ <- _].
  set (P := fun l (st : GetState C) => stats_ok v (g_stats C st) /\ forall f, g_last_file_read C st = Some f -> 0 <= g_last_file_read_level C st < Z.max l 1 /\ f ∈ level_files v (g_last_file_read_level C st)).
  assert (forall l f a go a', 0 <= l < kNumLevels -> f ∈ level_files v l -> P l a -> Match ucmp table_get (internal_key k) l f a = Some (go, a') -> P (l + 1) a') as Hstep.
  { intros l f a go a' Hl Hf [Ha1 Ha2]. unfold Match. destruct (table_get f _ _) as [[[s0 r] c0]|]; [|done]. cbn [mbind option_bind]. set (stats := match seek_file _ with None => _ | _ => _ end).
    assert (stats_ok v stats) as Hst.
    { unfold stats. destruct (seek_file (g_stats C a)) eqn:Es; [done|]. destruct (g_last_file_read C a) as [f0|]; [|done]. intros g [= <-]. cbn [seek_file_level]. destruct (Ha2 f0 eq_refl). split; [unfold kNumLevels in *; lia|done]. }
    assert (forall saver s1 found, P (l + 1) (MkGetState C saver stats (Some f) l s1 found c0)) as H.
    { intros saver s1 found. split; [done|]. intros g [= <-]. cbn [g_last_file_read_level]. split; [lia|done]. }
    destruct (negb (ok s0)); [intros [= _ <-]; apply H|]. destruct (s_state _); intros [= _ <-]; apply H. }
  apply (ForEachOverlapping_ind ucmp _ v P (fun st => stats_ok v (g_stats C st))) in E; [done|..].
  - intros f a go a' Hf Ha Em. destruct (Hstep 0 f a go a' ltac:(done) Hf Ha Em) as [H1 H2]. destruct go; [|done]. split; [done|]. intros g Hg. specialize (H2 g Hg). cbn in H2 |- *. done.
  - intros l f a go a' Hl Hf Ha Em. pose proof (Hstep l f a go a' ltac:(lia) Hf Ha Em) as H. destruct go; [done|apply H].
  - intros l a [H1 H2]. split; [done|]. intros f Hf. destruct (H2 f Hf). split; [lia|done].
  - by intros l a [H1 _].
  - done.
Qed.

Lemma RecordReadSample_stats ucmp v internal_key schedule v' :
  RecordReadSample ucmp internal_key v = Some (schedule, v') -> (schedule, v') = (false, v) \/ exists stats, stats_ok v stats /\ (schedule, v') = UpdateStats stats v.
Proof.
  unfold RecordReadSample. destruct (ParseInternalKey internal_key) as [ikey|]; [|intros [= <- <-]; by left]. destruct (ForEachOverlapping _ _ _ _ _ _) as [[stats matches]|] eqn:E; [|done]. cbn [mbind option_bind].
  destruct (Z.leb_spec 2 matches) as [Hm|]; [|intros [= <- <-]; by left]. intros [= H]. right. exists stats. split; [|done].
  set (P := fun l (a : GetStats * Z) => (a.2 = 0 \/ a.2 = 1) /\ (a.2 = 0 -> seek_file a.1 = None) /\ forall f, seek_file a.1 = Some f -> 0 <= seek_file_level a.1 < Z.max l 1 /\ f ∈ level_files v (seek_file_level a.1)).
  apply (ForEachOverlapping_ind ucmp sample_match v P (fun a => 2 <= a.2 -> stats_ok v a.1)) in E; [by apply E|..].
  - intros f [st m] go a' Hf (Hm0 & Hn & Hst). cbn [fst snd] in *. unfold sample_match. intros [= <- <-]. destruct Hm0 as [-> | ->]; [change (i32 (0 + 1)) with 1|change (i32 (1 + 1)) with 2]; cbn.
    + split; [by right|]. split; [done|]. intros g [= <-]. cbn. by split.
    + intros _ g Hg. destruct (Hst g Hg). unfold kNumLevels in *. split; [lia|done].
  - intros l f [st m] go a' Hl Hf (Hm0 & Hn & Hst). cbn [fst snd] in *. unfold sample_match. intros [= <- <-]. destruct Hm0 as [-> | ->]; [change (i32 (0 + 1)) with 1|change (i32 (1 + 1)) with 2]; cbn.
    + split; [by right|]. split; [done|]. intros g [= <-]. cbn. split; [lia|done].
    + intros _ g Hg. destruct (Hst g Hg). unfold kNumLevels in *. split; [lia|done].
  - intros l a (H1 & H2 & H3). split; [done|]. split; [done|]. intros f Hf. destruct (H3 f Hf). split; [lia|done].
  - intros l a (H1 & _) H2. lia.
  - split; [by left|]. split; [done|]. intros f Hf. done.
  - done.
Qed.

(** A search whose calls all return. *)
Lemma ForEachOverlapping_total (ucmp : Comparator) `{!ComparatorLaws any_key ucmp} `{!SeparatorSame any_key ucmp} {A} (func : Z -> FileMetaData -> A -> option (bool * A)) contents stored v user_key internal_key a :
  version_ok ucmp contents stored v -> is_internal_key internal_key -> (forall l f a, is_Some (func l f a)) -> is_Some (ForEachOverlapping ucmp func v user_key internal_key a).
Proof.
  intros Hv Hk Hf. unfold ForEachOverlapping. assert (forall fs a, is_Some (call_each func 0 fs a)) as Hc.
  { induction fs as [|f fs IH]; intros b; cbn [call_each]; [done|]. destruct (Hf 0 f b) as [[go b'] ->]. cbn [mbind option_bind]. by destruct go. }
  assert (forall n l b, 0 < l -> l + Z.of_nat n <= kNumLevels -> is_Some (search_levels ucmp func v user_key internal_key n l b)) as Hs.
  { induction n as [|n IH]; intros l b Hl Hn; cbn [search_levels]; [done|]. assert (forall r : option (bool * A), is_Some r -> is_Some ('(go, a) ← r; if go : bool then search_levels ucmp func v user_key internal_key n (l + 1) a else Some (false, a))) as Hr.
    { intros r [[go b'] ->]. cbn [mbind option_bind]. destruct go; [apply IH; lia|done]. }
    apply Hr. destruct (Z.eqb_spec (slen (level_files v l)) 0); [done|]. pose proof (vo_files _ _ _ _ Hv l ltac:(lia)) as Hok. pose proof (vo_count _ _ _ _ Hv l ltac:(lia)) as Hcnt.
    assert (files_ok ucmp (level_files v l)) as Hfo by (split; [eapply Forall_impl; [exact Hok|]; by intros f (_ & _ & _ & ? & _)|done]).
    rewrite (FindFile_spec ucmp _ internal_key Hfo (vo_sorted _ _ _ _ Hv l ltac:(lia)) Hk). cbn [fmap option_fmap option_map mbind option_bind]. destruct (Z.ltb_spec (u32 (Z.of_nat (seek_pos (InternalKeyComparator ucmp) internal_key (level_entries (level_files v l))))) (slen (level_files v l))) as [Hlt|]; [|done].
    pose proof (wrap_range 32 (Z.of_nat (seek_pos (InternalKeyComparator ucmp) internal_key (level_entries (level_files v l)))) ltac:(lia)). destruct (lookup_lt_is_Some_2 (level_files v l) (Z.to_nat (u32 (Z.of_nat (seek_pos (InternalKeyComparator ucmp) internal_key (level_entries (level_files v l)))))) ltac:(lia)) as [f ->].
    cbn [mbind option_bind]. destruct (_ <? 0); [done|apply Hf]. }
  destruct (Hc (sort_newest_first (List.filter (fun f => (0 <=? Compare ucmp user_key (InternalKey_user_key (smallest f))) && (Compare ucmp user_key (InternalKey_user_key (largest f)) <=? 0)) (level_files v 0))) a) as [[go a'] E]. rewrite E. cbn [mbind option_bind].
  destruct go; [|done]. destruct (Hs (Z.to_nat kNumLevels - 1)%nat 1 a' ltac:(lia) ltac:(done)) as [[go' a''] ->]. by eexists.
Qed.

Lemma RecordReadSample_total (ucmp : Comparator) `{!ComparatorLaws any_key ucmp} `{!SeparatorSame any_key ucmp} contents stored v internal_key : version_ok ucmp contents stored v -> is_Some (RecordReadSample ucmp internal_key v).
Proof.
  intros Hv. unfold RecordReadSample. destruct (ParseInternalKey internal_key) as [ikey|] eqn:Ep; [|done].
  assert (is_internal_key internal_key) as Hk by (unfold ParseInternalKey in Ep; destruct (Z.ltb_spec (slen internal_key) 8); [done|]; unfold is_internal_key; lia).
  destruct (ForEachOverlapping_total ucmp sample_match contents stored v (user_key ikey) internal_key (MkStats None (-1), 0) Hv Hk) as [[stats m] ->]; [|by eexists]. intros l f [st m]. by eexists.
Qed.

(** * The version with the statistics *)

Lemma UpdateStats_files stats v : map (map applied_file) (files_ (UpdateStats stats v).2) = map (map applied_file) (files_ v).
Proof.
  unfold UpdateStats. destruct (seek_file stats) as [f|]; [|done]. destruct (_ && _); cbn [snd files_]; rewrite map_map; apply map_ext; intros l; rewrite map_map; apply map_ext; intros g; by case_decide; subst.
Qed.

Lemma UpdateStats_pick stats v : stats_ok v stats -> pick_ok v -> pick_ok (UpdateStats stats v).2.
Proof.
  intros Hst (H1 & H2 & H3). unfold UpdateStats. destruct (seek_file stats) as [f|] eqn:Ef; [|done]. set (h := fun g => if decide (g = f) then decrement_seeks f else g).
  assert (forall to level sc cl l, level_files (MkVersion (map (map h) (files_ v)) to level sc cl) l = map h (level_files v l)) as Hl.
  { intros to level sc cl l. unfold level_files. cbn [files_]. by rewrite <-(map_nth (map h)). }
  assert (forall to level sc cl l, level_files v l <> [] -> level_files (MkVersion (map (map h) (files_ v)) to level sc cl) l <> []) as Hne by (intros to level sc cl l; rewrite Hl; by destruct (level_files v l)).
  destruct (_ && _); apply and_assoc; (split; [split|cbn [snd]; rewrite Hl, length_map; exact H3]); cbn [snd compaction_score_ compaction_level_ file_to_compact_ file_to_compact_level_].
  - intros H. destruct (H1 H). split; [done|]. by apply Hne.
  - intros g [= <-]. destruct (Hst f Ef). split; [done|]. rewrite Hl. apply list_elem_of_fmap. exists f. split; [unfold h; by rewrite decide_True|done].
  - intros H. destruct (H1 H). split; [done|]. by apply Hne.
  - intros g Hg. destruct (file_to_compact_ v) as [g0|] eqn:Eg; [|done]. injection Hg as <-. destruct (H2 g0 eq_refl). split; [done|]. rewrite Hl. apply list_elem_of_fmap. by exists g0.
Qed.

(** * The store with the statistics *)

(** The same files, with other seeks left. *)
Definition same_files (v v' : Version) : Prop := map (map applied_file) (files_ v') = map (map applied_file) (files_ v).

(** The contents of the file of [v] with the number. *)
Definition contents_by_number (contents : FileMetaData -> list entry) (v : Version) (g : FileMetaData) : list entry :=
  match List.find (fun f => number f =? number g) (concat (files_ v)) with Some f => contents f | None => contents g end.

Section stats.
Context (extend : Z -> slice -> Z) `{!Checksum extend} (snappy : option SnappyLib) (zstd : option ZstdLib).
Context (dbname : slice) (in_scratch reuse_logs : bool).
Context (ucmp : Comparator) `{!ComparatorLaws any_key ucmp} `{!SeparatorSame any_key ucmp} (cmp_name : slice) (Hname : is_u32 (slen cmp_name)) (max_file_size : Z).
Context (o : Options) (Ho : opt_comparator o = InternalKeyComparator ucmp).

Abbreviation db_ok := (db_ok extend snappy zstd dbname in_scratch reuse_logs ucmp cmp_name max_file_size o).
Abbreviation v_of st := (current (db_versions st)).

Section version.
Context (contents : FileMetaData -> list entry) (used : list (Z * Z)) (mes ies : list entry) (st : DBState) (Hdb : db_ok contents used mes ies st).
Context (v' : Version) (Hv' : same_files (v_of st) v').

Abbreviation v := (v_of st).
Abbreviation contents' := (contents_by_number contents v).

Lemma same_level l : map applied_file (level_files v' l) = map applied_file (level_files v l).
Proof. unfold level_files. rewrite <-!(map_nth (map applied_file)). cbn [map]. by rewrite Hv'. Qed.

(** The file of [v] that a file of [v'] stands for. *)
Lemma same_file l i g : level_files v' l !! i = Some g -> exists f, level_files v l !! i = Some f /\ applied_file g = applied_file f.
Proof.
  intros Hg. pose proof (f_equal (fun x => x !! i) (same_level l)) as E. cbn beta in E. rewrite !lookup_map, Hg in E. destruct (level_files v l !! i) as [f|]; [|done]. cbn [fmap option_fmap option_map] in E. apply (inj Some) in E. by exists f.
Qed.

Lemma contents_of f g l : 0 <= l < kNumLevels -> f ∈ level_files v l -> number g = number f -> contents' g = contents f.
Proof.
  intros Hl Hf En. pose proof Hdb as [_ _ _ _ Hr _ _ _ _ Hsame _ _]. unfold contents_by_number. destruct (List.find _ _) as [h|] eqn:E.
  - apply find_some in E as [Hh E]. apply Z.eqb_eq in E. apply Hsame; [|by exists l|congruence].
    destruct (reachable_consistent _ _ _ _ _ _ Hname _ _ _ Hr) as (n & fragss & hist & Hco). pose proof (proj1 (re_files _ _ _ (co_recorded _ _ _ _ _ _ _ _ _ _ Hco))) as Hlen.
    apply in_concat in Hh as (fs & Hfs & Hh). apply list_elem_of_In, list_elem_of_lookup in Hfs as [i Hi]. exists (Z.of_nat i). pose proof (lookup_lt_Some _ _ _ Hi). split; [lia|].
    rewrite (level_files_lookup v (Z.of_nat i) fs) by (by rewrite Nat2Z.id). by apply list_elem_of_In.
  - exfalso. pose proof (find_none _ _ E f) as H. cbn beta in H. apply Z.eqb_neq in H; [congruence|]. apply list_elem_of_In. by apply (level_files_sub _ l).
Qed.

Lemma stats_contents l : 0 <= l < kNumLevels -> map contents' (level_files v' l) = map contents (level_files v l).
Proof.
  intros Hl. apply list_eq. intros i. rewrite !lookup_map. destruct (level_files v' l !! i) as [g|] eqn:Eg.
  - destruct (same_file l i g Eg) as (f & Ef & E). rewrite Ef. cbn. f_equal. apply (contents_of f g l Hl); [by eapply list_elem_of_lookup_2|exact (f_equal number E)].
  - destruct (level_files v l !! i) as [f|] eqn:Ef; [|done]. apply lookup_ge_None in Eg. apply lookup_lt_Some in Ef. pose proof (f_equal length (same_level l)) as E. rewrite !length_map in E. lia.
Qed.

Lemma stats_entries : all_entries contents' v' = all_entries contents v.
Proof.
  unfold all_entries, levels_es. f_equal. apply map_ext_in. intros l Hl%list_elem_of_In. rewrite stats_contents; [done|]. apply elem_of_seqZ in Hl. unfold kNumLevels in *. lia.
Qed.

Lemma stats_elem l g : g ∈ level_files v' l -> exists f, f ∈ level_files v l /\ applied_file g = applied_file f.
Proof. intros [i Hi]%list_elem_of_lookup. destruct (same_file l i g Hi) as (f & Hf & E). exists f. split; [by eapply list_elem_of_lookup_2|done]. Qed.

Lemma stats_in g : in_version v' g -> exists f, in_version v f /\ applied_file g = applied_file f /\ contents' g = contents f.
Proof.
  intros (l & Hl & Hg). destruct (stats_elem l g Hg) as (f & Hf & E). exists f. split; [by exists l|]. split; [done|]. apply (contents_of f g l Hl Hf). exact (f_equal number E).
Qed.

Lemma stats_version : version_ok ucmp contents' (in_version v') v'.
Proof.
  pose proof Hdb as [_ _ _ _ _ _ _ Hv _ _ _ _]. assert (forall l, length (level_files v' l) = length (level_files v l)) as Hlen.
  { intros l. pose proof (f_equal length (same_level l)) as E. by rewrite !length_map in E. }
  assert (forall l, map number (level_files v' l) = map number (level_files v l)) as Hnum.
  { intros l. pose proof (f_equal (map number) (same_level l)) as E. by rewrite !map_map in E. }
  split.
  - intros l Hl. apply Forall_forall. intros g Hg. destruct (stats_elem l g Hg) as (f & Hf & E). injection E as _ En Es E1 E2.
    destruct (proj1 (Forall_forall _ _) (vo_files _ _ _ _ Hv l Hl) f Hf) as (_ & H). split; [by exists l|]. rewrite (contents_of f g l Hl Hf En).
    unfold file_ok in *. by rewrite E1, E2.
  - intros l Hl. rewrite Hlen. by apply Hv.
  - intros l Hl. pose proof (vo_sorted _ _ _ _ Hv l Hl) as Hs. unfold sorted_files in *. clear -Hs Hl Hv'. pose proof (same_level l) as E.
    revert E. generalize (level_files v' l) as fs'. induction Hs as [|f fs Hs IH Hall]; intros [|g fs'] E; try done; [constructor|]. cbn [map] in E. injection E as _ En Es E1 E2 E.
    constructor; [by apply IH|]. apply Forall_forall. intros h Hh. assert (applied_file h ∈ map applied_file fs) as Hh' by (rewrite <-E; by apply list_elem_of_fmap_2).
    apply list_elem_of_fmap in Hh' as (h0 & Eh & Hh0). injection Eh as _ _ _ -> _. rewrite E2.
    exact (proj1 (Forall_forall _ _) Hall h0 Hh0).
  - rewrite Hnum. apply Hv.
  - intros f g Hf Hg. destruct (stats_elem 0 f Hf) as (f0 & Hf0 & Ef). destruct (stats_elem 0 g Hg) as (g0 & Hg0 & Eg). injection Ef as _ Efn _ _ _. injection Eg as _ Egn _ _ _.
    rewrite (contents_of f0 f 0), (contents_of g0 g 0), Efn, Egn by done. by apply Hv.
  - intros i j Hij Hj. rewrite !stats_contents by lia. by apply Hv.
  - intros l Hl. rewrite stats_contents by done. by apply Hv.
Qed.

(** A read leaves a store that holds the same entries. *)
Lemma db_ok_stats : db_ok contents' used mes ies (set_version_set (update_current v' (db_versions st)) st).
Proof.
  pose proof Hdb as [H1 H2 H3 H4 H5 H6 H7 H8 H9 H10 H11 H12]. pose proof (current_update v' (db_versions st)) as Ec. pose proof stats_entries as Ea.
  assert (vs_next_file_number (update_current v' (db_versions st)) = vs_next_file_number (db_versions st)) as En by (clear; by destruct (db_versions st)).
  split; cbn [set_version_set db_mem db_imm db_versions db_table_cache]; rewrite ?Ec, ?En, ?Ea; try done.
  - by apply reach_stats.
  - intros l g l' Hl Hg. destruct (stats_elem l g Hg) as (f & Hf & E). injection E as _ -> _ _ _. by apply H7.
  - apply stats_version.
  - intros g (f & Hf & E & Ec')%stats_in. unfold table_stored. injection E as _ -> -> _ _. rewrite Ec'. by apply H9.
  - intros f g (f0 & Hf & Ef & ->)%stats_in (g0 & Hg & Eg & ->)%stats_in E. apply H10; [done|done|]. injection Ef as _ <- _ _ _. by injection Eg as _ <- _ _ _.
  - destruct H11 as [H11 Hc]. split; [done|]. intros g (f & Hf & E & ->)%stats_in. injection E as _ -> _ _ _. by apply Hc.
Qed.
End version.

(** ** [DBImpl::Get] *)

(** What a read does not change. *)
Definition same_numbers (st st' : DBState) : Prop :=
  same_log_numbers (db_versions st) (db_versions st') /\ vs_next_file_number (db_versions st') = vs_next_file_number (db_versions st) /\ db_logfile_number st' = db_logfile_number st /\
  db_bg_error st' = db_bg_error st /\ db_shutting_down st' = db_shutting_down st /\ tc_env (db_table_cache st') = tc_env (db_table_cache st).
Definition same_store (st st' : DBState) : Prop := db_mem st' = db_mem st /\ db_imm st' = db_imm st /\ same_numbers st st'.

Lemma update_current_fields v vs : same_log_numbers vs (update_current v vs) /\ vs_next_file_number (update_current v vs) = vs_next_file_number vs.
Proof. by destruct vs. Qed.

(** Work that was not asked for by the update was not needed before it. *)
Lemma UpdateStats_needs stats vs : (UpdateStats stats (current vs)).1 = false -> NeedsCompaction (update_current (UpdateStats stats (current vs)).2 vs) = NeedsCompaction vs.
Proof.
  unfold NeedsCompaction. rewrite current_update. unfold UpdateStats. destruct (seek_file stats) as [f|]; [|done]. destruct (_ && _); [done|]. intros _. cbn [snd compaction_score_ file_to_compact_]. f_equal.
  apply bool_decide_ext. by destruct (file_to_compact_ (current vs)).
Qed.

(** The state with an update of the statistics. *)
Lemma db_ok_update contents used mes ies st stats :
  db_ok contents used mes ies st -> pick_ok (v_of st) -> stats_ok (v_of st) stats ->
  let st' := set_version_set (update_current (UpdateStats stats (v_of st)).2 (db_versions st)) st in
  exists contents', db_ok contents' used mes ies st' /\ all_entries contents' (v_of st') = all_entries contents (v_of st) /\ pick_ok (v_of st') /\ same_store st st'.
Proof.
  intros Hdb Hpick Hst st'. set (v' := (UpdateStats stats (v_of st)).2) in *. assert (same_files (v_of st) v') as Hs by apply UpdateStats_files.
  assert (v_of st' = v') as Ev by apply current_update. exists (contents_by_number contents (v_of st)). split; [by apply db_ok_stats|]. rewrite Ev. split; [by apply (stats_entries contents used mes ies)|].
  split; [by apply UpdateStats_pick|]. destruct (update_current_fields v' (db_versions st)) as [E1 E2]. by split_and!.
Qed.

Lemma DB_Get_ok ro contents used mes ies st snapshot key value r sched st' :
  (forall p, opt_filter_policy o = Some p -> exists up, p = InternalFilterPolicy up) ->
  db_ok contents used mes ies st -> pick_ok (v_of st) -> seq_ok (default (vs_last_sequence (db_versions st)) snapshot) ->
  DB_Get extend snappy zstd dbname o in_scratch None ucmp ro snapshot key value st = Some (r, sched, st') ->
  exists contents', db_ok contents' used mes ies st' /\ all_entries contents' (v_of st') = all_entries contents (v_of st) /\ pick_ok (v_of st') /\ same_store st st' /\
    (sched = false -> NeedsCompaction (db_versions st') = NeedsCompaction (db_versions st)).
Proof.
  intros Hfilter Hdb Hpick Hs. set (s := default (vs_last_sequence (db_versions st)) snapshot) in *. unfold DB_Get. fold s.
  assert (exists contents', db_ok contents' used mes ies st /\ all_entries contents' (v_of st) = all_entries contents (v_of st) /\ pick_ok (v_of st) /\ same_store st st /\
    (false = false -> NeedsCompaction (db_versions st) = NeedsCompaction (db_versions st))) as Hsame by (by exists contents).
  destruct (MemTable_Get ucmp (db_mem st) _) as [[[[] v1] s1]|]; cbn [fmap option_fmap option_map mbind option_bind]; [intros [= _ <- <-]; done| |done].
  destruct (match db_imm st with Some imm => _ | None => _ end) as [[[[] v2] s2]|]; cbn [mbind option_bind]; [intros [= _ <- <-]; done| |done].
  pose proof Hdb as [_ _ _ _ _ _ _ Hv Hstor Hsm Hc _]. pose proof (TableCache_reader extend snappy zstd dbname in_scratch None ro ucmp o Ho Hfilter contents (in_version (v_of st)) (db_table_cache st) Hstor Hsm ltac:(by intros)) as TR.
  destruct (Version_Get_spec ucmp _ contents _ _ key s Hs value (v_of st) (db_table_cache st) Hv (conj Hc (only_opens_refl _ _))) as (stats & tc & [Hc' Hop] & E). rewrite E.
  destruct (match newest _ _ _ with Some e => _ | None => _ end) as [s3 v3] eqn:Er. cbn [mbind option_bind]. destruct (UpdateStats stats (v_of st)) as [sch cur] eqn:Eu. intros [= _ <- <-].
  pose proof (db_ok_cache extend snappy zstd dbname in_scratch reuse_logs ucmp cmp_name Hname max_file_size o contents used mes ies st tc Hdb Hc' Hop) as Hdb1.
  pose proof (Version_Get_stats _ _ _ _ _ _ _ _ _ _ E) as Hstats. destruct (db_ok_update contents used mes ies (set_table_cache tc st) stats Hdb1 Hpick Hstats) as (contents' & H1 & H2 & H3 & H4).
  change (v_of (set_table_cache tc st)) with (v_of st) in H1, H2, H3, H4. rewrite Eu in H1, H2, H3, H4. exists contents'. do 3 (split; [done|]).
  split; [destruct H4 as (M1 & M2 & N1 & N2 & N3 & N4 & N5 & N6); do 2 (split; [done|]); split; [exact N1|]; do 4 (split; [done|]); apply Hop|].
  intros ->. pose proof (UpdateStats_needs stats (db_versions st)) as Hneed. rewrite Eu in Hneed. by apply Hneed.
Qed.
End stats.
