(* ===== verification/Store.v ===== *)
(** Store: [DBImpl] of db/db_impl.cc as a whole: the writers with [MakeRoomForWrite], the reads, the snapshots and the
    background work on one state.

    The state is the one of the background work with the log that is being written.  The operations take turns; a thread that
    waits for the background work lets the background thread run its call, and the background thread may run, or not, while
    a writer sleeps.  The named file of the log has what was written to it. *)

From stdpp Require Import gmap sorting.
From Stdlib Require Import Strings.Byte Strings.String Floats.SpecFloat.
From S2P Require Import Prelude Coding Crc32c Comparator DbFormat Status Env FileSystem Filename VersionEdit FilterPolicy FilterBlock SkipList MemTable Arena WriteBatch Format Iterator TwoLevelIterator Version Block Merger DbIter TableBuilder Table TableCache VersionSet Compaction Log DbWrite Manifest Flush InternalIterator DbImpl Snapshot CompactionVersion CompactionWork CompactionLoop CompactionResults Background Schedule DbRead ReadStats.

Definition kL0_SlowdownWritesTrigger : Z := 8.
Definition kL0_StopWritesTrigger : Z := 12.

(** [*ptr] of type [size_t] or [int] with bounds of type [int]. *)
Definition ClipToRange (v minvalue maxvalue : Z) : Z :=
  let v := if maxvalue <? i32 v then maxvalue else v in
  if i32 v <? minvalue then minvalue else v.

(** [write_buffer_size] of [SanitizeOptions]. *)
Definition sanitized_write_buffer_size (v : Z) : Z := ClipToRange v (Z.shiftl 64 10) (Z.shiftl 1 30).

(** [logfile_] by its name, with [log_], which writes to it. *)
Record Store := MkStore {
  s_bg : Background;
  s_logfile : slice;
  s_log : Writer;
  s_tmp_batch : WriteBatch;
  s_seed : Z;
}.

Abbreviation s_db s := (bg_db (s_bg s)).

Definition set_bg (bg : Background) (s : Store) : Store := MkStore bg (s_logfile s) (s_log s) (s_tmp_batch s) (s_seed s).
Definition set_store_db (st : DBState) (s : Store) : Store := set_bg (set_db st (s_bg s)) s.
Definition set_seed (seed : Z) (s : Store) : Store := MkStore (s_bg s) (s_logfile s) (s_log s) (s_tmp_batch s) seed.
Definition set_mem (mem : MemTable) (st : DBState) : DBState :=
  MkDB mem (db_imm st) (db_versions st) (db_table_cache st) (db_pending_outputs st) (db_logfile_number st) (db_bg_error st) (db_shutting_down st).
Definition set_logfile_number (n : Z) (st : DBState) : DBState :=
  MkDB (db_mem st) (db_imm st) (db_versions st) (db_table_cache st) (db_pending_outputs st) n (db_bg_error st) (db_shutting_down st).
Definition set_bg_error (e : Status) (st : DBState) : DBState :=
  MkDB (db_mem st) (db_imm st) (db_versions st) (db_table_cache st) (db_pending_outputs st) (db_logfile_number st) e (db_shutting_down st).
Definition set_env (e : EnvState) (st : DBState) : DBState := set_table_cache (with_env (fun _ => e) (db_table_cache st)) st.

(** The part of the state that the writers use, and the state when they are done; the named file has what the log has. *)
Definition write_state (s : Store) : DbWrite.DBState :=
  DbWrite.MkDBState (s_log s) (db_mem (s_db s)) (s_tmp_batch s) (vs_last_sequence (db_versions (s_db s))) (db_bg_error (s_db s)).
Definition after_write (ws : DbWrite.DBState) (s : Store) : Store :=
  let st := s_db s in
  let st := set_version_set (VersionSet_SetLastSequence (DbWrite.db_last_sequence ws) (db_versions st)) st in
  let st := set_bg_error (DbWrite.db_bg_error ws) (set_mem (DbWrite.db_mem ws) st) in
  let st := set_env (with_files <[s_logfile s := wf_contents (dest_ (DbWrite.db_log ws))]> (tc_env (db_table_cache st))) st in
  MkStore (set_db st (s_bg s)) (s_logfile s) (DbWrite.db_log ws) (DbWrite.db_tmp_batch ws) (s_seed s).

(** What an iterator shows after each of the calls, and the iterator behind them. *)
Fixpoint iterate_calls {A} (ops : IterOps A) (calls : list IterOp) (a : A) : option (list (option (slice * slice)) * A) :=
  match calls with
  | [] => Some ([], a)
  | call :: calls => a ← iter_op ops call a; '(seen, a') ← iterate_calls ops calls a; Some (Iterator.current ops a :: seen, a')
  end.

Section Store.
Context (extend : Z -> slice -> Z) (snappy : option SnappyLib) (zstd : option ZstdLib).
Context (dbname : slice) (options : Options) (in_scratch : bool) (bcache : option (slice -> option Block)).
Context (ucmp : Comparator) (cmp_name : slice) (max_file_size write_buffer_size : Z).

(** [background_work_finished_signal_.Wait()]. *)
Definition wait_for_background (work : nat) (s : Store) : option Store :=
  '(bg, _) ← BackgroundCall extend snappy zstd dbname options in_scratch bcache ucmp cmp_name max_file_size (fun _ st => st) work (s_bg s);
  Some (set_bg bg s).

(** [SleepForMicroseconds]: [runs] is whether the background thread runs its call. *)
Definition sleep (runs : bool) (work : nat) (s : Store) : option Store := if runs && bg_scheduled (s_bg s) then wait_for_background work s else Some s.

(** The switch to a new memtable and a new log; the status, and whether there is one. *)
Definition switch_memtable (s : Store) : bool * Status * Store :=
  let st := s_db s in
  let '(new_log_number, vs) := NewFileNumber (db_versions st) in
  let '(status, lfile, env) := NewWritableFile (LogFileName dbname new_log_number) (tc_env (db_table_cache st)) in
  let st := set_env env (set_version_set vs st) in
  match lfile with
  | None => (false, status, set_store_db (set_version_set (ReuseFileNumber new_log_number (db_versions st)) st) s)
  | Some lfile =>
      let '(status, file) := WritableFile_Close (dest_ (s_log s)) in
      let st := set_env (with_files <[s_logfile s := wf_contents file]> (tc_env (db_table_cache st))) st in
      let st := if ok status then st else RecordBackgroundError status st in
      let st := set_mem (MemTable_Ref NewMemTable) (set_imm (Some (db_mem st)) (set_logfile_number new_log_number st)) in
      (true, status, MkStore (MaybeScheduleCompaction (set_db st (s_bg s))) (LogFileName dbname new_log_number) (NewWriter lfile) (s_tmp_batch s) (s_seed s))
  end.

(** The loop of [MakeRoomForWrite]; [status] is its [s]. *)
Fixpoint MakeRoomForWrite_loop (n work : nat) (runs force allow_delay : bool) (status : Status) (s : Store) : option (Status * Store) :=
  match n with
  | O => None
  | S n =>
      let st := s_db s in
      if negb (ok (db_bg_error st)) then Some (db_bg_error st, s)
      else if allow_delay && (kL0_SlowdownWritesTrigger <=? NumLevelFiles 0 (db_versions st)) then
        s ← sleep runs work s; MakeRoomForWrite_loop n work runs force false status s
      else
        usage ← ApproximateMemoryUsage (db_mem st);
        if negb force && (usage <=? write_buffer_size) then Some (status, s)
        else if negb (bool_decide (db_imm st = None)) then
          s ← wait_for_background work s; MakeRoomForWrite_loop n work runs force allow_delay status s
        else if kL0_StopWritesTrigger <=? NumLevelFiles 0 (db_versions st) then
          s ← wait_for_background work s; MakeRoomForWrite_loop n work runs force allow_delay status s
        else
          let '(switched, status, s) := switch_memtable s in
          if switched then MakeRoomForWrite_loop n work runs false allow_delay status s else Some (status, s)
  end.

Definition MakeRoomForWrite (n work : nat) (runs force : bool) (s : Store) : option (Status * Store) := MakeRoomForWrite_loop n work runs force (negb force) OK s.

(** [Write] of the writer at the front of the queue: the status, how many writers it serves, and the state. *)
Definition Store_Write (n work : nat) (runs : bool) (w : DBWriter) (rest : list DBWriter) (s : Store) : option (Status * nat * Store) :=
  '(status, s) ← MakeRoomForWrite n work runs (bool_decide (w_batch w = None)) s;
  '(status, served, ws) ← Write_group ucmp extend status w rest (write_state s);
  Some (status, served, after_write ws s).

(** The writers of a queue, served in turn. *)
Fixpoint Store_serve (fuel n work : nat) (runs : bool) (queue : list DBWriter) (s : Store) : option (list Status * Store) :=
  match fuel with
  | O => None
  | S fuel =>
      match queue with
      | [] => Some ([], s)
      | w :: rest =>
          '(status, served, s) ← Store_Write n work runs w rest s;
          '(sts, s) ← Store_serve fuel n work runs (drop served queue) s;
          Some (repeat status served ++ sts, s)
      end
  end.

(** [Get]; [options.snapshot] by its address. *)
Definition Store_Get (ro : ReadOptions) (snapshot : option Z) (key value : slice) (s : Store) : option (Status * slice * Store) :=
  snapshot ← match snapshot with Some a => Some <$> sequence_number a (bg_snapshots (s_bg s)) | None => Some None end;
  '(status, value, schedule, st) ← DB_Get extend snappy zstd dbname options in_scratch bcache ucmp ro snapshot key value (s_db s);
  let bg := set_db st (s_bg s) in
  Some (status, value, set_bg (if schedule : bool then MaybeScheduleCompaction bg else bg) s).

Definition Store_RecordReadSample (key : slice) (s : Store) : option Store :=
  let st := s_db s in
  '(schedule, cur) ← RecordReadSample ucmp key (current (db_versions st));
  let bg := set_db (set_version_set (update_current cur (db_versions st)) st) (s_bg s) in
  Some (set_bg (if schedule : bool then MaybeScheduleCompaction bg else bg) s).

(** [CleanupIteratorState]; [None] is a memtable of the store that has been deleted. *)
Definition CleanupIteratorState (id : Z) (st : DBState) : option DBState :=
  mem ← MemTable_Unref (db_mem st);
  imm ← match db_imm st with Some imm => Some <$> MemTable_Unref imm | None => Some None end;
  Some (set_version_set (Version_Unref id (db_versions st)) (set_imm imm (set_mem mem st))).

(** [db_->RecordReadSample] of the keys. *)
Fixpoint record_samples (keys : list slice) (s : Store) : option Store :=
  match keys with
  | [] => Some s
  | key :: keys => s ← Store_RecordReadSample key s; record_samples keys s
  end.

(** A user takes an iterator, makes the calls and deletes it: what is seen after each call. *)
Definition Store_Iterate (ro : ReadOptions) (snapshot : option Z) (fuel : nat) (calls : list IterOp) (s : Store) : option (list (option (slice * slice)) * Store) :=
  snapshot ← match snapshot with Some a => Some <$> sequence_number a (bg_snapshots (s_bg s)) | None => Some None end;
  let id := lv_id (current_live (db_versions (s_db s))) in
  '(d, sequence, seed, st) ← NewIterator extend snappy zstd dbname options in_scratch bcache ucmp ro snapshot (s_seed s) (s_db s);
  let ops := DBIter_ops (Merged_ops (child_ops extend snappy zstd dbname options in_scratch bcache ucmp ro) (InternalKeyComparator ucmp)) ucmp sequence fuel in
  '(seen, d) ← iterate_calls ops calls d;
  s ← record_samples (di_samples d) (set_seed seed (set_store_db st s));
  st ← CleanupIteratorState id (s_db s);
  Some (seen, set_store_db st s).

Definition set_snapshots (l : SnapshotList) (s : Store) : Store := set_bg (MkBackground (s_db s) l (bg_manual (s_bg s)) (bg_scheduled (s_bg s))) s.

(** The address of the snapshot. *)
Definition GetSnapshot (s : Store) : option (Z * Store) :=
  '(a, l) ← Snapshot_New (vs_last_sequence (db_versions (s_db s))) (bg_snapshots (s_bg s));
  Some (a, set_snapshots l s).

Definition ReleaseSnapshot (a : Z) (s : Store) : option Store :=
  l ← Snapshot_Delete a (bg_snapshots (s_bg s));
  Some (set_snapshots l s).

(** The write of no batch, and the wait for the memtable. *)
Definition TEST_CompactMemTable (n work : nat) (runs : bool) (s : Store) : option (Status * Store) :=
  '(status, _, s) ← Store_Write n work runs (MkDBWriter None false) [] s;
  if ok status then
    '(status, bg) ← wait_imm extend snappy zstd dbname options in_scratch bcache ucmp cmp_name max_file_size n work (s_bg s);
    Some (status, set_bg bg s)
  else Some (status, s).

(** The deepest level with files of the range. *)
Definition max_level_with_files (v : Version) (begin end_ : option slice) : option Z :=
  foldl (fun m level => m ← m; o ← OverlapInLevel ucmp v level begin end_; Some (if o : bool then level else m)) (Some 1) (seqZ 1 (kNumLevels - 1)).

Fixpoint compact_levels (fuel n work : nat) (level last : Z) (begin end_ : option slice) (s : Store) : option Store :=
  match fuel with
  | O => if level <? last then None else Some s
  | S fuel =>
      if level <? last then
        bg ← TEST_CompactRange extend snappy zstd dbname options in_scratch bcache ucmp cmp_name max_file_size n work level begin end_ (s_bg s);
        compact_levels fuel n work (level + 1) last begin end_ (set_bg bg s)
      else Some s
  end.

Definition Store_CompactRange (n work : nat) (runs : bool) (begin end_ : option slice) (s : Store) : option Store :=
  last ← max_level_with_files (current (db_versions (s_db s))) begin end_;
  '(_, s) ← TEST_CompactMemTable n work runs s;
  compact_levels (Z.to_nat kNumLevels) n work 0 last begin end_ s.
End Store.


(** * Lemmas: changes of the state *)

Section changes.
Context (extend : Z -> slice -> Z) `{!Checksum extend} (snappy : option SnappyLib) (zstd : option ZstdLib).
Context (dbname : slice) (in_scratch reuse_logs : bool).
Context (ucmp : Comparator) `{!ComparatorLaws any_key ucmp} `{!SeparatorSame any_key ucmp} (cmp_name : slice) (Hname : is_u32 (slen cmp_name)) (max_file_size : Z).
Context (o : Options).

Abbreviation db_ok := (db_ok extend snappy zstd dbname in_scratch reuse_logs ucmp cmp_name max_file_size o).
Abbreviation reachable := (reachable ucmp cmp_name extend dbname max_file_size reuse_logs).
Abbreviation v_of st := (current (db_versions st)).

(** The memtables and the numbers of the version set change, and the files do not. *)
Lemma db_ok_memtables contents used mes ies st mes' ies' mem' imm' vs' pending logfile err closing :
  db_ok contents used mes ies st -> mem_holds ucmp mem' mes' -> match imm' with Some imm => mem_holds ucmp imm ies' | None => ies' = [] end ->
  (Forall entry_ok mes' /\ Forall entry_ok ies' /\ seqs_differ mes' /\ seqs_differ ies') -> (let es := all_entries contents (v_of st) in older mes' ies' /\ older mes' es /\ older ies' es) ->
  current vs' = v_of st -> vs_next_file_number (db_versions st) <= vs_next_file_number vs' -> reachable used vs' (tc_env (db_table_cache st)) ->
  db_ok contents used mes' ies' (MkDB mem' imm' vs' (db_table_cache st) pending logfile err closing).
Proof.
  intros [_ _ _ _ _ H6 H7 H8 H9 H10 H11 H12] Hm Hi He Ho' Ev Hn Hr. split; cbn [db_mem db_imm db_versions db_table_cache]; rewrite ?Ev; try done.
  - eapply Forall_impl; [exact H6|]. cbn. intros. lia.
  - intros n Hle. apply H12. lia.
Qed.

(** A file of the environment changes that is not a table and not the descriptor. *)
Lemma db_ok_other contents used mes ies st fname n type e' :
  db_ok contents used mes ies st -> named dbname fname n type -> type <> kCurrentFile -> type <> kDescriptorFile -> type <> kTableFile -> env_faults e' = [] ->
  (forall f, f <> fname -> env_files e' !! f = env_files (tc_env (db_table_cache st)) !! f) -> db_ok contents used mes ies (set_env e' st).
Proof.
  intros Hdb Hnm Hc Hd Ht Hf He. pose proof Hdb as [H1 H2 H3 H4 H5 H6 H7 H8 H9 H10 [_ H11] H12]. split; cbn [set_env set_table_cache with_env db_mem db_imm db_versions db_table_cache tc_env tc_cache]; try done.
  - by apply (reachable_other extend dbname reuse_logs ucmp cmp_name Hname max_file_size used _ _ e' fname n type H5).
  - split; [done|]. intros f Hfv. cbn. destruct (file_numbers extend snappy zstd dbname in_scratch reuse_logs ucmp cmp_name Hname max_file_size o contents used mes ies st f Hdb Hfv) as [_ Hu].
    destruct (H11 f Hfv) as [(bytes & Hb & Hok) H11b]. split; [|done]. exists bytes. split; [|done]. rewrite He; [done|]. intros E. pose proof (named_table dbname _ Hu) as Hnt. rewrite E in Hnt. by destruct (named_inj _ _ _ _ _ _ Hnt Hnm).
Qed.
End changes.

(** * The logs *)

Section durable.
Context (extend : Z -> slice -> Z) `{!Checksum extend} (dbname : slice) (reuse_logs : bool).
Context (ucmp : Comparator) `{!ComparatorLaws any_key ucmp} `{!SeparatorSame any_key ucmp} (cmp_name : slice) (Hname : is_u32 (slen cmp_name)) (max_file_size : Z).

Abbreviation recorded_sequence := (recorded_sequence ucmp cmp_name extend dbname max_file_size reuse_logs).
Abbreviation kept_logs := (kept_logs extend dbname reuse_logs ucmp cmp_name max_file_size).
Abbreviation reachable := (reachable ucmp cmp_name extend dbname max_file_size reuse_logs).
Abbreviation env_of st := (tc_env (db_table_cache st)).

(** A log has the records of batches, with the entries behind the sequence number [q]. *)
Definition log_holds (e : EnvState) (n q : Z) (es : list entry) : Prop :=
  exists fragss recs gs, env_files e !! LogFileName dbname n = Some (layout extend 0 (concat fragss)) /\ Forall2 is_record fragss recs /\ frags_fit 0 (concat fragss) /\
    batch_records q gs recs /\ es = entries_of (q + 1) (concat gs).

(** The logs with their numbers and entries, behind the sequence number [q]. *)
Fixpoint logs_hold (e : EnvState) (q : Z) (logs : list (Z * list entry)) : Prop :=
  match logs with
  | [] => True
  | (n, es) :: logs => log_holds e n q es /\ logs_hold e (q + slen es) logs
  end.

Definition log_empty (e : EnvState) (x : Z * list entry) : Prop := env_files e !! LogFileName dbname x.1 = Some [].

(** What an opening of the store will find: the entries of the immutable memtable in the logs [logs], and those of the other in
    the log behind them, with nothing in older ones, no other logs that count, and in the descriptor a sequence number from before the first of the entries on. *)
Record durable (logs : list (Z * list entry)) (mes ies : list entry) (st : DBState) : Prop := {
  du_prev : vs_prev_log_number (db_versions st) = 0;
  du_number : 0 < db_logfile_number st < vs_next_file_number (db_versions st) /\ vs_log_number (db_versions st) <= db_logfile_number st;
  du_mem : log_holds (env_of st) (db_logfile_number st) (vs_last_sequence (db_versions st) - slen mes) mes;
  du_older : logs_hold (env_of st) (vs_last_sequence (db_versions st) - slen mes - slen ies) logs /\ concat (map snd logs) = ies;
  du_sorted : StronglySorted Z.lt (map fst logs ++ [db_logfile_number st]);
  du_counted : Forall (fun x => 0 < x.1 /\ vs_log_number (db_versions st) <= x.1) logs;
  du_imm : match db_imm st with None => Forall (log_empty (env_of st)) logs | Some _ => exists logs0 x, logs = logs0 ++ [x] /\ Forall (log_empty (env_of st)) logs0 end;
  du_files fname n : named dbname fname n kLogFile -> is_Some (env_files (env_of st) !! fname) -> vs_log_number (db_versions st) <= n \/ n = 0 ->
    fname = LogFileName dbname n /\ n ∈ map fst logs ++ [db_logfile_number st];
  du_sequence : exists q, recorded_sequence (env_of st) q /\ 0 <= vs_last_sequence (db_versions st) - slen mes - slen ies <= q /\ q <= vs_last_sequence (db_versions st);
}.

Lemma log_holds_same e e' n q es : env_files e' !! LogFileName dbname n = env_files e !! LogFileName dbname n -> log_holds e n q es -> log_holds e' n q es.
Proof. intros E (fragss & recs & gs & H1 & H). exists fragss, recs, gs. by rewrite E. Qed.

Lemma named_log n : is_u64 n -> named dbname (LogFileName dbname n) n kLogFile.
Proof. intros Hn. destruct (LogFileName_parts dbname n Hn) as (-> & H & _). by eexists. Qed.

Lemma LogFileName_inj m n : is_u64 m -> is_u64 n -> LogFileName dbname m = LogFileName dbname n -> m = n.
Proof. intros Hm Hn E. pose proof (named_log m Hm) as H. rewrite E in H. by destruct (named_inj _ _ _ _ _ _ H (named_log n Hn)). Qed.

(** Writing a log leaves the descriptor alone. *)
Lemma log_sequence used vs e e' n q :
  reachable used vs e -> is_u64 n -> env_faults e' = [] -> (forall f, f <> LogFileName dbname n -> env_files e' !! f = env_files e !! f) -> recorded_sequence e q -> recorded_sequence e' q.
Proof.
  intros Hr Hn Hf He. apply (same_sequence _ _ _ _ _ _ Hname used vs e e' q Hr). by apply (other_descriptor extend dbname reuse_logs ucmp cmp_name Hname max_file_size used vs e e' _ n kLogFile Hr (named_log n Hn)).
Qed.

Lemma logs_hold_same e e' logs q :
  Forall (fun x => env_files e' !! LogFileName dbname x.1 = env_files e !! LogFileName dbname x.1) logs -> logs_hold e q logs -> logs_hold e' q logs.
Proof.
  revert q. induction logs as [|[n es] logs IH]; intros q; cbn [logs_hold]; [done|]. intros [He Hes]%Forall_cons [H1 H2]. split; [by eapply log_holds_same|by apply IH].
Qed.

Lemma logs_hold_app e q logs logs' : logs_hold e q (logs ++ logs') <-> logs_hold e q logs /\ logs_hold e (q + slen (concat (map snd logs))) logs'.
Proof.
  revert q. induction logs as [|[m ms] logs IH]; intros q; cbn [logs_hold map snd concat app]; [rewrite Z.add_0_r; tauto|]. rewrite IH, length_app.
  replace (q + slen ms + slen (concat (map snd logs))) with (q + Z.of_nat (length ms + length (concat (map snd logs)))) by lia. tauto.
Qed.

(** The numbers of the older logs. *)
Lemma durable_below logs mes ies st x : durable logs mes ies st -> x ∈ logs -> 0 < x.1 < db_logfile_number st /\ vs_log_number (db_versions st) <= x.1.
Proof.
  intros [_ _ _ _ D5 D6 _ _ _] Hx. pose proof (proj1 (Forall_forall _ _) D6 x Hx) as [H1 H2]. split; [|done]. split; [done|].
  apply (StronglySorted_app_1_elem_of Z.lt _ _ x.1 (db_logfile_number st) D5); [by apply list_elem_of_fmap_2|left].
Qed.

(** The background work. *)
Lemma durable_called logs mes ies st st' :
  durable logs mes ies st -> same_rest st st' -> kept_logs st st' -> db_imm st' = None -> (db_imm st = None -> ies = []) -> is_u64 (db_logfile_number st) -> exists logs', durable logs' mes [] st'.
Proof.
  intros Hdu (_ & R2 & R3 & _) [K1 K2 K3 K4 [K5 K6] K7] Hi Hn Hu. pose proof (fun x => durable_below _ _ _ _ x Hdu) as Hbelow. destruct Hdu as [D1 D2 D3 [D4 D4'] D5 D6 Dz D7 (q & D8 & Hq)]. rewrite Hi in *.
  destruct (K7 q D8) as (q' & Hq' & Hor). assert (log_holds (env_of st') (db_logfile_number st) (vs_last_sequence (db_versions st) - slen mes) mes) as Hmem.
  { eapply log_holds_same; [|exact D3]. apply K5; [done|]. rewrite K2. destruct (db_imm st); lia. }
  assert (vs_prev_log_number (db_versions st') = 0) as Hp by (destruct K3 as [->| ->]; done). destruct (db_imm st) as [imm|] eqn:Eimm.
  - exists []. split; rewrite ?R2, ?R3, ?K2; cbn [map app concat]; try done; [lia|by repeat constructor|by rewrite Hi| |].
    + intros fname n Hf Hs Hor'. destruct (D7 fname n Hf (K6 fname n Hf Hs) ltac:(lia)) as [-> [Hin|Hin]%elem_of_app]; [|done]. exfalso. apply list_elem_of_fmap in Hin as (x & -> & Hx). pose proof (Hbelow x Hx). lia.
    + exists q'. split; [done|]. cbn [length]. destruct Hor as [[_ E]| ->]; [done|lia].
  - assert (ies = []) as Ei by auto. rewrite Ei in *.
    assert (forall x, x ∈ logs -> env_files (env_of st') !! LogFileName dbname x.1 = env_files (env_of st) !! LogFileName dbname x.1) as Hsame.
    { intros x Hx. pose proof (Hbelow x Hx) as [H1 H2]. apply K5; [unfold in_u in *; lia|by rewrite K2]. }
    exists logs. split; rewrite ?R2, ?R3, ?K2; try done; [lia| | |by intros; apply D7; [|eapply K6|]|].
    + split; [|done]. eapply logs_hold_same; [|exact D4]. by apply Forall_forall.
    + rewrite Hi. apply Forall_forall. intros x Hx. unfold log_empty. rewrite (Hsame x Hx). by apply (proj1 (Forall_forall _ _) Dz).
    + exists q'. split; [done|]. cbn [length] in *. destruct Hor as [[-> _]| ->]; lia.
Qed.

(** Reads. *)
Lemma durable_same logs mes ies st st' : durable logs mes ies st -> same_numbers st st' -> (db_imm st' = None <-> db_imm st = None) -> durable logs mes ies st'.
Proof. intros [D1 D2 D3 D4 D5 D6 Dz D7 D8] ((N1 & N2 & N3) & N4 & N5 & _ & _ & N6) Ei. split; rewrite ?N1, ?N2, ?N3, ?N4, ?N5, ?N6; try done. destruct Ei as [E1 E2]. destruct (db_imm st), (db_imm st'); [done|by specialize (E1 eq_refl)|by specialize (E2 eq_refl)|done]. Qed.

(** The switch to a new log. *)
Lemma durable_switch logs mes st st' used n :
  durable logs mes [] st -> reachable used (db_versions st) (env_of st) -> is_u64 (db_logfile_number st) -> is_u64 n -> n = vs_next_file_number (db_versions st) ->
  same_log_numbers (db_versions st) (db_versions st') -> vs_next_file_number (db_versions st') = n + 1 -> db_logfile_number st' = n -> db_imm st = None -> db_imm st' <> None ->
  env_faults (env_of st') = [] -> env_files (env_of st') !! LogFileName dbname n = Some [] -> (forall f, f <> LogFileName dbname n -> env_files (env_of st') !! f = env_files (env_of st) !! f) ->
  durable (logs ++ [(db_logfile_number st, mes)]) [] mes st'.
Proof.
  intros Hdu Hr Hu Hnu Hn (N1 & N2 & N3) Hx Hl Hi Hi' Hf Hnew He. pose proof (fun x => durable_below _ _ _ _ x Hdu) as Hbelow. destruct Hdu as [D1 [D2 D2'] D3 [D4 D4'] D5 D6 Dz D7 (q & D8 & Hq)]. rewrite Hi in Dz.
  assert (forall m, is_u64 m -> m <> n -> env_files (env_of st') !! LogFileName dbname m = env_files (env_of st) !! LogFileName dbname m) as Hsame by (intros m Hm Hne; apply He; intros E; by apply LogFileName_inj in E).
  split; rewrite ?N1, ?N2, ?N3, ?Hx, ?Hl; cbn [length]; rewrite ?map_app, ?concat_app; cbn [map fst snd concat]; rewrite ?app_nil_r; try done.
  - lia.
  - exists [], [], []. split; [done|]. split; [constructor|]. split; [done|]. split; [constructor|done].
  - rewrite D4', Z.sub_0_r. split; [|done]. cbn [length] in D4. rewrite Z.sub_0_r in D4. apply logs_hold_app. split.
    + eapply logs_hold_same; [|exact D4]. apply Forall_forall. intros x Hin. pose proof (Hbelow x Hin) as [H1 H2]. apply Hsame; [unfold in_u in *; lia|lia].
    + cbn [logs_hold]. split; [|done]. rewrite D4'. cbn [length]. rewrite Z.add_0_r. eapply log_holds_same; [|exact D3]. apply Hsame; [done|lia].
  - apply StronglySorted_app_2; [|done|by repeat constructor]. intros x y Hin ->%list_elem_of_singleton. apply elem_of_app in Hin as [Hin| ->%list_elem_of_singleton]; [|lia].
    apply list_elem_of_fmap in Hin as (z & -> & Hz). pose proof (Hbelow z Hz). lia.
  - apply Forall_app. split; [done|]. apply Forall_singleton. cbn. lia.
  - destruct (db_imm st'); [|done]. eexists _, _. split; [done|]. apply Forall_forall. intros x Hin. pose proof (Hbelow x Hin) as [H1 H2]. unfold log_empty. rewrite Hsame by (unfold in_u in *; lia). by apply (proj1 (Forall_forall _ _) Dz).
  - intros fname m Hm Hs Hor. destruct (decide (fname = LogFileName dbname n)) as [->|Hnf]; [destruct (named_inj _ _ _ _ _ _ Hm (named_log n Hnu)) as [-> _]; split; [done|]; apply elem_of_app; right; left|].
    rewrite He in Hs by done. destruct (D7 fname m Hm Hs Hor) as [-> Hin]. split; [done|]. apply elem_of_app. by left.
  - exists q. split; [|cbn [length] in Hq; lia]. by apply (log_sequence used (db_versions st) (env_of st) (env_of st') n q Hr Hnu Hf He).
Qed.

(** A batch is written to the log. *)
Lemma durable_write logs mes ies st st' used c off frags b os :
  durable logs mes ies st -> reachable used (db_versions st) (env_of st) -> is_u64 (db_logfile_number st) ->
  env_files (env_of st) !! LogFileName dbname (db_logfile_number st) = Some c -> 0 <= off <= kBlockSize -> off mod kBlockSize = slen c mod kBlockSize ->
  is_record frags (batch_rep b) -> frags_fit off frags -> is_batch b (vs_last_sequence (db_versions st) + 1) os ->
  vs_last_sequence (db_versions st') = vs_last_sequence (db_versions st) + Z.of_nat (length os) -> vs_log_number (db_versions st') = vs_log_number (db_versions st) ->
  vs_prev_log_number (db_versions st') = vs_prev_log_number (db_versions st) -> vs_next_file_number (db_versions st') = vs_next_file_number (db_versions st) ->
  db_logfile_number st' = db_logfile_number st -> db_imm st' = db_imm st -> env_faults (env_of st') = [] ->
  env_files (env_of st') = <[LogFileName dbname (db_logfile_number st) := c ++ layout extend off frags]> (env_files (env_of st)) ->
  durable logs (mes ++ entries_of (vs_last_sequence (db_versions st) + 1) os) ies st' /\ 0 <= end_off off frags <= kBlockSize /\ end_off off frags mod kBlockSize = slen (c ++ layout extend off frags) mod kBlockSize.
Proof.
  intros Hdu Hr Hu Hc Hoff Hmod Hrec Hfit Hb N1 N2 N3 N4 N5 Hi Hf He. pose proof (fun x => durable_below _ _ _ _ x Hdu) as Hbelow. destruct Hdu as [D1 [D2 D2'] (fragss & recs & gs & F1 & F2 & F3 & F4 & F5) [D4 D4'] D5 D6 Dz D7 (q & D8 & Hq)].
  rewrite Hc in F1. injection F1 as ->. destruct (layout_continues extend fragss off frags F3 Hoff Hmod Hfit) as (L1 & L2 & L3 & L4). rewrite <-L1 in *. split; [|done].
  assert (forall x, x ∈ logs -> env_files (env_of st') !! LogFileName dbname x.1 = env_files (env_of st) !! LogFileName dbname x.1) as Hsame.
  { intros x Hx. pose proof (Hbelow x Hx) as [H1 H2]. rewrite He. apply lookup_insert_ne. intros E. apply LogFileName_inj in E; [lia|done|unfold in_u in *; lia]. }
  set (q0 := vs_last_sequence (db_versions st)) in *. set (new := entries_of (q0 + 1) os) in *. assert (slen new = Z.of_nat (length os)) as Elen by (unfold new; by rewrite length_entries_of).
  split; rewrite ?N1, ?N2, ?N3, ?N4, ?N5; try done.
  - exists (fragss ++ [frags]), (recs ++ [batch_rep b]), (gs ++ [os]). rewrite He, lookup_insert_eq. split; [done|]. split; [apply Forall2_app; [done|by constructor]|]. split; [done|].
    rewrite length_app. replace (q0 + Z.of_nat (length os) - Z.of_nat (length mes + length new)) with (q0 - slen mes) by lia.
    assert (slen mes = total_ops gs) as Em by (rewrite F5; unfold total_ops; by rewrite length_entries_of). split.
    + apply batch_records_app; [done|]. rewrite <-Em. replace (q0 - slen mes + slen mes) with q0 by lia. constructor; [done|constructor].
    + rewrite concat_app. cbn [concat]. rewrite app_nil_r, entries_of_app. f_equal; [done|]. unfold new. f_equal. unfold total_ops in Em. lia.
  - split; [|done]. rewrite length_app. replace (q0 + Z.of_nat (length os) - Z.of_nat (length mes + length new) - slen ies) with (q0 - slen mes - slen ies) by lia.
    eapply logs_hold_same; [|exact D4]. by apply Forall_forall.
  - assert (forall ls, (forall x, x ∈ ls -> x ∈ logs) -> Forall (log_empty (env_of st)) ls -> Forall (log_empty (env_of st')) ls) as Hze.
    { intros ls Hsub Hls. apply Forall_forall. intros x Hx. unfold log_empty. rewrite (Hsame x (Hsub x Hx)). by apply (proj1 (Forall_forall _ _) Hls). }
    rewrite Hi. destruct (db_imm st); [|by apply Hze]. destruct Dz as (logs0 & x & -> & Hz). exists logs0, x. split; [done|]. apply Hze; [|done]. intros y Hy. apply elem_of_app. by left.
  - intros fname n Hn Hs Hor. apply D7; [done| |done]. rewrite He in Hs. apply lookup_insert_is_Some' in Hs as [<-|Hs]; [by eexists|done].
  - exists q. split; [|rewrite length_app; lia]. apply (log_sequence used (db_versions st) (env_of st) (env_of st') (db_logfile_number st) q Hr Hu Hf); [|done]. intros f Hnf. rewrite He. by apply lookup_insert_ne.
Qed.
End durable.

(** * The invariant *)

(** What the store has promised: the entries of all writes, the last sequence number, the live snapshots by their addresses,
    and the address of the next one. *)
Record Spec := MkSpec { sp_hist : list entry; sp_seq : Z; sp_snaps : list (Z * Z); sp_next : Z }.

(** The references that the store has to its memtables. *)
Definition refs_ok (st : DBState) : Prop := 1 <= refs_ (db_mem st) /\ match db_imm st with Some imm => 1 <= refs_ imm | None => True end.

Section store.
Context (extend : Z -> slice -> Z) `{!Checksum extend} (snappy : option SnappyLib) (zstd : option ZstdLib).
Context (dbname : slice) (in_scratch reuse_logs : bool).
Context (ucmp : Comparator) `{!ComparatorLaws any_key ucmp} `{!SeparatorSame any_key ucmp} (cmp_name : slice) (Hname : is_u32 (slen cmp_name)) (max_file_size write_buffer_size : Z).
Context (o : Options) (Ho : opt_comparator o = InternalKeyComparator ucmp) (Hfilter : forall p, opt_filter_policy o = Some p -> exists up, p = InternalFilterPolicy up).
Context (Hbuffer : 4104 <= write_buffer_size).

Abbreviation db_ok := (db_ok extend snappy zstd dbname in_scratch reuse_logs ucmp cmp_name max_file_size o).
Abbreviation work_ok := (work_ok extend snappy zstd dbname in_scratch reuse_logs ucmp cmp_name max_file_size o).
Abbreviation v_of st := (current (db_versions st)).

(** The entries of the store. *)
Definition store_entries (contents : FileMetaData -> list entry) (mes ies : list entry) (s : Store) : list entry := mes ++ ies ++ all_entries contents (v_of (s_db s)).

Record store_inv (E : list entry) (k : Z) (sp : Spec) (s : Store) (contents : FileMetaData -> list entry) (used : list (Z * Z)) (mes ies : list entry) (floor : Z) : Prop := {
  si_work : work_ok E k contents used mes ies (s_bg s);
  si_awake : awake (s_bg s);
  si_mes e : e ∈ mes -> e ∈ E;
  si_reads : same_reads floor (sp_hist sp) (store_entries contents mes ies s);
  si_seq : vs_last_sequence (db_versions (s_db s)) = sp_seq sp /\ 0 <= sp_seq sp < kMaxSequenceNumber;
  si_bounded e : e ∈ store_entries contents mes ies s -> e_seq e <= sp_seq sp;
  si_hist e : e ∈ sp_hist sp -> e_seq e <= sp_seq sp;
  si_snaps : represents (bg_snapshots (s_bg s)) (sp_snaps sp) /\ sl_next_address (bg_snapshots (s_bg s)) = sp_next sp;
  si_sorted : StronglySorted (fun x y => x.2 <= y.2) (sp_snaps sp);
  si_live : 0 <= floor <= sp_seq sp /\ Forall (fun x => floor <= x.2 <= sp_seq sp) (sp_snaps sp);
  si_log : exists c off, s_log s = MkWriter (MkWritableFile c []) off /\ 0 <= off <= kBlockSize /\ off mod kBlockSize = slen c mod kBlockSize /\ env_files (tc_env (db_table_cache (s_db s))) !! s_logfile s = Some c;
  si_tmp : is_batch (s_tmp_batch s) 0 [];
  si_logfile : s_logfile s = LogFileName dbname (db_logfile_number (s_db s));
  si_refs : refs_ok (s_db s);
  si_durable : exists logs, durable extend dbname reuse_logs ucmp cmp_name max_file_size logs mes ies (s_db s);
}.

(** What a compaction may take as the smallest snapshot. *)
Lemma inv_smallest E k sp s contents used mes ies floor :
  store_inv E k sp s contents used mes ies floor ->
  exists ss, smallest_snapshot (bg_snapshots (s_bg s)) (vs_last_sequence (db_versions (s_db s))) = Some ss /\ floor <= ss <= sp_seq sp /\ Forall (fun x => ss <= x.2) (sp_snaps sp).
Proof.
  intros [_ _ _ _ [Hseq Hs0] _ _ [Hr _] Hso [Hf Hl] _ _ _ _ _]. rewrite (smallest_snapshot_spec _ _ _ Hr), Hseq. eexists. split; [reflexivity|]. destruct (sp_snaps sp) as [|[a t] xs]; [split; [lia|constructor]|].
  apply Forall_cons in Hl as [Hl _]. cbn in Hl. split; [lia|]. apply StronglySorted_inv in Hso as [_ Hso]. by constructor.
Qed.

(** The calls of the background thread leave the store what it is. *)
Lemma called_inv E k k' sp s contents used mes ies floor ss contents' used' bg' :
  store_inv E k sp s contents used mes ies floor -> floor <= ss <= sp_seq sp -> Forall (fun x => ss <= x.2) (sp_snaps sp) ->
  called extend snappy zstd dbname in_scratch reuse_logs ucmp cmp_name max_file_size o ss E k' contents mes ies (s_bg s) contents' used' bg' -> store_inv E k' sp (set_bg bg' s) contents' used' mes [] ss.
Proof.
  intros [Hw Ha Hm Hr [Hseq Hs0] Hb Hh [Hsn Hnx] Hso [Hf Hl] Hlog Htmp Hlf Hrf [logs Hdu]] [Hfl Hle] Hlive [Hw' Hi' Hs' (R1 & R2 & R3 & R4 & R5) Hent Hreads Ha' Hkl]. pose proof (du_number _ _ _ _ _ _ _ _ _ _ Hdu) as [_ Hln].
  split; cbn [set_bg s_bg s_log s_tmp_batch s_logfile]; rewrite ?Hs', ?R2, ?R3; try done.
  - intros key x value Hx. unfold store_entries in *. cbn [set_bg s_bg]. rewrite (Hreads key x value Hx). apply Hr. lia.
  - intros e. unfold store_entries in *. cbn [set_bg s_bg app]. intros [He|He]%elem_of_app; apply Hb, elem_of_app; [by left|right; by apply Hent].
  - split; [lia|]. apply Forall_forall. intros x Hx. pose proof (proj1 (Forall_forall _ _) Hl x Hx). pose proof (proj1 (Forall_forall _ _) Hlive x Hx). cbn in *. lia.
  - destruct Hlog as (c & off & L1 & L2 & L3 & L4). exists c, off. split; [done|]. split; [done|]. split; [done|]. rewrite <-L4, Hlf. destruct Hkl as [_ K2 _ _ [K5 _] _]. apply K5; [apply Hw|]. rewrite K2. destruct (db_imm (s_db s)), (db_imm (bg_db bg')); lia.
  - split; [by rewrite R1; apply Hrf|by rewrite Hi'].
  - apply (durable_called extend dbname reuse_logs ucmp cmp_name max_file_size logs mes ies (s_db s)); try done; [|apply Hw]. destruct Hw as [[_ Himm _ _ _ _ _ _ _ _ _ _] _ _ _ _ _ _ _]. intros E0. by rewrite E0 in Himm.
Qed.

(** The background thread runs its call. *)
Lemma call_spec E k sp s contents used mes ies floor fuel :
  entries_fit extend snappy zstd ucmp o E -> 0 <= k -> store_inv E (k + 1) sp s contents used mes ies floor -> bg_scheduled (s_bg s) = true -> slen E <= Z.of_nat fuel ->
  exists contents' used' bg' floor' manual, BackgroundCall extend snappy zstd dbname o in_scratch None ucmp cmp_name max_file_size (fun _ st => st) fuel (s_bg s) = Some (bg', manual) /\
    store_inv E k sp (set_bg bg' s) contents' used' mes [] floor' /\ db_imm (bg_db bg') = None /\ db_mem (bg_db bg') = db_mem (s_db s) /\ call_did contents (s_bg s) contents' bg' manual.
Proof.
  intros Hfit Hk Hinv Hsc Hfuel. destruct (inv_smallest _ _ _ _ _ _ _ _ _ Hinv) as (ss & Hss & [Hfl Hle] & Hlive). pose proof (si_work _ _ _ _ _ _ _ _ _ Hinv) as Hw. pose proof (si_seq _ _ _ _ _ _ _ _ _ Hinv) as [_ Hs0].
  destruct (BackgroundCall_spec extend snappy zstd dbname in_scratch reuse_logs ucmp cmp_name Hname max_file_size o Ho E k contents used mes ies (s_bg s) ss fuel Hfit Hk Hw Hsc Hss ltac:(lia) Hfuel)
    as (contents' & used' & bg' & manual & E1 & Hc & Hdid & _). pose proof Hc as [_ Hi' _ (R1 & _) _ _ _ _].
  exists contents', used', bg', ss, manual. split; [done|]. split; [by apply (called_inv E (k + 1) k sp s contents used mes ies floor)|done].
Qed.

Lemma wait_spec E k sp s contents used mes ies floor fuel :
  entries_fit extend snappy zstd ucmp o E -> 0 <= k -> store_inv E (k + 1) sp s contents used mes ies floor -> bg_scheduled (s_bg s) = true -> slen E <= Z.of_nat fuel ->
  exists contents' used' bg' floor' manual, wait_for_background extend snappy zstd dbname o in_scratch None ucmp cmp_name max_file_size fuel s = Some (set_bg bg' s) /\
    store_inv E k sp (set_bg bg' s) contents' used' mes [] floor' /\ db_imm (bg_db bg') = None /\ db_mem (bg_db bg') = db_mem (s_db s) /\ call_did contents (s_bg s) contents' bg' manual.
Proof.
  intros Hfit Hk Hinv Hsc Hfuel. destruct (call_spec E k sp s contents used mes ies floor fuel Hfit Hk Hinv Hsc Hfuel) as (contents' & used' & bg' & floor' & manual & E1 & H).
  exists contents', used', bg', floor', manual. split; [unfold wait_for_background; by rewrite E1|done].
Qed.

(** ** Room for a write *)

Lemma new_usage : ApproximateMemoryUsage (MemTable_Ref NewMemTable) = Some 4104.
Proof. reflexivity. Qed.

Lemma older_nil_l es : older [] es.
Proof. intros a b Ha. by apply elem_of_nil in Ha. Qed.

Lemma older_nil_r es : older es [].
Proof. intros a b _ Hb. by apply elem_of_nil in Hb. Qed.

Lemma NewFileNumber_fields vs :
  vs_next_file_number vs + 1 < 2 ^ 64 -> 0 <= vs_next_file_number vs ->
  current (NewFileNumber vs).2 = current vs /\ vs_next_file_number (NewFileNumber vs).2 = vs_next_file_number vs + 1 /\ vs_last_sequence (NewFileNumber vs).2 = vs_last_sequence vs.
Proof. intros Hn H0. unfold NewFileNumber. cbn [snd]. rewrite wrap_small by (unfold in_u; lia). by destruct vs. Qed.

(** The switch: the entries of the memtable are those of the immutable one. *)
Lemma switch_spec E k sp s contents used mes floor :
  0 <= k -> store_inv E (k + 1) sp s contents used mes [] floor -> db_imm (s_db s) = None ->
  exists s', switch_memtable dbname s = (true, OK, s') /\ store_inv E k sp s' contents used [] mes floor /\ db_mem (s_db s') = MemTable_Ref NewMemTable /\ v_of (s_db s') = v_of (s_db s).
Proof.
  intros Hk Hinv Himm. pose proof Hinv as [[Hdb Hp Hman Hin Hnum Hlg Herr Hopen] Ha Hm Hr [Hseq Hs0] Hb Hh [Hsn Hnx] Hso [Hf Hl] (c & off & Hlog & Hoff & Hmod & Hfile) Htmp Hlf Hrf [logs Hdu]].
  pose proof Hdb as [Hmem _ (Ok1 & Ok2 & Hd1 & Hd2) (O1 & O2 & O3) Hreach _ _ _ _ _ [Hfaults _] _]. set (n := vs_next_file_number (db_versions (s_db s))) in *.
  destruct (reachable_state _ _ _ _ _ _ Hname _ _ _ Hreach) as (_ & (_ & _ & Hnu & _) & _). fold n in Hnu. assert (0 <= slen E) as HE by lia.
  destruct (NewFileNumber_fields (db_versions (s_db s)) ltac:(fold n; nia) ltac:(fold n; unfold in_u in Hnu; lia)) as (V1 & V2 & V3). fold n in V2.
  unfold switch_memtable. set (vs1 := (NewFileNumber (db_versions (s_db s))).2) in *. change (NewFileNumber (db_versions (s_db s))) with (n, vs1). cbn iota beta.
  unfold NewWritableFile, next_fault. rewrite Hfaults. destruct (tc_env (db_table_cache (s_db s))) as [files faults] eqn:Ee. cbn [env_faults] in Hfaults. subst faults. cbn [with_files env_files env_faults].
  rewrite Hlog. cbn [dest_ WritableFile_Close WritableFile_Flush wf_faults]. rewrite ok_OK. set (st1 := set_mem _ _). eexists. split; [reflexivity|].
  set (e2 := MkEnv (<[s_logfile s := c]> (<[LogFileName dbname n := []]> files)) []).
  assert (LogFileName dbname n <> s_logfile s) as Hlne. { pose proof (du_number _ _ _ _ _ _ _ _ _ _ Hdu) as [Hd _]. rewrite Hlf. intros E0. apply LogFileName_inj in E0; [fold n in Hd; lia|done|done]. }
  assert (env_files e2 !! LogFileName dbname n = Some []) as He2new by (cbn [e2 env_files]; rewrite lookup_insert_ne by done; apply lookup_insert_eq).
  assert (forall f, f <> LogFileName dbname n -> env_files e2 !! f = files !! f) as He2.
  { intros f Hne. cbn [e2 env_files]. cbn [env_files] in Hfile. destruct (decide (f = s_logfile s)) as [->|Hne']; [by rewrite lookup_insert_eq|]. by rewrite !lookup_insert_ne. }
  assert (db_ok contents used [] mes st1) as Hdb1.
  { assert (db_ok contents used [] mes (MkDB (MemTable_Ref NewMemTable) (Some (db_mem (s_db s))) vs1 (db_table_cache (s_db s)) (db_pending_outputs (s_db s)) n (db_bg_error (s_db s)) (db_shutting_down (s_db s)))) as H1.
    { apply (db_ok_memtables extend snappy zstd dbname in_scratch reuse_logs ucmp cmp_name max_file_size o contents used mes [] (s_db s)); try done; [by eexists| |fold n; lia|].
      - split; [apply older_nil_l|]. split; [apply older_nil_l|done].
      - rewrite Ee. apply reach_number; [done|]. fold n. nia. }
    apply (db_ok_other extend snappy zstd dbname in_scratch reuse_logs ucmp cmp_name Hname max_file_size o _ _ _ _ _ (LogFileName dbname n) n kLogFile (MkEnv (<[LogFileName dbname n := []]> files) [])) in H1; try done; [|by apply named_log|].
    2: { intros f Hne. cbn [env_files db_table_cache]. rewrite lookup_insert_ne by done. by rewrite Ee. }
    apply (db_ok_other extend snappy zstd dbname in_scratch reuse_logs ucmp cmp_name Hname max_file_size o _ _ _ _ _ (s_logfile s) (db_logfile_number (s_db s)) kLogFile e2) in H1; try done; [by rewrite Hlf; apply named_log|].
    intros f Hne. cbn [set_env set_table_cache with_env db_table_cache tc_env env_files e2]. by rewrite lookup_insert_ne. }
  destruct (MaybeSchedule_fields (set_db st1 (s_bg s))) as (M1 & M2 & M3). cbn [set_db bg_db bg_snapshots bg_manual] in M1, M2, M3.
  assert (v_of st1 = v_of (s_db s) /\ vs_last_sequence (db_versions st1) = vs_last_sequence (db_versions (s_db s)) /\ vs_next_file_number (db_versions st1) = n + 1) as (S1 & S2 & S3) by (split_and!; done).
  split; [|split; [cbn [s_bg]; by rewrite M1|cbn [s_bg]; by rewrite M1]]. split; unfold store_entries in *; cbn [s_bg s_log s_tmp_batch s_logfile]; rewrite ?M1, ?M2, ?S1, ?S2; try done.
  - split; rewrite ?M1, ?M3, ?S1, ?S3; try done; [|nia]. intros e [He|He]%elem_of_app; [by apply Hm|apply Hin; by rewrite elem_of_app; right].
  - by apply MaybeSchedule_awake.
  - intros e He. by apply elem_of_nil in He.
  - exists [], 0. split; [done|]. split; [unfold kBlockSize; lia|]. split; [done|]. apply He2new.
  - by split; [|apply Hrf].
  - exists (logs ++ [(db_logfile_number (s_db s), mes)]).
    apply (durable_switch extend dbname reuse_logs ucmp cmp_name Hname max_file_size logs mes (s_db s) st1 used n); try done; [by rewrite Ee| |by rewrite Ee].
    change (same_log_numbers (db_versions (s_db s)) (NewFileNumber (db_versions (s_db s))).2). clear. by destruct (db_versions (s_db s)).
Qed.

Section room.
Context (E : list entry) (Hfit : entries_fit extend snappy zstd ucmp o E) (fuel : nat) (Hfuel : slen E <= Z.of_nat fuel).

Abbreviation room_loop := (MakeRoomForWrite_loop extend snappy zstd dbname o in_scratch None ucmp cmp_name max_file_size write_buffer_size).
Abbreviation waiting := (wait_for_background extend snappy zstd dbname o in_scratch None ucmp cmp_name max_file_size).

(** A state of the store with [k] more calls. *)
Definition store_ok (k : Z) (sp : Spec) (s : Store) : Prop := exists contents used mes ies floor, store_inv E k sp s contents used mes ies floor.

Lemma inv_less k k' sp s contents used mes ies floor : k' <= k -> store_inv E k sp s contents used mes ies floor -> store_inv E k' sp s contents used mes ies floor.
Proof. intros Hk []. split; try done. by apply (work_less extend snappy zstd dbname in_scratch reuse_logs ucmp cmp_name max_file_size o E k). Qed.

(** How many rounds the loop has at most. *)
Definition has_room (force : bool) (s : Store) : bool := negb force && (default 0 (ApproximateMemoryUsage (db_mem (s_db s))) <=? write_buffer_size).
Definition to_switch (contents : FileMetaData -> list entry) (bg : Background) : nat :=
  match db_imm (bg_db bg) with Some _ => S (7 * length E) | None => weight contents (v_of (bg_db bg)) end + match bg_manual bg with Some _ => 1 | None => 0 end.
Definition rounds (contents : FileMetaData -> list entry) (force delay : bool) (s : Store) : nat :=
  (if delay then 1 else 0) + if has_room force s then 0 else S (to_switch contents (s_bg s)).

(** A call never makes it more, and makes it less if there was something to do. *)
Lemma call_to_switch k contents used mes bg contents' bg' manual :
  work_ok E k contents' used mes [] bg' -> db_imm (bg_db bg') = None -> call_did contents bg contents' bg' manual ->
  (to_switch contents' bg' <= to_switch contents bg)%nat /\
  (db_imm (bg_db bg) <> None \/ NeedsCompaction (db_versions (bg_db bg)) = true -> (to_switch contents' bg' < to_switch contents bg)%nat).
Proof.
  intros Hw Hi Hdid. pose proof (work_weight extend snappy zstd dbname in_scratch reuse_logs ucmp cmp_name max_file_size o E k contents' used mes [] bg' Hw) as Hwt. unfold to_switch, call_did in *. rewrite Hi.
  destruct (db_imm (bg_db bg)) as [imm|].
  - destruct Hdid as [-> _]. split; [lia|]. intros _. lia.
  - destruct (bg_manual bg) as [m|].
    + destruct Hdid as (-> & [Hless|[-> ->]] & _); split; lia.
    + destruct Hdid as (-> & _ & [Hless|(-> & -> & Hn)]); split; try lia. intros [H|H]; [done|congruence].
Qed.

Lemma full_level0 k sp s contents used mes ies floor :
  store_inv E k sp s contents used mes ies floor -> kL0_StopWritesTrigger <= NumLevelFiles 0 (db_versions (s_db s)) -> NeedsCompaction (db_versions (s_db s)) = true.
Proof.
  intros [[Hdb (_ & _ & Hp) _ _ _ _ _ _] _ _ _ _ _ _ _ _ _ _ _ _ _ _] Hn. pose proof Hdb as [_ _ _ _ _ _ _ [_ Hcnt _ _ _ _ _] _ _ _ _]. unfold NeedsCompaction. rewrite Hp; [done|].
  unfold NumLevelFiles, NumFiles, kL0_StopWritesTrigger, kL0_CompactionTrigger in *. specialize (Hcnt 0 ltac:(unfold kNumLevels; lia)). rewrite swrap_small in Hn by lia. lia.
Qed.

Lemma inv_scheduled k sp s contents used mes ies floor :
  store_inv E k sp s contents used mes ies floor -> db_imm (s_db s) <> None \/ NeedsCompaction (db_versions (s_db s)) = true -> bg_scheduled (s_bg s) = true.
Proof. intros [_ Ha _ _ _ _ _ _ _ _ _ _ _ _ _] H. destruct (bg_scheduled (s_bg s)) eqn:Es; [done|]. destruct (Ha Es) as (H1 & _ & H3). destruct H as [H|H]; [done|congruence]. Qed.

Lemma rounds_bg contents' force delay bg' s :
  db_mem (bg_db bg') = db_mem (s_db s) -> rounds contents' force delay (set_bg bg' s) = ((if delay then 1 else 0) + if has_room force s then 0 else S (to_switch contents' bg'))%nat.
Proof. intros E1. unfold rounds, has_room. cbn [set_bg s_bg]. by rewrite E1. Qed.

Lemma room_spec r : forall n k sp s contents used mes ies floor runs force delay,
  store_inv E (k + Z.of_nat r) sp s contents used mes ies floor -> 0 <= k -> (rounds contents force delay s <= r)%nat -> (r < n)%nat ->
  exists s', room_loop n fuel runs force delay OK s = Some (OK, s') /\ store_ok k sp s'.
Proof.
  induction r as [r IH] using lt_wf_ind. intros n k sp s contents used mes ies floor runs force delay Hinv Hk Hr Hn. destruct n as [|n]; [lia|]. cbn [MakeRoomForWrite_loop].
  pose proof (si_work _ _ _ _ _ _ _ _ _ Hinv) as Hw. pose proof Hw as [Hdb _ _ _ _ _ Herr _]. rewrite Herr. cbn [negb].
  destruct (ApproximateMemoryUsage_total (db_mem (s_db s))) as [usage Eu]. assert (has_room force s = negb force && (usage <=? write_buffer_size)) as Hroom by (unfold has_room; by rewrite Eu).
  assert (forall delay', bg_scheduled (s_bg s) = true -> (1 <= r)%nat -> (forall contents' bg', (to_switch contents' bg' <= to_switch contents (s_bg s))%nat ->
      (db_imm (s_db s) <> None \/ NeedsCompaction (db_versions (s_db s)) = true -> (to_switch contents' bg' < to_switch contents (s_bg s))%nat) -> db_mem (bg_db bg') = db_mem (s_db s) -> (rounds contents' force delay' (set_bg bg' s) <= r - 1)%nat) ->
    exists s1 s', waiting fuel s = Some s1 /\ room_loop n fuel runs force delay' OK s1 = Some (OK, s') /\ store_ok k sp s') as Hwait.
  { intros delay' Hsc Hr1 Hless. replace (k + Z.of_nat r) with (k + Z.of_nat (r - 1) + 1) in Hinv by lia.
    destruct (wait_spec E (k + Z.of_nat (r - 1)) sp s contents used mes ies floor fuel Hfit ltac:(lia) Hinv Hsc Hfuel) as (contents' & used' & bg' & floor' & manual & E1 & Hinv' & Hi' & Hm' & Hdid).
    destruct (call_to_switch _ _ _ _ _ _ _ _ (si_work _ _ _ _ _ _ _ _ _ Hinv') Hi' Hdid) as [T1 T2]. destruct (IH (r - 1)%nat ltac:(lia) n k sp _ contents' used' mes [] floor' runs force delay' Hinv' Hk) as (s' & E2 & H2); [by apply Hless|lia|].
    by exists (set_bg bg' s), s'. }
  unfold rounds in Hr. destruct (delay && (kL0_SlowdownWritesTrigger <=? NumLevelFiles 0 (db_versions (s_db s)))) eqn:Ed.
  - apply andb_true_iff in Ed as [-> _]. unfold sleep. destruct (runs && bg_scheduled (s_bg s)) eqn:Es.
    + apply andb_true_iff in Es as [_ Es]. destruct (Hwait false Es ltac:(lia)) as (s1 & s' & -> & E2 & H2); [|by exists s']. intros contents' bg' T1 _ Em. rewrite rounds_bg by done. destruct (has_room force s); lia.
    + cbn [mbind option_bind]. apply (IH (r - 1)%nat ltac:(lia) n k sp s contents used mes ies floor); [eapply inv_less; [|exact Hinv]; lia|done|unfold rounds; lia|lia].
  - rewrite Eu. cbn [mbind option_bind]. rewrite <-Hroom. destruct (has_room force s) eqn:Eroom; [exists s; split; [done|]; exists contents, used, mes, ies, floor; eapply inv_less; [|exact Hinv]; lia|].
    assert (forall contents' bg', (to_switch contents' bg' < to_switch contents (s_bg s))%nat -> db_mem (bg_db bg') = db_mem (s_db s) -> (rounds contents' force delay (set_bg bg' s) <= r - 1)%nat) as Hless by (intros contents' bg' T Em; rewrite rounds_bg by done; rewrite Eroom; lia).
    case_bool_decide as Himm; cbn [negb].
    + destruct (Z.leb_spec kL0_StopWritesTrigger (NumLevelFiles 0 (db_versions (s_db s)))) as [Hl|Hl].
      * pose proof (full_level0 _ _ _ _ _ _ _ _ Hinv Hl) as Hneed. destruct (Hwait delay (inv_scheduled _ _ _ _ _ _ _ _ Hinv (or_intror Hneed)) ltac:(lia)) as (s1 & s' & -> & E2 & H2); [|by exists s']. intros contents' bg' _ T2 Em. apply Hless; [|done]. apply T2. by right.
      * assert (ies = []) as -> by (pose proof Hdb as [_ Hi _ _ _ _ _ _ _ _ _ _]; by rewrite Himm in Hi). replace (k + Z.of_nat r) with (k + Z.of_nat (r - 1) + 1) in Hinv by lia.
        destruct (switch_spec E (k + Z.of_nat (r - 1)) sp s contents used mes floor ltac:(lia) Hinv Himm) as (s1 & -> & Hinv1 & Em1 & _). apply (IH (r - 1)%nat ltac:(lia) n k sp s1 contents used [] mes floor); [done|done| |lia].
        unfold rounds, has_room. rewrite Em1, new_usage. cbn [default negb andb]. rewrite (proj2 (Z.leb_le 4104 _)) by done. lia.
    + destruct (Hwait delay (inv_scheduled _ _ _ _ _ _ _ _ Hinv (or_introl Himm)) ltac:(lia)) as (s1 & s' & -> & E2 & H2); [|by exists s']. intros contents' bg' _ T2 Em. apply Hless; [|done]. apply T2. by left.
Qed.

Lemma MakeRoom_spec n k sp s runs force :
  store_ok (k + (7 * slen E + 4)) sp s -> 0 <= k -> (7 * length E + 5 <= n)%nat ->
  exists s', MakeRoomForWrite extend snappy zstd dbname o in_scratch None ucmp cmp_name max_file_size write_buffer_size n fuel runs force s = Some (OK, s') /\ store_ok k sp s'.
Proof.
  intros (contents & used & mes & ies & floor & Hinv) Hk Hn. pose proof (work_weight _ _ _ _ _ _ _ _ _ _ _ _ _ _ _ _ _ (si_work _ _ _ _ _ _ _ _ _ Hinv)) as Hwt. replace (k + (7 * slen E + 4)) with (k + Z.of_nat (7 * length E + 4)) in Hinv by lia.
  apply (room_spec (7 * length E + 4) n k sp s contents used mes ies floor); [done|done| |lia]. unfold rounds, to_switch. destruct (negb force), (has_room force s), (db_imm (s_db s)), (bg_manual (s_bg s)); lia.
Qed.
End room.

(** ** The write *)

(** Entries that are added to a memtable. *)
Lemma mem_add mem mes es :
  mem_holds ucmp mem mes -> Forall entry_ok (mes ++ es) -> seqs_differ (mes ++ es) -> exists mem', add_all ucmp es mem = Some mem' /\ mem_holds ucmp mem' (mes ++ es) /\ refs_ mem' = refs_ mem.
Proof.
  intros (m0 & E0 & Et) Hok Hd. destruct (add_all_rep ucmp (mes ++ es) Hok Hd) as (t & _ & _ & E1 & _ & _). pose proof E1 as E2. rewrite add_all_app, E0 in E2. cbn [mbind option_bind] in E2.
  rewrite add_all_insert in E2. rewrite add_all_insert, Et. destruct (insert_all _ _ (table_ m0)) as [t'|]; cbn [mbind option_bind] in *; [|discriminate]. injection E2 as _ ->. eexists. split; [reflexivity|]. split; [by eexists|done].
Qed.

(** The promise behind a write: the last entry comes first. *)
Definition sp_write (os : list op) (sp : Spec) : Spec := MkSpec (reverse (entries_of (sp_seq sp + 1) os) ++ sp_hist sp) (sp_seq sp + Z.of_nat (length os)) (sp_snaps sp) (sp_next sp).

Lemma newer_first q os es : (forall e, e ∈ es -> e_seq e <= q) -> older (entries_of (q + 1) os) es.
Proof. intros H a b Ha%entries_of_seq Hb%H _. lia. Qed.

(** The entries of the writes are in front of all that a read finds. *)
Lemma write_reads q os floor hist mes rest :
  seqs_differ (mes ++ rest) -> (forall e, e ∈ mes ++ rest -> e_seq e <= q) -> (forall e, e ∈ hist -> e_seq e <= q) ->
  same_reads floor hist (mes ++ rest) -> same_reads floor (reverse (entries_of (q + 1) os) ++ hist) ((mes ++ entries_of (q + 1) os) ++ rest).
Proof.
  intros Hd Hb Hh Hr key s value Hs. set (new := entries_of (q + 1) os). assert (newest key s ((mes ++ new) ++ rest) = newest key s (new ++ mes ++ rest)) as ->.
  { apply newest_same; [apply seqs_differ_app; [apply entries_of_differ|done|by apply newer_first]|]. intros e _. rewrite !elem_of_app. tauto. }
  assert (older (reverse new) hist) as Hrev by (intros a b Ha Hb'; apply (newer_first q os hist Hh); [by apply elem_of_reverse|done]).
  assert (newest key s (reverse new) = newest key s new) as Enew by (apply newest_same; [apply entries_of_differ|]; intros e _; apply elem_of_reverse).
  rewrite (newest_app key s new (mes ++ rest)), (newest_app key s (reverse new) hist), Enew by (done || by apply newer_first). destruct (newest key s new); [reflexivity|]. by apply Hr.
Qed.

Lemma prefix_entries q os oss n e : e ∈ entries_of q (os ++ concat (take n oss)) -> e ∈ entries_of q (os ++ concat oss).
Proof.
  intros He. assert (os ++ concat oss = (os ++ concat (take n oss)) ++ concat (drop n oss)) as -> by (by rewrite <-app_assoc, <-concat_app, take_drop). rewrite entries_of_app. apply elem_of_app. by left.
Qed.

Lemma SetLastSequence_fields q vs :
  current (VersionSet_SetLastSequence q vs) = current vs /\ vs_next_file_number (VersionSet_SetLastSequence q vs) = vs_next_file_number vs /\ vs_last_sequence (VersionSet_SetLastSequence q vs) = q /\
  NeedsCompaction (VersionSet_SetLastSequence q vs) = NeedsCompaction vs.
Proof. by destruct vs. Qed.

(** The store behind the writes of a group. *)
(** What a write adds to the log: the record of its batch, or nothing. *)
Definition log_adds (c0 : slice) (off0 q : Z) (os : list op) (c : slice) (off : Z) : Prop :=
  c = c0 /\ off = off0 /\ os = [] \/ exists frags b, c = c0 ++ layout extend off0 frags /\ off = end_off off0 frags /\ is_record frags (batch_rep b) /\ frags_fit off0 frags /\ is_batch b (q + 1) os.

Lemma after_write_durable logs mes ies st st' used os c0 off0 c off :
  let e := tc_env (db_table_cache st) in let fname := LogFileName dbname (db_logfile_number st) in let q := vs_last_sequence (db_versions st) in
  durable extend dbname reuse_logs ucmp cmp_name max_file_size logs mes ies st -> reachable ucmp cmp_name extend dbname max_file_size reuse_logs used (db_versions st) e -> is_u64 (db_logfile_number st) ->
  env_files e !! fname = Some c0 -> 0 <= off0 <= kBlockSize -> off0 mod kBlockSize = slen c0 mod kBlockSize -> log_adds c0 off0 q os c off ->
  db_versions st' = VersionSet_SetLastSequence (q + Z.of_nat (length os)) (db_versions st) -> db_logfile_number st' = db_logfile_number st -> db_imm st' = db_imm st -> tc_env (db_table_cache st') = with_files <[fname := c]> e ->
  durable extend dbname reuse_logs ucmp cmp_name max_file_size logs (mes ++ entries_of (q + 1) os) ies st' /\ 0 <= off <= kBlockSize /\ off mod kBlockSize = slen c mod kBlockSize.
Proof.
  intros e fname q Hdu Hr Hu Hfile Hoff Hmod Hadd Ev El Ei Ee. destruct (reachable_state _ _ _ _ _ _ Hname _ _ _ Hr) as (Hf & _). destruct Hadd as [(-> & -> & ->)|(frags & b & -> & -> & Hrec & Hfit & Hb)].
  - cbn [entries_of length] in *. rewrite app_nil_r. split; [|done]. rewrite Z.add_0_r in Ev. destruct Hdu as [D1 D2 D3 D4 D5 D6 Dz D7 D8].
    assert (tc_env (db_table_cache st') = e) as Ee' by (rewrite Ee; unfold with_files; rewrite insert_id by done; by destruct e).
    assert (same_log_numbers (db_versions st) (db_versions st') /\ vs_next_file_number (db_versions st') = vs_next_file_number (db_versions st)) as [(N1 & N2 & N3) N4] by (rewrite Ev; unfold q, same_log_numbers; by destruct (db_versions st)).
    split; rewrite ?N1, ?N2, ?N3, ?N4, ?El, ?Ei, ?Ee'; done.
  - assert (vs_log_number (db_versions st') = vs_log_number (db_versions st) /\ vs_prev_log_number (db_versions st') = vs_prev_log_number (db_versions st) /\ vs_next_file_number (db_versions st') = vs_next_file_number (db_versions st) /\
      vs_last_sequence (db_versions st') = q + Z.of_nat (length os)) as (N1 & N2 & N3 & N4) by (rewrite Ev; by destruct (db_versions st)).
    apply (durable_write extend dbname reuse_logs ucmp cmp_name Hname max_file_size logs mes ies st st' used c0 off0 frags b os); try done; by rewrite Ee.
Qed.

Lemma after_write_inv E k sp s contents used mes ies floor os mem' c0 off0 c off tmp :
  store_inv E k sp s contents used mes ies floor -> s_log s = MkWriter (MkWritableFile c0 []) off0 -> log_adds c0 off0 (sp_seq sp) os c off -> mem_holds ucmp mem' (mes ++ entries_of (sp_seq sp + 1) os) -> refs_ mem' = refs_ (db_mem (s_db s)) -> Forall entry_ok (mes ++ entries_of (sp_seq sp + 1) os) ->
  (forall e, e ∈ entries_of (sp_seq sp + 1) os -> e ∈ E) -> sp_seq sp + Z.of_nat (length os) < kMaxSequenceNumber -> is_batch tmp 0 [] ->
  store_inv E k (sp_write os sp) (after_write (DbWrite.MkDBState (MkWriter (MkWritableFile c []) off) mem' tmp (sp_seq sp + Z.of_nat (length os)) OK) s) contents used (mes ++ entries_of (sp_seq sp + 1) os) ies floor.
Proof.
  intros [[Hdb Hp Hman Hin Hnum Hlg Herr Hopen] Ha Hm Hr [Hseq Hs0] Hb Hh [Hsn Hnx] Hso [Hf Hl] (c1 & off1 & Elog & Hoff & Hmod & Hfile) _ Hlf Hrf [logs Hdu]] Hlog Hadd Hmem Hrefs Hok HinE Hmax Htmp. rewrite Elog in Hlog. injection Hlog as -> ->. set (q := sp_seq sp) in *. set (new := entries_of (q + 1) os) in *.
  pose proof Hdb as [_ Himm (_ & Ok2 & Hd1 & Hd2) (O1 & O2 & O3) Hreach _ _ _ _ _ [Hfaults _] _]. set (q' := q + Z.of_nat (length os)) in *.
  assert (forall es, (forall e, e ∈ es -> e ∈ store_entries contents mes ies s) -> older new es) as Hnew by (intros es Hes; apply newer_first; intros e He; apply Hb, Hes, He).
  assert (older new ies /\ older new (all_entries contents (v_of (s_db s))) /\ older new mes) as (N1 & N2 & N3) by (unfold store_entries in Hnew; split_and!; apply Hnew; intros e He; rewrite !elem_of_app; auto).
  assert (seqs_differ (mes ++ new)) as Hd'. { apply (seqs_differ_perm (new ++ mes)); [apply Permutation_app_comm|]. apply seqs_differ_app; [apply entries_of_differ|done|done]. }
  destruct (SetLastSequence_fields q' (db_versions (s_db s))) as (S1 & S2 & S3 & S4). unfold after_write. cbn [DbWrite.db_log DbWrite.db_mem DbWrite.db_tmp_batch DbWrite.db_last_sequence DbWrite.db_bg_error dest_ wf_contents].
  set (vs' := VersionSet_SetLastSequence q' (db_versions (s_db s))) in *. set (st0 := set_bg_error OK _). set (st1 := set_env _ st0).
  assert (db_ok contents used (mes ++ new) ies st1) as Hdb1.
  { apply (db_ok_other extend snappy zstd dbname in_scratch reuse_logs ucmp cmp_name Hname max_file_size o _ _ _ _ _ (s_logfile s) (db_logfile_number (s_db s)) kLogFile); try done; [|by rewrite Hlf; apply named_log|intros f Hne; by apply lookup_insert_ne].
    change (db_ok contents used (mes ++ new) ies (MkDB mem' (db_imm (s_db s)) vs' (db_table_cache (s_db s)) (db_pending_outputs (s_db s)) (db_logfile_number (s_db s)) OK (db_shutting_down (s_db s)))).
    apply (db_ok_memtables extend snappy zstd dbname in_scratch reuse_logs ucmp cmp_name max_file_size o contents used mes ies (s_db s)); [done|done|done|done| |done|by rewrite S2|].
    - split; [|split; [|done]]; intros a b [H|H]%elem_of_app; [by apply O1|by apply N1|by apply O2|by apply N2].
    - apply reach_sequence; [done|]. assert (kMaxSequenceNumber = 2 ^ 56 - 1) as EM by reflexivity. unfold in_u, q' in *. lia. }
  assert (v_of st1 = v_of (s_db s)) as Ev by exact S1. rewrite Hlf in Hfile.
  destruct (after_write_durable logs mes ies (s_db s) st1 used os c0 off0 c off Hdu Hreach Hlg Hfile Hoff Hmod) as (Hdu' & Hoff' & Hmod'); try done; [by rewrite Hseq|unfold st1, st0; cbn; by rewrite Hseq|unfold st1; cbn; by rewrite Hlf|]. rewrite Hseq in Hdu'. fold q new in Hdu'.
  split; unfold store_entries in *; cbn [s_bg s_log s_tmp_batch s_logfile set_db bg_db bg_snapshots bg_manual sp_write sp_hist sp_seq sp_snaps sp_next]; fold q new; rewrite ?Ev; try done.
  - split; cbn [set_db bg_db bg_manual]; rewrite ?Ev; try done. change (vs_next_file_number (db_versions st1)) with (vs_next_file_number vs'). by rewrite S2.
  - intros Hsc. destruct (Ha Hsc) as (A1 & A2 & A3). split; [done|]. split; [done|]. change (NeedsCompaction vs' = false). by rewrite S4.
  - intros e [He|He]%elem_of_app; [by apply Hm|by apply HinE].
  - apply write_reads; try done. by apply (db_entries_differ extend snappy zstd dbname in_scratch reuse_logs ucmp cmp_name max_file_size o contents used mes ies (s_db s)).
  - split; [exact S3|]. unfold q' in *. lia.
  - intros e. rewrite <-app_assoc, elem_of_app, (elem_of_app new). intros [He|[He|He]]; [|apply entries_of_seq in He; lia|]; (assert (e_seq e <= q); [apply Hb; rewrite elem_of_app; auto|lia]).
  - intros e [He|He]%elem_of_app; [apply elem_of_reverse, entries_of_seq in He; lia|]. pose proof (Hh e He). lia.
  - split; [lia|]. eapply Forall_impl; [exact Hl|]. cbn. intros x Hx. lia.
  - exists c, off. split; [done|]. split; [done|]. split; [done|]. apply lookup_insert_eq.
  - destruct Hrf as [R1 R2]. split; [|done]. change (1 <= refs_ mem'). by rewrite Hrefs.
  - by exists logs.
Qed.

Lemma write_spec E k sp s contents used mes ies floor w rest b os oss :
  store_inv E k sp s contents used mes ies floor -> w_batch w = Some b -> writer_ops w os -> Forall2 writer_ops rest oss -> Forall entry_ok E ->
  (forall e, e ∈ entries_of (sp_seq sp + 1) (os ++ concat oss) -> e ∈ E) -> sp_seq sp + Z.of_nat (length (os ++ concat oss)) < kMaxSequenceNumber -> Z.of_nat (length (os ++ concat oss)) < 2 ^ 31 ->
  exists n ws, (n <= length rest)%nat /\ Write_group ucmp extend OK w rest (write_state s) = Some (OK, S n, ws) /\ store_ok E k (sp_write (os ++ concat (take n oss)) sp) (after_write ws s).
Proof.
  intros Hinv Hwb Hw Hrest HEok HinE Hmax Hcount. pose proof Hinv as [[Hdb _ _ _ _ _ Herr _] _ Hm _ [Hseq Hs0] Hb _ _ _ _ (c & off & Hlog & Hoff & _ & _) Htmp _ _ _]. pose proof Hdb as [Hmem _ (Ok1 & _ & Hd1 & _) _ _ _ _ _ _ _ _ _].
  assert (DbWrite.db_ok (write_state s) c off (sp_seq sp)) as Hws by (split_and!; try done; [apply Hoff|apply Hoff|by apply ok_true]).
  assert (Z.of_nat (length (os ++ concat oss)) = Z.of_nat (length os) + total_ops oss) as El by (unfold total_ops; rewrite length_app; lia).
  assert (forall n, let new := entries_of (sp_seq sp + 1) (os ++ concat (take n oss)) in Forall entry_ok (mes ++ new) /\ exists mem', add_all ucmp new (db_mem (s_db s)) = Some mem' /\ mem_holds ucmp mem' (mes ++ new) /\ refs_ mem' = refs_ (db_mem (s_db s))) as Hadd.
  { intros n new. assert (Forall entry_ok (mes ++ new)) as Hok.
    { apply Forall_app. split; [done|]. apply Forall_forall. intros e He. apply (proj1 (Forall_forall _ _) HEok). apply HinE. by apply (prefix_entries _ _ _ n). }
    split; [done|]. apply mem_add; [done|done|]. apply (seqs_differ_perm (new ++ mes)); [apply Permutation_app_comm|]. apply seqs_differ_app; [apply entries_of_differ|done|].
    apply newer_first. intros e He. apply Hb. unfold store_entries. apply elem_of_app. by left. }
  destruct (Write_group_spec ucmp extend w rest (write_state s) c off (sp_seq sp) b os oss Hws Hwb Hw Hrest) as (n & gb & frags & ws & Hn & E1 & Hgb & Hrec & Hfit & (L1 & L2 & L3 & L4 & L5) & Hmem').
  - lia.
  - assert (kMaxSequenceNumber = 2 ^ 56 - 1) as EM by reflexivity. lia.
  - lia.
  - intros n. destruct (Hadd n) as (_ & mem' & E2 & _). by exists mem'.
  - exists n, ws. split; [done|]. split; [done|]. destruct (Hadd n) as (Hok & mem' & E2 & Hh & Hrf). cbn [write_state DbWrite.db_mem] in Hmem'. rewrite E2 in Hmem'. injection Hmem' as ->.
    destruct ws as [log mem tmp lseq err]. cbn [DbWrite.db_log DbWrite.db_mem DbWrite.db_tmp_batch DbWrite.db_last_sequence DbWrite.db_bg_error] in *. subst log lseq err.
    assert (Z.of_nat (length (os ++ concat (take n oss))) <= Z.of_nat (length (os ++ concat oss))) as Hle by (rewrite El, length_app; pose proof (total_ops_take n oss); unfold total_ops in *; lia).
    eexists contents, used, _, ies, floor. apply (after_write_inv E k sp s contents used mes ies floor (os ++ concat (take n oss)) mem c off _ _ tmp); try done; [right; by exists frags, gb|intros e He; apply HinE; by apply (prefix_entries _ _ _ n)|lia].
Qed.

Lemma sp_write_nil sp : sp_write [] sp = sp.
Proof. destruct sp. unfold sp_write. cbn. by rewrite Z.add_0_r. Qed.

Lemma sp_write_app os1 os2 sp : sp_write (os1 ++ os2) sp = sp_write os2 (sp_write os1 sp).
Proof.
  unfold sp_write. cbn. rewrite entries_of_app, reverse_app, length_app, <-app_assoc. replace (sp_seq sp + 1 + Z.of_nat (length os1)) with (sp_seq sp + Z.of_nat (length os1) + 1) by lia. f_equal. lia.
Qed.

Section operations.
Context (E : list entry) (Hfit : entries_fit extend snappy zstd ucmp o E) (HEok : Forall entry_ok E) (fuel : nat) (Hfuel : slen E <= Z.of_nat fuel) (n : nat) (Hn : (14 * length E + 5 <= n)%nat).

(** The calls that a write takes at most. *)
Definition write_cost : Z := 7 * slen E + 4.

(** The entries of the operations are among [E], and have numbers. *)
Definition fits (sp : Spec) (os : list op) : Prop :=
  (forall e, e ∈ entries_of (sp_seq sp + 1) os -> e ∈ E) /\ sp_seq sp + Z.of_nat (length os) < kMaxSequenceNumber /\ Z.of_nat (length os) < 2 ^ 31.

Abbreviation write := (Store_Write extend snappy zstd dbname o in_scratch None ucmp cmp_name max_file_size write_buffer_size).
Abbreviation serve := (Store_serve extend snappy zstd dbname o in_scratch None ucmp cmp_name max_file_size write_buffer_size).

(** A writer without a batch. *)
Lemma write_none k sp s : store_ok E k sp s -> exists ws, Write_group ucmp extend OK (MkDBWriter None false) [] (write_state s) = Some (OK, 1%nat, ws) /\ store_ok E k sp (after_write ws s).
Proof.
  intros (contents & used & mes & ies & floor & Hinv). exists (write_state s). split; [done|]. pose proof Hinv as [[Hdb _ _ _ _ _ Herr _] _ _ _ [Hseq Hs0] _ _ _ _ _ (c & off & Hlog & Hoff & _ & _) Htmp _ _ _]. pose proof Hdb as [Hmem _ (Ok1 & _ & _ & _) _ _ _ _ _ _ _ _ _].
  pose proof (after_write_inv E k sp s contents used mes ies floor [] (db_mem (s_db s)) c off c off (s_tmp_batch s) Hinv) as H. cbn [entries_of length] in H. rewrite app_nil_r, sp_write_nil, Z.add_0_r in H.
  assert (write_state s = DbWrite.MkDBState (MkWriter (MkWritableFile c []) off) (db_mem (s_db s)) (s_tmp_batch s) (sp_seq sp) OK) as -> by (unfold write_state; rewrite Hlog, Hseq; apply ok_true in Herr; by rewrite Herr).
  eexists contents, used, mes, ies, floor. apply H; try done; [by left| |lia]. intros e He. by apply elem_of_nil in He.
Qed.

Lemma Store_Write_spec k sp s runs w rest os oss :
  store_ok E (k + write_cost) sp s -> 0 <= k -> writer_ops w os -> Forall2 writer_ops rest oss -> fits sp (os ++ concat oss) ->
  exists served s', (served <= length rest)%nat /\ write n fuel runs w rest s = Some (OK, S served, s') /\ store_ok E k (sp_write (os ++ concat (take served oss)) sp) s'.
Proof.
  intros Hs Hk Hw Hrest (HinE & Hmax & Hcount). destruct (MakeRoom_spec E Hfit fuel Hfuel n k sp s runs (bool_decide (w_batch w = None)) Hs Hk ltac:(lia)) as (s1 & E1 & H1). unfold Store_Write. rewrite E1. cbn [mbind option_bind].
  destruct (w_batch w) as [b|] eqn:Eb.
  - destruct H1 as (contents & used & mes & ies & floor & Hinv). destruct (write_spec E k sp s1 contents used mes ies floor w rest b os oss Hinv Eb Hw Hrest HEok HinE Hmax Hcount) as (served & ws & Hle & E2 & H2).
    exists served, (after_write ws s1). rewrite E2. by split_and!.
  - unfold writer_ops in Hw. rewrite Eb in Hw. subst os. destruct (write_none k sp s1 H1) as (ws & E2 & H2). exists 0%nat, (after_write ws s1). split; [lia|]. split; [|cbn [take concat app]; by rewrite sp_write_nil].
    unfold Write_group in *. rewrite Eb. cbn [w_batch] in E2. rewrite ok_OK in *. injection E2 as <-. done.
Qed.

Lemma fits_rest sp os1 os2 : fits sp (os1 ++ os2) -> fits (sp_write os1 sp) os2.
Proof.
  intros (H1 & H2 & H3). rewrite length_app in H2, H3. split_and!; cbn [sp_write sp_seq]; [|lia|lia]. intros e He. apply H1. rewrite entries_of_app. apply elem_of_app. right. by replace (sp_seq sp + 1 + Z.of_nat (length os1)) with (sp_seq sp + Z.of_nat (length os1) + 1) by lia.
Qed.

Lemma Store_serve_spec f : forall k sp s runs queue oss,
  (length queue < f)%nat -> store_ok E (k + Z.of_nat (length queue) * write_cost) sp s -> 0 <= k -> Forall2 writer_ops queue oss -> fits sp (concat oss) ->
  exists s', serve f n fuel runs queue s = Some (repeat OK (length queue), s') /\ store_ok E k (sp_write (concat oss) sp) s'.
Proof.
  assert (0 <= write_cost) as Hc by (unfold write_cost; lia). induction f as [|f IH]; intros k sp s runs queue oss Hf Hs Hk Hq Hfits; [lia|]. destruct Hq as [|w os queue oss Hw Hq].
  { exists s. split; [done|]. cbn [concat length] in *. rewrite sp_write_nil. by rewrite Z.add_0_r in Hs. }
  cbn [Store_serve]. cbn [concat length] in *. replace (k + Z.of_nat (S (length queue)) * write_cost) with (k + Z.of_nat (length queue) * write_cost + write_cost) in Hs by lia.
  destruct (Store_Write_spec _ sp s runs w queue os oss Hs ltac:(nia) Hw Hq Hfits) as (served & s1 & Hle & -> & H1). cbn [mbind option_bind drop].
  assert (os ++ concat oss = (os ++ concat (take served oss)) ++ concat (drop served oss)) as Es by (by rewrite <-app_assoc, <-concat_app, take_drop). rewrite Es in Hfits |- *.
  destruct (IH k (sp_write (os ++ concat (take served oss)) sp) s1 runs (drop served queue) (drop served oss) ltac:(rewrite length_drop; lia)) as (s' & E2 & H2); [|done|by apply Forall2_drop|by apply fits_rest|].
  - destruct H1 as (contents & used & mes & ies & floor & Hinv). exists contents, used, mes, ies, floor. eapply inv_less; [|exact Hinv]. rewrite length_drop. nia.
  - exists s'. rewrite E2. cbn [mbind option_bind]. split; [|by rewrite sp_write_app]. f_equal. f_equal. rewrite <-(repeat_app OK (S served)). f_equal. rewrite length_drop. lia.
Qed.
End operations.
End store.
