(* ===== verification/Recovery.v ===== *)
(** Recovery: opening a database, [DBImpl::RecoverLogFile], [DBImpl::Recover], [DB::Open] and [DestroyDB] of db/db_impl.cc.

    The options are as [SanitizeOptions] leaves them, with a logger that is given, so that no LOG file is made.  The lock of the
    database is free.  The calls of the environment fail as it decides, but a log that could be opened is read without errors. *)

From stdpp Require Import gmap sorting.
From Stdlib Require Import Strings.Byte Strings.String Floats.SpecFloat.
From S2P Require Import Prelude Coding Crc32c Comparator DbFormat Status Env FileSystem Filename VersionEdit FilterPolicy FilterBlock SkipList MemTable Arena WriteBatch Format Iterator TwoLevelIterator Version Block Merger DbIter TableBuilder Table TableCache VersionSet Score Compaction Log DbWrite Manifest Flush InternalIterator DbImpl Snapshot CompactionVersion CompactionWork CompactionLoop CompactionResults Background Schedule DbRead ReadStats Store.

(** The database while it is opened: [versions_], [table_cache_] with the environment, [*edit], [*save_manifest],
    [*max_sequence], and [mem_], [logfile_number_] and [log_] once there is a log. *)
Record Recovering := MkRecovering {
  rc_versions : VersionSet;
  rc_table_cache : TableCache;
  rc_edit : VersionEdit;
  rc_save_manifest : bool;
  rc_max_sequence : Z;
  rc_log : option (MemTable * Z * Writer);
}.

Definition set_rc_versions (vs : VersionSet) (r : Recovering) : Recovering :=
  MkRecovering vs (rc_table_cache r) (rc_edit r) (rc_save_manifest r) (rc_max_sequence r) (rc_log r).
Definition set_rc_env (e : EnvState) (r : Recovering) : Recovering :=
  MkRecovering (rc_versions r) (with_env (fun _ => e) (rc_table_cache r)) (rc_edit r) (rc_save_manifest r) (rc_max_sequence r) (rc_log r).
Definition set_rc_edit (edit : VersionEdit) (r : Recovering) : Recovering :=
  MkRecovering (rc_versions r) (rc_table_cache r) edit (rc_save_manifest r) (rc_max_sequence r) (rc_log r).
Definition set_rc_log (log : MemTable * Z * Writer) (r : Recovering) : Recovering :=
  MkRecovering (rc_versions r) (rc_table_cache r) (rc_edit r) (rc_save_manifest r) (rc_max_sequence r) (Some log).

Abbreviation rc_env r := (tc_env (rc_table_cache r)).

(** What the loop over the records of a log changes: [*edit], [versions_], [table_cache_] and [*save_manifest]. *)
Abbreviation flush_vars := (VersionEdit * VersionSet * TableCache * bool)%type.

Section Recovery.
Context (extend : Z -> slice -> Z) (snappy : option SnappyLib) (zstd : option ZstdLib).
Context (dbname : slice) (options : Options) (in_scratch : bool) (bcache : option (slice -> option Block)).
Context (ucmp : Comparator) (cmp_name : slice) (max_file_size write_buffer_size : Z).
Context (create_if_missing error_if_exists paranoid_checks reuse_logs : bool).

(** * [DBImpl::RecoverLogFile] *)

Definition mem_full (mem : MemTable) : option bool := usage ← ApproximateMemoryUsage mem; Some (write_buffer_size <? usage).

Definition flush_recovered (mem : MemTable) (f : flush_vars) : option (Status * flush_vars) :=
  let '(edit, vs, tc, _) := f in
  '(s, edit, vs, tc) ← WriteLevel0Table extend snappy zstd dbname options in_scratch bcache ucmp max_file_size mem edit None vs tc;
  Some (s, (edit, vs, tc, true)).

(** The log is written on, if the environment can append to it. *)
Definition reuse_log (log_number : Z) (mem : option MemTable) (r : Recovering) : option MemTable * Recovering :=
  let fname := LogFileName dbname log_number in
  let '(s, lfile_size, e) := GetFileSize fname (rc_env r) in
  if negb (ok s) then (mem, set_rc_env e r)
  else
    let '(_, logfile, e) := NewAppendableFile fname e in
    match logfile with
    | None => (mem, set_rc_env e r)
    | Some logfile => (None, set_rc_log (default (MemTable_Ref NewMemTable) mem, log_number, NewWriter_at logfile lfile_size) (set_rc_env e r))
    end.

Definition Recover_RecoverLogFile (log_number : Z) (last_log : bool) (r : Recovering) : option (Status * Recovering) :=
  let '(status, contents, e) := NewSequentialFile (LogFileName dbname log_number) (rc_env r) in
  let r := set_rc_env e r in
  match contents with
  | None => Some (MaybeIgnoreError paranoid_checks status, r)
  | Some contents =>
      rs ← DbWrite.RecoverLogFile ucmp extend paranoid_checks mem_full flush_recovered contents (rc_max_sequence r)
             (rc_edit r, rc_versions r, rc_table_cache r, rc_save_manifest r);
      let status := rs_status rs in
      let '(edit, vs, tc, save_manifest) := rs_flushed rs in
      let r := MkRecovering vs tc edit save_manifest (rs_max_sequence rs) (rc_log r) in
      let '(mem, r) := if ok status && reuse_logs && last_log && (rs_compactions rs =? 0) then reuse_log log_number (rs_mem rs) r else (rs_mem rs, r) in
      match mem with
      | Some mem =>
          if ok status then
            '(status, f) ← flush_recovered mem (rc_edit r, rc_versions r, rc_table_cache r, rc_save_manifest r);
            let '(edit, vs, tc, save_manifest) := f in Some (status, MkRecovering vs tc edit save_manifest (rc_max_sequence r) (rc_log r))
          else Some (status, r)
      | None => Some (status, r)
      end
  end.

(** * [DBImpl::Recover] *)

(** The numbers of the files that are not found among the names, and the logs among them. *)
Definition scan_file (min_log prev_log : Z) (found : gset Z * list Z) (filename : slice) : gset Z * list Z :=
  let '(expected, logs) := found in
  match ParseFileName filename with
  | Some (number, type) => (expected ∖ {[number]}, if bool_decide (type = kLogFile) && ((min_log <=? number) || (number =? prev_log)) then logs ++ [number] else logs)
  | None => (expected, logs)
  end.

Fixpoint recover_logs (logs : list Z) (r : Recovering) : option (Status * Recovering) :=
  match logs with
  | [] => Some (OK, r)
  | log :: rest =>
      '(s, r) ← Recover_RecoverLogFile log (bool_decide (rest = [])) r;
      if negb (ok s) then Some (s, r) else recover_logs rest (set_rc_versions (MarkFileNumberUsed log (rc_versions r)) r)
  end.

(** The files that the descriptor names are there, and the logs are replaying. *)
Definition recover_files (r : Recovering) : option (Status * Recovering) :=
  let vs := rc_versions r in
  let '(s, filenames, e) := GetChildren dbname (rc_env r) in
  let r := set_rc_env e r in
  if negb (ok s) then Some (s, r)
  else
    let '(expected, logs) := foldl (scan_file (vs_log_number vs) (vs_prev_log_number vs)) (AddLiveFiles vs ∅, []) filenames in
    match merge_sort Z.le (elements expected) with
    | number :: _ =>
        Some (Corruption (snprintf 50 (decimal (i32 (Z.of_nat (size expected))) ++ lit " missing files; e.g.")) (TableFileName dbname number), r)
    | [] =>
        '(s, r) ← recover_logs (merge_sort Z.le logs) r;
        if negb (ok s) then Some (s, r)
        else if vs_last_sequence (rc_versions r) <? rc_max_sequence r then Some (OK, set_rc_versions (VersionSet_SetLastSequence (rc_max_sequence r) (rc_versions r)) r)
        else Some (OK, r)
    end.

Definition DB_Recover (e : EnvState) : option (Status * Recovering) :=
  let r := MkRecovering NewVersionSet (MkTableCache e ∅ 0) NewVersionEdit false 0 None in
  let '(_, e) := CreateDir dbname e in
  let '(s, e) := LockFile (LockFileName dbname) e in
  if negb (ok s) then Some (s, set_rc_env e r)
  else
    let '(s, e) :=
      if negb (FileExists (CurrentFileName dbname) e) then
        if create_if_missing then NewDB cmp_name extend dbname e
        else (InvalidArgument dbname (lit "does not exist (create_if_missing is false)"), e)
      else if error_if_exists then (InvalidArgument dbname (lit "exists (error_if_exists is true)"), e)
      else (OK, e) in
    if negb (ok s) then Some (s, set_rc_env e r)
    else
      '(s, save_manifest, vs, e) ← VersionSet.Recover ucmp cmp_name extend dbname max_file_size reuse_logs NewVersionSet e;
      let r := MkRecovering vs (MkTableCache e ∅ 0) NewVersionEdit save_manifest 0 None in
      if negb (ok s) then Some (s, r) else recover_files r.

(** * [DB::Open] *)

(** A new log and its memtable, when no log is written on. *)
Definition open_log (r : Recovering) : Status * Recovering :=
  match rc_log r with
  | Some _ => (OK, r)
  | None =>
      let '(new_log_number, vs) := NewFileNumber (rc_versions r) in
      let '(s, lfile, e) := NewWritableFile (LogFileName dbname new_log_number) (rc_env r) in
      let r := set_rc_env e (set_rc_versions vs r) in
      match lfile with
      | None => (s, r)
      | Some lfile => (s, set_rc_log (MemTable_Ref NewMemTable, new_log_number, NewWriter lfile) (set_rc_edit (VersionEdit.SetLogNumber new_log_number (rc_edit r)) r))
      end
  end.

Definition save_recovered (log_number : Z) (r : Recovering) : Status * Recovering :=
  if rc_save_manifest r then
    let edit := VersionEdit.SetLogNumber log_number (SetPrevLogNumber 0 (rc_edit r)) in
    let '(s, edit, vs, e) := LogAndApply ucmp cmp_name extend dbname edit (rc_versions r) (rc_env r) in
    (s, set_rc_edit edit (set_rc_env e (set_rc_versions vs r)))
  else (OK, r).

(** The status, [*dbptr], and the files when the database is not opened. *)
Definition Open (e : EnvState) : option (Status * option Store * EnvState) :=
  '(s, r) ← DB_Recover e;
  let '(s, r) := if ok s then open_log r else (s, r) in
  match (if ok s then rc_log r else None) with
  | None => Some (s, None, rc_env r)
  | Some (mem, log_number, log) =>
      let '(s, r) := save_recovered log_number r in
      if negb (ok s) then Some (s, None, rc_env r)
      else
        let st := RemoveObsoleteFiles dbname (MkDB mem None (rc_versions r) (rc_table_cache r) ∅ log_number OK false) in
        let bg := MaybeScheduleCompaction (MkBackground st NewSnapshotList None false) in
        Some (s, Some (MkStore bg (LogFileName dbname log_number) log NewWriteBatch 0), tc_env (db_table_cache st))
  end.

(** * [DestroyDB] *)

Definition destroy_file (acc : Status * EnvState) (filename : slice) : Status * EnvState :=
  let '(result, e) := acc in
  match ParseFileName filename with
  | Some (_, type) =>
      if bool_decide (type = kDBLockFile) then (result, e)
      else let '(del, e) := FileSystem.RemoveFile (dbname ++ lit "/" ++ filename) e in (if ok result && negb (ok del) then del else result, e)
  | None => (result, e)
  end.

Definition DestroyDB (e : EnvState) : Status * EnvState :=
  let '(result, filenames, e) := GetChildren dbname e in
  if negb (ok result) then (OK, e)
  else
    let '(result, e) := LockFile (LockFileName dbname) e in
    if ok result then
      let '(result, e) := foldl destroy_file (result, e) filenames in
      let '(_, e) := UnlockFile (LockFileName dbname) e in
      let '(_, e) := FileSystem.RemoveFile (LockFileName dbname) e in
      let '(_, e) := RemoveDir dbname e in
      (result, e)
    else (result, e).
End Recovery.

(** * Replaying a log *)

Section replay.
Context (extend : Z -> slice -> Z) `{!Checksum extend} (ucmp : Comparator) `{!ComparatorLaws any_key ucmp} `{!SeparatorSame any_key ucmp}.
Context {F : Type} (paranoid : bool) (full : MemTable -> option bool) (write : MemTable -> F -> option (Status * F)).

(** The entries of all logs, in the order in which they were written, and what holds of the variables when some of them are in
    tables and some of the memtables that were written had none. *)
Context (all : list entry) (written : list entry -> Z -> F -> Prop).
Context (Hok : Forall entry_ok all) (Hdiffer : seqs_differ all).
Context (Hfull : forall m es, mem_holds ucmp m es -> exists b, full m = Some b /\ (b = true -> es <> [])).
Context (Hwrite : forall fl es rest m c f, all = fl ++ es ++ rest -> mem_holds ucmp m es -> es <> [] -> written fl c f ->
  exists f', write m f = Some (OK, f') /\ written (fl ++ es) c f').

(** The memtable of the loop has the entries behind those in tables. *)
Definition replaying (c : Z) (st : RecoverState F) (fl mes : list entry) : Prop :=
  written fl c (rs_flushed st) /\ mem_holds ucmp (current_mem (rs_mem st)) mes /\ 1 <= refs_ (current_mem (rs_mem st)) /\ (rs_mem st = None -> mes = []) /\ rs_status st = OK.

Lemma mem_holds_new : mem_holds ucmp (MemTable_Ref NewMemTable) [].
Proof. by exists NewMemTable. Qed.

Lemma segment_ok pre es rest : all = pre ++ es ++ rest -> Forall entry_ok es /\ seqs_differ es.
Proof.
  intros ->. apply Forall_app in Hok as [_ [H _]%Forall_app]. split; [done|]. apply (seqs_differ_sublist _ (pre ++ es ++ rest)); [|done]. apply sublist_inserts_l, sublist_inserts_r. done.
Qed.

Lemma batch_records_inv q gs recs :
  batch_records q gs recs ->
  match recs with
  | [] => gs = []
  | rec :: recs => exists b g gs', gs = g :: gs' /\ rec = batch_rep b /\ is_batch b (q + 1) g /\ batch_records (q + Z.of_nat (length g)) gs' recs
  end.
Proof. intros [|q' b g gs' recs' H1 H2]; [done|]. by exists b, g, gs'. Qed.

(** One record. *)
Lemma replay_step c fuel reader r' st b q g fl mes rest :
  ReadRecord extend reader = Some (Some (batch_rep b), r') -> same_config reader r' -> is_batch b (q + 1) g -> rs_max_sequence st <= q -> 0 <= q -> q + Z.of_nat (length g) + 1 < 2 ^ 64 ->
  all = fl ++ (mes ++ entries_of (q + 1) g) ++ rest -> replaying c st fl mes ->
  exists st1 fl1 mes1, RecoverLogFile_loop ucmp extend paranoid full write (S fuel) reader st = RecoverLogFile_loop ucmp extend paranoid full write fuel r' st1 /\
    replaying c st1 fl1 mes1 /\ fl1 ++ mes1 = fl ++ mes ++ entries_of (q + 1) g /\ rs_max_sequence st1 = q + Z.of_nat (length g) /\
    rs_compactions st <= rs_compactions st1 /\ (exists x, fl1 = fl ++ x) /\
    (if decide (rs_compactions st1 = rs_compactions st) then fl1 = fl /\ rs_flushed st1 = rs_flushed st /\ rs_mem st1 <> None else fl1 <> []).
Proof.
  intros E Hc Hb Hmax H0 Hlen Hall (R1 & R2 & R3 & R4 & R5). set (es := entries_of (q + 1) g) in *. destruct (segment_ok _ _ _ Hall) as [Hok1 Hd1].
  destruct (mem_add ucmp (current_mem (rs_mem st)) mes es R2 Hok1 Hd1) as (m1 & Em1 & Hm1 & Hr1). destruct (Hfull m1 _ Hm1) as (is_full & Ef & Hne).
  rewrite (Recover_step _ _ _ _ _ fuel reader r' st b q g m1 is_full) by done. cbv zeta. destruct is_full.
  - destruct (Hwrite fl (mes ++ es) _ m1 c (rs_flushed st) Hall Hm1 (Hne eq_refl) R1) as (f' & -> & Hf'). cbn [mbind option_bind]. rewrite ok_OK. cbn [negb].
    eexists _, (fl ++ mes ++ es), []. split; [done|]. split; [split_and!; try done; apply mem_holds_new|]. rewrite app_nil_r. cbn. split_and!; try done; [lia|by eexists|]. rewrite decide_False by lia. intros [_ Ee]%app_eq_nil. by apply Hne.
  - eexists _, fl, (mes ++ es). split; [done|]. split; [split_and!; try done; cbn; lia|]. cbn. split_and!; try done; [exists []; by rewrite app_nil_r|]. by rewrite decide_True.
Qed.

(** Nothing follows the records of a log, or a part of one more record. *)
Definition torn_tail (off : Z) (fragss : list (list (RecordType * slice))) (more : list (RecordType * slice)) (s : slice) : Prop :=
  more = [] \/ (exists rec, is_record more rec) /\ s <> layout extend off (concat fragss ++ more).

Lemma replay c fuel fragss recs gs more q reader off s st fl mes rest :
  Forall2 is_record fragss recs -> batch_records q gs recs -> rd_at reader off s ->
  s `prefix_of` layout extend off (concat fragss ++ more) -> torn_tail off fragss more s -> frags_fit off (concat fragss ++ more) -> (length s < fuel)%nat ->
  rs_max_sequence st <= q -> 0 <= q -> q + total_ops gs + 1 < 2 ^ 64 -> all = fl ++ mes ++ entries_of (q + 1) (concat gs) ++ rest -> replaying c st fl mes ->
  exists k st' fl' mes', RecoverLogFile_loop ucmp extend paranoid full write fuel reader st = Some st' /\ replaying c st' fl' mes' /\
    fl' ++ mes' = fl ++ mes ++ entries_of (q + 1) (concat (take k gs)) /\
    rs_max_sequence st' = (if decide (k = 0%nat) then rs_max_sequence st else q + total_ops (take k gs)) /\
    rs_compactions st <= rs_compactions st' /\ (if decide (rs_compactions st' = rs_compactions st) then fl' = fl /\ rs_flushed st' = rs_flushed st /\ (k <> 0%nat -> rs_mem st' <> None) else fl' <> []) /\ (exists x, fl' = fl ++ x) /\
    (k = 0%nat -> rs_mem st' = rs_mem st /\ rs_compactions st' = rs_compactions st) /\ (layout extend off (concat fragss) `prefix_of` s -> k = length gs).
Proof.
  intros Hrecs. revert fuel gs q reader off s st fl mes. induction Hrecs as [|frags rec fragss recs Hrec _ IH];
    intros fuel gs q reader off s st fl mes Hb Hr Hp Htorn Hfit Hfuel Hmax H0 Hlen Hall Hre; (destruct fuel as [|fuel]; [lia|]);
    apply batch_records_inv in Hb; [subst gs|destruct Hb as (b & g & gs' & -> & -> & Hbatch & Hb')].
  - cbn [concat app] in Hp, Hfit. assert (exists r', ReadRecord extend reader = Some (None, r') /\ same_config reader r') as (r' & E & Hc).
    { destruct Htorn as [->|[[rec Hrec] Hne]]; [apply prefix_nil_inv in Hp; subst s; by apply (ReadRecord_end extend reader off)|]. cbn [concat app] in Hne. rewrite <-(app_nil_r more) in Hp, Hfit.
      destruct (ReadRecord_layout extend more [] _ reader off s Hrec Hr Hp Hfit) as [(s' & r' & _ & Es & Hp' & _)|(r' & E & _ & Hc)]; [|by exists r']. apply prefix_nil_inv in Hp'. subst s'. by rewrite app_nil_r in Es. }
    rewrite (Recover_end _ _ _ _ _ _ _ _ _ E Hc). eexists 0%nat, _, fl, mes. split; [done|]. cbn. rewrite app_nil_r, !decide_True by done. destruct Hre as (R1 & R2 & R3 & R4 & R5). split_and!; try done. exists []. by rewrite app_nil_r.
  - cbn [concat] in Hp, Hfit, Hall. rewrite <-app_assoc in Hp, Hfit. rewrite entries_of_app in Hall. set (es := entries_of (q + 1) g) in *.
    assert (Htot : total_ops (g :: gs') = Z.of_nat (length g) + total_ops gs') by (unfold total_ops; cbn [concat]; rewrite length_app; lia).
    assert (Hpos : 0 <= total_ops gs') by (unfold total_ops; lia).
    destruct (ReadRecord_layout extend frags (concat fragss ++ more) _ reader off s Hrec Hr Hp Hfit) as [(s' & r' & E & Es & Hp' & Hr' & Hc)|(r' & E & Hlt & Hc)].
    2: { rewrite (Recover_end _ _ _ _ _ _ _ _ _ E Hc). eexists 0%nat, _, fl, mes. split; [done|]. cbn. rewrite app_nil_r, !decide_True by done. destruct Hre as (R1 & R2 & R3 & R4 & R5). split_and!; try done; [exists []; by rewrite app_nil_r|].
         rewrite layout_app. intros Hle%prefix_length. rewrite length_app in Hle. lia. }
    assert (all = fl ++ (mes ++ es) ++ entries_of (q + Z.of_nat (length g) + 1) (concat gs') ++ rest) as Hall'.
    { rewrite Hall, <-!app_assoc. do 4 f_equal. f_equal. lia. }
    pose proof (is_record_layout_pos extend off _ _ Hrec) as Hlp. apply frags_fit_app in Hfit as [_ Hfit'].
    destruct (replay_step c fuel reader r' st b q g fl mes _ E Hc Hbatch Hmax H0 ltac:(lia) Hall' Hre) as (st1 & fl1 & mes1 & -> & Hre1 & Efl & Em & Hc1 & [x1 Hx1] & Hc2).
    destruct (IH fuel gs' (q + Z.of_nat (length g)) r' (end_off off frags) s' st1 fl1 mes1) as (k & st' & fl' & mes' & -> & Hre' & E3 & E4 & E5 & E6 & [x2 Hx2] & E7 & E8); try done; try lia.
    { destruct Htorn as [|[Hm Hne]]; [by left|right]. split; [done|]. intros ->. apply Hne. cbn [concat]. by rewrite Es, <-app_assoc, (layout_app extend off frags). }
    { subst s. rewrite length_app in Hfuel. lia. }
    { rewrite Hall', !app_assoc. do 2 f_equal. by rewrite Efl, !app_assoc. }
    exists (S k), st', fl', mes'. cbn [take]. split; [done|]. split; [done|]. split.
    { cbn [concat]. rewrite entries_of_app, E3, (app_assoc fl1), Efl, <-!app_assoc. do 4 f_equal. lia. }
    split. { rewrite (decide_False (P := S k = 0%nat)) by lia. assert (total_ops (g :: take k gs') = Z.of_nat (length g) + total_ops (take k gs')) as -> by (unfold total_ops; cbn [concat]; rewrite length_app; lia).
      rewrite E4, Em. destruct (decide (k = 0%nat)) as [->|]; [|lia]. unfold total_ops. rewrite take_0. cbn [concat length]. lia. }
    split; [lia|]. split.
    { destruct (decide (rs_compactions st' = rs_compactions st)) as [Hcc|Hcc]; [rewrite decide_True in Hc2 by lia; rewrite decide_True in E6 by lia; destruct Hc2 as (<- & <- & Hm); destruct E6 as (-> & -> & Hm'); split_and!; try done; intros _; destruct (decide (k = 0%nat)) as [Hk|Hk]; [by rewrite (proj1 (E7 Hk))|by apply Hm']|].
      destruct (decide (rs_compactions st' = rs_compactions st1)) as [He|He]; [|done]. rewrite decide_False in Hc2 by congruence. destruct E6 as [-> _]. done. }
    split; [exists (x1 ++ x2); by rewrite Hx2, Hx1, app_assoc|]. split; [done|].
    cbn [concat]. rewrite layout_app, Es. intros E9%prefix_app_inv. simpl. by rewrite E8.
Qed.
End replay.

(** What a log has when the process ended: its records, and if it is [torn] a part of one more. *)
Definition log_left (extend : Z -> slice -> Z) (dbname : slice) (torn : bool) (e : EnvState) (n q : Z) (es : list entry) : Prop :=
  exists fragss recs gs more s, env_files e !! LogFileName dbname n = Some s /\ Forall2 is_record fragss recs /\ frags_fit 0 (concat fragss ++ more) /\
    batch_records q gs recs /\ es = entries_of (q + 1) (concat gs) /\ layout extend 0 (concat fragss) `prefix_of` s /\ s `prefix_of` layout extend 0 (concat fragss ++ more) /\
    torn_tail extend 0 fragss more s /\ (torn = false -> more = []).

Lemma log_holds_left extend dbname torn e n q es : log_holds extend dbname e n q es -> log_left extend dbname torn e n q es.
Proof.
  intros (fragss & recs & gs & H1 & H2 & H3 & H4 & H5). exists fragss, recs, gs, [], (layout extend 0 (concat fragss)). rewrite app_nil_r. split_and!; try done. by left.
Qed.

Lemma log_left_intact extend dbname e n q es : log_left extend dbname false e n q es -> log_holds extend dbname e n q es.
Proof.
  intros (fragss & recs & gs & more & s & H1 & H2 & H3 & H4 & H5 & H6 & H7 & _ & H8). rewrite (H8 eq_refl), app_nil_r in *. exists fragss, recs, gs. split_and!; try done. rewrite H1. f_equal. by apply (anti_symm prefix).
Qed.

Lemma log_left_same extend dbname torn e e' n q es : env_files e' !! LogFileName dbname n = env_files e !! LogFileName dbname n -> log_left extend dbname torn e n q es -> log_left extend dbname torn e' n q es.
Proof. intros He. unfold log_left. by rewrite He. Qed.

(** * The tables that are written *)

Section tables.
Context (extend : Z -> slice -> Z) `{!Checksum extend} (snappy : option SnappyLib) (zstd : option ZstdLib).
Context (dbname : slice) (in_scratch reuse_logs : bool).
Context (ucmp : Comparator) `{!ComparatorLaws any_key ucmp} `{!SeparatorSame any_key ucmp} (cmp_name : slice) (Hname : is_u32 (slen cmp_name)) (max_file_size : Z).
Context (o : Options) (Ho : opt_comparator o = InternalKeyComparator ucmp).

Abbreviation tables_ok := (tables_ok extend snappy zstd dbname in_scratch ucmp o).
Abbreviation reachable := (reachable ucmp cmp_name extend dbname max_file_size reuse_logs).
Abbreviation logs_same := (logs_same extend dbname reuse_logs ucmp cmp_name max_file_size).
Abbreviation flush_piece := (flush_recovered extend snappy zstd dbname o in_scratch None ucmp max_file_size).

(** The version with one more file on level 0. *)
Definition add_level0 (f : FileMetaData) (v : Version) : Version :=
  MkVersion (<[0%nat := merge_files ucmp (level_files v 0) [f]]> (files_ v)) (file_to_compact_ v) (file_to_compact_level_ v) (compaction_score_ v) (compaction_level_ v).

Lemma level_files_add f v l : files_ v <> [] -> 0 <= l -> level_files (add_level0 f v) l = if decide (l = 0) then merge_files ucmp (level_files v l) [f] else level_files v l.
Proof.
  intros Hne Hl. unfold level_files at 1. cbn [add_level0 files_]. destruct (decide (l = 0)) as [->|Hn]; [by destruct (files_ v)|].
  unfold level_files. destruct (files_ v) as [|fs fss]; [done|]. destruct (Z.to_nat l) as [|i] eqn:E; [lia|done].
Qed.

(** The version set [vs0] and the files [e0] at the start, with its tables, the entries [fl] that were written to tables, and
    how many memtables had none: the files of the edit go with those of the current version. *)
Context (used : list (Z * Z)) (vs0 : VersionSet) (e0 : EnvState) (contents0 : FileMetaData -> list entry) (bound : Z).

Abbreviation v0 := (current vs0).

Record written_tables (fl : list entry) (c : Z) (edit : VersionEdit) (vs : VersionSet) (tc : TableCache) (contents : FileMetaData -> list entry) (v : Version) : Prop := {
  wt_tables : tables_ok contents v (vs_next_file_number vs) tc;
  wt_files : files_ v <> [];
  wt_reach : reachable used vs (tc_env tc);
  wt_vs : current vs = v0 /\ same_log_numbers vs0 vs /\ vs_descriptor_log vs = vs_descriptor_log vs0;
  wt_next : vs_next_file_number vs0 <= vs_next_file_number vs <= bound + slen fl + c;
  wt_levels l : 0 < l < kNumLevels -> level_files v l = level_files v0 l;
  wt_level0 : level_files v 0 ≡ₚ map (fun nf => applied_file nf.2) (new_files_ edit) ++ level_files v0 0;
  wt_edit : edit_fits cmp_name edit /\ deleted_files_ edit = [] /\ NoDup (map (fun nf => number nf.2) (new_files_ edit)) /\
    Forall (fun nf => nf.1 = 0 /\ VersionSet.has_key nf.2 /\ vs_next_file_number vs0 <= number nf.2 < vs_next_file_number vs) (new_files_ edit);
  wt_entries : all_entries contents v ≡ₚ fl ++ all_entries contents0 v0;
  wt_logs : logs_same e0 (tc_env tc);
}.

Definition written (fl : list entry) (c : Z) (f : flush_vars) : Prop :=
  let '(edit, vs, tc, save) := f in (exists contents v, written_tables fl c edit vs tc contents v) /\ (save = false -> fl = [] /\ edit = NewVersionEdit) /\ 0 <= c <= 4.

Context (E all : list entry) (Hfit : entries_fit extend snappy zstd ucmp o E) (HallE : forall e, e ∈ all ++ all_entries contents0 v0 -> e ∈ E).
Context (Hok : Forall entry_ok all) (Hsorted : StronglySorted (fun a b => e_seq a < e_seq b) all) (Hnewer : older all (all_entries contents0 v0)).
Context (Hbound : bound + slen all + 8 < 2 ^ 64).

Lemma sorted_differ es : StronglySorted (fun a b => e_seq a < e_seq b) es -> seqs_differ es.
Proof. induction 1 as [|e es _ IH Hall]; [done|]. split; [|done]. intros e' He' _. pose proof (proj1 (Forall_forall _ _) Hall e' He'). cbn in *. lia. Qed.

Lemma piece_newer fl es rest (contents : FileMetaData -> list entry) v : all = fl ++ es ++ rest -> all_entries contents v ≡ₚ fl ++ all_entries contents0 v0 -> older es (all_entries contents v).
Proof.
  intros Hall Hp a b Ha Hb. rewrite Hp in Hb. apply elem_of_app in Hb as [Hb|Hb].
  - intros _. rewrite Hall in Hsorted. apply (StronglySorted_app_1_elem_of _ _ _ b a Hsorted Hb). apply elem_of_app. by left.
  - apply Hnewer; [|done]. rewrite Hall. apply elem_of_app. right. apply elem_of_app. by left.
Qed.

(** What a part of the entries is as a table. *)
Lemma piece_fits fl es rest :
  all = fl ++ es ++ rest -> es <> [] -> Forall entry_ok es /\ seqs_differ es /\ forall sorted, sorted ≡ₚ es -> entries_ok ucmp sorted -> table_input extend snappy zstd o is_internal_key (table_of sorted).
Proof.
  intros Hall Hne. assert (forall e, e ∈ es -> e ∈ all) as Hin by (intros e He; rewrite Hall; apply elem_of_app; right; apply elem_of_app; by left).
  assert (seqs_differ es) as Hd by (apply (seqs_differ_sublist es all); [rewrite Hall; by apply sublist_inserts_l, sublist_inserts_r|by apply sorted_differ]).
  split; [apply Forall_forall; intros e He; by apply (proj1 (Forall_forall _ _) Hok), Hin|]. split; [done|]. intros sorted Hp Hes.
  apply Hfit; [|done|by apply (seqs_differ_perm es)|intros ->; by apply Permutation_nil in Hp]. intros e He. apply HallE, elem_of_app. left. apply Hin. by rewrite <-Hp.
Qed.

Lemma level0_room fl es rest contents stored v :
  all = fl ++ es ++ rest -> es <> [] -> version_ok ucmp contents stored v -> all_entries contents v ≡ₚ fl ++ all_entries contents0 v0 -> slen (level_files v 0) + 1 < 2 ^ 31.
Proof.
  intros Hall Hne Hv Hp. destruct Hfit as [Hcnt _]. pose proof (level_count ucmp contents stored v 0 Hv ltac:(done)) as Hlc.
  assert (forall e, e ∈ fl ++ es -> e ∈ E) as Hin by (intros e He; apply HallE, elem_of_app; left; rewrite Hall, app_assoc; apply elem_of_app; by left).
  assert (1 <= slen E) by (destruct es as [|e es']; [done|]; destruct E; [|cbn [length]; lia]; specialize (Hin e ltac:(apply elem_of_app; right; left)); by apply elem_of_nil in Hin).
  assert (length (all_entries contents v) <= length E)%nat; [|lia]. apply NoDup_length_le; [apply seqs_differ_NoDup; by eapply all_entries_differ|]. intros e He. rewrite Hp in He.
  apply elem_of_app in He as [He|He]; [apply Hin|apply HallE]; apply elem_of_app; [by left|by right].
Qed.

(** A number is given out. *)
Lemma number_given vs :
  current vs = v0 /\ same_log_numbers vs0 vs /\ vs_descriptor_log vs = vs_descriptor_log vs0 -> is_u64 (vs_next_file_number vs) -> vs_next_file_number vs + 1 < 2 ^ 64 ->
  let vs' := (NewFileNumber vs).2 in vs_next_file_number vs' = vs_next_file_number vs + 1 /\ (current vs' = v0 /\ same_log_numbers vs0 vs' /\ vs_descriptor_log vs' = vs_descriptor_log vs0).
Proof.
  intros (<- & (A1 & A2 & A3) & A4) Hnu Hlt vs'. unfold vs', NewFileNumber. cbn [snd]. rewrite wrap_small by (clear -Hnu Hlt; unfold in_u in *; lia). split; [by destruct vs|]. rewrite <-A4. unfold same_log_numbers. rewrite <-A1, <-A2, <-A3. by destruct vs.
Qed.

(** A memtable with no entries: the number is used up. *)
Lemma write_nothing fl c edit vs tc save mem :
  written fl c (edit, vs, tc, save) -> mem_holds ucmp mem [] -> c < 4 -> slen fl <= slen all ->
  exists f', flush_piece mem (edit, vs, tc, save) = Some (OK, f') /\ written fl (c + 1) f'.
Proof.
  intros ((contents & v & [W1 W2 W3 W4 W5 W6 W7 (W8a & W8b & W8c & W8d) W9 W10]) & Hs & Hc0) Hm Hc Hfl. unfold flush_recovered.
  rewrite (WriteLevel0Table_empty extend snappy zstd dbname in_scratch ucmp max_file_size o mem edit None vs tc Hm). cbn [mbind option_bind]. eexists. split; [done|].
  destruct (reachable_state _ _ _ _ _ _ Hname _ _ _ W3) as (Hf & (_ & _ & Hnu & _) & _). set (n := vs_next_file_number vs) in *.
  set (e := snd (FileSystem.RemoveFile (TableFileName dbname n) (tc_env tc))). assert (env_faults e = []) as Hfe.
  { unfold e, FileSystem.RemoveFile, next_fault. rewrite Hf. by case_match. }
  assert (forall f, f <> TableFileName dbname n -> env_files e !! f = env_files (tc_env tc) !! f) as He by (intros f Hne; by apply RemoveFile_files).
  destruct (number_given vs W4 Hnu ltac:(fold n; lia)) as [N1 N2]. fold n in N1.
  split; [|split; [done|lia]]. exists contents, v. split; cbn [with_env tc_env]; try done.
  - eapply (tables_ok_same extend snappy zstd dbname in_scratch ucmp o); [exact W1|done|done| | |done| |done]; rewrite ?N1.
    + intros f Hfv. pose proof (to_numbers _ _ _ _ _ _ _ _ _ _ _ W1 f Hfv). lia.
    + intros m Hm' Hu. apply (to_uncached _ _ _ _ _ _ _ _ _ _ _ W1); [fold n; lia|done].
    + intros f Hfv. apply He. intros Eq. pose proof (to_numbers _ _ _ _ _ _ _ _ _ _ _ W1 f Hfv) as Hlt. destruct (to_stored _ _ _ _ _ _ _ _ _ _ _ W1 f Hfv) as (Hu & _).
      pose proof (named_table dbname _ Hu) as Ht. rewrite Eq in Ht. destruct (named_inj _ _ _ _ _ _ Ht (named_table dbname n Hnu)). fold n in Hlt. lia.
  - apply (reachable_other extend dbname reuse_logs ucmp cmp_name Hname max_file_size used _ (tc_env tc) e (TableFileName dbname n) n kTableFile); [|by apply named_table|done..]. apply reach_number; [done|fold n; lia].
  - rewrite N1. fold n in W5. lia.
  - split_and!; try done. eapply Forall_impl; [exact W8d|]. rewrite N1. intros nf (? & ? & ?). split_and!; try done; lia.
  - eapply logs_same_trans; [exact W10|]. by apply (table_logs extend dbname reuse_logs ucmp cmp_name Hname max_file_size used vs (tc_env tc) e n).
Qed.

(** A memtable with entries becomes a table. *)
Lemma write_some fl c edit vs tc save mem es rest :
  written fl c (edit, vs, tc, save) -> all = fl ++ es ++ rest -> mem_holds ucmp mem es -> es <> [] ->
  exists f', flush_piece mem (edit, vs, tc, save) = Some (OK, f') /\ written (fl ++ es) c f'.
Proof.
  intros ((contents & v & [W1 W2 W3 W4 W5 W6 W7 (W8a & W8b & W8c & W8d) W9 W10]) & Hs & Hc0) Hall Hm Hne. unfold flush_recovered.
  destruct (reachable_state _ _ _ _ _ _ Hname _ _ _ W3) as (Hf & (_ & _ & Hnu & _) & _). set (n := vs_next_file_number vs) in *.
  destruct (piece_fits fl es rest Hall Hne) as (Hoks & Hd & Hinput).
  destruct (WriteLevel0Table_spec extend snappy zstd dbname in_scratch ucmp max_file_size o Ho contents (fun _ => True) None vs tc mem es edit Hm Hoks Hd Hne Hinput ltac:(done) Hnu Hf
    (to_uncached _ _ _ _ _ _ _ _ _ _ _ W1 n (Z.le_refl _) Hnu)) as (sorted & a & b & bytes & level & tc' & Hp & Hes & Hh & Hl & Ew & Hb & Hsz & _ & Hlev & _ & Hf' & Hfiles & t & id & Hop & Hcache).
  cbv zeta in Ew. rewrite (Hlev eq_refl) in Ew. fold n in Ew, Hfiles, Hcache. rewrite Ew. cbn [mbind option_bind]. eexists. split; [done|].
  assert (slen all = slen fl + slen es + slen rest) as Elen by (rewrite Hall, !length_app; lia). assert (1 <= slen es) as Hpos by (destruct es; [done|cbn [length]; lia]).
  set (f := flushed_file n a b bytes). set (v' := add_level0 f v). set (contents' := flushed_contents contents n sorted a b bytes).
  assert (forall l, 0 <= l < kNumLevels -> level_files v' l = if decide (l = 0) then merge_files ucmp (level_files v l) [f] else level_files v l) as Hlv by (intros l Hl'; apply level_files_add; [done|lia]).
  assert (seqs_differ sorted) as Hds by (by apply (seqs_differ_perm es)). assert (0 <= 0 < kNumLevels) as H0 by done.
  assert (older sorted (all_entries contents v)) as Hos by (intros x y Hx; rewrite Hp in Hx; by apply (piece_newer fl es rest contents v)).
  pose proof (level0_room fl es rest contents _ v Hall Hne (to_version _ _ _ _ _ _ _ _ _ _ _ W1) W9) as Hcount.
  destruct (flushed_version extend snappy zstd dbname in_scratch ucmp o contents v n tc W1 sorted a b bytes 0 v' Hds Hes Hh Hl H0 Hos ltac:(lia) Hlv Hcount) as [_ Hall'].
  assert (tables_ok contents' v' (n + 1) tc') as Htab.
  { apply (flushed_tables extend snappy zstd dbname in_scratch ucmp o contents v n tc W1 Hnu sorted a b bytes 0 v' Hds Hes Hh Hl H0 Hos ltac:(lia) Hlv Hcount t id tc'); try done; [by apply Hinput|intros g _; by rewrite Hfiles|by rewrite Hcache]. }
  destruct (number_given vs W4 Hnu ltac:(fold n; lia)) as [N1 N2]. fold n in N1.
  set (edit' := AddFile _ _ _ _ _ edit). assert (new_files_ edit' = new_files_ edit ++ [(0, NewFile n (slen bytes) (MkInternalKey (entry_internal_key a)) (MkInternalKey (entry_internal_key b)))] /\ deleted_files_ edit' = deleted_files_ edit) as [Enf Edf] by (unfold edit'; by destruct edit).
  split; [|split; [done|lia]]. exists contents', v'. split; rewrite ?N1, ?Enf, ?Edf; try done.
  - unfold v', add_level0. cbn [files_]. intros Ei. apply (f_equal length) in Ei. rewrite length_insert in Ei. by destruct (files_ v).
  - apply (reachable_table extend dbname reuse_logs ucmp cmp_name Hname max_file_size used _ (tc_env tc) (tc_env tc') n bytes); [|done..]. apply reach_number; [done|fold n; lia].
  - rewrite length_app. fold n in W5. lia.
  - intros l Hl'. rewrite Hlv by lia. rewrite decide_False by lia. by apply W6.
  - rewrite Hlv, decide_True by done. rewrite merge_files_perm, W7. rewrite map_app. cbn [map snd]. change (applied_file (NewFile n _ _ _)) with f. rewrite <-!app_assoc. by apply Permutation_app_head, Permutation_app_comm.
  - pose proof (edit_add cmp_name edit 0 n (slen bytes) a b W8a ltac:(done) Hnu ltac:(unfold in_u; lia)) as Hed. split; [apply Hed; eapply (proj1 (Forall_forall _ _) Hoks); rewrite <-Hp; [rewrite head_lookup in Hh|rewrite last_lookup in Hl]; by eapply list_elem_of_lookup_2|].
    split; [done|]. rewrite map_app. cbn [map snd]. split.
    + apply NoDup_app. split; [done|]. split; [|by apply NoDup_singleton]. intros m Hm' ->%list_elem_of_singleton. apply list_elem_of_fmap in Hm' as (nf & En & Hnf).
      pose proof (proj1 (Forall_forall _ _) W8d nf Hnf) as (_ & _ & Hlt). cbn in En. fold n in Hlt. lia.
    + apply Forall_app. split; [|apply Forall_singleton; split; [done|]; split; [apply AppendInternalKey_internal|cbn; fold n in W5; lia]]. eapply Forall_impl; [exact W8d|]. intros nf (? & ? & Hlt). fold n in Hlt. split_and!; try done; lia.
  - fold contents' in Hall'. rewrite Hall', Hp, W9, !app_assoc. by apply Permutation_app_tail, Permutation_app_comm.
  - eapply logs_same_trans; [exact W10|]. apply (table_logs extend dbname reuse_logs ucmp cmp_name Hname max_file_size used vs (tc_env tc) (tc_env tc') n W3 Hnu Hf'). intros g Hg. rewrite Hfiles. by apply lookup_insert_ne.
Qed.

Lemma flush_written fl c f mem es rest :
  written fl c f -> all = fl ++ es ++ rest -> mem_holds ucmp mem es -> (es = [] -> c < 4) ->
  exists edit vs tc, flush_piece mem f = Some (OK, (edit, vs, tc, true)) /\ written (fl ++ es) (if decide (es = []) then c + 1 else c) (edit, vs, tc, true).
Proof.
  destruct f as [[[edit vs] tc] save]. intros Hw Hall Hm Hc. assert (slen fl <= slen all) by (rewrite Hall, length_app; lia).
  destruct (decide (es = [])) as [->|Hne]; [destruct (write_nothing fl c edit vs tc save mem Hw Hm (Hc eq_refl)) as ([[[edit' vs'] tc'] save'] & Ef & Hw')|destruct (write_some fl c edit vs tc save mem es rest Hw Hall Hm Hne) as ([[[edit' vs'] tc'] save'] & Ef & Hw')]; rewrite ?app_nil_r; try done.
  all: assert (save' = true) as -> by (unfold flush_recovered in Ef; destruct (WriteLevel0Table _ _ _ _ _ _ _ _ _ _ _ _ _ _) as [[[[s' edit1] vs1] tc1]|]; [|done]; cbn in Ef; congruence); by exists edit', vs', tc'.
Qed.

(** ** One log *)

Context (write_buffer_size : Z) (Hbuffer : 4104 <= write_buffer_size) (paranoid_checks : bool).

Lemma mem_full_spec m es : mem_holds ucmp m es -> exists b, mem_full write_buffer_size m = Some b /\ (b = true -> es <> []).
Proof.
  intros (m0 & Hm & Ht). unfold mem_full. destruct (ApproximateMemoryUsage_total m) as [usage Eu]. rewrite Eu. cbn [mbind option_bind]. eexists. split; [done|]. intros Hb ->. injection Hm as <-.
  unfold ApproximateMemoryUsage in Eu. rewrite Ht in Eu. change (ApproximateMemoryUsage (MemTable_Ref NewMemTable) = Some usage) in Eu. rewrite new_usage in Eu. injection Eu as <-. apply Z.ltb_lt in Hb. lia.
Qed.

Abbreviation vars r := (rc_edit r, rc_versions r, rc_table_cache r, rc_save_manifest r).
Abbreviation recover_log_file := (Recover_RecoverLogFile extend snappy zstd dbname o in_scratch None ucmp max_file_size write_buffer_size paranoid_checks reuse_logs).

Lemma set_rc_env_same r : set_rc_env (rc_env r) r = r.
Proof. destruct r as [vs [e c i] edit save max log]. done. Qed.

Lemma written_env fl c r : written fl c (vars r) -> env_faults (rc_env r) = [] /\ forall n, is_u64 n -> env_files (rc_env r) !! LogFileName dbname n = env_files e0 !! LogFileName dbname n.
Proof.
  intros ((contents & v & Hw) & _). destruct (reachable_state _ _ _ _ _ _ Hname _ _ _ (wt_reach _ _ _ _ _ _ _ Hw)) as (Hf & _). split; [done|].
  intros n Hn. apply (proj1 (wt_logs _ _ _ _ _ _ _ Hw) n); [done|lia].
Qed.

(** The log is written on. *)
Lemma reuse_log_spec n (s : slice) mem r :
  env_faults (rc_env r) = [] -> env_files (rc_env r) !! LogFileName dbname n = Some s ->
  reuse_log dbname n mem r = (None, set_rc_log (default (MemTable_Ref NewMemTable) mem, n, MkWriter (MkWritableFile s []) (slen s mod kBlockSize)) r).
Proof.
  intros Hf Hs. unfold reuse_log, GetFileSize, next_fault. rewrite Hf. cbn [fst snd]. rewrite Hs, ok_OK. cbn [negb]. unfold NewAppendableFile, next_fault. rewrite Hf, Hs. cbn [default].
  change (id s) with s. assert (with_files <[LogFileName dbname n := s]> (rc_env r) = rc_env r) as -> by (destruct (rc_env r); unfold with_files; cbn in *; by rewrite insert_id).
  by rewrite set_rc_env_same, Hf.
Qed.

(** A log whose file has no bytes has no records. *)
Lemma empty_records fragss recs q gs : Forall2 is_record fragss recs -> batch_records q gs recs -> layout extend 0 (concat fragss) = [] -> gs = [].
Proof.
  intros F2 F4 He. destruct F2 as [|frags rec fragss recs Hr _]; [by apply batch_records_inv in F4|].
  cbn [concat] in He. rewrite layout_app in He. pose proof (is_record_layout_pos extend 0 _ _ Hr). apply (f_equal length) in He. rewrite length_app in He. cbn in He. lia.
Qed.

Lemma records_empty q recs : batch_records q [] recs -> recs = [].
Proof. intros H. destruct recs as [|rec recs]; [done|]. by apply batch_records_inv in H as (b & g & gs' & ? & _). Qed.

Lemma recover_log torn n q es last_log r fl c rest :
  written fl c (vars r) -> rc_log r = None -> all = fl ++ es ++ rest -> log_left extend dbname torn e0 n q es -> is_u64 n -> c < 4 ->
  rc_max_sequence r <= q -> 0 <= q -> q + slen es + 1 < 2 ^ 64 ->
  exists r' s, recover_log_file n last_log r = Some (OK, r') /\ env_files e0 !! LogFileName dbname n = Some s /\
    rc_max_sequence r <= rc_max_sequence r' <= q + slen es /\ (es <> [] -> rc_max_sequence r' = q + slen es) /\ (rc_save_manifest r = true -> rc_save_manifest r' = true) /\
    match rc_log r' with
    | None => (exists c', c' <= c + 1 /\ written (fl ++ es) c' (vars r') /\ (if decide (s = []) then c' = c /\ rc_save_manifest r' = rc_save_manifest r else torn = false -> rc_save_manifest r' = true)) /\ (reuse_logs = true -> last_log = true -> rc_save_manifest r' = true)
    | Some (mem, m, w) => m = n /\ (last_log = true /\ reuse_logs = true) /\ written fl c (vars r') /\ mem_holds ucmp mem es /\ 1 <= refs_ mem /\ w = MkWriter (MkWritableFile s []) (slen s mod kBlockSize)
    end.
Proof.
  intros Hw Hlog Hall (fragss & recs & gs & more & s & F1 & F2 & F3 & F4 & F5 & F6 & F7 & F8 & F9) Hn Hc Hmax H0 Hlen. destruct (written_env _ _ _ Hw) as [Hf Hlogs]. rewrite <-(Hlogs n Hn) in F1 |- *.
  assert (slen es = total_ops gs) as Elen by (rewrite F5; unfold total_ops; by rewrite length_entries_of).
  unfold Recover_RecoverLogFile, NewSequentialFile, next_fault. rewrite Hf, F1, set_rc_env_same. unfold DbWrite.RecoverLogFile. set (reader := NewReader _ _ _ _). set (st := MkRecoverState OK None _ _ _).
  assert (torn_tail extend kBlockSize fragss more s) as F8' by (unfold torn_tail; rewrite layout_block; exact F8).
  destruct (replay extend ucmp paranoid_checks (mem_full write_buffer_size) flush_piece all written Hok (sorted_differ _ Hsorted) mem_full_spec
    ltac:(intros fl1 es1 rest1 m1 c1 f1 A1 A2 A3 A4; destruct (flush_written fl1 c1 f1 m1 es1 rest1 A4 A1 A2 ltac:(done)) as (? & ? & ? & B1 & B2); rewrite decide_False in B2 by done; eauto)
    c (S (length s)) fragss recs gs more q reader kBlockSize s st fl [] rest F2 F4 ltac:(apply rd_at_NewReader) ltac:(by rewrite layout_block) F8' ltac:(by apply frags_fit_block) ltac:(lia) Hmax H0 ltac:(lia) ltac:(by rewrite <-F5))
    as (k & st' & fl' & mes' & -> & (R1 & R2 & R3 & R4 & R5) & Efl & Em & Hc1 & Hc2 & [x Ex] & Hk0 & Hk); [split_and!; try done; apply mem_holds_new|].
  rewrite layout_block in Hk. specialize (Hk F6). subst k. rewrite firstn_all in Efl, Em. cbn [app] in Efl. rewrite <-F5 in Efl. rewrite <-Elen in Em. cbn [mbind option_bind]. rewrite R5, ok_OK. cbn [andb].
  destruct (rs_flushed st') as [[[edit' vs'] tc'] save'] eqn:Ef. cbn [st rs_compactions rs_max_sequence rs_flushed rs_mem] in *.
  assert (rc_max_sequence r <= rs_max_sequence st' <= q + slen es /\ (es <> [] -> rs_max_sequence st' = q + slen es)) as [Hm1 Hm2].
  { rewrite Em. destruct gs as [|g gs]; [|rewrite decide_False by done; split; [lia|done]]. rewrite decide_True by done. split; [lia|]. intros Hne. exfalso. by rewrite F5 in Hne. }
  assert (rc_save_manifest r = true -> save' = true) as Hsv.
  { intros Hsave. destruct (decide (rs_compactions st' = 0)) as [Hcc|Hcc]; [destruct Hc2 as (_ & Hc2 & _); injection Hc2; congruence|]. destruct R1 as (_ & Hs & _). destruct save'; [done|]. by destruct (Hs eq_refl) as [-> _]. }
  set (r1 := MkRecovering vs' tc' edit' save' (rs_max_sequence st') (rc_log r)). change (edit', vs', tc', save') with (vars r1) in R1. destruct (reuse_logs && last_log && (rs_compactions st' =? 0)) eqn:Er.
  - apply andb_true_iff in Er as [[Hre Hla]%andb_true_iff Hz%Z.eqb_eq]. rewrite decide_True in Hc2 by done. destruct Hc2 as (-> & _). apply app_inv_head in Efl as ->. destruct (written_env _ _ _ R1) as [Hf1 Hlogs1].
    rewrite (reuse_log_spec n s (rs_mem st') r1); [|done|by rewrite (Hlogs1 n Hn), <-(Hlogs n Hn)]. eexists _, s. split; [done|]. cbn [set_rc_log rc_log rc_max_sequence rc_save_manifest r1]. split_and!; try done; try lia; by destruct (rs_mem st').
  - assert (all = fl' ++ mes' ++ rest) as Hall' by (by rewrite Hall, !app_assoc, Efl).
    assert (reuse_logs = true -> last_log = true -> save' = true) as Hrl.
    { intros -> ->. cbn [andb] in Er. apply Z.eqb_neq in Er. rewrite decide_False in Hc2 by done. destruct R1 as (_ & Hs & _). cbn in Hs. destruct save'; [done|]. by destruct (Hs eq_refl) as [-> _]. }
    assert (s = [] -> rs_mem st' = None /\ rs_compactions st' = 0) as Hemp by (intros Hs; apply Hk0; rewrite Hs in F6; by rewrite (empty_records _ _ _ _ F2 F4 (prefix_nil_inv _ F6))).
    destruct (rs_mem st') as [mem|] eqn:Emem.
    + destruct (flush_written fl' c (vars r1) mem mes' rest R1 Hall' R2 ltac:(lia)) as (edit2 & vs2 & tc2 & -> & Hw2). cbn [mbind option_bind]. eexists _, s. split; [done|]. cbn [rc_max_sequence rc_save_manifest rc_log r1]. rewrite Hlog.
      split_and!; try done; try lia. exists (if decide (mes' = []) then c + 1 else c). split; [case_decide; lia|]. split; [by rewrite <-Efl|].
      destruct (decide (s = [])) as [Hs|Hs]; [by destruct (Hemp Hs)|done].
    + rewrite (R4 eq_refl), app_nil_r in Efl. eexists _, s. split; [done|]. cbn [rc_max_sequence rc_save_manifest rc_log r1]. rewrite Hlog. split_and!; try done; try lia. exists c. split; [lia|]. rewrite <-Efl. split; [done|].
      destruct (decide (s = [])) as [Hs|Hs].
      * split; [done|]. destruct (Hemp Hs) as [_ Hz]. rewrite decide_True in Hc2 by done. destruct Hc2 as (_ & Hc2 & _). by injection Hc2.
      * intros Ht. rewrite (F9 Ht), app_nil_r in F7. destruct (decide (rs_compactions st' = 0)) as [Hz|Hz]; [|destruct R1 as (_ & Hs' & _); cbn in Hs'; destruct save'; [done|]; by destruct (Hs' eq_refl) as [-> _]].
        destruct Hc2 as (_ & _ & Hc2). exfalso. apply Hc2; [|done]. intros Hg%nil_length_inv. subst gs. apply Hs. apply records_empty in F4. subst recs. apply Forall2_nil_inv_r in F2. rewrite F2 in F7. by apply prefix_nil_inv.
Qed.

(** ** All logs *)

Abbreviation recover_all := (recover_logs extend snappy zstd dbname o in_scratch None ucmp max_file_size write_buffer_size paranoid_checks reuse_logs).

Lemma recover_cons n rest r r' :
  recover_log_file n (bool_decide (rest = [])) r = Some (OK, r') -> recover_all (n :: rest) r = recover_all rest (set_rc_versions (MarkFileNumberUsed n (rc_versions r')) r').
Proof. intros Hr. cbn [recover_logs]. rewrite Hr. cbn [mbind option_bind]. by rewrite ok_OK. Qed.

(** The number of a log is taken. *)
Lemma written_mark fl c r n :
  written fl c (vars r) -> 0 <= n < bound -> slen fl <= slen all ->
  let r' := set_rc_versions (MarkFileNumberUsed n (rc_versions r)) r in written fl c (vars r') /\ n < vs_next_file_number (rc_versions r').
Proof.
  intros ((contents & v & [W1 W2 W3 (W4a & W4b & W4c) W5 W6 W7 (W8a & W8b & W8c & W8d) W9 W10]) & Hs & Hc) Hn Hfl r'.
  assert (reachable used (rc_versions r') (rc_env r')) as Hr by (apply reach_mark; [done|lia]). unfold r', set_rc_versions in *. cbn [rc_versions rc_table_cache rc_edit rc_save_manifest] in *.
  unfold MarkFileNumberUsed in *. destruct (Z.leb_spec (vs_next_file_number (rc_versions r)) n) as [Hle|]; [|split; [|lia]; split; [by exists contents, v|done]].
  rewrite wrap_small in * by (unfold in_u; lia). set (vs' := set_next_file_number (n + 1) (rc_versions r)) in *.
  assert (vs_next_file_number vs' = n + 1 /\ current vs' = current (rc_versions r) /\ same_log_numbers (rc_versions r) vs' /\ vs_descriptor_log vs' = vs_descriptor_log (rc_versions r)) as (N1 & N2 & (N3 & N4 & N5) & N6) by (unfold vs'; by destruct (rc_versions r)).
  split; [|lia]. split; [|done]. exists contents, v. destruct W4b as (A1 & A2 & A3). split; rewrite ?N1; try done.
  - eapply (tables_ok_same extend snappy zstd dbname in_scratch ucmp o); [exact W1|done|done| | |apply W1|done|done].
    + intros f Hfv. pose proof (to_numbers _ _ _ _ _ _ _ _ _ _ _ W1 f Hfv). lia.
    + intros m Hm Hu. apply (to_uncached _ _ _ _ _ _ _ _ _ _ _ W1); [lia|done].
  - unfold same_log_numbers. split_and!; congruence.
  - lia.
  - split_and!; try done. eapply Forall_impl; [exact W8d|]. intros nf (? & ? & ?). split_and!; try done; lia.
Qed.

(** Logs with nothing in them. *)
Lemma empty_logs logs rest q r fl c :
  rest <> [] -> Forall (log_empty dbname e0) logs -> logs_hold extend dbname e0 q logs -> Forall (fun x => 0 < x.1 < bound) logs ->
  written fl c (vars r) -> rc_log r = None -> c < 4 -> slen fl <= slen all -> rc_max_sequence r <= q -> 0 <= q -> q + 1 < 2 ^ 64 -> (exists rest', all = fl ++ rest') ->
  concat (map snd logs) = [] /\
  exists r', recover_all (map fst logs ++ rest) r = recover_all rest r' /\ written fl c (vars r') /\ rc_log r' = None /\
    rc_max_sequence r <= rc_max_sequence r' <= q /\ rc_save_manifest r' = rc_save_manifest r.
Proof.
  intros Hrest Hemp Hh Hn Hw Hl Hc Hfl Hmax H0 Hlt (rest' & Hall). revert r q Hh Hw Hl Hmax H0 Hlt. induction Hemp as [|[n es] logs He _ IH]; intros r q Hh Hw Hl Hmax H0 Hlt; [split; [done|]; exists r; split_and!; try done; lia|].
  apply Forall_cons in Hn as [Hn Hns]. cbn [logs_hold map fst snd concat app] in *. destruct Hh as [Hh Hhs].
  assert (es = []) as -> by (destruct Hh as (fragss & recs & gs & F1 & F2 & F3 & F4 & ->); unfold log_empty in He; cbn [fst] in He; rewrite F1 in He; injection He as He; by rewrite (empty_records _ _ _ _ F2 F4 He)).
  cbn [length] in Hhs. rewrite Z.add_0_r in Hhs. cbn [app].
  destruct (recover_log false n q [] false r fl c rest' Hw Hl Hall (log_holds_left _ _ _ _ _ _ _ Hh) ltac:(unfold in_u; lia) Hc Hmax H0 ltac:(cbn [length]; lia)) as (r1 & s & E1 & Es & [Hm1 Hm2] & _ & _ & Hr1).
  unfold log_empty in He. cbn [fst] in He. rewrite He in Es. injection Es as <-. destruct (rc_log r1) as [[[mem m] w]|] eqn:El; [by destruct Hr1 as (_ & [? _] & _)|]. destruct Hr1 as [(c' & _ & Hw1 & Hs) _].
  rewrite decide_True in Hs by done. destruct Hs as [-> Hs]. rewrite app_nil_r in Hw1. destruct (written_mark fl c r1 n Hw1 ltac:(lia) Hfl) as [Hw2 _]. set (r2 := set_rc_versions _ r1) in *.
  cbn [length] in Hm2. destruct (IH Hns r2 q Hhs Hw2 El ltac:(cbn; lia) H0 Hlt) as (Ec & r3 & E3 & Hw3 & Hl3 & Hm3 & Hs3). split; [done|]. exists r3.
  rewrite (recover_cons n _ r r1) by (by rewrite bool_decide_eq_false_2 by (intros [_ Hnil]%app_eq_nil; done)). fold r2. split; [done|]. split; [done|]. split; [done|]. cbn in Hm3, Hs3. split; [lia|congruence].
Qed.

Lemma older_logs logs n q mes r :
  all = concat (map snd logs) ++ mes -> logs_hold extend dbname e0 q logs -> Forall (log_empty dbname e0) logs \/ (exists logs0 x, logs = logs0 ++ [x] /\ Forall (log_empty dbname e0) logs0) ->
  Forall (fun x => 0 < x.1 < bound) logs -> written [] 0 (vars r) -> rc_log r = None -> rc_max_sequence r <= q -> 0 <= q -> q + slen all + 1 < 2 ^ 64 ->
  let ies := concat (map snd logs) in
  exists r' c', recover_all (map fst logs ++ [n]) r = recover_all [n] r' /\ written ies c' (vars r') /\ c' < 4 /\ rc_log r' = None /\
    rc_max_sequence r' <= q + slen ies /\ (ies <> [] -> rc_max_sequence r' = q + slen ies) /\ (rc_save_manifest r = true -> rc_save_manifest r' = true) /\
    (rc_save_manifest r' = false -> Forall (log_empty dbname e0) logs).
Proof.
  intros Hall Hh Hemp Hn Hw Hl Hmax H0 Hlt ies. assert (slen ies <= slen all) as Hle by (rewrite Hall, length_app; fold ies; lia). destruct Hemp as [Hemp|(logs0 & [m es] & -> & Hemp)].
  - destruct (empty_logs logs [n] q r [] 0 ltac:(done) Hemp Hh Hn Hw Hl ltac:(lia) ltac:(cbn [length]; lia) Hmax H0 ltac:(lia) ltac:(by exists all)) as (Ei & r' & Er & Hw' & Hl' & Hm & Hs).
    fold ies in Ei. rewrite Ei in *. cbn [length]. exists r', 0. split_and!; try done; try lia. congruence.
  - apply logs_hold_app in Hh as [Hh0 [Hh _]]. apply Forall_app in Hn as [Hn0 [Hn _]%Forall_cons]. cbn [fst] in Hn. rewrite map_app, <-app_assoc. cbn [map fst app].
    destruct (empty_logs logs0 [m; n] q r [] 0 ltac:(done) Hemp Hh0 Hn0 Hw Hl ltac:(lia) ltac:(cbn [length]; lia) Hmax H0 ltac:(lia) ltac:(by exists all)) as (Ei & r1 & Er & Hw1 & Hl1 & Hm & Hs).
    assert (ies = es) as Eies by (unfold ies; rewrite map_app, concat_app, Ei; cbn; by rewrite app_nil_r). rewrite Ei in Hh. cbn [length] in Hh. rewrite Z.add_0_r in Hh. fold ies in Hall. rewrite Eies in *.
    destruct (recover_log false m q es false r1 [] 0 mes Hw1 Hl1 Hall (log_holds_left _ _ _ _ _ _ _ Hh) ltac:(unfold in_u; lia) ltac:(lia) ltac:(lia) H0 ltac:(lia)) as (r2 & s & E2 & Es & [Hm2 Hm2'] & Hm2'' & Hsv & Hr2).
    destruct (rc_log r2) as [[[mem m'] w]|] eqn:El2; [by destruct Hr2 as (_ & [? _] & _)|]. destruct Hr2 as [(c' & Hc' & Hw2 & Hs2) _]. cbn [app] in Hw2.
    destruct (written_mark es c' r2 m Hw2 ltac:(lia) Hle) as [Hw3 _]. exists (set_rc_versions (MarkFileNumberUsed m (rc_versions r2)) r2), c'. rewrite Er, (recover_cons m [n] r1 r2 E2). split; [done|]. cbn [set_rc_versions rc_log rc_max_sequence rc_save_manifest].
    split_and!; try done; try lia; [intros Hsr; apply Hsv; congruence|]. intros Hsf. apply Forall_app. split; [done|]. apply Forall_singleton. unfold log_empty. cbn [fst]. rewrite Es. destruct (decide (s = [])) as [->|]; [done|]. by rewrite Hs2 in Hsf.
Qed.

(** All logs: the entries are in tables, or those of the last log are in the memtable, and the log is written on. *)
Lemma all_logs torn logs n q mes r :
  all = concat (map snd logs) ++ mes -> logs_hold extend dbname e0 q logs -> log_left extend dbname torn e0 n (q + slen (concat (map snd logs))) mes ->
  Forall (log_empty dbname e0) logs \/ (exists logs0 x, logs = logs0 ++ [x] /\ Forall (log_empty dbname e0) logs0) -> Forall (fun x => 0 < x.1 < bound) logs -> 0 < n < bound ->
  written [] 0 (vars r) -> rc_log r = None -> rc_max_sequence r <= q -> 0 <= q -> q + slen all + 1 < 2 ^ 64 ->
  exists r' s, recover_all (map fst logs ++ [n]) r = Some (OK, r') /\ env_files e0 !! LogFileName dbname n = Some s /\ n < vs_next_file_number (rc_versions r') /\
    rc_max_sequence r' <= q + slen all /\ (all <> [] -> rc_max_sequence r' = q + slen all) /\ (rc_save_manifest r = true -> rc_save_manifest r' = true) /\
    match rc_log r' with
    | None => (exists c', written all c' (vars r')) /\ (reuse_logs = true -> rc_save_manifest r' = true)
    | Some (mem, m, w) => (m = n /\ reuse_logs = true) /\ (exists c', written (concat (map snd logs)) c' (vars r')) /\ mem_holds ucmp mem mes /\ 1 <= refs_ mem /\
        w = MkWriter (MkWritableFile s []) (slen s mod kBlockSize) /\ (rc_save_manifest r' = false -> Forall (log_empty dbname e0) logs)
    end.
Proof.
  intros Hall Hh Hlast Hemp Hn Hnn Hw Hl Hmax H0 Hlt. set (ies := concat (map snd logs)) in *. assert (slen all = slen ies + slen mes) as Elen by (rewrite Hall, length_app; lia).
  destruct (older_logs logs n q mes r Hall Hh Hemp Hn Hw Hl Hmax H0 Hlt) as (r1 & c1 & E1 & Hw1 & Hc1 & Hl1 & Hm1 & Hm1' & Hs1 & Hz1). fold ies in Hw1, Hm1, Hm1'. rewrite E1.
  destruct (recover_log torn n (q + slen ies) mes true r1 ies c1 [] Hw1 Hl1 ltac:(by rewrite app_nil_r) Hlast ltac:(unfold in_u; lia) Hc1 Hm1 ltac:(lia) ltac:(lia)) as (r2 & s & E2 & Es & [Hm2 Hm2'] & Hm2'' & Hs2 & Hr2).
  assert (exists c2 fl, slen fl <= slen all /\ written fl c2 (vars r2)) as (c2 & fl & Hfl & Hw2).
  { destruct (rc_log r2) as [[[mem m'] w]|]; [exists c1, ies; split; [lia|apply Hr2]|]. destruct Hr2 as [(c' & _ & Hw2 & _) _]. rewrite <-Hall in Hw2. by exists c', all. }
  destruct (written_mark fl c2 r2 n Hw2 ltac:(lia) Hfl) as [_ Hnx]. exists (set_rc_versions (MarkFileNumberUsed n (rc_versions r2)) r2), s. rewrite (recover_cons n [] r1 r2 E2). split; [done|]. split; [done|]. split; [done|]. cbn [set_rc_versions rc_log rc_max_sequence rc_save_manifest].
  split; [lia|]. split; [intros Hne; destruct (decide (mes = [])) as [->|Hme]; [|rewrite (Hm2'' Hme); lia]; cbn [length] in *; rewrite Hm1' in Hm2 by (intros Ei; by rewrite Hall, Ei in Hne); lia|]. split; [auto|].
  destruct (rc_log r2) as [[[mem m'] w]|].
  - destruct Hr2 as (-> & [_ Hre] & Hw3 & Hm & Href & ->). split_and!; try done; [exists c1; apply (written_mark ies c1 r2 n Hw3); lia|]. intros Hsf. apply Hz1. destruct (rc_save_manifest r1); [by rewrite Hs2 in Hsf|done].
  - destruct Hr2 as [(c' & _ & Hw3 & _) Hre]. rewrite <-Hall in Hw3. split; [exists c'; apply (written_mark all c' r2 n Hw3); lia|auto].
Qed.
End tables.

(** * The version set *)

Lemma ReuseManifest_state max_file_size reuse_logs dscname dscbase vs e reused vs' e' :
  ReuseManifest max_file_size reuse_logs dscname dscbase vs e = (reused, vs', e') ->
  vs_versions vs' = vs_versions vs /\ (reused = true -> vs_descriptor_log vs' <> None /\ reuse_logs = true).
Proof.
  unfold ReuseManifest. destruct reuse_logs; cbn [negb]; [|by intros [= <- <- <-]]. destruct (ParseFileName dscbase) as [[n []]|]; try (by intros [= <- <- <-]).
  destruct (GetFileSize dscname e) as [[s sz] e1]. case_match; [by intros [= <- <- <-]|]. destruct (NewAppendableFile dscname e1) as [[s2 file] e2]. destruct file as [file|]; [|by intros [= <- <- <-]].
  intros [= <- <- <-]. by destruct vs.
Qed.

Lemma AppendVersion_only v vs lv : vs_versions vs = [lv] -> lv_refs lv = 1 -> exists i, vs_versions (AppendVersion v vs) = [MkLive i 1 v].
Proof.
  destruct vs as [n m s g p d l i c]. cbn. intros -> Hr. exists i. unfold AppendVersion, Version_Unref, current_live. cbn. rewrite decide_False by done. cbn. rewrite decide_True by done. cbn. rewrite bool_decide_eq_true_2 by done.
  rewrite Hr. done.
Qed.

(** What [VersionSet::Recover] leaves: one version, and the descriptor, if it is written on. *)
Lemma Recover_state ucmp cmp_name extend dbname max_file_size reuse_logs e s save vs' e' :
  VersionSet.Recover ucmp cmp_name extend dbname max_file_size reuse_logs NewVersionSet e = Some (s, save, vs', e') -> ok s = true ->
  (exists lv, vs_versions vs' = [lv]) /\ (exists b, current vs' = Finalize (SaveTo ucmp b)) /\ (save = false -> vs_descriptor_log vs' <> None) /\ (reuse_logs = false -> save = true).
Proof.
  unfold VersionSet.Recover. destruct (ReadFileToString _ e) as [[[s1 cur] e1]|]; [|done]. cbn [mbind option_bind]. destruct (ok s1) eqn:E1; cbn [negb]; [|by intros [= <- <- <- <-]; rewrite E1].
  case_match; [by intros [= <- <- <- <-]|]. destruct (NewSequentialFile _ e1) as [[s2 contents] e2] eqn:E2. destruct contents as [contents|].
  2: { intros [= <- <- <- <-]. unfold NewSequentialFile in E2. destruct (next_fault e1) as [[[k msg]|] e3]; [injection E2 as <- <-; done|]. destruct (env_files e3 !! _); [done|]. by injection E2 as <- <-. }
  destruct (Recover_loop _ _ _ _ _ _) as [[r reader]|]; [|done]. cbn [mbind option_bind]. set (e3 := MkEnv _ _). intros E Hs. assert (install_recovered ucmp max_file_size reuse_logs (dbname ++ lit "/" ++ take (length cur - 1) cur) (take (length cur - 1) cur) r NewVersionSet e3 = (s, save, vs', e')) as Ei by congruence. clear E. revert Ei.
  unfold install_recovered. destruct (ok (rv_status r)) eqn:Er; cbn [negb]; [|by intros [= <- <- <- <-]; rewrite Er in Hs].
  destruct (rv_next_file r) as [next|]; [|by intros [= <- <- <- <-]]. destruct (rv_log_number r) as [log|]; [|by intros [= <- <- <- <-]]. destruct (rv_last_sequence r) as [seq|]; [|by intros [= <- <- <- <-]].
  set (v := Finalize _). set (vs1 := MarkFileNumberUsed (default 0 (Some log)) _). assert (vs_versions vs1 = [MkLive 0 1 NewVersion]) as E1' by (unfold vs1, MarkFileNumberUsed; by repeat case_match).
  destruct (AppendVersion_only v vs1 _ E1' eq_refl) as [i Ei]. destruct (ReuseManifest _ _ _ _ _ _) as [[reused vs2] e4] eqn:Em. destruct (ReuseManifest_state _ _ _ _ _ _ _ _ _ Em) as [Hv Hd].
  intros [= <- <- <- <-]. assert (vs_versions vs2 = [MkLive i 1 v]) as Ev by (rewrite Hv, <-Ei; by destruct (AppendVersion v vs1)). split; [by eexists|].
  split; [exists (rv_builder r); unfold current, current_live; by rewrite Ev|]. destruct reused; [|done]. split; [by destruct Hd|]. intros ->. by destruct (Hd eq_refl).
Qed.

(** * The files of the directory *)

(** The log that a name is, if it counts. *)
Definition counted_log (min_log prev_log : Z) (filename : slice) : option Z :=
  match ParseFileName filename with
  | Some (number, type) => if bool_decide (type = kLogFile) && ((min_log <=? number) || (number =? prev_log)) then Some number else None
  | None => None
  end.

Lemma scan_files min_log prev_log names expected logs :
  foldl (scan_file min_log prev_log) (expected, logs) names =
    (expected ∖ list_to_set (omap (fun f => fst <$> ParseFileName f) names), logs ++ omap (counted_log min_log prev_log) names).
Proof.
  revert expected logs. induction names as [|f names IH]; intros expected logs; cbn [foldl omap list_omap list_to_set]; [by rewrite app_nil_r, difference_empty_L|].
  unfold scan_file at 2, counted_log at 1. destruct (ParseFileName f) as [[n type]|]; [|apply IH]. cbn [fmap option_fmap option_map fst]. rewrite IH, list_to_set_cons, difference_difference_l_L. f_equal.
  destruct (_ && _); [by rewrite <-app_assoc|done].
Qed.

(** The tables are there, and the logs that count are these. *)
Lemma recover_files_found extend snappy zstd dbname o in_scratch bcache ucmp max_file_size write_buffer_size paranoid_checks reuse_logs r logs :
  let vs := rc_versions r in let files := env_files (rc_env r) in
  env_faults (rc_env r) = [] -> (forall n, n ∈ AddLiveFiles vs ∅ -> is_u64 n /\ is_Some (files !! TableFileName dbname n)) -> StronglySorted Z.lt logs ->
  (forall n, n ∈ logs -> is_u64 n /\ is_Some (files !! LogFileName dbname n) /\ vs_log_number vs <= n) ->
  (forall fname n, named dbname fname n kLogFile -> is_Some (files !! fname) -> vs_log_number vs <= n \/ n = vs_prev_log_number vs -> fname = LogFileName dbname n /\ n ∈ logs) ->
  recover_files extend snappy zstd dbname o in_scratch bcache ucmp max_file_size write_buffer_size paranoid_checks reuse_logs r =
    '(s, r) ← recover_logs extend snappy zstd dbname o in_scratch bcache ucmp max_file_size write_buffer_size paranoid_checks reuse_logs logs r;
    if negb (ok s) then Some (s, r)
    else if vs_last_sequence (rc_versions r) <? rc_max_sequence r then Some (OK, set_rc_versions (VersionSet_SetLastSequence (rc_max_sequence r) (rc_versions r)) r)
    else Some (OK, r).
Proof.
  intros vs files Hf Htab Hsorted Hlogs Honly. unfold recover_files. fold vs. destruct (GetChildren_spec dbname _ Hf) as (names & -> & Hnd & Hnames). rewrite ok_OK, set_rc_env_same, scan_files. cbn [negb app].
  assert (AddLiveFiles vs ∅ ∖ list_to_set (omap (fun f => fst <$> ParseFileName f) names) = (∅ : gset Z)) as ->.
  { apply set_eq. intros n. rewrite elem_of_difference, elem_of_list_to_set, list_elem_of_omap. split; [|by intros ?%elem_of_empty]. intros [Hn Hno]. exfalso. apply Hno.
    destruct (Htab n Hn) as [Hu Ht]. destruct (TableFileName_parts dbname n Hu) as (Et & Hp & Hs). rewrite Et in Ht. eexists. split; [by apply Hnames|]. by rewrite Hp. }
  rewrite elements_empty. cbn [merge_sort]. set (found := omap _ names). assert (forall x name, counted_log (vs_log_number vs) (vs_prev_log_number vs) name = Some x -> ParseFileName name = Some (x, kLogFile) /\ (vs_log_number vs <= x \/ x = vs_prev_log_number vs)) as Hc.
  { intros x name. unfold counted_log. destruct (ParseFileName name) as [[n type]|]; [|done]. case_bool_decide as Ht; [|done]. cbn [andb]. destruct (_ || _) eqn:Eo; [|done]. intros [= <-]. subst type. split; [done|].
    apply orb_true_iff in Eo as [Eo|Eo]; [left; by apply Z.leb_le|right; by apply Z.eqb_eq]. }
  assert (forall x name, name ∈ names -> counted_log (vs_log_number vs) (vs_prev_log_number vs) name = Some x -> dbname ++ x2f :: name = LogFileName dbname x /\ x ∈ logs) as Hin.
  { intros x name Hname E. apply Hnames in Hname as [Hs Hex]. destruct (Hc x name E) as [Hp Hor]. apply Honly; [by exists name|done..]. }
  assert (found ≡ₚ logs) as Hperm.
  { apply NoDup_Permutation.
    - apply omap_NoDup; [|done]. intros a b z Ha Hb E1 E2. destruct (Hin z a Ha E1) as [E1' _], (Hin z b Hb E2) as [E2' _]. rewrite <-E2' in E1'. apply app_inv_head in E1'. congruence.
    - clear -Hsorted. induction Hsorted as [|x l _ IH Hall]; constructor; [|done]. intros Hx. pose proof (proj1 (Forall_forall _ _) Hall x Hx). lia.
    - intros x. unfold found. rewrite list_elem_of_omap. split; [intros (name & Hn & E); by apply (Hin x name)|]. intros Hx. destruct (Hlogs x Hx) as (Hu & Hex & Hle). destruct (LogFileName_parts dbname x Hu) as (El & Hp & Hs).
      rewrite El in Hex. eexists. split; [by apply Hnames|]. unfold counted_log. rewrite Hp, bool_decide_eq_true_2 by done. cbn [andb]. by rewrite (proj2 (Z.leb_le _ _)) by done. }
  assert (merge_sort Z.le found = logs) as ->; [|done]. apply (StronglySorted_unique Z.le); [apply (StronglySorted_merge_sort Z.le)| |by rewrite merge_sort_Permutation].
  clear -Hsorted. induction Hsorted as [|x l _ IH Hall]; constructor; [done|]. eapply Forall_impl; [exact Hall|]. cbn. lia.
Qed.
