(* ===== verification/Reopen.v ===== *)
(** Reopen: the store that [DB::Open] gives (db/db_impl.cc), on a new directory and on the files that a store leaves when the
    process ends between two operations or in the middle of a record of the log, and the files that [DestroyDB] leaves. *)

From stdpp Require Import gmap sorting.
From Stdlib Require Import Strings.Byte Strings.String Floats.SpecFloat.
From S2P Require Import Prelude Coding Crc32c Comparator DbFormat Status Env FileSystem Filename VersionEdit FilterPolicy FilterBlock SkipList MemTable Arena WriteBatch Format Iterator TwoLevelIterator Version Block Merger DbIter TableBuilder Table TableCache VersionSet Score Compaction Log DbWrite Manifest Flush InternalIterator DbImpl Snapshot CompactionVersion CompactionWork CompactionLoop CompactionResults Background Schedule DbRead ReadStats Store Recovery.

(** ** The lock *)

Lemma named_lock dbname : named dbname (LockFileName dbname) 0 kDBLockFile.
Proof. by exists (lit "LOCK"). Qed.

Lemma LockFile_spec dbname e :
  env_faults e = [] -> exists e', LockFile (LockFileName dbname) e = (OK, e') /\ env_faults e' = [] /\ forall f, f <> LockFileName dbname -> env_files e' !! f = env_files e !! f.
Proof.
  destruct e as [files faults]. cbn. intros ->. eexists. split; [done|]. split; [done|]. intros f Hf. cbn. by apply lookup_insert_ne.
Qed.

Section reopen.
Context (extend : Z -> slice -> Z) `{!Checksum extend} (snappy : option SnappyLib) (zstd : option ZstdLib).
Context (dbname : slice) (in_scratch reuse_logs : bool).
Context (ucmp : Comparator) `{!ComparatorLaws any_key ucmp} `{!SeparatorSame any_key ucmp} (cmp_name : slice) (Hname : is_u32 (slen cmp_name)) (max_file_size write_buffer_size : Z).
Context (o : Options) (Ho : opt_comparator o = InternalKeyComparator ucmp).
Context (Hbuffer : 4104 <= write_buffer_size).

Abbreviation db_ok := (db_ok extend snappy zstd dbname in_scratch reuse_logs ucmp cmp_name max_file_size o).
Abbreviation tables_ok := (tables_ok extend snappy zstd dbname in_scratch ucmp o).
Abbreviation reachable := (reachable ucmp cmp_name extend dbname max_file_size reuse_logs).
Abbreviation recorded_sequence := (recorded_sequence ucmp cmp_name extend dbname max_file_size reuse_logs).
Abbreviation written := (written extend snappy zstd dbname in_scratch reuse_logs ucmp cmp_name max_file_size o).
Abbreviation VersionSet_Recover := (VersionSet.Recover ucmp cmp_name extend dbname max_file_size reuse_logs).
Abbreviation durable := (durable extend dbname reuse_logs ucmp cmp_name max_file_size).
Abbreviation v_of st := (current (db_versions st)).
Abbreviation env_of st := (tc_env (db_table_cache st)).

(** The versions that are read back. *)
Record read_back (used : list (Z * Z)) (base : list entry) (e : EnvState) (vs0 : VersionSet) (save : bool) (contents0 : FileMetaData -> list entry) : Prop := {
  rb_reach : reachable used vs0 e;
  rb_tables : tables_ok contents0 (current vs0) (vs_next_file_number vs0) (MkTableCache e ∅ 0);
  rb_entries : all_entries contents0 (current vs0) = base;
  rb_used : Forall (fun k => k.2 < vs_next_file_number vs0) used;
  rb_moved l f l' : 0 <= l < kNumLevels -> f ∈ level_files (current vs0) l -> (l', number f) ∈ used -> l' <= l;
  rb_version : exists lv, vs_versions vs0 = [lv];
  rb_pick : pick_ok (current vs0);
  rb_save : (save = false -> vs_descriptor_log vs0 <> None) /\ (reuse_logs = false -> save = true);
}.

Lemma recovered_versions contents used mes ies st e q :
  db_ok contents used mes ies st -> env_faults e = [] -> same_descriptor dbname (env_of st) e ->
  (forall m, is_u64 m -> env_files e !! TableFileName dbname m = env_files (env_of st) !! TableFileName dbname m) -> recorded_sequence (env_of st) q ->
  vs_next_file_number (db_versions st) + 2 < 2 ^ 64 ->
  exists save vs0 contents0, VersionSet_Recover NewVersionSet e = Some (OK, save, vs0, e) /\ read_back used (all_entries contents (v_of st)) e vs0 save contents0 /\
    written used vs0 e contents0 (vs_next_file_number (db_versions st) + 1) [] 0 (NewVersionEdit, vs0, MkTableCache e ∅ 0, save) /\
    vs_log_number vs0 = vs_log_number (db_versions st) /\ vs_prev_log_number vs0 = vs_prev_log_number (db_versions st) /\ vs_last_sequence vs0 = q /\ recorded_sequence e q.
Proof.
  intros Hdb Hf Hsd He Hq Hmax. pose proof (ok_reachable _ _ _ _ _ _ _ _ _ _ _ _ _ _ _ Hdb) as Hr.
  assert (reachable used (db_versions st) e) as Hr1 by (by apply (reach_files _ _ _ _ _ _ _ _ (env_of st) e Hr)).
  assert (recorded_sequence e q) as Hq1 by (by apply (same_sequence _ _ _ _ _ _ Hname used (db_versions st) (env_of st) e q Hr Hsd)).
  destruct (reachable_reopen _ _ _ _ _ _ Hname used _ e q Hr1 Hq1 Hmax) as (save & vs0 & Erec & Hr0 & (Hsame & Hln & Hpn) & Hused & Hnx & Hls).
  destruct (Recover_state _ _ _ _ _ _ _ _ _ _ _ Erec ok_OK) as (Hlv & (b & Hcur) & Hsv).
  pose proof (db_ok_stats extend snappy zstd dbname in_scratch reuse_logs ucmp cmp_name Hname max_file_size o contents used mes ies st Hdb (current vs0) Hsame) as Hdb0.
  set (contents0 := contents_by_number contents (v_of st)) in *. pose proof (db_ok_tables extend snappy zstd dbname in_scratch reuse_logs ucmp cmp_name Hname max_file_size o _ _ _ _ _ Hdb0) as Htab.
  cbn [set_version_set db_versions db_table_cache] in Htab. rewrite current_update in Htab. pose proof (ok_moved _ _ _ _ _ _ _ _ _ _ _ _ _ _ _ Hdb0) as Hmoved. cbn [set_version_set db_versions] in Hmoved. rewrite current_update in Hmoved.
  destruct (reachable_consistent _ _ _ _ _ _ Hname _ _ _ Hr0) as (n & fragss & hist & Hco). pose proof (proj1 (re_files _ _ _ (co_recorded _ _ _ _ _ _ _ _ _ _ Hco))) as Hlen.
  destruct (reachable_state _ _ _ _ _ _ Hname _ _ _ Hr0) as (_ & _ & _ & _ & Hu & _).
  assert (tables_ok contents0 (current vs0) (vs_next_file_number vs0) (MkTableCache e ∅ 0)) as Htab0.
  { eapply (tables_ok_same extend snappy zstd dbname in_scratch ucmp o); [exact Htab|done|done| |done|done| |done].
    - intros f (l & Hl & Hfl). exact (proj1 (Forall_forall _ _) Hused _ (Hu l f Hl Hfl)).
    - intros f Hfv. destruct (to_stored _ _ _ _ _ _ _ _ _ _ _ Htab f Hfv) as (Hnu & _). by apply He. }
  exists save, vs0, contents0. split; [done|]. split.
  { split; try done; [by apply (stats_entries extend snappy zstd dbname in_scratch reuse_logs ucmp cmp_name Hname max_file_size o contents used mes ies st Hdb)|]. rewrite Hcur. by apply Finalize_pick. }
  split; [|done]. split; [|done]. exists contents0, (current vs0). split; cbn [tc_env]; try done; [|lia|].
  - intros Ei. by rewrite Ei in Hlen.
  - split_and!; try done; [|constructor]. split; [apply NewVersionEdit_ok|done].
Qed.

(** ** The entries of the logs *)

Lemma entries_of_sorted q os : StronglySorted (fun a b => e_seq a < e_seq b) (entries_of q os).
Proof.
  revert q. induction os as [|op os IH]; intros q; [constructor|]. assert (forall e, e_seq e = q -> Forall (fun b => e_seq e < e_seq b) (entries_of (q + 1) os)) as H.
  { intros e <-. apply Forall_forall. intros b Hb. pose proof (entries_of_seq _ _ _ Hb). lia. }
  destruct op; cbn [entries_of]; (constructor; [apply IH|by apply H]).
Qed.

Lemma logs_hold_entries e q logs : logs_hold extend dbname e q logs -> exists os, concat (map snd logs) = entries_of (q + 1) os.
Proof.
  revert q. induction logs as [|[n es] logs IH]; intros q; cbn [logs_hold map snd concat]; [by exists []|]. intros [(fragss & recs & gs & _ & _ & _ & _ & E1) H2]. destruct (IH _ H2) as [os E2].
  exists (concat gs ++ os). rewrite entries_of_app, <-E1, E2. do 2 f_equal. rewrite E1, length_entries_of. lia.
Qed.

(** The entries of the two memtables, in the order in which they were written. *)
Lemma durable_sorted logs mes ies st : durable logs mes ies st -> StronglySorted (fun a b => e_seq a < e_seq b) (ies ++ mes).
Proof.
  intros Hdu. destruct (du_older _ _ _ _ _ _ _ _ _ _ Hdu) as [H1 <-]. destruct (logs_hold_entries _ _ _ H1) as [os E1]. destruct (du_mem _ _ _ _ _ _ _ _ _ _ Hdu) as (fragss & recs & gs & _ & _ & _ & _ & E2).
  assert (concat (map snd logs) ++ mes = entries_of (vs_last_sequence (db_versions st) - slen mes - slen (concat (map snd logs)) + 1) (os ++ concat gs)) as ->; [|apply entries_of_sorted].
  rewrite entries_of_app, <-E1. f_equal. rewrite E2 at 1. f_equal. rewrite E1, length_entries_of. lia.
Qed.

(** The files of the recovered version are on disk. *)
Lemma live_tables used base e vs0 save contents n :
  read_back used base e vs0 save contents -> n ∈ AddLiveFiles vs0 ∅ ->
  is_u64 n /\ is_Some (env_files e !! TableFileName dbname n).
Proof.
  intros [Hr Htab _ _ _ [lv Hlv] _ _] Hn. apply AddLiveFiles_spec in Hn as [Hn|(lv' & f & Hin & Hf & ->)]; [by apply elem_of_empty in Hn|]. rewrite Hlv in Hin. apply list_elem_of_singleton in Hin as ->.
  assert (lv_version lv = current vs0) as Ec by (unfold current, current_live; by rewrite Hlv). rewrite Ec in Hf. assert (in_version (current vs0) f) as Hfv.
  { destruct (reachable_consistent _ _ _ _ _ _ Hname _ _ _ Hr) as (m & fragss & hist & Hco). pose proof (proj1 (re_files _ _ _ (co_recorded _ _ _ _ _ _ _ _ _ _ Hco))) as Hlen.
    apply list_elem_of_In, in_concat in Hf as (fs & Hfs & Hf). apply list_elem_of_In, list_elem_of_lookup in Hfs as [i Hi]. exists (Z.of_nat i). pose proof (lookup_lt_Some _ _ _ Hi). split; [lia|].
    rewrite (level_files_lookup _ (Z.of_nat i) fs) by (by rewrite Nat2Z.id). by apply list_elem_of_In. }
  destruct (to_stored _ _ _ _ _ _ _ _ _ _ _ Htab f Hfv) as (Hu & _). destruct (proj2 (to_cache _ _ _ _ _ _ _ _ _ _ _ Htab) f Hfv) as [(bytes & Hb & _) _]. split; [done|by eexists].
Qed.

Lemma logs_hold_files e q logs x : logs_hold extend dbname e q logs -> x ∈ logs -> is_Some (env_files e !! LogFileName dbname x.1).
Proof.
  revert q. induction logs as [|[n es] logs IH]; intros q; [by intros _ ?%elem_of_nil|]. cbn [logs_hold]. intros [(fragss & recs & gs & H & _) H2] [->|Hx]%elem_of_cons; [by eexists|by eapply IH].
Qed.

(** The logs in the directory with the lock. *)
Record logs_found (torn : bool) (logs : list (Z * list entry)) (mes ies : list entry) (st : DBState) (e : EnvState) : Prop := {
  lf_files m : m ∈ map fst logs ++ [db_logfile_number st] -> is_u64 m /\ is_Some (env_files e !! LogFileName dbname m) /\ vs_log_number (db_versions st) <= m;
  lf_only fname m : named dbname fname m kLogFile -> is_Some (env_files e !! fname) -> vs_log_number (db_versions st) <= m \/ m = 0 -> fname = LogFileName dbname m /\ m ∈ map fst logs ++ [db_logfile_number st];
  lf_older : logs_hold extend dbname e (vs_last_sequence (db_versions st) - slen mes - slen ies) logs;
  lf_mem : log_left extend dbname torn e (db_logfile_number st) (vs_last_sequence (db_versions st) - slen mes) mes;
  lf_empty : Forall (log_empty dbname e) logs \/ exists logs0 x, logs = logs0 ++ [x] /\ Forall (log_empty dbname e) logs0;
}.

Lemma durable_found torn logs mes ies st e :
  durable logs mes ies st -> (forall f, f <> LockFileName dbname -> f <> LogFileName dbname (db_logfile_number st) -> env_files e !! f = env_files (env_of st) !! f) ->
  log_left extend dbname torn e (db_logfile_number st) (vs_last_sequence (db_versions st) - slen mes) mes -> is_u64 (db_logfile_number st) -> logs_found torn logs mes ies st e.
Proof.
  intros Hdu He H3 Hnu. pose proof (fun x => durable_below extend dbname reuse_logs ucmp cmp_name max_file_size _ _ _ _ x Hdu) as Hbelow. destruct Hdu as [D1 [D2 D2'] D3 [D4 D4'] D5 D6 Dz D7 D8].
  assert (forall f m, named dbname f m kLogFile -> f <> LogFileName dbname (db_logfile_number st) -> env_files e !! f = env_files (env_of st) !! f) as Hlog
    by (intros f m Hm; apply He; intros ->; by destruct (named_inj _ _ _ _ _ _ Hm (named_lock dbname))).
  assert (forall x, x ∈ logs -> is_u64 x.1) as Hlu by (intros x Hx; pose proof (Hbelow x Hx); unfold in_u in *; lia).
  assert (forall x, x ∈ logs -> env_files e !! LogFileName dbname x.1 = env_files (env_of st) !! LogFileName dbname x.1) as Hsame.
  { intros x Hx. apply (Hlog _ x.1); [by apply named_log, Hlu|]. intros Eq. pose proof (named_log dbname _ (Hlu x Hx)) as Hx1. rewrite Eq in Hx1. destruct (named_inj _ _ _ _ _ _ Hx1 (named_log dbname _ Hnu)) as [Ex _]. pose proof (Hbelow x Hx). lia. }
  assert (forall ls, (forall x, x ∈ ls -> x ∈ logs) -> Forall (log_empty dbname (env_of st)) ls -> Forall (log_empty dbname e) ls) as Hze.
  { intros ls Hsub Hz. apply Forall_forall. intros x Hx. unfold log_empty. rewrite (Hsame x (Hsub x Hx)). by apply (proj1 (Forall_forall _ _) Hz). }
  assert (logs_hold extend dbname e (vs_last_sequence (db_versions st) - slen mes - slen ies) logs) as H4 by (eapply (logs_hold_same extend dbname (env_of st)); [by apply Forall_forall|done]).
  split; try done.
  - intros m [(x & -> & Hx)%list_elem_of_fmap| ->%list_elem_of_singleton]%elem_of_app.
    + split; [by apply Hlu|]. split; [by eapply logs_hold_files|]. by apply Hbelow.
    + split; [done|]. split; [|done]. destruct H3 as (fragss & recs & gs & more & s & H & _). by eexists.
  - intros fname m Hm Hs. apply D7; [done|]. destruct (decide (fname = LogFileName dbname (db_logfile_number st))) as [->|Hne]; [|by rewrite <-(Hlog fname m Hm Hne)].
    destruct D3 as (fragss & recs & gs & H & _). by eexists.
  - destruct (db_imm st); [right|left; by apply Hze]. destruct Dz as (logs0 & x & -> & Hz). exists logs0, x. split; [done|]. apply Hze; [|done]. intros y Hy. apply elem_of_app. by left.
Qed.

(** ** [DBImpl::Recover] *)

Context (create_if_missing paranoid_checks : bool) (E : list entry) (Hfit : entries_fit extend snappy zstd ucmp o E).

Abbreviation recover_db := (DB_Recover extend snappy zstd dbname o in_scratch None ucmp cmp_name max_file_size write_buffer_size create_if_missing false paranoid_checks reuse_logs).
Abbreviation vars r := (rc_edit r, rc_versions r, rc_table_cache r, rc_save_manifest r).

(** What the recovery of a store leaves: the log with the number [n] had the bytes [s]. *)
Record recovered (torn : bool) (contents : FileMetaData -> list entry) (used : list (Z * Z)) (mes ies : list entry) (logs : list (Z * list entry)) (st : DBState)
    (e0 : EnvState) (vs0 : VersionSet) (contents0 : FileMetaData -> list entry) (r : Recovering) (s : slice) : Prop := {
  re_back : exists save, read_back used (all_entries contents (v_of st)) e0 vs0 save contents0 /\ (save = true -> rc_save_manifest r = true);
  re_numbers : vs_log_number vs0 = vs_log_number (db_versions st) /\ vs_prev_log_number vs0 = 0;
  re_sequence : exists q, recorded_sequence e0 q /\ 0 <= vs_last_sequence (db_versions st) - slen mes - slen ies <= q /\ q <= vs_last_sequence (db_versions st);
  re_found : logs_found torn logs mes ies st e0;
  re_bytes : env_files e0 !! LogFileName dbname (db_logfile_number st) = Some s;
  re_next : db_logfile_number st < vs_next_file_number (rc_versions r);
  re_log : let written := written used vs0 e0 contents0 (vs_next_file_number (db_versions st) + 1) in
    match rc_log r with
    | None => (exists c, written (ies ++ mes) c (vars r)) /\ rc_save_manifest r = true
    | Some (mem, m, w) => (m = db_logfile_number st /\ reuse_logs = true) /\ (exists c, written ies c (vars r)) /\ mem_holds ucmp mem mes /\ 1 <= refs_ mem /\
        w = MkWriter (MkWritableFile s []) (slen s mod kBlockSize) /\ (rc_save_manifest r = false -> Forall (log_empty dbname e0) logs)
    end;
}.

(** The files that a store leaves, of which the last log may have more than its records. *)
Record leaves (torn : bool) (mes : list entry) (st : DBState) (src : EnvState) : Prop := {
  le_faults : env_faults src = [];
  le_files f : f <> LogFileName dbname (db_logfile_number st) -> env_files src !! f = env_files (env_of st) !! f;
  le_log : log_left extend dbname torn src (db_logfile_number st) (vs_last_sequence (db_versions st) - slen mes) mes;
}.

Lemma leaves_locked torn contents used mes ies logs st src e0 :
  db_ok contents used mes ies st -> durable logs mes ies st -> leaves torn mes st src -> is_u64 (db_logfile_number st) ->
  env_faults e0 = [] -> (forall f, f <> LockFileName dbname -> env_files e0 !! f = env_files src !! f) ->
  same_descriptor dbname (env_of st) e0 /\ (forall m, is_u64 m -> env_files e0 !! TableFileName dbname m = env_files (env_of st) !! TableFileName dbname m) /\ logs_found torn logs mes ies st e0.
Proof.
  intros Hdb Hdu [L1 L2 L3] Hnu Hf0 He0. pose proof (ok_reachable _ _ _ _ _ _ _ _ _ _ _ _ _ _ _ Hdb) as Hr. split_and!.
  - assert (same_descriptor dbname (env_of st) src) as Hs by (apply (other_descriptor extend dbname reuse_logs ucmp cmp_name Hname max_file_size used _ _ _ _ _ _ Hr (named_log dbname _ Hnu)); done).
    assert (reachable used (db_versions st) src) as Hr1 by (by apply (reach_files _ _ _ _ _ _ _ _ (env_of st) src Hr)).
    assert (same_descriptor dbname src e0) as (S1 & S2 & S3) by (apply (other_descriptor extend dbname reuse_logs ucmp cmp_name Hname max_file_size used _ _ _ _ _ _ Hr1 (named_lock dbname)); done).
    destruct Hs as (_ & S4 & S5). split; [done|]. split; [congruence|]. intros name Hn. rewrite S3 by congruence. by apply S5.
  - intros m Hm. pose proof (named_table dbname m Hm) as Ht. rewrite He0, L2; [done|..]; intros Eq; rewrite Eq in Ht; [by destruct (named_inj _ _ _ _ _ _ Ht (named_log dbname _ Hnu))|by destruct (named_inj _ _ _ _ _ _ Ht (named_lock dbname))].
  - apply durable_found; try done; [intros f H1 H2; rewrite He0 by done; by apply L2|]. eapply log_left_same; [|exact L3]. apply He0. intros Eq. pose proof (named_log dbname _ Hnu) as Ht. rewrite Eq in Ht. by destruct (named_inj _ _ _ _ _ _ Ht (named_lock dbname)).
Qed.

Lemma DB_Recover_spec torn contents used mes ies logs st src :
  db_ok contents used mes ies st -> durable logs mes ies st -> leaves torn mes st src -> (forall e, e ∈ mes ++ ies ++ all_entries contents (v_of st) -> e ∈ E) ->
  vs_next_file_number (db_versions st) + slen E + 16 < 2 ^ 64 -> vs_last_sequence (db_versions st) + 1 < 2 ^ 64 ->
  exists e0 vs0 contents0 r s, recover_db src = Some (OK, set_rc_versions (VersionSet_SetLastSequence (vs_last_sequence (db_versions st)) (rc_versions r)) r) /\
    recovered torn contents used mes ies logs st e0 vs0 contents0 r s.
Proof.
  intros Hdb Hdu Hle HE Hmax Hseq. pose proof (le_faults _ _ _ _ Hle) as Hf. pose proof Hdu as [D1 [D2 D2'] D3 [D4 D4'] D5 D6 Dz D7 (q & D8 & Hq0 & Hq1)]. pose proof (durable_sorted _ _ _ _ Hdu) as Hsorted. pose proof (fun x => durable_below extend dbname reuse_logs ucmp cmp_name max_file_size _ _ _ _ x Hdu) as Hbelow.
  set (last := vs_last_sequence (db_versions st)) in *. set (n := db_logfile_number st) in *. set (all := ies ++ mes) in *. assert (slen all = slen ies + slen mes) as Elen by (unfold all; rewrite length_app; lia).
  pose proof (ok_entries _ _ _ _ _ _ _ _ _ _ _ _ _ _ _ Hdb) as (Ok1 & Ok2 & _ & _). pose proof (ok_older _ _ _ _ _ _ _ _ _ _ _ _ _ _ _ Hdb) as (_ & O2 & O3).
  assert (slen all <= slen E) as HlenE.
  { apply Nat2Z.inj_le, NoDup_length_le; [by apply seqs_differ_NoDup, sorted_differ|]. intros e He. apply HE. unfold all in He. rewrite !elem_of_app in *. tauto. }
  destruct (LockFile_spec dbname src Hf) as (e0 & El & Hf0 & He0). assert (is_u64 n) as Hnu by (unfold in_u; lia). destruct (leaves_locked torn contents used mes ies logs st src e0 Hdb Hdu Hle Hnu Hf0 He0) as (Hsd & Htab & Hfound).
  destruct (recovered_versions contents used mes ies st e0 q Hdb Hf0 Hsd Htab D8 ltac:(lia)) as (save & vs0 & contents0 & Erec & Hrb & Hw & Hln & Hpn & Hls & Hrec).
  pose proof Hfound as [F1 F2 F3 F4 F5]. fold last n in F1, F2, F3, F4.
  set (r0 := MkRecovering vs0 (MkTableCache e0 ∅ 0) NewVersionEdit save 0 None).
  destruct (all_logs extend snappy zstd dbname in_scratch reuse_logs ucmp cmp_name Hname max_file_size o Ho used vs0 e0 contents0 (vs_next_file_number (db_versions st) + 1) E all Hfit
    ltac:(intros e He; apply HE; unfold all in He; rewrite (rb_entries _ _ _ _ _ _ Hrb), !elem_of_app in He; rewrite !elem_of_app; tauto) ltac:(by apply Forall_app) Hsorted
    ltac:(intros a b Ha; rewrite (rb_entries _ _ _ _ _ _ Hrb); apply elem_of_app in Ha as [Ha|Ha]; [by apply O3|by apply O2]) ltac:(lia)
    write_buffer_size Hbuffer paranoid_checks torn logs n (last - slen mes - slen ies) mes r0) as (r & s & Er & Es & Hnx & Hm1 & Hm2 & Hs & Hr); try done; try lia; try (rewrite D4').
  { done. }
  { by replace (last - slen mes - slen ies + slen ies) with (last - slen mes) by lia. }
  { apply Forall_forall. intros x Hx. pose proof (Hbelow x Hx). lia. }
  { cbn. lia. }
  assert (vs_last_sequence (rc_versions r) = q) as Hvq.
  { rewrite <-Hls. destruct (rc_log r) as [[[mem m] w]|]; [destruct Hr as (_ & (c & (ct & v & Hwt) & _) & _)|destruct Hr as [(c & (ct & v & Hwt) & _) _]]; by destruct (wt_vs _ _ _ _ _ _ _ _ _ _ _ _ _ _ _ _ _ _ _ _ _ _ Hwt) as (_ & (-> & _) & _). }
  exists e0, vs0, contents0, r, s. split.
  - destruct (reachable_state _ _ _ _ _ _ Hname _ _ _ (rb_reach _ _ _ _ _ _ Hrb)) as (_ & _ & _ & _ & _ & m & _ & Hcur & _).
    unfold DB_Recover, CreateDir, env_call, next_fault. rewrite Hf, El, ok_OK. cbn [negb]. unfold FileExists. rewrite Hcur, bool_decide_eq_true_2 by done. cbn [negb]. rewrite ok_OK. cbn [negb]. rewrite Erec. cbn [mbind option_bind]. rewrite ok_OK. cbn [negb]. fold r0.
    rewrite (recover_files_found _ _ _ _ _ _ _ _ _ _ _ _ r0 (map fst logs ++ [n])); cbn [r0 rc_versions rc_table_cache tc_env]; try done; [|intros x Hx; by eapply live_tables|by rewrite Hln|by rewrite Hln, Hpn, D1].
    rewrite Er. cbn [mbind option_bind]. rewrite ok_OK, Hvq. cbn [negb]. destruct (Z.ltb_spec q (rc_max_sequence r)) as [Hlt|Hge].
    + assert (rc_max_sequence r = last) as ->; [|done]. destruct (decide (all = [])) as [Ea|Ea]; [assert (slen all = 0) by (by rewrite Ea); lia|rewrite (Hm2 Ea); lia].
    + assert (VersionSet_SetLastSequence last (rc_versions r) = rc_versions r) as ->; [|by destruct r]. assert (q = last) as Eq; [|rewrite <-Eq, <-Hvq; by destruct (rc_versions r)].
      destruct (decide (all = [])) as [Ea|Ea]; [assert (slen all = 0) by (by rewrite Ea); lia|rewrite (Hm2 Ea) in Hge; lia].
  - split; try done.
    + exists save. by split.
    + by rewrite Hln, Hpn.
    + by exists q.
    + cbv zeta. destruct (rc_log r) as [[[mem m] w]|]; [by rewrite D4' in Hr|]. destruct Hr as [Hr1 Hr2]. split; [done|]. destruct reuse_logs eqn:Ere; [by apply Hr2|]. apply Hs. by apply (rb_save _ _ _ _ _ _ Hrb).
Qed.

(** ** The edit is saved *)

Abbreviation written_tables := (written_tables extend snappy zstd dbname in_scratch reuse_logs ucmp cmp_name max_file_size o).

(** What the version set and the tables are like when the database is opened: [used] are the files that there have been, and [e] is
    the environment before the edit is saved. *)
Record saved (e : EnvState) (vs : VersionSet) (entries : list entry) (used : list (Z * Z)) (vs1 : VersionSet) (tc1 : TableCache) (contents : FileMetaData -> list entry) : Prop := {
  sv_reach : reachable used vs1 (tc_env tc1);
  sv_used : Forall (fun k => k.2 < vs_next_file_number vs1) used;
  sv_moved l f l' : 0 <= l < kNumLevels -> f ∈ level_files (current vs1) l -> (l', number f) ∈ used -> l' <= l;
  sv_tables : tables_ok contents (current vs1) (vs_next_file_number vs1) tc1;
  sv_entries : all_entries contents (current vs1) ≡ₚ entries;
  sv_pick : pick_ok (current vs1);
  sv_descriptor : vs_descriptor_log vs1 <> None;
  sv_numbers : vs_next_file_number vs1 = vs_next_file_number vs /\ vs_last_sequence vs1 = vs_last_sequence vs;
  sv_logs log : logs_kept dbname log e (tc_env tc1);
}.

(** No edit: nothing was written. *)
Lemma saved_nothing used base e vs0 save contents0 c bound vs0' e' edit vs tc contents v :
  read_back used base e vs0 save contents0 -> save = false -> current vs0' = current vs0 -> vs_next_file_number vs0' = vs_next_file_number vs0 -> vs_descriptor_log vs0' = vs_descriptor_log vs0 ->
  written_tables used vs0' e' contents0 bound [] c edit vs tc contents v -> new_files_ edit = [] ->
  saved (tc_env tc) vs base used vs tc contents.
Proof.
  intros [R1 R2 R3 R4 R5 R6 R7 [R8 _]] Hsv Hc Hnx Hd [W1 W2 W3 (W4a & W4b & W4c) W5 W6 W7 W8 W9 W10] Hnf. rewrite Hc in *. rewrite Hnf in W7.
  destruct (reachable_state _ _ _ _ _ _ Hname _ _ _ W3) as (Hf & _). destruct (tables_ok_same extend snappy zstd dbname in_scratch ucmp o contents v _ tc (current vs) (vs_next_file_number vs) tc W1) as [Htab Hp]; try done.
  { by rewrite W4a, W7. }
  { intros l Hl. by rewrite W4a, W6. }
  { apply (to_numbers _ _ _ _ _ _ _ _ _ _ _ W1). }
  { apply (to_uncached _ _ _ _ _ _ _ _ _ _ _ W1). }
  split; try done; try (rewrite W4a; done).
  - eapply Forall_impl; [exact R4|]. cbn. lia.
  - rewrite Hp, W9. cbn [app]. by rewrite R3.
  - rewrite W4c, Hd. by apply R8.
Qed.

(** The edit adds the files of the tables to level 0. *)
Lemma saved_levels used vs0' e' contents0 bound fl c edit vs tc contents v cp :
  written_tables used vs0' e' contents0 bound fl c edit vs tc contents v -> fresh_edit used edit ->
  let files l := level_files (SaveTo ucmp (Builder_Apply ucmp edit cp (NewBuilder (current vs))).2) l in
  files 0 ≡ₚ level_files v 0 /\ forall l, 0 < l < kNumLevels -> files l = level_files v l.
Proof.
  intros [W1 W2 W3 (W4a & W4b & W4c) W5 W6 W7 (W8a & W8b & W8c & W8d) W9 W10] Hfr files. pose proof (fun l => reachable_levels _ _ _ _ _ _ Hname used vs _ edit cp l W3 Hfr) as Hlev.
  assert (forall l g, new_at l (new_files_ edit) g <-> l = 0 /\ g ∈ map (fun nf => applied_file nf.2) (new_files_ edit)) as Hnew.
  { intros l g. unfold new_at. rewrite list_elem_of_fmap. split.
    - intros (f & Hf & ->). destruct (proj1 (Forall_forall _ _) W8d _ Hf) as (El & _). cbn in El. subst l. split; [done|]. by exists (0, f).
    - intros (-> & [l0 f] & -> & Hf). destruct (proj1 (Forall_forall _ _) W8d _ Hf) as (El & _). cbn in El. subst l0. by exists f. }
  split.
  - destruct (Hlev 0 ltac:(done)) as (K1 & K2 & K3). fold (files 0) in K1, K2, K3. apply NoDup_Permutation; [by apply (ordered_NoDup ucmp)| |].
    + eapply (NoDup_fmap_1 number). apply (vo_numbers _ _ _ _ (to_version _ _ _ _ _ _ _ _ _ _ _ W1)).
    + intros g. rewrite K3, Hnew, W7, elem_of_app, W8b, W4a. assert ((0, number g) ∉ []) by (by intros ?%elem_of_nil). tauto.
  - intros l Hl. destruct (Hlev l ltac:(unfold level_ok; lia)) as (K1 & K2 & K3). fold (files l) in K1, K2, K3. rewrite W6 by done.
    destruct (reachable_consistent _ _ _ _ _ _ Hname _ _ _ W3) as (m & fragss & hist & Hco). destruct (proj2 (re_files _ _ _ (co_recorded _ _ _ _ _ _ _ _ _ _ Hco)) l ltac:(unfold level_ok; lia)) as (L1 & L2 & _). rewrite W4a in L1, L2.
    apply (ordered_same ucmp); try done. intros g. rewrite K3, Hnew, W8b, W4a. assert ((l, number g) ∉ []) by (by intros ?%elem_of_nil). split; [intros [[? _]|[? _]]; [done|lia]|]. by left.
Qed.

Lemma saved_edit used base e vs0 save contents0 c bound vs0' e' fl edit vs tc contents v n :
  read_back used base e vs0 save contents0 -> current vs0' = current vs0 -> vs_next_file_number vs0' = vs_next_file_number vs0 ->
  written_tables used vs0' e' contents0 bound fl c edit vs tc contents v -> is_u64 n ->
  exists edit' vs1 e1 used1, LogAndApply ucmp cmp_name extend dbname (VersionEdit.SetLogNumber n (SetPrevLogNumber 0 edit)) vs (tc_env tc) = (OK, edit', vs1, e1) /\
    saved (tc_env tc) vs (fl ++ base) used1 vs1 (with_env (fun _ => e1) tc) contents /\ vs_log_number vs1 = n /\ vs_prev_log_number vs1 = 0 /\ recorded_sequence e1 (vs_last_sequence vs).
Proof.
  intros [R1 R2 R3 R4 R5 R6 R7 _] Hc Hnx Hw Hn. pose proof Hw as [W1 W2 W3 (W4a & W4b & W4c) W5 W6 W7 (W8a & W8b & W8c & W8d) W9 W10].
  set (edit1 := VersionEdit.SetLogNumber n (SetPrevLogNumber 0 edit)). assert (new_files_ edit1 = new_files_ edit /\ deleted_files_ edit1 = [] /\ has_log_number_ edit1 = true /\ log_number_ edit1 = n /\ has_prev_log_number_ edit1 = true /\ prev_log_number_ edit1 = 0) as (N1 & N2 & N3 & N4 & N5 & N6).
  { rewrite <-W8b. unfold edit1. by destruct edit. }
  assert (edit_fits cmp_name edit1) as Hfits by (by apply edit_log). assert (forall nf, nf ∈ new_files_ edit -> nf.1 = 0 /\ vs_next_file_number vs0 <= number nf.2 < vs_next_file_number vs) as Hnf.
  { intros nf Hin. destruct (proj1 (Forall_forall _ _) W8d nf Hin) as (? & _ & ?). rewrite Hnx in *. done. }
  assert (forall nf, nf ∈ new_files_ edit -> file_key nf ∉ used) as Hnu.
  { intros nf Hin Hu. destruct (Hnf nf Hin) as [_ [Hge _]]. pose proof (proj1 (Forall_forall _ _) R4 _ Hu) as Hlt. cbn in Hlt. lia. }
  assert (fresh_edit used edit1 /\ fresh_edit used edit) as [Hfr Hfr0].
  { assert (NoDup (map file_key (new_files_ edit))) as Hnd by (apply (NoDup_fmap_1 snd); by rewrite <-list_fmap_compose).
    assert (Forall (fun nf => level_ok nf.1 /\ VersionSet.has_key nf.2) (new_files_ edit)) as Hlk by (eapply Forall_impl; [exact W8d|]; by intros nf (-> & ? & _)).
    split; (split; [split_and!|]); rewrite ?N1, ?N2, ?W8b; try done; constructor. }
  assert (given vs edit1) as Hgv by (unfold given; rewrite N1; eapply Forall_impl; [exact W8d|]; cbn; tauto).
  destruct (reachable_apply _ _ _ _ _ _ Hname _ _ _ _ W3 Hfits Hfr Hgv) as (edit' & vs1 & e1 & Ela & Hr1). rewrite N1 in Hr1. exists edit', vs1, e1, (map file_key (new_files_ edit) ++ used). split; [done|].
  destruct (LogAndApply_kept extend dbname reuse_logs ucmp cmp_name Hname max_file_size _ _ _ _ _ _ _ _ W3 Hfits Hfr Hgv Ela) as [Hk Hq]. destruct (LogAndApply_logs _ _ _ _ _ _ _ _ _ _ _ Ela ok_OK) as [Hln Hlp]. rewrite N3, N4 in Hln. rewrite N5, N6 in Hlp.
  destruct (LogAndApply_current _ _ _ _ _ _ _ _ _ _ _ Ela ok_OK) as (-> & Hnx1 & Hdesc & cp & Hcur). destruct (complete_edit_fields vs edit1) as (F1 & F2 & _).
  assert (forall l, level_files (current vs1) l = level_files (SaveTo ucmp (Builder_Apply ucmp edit cp (NewBuilder (current vs))).2) l) as Hlev.
  { intros l. rewrite Hcur. unfold level_files at 1. rewrite files_Finalize. unfold level_files, Builder_Apply. cbn [snd]. by rewrite F1, F2, N1, N2, W8b. }
  destruct (saved_levels _ _ _ _ _ _ _ _ _ _ _ _ cp Hw Hfr0) as [L0 L1]. destruct (reachable_state _ _ _ _ _ _ Hname _ _ _ W3) as (_ & _ & _ & Hman & Hu & _). destruct (reachable_state _ _ _ _ _ _ Hname _ _ _ Hr1) as (Hf1 & _).
  destruct (tables_ok_same extend snappy zstd dbname in_scratch ucmp o contents v _ tc (current vs1) (vs_next_file_number vs1) (with_env (fun _ => e1) tc) W1) as [Htab Hp]; try done.
  { by rewrite Hlev. }
  { intros l Hl. by rewrite Hlev, L1. }
  { rewrite Hnx1. apply (to_numbers _ _ _ _ _ _ _ _ _ _ _ W1). }
  { rewrite Hnx1. apply (to_uncached _ _ _ _ _ _ _ _ _ _ _ W1). }
  { intros f Hfv. destruct (to_stored _ _ _ _ _ _ _ _ _ _ _ W1 f Hfv) as (Hfu & _). apply (LogAndApply_files _ _ _ _ _ _ _ _ _ _ _ (TableFileName dbname (number f)) Hman Ela).
    by apply (reachable_not_descriptor extend dbname reuse_logs ucmp cmp_name Hname max_file_size used _ _ _ (number f) kTableFile W3 (named_table dbname _ Hfu)). }
  split; [|done]. split; try done.
  - apply Forall_app. split; [|eapply Forall_impl; [exact R4|]; cbn; lia]. apply Forall_forall. intros k (nf & -> & Hin)%list_elem_of_fmap. destruct (Hnf nf Hin) as [_ [_ Hlt]]. cbn. lia.
  - intros l f l' Hl Hfl. assert (f ∈ level_files (current vs0) l \/ l = 0 /\ exists nf, nf ∈ new_files_ edit /\ number f = number nf.2) as Hor.
    { rewrite Hlev in Hfl. destruct (decide (l = 0)) as [->|]; [|left; rewrite L1, W6, Hc in Hfl by lia; done]. rewrite L0, W7, Hc in Hfl. apply elem_of_app in Hfl as [(nf & -> & Hin)%list_elem_of_fmap|Hfl]; [right; split; [done|by exists nf]|by left]. }
    rewrite elem_of_app. intros [(nf' & [= -> En] & Hin')%list_elem_of_fmap|Hus].
    + destruct (Hnf nf' Hin') as [-> _]. lia.
    + destruct Hor as [Hold|(-> & nf & Hin & En)]; [by apply (R5 l f)|]. destruct (Hnf nf Hin) as [_ [Hge _]]. pose proof (proj1 (Forall_forall _ _) R4 _ Hus) as Hlt. cbn in Hlt. lia.
  - rewrite Hp, W9, <-R3. by rewrite Hc.
  - rewrite Hcur. by apply Finalize_pick.
  - split; [done|]. by apply (LogAndApply_sequence _ _ _ _ _ _ _ _ _ _ _ Ela).
Qed.

(** ** The log *)

Lemma written_sequence used vs0 e0 contents0 bound fl c edit vs tc contents v last :
  written_tables used vs0 e0 contents0 bound fl c edit vs tc contents v -> is_u64 last ->
  written_tables used (VersionSet_SetLastSequence last vs0) e0 contents0 bound fl c edit (VersionSet_SetLastSequence last vs) tc contents v.
Proof.
  intros [W1 W2 W3 (W4a & (W4b & W4c & W4d) & W4e) W5 W6 W7 W8 W9 W10] Hl. assert (reachable used (VersionSet_SetLastSequence last vs) (tc_env tc)) as Hr by (by apply reach_sequence).
  destruct vs, vs0. cbn in *. by split.
Qed.

(** A new log. *)
Lemma written_log used vs0 e0 contents0 bound fl c edit vs tc contents v :
  let n := vs_next_file_number vs in let e := with_files <[LogFileName dbname n := []]> (tc_env tc) in
  written_tables used vs0 e0 contents0 bound fl c edit vs tc contents v -> n + 2 < 2 ^ 64 -> is_u64 n ->
  NewWritableFile (LogFileName dbname n) (tc_env tc) = (OK, Some (MkWritableFile [] []), e) /\
  written_tables used vs0 e contents0 (bound + 1) fl c (VersionEdit.SetLogNumber n edit) (NewFileNumber vs).2 (with_env (fun _ => e) tc) contents v.
Proof.
  intros n e Hw Hlt Hnu. pose proof Hw as [W1 W2 W3 W4 W5 W6 W7 (W8a & W8b & W8c & W8d) W9 W10]. destruct (reachable_state _ _ _ _ _ _ Hname _ _ _ W3) as (Hf & _).
  assert (env_faults e = []) as Hfe by (unfold e; by destruct (tc_env tc)). split; [unfold NewWritableFile, next_fault; rewrite Hf; fold e; by rewrite <-Hfe|].
  assert (forall f, f <> LogFileName dbname n -> env_files e !! f = env_files (tc_env tc) !! f) as He by (intros f Hne; unfold e; destruct (tc_env tc); cbn; by apply lookup_insert_ne).
  destruct (number_given vs0 vs W4 Hnu ltac:(fold n; lia)) as [N1 N2]. fold n in N1.
  assert (reachable used (NewFileNumber vs).2 e) as Hr by (apply (reachable_other extend dbname reuse_logs ucmp cmp_name Hname max_file_size used _ (tc_env tc) e (LogFileName dbname n) n kLogFile); [by apply reach_number|by apply named_log|done..]).
  split; try done; cbn [with_env tc_env]; rewrite ?N1; try done.
  - eapply (tables_ok_same extend snappy zstd dbname in_scratch ucmp o); [exact W1|done|done| | |done| |done].
    + intros f Hfv. pose proof (to_numbers _ _ _ _ _ _ _ _ _ _ _ W1 f Hfv). fold n in H. lia.
    + intros m Hm Hu. apply (to_uncached _ _ _ _ _ _ _ _ _ _ _ W1); [fold n; lia|done].
    + intros f Hfv. apply He. intros Eq. destruct (to_stored _ _ _ _ _ _ _ _ _ _ _ W1 f Hfv) as (Hu & _). pose proof (named_table dbname _ Hu) as Ht. rewrite Eq in Ht. by destruct (named_inj _ _ _ _ _ _ Ht (named_log dbname n Hnu)).
  - fold n in W5. lia.
  - assert (new_files_ (VersionEdit.SetLogNumber n edit) = new_files_ edit) as -> by (by destruct edit). done.
  - assert (new_files_ (VersionEdit.SetLogNumber n edit) = new_files_ edit /\ deleted_files_ (VersionEdit.SetLogNumber n edit) = deleted_files_ edit) as [-> ->] by (by destruct edit). split_and!; try done.
    + destruct W8a as [Hed Hcmp]. split; [|by destruct edit]. change (VersionEdit.SetLogNumber n edit) with (foldl VersionEdit.apply_op edit [OpLogNumber n]). apply edit_ok_foldl; [done|]. by apply Forall_singleton.
    + eapply Forall_impl; [exact W8d|]. intros nf (? & ? & ?). fold n in H1. split_and!; try done; lia.
Qed.

(** ** The database *)

(** The logs that are there when the edit is saved: those of [logs] have nothing in them. *)
Record logs_left (e : EnvState) (logs : list (Z * list entry)) (n min_log last : Z) (mes : list entry) : Prop := {
  ll_mem : log_holds extend dbname e n (last - slen mes) mes;
  ll_older : logs_hold extend dbname e (last - slen mes) logs /\ Forall (log_empty dbname e) logs /\ concat (map snd logs) = [];
  ll_sorted : StronglySorted Z.lt (map fst logs ++ [n]);
  ll_counted : Forall (fun x => 0 < x.1 /\ min_log <= x.1) logs;
  ll_files fname m : named dbname fname m kLogFile -> is_Some (env_files e !! fname) -> min_log <= m \/ m = 0 -> fname = LogFileName dbname m /\ m ∈ map fst logs ++ [n];
}.

Lemma opened_db e vs entries used vs1 tc1 contents mem n mes logs :
  saved e vs entries used vs1 tc1 contents -> let last := vs_last_sequence vs1 in logs_left e logs n (vs_log_number vs1) last mes ->
  mem_holds ucmp mem mes -> Forall entry_ok mes -> seqs_differ mes -> older mes entries ->
  vs_prev_log_number vs1 = 0 -> 0 < n < vs_next_file_number vs1 -> vs_log_number vs1 <= n ->
  (exists q, recorded_sequence (tc_env tc1) q /\ 0 <= last - slen mes <= q /\ q <= last) ->
  exists tc2, let st := MkDB mem None vs1 tc2 ∅ n OK false in
    RemoveObsoleteFiles dbname (MkDB mem None vs1 tc1 ∅ n OK false) = st /\ db_ok contents used mes [] st /\ durable logs mes [] st /\
    env_files (tc_env tc2) !! LogFileName dbname n = env_files e !! LogFileName dbname n.
Proof.
  intros [S1 S2 S3 S4 S5 S6 S7 [S8 S8'] S9] last [L1 (L2 & L3 & L4) L5 L6 L7] Hm Hok Hd Hold Hp Hn Hln (q & Hq & Hq1 & Hq2). set (st0 := MkDB mem None vs1 tc1 ∅ n OK false).
  destruct (reachable_state _ _ _ _ _ _ Hname _ _ _ S1) as (Hf & _ & Hnx & _). assert (is_u64 n) as Hnu by (unfold in_u; lia).
  destruct (removed_spec dbname st0 Hf ok_OK) as (tc2 & Er & Hf2 & Hc2 & Hneed & Hsub). exists tc2. cbv zeta. change (MkDB mem None vs1 tc2 ∅ n OK false) with (set_table_cache tc2 st0). split; [done|].
  destruct (removed_logs extend dbname reuse_logs ucmp cmp_name Hname max_file_size used st0 tc2 S1 S7 Hf2 Hneed Hsub) as [Hk Hqs]. cbn [st0 db_versions db_table_cache] in Hk, Hqs, Hsub.
  pose proof (reachable_removed extend dbname reuse_logs ucmp cmp_name Hname max_file_size used st0 tc2 S1 S7 Hf2 Hneed) as Hr2. cbn [st0 db_versions] in Hr2.
  assert (forall m, is_u64 m -> vs_log_number vs1 <= m -> env_files (tc_env tc2) !! LogFileName dbname m = env_files e !! LogFileName dbname m) as Hlogs by (intros m Hmu Hle; rewrite (proj1 Hk m Hmu Hle); by apply (proj1 (S9 m))).
  assert (forall x, x ∈ logs -> is_u64 x.1 /\ env_files (tc_env tc2) !! LogFileName dbname x.1 = env_files e !! LogFileName dbname x.1) as Hlx.
  { intros x Hx. pose proof (proj1 (Forall_forall _ _) L6 x Hx) as [Hx1 Hx2]. pose proof (StronglySorted_app_1_elem_of Z.lt _ _ x.1 n L5 ltac:(by apply list_elem_of_fmap_2) ltac:(left)) as Hlt.
    assert (is_u64 x.1) as Hxu by (unfold in_u in *; lia). split; [done|]. by apply Hlogs. }
  destruct (tables_ok_same extend snappy zstd dbname in_scratch ucmp o contents _ _ tc1 (current vs1) (vs_next_file_number vs1) tc2 S4) as [Htab _]; try done.
  { apply (to_numbers _ _ _ _ _ _ _ _ _ _ _ S4). }
  { intros m Hm' Hu. destruct (tc_cache tc2 !! EncodeFixed64 m) as [t|] eqn:Et; [|done]. apply Hc2 in Et. cbn in Et. by rewrite (to_uncached _ _ _ _ _ _ _ _ _ _ _ S4 m Hm' Hu) in Et. }
  { intros f Hfv. destruct (to_stored _ _ _ _ _ _ _ _ _ _ _ S4 f Hfv) as (Hu & _). apply Hneed, needed_table; [done|]. apply AddLiveFiles_spec. right. destruct Hfv as (l & _ & Hfl). destruct (current_files_live _ _ _ Hfl) as (lv & Hlv & Hf'). by exists lv, f. }
  split; [|split; [|by apply Hlogs]].
  - split; cbn [set_table_cache st0 db_mem db_imm db_versions db_table_cache]; try done; try apply Htab. split; [by apply older_nil_r|]. split; [|by apply older_nil_l]. intros a b Ha Hb. rewrite S5 in Hb. by apply Hold.
  - split; cbn [set_table_cache st0 db_mem db_imm db_versions db_table_cache db_logfile_number]; fold last; try done; cbn [length]; rewrite ?Z.sub_0_r.
    + eapply log_holds_same; [|exact L1]. by apply Hlogs.
    + split; [|done]. eapply logs_hold_same; [|exact L2]. apply Forall_forall. intros x Hx. by apply Hlx.
    + apply Forall_forall. intros x Hx. unfold log_empty. rewrite (proj2 (Hlx x Hx)). by apply (proj1 (Forall_forall _ _) L3).
    + intros fname m Hm' Hs Hor. apply L7; [done| |done]. apply (proj2 (S9 m) fname m Hm'). by apply Hsub.
    + exists q. split; [by apply Hqs|]. done.
Qed.

(** A new log has nothing in it. *)
Lemma new_log_left e m min_log last :
  is_u64 m -> (forall fname m', named dbname fname m' kLogFile -> is_Some (env_files e !! fname) -> min_log <= m' \/ m' = 0 -> False) ->
  logs_left (with_files <[LogFileName dbname m := []]> e) [] m min_log last [].
Proof.
  intros Hmu Hno. split; try done.
  - exists [], [], []. split; [destruct e; cbn; apply lookup_insert_eq|]. split_and!; try done. constructor.
  - repeat constructor.
  - intros fname m' Hm Hs Hor. destruct (decide (fname = LogFileName dbname m)) as [->|Hne]; [destruct (named_inj _ _ _ _ _ _ Hm (named_log dbname m Hmu)) as [-> _]; by split; [|left]|].
    exfalso. apply (Hno fname m' Hm); [|done]. destruct e. cbn in *. by rewrite lookup_insert_ne in Hs.
Qed.

(** ** [DB::Open] *)

Abbreviation open_db := (Open extend snappy zstd dbname o in_scratch None ucmp cmp_name max_file_size write_buffer_size create_if_missing false paranoid_checks reuse_logs).

Definition opened_store (st : DBState) (s : slice) (off : Z) : Store :=
  MkStore (MaybeScheduleCompaction (MkBackground st NewSnapshotList None false)) (LogFileName dbname (db_logfile_number st)) (MkWriter (MkWritableFile s []) off) NewWriteBatch 0.

(** The database that is opened has the entries, with those of the log in the memtable. *)
Record opened (entries : list entry) (last bound : Z) (st : DBState) (s : slice) (off : Z) : Prop := {
  op_db : exists contents used mes logs, db_ok contents used mes [] st /\ durable logs mes [] st /\ mes ++ all_entries contents (v_of st) ≡ₚ entries;
  op_pick : pick_ok (v_of st);
  op_mem : 1 <= refs_ (db_mem st) /\ db_imm st = None;
  op_state : db_bg_error st = OK /\ db_shutting_down st = false;
  op_numbers : vs_last_sequence (db_versions st) = last /\ vs_next_file_number (db_versions st) <= bound;
  op_log : env_files (env_of st) !! LogFileName dbname (db_logfile_number st) = Some s /\ 0 <= off <= kBlockSize /\ off mod kBlockSize = slen s mod kBlockSize;
}.

Lemma Open_tail e r1 r2 r3 mem n s off st :
  recover_db e = Some (OK, r1) -> open_log dbname r1 = (OK, r2) -> rc_log r2 = Some (mem, n, MkWriter (MkWritableFile s []) off) -> save_recovered extend dbname ucmp cmp_name n r2 = (OK, r3) ->
  RemoveObsoleteFiles dbname (MkDB mem None (rc_versions r3) (rc_table_cache r3) ∅ n OK false) = st -> db_logfile_number st = n -> open_db e = Some (OK, Some (opened_store st s off), env_of st).
Proof. intros E1 E2 E3 E4 E5 E6. unfold Open. rewrite E1. cbn [mbind option_bind]. rewrite ok_OK, E2, ok_OK, E3, E4, ok_OK, E5. cbn [negb]. unfold opened_store. by rewrite E6. Qed.

Lemma save_recovered_spec n r edit vs e :
  rc_save_manifest r = true -> LogAndApply ucmp cmp_name extend dbname (VersionEdit.SetLogNumber n (SetPrevLogNumber 0 (rc_edit r))) (rc_versions r) (rc_env r) = (OK, edit, vs, e) ->
  exists r', save_recovered extend dbname ucmp cmp_name n r = (OK, r') /\ rc_versions r' = vs /\ rc_table_cache r' = with_env (fun _ => e) (rc_table_cache r).
Proof. intros Hs E1. unfold save_recovered. rewrite Hs, E1. by eexists. Qed.

Abbreviation opens src all last bound := (exists st' s' off, open_db src = Some (OK, Some (opened_store st' s' off), env_of st') /\ opened all last bound st' s' off).

(** The rest of [DB::Open], with the log that it goes on with and the edit saved. *)
Lemma opened_saved src all last bound r1 r2 r3 mem m s' off e vs entries used1 contents1 ls mes' :
  recover_db src = Some (OK, r1) -> open_log dbname r1 = (OK, r2) -> rc_log r2 = Some (mem, m, MkWriter (MkWritableFile s' []) off) -> save_recovered extend dbname ucmp cmp_name m r2 = (OK, r3) ->
  saved e vs entries used1 (rc_versions r3) (rc_table_cache r3) contents1 -> logs_left e ls m (vs_log_number (rc_versions r3)) last mes' ->
  mem_holds ucmp mem mes' -> 1 <= refs_ mem -> Forall entry_ok mes' -> seqs_differ mes' -> mes' ++ entries ≡ₚ all -> older mes' entries ->
  vs_last_sequence vs = last -> vs_next_file_number vs <= bound -> vs_prev_log_number (rc_versions r3) = 0 -> 0 < m < vs_next_file_number vs -> vs_log_number (rc_versions r3) <= m ->
  (exists q, recorded_sequence (tc_env (rc_table_cache r3)) q /\ 0 <= last - slen mes' <= q /\ q <= last) ->
  env_files e !! LogFileName dbname m = Some s' -> 0 <= off <= kBlockSize -> off mod kBlockSize = slen s' mod kBlockSize -> opens src all last bound.
Proof.
  intros Er Eo El E3 Hsv Hleft Hmem Href Ok1 Hd Hperm Hold Hl Hnx Hp Hm Hle Hq Hs' Hoff1 Hoff2. pose proof (sv_numbers _ _ _ _ _ _ _ Hsv) as [Sn Sl].
  destruct (opened_db _ _ _ _ _ _ _ mem m mes' ls Hsv) as (tc2 & Est & Hok & Hdu' & Hs2); rewrite ?Sl, ?Hl, ?Sn; try done.
  eexists _, s', off. split; [by eapply Open_tail|]. split; cbn [db_versions db_mem db_imm db_bg_error db_shutting_down db_logfile_number db_table_cache]; try done.
  - exists contents1, used1, mes', ls. split_and!; try done. by rewrite (sv_entries _ _ _ _ _ _ _ Hsv).
  - apply (sv_pick _ _ _ _ _ _ _ Hsv).
  - rewrite Sl, Sn. done.
  - by rewrite Hs2.
Qed.

Section recovered.
Context (contents : FileMetaData -> list entry) (used : list (Z * Z)) (mes ies : list entry) (logs : list (Z * list entry)) (st : DBState).
Context (Hdb : db_ok contents used mes ies st) (Hdu : durable logs mes ies st).
Context (Hmax : vs_next_file_number (db_versions st) + slen E + 16 < 2 ^ 64) (Hseq : 0 <= vs_last_sequence (db_versions st) /\ vs_last_sequence (db_versions st) + 1 < 2 ^ 64).
Context (e0 : EnvState) (vs0 : VersionSet) (contents0 : FileMetaData -> list entry) (r : Recovering) (s : slice) (torn : bool) (src : EnvState) (Hrec : recovered torn contents used mes ies logs st e0 vs0 contents0 r s).

Abbreviation last := (vs_last_sequence (db_versions st)).
Abbreviation n := (db_logfile_number st).
Abbreviation base := (all_entries contents (v_of st)).
Abbreviation bound := (vs_next_file_number (db_versions st) + 1).
Abbreviation r1 := (set_rc_versions (VersionSet_SetLastSequence last (rc_versions r)) r).

Lemma log_number_u64 : is_u64 n.
Proof. destruct Hdu as [_ [? _] _ _ _ _ _ _ _]. unfold in_u. lia. Qed.

(** The memtable that is kept. *)
Lemma recovered_mem : Forall entry_ok mes /\ seqs_differ mes /\ older mes (ies ++ base) /\ older mes base.
Proof.
  pose proof (ok_entries _ _ _ _ _ _ _ _ _ _ _ _ _ _ _ Hdb) as (Ok1 & _ & Hd & _). pose proof (ok_older _ _ _ _ _ _ _ _ _ _ _ _ _ _ _ Hdb) as (O1 & O2 & _).
  split_and!; try done. intros a b Ha [Hb|Hb]%elem_of_app; [by apply O1|by apply O2].
Qed.

Lemma bytes_off : 0 <= slen s mod kBlockSize <= kBlockSize /\ (slen s mod kBlockSize) mod kBlockSize = slen s mod kBlockSize.
Proof. assert (0 < kBlockSize) by done. pose proof (Z.mod_pos_bound (slen s) kBlockSize). split; [lia|]. apply Z.mod_mod. lia. Qed.

Context (Hlen : slen mes + slen ies <= slen E).

Abbreviation opens_with := (opens src (mes ++ ies ++ base) last (bound + slen E + 5)).
Abbreviation recover_to := (recover_db src = Some (OK, r1)).

(** The log that is used again, with nothing in the logs before it. *)
Lemma reused_left e min_log ls :
  torn = false -> logs_same extend dbname reuse_logs ucmp cmp_name max_file_size e0 e -> vs_log_number (db_versions st) <= min_log ->
  (forall x, x ∈ ls -> min_log <= x.1) -> (ls = [] /\ min_log = n \/ ls = logs /\ ies = [] /\ Forall (log_empty dbname e0) logs) -> logs_left e ls n min_log last mes.
Proof.
  intros Ht [Hk _] Hmin Hge Hls. pose proof (re_found _ _ _ _ _ _ _ _ _ _ _ _ Hrec) as [F1 F2 F3 F4 F5]. rewrite Ht in F4. apply log_left_intact in F4. pose proof (fun x => durable_below extend dbname reuse_logs ucmp cmp_name max_file_size _ _ _ _ x Hdu) as Hbelow.
  assert (forall m, is_u64 m -> env_files e !! LogFileName dbname m = env_files e0 !! LogFileName dbname m) as Hm by (intros m Hmu; by apply (proj1 (Hk m))).
  pose proof Hdu as [_ [Hn0 _] _ [_ D4] D5 D6 _ _ _]. pose proof log_number_u64 as Hnu.
  assert (forall x, x ∈ logs -> env_files e !! LogFileName dbname x.1 = env_files e0 !! LogFileName dbname x.1) as Hsame by (intros x Hx; apply Hm, F1, elem_of_app; left; by apply list_elem_of_fmap_2).
  assert (log_holds extend dbname e n (last - slen mes) mes) as Hmem by (eapply log_holds_same; [by apply Hm|done]).
  assert (forall fname m, named dbname fname m kLogFile -> is_Some (env_files e !! fname) -> min_log <= m \/ m = 0 -> fname = LogFileName dbname m /\ m ∈ map fst logs ++ [n]) as Hfiles.
  { intros fname m Hn Hs Hor. apply F2; [done|by apply (proj2 (Hk m) fname m)|]. destruct Hor; [left; lia|by right]. }
  destruct Hls as [[-> ->]|(-> & Ei & Hz)].
  - split; try done; [repeat constructor|]. intros fname m Hn Hs Hor. destruct (Hfiles fname m Hn Hs Hor) as [Ef Hin]. split; [done|]. apply elem_of_app. right.
    apply elem_of_app in Hin as [(x & -> & Hx)%list_elem_of_fmap|Hin]; [|done]. pose proof (Hbelow x Hx) as Hb. lia.
  - split; try done.
    + rewrite Ei in *. cbn [length] in F3. rewrite Z.sub_0_r in F3. split_and!; [|apply Forall_forall; intros x Hx|by rewrite D4].
      * eapply logs_hold_same; [|exact F3]. by apply Forall_forall.
      * unfold log_empty. rewrite (Hsame x Hx). by apply (proj1 (Forall_forall _ _) Hz).
    + apply Forall_forall. intros x Hx. pose proof (Hbelow x Hx). split; [lia|by apply Hge].
Qed.

(** The log is used again. *)
Lemma opened_reused mem m w : torn = false -> rc_log r = Some (mem, m, w) -> recover_to -> opens_with.
Proof.
  intros Ht El Er. destruct Hrec as [(save & Hrb & Hsave) [Hln Hpn] (q & Hq & Hq1 & Hq2) _ Hbytes Hnext Hlog]. rewrite El in Hlog. destruct Hlog as ([-> _] & (c & (ct & v & Hw) & Hnone & Hc) & Hmem & Href & -> & Hempty).
  pose proof (written_sequence _ _ _ _ _ _ _ _ _ _ _ _ last Hw ltac:(unfold in_u; lia)) as Hw'. set (vs := VersionSet_SetLastSequence last (rc_versions r)) in *. set (tc := rc_table_cache r) in *.
  assert (vs_last_sequence vs = last /\ vs_next_file_number vs = vs_next_file_number (rc_versions r) /\ vs_log_number vs = vs_log_number (rc_versions r) /\ vs_prev_log_number vs = vs_prev_log_number (rc_versions r)) as (V1 & V2 & V3 & V4) by (unfold vs; by destruct (rc_versions r)).
  destruct (wt_vs _ _ _ _ _ _ _ _ _ _ _ _ _ _ _ _ _ _ _ _ _ _ Hw) as (_ & (_ & W1 & W2) & _). pose proof (wt_next _ _ _ _ _ _ _ _ _ _ _ _ _ _ _ _ _ _ _ _ _ _ Hw) as [_ Hnx]. pose proof (wt_logs _ _ _ _ _ _ _ _ _ _ _ _ _ _ _ _ _ _ _ _ _ _ Hw) as Hls.
  destruct recovered_mem as (Ok1 & Hd & Ho1 & Ho2). pose proof Hdu as [_ [Hn0 Hn1] _ _ _ _ _ _ _]. pose proof log_number_u64 as Hnu. pose proof bytes_off as [Hoff1 Hoff2].
  assert (open_log dbname r1 = (OK, r1) /\ rc_log r1 = rc_log r) as [Eo El1] by (unfold open_log; destruct r; cbn in *; by rewrite El). rewrite El in El1.
  assert (env_files (tc_env tc) !! LogFileName dbname n = Some s) as Hs1 by (rewrite (proj1 (proj1 Hls n) n Hnu ltac:(lia)); done).
  destruct (rc_save_manifest r) eqn:Esv.
  - destruct (saved_edit _ _ _ _ _ _ _ _ (VersionSet_SetLastSequence last vs0) _ _ _ _ _ _ _ n Hrb ltac:(by destruct vs0) ltac:(by destruct vs0) Hw' Hnu) as (edit' & vs1 & e1 & used1 & Ela & Hsv & Hl1 & Hp1 & Hq').
    destruct (save_recovered_spec n r1 edit' vs1 e1 Esv Ela) as (r3 & E3 & Hv3 & Ht3).
    eapply (opened_saved _ _ last _ _ r1 r3 mem n s _ _ vs _ _ _ [] mes Er Eo El1 E3); try done; rewrite ?Hv3, ?Ht3, ?Hl1, ?V2; try done; try lia.
    + apply reused_left; [done|done|done|by intros x ?%elem_of_nil|by left].
    + exists last. rewrite V1 in Hq'. split; [done|]. lia.
  - destruct (Hnone eq_refl) as [Ei Eedit]. assert (save = false) as Hsf by (destruct save; [by specialize (Hsave eq_refl)|done]). rewrite Ei, Eedit in Hw'.
    pose proof (saved_nothing _ _ _ _ _ _ _ _ (VersionSet_SetLastSequence last vs0) _ _ _ _ _ _ Hrb Hsf ltac:(by destruct vs0) ltac:(by destruct vs0) ltac:(by destruct vs0) Hw' eq_refl) as Hsv.
    eapply (opened_saved _ _ last _ _ r1 r1 mem n s _ _ vs _ _ _ logs mes Er Eo El1); try done; try (change (rc_versions r1) with vs); rewrite ?V2, ?V3, ?V4, ?W1, ?W2, ?Hln; try done; try lia.
    + unfold save_recovered. change (rc_save_manifest r1) with (rc_save_manifest r). by rewrite Esv.
    + apply reused_left; [done|done|done| |right; split_and!; [done|done|by apply Hempty]]. intros x Hx. by apply (durable_below extend dbname reuse_logs ucmp cmp_name max_file_size _ _ _ _ x Hdu).
    + by rewrite Ei.
    + exists q. split; [by apply (proj2 Hls)|]. rewrite Ei in Hq1. cbn [length] in Hq1. lia.
Qed.

(** A new log, with an empty memtable. *)
Lemma opened_new : rc_log r = None -> recover_to -> opens_with.
Proof.
  intros El Er. destruct Hrec as [(save & Hrb & Hsave) [Hln Hpn] _ _ _ Hnext Hlog]. rewrite El in Hlog. destruct Hlog as [(c & (ct & v & Hw) & Hnone & Hc) Esv].
  pose proof (written_sequence _ _ _ _ _ _ _ _ _ _ _ _ last Hw ltac:(unfold in_u; lia)) as Hw'. set (vs := VersionSet_SetLastSequence last (rc_versions r)) in *. set (tc := rc_table_cache r) in *.
  assert (vs_last_sequence vs = last /\ vs_next_file_number vs = vs_next_file_number (rc_versions r)) as (V1 & V2) by (unfold vs; by destruct (rc_versions r)).
  pose proof (wt_next _ _ _ _ _ _ _ _ _ _ _ _ _ _ _ _ _ _ _ _ _ _ Hw) as [_ Hnx]. rewrite length_app in Hnx. pose proof (wt_logs _ _ _ _ _ _ _ _ _ _ _ _ _ _ _ _ _ _ _ _ _ _ Hw) as Hls.
  pose proof Hdu as [_ [Hn0 Hn1] _ _ _ _ _ _ _]. set (m := vs_next_file_number vs) in *. assert (is_u64 m) as Hmu by (unfold in_u; lia).
  destruct (written_log _ _ _ _ _ _ _ _ _ _ _ _ Hw' ltac:(fold m; lia) Hmu) as [Enew Hw2]. fold m in Enew, Hw2. set (e := with_files <[LogFileName dbname m:=[]]> (tc_env tc)) in *.
  destruct (saved_edit _ _ _ _ _ _ _ _ (VersionSet_SetLastSequence last vs0) _ _ _ _ _ _ _ m Hrb ltac:(by destruct vs0) ltac:(by destruct vs0) Hw2 Hmu) as (edit' & vs1 & e1 & used1 & Ela & Hsv & Hl1 & Hp1 & Hq').
  set (vs2 := (NewFileNumber vs).2) in *. assert (vs_last_sequence vs2 = last /\ vs_next_file_number vs2 = m + 1) as [V3 V4].
  { unfold vs2, NewFileNumber. cbn [snd]. rewrite wrap_small by (fold m; clear -Hmu Hnx Hmax Hlen V2 Hc; unfold in_u in *; lia). rewrite <-V1. by destruct vs. }
  set (r2 := set_rc_log (MemTable_Ref NewMemTable, m, NewWriter (MkWritableFile [] [])) (set_rc_edit (VersionEdit.SetLogNumber m (rc_edit r)) (set_rc_env e (set_rc_versions vs2 r)))).
  assert (open_log dbname r1 = (OK, r2)) as Eo.
  { unfold open_log. change (rc_log r1) with (rc_log r). rewrite El. change (rc_versions r1) with vs. change (rc_env r1) with (tc_env tc). assert (NewFileNumber vs = (m, vs2)) as -> by done. by rewrite Enew. }
  destruct (save_recovered_spec m r2 edit' vs1 e1 Esv Ela) as (r3 & E3 & Hv3 & Ht3).
  eapply (opened_saved _ _ last _ _ r2 r3 _ m _ _ _ vs2 _ _ _ [] [] Er Eo eq_refl E3); try done; rewrite ?Hv3, ?Ht3, ?Hl1; try done; try lia.
  - cbn [with_env tc_env]. pose proof (re_found _ _ _ _ _ _ _ _ _ _ _ _ Hrec) as [F1 F2 F3 F4 F5]. pose proof (fun x => durable_below extend dbname reuse_logs ucmp cmp_name max_file_size _ _ _ _ x Hdu) as Hbelow.
    apply new_log_left; [done|]. intros fname m' Hm Hs Hor. destruct (F2 fname m' Hm ltac:(by apply (proj2 (proj1 Hls m') fname m')) ltac:(lia)) as [_ Hin].
    apply elem_of_app in Hin as [(x & -> & Hx)%list_elem_of_fmap| ->%list_elem_of_singleton]; [pose proof (Hbelow x Hx); lia|lia].
  - by apply mem_holds_new.
  - cbn [app]. by rewrite <-(assoc_L _ ies mes), !(assoc_L (++)), (comm (++) ies mes).
  - apply older_nil_l.
  - exists last. rewrite V3 in Hq'. cbn [length]. split; [done|lia].
  - unfold e. cbn [with_env tc_env]. destruct (tc_env tc); cbn. apply lookup_insert_eq.
Qed.

End recovered.

(** Opening the files of a database; a log with a part of a record is not written on. *)
Lemma Open_spec torn contents used mes ies logs st src :
  db_ok contents used mes ies st -> durable logs mes ies st -> leaves torn mes st src -> (torn = true -> reuse_logs = false) -> (forall e, e ∈ mes ++ ies ++ all_entries contents (v_of st) -> e ∈ E) ->
  let next := vs_next_file_number (db_versions st) in let last := vs_last_sequence (db_versions st) in
  next + slen E + 16 < 2 ^ 64 -> 0 <= last -> last + 1 < 2 ^ 64 ->
  exists st' s off, open_db src = Some (OK, Some (opened_store st' s off), env_of st') /\ opened (mes ++ ies ++ all_entries contents (v_of st)) last (next + slen E + 6) st' s off.
Proof.
  intros Hdb Hdu Hle Ht HE next last Hmax H0 Hseq. destruct (DB_Recover_spec torn contents used mes ies logs st src Hdb Hdu Hle HE Hmax Hseq) as (e0 & vs0 & contents0 & r & s & Er & Hrec).
  assert (slen mes + slen ies <= slen E) as Hlen.
  { assert (slen (ies ++ mes) <= slen E) as H; [|rewrite length_app in H; lia]. apply Nat2Z.inj_le, NoDup_length_le; [by apply seqs_differ_NoDup, sorted_differ, (durable_sorted logs _ _ st)|]. intros e He. apply HE. rewrite !elem_of_app in *. tauto. }
  replace (next + slen E + 6) with (next + 1 + slen E + 5) by lia. destruct (rc_log r) as [[[mem m] w]|] eqn:El; [|by eapply opened_new]. eapply opened_reused; try done.
  pose proof (re_log _ _ _ _ _ _ _ _ _ _ _ _ Hrec) as Hlog. cbv zeta in Hlog. rewrite El in Hlog. destruct Hlog as ([_ Hre] & _). destruct torn; [by rewrite Ht in Hre|done].
Qed.

(** ** The store *)

Abbreviation store_inv := (store_inv extend snappy zstd dbname in_scratch reuse_logs ucmp cmp_name max_file_size o E).
Abbreviation store_ok := (store_ok extend snappy zstd dbname in_scratch reuse_logs ucmp cmp_name max_file_size o E).

(** A store is opened that has the reads of the history. *)
Lemma opened_ok k hist floor entries last bound st s off :
  opened entries last bound st s off -> seqs_differ entries -> (forall e, e ∈ entries -> e ∈ E /\ e_seq e <= last) -> (forall e, e ∈ hist -> e_seq e <= last) ->
  same_reads floor hist entries -> 0 <= floor <= last -> last < kMaxSequenceNumber -> bound + k * (slen E + 1) + 2 < 2 ^ 64 ->
  store_ok k (MkSpec hist last [] (sl_next_address NewSnapshotList)) (opened_store st s off).
Proof.
  intros [(contents & used & mes & logs & Hdb & Hdu & Hp) Hpick [Hrm Him] [Herr Hopen] [Hl Hnx] (Hs & Ho1 & Ho2)] Hd HE Hh Hr Hf Hmax Hk. exists contents, used, mes, [], floor. pose proof (du_number _ _ _ _ _ _ _ _ _ _ Hdu) as [Hn _].
  set (bg := MkBackground st NewSnapshotList None false). destruct (MaybeSchedule_fields bg) as (B1 & B2 & B3). assert (forall e, e ∈ mes ++ all_entries contents (v_of st) -> e ∈ E /\ e_seq e <= last) as HE' by (intros e He; apply HE; by rewrite <-Hp).
  split; unfold store_entries; cbn [opened_store s_bg s_log s_tmp_batch s_logfile sp_hist sp_seq sp_snaps sp_next]; fold bg; rewrite ?B1, ?B2; cbn [bg bg_db bg_snapshots app]; try done.
  - split; rewrite ?B1, ?B3; cbn [bg bg_db bg_manual app]; try done; [intros e He; apply HE', elem_of_app; by right|lia| |by rewrite Herr]. pose proof (ok_reachable _ _ _ _ _ _ _ _ _ _ _ _ _ _ _ Hdb) as Hre. destruct (reachable_state _ _ _ _ _ _ Hname _ _ _ Hre) as (_ & _ & Hu & _). unfold in_u. lia.
  - apply MaybeSchedule_awake; cbn [bg bg_db]; by rewrite ?Herr.
  - intros e He. apply HE', elem_of_app. by left.
  - intros key q value Hq. rewrite <-(Hr key q value Hq). f_equal. apply newest_same; [done|]. intros e _. by rewrite Hp.
  - lia.
  - intros e He. by apply HE'.
  - split; [apply new_represents|done].
  - constructor.
  - by exists s, off.
  - by split; [|rewrite Him].
  - by exists logs.
Qed.

(** The calls of the background thread that have as many numbers as opening the store takes. *)
Definition reopen_cost : Z := 15.

(** The files of a store when the process ends: its log, or its log with a part of one more record. *)
Definition store_leaves (torn : bool) (s : Store) (src : EnvState) : Prop :=
  let c := wf_contents (dest_ (s_log s)) in let off := block_offset_ (s_log s) in
  env_faults src = [] /\ (forall f, f <> s_logfile s -> env_files src !! f = env_files (env_of (s_db s)) !! f) /\
  if torn then exists frags rec c', is_record frags rec /\ frags_fit off frags /\ env_files src !! s_logfile s = Some c' /\
    c `prefix_of` c' /\ c' `prefix_of` c ++ layout extend off frags /\ c' <> c ++ layout extend off frags
  else env_files src !! s_logfile s = Some c.

Lemma store_leaves_own k sp s : store_ok k sp s -> store_leaves false s (env_of (s_db s)).
Proof.
  intros (contents & used & mes & ies & floor & [[Hdb _ _ _ _ _ _ _] _ _ _ _ _ _ _ _ _ (c & off & L1 & _ & _ & L2) _ _ _ _]). pose proof (ok_reachable _ _ _ _ _ _ _ _ _ _ _ _ _ _ _ Hdb) as Hre.
  destruct (reachable_state _ _ _ _ _ _ Hname _ _ _ Hre) as (Hfl & _). unfold store_leaves. rewrite L1. by split_and!.
Qed.

Lemma store_leaves_log torn k sp s src contents used mes ies floor :
  store_inv k sp s contents used mes ies floor -> store_leaves torn s src -> leaves torn mes (s_db s) src.
Proof.
  intros [_ _ _ _ _ _ _ _ _ _ (c & off & Elog & Hoff & Hmod & Hfile) _ Hlf _ [logs Hdu]] (Hf & Hsame & Hlog). rewrite Elog in Hlog. cbn [dest_ wf_contents block_offset_] in Hlog. rewrite Hlf in *. split; [done|done|].
  pose proof (du_mem _ _ _ _ _ _ _ _ _ _ Hdu) as Hm. destruct torn; [|eapply log_left_same; [|by apply log_holds_left, Hm]; congruence].
  destruct Hlog as (frags & rec & c' & Hrec & Hfit' & Hc' & P1 & P2 & Hne). destruct Hm as (fragss & recs & gs & F1 & F2 & F3 & F4 & F5). rewrite Hfile in F1. injection F1 as ->.
  destruct (layout_continues extend fragss off frags F3 Hoff Hmod Hfit') as (L1 & L2 & _). assert (concat (fragss ++ [frags]) = concat fragss ++ frags) as Ec by (rewrite concat_app; cbn; by rewrite app_nil_r). rewrite Ec in L1, L2.
  exists fragss, recs, gs, frags, c'. rewrite L1. split_and!; try done. right. split; [by exists rec|]. by rewrite L1.
Qed.

Lemma reopen_spec torn k sp s src :
  0 <= k -> store_ok (k + reopen_cost) sp s -> store_leaves torn s src -> (torn = true -> reuse_logs = false) ->
  exists s', open_db src = Some (OK, Some s', env_of (s_db s')) /\ store_ok k (MkSpec (sp_hist sp) (sp_seq sp) [] (sl_next_address NewSnapshotList)) s'.
Proof.
  intros Hk (contents & used & mes & ies & floor & Hinv) Hle Ht. pose proof (store_leaves_log torn _ _ _ _ _ _ _ _ _ Hinv Hle) as Hlv. destruct Hinv as [[Hdb Hp Hman Hin Hnum Hlg Herr Hopen] Ha Hm Hr [Hseq Hs0] Hb Hh _ _ [Hf _] _ _ _ _ [logs Hdu]].
  unfold reopen_cost in Hnum. assert (kMaxSequenceNumber + 1 < 2 ^ 64) as Hmax by done.
  assert (forall e, e ∈ mes ++ ies ++ all_entries contents (v_of (s_db s)) -> e ∈ E) as HE by (intros e [He|He]%elem_of_app; [by apply Hm|by apply Hin]).
  destruct (Open_spec torn contents used mes ies logs (s_db s) src Hdb Hdu Hlv Ht HE) as (st' & log & off & E1 & Hop); [nia|lia|lia|]. exists (opened_store st' log off). split; [rewrite E1; unfold opened_store; cbn [s_bg]; by destruct (MaybeSchedule_fields (MkBackground st' NewSnapshotList None false)) as (-> & _)|].
  rewrite Hseq in Hop. eapply (opened_ok k (sp_hist sp) floor); [exact Hop| | |done|done|lia|lia|nia].
  - by apply (db_entries_differ extend snappy zstd dbname in_scratch reuse_logs ucmp cmp_name max_file_size o contents used).
  - intros e He. split; [by apply HE|by apply Hb].
Qed.

(** ** A new directory *)

Definition new_directory (e : EnvState) : Prop :=
  env_faults e = [] /\ env_files e !! CurrentFileName dbname = None /\ forall fname n, named dbname fname n kLogFile -> env_files e !! fname = None.

(** The version with no files. *)
Lemma empty_tables v next e : (forall l, 0 <= l < kNumLevels -> level_files v l = []) -> env_faults e = [] -> tables_ok (fun _ => []) v next (MkTableCache e ∅ 0) /\ all_entries (fun _ => []) v = [].
Proof.
  intros Hv Hf. assert (forall f, ~ in_version v f) as Hin by (intros f (l & Hl & Hfl); rewrite Hv in Hfl by done; by apply elem_of_nil in Hfl). split.
  - split; try (by intros f Hfv; destruct (Hin f Hfv)); try done; [|split; [done|]; intros f Hfv; by destruct (Hin f Hfv)].
    split; try (intros l Hl; rewrite Hv by lia; done || constructor).
    + rewrite Hv by done. constructor.
    + intros f g Hf'. rewrite Hv in Hf' by done. by apply elem_of_nil in Hf'.
    + intros i j Hi Hj. rewrite Hv by lia. apply older_nil_l.
  - apply elem_of_nil_inv. intros e' He'. unfold all_entries, levels_es in He'. apply list_elem_of_In, in_concat in He' as (es & (l & <- & Hl)%in_map_iff & He'). apply list_elem_of_In, elem_of_seqZ in Hl. rewrite Hv in He' by (unfold kNumLevels in *; lia). done.
Qed.

Lemma NewDB_read_back e :
  env_faults e = [] -> exists e0 save vs0 contents0, NewDB cmp_name extend dbname e = (OK, e0) /\ VersionSet_Recover NewVersionSet e0 = Some (OK, save, vs0, e0) /\ read_back [] [] e0 vs0 save contents0 /\
    written_tables [] vs0 e0 contents0 3 [] 0 NewVersionEdit vs0 (MkTableCache e0 ∅ 0) contents0 (current vs0) /\
    vs_log_number vs0 = 0 /\ vs_prev_log_number vs0 = 0 /\ vs_last_sequence vs0 = 0 /\ vs_next_file_number vs0 = 3 /\ recorded_sequence e0 0 /\
    env_faults e0 = [] /\ forall fname n, named dbname fname n kLogFile -> env_files e0 !! fname = env_files e !! fname.
Proof.
  intros Hf. destruct (created_consistent ucmp cmp_name extend dbname max_file_size reuse_logs Hname e Hf) as (e0 & save & vs0 & fragss & En & Er & Hco & Hnx & Hl & Hother).
  assert (reachable [] vs0 e0) as Hreach by (by apply (reach_create _ _ _ _ _ _ e e0 OK save vs0 e0)). destruct (Recover_state _ _ _ _ _ _ _ _ _ _ _ Er ok_OK) as (Hlv & (b & Hcur) & Hsv). pose proof Hco as [[Hf0 _ _ _ _ _ _ _] _ _ _ [[R1 R1'] R2 R3] _ _ _ _ _].
  assert (forall l, 0 <= l < kNumLevels -> level_files (current vs0) l = []) as Hv.
  { intros l Hll. destruct (R1' l Hll) as (_ & _ & Hlive). destruct (level_files (current vs0) l) as [|g gs]; [done|]. destruct (proj1 (Hlive (applied_file g)) ltac:(left)) as [[[] _]|(f & Hf' & _)]. by apply elem_of_nil in Hf'. }
  destruct (empty_tables (current vs0) (vs_next_file_number vs0) e0 Hv Hf0) as [Htab Hall]. assert (is_u64 1) as H1 by (by vm_compute). exists e0, save, vs0, (fun _ => []). do 2 (split; [done|]). split.
  { split; try done; [intros l f l' _ _ ?%elem_of_nil; done|]. rewrite Hcur. by apply Finalize_pick. }
  split; [|split; [done|]; split; [done|]; split; [done|]; split; [done|]; split; [by exists save, vs0|]; split; [done|]].
  - split; try done; [intros Ei; by rewrite Ei in R1|rewrite Hnx; cbn; lia|]. split_and!; try done; [|constructor]. split; [apply NewVersionEdit_ok|done].
  - intros fname n Hn. apply Hother; intros ->; [by destruct (named_inj _ _ _ _ _ _ Hn (named_current dbname))|by destruct (named_inj _ _ _ _ _ _ Hn (named_temp dbname 1 H1))|by destruct (named_inj _ _ _ _ _ _ Hn (named_descriptor dbname 1 H1))].
Qed.

Lemma DB_Recover_new e :
  new_directory e -> create_if_missing = true ->
  exists e0 save vs0 contents0, recover_db e = Some (OK, MkRecovering vs0 (MkTableCache e0 ∅ 0) NewVersionEdit save 0 None) /\ read_back [] [] e0 vs0 save contents0 /\
    written_tables [] vs0 e0 contents0 3 [] 0 NewVersionEdit vs0 (MkTableCache e0 ∅ 0) contents0 (current vs0) /\
    vs_log_number vs0 = 0 /\ vs_prev_log_number vs0 = 0 /\ vs_last_sequence vs0 = 0 /\ vs_next_file_number vs0 = 3 /\ recorded_sequence e0 0 /\
    forall fname n, named dbname fname n kLogFile -> env_files e0 !! fname = None.
Proof.
  intros (Hf & Hcur & Hlogs) Hcr. destruct (LockFile_spec dbname e Hf) as (e1 & El & Hf1 & He1). destruct (NewDB_read_back e1 Hf1) as (e0 & save & vs0 & contents0 & En & Er & Hrb & Hw & Hln & Hpn & Hl & Hnx & Hq & Hf0 & Hother).
  assert (forall fname n, named dbname fname n kLogFile -> env_files e0 !! fname = None) as Hno.
  { intros fname n Hn. rewrite (Hother fname n Hn), He1; [by apply (Hlogs fname n)|]. intros ->. by destruct (named_inj _ _ _ _ _ _ Hn (named_lock dbname)). }
  exists e0, save, vs0, contents0. split; [|done]. unfold DB_Recover, CreateDir, env_call, next_fault. rewrite Hf, El, ok_OK. cbn [negb]. unfold FileExists.
  assert (env_files e1 !! CurrentFileName dbname = None) as -> by (rewrite He1; [done|]; intros Eq; pose proof (named_current dbname) as Hn; rewrite Eq in Hn; by destruct (named_inj _ _ _ _ _ _ Hn (named_lock dbname))).
  rewrite bool_decide_eq_false_2, Hcr by (by intros [? ?]). cbn [negb].
  rewrite En, ok_OK. cbn [negb]. rewrite Er. cbn [mbind option_bind]. rewrite ok_OK. cbn [negb]. set (r0 := MkRecovering _ _ _ _ _ _).
  rewrite (recover_files_found _ _ _ _ _ _ _ _ _ _ _ _ r0 []); cbn [r0 rc_versions rc_table_cache tc_env]; try done.
  - cbn [recover_logs mbind option_bind]. rewrite ok_OK. cbn [negb r0 rc_versions rc_max_sequence]. by rewrite Hl.
  - intros x Hx. by eapply live_tables.
  - constructor.
  - intros n Hn. by apply elem_of_nil in Hn.
  - intros fname n Hn [x Hx]. by rewrite (Hno fname n Hn) in Hx.
Qed.

Lemma Open_new e : new_directory e -> create_if_missing = true -> opens e [] 0 4.
Proof.
  intros Hnew Hcr. destruct (DB_Recover_new e Hnew Hcr) as (e0 & save & vs0 & contents0 & Er & Hrb & Hw & Hln & Hpn & Hl & Hnx & Hq & Hno). assert (is_u64 3) as H3 by (by vm_compute).
  pose proof (written_log _ _ _ _ _ _ _ _ _ _ _ _ Hw) as Hw2. cbv zeta in Hw2. rewrite Hnx in Hw2. destruct (Hw2 ltac:(done) H3) as [Enew Hw3]. clear Hw2. cbn [tc_env] in *. set (e1 := with_files <[LogFileName dbname 3:=[]]> e0) in *.
  set (vs := (NewFileNumber vs0).2) in *. assert (vs_last_sequence vs = 0 /\ vs_next_file_number vs = 4 /\ vs_log_number vs = 0 /\ vs_prev_log_number vs = 0) as (V1 & V2 & V3 & V4) by (unfold vs, NewFileNumber; rewrite Hnx; by destruct vs0).
  set (r2 := MkRecovering vs (MkTableCache e1 ∅ 0) (VersionEdit.SetLogNumber 3 NewVersionEdit) save 0 (Some (MemTable_Ref NewMemTable, 3, NewWriter (MkWritableFile [] [])))).
  match type of Er with _ = Some (OK, ?x) => set (r1 := x) in * end. assert (open_log dbname r1 = (OK, r2)) as Eo.
  { unfold open_log. cbn [r1 rc_log rc_versions rc_env]. assert (NewFileNumber vs0 = (3, vs)) as -> by (by rewrite <-Hnx). change (rc_env r1) with e0. by rewrite Enew. }
  assert (forall min_log, logs_left e1 [] 3 min_log 0 []) as Hleft by (intros min_log; apply new_log_left; [done|]; intros fname m Hm [x Hx]; by rewrite (Hno fname m Hm) in Hx).
  assert (env_files e1 !! LogFileName dbname 3 = Some []) as Hlog by (unfold e1; destruct e0; cbn; apply lookup_insert_eq).
  destruct save.
  - destruct (saved_edit _ _ _ _ _ _ _ _ vs0 _ _ _ _ _ _ _ 3 Hrb eq_refl eq_refl Hw3 H3) as (edit' & vs1 & e2 & used1 & Ela & Hsv & Hl1 & Hp1 & Hq').
    destruct (save_recovered_spec 3 r2 edit' vs1 e2 eq_refl Ela) as (r3 & E3 & Hv3 & Ht3).
    eapply (opened_saved _ _ 0 _ _ r2 r3 _ 3 _ _ _ vs _ _ _ [] [] Er Eo eq_refl E3); try done; rewrite ?Hv3, ?Ht3, ?Hl1; try done; try lia.
    + by apply mem_holds_new.
    + apply older_nil_l.
    + exists 0. rewrite V1 in Hq'. by split.
  - eapply (opened_saved _ _ 0 _ _ r2 r2 _ 3 _ _ _ vs _ _ _ [] [] Er Eo eq_refl eq_refl (saved_nothing _ _ _ _ _ _ _ _ vs0 _ _ _ _ _ _ Hrb eq_refl eq_refl eq_refl eq_refl Hw3 eq_refl)); try done; try lia.
    + by apply mem_holds_new.
    + apply older_nil_l.
    + cbn [r2 rc_versions]. lia.
    + exists 0. split; [|done]. apply (same_sequence _ _ _ _ _ _ Hname [] vs0 e0 e1 0 (rb_reach _ _ _ _ _ _ Hrb)); [|done].
      apply (other_descriptor extend dbname reuse_logs ucmp cmp_name Hname max_file_size [] vs0 e0 e1 _ 3 kLogFile (rb_reach _ _ _ _ _ _ Hrb) (named_log dbname 3 H3)); [done|done| |].
      * destruct (reachable_state _ _ _ _ _ _ Hname _ _ _ (rb_reach _ _ _ _ _ _ Hrb)) as (Hf0 & _). unfold e1. by destruct e0.
      * intros f Hne. unfold e1. destruct e0. cbn. by apply lookup_insert_ne.
Qed.

Lemma open_new_spec k e :
  0 <= k -> new_directory e -> create_if_missing = true -> k * (slen E + 1) + 6 < 2 ^ 64 ->
  exists s, open_db e = Some (OK, Some s, env_of (s_db s)) /\ store_ok k (MkSpec [] 0 [] (sl_next_address NewSnapshotList)) s.
Proof.
  intros Hk Hnew Hcr Hmax. destruct (Open_new e Hnew Hcr) as (st & s & off & E1 & Hop). exists (opened_store st s off).
  split; [rewrite E1; unfold opened_store; cbn [s_bg]; by destruct (MaybeSchedule_fields (MkBackground st NewSnapshotList None false)) as (-> & _)|].
  eapply (opened_ok k [] 0); [exact Hop| | | |done|lia|done|lia]; try (intros e' He'; by apply elem_of_nil in He'). done.
Qed.
End reopen.

(** * [DestroyDB] *)

Abbreviation in_dir dbname name := (dbname ++ x2f :: name).

Lemma destroy_files dbname names : forall e, env_faults e = [] -> NoDup names -> (forall name, name ∈ names -> is_Some (env_files e !! in_dir dbname name)) ->
  exists e', foldl (destroy_file dbname) (OK, e) names = (OK, e') /\ env_faults e' = [] /\
    (forall name n type, name ∈ names -> ParseFileName name = Some (n, type) -> type <> kDBLockFile -> env_files e' !! in_dir dbname name = None) /\
    (forall fname, (forall name n type, name ∈ names -> fname = in_dir dbname name -> ParseFileName name = Some (n, type) -> type = kDBLockFile) -> env_files e' !! fname = env_files e !! fname).
Proof.
  induction names as [|name names IH]; intros e Hf Hnd Hin; [exists e; split_and!; try done; by intros name n type ?%elem_of_nil|]. apply NoDup_cons in Hnd as [Hni Hnd]. cbn [foldl].
  assert (forall e1, env_faults e1 = [] -> (forall fname, fname <> in_dir dbname name -> env_files e1 !! fname = env_files e !! fname) -> forall name', name' ∈ names -> is_Some (env_files e1 !! in_dir dbname name')) as Hin'.
  { intros e1 _ He1 name' Hn'. rewrite He1; [apply Hin; by right|]. intros Eq%app_inv_head. injection Eq as ->. done. }
  destruct (ParseFileName name) as [[n type]|] eqn:Ep; [destruct (decide (type = kDBLockFile)) as [Ht|Ht]|]; unfold destroy_file at 2; rewrite Ep, ?bool_decide_true, ?bool_decide_false by done.
  - destruct (IH e Hf Hnd (Hin' e Hf ltac:(done))) as (e' & E1 & Hf' & H1 & H2). exists e'. split_and!; try done.
    + intros name' n' type' [->|Hn']%elem_of_cons Ep' Ht'; [congruence|by apply (H1 name' n' type')].
    + intros fname Hno. apply H2. intros name' n' type' Hn'. apply Hno. by right.
  - destruct (Hin name ltac:(left)) as [c Hc]. set (e1 := with_files (delete (in_dir dbname name)) e). assert (FileSystem.RemoveFile (in_dir dbname name) e = (OK, e1)) as Er by (unfold FileSystem.RemoveFile, next_fault; by rewrite Hf, Hc).
    change (dbname ++ lit "/" ++ name) with (in_dir dbname name). rewrite Er, ok_OK. cbn [andb negb]. assert (env_faults e1 = [] /\ (forall fname, fname <> in_dir dbname name -> env_files e1 !! fname = env_files e !! fname) /\ env_files e1 !! in_dir dbname name = None) as (Hf1 & He1 & Hd1).
    { unfold e1. destruct e. cbn in *. split_and!; [done|intros fname Hne; by apply lookup_delete_ne|apply lookup_delete_eq]. }
    destruct (IH e1 Hf1 Hnd (Hin' e1 Hf1 He1)) as (e' & E1 & Hf' & H1 & H2). exists e'. split_and!; try done.
    + intros name' n' type' [->|Hn']%elem_of_cons Ep' Ht'; [|by apply (H1 name' n' type')]. rewrite H2; [done|]. intros name' n'' type'' Hn' Eq%app_inv_head. injection Eq as ->. done.
    + intros fname Hno. rewrite H2 by (intros name' n' type' Hn'; apply Hno; by right). apply He1. intros ->. by specialize (Hno name n type ltac:(left) eq_refl Ep).
  - destruct (IH e Hf Hnd (Hin' e Hf ltac:(done))) as (e' & E1 & Hf' & H1 & H2). exists e'. split_and!; try done.
    + intros name' n' type' [->|Hn']%elem_of_cons Ep' Ht'; [congruence|by apply (H1 name' n' type')].
    + intros fname Hno. apply H2. intros name' n' type' Hn'. apply Hno. by right.
Qed.

Lemma ParseFileName_lock name n : ParseFileName name = Some (n, kDBLockFile) -> name = lit "LOCK".
Proof. unfold ParseFileName. destruct (Slice_eqb name (lit "CURRENT")); [done|]. destruct (Slice_eqb name (lit "LOCK")) eqn:E; [intros _; by apply Slice_eqb_spec|]. by repeat case_match. Qed.

(** Whatever calls fail, only database files can go; and all are gone when the status is still OK. *)
Lemma destroy_files_any dbname names : forall s e s' e', foldl (destroy_file dbname) (s, e) names = (s', e') ->
  (forall fname, env_files e' !! fname = env_files e !! fname \/
     env_files e' !! fname = None /\ exists name n type, name ∈ names /\ fname = in_dir dbname name /\ ParseFileName name = Some (n, type)) /\
  (ok s' = true -> ok s = true /\ forall name n type, name ∈ names -> ParseFileName name = Some (n, type) -> type <> kDBLockFile -> env_files e' !! in_dir dbname name = None).
Proof.
  induction names as [|name names IH]; intros s e s' e'; cbn [foldl].
  { intros [= <- <-]. split; [by left|]. intros Hs. split; [done|]. by intros name n type ?%elem_of_nil. }
  destruct (destroy_file dbname (s, e) name) as [s1 e1] eqn:E1. intros E. apply IH in E as [Ha Hb]. clear IH.
  assert ((forall fname, env_files e1 !! fname = env_files e !! fname \/ env_files e1 !! fname = None /\ exists n type, fname = in_dir dbname name /\ ParseFileName name = Some (n, type)) /\
    (ok s1 = true -> ok s = true /\ forall n type, ParseFileName name = Some (n, type) -> type <> kDBLockFile -> env_files e1 !! in_dir dbname name = None)) as [Ha1 Hb1].
  { unfold destroy_file in E1. destruct (ParseFileName name) as [[n type]|] eqn:Ep; [|injection E1 as <- <-; split; [by left|by intros Hs]].
    case_bool_decide as Ht. { injection E1 as <- <-. split; [by left|]. intros Hs. split; [done|]. by intros n' type' [= <- <-]. }
    unfold FileSystem.RemoveFile in E1. change (dbname ++ lit "/" ++ name) with (in_dir dbname name) in E1.
    destruct e as [files [|[[k msg]|] faults]]; cbn [next_fault env_faults env_files] in E1; (destruct (files !! in_dir dbname name) as [c|] eqn:Ec; cbn in E1; injection E1 as <- <-; cbn [with_files env_files]).
    all: split; [intros fname; destruct (decide (fname = in_dir dbname name)) as [->|Hne]; rewrite ?lookup_delete_eq, ?lookup_delete_ne by done; eauto 6|].
    all: destruct (ok s) eqn:Es; cbn [andb negb ok]; intros Hs; try congruence; try discriminate Hs; (split; [done|]); intros n' type' _ _; by rewrite ?lookup_delete_eq. }
  split.
  - intros fname. destruct (Ha fname) as [->|(-> & name' & n & type & Hin & Hr)]; [|right; split; [done|]; exists name', n, type; split; [by right|done]].
    destruct (Ha1 fname) as [->|(-> & n & type & Hr)]; [by left|]. right. split; [done|]. exists name, n, type. split; [left|done].
  - intros Hs. destruct (Hb Hs) as [Hs1 Hall]. destruct (Hb1 Hs1) as [Hs0 Hhere]. split; [done|]. intros name' n type [->|Hin]%elem_of_cons Ep Ht; [|by eapply Hall].
    destruct (Ha (in_dir dbname name)) as [->|[-> _]]; [by eapply Hhere|done].
Qed.

Lemma GetChildren_lists dir e s names e0 : GetChildren dir e = (s, names, e0) -> ok s = true ->
  forall name, x2f ∉ name -> is_Some (env_files e !! in_dir dir name) -> name ∈ names.
Proof.
  unfold GetChildren. intros E Hs name Hn Hc. destruct e as [files [|[[k msg]|] faults]]; cbn [next_fault env_faults env_files] in *; injection E as <- <- <-; [|done|].
  all: destruct Hc as [c Hc]; apply list_elem_of_omap; exists (in_dir dir name); (split; [|by apply child_name_spec]); apply list_elem_of_fmap; exists (in_dir dir name, c);
    (split; [done|by apply elem_of_map_to_list]).
Qed.

(** The calls around the loop, whatever fails: no file but the lock can change. *)
Lemma lock_calls dbname e :
  let lock := LockFileName dbname in
  (forall f, f <> lock -> env_files (LockFile lock e).2 !! f = env_files e !! f) /\
  env_files (UnlockFile lock e).2 = env_files e /\ env_files (RemoveDir dbname e).2 = env_files e /\
  (forall f, f <> lock -> env_files (FileSystem.RemoveFile lock e).2 !! f = env_files e !! f).
Proof.
  intros lock. unfold LockFile, UnlockFile, RemoveDir, env_call, FileSystem.RemoveFile.
  destruct e as [files [|[[k msg]|] faults]]; cbn [next_fault env_faults env_files with_files snd]; split_and!; try done; intros f Hf; try (by apply lookup_insert_ne).
  all: destruct (files !! lock); cbn [snd with_files env_files]; [by apply lookup_delete_ne|done].
Qed.

(** What [DestroyDB] does with the names that it finds. *)
Lemma DestroyDB_any dbname e s names e0 s' e' :
  GetChildren dbname e = (s, names, e0) -> ok s = true -> DestroyDB dbname e = (s', e') ->
  exists s1 e1 s2 e2, (forall f, f <> LockFileName dbname -> env_files e1 !! f = env_files e !! f) /\ foldl (destroy_file dbname) (s1, e1) names = (s2, e2) /\
    (forall f, f <> LockFileName dbname -> env_files e' !! f = env_files e2 !! f \/ ok s' = false /\ env_files e' !! f = env_files e !! f) /\ (ok s' = true -> ok s2 = true).
Proof.
  intros Eg Hs. pose proof (proj1 (GetChildren_any dbname e)) as He0. unfold DestroyDB. rewrite Eg in He0 |- *. cbn [snd] in He0. rewrite Hs. cbn [negb].
  pose proof (proj1 (lock_calls dbname e0)) as Hl. destruct (LockFile _ e0) as [s1 e1]. cbn [snd] in Hl. destruct (foldl (destroy_file dbname) (s1, e1) names) as [s2 e2] eqn:Ef.
  intros E. exists s1, e1, s2, e2. split; [intros f Hf; by rewrite Hl, He0|]. split; [done|]. destruct (ok s1) eqn:Es1.
  - pose proof (proj1 (proj2 (lock_calls dbname e2))) as Hu. destruct (UnlockFile _ e2) as [s3 e3]. pose proof (proj2 (proj2 (proj2 (lock_calls dbname e3)))) as Hr. destruct (FileSystem.RemoveFile _ e3) as [s4 e4].
    pose proof (proj1 (proj2 (proj2 (lock_calls dbname e4)))) as Hd. destruct (RemoveDir _ e4) as [s5 e5]. cbn [snd] in Hu, Hr, Hd. injection E as <- <-. split; [|done].
    intros f Hf. left. by rewrite Hd, Hr, Hu.
  - injection E as <- <-. split; [|by rewrite Es1]. intros f Hf. right. split; [done|]. by rewrite Hl, He0.
Qed.

Lemma DestroyDB_clean (dbname : slice) (e : EnvState) :
  env_faults e = [] ->
  exists e', DestroyDB dbname e = (OK, e') /\
    (forall name, x2f ∉ name -> is_Some (ParseFileName name) -> env_files e' !! in_dir dbname name = None) /\
    (forall fname, (forall name, fname = in_dir dbname name -> x2f ∉ name -> ParseFileName name = None) -> env_files e' !! fname = env_files e !! fname).
Proof.
  intros Hf. destruct (GetChildren_spec dbname e Hf) as (names & Eg & Hnd & Hnames).
  set (e1 := with_files (fun files => <[LockFileName dbname := default [] (files !! LockFileName dbname)]> files) e). assert (LockFile (LockFileName dbname) e = (OK, e1)) as El by (unfold LockFile, next_fault; by rewrite Hf).
  assert (env_faults e1 = [] /\ is_Some (env_files e1 !! LockFileName dbname) /\ forall f, f <> LockFileName dbname -> env_files e1 !! f = env_files e !! f) as (Hf1 & Hl1 & He1).
  { unfold e1. destruct e. cbn in *. split_and!; [done|rewrite lookup_insert_eq; by eexists|intros f Hne; by apply lookup_insert_ne]. }
  destruct (destroy_files dbname names e1 Hf1 Hnd) as (e2 & E2 & Hf2 & H1 & H2).
  { intros name Hn. destruct (decide (in_dir dbname name = LockFileName dbname)) as [->|Hne]; [done|]. rewrite He1 by done. by apply Hnames. }
  unfold DestroyDB. rewrite Eg, ok_OK. cbn [negb]. rewrite El, ok_OK, E2. unfold UnlockFile, RemoveDir, env_call, next_fault. rewrite Hf2.
  set (e3 := with_files (delete (LockFileName dbname)) e2). assert (is_Some (env_files e2 !! LockFileName dbname)) as [c Hc].
  { rewrite H2; [done|]. intros name n type _ Eq Ep. pose proof (named_lock dbname) as Hn. rewrite Eq in Hn. assert (named dbname (in_dir dbname name) n type) as Hn' by (by exists name). by destruct (named_inj _ _ _ _ _ _ Hn' Hn). }
  assert (FileSystem.RemoveFile (LockFileName dbname) e2 = (OK, e3)) as -> by (unfold FileSystem.RemoveFile, next_fault; by rewrite Hf2, Hc).
  assert (env_faults e3 = [] /\ env_files e3 = delete (LockFileName dbname) (env_files e2)) as [Hf3 He3] by (unfold e3; by destruct e2). rewrite Hf3. exists e3. split; [done|]. rewrite He3. split.
  - intros name Hs [[n type] Ep]. destruct (decide (type = kDBLockFile)) as [->|Ht]; [rewrite (ParseFileName_lock _ _ Ep); apply lookup_delete_eq|]. apply lookup_delete_None. right.
    destruct (decide (name ∈ names)) as [Hin|Hin]; [by apply (H1 name n type)|]. rewrite H2 by (intros name' n' type' Hin' Eq%app_inv_head; injection Eq as <-; done).
    rewrite He1; [|intros Eq%app_inv_head; injection Eq as ->; by injection Ep as _ <-]. destruct (env_files e !! in_dir dbname name) eqn:Ee; [|done]. destruct Hin. apply Hnames. split; [done|by eexists].
  - intros fname Hno. assert (fname <> LockFileName dbname) as Hne by (intros ->; by specialize (Hno (lit "LOCK") eq_refl ltac:(by refine (bool_decide_unpack _ _); vm_compute))). rewrite lookup_delete_ne, H2, He1; try done.
    intros name n type Hin -> Ep. apply Hnames in Hin as [Hs _]. by rewrite (Hno name eq_refl Hs) in Ep.
Qed.

(** C25. [DestroyDB] removes the files of a database and nothing else.  Whatever calls of the environment fail, every file whose
    name is not that of a database file in the directory stays as it is, and only the lock can be new.  If the directory cannot be
    listed, the status is OK and nothing changes; otherwise an OK status says that every database file that was there, but
    for the lock, is gone.  If no call fails, the status is OK and the lock is gone too. *)
Theorem destroy_db_removes_files (dbname : slice) (e : EnvState) (s : Status) (e' : EnvState) :
  DestroyDB dbname e = (s, e') ->
  (forall fname, (forall name, fname = in_dir dbname name -> x2f ∉ name -> ParseFileName name = None) -> env_files e' !! fname = env_files e !! fname) /\
  (forall fname, fname <> LockFileName dbname -> env_files e' !! fname = env_files e !! fname \/ env_files e' !! fname = None) /\
  (if ok (GetChildren dbname e).1.1 then
     ok s = true -> forall name n type, x2f ∉ name -> ParseFileName name = Some (n, type) -> type <> kDBLockFile -> env_files e' !! in_dir dbname name = None
   else s = OK /\ env_files e' = env_files e) /\
  (env_faults e = [] -> s = OK /\ env_files e' !! LockFileName dbname = None).
Proof.
  intros E. assert (env_faults e = [] -> s = OK /\ env_files e' !! LockFileName dbname = None) as H4.
  { intros Hf. destruct (DestroyDB_clean dbname e Hf) as (e1 & E1 & Hc & _). rewrite E in E1. injection E1 as -> ->. split; [done|].
    apply (Hc (lit "LOCK")); [by refine (bool_decide_unpack _ _); vm_compute|eexists; reflexivity]. }
  destruct (GetChildren dbname e) as [[s0 names] e0] eqn:Eg. pose proof (GetChildren_any dbname e) as [He0 Hn]. rewrite Eg in He0, Hn. cbn [fst snd] in *. destruct (ok s0) eqn:Es0.
  2: { unfold DestroyDB in E. rewrite Eg, Es0 in E. cbn [negb] in E. injection E as <- <-. rewrite He0 in H4 |- *. split_and!; try done. by left. }
  destruct (DestroyDB_any dbname e s0 names e0 s e' Eg Es0 E) as (s1 & e1 & s2 & e2 & H1 & Ef & H2 & Hs). apply destroy_files_any in Ef as [Ha Hb].
  assert (forall fname, fname <> LockFileName dbname -> env_files e' !! fname = env_files e !! fname \/
    env_files e' !! fname = None /\ exists name n type, name ∈ names /\ fname = in_dir dbname name /\ ParseFileName name = Some (n, type)) as Hall.
  { intros f Hf. destruct (H2 f Hf) as [->|[_ ->]]; [|by left]. rewrite <-(H1 f Hf). apply Ha. }
  split_and!; [| | |done].
  - intros fname Hno. assert (fname <> LockFileName dbname) as Hne by (intros ->; by specialize (Hno (lit "LOCK") eq_refl ltac:(by refine (bool_decide_unpack _ _); vm_compute))).
    destruct (Hall fname Hne) as [|(_ & name & n & type & Hin & -> & Ep)]; [done|]. by rewrite (Hno name eq_refl (Hn _ Hin)) in Ep.
  - intros fname Hf. destruct (Hall fname Hf) as [|[? _]]; [by left|by right].
  - intros Hok name n type Hs' Ep Ht. assert (in_dir dbname name <> LockFileName dbname) as Hne by (intros Eq%app_inv_head; injection Eq as ->; by injection Ep as _ <-).
    destruct (Hall _ Hne) as [Heq|[? _]]; [|done]. destruct (env_files e !! in_dir dbname name) as [c|] eqn:Ec; [|done].
    destruct (H2 _ Hne) as [H|[H _]]; [|by rewrite Hok in H]. rewrite H. apply (proj2 (Hb (Hs Hok)) name n type); [|done|done].
    apply (GetChildren_lists _ _ _ _ _ Eg Es0 name Hs'). rewrite Ec. by eexists.
Qed.

(** A directory with a file of another name. *)
Definition sample_directory : EnvState :=
  MkEnv (list_to_map [(lit "/db/CURRENT", lit "x"); (lit "/db/000005.ldb", []); (lit "/db/LOG.old", []); (lit "/db/notes", lit "y"); (lit "/other/000005.ldb", [])]) [].

Lemma destroy_db_removes_files_witness :
  let '(s, e') := DestroyDB (lit "/db") sample_directory in
  s = OK /\ env_files e' !! lit "/db/CURRENT" = None /\ env_files e' !! lit "/db/000005.ldb" = None /\ env_files e' !! lit "/db/notes" = Some (lit "y").
Proof.
  destruct (DestroyDB (lit "/db") sample_directory) as [s e'] eqn:E. destruct (destroy_db_removes_files (lit "/db") sample_directory s e' E) as (H1 & _ & H2 & H3). clear E.
  destruct (H3 eq_refl) as [-> _]. clear H3. change (ok (GetChildren (lit "/db") sample_directory).1.1) with true in H2. specialize (H2 eq_refl). split; [reflexivity|]. split; [|split].
  - apply (H2 (lit "CURRENT") 0 kCurrentFile); [by refine (bool_decide_unpack _ _); vm_compute|reflexivity|discriminate].
  - apply (H2 (lit "000005.ldb") 5 kTableFile); [by refine (bool_decide_unpack _ _); vm_compute|reflexivity|discriminate].
  - rewrite H1; [vm_compute; reflexivity|]. intros name E2 _. change (in_dir (lit "/db") (lit "notes") = in_dir (lit "/db") name) in E2. apply app_inv_head in E2. injection E2 as <-. reflexivity.
Defined.
