(* ===== verification/StoreSpec.v ===== *)
(** StoreSpec: [DBImpl] as a map.  The operations of a store that is opened on a new directory, in any order, with the background
    thread at work between them and behind their waits, and with the process ending and the store opened again at any point,
    return what the operations of a map return that is copied for each snapshot. *)

From stdpp Require Import gmap sorting.
From Stdlib Require Import Strings.Byte Strings.String Floats.SpecFloat.
From S2P Require Import Prelude Coding Crc32c Comparator DbFormat Status Env FileSystem Filename VersionEdit FilterPolicy FilterBlock SkipList MemTable Arena WriteBatch Format Iterator TwoLevelIterator Version Block Merger DbIter TableBuilder Table TableCache VersionSet Compaction Log DbWrite Manifest Flush InternalIterator DbImpl Snapshot CompactionVersion CompactionWork CompactionLoop CompactionResults Background Schedule DbRead ReadStats Store Recovery Reopen.

(** * The operations *)

(** What the calls of an iterator show of a list of entries. *)
Fixpoint spec_calls (cmp : Comparator) (view : list (slice * slice)) (calls : list IterOp) (i : nat) : option (list (option (slice * slice))) :=
  match calls with
  | [] => Some []
  | call :: calls => i ← spec_op cmp view call i; seen ← spec_calls cmp view calls i; Some (view !! i :: seen)
  end.

(** The calls of the users of a store, and the turns of the background thread: a queue of writers, each with the operations
    of its batch, if it has one, and with [sync]; a read; an iterator with the calls to it; the snapshots; the compaction of a
    range.  [DoReopen] is the end of the process, with no destructor run, and [DB::Open] on the files that are there. *)
Inductive StoreOp :=
| DoWrite (runs : bool) (writers : list (option (list op) * bool))
| DoGet (snapshot : option Z) (key value : slice)
| DoIterate (snapshot : option Z) (calls : list IterOp)
| DoGetSnapshot
| DoReleaseSnapshot (a : Z)
| DoBackground
| DoCompactRange (runs : bool) (begin end_ : option slice)
| DoReopen.

Inductive StoreResult := Statuses (l : list Status) | Value (r : Status * slice) | Seen (l : list (option (slice * slice))) | Address (a : Z) | Done.

Definition writer_of (w : option (list op) * bool) : DBWriter := MkDBWriter (foldl apply_op NewWriteBatch <$> w.1) w.2.

Section run.
Context (extend : Z -> slice -> Z) (snappy : option SnappyLib) (zstd : option ZstdLib).
Context (dbname : slice) (options : Options) (in_scratch : bool) (bcache : option (slice -> option Block)).
Context (ucmp : Comparator) (cmp_name : slice) (max_file_size write_buffer_size : Z) (create_if_missing paranoid_checks reuse_logs : bool) (ro : ReadOptions) (n work : nat).

Definition store_step (op : StoreOp) (s : Store) : option (StoreResult * Store) :=
  match op with
  | DoWrite runs writers =>
      '(sts, s) ← Store_serve extend snappy zstd dbname options in_scratch bcache ucmp cmp_name max_file_size write_buffer_size (S (length writers)) n work runs (map writer_of writers) s;
      Some (Statuses sts, s)
  | DoGet snapshot key value => '(r, s) ← Store_Get extend snappy zstd dbname options in_scratch bcache ucmp ro snapshot key value s; Some (Value r, s)
  | DoIterate snapshot calls => '(l, s) ← Store_Iterate extend snappy zstd dbname options in_scratch bcache ucmp ro snapshot n calls s; Some (Seen l, s)
  | DoGetSnapshot => '(a, s) ← GetSnapshot s; Some (Address a, s)
  | DoReleaseSnapshot a => s ← ReleaseSnapshot a s; Some (Done, s)
  | DoBackground => s ← (if bg_scheduled (s_bg s) then wait_for_background extend snappy zstd dbname options in_scratch bcache ucmp cmp_name max_file_size work s else Some s); Some (Done, s)
  | DoCompactRange runs begin end_ =>
      s ← Store_CompactRange extend snappy zstd dbname options in_scratch bcache ucmp cmp_name max_file_size write_buffer_size n work runs begin end_ s; Some (Done, s)
  | DoReopen =>
      '(status, s, _) ← Open extend snappy zstd dbname options in_scratch bcache ucmp cmp_name max_file_size write_buffer_size create_if_missing false paranoid_checks reuse_logs (tc_env (db_table_cache (s_db s)));
      s ← s; Some (Statuses [status], s)
  end.
End run.

(** The operations one behind the other, with their results. *)
Fixpoint run_steps {S} (step : StoreOp -> S -> option (StoreResult * S)) (ops : list StoreOp) (s : S) : option (list StoreResult * S) :=
  match ops with
  | [] => Some ([], s)
  | op :: ops => '(r, s) ← step op s; '(rs, s) ← run_steps step ops s; Some (r :: rs, s)
  end.

(** * The map *)

(** The values of the keys, with a copy for each snapshot, and the address of the next one. *)
Record KV := MkKV { kv_map : gmap slice slice; kv_snaps : list (Z * gmap slice slice); kv_next : Z }.

Definition kv_op (m : gmap slice slice) (o : op) : gmap slice slice := match o with OpPut key value => <[key := value]> m | WriteBatch.OpDelete key => delete key m end.

Definition kv_at (snapshot : option Z) (st : KV) : option (gmap slice slice) :=
  match snapshot with Some a => snd <$> List.find (fun x => x.1 =? a) (kv_snaps st) | None => Some (kv_map st) end.

Definition kv_get (value : slice) (v : option slice) : Status * slice := match v with Some v => (OK, v) | None => (NotFound [] [], value) end.

(** The map in the order of the keys. *)
Definition key_le (ucmp : Comparator) (a b : slice * slice) : Prop := Compare ucmp a.1 b.1 <= 0.

#[export] Instance key_le_dec ucmp : RelDecision (key_le ucmp).
Proof. intros a b. unfold key_le. apply _. Defined.

Definition kv_view (ucmp : Comparator) (m : gmap slice slice) : list (slice * slice) := merge_sort (key_le ucmp) (map_to_list m).

(** The operations of the writers of a queue. *)
Definition ops_of (writers : list (option (list op) * bool)) : list op := concat (map (fun w => default [] w.1) writers).

Definition kv_step (ucmp : Comparator) (op : StoreOp) (st : KV) : option (StoreResult * KV) :=
  match op with
  | DoWrite _ writers => Some (Statuses (repeat OK (length writers)), MkKV (foldl kv_op (kv_map st) (ops_of writers)) (kv_snaps st) (kv_next st))
  | DoGet snapshot key value => m ← kv_at snapshot st; Some (Value (kv_get value (m !! key)), st)
  | DoIterate snapshot calls => m ← kv_at snapshot st; let view := kv_view ucmp m in seen ← spec_calls ucmp view calls (length view); Some (Seen seen, st)
  | DoGetSnapshot => Some (Address (kv_next st), MkKV (kv_map st) (kv_snaps st ++ [(kv_next st, kv_map st)]) (kv_next st + 1))
  | DoReleaseSnapshot a =>
      if bool_decide (a ∈ map fst (kv_snaps st)) then Some (Done, MkKV (kv_map st) (List.filter (fun x => negb (x.1 =? a)) (kv_snaps st)) (kv_next st)) else None
  | DoBackground | DoCompactRange _ _ _ => Some (Done, st)
  | DoReopen => Some (Statuses [OK], MkKV (kv_map st) [] 1)
  end.

(** * Lemmas: the operations *)

Section operations.
Context (extend : Z -> slice -> Z) `{!Checksum extend} (snappy : option SnappyLib) (zstd : option ZstdLib).
Context (dbname : slice) (in_scratch reuse_logs : bool).
Context (ucmp : Comparator) `{!ComparatorLaws any_key ucmp} `{!SeparatorSame any_key ucmp} (cmp_name : slice) (Hname : is_u32 (slen cmp_name)) (max_file_size write_buffer_size : Z).
Context (o : Options) (Ho : opt_comparator o = InternalKeyComparator ucmp) (Hfilter : forall p, opt_filter_policy o = Some p -> exists up, p = InternalFilterPolicy up).
Context (E : list entry) (HEok : Forall entry_ok E).

Abbreviation db_ok := (db_ok extend snappy zstd dbname in_scratch reuse_logs ucmp cmp_name max_file_size o).
Abbreviation store_inv := (store_inv extend snappy zstd dbname in_scratch reuse_logs ucmp cmp_name max_file_size o E).
Abbreviation store_ok := (store_ok extend snappy zstd dbname in_scratch reuse_logs ucmp cmp_name max_file_size o E).
Abbreviation v_of st := (current (db_versions st)).

(** ** The reads *)

Lemma snapshot_lookup l xs snapshot q :
  represents l xs -> match snapshot with Some a => (a, q) ∈ xs | None => True end ->
  match snapshot with Some a => Some <$> sequence_number a l | None => Some None end = Some (match snapshot with Some _ => Some q | None => None end).
Proof.
  intros Hr Hq. destruct snapshot as [a|]; [|done]. apply list_elem_of_split in Hq as (pre & post & ->). pose proof (sr_linked _ _ Hr) as Hlk. apply linked_app in Hlk as [_ [Hlk _]]. unfold sequence_number. by rewrite Hlk.
Qed.

(** The store with other references and statistics. *)
Lemma db_inv k sp s contents used mes ies floor contents' st' (schedule : bool) :
  store_inv k sp s contents used mes ies floor -> db_ok contents' used mes ies st' -> all_entries contents' (v_of st') = all_entries contents (v_of (s_db s)) -> pick_ok (v_of st') -> same_numbers (s_db s) st' ->
  refs_ok st' -> (db_imm st' = None <-> db_imm (s_db s) = None) -> (schedule = false -> NeedsCompaction (db_versions st') = NeedsCompaction (db_versions (s_db s))) ->
  let bg := set_db st' (s_bg s) in store_inv k sp (set_bg (if schedule then MaybeScheduleCompaction bg else bg) s) contents' used mes ies floor.
Proof.
  intros [[Hdb Hp Hman Hin Hnum Hlg Herr Hopen] Ha Hm Hr [Hseq Hs0] Hb Hh [Hsn Hnx] Hso [Hf Hl] Hlog Htmp Hlf Hrf [logs Hdu]] Hdb' Hall Hp' Hsame Hrf' Himm Hneed bg. pose proof Hsame as ((S3 & _) & S4 & S5 & S6 & S7 & S8). set (bg' := if schedule then _ else _).
  assert (bg_db bg' = st' /\ bg_snapshots bg' = bg_snapshots (s_bg s) /\ bg_manual bg' = bg_manual (s_bg s)) as (B1 & B2 & B3) by (unfold bg'; destruct schedule; [destruct (MaybeSchedule_fields bg) as (-> & -> & ->)|]; done).
  assert (awake bg') as Ha'.
  { unfold bg'. destruct schedule; [apply MaybeSchedule_awake; cbn [bg set_db bg_db]; by rewrite ?S6, ?S7|]. intros Hsc. destruct (Ha Hsc) as (A1 & A2 & A3). cbn [bg set_db bg_db bg_manual]. rewrite Hneed by done. split; [by apply Himm|done]. }
  split; unfold store_entries in *; cbn [set_bg s_bg s_log s_tmp_batch s_logfile]; rewrite ?B1, ?B2, ?Hall, ?S3, ?S5, ?S8; try done.
  2: { exists logs. by apply (durable_same extend dbname reuse_logs ucmp cmp_name max_file_size logs mes ies (s_db s)). }
  split; rewrite ?B1, ?B3, ?Hall, ?S4, ?S5, ?S6, ?S7; done.
Qed.

Lemma stats_inv k sp s contents used mes ies floor contents' st' (schedule : bool) :
  store_inv k sp s contents used mes ies floor -> db_ok contents' used mes ies st' -> all_entries contents' (v_of st') = all_entries contents (v_of (s_db s)) -> pick_ok (v_of st') -> same_store (s_db s) st' ->
  (schedule = false -> NeedsCompaction (db_versions st') = NeedsCompaction (db_versions (s_db s))) ->
  let bg := set_db st' (s_bg s) in store_inv k sp (set_bg (if schedule then MaybeScheduleCompaction bg else bg) s) contents' used mes ies floor.
Proof.
  intros Hinv Hdb' Hall Hp' (S1 & S2 & S) Hneed. apply (db_inv k sp s contents used mes ies floor); try done; [|by rewrite S2]. destruct Hinv as [_ _ _ _ _ _ _ _ _ _ _ _ _ Hrf _]. unfold refs_ok. by rewrite S1, S2.
Qed.

Lemma Get_spec k sp s ro snapshot q key value :
  store_ok k sp s -> match snapshot with Some a => (a, q) ∈ sp_snaps sp | None => q = sp_seq sp end -> slen key + 8 < 2 ^ 32 ->
  exists s', Store_Get extend snappy zstd dbname o in_scratch None ucmp ro snapshot key value s = Some (read_result value (newest key q (sp_hist sp)), s') /\ store_ok k sp s'.
Proof.
  intros (contents & used & mes & ies & floor & Hinv) Hq Hk. pose proof Hinv as [[Hdb Hp _ _ _ _ _ _] _ _ Hr [Hseq Hs0] _ _ [Hsn _] _ [Hf Hl] _ _ _ _ _]. set (snap := match snapshot with Some _ => Some q | None => None end).
  assert (match snapshot with Some a => Some <$> sequence_number a (bg_snapshots (s_bg s)) | None => Some None end = Some snap) as Esnap.
  { apply (snapshot_lookup _ (sp_snaps sp)); [done|]. by destruct snapshot. }
  assert (floor <= q <= sp_seq sp) as Hqb by (destruct snapshot as [a|]; [exact (proj1 (Forall_forall _ _) Hl (a, q) Hq)|lia]).
  assert (default (vs_last_sequence (db_versions (s_db s))) snap = q) as Ed by (destruct snapshot; cbn; congruence).
  assert (seq_ok q) as Hqok by (unfold seq_ok; lia).
  destruct (DB_Get_spec extend snappy zstd dbname in_scratch reuse_logs ro ucmp cmp_name max_file_size o Ho Hfilter contents used mes ies (s_db s) q key value Hdb Hqok Hk) as (sched & st' & Eg).
  assert (forall st1, DB_Get extend snappy zstd dbname o in_scratch None ucmp ro snap key value st1 = DB_Get extend snappy zstd dbname o in_scratch None ucmp ro (Some (default (vs_last_sequence (db_versions st1)) snap)) key value st1) as Esn by (intros st1; unfold DB_Get; by destruct snap).
  unfold Store_Get. rewrite Esnap. cbn [mbind option_bind]. pose proof (Hr key q value ltac:(lia)) as Hread. unfold store_entries in Hread. rewrite Hread in Eg. rewrite Esn, Ed, Eg. destruct (read_result value (newest key q (sp_hist sp))) as [status v]. cbn [mbind option_bind].
  eexists. split; [reflexivity|]. destruct (DB_Get_ok extend snappy zstd dbname in_scratch reuse_logs ucmp cmp_name Hname max_file_size o Ho ro contents used mes ies (s_db s) (Some q) key value _ sched st' Hfilter Hdb Hp Hqok Eg)
    as (contents' & H1 & H2 & H3 & H4 & H5). exists contents', used, mes, ies, floor. by apply (stats_inv k sp s contents used mes ies floor).
Qed.

(** What the samples of a read do not change. *)
Definition held (st st' : DBState) : Prop :=
  db_mem st' = db_mem st /\ db_imm st' = db_imm st /\ lv_id (current_live (db_versions st')) = lv_id (current_live (db_versions st)) /\ lv_refs (current_live (db_versions st')) = lv_refs (current_live (db_versions st)).

Lemma live_update v vs : current_live (update_current v vs) = MkLive (lv_id (current_live vs)) (lv_refs (current_live vs)) v.
Proof. unfold current_live at 1. destruct vs as [a b c d e f l i p]. cbn [update_current set_versions vs_versions]. by rewrite last_snoc. Qed.

Lemma sample_inv k sp s contents used mes ies floor key :
  store_inv k sp s contents used mes ies floor -> exists contents' s', Store_RecordReadSample ucmp key s = Some s' /\ store_inv k sp s' contents' used mes ies floor /\ held (s_db s) (s_db s').
Proof.
  intros Hinv. pose proof Hinv as [[Hdb Hp _ _ _ _ _ _] _ _ _ _ _ _ _ _ _ _ _ _ _ _]. pose proof Hdb as [_ _ _ _ _ _ _ Hv _ _ _ _].
  destruct (RecordReadSample_total ucmp contents _ _ key Hv) as [[schedule cur] Es]. unfold Store_RecordReadSample. rewrite Es. cbn [mbind option_bind].
  assert (exists stats, stats_ok (v_of (s_db s)) stats /\ (schedule, cur) = UpdateStats stats (v_of (s_db s))) as (stats & Hst & Eu) by (destruct (RecordReadSample_stats _ _ _ _ _ Es) as [E0|H]; [exists (MkStats None (-1)); by split|done]).
  pose proof (db_ok_update extend snappy zstd dbname in_scratch reuse_logs ucmp cmp_name Hname max_file_size o contents used mes ies (s_db s) stats Hdb Hp Hst) as (contents' & H1 & H2 & H3 & H4).
  pose proof (UpdateStats_needs stats (db_versions (s_db s))) as Hneed. rewrite <-Eu in *. cbn [fst snd] in *. eexists contents', _. split; [reflexivity|].
  split; [by apply (stats_inv k sp s contents used mes ies floor contents' _ schedule)|]. unfold held. cbn [set_bg s_bg]. set (bg := set_db _ _).
  assert (bg_db (if schedule then MaybeScheduleCompaction bg else bg) = bg_db bg) as -> by (destruct schedule; [apply MaybeSchedule_fields|done]). cbn [bg set_db bg_db set_version_set db_mem db_imm db_versions]. by rewrite live_update.
Qed.

Lemma Sample_spec k sp s key : store_ok k sp s -> exists s', Store_RecordReadSample ucmp key s = Some s' /\ store_ok k sp s'.
Proof.
  intros (contents & used & mes & ies & floor & Hinv). destruct (sample_inv _ _ _ _ _ _ _ _ key Hinv) as (contents' & s' & Es & Hinv' & _). exists s'. split; [done|]. by exists contents', used, mes, ies, floor.
Qed.

Lemma samples_inv keys k sp s contents used mes ies floor :
  store_inv k sp s contents used mes ies floor -> exists contents' s', record_samples ucmp keys s = Some s' /\ store_inv k sp s' contents' used mes ies floor /\ held (s_db s) (s_db s').
Proof.
  revert s contents. induction keys as [|key keys IH]; intros s contents Hinv; [by exists contents, s|]. cbn [record_samples].
  destruct (sample_inv _ _ _ _ _ _ _ _ key Hinv) as (contents1 & s1 & -> & Hinv1 & A1 & A2 & A3 & A4). cbn [mbind option_bind].
  destruct (IH s1 contents1 Hinv1) as (contents' & s' & Es & Hinv' & B1 & B2 & B3 & B4). exists contents', s'. split; [done|]. split; [done|]. unfold held. by rewrite B1, B2, B3, B4.
Qed.

(** ** The iterators *)

Lemma Unref_current vs : let id := lv_id (current_live vs) in
  ids_ok vs -> 2 <= lv_refs (current_live vs) -> current (Version_Unref id vs) = current vs /\ vs_versions (Version_Unref id vs) <> [].
Proof.
  intros id [_ Hne] Hr. unfold id, current, current_live in *. destruct vs as [a b c d e f l i p]. cbn [Version_Unref set_versions vs_versions] in *. destruct l as [|lv l _] using rev_ind; [done|]. rewrite last_snoc in *. change (2 <= lv_refs lv) in Hr.
  rewrite map_app, List.filter_app. cbn [map List.filter]. rewrite decide_True, bool_decide_true by done. cbn [lv_refs andb]. destruct (Z.eqb_spec (lv_refs lv - 1) 0); [lia|]. cbn [negb]. rewrite last_snoc. split; [done|]. by destruct (List.filter _ _).
Qed.

Lemma Unref_numbers id vs : vs_last_sequence (Version_Unref id vs) = vs_last_sequence vs /\ vs_next_file_number (Version_Unref id vs) = vs_next_file_number vs.
Proof. by destruct vs. Qed.

Lemma needs_current vs vs' : current vs' = current vs -> NeedsCompaction vs' = NeedsCompaction vs.
Proof. unfold NeedsCompaction. by intros ->. Qed.

Lemma seed_inv k sp s contents used mes ies floor seed : store_inv k sp s contents used mes ies floor -> store_inv k sp (set_seed seed s) contents used mes ies floor.
Proof. by intros []; split. Qed.

(** The memtables with other references. *)
Lemma db_ok_refs contents used mes ies st mem imm : db_ok contents used mes ies st -> table_ mem = table_ (db_mem st) -> table_ <$> imm = table_ <$> db_imm st -> db_ok contents used mes ies (set_imm imm (set_mem mem st)).
Proof.
  intros [[m0 [H1 H1']] H2 H3 H4 H5 H6 H7 H8 H9 H10 H11 H12] Em Ei. split; cbn [set_imm set_mem db_mem db_imm db_versions db_table_cache]; try done; [exists m0; by rewrite Em|].
  destruct imm as [imm|], (db_imm st) as [imm0|]; try discriminate Ei; [|done]. injection Ei as Ei. destruct H2 as (i0 & H2 & H2'). exists i0. by rewrite Ei.
Qed.

(** The iterator is deleted. *)
Lemma cleanup_inv k sp s contents used mes ies floor :
  store_inv k sp s contents used mes ies floor -> 2 <= refs_ (db_mem (s_db s)) -> match db_imm (s_db s) with Some imm => 2 <= refs_ imm | None => True end -> 2 <= lv_refs (current_live (db_versions (s_db s))) ->
  exists st', CleanupIteratorState (lv_id (current_live (db_versions (s_db s)))) (s_db s) = Some st' /\ store_inv k sp (set_store_db st' s) contents used mes ies floor.
Proof.
  intros Hinv R1 R2 R3. pose proof Hinv as [[Hdb Hp _ _ _ _ _ _] _ _ _ _ _ _ _ _ _ _ _ _ _ _]. pose proof Hdb as [_ _ _ _ Hreach _ _ _ _ _ _ _]. set (st := s_db s) in *. set (id := lv_id _).
  destruct (Unref_current (db_versions st) (reachable_ids _ _ _ _ _ _ _ _ _ Hreach) R3) as [Ecur Hlist]. fold id in Ecur, Hlist. destruct (Unref_numbers id (db_versions st)) as [N1 N2].
  assert (forall m, 2 <= refs_ m -> MemTable_Unref m = Some (MkMemTable (refs_ m - 1) (table_ m))) as Hun by (intros m Hm; unfold MemTable_Unref; destruct (Z.leb_spec (refs_ m - 1) 0); [lia|done]).
  set (mem' := MkMemTable (refs_ (db_mem st) - 1) (table_ (db_mem st))). set (imm' := (fun m => MkMemTable (refs_ m - 1) (table_ m)) <$> db_imm st).
  assert (match db_imm st with Some imm => Some <$> MemTable_Unref imm | None => Some None end = Some imm') as Ei by (unfold imm'; destruct (db_imm st) as [imm|]; [by rewrite Hun|done]).
  unfold CleanupIteratorState. rewrite (Hun (db_mem st) R1), Ei. cbn [mbind option_bind]. eexists. split; [reflexivity|]. set (st' := set_version_set _ _).
  apply (db_inv k sp s contents used mes ies floor contents st' false); try done.
  - apply db_ok_versions; [|done|done|by apply reach_unref]. apply db_ok_refs; [done|done|]. unfold imm'. by destruct (db_imm st).
  - change (v_of st') with (current (Version_Unref id (db_versions st))). by rewrite Ecur.
  - change (v_of st') with (current (Version_Unref id (db_versions st))). by rewrite Ecur.
  - split; [|split; [exact N2|done]]. change (same_log_numbers (db_versions st) (Version_Unref id (db_versions st))). by destruct (db_versions st).
  - split; cbn [st' mem' imm' set_version_set set_imm set_mem db_mem db_imm refs_]; [lia|]. destruct (db_imm st) as [imm|]; cbn; [lia|done].
  - fold st. change (imm' = None <-> db_imm st = None). unfold imm'. by destruct (db_imm st).
  - intros _. by apply needs_current.
Qed.

(** What the specification of the iterator shows after each of the calls. *)
Lemma iterate_calls_spec {A} (ops : IterOps A) cmp key view pos (L : IterLaws ops cmp key view pos) calls : forall a i seen,
  pos a i -> Forall (op_key key) calls -> spec_calls cmp view calls i = Some seen -> exists a', iterate_calls ops calls a = Some (seen, a').
Proof.
  induction calls as [|c calls IH]; intros a i seen Hp Hk; cbn [spec_calls iterate_calls]; [intros [= <-]; by exists a|]. apply Forall_cons in Hk as [Hk Hks]. destruct (spec_op cmp view c i) as [j|] eqn:Es; [|done]. cbn [mbind option_bind].
  destruct (iter_op_spec c a i j Hp Hk Es) as (a1 & E1 & Hp1). destruct (spec_calls cmp view calls j) as [seen'|] eqn:Ec; [|done]. intros [= <-]. destruct (IH a1 j seen' Hp1 Hks Ec) as (a' & E2).
  exists a'. rewrite E1. cbn [mbind option_bind]. rewrite E2. cbn [mbind option_bind]. by rewrite (pos_current a1 j Hp1).
Qed.

Lemma Ref_live vs : let live := current_live (Version_Ref (lv_id (current_live vs)) vs) in
  ids_ok vs -> lv_id live = lv_id (current_live vs) /\ lv_refs live = lv_refs (current_live vs) + 1.
Proof.
  intros live [_ Hne]. unfold live, current_live in *. destruct vs as [a b c d e f l i p]. cbn [Version_Ref set_versions vs_versions] in *. destruct l as [|lv l _] using rev_ind; [done|]. rewrite map_app. cbn [map]. rewrite !last_snoc.
  cbn [default from_option id]. by rewrite decide_True.
Qed.

Lemma entries_length k sp s contents used mes ies floor : store_inv k sp s contents used mes ies floor -> (length (store_entries contents mes ies s) <= length E)%nat.
Proof.
  intros [[Hdb _ _ Hin _ _ _ _] _ Hm _ _ _ _ _ _ _ _ _ _ _ _]. apply submseteq_length, NoDup_submseteq; [apply seqs_differ_NoDup; by apply (db_entries_differ extend snappy zstd dbname in_scratch reuse_logs ucmp cmp_name max_file_size o contents used)|].
  intros e [He|He]%elem_of_app; [by apply Hm|by apply Hin].
Qed.

(** The store with an iterator. *)
Lemma iterated_inv k sp s contents used mes ies floor st1 :
  store_inv k sp s contents used mes ies floor -> iterated (s_db s) st1 -> db_ok contents used mes ies st1 ->
  store_inv k sp (set_store_db st1 s) contents used mes ies floor /\ 2 <= refs_ (db_mem st1) /\ match db_imm st1 with Some imm => 2 <= refs_ imm | None => True end /\
  lv_id (current_live (db_versions st1)) = lv_id (current_live (db_versions (s_db s))) /\ 2 <= lv_refs (current_live (db_versions st1)).
Proof.
  intros Hinv (tc & Etc & ->) Hdb1. pose proof Hinv as [[Hdb Hp _ _ _ _ _ _] _ _ _ _ _ _ _ _ _ _ _ _ [Hr1 Hr2] _]. pose proof Hdb as [_ _ _ _ Hreach _ _ _ _ _ _ _]. pose proof (reachable_ids _ _ _ _ _ _ _ _ _ Hreach) as Hids.
  destruct (current_listed _ Hids) as (_ & _ & Hrefs). destruct (Ref_live (db_versions (s_db s)) Hids) as [Lid Lrefs]. set (id := lv_id (current_live (db_versions (s_db s)))) in *. pose proof (current_Version_Ref id (db_versions (s_db s))) as Ecur.
  set (st1 := set_version_set _ _) in *. assert (2 <= refs_ (db_mem st1) /\ match db_imm st1 with Some imm => 2 <= refs_ imm | None => True end) as [M1 M2].
  { cbn [st1 set_version_set set_table_cache ref_memtables db_mem db_imm MemTable_Ref refs_]. split; [lia|]. destruct (db_imm (s_db s)) as [imm|]; cbn; [lia|done]. }
  split; [|split; [done|]; split; [done|]; split; [exact Lid|change (2 <= lv_refs (current_live (Version_Ref id (db_versions (s_db s))))); lia]].
  apply (db_inv k sp s contents used mes ies floor contents st1 false); try done; rewrite ?(Ecur : v_of st1 = v_of (s_db s)); try done.
  - split; [|split; [|done]]; cbn [st1 set_version_set db_versions]; by destruct (db_versions (s_db s)).
  - split; [lia|]. destruct (db_imm st1); [lia|done].
  - cbn [st1 set_version_set set_table_cache ref_memtables db_imm]. by destruct (db_imm (s_db s)).
  - intros _. by apply needs_current.
Qed.

Lemma Iterate_spec k sp s ro snapshot q fuel' calls :
  store_ok k sp s -> match snapshot with Some a => (a, q) ∈ sp_snaps sp | None => q = sp_seq sp end -> (length E <= fuel')%nat -> Forall (op_key (fun t => slen t + 8 < 2 ^ 32)) calls ->
  exists view, sorted_entries ucmp view /\ (forall key value, (key, value) ∈ view <-> read_result [] (newest key q (sp_hist sp)) = (OK, value)) /\
    forall seen, spec_calls ucmp view calls (length view) = Some seen ->
    exists s', Store_Iterate extend snappy zstd dbname o in_scratch None ucmp ro snapshot fuel' calls s = Some (seen, s') /\ store_ok k sp s'.
Proof.
  intros (contents & used & mes & ies & floor & Hinv) Hq Hfuel' Hcalls. pose proof Hinv as [Hwork _ Hm Hr [Hseq Hs0] _ _ [Hsn _] _ [Hf Hl] _ _ _ [Hr1 Hr2] _]. pose proof Hwork as [Hdb Hp _ Hin _ _ _ _].
  set (snap := match snapshot with Some _ => Some q | None => None end).
  assert (match snapshot with Some a => Some <$> sequence_number a (bg_snapshots (s_bg s)) | None => Some None end = Some snap) as Esnap by (apply (snapshot_lookup _ (sp_snaps sp)); [done|by destruct snapshot]).
  assert (floor <= q <= sp_seq sp) as Hqb by (destruct snapshot as [a|]; [exact (proj1 (Forall_forall _ _) Hl (a, q) Hq)|lia]).
  assert (default (vs_last_sequence (db_versions (s_db s))) snap = q) as Ed by (destruct snapshot; cbn; congruence). assert (seq_ok q) as Hqok by (unfold seq_ok; lia).
  set (es := mes ++ ies ++ all_entries contents (v_of (s_db s))) in *. assert (forall e, e ∈ es -> e ∈ E) as HesE by (intros e [He|He]%elem_of_app; [by apply Hm|by apply Hin]).
  assert (Forall entry_ok (all_entries contents (v_of (s_db s)))) as Htab by (apply Forall_forall; intros e He; apply (proj1 (Forall_forall _ _) HEok), HesE; unfold es; rewrite !elem_of_app; auto).
  assert (length es <= fuel')%nat as Hlen by (etrans; [by apply (entries_length k sp s contents used mes ies floor)|exact Hfuel']).
  destruct (NewIterator_spec extend snappy zstd dbname in_scratch reuse_logs ro ucmp cmp_name Hname max_file_size o Ho contents used mes ies (s_db s) snap (s_seed s) fuel' Hdb Htab) as (d & st1 & view & En & Hit & Hdb1 & Hsort & Hview & pos & L & Hpos); [by rewrite Ed|done|].
  rewrite Ed in *. exists view. split; [done|]. split; [|].
  { intros key value. rewrite Hview. fold es. rewrite <-(Hr key q [] ltac:(lia)). unfold store_entries. fold es. destruct (newest key q es) as [e|]; cbn [read_result]; [|split; [by intros (? & ? & _)|done]].
    split; [intros (? & [= <-] & -> & <-); done|]. destruct (e_type e) eqn:Et; [done|]. intros [= <-]. by exists e. }
  intros seen Hspec. destruct (iterate_calls_spec _ _ _ _ _ L calls d _ seen Hpos Hcalls Hspec) as (d' & Ei). unfold Store_Iterate. rewrite Esnap. cbn [mbind option_bind]. rewrite En. cbn [mbind option_bind]. rewrite Ei. cbn [mbind option_bind].
  destruct (iterated_inv k sp s contents used mes ies floor st1 Hinv Hit Hdb1) as (Hinv1 & M1 & M2 & Lid & Lrefs). set (id := lv_id (current_live (db_versions (s_db s)))) in *.
  destruct (samples_inv (di_samples d') _ _ _ _ _ _ _ _ (seed_inv _ _ _ _ _ _ _ _ (u32 (s_seed s + 1)) Hinv1)) as (contents2 & s2 & -> & Hinv2 & H1 & H2 & H3 & H4). cbn [mbind option_bind].
  change (s_db (set_seed (u32 (s_seed s + 1)) (set_store_db st1 s))) with st1 in H1, H2, H3, H4. rewrite Lid in H3.
  destruct (cleanup_inv k sp s2 contents2 used mes ies floor Hinv2) as (st3 & Ec & Hinv3); [by rewrite H1|by rewrite H2|by rewrite H4|]. rewrite H3 in Ec. rewrite Ec. cbn [mbind option_bind].
  eexists. split; [reflexivity|]. by exists contents2, used, mes, ies, floor.
Qed.

(** ** The snapshots *)

Lemma snapshots_inv k sp s contents used mes ies floor l xs :
  store_inv k sp s contents used mes ies floor -> represents l xs -> StronglySorted (fun x y => x.2 <= y.2) xs -> (forall x, x ∈ xs -> x ∈ sp_snaps sp \/ x.2 = sp_seq sp) ->
  store_inv k (MkSpec (sp_hist sp) (sp_seq sp) xs (sl_next_address l)) (set_snapshots l s) contents used mes ies floor.
Proof.
  intros [Hw Ha Hm Hr [Hseq Hs0] Hb Hh [Hsn Hnx] Hso [Hf Hl] Hlog Htmp Hlf Hrf Hdu] Hrep Hsort Hin. split; cbn [sp_hist sp_seq sp_snaps sp_next set_snapshots set_bg s_bg s_log s_tmp_batch s_logfile bg_db bg_snapshots bg_manual bg_scheduled]; try done.
  - by destruct Hw.
  - split; [done|]. apply Forall_forall. intros x [Hx|Hx]%Hin; [exact (proj1 (Forall_forall _ _) Hl x Hx)|lia].
Qed.

Lemma GetSnapshot_spec k sp s : store_ok k sp s ->
  exists s', GetSnapshot s = Some (sp_next sp, s') /\ store_ok k (MkSpec (sp_hist sp) (sp_seq sp) (sp_snaps sp ++ [(sp_next sp, sp_seq sp)]) (sp_next sp + 1)) s'.
Proof.
  intros (contents & used & mes & ies & floor & Hinv). pose proof Hinv as [_ _ _ _ [Hseq _] _ _ [Hsn Hnx] Hso [_ Hl] _ _ _ _ _]. destruct (Snapshot_New_spec (bg_snapshots (s_bg s)) (sp_snaps sp) (sp_seq sp) Hsn) as (l' & En & Hr' & Hn').
  unfold GetSnapshot. rewrite Hseq, En. cbn [mbind option_bind]. rewrite Hnx in *. eexists. split; [reflexivity|]. exists contents, used, mes, ies, floor. rewrite <-Hn'. apply (snapshots_inv k sp); [done|done| |].
  - apply StronglySorted_app_2; [|done|by repeat constructor]. intros x y Hx ->%list_elem_of_singleton. apply (proj1 (Forall_forall _ _) Hl x Hx).
  - intros x [Hx|Hx%list_elem_of_singleton]%elem_of_app; [by left|right; by subst x].
Qed.

Lemma ReleaseSnapshot_spec k sp s a : store_ok k sp s -> a ∈ map fst (sp_snaps sp) ->
  exists s', ReleaseSnapshot a s = Some s' /\ store_ok k (MkSpec (sp_hist sp) (sp_seq sp) (List.filter (fun x => negb (x.1 =? a)) (sp_snaps sp)) (sp_next sp)) s'.
Proof.
  intros (contents & used & mes & ies & floor & Hinv) Ha. pose proof Hinv as [_ _ _ _ _ _ _ [Hsn Hnx] Hso _ _ _ _ _ _].
  destruct (snapshot_op_spec (Snapshot.OpDelete a) (bg_snapshots (s_bg s)) (sp_snaps sp) (sl_next_address (bg_snapshots (s_bg s)), List.filter (fun x => negb (x.1 =? a)) (sp_snaps sp)) Hsn Hso) as (l' & El & Hr & Hn' & Hs'); [cbn [spec_snapshot]; by rewrite bool_decide_true|].
  unfold ReleaseSnapshot. cbn [snapshot_op] in El. rewrite El. cbn [mbind option_bind fst snd] in *. eexists. split; [reflexivity|]. exists contents, used, mes, ies, floor. rewrite <-Hnx, <-Hn'. apply (snapshots_inv k sp); try done.
  intros x Hx. left. apply list_elem_of_In, filter_In in Hx as [Hx _]. by apply list_elem_of_In.
Qed.

(** ** The background thread and the compaction of a range *)

Context (Hbuffer : 4104 <= write_buffer_size) (Hfit : entries_fit extend snappy zstd ucmp o E) (fuel : nat) (Hfuel : slen E <= Z.of_nat fuel) (n : nat) (Hn : (14 * length E + 5 <= n)%nat).

Lemma background_spec k sp s : 0 <= k -> store_ok (k + 1) sp s -> bg_scheduled (s_bg s) = true ->
  exists s', wait_for_background extend snappy zstd dbname o in_scratch None ucmp cmp_name max_file_size fuel s = Some s' /\ store_ok k sp s'.
Proof.
  intros Hk (contents & used & mes & ies & floor & Hinv) Hsc. destruct (wait_spec extend snappy zstd dbname in_scratch reuse_logs ucmp cmp_name Hname max_file_size o Ho E k sp s contents used mes ies floor fuel Hfit Hk Hinv Hsc Hfuel)
    as (contents' & used' & bg' & floor' & manual & E1 & Hinv' & _). exists (set_bg bg' s). split; [done|]. by exists contents', used', mes, [], floor'.
Qed.

Lemma wait_imm_spec k sp s : 0 <= k -> store_ok (k + 1) sp s ->
  exists bg', wait_imm extend snappy zstd dbname o in_scratch None ucmp cmp_name max_file_size n fuel (s_bg s) = Some (OK, bg') /\ store_ok k sp (set_bg bg' s).
Proof.
  intros Hk (contents & used & mes & ies & floor & Hinv). destruct n as [|n']; [lia|]. pose proof Hinv as [[_ _ _ _ _ _ Herr _] _ _ _ _ _ _ _ _ _ _ _ _ _]. cbn [wait_imm]. rewrite Herr, andb_true_r. case_bool_decide as Hi; cbn [negb].
  - exists (s_bg s). split; [done|]. exists contents, used, mes, ies, floor. assert (set_bg (s_bg s) s = s) as -> by (by destruct s). by apply (inv_less extend snappy zstd dbname in_scratch reuse_logs ucmp cmp_name max_file_size o E (k + 1) k); [lia|].
  - destruct (call_spec extend snappy zstd dbname in_scratch reuse_logs ucmp cmp_name Hname max_file_size o Ho E k sp s contents used mes ies floor fuel Hfit Hk Hinv
      (inv_scheduled extend snappy zstd dbname in_scratch reuse_logs ucmp cmp_name max_file_size o E _ _ _ _ _ _ _ _ Hinv (or_introl Hi)) Hfuel) as (contents' & used' & bg' & floor' & manual & E1 & Hinv' & Hi' & _).
    exists bg'. rewrite E1. cbn [mbind option_bind]. split; [|by exists contents', used', mes, [], floor']. destruct n' as [|n'']; cbn [wait_imm]; rewrite Hi'; done.
Qed.

Lemma CompactMemTable_store k sp s runs : 0 <= k -> store_ok (k + 1 + write_cost E) sp s ->
  exists s', TEST_CompactMemTable extend snappy zstd dbname o in_scratch None ucmp cmp_name max_file_size write_buffer_size n fuel runs s = Some (OK, s') /\ store_ok k sp s'.
Proof.
  intros Hk Hs. assert (fits E sp ([] ++ concat [])) as Hfits. { destruct Hs as (? & ? & ? & ? & ? & [_ _ _ _ [_ Hs0] _ _ _ _ _ _ _ _ _]). split_and!; cbn; [intros e He; by apply elem_of_nil in He|lia|lia]. }
  destruct (Store_Write_spec extend snappy zstd dbname in_scratch reuse_logs ucmp cmp_name Hname max_file_size write_buffer_size o Ho Hbuffer E Hfit HEok fuel Hfuel n Hn (k + 1) sp s runs (MkDBWriter None false) [] [] [] Hs ltac:(lia) eq_refl ltac:(constructor) Hfits)
    as (served & s1 & Hle & E1 & H1). unfold TEST_CompactMemTable. rewrite E1. cbn [mbind option_bind]. rewrite ok_OK. rewrite take_nil in H1. cbn [concat app] in H1. rewrite sp_write_nil in H1.
  destruct (wait_imm_spec k sp s1 Hk H1) as (bg' & E2 & H2). rewrite E2. cbn [mbind option_bind]. by exists (set_bg bg' s1).
Qed.

Lemma max_level_range k sp s begin end_ : store_ok k sp s -> exists last, max_level_with_files ucmp (v_of (s_db s)) begin end_ = Some last /\ 1 <= last < kNumLevels.
Proof.
  intros (contents & used & mes & ies & floor & [[Hdb _ _ _ _ _ _ _] _ _ _ _ _ _ _ _ _ _ _ _ _]). pose proof Hdb as [_ _ _ _ _ _ _ Hv _ _ _ _]. unfold max_level_with_files.
  assert (forall ls m, (forall l, l ∈ ls -> 1 <= l < kNumLevels) -> 1 <= m < kNumLevels -> exists last, foldl (fun m level => m ← m; o ← OverlapInLevel ucmp (v_of (s_db s)) level begin end_; Some (if o : bool then level else m)) (Some m) ls = Some last /\ 1 <= last < kNumLevels) as H.
  { induction ls as [|l ls IH]; intros m Hls Hm; [by exists m|]. cbn [foldl mbind option_bind]. pose proof (Hls l ltac:(left)) as Hl.
    assert (files_ok ucmp (level_files (v_of (s_db s)) l)) as Hfo by (split; [eapply Forall_impl; [exact (vo_files _ _ _ _ Hv l ltac:(lia))|]; by intros f (_ & _ & _ & ? & _)|apply Hv; lia]).
    unfold OverlapInLevel at 2. rewrite (SomeFileOverlapsRange_spec ucmp _ _ begin end_ Hfo) by (intros _; apply Hv; lia). cbn [mbind option_bind]. apply IH; [intros l' Hl'; apply Hls; by right|]. by destruct (existsb _ _). }
  apply H; [|unfold kNumLevels; lia]. intros l [Hl1 Hl2]%elem_of_seqZ. lia.
Qed.

(** The calls that the compaction of a level, and of a range, take at most. *)
Definition level_cost : Z := 7 * slen E + 3.
Definition range_cost : Z := write_cost E + 1 + kNumLevels * level_cost.

Lemma CompactRange_level k sp s level begin end_ : 0 <= k -> store_ok (k + level_cost) sp s -> 0 <= level < kNumLevels - 1 ->
  exists bg', TEST_CompactRange extend snappy zstd dbname o in_scratch None ucmp cmp_name max_file_size n fuel level begin end_ (s_bg s) = Some bg' /\ store_ok k sp (set_bg bg' s).
Proof.
  intros Hk (contents & used & mes & ies & floor & Hinv) Hl. destruct (inv_smallest extend snappy zstd dbname in_scratch reuse_logs ucmp cmp_name max_file_size o _ _ _ _ _ _ _ _ _ Hinv) as (ss & Hss & Hb & Hlive).
  pose proof Hinv as [Hw Ha _ _ [_ Hs0] _ _ _ _ _ _ _ _ _]. rewrite Z.add_comm in Hw.
  destruct (loop_returns extend snappy zstd dbname in_scratch reuse_logs ucmp cmp_name Hname max_file_size o Ho E Hfit mes ss ltac:(lia) fuel Hfuel k Hk contents used ies (s_bg s)
    (MkManual level false ((fun k => NewInternalKey k kMaxSequenceNumber kValueTypeForSeek) <$> begin) ((fun k => NewInternalKey k 0 kTypeDeletion) <$> end_)) n Hw Ha Hss eq_refl Hl Hn) as (contents' & used' & bg' & Er & Hc & _).
  exists bg'. split; [exact Er|]. exists contents', used', mes, [], ss. by apply (called_inv extend snappy zstd dbname in_scratch reuse_logs ucmp cmp_name max_file_size o E (k + level_cost) k sp s contents used mes ies floor).
Qed.

Lemma compact_levels_spec last begin end_ f : forall k sp s level, 0 <= k -> store_ok (k + Z.of_nat f * level_cost) sp s -> last - level <= Z.of_nat f -> 0 <= level -> last <= kNumLevels - 1 ->
  exists s', compact_levels extend snappy zstd dbname o in_scratch None ucmp cmp_name max_file_size f n fuel level last begin end_ s = Some s' /\ store_ok k sp s'.
Proof.
  assert (0 <= level_cost) as Hc by (unfold level_cost; lia). induction f as [|f IH]; intros k sp s level Hk Hs Hle H0 Hlast; cbn [compact_levels].
  - destruct (Z.ltb_spec level last); [lia|]. exists s. split; [done|]. by rewrite Z.add_0_r in Hs.
  - destruct (Z.ltb_spec level last) as [Hlt|Hge].
    + destruct (CompactRange_level (k + Z.of_nat f * level_cost) sp s level begin end_ ltac:(nia)) as (bg' & E1 & H1); [by replace (k + Z.of_nat f * level_cost + level_cost) with (k + Z.of_nat (S f) * level_cost) by lia|lia|].
      rewrite E1. cbn [mbind option_bind]. apply (IH k sp); [done|done|lia|lia|done].
    + exists s. split; [done|]. destruct Hs as (contents & used & mes & ies & floor & Hinv). exists contents, used, mes, ies, floor.
      apply (inv_less extend snappy zstd dbname in_scratch reuse_logs ucmp cmp_name max_file_size o E (k + Z.of_nat (S f) * level_cost) k); [nia|done].
Qed.

Lemma CompactRange_store k sp s runs begin end_ : 0 <= k -> store_ok (k + range_cost) sp s ->
  exists s', Store_CompactRange extend snappy zstd dbname o in_scratch None ucmp cmp_name max_file_size write_buffer_size n fuel runs begin end_ s = Some s' /\ store_ok k sp s'.
Proof.
  intros Hk Hs. unfold Store_CompactRange. destruct (max_level_range _ _ _ begin end_ Hs) as (last & -> & Hlast). cbn [mbind option_bind]. assert (0 <= level_cost) as Hc by (unfold level_cost; lia). unfold kNumLevels in Hlast.
  destruct (CompactMemTable_store (k + 7 * level_cost) sp s runs ltac:(lia)) as (s1 & -> & H1); [unfold range_cost, kNumLevels in Hs; by replace (k + 7 * level_cost + 1 + write_cost E) with (k + (write_cost E + 1 + 7 * level_cost)) by lia|].
  cbn [mbind option_bind]. apply (compact_levels_spec last begin end_ 7 k sp s1 0); [done|done|lia|lia|unfold kNumLevels; lia].
Qed.
End operations.

(** ** The history as a map *)

(** What the sequence number sees of the history. *)
Definition shows_map (hist : list entry) (q : Z) (m : gmap slice slice) : Prop := forall key value, read_result value (newest key q hist) = kv_get value (m !! key).

Lemma newest_later key q q' es : (forall e, e ∈ es -> e_seq e <= q) -> q <= q' -> newest key q' es = newest key q es.
Proof.
  intros Hb Hq. induction es as [|e es IH]; [done|]. cbn [newest]. rewrite IH by (intros e' He'; apply Hb; by right). pose proof (Hb e ltac:(left)) as He.
  assert (visible key q' e = visible key q e) as -> by (unfold visible; f_equal; apply Bool.eq_true_iff_eq; rewrite !Z.leb_le; lia). done.
Qed.

Lemma shows_op hist q m o' : (forall e, e ∈ hist -> e_seq e <= q) -> shows_map hist q m -> shows_map (reverse (entries_of (q + 1) [o']) ++ hist) (q + 1) (kv_op m o').
Proof.
  intros Hb Hm key value. assert (exists e, entries_of (q + 1) [o'] = [e] /\ e_seq e = q + 1 /\ e_key e = match o' with OpPut k _ | WriteBatch.OpDelete k => k end /\ forall value, read_result value (Some e) = kv_get value (match o' with OpPut _ v => Some v | WriteBatch.OpDelete _ => None end)) as (e & -> & Es & Ek & Er) by (destruct o'; by eexists).
  change (reverse [e] ++ hist) with ([e] ++ hist). rewrite newest_app; [|intros a b ->%list_elem_of_singleton Hb'%Hb _; lia]. cbn [newest]. unfold visible. rewrite Es, Z.leb_refl, andb_true_r. case_bool_decide as Hk.
  - rewrite Er. subst key. rewrite Ek. destruct o'; cbn [kv_op]; [by rewrite lookup_insert_eq|by rewrite lookup_delete_eq].
  - rewrite (newest_later key q (q + 1)) by (done || lia). rewrite Hm. destruct o'; cbn [kv_op]; [by rewrite lookup_insert_ne by congruence|by rewrite lookup_delete_ne by congruence].
Qed.

Lemma shows_write os sp m :
  (forall e, e ∈ sp_hist sp -> e_seq e <= sp_seq sp) -> shows_map (sp_hist sp) (sp_seq sp) m -> shows_map (sp_hist (sp_write os sp)) (sp_seq (sp_write os sp)) (foldl kv_op m os).
Proof.
  revert sp m. induction os as [|o' os IH]; intros sp m Hb Hm; [by rewrite sp_write_nil|]. change (o' :: os) with ([o'] ++ os). rewrite sp_write_app. cbn [foldl app]. apply IH; cbn [sp_write sp_hist sp_seq length].
  - intros e [He|He]%elem_of_app; [apply elem_of_reverse, entries_of_seq in He; cbn in He; lia|]. specialize (Hb e He). lia.
  - by apply shows_op.
Qed.

(** An older number sees what it saw. *)
Lemma shows_older os sp q m : q <= sp_seq sp -> shows_map (sp_hist sp) q m -> shows_map (sp_hist (sp_write os sp)) q m.
Proof.
  intros Hq Hm key value. rewrite <-Hm. cbn [sp_write sp_hist]. set (new := entries_of _ _). assert (forall e, e ∈ reverse new -> visible key q e = false) as Hv.
  { intros e He%elem_of_reverse%entries_of_seq. unfold visible. destruct (Z.leb_spec (e_seq e) q); [lia|]. apply andb_false_r. }
  clearbody new. induction (reverse new) as [|e es IH]; [done|]. cbn [app newest]. rewrite (Hv e) by left. cbn [andb]. assert (forall x : option entry, match x with Some e' => Some e' | None => None end = x) as Hx by (by intros []). rewrite Hx. apply IH. intros e' He'. apply Hv. by right.
Qed.

Record kv_holds (sp : Spec) (st : KV) : Prop := {
  kh_map : shows_map (sp_hist sp) (sp_seq sp) (kv_map st);
  kh_snaps : Forall2 (fun x y => x.1 = y.1 /\ shows_map (sp_hist sp) x.2 y.2) (sp_snaps sp) (kv_snaps st);
  kh_next : kv_next st = sp_next sp;
}.

Lemma kv_at_spec sp st snapshot m : kv_holds sp st -> kv_at snapshot st = Some m ->
  exists q, match snapshot with Some a => (a, q) ∈ sp_snaps sp | None => q = sp_seq sp end /\ shows_map (sp_hist sp) q m.
Proof.
  intros [Hm Hs _]. destruct snapshot as [a|]; cbn [kv_at]; [|intros [= <-]; by exists (sp_seq sp)]. destruct (List.find _ _) as [[b m']|] eqn:Ef; [|done]. intros [= <-]. cbn [snd].
  apply find_some in Ef as [Hin Hab%Z.eqb_eq]. cbn [fst] in Hab. subst b. apply list_elem_of_In, list_elem_of_lookup in Hin as [i Hi]. destruct (Forall2_lookup_r _ _ _ _ _ Hs Hi) as ([b q] & Hx & Hb & Hq). cbn [fst snd] in Hb, Hq. subst b. exists q. split; [by eapply list_elem_of_lookup_2|done].
Qed.

(** The view of an iterator is the map in its order. *)
Lemma kv_view_unique (ucmp : Comparator) `{!ComparatorLaws any_key ucmp} m view :
  sorted_entries ucmp view -> (forall key value, (key, value) ∈ view <-> m !! key = Some value) -> view = kv_view ucmp m.
Proof.
  intros Hs Hin. set (R := key_le ucmp).
  assert (Transitive R) as HT by (intros a b c; unfold R, key_le; by apply (compare_le_trans (key := any_key))).
  assert (Total R) as Htot by (intros a b; unfold R, key_le; destruct (decide (Compare ucmp a.1 b.1 < 0)) as [H|H]; [left; lia|right; by apply (compare_nlt (key := any_key))]).
  assert (forall x, x ∈ kv_view ucmp m <-> m !! x.1 = Some x.2) as Hin' by (intros [k v]; unfold kv_view; rewrite merge_sort_Permutation; apply elem_of_map_to_list).
  apply (StronglySorted_unique_strong R).
  - intros [k1 v1] [k2 v2] H1 H2 Hle Hge. unfold R, key_le in Hle, Hge. cbn [fst] in *. assert (k1 = k2) as ->. { apply (compare_eq (key := any_key) (c := ucmp)); [done|done|]. destruct (decide (Compare ucmp k1 k2 < 0)) as [H|H]; [|lia]. apply (compare_antisym (key := any_key)) in H; [lia|done|done]. }
    apply Hin in H1. apply Hin' in H2. cbn in H2. congruence.
  - clear -Hs. induction Hs as [|a l Hs IH Hall]; constructor; [done|]. eapply Forall_impl; [exact Hall|]. unfold R, key_le. cbn. lia.
  - apply (StronglySorted_merge_sort R).
  - apply NoDup_Permutation.
    + clear -Hs ComparatorLaws0. induction Hs as [|a l Hs IH Hall]; constructor; [|done]. intros Ha. pose proof (proj1 (Forall_forall _ _) Hall a Ha) as H. cbn in H. rewrite (compare_refl (key := any_key)) in H by done. lia.
    + unfold kv_view. rewrite merge_sort_Permutation. apply NoDup_map_to_list.
    + intros [k v]. rewrite Hin, Hin'. done.
Qed.

(** ** The steps *)

Section refine.
Context (extend : Z -> slice -> Z) `{!Checksum extend} (snappy : option SnappyLib) (zstd : option ZstdLib).
Context (dbname : slice) (in_scratch create_if_missing paranoid_checks reuse_logs : bool) (ro : ReadOptions).
Context (ucmp : Comparator) `{!ComparatorLaws any_key ucmp} `{!SeparatorSame any_key ucmp} (cmp_name : slice) (Hname : is_u32 (slen cmp_name)) (max_file_size write_buffer_size : Z).
Context (o : Options) (Ho : opt_comparator o = InternalKeyComparator ucmp) (Hfilter : forall p, opt_filter_policy o = Some p -> exists up, p = InternalFilterPolicy up).
Context (Hbuffer : 4104 <= write_buffer_size).
Context (E : list entry) (Hfit : entries_fit extend snappy zstd ucmp o E) (HEok : Forall (fun e => entry_ok e /\ e_seq e < kMaxSequenceNumber) E).
Context (fuel : nat) (Hfuel : slen E <= Z.of_nat fuel) (n : nat) (Hn : (14 * length E + 5 <= n)%nat).

Abbreviation store_ok := (store_ok extend snappy zstd dbname in_scratch reuse_logs ucmp cmp_name max_file_size o E).
Abbreviation step := (store_step extend snappy zstd dbname o in_scratch None ucmp cmp_name max_file_size write_buffer_size create_if_missing paranoid_checks reuse_logs ro n fuel).

(** The store stands for the map, with [q] the last sequence number, and has numbers for the files of [k] more calls of the
    background thread. *)
Definition store_holds (k q : Z) (st : KV) (s : Store) : Prop := exists sp, store_ok k sp s /\ kv_holds sp st /\ sp_seq sp = q.

(** How many calls of the background thread an operation waits for at most. *)
Definition op_cost (op : StoreOp) : Z :=
  match op with
  | DoWrite _ writers => Z.of_nat (length writers) * write_cost E
  | DoBackground => 1
  | DoCompactRange _ _ _ => range_cost E
  | DoReopen => reopen_cost
  | _ => 0
  end.

(** The keys that are asked for are not too long. *)
Definition op_allowed (op : StoreOp) : Prop :=
  match op with
  | DoGet _ key _ => slen key + 8 < 2 ^ 32
  | DoIterate _ calls => Forall (op_key (fun t => slen t + 8 < 2 ^ 32)) calls
  | _ => True
  end.

Definition op_writes (call : StoreOp) : list op := match call with DoWrite _ writers => ops_of writers | _ => [] end.

Lemma entries_op_ok q os : (forall e, e ∈ entries_of q os -> e ∈ E) -> Forall op_ok os /\ (length os <= length E)%nat.
Proof.
  intros Hin. split.
  - revert q Hin. induction os as [|o' os IH]; intros q Hin; constructor; [|apply (IH (q + 1)); intros e He; apply Hin; destruct o'; by right].
    destruct o' as [key value|key]; cbn [entries_of op_ok] in *; [assert (MkEntry q kTypeValue key value ∈ E) as He by (apply Hin; left)|assert (MkEntry q kTypeDeletion key [] ∈ E) as He by (apply Hin; left)];
      apply (proj1 (Forall_forall _ _) HEok) in He as [(_ & Hk & Hv) _]; cbn in Hk, Hv; lia.
  - rewrite <-(length_entries_of q os). apply submseteq_length, NoDup_submseteq; [apply seqs_differ_NoDup, entries_of_differ|done].
Qed.

Lemma writers_ops q writers : (forall e, e ∈ entries_of q (ops_of writers) -> e ∈ E) -> Forall2 writer_ops (map writer_of writers) (map (fun w => default [] w.1) writers).
Proof.
  intros Hin. destruct (entries_op_ok q _ Hin) as [Hok Hlen]. pose proof (proj1 Hfit) as HE. apply Forall2_fmap_2. unfold ops_of in *. clear Hin.
  induction writers as [|[w sync] writers IH]; [constructor|]. cbn [map concat fst] in Hok, Hlen. apply Forall_app in Hok as [H1 H2]. rewrite length_app in Hlen. constructor; [|apply IH; [done|lia]].
  unfold writer_ops, writer_of. cbn [w_batch fst]. destruct w as [os|]; cbn [fmap option_fmap option_map default from_option id] in *; [|done]. exists 0. apply (apply_ops_is NewWriteBatch 0 []); [apply NewWriteBatch_is|done|cbn; lia].
Qed.

Lemma writes_fit q sp os : 0 <= sp_seq sp < kMaxSequenceNumber -> q = sp_seq sp + 1 -> (forall e, e ∈ entries_of q os -> e ∈ E) -> fits E sp os.
Proof.
  intros Hs0 -> Hin. destruct (entries_op_ok _ _ Hin) as [_ Hlen]. pose proof (proj1 Hfit) as HE2. split_and!; [done| |lia]. destruct os as [|o1 os1 _] using rev_ind; [cbn; lia|]. rewrite length_app. cbn [length].
  assert (exists e, e ∈ E /\ e_seq e = sp_seq sp + 1 + Z.of_nat (length os1)) as (e & He & Es). { rewrite entries_of_app in Hin. destruct o1; cbn [entries_of] in Hin; eexists; (split; [apply Hin, elem_of_app; right; left|done]). }
  apply (proj1 (Forall_forall _ _) HEok) in He as [_ He]. lia.
Qed.

Lemma write_refines k sp st s runs writers : let op := DoWrite runs writers in
  0 <= k -> store_ok (k + op_cost op) sp s -> kv_holds sp st -> (forall e, e ∈ entries_of (sp_seq sp + 1) (ops_of writers) -> e ∈ E) ->
  exists r st' s', kv_step ucmp op st = Some (r, st') /\ step op s = Some (r, s') /\ store_ok k (sp_write (ops_of writers) sp) s' /\ kv_holds (sp_write (ops_of writers) sp) st'.
Proof.
  intros op Hk Hs Hkv Hin. assert (Forall entry_ok E) as HEok' by (eapply Forall_impl; [exact HEok|]; by intros e [? _]).
  assert (exists contents used mes ies floor, store_inv extend snappy zstd dbname in_scratch reuse_logs ucmp cmp_name max_file_size o E (k + op_cost op) sp s contents used mes ies floor) as (contents & used & mes & ies & floor & Hinv) by exact Hs.
  destruct Hinv as [_ _ _ _ [_ Hs0] _ Hh _ _ [_ Hl] _ _ _ _ _].
  pose proof (writes_fit _ sp (ops_of writers) Hs0 eq_refl Hin) as Hfits.
  destruct (Store_serve_spec extend snappy zstd dbname in_scratch reuse_logs ucmp cmp_name Hname max_file_size write_buffer_size o Ho Hbuffer E Hfit HEok' fuel Hfuel n Hn (S (length writers)) k sp s runs (map writer_of writers) (map (fun w => default [] w.1) writers))
    as (s' & Es & Hs'); [rewrite length_map; lia|rewrite length_map; exact Hs|done|by apply (writers_ops (sp_seq sp + 1))|done|].
  rewrite length_map in Es. eexists _, _, s'. split; [reflexivity|]. split; [unfold step; cbn [op]; rewrite Es; done|]. split; [exact Hs'|]. destruct Hkv as [K1 K2 K3]. split; cbn [kv_map kv_snaps kv_next]; [by apply shows_write| |done].
  cbn [sp_write sp_snaps]. clear -K2 Hl. induction K2 as [|x y xs ys [H1 H2] K2 IH]; constructor; [|apply Forall_cons in Hl as [_ Hl]; by apply IH]. apply Forall_cons in Hl as [Hx _]. cbn in Hx. split; [done|]. by apply shows_older; [lia|].
Qed.

Lemma ok_entries : Forall entry_ok E.
Proof. eapply Forall_impl; [exact HEok|]. by intros e [? _]. Qed.

Lemma snaps_filter a sp st : kv_holds sp st ->
  kv_holds (MkSpec (sp_hist sp) (sp_seq sp) (List.filter (fun x => negb (x.1 =? a)) (sp_snaps sp)) (sp_next sp)) (MkKV (kv_map st) (List.filter (fun x => negb (x.1 =? a)) (kv_snaps st)) (kv_next st)).
Proof.
  intros [K1 K2 K3]. split; cbn [sp_hist sp_seq sp_snaps sp_next kv_map kv_snaps kv_next]; [done| |done]. clear K1 K3. induction K2 as [|x y xs ys [H1 H2] K2 IH]; [constructor|]. cbn [List.filter]. rewrite <-H1. destruct (negb _); [by constructor|done].
Qed.

Lemma step_refines k sp st s op r st' :
  0 <= k -> store_ok (k + op_cost op) sp s -> kv_holds sp st -> op_allowed op -> (forall e, e ∈ entries_of (sp_seq sp + 1) (op_writes op) -> e ∈ E) -> kv_step ucmp op st = Some (r, st') ->
  exists sp' s', step op s = Some (r, s') /\ store_ok k sp' s' /\ kv_holds sp' st' /\ sp_seq sp' = sp_seq sp + Z.of_nat (length (op_writes op)).
Proof.
  intros Hk Hs Hkv Hal Hin Hst. pose proof ok_entries as HEok'. destruct op as [runs writers|snapshot key value|snapshot calls| |a| |runs begin end_|]; cbn [op_cost op_allowed op_writes length] in *; rewrite ?Z.add_0_r in *.
  - destruct (write_refines k sp st s runs writers Hk Hs Hkv Hin) as (r1 & st1 & s' & E1 & E2 & H1 & H2). rewrite E1 in Hst. injection Hst as -> ->. by exists (sp_write (ops_of writers) sp), s'.
  - cbn [kv_step] in Hst. destruct (kv_at snapshot st) as [m|] eqn:Em; [|done]. injection Hst as <- <-. destruct (kv_at_spec sp st snapshot m Hkv Em) as (q & Hq & Hm).
    destruct (Get_spec extend snappy zstd dbname in_scratch reuse_logs ucmp cmp_name Hname max_file_size o Ho Hfilter E k sp s ro snapshot q key value Hs Hq Hal) as (s' & Eg & Hs'). exists sp, s'. cbn [store_step]. rewrite Eg, Hm. done.
  - cbn [kv_step] in Hst. destruct (kv_at snapshot st) as [m|] eqn:Em; [|done]. cbn [mbind option_bind] in Hst. destruct (spec_calls _ _ _ _) as [seen|] eqn:Ec; [|done]. injection Hst as <- <-. destruct (kv_at_spec sp st snapshot m Hkv Em) as (q & Hq & Hm).
    destruct (Iterate_spec extend snappy zstd dbname in_scratch reuse_logs ucmp cmp_name Hname max_file_size o Ho E HEok' k sp s ro snapshot q n calls Hs Hq ltac:(lia) Hal) as (view & Hsort & Hview & Hrun).
    assert (view = kv_view ucmp m) as ->. { apply (kv_view_unique ucmp m view); [done|]. intros key value. rewrite Hview, Hm. unfold kv_get. destruct (m !! key) as [v|]; (split; [intros [=]|intros [=]]); congruence. }
    destruct (Hrun seen Ec) as (s' & Ei & Hs'). exists sp, s'. cbn [store_step]. rewrite Ei. done.
  - injection Hst as <- <-. destruct (GetSnapshot_spec extend snappy zstd dbname in_scratch reuse_logs ucmp cmp_name max_file_size o E k sp s Hs) as (s' & Eg & Hs'). destruct Hkv as [K1 K2 K3]. eexists _, s'. cbn [store_step]. rewrite Eg, K3. split; [done|]. split; [exact Hs'|].
    split; [|done]. split; cbn [sp_hist sp_seq sp_snaps sp_next kv_map kv_snaps kv_next]; [done| |congruence]. apply Forall2_app; [done|]. by constructor.
  - cbn [kv_step] in Hst. case_bool_decide as Ha; [|done]. injection Hst as <- <-. assert (a ∈ map fst (sp_snaps sp)) as Ha'.
    { destruct Hkv as [_ K2 _]. clear -K2 Ha. induction K2 as [|x y xs ys [H1 _] _ IH]; [done|]. cbn [map] in *. rewrite H1. apply elem_of_cons in Ha as [->|Ha]; [left|right; by apply IH]. }
    destruct (ReleaseSnapshot_spec extend snappy zstd dbname in_scratch reuse_logs ucmp cmp_name max_file_size o E k sp s a Hs Ha') as (s' & Eg & Hs'). eexists _, s'. cbn [store_step]. rewrite Eg. split; [done|]. split; [exact Hs'|]. split; [by apply snaps_filter|done].
  - injection Hst as <- <-. cbn [store_step]. destruct (bg_scheduled (s_bg s)) eqn:Esc.
    + destruct (background_spec extend snappy zstd dbname in_scratch reuse_logs ucmp cmp_name Hname max_file_size o Ho E Hfit fuel Hfuel k sp s Hk Hs Esc) as (s' & -> & Hs'). by exists sp, s'.
    + exists sp, s. split; [done|]. split; [|done]. destruct Hs as (contents & used & mes & ies & floor & Hinv). exists contents, used, mes, ies, floor. eapply inv_less; [|exact Hinv]. lia.
  - injection Hst as <- <-. destruct (CompactRange_store extend snappy zstd dbname in_scratch reuse_logs ucmp cmp_name Hname max_file_size write_buffer_size o Ho E HEok' Hbuffer Hfit fuel Hfuel n Hn k sp s runs begin end_ Hk Hs) as (s' & Eg & Hs').
    exists sp, s'. cbn [store_step]. rewrite Eg. done.
  - injection Hst as <- <-. destruct (reopen_spec extend snappy zstd dbname in_scratch reuse_logs ucmp cmp_name Hname max_file_size write_buffer_size o Ho Hbuffer create_if_missing paranoid_checks E Hfit false k sp s (tc_env (db_table_cache (s_db s))) Hk Hs
    (store_leaves_own extend snappy zstd dbname in_scratch reuse_logs ucmp cmp_name Hname max_file_size o E _ _ _ Hs) ltac:(done)) as (s' & Eo & Hs').
    eexists _, s'. cbn [store_step]. rewrite Eo. split; [done|]. split; [exact Hs'|]. destruct Hkv as [K1 _ _]. split; [by split|done].
Qed.

Definition total_cost (ops : list StoreOp) : Z := foldr (fun op z => op_cost op + z) 0 ops.

Lemma total_cost_pos ops : 0 <= total_cost ops.
Proof.
  clear Hbuffer Hfuel Hn.
  assert (forall op, 0 <= op_cost op) as Hpos by (intros [runs writers| | | | | | |]; cbn [op_cost]; try lia; try done; unfold range_cost, level_cost, write_cost, kNumLevels; nia).
  induction ops as [|op ops IH]; cbn [total_cost foldr]; [lia|]. specialize (Hpos op). unfold total_cost in IH. lia.
Qed.

Lemma run_refines ops : forall k sp st s rs st',
  0 <= k -> store_ok (k + total_cost ops) sp s -> kv_holds sp st -> Forall op_allowed ops -> (forall e, e ∈ entries_of (sp_seq sp + 1) (concat (map op_writes ops)) -> e ∈ E) -> run_steps (kv_step ucmp) ops st = Some (rs, st') ->
  exists s', run_steps step ops s = Some (rs, s') /\ store_holds k (sp_seq sp + Z.of_nat (length (concat (map op_writes ops)))) st' s'.
Proof.
  induction ops as [|op ops IH]; intros k sp st s rs st' Hk Hs Hkv Hal Hin; cbn [run_steps]; [intros [= <- <-]; exists s; split; [done|]; exists sp; cbn [total_cost foldr] in Hs; rewrite Z.add_0_r in Hs; split_and!; [done|done|cbn; lia]|].
  destruct (kv_step ucmp op st) as [[r st1]|] eqn:E1; [|done]. cbn [mbind option_bind]. destruct (run_steps (kv_step ucmp) ops st1) as [[rs1 st2]|] eqn:E2; [|done]. intros [= <- <-].
  apply Forall_cons in Hal as [Ha Hal]. cbn [map concat] in Hin. rewrite entries_of_app in Hin.
  destruct (step_refines (k + total_cost ops) sp st s op r st1) as (sp1 & s1 & -> & Hs1 & Hkv1 & Hseq); [pose proof (total_cost_pos ops); lia| |done|done|intros e He; apply Hin, elem_of_app; by left|done|].
  { cbn [total_cost foldr] in Hs. fold (total_cost ops) in Hs. by replace (k + total_cost ops + op_cost op) with (k + (op_cost op + total_cost ops)) by lia. }
  cbn [mbind option_bind]. destruct (IH k sp1 st1 s1 rs1 st2 Hk Hs1 Hkv1 Hal) as (s' & -> & H'); [|done|exists s'; split; [done|]; cbn [map concat]; rewrite length_app, Nat2Z.inj_add, Z.add_assoc, <-Hseq; exact H'].
  intros e He. apply Hin, elem_of_app. right. rewrite Hseq in He. by replace (sp_seq sp + 1 + Z.of_nat (length (op_writes op))) with (sp_seq sp + Z.of_nat (length (op_writes op)) + 1) by lia.
Qed.
End refine.

(** * The whole store *)

(** Whatever the user asks for, a new memtable has room in the write buffer. *)
Lemma sanitized_room v : is_u64 v -> 4104 <= sanitized_write_buffer_size v.
Proof.
  intros Hv. unfold sanitized_write_buffer_size, ClipToRange. change (Z.shiftl 64 10) with 65536. change (Z.shiftl 1 30) with 1073741824. set (v' := if _ <? i32 v then _ else v). destruct (Z.ltb_spec (i32 v') 65536) as [|H]; [lia|].
  assert (0 <= v') as Hv' by (unfold v', in_u in *; destruct (_ <? _); lia). assert (i32 v' <= v'); [|lia]. clear -Hv'. unfold swrap. cbv zeta. pose proof (Z.mod_le v' (2 ^ 32) Hv' ltac:(lia)). pose proof (Z.mod_pos_bound v' (2 ^ 32) ltac:(lia)). unfold wrap. case_match; lia.
Qed.

(** C1. A store is the map from keys to values that its writes make. On a new directory, with no call of the environment
    failing, [DB::Open] gives a store for which every run of writes, reads, iterations, snapshots, manual compactions, calls of
    the background thread, and ends of the process with [DB::Open] behind them, returns whenever the map allows it, with the
    results that the map gives: no write that was acknowledged is lost, no value that was overwritten or deleted is read, and the snapshots keep reading the map that they were taken of, through every flush and
    every compaction, whenever the background thread is run. *)
Theorem store_refines_map (extend : Z -> slice -> Z) `{!Checksum extend} (snappy : option SnappyLib) (zstd : option ZstdLib) (dbname : slice) (in_scratch paranoid_checks reuse_logs : bool) (ro : ReadOptions)
    (ucmp : Comparator) `{!ComparatorLaws any_key ucmp} `{!SeparatorSame any_key ucmp} (cmp_name : slice) (max_file_size raw_write_buffer_size : Z) (o : Options) (fuel n : nat)
    (ops : list StoreOp) (rs : list StoreResult) (st : KV) (e : EnvState) :
  let writes := concat (map op_writes ops) in let E := entries_of 1 writes in let write_buffer_size := sanitized_write_buffer_size raw_write_buffer_size in
  is_u32 (slen cmp_name) -> opt_comparator o = InternalKeyComparator ucmp -> (forall p, opt_filter_policy o = Some p -> exists up, p = InternalFilterPolicy up) -> is_u64 raw_write_buffer_size ->
  Forall op_fits writes -> Z.of_nat (length writes) < kMaxSequenceNumber -> entries_fit extend snappy zstd ucmp o E -> Forall op_allowed ops -> total_cost E ops * (slen E + 1) + 6 < 2 ^ 64 ->
  (length writes <= fuel)%nat -> (14 * length writes + 5 <= n)%nat ->
  new_directory dbname e -> run_steps (kv_step ucmp) ops (MkKV ∅ [] 1) = Some (rs, st) ->
  exists s e' s', Open extend snappy zstd dbname o in_scratch None ucmp cmp_name max_file_size write_buffer_size true false paranoid_checks reuse_logs e = Some (OK, Some s, e') /\
    run_steps (store_step extend snappy zstd dbname o in_scratch None ucmp cmp_name max_file_size write_buffer_size true paranoid_checks reuse_logs ro n fuel) ops s = Some (rs, s').
Proof.
  intros writes E write_buffer_size Hname Ho Hfilter Hraw Hops Hlen Hfit Hal Hmax Hfuel Hn Hnew Hrun. assert (length E = length writes) as HE by apply length_entries_of. pose proof (sanitized_room _ Hraw : 4104 <= write_buffer_size) as Hbuffer.
  assert (Forall (fun e => entry_ok e /\ e_seq e < kMaxSequenceNumber) E) as HEok.
  { apply Forall_and. split; [apply entries_of_ok; [done|lia|lia]|]. apply Forall_forall. intros x Hx%entries_of_seq. lia. }
  destruct (open_new_spec extend snappy zstd dbname in_scratch reuse_logs ucmp cmp_name Hname max_file_size write_buffer_size o true paranoid_checks E (total_cost E ops) e) as (s & Eo & Hs); [apply total_cost_pos|done|done|done|].
  destruct (run_refines extend snappy zstd dbname in_scratch true paranoid_checks reuse_logs ro ucmp cmp_name Hname max_file_size write_buffer_size o Ho Hfilter Hbuffer E Hfit HEok fuel ltac:(lia) n ltac:(lia) ops 0 _ (MkKV ∅ [] 1) s rs st ltac:(lia) Hs) as (s' & Er & _); try done.
  eexists s, _, s'. split; [exact Eo|exact Er].
Qed.

(** A write, a snapshot, and reads of both, the end of the process, with the write still in the log, a compaction of the whole
    range, and the end of the process again, with the write in a table. *)
Definition sample_ops : list StoreOp :=
  [DoWrite true [(Some [OpPut (lit "k") (lit "v")], false)]; DoGetSnapshot; DoGet (Some 1) (lit "k") []; DoReopen; DoGet None (lit "k") []; DoBackground;
   DoCompactRange false None None; DoReopen; DoIterate None [OpSeekToFirst; OpNext]; DoGet None (lit "q") (lit "x")].

Definition sample_results : list StoreResult :=
  [Statuses [OK]; Address 1; Value (OK, lit "v"); Statuses [OK]; Value (OK, lit "v"); Done; Done; Statuses [OK]; Seen [Some (lit "k", lit "v"); None]; Value (NotFound [] [], lit "x")].

Lemma sample_allowed : Forall op_allowed sample_ops.
Proof.
  assert (slen (lit "k") + 8 < 2 ^ 32 /\ slen (lit "q") + 8 < 2 ^ 32) as [Hk Hq] by (by vm_compute). unfold sample_ops. repeat (apply Forall_cons_2; [first [exact Hk | exact Hq | exact I | idtac]|]); apply Forall_nil_2.
Qed.

Lemma store_refines_map_witness :
  exists s e' s', Open crc32c_ref None None sample_db flush_options true None BytewiseComparator sample_name 2097152 4194304 true false true false (MkEnv ∅ []) = Some (OK, Some s, e') /\
    run_steps (store_step crc32c_ref None None sample_db flush_options true None BytewiseComparator sample_name 2097152 4194304 true true false DefaultReadOptions 19 1) sample_ops s = Some (sample_results, s').
Proof.
  assert (is_u32 (slen sample_name)) as Hname by (by vm_compute). assert (new_directory sample_db (MkEnv ∅ [])) as Hnew by (split; [|split]; [reflexivity|reflexivity|intros fname m _; apply lookup_empty]).
  assert (total_cost (entries_of 1 (concat (map op_writes sample_ops))) sample_ops * (slen (entries_of 1 (concat (map op_writes sample_ops))) + 1) + 6 < 2 ^ 64) as Hcost by (vm_compute; reflexivity).
  eapply (store_refines_map crc32c_ref None None sample_db true true false DefaultReadOptions BytewiseComparator sample_name 2097152 4194304 flush_options 1 19 sample_ops sample_results).
  - exact Hname.
  - reflexivity.
  - intros p Ep. injection Ep as <-. by eexists.
  - by vm_compute.
  - apply Forall_singleton. by vm_compute.
  - vm_compute. reflexivity.
  - exact settle_fit.
  - exact sample_allowed.
  - exact Hcost.
  - by apply Nat.leb_le.
  - by apply Nat.leb_le.
  - exact Hnew.
  - vm_compute. reflexivity.
Defined.

(** * A log whose last record is torn *)

(** The last bytes of the log are not there: the process ended in the middle of a write. *)
Definition tear_log (dbname : slice) (n : Z) (bytes : nat) (e : EnvState) : EnvState :=
  with_files (alter (fun c => take (length c - bytes) c) (LogFileName dbname n)) e.

(** [a] is written, the process ends while it writes [b], and with the store opened again [c] is written with [sync] and read;
    then the store is opened once more, and all three are read. *)
Definition torn_session (reuse_logs : bool) : option (Status * list StoreResult) :=
  let open e := Open crc32c_ref None None sample_db flush_options true None BytewiseComparator sample_name 2097152 4194304 true false false reuse_logs e in
  let run := run_steps (store_step crc32c_ref None None sample_db flush_options true None BytewiseComparator sample_name 2097152 4194304 true false reuse_logs DefaultReadOptions 19 1) in
  let put key value sync := DoWrite false [(Some [OpPut (lit key) (lit value)], sync)] in
  '(_, s, _) ← open (MkEnv ∅ []); s ← s;
  '(_, s) ← run [put "a"%string "1"%string true; put "b"%string "2"%string false] s;
  '(status, s, _) ← open (tear_log sample_db 3 2 (tc_env (db_table_cache (s_db s)))); s ← s;
  '(rs, _) ← run [put "c"%string "3"%string true; DoGet None (lit "c") []; DoReopen; DoGet None (lit "a") []; DoGet None (lit "b") []; DoGet None (lit "c") []] s;
  Some (status, rs).

(** With [reuse_logs] the store goes on writing a log behind a record that the end of the process has torn, where the next
    recovery takes the new records for the rest of the torn one: a write that was synced and acknowledged, and read back, is gone
    when the store is opened again, and [DB::Open] reports nothing. Without [reuse_logs] the same session keeps the write. *)
Theorem reused_torn_log_loses_writes :
  torn_session true = Some (OK, [Statuses [OK]; Value (OK, lit "3"); Statuses [OK]; Value (OK, lit "1"); Value (NotFound [] [], []); Value (NotFound [] [], [])]) /\
  torn_session false = Some (OK, [Statuses [OK]; Value (OK, lit "3"); Statuses [OK]; Value (OK, lit "1"); Value (NotFound [] [], []); Value (OK, lit "3")]).
Proof. vm_compute. by split. Qed.
