(* ===== verification/StoreCrash.v ===== *)
(** StoreCrash: a store whose process ends in the middle of a write.  The log is then torn anywhere in the record of the group,
    and the store that [DB::Open] gives has the writes of before, and those of the group all or none. *)

From stdpp Require Import gmap sorting.
From Stdlib Require Import Strings.Byte Strings.String Floats.SpecFloat.
From S2P Require Import Prelude Coding Crc32c Comparator DbFormat Status Env FileSystem Filename VersionEdit FilterPolicy FilterBlock SkipList MemTable Arena WriteBatch Format Iterator TwoLevelIterator Version Block Merger DbIter TableBuilder Table TableCache VersionSet Compaction Log Crash DbWrite Manifest Flush InternalIterator DbImpl Snapshot CompactionVersion CompactionWork CompactionLoop CompactionResults Background Schedule DbRead ReadStats Store Recovery Reopen StoreSpec.

(** The device of the log with the calls that it has left. *)
Definition with_log_faults (faults : list (option (nat * slice))) (st : DbWrite.DBState) : DbWrite.DBState :=
  DbWrite.MkDBState (MkWriter (MkWritableFile (wf_contents (dest_ (DbWrite.db_log st))) faults) (block_offset_ (DbWrite.db_log st)))
    (DbWrite.db_mem st) (DbWrite.db_tmp_batch st) (DbWrite.db_last_sequence st) (DbWrite.db_bg_error st).

(** [Write] of the writer at the front of the queue, with the end of the process at a call to the log: the status of the call, if
    it returns one, how many writers it serves, and the files that are left. *)
Definition Write_ended (extend : Z -> slice -> Z) (snappy : option SnappyLib) (zstd : option ZstdLib) (dbname : slice) (options : Options) (in_scratch : bool) (bcache : option (slice -> option Block))
    (ucmp : Comparator) (cmp_name : slice) (max_file_size write_buffer_size : Z) (n work : nat) (runs : bool) (faults : list (option (nat * slice))) (w : DBWriter) (rest : list DBWriter) (s : Store) :
    option (Status * nat * EnvState) :=
  '(status, s) ← MakeRoomForWrite extend snappy zstd dbname options in_scratch bcache ucmp cmp_name max_file_size write_buffer_size n work runs (bool_decide (w_batch w = None)) s;
  '(status, served, ws) ← Write_group ucmp extend status w rest (with_log_faults faults (write_state s));
  Some (status, served, MkEnv (env_files (tc_env (db_table_cache (s_db (after_write ws s))))) []).

(** ** The group *)

Lemma RecordBackgroundError_log s st : DbWrite.db_log (DbWrite.RecordBackgroundError s st) = DbWrite.db_log st.
Proof. unfold DbWrite.RecordBackgroundError. by destruct (ok _). Qed.

(** The record of the group is all there if the status is OK, and otherwise the log ends within it. *)
Lemma Write_group_crash ucmp extend w rest st c off b n ws faults :
  DbWrite.db_log st = clean c off -> 0 <= off <= kBlockSize -> w_batch w = Some b -> Write_group ucmp extend OK w rest st = Some (OK, n, ws) -> crashing faults ->
  exists status ws' frags rec, Write_group ucmp extend OK w rest (with_log_faults faults st) = Some (status, n, ws') /\
    is_record frags rec /\ frags_fit off frags /\ let c1 := c ++ layout extend off frags in let c' := wf_contents (dest_ (DbWrite.db_log ws')) in
    wf_contents (dest_ (DbWrite.db_log ws)) = c1 /\ c `prefix_of` c' /\ c' `prefix_of` c1 /\ (ok status = true -> c' = c1).
Proof.
  intros Hlog Hoff Hb. unfold Write_group. rewrite ok_OK, Hb. cbn [with_log_faults DbWrite.db_tmp_batch DbWrite.db_last_sequence DbWrite.db_log DbWrite.db_mem DbWrite.db_bg_error].
  destruct (BuildBatchGroup _ _ _ _) as [[wb is_tmp] lw]. set (rec := batch_rep _). rewrite Hlog. cbn [clean dest_ wf_contents block_offset_]. fold (clean c off). intros Hclean Hc.
  destruct (AddRecord_clean extend rec c off Hoff) as (frags & Ea & Hrec & Hfit). rewrite Ea in Hclean. rewrite ok_OK in Hclean. cbn [andb] in Hclean.
  destruct (AddRecord extend rec (MkWriter _ _)) as [s1 w1] eqn:E1. destruct (AddRecord_crash _ _ _ _ _ _ _ Hc E1) as (c1 & off1 & Ea' & _ & Hcut). rewrite Ea in Ea'. injection Ea' as <- <-.
  set (c' := wf_contents (dest_ w1)). assert (c `prefix_of` c' /\ c' `prefix_of` c ++ layout extend off frags /\ (ok s1 = true -> c' = c ++ layout extend off frags)) as (P1 & P2 & P3).
  { destruct Hcut as [(Hok & fs & -> & _)|(Hok & P1 & P2)]; [|split_and!; [done|done|by rewrite Hok]]. split_and!; [by apply prefix_app_r|done|done]. }
  destruct (if ok s1 && w_sync w then _ else _) as [[s2 se2] w2] eqn:E2. assert (wf_contents (dest_ w2) = c' /\ (ok s2 = true -> ok s1 = true)) as [Ec Hs].
  { destruct (ok s1) eqn:Eo; [|injection E2 as <- <- <-; by rewrite Eo]. destruct (w_sync w); [|by injection E2 as <- <- <-]. unfold WritableFile_Sync in E2. destruct (WritableFile_Flush _) as [s3 f3] eqn:E3. injection E2 as <- <- <-. split; [exact (Flush_contents _ _ _ E3)|done]. }
  assert (exists mem, InsertInto ucmp (SetSequence wb (u64 (DbWrite.db_last_sequence st + 1))) (DbWrite.db_mem st) = Some (OK, mem) /\ n = S lw /\ wf_contents (dest_ (DbWrite.db_log ws)) = c ++ layout extend off frags) as (mem & Ei & -> & Ews).
  { destruct (w_sync w); cbn [clean dest_ block_offset_ WritableFile_Sync WritableFile_Flush wf_faults] in Hclean; unfold WritableFile_Sync, WritableFile_Flush in Hclean; cbn [wf_faults] in Hclean; rewrite ?ok_OK in Hclean; cbn [negb] in Hclean; destruct (InsertInto _ _ _) as [[s3 mem]|]; try discriminate Hclean; injection Hclean as -> <- <-; by exists mem. }
  assert (exists s3 mem3, (if ok s2 then InsertInto ucmp (SetSequence wb (u64 (DbWrite.db_last_sequence st + 1))) (DbWrite.db_mem st) else Some (s2, DbWrite.db_mem st)) = Some (s3, mem3) /\ (ok s3 = true -> ok s2 = true)) as (s3 & mem3 & E3 & Hs3).
  { destruct (ok s2) eqn:Eo; [by eexists _, _|]. eexists _, _. split; [reflexivity|]. by rewrite Eo. }
  rewrite E3. cbn [mbind option_bind]. eexists s3, _, frags, rec. split; [reflexivity|]. split; [done|]. split; [done|]. cbn zeta. split; [done|].
  replace (wf_contents (dest_ (DbWrite.db_log (DbWrite.MkDBState _ _ _ _ _)))) with c' by (cbn [DbWrite.db_log]; destruct se2; rewrite ?RecordBackgroundError_log; symmetry; exact Ec). split_and!; [done|done|]. intros H. by apply P3, Hs, Hs3.
Qed.
(** ** The write *)

Section ended.
Context (extend : Z -> slice -> Z) `{!Checksum extend} (snappy : option SnappyLib) (zstd : option ZstdLib).
Context (dbname : slice) (in_scratch reuse_logs : bool).
Context (ucmp : Comparator) `{!ComparatorLaws any_key ucmp} `{!SeparatorSame any_key ucmp} (cmp_name : slice) (Hname : is_u32 (slen cmp_name)) (max_file_size write_buffer_size : Z).
Context (o : Options) (Ho : opt_comparator o = InternalKeyComparator ucmp).
Context (Hbuffer : 4104 <= write_buffer_size).
Context (E : list entry) (Hfit : entries_fit extend snappy zstd ucmp o E) (HEok : Forall entry_ok E).
Context (fuel : nat) (Hfuel : slen E <= Z.of_nat fuel) (n : nat) (Hn : (14 * length E + 5 <= n)%nat).

Abbreviation store_ok := (store_ok extend snappy zstd dbname in_scratch reuse_logs ucmp cmp_name max_file_size o E).
Abbreviation store_leaves := (store_leaves extend).
Abbreviation ended := (Write_ended extend snappy zstd dbname o in_scratch None ucmp cmp_name max_file_size write_buffer_size n fuel).

(** The store whose files, or torn log, the write leaves. *)
Lemma Write_ended_spec k sp s runs w rest os oss faults :
  store_ok (k + write_cost E) sp s -> 0 <= k -> writer_ops w os -> Forall2 writer_ops rest oss -> fits E sp (os ++ concat oss) -> crashing faults ->
  exists status served src torn kept s1, (served <= length rest)%nat /\ ended runs faults w rest s = Some (status, S served, src) /\ store_ok k (sp_write kept sp) s1 /\ store_leaves torn s1 src /\
    (kept = os ++ concat (take served oss) \/ kept = [] /\ ok status = false).
Proof.
  intros Hs Hk Hw Hrest (HinE & Hmax & Hcount) Hc.
  destruct (MakeRoom_spec extend snappy zstd dbname in_scratch reuse_logs ucmp cmp_name Hname max_file_size write_buffer_size o Ho Hbuffer E Hfit fuel Hfuel n k sp s runs (bool_decide (w_batch w = None)) Hs Hk ltac:(lia)) as (s0 & E0 & H0).
  unfold Write_ended. rewrite E0. cbn [mbind option_bind]. pose proof (store_leaves_own extend snappy zstd dbname in_scratch reuse_logs ucmp cmp_name Hname max_file_size o E k sp s0 H0) as Hown.
  pose proof H0 as (contents & used & mes & ies & floor & Hinv). destruct (si_log _ _ _ _ _ _ _ _ _ _ _ _ _ _ _ _ _ _ _ Hinv) as (c & off & Hlog & Hoff & _ & Hfile).
  assert (forall ws, let src := MkEnv (env_files (tc_env (db_table_cache (s_db (after_write ws s0))))) [] in env_files src !! s_logfile s0 = Some (wf_contents (dest_ (DbWrite.db_log ws))) /\
    forall f, f <> s_logfile s0 -> env_files src !! f = env_files (tc_env (db_table_cache (s_db s0))) !! f) as Hsrc by (intros ws; split; [apply lookup_insert_eq|intros f Hf; by apply lookup_insert_ne]).
  destruct (w_batch w) as [b|] eqn:Eb.
  - destruct (write_spec extend snappy zstd dbname in_scratch reuse_logs ucmp cmp_name Hname max_file_size o E k sp s0 contents used mes ies floor w rest b os oss Hinv Eb Hw Hrest HEok HinE Hmax Hcount) as (served & ws & Hle & E1 & H1).
    destruct (Write_group_crash ucmp extend w rest (write_state s0) c off b (S served) ws faults Hlog Hoff Eb E1 Hc) as (status & ws' & frags & rec & -> & Hrec & Hff & Ec1 & P1 & P2 & Hst). cbn [mbind option_bind].
    destruct (Hsrc ws') as [S1 S2]. eexists status, served, _. set (src := MkEnv _ _) in *. set (c' := wf_contents (dest_ (DbWrite.db_log ws'))) in *.
    destruct (decide (c' = c ++ layout extend off frags)) as [Heq|Hne].
    + exists false, (os ++ concat (take served oss)), (after_write ws s0). split_and!; try done; [|by left]. unfold store_leaves. split_and!; [done| |].
      * intros f Hf. change (s_logfile (after_write ws s0)) with (s_logfile s0) in Hf. rewrite S2 by done. symmetry. by apply lookup_insert_ne.
      * change (env_files src !! s_logfile s0 = Some (wf_contents (dest_ (DbWrite.db_log ws)))). rewrite Ec1. etrans; [exact S1|]. by f_equal.
    + exists true, [], s0. rewrite sp_write_nil. split_and!; try done; [|right; split; [done|]; destruct (ok status); [by destruct Hne; apply Hst|done]].
      unfold store_leaves. rewrite Hlog. cbn [dest_ wf_contents block_offset_]. split_and!; [done|done|]. by exists frags, rec, c'.
  - unfold writer_ops in Hw. rewrite Eb in Hw. subst os. unfold Write_group. rewrite Eb, ok_OK. cbn [mbind option_bind]. destruct (Hsrc (with_log_faults faults (write_state s0))) as [S1 S2].
    eexists OK, 0%nat, _, false, [], s0. split; [lia|]. split; [reflexivity|]. rewrite sp_write_nil. split; [done|]. split; [|by left]. split_and!; [done|exact S2|]. rewrite S1. done.
Qed.
End ended.
(** * The theorem *)

(** The entries of the writes of a run, when the first writers of a queue are served between them, however many. *)
Definition possible_entries (before : list op) (writers : list (option (list op) * bool)) (after : list op) : list entry :=
  concat (map (fun i => entries_of 1 (before ++ ops_of (take i writers) ++ after)) (seq 0 (S (length writers)))).

Lemma possible_elem before writers after x :
  x ∈ possible_entries before writers after <-> exists i, (i <= length writers)%nat /\ x ∈ entries_of 1 (before ++ ops_of (take i writers) ++ after).
Proof.
  unfold possible_entries. rewrite list_elem_of_In, in_concat. split.
  - intros (l & Hl & Hx). apply in_map_iff in Hl as (i & <- & Hi%in_seq). exists i. split; [lia|]. by apply list_elem_of_In.
  - intros (i & Hi & Hx). eexists. split; [|by apply list_elem_of_In]. apply in_map_iff. exists i. split; [done|]. apply in_seq. lia.
Qed.

Lemma ops_of_take i writers : ops_of writers = ops_of (take i writers) ++ ops_of (drop i writers).
Proof. unfold ops_of. by rewrite <-concat_app, <-map_app, take_drop. Qed.

Lemma possible_ok before writers after :
  Forall op_fits (before ++ ops_of writers ++ after) -> Z.of_nat (length (before ++ ops_of writers ++ after)) < kMaxSequenceNumber ->
  Forall (fun e => entry_ok e /\ e_seq e < kMaxSequenceNumber) (possible_entries before writers after).
Proof.
  intros Hf Hl. apply Forall_forall. intros x (i & Hi & Hx)%possible_elem. rewrite (ops_of_take i writers), !Forall_app in Hf. destruct Hf as (F1 & [F2 _] & F3). rewrite (ops_of_take i writers), !length_app in Hl. set (os := before ++ _ ++ after) in Hx.
  assert (Z.of_nat (length os) < kMaxSequenceNumber) as Hlen by (unfold os; rewrite !length_app; lia). assert (Forall op_fits os) as Hos by (unfold os; rewrite !Forall_app; by split_and!).
  split; [|apply entries_of_seq in Hx; lia]. apply (proj1 (Forall_forall _ _) (entries_of_ok 1 os Hos ltac:(lia) ltac:(lia)) x Hx).
Qed.

Section refine.
Context (extend : Z -> slice -> Z) `{!Checksum extend} (snappy : option SnappyLib) (zstd : option ZstdLib).
Context (dbname : slice) (in_scratch create_if_missing paranoid_checks : bool).
Context (ucmp : Comparator) `{!ComparatorLaws any_key ucmp} `{!SeparatorSame any_key ucmp} (cmp_name : slice) (Hname : is_u32 (slen cmp_name)) (max_file_size write_buffer_size : Z).
Context (o : Options) (Ho : opt_comparator o = InternalKeyComparator ucmp).
Context (Hbuffer : 4104 <= write_buffer_size).
Context (E : list entry) (Hfit : entries_fit extend snappy zstd ucmp o E) (HEok : Forall (fun e => entry_ok e /\ e_seq e < kMaxSequenceNumber) E).
Context (fuel : nat) (Hfuel : slen E <= Z.of_nat fuel) (n : nat) (Hn : (14 * length E + 5 <= n)%nat).

Lemma ended_refines k sp st s runs w rest faults :
  0 <= k -> store_ok extend snappy zstd dbname in_scratch false ucmp cmp_name max_file_size o E (k + reopen_cost + write_cost E) sp s -> kv_holds sp st ->
  (forall e, e ∈ entries_of (sp_seq sp + 1) (ops_of (w :: rest)) -> e ∈ E) -> crashing faults ->
  exists status served left kept s2 e2, (0 < served)%nat /\
    Write_ended extend snappy zstd dbname o in_scratch None ucmp cmp_name max_file_size write_buffer_size n fuel runs faults (writer_of w) (map writer_of rest) s = Some (status, served, left) /\
    (kept = take served (w :: rest) \/ kept = [] /\ ok status = false) /\
    Open extend snappy zstd dbname o in_scratch None ucmp cmp_name max_file_size write_buffer_size create_if_missing false paranoid_checks false left = Some (OK, Some s2, e2) /\
    store_holds extend snappy zstd dbname in_scratch false ucmp cmp_name max_file_size o E k (sp_seq sp + Z.of_nat (length (ops_of kept))) (MkKV (foldl kv_op (kv_map st) (ops_of kept)) [] 1) s2.
Proof.
  intros Hk Hs Hkv Hin Hc. pose proof (ok_entries E HEok) as HEok'.
  assert (0 <= sp_seq sp < kMaxSequenceNumber /\ forall e, e ∈ sp_hist sp -> e_seq e <= sp_seq sp) as [Hs0 Hh] by (destruct Hs as (contents & used & mes & ies & floor & [_ _ _ _ [_ Hs0] _ Hh _ _ _ _ _ _ _ _]); done).
  pose proof (writers_ops extend snappy zstd ucmp o E Hfit HEok fuel n Hn _ (w :: rest) Hin) as Hw. cbn [map] in Hw. apply Forall2_cons in Hw as [Hw Hrest].
  pose proof (writes_fit extend snappy zstd ucmp o E Hfit HEok fuel n Hn _ sp (ops_of (w :: rest)) Hs0 eq_refl Hin) as Hfits.
  destruct (Write_ended_spec extend snappy zstd dbname in_scratch false ucmp cmp_name Hname max_file_size write_buffer_size o Ho Hbuffer E Hfit HEok' fuel Hfuel n Hn (k + reopen_cost) sp s runs (writer_of w) (map writer_of rest) _ _ faults
    Hs ltac:(unfold reopen_cost; lia) Hw Hrest Hfits Hc) as (status & served & src & torn & os & s1 & _ & E1 & H1 & Hle & Hos).
  destruct (reopen_spec extend snappy zstd dbname in_scratch false ucmp cmp_name Hname max_file_size write_buffer_size o Ho Hbuffer create_if_missing paranoid_checks E Hfit torn k _ s1 src Hk H1 Hle ltac:(done)) as (s2 & E2 & H2).
  assert (exists kept, (kept = take (S served) (w :: rest) \/ kept = [] /\ ok status = false) /\ os = ops_of kept) as (kept & Hkept & ->).
  { destruct Hos as [->|[-> Hf]]; [|exists []; split; [by right|done]]. exists (take (S served) (w :: rest)). split; [by left|]. unfold ops_of. cbn [take map concat]. by rewrite <-firstn_map. }
  eexists status, (S served), src, kept, s2, _. split; [lia|]. split; [exact E1|]. split; [done|]. split; [exact E2|]. eexists. split; [exact H2|]. split; [|done].
  destruct Hkv as [K1 _ _]. split; cbn [sp_hist sp_seq sp_snaps sp_next kv_map kv_snaps kv_next]; [by apply shows_write|constructor|done].
Qed.
End refine.

(** C9. A write is atomic when the process ends in it. On a new directory a store is opened and used, whatever the operations and
    the work of the background thread; then a queue of writers writes, and the process ends at some call to the log, having
    written any part of the bytes of that call: before the record of the group, in one of its fragments, or behind it in the sync. [DB::Open] on the
    files that are left, with [reuse_logs] off as it is by default, succeeds, and whatever is done with the store it gives returns
    what the map returns that has all writes of before, and of the group that was being written either all writes or none; all
    of them if the call had returned OK. The bytes that the environment has taken are not lost. *)
Theorem crash_in_write_recovers (extend : Z -> slice -> Z) `{!Checksum extend} (snappy : option SnappyLib) (zstd : option ZstdLib) (dbname : slice) (in_scratch paranoid_checks : bool) (ro : ReadOptions)
    (ucmp : Comparator) `{!ComparatorLaws any_key ucmp} `{!SeparatorSame any_key ucmp} (cmp_name : slice) (max_file_size raw_write_buffer_size : Z) (o : Options) (fuel n : nat)
    (ops1 ops2 : list StoreOp) (rs1 : list StoreResult) (st1 : KV) (runs : bool) (w : option (list op) * bool) (rest : list (option (list op) * bool)) (faults : list (option (nat * slice))) (e : EnvState) :
  let before := concat (map op_writes ops1) in let after := concat (map op_writes ops2) in let writes := before ++ ops_of (w :: rest) ++ after in
  let E := possible_entries before (w :: rest) after in let write_buffer_size := sanitized_write_buffer_size raw_write_buffer_size in
  let open := Open extend snappy zstd dbname o in_scratch None ucmp cmp_name max_file_size write_buffer_size true false paranoid_checks false in
  let run := run_steps (store_step extend snappy zstd dbname o in_scratch None ucmp cmp_name max_file_size write_buffer_size true paranoid_checks false ro n fuel) in
  is_u32 (slen cmp_name) -> opt_comparator o = InternalKeyComparator ucmp -> (forall p, opt_filter_policy o = Some p -> exists up, p = InternalFilterPolicy up) -> is_u64 raw_write_buffer_size ->
  Forall op_fits writes -> Z.of_nat (length writes) < kMaxSequenceNumber -> entries_fit extend snappy zstd ucmp o E -> Forall op_allowed (ops1 ++ ops2) ->
  (total_cost E ops1 + write_cost E + reopen_cost + total_cost E ops2) * (slen E + 1) + 6 < 2 ^ 64 -> (length E <= fuel)%nat -> (14 * length E + 5 <= n)%nat ->
  new_directory dbname e -> run_steps (kv_step ucmp) ops1 (MkKV ∅ [] 1) = Some (rs1, st1) -> crashing faults ->
  exists s e' s1 status served left kept s2 e2, open e = Some (OK, Some s, e') /\ run ops1 s = Some (rs1, s1) /\
    (0 < served)%nat /\ Write_ended extend snappy zstd dbname o in_scratch None ucmp cmp_name max_file_size write_buffer_size n fuel runs faults (writer_of w) (map writer_of rest) s1 = Some (status, served, left) /\
    (kept = take served (w :: rest) \/ kept = [] /\ ok status = false) /\ open left = Some (OK, Some s2, e2) /\
    forall rs2 st2, run_steps (kv_step ucmp) ops2 (MkKV (foldl kv_op (kv_map st1) (ops_of kept)) [] 1) = Some (rs2, st2) -> exists s3, run ops2 s2 = Some (rs2, s3).
Proof.
  intros before after writes E write_buffer_size open run Hname Ho Hfilter Hraw Hops Hlen Hfit [Hal1 Hal2]%Forall_app Hmax Hfuel Hn Hnew Hrun Hc. pose proof (sanitized_room _ Hraw : 4104 <= write_buffer_size) as Hbuffer.
  pose proof (possible_ok before (w :: rest) after Hops Hlen) as HEok. fold E in HEok. pose proof (total_cost_pos E ops1) as C1. pose proof (total_cost_pos E ops2) as C2. assert (0 <= total_cost E ops2 + reopen_cost + write_cost E) as C3 by (unfold reopen_cost, write_cost; lia).
  assert (forall i e, (i <= S (length rest))%nat -> e ∈ entries_of 1 (before ++ ops_of (take i (w :: rest)) ++ after) -> e ∈ E) as HinE by (intros i x Hi Hx; apply possible_elem; by exists i).
  destruct (open_new_spec extend snappy zstd dbname in_scratch false ucmp cmp_name Hname max_file_size write_buffer_size o true paranoid_checks E (total_cost E ops2 + reopen_cost + write_cost E + total_cost E ops1) e) as (s & Eo & Hs); [lia|done|done|lia|].
  destruct (run_refines extend snappy zstd dbname in_scratch true paranoid_checks false ro ucmp cmp_name Hname max_file_size write_buffer_size o Ho Hfilter Hbuffer E Hfit HEok fuel ltac:(lia) n Hn ops1 _ _ (MkKV ∅ [] 1) s rs1 st1 C3 Hs)
    as (s1 & Er & sp1 & H1 & Hkv1 & Hq1); [done|done|intros x Hx; apply (HinE 0%nat); [lia|]; rewrite entries_of_app; apply elem_of_app; by left|done|]. cbn [sp_seq] in Hq1.
  destruct (ended_refines extend snappy zstd dbname in_scratch true paranoid_checks ucmp cmp_name Hname max_file_size write_buffer_size o Ho Hbuffer E Hfit HEok fuel ltac:(lia) n Hn (total_cost E ops2) sp1 st1 s1 runs w rest faults C2 H1 Hkv1)
    as (status & served & left & kept & s2 & e2 & Hsv & Ew & Hkept & E2 & sp2 & H2 & Hkv2 & Hq2); [|done|].
  { intros x Hx. apply (HinE (S (length rest))); [lia|]. rewrite firstn_all2 by (cbn; lia). rewrite !entries_of_app. apply elem_of_app. right. apply elem_of_app. left. by replace (1 + Z.of_nat (length before)) with (sp_seq sp1 + 1) by (unfold before; lia). }
  eexists s, _, s1, status, served, left, kept, s2, e2. split; [exact Eo|]. split; [exact Er|]. split; [done|]. split; [exact Ew|]. split; [done|]. split; [exact E2|]. intros rs2 st2 Hrun2.
  destruct (run_refines extend snappy zstd dbname in_scratch true paranoid_checks false ro ucmp cmp_name Hname max_file_size write_buffer_size o Ho Hfilter Hbuffer E Hfit HEok fuel ltac:(lia) n Hn ops2 0 sp2 _ s2 rs2 st2 ltac:(lia) H2 Hkv2 Hal2)
    as (s3 & E3 & _); [|done|by exists s3].
  intros x Hx. assert (exists i, (i <= S (length rest))%nat /\ kept = take i (w :: rest)) as (i & Hi & Ek).
  { destruct Hkept as [->|[-> _]]; [|exists 0%nat; split; [lia|done]]. destruct (decide (served <= S (length rest))%nat); [by exists served|]. exists (S (length rest)). split; [lia|]. by rewrite !firstn_all2 by (cbn [length]; lia). }
  apply (HinE i); [done|]. rewrite <-Ek, !entries_of_app. apply elem_of_app. right. apply elem_of_app. right. replace (1 + Z.of_nat (length before) + Z.of_nat (length (ops_of kept))) with (sp_seq sp2 + 1) by (unfold before; lia). done.
Qed.

(** [k] is written, and the process ends in the second of the calls that write the log of a second write of [k]. *)
Definition overwrite_ops : list StoreOp := [DoWrite false [(Some [OpPut (lit "k") (lit "v")], true)]].
Definition overwrite : option (list op) * bool := (Some [OpPut (lit "k") (lit "w")], true).
Definition overwrite_faults : list (option (nat * slice)) := repeat None 1 ++ Some (4%nat, lit "end") :: repeat (Some (0%nat, lit "end")) 9.
Definition overwrite_entries : list entry := possible_entries (concat (map op_writes overwrite_ops)) [overwrite] [].
Definition overwrite_entry : entry := MkEntry 2 kTypeValue (lit "k") (lit "w").

Lemma overwrite_crashing : crashing overwrite_faults.
Proof. eexists 1%nat, 4%nat, _, _. split; [reflexivity|]. split; [done|]. repeat constructor; by eexists. Qed.

Lemma overwrite_entry_cases e : e ∈ overwrite_entries -> e = flush_entry \/ e = overwrite_entry.
Proof.
  assert (overwrite_entries = [flush_entry; flush_entry; overwrite_entry]) as -> by (vm_compute; reflexivity). rewrite !elem_of_cons, elem_of_nil. intros [?|[?|[?|[]]]]; auto.
Qed.

(** The tables that these entries may come to. *)
Lemma overwrite_lists es : (forall e, e ∈ es -> e ∈ overwrite_entries) -> entries_ok BytewiseComparator es -> seqs_differ es -> es <> [] -> es = [flush_entry] \/ es = [overwrite_entry] \/ es = [overwrite_entry; flush_entry].
Proof.
  intros Hin [_ Hs] Hd Hne. assert (forall e, e ∈ es -> e = flush_entry \/ e = overwrite_entry) as He by (intros e ?; by apply overwrite_entry_cases, Hin). clear Hin.
  destruct es as [|a [|b [|c es]]]; [done|destruct (He a ltac:(left)) as [-> | ->]; auto| |].
  - cbn [seqs_differ] in Hd. destruct Hd as [Hd _]. specialize (Hd b ltac:(left)). destruct (He a ltac:(left)) as [-> | ->], (He b ltac:(right; left)) as [-> | ->]; [by destruct Hd| |auto|by destruct Hd].
    exfalso. apply StronglySorted_inv in Hs as [_ Hs]. apply Forall_cons in Hs as [Hs _]. by vm_compute in Hs.
  - exfalso. cbn [seqs_differ] in Hd. destruct Hd as (H1 & H2 & _). pose proof (H1 b ltac:(left)) as D1. pose proof (H1 c ltac:(right; left)) as D2. pose proof (H2 c ltac:(left)) as D3.
    destruct (He a ltac:(left)) as [-> | ->], (He b ltac:(right; left)) as [-> | ->], (He c ltac:(right; right; left)) as [-> | ->]; first [by apply D1 | by apply D2 | by apply D3].
Qed.

Lemma overwrite_fit : entries_fit crc32c_ref None None BytewiseComparator flush_options overwrite_entries.
Proof.
  split; [by vm_compute|]. intros es Hin Hes Hd Hne.
  assert (es = [flush_entry] \/ es = [overwrite_entry] \/ es = [overwrite_entry; flush_entry]) as Hl by (by apply overwrite_lists). split.
  - done.
  - done.
  - by vm_compute.
  - intros p Ep. injection Ep as <-. apply InternalFilterPolicy_laws. by apply Bloom_laws.
  - apply entries_keys.
  - apply Hes.
  - destruct Hl as [-> |[-> | ->]]; (split; [repeat constructor; by vm_compute|vm_compute; repeat split]).
Qed.

Lemma overwrite_value (status : Status) served kept : (0 < served)%nat -> kept = take served [overwrite] \/ kept = [] /\ ok status = false ->
  exists value st, (value = lit "w" \/ value = lit "v" /\ ok status = false) /\
    run_steps (kv_step BytewiseComparator) [DoGet None (lit "k") []] (MkKV (foldl kv_op (kv_map (MkKV {[lit "k" := lit "v"]} [] 1)) (ops_of kept)) [] 1) = Some ([Value (OK, value)], st).
Proof.
  intros Hsv. assert (take served [overwrite] = [overwrite]) as -> by (destruct served; [lia|cbn [take]; by rewrite firstn_nil]).
  intros [-> |[-> Hf]]; [exists (lit "w")|exists (lit "v")]; eexists; (split; [auto|vm_compute; reflexivity]).
Qed.

Lemma crash_in_write_recovers_witness :
  let open := Open crc32c_ref None None sample_db flush_options true None BytewiseComparator sample_name 2097152 4194304 true false true false in
  let run := run_steps (store_step crc32c_ref None None sample_db flush_options true None BytewiseComparator sample_name 2097152 4194304 true true false DefaultReadOptions 47 3) in
  exists s e' s1 status served left s2 e2 s3 value, open (MkEnv ∅ []) = Some (OK, Some s, e') /\ run overwrite_ops s = Some ([Statuses [OK]], s1) /\
    Write_ended crc32c_ref None None sample_db flush_options true None BytewiseComparator sample_name 2097152 4194304 47 3 false overwrite_faults (writer_of overwrite) [] s1 = Some (status, served, left) /\
    (value = lit "w" \/ value = lit "v" /\ ok status = false) /\ open left = Some (OK, Some s2, e2) /\ run [DoGet None (lit "k") []] s2 = Some ([Value (OK, value)], s3).
Proof.
  assert (is_u32 (slen sample_name)) as Hname by (by vm_compute). assert (new_directory sample_db (MkEnv ∅ [])) as Hnew by (split; [|split]; [reflexivity|reflexivity|intros fname m _; apply lookup_empty]).
  assert ((total_cost overwrite_entries overwrite_ops + write_cost overwrite_entries + reopen_cost + total_cost overwrite_entries [DoGet None (lit "k") []]) * (slen overwrite_entries + 1) + 6 < 2 ^ 64) as Hcost by (vm_compute; reflexivity).
  assert (slen (lit "k") + 8 < 2 ^ 32) as Hk by (by vm_compute).
  destruct (crash_in_write_recovers crc32c_ref None None sample_db true true DefaultReadOptions BytewiseComparator sample_name 2097152 4194304 flush_options 3 47 overwrite_ops [DoGet None (lit "k") []] [Statuses [OK]]
    (MkKV {[lit "k" := lit "v"]} [] 1) false overwrite [] overwrite_faults (MkEnv ∅ [])) as (s & e' & s1 & status & served & left & kept & s2 & e2 & E1 & E2 & Hsv & E3 & Hkept & E4 & Hrun).
  - exact Hname.
  - reflexivity.
  - intros p Ep. injection Ep as <-. by eexists.
  - by vm_compute.
  - apply Forall_cons_2; [by vm_compute|]. apply Forall_singleton. by vm_compute.
  - vm_compute. reflexivity.
  - exact overwrite_fit.
  - apply Forall_cons_2; [exact I|]. apply Forall_singleton. exact Hk.
  - exact Hcost.
  - by apply Nat.leb_le.
  - by apply Nat.leb_le.
  - exact Hnew.
  - vm_compute. reflexivity.
  - exact overwrite_crashing.
  - destruct (overwrite_value status served kept Hsv Hkept) as (value & st2 & Hv & Er). destruct (Hrun _ st2 Er) as (s3 & E5).
    exists s, e', s1, status, served, left, s2, e2, s3, value. split; [exact E1|]. split; [exact E2|]. split; [exact E3|]. split; [exact Hv|]. split; [exact E4|exact E5].
Defined.
